(* ===== verification/_CoqProject ===== *)
-Q . S2P
Prelude.v
Text.v
Truncate.v
AbsolutePath.v
FileSystem.v
SeekSequence.v
PatchParser.v
StreamingPatch.v
Replacements.v
ApplyHunks.v
ApplyInvocation.v
ExecPolicy.v
PolicyFile.v
LegacyArgs.v
LegacyPolicy.v
StreamText.v
HiddenTags.v
TaggedLines.v
Utf8Stream.v
AssistantText.v
ResponseItems.v
OutputTruncation.v
ContextFragments.v
History.v
HistoryTokens.v
TurnItems.v
Compaction.v
Rollout.v
Reconstruction.v
SessionHistory.v
HeadTailBuffer.v
ProcessStore.v
ShellParse.v
CommandSafety.v
Permissions.v
WritableRoots.v
SandboxTransforms.v
ExecApproval.v
PatchSafety.v
TurnDiff.v
IpAddress.v
HostPatterns.v
NetworkConfig.v
MitmHooks.v
NetworkState.v
ConfigToml.v
PermissionProfiles.v
HookTypes.v
Requirements.v
ManagedSettings.v
ConfigLayers.v
HookDispatch.v
HookOutput.v
HookToolEvents.v
HookTurnEvents.v
HookDiscovery.v
HookEngine.v
AgentPath.v
AgentRegistry.v
AgentControl.v
AgentSpawn.v
ShellEnvironment.v
NetworkApproval.v
NetworkApprovalRuns.v
WorkflowSpec.v
WorkflowOrder.v
WorkflowValidation.v
