(* ===== verification/Prelude.v ===== *)
(** * A verification library for the codewith agent

    codewith (src/codex-rs) is a coding agent: a model proposes commands and patches, and the program
    decides what may run, applies what is approved, and shows what happened.  This library models the
    parts of it that decide, that change files and that shape the conversation, translated definition
    by definition from the Rust source.  Each definition that translates code is preceded by a comment
    [[<path>:<lines> <item>]].

    ** The program and the files of this library

    - {b Applying patches} (src/codex-rs/apply-patch).  A patch is text in the apply_patch format.
      [PatchParser] is parser.rs: the boundary checks in strict and lenient mode, the environment
      preamble, the hunks and the chunks of an update.  [StreamingPatch] is streaming_parser.rs, the
      state machine that reads a patch while it is still being received, and the consumer of it in
      core/src/tools/handlers/apply_patch.rs that sends the previews.  [SeekSequence] is
      seek_sequence.rs, which finds the lines of a chunk in a file.  [Replacements] is the part of
      lib.rs that turns chunks into replacements and applies them in place.  [ApplyHunks] is the part
      of lib.rs that carries out the hunks on a file system and records a delta of what it did.
      [ApplyInvocation] is invocation.rs: from an argument vector to the changes shown for approval.
    - {b Paths and files}.  [AbsolutePath] is utils/absolute-path.  [FileSystem] states what
      apply_patch relies on of the trait [ExecutorFileSystem] (file-system/src/lib.rs) as a class of
      operations with a class of laws, proves the laws for a tree of files and directories ([MemFs]),
      and models the local file system of exec-server with symbolic links ([LinkFs]).
    - {b Command policy} (src/codex-rs/execpolicy).  [ExecPolicy] is rule.rs, policy.rs, decision.rs
      and executable_name.rs: prefix rules, network rules and their evaluation.  [PolicyFile] is
      parser.rs and amend.rs: building a policy from its file, checking the examples in it, and
      appending a rule.
    - {b Legacy command policy} (src/codex-rs/execpolicy-legacy).  [LegacyArgs] is the matching of
      positional arguments (arg_matcher.rs, arg_type.rs, arg_resolver.rs, sed_command.rs);
      [LegacyPolicy] is program.rs, policy.rs, policy_parser.rs, execv_checker.rs and opt.rs.
    - {b Streamed text} (src/codex-rs/utils/stream-parser).  [StreamText] is the trait
      [StreamTextParser] as a class, with the law that cutting a text into chunks does not matter.
      [HiddenTags] is inline_hidden_tag.rs and citation.rs, [TaggedLines] is tagged_line_parser.rs and
      proposed_plan.rs, [Utf8Stream] is utf8_stream.rs, and [AssistantText] is assistant_text.rs, which
      combines them.
    - {b Conversation history} (src/codex-rs/core/src/context_manager).  [ResponseItems] is the data of
      protocol/src/models.rs, [ContextFragments] recognises the messages that the program itself injected
      (context-fragments, core/src/context, event_mapping.rs), and [History] is normalize.rs and the
      operations of history.rs that rewrite a history.  [Truncate] is utils/string, [OutputTruncation]
      is utils/output-truncation, and [HistoryTokens] is the rest of history.rs: recording items with
      truncation, the estimates of tokens, and the bounds of a headless turn.
    - {b Running commands} (src/codex-rs/core/src/unified_exec).  [HeadTailBuffer] is the capped buffer of
      an output (head_tail_buffer.rs) with the reader that drains it and the splitting of the output into
      events (async_watcher.rs).  [ProcessStore] is the table of running processes (mod.rs and
      process_manager.rs): reserving a number, storing, pruning, releasing and terminating.
    - {b Classifying commands} (src/codex-rs/shell-command).  [ShellParse] is bash.rs: the commands of a
      script from its syntax tree.  [CommandSafety] is is_safe_command.rs and is_dangerous_command.rs.
    - {b Permissions} (src/codex-rs/protocol/src/permissions.rs, models.rs, protocol.rs).  [Permissions] is
      the decision whether a path may be read or written under a filesystem policy, metadata protection
      included.  [WritableRoots] is what the policy becomes for the sandboxes and for direct reads: the
      writable roots with their read-only parts, the matcher of denied reads, the conversions from and to
      the legacy sandbox policies and the permission profiles.  [SandboxTransforms] is sandboxing's
      policy_transforms.rs (normalising, merging and intersecting requested and granted permissions) and
      the choice of a sandbox (manager.rs).
    - {b Approval} (src/codex-rs/core).  [ExecApproval] is exec_policy.rs and tools/sandboxing.rs: whether
      a command is forbidden, needs an answer or may run, with or without the sandbox, and the
      amendments of the policy.  It is built on [ExecPolicy], [PolicyFile], [ShellParse], [CommandSafety]
      and [WritableRoots].  [PatchSafety] is safety.rs and apply_patch.rs, the same for patches, on
      [ApplyInvocation] and [Permissions].
    - {b Network access} (src/codex-rs/network-proxy).  [IpAddress] is the classification of literal
      addresses (policy.rs, with the address parser of the standard library), [HostPatterns] the rest of
      policy.rs: host names, domain patterns, their comparison and their compilation to matchers.
      [NetworkConfig] is config.rs, [MitmHooks] is mitm_hook.rs, and [NetworkState] is state.rs,
      runtime.rs and network_policy.rs: the managed constraints, the shared state with every operation
      that changes it (reloading, also by force, and replacing it with what the loader of
      core/src/network_proxy_loader.rs builds and validates), and the decision about a host.  [NetworkApproval] is core/src/tools/network_approval.rs
      and network_policy_decision.rs: the service that asks about requests the proxy does not let through,
      shared by the tool calls of a session, its functions as programs of accesses to the service and to the
      rest of the session; [NetworkApprovalRuns] lets any number of these programs interleave.
    - {b What a turn does to files} (src/codex-rs/core/src/turn_diff_tracker.rs).  [TurnDiff] follows the
      deltas of [ApplyHunks] through a turn and reports the net difference.
    - {b Items, compaction and sessions' histories} (src/codex-rs/core).  [TurnItems] is event_mapping.rs and
      protocol/src/items.rs: what of a history is shown.  [Compaction] is compact.rs, compact_remote.rs,
      compact_remote_v2.rs and compact_model_fallback.rs: the prompt, the shortened history and the items
      kept.  [Rollout] is thread_rollout_truncation.rs, [Reconstruction] rebuilds a history from a
      persisted rollout (session/rollout_reconstruction.rs), and [SessionHistory] is the session that
      records, compacts, rolls back and resumes, writing its rollout as it goes.
    - {b Configuration} (src/codex-rs/config and core/src/config).  [ConfigToml] is merge.rs,
      key_aliases.rs and overrides.rs: documents, their aliases and their merging.  [ConfigLayers] is
      state.rs and fingerprint.rs: the stack of documents, its order, and where a setting comes from.
      [PermissionProfiles] is permissions_toml.rs and permissions.rs: named profiles, their inheritance
      and their compilation to the policies of [Permissions].  [Requirements] is constraint.rs,
      config_requirements.rs and requirements_exec_policy.rs: what administrators require, as constraints
      on values.  [ManagedSettings] is the permissions of a configuration and of a session under these
      requirements, with every operation that changes them.
    - {b Hooks} (src/codex-rs/hooks).  [HookTypes] is the data of protocol.rs.  [HookDiscovery] is
      config_rules.rs, engine/discovery.rs and declarations.rs: which hooks are configured by requirements,
      layers ([ConfigLayers]) and plugins, and which of them are trusted.  [HookDispatch] is
      engine/dispatcher.rs, engine/command_runner.rs and events/common.rs: selecting handlers, running
      them as processes and collecting the runs.  [HookOutput] is schema.rs and engine/output_parser.rs:
      what hooks are given and answer.  [HookToolEvents] and [HookTurnEvents] are the events, from a
      permission request to the end of a turn.  [HookEngine] is engine/mod.rs, output_spill.rs,
      registry.rs, types.rs and legacy_notify.rs: the engine, long output, and the hooks of the client.
    - {b Agents} (src/codex-rs/core/src/agent).  [AgentPath] is protocol/src/agent_path.rs: the names of
      agents and the references between them.  [AgentRegistry] is registry.rs: the registry that all
      agents of a session share, with reservations of slots, names and paths, and its operations as
      accesses to an atomic counter and a locked tree that interleave.  [AgentControl] is control.rs and
      control/legacy.rs: finding, listing and closing agents, with the traversal of the threads below one.
      [AgentSpawn] is control/spawn.rs with the recorded edges of state/src/runtime/threads.rs: spawning,
      resuming, reloading, sending input, and the history a fork starts from.
    - {b The environment of commands}.  [ShellEnvironment] is protocol/src/shell_environment.rs, its use by
      unified exec (process_manager.rs) and by the exec server (exec-server/src/local_process.rs).
    - {b Workflows} (src/codex-rs/workflows).  [WorkflowSpec] is spec.rs, error.rs and the checks of single
      fields, [WorkflowOrder] the ordering of steps, and [WorkflowValidation] is the rest of validation.rs,
      parse.rs, ancient_names.rs and branch_prompt.rs.

    This file holds [result] (Rust's [Result]) with its monad, early-return loops, the outcomes
    of calls that may panic ([run]) with their tactics and hints, and lemmas on lists.
    [Text] models [str] and [char].

    ** How the code is represented

    A [String] is the list of its Unicode scalar values; byte lengths and byte offsets are computed
    with [len_utf8] where the source uses them.  A function that returns [Result] returns [result].  A
    function that mutates its receiver returns the new receiver next to its result, also on failure,
    since a failed call leaves its changes behind.  Operations of Rust that can panic (indexing,
    slicing, [drain], [remove], subtraction of [usize]) are modelled with [run], whose outcomes are a
    value, an error, a panic and an exhausted loop, or with [option], where [None] is the panic; a
    theorem that such a function returns something is a proof that it does not panic.

    A loop that is not structurally recursive takes fuel.  The fuel is fixed inside the definition
    that models the function (a bound such as the number of lines or characters left), and running out
    of it is an outcome that the totality theorems exclude ([OutOfFuel], or the same [None] as a panic),
    so that they also show that the fuel is enough.  The loops of a session are bounded by what they
    consume: a compaction by (items + 2) * (retries + 1) requests, dropping items by their number, the
    inheritance of profiles by the number of entries, the traversal of the threads below an agent by the
    number of edges.  Waiting for the approval of a host is given two rounds of its
    loop, and it is proved that a waiter never needs a third.  Two loops have no bound of their own and take
    their fuel as an argument: the compare-and-swap loop, whose spurious failures are given, and the reloading of agents, which is proved
    to end when the recorded edges have no cycle and not to end on one that has.

    Code outside src/ is a parameter of the definitions that use it: the home and current directories,
    tree-sitter's extraction of a heredoc, the renderer of unified diffs, the Starlark interpreter (as
    the sequence of builtin calls it makes), shlex, JSON strings, the XML and JSON
    parsers of two message formats, regular expressions, path_absolutize and the executable bit, the
    syntax trees of tree-sitter, the matchers of globset, the url crate's parsing of hosts and addresses,
    the header names of HTTP, the answers of DNS, the serialised size of an item, the dimensions
    of an image, the random draw of a process number, and the order in which a hash map is iterated; SHA-1
    and SHA-256, the diff of two texts, the YAML library, the decoding of images and the reading of files
    for them, fresh identifiers, the answers of the model, the derived serialisation of messages, of a
    network section, of hooks' inputs and answers and of the identity of a hook, wildcards of host names,
    wildcard patterns for names of variables, the debug forms in error messages, the conversion of a document to JSON, and whether the network
    settings of an active profile are valid.  What a hook's process does, the clock and the order in which
    the processes finish are the record [HookDispatch.World]; the scheduler in it picks among the runs
    still pending, and any order is one that some scheduler gives.  What the sessions of other agents and
    the state database answer, and the creation of a thread, are arguments of the operations on agents.
    What the program observes of the host (home and temporary directories, which paths exist, what they
    canonicalise to, the text of a .git file) is the record [Permissions.Os].  What a theorem needs of
    such a parameter is a hypothesis of the theorem, and its witness instantiates the parameter with a
    concrete function.

    A [usize] whose overflow the source guards against is an [N] with the saturation written out, an
    [i64] a [Z] with its bounds; counters that cannot reach their limit on a real machine are so by the
    hypothesis [allocatable] (no text is longer than [isize::MAX]).  The one floating point computation
    (a share of a budget) uses SpecFloat.  Paths are compared by their components, as [Path] does.  The
    shared allocations that process handles compare by identity are numbers that are never reused.

    ** What the theorems show

    Each theorem states its conditions; the summary below leaves most of them out.

    - Patch text: parsing is total ([PatchParser.parse_patch_total]); however the text of a
      well-written patch is cut into deltas, the streaming parser finishes with exactly its hunks and the
      last preview shows all of them; the preview only grows, and the hunks a stream finishes with are
      well formed ([StreamingPatch]).
    - Locating and replacing: the search returns the first occurrence under the strictest of four line
      normalisations; the replacements of plain chunks are disjoint and ordered, and the in-place loop
      computes the spliced file; nothing panics ([SeekSequence], [Replacements]).
    - File system: for every lawful file system, every patch and every outcome, a delta that claims to
      be exact replays the initial files into the final ones and back; the changes shown for approval
      are exactly those that applying makes; success and failure are described hunk by hunk ([ApplyHunks],
      [ApplyInvocation]).
    - Paths: resolution yields a normal form, is idempotent, and is a walk over a stack of names
      ([AbsolutePath]).
    - Policy: a check reports exactly the rules that apply and takes their strictest decision; overlays
      never weaken a decision; a pattern matches the commands it denotes; the compiled network lists
      follow the last rule of a host; the examples of a policy file hold of the policy it builds;
      appending a rule is idempotent ([ExecPolicy], [PolicyFile]).
    - Legacy policy: the argument resolver computes a declarative matching and its internal invariant
      errors never occur; a program specification accepts exactly the calls it describes; an accepted
      execution stays in the given folders ([LegacyArgs], [LegacyPolicy]).
    - Streamed text: whatever the chunks, the hidden tag parser returns what a declarative splitting of
      the complete text says, the line parser finds the blocks of the complete lines, the byte wrapper
      is transparent and refuses a chunk only when no text begins like that, and the combined parser
      equals two passes over the complete answer ([HiddenTags], [TaggedLines], [Utf8Stream],
      [AssistantText]).  The first three discharge the law of [StreamText] or are proved against it.
    - Conversation history: a history prepared for a prompt has an output for every call and the call of
      every output, and only images the model may see; preparing it changes nothing else and is
      idempotent; dropping the oldest item keeps calls and outputs paired; a rollback drops exactly the
      turns asked for ([History]).  Truncation respects its budget and character boundaries, texts and
      tool outputs alike, and a headless turn is bounded ([Truncate], [OutputTruncation],
      [HistoryTokens]).
    - Running commands: the collected output is exactly the head and the tail of everything received,
      whatever the chunks and the drains; every byte is passed on; the process table keeps its invariant
      under any interleaving of its operations, handles taken out by an end of all processes are all
      marked in the end, and stale handles are harmless ([HeadTailBuffer],
      [ProcessStore]).
    - Classification: the commands of an accepted script are all of its commands; a command is never
      both known safe and dangerous; the git commands taken as safe are described exactly ([ShellParse],
      [CommandSafety]).
    - Permissions: the most specific entry decides; reported full access is full access; metadata is
      protected; the roots handed to the sandboxes agree with the decision; denied reads are enforced and
      survive a change of policy; legacy policies and profiles round-trip; a grant stays within its
      request and keeps the denied patterns ([Permissions], [WritableRoots], [SandboxTransforms]).
    - Approval: a command or a patch runs unasked only when every part of it is allowed, a dangerous
      command never does unless the user disabled both sandbox and questions, and an amendment has the
      effect it was proposed for ([ExecApproval], [PatchSafety]).
    - Network access: addresses are classified by the listed blocks and patterns compared by the hosts
      they stand for; validated hooks apply as written; the proxy listens locally; the shared state
      satisfies its managed constraints under any interleaving, a host it lets through is one the managed
      lists let through, and an update of a list has the effect it is for ([IpAddress], [HostPatterns],
      [MitmHooks], [NetworkConfig], [NetworkState]).  A request is let through only by an answer about its
      host, protocol and port, a host for the session only by an answer for the session, and every request is
      answered, in every interleaving ([NetworkApproval], [NetworkApprovalRuns]).
    - Turns and histories: the difference reported for a turn is the net change of the files it touched
      ([TurnDiff]); a compaction ends, fits its request and keeps what it says; a rollout rebuilds the
      history it was written from, checkpoints and rollbacks included; a resumed session has the
      history of the live one unless a rollback dropped a checkpoint, and then the one its rollout
      rebuilds ([Compaction], [Rollout], [Reconstruction], [SessionHistory]).
    - Configuration: a setting of the merged document is that of the highest layer that decides it, which
      is also its reported origin; stacks stay ordered under every replacement of a layer; resolving a
      profile ends and follows its ancestors; a compiled profile has exactly what its entries stand for; what
      administrators require holds of every session, after any sequence of accepted updates, and the reads
      they deny stay denied ([ConfigToml], [ConfigLayers], [PermissionProfiles], [Requirements],
      [ManagedSettings]).
    - Hooks: a hook runs only if requirements or a managed layer declare it or a layer of the user trusts exactly its
      hash; the handlers
      of an event run once each, and their results do not depend on the order in which they finish; any
      denial or block wins; of competing rewrites of a tool's input the last to finish wins; a stop wins
      over a continuation; nothing panics; long output is shortened and kept ([HookDiscovery],
      [HookDispatch], [HookToolEvents], [HookTurnEvents], [HookEngine]).
    - Agents: paths are sequences of names, and references resolve to them; under every interleaving the
      counter of slots is the number of living agents, of slots held and of slots stranded by registering a thread
      twice, and within its limit; nicknames
      are given once; a spawn registers one agent or changes nothing, and is a sequence of the accesses
      the invariant is proved for; closing an agent closes exactly what was spawned below it; a fork
      remembers no tool calls ([AgentPath], [AgentRegistry], [AgentControl], [AgentSpawn]).
    - Environment: which variables a command sees is decided as the policy says, secrets stay out, and a
      command on an exec server sees the same as one here ([ShellEnvironment]).
    - Workflows: the check for cycles is exact, and a document is accepted exactly when it is well formed
      ([WorkflowOrder], [WorkflowValidation]).

    Some theorems show behaviour that the documentation does not promise or contradicts; they are
    stated next to the component they are about ([seek_sequence_eof_tail_only],
    [overlapping_chunks_lose_changes], [trailing_blank_line_dropped], [move_to_self_deletes_file],
    [dangling_link_delta_not_exact], [same_path_hunks_misreported],
    [relative_program_matches_basename_rule], [normalize_host_not_idempotent],
    [cwd_listing_not_checked], [split_character_sent_as_bytes], [rg_combined_option_accepted],
    [metadata_depends_on_order], [missing_slash_tmp_reports_full_write], [gitdir_outside_root],
    [read_only_carveout_lost], [unroutable_counts_as_public], [port_escapes_managed_list],
    [blocked_request_lost], [self_move_shown_as_change], [rename_and_add_shown], [pair_dropped_whole],
    [rolled_back_checkpoint], [nested_entry_in_home], [reviewer_update_unchecked],
    [legacy_policy_drops_denials], [origin_of_spelling], [denial_with_interrupt_dropped],
    [oversized_timeout_panics], [preview_exceeds_limit], [registered_twice_keeps_a_slot],
    [reload_of_cycle_never_ends], [server_keeps_its_locale], [dropped_owner_strands],
    [root_dot_pattern_lost], [rejected_line_dropped]).

    ** What is not modelled

    Windows branches, serialisation, telemetry, process start-up and asynchronous I/O; the terminal
    interface, the servers and their protocols; sandboxes of operating systems; authentication.
    Concurrency: the operations of the process table each hold its lock once and are one step; ending all
    processes empties the table in one step and marks each handle in a later one; the theorems quantify over all
    interleavings.  The operations on the state of the network proxy
    read a snapshot, compute without the lock and commit if the configuration is still the one read;
    each takes the snapshot and the current state separately, and the theorems quantify over all
    snapshots that ever were current.  The processes of hooks run concurrently; their results are collected
    in the order in which they finish, over which the theorems quantify.  The operations on the registry of
    agents are cut into their accesses to the counter and to the tree, which interleave in any order.  The
    functions of the network approval service are cut into their accesses under a lock and their questions to
    the session, which interleave in any order, with any answers; a future that is dropped half way is only in
    the example named above.  The other components are called with exclusive access.

    Finding and loading rules files and configuration files, composing the requirements of several sources
    (config/src/requirements_layers), building the command lines of the sandboxes, the PowerShell
    classification, the allowed prefixes and the sandbox migration of execpolicy, the message queue
    between agents (hooks/src/fleet_comms.rs), the watcher that reports the end of an agent, and the
    execution of workflows are left out: they are I/O around the parts that are modelled, or generated from
    data types.  The mailbox of a session (core/src/session/input_queue.rs) and the composition of requirements
    would be the next to model. *)

From stdpp Require Export base tactics option list list_numbers gmap sorting.
From stdpp Require Export strings pretty.
From Stdlib Require Export NArith ZArith Lia.

#[global] Set Default Goal Selector "!".

(** ** Results *)

(** Rust's [Result<T, E>]; the error type comes first so that [result E] is a monad. *)
Inductive result (E A : Type) : Type :=
| Ok (a : A)
| Err (e : E).
Arguments Ok {_ _} _.
Arguments Err {_ _} _.

#[global] Instance result_eq_dec {E A} `{EqDecision E, EqDecision A} : EqDecision (result E A).
Proof. solve_decision. Defined.

#[global] Instance result_ret {E} : MRet (result E) := fun _ a => Ok a.
#[global] Instance result_bind {E} : MBind (result E) :=
  fun _ _ k m => match m with Ok a => k a | Err e => Err e end.

#[global] Instance result_fmap {E} : FMap (result E) :=
  fun _ _ f m => match m with Ok a => Ok (f a) | Err e => Err e end.

(** [.map_err(f)]. *)
Definition map_err {E F A} (f : E -> F) (m : result E A) : result F A :=
  match m with Ok a => Ok a | Err e => Err (f e) end.

(** [.ok()]. *)
Definition ok {E A} (m : result E A) : option A :=
  match m with Ok a => Some a | Err _ => None end.

Definition is_ok {E A} (m : result E A) : bool :=
  match m with Ok _ => true | Err _ => false end.

(** [.ok_or(e)]. *)
Definition ok_or {E A} (o : option A) (e : E) : result E A :=
  match o with Some a => Ok a | None => Err e end.

(** [for x in xs { body }] where the body may return early with an error. *)
Fixpoint try_fold {E S A} (f : S -> A -> result E S) (xs : list A) (s : S) : result E S :=
  match xs with
  | [] => Ok s
  | x :: xs => s' ← f s x; try_fold f xs s'
  end.

(** [xs.map(f).collect::<Result<Vec<_>, _>>()]. *)
Fixpoint try_map {E A B} (f : A -> result E B) (xs : list A) : result E (list B) :=
  match xs with
  | [] => Ok []
  | x :: xs => y ← f x; ys ← try_map f xs; Ok (y :: ys)
  end.

Lemma result_bind_ok {E A B} (m : result E A) (k : A -> result E B) b :
  (m ≫= k) = Ok b <-> exists a, m = Ok a /\ k a = Ok b.
Proof. destruct m; simpl; naive_solver. Qed.

Lemma try_map_ok {E A B} (f : A -> result E B) xs ys :
  try_map f xs = Ok ys <-> Forall2 (fun x y => f x = Ok y) xs ys.
Proof.
  revert ys; induction xs as [|x xs IH]; intros ys; simpl.
  - split; [intros [= <-]; constructor | by inversion 1].
  - rewrite result_bind_ok; setoid_rewrite result_bind_ok; split.
    + intros (y & Hy & zs & Hzs & [= <-]); constructor; [done | by apply IH].
    + inversion 1; subst. eexists; split; [done|]. eexists; split; [by apply IH | done].
Qed.

Lemma try_fold_app {E S A} (f : S -> A -> result E S) xs ys s :
  try_fold f (xs ++ ys) s = (try_fold f xs s ≫= try_fold f ys).
Proof.
  revert s; induction xs as [|x xs IH]; intros s; simpl; [done|].
  destruct (f s x); simpl; [apply IH | done].
Qed.

Lemma try_fold_unit {E A} (f : A -> result E unit) xs :
  try_fold (fun (_ : unit) x => f x) xs tt = Ok tt <-> Forall (fun x => f x = Ok tt) xs.
Proof.
  induction xs as [|x xs IH]; cbn [try_fold]; [split; [constructor|done]|].
  rewrite Forall_cons, <- IH. destruct (f x) as [[]|]; naive_solver.
Qed.

Lemma try_map_total {E A B} (f : A -> result E B) xs :
  Forall (fun x => exists y, f x = Ok y) xs -> exists ys, try_map f xs = Ok ys.
Proof.
  induction 1 as [|x xs [y Hy] _ [ys IH]]; cbn [try_map]; [by exists []|]. rewrite Hy; cbn. rewrite IH. by exists (y :: ys).
Qed.

Lemma map_err_ok {E F A} (f : E -> F) (m : result E A) a : map_err f m = Ok a -> m = Ok a.
Proof. by destruct m as [x|e]; [intros [= ->]|]. Qed.

(** ** Runs

    Code that indexes slices or loops: besides its [Result], a run may panic, and the model of a loop
    may exhaust its fuel.  The theorems show that neither happens. *)
Inductive run (E A : Type) : Type :=
| Done (a : A)
| Fail (e : E)
| Panic
| OutOfFuel.
Arguments Done {_ _} _.
Arguments Fail {_ _} _.
Arguments Panic {_ _}.
Arguments OutOfFuel {_ _}.

#[global] Instance run_ret {E} : MRet (run E) := fun _ a => Done a.
#[global] Instance run_bind {E} : MBind (run E) :=
  fun _ _ k m => match m with
                 | Done a => k a
                 | Fail e => Fail e
                 | Panic => Panic
                 | OutOfFuel => OutOfFuel
                 end.

(** A plain [Result] inside a run, as the [?] operator uses it. *)
Definition try_ {E A} (m : result E A) : run E A :=
  match m with Ok a => Done a | Err e => Fail e end.

(** The run comes to an end and gives the [Result] [r]. *)
Definition returns {E A} (m : run E A) (r : result E A) : Prop := m = try_ r.

(** [&v[a..b]]. *)
Definition slice {E A} (l : list A) (a b : nat) : run E (list A) :=
  if (a <=? b) && (b <=? length l) then Done (take (b - a) (drop a l)) else Panic.

(** [&v[a..]]. *)
Definition slice_from {E A} (l : list A) (a : nat) : run E (list A) :=
  if a <=? length l then Done (drop a l) else Panic.

(** [v[i]]. *)
Definition index {E A} (l : list A) (i : nat) : run E A :=
  match l !! i with Some x => Done x | None => Panic end.

Lemma run_bind_done {E A B} (m : run E A) (k : A -> run E B) b :
  (m ≫= k) = Done b <-> exists a, m = Done a /\ k a = Done b.
Proof. destruct m; simpl; naive_solver. Qed.

(** Neither a panic nor an exhausted loop. *)
Definition safe {E A} (m : run E A) : Prop :=
  match m with Panic | OutOfFuel => False | _ => True end.

Lemma safe_returns {E A} (m : run E A) : safe m <-> exists r, returns m r.
Proof.
  split.
  - destruct m as [a|e| |]; intros H; [by exists (Ok a) | by exists (Err e) | done | done].
  - intros [[a|e] ->]; done.
Qed.

Lemma safe_bind {E A B} (m : run E A) (k : A -> run E B) :
  safe m -> (forall a, m = Done a -> safe (k a)) -> safe (m ≫= k).
Proof. destruct m; simpl; auto. Qed.

Lemma safe_try {E A} (m : result E A) : safe (try_ m).
Proof. by destruct m. Qed.

Lemma try_done {E A} (m : result E A) a : try_ m = Done a <-> m = Ok a.
Proof. destruct m; simpl; naive_solver. Qed.

Lemma slice_ok {E A} (l : list A) a b :
  a <= b -> b <= length l -> @slice E A l a b = Done (take (b - a) (drop a l)).
Proof.
  intros Ha Hb. unfold slice.
  by rewrite (proj2 (Nat.leb_le _ _) Ha), (proj2 (Nat.leb_le _ _) Hb).
Qed.

Lemma slice_from_ok {E A} (l : list A) a : a <= length l -> @slice_from E A l a = Done (drop a l).
Proof. intros Ha. unfold slice_from. by rewrite (proj2 (Nat.leb_le _ _) Ha). Qed.

Lemma slice_from_done {E A} (l : list A) a r :
  @slice_from E A l a = Done r <-> a <= length l /\ r = drop a l.
Proof. unfold slice_from. destruct (Nat.leb_spec a (length l)); naive_solver lia. Qed.

Lemma slice_done {E A} (l : list A) a b r :
  @slice E A l a b = Done r <-> a <= b <= length l /\ r = take (b - a) (drop a l).
Proof.
  unfold slice. destruct (Nat.leb_spec a b), (Nat.leb_spec b (length l)); naive_solver lia.
Qed.

#[global] Arguments slice : simpl never.
#[global] Arguments slice_from : simpl never.

Create HintDb runs.
#[export] Hint Resolve safe_try : runs.

(** ** Tactics *)

(** Case analysis on whatever the goal (or a hypothesis) is stuck on. *)
Ltac case_goal := repeat (case_match; simplify_eq/=; try done).

(** Split a successful [bind] in a hypothesis into its steps. *)
Ltac bind_inv H :=
  repeat match type of H with
  | (_ ≫= _) = Ok _ =>
      let a := fresh "a" in let Ha := fresh "Ha" in
      apply result_bind_ok in H as (a & Ha & H)
  | (_ ≫= _) = Done _ =>
      let a := fresh "a" in let Ha := fresh "Ha" in
      apply run_bind_done in H as (a & Ha & H)
  end.

(** ** Lists *)

Lemma last_snoc_inv {A} (l : list A) x : last l = Some x -> exists l', l = l' ++ [x].
Proof.
  induction l as [|y l _] using rev_ind; [done|].
  rewrite last_snoc. intros [= ->]. eauto.
Qed.

Lemma take_drop_split {A} (l : list A) i n :
  l = take i l ++ take n (drop i l) ++ drop (i + n) l.
Proof. rewrite <- drop_drop, (take_drop n), (take_drop i). done. Qed.

Lemma app_eq_split {A} (l k l' k' : list A) :
  l ++ k = l' ++ k' -> length l <= length l' -> exists m, l' = l ++ m /\ k = m ++ k'.
Proof.
  intros Heq Hlen. apply app_eq_inv in Heq as [(m & -> & ->)|(m & -> & ->)].
  - rewrite length_app in Hlen. destruct m; [|simpl in Hlen; lia].
    exists []. by rewrite !app_nil_r.
  - eauto.
Qed.

Lemma Forall_snoc {A} (P : A -> Prop) l x : Forall P (l ++ [x]) <-> Forall P l /\ P x.
Proof. rewrite Forall_app, Forall_singleton. done. Qed.

(** In-place update of the last element, [if let Some(x) = v.last_mut() { .. }]. *)
Fixpoint map_last {A} (f : A -> A) (l : list A) : list A :=
  match l with
  | [] => []
  | [x] => [f x]
  | x :: l' => x :: map_last f l'
  end.

Lemma map_last_snoc {A} (f : A -> A) l x : map_last f (l ++ [x]) = l ++ [f x].
Proof.
  induction l as [|y l IH]; [done|]. simpl. rewrite IH. by destruct l.
Qed.

Lemma length_map_last {A} (f : A -> A) l : length (map_last f l) = length l.
Proof.
  induction l as [|x l _] using rev_ind; [done|]. rewrite map_last_snoc, !length_app. done.
Qed.

(** [hs'] extends [hs] by appending and by rewriting at most the last element of [hs]. *)
Definition extends {A} (hs hs' : list A) : Prop :=
  removelast hs `prefix_of` hs' /\ length hs <= length hs'.

Lemma removelast_prefix {A} (l : list A) : removelast l `prefix_of` l.
Proof.
  induction l as [|x l _] using rev_ind; [done|]. rewrite removelast_last. by apply prefix_app_r.
Qed.

Lemma length_removelast {A} (l : list A) : length (removelast l) = length l - 1.
Proof.
  induction l as [|x l _] using rev_ind; [done|]. rewrite removelast_last, length_app. simpl; lia.
Qed.

Lemma extends_snoc {A} (l : list A) x y m : extends (l ++ [x]) (l ++ y :: m).
Proof.
  split; [|rewrite !length_app; simpl; lia]. rewrite removelast_last. by apply prefix_app_r.
Qed.

Lemma extends_app {A} (l m : list A) : extends l (l ++ m).
Proof.
  split; [|rewrite length_app; lia]. etrans; [apply removelast_prefix | by apply prefix_app_r].
Qed.

#[global] Instance extends_preorder {A} : PreOrder (@extends A).
Proof.
  split.
  - intros l. split; [apply removelast_prefix | done].
  - intros l1 l2 l3 [Hp1 Hl1] [Hp2 Hl2]. split; [|lia].
    destruct (prefix_weak_total _ _ _ Hp1 (removelast_prefix l2)) as [H|H]; [by etrans|].
    apply prefix_length in H as Hlen. rewrite !length_removelast in Hlen.
    rewrite <- (prefix_length_eq _ _ H) by (rewrite !length_removelast; lia). done.
Qed.

(** ** Vectors *)

(** [v.insert(i, x)], which panics when [i > v.len()]. *)
Definition vec_insert {E A} (l : list A) (i : nat) (x : A) : run E (list A) :=
  if i <=? length l then Done (take i l ++ x :: drop i l) else Panic.

(** [v.sort_by_key(key)]: a stable sort. *)
Fixpoint insert_by_key {A} (key : A -> nat) (x : A) (l : list A) : list A :=
  match l with
  | [] => [x]
  | y :: l' => if key x <=? key y then x :: l else y :: insert_by_key key x l'
  end.
Definition sort_by_key {A} (key : A -> nat) (l : list A) : list A :=
  foldr (insert_by_key key) [] l.

Lemma insert_by_key_perm {A} (key : A -> nat) x l : insert_by_key key x l ≡ₚ x :: l.
Proof.
  induction l as [|y l IH]; simpl; [done|]. destruct (key x <=? key y); [done|].
  rewrite IH. apply Permutation_swap.
Qed.

Lemma sort_by_key_perm {A} (key : A -> nat) l : sort_by_key key l ≡ₚ l.
Proof.
  induction l as [|x l IH]; simpl; [done|]. rewrite insert_by_key_perm. by f_equiv.
Qed.

Lemma insert_by_key_le {A} (key : A -> nat) x l :
  Forall (fun y => key x <= key y) l -> insert_by_key key x l = x :: l.
Proof.
  destruct l as [|y l]; simpl; [done|]. intros H. apply Forall_cons in H as [H _].
  by rewrite (proj2 (Nat.leb_le _ _) H).
Qed.

Lemma insert_by_key_app {A} (key : A -> nat) x l m :
  Forall (fun y => key y < key x) l -> insert_by_key key x (l ++ m) = l ++ insert_by_key key x m.
Proof.
  induction 1 as [|y l Hy _ IH]; simpl; [done|].
  rewrite (proj2 (Nat.leb_gt _ _) Hy). by rewrite IH.
Qed.

Lemma insert_by_key_sorted {A} (key : A -> nat) x l :
  StronglySorted (fun a b => key a <= key b) l ->
  StronglySorted (fun a b => key a <= key b) (insert_by_key key x l).
Proof.
  induction 1 as [|y l Hl IH Hy]; simpl; [by repeat constructor|].
  destruct (Nat.leb_spec (key x) (key y)) as [Hxy|Hxy].
  - constructor; [by constructor|]. constructor; [done|].
    eapply Forall_impl; [done|]. simpl. lia.
  - constructor; [done|]. rewrite insert_by_key_perm. constructor; [lia | done].
Qed.

Lemma sort_by_key_sorted {A} (key : A -> nat) l :
  StronglySorted (fun a b => key a <= key b) (sort_by_key key l).
Proof. induction l; simpl; [constructor | by apply insert_by_key_sorted]. Qed.

(** [slice::sort_by_key]: a stable sort by a total preorder. *)
Fixpoint insert_by {A} (le : A -> A -> bool) (x : A) (l : list A) : list A :=
  match l with
  | [] => [x]
  | y :: l' => if le x y then x :: l else y :: insert_by le x l'
  end.
Definition sort_by {A} (le : A -> A -> bool) (l : list A) : list A := foldr (insert_by le) [] l.

Lemma insert_by_perm {A} (le : A -> A -> bool) x l : insert_by le x l ≡ₚ x :: l.
Proof.
  induction l as [|y l IH]; simpl; [done|]. destruct (le x y); [done|]. rewrite IH. apply Permutation_swap.
Qed.

Lemma sort_by_perm {A} (le : A -> A -> bool) l : sort_by le l ≡ₚ l.
Proof. induction l as [|x l IH]; simpl; [done|]. rewrite insert_by_perm. by f_equiv. Qed.

Lemma insert_by_sorted {A} (le : A -> A -> bool) (R : relation A) x l :
  Transitive R -> (forall a b, le a b = true -> R a b) -> (forall a b, le a b = false -> R b a) ->
  StronglySorted R l -> StronglySorted R (insert_by le x l).
Proof.
  intros HR Ht Hf. induction 1 as [|y l Hl IH Hy]; simpl; [by repeat constructor|].
  destruct (le x y) eqn:E.
  - constructor; [by constructor|]. constructor; [by apply Ht|].
    eapply Forall_impl; [done|]. intros z Hz. by apply (HR _ y); [apply Ht|].
  - constructor; [done|]. rewrite insert_by_perm. constructor; [by apply Hf|done].
Qed.

Lemma sort_by_sorted {A} (le : A -> A -> bool) (R : relation A) l :
  Transitive R -> (forall a b, le a b = true -> R a b) -> (forall a b, le a b = false -> R b a) ->
  StronglySorted R (sort_by le l).
Proof.
  intros HR Ht Hf. induction l as [|x l IH]; simpl; [constructor|]. by apply insert_by_sorted.
Qed.

(** [Iterator::filter] keeps the order. *)
Lemma filter_sublist {A} (p : A -> bool) (l : list A) : List.filter p l `sublist_of` l.
Proof. induction l as [|x l IH]; cbn; [done|]. destruct (p x); by constructor. Qed.

(** [Vec::dedup]: of a run of equal elements the first is kept. *)
Fixpoint dedup_adjacent {A} `{EqDecision A} (l : list A) : list A :=
  match l with
  | x :: (y :: _) as l' => if bool_decide (x = y) then dedup_adjacent l' else x :: dedup_adjacent l'
  | _ => l
  end.

Lemma dedup_adjacent_elem {A} `{EqDecision A} (l : list A) x : x ∈ dedup_adjacent l <-> x ∈ l.
Proof.
  induction l as [|y [|z l] IH]; [done..|]. cbn [dedup_adjacent] in *. case_bool_decide as E.
  - rewrite IH, E, !elem_of_cons. tauto.
  - rewrite elem_of_cons, IH, !elem_of_cons. tauto.
Qed.
