(* ===== verification/Text.v ===== *)
(** * Rust text

    A Rust [String] is modelled as the list of its Unicode scalar values ([char]s, here [N]); byte
    lengths and byte offsets are recovered with [len_utf8].  This file holds the functions of
    [str], [char] and [slice] that the modelled components call, with the lemmas they share. *)

From S2P Require Import Prelude.

Abbreviation char := N (only parsing).
Abbreviation str := (list N) (only parsing).

(** An ASCII literal of the source. *)
Definition lit (s : string) : str :=
  map Ascii.N_of_ascii (String.list_ascii_of_string s).

Definition NL : char := 10%N.
Definition CR : char := 13%N.
Definition SP : char := 32%N.
Definition PLUS : char := 43%N.
Definition MINUS : char := 45%N.

(** [format!("{n}")] for unsigned integers. *)
Definition show_nat (n : nat) : str := lit (pretty n).
Definition show_N (n : N) : str := lit (pretty n).

(** ** Characters *)

(** [char::is_whitespace]: the Unicode property White_Space. *)
Definition is_whitespace (c : char) : bool :=
  ((9 <=? c) && (c <=? 13) || (c =? 32) || (c =? 133) || (c =? 160) || (c =? 5760)
   || ((8192 <=? c) && (c <=? 8202)) || (c =? 8232) || (c =? 8233) || (c =? 8239)
   || (c =? 8287) || (c =? 12288))%N.

Definition is_ascii_digit (c : char) : bool := ((48 <=? c) && (c <=? 57))%N.
Definition is_ascii_upper (c : char) : bool := ((65 <=? c) && (c <=? 90))%N.
Definition is_ascii_lower (c : char) : bool := ((97 <=? c) && (c <=? 122))%N.
Definition is_ascii_alphanumeric (c : char) : bool :=
  is_ascii_digit c || is_ascii_upper c || is_ascii_lower c.

Definition to_ascii_lower_char (c : char) : char :=
  if is_ascii_upper c then (c + 32)%N else c.
Definition to_ascii_lowercase (s : str) : str := map to_ascii_lower_char s.

(** [char::len_utf8]. *)
Definition char_len_utf8 (c : char) : nat :=
  if (c <? 128)%N then 1 else if (c <? 2048)%N then 2 else if (c <? 65536)%N then 3 else 4.

(** [str::len]: the length in bytes. *)
Definition len_utf8 (s : str) : nat := sum_list_with char_len_utf8 s.

(** ** Trimming *)

Fixpoint trim_start_by (p : char -> bool) (s : str) : str :=
  match s with
  | [] => []
  | c :: s' => if p c then trim_start_by p s' else s
  end.

Fixpoint trim_end_by (p : char -> bool) (s : str) : str :=
  match s with
  | [] => []
  | c :: s' => match trim_end_by p s' with
               | [] => if p c then [] else [c]
               | r => c :: r
               end
  end.

Definition trim_start : str -> str := trim_start_by is_whitespace.
Definition trim_end : str -> str := trim_end_by is_whitespace.
Definition trim (s : str) : str := trim_end (trim_start s).

(** ** Prefixes and suffixes *)

Fixpoint strip_prefix (p s : str) : option str :=
  match p, s with
  | [], _ => Some s
  | a :: p', b :: s' => if (a =? b)%N then strip_prefix p' s' else None
  | _ :: _, [] => None
  end.

Definition starts_with (p s : str) : bool :=
  match strip_prefix p s with Some _ => true | None => false end.

Definition strip_suffix (p s : str) : option str :=
  let k := length s - length p in
  if (length p <=? length s) && bool_decide (drop k s = p) then Some (take k s) else None.

Definition ends_with (p s : str) : bool :=
  match strip_suffix p s with Some _ => true | None => false end.

(** ** Searching and splitting *)

(** [str::find(needle)], as a number of characters. *)
Fixpoint find_sub (needle s : str) : option nat :=
  if starts_with needle s then Some 0
  else match s with
       | [] => None
       | _ :: s' => S <$> find_sub needle s'
       end.

Definition contains_sub (needle s : str) : bool :=
  match find_sub needle s with Some _ => true | None => false end.

Definition contains_char (c : char) (s : str) : bool := existsb (N.eqb c) s.

(** [str::split(c)]. *)
Fixpoint split_char (c : char) (s : str) : list str :=
  match s with
  | [] => [[]]
  | x :: s' =>
      if (x =? c)%N then [] :: split_char c s'
      else match split_char c s' with
           | [] => [[x]]
           | l :: ls => (x :: l) :: ls
           end
  end.

(** [str::split_inclusive(c)]. *)
Fixpoint split_inclusive (c : char) (s : str) : list str :=
  match s with
  | [] => []
  | x :: s' =>
      if (x =? c)%N then [x] :: split_inclusive c s'
      else match split_inclusive c s' with
           | [] => [[x]]
           | l :: ls => (x :: l) :: ls
           end
  end.

(** [str::lines]: a line feed ends a line, and a carriage return just before it is dropped. *)
Definition strip_line_ending (l : str) : str :=
  match strip_suffix [NL] l with
  | None => l
  | Some l1 => match strip_suffix [CR] l1 with None => l1 | Some l2 => l2 end
  end.
Definition lines (s : str) : list str := map strip_line_ending (split_inclusive NL s).

(** [str::split_once(c)]. *)
Fixpoint split_once (c : char) (s : str) : option (str * str) :=
  match s with
  | [] => None
  | x :: s' =>
      if (x =? c)%N then Some ([], s')
      else match split_once c s' with
           | Some (a, b) => Some (x :: a, b)
           | None => None
           end
  end.

(** [str::rsplit_once(c)]. *)
Definition rsplit_once (c : char) (s : str) : option (str * str) :=
  match split_once c (rev s) with
  | Some (b, a) => Some (rev a, rev b)
  | None => None
  end.

(** [slice::join(sep)]. *)
Fixpoint join (sep : str) (ls : list str) : str :=
  match ls with
  | [] => []
  | [l] => l
  | l :: ls' => l ++ sep ++ join sep ls'
  end.

(** ** Numbers *)

Definition u64_max : N := 18446744073709551615%N.
Definition usize_max : N := u64_max.

Fixpoint digits_value (acc : N) (s : str) : option N :=
  match s with
  | [] => Some acc
  | c :: s' => if is_ascii_digit c then digits_value (10 * acc + (c - 48)) s' else None
  end%N.

(** The arithmetic of [usize] and [u64] that saturates. *)
Definition saturating_add (a b : N) : N := N.min (a + b) usize_max.
Definition saturating_sub (a b : N) : N := (a - b)%N.
Definition saturating_mul (a b : N) : N := N.min (a * b) usize_max.

(** ** Byte offsets *)

(** [str::len] as a [usize]. *)
Definition str_len (s : str) : N := N.of_nat (len_utf8 s).

(** [char::len_utf8] as a [usize]. *)
Definition char_len (c : char) : N := N.of_nat (char_len_utf8 c).

(** [str::char_indices], from the byte offset [i]. *)
Fixpoint char_indices (i : N) (s : str) : list (N * char) :=
  match s with
  | [] => []
  | c :: s' => (i, c) :: char_indices (i + char_len c) s'
  end.

(** The order of strings: by bytes, which is by characters. *)
Fixpoint str_leb (a b : str) : bool :=
  match a, b with
  | [], _ => true
  | _ :: _, [] => false
  | x :: a, y :: b => if (x <? y)%N then true else if (x =? y)%N then str_leb a b else false
  end.

Definition str_le (a b : str) : Prop := str_leb a b = true.
#[global] Instance str_le_dec : RelDecision str_le.
Proof. intros a b. unfold str_le. apply _. Defined.

(** The two parts of a text at a byte offset; [None] when the offset is not a character boundary. *)
Fixpoint split_at_byte (s : str) (n : N) : option (str * str) :=
  if (n =? 0)%N then Some ([], s)
  else match s with
       | [] => None
       | c :: s' => if (n <? char_len c)%N then None
                    else match split_at_byte s' (n - char_len c) with
                         | Some (a, b) => Some (c :: a, b)
                         | None => None
                         end
       end.

(** [&s[..n]] and [&s[n..]], which panic when [n] is not a character boundary. *)
Definition slice_to_byte (s : str) (n : N) : option str := fst <$> split_at_byte s n.
Definition slice_from_byte (s : str) (n : N) : option str := snd <$> split_at_byte s n.

(** An allocation of Rust is at most [isize::MAX] bytes long. *)
Definition isize_max : N := 9223372036854775807%N.
Definition allocatable (s : str) : Prop := (str_len s <= isize_max)%N.

(** [s.parse::<u64>()]: an optional plus sign, at least one digit, no overflow. *)
Definition parse_u64 (s : str) : option N :=
  let digits := match s with c :: s' => if (c =? PLUS)%N then s' else s | [] => s end in
  match digits with
  | [] => None
  | _ => match digits_value 0 digits with
         | Some n => if (n <=? u64_max)%N then Some n else None
         | None => None
         end
  end.

#[global] Arguments lit : simpl never.
#[global] Arguments starts_with : simpl never.
#[global] Arguments strip_suffix : simpl never.
#[global] Arguments ends_with : simpl never.
#[global] Arguments trim : simpl never.
#[global] Arguments is_whitespace : simpl never.

(** ** Lemmas *)

Create HintDb text.

Lemma lit_app s t : lit (s +:+ t) = lit s ++ lit t.
Proof.
  unfold lit. induction s as [|a s IH]; [done|].
  change (String a s +:+ t) with (String a (s +:+ t)). simpl. by rewrite IH.
Qed.

Lemma strip_prefix_Some p s r : strip_prefix p s = Some r <-> s = p ++ r.
Proof.
  revert s; induction p as [|a p IH]; intros [|b s]; simpl; try naive_solver.
  destruct (N.eqb_spec a b); subst; [rewrite IH|]; naive_solver.
Qed.

#[global] Arguments strip_prefix : simpl never.

Lemma strip_prefix_app p r : strip_prefix p (p ++ r) = Some r.
Proof. by apply strip_prefix_Some. Qed.

Lemma starts_with_spec p s : starts_with p s = true <-> exists r, s = p ++ r.
Proof.
  unfold starts_with. destruct (strip_prefix p s) as [r|] eqn:E.
  - apply strip_prefix_Some in E. naive_solver.
  - split; [done|]. intros [r ->]. by rewrite strip_prefix_app in E.
Qed.

Lemma starts_with_false p s : starts_with p s = false <-> forall r, s <> p ++ r.
Proof.
  rewrite <- not_true_iff_false, starts_with_spec. naive_solver.
Qed.

Lemma strip_suffix_Some p s r : strip_suffix p s = Some r <-> s = r ++ p.
Proof.
  unfold strip_suffix. split.
  - destruct (Nat.leb_spec (length p) (length s)); simpl; [|done].
    case_bool_decide as Hd; [|done]. intros [= <-]. rewrite <- Hd at 2.
    by rewrite take_drop.
  - intros ->. rewrite length_app.
    replace (length r + length p - length p) with (length r) by lia.
    destruct (Nat.leb_spec (length p) (length r + length p)); [|lia].
    rewrite drop_app_length, bool_decide_true by done. simpl. by rewrite take_app_length.
Qed.

Lemma strip_suffix_None p s : strip_suffix p s = None <-> forall r, s <> r ++ p.
Proof.
  destruct (strip_suffix p s) as [r|] eqn:E.
  - apply strip_suffix_Some in E. naive_solver.
  - split; [|done]. intros _ r ->. by rewrite (proj2 (strip_suffix_Some p _ r)) in E.
Qed.

Lemma len_utf8_app s t : len_utf8 (s ++ t) = len_utf8 s + len_utf8 t.
Proof. unfold len_utf8. apply sum_list_with_app. Qed.

Lemma char_len_utf8_bounds c : 1 <= char_len_utf8 c <= 4.
Proof. unfold char_len_utf8. repeat case_match; lia. Qed.

Lemma len_utf8_ge s : length s <= len_utf8 s.
Proof.
  induction s as [|c s IH]; simpl; [lia|]. unfold len_utf8 in *; simpl.
  pose proof (char_len_utf8_bounds c). lia.
Qed.

Lemma len_utf8_nil s : len_utf8 s = 0 <-> s = [].
Proof.
  split; [|by intros ->]. pose proof (len_utf8_ge s). destruct s; [done|]. simpl in *; lia.
Qed.

(** *** Byte offsets *)

Lemma str_len_nil : str_len [] = 0%N.
Proof. done. Qed.

Lemma str_len_cons c s : str_len (c :: s) = (char_len c + str_len s)%N.
Proof. unfold str_len, char_len, len_utf8. simpl. lia. Qed.

Lemma str_len_app s t : str_len (s ++ t) = (str_len s + str_len t)%N.
Proof. unfold str_len. rewrite len_utf8_app. lia. Qed.

Lemma char_len_bounds c : (1 <= char_len c <= 4)%N.
Proof. unfold char_len. pose proof (char_len_utf8_bounds c). lia. Qed.

Lemma str_len_ge s : (N.of_nat (length s) <= str_len s)%N.
Proof. unfold str_len. pose proof (len_utf8_ge s). lia. Qed.

Lemma str_len_0 s : str_len s = 0%N <-> s = [].
Proof. unfold str_len. rewrite <- len_utf8_nil. lia. Qed.

Lemma allocatable_all l :
  forallb (fun s => str_len s <=? isize_max)%N l = true -> Forall allocatable l.
Proof.
  intros H. apply Forall_forall. intros s Hs. apply list_elem_of_In in Hs.
  apply N.leb_le. exact (proj1 (forallb_forall _ _) H s Hs).
Qed.

Lemma char_indices_app i s t :
  char_indices i (s ++ t) = char_indices i s ++ char_indices (i + str_len s) t.
Proof.
  revert i; induction s as [|c s IH]; intros i.
  - simpl. by rewrite N.add_0_r.
  - cbn [app char_indices]. rewrite IH, str_len_cons. by rewrite N.add_assoc.
Qed.

Lemma split_at_byte_app a b : split_at_byte (a ++ b) (str_len a) = Some (a, b).
Proof.
  induction a as [|c a IH]; [by destruct b|].
  rewrite str_len_cons. cbn [app split_at_byte]. pose proof (char_len_bounds c).
  destruct (N.eqb_spec (char_len c + str_len a) 0); [lia|].
  destruct (N.ltb_spec (char_len c + str_len a) (char_len c)); [lia|].
  replace (char_len c + str_len a - char_len c)%N with (str_len a) by lia. by rewrite IH.
Qed.

Lemma split_at_byte_Some s n a b : split_at_byte s n = Some (a, b) -> s = a ++ b /\ n = str_len a.
Proof.
  revert n a; induction s as [|c s IH]; intros n a; cbn [split_at_byte].
  - destruct (N.eqb_spec n 0) as [->|]; [|done]. by intros [= <- <-].
  - destruct (N.eqb_spec n 0) as [->|]; [by intros [= <- <-]|].
    destruct (N.ltb_spec n (char_len c)); [done|].
    destruct (split_at_byte s (n - char_len c)) as [[a' b']|] eqn:E; [|done].
    intros [= <- <-]. destruct (IH _ _ E) as [-> Hn]. rewrite str_len_cons. split; [done|lia].
Qed.

Lemma slice_to_byte_app a b : slice_to_byte (a ++ b) (str_len a) = Some a.
Proof. unfold slice_to_byte. by rewrite split_at_byte_app. Qed.

Lemma slice_from_byte_app a b : slice_from_byte (a ++ b) (str_len a) = Some b.
Proof. unfold slice_from_byte. by rewrite split_at_byte_app. Qed.

(** *** Trimming *)

Lemma trim_start_by_suffix p s : exists w, s = w ++ trim_start_by p s /\ Forall (fun c => p c = true) w.
Proof.
  induction s as [|c s (w & Hs & Hw)]; simpl; [by exists []|].
  destruct (p c) eqn:Hc.
  - exists (c :: w). split; [by simpl; f_equal | by constructor].
  - exists []. split; [done | constructor].
Qed.

Lemma trim_end_by_prefix p s : exists w, s = trim_end_by p s ++ w /\ Forall (fun c => p c = true) w.
Proof.
  induction s as [|c s (w & Hs & Hw)]; simpl; [by exists []|].
  destruct (trim_end_by p s) as [|d r] eqn:E.
  - simpl in Hs. subst w. destruct (p c) eqn:Hc.
    + exists (c :: s). split; [done | by constructor].
    + exists s. by split.
  - exists w. rewrite Hs at 1. by split.
Qed.

Lemma trim_start_by_id p c s : p c = false -> trim_start_by p (c :: s) = c :: s.
Proof. intros H. simpl. by rewrite H. Qed.

Lemma trim_end_by_snoc p s c : p c = false -> trim_end_by p (s ++ [c]) = s ++ [c].
Proof.
  intros H. induction s as [|d s IH]; simpl; [by rewrite H|].
  rewrite IH. by destruct s.
Qed.

Lemma trim_end_by_all p s : Forall (fun c => p c = true) s -> trim_end_by p s = [].
Proof. induction 1 as [|c s Hc _ IH]; simpl; [done|]. by rewrite IH, Hc. Qed.

Lemma trim_end_by_app p s w :
  Forall (fun c => p c = true) w -> trim_end_by p (s ++ w) = trim_end_by p s.
Proof.
  intros H. induction s as [|c s IH]; simpl; [by apply trim_end_by_all|]. by rewrite IH.
Qed.

Lemma trim_end_by_last p s c : last (trim_end_by p s) = Some c -> p c = false.
Proof.
  induction s as [|d s IH]; simpl; [done|].
  destruct (trim_end_by p s) as [|e r]; [|done].
  destruct (p d) eqn:Hd; [done|]. by intros [= <-].
Qed.

Lemma trim_end_by_idemp p s : trim_end_by p (trim_end_by p s) = trim_end_by p s.
Proof.
  induction s as [|c s IH]; simpl; [done|].
  destruct (trim_end_by p s) as [|d r] eqn:E.
  - destruct (p c) eqn:Hc; simpl; [done | by rewrite Hc].
  - change (trim_end_by p (c :: d :: r)) with
      (match trim_end_by p (d :: r) with [] => if p c then [] else [c] | r => c :: r end).
    by rewrite IH.
Qed.

Lemma trim_start_by_all p s w :
  Forall (fun c => p c = true) w -> trim_start_by p (w ++ s) = trim_start_by p s.
Proof. induction 1 as [|c w Hc _ IH]; simpl; [done | by rewrite Hc]. Qed.

Lemma trim_start_by_idemp p s : trim_start_by p (trim_start_by p s) = trim_start_by p s.
Proof. induction s as [|c s IH]; simpl; [done|]. destruct (p c) eqn:E; [done|]. simpl; by rewrite E. Qed.

Lemma trim_start_by_blank p w : Forall (fun c => p c = true) w -> trim_start_by p w = [].
Proof. induction 1 as [|c w Hc _ IH]; simpl; [done | by rewrite Hc]. Qed.

Lemma trim_start_by_app p v w :
  trim_start_by p v = [] \/ trim_start_by p (v ++ w) = trim_start_by p v ++ w.
Proof. induction v as [|c v IH]; simpl; [by left|]. destruct (p c); [done|by right]. Qed.

Lemma trim_end_by_mono p v w : trim_end_by p v `prefix_of` trim_end_by p (v ++ w).
Proof.
  induction v as [|c v [k IH]]; simpl; [apply prefix_nil|].
  rewrite IH. destruct (trim_end_by p v) as [|d r]; simpl.
  - destruct (p c); [apply prefix_nil|]. destruct k; [done|]. by eexists.
  - by exists k.
Qed.

(** The trimmed beginning of a text is a beginning of the trimmed text, unless it is blank. *)
Lemma trim_prefix u v :
  v `prefix_of` u -> trim_start v = [] \/ trim v `prefix_of` trim u.
Proof.
  intros [w ->]. unfold trim, trim_start, trim_end.
  destruct (trim_start_by_app is_whitespace v w) as [H|H]; [by left|right].
  rewrite H. apply trim_end_by_mono.
Qed.

Lemma trim_app_blank t w :
  Forall (fun c => is_whitespace c = true) w -> trim (t ++ w) = trim t.
Proof.
  intros Hw. unfold trim, trim_start, trim_end. induction t as [|c t IH]; simpl.
  - by rewrite trim_start_by_blank.
  - destruct (is_whitespace c); [done|].
    rewrite (app_comm_cons t w c). by apply trim_end_by_app.
Qed.

Lemma trim_trim_end s : trim (trim_end s) = trim s.
Proof.
  destruct (trim_end_by_prefix is_whitespace s) as (w & Hs & Hw).
  rewrite Hs at 2. by rewrite trim_app_blank.
Qed.

Lemma trim_blank w : Forall (fun c => is_whitespace c = true) w -> trim w = [].
Proof. intros H. by rewrite <- (app_nil_l w), trim_app_blank. Qed.

(** A text that starts and ends with a non-blank is left alone by [trim]. *)
Lemma trim_id s c d :
  head s = Some c -> is_whitespace c = false ->
  last s = Some d -> is_whitespace d = false -> trim s = s.
Proof.
  intros Hh Hc Hl Hd. destruct s as [|c' s]; [done|]. injection Hh as ->.
  unfold trim, trim_start. rewrite trim_start_by_id by done.
  apply last_snoc_inv in Hl as [s' ->]. by apply trim_end_by_snoc.
Qed.

(** *** Lines *)

Lemma split_char_nonempty c s : split_char c s <> [].
Proof. destruct s as [|x s]; simpl; [done|]. repeat case_match; done. Qed.

Lemma join_cons sep l ls : ls <> [] -> join sep (l :: ls) = l ++ sep ++ join sep ls.
Proof. by destruct ls. Qed.

Lemma join_split_char c s : join [c] (split_char c s) = s.
Proof.
  induction s as [|x s IH]; simpl; [done|].
  pose proof (split_char_nonempty c s) as Hne.
  destruct (N.eqb_spec x c); subst.
  - rewrite join_cons by done. rewrite IH. done.
  - destruct (split_char c s) as [|l ls] eqn:E; [done|].
    rewrite <- IH. by destruct ls.
Qed.

Lemma split_char_app c l s :
  c ∉ l -> split_char c (l ++ c :: s) = l :: split_char c s.
Proof.
  induction l as [|x l IH]; simpl; intros Hl.
  - by rewrite N.eqb_refl.
  - apply not_elem_of_cons in Hl as [Hx Hl].
    destruct (N.eqb_spec x c); [congruence|]. by rewrite IH.
Qed.

Lemma split_char_free c l : c ∉ l -> split_char c l = [l].
Proof.
  induction l as [|x l IH]; simpl; intros Hl; [done|].
  apply not_elem_of_cons in Hl as [Hx Hl].
  destruct (N.eqb_spec x c); [congruence|]. by rewrite IH.
Qed.

Lemma split_join_char c ls :
  ls <> [] -> Forall (fun l => c ∉ l) ls -> split_char c (join [c] ls) = ls.
Proof.
  intros Hne Hf. induction Hf as [|l ls Hl Hf IH]; [done|].
  destruct ls as [|l' ls]; simpl; [by apply split_char_free|].
  rewrite split_char_app by done. f_equal. by apply IH.
Qed.

Lemma split_inclusive_line c l s :
  c ∉ l -> split_inclusive c (l ++ c :: s) = (l ++ [c]) :: split_inclusive c s.
Proof.
  induction l as [|x l IH]; simpl; intros Hl.
  - by rewrite N.eqb_refl.
  - apply not_elem_of_cons in Hl as [Hx Hl].
    destruct (N.eqb_spec x c); [congruence|]. by rewrite IH.
Qed.

Lemma split_inclusive_free c l : l <> [] -> c ∉ l -> split_inclusive c l = [l].
Proof.
  induction l as [|x l IH]; simpl; intros Hne Hl; [done|].
  apply not_elem_of_cons in Hl as [Hx Hl].
  destruct (N.eqb_spec x c); [congruence|]. destruct l as [|y l]; [done|].
  by rewrite IH.
Qed.

Lemma concat_split_inclusive c s : concat (split_inclusive c s) = s.
Proof.
  induction s as [|x s IH]; simpl; [done|].
  destruct (x =? c)%N; simpl; [by rewrite IH|].
  destruct (split_inclusive c s) as [|l ls]; simpl in *; by rewrite <- IH.
Qed.

Lemma strip_line_ending_line l :
  last l <> Some CR -> strip_line_ending (l ++ [NL]) = l.
Proof.
  intros H. unfold strip_line_ending.
  rewrite (proj2 (strip_suffix_Some _ _ l)) by done.
  rewrite (proj2 (strip_suffix_None _ _)); [done|].
  intros r ->. by rewrite last_snoc in H.
Qed.

Lemma strip_line_ending_free l : NL ∉ l -> strip_line_ending l = l.
Proof.
  intros H. unfold strip_line_ending. rewrite (proj2 (strip_suffix_None _ _)); [done|].
  intros r ->. set_solver.
Qed.

Lemma lines_cons l s :
  NL ∉ l -> last l <> Some CR -> lines (l ++ NL :: s) = l :: lines s.
Proof.
  intros Hl Hcr. unfold lines. rewrite split_inclusive_line by done. simpl.
  by rewrite strip_line_ending_line.
Qed.

(** Joining clean lines with line feeds and splitting them again gives the lines back. *)
Lemma lines_join ls :
  Forall (fun l => NL ∉ l /\ last l <> Some CR) ls ->
  (forall l, last ls = Some l -> l <> []) ->
  lines (join [NL] ls) = ls.
Proof.
  intros Hf Hlast. induction Hf as [|l ls [Hl Hcr] Hf IH]; [done|].
  destruct ls as [|l' ls].
  - simpl. unfold lines. rewrite split_inclusive_free; [|by apply Hlast|done]. simpl.
    by rewrite strip_line_ending_free.
  - rewrite join_cons by done. simpl app. rewrite lines_cons by done. f_equal.
    apply IH. intros k Hk. apply Hlast. done.
Qed.

Lemma split_once_eq c s a b : split_once c s = Some (a, b) -> s = a ++ c :: b.
Proof.
  revert a b; induction s as [|x s IH]; intros a b; simpl; [done|].
  destruct (N.eqb_spec x c); [intros [= <- <-]; by subst|].
  destruct (split_once c s) as [[a' b']|]; [|done]. intros [= <- <-]. by rewrite (IH a' b').
Qed.

Lemma split_once_notin c s a b : split_once c s = Some (a, b) -> c ∉ a.
Proof.
  revert a b; induction s as [|x s IH]; intros a b; simpl; [done|].
  destruct (N.eqb_spec x c) as [->|Hx]; [intros [= <- <-]; apply not_elem_of_nil|].
  destruct (split_once c s) as [[a' b']|]; [|done]. intros [= <- <-].
  apply not_elem_of_cons. split; [congruence|]. by apply (IH a' b').
Qed.

Lemma split_once_free c a b : c ∉ a -> split_once c (a ++ c :: b) = Some (a, b).
Proof.
  induction a as [|x a IH]; simpl; intros Ha; [by rewrite N.eqb_refl|].
  apply not_elem_of_cons in Ha as [Hx Ha]. destruct (N.eqb_spec x c); [congruence|].
  by rewrite IH.
Qed.

Lemma rsplit_once_eq c s a b : rsplit_once c s = Some (a, b) -> s = a ++ c :: b.
Proof.
  unfold rsplit_once. destruct (split_once c (rev s)) as [[x y]|] eqn:Hs; [|done]. intros [= <- <-].
  apply split_once_eq in Hs. rewrite <- (rev_involutive s), Hs, rev_app_distr. simpl. by rewrite <- app_assoc.
Qed.

Lemma rsplit_once_free c a b : c ∉ b -> rsplit_once c (a ++ c :: b) = Some (a, b).
Proof.
  intros Hb. unfold rsplit_once. rewrite rev_app_distr. simpl. rewrite <- app_assoc. simpl.
  rewrite split_once_free; [by rewrite !rev_involutive|].
  by rewrite list_elem_of_In, <- in_rev, <- list_elem_of_In.
Qed.

Lemma rsplit_once_notin c s a b : rsplit_once c s = Some (a, b) -> c ∉ b.
Proof.
  unfold rsplit_once. destruct (split_once c (rev s)) as [[x y]|] eqn:Hs; [|done]. intros [= <- <-].
  apply split_once_notin in Hs. rewrite !list_elem_of_In, <- in_rev in *. done.
Qed.

Lemma split_inclusive_app c a b :
  split_inclusive c (a ++ c :: b) = split_inclusive c (a ++ [c]) ++ split_inclusive c b.
Proof.
  induction a as [|x a IH]; simpl; [by rewrite N.eqb_refl|]. destruct (N.eqb_spec x c); [by rewrite IH|].
  rewrite IH. destruct (split_inclusive c (a ++ [c])) as [|l ls] eqn:E; [|done].
  exfalso. pose proof (concat_split_inclusive c (a ++ [c])) as H. rewrite E in H. by destruct a.
Qed.

(** A complete line more leaves the lines before it alone. *)
Lemma lines_app_nl a b : lines (a ++ NL :: b) = lines (a ++ [NL]) ++ lines b.
Proof. unfold lines. by rewrite split_inclusive_app, map_app. Qed.

(** Completing the last line does not change the lines, unless it ends in a carriage return. *)
Lemma lines_complete_one l :
  l <> [] -> NL ∉ l -> last l <> Some CR -> lines (l ++ [NL]) = lines l.
Proof.
  intros Hne Hnl Hcr. rewrite lines_cons by done. unfold lines.
  rewrite (split_inclusive_free NL l) by done. simpl. by rewrite strip_line_ending_free.
Qed.

Lemma last_nl_split (a : str) : NL ∈ a -> exists u v, a = u ++ NL :: v /\ NL ∉ v.
Proof.
  induction a as [|y a IH]; [by intros ?%not_elem_of_nil|]. intros Hin.
  destruct (decide (NL ∈ a)) as [H|H].
  - destruct (IH H) as (u & v & -> & Hv). by exists (y :: u), v.
  - exists [], a. apply elem_of_cons in Hin as [<-|]; done.
Qed.

Lemma lines_complete a :
  a <> [] -> last a <> Some NL -> last a <> Some CR -> lines (a ++ [NL]) = lines a.
Proof.
  intros Hne Hnl Hcr. destruct (decide (NL ∈ a)) as [Hin|Hout]; [|by apply lines_complete_one].
  apply last_nl_split in Hin as (u & v & -> & Hv). rewrite <- app_assoc. simpl.
  rewrite (lines_app_nl u (v ++ [NL])), (lines_app_nl u v). f_equal. rewrite last_app_cons in Hnl, Hcr.
  destruct v as [|x v]; [done|]. by apply lines_complete_one.
Qed.

(** ** Subsets and case *)

Lemma trim_by_subset p s c : c ∈ trim_end_by p s -> c ∈ s.
Proof. destruct (trim_end_by_prefix p s) as (w & Hw & _). rewrite Hw at 2. set_solver. Qed.

Lemma trim_subset s c : c ∈ trim s -> c ∈ s.
Proof.
  intros H%trim_by_subset. destruct (trim_start_by_suffix is_whitespace s) as (w & Hw & _).
  rewrite Hw. unfold trim_start in H. set_solver.
Qed.

Lemma contains_char_spec c s : contains_char c s = true <-> c ∈ s.
Proof.
  unfold contains_char. rewrite existsb_exists. setoid_rewrite <- list_elem_of_In.
  setoid_rewrite N.eqb_eq. naive_solver.
Qed.
Lemma contains_char_false c s : contains_char c s = false <-> c ∉ s.
Proof. rewrite <- not_true_iff_false, contains_char_spec. done. Qed.

Lemma lower_inv c x : to_ascii_lower_char x = c -> is_ascii_lower c = false -> x = c.
Proof.
  unfold to_ascii_lower_char, is_ascii_upper, is_ascii_lower.
  destruct (N.leb_spec 65 x), (N.leb_spec x 90); simpl; intros <-; try done.
  destruct (N.leb_spec 97 (x + 32)), (N.leb_spec (x + 32) 122); simpl; try done; lia.
Qed.

Lemma lower_elem c s : is_ascii_lower c = false -> c ∈ to_ascii_lowercase s -> c ∈ s.
Proof.
  intros Hc (x & -> & Hx)%list_elem_of_fmap. by rewrite <- (lower_inv _ x eq_refl Hc) at 1.
Qed.

Lemma lit_inj a b : lit a = lit b -> a = b.
Proof.
  revert b; induction a as [|x a IH]; intros [|y b]; try done. unfold lit in *. cbn. intros [= Hxy Hab].
  f_equal; [|by apply IH]. rewrite <- (Ascii.ascii_N_embedding x), <- (Ascii.ascii_N_embedding y). by rewrite Hxy.
Qed.

Lemma lower_idemp s : to_ascii_lowercase (to_ascii_lowercase s) = to_ascii_lowercase s.
Proof.
  unfold to_ascii_lowercase. rewrite map_map. apply map_ext. intros x.
  unfold to_ascii_lower_char, is_ascii_upper.
  destruct (N.leb_spec 65 x), (N.leb_spec x 90); simpl;
    repeat match goal with |- context [(?a <=? ?b)%N] => destruct (N.leb_spec a b) end; simpl; lia || done.
Qed.
