(* ===== verification/Truncate.v ===== *)
(** * Truncation of text: utils/string/src/truncate.rs, utils/string/src/lib.rs

    The middle of a long text is replaced by a marker, at character boundaries and within a budget of
    bytes or of approximate tokens.  Offsets and budgets are [usize] values, kept as [N] with the
    saturation of the source; slicing at an offset that is not a character boundary is [None]. *)

From S2P Require Import Prelude Text.
From Stdlib Require Import ZifyBool ZifyN ZifyNat.

#[local] Ltac Zify.zify_post_hook ::= Z.div_mod_to_equations.

Module Truncate.

(** [codex-rs/utils/string/src/truncate.rs:4-4 APPROX_BYTES_PER_TOKEN] *)
Definition APPROX_BYTES_PER_TOKEN : N := 4.

(** [codex-rs/utils/string/src/truncate.rs:71-74 approx_token_count] *)
Definition approx_token_count (text : str) : N :=
  (saturating_add (str_len text) (saturating_sub APPROX_BYTES_PER_TOKEN 1) / APPROX_BYTES_PER_TOKEN)%N.

(** [codex-rs/utils/string/src/truncate.rs:76-78 approx_bytes_for_tokens] *)
Definition approx_bytes_for_tokens (tokens : N) : N := saturating_mul tokens APPROX_BYTES_PER_TOKEN.

(** [codex-rs/utils/string/src/truncate.rs:80-84 approx_tokens_from_byte_count] *)
Definition approx_tokens_from_byte_count (bytes : N) : N :=
  (saturating_add bytes (saturating_sub APPROX_BYTES_PER_TOKEN 1) / APPROX_BYTES_PER_TOKEN)%N.

(** The variables of the loop of [split_string]. *)
Record SplitState := Split {
  prefix_end : N;
  suffix_start : N;
  removed_chars : N;
  suffix_started : bool
}.

(** [codex-rs/utils/string/src/truncate.rs:96-112 split_string] *)
Definition split_step (beginning_bytes tail_start_target : N) (st : SplitState) (ic : N * char) : SplitState :=
  let (idx, ch) := ic in
  let char_end := (idx + char_len ch)%N in
  if (char_end <=? beginning_bytes)%N
  then Split char_end (suffix_start st) (removed_chars st) (suffix_started st)
  else if (tail_start_target <=? idx)%N
  then if suffix_started st then st
       else Split (prefix_end st) idx (removed_chars st) true
  else Split (prefix_end st) (suffix_start st) (saturating_add (removed_chars st) 1) (suffix_started st).

(** [codex-rs/utils/string/src/truncate.rs:86-124 split_string] *)
Definition split_string (s : str) (beginning_bytes end_bytes : N) : option (N * str * str) :=
  if bool_decide (s = []) then Some (0%N, [], [])
  else
    let len := str_len s in
    let tail_start_target := saturating_sub len end_bytes in
    let st := fold_left (split_step beginning_bytes tail_start_target) (char_indices 0 s)
                (Split 0 len 0 false) in
    let suffix_start := if (suffix_start st <? prefix_end st)%N then prefix_end st else suffix_start st in
    before ← slice_to_byte s (prefix_end st);
    after ← slice_from_byte s suffix_start;
    Some (removed_chars st, before, after).

(** [codex-rs/utils/string/src/truncate.rs:126-129 split_budget] *)
Definition split_budget (budget : N) : N * N :=
  let left := (budget / 2)%N in (left, budget - left)%N.

(** The character [U+2026] of the marker. *)
Definition ELLIPSIS : char := 8230%N.

(** [codex-rs/utils/string/src/truncate.rs:131-137 format_truncation_marker] *)
Definition format_truncation_marker (use_tokens : bool) (removed_count : N) : str :=
  if use_tokens
  then [ELLIPSIS] ++ show_N removed_count ++ lit " tokens truncated" ++ [ELLIPSIS]
  else [ELLIPSIS] ++ show_N removed_count ++ lit " chars truncated" ++ [ELLIPSIS].

(** [codex-rs/utils/string/src/truncate.rs:139-145 removed_units] *)
Definition removed_units (use_tokens : bool) (removed_bytes removed_chars : N) : N :=
  if use_tokens then approx_tokens_from_byte_count removed_bytes else N.min removed_chars u64_max.

(** [codex-rs/utils/string/src/truncate.rs:147-153 assemble_truncated_output] *)
Definition assemble_truncated_output (prefix suffix marker : str) : str := prefix ++ marker ++ suffix.

(** [codex-rs/utils/string/src/truncate.rs:38-69 truncate_with_byte_estimate] *)
Definition truncate_with_byte_estimate (s : str) (max_bytes : N) (use_tokens : bool) : option str :=
  if bool_decide (s = []) then Some []
  else
    let total_chars := N.of_nat (length s) in
    if (max_bytes =? 0)%N
    then Some (format_truncation_marker use_tokens (removed_units use_tokens (str_len s) total_chars))
    else if (str_len s <=? max_bytes)%N then Some s
    else
      let total_bytes := str_len s in
      let (left_budget, right_budget) := split_budget max_bytes in
      '(removed, left_, right_) ← split_string s left_budget right_budget;
      let marker := format_truncation_marker use_tokens
                      (removed_units use_tokens (saturating_sub total_bytes max_bytes) removed) in
      Some (assemble_truncated_output left_ right_ marker).

(** [codex-rs/utils/string/src/truncate.rs:7-9 truncate_middle_chars] *)
Definition truncate_middle_chars (s : str) (max_bytes : N) : option str :=
  truncate_with_byte_estimate s max_bytes false.

(** [codex-rs/utils/string/src/truncate.rs:15-36 truncate_middle_with_token_budget] *)
Definition truncate_middle_with_token_budget (s : str) (max_tokens : N) : option (str * option N) :=
  if bool_decide (s = []) then Some ([], None)
  else if (0 <? max_tokens)%N && (str_len s <=? approx_bytes_for_tokens max_tokens)%N
  then Some (s, None)
  else
    truncated ← truncate_with_byte_estimate s (approx_bytes_for_tokens max_tokens) true;
    let total_tokens := approx_token_count s in
    if bool_decide (truncated = s) then Some (truncated, None)
    else Some (truncated, Some total_tokens).

(** [codex-rs/utils/string/src/lib.rs:17-24 take_bytes_at_char_boundary] *)
Fixpoint last_boundary (maxb last_ok : N) (ics : list (N * char)) : N :=
  match ics with
  | [] => last_ok
  | (i, ch) :: ics =>
      let nb := (i + char_len ch)%N in
      if (maxb <? nb)%N then last_ok else last_boundary maxb nb ics
  end.

(** [codex-rs/utils/string/src/lib.rs:13-26 take_bytes_at_char_boundary] *)
Definition take_bytes_at_char_boundary (s : str) (maxb : N) : option str :=
  if (str_len s <=? maxb)%N then Some s
  else slice_to_byte s (last_boundary maxb 0 (char_indices 0 s)).

(** [codex-rs/utils/string/src/lib.rs:34-40 sanitize_metric_tag_value] *)
Definition sanitize_char (ch : char) : char :=
  if is_ascii_alphanumeric ch || existsb (N.eqb ch) (lit "._-/") then ch else 95%N.

(** [codex-rs/utils/string/src/lib.rs:30-51 sanitize_metric_tag_value] *)
Definition sanitize_metric_tag_value (value : str) : option str :=
  let MAX_LEN := 256%N in
  let sanitized := map sanitize_char value in
  let trimmed := trim_end_by (N.eqb 95) (trim_start_by (N.eqb 95) sanitized) in
  if bool_decide (trimmed = []) || forallb (fun ch => negb (is_ascii_alphanumeric ch)) trimmed
  then Some (lit "unspecified")
  else if (str_len trimmed <=? MAX_LEN)%N then Some trimmed
  else slice_to_byte trimmed MAX_LEN.

(** [codex-rs/utils/string/src/lib.rs:94-100 parse_markdown_hash_location_point] *)
Definition parse_markdown_hash_location_point (point : str) : option (str * option str) :=
  point ← strip_prefix (lit "L") point;
  match split_once 67 point with
  | Some (line, column) => Some (line, Some column)
  | None => Some (point, None)
  end.

(** [codex-rs/utils/string/src/lib.rs:69-92 normalize_markdown_hash_location_suffix] *)
Definition normalize_markdown_hash_location_suffix (suffix : str) : option str :=
  fragment ← strip_prefix (lit "#") suffix;
  let (start, end_) := match split_once MINUS fragment with
                       | Some (start, end_) => (start, Some end_)
                       | None => (fragment, None)
                       end in
  '(start_line, start_column) ← parse_markdown_hash_location_point start;
  let normalized := lit ":" ++ start_line in
  let normalized := match start_column with
                    | Some column => normalized ++ lit ":" ++ column
                    | None => normalized
                    end in
  match end_ with
  | None => Some normalized
  | Some end_ =>
      '(end_line, end_column) ← parse_markdown_hash_location_point end_;
      let normalized := normalized ++ lit "-" ++ end_line in
      Some (match end_column with
            | Some column => normalized ++ lit ":" ++ column
            | None => normalized
            end)
  end.

(** ** Where a text is cut *)

Section split.
Context (s : str) (b e : N).

(** The beginning and the end of a text that fit in [b] and [e] bytes, and what lies between them:
    neither the beginning nor the end could take one character more. *)
Record split_of (before mid after : str) : Prop := {
  split_parts : s = before ++ mid ++ after;
  split_before : (str_len before <= b)%N;
  split_after : (str_len after <= e)%N;
  split_before_max c : head (mid ++ after) = Some c -> (b < str_len before + char_len c)%N;
  split_after_max c : last mid = Some c -> (e < char_len c + str_len after)%N
}.
End split.

(** The longest beginning of at most [b] bytes. *)
Fixpoint fit_prefix (b : N) (s : str) : str :=
  match s with
  | [] => []
  | c :: s' => if (char_len c <=? b)%N then c :: fit_prefix (b - char_len c) s' else []
  end.

(** The longest end of at most [e] bytes. *)
Fixpoint fit_suffix (e : N) (s : str) : str :=
  if (str_len s <=? e)%N then s else match s with [] => [] | _ :: s' => fit_suffix e s' end.

Lemma fit_prefix_spec b s :
  exists r, s = fit_prefix b s ++ r /\ (str_len (fit_prefix b s) <= b)%N /\
    forall c, head r = Some c -> (b < str_len (fit_prefix b s) + char_len c)%N.
Proof.
  revert b; induction s as [|c s IH]; intros b; cbn [fit_prefix].
  - exists []. rewrite str_len_nil. by split; [|split; [lia|]].
  - destruct (N.leb_spec (char_len c) b) as [Hc|Hc].
    + destruct (IH (b - char_len c)%N) as (r & Hs & Hb & Hm). exists r. rewrite str_len_cons.
      split; [cbn; by f_equal|]. split; [lia|]. intros d Hd. specialize (Hm d Hd). lia.
    + exists (c :: s). rewrite str_len_nil. split; [done|]. split; [lia|]. intros d [= ->]. lia.
Qed.

Lemma fit_suffix_spec e s :
  exists m, s = m ++ fit_suffix e s /\ (str_len (fit_suffix e s) <= e)%N /\
    forall c, last m = Some c -> (e < char_len c + str_len (fit_suffix e s))%N.
Proof.
  induction s as [|c s (m & Hs & He & Hm)]; cbn [fit_suffix].
  - exists []. by destruct (str_len [] <=? e)%N; rewrite str_len_nil; (split; [|split; [lia|]]).
  - destruct (N.leb_spec (str_len (c :: s)) e) as [Hc|Hc].
    + by exists [].
    + exists (c :: m). split; [cbn; by f_equal|]. split; [done|]. intros d. rewrite last_cons.
      destruct (last m) as [d'|] eqn:Hl; intros [= <-]; [by apply Hm|].
      apply last_None in Hl as ->. cbn [app] in Hs. rewrite <- Hs, <- str_len_cons. lia.
Qed.

Lemma split_exists s b e : exists before mid after, split_of s b e before mid after.
Proof.
  destruct (fit_prefix_spec b s) as (r & Hs & Hb & Hbm).
  destruct (fit_suffix_spec e r) as (m & Hr & He & Hem).
  exists (fit_prefix b s), m, (fit_suffix e r). split; try done; by rewrite <- Hr.
Qed.

(** The loop of [split_string] over each of the three parts. *)
Section loop.
Context (b t : N).

Lemma loop_prefix s i st :
  (i + str_len s <= b)%N -> prefix_end st = i ->
  fold_left (split_step b t) (char_indices i s) st =
  Split (i + str_len s) (suffix_start st) (removed_chars st) (suffix_started st).
Proof.
  revert i st; induction s as [|c s IH]; intros i st Hb Hp; cbn [char_indices fold_left].
  - rewrite str_len_nil, N.add_0_r. destruct st; simpl in *; by subst.
  - rewrite str_len_cons in *. unfold split_step at 2.
    destruct (N.leb_spec (i + char_len c) b); [|lia]. rewrite IH by (simpl; lia). simpl. f_equal; lia.
Qed.

Lemma loop_middle s i st :
  (forall c, head s = Some c -> b < i + char_len c)%N ->
  (forall c, last s = Some c -> i + str_len s < t + char_len c)%N ->
  (removed_chars st + N.of_nat (length s) <= usize_max)%N ->
  fold_left (split_step b t) (char_indices i s) st =
  Split (prefix_end st) (suffix_start st) (removed_chars st + N.of_nat (length s)) (suffix_started st).
Proof.
  revert i st; induction s as [|c s IH]; intros i st Hh Hl Hn; cbn [char_indices fold_left].
  - cbn [length]. rewrite N.add_0_r. by destruct st.
  - unfold split_step at 2. specialize (Hh c eq_refl).
    destruct (N.leb_spec (i + char_len c) b); [lia|].
    assert (Hi : (i < t)%N).
    { rewrite last_cons in Hl. destruct (last s) as [d|] eqn:Hd.
      - specialize (Hl d eq_refl). rewrite str_len_cons in Hl.
        apply last_snoc_inv in Hd as [s' ->]. rewrite str_len_app, str_len_cons, str_len_nil in Hl. lia.
      - specialize (Hl c eq_refl). apply last_None in Hd as ->. rewrite str_len_cons, str_len_nil in Hl. lia. }
    destruct (N.leb_spec t i); [lia|]. cbn [length] in *. rewrite IH.
    + simpl. unfold saturating_add. f_equal. lia.
    + intros d _. pose proof (char_len_bounds d). lia.
    + intros d Hd. rewrite last_cons, Hd in Hl. specialize (Hl d eq_refl). rewrite str_len_cons in Hl. lia.
    + simpl. unfold saturating_add. lia.
Qed.

Lemma loop_suffix_started s i st :
  (b <= i)%N -> (t <= i)%N -> suffix_started st = true ->
  fold_left (split_step b t) (char_indices i s) st = st.
Proof.
  revert i; induction s as [|c s IH]; intros i Hb Ht Hs; [done|]. cbn [char_indices fold_left].
  pose proof (char_len_bounds c). unfold split_step at 2.
  destruct (N.leb_spec (i + char_len c) b); [lia|]. destruct (N.leb_spec t i); [|lia].
  rewrite Hs. apply IH; [lia|lia|done].
Qed.

Lemma loop_suffix c s i st :
  (b < i + char_len c)%N -> (t <= i)%N -> suffix_started st = false ->
  fold_left (split_step b t) (char_indices i (c :: s)) st =
  Split (prefix_end st) i (removed_chars st) true.
Proof.
  intros Hb Ht Hs. cbn [char_indices fold_left]. unfold split_step at 2.
  destruct (N.leb_spec (i + char_len c) b); [lia|]. destruct (N.leb_spec t i); [|lia].
  rewrite Hs. apply loop_suffix_started; [lia|lia|done].
Qed.
End loop.

Lemma usize_isize : (isize_max <= usize_max)%N.
Proof. by vm_compute. Qed.

Lemma split_string_eq s b e before mid after :
  allocatable s -> split_of s b e before mid after ->
  split_string s b e = Some (N.of_nat (length mid), before, after).
Proof.
  intros Ha [Hs Hb He Hbm Hem]. unfold split_string. case_bool_decide as Hn.
  { subst s. apply app_eq_nil in Hn as [-> Hn]. by apply app_eq_nil in Hn as [-> ->]. }
  pose proof usize_isize. unfold allocatable in Ha.
  pose proof (str_len_ge mid) as Hmid.
  assert (Hlen : str_len s = (str_len before + (str_len mid + str_len after))%N)
    by (by rewrite Hs, !str_len_app).
  set (t := saturating_sub (str_len s) e). unfold saturating_sub in t.
  assert (Hfold : exists f,
    fold_left (split_step b t) (char_indices 0 s) (Split 0 (str_len s) 0 false) =
    Split (str_len before) (str_len before + str_len mid) (N.of_nat (length mid)) f).
  { assert (char_indices 0 s = char_indices 0 (before ++ mid ++ after)) as -> by (by rewrite <- Hs).
    rewrite !char_indices_app, !fold_left_app, N.add_0_l.
    rewrite (loop_prefix b t before) by (simpl; lia). rewrite (loop_middle b t mid); cbn [prefix_end suffix_start removed_chars suffix_started]; [ | | | lia].
    - destruct after as [|c after].
      + simpl. exists false. rewrite Hlen, str_len_nil. f_equal; lia.
      + exists true. rewrite loop_suffix; [done| |lia|done].
        destruct mid as [|d mid]; [specialize (Hbm c eq_refl); rewrite str_len_nil; lia|].
        specialize (Hbm d eq_refl). rewrite str_len_cons. pose proof (char_len_bounds c). lia.
    - intros c Hc. apply Hbm. by destruct mid.
    - intros c Hc. specialize (Hem c Hc). apply last_snoc_inv in Hc as [m ->].
      rewrite str_len_app, str_len_cons, str_len_nil in *. lia. }
  destruct Hfold as [f Hf]. fold t. rewrite Hf. simpl.
  destruct (N.ltb_spec (str_len before + str_len mid) (str_len before)); [lia|].
  rewrite Hs at 1. rewrite slice_to_byte_app. simpl.
  rewrite <- str_len_app, Hs, app_assoc, slice_from_byte_app. done.
Qed.

(** *** The size of the marker *)

Lemma lit_length s : length (lit s) = String.length s.
Proof. unfold lit. rewrite length_map. induction s as [|a s IH]; simpl; [done | by f_equal]. Qed.

Lemma pretty_N_go_length n s (k : nat) :
  (n < 10 ^ N.of_nat k)%N -> String.length (pretty_N_go n s) <= k + String.length s.
Proof.
  revert n s; induction k as [|k IH]; intros n s Hn.
  - assert (n = 0%N) as -> by (simpl in Hn; lia). by rewrite pretty_N_go_0.
  - destruct (decide (0 < n)%N) as [Hp|Hp]; [|assert (n = 0%N) as -> by lia; rewrite pretty_N_go_0; lia].
    rewrite pretty_N_go_step by done.
    etrans; [apply IH|simpl; lia]. rewrite Nat2N.inj_succ, N.pow_succ_r' in Hn. lia.
Qed.

Lemma pretty_N_go_digits n s :
  Forall (fun c => is_ascii_digit c = true) (lit s) ->
  Forall (fun c => is_ascii_digit c = true) (lit (pretty_N_go n s)).
Proof.
  revert s; induction (N.lt_wf_0 n) as [n _ IH]; intros s Hs.
  destruct (decide (0 < n)%N) as [Hp|Hp]; [|assert (n = 0%N) as -> by lia; done].
  rewrite pretty_N_go_step by done. apply IH; [lia|]. constructor; [|done].
  unfold pretty_N_char. by repeat case_match.
Qed.

Lemma show_N_digits n : Forall (fun c => is_ascii_digit c = true) (show_N n).
Proof.
  unfold show_N, pretty, pretty_N. case_decide; [by repeat constructor|].
  apply pretty_N_go_digits. constructor.
Qed.

Lemma str_len_ascii s : Forall (fun c => c < 128)%N s -> str_len s = N.of_nat (length s).
Proof.
  induction 1 as [|c s Hc _ IH]; [done|]. rewrite str_len_cons, IH. unfold char_len, char_len_utf8.
  rewrite (proj2 (N.ltb_lt _ _) Hc). simpl. lia.
Qed.

Lemma show_N_len n : (n <= u64_max)%N -> (str_len (show_N n) <= 20)%N.
Proof.
  intros Hn. rewrite str_len_ascii.
  - unfold show_N. rewrite lit_length. unfold pretty, pretty_N. case_decide; [simpl; lia|].
    pose proof (pretty_N_go_length n EmptyString 20). simpl in *. unfold u64_max in Hn. lia.
  - eapply Forall_impl; [apply show_N_digits|]. intros c. unfold is_ascii_digit. lia.
Qed.

Lemma marker_len use_tokens n : (n <= u64_max -> str_len (format_truncation_marker use_tokens n) <= 43)%N.
Proof.
  intros Hn. pose proof (show_N_len n Hn). unfold format_truncation_marker.
  destruct use_tokens; rewrite !str_len_app.
  - change (str_len (lit " tokens truncated")) with 17%N. change (str_len [ELLIPSIS]) with 3%N. lia.
  - change (str_len (lit " chars truncated")) with 16%N. change (str_len [ELLIPSIS]) with 3%N. lia.
Qed.

(** ** Truncation *)

(** The number of tokens of four bytes that cover [bytes] bytes. *)
Definition tokens_for (bytes : N) : N := ((bytes + 3) / 4)%N.

Lemma tokens_exact bytes : (bytes <= isize_max)%N -> approx_tokens_from_byte_count bytes = tokens_for bytes.
Proof.
  unfold approx_tokens_from_byte_count, tokens_for, saturating_add, saturating_sub, APPROX_BYTES_PER_TOKEN,
    isize_max, usize_max, u64_max. lia.
Qed.

Lemma approx_token_count_exact s : allocatable s -> approx_token_count s = tokens_for (str_len s).
Proof. apply tokens_exact. Qed.

(** What a budget of [max_bytes] makes of a text that exceeds it. *)
Definition truncation (s : str) (max_bytes : N) (use_tokens : bool) (out : str) : Prop :=
  exists before mid after,
    s = before ++ mid ++ after /\ mid <> [] /\
    (str_len before <= max_bytes / 2 /\ str_len after <= max_bytes - max_bytes / 2 /\
     max_bytes <= str_len before + str_len after + 6)%N /\
    (str_len out <= max_bytes + 43)%N /\
    out = before
          ++ format_truncation_marker use_tokens
               (if use_tokens then tokens_for (str_len s - max_bytes) else N.of_nat (length mid))
          ++ after.

Lemma truncation_exists s max_bytes use_tokens :
  allocatable s -> (max_bytes < str_len s)%N ->
  exists out, truncate_with_byte_estimate s max_bytes use_tokens = Some out /\
              truncation s max_bytes use_tokens out.
Proof.
  intros Ha Hlong. unfold truncate_with_byte_estimate.
  assert (Hs : s <> []) by (intros ->; rewrite str_len_nil in Hlong; lia).
  rewrite bool_decide_false by done. pose proof (str_len_ge s). unfold allocatable in Ha.
  destruct (N.eqb_spec max_bytes 0) as [->|Hm].
  { eexists; split; [done|]. exists [], s, []. rewrite app_nil_r, str_len_nil.
    split; [done|]. split; [done|]. split; [by vm_compute|].
    unfold removed_units. rewrite tokens_exact, N.sub_0_r, app_nil_r by done. cbn [app].
    unfold isize_max, u64_max in *. rewrite N.min_l by lia.
    split; [|by destruct use_tokens]. apply marker_len. unfold u64_max, tokens_for. destruct use_tokens; lia. }
  destruct (N.leb_spec (str_len s) max_bytes); [lia|]. unfold split_budget.
  destruct (split_exists s (max_bytes / 2) (max_bytes - max_bytes / 2)) as (before & mid & after & H').
  rewrite (split_string_eq _ _ _ _ _ _ Ha H'). cbn [mbind option_bind].
  eexists; split; [done|]. exists before, mid, after. destruct H' as [Hs' Hb He Hbm Hem].
  assert (Hlen : str_len s = (str_len before + (str_len mid + str_len after))%N)
    by (by rewrite Hs', !str_len_app).
  assert (Hne : mid <> []) by (intros ->; rewrite str_len_nil in Hlen; lia).
  split; [done|]. split; [done|]. split.
  { destruct mid as [|c mid _] using rev_ind; [done|]. split; [done|]. split; [done|].
    specialize (Hem c (last_snoc _ _)).
    destruct (mid ++ [c]) as [|d m] eqn:E; [by destruct mid|]. specialize (Hbm d eq_refl).
    pose proof (char_len_bounds c). pose proof (char_len_bounds d). lia. }
  unfold assemble_truncated_output, removed_units, saturating_sub. rewrite tokens_exact by lia.
  pose proof (str_len_ge mid). rewrite N.min_l by (unfold isize_max, u64_max in *; lia). split; [|done].
  rewrite !str_len_app. eapply N.le_trans; [apply N.add_le_mono; [done|apply N.add_le_mono; [apply marker_len|done]]|lia].
  unfold isize_max, u64_max, tokens_for in *. destruct use_tokens; lia.
Qed.

Lemma truncate_fits s max_bytes use_tokens :
  (str_len s <= max_bytes)%N -> truncate_with_byte_estimate s max_bytes use_tokens = Some s.
Proof.
  intros H. unfold truncate_with_byte_estimate. case_bool_decide as Hs; [by subst|].
  destruct (N.eqb_spec max_bytes 0) as [->|]; [|by destruct (N.leb_spec (str_len s) max_bytes); [|lia]].
  destruct Hs. apply str_len_0. lia.
Qed.

(** Truncating a text to a number of bytes never cuts a character in two (the slices never panic).  A
    text that fits is returned as it is; of any other, a beginning of at most half the budget and an end
    of at most the other half are kept around a marker, together at most six bytes short of the
    budget and with the marker at most 43 bytes over it, and the marker reports the number of characters removed, or the tokens over the budget. *)
Theorem truncation_within_budget s max_bytes use_tokens :
  allocatable s ->
  exists out, truncate_with_byte_estimate s max_bytes use_tokens = Some out /\
    if (str_len s <=? max_bytes)%N then out = s else truncation s max_bytes use_tokens out.
Proof.
  intros Ha. destruct (N.leb_spec (str_len s) max_bytes) as [H|H].
  - exists s. by rewrite truncate_fits.
  - by apply truncation_exists.
Qed.

Lemma truncation_within_budget_witness :
  allocatable (lit "abcdefghij") /\
  exists out, truncate_with_byte_estimate (lit "abcdefghij") 5 false = Some out /\
    truncation (lit "abcdefghij") 5 false out.
Proof. split; [by vm_compute|]. apply (truncation_within_budget (lit "abcdefghij") 5 false). by vm_compute. Defined.

(** The budget in bytes of a budget in tokens. *)
Lemma bytes_for_tokens_exact s tokens :
  allocatable s -> (str_len s <=? approx_bytes_for_tokens tokens)%N = (tokens_for (str_len s) <=? tokens)%N.
Proof.
  unfold allocatable, approx_bytes_for_tokens, tokens_for, saturating_mul, APPROX_BYTES_PER_TOKEN, isize_max,
    usize_max, u64_max. lia.
Qed.

(** With a budget of tokens, a text of at most that many tokens (four bytes each, rounded up) is
    returned as it is with no count; a longer text is truncated within the bytes of the budget, and the
    count of its tokens is returned unless the truncated text happens to be the text itself. *)
Theorem token_budget_correct s max_tokens :
  allocatable s ->
  exists out count, truncate_middle_with_token_budget s max_tokens = Some (out, count) /\
    if (tokens_for (str_len s) <=? max_tokens)%N then out = s /\ count = None
    else truncation s (4 * max_tokens) true out /\
         count = if bool_decide (out = s) then None else Some (tokens_for (str_len s)).
Proof.
  intros Ha. unfold truncate_middle_with_token_budget. case_bool_decide as Hs.
  { subst. eexists _, _; split; [done|]. rewrite str_len_nil. by destruct max_tokens. }
  rewrite (bytes_for_tokens_exact s) by done.
  destruct (N.leb_spec (tokens_for (str_len s)) max_tokens) as [H|H].
  - destruct (N.ltb_spec 0 max_tokens) as [H0|H0]; [by eexists _, _|].
    destruct Hs. apply str_len_0. unfold tokens_for in H. lia.
  - rewrite andb_false_r.
    assert (Hb : approx_bytes_for_tokens max_tokens = (4 * max_tokens)%N).
    { unfold tokens_for, allocatable, approx_bytes_for_tokens, saturating_mul, APPROX_BYTES_PER_TOKEN, isize_max,
        usize_max, u64_max in *. lia. }
    destruct (truncation_exists s (4 * max_tokens) true Ha) as (out & Hout & Ht).
    { unfold tokens_for in H. lia. }
    rewrite Hb, Hout, approx_token_count_exact by done. cbn [mbind option_bind].
    eexists out, _. split; [|by split]. by case_bool_decide.
Qed.

Lemma token_budget_correct_witness :
  allocatable (lit "abcdefghij") /\
  exists out count, truncate_middle_with_token_budget (lit "abcdefghij") 1 = Some (out, count) /\
    truncation (lit "abcdefghij") 4 true out /\ count = if bool_decide (out = lit "abcdefghij") then None else Some 3%N.
Proof.
  split; [by vm_compute|]. destruct (token_budget_correct (lit "abcdefghij") 1) as (out & count & H); [by vm_compute|].
  exists out, count. exact H.
Defined.

(** A text over the budget that is its own truncation: no count is returned. *)
Example truncated_text_not_counted :
  let s := lit "ab" ++ format_truncation_marker true 6 ++ lit "cd" in
  (tokens_for (str_len s) = 7 /\ truncate_middle_with_token_budget s 1 = Some (s, None))%N.
Proof. by vm_compute. Qed.

(** ** Metric tags and prefixes *)

Lemma last_boundary_eq maxb s i :
  (i <= maxb)%N ->
  last_boundary maxb i (char_indices i s) = (i + str_len (fit_prefix (maxb - i) s))%N.
Proof.
  revert i; induction s as [|c s IH]; intros i Hi; cbn [char_indices last_boundary fit_prefix].
  - rewrite str_len_nil. lia.
  - destruct (N.leb_spec (char_len c) (maxb - i)), (N.ltb_spec maxb (i + char_len c)); try lia.
    + rewrite IH by lia. rewrite str_len_cons. replace (maxb - (i + char_len c))%N with (maxb - i - char_len c)%N by lia.
      lia.
    + rewrite str_len_nil. lia.
Qed.

Lemma fit_prefix_all maxb s : (str_len s <= maxb)%N -> fit_prefix maxb s = s.
Proof.
  revert maxb; induction s as [|c s IH]; intros maxb; cbn [fit_prefix]; [done|]. rewrite str_len_cons. intros H.
  destruct (N.leb_spec (char_len c) maxb); [|lia]. by rewrite IH by lia.
Qed.

(** [take_bytes_at_char_boundary] is the longest beginning within the budget. *)
Lemma take_bytes_correct s maxb : take_bytes_at_char_boundary s maxb = Some (fit_prefix maxb s).
Proof.
  unfold take_bytes_at_char_boundary. destruct (N.leb_spec (str_len s) maxb); [by rewrite fit_prefix_all|].
  rewrite last_boundary_eq by lia. rewrite N.sub_0_r, N.add_0_l.
  destruct (fit_prefix_spec maxb s) as (r & Hs & _). rewrite Hs at 1. apply slice_to_byte_app.
Qed.

(** The characters that a metric tag may have. *)
Definition tag_char (c : char) : Prop := is_ascii_alphanumeric c = true \/ c ∈ lit "._-/".

Lemma sanitize_char_tag c : tag_char (sanitize_char c).
Proof.
  unfold sanitize_char, tag_char. destruct (is_ascii_alphanumeric c) eqn:E; [by left|]. cbn [orb].
  destruct (existsb (N.eqb c) (lit "._-/")) eqn:E'.
  - right. apply existsb_exists in E' as (x & Hx & Heq). apply N.eqb_eq in Heq as ->. by apply list_elem_of_In.
  - right. vm_compute. by repeat constructor.
Qed.

Lemma tag_char_ascii c : tag_char c -> (c < 128)%N.
Proof.
  unfold tag_char, is_ascii_alphanumeric, is_ascii_digit, is_ascii_upper, is_ascii_lower.
  intros [H|H]; [lia|]. vm_compute in H. repeat (apply elem_of_cons in H as [->|H]; [lia|]). by apply elem_of_nil in H.
Qed.

Lemma trimmed_tags p value :
  Forall tag_char (trim_end_by p (trim_start_by p (map sanitize_char value))).
Proof.
  destruct (trim_end_by_prefix p (trim_start_by p (map sanitize_char value))) as (w & Hw & _).
  destruct (trim_start_by_suffix p (map sanitize_char value)) as (v & Hv & _).
  rewrite Hw in Hv. assert (Hall : Forall tag_char (map sanitize_char value)).
  { apply Forall_forall. intros c Hc. apply list_elem_of_In, in_map_iff in Hc as (x & <- & _). apply sanitize_char_tag. }
  rewrite Hv in Hall. by apply Forall_app in Hall as [_ [Hall _]%Forall_app].
Qed.

(** A sanitised tag is never empty, has at most 256 characters, all of them allowed, and computing it
    never panics. *)
Lemma sanitize_metric_tag_value_wf value :
  exists tag, sanitize_metric_tag_value value = Some tag /\
    tag <> [] /\ length tag <= 256 /\ Forall tag_char tag.
Proof.
  unfold sanitize_metric_tag_value. pose proof (trimmed_tags (N.eqb 95) value) as Hall.
  set (trimmed := trim_end_by _ _) in *. case_bool_decide as Hn; cbn [orb].
  { eexists; split; [done|]. split; [done|]. split; [by vm_compute; lia|].
    unfold tag_char. vm_compute. by repeat constructor. }
  case_match.
  { eexists; split; [done|]. split; [done|]. split; [by vm_compute; lia|].
    unfold tag_char. vm_compute. by repeat constructor. }
  assert (Hascii : Forall (fun c => c < 128)%N trimmed) by (eapply Forall_impl; [done|apply tag_char_ascii]).
  destruct (N.leb_spec (str_len trimmed) 256) as [Hl|Hl]; rewrite str_len_ascii in Hl by done.
  - eexists; split; [done|]. repeat split; [done|lia|done].
  - exists (take 256 trimmed). split.
    + assert (256%N = str_len (take 256 trimmed)) as ->.
      { rewrite str_len_ascii by (by apply Forall_take). rewrite length_take. lia. }
      rewrite <- (take_drop 256 trimmed) at 1. apply slice_to_byte_app.
    + split; [|split; [rewrite length_take; lia | by apply Forall_take]].
      by destruct trimmed.
Qed.

End Truncate.
