(* ===== verification/AbsolutePath.v ===== *)
(** * Absolute paths: utils/absolute-path/src

    [AbsolutePathBuf] as the text of a Unix path.  The components of a path, [push] and [pop] are those
    of [std::path]; the Windows branches ([cfg!(windows)]) are not modelled.  The home directory is a
    parameter. *)

From S2P Require Import Prelude Text.

Module AbsolutePath.

Definition SLASH : char := 47%N.

(** ** std::path *)

Inductive Component := RootDir | CurDir | ParentDir | Normal (name : str).

#[global] Instance Component_eq_dec : EqDecision Component.
Proof. solve_decision. Defined.

Definition is_absolute (path : str) : bool := starts_with [SLASH] path.

(** The component a piece between slashes stands for; [.] is only kept at the head of a relative
    path. *)
Definition component_of (piece : str) : option Component :=
  if bool_decide (piece = []) then None
  else if bool_decide (piece = lit ".") then None
  else if bool_decide (piece = lit "..") then Some ParentDir
  else Some (Normal piece).

(** [Path::components]. *)
Definition components (path : str) : list Component :=
  let pieces := split_char SLASH path in
  let body := omap component_of pieces in
  if is_absolute path then RootDir :: body
  else match pieces with
       | p :: _ => if bool_decide (p = lit ".") then CurDir :: body else body
       | [] => body
       end.

(** [PathBuf::push]. *)
Definition push (buf piece : str) : str :=
  if is_absolute piece then piece
  else if bool_decide (buf = []) || ends_with [SLASH] buf then buf ++ piece
  else buf ++ [SLASH] ++ piece.

(** [Path::parent] of a path without repeated or trailing slashes. *)
Definition parent_of (buf : str) : option str :=
  if bool_decide (buf = []) || bool_decide (buf = [SLASH]) then None
  else match rsplit_once SLASH buf with
       | Some (dir, _) => Some (if bool_decide (dir = []) then [SLASH] else dir)
       | None => Some []
       end.

(** [PathBuf::pop]. *)
Definition pop (buf : str) : str := default buf (parent_of buf).

Definition as_os_str (c : Component) : str :=
  match c with RootDir => [SLASH] | CurDir => lit "." | ParentDir => lit ".." | Normal n => n end.

(** [Path::file_name]: the last component, unless it is a root, [.] or [..]. *)
Definition file_name (path : str) : option str :=
  match last (components path) with Some (Normal n) => Some n | _ => None end.

(** [Path::join]. *)
Definition path_join (base path : str) : str := push base path.

(** ** The code *)

(** [codex-rs/utils/absolute-path/src/absolutize.rs:28-38 normalize_path] one iteration. *)
Definition normalize_step (normalized : str) (component : Component) : str :=
  match component with
  | CurDir => normalized
  | ParentDir => pop normalized
  | RootDir | Normal _ => push normalized (as_os_str component)
  end.

(** [codex-rs/utils/absolute-path/src/absolutize.rs:26-45 normalize_path] *)
Definition normalize_path (path : str) : str :=
  let normalized := foldl normalize_step [] (components path) in
  if bool_decide (normalized = []) then lit "." else normalized.

(** [codex-rs/utils/absolute-path/src/absolutize.rs:47-54 path_with_base] not on Windows. *)
Definition path_with_base (path base_path : str) : str :=
  if is_absolute path then path else path_join base_path path.

(** [codex-rs/utils/absolute-path/src/absolutize.rs:22-24 absolutize_from] *)
Definition absolutize_from (path base_path : str) : str :=
  normalize_path (path_with_base path base_path).

Section WithHome.
(** [dirs::home_dir()]. *)
Context (home_dir : option str).

(** [codex-rs/utils/absolute-path/src/lib.rs:27-43 AbsolutePathBuf::maybe_expand_home_directory] *)
Definition maybe_expand_home_directory (path : str) : str :=
  match home_dir, strip_prefix (lit "~") path with
  | Some home, Some rest =>
      if bool_decide (rest = []) then home
      else match strip_prefix [SLASH] rest with
           | Some rest => path_join home (trim_start_by (N.eqb SLASH) rest)
           | None => path
           end
  | _, _ => path
  end.

(** [codex-rs/utils/absolute-path/src/lib.rs:45-56 AbsolutePathBuf::resolve_path_against_base] *)
Definition resolve_path_against_base (path base_path : str) : str :=
  absolutize_from (maybe_expand_home_directory path) base_path.

(** [std::env::current_dir()], which may fail. *)
Context (current_dir : option str).

(** [codex-rs/utils/absolute-path/src/absolutize.rs:14-20 absolutize] *)
Definition absolutize (path : str) : result str str :=
  if is_absolute path then Ok (normalize_path path)
  else match current_dir with
       | Some dir => Ok (absolutize_from path dir)
       | None => Err (lit "No such file or directory")
       end.

(** [codex-rs/utils/absolute-path/src/lib.rs:58-62 AbsolutePathBuf::from_absolute_path] also
    [TryFrom<String>]. *)
Definition from_absolute_path (path : str) : result str str :=
  absolutize (maybe_expand_home_directory path).

(** [codex-rs/utils/absolute-path/src/lib.rs:64-78 AbsolutePathBuf::from_absolute_path_checked] *)
Definition from_absolute_path_checked (path : str) : result str str :=
  let expanded := maybe_expand_home_directory path in
  if negb (is_absolute expanded) then Err (lit "path is not absolute: " ++ path)
  else Ok (absolutize_from expanded [SLASH]).

(** [codex-rs/utils/absolute-path/src/lib.rs:93-95 AbsolutePathBuf::join] *)
Definition abs_join (self path : str) : str := resolve_path_against_base path self.

(** [codex-rs/utils/absolute-path/src/lib.rs:101-109 AbsolutePathBuf::parent] *)
Definition abs_parent (self : str) : option str := parent_of self.

(** ** Normal forms *)

(** A file name: not empty, not [.] or [..], and without a slash. *)
Definition name_ok (n : str) : Prop := component_of n = Some (Normal n) /\ SLASH ∉ n.

(** The absolute path with the given names. *)
Definition render (names : list str) : str := SLASH :: join [SLASH] names.

(** What [AbsolutePathBuf] guarantees. *)
Definition normal_form (path : str) : Prop := exists names, path = render names /\ Forall name_ok names.

(** The reference: resolving keeps a stack of names. *)
Definition stack_step (names : list str) (c : Component) : list str :=
  match c with
  | RootDir => []
  | CurDir => names
  | ParentDir => removelast names
  | Normal n => names ++ [n]
  end.

Lemma name_ok_nonempty n : name_ok n -> n <> [].
Proof. intros [H _] ->. done. Qed.

Lemma component_of_Some piece c :
  component_of piece = Some c -> (c = ParentDir /\ piece = lit "..") \/ c = Normal piece.
Proof. unfold component_of. repeat case_bool_decide; naive_solver. Qed.

Lemma split_char_free_pieces c s : Forall (fun p => c ∉ p) (split_char c s).
Proof.
  induction s as [|x s IH]; simpl; [by apply Forall_singleton, not_elem_of_nil|].
  destruct (N.eqb_spec x c); [by constructor; [apply not_elem_of_nil|]|].
  destruct (split_char c s) as [|l ls]; [constructor; [set_solver | done]|].
  apply Forall_cons in IH as [Hl Hls]. constructor; [set_solver | done].
Qed.

Lemma components_names path n : Normal n ∈ components path -> name_ok n.
Proof.
  intros H. assert (Hb : Normal n ∈ omap component_of (split_char SLASH path)).
  { unfold components in H. repeat case_match; set_solver. }
  apply list_elem_of_omap in Hb as (p & Hp & Hc).
  destruct (component_of_Some _ _ Hc) as [[? _]|[= ->]]; [done|]. split; [done|].
  pose proof (split_char_free_pieces SLASH path) as Hf. rewrite Forall_forall in Hf. auto.
Qed.

Lemma join_snoc sep ls l : ls <> [] -> join sep (ls ++ [l]) = join sep ls ++ sep ++ l.
Proof.
  induction ls as [|x ls IH]; [done|]. intros _. destruct ls as [|y ls]; [done|].
  rewrite <- app_comm_cons, join_cons by (by destruct ls). rewrite IH by done.
  rewrite (join_cons _ x) by done. by rewrite <- !app_assoc.
Qed.

Lemma ends_with_slash s n : n <> [] -> SLASH ∉ n -> ends_with [SLASH] (s ++ n) = false.
Proof.
  intros Hne Hn. unfold ends_with. case_match eqn:E; [|done].
  apply strip_suffix_Some in E. destruct (exists_last Hne) as (n' & c & ->).
  rewrite app_assoc in E. apply app_inj_tail in E as [_ ->]. set_solver.
Qed.

Lemma render_snoc names n : names <> [] -> render (names ++ [n]) = render names ++ [SLASH] ++ n.
Proof. intros H. unfold render. by rewrite join_snoc by done. Qed.

Lemma render_ends names n :
  name_ok n -> bool_decide (render (names ++ [n]) = []) || ends_with [SLASH] (render (names ++ [n])) = false.
Proof.
  intros Hn. assert (Hend : exists s, render (names ++ [n]) = s ++ n).
  { destruct names as [|x names]; [by exists [SLASH]|].
    rewrite render_snoc by done. exists (render (x :: names) ++ [SLASH]). by rewrite <- app_assoc. }
  rewrite bool_decide_false by done. destruct Hend as [s ->]. simpl.
  apply ends_with_slash; [by apply name_ok_nonempty | by destruct Hn].
Qed.

Lemma push_name names n : Forall name_ok names -> name_ok n -> push (render names) n = render (names ++ [n]).
Proof.
  intros Hns Hn. unfold push. destruct (is_absolute n) eqn:Ha.
  { apply starts_with_spec in Ha as [r ->]. destruct Hn. set_solver. }
  destruct names as [|m names _] using rev_ind; [done|].
  apply Forall_snoc in Hns as [_ Hm].
  rewrite render_ends, (render_snoc (names ++ [m])) by (done || by destruct names). done.
Qed.

Lemma pop_name names n : name_ok n -> pop (render (names ++ [n])) = render names.
Proof.
  intros [Hc Hn]. unfold pop, parent_of.
  assert (Hr : rsplit_once SLASH (render (names ++ [n])) =
               Some (if decide (names = []) then [] else render names, n)).
  { destruct names as [|m names]; [by apply (rsplit_once_free SLASH [] n)|].
    rewrite render_snoc by done. by apply rsplit_once_free. }
  rewrite Hr. rewrite bool_decide_false by done.
  rewrite bool_decide_false; [by destruct names|].
  destruct names as [|m names]; [by intros [= ->]|]. rewrite render_snoc by done.
  intros H%(f_equal length). rewrite !length_app in H. simpl in H. lia.
Qed.

Lemma normalize_step_render names c :
  Forall name_ok names -> (forall n, c = Normal n -> name_ok n) ->
  normalize_step (render names) c = render (stack_step names c) /\ Forall name_ok (stack_step names c).
Proof.
  intros Hns Hc. destruct c as [| | |n]; simpl.
  - done.
  - done.
  - destruct names as [|m names _] using rev_ind; [done|].
    apply Forall_snoc in Hns as [Hns Hm]. rewrite removelast_last. by rewrite pop_name.
  - specialize (Hc n eq_refl). rewrite push_name by done. by rewrite Forall_snoc.
Qed.

Lemma normalize_fold cs names :
  Forall name_ok names -> (forall n, Normal n ∈ cs -> name_ok n) ->
  foldl normalize_step (render names) cs = render (foldl stack_step names cs) /\
  Forall name_ok (foldl stack_step names cs).
Proof.
  revert names; induction cs as [|c cs IH]; intros names Hns Hcs; [done|]. simpl.
  destruct (normalize_step_render names c Hns) as [-> Hns'].
  { intros n ->. apply Hcs. set_solver. }
  apply IH; [done|]. intros n Hn. apply Hcs. set_solver.
Qed.

Lemma normalize_absolute path :
  is_absolute path = true ->
  normalize_path path = render (foldl stack_step [] (components path)) /\
  Forall name_ok (foldl stack_step [] (components path)).
Proof.
  intros Ha. unfold normalize_path.
  assert (Hnames := components_names path). unfold components in *. rewrite Ha in *. simpl.
  change (push [] [SLASH]) with (render []).
  destruct (normalize_fold (omap component_of (split_char SLASH path)) []) as [-> Hok]; [done| |done].
  intros n Hn. apply Hnames. set_solver.
Qed.

Lemma push_absolute base path : is_absolute base = true -> is_absolute (push base path) = true.
Proof.
  intros H. unfold push. destruct (is_absolute path) eqn:E; [done|].
  apply starts_with_spec in H as [r ->]. apply starts_with_spec. case_match; simpl; eauto.
Qed.

Lemma expand_absolute path : is_absolute path = true -> maybe_expand_home_directory path = path.
Proof.
  intros [r ->]%starts_with_spec. unfold maybe_expand_home_directory.
  destruct home_dir; [|done]. destruct (strip_prefix (lit "~") ([SLASH] ++ r)) eqn:E; [|done].
  by apply strip_prefix_Some in E.
Qed.

Lemma resolve_absolute path base :
  is_absolute base = true ->
  exists p, is_absolute p = true /\ resolve_path_against_base path base = normalize_path p.
Proof.
  intros Hb. unfold resolve_path_against_base, absolutize_from, path_with_base.
  destruct (is_absolute (maybe_expand_home_directory path)) eqn:E; [eauto|].
  eexists. split; [|done]. by apply push_absolute.
Qed.

Lemma omap_names names : Forall name_ok names -> omap component_of names = Normal <$> names.
Proof.
  induction 1 as [|n ns [Hn _] _ IH]; [done|]. rewrite fmap_cons, <- IH.
  change (omap component_of (n :: ns)) with
    (match component_of n with Some y => y :: omap component_of ns | None => omap component_of ns end).
  by rewrite Hn.
Qed.

Lemma components_render names :
  Forall name_ok names -> components (render names) = RootDir :: (Normal <$> names).
Proof.
  intros Hns. unfold components. simpl. destruct (is_absolute (render names)) eqn:E; [|done].
  f_equal. unfold render. simpl. destruct names as [|n ns]; [done|].
  rewrite split_join_char; [|done|].
  - by rewrite omap_names.
  - eapply Forall_impl; [done|]. by intros ? [].
Qed.

Lemma stack_names names acc : foldl stack_step acc (Normal <$> names) = acc ++ names.
Proof.
  revert acc; induction names as [|n ns IH]; intros acc; simpl; [by rewrite app_nil_r|].
  rewrite IH. by rewrite <- app_assoc.
Qed.

Lemma normalize_render names : Forall name_ok names -> normalize_path (render names) = render names.
Proof.
  intros Hns. destruct (normalize_absolute (render names)) as [-> _]; [done|].
  rewrite components_render by done. simpl. by rewrite stack_names.
Qed.

Lemma split_char_join c a b : split_char c (a ++ c :: b) = split_char c a ++ split_char c b.
Proof.
  induction a as [|x a IH]; simpl; [by rewrite N.eqb_refl|].
  destruct (N.eqb_spec x c); [by rewrite IH|]. rewrite IH.
  pose proof (split_char_nonempty c a). by destruct (split_char c a).
Qed.

Lemma components_abs s : components (SLASH :: s) = RootDir :: omap component_of (split_char SLASH s).
Proof. done. Qed.

Lemma components_push names path :
  Forall name_ok names -> is_absolute path = false ->
  components (push (render names) path) =
  RootDir :: (Normal <$> names) ++ omap component_of (split_char SLASH path).
Proof.
  intros Hns Hp. assert (Hpush : push (render names) path =
    match names with [] => SLASH :: path | _ => render names ++ SLASH :: path end).
  { unfold push. rewrite Hp. destruct names as [|n ns _] using rev_ind; [done|].
    apply Forall_snoc in Hns as [_ Hn]. rewrite render_ends by done. by destruct ns. }
  rewrite Hpush. destruct names as [|n ns]; [done|].
  pose proof (components_render (n :: ns) Hns) as Hc. unfold render in Hc |- *.
  rewrite <- app_comm_cons, components_abs, split_char_join, omap_app.
  rewrite components_abs in Hc. rewrite app_comm_cons. by rewrite Hc.
Qed.

Lemma stack_components path names :
  is_absolute path = false ->
  foldl stack_step names (omap component_of (split_char SLASH path)) =
  foldl stack_step names (components path).
Proof.
  intros Hp. unfold components. rewrite Hp. destruct (split_char SLASH path); [done|].
  by case_bool_decide.
Qed.

(** ** Theorems *)

(** Against an absolute base every path resolves to a path in normal form: absolute, without
    empty, [.] or [..] components and without a trailing slash; and such a path resolves to itself
    against any base, so resolving is idempotent. *)
Theorem resolve_path_normal path base :
  is_absolute base = true ->
  normal_form (resolve_path_against_base path base) /\
  forall base', resolve_path_against_base (resolve_path_against_base path base) base' =
                resolve_path_against_base path base.
Proof.
  intros Hb. destruct (resolve_absolute path base Hb) as (p & Hp & ->).
  destruct (normalize_absolute p Hp) as [-> Hok]. split; [by eexists|].
  intros base'. unfold resolve_path_against_base, absolutize_from, path_with_base.
  rewrite expand_absolute by done. by apply normalize_render.
Qed.

(** [..] is purely lexical and never climbs above the root: a relative path is resolved by
    walking its components over the stack of names of the base, [..] dropping the top one. *)
Theorem resolve_relative_stack path names :
  Forall name_ok names -> is_absolute path = false -> maybe_expand_home_directory path = path ->
  resolve_path_against_base path (render names) = render (foldl stack_step names (components path)).
Proof.
  intros Hns Hp Hh. unfold resolve_path_against_base, absolutize_from, path_with_base.
  rewrite Hh, Hp. destruct (normalize_absolute (path_join (render names) path)) as [-> _].
  { by apply push_absolute. }
  f_equal. unfold path_join. rewrite components_push by done. simpl.
  rewrite foldl_app, stack_names. simpl. by rewrite stack_components.
Qed.

End WithHome.

Lemma resolve_path_normal_witness :
  is_absolute (lit "/work/repo") = true /\
  normal_form (resolve_path_against_base None (lit "../x/./y") (lit "/work/repo")) /\
  resolve_path_against_base None (lit "../x/./y") (lit "/work/repo") = lit "/work/x/y".
Proof.
  split; [reflexivity|]. split; [|reflexivity].
  exact (proj1 (resolve_path_normal None (lit "../x/./y") (lit "/work/repo") eq_refl)).
Defined.

Lemma resolve_relative_stack_witness :
  resolve_path_against_base None (lit "../../../etc/x") (render [lit "work"; lit "repo"]) =
  render [lit "etc"; lit "x"].
Proof.
  rewrite (resolve_relative_stack None (lit "../../../etc/x") [lit "work"; lit "repo"]);
    [reflexivity | | reflexivity | reflexivity].
  apply Forall_cons; split; [|apply Forall_singleton]; (split; [reflexivity | vm_compute; set_solver]).
Defined.
End AbsolutePath.
