(* ===== verification/FileSystem.v ===== *)
(** * The executor file system: file-system/src/lib.rs, exec-server/src/local_file_system.rs

    The part of the trait [ExecutorFileSystem] that apply_patch uses, as a class of operations on an
    abstract state, with a class of laws.  A read-only call is a function of the state; a call that
    changes the file system returns the new state together with its [io::Result].

    [MemFs] is a file tree of regular files and directories that satisfies the laws.  [LinkFs] adds
    symbolic links, with the semantics of [DirectFileSystem]. *)

From S2P Require Import Prelude Text AbsolutePath.
Import AbsolutePath.

(** [std::io::ErrorKind], as far as the code distinguishes it. *)
Inductive io_error_kind := NotFound | InvalidInput | OtherKind.

Record io_error := { kind : io_error_kind; io_message : str }.

#[global] Instance io_error_kind_eq_dec : EqDecision io_error_kind.
Proof. solve_decision. Defined.

(** [codex-rs/file-system/src/lib.rs:32-39 FileMetadata] without the time stamps. *)
Record FileMetadata := { is_directory : bool; is_file : bool; is_symlink : bool }.

(** [codex-rs/file-system/src/lib.rs:162-248 ExecutorFileSystem] [create_directory] is called with
    [recursive: true] and [remove] with [recursive: false, force: false]; the sandbox context is part
    of the state. *)
Class ExecutorFileSystem (S : Type) := {
  get_metadata : S -> str -> result io_error FileMetadata;
  read_file_text : S -> str -> result io_error str;
  write_file : S -> str -> str -> S * result io_error unit;
  create_directory : S -> str -> S * result io_error unit;
  remove : S -> str -> S * result io_error unit;
}.

Section Views.
Context {S : Type} `{ExecutorFileSystem S}.

(** The text that can be read at each path. *)
Definition view (s : S) (p : str) : option str := ok (read_file_text s p).

(** The path is a regular file or does not exist. *)
Definition plain (s : S) (p : str) : Prop :=
  match get_metadata s p with
  | Ok m => is_file m = true /\ is_symlink m = false
  | Err e => kind e = NotFound
  end.
End Views.

(** What apply_patch relies on.  The frame laws say that different paths name different files as long
    as no symbolic or hard link is involved. *)
Class FileSystemLaws (S : Type) `{ExecutorFileSystem S} := {
  write_read s p c s' : write_file s p c = (s', Ok tt) -> view s' p = Some c;
  write_frame s p c q : plain s p -> q <> p -> view (write_file s p c).1 q = view s q;
  write_missing s p c s' e : plain s p -> write_file s p c = (s', Err e) -> kind e = NotFound -> plain s' p;
  create_frame s d q : view (create_directory s d).1 q = view s q;
  create_plain s p d : abs_parent p = Some d -> plain s p -> plain (create_directory s d).1 p;
  remove_read s p s' : remove s p = (s', Ok tt) -> view s' p = None;
  remove_frame s p q : q <> p -> view (remove s p).1 q = view s q;
  remove_failed s p s' e : remove s p = (s', Err e) -> view s' p = view s p \/ view s' p = None;
}.

Lemma parent_of_length p d : parent_of p = Some d -> length d < length p.
Proof.
  unfold parent_of. destruct (bool_decide (p = [])) eqn:E0; [done|].
  apply bool_decide_eq_false in E0.
  destruct (bool_decide (p = [SLASH])) eqn:E1; [done|]. apply bool_decide_eq_false in E1. simpl.
  destruct (rsplit_once SLASH p) as [[dir name]|] eqn:Hr.
  - apply rsplit_once_eq in Hr. intros [= <-].
    rewrite Hr in E1 |- *. case_bool_decide as Ha.
    + rewrite Ha in E1 |- *. simpl. destruct name; [done | simpl; lia].
    + rewrite length_app. simpl. lia.
  - intros [= <-]. destruct p; [done | simpl; lia].
Qed.

(** ** Regular files and directories *)

Module MemFs.

Inductive node := File (content : str) | Dir.

#[global] Instance node_eq_dec : EqDecision node.
Proof. solve_decision. Defined.

Record state := { nodes : gmap str node }.

Definition not_found : io_error := {| kind := NotFound; io_message := lit "No such file or directory" |}.
Definition other (m : str) : io_error := {| kind := OtherKind; io_message := m |}.

Definition meta (s : state) (p : str) : result io_error FileMetadata :=
  match nodes s !! p with
  | Some (File _) => Ok {| is_directory := false; is_file := true; is_symlink := false |}
  | Some Dir => Ok {| is_directory := true; is_file := false; is_symlink := false |}
  | None => Err not_found
  end.

Definition read (s : state) (p : str) : result io_error str :=
  match nodes s !! p with
  | Some (File c) => Ok c
  | Some Dir => Err (other (lit "Is a directory"))
  | None => Err not_found
  end.

Definition parent_is_dir (s : state) (p : str) : bool :=
  match parent_of p with
  | Some d => bool_decide (nodes s !! d = Some Dir) || bool_decide (d = [SLASH])
  | None => false
  end.

Definition write (s : state) (p c : str) : state * result io_error unit :=
  match nodes s !! p with
  | Some Dir => (s, Err (other (lit "Is a directory")))
  | _ => if parent_is_dir s p then ({| nodes := <[p := File c]> (nodes s) |}, Ok tt)
         else (s, Err not_found)
  end.

(** The ancestors are created first; a regular file in the way is an error. *)
Fixpoint create_dir_all (fuel : nat) (s : state) (d : str) : state * result io_error unit :=
  match fuel with
  | 0 => (s, Err (other (lit "path too long")))
  | S fuel =>
      if bool_decide (d = [SLASH]) then (s, Ok tt) else
      match nodes s !! d with
      | Some Dir => (s, Ok tt)
      | Some (File _) => (s, Err (other (lit "File exists")))
      | None =>
          match parent_of d with
          | None => (s, Err not_found)
          | Some d' =>
              match create_dir_all fuel s d' with
              | (s', Ok _) => ({| nodes := <[d := Dir]> (nodes s') |}, Ok tt)
              | (s', Err e) => (s', Err e)
              end
          end
      end
  end.

Definition has_children (s : state) (p : str) : bool :=
  existsb (fun q => bool_decide (parent_of q = Some p)) (map_to_list (nodes s)).*1.

Definition rm (s : state) (p : str) : state * result io_error unit :=
  match nodes s !! p with
  | None => (s, Err not_found)
  | Some Dir => if has_children s p then (s, Err (other (lit "Directory not empty")))
                else ({| nodes := delete p (nodes s) |}, Ok tt)
  | Some (File _) => ({| nodes := delete p (nodes s) |}, Ok tt)
  end.

#[global] Instance mem_fs : ExecutorFileSystem state := {|
  get_metadata := meta;
  read_file_text := read;
  write_file := write;
  create_directory s d := create_dir_all (S (length d)) s d;
  remove := rm;
|}.

Definition file_at (n : option node) : option str :=
  match n with Some (File c) => Some c | _ => None end.

Lemma view_nodes s p : view s p = file_at (nodes s !! p).
Proof. unfold view. simpl. unfold read. by destruct (nodes s !! p) as [[]|]. Qed.

Lemma plain_nodes s p : plain s p <-> nodes s !! p <> Some Dir.
Proof. unfold plain. simpl. unfold meta. destruct (nodes s !! p) as [[]|]; simpl; naive_solver. Qed.

(** Creating directories only adds directories, at [d] and shorter paths that held nothing. *)
Lemma create_nodes fuel s d q :
  nodes (create_dir_all fuel s d).1 !! q = nodes s !! q \/
  (nodes s !! q = None /\ nodes (create_dir_all fuel s d).1 !! q = Some Dir /\ length q <= length d).
Proof.
  revert d; induction fuel as [|fuel IH]; intros d; simpl; [by left|].
  case_bool_decide; [by left|]. destruct (nodes s !! d) as [[]|] eqn:Hd; [by left..|].
  destruct (parent_of d) as [d'|] eqn:Hp; [|by left]. apply parent_of_length in Hp.
  specialize (IH d'). destruct (create_dir_all fuel s d') as [s' [[]|e]]; simpl in *.
  - destruct (decide (q = d)) as [->|Hne].
    + rewrite lookup_insert_eq. by right.
    + rewrite lookup_insert_ne by done. destruct IH as [IH|(IH1 & IH2 & IH3)]; [by left|].
      right. repeat split; [done.. | lia].
  - destruct IH as [IH|(IH1 & IH2 & IH3)]; [by left|]. right. repeat split; [done.. | lia].
Qed.

#[global] Instance mem_fs_laws : FileSystemLaws state.
Proof.
  split.
  - intros s p c s'. simpl. unfold write. rewrite view_nodes.
    repeat case_match; intros [= <-]; simpl; by rewrite lookup_insert_eq.
  - intros s p c q _ Hne. simpl. unfold write. rewrite !view_nodes.
    repeat case_match; simpl; by rewrite ?lookup_insert_ne by done.
  - intros s p c s' e Hp. simpl. unfold write. repeat case_match; by intros [= <- _] _.
  - intros s d q. rewrite !view_nodes. change (create_directory s d) with (create_dir_all (S (length d)) s d).
    destruct (create_nodes (S (length d)) s d q) as [->|(-> & -> & _)]; done.
  - intros s p d Hd. rewrite !plain_nodes. change (create_directory s d) with (create_dir_all (S (length d)) s d). intros Hp.
    apply parent_of_length in Hd.
    destruct (create_nodes (S (length d)) s d p) as [->|(_ & _ & Hl)]; [done | lia].
  - intros s p s'. simpl. unfold rm. rewrite view_nodes.
    repeat case_match; intros [= <-]; simpl; by rewrite lookup_delete_eq.
  - intros s p q Hne. simpl. unfold rm. rewrite !view_nodes.
    repeat case_match; simpl; by rewrite ?lookup_delete_ne by done.
  - intros s p s' e. simpl. unfold rm. repeat case_match; intros [= <- _]; by left.
Qed.

End MemFs.

(** ** Symbolic links *)

Module LinkFs.

(** A tree of the operating system; a link names its target.  Only links in the last component are
    modelled. *)
Inductive node := File (content : str) | Dir | Link (target : str).

#[global] Instance node_eq_dec : EqDecision node.
Proof. solve_decision. Defined.

Definition state : Type := gmap str node.

Definition not_found : io_error := {| kind := NotFound; io_message := lit "No such file or directory" |}.
Definition other (m : str) : io_error := {| kind := OtherKind; io_message := m |}.

(** The path reached by following links, at most [fuel] of them (40 on Linux, then [ELOOP]). *)
Fixpoint follow (fuel : nat) (s : state) (p : str) : result io_error str :=
  match s !! p with
  | Some (Link target) =>
      match fuel with
      | 0 => Err (other (lit "Too many levels of symbolic links"))
      | S fuel => follow fuel s target
      end
  | _ => Ok p
  end.

(** stat(2) and lstat(2). *)
Definition stat (s : state) (p : str) : result io_error node :=
  p ← follow 40 s p; ok_or (s !! p) not_found.
Definition lstat (s : state) (p : str) : result io_error node := ok_or (s !! p) not_found.

Definition is_dir (n : node) : bool := match n with Dir => true | _ => false end.
Definition is_regular (n : node) : bool := match n with File _ => true | _ => false end.
Definition is_link (n : node) : bool := match n with Link _ => true | _ => false end.

(** [codex-rs/exec-server/src/local_file_system.rs:413-428 DirectFileSystem::get_metadata] *)
Definition direct_get_metadata (s : state) (p : str) : result io_error FileMetadata :=
  metadata ← stat s p;
  symlink_metadata ← lstat s p;
  Ok {| is_directory := is_dir metadata; is_file := is_regular metadata;
        is_symlink := is_link symlink_metadata |}.

(** [codex-rs/exec-server/src/local_file_system.rs:25-25 MAX_READ_FILE_BYTES] *)
Definition MAX_READ_FILE_BYTES : N := (512 * 1024 * 1024)%N.

(** [codex-rs/exec-server/src/local_file_system.rs:335-348 DirectFileSystem::read_file] *)
Definition direct_read_file (s : state) (p : str) : result io_error str :=
  n ← stat s p;
  match n with
  | File c =>
      if (MAX_READ_FILE_BYTES <? N.of_nat (len_utf8 c))%N
      then Err {| kind := InvalidInput;
                  io_message := lit "file is too large to read: limit is " ++ show_N MAX_READ_FILE_BYTES ++ lit " bytes" |}
      else Ok c
  | _ => Err (other (lit "Is a directory"))
  end.

(** open(2) with [O_CREAT | O_TRUNC] creates the target of a dangling link. *)
Definition parent_is_dir (s : state) (p : str) : bool :=
  match parent_of p with
  | Some d => bool_decide (s !! d = Some Dir) || bool_decide (d = [SLASH])
  | None => false
  end.

(** [codex-rs/exec-server/src/local_file_system.rs:388-396 DirectFileSystem::write_file] *)
Definition direct_write_file (s : state) (p c : str) : state * result io_error unit :=
  match follow 40 s p with
  | Err e => (s, Err e)
  | Ok p => match s !! p with
            | Some Dir => (s, Err (other (lit "Is a directory")))
            | _ => if parent_is_dir s p then (<[p := File c]> s, Ok tt) else (s, Err not_found)
            end
  end.

(** [codex-rs/exec-server/src/local_file_system.rs:398-411 DirectFileSystem::create_directory]
    recursive: the ancestors are created first. *)
Fixpoint direct_create_directory (fuel : nat) (s : state) (d : str) : state * result io_error unit :=
  match fuel with
  | 0 => (s, Err (other (lit "File name too long")))
  | S fuel =>
      if bool_decide (d = [SLASH]) then (s, Ok tt) else
      match stat s d, lstat s d, parent_of d with
      | Ok Dir, _, _ => (s, Ok tt)
      | _, Ok _, _ => (s, Err (other (lit "File exists")))
      | _, Err _, None => (s, Err not_found)
      | _, Err _, Some d' =>
          match direct_create_directory fuel s d' with
          | (s', Ok _) => (<[d := Dir]> s', Ok tt)
          | (s', Err e) => (s', Err e)
          end
      end
  end.

Definition has_children (s : state) (p : str) : bool :=
  existsb (fun q => bool_decide (parent_of q = Some p)) (map_to_list s).*1.

(** [codex-rs/exec-server/src/local_file_system.rs:451-475 DirectFileSystem::remove] not recursive, not
    forced. *)
Definition direct_remove (s : state) (p : str) : state * result io_error unit :=
  match lstat s p with
  | Err e => (s, Err e)
  | Ok n => if is_dir n && has_children s p then (s, Err (other (lit "Directory not empty")))
            else (delete p s, Ok tt)
  end.

#[global] Instance link_fs : ExecutorFileSystem state := {|
  get_metadata := direct_get_metadata;
  read_file_text := direct_read_file;
  write_file := direct_write_file;
  create_directory s d := direct_create_directory (S (length d)) s d;
  remove := direct_remove;
|}.

End LinkFs.
