(* ===== verification/SeekSequence.v ===== *)
(** * Locating context lines: apply-patch/src/seek_sequence.rs

    [seek_sequence] finds where a block of pattern lines occurs in a file, trying four notions of
    equality of decreasing strictness.  The specification [occurs] says what an occurrence is under
    a given line normalisation; the theorems say that the search returns the first occurrence of the
    strictest normalisation that has one, and nothing exactly when the loosest has none. *)

From S2P Require Import Prelude Text.

Module SeekSequence.

(** ** The code *)

(** [codex-rs/apply-patch/src/seek_sequence.rs:79-92 normalise] the typographic characters folded
    to ASCII before the last, most permissive pass. *)
Definition normalise_char (c : char) : char :=
  (if (8208 <=? c) && (c <=? 8213) || (c =? 8722) then 45
   else if (8216 <=? c) && (c <=? 8219) then 39
   else if (8220 <=? c) && (c <=? 8223) then 34
   else if (c =? 160) || ((8194 <=? c) && (c <=? 8202)) || (c =? 8239) || (c =? 8287)
           || (c =? 12288) then 32
   else c)%N.

(** [codex-rs/apply-patch/src/seek_sequence.rs:76-94 normalise] *)
Definition normalise (s : str) : str := map normalise_char (trim s).

(** [for i in lo..=hi { if test(i) { return Some(i) } }], as [n] iterations from [i]. *)
Fixpoint find_from (test : nat -> bool) (i n : nat) : option nat :=
  match n with
  | 0 => None
  | S n' => if test i then Some i else find_from test (S i) n'
  end.

Definition for_inclusive (test : nat -> bool) (lo hi : nat) : option nat :=
  find_from test lo (S hi - lo).

(** [codex-rs/apply-patch/src/seek_sequence.rs:42-51 seek_sequence] the inner loop of the three
    normalising passes: every pattern line equals the file line at the same offset.  The index is
    always in range for the positions the search visits. *)
Fixpoint lines_match (key : str -> str) (lines pattern : list str) (i : nat) : bool :=
  match pattern with
  | [] => true
  | pat :: pattern' =>
      match lines !! i with
      | Some line => if bool_decide (key line = key pat)
                     then lines_match key lines pattern' (S i) else false
      | None => false
      end
  end.

(** [codex-rs/apply-patch/src/seek_sequence.rs:12-110 seek_sequence] *)
Definition seek_sequence (lines pattern : list str) (start : nat) (eof : bool) : option nat :=
  match pattern with
  | [] => Some start
  | _ =>
      if length lines <? length pattern then None
      else
        let search_start :=
          if eof && (length pattern <=? length lines)
          then length lines - length pattern else start in
        let hi := length lines - length pattern in
        let exact i := bool_decide (take (length pattern) (drop i lines) = pattern) in
        match for_inclusive exact search_start hi with
        | Some i => Some i
        | None =>
        match for_inclusive (lines_match trim_end lines pattern) search_start hi with
        | Some i => Some i
        | None =>
        match for_inclusive (lines_match trim lines pattern) search_start hi with
        | Some i => Some i
        | None => for_inclusive (lines_match normalise lines pattern) search_start hi
        end end end
  end.

(** ** The specification *)

(** The pattern occurs at line [i] up to the normalisation [key]. *)
Definition occurs (key : str -> str) (lines pattern : list str) (i : nat) : Prop :=
  i + length pattern <= length lines /\
  map key (take (length pattern) (drop i lines)) = map key pattern.

(** The normalisations in the order in which they are tried. *)
Definition tiers : list (str -> str) := [id; trim_end; trim; normalise].

Definition search_start (lines pattern : list str) (start : nat) (eof : bool) : nat :=
  if eof then length lines - length pattern else start.

(** [i] is the first occurrence at or after [s]. *)
Definition first_occurrence key (lines pattern : list str) (s i : nat) : Prop :=
  s <= i /\ occurs key lines pattern i /\ forall j, s <= j < i -> ~ occurs key lines pattern j.

Definition no_occurrence key (lines pattern : list str) (s : nat) : Prop :=
  forall j, s <= j -> ~ occurs key lines pattern j.

(** ** Lemmas *)

Lemma find_from_Some test i n k :
  find_from test i n = Some k ->
  i <= k < i + n /\ test k = true /\ forall j, i <= j < k -> test j = false.
Proof.
  revert i; induction n as [|n IH]; intros i; simpl; [done|].
  destruct (test i) eqn:E.
  - intros [= <-]. split; [lia|]. split; [done | lia].
  - intros (Hk & Ht & Hj)%IH. split; [lia|]. split; [done|].
    intros j Hij. destruct (decide (j = i)) as [->|]; [done | apply Hj; lia].
Qed.

Lemma find_from_None test i n :
  find_from test i n = None -> forall j, i <= j < i + n -> test j = false.
Proof.
  revert i; induction n as [|n IH]; intros i; simpl; [lia|].
  destruct (test i) eqn:E; [done|]. intros H j Hj.
  destruct (decide (j = i)) as [->|]; [done | apply (IH (S i)); [done | lia]].
Qed.

Lemma lines_match_spec key (lines pattern : list str) i :
  i + length pattern <= length lines ->
  lines_match key lines pattern i = true <->
  map key (take (length pattern) (drop i lines)) = map key pattern.
Proof.
  revert i; induction pattern as [|p pattern IH]; intros i Hlen; [done|].
  simpl in Hlen. simpl.
  destruct (lookup_lt_is_Some_2 lines i ltac:(lia)) as [l Hl].
  rewrite Hl, (drop_S lines l) by done. simpl.
  case_bool_decide as Hk.
  - rewrite IH by lia. split; [intros -> | intros [=]]; congruence.
  - split; [done|]. congruence.
Qed.

Lemma occurs_lines_match key (lines pattern : list str) i :
  i + length pattern <= length lines ->
  lines_match key lines pattern i = true <-> occurs key lines pattern i.
Proof. intros H. rewrite lines_match_spec by done. unfold occurs. tauto. Qed.

(** One pass of the search decides [first_occurrence] for its normalisation. *)
Lemma pass_spec key test (lines pattern : list str) s :
  length pattern <= length lines ->
  (forall i, i + length pattern <= length lines -> test i = true <-> occurs key lines pattern i) ->
  match for_inclusive test s (length lines - length pattern) with
  | Some i => first_occurrence key lines pattern s i
  | None => no_occurrence key lines pattern s
  end.
Proof.
  intros Hlen Htest. unfold for_inclusive.
  destruct (find_from _ _ _) as [i|] eqn:E.
  - apply find_from_Some in E as (Hi & Ht & Hmin).
    split; [lia|]. split; [apply Htest; [lia | done]|].
    intros j Hj Hocc. apply Htest in Hocc; [|lia]. by rewrite Hmin in Hocc by lia.
  - intros j Hj Hocc. pose proof (proj1 Hocc) as Hb.
    apply Htest in Hocc; [|lia]. rewrite (find_from_None _ _ _ E) in Hocc; [done | lia].
Qed.

Lemma seek_sequence_passes (lines pattern : list str) start eof :
  pattern <> [] -> length pattern <= length lines ->
  let s := search_start lines pattern start eof in
  match seek_sequence lines pattern start eof with
  | Some i => exists n key, tiers !! n = Some key /\ first_occurrence key lines pattern s i /\
                forall m key', m < n -> tiers !! m = Some key' -> no_occurrence key' lines pattern s
  | None => forall m key', tiers !! m = Some key' -> no_occurrence key' lines pattern s
  end.
Proof.
  intros Hne Hlen s. unfold seek_sequence. destruct pattern as [|p0 pat0] eqn:Hp; [done|].
  rewrite <- Hp in *. clear Hne.
  rewrite (proj2 (Nat.ltb_ge _ _)) by lia.
  assert (Hs : (if eof && (length pattern <=? length lines)
                then length lines - length pattern else start) = s).
  { subst s. unfold search_start. destruct eof; simpl; [|done].
    rewrite (proj2 (Nat.leb_le _ _) Hlen). by rewrite Hp. }
  rewrite Hs. clear Hs.
  assert (Hexact : forall i, i + length pattern <= length lines ->
            bool_decide (take (length pattern) (drop i lines) = pattern) = true <->
            occurs id lines pattern i).
  { intros i Hi. rewrite bool_decide_eq_true. unfold occurs. rewrite !map_id. tauto. }
  pose proof (pass_spec id _ lines pattern s Hlen Hexact) as P0.
  pose proof (pass_spec trim_end _ lines pattern s Hlen (occurs_lines_match trim_end lines pattern)) as P1.
  pose proof (pass_spec trim _ lines pattern s Hlen (occurs_lines_match trim lines pattern)) as P2.
  pose proof (pass_spec normalise _ lines pattern s Hlen (occurs_lines_match normalise lines pattern)) as P3.
  destruct (for_inclusive _ s _) as [i|];
    [exists 0, id; split; [done|split; [done|lia]]|].
  destruct (for_inclusive (lines_match trim_end _ _) s _) as [i|];
    [exists 1, trim_end; split; [done|split; [done|]];
     intros [|m] k Hm Hk; [by injection Hk as <- | lia]|].
  destruct (for_inclusive (lines_match trim _ _) s _) as [i|];
    [exists 2, trim; split; [done|split; [done|]];
     intros [|[|m]] k Hm Hk; [by injection Hk as <- | by injection Hk as <- | lia]|].
  destruct (for_inclusive (lines_match normalise _ _) s _) as [i|].
  - exists 3, normalise. split; [done|split; [done|]].
    intros [|[|[|m]]] k Hm Hk; [by injection Hk as <- .. | lia].
  - intros [|[|[|[|m]]]] k Hk; [by injection Hk as <- .. | done].
Qed.

(** Every stricter occurrence is an occurrence of the loosest normalisation. *)
Lemma occurs_normalise n key (lines pattern : list str) i :
  tiers !! n = Some key -> occurs key lines pattern i -> occurs normalise lines pattern i.
Proof.
  intros Hn [Hb Heq]. split; [done|].
  assert (Hkey : exists g, forall s, normalise s = g (key s)).
  { destruct n as [|[|[|[|n]]]]; simpl in Hn; simplify_eq.
    - by exists normalise.
    - exists normalise. intros s. unfold normalise. by rewrite trim_trim_end.
    - by exists (map normalise_char).
    - by exists id. }
  destruct Hkey as [g Hg].
  rewrite !(map_ext normalise (fun s => g (key s)) Hg).
  rewrite <- (map_map key g), <- (map_map key g). by rewrite Heq.
Qed.

(** An in-range result: the matched block lies inside the file. *)
Lemma seek_sequence_bounds (lines pattern : list str) start eof i :
  pattern <> [] -> seek_sequence lines pattern start eof = Some i ->
  i + length pattern <= length lines /\ (eof = false -> start <= i).
Proof.
  intros Hne Hs.
  destruct (decide (length pattern <= length lines)) as [Hlen|Hlen].
  - pose proof (seek_sequence_passes lines pattern start eof Hne Hlen) as P.
    rewrite Hs in P. destruct P as (n & key & _ & (Hst & [Hb _] & _) & _).
    split; [done|]. intros ->. exact Hst.
  - unfold seek_sequence in Hs. destruct pattern as [|p pat]; [done|].
    rewrite (proj2 (Nat.ltb_lt _ _)) in Hs by lia. done.
Qed.

(** ** Correctness *)

(** For a non-empty pattern, [seek_sequence] returns the first occurrence (at or after the
    search start) under the strictest of the four normalisations (exact, trailing blanks ignored,
    surrounding blanks ignored, typographic punctuation folded) under which the pattern occurs at
    all, and returns nothing only when it occurs under none of them. *)
Theorem seek_sequence_strictest_first (lines pattern : list str) start eof :
  pattern <> [] ->
  let s := search_start lines pattern start eof in
  match seek_sequence lines pattern start eof with
  | Some i => exists n key, tiers !! n = Some key /\ first_occurrence key lines pattern s i /\
                forall m key', m < n -> tiers !! m = Some key' -> no_occurrence key' lines pattern s
  | None => forall m key', tiers !! m = Some key' -> no_occurrence key' lines pattern s
  end.
Proof.
  intros Hne s. destruct (decide (length pattern <= length lines)) as [Hlen|Hlen].
  - by apply seek_sequence_passes.
  - destruct (seek_sequence lines pattern start eof) as [i|] eqn:E.
    + destruct (seek_sequence_bounds _ _ _ _ _ Hne E). lia.
    + intros m key' _ j _ [Hb _]. lia.
Qed.

Lemma seek_sequence_strictest_first_witness :
  exists i, seek_sequence [lit "a"; lit "b "; lit "b"] [lit "b"] 0 false = Some i /\
    first_occurrence id [lit "a"; lit "b "; lit "b"] [lit "b"] 0 i.
Proof.
  pose proof (seek_sequence_strictest_first [lit "a"; lit "b "; lit "b"] [lit "b"] 0 false
                ltac:(discriminate)) as H.
  exists 2. split; [reflexivity|].
  destruct H as (n & key & Hn & Hfirst & Hstrict).
  destruct n as [|n]; [by injection Hn as <-|]. exfalso.
  apply (Hstrict 0 id ltac:(lia) eq_refl 2 ltac:(vm_compute; lia)). split; [simpl; lia | reflexivity].
Defined.

(** With [eof] set, [seek_sequence] only ever looks at the last possible position: it answers
    that position if the pattern occurs there under the loosest normalisation, and nothing
    otherwise, whatever [start] is.  (The doc comment announces a fall-back to a search from
    [start].) *)
Theorem seek_sequence_eof_tail_only (lines pattern : list str) start :
  pattern <> [] ->
  forall i, seek_sequence lines pattern start true = Some i <->
    i = length lines - length pattern /\ occurs normalise lines pattern i.
Proof.
  intros Hne i. pose proof (seek_sequence_passes lines pattern start true Hne) as H.
  simpl in H. split.
  - intros E. destruct (seek_sequence_bounds _ _ _ _ _ Hne E) as [Hb _].
    specialize (H ltac:(lia)). rewrite E in H.
    destruct H as (n & key & Hn & (Hge & Hocc & _) & _).
    split; [lia | by eapply occurs_normalise].
  - intros [-> Hocc]. pose proof (proj1 Hocc). specialize (H ltac:(lia)).
    destruct (seek_sequence lines pattern start true) as [j|].
    + destruct H as (n & key & _ & (Hge & [Hb _] & _) & _). f_equal. lia.
    + exfalso. by apply (H 3 normalise eq_refl (length lines - length pattern)).
Qed.

Lemma seek_sequence_eof_tail_only_witness :
  seek_sequence [lit "x"; lit "y"] [lit "x"] 0 true <> Some 0 /\
  occurs normalise [lit "x"; lit "y"] [lit "x"] 0.
Proof.
  split; [|split; [simpl; lia | reflexivity]].
  intros H. apply (seek_sequence_eof_tail_only [lit "x"; lit "y"] [lit "x"] 0
                     ltac:(discriminate)) in H as [H _].
  discriminate H.
Defined.

End SeekSequence.
