(* ===== verification/PatchParser.v ===== *)
(** * The patch grammar and its parser: apply-patch/src/parser.rs

    The hunks of an apply_patch payload and the batch parser.  An operation of the source
    that slices or indexes is modelled with [option], so that totality includes the absence of panics. *)

From S2P Require Import Prelude Text.

Module PatchParser.

(** ** Data *)

(** [codex-rs/apply-patch/src/parser.rs:54-60 ParseError] *)
Inductive ParseError :=
| InvalidPatchError (message : str)
| InvalidHunkError (message : str) (line_number : nat).

(** [codex-rs/apply-patch/src/parser.rs:112-126 UpdateFileChunk] *)
Record UpdateFileChunk := {
  change_context : option str;
  old_lines : list str;
  new_lines : list str;
  is_end_of_file : bool;
}.

(** [codex-rs/apply-patch/src/parser.rs:63-81 Hunk] a [PathBuf] is the text it was made from. *)
Inductive Hunk :=
| AddFile (path : str) (contents : str)
| DeleteFile (path : str)
| UpdateFile (path : str) (move_path : option str) (chunks : list UpdateFileChunk).

(** [codex-rs/apply-patch/src/lib.rs:91-99 ApplyPatchArgs] *)
Record ApplyPatchArgs := {
  patch : str;
  hunks : list Hunk;
  workdir : option str;
  environment_id : option str;
}.

(** [codex-rs/apply-patch/src/parser.rs:137-174 ParseMode] *)
Inductive ParseMode := Strict | Lenient.

#[global] Instance ParseError_eq_dec : EqDecision ParseError.
Proof. solve_decision. Defined.
#[global] Instance UpdateFileChunk_eq_dec : EqDecision UpdateFileChunk.
Proof. solve_decision. Defined.
#[global] Instance Hunk_eq_dec : EqDecision Hunk.
Proof. solve_decision. Defined.

(** [codex-rs/apply-patch/src/parser.rs:35-35 BEGIN_PATCH_MARKER] *)
Definition BEGIN_PATCH_MARKER : str := lit "*** Begin Patch".
(** [codex-rs/apply-patch/src/parser.rs:36-36 ENVIRONMENT_ID_MARKER] *)
Definition ENVIRONMENT_ID_MARKER : str := lit "*** Environment ID: ".
(** [codex-rs/apply-patch/src/parser.rs:37-37 END_PATCH_MARKER] *)
Definition END_PATCH_MARKER : str := lit "*** End Patch".
(** [codex-rs/apply-patch/src/parser.rs:38-38 ADD_FILE_MARKER] *)
Definition ADD_FILE_MARKER : str := lit "*** Add File: ".
(** [codex-rs/apply-patch/src/parser.rs:39-39 DELETE_FILE_MARKER] *)
Definition DELETE_FILE_MARKER : str := lit "*** Delete File: ".
(** [codex-rs/apply-patch/src/parser.rs:40-40 UPDATE_FILE_MARKER] *)
Definition UPDATE_FILE_MARKER : str := lit "*** Update File: ".
(** [codex-rs/apply-patch/src/parser.rs:41-41 MOVE_TO_MARKER] *)
Definition MOVE_TO_MARKER : str := lit "*** Move to: ".
(** [codex-rs/apply-patch/src/parser.rs:42-42 EOF_MARKER] *)
Definition EOF_MARKER : str := lit "*** End of File".
(** [codex-rs/apply-patch/src/parser.rs:43-43 CHANGE_CONTEXT_MARKER] *)
Definition CHANGE_CONTEXT_MARKER : str := lit "@@ ".
(** [codex-rs/apply-patch/src/parser.rs:44-44 EMPTY_CHANGE_CONTEXT_MARKER] *)
Definition EMPTY_CHANGE_CONTEXT_MARKER : str := lit "@@".
(** [codex-rs/apply-patch/src/parser.rs:52-52 PARSE_IN_STRICT_MODE] *)
Definition PARSE_IN_STRICT_MODE : bool := false.

(** [codex-rs/apply-patch/src/parser.rs:93-107 Hunk::path] *)
Definition hunk_path (h : Hunk) : str :=
  match h with
  | AddFile path _ => path
  | DeleteFile path => path
  | UpdateFile _ (Some path) _ => path
  | UpdateFile path None _ => path
  end.

(** The message both parsers give for a line that is no hunk header. *)
Definition invalid_header_message (line : str) : str :=
  lit "'" ++ line ++
  lit "' is not a valid hunk header. Valid hunk headers: '*** Add File: {path}', '*** Delete File: {path}', '*** Update File: {path}'".

Definition unexpected_line_message (line : str) : str :=
  lit "Unexpected line found in update hunk: '" ++ line ++
  lit "'. Every line should start with ' ' (context line), '+' (added line), or '-' (removed line)".

Definition missing_context_message (line : str) : str :=
  lit "Expected update hunk to start with a @@ context marker, got: '" ++ line ++ lit "'".

Definition empty_update_message (path : str) : str :=
  lit "Update file hunk for path '" ++ path ++ lit "' is empty".

Definition no_lines_message : str := lit "Update hunk does not contain any lines".

Definition first_line_message : str := lit "The first line of the patch must be '*** Begin Patch'".
Definition last_line_message : str := lit "The last line of the patch must be '*** End Patch'".

(** ** The parser *)

(** [codex-rs/apply-patch/src/parser.rs:264-282 check_start_and_end_lines_strict] *)
Definition check_start_and_end_lines_strict (first_line last_line : option str)
    : result ParseError unit :=
  match trim <$> first_line, trim <$> last_line with
  | Some first, Some last_ =>
      if bool_decide (first = BEGIN_PATCH_MARKER) && bool_decide (last_ = END_PATCH_MARKER)
      then Ok tt
      else if negb (bool_decide (first = BEGIN_PATCH_MARKER))
           then Err (InvalidPatchError first_line_message)
           else Err (InvalidPatchError last_line_message)
  | Some first, None =>
      if negb (bool_decide (first = BEGIN_PATCH_MARKER))
      then Err (InvalidPatchError first_line_message)
      else Err (InvalidPatchError last_line_message)
  | None, _ => Err (InvalidPatchError last_line_message)
  end.

(** [codex-rs/apply-patch/src/parser.rs:221-231 check_patch_boundaries_strict] *)
Definition check_patch_boundaries_strict (lines : list str)
    : run ParseError (list str * list str) :=
  _ ← try_ (check_start_and_end_lines_strict (head lines) (last lines));
  inner ← slice lines 1 (length lines - 1);
  Done (lines, inner).

(** [codex-rs/apply-patch/src/parser.rs:240-262 check_patch_boundaries_lenient] *)
Definition check_patch_boundaries_lenient (original_lines : list str)
    : run ParseError (list str * list str) :=
  match check_patch_boundaries_strict original_lines with
  | Fail original_parse_error =>
      match original_lines with
      | first :: _ :: _ =>
          let is_heredoc :=
            bool_decide (first = lit "<<EOF") || bool_decide (first = lit "<<'EOF'")
            || bool_decide (first = [60; 60; 34; 69; 79; 70; 34]%N) in
          if is_heredoc
             && (match last original_lines with Some l => ends_with (lit "EOF") l | None => false end)
             && (4 <=? length original_lines)
          then
            inner_lines ← slice original_lines 1 (length original_lines - 1);
            check_patch_boundaries_strict inner_lines
          else Fail original_parse_error
      | _ => Fail original_parse_error
      end
  | other => other
  end.

(** [codex-rs/apply-patch/src/parser.rs:201-217 parse_environment_id_preamble] *)
Definition parse_environment_id_preamble (hunk_lines : list str)
    : result ParseError (option str * list str * nat) :=
  match hunk_lines with
  | [] => Ok (None, hunk_lines, 2)
  | first_line :: rest =>
      match strip_prefix ENVIRONMENT_ID_MARKER (trim_start first_line) with
      | None => Ok (None, hunk_lines, 2)
      | Some environment_id =>
          let environment_id := trim environment_id in
          match environment_id with
          | [] => Err (InvalidPatchError (lit "apply_patch environment_id cannot be empty"))
          | _ => Ok (Some environment_id, rest, 3)
          end
      end
  end.

Definition push_old (c : UpdateFileChunk) (l : str) : UpdateFileChunk :=
  {| change_context := change_context c; old_lines := old_lines c ++ [l];
     new_lines := new_lines c; is_end_of_file := is_end_of_file c |}.
Definition push_new (c : UpdateFileChunk) (l : str) : UpdateFileChunk :=
  {| change_context := change_context c; old_lines := old_lines c;
     new_lines := new_lines c ++ [l]; is_end_of_file := is_end_of_file c |}.
Definition set_eof (c : UpdateFileChunk) : UpdateFileChunk :=
  {| change_context := change_context c; old_lines := old_lines c;
     new_lines := new_lines c; is_end_of_file := true |}.
Definition empty_chunk (ctx : option str) : UpdateFileChunk :=
  {| change_context := ctx; old_lines := []; new_lines := []; is_end_of_file := false |}.

(** [codex-rs/apply-patch/src/parser.rs:416-464 parse_update_file_chunk] the loop over the body of
    a chunk; [parsed_lines] counts the body lines consumed so far. *)
Fixpoint parse_chunk_body (lines : list str) (line_number : nat) (chunk : UpdateFileChunk)
    (parsed_lines : nat) : result ParseError (UpdateFileChunk * nat) :=
  match lines with
  | [] => Ok (chunk, parsed_lines)
  | line :: rest =>
      if bool_decide (line = EOF_MARKER) then
        if parsed_lines =? 0
        then Err (InvalidHunkError no_lines_message (line_number + 1))
        else Ok (set_eof chunk, parsed_lines + 1)
      else
        match line with
        | [] => parse_chunk_body rest line_number (push_new (push_old chunk []) []) (parsed_lines + 1)
        | ch :: l =>
            if (ch =? SP)%N
            then parse_chunk_body rest line_number (push_new (push_old chunk l) l) (parsed_lines + 1)
            else if (ch =? PLUS)%N
            then parse_chunk_body rest line_number (push_new chunk l) (parsed_lines + 1)
            else if (ch =? MINUS)%N
            then parse_chunk_body rest line_number (push_old chunk l) (parsed_lines + 1)
            else if parsed_lines =? 0
            then Err (InvalidHunkError (unexpected_line_message line) (line_number + 1))
            else Ok (chunk, parsed_lines)
        end
  end.

(** [codex-rs/apply-patch/src/parser.rs:376-465 parse_update_file_chunk] *)
Definition parse_update_file_chunk (lines : list str) (line_number : nat)
    (allow_missing_context : bool) : result ParseError (UpdateFileChunk * nat) :=
  match lines with
  | [] => Err (InvalidHunkError no_lines_message line_number)
  | line0 :: _ =>
      header ←
        (if bool_decide (line0 = EMPTY_CHANGE_CONTEXT_MARKER) then Ok (None, 1)
         else match strip_prefix CHANGE_CONTEXT_MARKER line0 with
              | Some context => Ok (Some context, 1)
              | None =>
                  if allow_missing_context then Ok (None, 0)
                  else Err (InvalidHunkError (missing_context_message line0) line_number)
              end);
      let '(change_context, start_index) := header in
      if length lines <=? start_index
      then Err (InvalidHunkError no_lines_message (line_number + 1))
      else
        '(chunk, parsed_lines) ←
          parse_chunk_body (drop start_index lines) line_number (empty_chunk change_context) 0;
        Ok (chunk, parsed_lines + start_index)
  end.

(** [codex-rs/apply-patch/src/parser.rs:289-299 parse_one_hunk] the added lines of a new file. *)
Fixpoint parse_add_lines (lines : list str) (contents : str) (parsed_lines : nat) : str * nat :=
  match lines with
  | add_line :: rest =>
      match strip_prefix (lit "+") add_line with
      | Some line_to_add => parse_add_lines rest (contents ++ line_to_add ++ [NL]) (parsed_lines + 1)
      | None => (contents, parsed_lines)
      end
  | [] => (contents, parsed_lines)
  end.

(** [codex-rs/apply-patch/src/parser.rs:326-346 parse_one_hunk] the loop over the chunks of an
    update; [fuel] bounds the iterations. *)
Fixpoint parse_update_chunks (fuel : nat) (line_number parsed_lines : nat)
    (remaining_lines : list str) (chunks : list UpdateFileChunk)
    : run ParseError (list UpdateFileChunk * nat) :=
  match remaining_lines with
  | [] => Done (chunks, parsed_lines)
  | line :: rest =>
      match fuel with
      | 0 => OutOfFuel
      | S fuel =>
          if bool_decide (trim line = [])
          then parse_update_chunks fuel line_number (parsed_lines + 1) rest chunks
          else if starts_with (lit "*") line then Done (chunks, parsed_lines)
          else
            '(chunk, chunk_lines) ←
              try_ (parse_update_file_chunk remaining_lines (line_number + parsed_lines)
                      (bool_decide (chunks = [])));
            remaining_lines' ← slice_from remaining_lines chunk_lines;
            parse_update_chunks fuel line_number (parsed_lines + chunk_lines) remaining_lines'
              (chunks ++ [chunk])
      end
  end.

(** [codex-rs/apply-patch/src/parser.rs:286-374 parse_one_hunk] *)
Definition parse_one_hunk (lines : list str) (line_number : nat) : run ParseError (Hunk * nat) :=
  line0 ← index lines 0;
  let first_line := trim line0 in
  match strip_prefix ADD_FILE_MARKER first_line with
  | Some path =>
      rest ← slice_from lines 1;
      let '(contents, parsed_lines) := parse_add_lines rest [] 1 in
      Done (AddFile path contents, parsed_lines)
  | None =>
  match strip_prefix DELETE_FILE_MARKER first_line with
  | Some path => Done (DeleteFile path, 1)
  | None =>
  match strip_prefix UPDATE_FILE_MARKER first_line with
  | Some path =>
      remaining_lines ← slice_from lines 1;
      let move_path := head remaining_lines ≫= strip_prefix MOVE_TO_MARKER in
      '(remaining_lines, parsed_lines) ←
        match move_path with
        | Some _ => r ← slice_from remaining_lines 1; Done (r, 2)
        | None => Done (remaining_lines, 1)
        end;
      '(chunks, parsed_lines) ←
        parse_update_chunks (length remaining_lines) line_number parsed_lines remaining_lines [];
      match chunks with
      | [] => Fail (InvalidHunkError (empty_update_message path) line_number)
      | _ => Done (UpdateFile path move_path chunks, parsed_lines)
      end
  | None => Fail (InvalidHunkError (invalid_header_message first_line) line_number)
  end end end.

(** [codex-rs/apply-patch/src/parser.rs:185-191 parse_patch_text] the loop over the hunks. *)
Fixpoint parse_hunks (fuel : nat) (remaining_lines : list str) (line_number : nat)
    (hunks : list Hunk) : run ParseError (list Hunk) :=
  match remaining_lines with
  | [] => Done hunks
  | _ =>
      match fuel with
      | 0 => OutOfFuel
      | S fuel =>
          '(hunk, hunk_lines) ← parse_one_hunk remaining_lines line_number;
          remaining_lines' ← slice_from remaining_lines hunk_lines;
          parse_hunks fuel remaining_lines' (line_number + hunk_lines) (hunks ++ [hunk])
      end
  end.

(** [codex-rs/apply-patch/src/parser.rs:176-199 parse_patch_text] *)
Definition parse_patch_text (patch : str) (mode : ParseMode) : run ParseError ApplyPatchArgs :=
  let lines := lines (trim patch) in
  '(patch_lines, hunk_lines) ←
    match mode with
    | Strict => check_patch_boundaries_strict lines
    | Lenient => check_patch_boundaries_lenient lines
    end;
  '(environment_id, remaining_lines, line_number) ← try_ (parse_environment_id_preamble hunk_lines);
  hunks ← parse_hunks (length remaining_lines) remaining_lines line_number [];
  Done {| hunks := hunks; patch := join [NL] patch_lines; workdir := None;
          environment_id := environment_id |}.

(** [codex-rs/apply-patch/src/parser.rs:128-135 parse_patch] *)
Definition parse_patch (patch : str) : run ParseError ApplyPatchArgs :=
  let mode := if PARSE_IN_STRICT_MODE then Strict else Lenient in
  parse_patch_text patch mode.

#[global] Arguments parse_update_file_chunk : simpl never.
#[global] Arguments parse_one_hunk : simpl never.

(** ** Progress: every parser consumes at least one line and never more than it was given *)

Lemma parse_chunk_body_progress lines n c k c' k' :
  parse_chunk_body lines n c k = Ok (c', k') ->
  k <= k' <= k + length lines /\ (lines <> [] -> 0 < k').
Proof.
  revert c k; induction lines as [|line rest IH]; intros c k; simpl.
  - intros [= <- <-]. split; [lia | done].
  - assert (Hend : forall (b : ParseError),
              (if k =? 0 then Err b else Ok (c, k)) = Ok (c', k') -> k <= k' <= k + S (length rest) /\ 0 < k').
    { intros b. destruct (Nat.eqb_spec k 0); [done|]. intros [= <- <-]. lia. }
    case_bool_decide.
    + destruct (Nat.eqb_spec k 0); [done|]. intros [= <- <-]. split; lia.
    + destruct line as [|ch l]; [|destruct (ch =? SP)%N; [|destruct (ch =? PLUS)%N; [|destruct (ch =? MINUS)%N]]];
        intros Hr; first [ destruct (Hend _ Hr); split; intros; lia
                         | apply IH in Hr as [? _]; split; intros; lia ].
Qed.

Lemma parse_update_file_chunk_progress lines n b c k :
  parse_update_file_chunk lines n b = Ok (c, k) -> 0 < k <= length lines.
Proof.
  destruct lines as [|line rest]; [done|]. unfold parse_update_file_chunk. intros H.
  apply result_bind_ok in H as ([ctx i] & Hh & H).
  assert (Hi : i <= 1) by (repeat case_match; naive_solver lia).
  destruct (Nat.leb_spec (length (line :: rest)) i); [done|].
  apply result_bind_ok in H as ([c' k'] & Hb & [= <- <-]).
  apply parse_chunk_body_progress in Hb as [Hk Hpos]. rewrite length_drop in Hk.
  split; [|lia]. enough (0 < k') by lia. apply Hpos.
  intros Hnil. apply (f_equal length) in Hnil. rewrite length_drop in Hnil. simpl in *. lia.
Qed.

Lemma parse_add_lines_progress lines c k :
  k <= snd (parse_add_lines lines c k) <= k + length lines.
Proof.
  revert c k; induction lines as [|l lines IH]; intros c k; simpl; [lia|].
  case_match; simpl; [|lia].
  match goal with |- context [parse_add_lines lines ?c' ?k'] => specialize (IH c' k') end. lia.
Qed.

Lemma parse_update_chunks_safe fuel n k lines cs :
  length lines <= fuel -> safe (parse_update_chunks fuel n k lines cs).
Proof.
  revert k lines cs; induction fuel as [|fuel IH]; intros k [|line rest] cs Hf; simpl in *; try done.
  { lia. }
  case_bool_decide; [apply IH; lia|]. destruct (starts_with _ _); [done|].
  apply safe_bind; [apply safe_try|]. intros [c m] Hc. apply try_done in Hc.
  apply parse_update_file_chunk_progress in Hc. simpl in Hc.
  rewrite slice_from_ok by (simpl; lia). simpl mbind. apply IH.
  rewrite length_drop. simpl. lia.
Qed.

Lemma parse_update_chunks_progress fuel n k lines cs cs' k' :
  parse_update_chunks fuel n k lines cs = Done (cs', k') -> k <= k' <= k + length lines.
Proof.
  revert k lines cs; induction fuel as [|fuel IH]; intros k [|line rest] cs; simpl; try naive_solver lia.
  case_bool_decide; [intros Hk%IH; lia|]. destruct (starts_with _ _); [naive_solver lia|].
  clear H. intros H. apply run_bind_done in H as ([c m] & Hc & H). apply try_done in Hc.
  apply parse_update_file_chunk_progress in Hc. simpl in Hc.
  apply run_bind_done in H as (r & Hr & H). apply slice_from_done in Hr as [_ ->].
  apply IH in H. rewrite length_drop in H. simpl in H. lia.
Qed.

(** [parse_one_hunk] on a non-empty list of lines, with the slices in range computed. *)
Lemma parse_one_hunk_cons line rest n :
  parse_one_hunk (line :: rest) n =
  match strip_prefix ADD_FILE_MARKER (trim line) with
  | Some path => let '(contents, k) := parse_add_lines rest [] 1 in Done (AddFile path contents, k)
  | None =>
  match strip_prefix DELETE_FILE_MARKER (trim line) with
  | Some path => Done (DeleteFile path, 1)
  | None =>
  match strip_prefix UPDATE_FILE_MARKER (trim line) with
  | Some path =>
      let move_path := head rest ≫= strip_prefix MOVE_TO_MARKER in
      let '(rem, k) := match move_path with Some _ => (tail rest, 2) | None => (rest, 1) end in
      '(chunks, k) ← parse_update_chunks (length rem) n k rem [];
      match chunks with
      | [] => Fail (InvalidHunkError (empty_update_message path) n)
      | _ => Done (UpdateFile path move_path chunks, k)
      end
  | None => Fail (InvalidHunkError (invalid_header_message (trim line)) n)
  end end end.
Proof.
  unfold parse_one_hunk. simpl mbind.
  destruct (strip_prefix ADD_FILE_MARKER (trim line)); [by rewrite drop_0|].
  destruct (strip_prefix DELETE_FILE_MARKER (trim line)); [done|].
  destruct (strip_prefix UPDATE_FILE_MARKER (trim line)); [|done].
  rewrite drop_0. destruct rest as [|m rest]; simpl; [done|].
  destruct (strip_prefix MOVE_TO_MARKER m); [|done].
  by rewrite drop_0.
Qed.

Lemma parse_one_hunk_safe lines n : lines <> [] -> safe (parse_one_hunk lines n).
Proof.
  intros Hne. destruct lines as [|line rest]; [done|]. rewrite parse_one_hunk_cons.
  destruct (strip_prefix ADD_FILE_MARKER (trim line)); [by destruct (parse_add_lines _ _ _)|].
  destruct (strip_prefix DELETE_FILE_MARKER (trim line)); [done|].
  destruct (strip_prefix UPDATE_FILE_MARKER (trim line)); [|done]. simpl.
  destruct (match _ with Some _ => _ | None => _ end) as [rem k].
  apply safe_bind; [by apply parse_update_chunks_safe|]. intros [[|c cs] k'] _; done.
Qed.

Lemma parse_one_hunk_progress lines n h k :
  parse_one_hunk lines n = Done (h, k) -> 0 < k <= length lines.
Proof.
  destruct lines as [|line rest]; [done|]. rewrite parse_one_hunk_cons. simpl length.
  destruct (strip_prefix ADD_FILE_MARKER (trim line)).
  { pose proof (parse_add_lines_progress rest [] 1).
    destruct (parse_add_lines rest [] 1) as [c k']. simpl in *. intros [= <- <-]. lia. }
  destruct (strip_prefix DELETE_FILE_MARKER (trim line)); [intros [= <- <-]; lia|].
  destruct (strip_prefix UPDATE_FILE_MARKER (trim line)); [|done]. simpl.
  destruct (match _ with Some _ => _ | None => _ end) as [rem k0] eqn:Hm. intros H.
  assert (Hk0 : 0 < k0 /\ k0 + length rem = S (length rest)).
  { destruct rest as [|m rest]; simpl in Hm; [naive_solver|].
    destruct (strip_prefix MOVE_TO_MARKER m); naive_solver lia. }
  apply run_bind_done in H as ([cs k1] & Hc & H).
  apply parse_update_chunks_progress in Hc. destruct cs; [done|]. injection H as <- <-. lia.
Qed.

Lemma parse_hunks_safe fuel lines n hs :
  length lines <= fuel -> safe (parse_hunks fuel lines n hs).
Proof.
  revert lines n hs; induction fuel as [|fuel IH]; intros [|line rest] n hs Hf; simpl in *; try done.
  { lia. }
  apply safe_bind; [by apply parse_one_hunk_safe|]. intros [h k] Hh.
  apply parse_one_hunk_progress in Hh. simpl in Hh.
  rewrite slice_from_ok by (simpl; lia). simpl mbind. apply IH.
  rewrite length_drop. simpl. lia.
Qed.

Lemma check_start_and_end_lines_strict_ok f l :
  check_start_and_end_lines_strict f l = Ok () ->
  exists f' l', f = Some f' /\ l = Some l' /\
    trim f' = BEGIN_PATCH_MARKER /\ trim l' = END_PATCH_MARKER.
Proof.
  unfold check_start_and_end_lines_strict.
  destruct f as [f|], l as [l|]; simpl; repeat case_bool_decide; simpl; naive_solver.
Qed.

(** The two markers differ, so a patch that passes the boundary check has at least two lines. *)
Lemma check_patch_boundaries_strict_safe lines : safe (check_patch_boundaries_strict lines).
Proof.
  unfold check_patch_boundaries_strict. apply safe_bind; [apply safe_try|].
  intros [] (f & l & Hf & Hl & Tf & Tl)%try_done%check_start_and_end_lines_strict_ok.
  destruct lines as [|a [|b rest]]; [done| |].
  - simpl in Hf, Hl. assert (f = l) as -> by congruence. rewrite Tf in Tl. discriminate Tl.
  - by rewrite slice_ok by (simpl; lia).
Qed.

Lemma check_patch_boundaries_lenient_safe lines : safe (check_patch_boundaries_lenient lines).
Proof.
  unfold check_patch_boundaries_lenient.
  pose proof (check_patch_boundaries_strict_safe lines).
  destruct (check_patch_boundaries_strict lines); try done.
  destruct lines as [|a [|b rest]]; try done.
  match goal with |- safe (if ?b then _ else _) => destruct b; [|done] end.
  rewrite slice_ok by (simpl; lia). apply check_patch_boundaries_strict_safe.
Qed.

Lemma parse_patch_text_safe text mode : safe (parse_patch_text text mode).
Proof.
  unfold parse_patch_text. apply safe_bind.
  { destruct mode; [apply check_patch_boundaries_strict_safe
                   | apply check_patch_boundaries_lenient_safe]. }
  intros [pl hl] _. apply safe_bind; [apply safe_try|]. intros [[env rem] n] _.
  apply safe_bind; [by apply parse_hunks_safe | done].
Qed.

(** Parsing a patch always comes to an end with a [Result]: on every text, in either mode, no
    slice is out of range (in particular the boundary check never accepts a one-line patch), and
    the hunk and chunk loops consume at least one line per iteration. *)
Theorem parse_patch_total text :
  (exists r, returns (parse_patch text) r) /\
  (forall mode, exists r, returns (parse_patch_text text mode) r).
Proof.
  split; [|intros mode]; apply safe_returns, parse_patch_text_safe.
Qed.

End PatchParser.
