(* ===== verification/StreamingPatch.v ===== *)
(** * The streaming patch parser: apply-patch/src/streaming_parser.rs

    The incremental parser that keeps the patch preview flowing while the model is still emitting the
    patch.  A parser value is the Rust struct; an operation returns the new struct together with its
    [Result], since a failed call leaves the struct changed.  [DiffConsumer] is the consumer of
    core/src/tools/handlers/apply_patch.rs that feeds the parser and sends or holds back the previews. *)

From S2P Require Import Prelude Text PatchParser.

Module StreamingPatch.
Import PatchParser.

(** ** State *)

(** [codex-rs/apply-patch/src/streaming_parser.rs:34-45 StreamingParserMode] *)
Inductive StreamingParserMode :=
| NotStarted
| StartedPatch
| AddFileMode
| DeleteFileMode
| UpdateFileMode (hunk_line_number : nat)
| EndedPatch.

(** [codex-rs/apply-patch/src/streaming_parser.rs:21-32 StreamingPatchParser] with its
    [StreamingParserState] inlined. *)
Record StreamingPatchParser := {
  line_buffer : str;
  mode : StreamingParserMode;
  st_hunks : list Hunk;
  line_number : nat;
}.

#[global] Instance StreamingParserMode_eq_dec : EqDecision StreamingParserMode.
Proof. solve_decision. Defined.

(** [codex-rs/apply-patch/src/streaming_parser.rs:21-26 StreamingPatchParser::default] *)
Definition default_parser : StreamingPatchParser :=
  {| line_buffer := []; mode := NotStarted; st_hunks := []; line_number := 0 |}.

Definition set_mode (p : StreamingPatchParser) (m : StreamingParserMode) : StreamingPatchParser :=
  {| line_buffer := line_buffer p; mode := m; st_hunks := st_hunks p; line_number := line_number p |}.
Definition set_hunks (p : StreamingPatchParser) (hs : list Hunk) : StreamingPatchParser :=
  {| line_buffer := line_buffer p; mode := mode p; st_hunks := hs; line_number := line_number p |}.
Definition push_char (p : StreamingPatchParser) (c : char) : StreamingPatchParser :=
  {| line_buffer := line_buffer p ++ [c]; mode := mode p; st_hunks := st_hunks p;
     line_number := line_number p |}.
(** [std::mem::take(&mut self.line_buffer)] and [self.line_number += 1]. *)
Definition next_line (p : StreamingPatchParser) : StreamingPatchParser :=
  {| line_buffer := []; mode := mode p; st_hunks := st_hunks p; line_number := line_number p + 1 |}.

(** ** Operations *)

Definition is_empty_chunk (c : UpdateFileChunk) : bool :=
  bool_decide (old_lines c = []) && bool_decide (new_lines c = []).

(** [chunks.last().is_some_and(|chunk| chunk.old_lines.is_empty() && chunk.new_lines.is_empty())]. *)
Definition last_chunk_empty (chunks : list UpdateFileChunk) : bool :=
  match last chunks with Some c => is_empty_chunk c | None => false end.

(** [codex-rs/apply-patch/src/streaming_parser.rs:51-53 is_environment_id_preamble_line] *)
Definition is_environment_id_preamble_line (line : str) : bool :=
  starts_with ENVIRONMENT_ID_MARKER line.

(** [codex-rs/apply-patch/src/streaming_parser.rs:55-84 ensure_update_hunk_is_not_empty] *)
Definition ensure_update_hunk_is_not_empty (p : StreamingPatchParser) (line : str)
    : result ParseError unit :=
  match last (st_hunks p) with
  | Some (UpdateFile path _ chunks) =>
      match chunks, mode p with
      | [], UpdateFileMode hunk_line_number =>
          Err (InvalidHunkError (empty_update_message path) hunk_line_number)
      | _, _ =>
          if last_chunk_empty chunks
          then if bool_decide (line = END_PATCH_MARKER)
               then Err (InvalidHunkError no_lines_message (line_number p))
               else Err (InvalidHunkError (unexpected_line_message line) (line_number p))
          else Ok tt
      end
  | _ => Ok tt
  end.

(** [codex-rs/apply-patch/src/streaming_parser.rs:86-122 handle_hunk_headers_and_end_patch] *)
Definition handle_hunk_headers_and_end_patch (p : StreamingPatchParser) (trimmed : str)
    : StreamingPatchParser * result ParseError bool :=
  let guarded (p' : StreamingPatchParser) :=
    match ensure_update_hunk_is_not_empty p trimmed with
    | Ok _ => (p', Ok true)
    | Err e => (p, Err e)
    end in
  if bool_decide (trimmed = END_PATCH_MARKER) then guarded (set_mode p EndedPatch)
  else match strip_prefix ADD_FILE_MARKER trimmed with
  | Some path => guarded (set_mode (set_hunks p (st_hunks p ++ [AddFile path []])) AddFileMode)
  | None =>
  match strip_prefix DELETE_FILE_MARKER trimmed with
  | Some path => guarded (set_mode (set_hunks p (st_hunks p ++ [DeleteFile path])) DeleteFileMode)
  | None =>
  match strip_prefix UPDATE_FILE_MARKER trimmed with
  | Some path => guarded (set_mode (set_hunks p (st_hunks p ++ [UpdateFile path None []]))
                            (UpdateFileMode (line_number p)))
  | None => (p, Ok false)
  end end end.

(** A chunk is opened if there is none, then the last one is changed by [f]. *)
Definition change_last_chunk (f : UpdateFileChunk -> UpdateFileChunk)
    (chunks : list UpdateFileChunk) : list UpdateFileChunk :=
  map_last f (match chunks with [] => [empty_chunk None] | _ => chunks end).

(** [codex-rs/apply-patch/src/streaming_parser.rs:234-361 process_line] a line inside an update that
    does not name the move destination: the new chunks, or an error. *)
Definition process_change_line (line_number : nat) (line : str) (chunks : list UpdateFileChunk)
    : result ParseError (list UpdateFileChunk) :=
  let update_line := trim_end line in
  if (bool_decide (update_line = EMPTY_CHANGE_CONTEXT_MARKER)
      || starts_with CHANGE_CONTEXT_MARKER update_line) && last_chunk_empty chunks
  then Err (InvalidHunkError (unexpected_line_message line) line_number)
  else if bool_decide (update_line = EMPTY_CHANGE_CONTEXT_MARKER)
  then Ok (chunks ++ [empty_chunk None])
  else match strip_prefix CHANGE_CONTEXT_MARKER update_line with
  | Some change_context => Ok (chunks ++ [empty_chunk (Some change_context)])
  | None =>
  if bool_decide (update_line = EOF_MARKER)
  then if last_chunk_empty chunks
       then Err (InvalidHunkError no_lines_message line_number)
       else Ok (map_last set_eof chunks)
  else match line with
  | [] => Ok (change_last_chunk (fun c => push_new (push_old c []) []) chunks)
  | ch :: l =>
      if (ch =? SP)%N
      then Ok (change_last_chunk (fun c => push_new (push_old c l) l) chunks)
      else if (ch =? PLUS)%N
      then Ok (change_last_chunk (fun c => push_new c l) chunks)
      else if (ch =? MINUS)%N
      then Ok (change_last_chunk (fun c => push_old c l) chunks)
      else match last chunks with
           | Some c => if negb (is_empty_chunk c)
                       then Err (InvalidHunkError (missing_context_message line) line_number)
                       else Err (InvalidHunkError (unexpected_line_message line) line_number)
           | None => Err (InvalidHunkError (unexpected_line_message line) line_number)
           end
  end end.

(** [codex-rs/apply-patch/src/streaming_parser.rs:215-369 process_line] a line inside the last
    hunk, an update: the new move path and chunks, or an error. *)
Definition process_update_line (line_number : nat) (line : str) (move_path : option str)
    (chunks : list UpdateFileChunk) : result ParseError (option str * list UpdateFileChunk) :=
  let continue := chunks' ← process_change_line line_number line chunks; Ok (move_path, chunks') in
  match chunks, move_path with
  | [], None => match strip_prefix MOVE_TO_MARKER (trim_end line) with
                | Some move_to_path => Ok (Some move_to_path, chunks)
                | None => continue
                end
  | _, _ => continue
  end.

(** [codex-rs/apply-patch/src/streaming_parser.rs:160-372 process_line] *)
Definition process_line (p : StreamingPatchParser) (line : str)
    : StreamingPatchParser * result ParseError unit :=
  let trimmed := trim line in
  let not_a_header p :=
    (p, Err (InvalidHunkError (invalid_header_message trimmed) (line_number p))) in
  match mode p with
  | NotStarted =>
      if bool_decide (trimmed = BEGIN_PATCH_MARKER) then (set_mode p StartedPatch, Ok tt)
      else (p, Err (InvalidPatchError first_line_message))
  | StartedPatch =>
      if is_environment_id_preamble_line line then (p, Ok tt)
      else match handle_hunk_headers_and_end_patch p trimmed with
           | (p, Err e) => (p, Err e)
           | (p, Ok true) => (p, Ok tt)
           | (p, Ok false) => not_a_header p
           end
  | AddFileMode =>
      match handle_hunk_headers_and_end_patch p trimmed with
      | (p, Err e) => (p, Err e)
      | (p, Ok true) => (p, Ok tt)
      | (p, Ok false) =>
          match strip_prefix (lit "+") line, last (st_hunks p) with
          | Some line_to_add, Some (AddFile path contents) =>
              (set_hunks p (map_last (fun _ => AddFile path (contents ++ line_to_add ++ [NL]))
                              (st_hunks p)), Ok tt)
          | _, _ => not_a_header p
          end
      end
  | DeleteFileMode =>
      match handle_hunk_headers_and_end_patch p trimmed with
      | (p, Err e) => (p, Err e)
      | (p, Ok true) => (p, Ok tt)
      | (p, Ok false) => not_a_header p
      end
  | UpdateFileMode hunk_line_number =>
      match handle_hunk_headers_and_end_patch p (trim_end line) with
      | (p, Err e) => (p, Err e)
      | (p, Ok true) => (p, Ok tt)
      | (p, Ok false) =>
          match last (st_hunks p) with
          | Some (UpdateFile path move_path chunks) =>
              match process_update_line (line_number p) line move_path chunks with
              | Ok (move_path', chunks') =>
                  (set_mode (set_hunks p (map_last (fun _ => UpdateFile path move_path' chunks')
                                            (st_hunks p))) (UpdateFileMode hunk_line_number), Ok tt)
              | Err e => (p, Err e)
              end
          | _ => (p, Err (InvalidHunkError (unexpected_line_message line) (line_number p)))
          end
      end
  | EndedPatch => (p, Ok tt)
  end.

(** [line.truncate(line.strip_suffix('\r').map_or(line.len(), str::len))]. *)
Definition strip_cr (line : str) : str :=
  match strip_suffix [CR] line with Some l => l | None => line end.

(** [codex-rs/apply-patch/src/streaming_parser.rs:125-134 push_delta] the loop over the characters. *)
Fixpoint push_chars (p : StreamingPatchParser) (delta : str)
    : StreamingPatchParser * result ParseError unit :=
  match delta with
  | [] => (p, Ok tt)
  | ch :: rest =>
      if (ch =? NL)%N then
        match process_line (next_line p) (strip_cr (line_buffer p)) with
        | (p', Err e) => (p', Err e)
        | (p', Ok _) => push_chars p' rest
        end
      else push_chars (push_char p ch) rest
  end.

(** [codex-rs/apply-patch/src/streaming_parser.rs:124-137 push_delta] *)
Definition push_delta (p : StreamingPatchParser) (delta : str)
    : StreamingPatchParser * result ParseError (list Hunk) :=
  match push_chars p delta with
  | (p', Err e) => (p', Err e)
  | (p', Ok _) => (p', Ok (st_hunks p'))
  end.

(** [codex-rs/apply-patch/src/streaming_parser.rs:140-149 finish] the last line, if it was not ended
    by a line feed. *)
Definition flush_last_line (p : StreamingPatchParser)
    : StreamingPatchParser * result ParseError unit :=
  match line_buffer p with
  | [] => (p, Ok tt)
  | line =>
      let p' := next_line p in
      if bool_decide (trim line = END_PATCH_MARKER) then
        match ensure_update_hunk_is_not_empty p' (trim line) with
        | Err e => (p', Err e)
        | Ok _ => (set_mode p' EndedPatch, Ok tt)
        end
      else process_line p' line
  end.

(** [codex-rs/apply-patch/src/streaming_parser.rs:139-158 finish] *)
Definition finish (p : StreamingPatchParser)
    : StreamingPatchParser * result ParseError (list Hunk) :=
  match flush_last_line p with
  | (p', Err e) => (p', Err e)
  | (p', Ok _) =>
      match mode p' with
      | EndedPatch => (p', Ok (st_hunks p'))
      | _ => (p', Err (InvalidPatchError last_line_message))
      end
  end.

(** ** The invariant of the stream *)

Definition wf_chunk (c : UpdateFileChunk) : Prop := is_empty_chunk c = false.

(** A finished hunk: an update changes something, and so does each of its chunks. *)
Definition wf_hunk (h : Hunk) : Prop :=
  match h with
  | UpdateFile _ _ chunks => chunks <> [] /\ Forall wf_chunk chunks
  | _ => True
  end.

(** What holds between two calls: the hunks before the last one are finished, and the last one is of
    the kind the mode says. *)
Definition stream_inv (p : StreamingPatchParser) : Prop :=
  match mode p with
  | NotStarted | StartedPatch => st_hunks p = []
  | AddFileMode => exists hs path c, st_hunks p = hs ++ [AddFile path c] /\ Forall wf_hunk hs
  | DeleteFileMode => exists hs path, st_hunks p = hs ++ [DeleteFile path] /\ Forall wf_hunk hs
  | UpdateFileMode _ =>
      exists hs path mv cs, st_hunks p = hs ++ [UpdateFile path mv cs] /\ Forall wf_hunk hs /\
        Forall wf_chunk (removelast cs)
  | EndedPatch => Forall wf_hunk (st_hunks p)
  end.

(** The states a caller can produce. *)
Inductive reachable : StreamingPatchParser -> Prop :=
| reach_default : reachable default_parser
| reach_push p delta : reachable p -> reachable (fst (push_delta p delta))
| reach_finish p : reachable p -> reachable (fst (finish p)).

Lemma last_chunk_wf cs :
  last_chunk_empty cs = false -> Forall wf_chunk (removelast cs) -> Forall wf_chunk cs.
Proof.
  induction cs as [|c cs _] using rev_ind; [done|]. unfold last_chunk_empty.
  rewrite last_snoc, removelast_last. intros. apply Forall_app; eauto.
Qed.

(** When a header or the end marker is accepted, every hunk so far is finished. *)
Lemma ensure_ok_wf p line :
  stream_inv p -> ensure_update_hunk_is_not_empty p line = Ok () -> Forall wf_hunk (st_hunks p).
Proof.
  unfold stream_inv, ensure_update_hunk_is_not_empty.
  destruct (mode p) as [| | | |n|] eqn:Hm; [intros -> _; done..| | | |done].
  - intros (hs & path & c & -> & Hwf) _. by apply Forall_snoc.
  - intros (hs & path & -> & Hwf) _. by apply Forall_snoc.
  - intros (hs & path & mv & cs & -> & Hwf & Hcs). rewrite last_snoc.
    destruct cs as [|c cs]; [done|].
    destruct (last_chunk_empty (c :: cs)) eqn:Hl; [by case_bool_decide|]. intros _.
    apply Forall_snoc. split; [done|]. split; [done | by apply last_chunk_wf].
Qed.

Lemma handle_headers_inv p line p' r :
  stream_inv p -> handle_hunk_headers_and_end_patch p line = (p', r) ->
  match r with
  | Ok true => stream_inv p' /\ extends (st_hunks p) (st_hunks p')
  | _ => p' = p
  end.
Proof.
  unfold handle_hunk_headers_and_end_patch. intros Hinv.
  destruct (ensure_update_hunk_is_not_empty p line) as [[]|e] eqn:He.
  2: { repeat case_match; naive_solver. }
  apply ensure_ok_wf in He; [|done].
  case_bool_decide; [intros [= <- <-]; by split|].
  destruct (strip_prefix ADD_FILE_MARKER line).
  { intros [= <- <-]. split; [by repeat eexists | apply extends_app]. }
  destruct (strip_prefix DELETE_FILE_MARKER line).
  { intros [= <- <-]. split; [by repeat eexists | apply extends_app]. }
  destruct (strip_prefix UPDATE_FILE_MARKER line); [|by intros [= <- <-]].
  intros [= <- <-]. split; [|apply extends_app]. by do 4 eexists.
Qed.

Lemma change_last_chunk_wf f cs :
  Forall wf_chunk (removelast cs) -> Forall wf_chunk (removelast (change_last_chunk f cs)).
Proof.
  induction cs as [|c cs _] using rev_ind; [constructor|]. unfold change_last_chunk.
  replace (match cs ++ [c] with [] => _ | _ => cs ++ [c] end) with (cs ++ [c]) by (by destruct cs).
  by rewrite map_last_snoc, !removelast_last.
Qed.

Lemma map_last_eof_wf cs :
  Forall wf_chunk (removelast cs) -> Forall wf_chunk (removelast (map_last set_eof cs)).
Proof.
  induction cs as [|c cs _] using rev_ind; [done|]. by rewrite map_last_snoc, !removelast_last.
Qed.

Lemma process_change_line_wf n line cs cs' :
  process_change_line n line cs = Ok cs' ->
  Forall wf_chunk (removelast cs) -> Forall wf_chunk (removelast cs').
Proof.
  intros H Hwf. unfold process_change_line, starts_with in H.
  assert (Hsnoc : forall ctx, last_chunk_empty cs = false ->
            Forall wf_chunk (removelast (cs ++ [empty_chunk ctx]))).
  { intros ctx Hl. rewrite removelast_last. by apply last_chunk_wf. }
  destruct (bool_decide (trim_end line = EMPTY_CHANGE_CONTEXT_MARKER)) eqn:He; simpl in H.
  { destruct (last_chunk_empty cs) eqn:Hl; [done|]. injection H as <-. by apply Hsnoc. }
  destruct (strip_prefix CHANGE_CONTEXT_MARKER _); simpl in H.
  { destruct (last_chunk_empty cs) eqn:Hl; [done|]. injection H as <-. by apply Hsnoc. }
  case_bool_decide.
  { destruct (last_chunk_empty cs); [done|]. injection H as <-. by apply map_last_eof_wf. }
  repeat case_match; simplify_eq; by apply change_last_chunk_wf.
Qed.

Lemma process_update_line_wf n line mv cs mv' cs' :
  process_update_line n line mv cs = Ok (mv', cs') ->
  Forall wf_chunk (removelast cs) -> Forall wf_chunk (removelast cs').
Proof.
  unfold process_update_line. intros H Hwf.
  assert (Hk : process_change_line n line cs = Ok cs' \/ cs' = cs).
  { destruct (process_change_line n line cs); simpl in H; repeat case_match; naive_solver. }
  destruct Hk as [Hk| ->]; [by eapply process_change_line_wf | done].
Qed.

Lemma process_line_inv p line p' r :
  stream_inv p -> process_line p line = (p', r) ->
  stream_inv p' /\ extends (st_hunks p) (st_hunks p').
Proof.
  intros Hinv H. unfold process_line in H.
  assert (Hid : stream_inv p /\ extends (st_hunks p) (st_hunks p)) by (by split).
  assert (Hhd : forall l (k : StreamingPatchParser -> StreamingPatchParser * result ParseError unit),
     (match handle_hunk_headers_and_end_patch p l with
      | (p, Err e) => (p, Err e) | (p, Ok true) => (p, Ok tt) | (p, Ok false) => k p end) = (p', r) ->
     stream_inv p' /\ extends (st_hunks p) (st_hunks p') \/ k p = (p', r)).
  { intros l k Hk. destruct (handle_hunk_headers_and_end_patch p l) as [p1 [[]|e]] eqn:Hh;
      apply (handle_headers_inv p l) in Hh; try done; [|subst p1..]; naive_solver. }
  destruct (mode p) as [| | | |n|] eqn:Hm.
  - case_bool_decide; injection H as <- <-; [|done]. split; [|done].
    unfold stream_inv in Hinv. rewrite Hm in Hinv. done.
  - destruct (is_environment_id_preamble_line line); [injection H as <- <-; done|].
    apply Hhd in H as [H|H]; [done|]. by injection H as <- <-.
  - apply Hhd in H as [H|H]; [done|].
    unfold stream_inv in Hinv. rewrite Hm in Hinv. destruct Hinv as (hs & path & c & Hhs & Hwf).
    rewrite Hhs, last_snoc in H.
    destruct (strip_prefix (lit "+") line); [rewrite map_last_snoc in H|]; injection H as <- <-; [|done].
    unfold stream_inv. simpl. rewrite Hm, Hhs. split; [by do 3 eexists | apply extends_snoc].
  - apply Hhd in H as [H|H]; [done|]. by injection H as <- <-.
  - unfold stream_inv in Hinv. rewrite Hm in Hinv. destruct Hinv as (hs & path & mv & cs & Hhs & Hwf & Hcs).
    apply Hhd in H as [H|H]; [done|].
    rewrite Hhs, last_snoc in H.
    destruct (process_update_line _ _ _ _) as [[mv' cs']|e] eqn:Hu;
      [rewrite map_last_snoc in H|]; injection H as <- <-; [|done].
    unfold stream_inv. simpl. rewrite Hhs. split; [|apply extends_snoc].
    do 4 eexists. split; [done|]. split; [done|]. by eapply process_update_line_wf.
  - by injection H as <- <-.
Qed.

Lemma push_chars_inv p d p' r :
  stream_inv p -> push_chars p d = (p', r) -> stream_inv p' /\ extends (st_hunks p) (st_hunks p').
Proof.
  revert p; induction d as [|ch d IH]; intros p Hinv; simpl; [by intros [= <- <-]|].
  destruct (ch =? NL)%N; [|by apply (IH (push_char p ch))].
  destruct (process_line (next_line p) (strip_cr (line_buffer p))) as [p1 [[]|e]] eqn:Hl;
    apply (process_line_inv (next_line p)) in Hl as [Hinv1 Hext1]; try done.
  - intros H. destruct (IH _ Hinv1 H). split; [done | by etrans].
  - by intros [= <- <-].
Qed.

Lemma push_delta_inv p d :
  stream_inv p ->
  stream_inv (fst (push_delta p d)) /\ extends (st_hunks p) (st_hunks (fst (push_delta p d))).
Proof.
  intros Hinv. unfold push_delta. destruct (push_chars p d) as [p1 [[]|e]] eqn:H;
    by apply push_chars_inv in H.
Qed.

Lemma flush_last_line_inv p p' r :
  stream_inv p -> flush_last_line p = (p', r) -> stream_inv p'.
Proof.
  unfold flush_last_line. intros Hinv. destruct (line_buffer p) as [|c line]; [by intros [= <- <-]|].
  case_bool_decide.
  - destruct (ensure_update_hunk_is_not_empty (next_line p) _) as [[]|e] eqn:He; [|by intros [= <- <-]].
    intros [= <- <-]. by apply ensure_ok_wf in He.
  - intros Hl. by apply (process_line_inv (next_line p)) in Hl as [? _].
Qed.

Lemma finish_inv p :
  stream_inv p ->
  stream_inv (fst (finish p)) /\ forall hs, snd (finish p) = Ok hs -> Forall wf_hunk hs.
Proof.
  intros Hinv. unfold finish. destruct (flush_last_line p) as [p1 [[]|e]] eqn:Hf;
    apply flush_last_line_inv in Hf as Hinv1; try done.
  destruct (mode p1) eqn:Hm; simpl; split; try done.
  intros hs [= <-]. unfold stream_inv in Hinv1. by rewrite Hm in Hinv1.
Qed.

Lemma reachable_inv p : reachable p -> stream_inv p.
Proof.
  induction 1 as [|p d _ IH|p _ IH]; [done | by apply push_delta_inv | by apply finish_inv].
Qed.

Lemma push_chars_app p d1 d2 :
  push_chars p (d1 ++ d2) =
  match push_chars p d1 with
  | (p', Ok _) => push_chars p' d2
  | (p', Err e) => (p', Err e)
  end.
Proof.
  revert p; induction d1 as [|ch d1 IH]; intros p; simpl; [done|].
  destruct (ch =? NL)%N; [|apply IH].
  destruct (process_line _ _) as [p1 [[]|e]]; [apply IH | done].
Qed.

(** ** Patches that are written out *)

(** A line of a section: kept, removed or inserted. *)
Inductive edit := Keep (l : str) | Remove (l : str) | Insert (l : str).

(** A section of an update, and what is done to one file. *)
Record section := mkSection { sec_context : option str; sec_edits : list edit; sec_end_of_file : bool }.
Inductive file_edit :=
| Adds (path : str) (lines : list str)
| Deletes (path : str)
| Updates (path : str) (dest : option str) (sections : list section).

(** The hunk that each stands for. *)
Definition removed (e : edit) : option str := match e with Keep l | Remove l => Some l | Insert _ => None end.
Definition inserted (e : edit) : option str := match e with Keep l | Insert l => Some l | Remove _ => None end.
Definition chunk_of (s : section) : UpdateFileChunk :=
  {| change_context := sec_context s; old_lines := omap removed (sec_edits s); new_lines := omap inserted (sec_edits s);
     is_end_of_file := sec_end_of_file s |}.
Definition unlines (ls : list str) : str := concat (map (fun l => l ++ [NL]) ls).
Definition hunk_of (f : file_edit) : Hunk :=
  match f with
  | Adds path ls => AddFile path (unlines ls)
  | Deletes path => DeleteFile path
  | Updates path dest sections => UpdateFile path dest (map chunk_of sections)
  end.

(** The lines of a patch. *)
Definition edit_line (e : edit) : str :=
  match e with Keep l => SP :: l | Remove l => MINUS :: l | Insert l => PLUS :: l end.
Definition section_lines (s : section) : list str :=
  match sec_context s with None => lit "@@" | Some context => lit "@@ " ++ context end ::
  map edit_line (sec_edits s) ++ (if sec_end_of_file s then [lit "*** End of File"] else []).
Definition file_lines (f : file_edit) : list str :=
  match f with
  | Adds path ls => (lit "*** Add File: " ++ path) :: map (fun l => PLUS :: l) ls
  | Deletes path => [lit "*** Delete File: " ++ path]
  | Updates path dest sections =>
      (lit "*** Update File: " ++ path) :: map (fun d => lit "*** Move to: " ++ d) (option_list dest) ++
      flat_map section_lines sections
  end.
Definition patch_text (fs : list file_edit) : str :=
  unlines (lit "*** Begin Patch" :: flat_map file_lines fs) ++ lit "*** End Patch".

(** A text on one line; a name or context, which does not end in white space. *)
Definition on_one_line (l : str) : Prop := NL ∉ l /\ last l <> Some CR.
Definition name_line (l : str) : Prop := NL ∉ l /\ exists c, last l = Some c /\ is_whitespace c = false.

(** What can be written out: texts on one line, names that do not end in white space, and updates that change
    something in every section. *)
Definition edit_text (e : edit) : str := match e with Keep l | Remove l | Insert l => l end.
Definition section_written (s : section) : Prop :=
  match sec_context s with Some context => name_line context | None => True end /\
  sec_edits s <> [] /\ Forall (fun e => on_one_line (edit_text e)) (sec_edits s).
Definition written (f : file_edit) : Prop :=
  match f with
  | Adds path ls => name_line path /\ Forall on_one_line ls
  | Deletes path => name_line path
  | Updates path dest sections =>
      name_line path /\ match dest with Some d => name_line d | None => True end /\
      sections <> [] /\ Forall section_written sections
  end.

(** Lines fed to the parser, each with its end. *)
Fixpoint feed_lines (p : StreamingPatchParser) (ls : list str) : StreamingPatchParser * result ParseError unit :=
  match ls with
  | [] => (p, Ok tt)
  | l :: ls => match process_line (next_line p) l with
               | (p', Ok _) => feed_lines p' ls
               | (p', Err e) => (p', Err e)
               end
  end.

Lemma feed_lines_app p l1 l2 :
  feed_lines p (l1 ++ l2) = match feed_lines p l1 with (p', Ok _) => feed_lines p' l2 | (p', Err e) => (p', Err e) end.
Proof.
  revert p. induction l1 as [|l l1 IH]; intros p; cbn [app feed_lines]; [done|].
  destruct (process_line (next_line p) l) as [p1 [[]|e]]; [apply IH|done].
Qed.

Lemma strip_cr_id l : last l <> Some CR -> strip_cr l = l.
Proof.
  intros Hl. unfold strip_cr. destruct (strip_suffix [CR] l) as [r|] eqn:E; [|done].
  apply strip_suffix_Some in E as ->. by rewrite last_snoc in Hl.
Qed.

Definition set_buffer (p : StreamingPatchParser) (b : str) : StreamingPatchParser :=
  {| line_buffer := b; mode := mode p; st_hunks := st_hunks p; line_number := line_number p |}.

Lemma push_chars_plain p l rest :
  NL ∉ l -> push_chars p (l ++ rest) = push_chars (set_buffer p (line_buffer p ++ l)) rest.
Proof.
  revert p. induction l as [|c l IH]; intros p Hl; cbn [app].
  - rewrite app_nil_r. by destruct p.
  - apply not_elem_of_cons in Hl as [Hc Hl]. cbn [push_chars]. rewrite (proj2 (N.eqb_neq c NL)) by done.
    rewrite IH by done. cbn. by rewrite <- app_assoc.
Qed.

Lemma process_line_buffer p l : line_buffer (fst (process_line p l)) = line_buffer p.
Proof.
  unfold process_line, handle_hunk_headers_and_end_patch.
  repeat (case_match; simplify_eq/=; try done).
Qed.

(** Feeding whole lines is processing them one by one. *)
Lemma push_unlines p ls rest :
  line_buffer p = [] -> Forall on_one_line ls ->
  push_chars p (unlines ls ++ rest) =
  match feed_lines p ls with (p', Ok _) => push_chars p' rest | (p', Err e) => (p', Err e) end.
Proof.
  intros Hb Hls. revert p Hb. induction Hls as [|l ls [Hl Hcr] _ IH]; intros p Hb; [done|].
  unfold unlines. cbn [map concat]. rewrite <- !app_assoc. rewrite push_chars_plain by done. cbn [app push_chars].
  rewrite Hb. cbn [app line_buffer set_buffer]. rewrite N.eqb_refl, strip_cr_id by done.
  change (next_line (set_buffer p l)) with (next_line p). cbn [feed_lines].
  pose proof (process_line_buffer (next_line p) l) as Hbuf.
  destruct (process_line (next_line p) l) as [p1 [[]|e]]; [|done]. by apply IH.
Qed.

(** A line that begins and ends with something visible. *)
Lemma visible_trims c l d : is_whitespace c = false -> last (c :: l) = Some d -> is_whitespace d = false ->
  trim (c :: l) = c :: l /\ trim_end (c :: l) = c :: l.
Proof.
  intros Hc Hl Hd. assert (He : trim_end (c :: l) = c :: l).
  { apply last_Some in Hl as [l' ->]. by apply trim_end_by_snoc. }
  split; [|done]. unfold trim, trim_start. by rewrite (trim_start_by_id _ _ _ Hc).
Qed.

Lemma last_app_name (m l : str) : name_line l -> exists d, last (m ++ l) = Some d /\ is_whitespace d = false.
Proof.
  intros [_ (d & Hd & Hw)]. exists d. split; [|done]. apply last_Some in Hd as [l' ->]. by rewrite app_assoc, last_snoc.
Qed.

(** Between two hunks: the hunks so far are finished. *)
Definition settled (p : StreamingPatchParser) (hs : list Hunk) : Prop :=
  line_buffer p = [] /\ st_hunks p = hs /\
  match mode p with NotStarted | EndedPatch => False | _ => True end /\
  forall line, ensure_update_hunk_is_not_empty (next_line p) line = Ok tt.

Lemma settled_header p hs marker name q :
  settled p hs -> name_line name ->
  marker = ADD_FILE_MARKER \/ marker = DELETE_FILE_MARKER \/ marker = UPDATE_FILE_MARKER ->
  handle_hunk_headers_and_end_patch (next_line p) (marker ++ name) = (q, Ok true) ->
  process_line (next_line p) (marker ++ name) = (q, Ok tt).
Proof.
  intros (_ & _ & Hm & _) Hn Hmark Hh. destruct (last_app_name marker name Hn) as (d & Hd & Hw).
  assert (exists l, marker ++ name = 42%N :: l /\ is_environment_id_preamble_line (42%N :: l) = false) as (l & Hl & Hp).
  { destruct Hmark as [->|[->| ->]]; eexists; split; reflexivity. }
  rewrite Hl in *. destruct (visible_trims 42%N l d eq_refl Hd Hw) as [Ht Hte].
  unfold process_line. rewrite Ht, Hte. change (mode (next_line p)) with (mode p).
  destruct (mode p); try done; by rewrite ?Hp, Hh.
Qed.

(** The state after a header. *)
Lemma header_add p hs path :
  settled p hs -> name_line path ->
  exists q, process_line (next_line p) (ADD_FILE_MARKER ++ path) = (q, Ok tt) /\
    line_buffer q = [] /\ st_hunks q = hs ++ [AddFile path []] /\ mode q = AddFileMode.
Proof.
  intros Hs Hn. pose proof Hs as (_ & Hh & _ & He). eexists. split.
  { eapply settled_header; [done|done|by left|]. unfold handle_hunk_headers_and_end_patch.
    rewrite bool_decide_false by done. rewrite strip_prefix_app, He. reflexivity. }
  cbn. by rewrite Hh.
Qed.

Lemma header_delete p hs path :
  settled p hs -> name_line path ->
  exists q, process_line (next_line p) (DELETE_FILE_MARKER ++ path) = (q, Ok tt) /\
    line_buffer q = [] /\ st_hunks q = hs ++ [DeleteFile path] /\ mode q = DeleteFileMode.
Proof.
  intros Hs Hn. pose proof Hs as (_ & Hh & _ & He). eexists. split.
  { eapply settled_header; [done|done|by right; left|]. unfold handle_hunk_headers_and_end_patch.
    rewrite bool_decide_false by done.
    assert (strip_prefix ADD_FILE_MARKER (DELETE_FILE_MARKER ++ path) = None) as -> by reflexivity.
    rewrite strip_prefix_app, He. reflexivity. }
  cbn. by rewrite Hh.
Qed.

Lemma header_update p hs path :
  settled p hs -> name_line path ->
  exists q n, process_line (next_line p) (UPDATE_FILE_MARKER ++ path) = (q, Ok tt) /\
    line_buffer q = [] /\ st_hunks q = hs ++ [UpdateFile path None []] /\ mode q = UpdateFileMode n.
Proof.
  intros Hs Hn. pose proof Hs as (_ & Hh & _ & He). eexists _, _. split.
  { eapply settled_header; [done|done|by right; right|]. unfold handle_hunk_headers_and_end_patch.
    rewrite bool_decide_false by done.
    assert (strip_prefix ADD_FILE_MARKER (UPDATE_FILE_MARKER ++ path) = None) as -> by reflexivity.
    assert (strip_prefix DELETE_FILE_MARKER (UPDATE_FILE_MARKER ++ path) = None) as -> by reflexivity.
    rewrite strip_prefix_app, He. reflexivity. }
  cbn. by rewrite Hh.
Qed.

(** The lines of an added file. *)
Lemma feed_added p hs path contents ls :
  line_buffer p = [] -> st_hunks p = hs ++ [AddFile path contents] -> mode p = AddFileMode ->
  exists q, feed_lines p (map (fun l => PLUS :: l) ls) = (q, Ok tt) /\
    line_buffer q = [] /\ st_hunks q = hs ++ [AddFile path (contents ++ unlines ls)] /\ mode q = AddFileMode.
Proof.
  revert p contents. induction ls as [|l ls IH]; intros p contents Hb Hh Hm; cbn [map feed_lines].
  { exists p. unfold unlines. cbn. by rewrite app_nil_r. }
  assert (Hno : forall q, handle_hunk_headers_and_end_patch q (trim (PLUS :: l)) = (q, Ok false)).
  { intros q. assert (exists r, trim (PLUS :: l) = PLUS :: r) as [r ->].
    { unfold trim, trim_start. rewrite trim_start_by_id by done. unfold trim_end. cbn [trim_end_by].
      destruct (trim_end_by is_whitespace l); by eexists. }
    reflexivity. }
  unfold process_line. change (mode (next_line p)) with (mode p). rewrite Hm, Hno.
  change (st_hunks (next_line p)) with (st_hunks p). change (strip_prefix (lit "+") (PLUS :: l)) with (Some l).
  rewrite Hh, last_snoc. destruct (IH (set_hunks (next_line p) (map_last (fun _ => AddFile path (contents ++ l ++ [NL]))
    (hs ++ [AddFile path contents]))) (contents ++ l ++ [NL])) as (q & -> & Hq); [done| |done|].
  { cbn. by rewrite map_last_snoc. }
  exists q. split; [done|]. unfold unlines in *. cbn [map concat]. by rewrite <- !app_assoc in *.
Qed.

(** In the middle of an update. *)
Definition updating (p : StreamingPatchParser) (hs : list Hunk) (path : str) (dest : option str)
    (chunks : list UpdateFileChunk) : Prop :=
  line_buffer p = [] /\ st_hunks p = hs ++ [UpdateFile path dest chunks] /\ exists n, mode p = UpdateFileMode n.

Lemma updating_line p hs path dest chunks l dest' chunks' :
  updating p hs path dest chunks ->
  (forall q, handle_hunk_headers_and_end_patch q (trim_end l) = (q, Ok false)) ->
  (forall n, process_update_line n l dest chunks = Ok (dest', chunks')) ->
  exists q, process_line (next_line p) l = (q, Ok tt) /\ updating q hs path dest' chunks'.
Proof.
  intros (Hb & Hh & n & Hm) Hno Hl. unfold process_line. change (mode (next_line p)) with (mode p). rewrite Hm, Hno.
  change (st_hunks (next_line p)) with (st_hunks p). rewrite Hh, last_snoc, Hl. eexists. split; [done|].
  split; [done|]. split; [|by exists n]. cbn. by rewrite map_last_snoc.
Qed.

(** What is left of a line at its end begins like the line. *)
Lemma trim_end_head c l : trim_end (c :: l) = [] \/ exists r, trim_end (c :: l) = c :: r.
Proof. unfold trim_end. cbn [trim_end_by]. destruct (trim_end_by _ l); [destruct (is_whitespace c)|]; eauto. Qed.

Lemma other_line_no_header c l q : c <> 42%N -> handle_hunk_headers_and_end_patch q (trim_end (c :: l)) = (q, Ok false).
Proof.
  intros Hc. assert (Hs : forall m, strip_prefix (42%N :: m) (trim_end (c :: l)) = None).
  { intros m. destruct (trim_end_head c l) as [->|[r ->]]; [done|].
    destruct (strip_prefix (42%N :: m) (c :: r)) as [x|] eqn:E; [|done].
    apply strip_prefix_Some in E. cbn in E. congruence. }
  unfold handle_hunk_headers_and_end_patch.
  change END_PATCH_MARKER with (42%N :: lit "** End Patch").
  rewrite bool_decide_false by (destruct (trim_end_head c l) as [->|[r ->]]; congruence).
  change ADD_FILE_MARKER with (42%N :: lit "** Add File: "). change DELETE_FILE_MARKER with (42%N :: lit "** Delete File: ").
  change UPDATE_FILE_MARKER with (42%N :: lit "** Update File: "). by rewrite !Hs.
Qed.

(** Processing goes on with the chunks, unless the line can name the destination. *)
Lemma continue_update n l dest chunks chunks' :
  strip_prefix MOVE_TO_MARKER (trim_end l) = None \/ chunks <> [] ->
  process_change_line n l chunks = Ok chunks' -> process_update_line n l dest chunks = Ok (dest, chunks').
Proof.
  intros Hmv Hl. unfold process_update_line. rewrite Hl.
  destruct chunks as [|c cs]; [|done]. destruct dest; [done|]. destruct Hmv as [->|]; done.
Qed.

(** A line of a section adds to its chunk. *)
Definition add_edit (e : edit) (c : UpdateFileChunk) : UpdateFileChunk :=
  match e with Keep l => push_new (push_old c l) l | Remove l => push_old c l | Insert l => push_new c l end.

Lemma edit_processed n e cs c : process_change_line n (edit_line e) (cs ++ [c]) = Ok (cs ++ [add_edit e c]).
Proof.
  assert (exists ch l, edit_line e = ch :: l /\ ch <> 64%N /\ ch <> 42%N) as (ch & l & Hl & H64 & H42).
  { destruct e; cbn; by eexists _, _. }
  assert (Hat : forall m, strip_prefix (64%N :: m) (trim_end (edit_line e)) = None).
  { intros m. rewrite Hl. destruct (trim_end_head ch l) as [->|[r ->]]; [done|].
    destruct (strip_prefix (64%N :: m) (ch :: r)) as [x|] eqn:E; [|done]. apply strip_prefix_Some in E. cbn in E. congruence. }
  assert (Hne : forall m k, (k = 64%N \/ k = 42%N) -> trim_end (edit_line e) <> k :: m).
  { intros m k Hk. rewrite Hl. destruct (trim_end_head ch l) as [->|[r ->]]; [done|]. destruct Hk as [-> | ->]; congruence. }
  unfold process_change_line, starts_with. change CHANGE_CONTEXT_MARKER with (64%N :: lit "@ "). rewrite Hat.
  rewrite (bool_decide_false (_ = EMPTY_CHANGE_CONTEXT_MARKER)) by (apply Hne; by left).
  rewrite (bool_decide_false (_ = EOF_MARKER)) by (apply Hne; by right). cbn [orb andb].
  assert (Hch : forall f, change_last_chunk f (cs ++ [c]) = cs ++ [f c]).
  { intros f. unfold change_last_chunk. destruct (cs ++ [c]) eqn:E; [by destruct cs|]. rewrite <- E. apply map_last_snoc. }
  destruct e as [x|x|x]; cbn [edit_line]; cbn; by rewrite Hch.
Qed.

Lemma feed_edits p hs path dest cs c es :
  updating p hs path dest (cs ++ [c]) ->
  exists q, feed_lines p (map edit_line es) = (q, Ok tt) /\ updating q hs path dest (cs ++ [foldl (fun c e => add_edit e c) c es]).
Proof.
  revert p c. induction es as [|e es IH]; intros p c Hp; cbn [map feed_lines foldl]; [by exists p|].
  destruct (updating_line p hs path dest (cs ++ [c]) (edit_line e) dest (cs ++ [add_edit e c]) Hp) as (q & -> & Hq).
  - intros q. destruct e; apply other_line_no_header; done.
  - intros n. apply continue_update; [right; by destruct cs|apply edit_processed].
  - by apply IH.
Qed.

Lemma edits_collected es c :
  foldl (fun c e => add_edit e c) c es =
  {| change_context := change_context c; old_lines := old_lines c ++ omap removed es;
     new_lines := new_lines c ++ omap inserted es; is_end_of_file := is_end_of_file c |}.
Proof.
  revert c. induction es as [|e es IH]; intros c; cbn; [rewrite !app_nil_r; by destruct c|].
  rewrite IH. destruct e; cbn; by rewrite <- ?app_assoc.
Qed.

(** A section becomes its chunk. *)
Lemma feed_section p hs path dest cs s :
  updating p hs path dest cs -> last_chunk_empty cs = false -> section_written s ->
  exists q, feed_lines p (section_lines s) = (q, Ok tt) /\ updating q hs path dest (cs ++ [chunk_of s]) /\
    last_chunk_empty (cs ++ [chunk_of s]) = false.
Proof.
  intros Hp Hlast (Hctx & Hne & _). unfold section_lines. cbn [feed_lines].
  set (head_line := match sec_context s with None => _ | Some _ => _ end).
  assert (Hhead : forall n, process_change_line n head_line cs = Ok (cs ++ [empty_chunk (sec_context s)])).
  { intros n. unfold process_change_line. rewrite Hlast, andb_false_r. subst head_line. destruct (sec_context s) as [ctx|].
    - destruct (last_app_name (lit "@@ ") ctx Hctx) as (d & Hd & Hw).
      destruct (visible_trims 64%N (lit "@ " ++ ctx) d eq_refl Hd Hw) as [_ Ht].
      change (lit "@@ " ++ ctx) with (64%N :: (lit "@ " ++ ctx)). rewrite Ht.
      change (64%N :: (lit "@ " ++ ctx)) with (CHANGE_CONTEXT_MARKER ++ ctx).
      rewrite (bool_decide_false (_ = EMPTY_CHANGE_CONTEXT_MARKER)) by done. by rewrite strip_prefix_app.
    - reflexivity. }
  assert (exists l, head_line = 64%N :: l) as [l Hl].
  { subst head_line. destruct (sec_context s); by eexists. }
  destruct (updating_line p hs path dest cs head_line dest (cs ++ [empty_chunk (sec_context s)]) Hp) as (q & -> & Hq).
  { intros q. rewrite Hl. by apply other_line_no_header. }
  { intros n. apply continue_update; [left|apply Hhead]. rewrite Hl. destruct (trim_end_head 64%N l) as [->|[r ->]]; reflexivity. }
  rewrite feed_lines_app. destruct (feed_edits q hs path dest cs _ (sec_edits s) Hq) as (q1 & -> & Hq1).
  rewrite edits_collected in Hq1. cbn in Hq1.
  assert (Hfull : forall eof, is_empty_chunk {| change_context := sec_context s; old_lines := omap removed (sec_edits s);
    new_lines := omap inserted (sec_edits s); is_end_of_file := eof |} = false).
  { intros eof. unfold is_empty_chunk. cbn. destruct (sec_edits s) as [|[x|x|x] es]; [done|..]; cbn; by rewrite ?andb_false_r. }
  assert (Hdone : last_chunk_empty (cs ++ [chunk_of s]) = false) by (unfold last_chunk_empty; rewrite last_snoc; apply Hfull).
  unfold chunk_of in *. destruct (sec_end_of_file s); cbn [feed_lines]; [|by exists q1].
  destruct (updating_line q1 hs path dest _ (lit "*** End of File") dest
    (cs ++ [{| change_context := sec_context s; old_lines := omap removed (sec_edits s);
               new_lines := omap inserted (sec_edits s); is_end_of_file := true |}]) Hq1) as (q2 & -> & Hq2).
  { intros q2. reflexivity. }
  { intros n. apply continue_update; [right; by destruct cs|]. unfold process_change_line.
    change (trim_end (lit "*** End of File")) with EOF_MARKER.
    rewrite (bool_decide_false (EOF_MARKER = EMPTY_CHANGE_CONTEXT_MARKER)) by done.
    change (starts_with CHANGE_CONTEXT_MARKER EOF_MARKER) with false. cbn [orb andb].
    change (strip_prefix CHANGE_CONTEXT_MARKER EOF_MARKER) with (@None str). rewrite bool_decide_true by done.
    unfold last_chunk_empty. rewrite last_snoc, Hfull, map_last_snoc. reflexivity. }
  by exists q2.
Qed.

Lemma feed_sections p hs path dest cs ss :
  updating p hs path dest cs -> last_chunk_empty cs = false -> Forall section_written ss ->
  exists q, feed_lines p (flat_map section_lines ss) = (q, Ok tt) /\ updating q hs path dest (cs ++ map chunk_of ss) /\
    last_chunk_empty (cs ++ map chunk_of ss) = false.
Proof.
  intros Hp Hl Hss. revert p cs Hp Hl. induction Hss as [|s ss Hs _ IH]; intros p cs Hp Hl; cbn [flat_map map].
  { exists p. by rewrite app_nil_r. }
  rewrite feed_lines_app. destruct (feed_section p hs path dest cs s Hp Hl Hs) as (q & -> & Hq & Hlq).
  destruct (IH q _ Hq Hlq) as (q' & -> & Hq' & Hlq'). exists q'. by rewrite <- app_assoc in Hq', Hlq'.
Qed.

Lemma feed_destination p hs path d :
  updating p hs path None [] -> name_line d ->
  exists q, process_line (next_line p) (MOVE_TO_MARKER ++ d) = (q, Ok tt) /\ updating q hs path (Some d) [].
Proof.
  intros Hp Hd. destruct (last_app_name MOVE_TO_MARKER d Hd) as (x & Hx & Hw).
  destruct (visible_trims 42%N (lit "** Move to: " ++ d) x eq_refl Hx Hw) as [_ Ht].
  change (42%N :: (lit "** Move to: " ++ d)) with (MOVE_TO_MARKER ++ d) in Ht.
  apply (updating_line p hs path None []); [done|..].
  - intros q. rewrite Ht. unfold handle_hunk_headers_and_end_patch. rewrite bool_decide_false by done. reflexivity.
  - intros n. unfold process_update_line. by rewrite Ht, strip_prefix_app.
Qed.

(** What is written of a file becomes its hunk. *)
Lemma feed_file p hs f :
  settled p hs -> written f -> exists q, feed_lines p (file_lines f) = (q, Ok tt) /\ settled q (hs ++ [hunk_of f]).
Proof.
  intros Hs Hf. destruct f as [path ls|path|path dest ss]; cbn [file_lines feed_lines hunk_of].
  - change (lit "*** Add File: ") with ADD_FILE_MARKER. destruct Hf as [Hn _].
    destruct (header_add p hs path Hs Hn) as (q & -> & Hb & Hh & Hm).
    destruct (feed_added q hs path [] ls Hb Hh Hm) as (q' & -> & Hb' & Hh' & Hm'). exists q'. split; [done|].
    split; [done|]. split; [done|]. rewrite Hm'. split; [done|]. intros line.
    unfold ensure_update_hunk_is_not_empty. change (st_hunks (next_line q')) with (st_hunks q'). by rewrite Hh', last_snoc.
  - change (lit "*** Delete File: ") with DELETE_FILE_MARKER.
    destruct (header_delete p hs path Hs Hf) as (q & -> & Hb & Hh & Hm). exists q. split; [done|].
    split; [done|]. split; [done|]. rewrite Hm. split; [done|]. intros line.
    unfold ensure_update_hunk_is_not_empty. change (st_hunks (next_line q)) with (st_hunks q). by rewrite Hh, last_snoc.
  - change (lit "*** Update File: ") with UPDATE_FILE_MARKER. destruct Hf as (Hn & Hd & Hne & Hss).
    destruct (header_update p hs path Hs Hn) as (q & n & -> & Hb & Hh & Hm).
    assert (Hq : updating q hs path None []) by (split; [done|]; split; [done|]; by exists n).
    assert (exists q1, feed_lines q (map (fun d => lit "*** Move to: " ++ d) (option_list dest)) = (q1, Ok tt) /\
              updating q1 hs path dest []) as (q1 & Hf1 & Hq1).
    { destruct dest as [d|]; cbn [option_list map feed_lines]; [|by exists q].
      destruct (feed_destination q hs path d Hq Hd) as (q1 & Hp1 & Hq1). exists q1. split; [|done].
      change (match process_line (next_line q) (MOVE_TO_MARKER ++ d) with (p', Ok _) => (p', Ok tt) | (p', Err e) => (p', Err e) end = (q1, Ok tt)).
      by rewrite Hp1. }
    rewrite feed_lines_app, Hf1.
    destruct (feed_sections q1 hs path dest [] ss Hq1 eq_refl Hss) as (q2 & -> & (Hb2 & Hh2 & n2 & Hm2) & Hl2).
    exists q2. split; [done|]. split; [done|]. split; [done|]. rewrite Hm2. split; [done|]. intros line.
    unfold ensure_update_hunk_is_not_empty. change (st_hunks (next_line q2)) with (st_hunks q2).
    change (mode (next_line q2)) with (mode q2). rewrite Hh2, last_snoc, Hl2, Hm2. cbn [app].
    destruct ss as [|s ss]; [done|]. done.
Qed.

Lemma feed_files p hs fs :
  settled p hs -> Forall written fs ->
  exists q, feed_lines p (flat_map file_lines fs) = (q, Ok tt) /\ settled q (hs ++ map hunk_of fs).
Proof.
  intros Hp Hfs. revert p hs Hp. induction Hfs as [|f fs Hf _ IH]; intros p hs Hp; cbn [flat_map map].
  { exists p. by rewrite app_nil_r. }
  rewrite feed_lines_app. destruct (feed_file p hs f Hp Hf) as (q & -> & Hq).
  destruct (IH q _ Hq) as (q' & -> & Hq'). exists q'. by rewrite <- app_assoc in Hq'.
Qed.

(** Every line of a written patch is one line. *)
Lemma prefixed_line m l : NL ∉ m -> last m <> Some CR -> on_one_line l -> on_one_line (m ++ l).
Proof.
  intros Hm Hc [Hl Hcr]. split; [by apply not_elem_of_app|]. destruct l as [|c l _] using rev_ind; [by rewrite app_nil_r|].
  rewrite app_assoc. by rewrite last_snoc in *.
Qed.

Lemma name_on_one_line m l : NL ∉ m -> name_line l -> on_one_line (m ++ l).
Proof.
  intros Hm Hl. split; [apply not_elem_of_app; split; [done|apply Hl]|].
  destruct (last_app_name m l Hl) as (d & -> & Hd). intros [= ->]. by vm_compute in Hd.
Qed.

Lemma section_one_line s : section_written s -> Forall on_one_line (section_lines s).
Proof.
  intros (Hc & _ & He). unfold section_lines. constructor.
  - destruct (sec_context s); [apply name_on_one_line; [|done]|split; [|done]]; by apply (bool_decide_unpack _).
  - apply Forall_app. split.
    + apply Forall_map. eapply Forall_impl; [exact He|]. intros [l|l|l] Hl; cbn [edit_line];
        [apply (prefixed_line [SP])|apply (prefixed_line [MINUS])|apply (prefixed_line [PLUS])]; try done;
        by apply (bool_decide_unpack _).
    + destruct (sec_end_of_file s); constructor; [|constructor]. split; [|done]. by apply (bool_decide_unpack _).
Qed.

Lemma file_one_line f : written f -> Forall on_one_line (file_lines f).
Proof.
  destruct f as [path ls|path|path dest ss]; cbn [written file_lines].
  - intros [Hn Hls]. constructor; [apply name_on_one_line; [by apply (bool_decide_unpack _)|done]|].
    apply Forall_map. eapply Forall_impl; [exact Hls|]. intros l Hl. apply (prefixed_line [PLUS]); try done.
    by apply (bool_decide_unpack _).
  - intros Hn. constructor; [|constructor]. apply name_on_one_line; [by apply (bool_decide_unpack _)|done].
  - intros (Hn & Hd & _ & Hss). constructor; [apply name_on_one_line; [by apply (bool_decide_unpack _)|done]|].
    apply Forall_app. split.
    + destruct dest as [d|]; cbn; constructor; [|constructor]. apply name_on_one_line; [by apply (bool_decide_unpack _)|done].
    + apply Forall_flat_map. eapply Forall_impl; [exact Hss|]. apply section_one_line.
Qed.

(** The whole text of a written patch. *)
Lemma patch_pushed fs :
  Forall written fs ->
  exists p, push_chars default_parser (patch_text fs) = (p, Ok tt) /\ st_hunks p = map hunk_of fs /\
    snd (finish p) = Ok (map hunk_of fs).
Proof.
  intros Hfs. unfold patch_text. rewrite push_unlines; [|done|].
  2:{ constructor; [split; [by apply (bool_decide_unpack _)|done]|].
      apply Forall_flat_map. eapply Forall_impl; [exact Hfs|]. apply file_one_line. }
  cbn [feed_lines]. set (p1 := set_mode (next_line default_parser) StartedPatch).
  change (process_line (next_line default_parser) (lit "*** Begin Patch")) with (p1, Ok tt : result ParseError unit).
  cbv iota. assert (Hp1 : settled p1 []) by (by repeat split).
  destruct (feed_files p1 [] fs Hp1 Hfs) as (q & -> & Hb & Hh & Hm & He). cbn [app] in Hh.
  rewrite <- (app_nil_r (lit "*** End Patch")), push_chars_plain by (by apply (bool_decide_unpack _)). cbn [push_chars].
  set (p := set_buffer q (line_buffer q ++ lit "*** End Patch")). exists p. split; [done|]. split; [done|].
  assert (He' : ensure_update_hunk_is_not_empty (next_line p) END_PATCH_MARKER = Ok tt) by apply He.
  assert (Hfl : flush_last_line p = (set_mode (next_line p) EndedPatch, Ok tt)).
  { assert (Hpb : line_buffer p = END_PATCH_MARKER) by (subst p; cbn; by rewrite Hb).
    transitivity (match ensure_update_hunk_is_not_empty (next_line p) END_PATCH_MARKER with
                  | Err e => (next_line p, Err e)
                  | Ok _ => (set_mode (next_line p) EndedPatch, Ok tt)
                  end); [unfold flush_last_line; rewrite Hpb; reflexivity|by rewrite He']. }
  unfold finish. rewrite Hfl. cbn. by rewrite Hh.
Qed.

(** ** The preview of a patch *)

(** [codex-rs/core/src/tools/handlers/apply_patch.rs:73-77 ApplyPatchArgumentDiffConsumer] with times in milliseconds; an
    event is given by its hunks. *)
Record DiffConsumer := mkConsumer { parser : StreamingPatchParser; last_sent_at : option N; pending : option (list Hunk) }.

Definition new_consumer : DiffConsumer := mkConsumer default_parser None None.

(** [codex-rs/core/src/tools/handlers/apply_patch.rs:58-58 APPLY_PATCH_ARGUMENT_DIFF_BUFFER_INTERVAL] *)
Definition APPLY_PATCH_ARGUMENT_DIFF_BUFFER_INTERVAL : N := 500.

(** [codex-rs/core/src/tools/handlers/apply_patch.rs:101-122 ApplyPatchArgumentDiffConsumer::push_delta] at a time.  An
    error is dropped, and the parser stays what it has become. *)
Definition consumer_push (self : DiffConsumer) (now : N) (delta : str) : DiffConsumer * option (list Hunk) :=
  match push_delta (parser self) delta with
  | (p, Err _) => (mkConsumer p (last_sent_at self) (pending self), None)
  | (p, Ok []) => (mkConsumer p (last_sent_at self) (pending self), None)
  | (p, Ok event) =>
      match last_sent_at self with
      | Some sent =>
          if (now - sent <? APPLY_PATCH_ARGUMENT_DIFF_BUFFER_INTERVAL)%N
          then (mkConsumer p (last_sent_at self) (Some event), None)
          else (mkConsumer p (Some now) None, Some event)
      | None => (mkConsumer p (Some now) None, Some event)
      end
  end.

(** [codex-rs/core/src/tools/handlers/apply_patch.rs:124-136 ApplyPatchArgumentDiffConsumer::finish_update_on_complete] *)
Definition consumer_finish (self : DiffConsumer) (now : N) : DiffConsumer * result ParseError (option (list Hunk)) :=
  match finish (parser self) with
  | (p, Err e) => (mkConsumer p (last_sent_at self) (pending self), Err e)
  | (p, Ok _) =>
      (mkConsumer p (match pending self with Some _ => Some now | None => last_sent_at self end) None, Ok (pending self))
  end.

(** The deltas of a call, each with its time, and the events they make. *)
Fixpoint consume_all (self : DiffConsumer) (deltas : list (N * str)) : DiffConsumer * list (list Hunk) :=
  match deltas with
  | [] => (self, [])
  | (now, delta) :: deltas =>
      let '(self, event) := consumer_push self now delta in
      let '(self, events) := consume_all self deltas in
      (self, option_list event ++ events)
  end.

(** The event for some hunks. *)
Definition event_of (hs : list Hunk) : option (list Hunk) := match hs with [] => None | _ => Some hs end.

(** The deltas of a text that the parser takes, from a consumer whose latest event, sent or waiting, is that of its
    hunks. *)
Lemma consume_spec deltas c before p :
  reachable (parser c) -> push_chars (parser c) (concat (map snd deltas)) = (p, Ok tt) ->
  last (before ++ option_list (pending c)) = event_of (st_hunks (parser c)) ->
  exists c' events, consume_all c deltas = (c', events) /\ parser c' = p /\
    Forall (fun event => event <> [] /\ extends event (st_hunks p)) events /\
    last ((before ++ events) ++ option_list (pending c')) = event_of (st_hunks p).
Proof.
  revert c before. induction deltas as [|[now d] deltas IH]; intros c before Hre Hp Hlast.
  { injection Hp as <-. exists c, []. rewrite app_nil_r. by repeat split. }
  cbn [map concat snd] in Hp. rewrite push_chars_app in Hp.
  destruct (push_chars (parser c) d) as [p1 [[]|e]] eqn:E1; [|done].
  assert (Hpd : push_delta (parser c) d = (p1, Ok (st_hunks p1))) by (unfold push_delta; by rewrite E1).
  assert (Hre1 : reachable p1) by (replace p1 with (fst (push_delta (parser c) d)) by (by rewrite Hpd); by constructor).
  assert (Hgrow : length (st_hunks (parser c)) <= length (st_hunks p1)).
  { pose proof (push_delta_inv (parser c) d (reachable_inv _ Hre)) as [_ [_ Hl]]. by rewrite Hpd in Hl. }
  assert (Hext : extends (st_hunks p1) (st_hunks p)).
  { pose proof (push_delta_inv p1 (concat (map snd deltas)) (reachable_inv _ Hre1)) as [_ Hx].
    unfold push_delta in Hx. by rewrite Hp in Hx. }
  assert (Hnext : forall sent pend ev, Forall (fun event => event <> [] /\ extends event (st_hunks p)) (option_list ev) ->
    last ((before ++ option_list ev) ++ option_list pend) = event_of (st_hunks p1) ->
    exists c' events, (let '(self, events) := consume_all (mkConsumer p1 sent pend) deltas in (self, option_list ev ++ events)) = (c', events) /\
      parser c' = p /\ Forall (fun event => event <> [] /\ extends event (st_hunks p)) events /\
      last ((before ++ events) ++ option_list (pending c')) = event_of (st_hunks p)).
  { intros sent pend ev Hev Hl. destruct (IH (mkConsumer p1 sent pend) (before ++ option_list ev) Hre1 Hp Hl) as (c' & es & -> & Hc & Hall & Hl').
    exists c', (option_list ev ++ es). split; [done|]. split; [done|]. split; [by apply Forall_app|]. by rewrite app_assoc. }
  cbn [consume_all]. unfold consumer_push. rewrite Hpd. destruct (st_hunks p1) as [|h hs] eqn:Eh.
  - apply (Hnext _ _ None); [constructor|]. cbn. rewrite app_nil_r. destruct (st_hunks (parser c)); [done|cbn in Hgrow; lia].
  - assert (Hone : Forall (fun event => event <> [] /\ extends event (st_hunks p)) [h :: hs]) by (apply Forall_singleton; split; [done|exact Hext]).
    destruct (last_sent_at c) as [sent|]; [destruct (_ <? _)%N|].
    + apply (Hnext _ (Some (h :: hs)) None); [constructor|]. cbn. by rewrite last_snoc.
    + apply (Hnext _ None (Some (h :: hs))); [done|]. cbn. by rewrite app_nil_r, last_snoc.
    + apply (Hnext _ None (Some (h :: hs))); [done|]. cbn. by rewrite app_nil_r, last_snoc.
Qed.

(** ** Theorems *)

(** C33: A patch that streams in is shown as it is.  Take any patch written out of added, deleted and updated files, whose
    texts are on one line, whose names and contexts do not end in white space, and whose updates have an edit in every
    section.  However its text is cut into deltas and whenever these come, the parser finishes
    with exactly the hunks of the patch, every preview that is sent shows some of them, the last one perhaps not yet
    complete, and the last preview, sent or held back until the end, shows all of them. *)
Theorem streamed_patch_shown fs deltas now :
  Forall written fs -> concat (map snd deltas) = patch_text fs ->
  exists c events c' final, consume_all new_consumer deltas = (c, events) /\
    snd (finish (parser c)) = Ok (map hunk_of fs) /\
    consumer_finish c now = (c', Ok final) /\
    Forall (fun event => event <> [] /\ extends event (map hunk_of fs)) events /\
    last (events ++ option_list final) = event_of (map hunk_of fs).
Proof.
  intros Hfs Htext. destruct (patch_pushed fs Hfs) as (p & Hp & Hh & Hfin). rewrite <- Htext in Hp.
  destruct (consume_spec deltas new_consumer [] p reach_default Hp eq_refl) as (c & events & Hc & Hpc & Hall & Hlast).
  rewrite Hh in Hall, Hlast. cbn [app] in Hlast.
  destruct (finish p) as [p' r] eqn:Hf. cbn [snd] in Hfin. subst r.
  eexists c, events, _, (pending c). split; [done|]. rewrite Hpc, Hf. split; [done|]. split; [|done].
  unfold consumer_finish. by rewrite Hpc, Hf.
Qed.

Lemma streamed_patch_shown_witness :
  let fs := [Adds (lit "n") [lit "x"];
             Updates (lit "a") (Some (lit "b")) [mkSection (Some (lit "fn f")) [Keep (lit "k"); Remove []; Insert (lit "y")] true]] in
  let text := patch_text fs in
  exists c events, consume_all new_consumer [(0%N, take 30 text); (100%N, take 40 (drop 30 text)); (900%N, drop 70 text)] = (c, events) /\
    snd (finish (parser c)) = Ok (map hunk_of fs).
Proof.
  intros fs text.
  destruct (streamed_patch_shown fs [(0%N, take 30 text); (100%N, take 40 (drop 30 text)); (900%N, drop 70 text)] 1000)
    as (c & events & c' & final & Hc & Hf & _).
  - assert (Hw : Forall written fs); [|exact Hw]. repeat first [apply Forall_cons_2|apply Forall_nil_2|split];
      try discriminate; try (apply (bool_decide_unpack _); vm_compute; exact I); try (eexists; split; reflexivity).
  - vm_compute. reflexivity.
  - exists c, events. by split.
Defined.

(** A line that is rejected is dropped, and the parser goes on with the next delta, so that what is shown depends on
    where the deltas are cut. *)
Example rejected_line_dropped :
  let bad := lit "oops" ++ [NL] in
  let good := lit "*** Begin Patch" ++ [NL] ++ lit "*** Delete File: a" ++ [NL] in
  (consume_all new_consumer [(0%N, bad); (1%N, good)]).2 = [[DeleteFile (lit "a")]] /\
  (consume_all new_consumer [(0%N, bad ++ good)]).2 = [].
Proof. split; vm_compute; reflexivity. Qed.


(** While a patch streams in, the preview only grows: in every reachable state a further delta
    keeps all the hunks before the last one unchanged and never loses a hunk, even when the delta is
    rejected. *)
Theorem push_delta_preview_monotone p (delta : str) :
  reachable p -> extends (st_hunks p) (st_hunks (fst (push_delta p delta))).
Proof. intros H%reachable_inv. by apply push_delta_inv. Qed.

Lemma push_delta_preview_monotone_witness :
  let p := fst (push_delta default_parser (lit "*** Begin Patch" ++ [NL] ++ lit "*** Delete File: a" ++ [NL])) in
  st_hunks p = [DeleteFile (lit "a")] /\
  extends (st_hunks p) (st_hunks (fst (push_delta p (lit "*** Delete File: b" ++ [NL])))).
Proof.
  split; [reflexivity|]. apply push_delta_preview_monotone. apply reach_push, reach_default.
Defined.

(** Every reachable parser satisfies the stream invariant, and when [finish] succeeds each update
    hunk it returns has at least one chunk and each chunk removes, adds or keeps at least one line:
    empty updates and empty chunks are always reported as errors. *)
Theorem streaming_hunks_wellformed p :
  reachable p ->
  stream_inv p /\ forall hs, snd (finish p) = Ok hs -> Forall wf_hunk hs.
Proof. intros H%reachable_inv. split; [done|]. by apply finish_inv. Qed.

Lemma streaming_hunks_wellformed_witness :
  let p := fst (push_delta default_parser
    (lit "*** Begin Patch" ++ [NL] ++ lit "*** Update File: a" ++ [NL] ++ lit "@@" ++ [NL] ++
     lit "+x" ++ [NL] ++ lit "*** End Patch")) in
  exists hs, snd (finish p) = Ok hs /\ hs <> [] /\ Forall wf_hunk hs.
Proof.
  intros p. eexists. split; [reflexivity|]. split; [discriminate|].
  apply (streaming_hunks_wellformed p); [apply reach_push, reach_default | reflexivity].
Defined.

End StreamingPatch.
