(* ===== verification/Replacements.v ===== *)
(** * Computing and applying line replacements: apply-patch/src/lib.rs

    The chunks of an update are located in the file and turned into replacements
    [(start, old_len, new_lines)], which are then applied in place from the last to the first.
    [splice] is the reference: copy the file, substituting each replaced block. *)

From S2P Require Import Prelude Text SeekSequence PatchParser FileSystem.

Module Replacements.
Import SeekSequence PatchParser.

(** ** Errors *)

(** [codex-rs/apply-patch/src/lib.rs:43-83 ApplyPatchError] with [IoError] inlined. *)
Inductive ApplyPatchError :=
| ParseError_ (e : ParseError)
| IoError (context : str) (source : io_error)
| ComputeReplacements (message : str)
| ImplicitInvocation.

(** ** The code *)

Definition replacement : Type := nat * nat * list str.
Definition start_of (r : replacement) : nat := r.1.1.

Definition is_empty_str (s : str) : bool := bool_decide (s = []).

(** [v.last().is_some_and(String::is_empty)]. *)
Definition last_is_empty (l : list str) : bool :=
  match last l with Some s => is_empty_str s | None => false end.

Definition missing_context_error (ctx_line path : str) : ApplyPatchError :=
  ComputeReplacements (lit "Failed to find context '" ++ ctx_line ++ lit "' in " ++ path).
Definition missing_lines_error (path : str) (old : list str) : ApplyPatchError :=
  ComputeReplacements (lit "Failed to find expected lines in " ++ path ++ lit ":" ++ [NL] ++
                       join [NL] old).

(** [codex-rs/apply-patch/src/lib.rs:700-717 compute_replacements] moving past the context line. *)
Definition seek_context (original_lines : list str) (path : str) (chunk : UpdateFileChunk)
    (line_index : nat) : result ApplyPatchError nat :=
  match change_context chunk with
  | Some ctx_line =>
      match seek_sequence original_lines [ctx_line] line_index false with
      | Some idx => Ok (idx + 1)
      | None => Err (missing_context_error ctx_line path)
      end
  | None => Ok line_index
  end.

(** [codex-rs/apply-patch/src/lib.rs:742-773 compute_replacements] locating the old lines, retrying
    without a trailing empty one: the replacement and the new line index. *)
Definition locate_old_lines (original_lines : list str) (path : str) (chunk : UpdateFileChunk)
    (line_index : nat) : result ApplyPatchError (replacement * nat) :=
  let eof := is_end_of_file chunk in
  let pattern := old_lines chunk in
  let found := seek_sequence original_lines pattern line_index eof in
  let new_slice := new_lines chunk in
  let '(pattern, new_slice, found) :=
    match found with
    | None =>
        if last_is_empty pattern then
          let pattern' := take (length pattern - 1) pattern in
          let new_slice' :=
            if last_is_empty new_slice then take (length new_slice - 1) new_slice else new_slice in
          (pattern', new_slice', seek_sequence original_lines pattern' line_index eof)
        else (pattern, new_slice, found)
    | Some _ => (pattern, new_slice, found)
    end in
  match found with
  | Some start_idx => Ok ((start_idx, length pattern, new_slice), start_idx + length pattern)
  | None => Err (missing_lines_error path (old_lines chunk))
  end.

(** [codex-rs/apply-patch/src/lib.rs:699-774 compute_replacements] one iteration of the loop over
    the chunks; the state is the replacements so far and the line index. *)
Definition compute_step (original_lines : list str) (path : str)
    (st : list replacement * nat) (chunk : UpdateFileChunk)
    : result ApplyPatchError (list replacement * nat) :=
  let '(replacements, line_index) := st in
  line_index ← seek_context original_lines path chunk line_index;
  match old_lines chunk with
  | [] =>
      let insertion_idx :=
        if last_is_empty original_lines then length original_lines - 1 else length original_lines in
      Ok (replacements ++ [(insertion_idx, 0, new_lines chunk)], line_index)
  | _ =>
      '(r, line_index) ← locate_old_lines original_lines path chunk line_index;
      Ok (replacements ++ [r], line_index)
  end.

(** [codex-rs/apply-patch/src/lib.rs:691-779 compute_replacements] *)
Definition compute_replacements (original_lines : list str) (path : str)
    (chunks : list UpdateFileChunk) : result ApplyPatchError (list replacement) :=
  '(replacements, _) ← try_fold (compute_step original_lines path) chunks ([], 0);
  Ok (sort_by_key start_of replacements).

(** [codex-rs/apply-patch/src/lib.rs:793-798 apply_replacements] removing the old lines. *)
Fixpoint remove_lines (old_len start_idx : nat) (lines : list str) : list str :=
  match old_len with
  | 0 => lines
  | S n => remove_lines n start_idx
             (if start_idx <? length lines then delete start_idx lines else lines)
  end.

(** [codex-rs/apply-patch/src/lib.rs:800-803 apply_replacements] inserting the new lines. *)
Fixpoint insert_lines {E} (idx : nat) (new_segment : list str) (lines : list str)
    : run E (list str) :=
  match new_segment with
  | [] => Done lines
  | l :: rest => lines' ← vec_insert lines idx l; insert_lines (S idx) rest lines'
  end.

(** [codex-rs/apply-patch/src/lib.rs:789-804 apply_replacements] one iteration. *)
Definition apply_one {E} (r : replacement) (lines : list str) : run E (list str) :=
  let '(start_idx, old_len, new_segment) := r in
  insert_lines start_idx new_segment (remove_lines old_len start_idx lines).

(** [codex-rs/apply-patch/src/lib.rs:783-807 apply_replacements] *)
Definition apply_replacements {E} (lines : list str) (replacements : list replacement)
    : run E (list str) :=
  foldl (fun m r => m ≫= apply_one r) (Done lines) (rev replacements).

(** [codex-rs/apply-patch/src/lib.rs:667-681 derive_new_contents_from_chunks] everything after the
    file has been read. *)
Definition new_contents_of (original_contents path : str) (chunks : list UpdateFileChunk)
    : run ApplyPatchError str :=
  let original_lines := split_char NL original_contents in
  let original_lines :=
    if last_is_empty original_lines
    then take (length original_lines - 1) original_lines else original_lines in
  replacements ← try_ (compute_replacements original_lines path chunks);
  new_lines ← apply_replacements original_lines replacements;
  let new_lines := if last_is_empty new_lines then new_lines else new_lines ++ [[]] in
  Done (join [NL] new_lines).

(** ** The reference *)

(** Copy [rest], the lines from position [pos] on, substituting each replaced block. *)
Fixpoint splice (pos : nat) (rest : list str) (rs : list replacement) : list str :=
  match rs with
  | [] => rest
  | (s, n, new) :: rs => take (s - pos) rest ++ new ++ splice (s + n) (drop (s - pos + n) rest) rs
  end.

(** The replaced blocks follow one another without overlap, from [pos] on, inside the file. *)
Fixpoint placed (pos len : nat) (rs : list replacement) : Prop :=
  match rs with
  | [] => True
  | (s, n, _) :: rs => pos <= s /\ s + n <= len /\ placed (s + n) len rs
  end.

(** [r] does what [chunk] asks: the block it replaces matches the old lines (possibly without their
    trailing empty line) and its new lines are the chunk's. *)
Definition realises (lines : list str) (chunk : UpdateFileChunk) (r : replacement) : Prop :=
  let '(s, n, new) := r in
  exists old, n = length old /\ occurs normalise lines old s /\
    ((old = old_lines chunk /\ new = new_lines chunk) \/
     (old_lines chunk = old ++ [[]] /\ (new_lines chunk = new \/ new_lines chunk = new ++ [[]]))).

(** Chunks whose place in the file is unambiguous: none is anchored at the end of the file, and a
    pure addition only goes to a file whose last line is not empty. *)
Definition plain_chunk (lines : list str) (c : UpdateFileChunk) : Prop :=
  is_end_of_file c = false /\ (old_lines c <> [] \/ last lines <> Some []).

(** ** Locating *)

Lemma last_is_empty_snoc l : last_is_empty l = true -> exists l', l = l' ++ [[]].
Proof.
  unfold last_is_empty, is_empty_str. destruct (last l) as [s|] eqn:Hl; [|done].
  rewrite bool_decide_eq_true. intros ->. by apply last_snoc_inv.
Qed.

Lemma take_pred_snoc {A} (l : list A) x : take (length (l ++ [x]) - 1) (l ++ [x]) = l.
Proof. rewrite length_app. simpl. rewrite Nat.add_sub. apply take_app_length. Qed.

Lemma seek_sequence_occurs lines pattern start eof i :
  start <= length lines -> seek_sequence lines pattern start eof = Some i ->
  occurs normalise lines pattern i /\ (eof = false -> start <= i).
Proof.
  intros Hs H. destruct (decide (pattern = [])) as [->|Hne].
  { injection H as <-. split; [|lia]. split; [simpl; lia | done]. }
  destruct (seek_sequence_bounds _ _ _ _ _ Hne H) as [Hb Hge].
  split; [|done]. pose proof (seek_sequence_passes lines pattern start eof Hne ltac:(lia)) as P.
  rewrite H in P. destruct P as (n & key & Hn & (_ & Hocc & _) & _).
  by eapply occurs_normalise.
Qed.

Lemma seek_context_spec lines path c li li' :
  li <= length lines -> seek_context lines path c li = Ok li' -> li <= li' <= length lines.
Proof.
  unfold seek_context. intros Hli. destruct (change_context c) as [ctx|]; [|intros [= <-]; lia].
  destruct (seek_sequence lines [ctx] li false) as [i|] eqn:Hs; [|done]. intros [= <-].
  apply seek_sequence_bounds in Hs as [Hb Hge]; [|done]. specialize (Hge eq_refl). simpl in *. lia.
Qed.

Lemma locate_old_lines_spec lines path c li s n new li' :
  li <= length lines -> locate_old_lines lines path c li = Ok ((s, n, new), li') ->
  realises lines c (s, n, new) /\ li' = s + n /\ (is_end_of_file c = false -> li <= s).
Proof.
  unfold locate_old_lines. intros Hli.
  destruct (seek_sequence lines (old_lines c) li _) as [i|] eqn:Hs.
  - intros [= <- <- <- <-]. apply seek_sequence_occurs in Hs as [Hocc Hge]; [|done].
    split; [|done]. exists (old_lines c). naive_solver.
  - destruct (last_is_empty (old_lines c)) eqn:Hl; [|done].
    apply last_is_empty_snoc in Hl as [old Hold]. rewrite Hold, take_pred_snoc.
    destruct (seek_sequence lines old li _) as [i|] eqn:Hs'; [|done].
    intros [= <- <- <- <-]. apply seek_sequence_occurs in Hs' as [Hocc Hge]; [|done].
    split; [|done]. exists old. split; [done|]. split; [done|]. right. split; [done|].
    destruct (last_is_empty (new_lines c)) eqn:Hn; [|by left].
    apply last_is_empty_snoc in Hn as [new' Hnew]. rewrite Hnew, take_pred_snoc. by right.
Qed.

(** Replacements in chunk order: each one either lies after the previous block or is an addition at
    the end of the file. *)
Inductive chained (len : nat) : nat -> list replacement -> Prop :=
| chained_nil li : chained len li []
| chained_block li s n new rs :
    li <= s -> s + n <= len -> chained len (s + n) rs -> chained len li ((s, n, new) :: rs)
| chained_addition li new rs : chained len li rs -> chained len li ((len, 0, new) :: rs).

Lemma chained_weaken len li li' rs : li' <= li -> chained len li rs -> chained len li' rs.
Proof.
  intros Hle H; induction H.
  - constructor.
  - apply chained_block; [lia | done | done].
  - apply chained_addition; auto.
Qed.

Lemma occurs_end key lines pattern i : occurs key lines pattern i -> i + length pattern <= length lines.
Proof. by intros [H _]. Qed.

Lemma compute_step_spec lines path c rs li rs' li' :
  li <= length lines -> compute_step lines path (rs, li) c = Ok (rs', li') ->
  exists r, rs' = rs ++ [r] /\ realises lines c r /\ start_of r <= length lines /\ li' <= length lines /\
    (plain_chunk lines c -> forall rest,
       chained (length lines) li' rest -> chained (length lines) li (r :: rest)).
Proof.
  intros Hli H. unfold compute_step in H. apply result_bind_ok in H as (li1 & Hctx & H).
  apply seek_context_spec in Hctx as Hli1; [|done].
  destruct (old_lines c) as [|o os] eqn:Hold.
  - injection H as <- <-. eexists. split; [done|].
    set (idx := if last_is_empty lines then _ else _).
    assert (Hidx : idx <= length lines) by (subst idx; case_match; lia).
    split. { exists []. split; [done|]. split; [split; [simpl; lia | done] | by left]. }
    split; [done|]. split; [lia|]. intros [_ [Hp|Hp]] rest Hrest; [done|].
    assert (idx = length lines) as ->.
    { subst idx. destruct (last_is_empty lines) eqn:Hl; [|done].
      apply last_is_empty_snoc in Hl as [l ->]. by rewrite last_snoc in Hp. }
    apply chained_addition. eapply chained_weaken; [|done]. lia.
  - apply result_bind_ok in H as ([[[s n] new] li2] & Hloc & [= <- <-]).
    apply locate_old_lines_spec in Hloc as (Hr & -> & Hge); [|lia].
    assert (s + n <= length lines).
    { destruct Hr as (old & -> & Hocc & _). by eapply occurs_end. }
    eexists. split; [done|]. split; [done|]. split; [unfold start_of; simpl; lia|]. split; [done|].
    intros [Heof _] rest Hrest. specialize (Hge Heof). constructor; [lia | done | done].
Qed.

Lemma compute_fold_spec lines path chunks rs li rs' li' :
  li <= length lines -> try_fold (compute_step lines path) chunks (rs, li) = Ok (rs', li') ->
  exists new, rs' = rs ++ new /\ Forall2 (realises lines) chunks new /\
    Forall (fun r => start_of r <= length lines) new /\
    (Forall (plain_chunk lines) chunks -> chained (length lines) li new).
Proof.
  revert rs li; induction chunks as [|c cs IH]; intros rs li Hli H.
  - injection H as <- <-. exists []. rewrite app_nil_r. repeat split; constructor.
  - apply result_bind_ok in H as ([rs1 li1] & Hc & H).
    apply compute_step_spec in Hc as (r & -> & Hr & Hs & Hli1 & Hch); [|done].
    apply IH in H as (new & -> & Hall & Hst & Hnew); [|done].
    exists (r :: new). rewrite <- app_assoc. split; [done|].
    split; [by constructor|]. split; [by constructor|].
    intros [Hp Hps]%Forall_cons. by apply Hch, Hnew.
Qed.

(** ** Sorting *)

Lemma placed_starts pos len rs : placed pos len rs -> Forall (fun r => pos <= start_of r) rs.
Proof.
  revert pos; induction rs as [|[[s n] new] rs IH]; intros pos; simpl; [constructor|].
  intros (Hs & _ & Hrs). constructor; [done|]. eapply Forall_impl; [by apply IH|].
  simpl. lia.
Qed.

Lemma placed_insert_addition pos len new rs :
  pos <= len -> placed pos len rs -> placed pos len (insert_by_key start_of (len, 0, new) rs).
Proof.
  revert pos; induction rs as [|[[s n] new'] rs IH]; intros pos Hpos; simpl.
  - split; [done|]. split; [lia | done].
  - intros (Hs & Hn & Hrs). unfold start_of at 1 2. simpl.
    destruct (Nat.leb_spec len s).
    + simpl. split; [done|]. split; [lia|]. split; [lia|]. by split.
    + simpl. split; [done|]. split; [done|]. by apply IH.
Qed.

Lemma chained_sort_placed len li rs :
  li <= len -> chained len li rs -> placed li len (sort_by_key start_of rs).
Proof.
  intros Hli H; induction H as [li|li s n new rs Hs Hn H IH|li new rs H IH]; simpl; [done| |].
  - specialize (IH Hn). rewrite insert_by_key_le; [by simpl|].
    eapply Forall_impl; [by eapply placed_starts|]. unfold start_of at 2. simpl. lia.
  - by apply placed_insert_addition; [|apply IH].
Qed.

(** ** Applying in place *)

Lemma apply_replacements_cons {E} lines r rs :
  @apply_replacements E lines (r :: rs) = (apply_replacements lines rs ≫= apply_one r).
Proof. unfold apply_replacements. simpl. by rewrite foldl_app. Qed.

Lemma remove_lines_middle (A B C : list str) :
  remove_lines (length B) (length A) (A ++ B ++ C) = A ++ C.
Proof.
  revert A; induction B as [|b B IH]; intros A; simpl; [done|].
  rewrite (proj2 (Nat.ltb_lt _ _)) by (rewrite length_app; simpl; lia).
  rewrite delete_middle. apply IH.
Qed.

Lemma insert_lines_middle {E} new (A C : list str) :
  @insert_lines E (length A) new (A ++ C) = Done (A ++ new ++ C).
Proof.
  revert A; induction new as [|l new IH]; intros A; simpl; [done|].
  unfold vec_insert. rewrite (proj2 (Nat.leb_le _ _)) by (rewrite length_app; lia). simpl.
  rewrite take_app_length, drop_app_length.
  specialize (IH (A ++ [l])). rewrite length_app in IH. simpl in IH.
  rewrite Nat.add_1_r, <- !app_assoc in IH. apply IH.
Qed.

Lemma apply_replacements_from {E} lines pos rs :
  placed pos (length lines) rs ->
  @apply_replacements E lines rs = Done (take pos lines ++ splice pos (drop pos lines) rs).
Proof.
  revert pos; induction rs as [|[[s n] new] rs IH]; intros pos; simpl.
  - intros _. by rewrite take_drop.
  - intros (Hs & Hn & Hrs). rewrite apply_replacements_cons, (IH _ Hrs). simpl.
    replace (take (s + n) lines) with (take s lines ++ take n (drop s lines))
      by (by rewrite <- take_take_drop).
    pose proof (remove_lines_middle (take s lines) (take n (drop s lines))
                  (splice (s + n) (drop (s + n) lines) rs)) as Hrem.
    pose proof (@insert_lines_middle E new (take s lines) (splice (s + n) (drop (s + n) lines) rs)) as Hins.
    rewrite !length_take, length_drop, (Nat.min_l n), (Nat.min_l s) in Hrem by lia.
    rewrite length_take, (Nat.min_l s) in Hins by lia.
    rewrite <- app_assoc, Hrem, Hins. f_equal.
    replace (take s lines) with (take pos lines ++ take (s - pos) (drop pos lines))
      by (rewrite take_take_drop; f_equal; lia).
    rewrite <- app_assoc, drop_drop. do 3 f_equal. f_equal. f_equal. lia.
Qed.

(** The reference and the in-place loop agree on well-placed replacements. *)
Lemma apply_replacements_splice {E} lines rs :
  placed 0 (length lines) rs -> @apply_replacements E lines rs = Done (splice 0 lines rs).
Proof. intros H. rewrite (apply_replacements_from lines 0 rs H). simpl. by rewrite drop_0. Qed.

(** Whatever the chunks, the in-place loop stays in range: the replacements are sorted, so the ones
    already applied leave the lines before the current one alone. *)
Lemma remove_lines_length n s lines : s <= length lines -> s <= length (remove_lines n s lines).
Proof.
  revert lines; induction n as [|n IH]; intros lines Hs; simpl; [done|]. apply IH.
  destruct (Nat.ltb_spec s (length lines)); [|done].
  destruct (lookup_lt_is_Some_2 lines s ltac:(lia)) as [x Hx].
  rewrite length_delete by eauto. lia.
Qed.

Lemma insert_lines_length {E} new s lines :
  s <= length lines -> exists out, @insert_lines E s new lines = Done out /\ s <= length out.
Proof.
  intros Hs. exists (take s lines ++ new ++ drop s lines).
  pose proof (@insert_lines_middle E new (take s lines) (drop s lines)) as H.
  rewrite take_drop, length_take, Nat.min_l in H by lia. split; [done|].
  rewrite !length_app, length_take, length_drop. lia.
Qed.

Lemma apply_replacements_done {E} lines rs :
  StronglySorted (fun a b => start_of a <= start_of b) rs ->
  Forall (fun r => start_of r <= length lines) rs ->
  exists out, @apply_replacements E lines rs = Done out /\
    forall b, b <= length lines -> Forall (fun r => b <= start_of r) rs -> b <= length out.
Proof.
  induction 1 as [|[[s n] new] rs Hs IH Hle]; intros Hb.
  - exists lines. split; [done|]. naive_solver.
  - apply Forall_cons in Hb as [Hb Hbs]. destruct (IH Hbs) as (out & Hout & Hlen).
    specialize (Hlen s Hb Hle).
    destruct (@insert_lines_length E new s (remove_lines n s out)) as (out' & Hout' & Hlen').
    { by apply remove_lines_length. }
    exists out'. rewrite apply_replacements_cons, Hout. split; [done|].
    intros b _ [Hbs' _]%Forall_cons. unfold start_of in Hbs'. simpl in *. lia.
Qed.

Lemma compute_replacements_spec lines path chunks rs :
  compute_replacements lines path chunks = Ok rs ->
  exists rs0, rs = sort_by_key start_of rs0 /\ Forall2 (realises lines) chunks rs0 /\
    Forall (fun r => start_of r <= length lines) rs0 /\
    (Forall (plain_chunk lines) chunks -> chained (length lines) 0 rs0).
Proof.
  intros H. apply result_bind_ok in H as ([rs0 li] & Hf & [= <-]).
  apply compute_fold_spec in Hf as (new & -> & H); [|lia]. eauto.
Qed.

Lemma apply_computed_done {E} lines path chunks rs :
  compute_replacements lines path chunks = Ok rs ->
  exists out, @apply_replacements E lines rs = Done out.
Proof.
  intros (rs0 & -> & _ & Hst & _)%compute_replacements_spec.
  destruct (@apply_replacements_done E lines (sort_by_key start_of rs0)) as (out & Hout & _).
  - apply sort_by_key_sorted.
  - by rewrite sort_by_key_perm.
  - eauto.
Qed.

Lemma new_contents_of_safe contents path chunks : safe (new_contents_of contents path chunks).
Proof.
  unfold new_contents_of. apply safe_bind; [apply safe_try|]. intros rs Hrs%try_done.
  destruct (@apply_computed_done ApplyPatchError _ _ _ _ Hrs) as [out ->]. done.
Qed.

(** A file of complete lines. *)
Definition unlines (ls : list str) : str := concat (map (fun l => l ++ [NL]) ls).

Lemma join_unlines ls : join [NL] (ls ++ [[]]) = unlines ls.
Proof.
  induction ls as [|l ls IH]; [done|]. rewrite <- app_comm_cons, join_cons by (by destruct ls).
  rewrite IH. unfold unlines. simpl. by rewrite <- app_assoc.
Qed.

Lemma split_unlines ls : Forall (fun l => NL ∉ l) ls -> split_char NL (unlines ls) = ls ++ [[]].
Proof.
  intros H. rewrite <- join_unlines. apply split_join_char; [by destruct ls|].
  apply Forall_snoc. split; [done | by apply not_elem_of_nil].
Qed.

Lemma last_is_empty_false l : last l <> Some [] -> last_is_empty l = false.
Proof.
  unfold last_is_empty, is_empty_str. destruct (last l); [|done].
  intros H. apply bool_decide_eq_false. congruence.
Qed.

(** ** Theorems *)

(** C34: For chunks that are not anchored at the end of the file (and, if the file ends in a blank
    line, are not pure additions), the computed replacements are one per chunk, each replacing a
    block that matches the chunk's old lines by the chunk's new lines; they are in file order and do
    not overlap; and applying them in place from last to first gives exactly the file with those
    blocks substituted. *)
Theorem apply_chunks_correct {E} lines path chunks rs :
  Forall (plain_chunk lines) chunks ->
  compute_replacements lines path chunks = Ok rs ->
  placed 0 (length lines) rs /\
  (exists rs0, rs0 ≡ₚ rs /\ Forall2 (realises lines) chunks rs0) /\
  @apply_replacements E lines rs = Done (splice 0 lines rs).
Proof.
  intros Hplain (rs0 & -> & Hreal & _ & Hch)%compute_replacements_spec.
  assert (Hp : placed 0 (length lines) (sort_by_key start_of rs0)).
  { apply chained_sort_placed; [lia | auto]. }
  split; [done|]. split; [|by apply apply_replacements_splice].
  exists rs0. split; [by rewrite sort_by_key_perm | done].
Qed.

Definition demo_chunk (old new : list str) (eof : bool) : UpdateFileChunk :=
  {| change_context := None; old_lines := old; new_lines := new; is_end_of_file := eof |}.

Lemma apply_chunks_correct_witness :
  let lines := [lit "a"; lit "b"; lit "c"] in
  let chunks := [demo_chunk [lit "b"] [lit "x"; lit "y"] false; demo_chunk [] [lit "z"] false] in
  exists rs, compute_replacements lines (lit "f") chunks = Ok rs /\
    @apply_replacements ApplyPatchError lines rs = Done [lit "a"; lit "x"; lit "y"; lit "c"; lit "z"].
Proof.
  intros lines chunks. eexists. split; [reflexivity|].
  assert (Hplain : Forall (plain_chunk lines) chunks).
  { apply Forall_cons; split; [|apply Forall_cons; split; [|done]]; split; try done.
    - left; discriminate.
    - right; discriminate. }
  destruct (@apply_chunks_correct ApplyPatchError lines (lit "f") chunks _ Hplain eq_refl) as (_ & _ & ->).
  reflexivity.
Defined.

(** Deriving the new contents of a file never panics, whatever the file and the chunks: every
    removal and insertion of the in-place loop is in range, also when replaced blocks overlap. *)
Theorem new_contents_total contents path chunks :
  exists r, returns (new_contents_of contents path chunks) r.
Proof. apply safe_returns, new_contents_of_safe. Qed.

(** At the level of file contents: for a file of complete lines whose last line is not blank and
    plain chunks that are found, the new contents are the complete lines of the spliced file
    (provided the result does not end in a blank line). *)
Theorem new_contents_correct ls path chunks rs :
  Forall (fun l => NL ∉ l) ls -> last ls <> Some [] ->
  Forall (plain_chunk ls) chunks ->
  compute_replacements ls path chunks = Ok rs ->
  last (splice 0 ls rs) <> Some [] ->
  new_contents_of (unlines ls) path chunks = Done (unlines (splice 0 ls rs)).
Proof.
  intros Hnl Hlast Hplain Hrs Hout. unfold new_contents_of. rewrite split_unlines by done.
  replace (last_is_empty (ls ++ [[]])) with true by (unfold last_is_empty; by rewrite last_snoc).
  rewrite take_pred_snoc, Hrs. simpl.
  apply compute_replacements_spec in Hrs as (rs0 & -> & _ & _ & Hch).
  rewrite apply_replacements_splice by (apply chained_sort_placed; [lia | auto]). simpl.
  by rewrite last_is_empty_false, join_unlines.
Qed.

Lemma new_contents_correct_witness :
  new_contents_of (unlines [lit "a"; lit "b"]) (lit "f") [demo_chunk [lit "b"] [lit "c"] false] =
  Done (unlines [lit "a"; lit "c"]).
Proof.
  apply (new_contents_correct [lit "a"; lit "b"] (lit "f") [demo_chunk [lit "b"] [lit "c"] false]
           [(1, 1, [lit "c"])]).
  - repeat constructor; vm_compute; set_solver.
  - discriminate.
  - apply Forall_singleton. split; [done | left; discriminate].
  - reflexivity.
  - discriminate.
Defined.

(** Two ways in which an accepted update loses part of the patch: an addition to a file that ends
    in a blank line is swallowed by another chunk that replaces that blank line, and an end-of-file
    chunk may match lines that an earlier chunk has already replaced, in which case its own change
    disappears. *)
Theorem overlapping_chunks_lose_changes :
  (let chunks := [demo_chunk [] [lit "x"] false; demo_chunk [lit "a"; []] [lit "b"; []] false] in
   exists out, new_contents_of (unlines [lit "a"; []]) (lit "f") chunks = Done out /\
     contains_sub (lit "x") out = false) /\
  (let chunks := [demo_chunk [lit "a"; lit "b"] [lit "a"; lit "c"] false;
                  demo_chunk [lit "b"] [lit "d"] true] in
   exists out, new_contents_of (unlines [lit "a"; lit "b"]) (lit "f") chunks = Done out /\
     contains_sub (lit "d") out = false).
Proof. split; eexists; split; reflexivity. Qed.

(** Updating a file that ends in a blank line removes that line although no chunk touches it: the
    trailing empty line of the result is taken for the one that stands for the final newline. *)
Theorem trailing_blank_line_dropped :
  new_contents_of (unlines [lit "a"; []]) (lit "f") [demo_chunk [lit "a"] [lit "b"] false] =
  Done (unlines [lit "b"]).
Proof. reflexivity. Qed.

End Replacements.
