(* ===== verification/ApplyHunks.v ===== *)
(** * Applying hunks to the file system: apply-patch/src/lib.rs

    [apply_hunks_to_files] with the delta it keeps, and the entry points [apply_hunks] and
    [apply_patch].  The model threads the file system, the delta and the lists of affected paths; the
    file system is any instance of [ExecutorFileSystem], the two output streams are given by their
    [writeln], and [home_dir] is the home directory used to resolve paths. *)

From S2P Require Import Prelude Text AbsolutePath FileSystem PatchParser Replacements.

Module ApplyHunks.
Import AbsolutePath PatchParser Replacements.

(** ** Data *)

(** [codex-rs/apply-patch/src/lib.rs:230-245 AppliedPatchFileChange] *)
Inductive AppliedPatchFileChange :=
| Add (content : str) (overwritten_content : option str)
| Delete (content : str)
| Update (move_path : option str) (old_content : str) (overwritten_move_content : option str)
    (new_content : str).

(** [codex-rs/apply-patch/src/lib.rs:223-228 AppliedPatchChange] *)
Record AppliedPatchChange := { change_path : str; change : AppliedPatchFileChange }.

(** [codex-rs/apply-patch/src/lib.rs:182-187 AppliedPatchDelta] *)
Record AppliedPatchDelta := { changes : list AppliedPatchChange; exact : bool }.

(** [codex-rs/apply-patch/src/lib.rs:194-196 AppliedPatchDelta::empty] *)
Definition empty_delta : AppliedPatchDelta := {| changes := []; exact := true |}.

(** [codex-rs/apply-patch/src/lib.rs:211-214 AppliedPatchDelta::append] *)
Definition append (self other : AppliedPatchDelta) : AppliedPatchDelta :=
  {| changes := changes self ++ changes other; exact := exact self && exact other |}.

Definition set_exact (b : bool) (d : AppliedPatchDelta) : AppliedPatchDelta :=
  {| changes := changes d; exact := b |}.
Definition push_change (d : AppliedPatchDelta) (p : str) (c : AppliedPatchFileChange) : AppliedPatchDelta :=
  {| changes := changes d ++ [{| change_path := p; change := c |}]; exact := exact d |}.

(** [codex-rs/apply-patch/src/lib.rs:349-357 AffectedPaths] *)
Record AffectedPaths := { added : list str; modified : list str; deleted : list str }.

Definition push_added (a : AffectedPaths) (p : str) : AffectedPaths :=
  {| added := added a ++ [p]; modified := modified a; deleted := deleted a |}.
Definition push_modified (a : AffectedPaths) (p : str) : AffectedPaths :=
  {| added := added a; modified := modified a ++ [p]; deleted := deleted a |}.
Definition push_deleted (a : AffectedPaths) (p : str) : AffectedPaths :=
  {| added := added a; modified := modified a; deleted := deleted a ++ [p] |}.
Definition no_paths : AffectedPaths := {| added := []; modified := []; deleted := [] |}.

(** [anyhow::Error]: a cause and the context added last, if any. *)
Inductive cause := IoCause (e : io_error) | PatchCause (e : ApplyPatchError) | MessageCause (m : str).
Record anyhow_error := { error_context : option str; error_cause : cause }.

Definition plain_error (c : cause) : anyhow_error := {| error_context := None; error_cause := c |}.
Definition with_context {A} (context : str) (r : result io_error A) : result anyhow_error A :=
  map_err (fun e => {| error_context := Some context; error_cause := IoCause e |}) r.

(** [codex-rs/apply-patch/src/lib.rs:43-78 ApplyPatchError] its [Display]. *)
Definition show_patch_error (e : ApplyPatchError) : str :=
  match e with
  | ParseError_ (InvalidPatchError m) => lit "invalid patch: " ++ m
  | ParseError_ (InvalidHunkError m n) => lit "invalid hunk at line " ++ show_nat n ++ lit ", " ++ m
  | IoError context source => context ++ lit ": " ++ io_message source
  | ComputeReplacements m => m
  | ImplicitInvocation => lit "patch detected without explicit call to apply_patch. Rerun as [" ++
      [34%N] ++ lit "apply_patch" ++ [34%N] ++ lit ", " ++ [34%N] ++ lit "<patch>" ++ [34%N] ++ lit "]"
  end.

(** [error.to_string()]. *)
Definition show_error (e : anyhow_error) : str :=
  match error_context e with
  | Some c => c
  | None => match error_cause e with
            | IoCause e => io_message e
            | PatchCause e => show_patch_error e
            | MessageCause m => m
            end
  end.

(** [codex-rs/apply-patch/src/lib.rs:247-255 ApplyPatchFailure] *)
Record ApplyPatchFailure := { failure_error : ApplyPatchError; failure_delta : AppliedPatchDelta }.

(** [codex-rs/apply-patch/src/lib.rs:262-264 ApplyPatchFailure::without_delta] *)
Definition without_delta (e : ApplyPatchError) : ApplyPatchFailure :=
  {| failure_error := e; failure_delta := empty_delta |}.

(** [codex-rs/apply-patch/src/lib.rs:59-75 ApplyPatchError::from] *)
Definition from_io (e : io_error) : ApplyPatchError := IoError (lit "I/O error") e.

(** [codex-rs/apply-patch/src/lib.rs:647-650 AppliedPatch] *)
Record AppliedPatch := { original_contents : str; new_contents : str }.

(** [delta.changes[i] = c], which panics out of range. *)
Definition set_change (d : AppliedPatchDelta) (i : nat) (c : AppliedPatchChange)
    : option AppliedPatchDelta :=
  if i <? length (changes d) then Some {| changes := <[i := c]> (changes d); exact := exact d |} else None.

Section Code.
Context {S : Type} `{!ExecutorFileSystem S}.
Context (home_dir : option str).

(** ** Helpers *)

(** [codex-rs/apply-patch/src/parser.rs:84-90 Hunk::resolve_path] *)
Definition resolve_path (cwd : str) (h : Hunk) : str :=
  resolve_path_against_base home_dir
    match h with UpdateFile path _ _ => path | AddFile _ _ | DeleteFile _ => hunk_path h end cwd.

(** [codex-rs/apply-patch/src/lib.rs:552-565 ensure_not_directory] *)
Definition ensure_not_directory (s : S) (path : str) : result io_error unit :=
  metadata ← get_metadata s path;
  if is_directory metadata then Err {| kind := InvalidInput; io_message := lit "path is a directory" |}
  else Ok tt.

(** [codex-rs/apply-patch/src/lib.rs:567-580 remove_failure_was_side_effect_free] *)
Definition remove_failure_was_side_effect_free (s : S) (path : str) (expected_content : option str) : bool :=
  match expected_content with
  | Some expected => match read_file_text s path with Ok c => bool_decide (c = expected) | Err _ => false end
  | None => false
  end.

(** [codex-rs/apply-patch/src/lib.rs:599-611 note_existing_path_delta_support] the new value of
    [exact]. *)
Definition note_existing_path_delta_support (s : S) (path : str) (exact : bool) : bool :=
  match get_metadata s path with
  | Ok metadata => if is_file metadata && negb (is_symlink metadata) then exact else false
  | Err source => if bool_decide (kind source = NotFound) then exact else false
  end.

(** [codex-rs/apply-patch/src/lib.rs:582-597 read_optional_file_text_for_delta] *)
Definition read_optional_file_text_for_delta (s : S) (path : str) (exact : bool) : option str * bool :=
  let exact := note_existing_path_delta_support s path exact in
  match read_file_text s path with
  | Ok content => (Some content, exact)
  | Err source => if bool_decide (kind source = NotFound) then (None, exact) else (None, false)
  end.

(** [codex-rs/apply-patch/src/lib.rs:613-645 write_file_with_missing_parent_retry] *)
Definition write_file_with_missing_parent_retry (s : S) (path_abs contents : str)
    : S * result anyhow_error unit :=
  let failed := lit "Failed to write file " ++ path_abs in
  match write_file s path_abs contents with
  | (s, Ok _) => (s, Ok tt)
  | (s, Err err) =>
      if bool_decide (kind err = NotFound) then
        let '(s, created) :=
          match abs_parent path_abs with
          | Some parent_abs =>
              let '(s, r) := create_directory s parent_abs in
              (s, with_context (lit "Failed to create parent directories for " ++ path_abs) r)
          | None => (s, Ok tt)
          end in
        match created with
        | Err e => (s, Err e)
        | Ok _ => let '(s, r) := write_file s path_abs contents in (s, with_context failed r)
        end
      else (s, with_context failed (Err err))
  end.

(** [codex-rs/apply-patch/src/lib.rs:654-686 derive_new_contents_from_chunks] *)
Definition derive_new_contents_from_chunks (s : S) (path_abs : str) (chunks : list UpdateFileChunk)
    : run ApplyPatchError AppliedPatch :=
  original_contents ← try_ (map_err (IoError (lit "Failed to read file to update " ++ path_abs))
                                    (read_file_text s path_abs));
  new_contents ← new_contents_of original_contents path_abs chunks;
  Done {| original_contents := original_contents; new_contents := new_contents |}.

(** ** The hunks *)

(** The file system, the delta and, unless it failed, the affected paths. *)
Definition outcome : Type := S * AppliedPatchDelta * run anyhow_error AffectedPaths.

(** [codex-rs/apply-patch/src/lib.rs:394-415 apply_hunks_to_files] a new file. *)
Definition apply_add (s : S) (delta : AppliedPatchDelta) (acc : AffectedPaths)
    (affected_path path_abs contents : str) : outcome :=
  let '(overwritten_content, ex) := read_optional_file_text_for_delta s path_abs (exact delta) in
  let delta := set_exact ex delta in
  match write_file_with_missing_parent_retry s path_abs contents with
  | (s, Err e) => (s, set_exact false delta, Fail e)
  | (s, Ok _) => (s, push_change delta path_abs (Add contents overwritten_content),
                  Done (push_added acc affected_path))
  end.

(** [codex-rs/apply-patch/src/lib.rs:416-453 apply_hunks_to_files] a deleted file. *)
Definition apply_delete (s : S) (delta : AppliedPatchDelta) (acc : AffectedPaths)
    (affected_path path_abs : str) : outcome :=
  let failed := lit "Failed to delete file " ++ path_abs in
  let delta := set_exact (note_existing_path_delta_support s path_abs (exact delta)) delta in
  let deleted_content := ok (read_file_text s path_abs) in
  let delta := match deleted_content with None => set_exact false delta | Some _ => delta end in
  match with_context failed (ensure_not_directory s path_abs) with
  | Err e => (s, delta, Fail e)
  | Ok _ =>
      let '(s, removed) := remove s path_abs in
      match with_context failed removed with
      | Err e =>
          (s, set_exact (exact delta && remove_failure_was_side_effect_free s path_abs deleted_content) delta,
           Fail e)
      | Ok _ =>
          (s, match deleted_content with
              | Some content => push_change delta path_abs (Delete content)
              | None => delta
              end, Done (push_deleted acc affected_path))
      end
  end.

(** [codex-rs/apply-patch/src/lib.rs:462-521 apply_hunks_to_files] an updated file that is moved. *)
Definition apply_move (s : S) (delta : AppliedPatchDelta) (acc : AffectedPaths)
    (affected_path path_abs dest_abs : str) (p : AppliedPatch) : outcome :=
  let failed := lit "Failed to remove original " ++ path_abs in
  let '(overwritten_move_content, ex) := read_optional_file_text_for_delta s dest_abs (exact delta) in
  let delta := set_exact ex delta in
  match write_file_with_missing_parent_retry s dest_abs (new_contents p) with
  | (s, Err e) => (s, set_exact false delta, Fail e)
  | (s, Ok _) =>
      let dest_write_change_index := length (changes delta) in
      let delta := push_change delta dest_abs (Add (new_contents p) overwritten_move_content) in
      match with_context failed (ensure_not_directory s path_abs) with
      | Err e => (s, delta, Fail e)
      | Ok _ =>
          let '(s, removed) := remove s path_abs in
          match with_context failed removed with
          | Err e =>
              (s, set_exact (exact delta &&
                     remove_failure_was_side_effect_free s path_abs (Some (original_contents p))) delta,
               Fail e)
          | Ok _ =>
              match set_change delta dest_write_change_index
                {| change_path := path_abs;
                   change := Update (Some dest_abs) (original_contents p) overwritten_move_content
                               (new_contents p) |} with
              | Some delta => (s, delta, Done (push_modified acc affected_path))
              | None => (s, delta, Panic)
              end
          end
      end
  end.

(** [codex-rs/apply-patch/src/lib.rs:454-542 apply_hunks_to_files] an updated file. *)
Definition apply_update (cwd : str) (s : S) (delta : AppliedPatchDelta) (acc : AffectedPaths)
    (affected_path path_abs : str) (move_path : option str) (chunks : list UpdateFileChunk) : outcome :=
  let delta := set_exact (note_existing_path_delta_support s path_abs (exact delta)) delta in
  match derive_new_contents_from_chunks s path_abs chunks with
  | Fail e => (s, delta, Fail (plain_error (PatchCause e)))
  | Panic => (s, delta, Panic)
  | OutOfFuel => (s, delta, OutOfFuel)
  | Done p =>
      match move_path with
      | Some dest => apply_move s delta acc affected_path path_abs
                       (resolve_path_against_base home_dir dest cwd) p
      | None =>
          let '(s, written) := write_file s path_abs (new_contents p) in
          match with_context (lit "Failed to write file " ++ path_abs) written with
          | Err e => (s, set_exact false delta, Fail e)
          | Ok _ => (s, push_change delta path_abs (Update None (original_contents p) None (new_contents p)),
                     Done (push_modified acc affected_path))
          end
      end
  end.

(** [codex-rs/apply-patch/src/lib.rs:390-393 apply_hunks_to_files] one iteration. *)
Definition apply_hunk (cwd : str) (s : S) (delta : AppliedPatchDelta) (acc : AffectedPaths) (h : Hunk)
    : outcome :=
  let affected_path := hunk_path h in
  let path_abs := resolve_path cwd h in
  match h with
  | AddFile _ contents => apply_add s delta acc affected_path path_abs contents
  | DeleteFile _ => apply_delete s delta acc affected_path path_abs
  | UpdateFile _ move_path chunks => apply_update cwd s delta acc affected_path path_abs move_path chunks
  end.

(** [codex-rs/apply-patch/src/lib.rs:390-549 apply_hunks_to_files] the loop. *)
Fixpoint apply_each (cwd : str) (s : S) (delta : AppliedPatchDelta) (acc : AffectedPaths) (hs : list Hunk)
    : outcome :=
  match hs with
  | [] => (s, delta, Done acc)
  | h :: hs =>
      match apply_hunk cwd s delta acc h with
      | (s, delta, Done acc) => apply_each cwd s delta acc hs
      | stopped => stopped
      end
  end.

(** [codex-rs/apply-patch/src/lib.rs:361-550 apply_hunks_to_files] *)
Definition apply_hunks_to_files (cwd : str) (s : S) (delta : AppliedPatchDelta) (hs : list Hunk) : outcome :=
  match hs with
  | [] => (s, delta, Fail (plain_error (MessageCause (lit "No files were modified."))))
  | _ => apply_each cwd s delta no_paths hs
  end.

(** ** Entry points *)

(** An output stream: [writeln!(out, line)]. *)
Context {W : Type} (writeln : W -> str -> W * result io_error unit).

Fixpoint writeln_all (out : W) (ls : list str) : W * result io_error unit :=
  match ls with
  | [] => (out, Ok tt)
  | l :: ls => match writeln out l with
               | (out, Ok _) => writeln_all out ls
               | (out, Err e) => (out, Err e)
               end
  end.

(** [codex-rs/apply-patch/src/lib.rs:848-863 print_summary] *)
Definition print_summary (affected : AffectedPaths) (out : W) : W * result io_error unit :=
  writeln_all out
    (lit "Success. Updated the following files:"
     :: map (fun p => lit "A " ++ p) (added affected)
     ++ map (fun p => lit "M " ++ p) (modified affected)
     ++ map (fun p => lit "D " ++ p) (deleted affected)).

Definition applied : Type := S * W * W * run ApplyPatchFailure AppliedPatchDelta.

(** [codex-rs/apply-patch/src/lib.rs:336-346 apply_hunks] the error reported to the caller. *)
Definition reported_error (e : anyhow_error) : ApplyPatchError :=
  match error_cause e with
  | IoCause io => from_io io
  | _ => IoError (show_error e) {| kind := OtherKind; io_message := show_error e |}
  end.

(** [codex-rs/apply-patch/src/lib.rs:315-347 apply_hunks] *)
Definition apply_hunks (hs : list Hunk) (cwd : str) (stdout stderr : W) (s : S) : applied :=
  match apply_hunks_to_files cwd s empty_delta hs with
  | (s, delta, Done affected_paths) =>
      match print_summary affected_paths stdout with
      | (stdout, Ok _) => (s, stdout, stderr, Done delta)
      | (stdout, Err e) =>
          (s, stdout, stderr, Fail {| failure_error := from_io e; failure_delta := delta |})
      end
  | (s, delta, Fail error) =>
      match writeln stderr (show_error error) with
      | (stderr, Err e) => (s, stdout, stderr, Fail {| failure_error := from_io e; failure_delta := delta |})
      | (stderr, Ok _) =>
          (s, stdout, stderr, Fail {| failure_error := reported_error error; failure_delta := delta |})
      end
  | (s, _, Panic) => (s, stdout, stderr, Panic)
  | (s, _, OutOfFuel) => (s, stdout, stderr, OutOfFuel)
  end.

(** [codex-rs/apply-patch/src/lib.rs:276-312 apply_patch] *)
Definition apply_patch (patch : str) (cwd : str) (stdout stderr : W) (s : S) : applied :=
  match parse_patch patch with
  | Done source => apply_hunks (hunks source) cwd stdout stderr s
  | Fail e =>
      let message :=
        match e with
        | InvalidPatchError message => lit "Invalid patch: " ++ message
        | InvalidHunkError message line_number =>
            lit "Invalid patch hunk on line " ++ show_nat line_number ++ lit ": " ++ message
        end in
      match writeln stderr message with
      | (stderr, Err io) => (s, stdout, stderr, Fail (without_delta (from_io io)))
      | (stderr, Ok _) => (s, stdout, stderr, Fail (without_delta (ParseError_ e)))
      end
  | Panic => (s, stdout, stderr, Panic)
  | OutOfFuel => (s, stdout, stderr, OutOfFuel)
  end.

End Code.

(** ** The meaning of a delta *)

Definition fview : Type := str -> option str.

(** Two views agree at every path. *)
Definition same (v w : fview) : Prop := forall q, v q = w q.

#[global] Instance same_equiv : Equivalence same.
Proof. split; [by intros v q | by intros v w H q | intros v w u H1 H2 q; by rewrite H1]. Qed.

Definition upd (p : str) (c : option str) (v : fview) : fview := fun q => if decide (q = p) then c else v q.

(** What a change did to the files, and how to take it back. *)
Definition replay_change (v : fview) (c : AppliedPatchChange) : fview :=
  match change c with
  | Add content _ => upd (change_path c) (Some content) v
  | Delete _ => upd (change_path c) None v
  | Update None _ _ new => upd (change_path c) (Some new) v
  | Update (Some dest) _ _ new => upd (change_path c) None (upd dest (Some new) v)
  end.
Definition undo_change (c : AppliedPatchChange) (v : fview) : fview :=
  match change c with
  | Add _ overwritten => upd (change_path c) overwritten v
  | Delete content => upd (change_path c) (Some content) v
  | Update None old _ _ => upd (change_path c) (Some old) v
  | Update (Some dest) old overwritten _ => upd dest overwritten (upd (change_path c) (Some old) v)
  end.

(** Replaying a delta in order, and undoing it in reverse order. *)
Definition replay (cs : list AppliedPatchChange) (v : fview) : fview := foldl replay_change v cs.
Definition undo (cs : list AppliedPatchChange) (v : fview) : fview := foldr undo_change v cs.

(** The change leads from [v] to [w] and back. *)
Definition commits (c : AppliedPatchChange) (v w : fview) : Prop :=
  same w (replay_change v c) /\ same (undo_change c w) v.

(** The changes lead from [v] to [w] one after the other, each of them there and back. *)
Fixpoint faithful (cs : list AppliedPatchChange) (v w : fview) : Prop :=
  match cs with
  | [] => same w v
  | c :: cs => exists u, commits c v u /\ faithful cs u w
  end.

#[global] Instance upd_proper p c : Proper (same ==> same) (upd p c).
Proof. intros v w H q. unfold upd. by case_decide. Qed.

#[global] Instance replay_change_proper : Proper (same ==> eq ==> same) replay_change.
Proof. intros v w H c ? <-. unfold replay_change. repeat case_match; by rewrite H. Qed.

#[global] Instance undo_change_proper c : Proper (same ==> same) (undo_change c).
Proof. intros v w H. unfold undo_change. repeat case_match; by rewrite H. Qed.

#[global] Instance undo_proper cs : Proper (same ==> same) (undo cs).
Proof. intros v w H. induction cs as [|c cs IH]; [done|]. unfold undo in *. simpl. by rewrite IH. Qed.

Lemma upd_eq p c v : upd p c v p = c.
Proof. unfold upd. by rewrite decide_True. Qed.
Lemma upd_ne p c v q : q <> p -> upd p c v q = v q.
Proof. intros H. unfold upd. by rewrite decide_False. Qed.

Lemma upd_intro p c v w : w p = c -> (forall q, q <> p -> w q = v q) -> same w (upd p c v).
Proof. intros Hp Hq q. unfold upd. case_decide; subst; auto. Qed.

Lemma upd_undo p c c' v : v p = c' -> same (upd p c' (upd p c v)) v.
Proof. intros H q. unfold upd. case_decide; by subst. Qed.

#[global] Instance replay_proper cs : Proper (same ==> same) (replay cs).
Proof. unfold replay. induction cs as [|c cs IH]; intros v w H; [done|]. simpl. apply IH. by rewrite H. Qed.

Lemma faithful_one c v w : commits c v w -> faithful [c] v w.
Proof. intros H. by exists w. Qed.

Lemma faithful_app cs cs' v w u : faithful cs v w -> faithful cs' w u -> faithful (cs ++ cs') v u.
Proof.
  revert v. induction cs as [|c cs IH]; intros v.
  - cbn [faithful app]. intros Hw. destruct cs' as [|c' cs']; cbn [faithful]; [by intros ->|].
    intros (x & [H1 H2] & H). exists x. split; [|done]. split; [by rewrite H1, Hw | by rewrite H2].
  - intros (x & Hc & H) H'. exists x. split; [done|]. by apply IH.
Qed.

(** A chain of changes replays the first view into the last and undoes the last into the first. *)
Lemma faithful_replays cs v w : faithful cs v w -> same w (replay cs v) /\ same (undo cs w) v.
Proof.
  revert v. induction cs as [|c cs IH]; intros v; [done|]. intros (u & [Hr Hu] & [H1 H2]%IH). split.
  - rewrite H1. change (replay (c :: cs) v) with (replay cs (replay_change v c)). by rewrite Hr.
  - change (undo (c :: cs) w) with (undo_change c (undo cs w)). by rewrite H2.
Qed.

(** A single file replaced, created or removed. *)
Lemma commits_upd c p new old v w :
  same w (upd p new v) -> v p = old ->
  (forall u, replay_change u c = upd p new u) -> (forall u, undo_change c u = upd p old u) ->
  commits c v w.
Proof.
  intros Hw Hold Hr Hu. split; [by rewrite Hr|]. rewrite Hu, Hw. by apply upd_undo.
Qed.

(** A file written to [dest] and then removed from [p], where [p] held [old]. *)
Lemma commits_move p dest old ow new v w :
  same w (upd p None (upd dest (Some new) v)) -> v p = Some old -> v dest = ow ->
  commits {| change_path := p; change := Update (Some dest) old ow new |} v w.
Proof.
  intros Hw Hp Hd. split; [done|]. unfold undo_change. simpl. rewrite Hw. intros q. unfold upd.
  repeat case_decide; subst; done.
Qed.

(** ** The delta is exact *)

Section Exact.
Context {S : Type} `{!ExecutorFileSystem S, !FileSystemLaws S} (home_dir : option str).

(** From [s] and [d] to [s'] and [d']: if the later delta is exact then so was the earlier one, and the
    changes added in between lead from the one view to the other and back. *)
Definition steps (s : S) (d : AppliedPatchDelta) (s' : S) (d' : AppliedPatchDelta) : Prop :=
  exact d' = true -> exact d = true /\
    exists ext, changes d' = changes d ++ ext /\ faithful ext (view s) (view s').

Lemma steps_unchanged s d d' :
  changes d' = changes d -> (exact d' = true -> exact d = true) -> steps s d s d'.
Proof.
  intros Hc He H. split; [auto|]. exists []. rewrite app_nil_r. by split.
Qed.

Lemma steps_commit s d s' d' c :
  (exact d' = true -> exact d = true /\ changes d' = changes d ++ [c] /\ commits c (view s) (view s')) ->
  steps s d s' d'.
Proof. intros H Hex. apply H in Hex as (Hd & Hc & Hv). split; [done|]. exists [c]. split; [done|]. by apply faithful_one. Qed.

Lemma steps_trans s1 d1 s2 d2 s3 d3 : steps s1 d1 s2 d2 -> steps s2 d2 s3 d3 -> steps s1 d1 s3 d3.
Proof.
  intros H12 H23 Hex. apply H23 in Hex as (Hd2 & e2 & Hc2 & Hf2). apply H12 in Hd2 as (Hd1 & e1 & Hc1 & Hf1).
  split; [done|]. exists (e1 ++ e2). rewrite Hc2, Hc1, app_assoc. split; [done|]. by eapply faithful_app.
Qed.

Lemma note_exact (s : S) p b : note_existing_path_delta_support s p b = true -> b = true /\ plain s p.
Proof.
  unfold note_existing_path_delta_support, plain. destruct (get_metadata s p) as [m|e].
  - destruct (is_file m), (is_symlink m); naive_solver.
  - case_bool_decide; naive_solver.
Qed.

Lemma read_optional_exact (s : S) p b o :
  read_optional_file_text_for_delta s p b = (o, true) -> b = true /\ plain s p /\ view s p = o.
Proof.
  unfold read_optional_file_text_for_delta, view. intros H.
  destruct (read_file_text s p) as [c|e]; simpl.
  - injection H as <- H. apply note_exact in H as []. done.
  - case_bool_decide; [|done]. injection H as <- H. apply note_exact in H as []. done.
Qed.

Lemma write_view (s : S) p c s' :
  plain s p -> write_file s p c = (s', Ok tt) -> same (view s') (upd p (Some c) (view s)).
Proof.
  intros Hp Hw. apply upd_intro; [by eapply write_read|]. intros q Hq.
  pose proof (write_frame s p c q Hp Hq) as Hf. by rewrite Hw in Hf.
Qed.

Lemma write_missing_view (s : S) p c s' e q :
  plain s p -> write_file s p c = (s', Err e) -> q <> p -> view s' q = view s q.
Proof. intros Hp Hw Hq. pose proof (write_frame s p c q Hp Hq) as Hf. by rewrite Hw in Hf. Qed.

Lemma write_retry_view (s : S) p c s' :
  plain s p -> write_file_with_missing_parent_retry s p c = (s', Ok tt) ->
  same (view s') (upd p (Some c) (view s)).
Proof.
  intros Hp. unfold write_file_with_missing_parent_retry.
  destruct (write_file s p c) as [s1 [[]|e]] eqn:Hw; [intros [= <-]; by apply write_view|].
  case_bool_decide as Hk; [|done].
  pose proof (write_missing s p c s1 e Hp Hw Hk) as Hp1.
  assert (Hf1 : forall q, q <> p -> view s1 q = view s q) by (intros q; by eapply write_missing_view).
  destruct (match abs_parent p with Some d => _ | None => _ end) as [s2 [[]|e2]] eqn:Hc; [|done].
  assert (plain s2 p /\ forall q, view s2 q = view s1 q) as [Hp2 Hf2].
  { destruct (abs_parent p) as [d|] eqn:Hd; [|by injection Hc as <-].
    destruct (create_directory s1 d) as [s3 r] eqn:Hcd. injection Hc as <- _.
    change s3 with (s3, r).1. rewrite <- Hcd. split; [by apply create_plain|]. intros q. apply create_frame. }
  destruct (write_file s2 p c) as [s3 [[]|e3]] eqn:Hw2; [|done]. intros [= <-].
  etrans; [by apply write_view|]. intros q. unfold upd. case_decide; [done|]. by rewrite Hf2, Hf1.
Qed.

Lemma remove_view (s : S) p s' : remove s p = (s', Ok tt) -> same (view s') (upd p None (view s)).
Proof.
  intros Hr. apply upd_intro; [by eapply remove_read|]. intros q Hq.
  pose proof (remove_frame s p q Hq) as Hf. by rewrite Hr in Hf.
Qed.

Lemma remove_free_view (s : S) p s' e expected :
  remove s p = (s', Err e) -> remove_failure_was_side_effect_free s' p expected = true ->
  same (view s') (view s).
Proof.
  intros Hr Hf q. destruct (decide (q = p)) as [->|Hq].
  - destruct (remove_failed s p s' e Hr) as [|Hn]; [done|]. unfold view in Hn.
    destruct expected; [|done]. simpl in Hf. by destruct (read_file_text s' p).
  - pose proof (remove_frame s p q Hq) as H. by rewrite Hr in H.
Qed.

Lemma steps_inexact (s : S) d s' d' : steps s d s' (set_exact false d').
Proof. by intros [=]. Qed.

Lemma apply_add_steps (s : S) d acc ap p c s' d' r :
  apply_add s d acc ap p c = (s', d', r) -> steps s d s' d'.
Proof.
  unfold apply_add. destruct (read_optional_file_text_for_delta _ _ _) as [o ex] eqn:Ho.
  destruct (write_file_with_missing_parent_retry _ _ _) as [s1 [[]|e]] eqn:Hw;
    intros [= <- <- <-]; [|apply steps_inexact].
  eapply steps_commit. intros Hex. simpl in *. subst ex.
  apply read_optional_exact in Ho as (Hd & Hp & Hv). split; [done|]. split; [done|].
  eapply (commits_upd _ p (Some c) o); try done. by apply write_retry_view.
Qed.

Lemma apply_delete_steps (s : S) d acc ap p s' d' r :
  apply_delete s d acc ap p = (s', d', r) -> steps s d s' d'.
Proof.
  unfold apply_delete. destruct (note_existing_path_delta_support _ _ _) eqn:Hn.
  2:{ intros H Hex. exfalso. destruct (ok _); repeat case_match; simplify_eq/=; done. }
  apply note_exact in Hn as [Hd _]. destruct (ok (read_file_text s p)) as [c|] eqn:Hc.
  2:{ intros H Hex. exfalso. repeat case_match; simplify_eq/=; done. }
  destruct (with_context _ (ensure_not_directory s p)); [|intros [= <- <- <-]; by apply steps_unchanged].
  destruct (remove s p) as [s1 [[]|e]] eqn:Hr; simpl; intros [= <- <- <-].
  - eapply steps_commit. intros _. split; [done|]. split; [done|].
    eapply (commits_upd _ p None (Some c)); try done. by apply remove_view.
  - intros Hex. split; [done|]. exists []. rewrite app_nil_r. split; [done|]. cbn [faithful].
    by eapply (remove_free_view s p s1 e (Some c)).
Qed.

Lemma apply_move_steps (s : S) d acc ap p dest ap0 s' d' r :
  view s p = Some (original_contents ap0) ->
  apply_move s d acc ap p dest ap0 = (s', d', r) -> steps s d s' d'.
Proof.
  intros Hold. unfold apply_move. destruct (read_optional_file_text_for_delta _ _ _) as [o ex] eqn:Ho.
  destruct (write_file_with_missing_parent_retry _ _ _) as [s1 [[]|e]] eqn:Hw;
    [|intros [= <- <- <-]; apply steps_inexact].
  destruct ex.
  2:{ intros H Hex. exfalso. repeat case_match; simplify_eq/=; try done.
      unfold set_change in *. repeat case_match; simplify_eq/=; done. }
  apply read_optional_exact in Ho as (Hd & Hp & Hv). apply write_retry_view in Hw; [|done].
  set (c := {| change_path := dest; change := Add (new_contents ap0) o |}).
  assert (Hdest : commits c (view s) (view s1)) by (by eapply (commits_upd _ dest (Some (new_contents ap0)) o)).
  destruct (with_context _ (ensure_not_directory s1 p)); [|intros [= <- <- <-]; by apply (steps_commit _ _ _ _ c)].
  destruct (remove s1 p) as [s2 [[]|e]] eqn:Hr; simpl.
  - unfold set_change. simpl. rewrite (proj2 (Nat.ltb_lt _ _)) by (rewrite length_app; simpl; lia).
    intros [= <- <- <-]. eapply steps_commit. intros _. split; [done|]. simpl.
    rewrite insert_app_r_alt, Nat.sub_diag by done. simpl. split; [done|]. apply commits_move; [|done|done].
    etrans; [by apply remove_view|]. by rewrite Hw.
  - intros [= <- <- <-] Hex. split; [done|]. exists [c]. split; [done|].
    apply (remove_free_view s1 p s2 e (Some (original_contents ap0))) in Hex; [|done].
    by exists (view s1).
Qed.

Lemma derive_original (s : S) p chunks ap :
  derive_new_contents_from_chunks s p chunks = Done ap -> view s p = Some (original_contents ap).
Proof.
  unfold derive_new_contents_from_chunks, view. intros (c & Hc & H)%run_bind_done.
  apply run_bind_done in H as (n & _ & [= <-]). simpl.
  destruct (read_file_text s p); simpl in *; [|done]. by injection Hc as ->.
Qed.

Lemma apply_update_steps cwd (s : S) d acc ap p mv chunks s' d' r :
  apply_update home_dir cwd s d acc ap p mv chunks = (s', d', r) -> steps s d s' d'.
Proof.
  unfold apply_update. set (d1 := set_exact _ d).
  assert (Hn : exact d1 = true -> exact d = true /\ plain s p) by apply note_exact.
  assert (Hs1 : steps s d s d1) by (apply steps_unchanged; [done | by intros []%Hn]).
  destruct (derive_new_contents_from_chunks s p chunks) as [ap0|e| |] eqn:Hder; [|(by intros [= <- <- <-])..].
  apply derive_original in Hder.
  destruct mv as [dest|]; [intros H; eapply steps_trans; [done | by eapply apply_move_steps]|].
  destruct (write_file s p (new_contents ap0)) as [s1 [[]|e]] eqn:Hw; simpl;
    intros [= <- <- <-]; [|apply steps_inexact].
  eapply steps_commit. intros [Hex Hp]%Hn. split; [done|]. split; [done|].
  eapply (commits_upd _ p _ (Some (original_contents ap0))); [by apply write_view|done..].
Qed.

Lemma apply_hunk_steps cwd (s : S) d acc h s' d' r :
  apply_hunk home_dir cwd s d acc h = (s', d', r) -> steps s d s' d'.
Proof.
  unfold apply_hunk. destruct h; [apply apply_add_steps | apply apply_delete_steps | apply apply_update_steps].
Qed.

Lemma apply_each_steps cwd hs (s : S) d acc s' d' r :
  apply_each home_dir cwd s d acc hs = (s', d', r) -> steps s d s' d'.
Proof.
  revert s d acc; induction hs as [|h hs IH]; intros s d acc; simpl;
    [intros [= <- <- _]; by apply steps_unchanged|].
  destruct (apply_hunk home_dir cwd s d acc h) as [[s1 d1] r1] eqn:Hh. apply apply_hunk_steps in Hh.
  destruct r1; [intros H; eapply steps_trans; [done | by eapply IH] | (by intros [= <- <- _])..].
Qed.

Lemma apply_hunks_to_files_steps cwd hs (s : S) d s' d' r :
  apply_hunks_to_files home_dir cwd s d hs = (s', d', r) -> steps s d s' d'.
Proof.
  destruct hs; [intros [= <- <- _]; by apply steps_unchanged | by apply apply_each_steps].
Qed.

End Exact.

(** ** The delta describes the hunks *)

Section Described.
Context {S : Type} `{!ExecutorFileSystem S} (home_dir : option str) (cwd : str).

(** The change that carries out a hunk. *)
Definition describes (h : Hunk) (c : AppliedPatchChange) : Prop :=
  change_path c = resolve_path home_dir cwd h /\
  match h with
  | AddFile _ contents => exists o, change c = Add contents o
  | DeleteFile _ => exists content, change c = Delete content
  | UpdateFile _ mv chunks =>
      exists old o new, change c = Update ((fun d => resolve_path_against_base home_dir d cwd) <$> mv) old o new /\
        new_contents_of old (change_path c) chunks = Done new
  end.

(** The first half of a move: the destination is written, the original is still there. *)
Definition half_moved (h : Hunk) (c : AppliedPatchChange) : Prop :=
  exists path dest chunks old new o, h = UpdateFile path (Some dest) chunks /\
    new_contents_of old (resolve_path home_dir cwd h) chunks = Done new /\
    c = {| change_path := resolve_path_against_base home_dir dest cwd; change := Add new o |}.

(** The changes of a sequence of hunks, in order; only the deletion of a file that could not be read
    leaves no trace. *)
Inductive logged : list Hunk -> list AppliedPatchChange -> Prop :=
| logged_nil : logged [] []
| logged_change hs cs h c : logged hs cs -> describes h c -> logged (hs ++ [h]) (cs ++ [c])
| logged_unread hs cs path : logged hs cs -> logged (hs ++ [DeleteFile path]) cs.

(** The summary of a hunk. *)
Definition note_path (acc : AffectedPaths) (h : Hunk) : AffectedPaths :=
  match h with
  | AddFile _ _ => push_added acc (hunk_path h)
  | DeleteFile _ => push_deleted acc (hunk_path h)
  | UpdateFile _ _ _ => push_modified acc (hunk_path h)
  end.

(** What one hunk does to the changes and the summary. *)
Definition hunk_logged (cs : list AppliedPatchChange) (acc : AffectedPaths) (h : Hunk)
    (d' : AppliedPatchDelta) (r : run anyhow_error AffectedPaths) : Prop :=
  match r with
  | Done acc' => acc' = note_path acc h /\
      ((exists c, changes d' = cs ++ [c] /\ describes h c) \/
       (exists path, h = DeleteFile path) /\ changes d' = cs /\ exact d' = false)
  | Fail _ => changes d' = cs \/ exists c, changes d' = cs ++ [c] /\ half_moved h c
  | _ => False
  end.

Lemma derive_safe (s : S) p chunks : safe (derive_new_contents_from_chunks s p chunks).
Proof.
  unfold derive_new_contents_from_chunks. apply safe_bind; [apply safe_try|]. intros c _.
  apply safe_bind; [apply new_contents_of_safe | done].
Qed.

Lemma derive_new (s : S) p chunks ap :
  derive_new_contents_from_chunks s p chunks = Done ap ->
  new_contents_of (original_contents ap) p chunks = Done (new_contents ap).
Proof.
  unfold derive_new_contents_from_chunks. intros (c & _ & H)%run_bind_done.
  by apply run_bind_done in H as (n & Hn & [= <-]).
Qed.

Lemma apply_move_logged (s : S) d acc path dest chunks ap s' d' r :
  let h := UpdateFile path (Some dest) chunks in
  let p := resolve_path home_dir cwd h in
  new_contents_of (original_contents ap) p chunks = Done (new_contents ap) ->
  apply_move s d acc (hunk_path h) p (resolve_path_against_base home_dir dest cwd) ap = (s', d', r) ->
  hunk_logged (changes d) acc h d' r.
Proof.
  intros h p Hnew. unfold apply_move. destruct (read_optional_file_text_for_delta _ _ _) as [o ex].
  destruct (write_file_with_missing_parent_retry _ _ _) as [s1 [[]|e]]; [|intros [= _ <- <-]; by left].
  assert (Hhalf : forall e d', changes d' = changes d ++
      [{| change_path := resolve_path_against_base home_dir dest cwd; change := Add (new_contents ap) o |}] ->
    hunk_logged (changes d) acc h d' (Fail e)).
  { intros e d1 Hd1. right. eexists. split; [done|]. by exists path, dest, chunks, (original_contents ap), (new_contents ap), o. }
  destruct (with_context _ _) as [[]|e]; [|intros [= _ <- <-]; by apply Hhalf].
  destruct (remove s1 p) as [s2 [[]|e]]; simpl; [|intros [= _ <- <-]; by apply Hhalf].
  unfold set_change. simpl. rewrite (proj2 (Nat.ltb_lt _ _)) by (rewrite length_app; simpl; lia).
  intros [= _ <- <-]. simpl. rewrite insert_app_r_alt, Nat.sub_diag by done. simpl.
  split; [done|]. left. eexists. split; [done|]. split; [done|]. simpl. by repeat eexists.
Qed.

Lemma apply_hunk_logged (s : S) d acc h s' d' r :
  apply_hunk home_dir cwd s d acc h = (s', d', r) -> hunk_logged (changes d) acc h d' r.
Proof.
  unfold apply_hunk. destruct h as [path contents|path|path mv chunks].
  - unfold apply_add. destruct (read_optional_file_text_for_delta _ _ _) as [o ex].
    destruct (write_file_with_missing_parent_retry _ _ _) as [s1 [[]|e]]; intros [= _ <- <-]; [|by left].
    split; [done|]. left. eexists. split; [done|]. split; [done|]. by eexists.
  - unfold apply_delete. destruct (ok _) as [content|];
      (destruct (with_context _ _) as [[]|e]; [|intros [= _ <- <-]; by left]);
      (destruct (remove _ _) as [s1 [[]|e]]; simpl; intros [= _ <- <-]; [|by left]).
    + split; [done|]. left. eexists. split; [done|]. split; [done|]. by eexists.
    + split; [done|]. right. split; [by eexists | done].
  - unfold apply_update. pose proof (derive_safe s (resolve_path home_dir cwd (UpdateFile path mv chunks)) chunks).
    destruct (derive_new_contents_from_chunks _ _ _) as [ap|e| |] eqn:Hder;
      [|intros [= _ <- <-]; by left|done|done].
    apply derive_new in Hder. destruct mv as [dest|]; [by apply apply_move_logged|].
    destruct (write_file _ _ _) as [s1 [[]|e]]; intros [= _ <- <-]; [|by left].
    split; [done|]. left. eexists. split; [done|]. split; [done|]. simpl. by repeat eexists.
Qed.

(** What the loop does from a state that has logged [pre]. *)
Definition loop_logged (pre hs : list Hunk) (d' : AppliedPatchDelta) (r : run anyhow_error AffectedPaths) : Prop :=
  match r with
  | Done acc' => logged (pre ++ hs) (changes d') /\ acc' = foldl note_path no_paths (pre ++ hs)
  | Fail _ => exists mid h rest cs, hs = mid ++ h :: rest /\ logged (pre ++ mid) cs /\
      (changes d' = cs \/ exists c, changes d' = cs ++ [c] /\ half_moved h c)
  | _ => False
  end.

Lemma apply_each_logged hs (s : S) d pre s' d' r :
  logged pre (changes d) ->
  apply_each home_dir cwd s d (foldl note_path no_paths pre) hs = (s', d', r) -> loop_logged pre hs d' r.
Proof.
  revert s d pre; induction hs as [|h hs IH]; intros s d pre Hl; simpl.
  - intros [= _ <- <-]. simpl. by rewrite app_nil_r.
  - destruct (apply_hunk _ _ _ _ _ _) as [[s1 d1] r1] eqn:Hh. apply apply_hunk_logged in Hh.
    destruct r1 as [acc1|e| |]; [|intros [= _ <- <-]|done|done].
    + destruct Hh as [-> Hc]. assert (Hl1 : logged (pre ++ [h]) (changes d1)).
      { destruct Hc as [(c & -> & Hc)|([path ->] & -> & _)]; by constructor. }
      intros Hrun. specialize (IH s1 d1 (pre ++ [h]) Hl1). rewrite foldl_snoc in IH.
      apply IH in Hrun. unfold loop_logged in *. rewrite <- app_assoc in Hrun. simpl in Hrun.
      destruct r; [done| |done..]. destruct Hrun as (mid & h' & rest & cs & -> & Hm & Hd).
      exists (h :: mid), h', rest, cs. rewrite <- app_assoc in Hm. done.
    + simpl in *. exists [], h, hs, (changes d). rewrite app_nil_r. done.
Qed.

End Described.

(** ** Theorems *)

(** The delta handed to the caller, with the result or with the failure. *)
Definition reported_delta (r : run ApplyPatchFailure AppliedPatchDelta) : option AppliedPatchDelta :=
  match r with Done d => Some d | Fail f => Some (failure_delta f) | _ => None end.

(** A delta that says it is exact is a chain of changes from the initial files to the final ones. *)
Lemma apply_patch_faithful {S W} `{!ExecutorFileSystem S, !FileSystemLaws S} home_dir
    (writeln : W -> str -> W * result io_error unit) patch cwd out err (s : S) s' out' err' r d :
  apply_patch home_dir writeln patch cwd out err s = (s', out', err', r) ->
  reported_delta r = Some d -> exact d = true -> faithful (changes d) (view s) (view s').
Proof.
  intros H Hd Hex. assert (Ht : steps s empty_delta s' d); [|by apply Ht in Hex as (_ & ext & -> & Hf)].
  unfold apply_patch in H. destruct (parse_patch patch) as [args|e| |]; [| |by simplify_eq..].
  - unfold apply_hunks in H.
    destruct (apply_hunks_to_files home_dir cwd s empty_delta (hunks args)) as [[s1 d1] r1] eqn:Hr.
    apply apply_hunks_to_files_steps in Hr.
    destruct r1; [destruct (print_summary _ _ _) as [? []] | destruct (writeln _ _) as [? []] | |];
      simplify_eq/=; done.
  - destruct (writeln err _) as [? []]; simplify_eq/=; by apply steps_unchanged.
Qed.

(** C23: On any file system that keeps the laws, whatever patch is applied and however it ends, success
    or failure: a delta that says it is exact is exact.  Replaying its changes in order over the
    initial files gives the files as they are now, and undoing them in reverse order gives the
    initial files back. *)
Theorem apply_patch_delta_exact {S W} `{!ExecutorFileSystem S, !FileSystemLaws S} home_dir
    (writeln : W -> str -> W * result io_error unit) patch cwd out err (s : S) s' out' err' r d :
  apply_patch home_dir writeln patch cwd out err s = (s', out', err', r) ->
  reported_delta r = Some d -> exact d = true ->
  same (view s') (replay (changes d) (view s)) /\ same (undo (changes d) (view s')) (view s).
Proof. intros H Hd Hex. apply faithful_replays. by eapply apply_patch_faithful. Qed.

(** Applying a list of hunks never panics, and what it reports describes the hunks: on success one
    change per hunk, in order, with the new contents computed from the old ones (only the deletion of
    an unreadable file goes unrecorded), and the summary lists every hunk's path under its kind; on
    failure the changes describe the hunks before the failing one, plus at most the destination
    already written by an unfinished move. *)
Theorem apply_hunks_described {S} `{!ExecutorFileSystem S} home_dir cwd (s : S) hs s' d r :
  apply_hunks_to_files home_dir cwd s empty_delta hs = (s', d, r) ->
  match r with
  | Done affected => logged home_dir cwd hs (changes d) /\ affected = foldl note_path no_paths hs
  | Fail _ => (hs = [] /\ changes d = []) \/
      exists before h after cs, hs = before ++ h :: after /\ logged home_dir cwd before cs /\
        (changes d = cs \/ exists c, changes d = cs ++ [c] /\ half_moved home_dir cwd h c)
  | Panic | OutOfFuel => False
  end.
Proof.
  unfold apply_hunks_to_files. destruct hs as [|h hs]; [intros [= _ <- <-]; by left|].
  intros H. apply (apply_each_logged home_dir cwd _ _ _ []) in H; [|constructor].
  unfold loop_logged in H. destruct r; [done|right; done|done..].
Qed.

(** A stream that keeps its lines. *)
Definition log_writeln (out : list str) (l : str) : list str * result io_error unit := (out ++ [l], Ok tt).

Definition demo_fs : MemFs.state :=
  {| MemFs.nodes := {[ lit "/w" := MemFs.Dir; lit "/w/a" := MemFs.File (unlines [lit "one"; lit "two"]) ]} |}.

Definition demo_patch : str := join [NL]
  [lit "*** Begin Patch"; lit "*** Add File: d/n"; lit "+new";
   lit "*** Update File: a"; lit "*** Move to: b"; lit "@@"; lit "-two"; lit "+2"; lit "*** End Patch"].

Lemma apply_patch_delta_exact_witness :
  exists s' out' d,
    apply_patch None log_writeln demo_patch (lit "/w") [] [] demo_fs = (s', out', [], Done d) /\
    length (changes d) = 2 /\ view s' (lit "/w/b") = Some (unlines [lit "one"; lit "2"]) /\
    same (undo (changes d) (view s')) (view demo_fs).
Proof.
  destruct (apply_patch None log_writeln demo_patch (lit "/w") [] [] demo_fs) as [[[s' out'] err'] r] eqn:H.
  assert (Hr : (exists d, r = Done d /\ length (changes d) = 2 /\ exact d = true) /\ err' = [] /\
               view s' (lit "/w/b") = Some (unlines [lit "one"; lit "2"])).
  { vm_compute in H. injection H as <- <- <- <-. split; [eexists; split; [reflexivity|by split]|].
    split; [reflexivity | vm_compute; reflexivity]. }
  destruct Hr as ((d & -> & Hlen & Hex) & -> & Hb). exists s', out', d. split; [done|]. split; [done|].
  split; [done|].
  exact (proj2 (apply_patch_delta_exact None log_writeln demo_patch (lit "/w") [] [] demo_fs s' out' [] (Done d) d H eq_refl Hex)).
Defined.

Lemma apply_hunks_described_witness :
  exists s' d a, apply_hunks_to_files None (lit "/w") demo_fs empty_delta [DeleteFile (lit "a")] = (s', d, Done a) /\
    logged None (lit "/w") [DeleteFile (lit "a")] (changes d) /\ deleted a = [lit "a"].
Proof.
  destruct (apply_hunks_to_files None (lit "/w") demo_fs empty_delta [DeleteFile (lit "a")]) as [[s' d] r] eqn:H.
  pose proof (apply_hunks_described None (lit "/w") demo_fs [DeleteFile (lit "a")] s' d r H) as Hl.
  assert (Hr : exists a, r = Done a).
  { vm_compute in H. injection H as <- <- <-. by eexists. }
  destruct Hr as [a ->]. exists s', d, a. destruct Hl as [Hl ->]. by split.
Defined.

(** Moving a file onto itself deletes it: the new contents are written to the destination, which is
    then removed as the original, and the patch reports success. *)
Theorem move_to_self_deletes_file :
  let hs := [UpdateFile (lit "a") (Some (lit "./a")) [demo_chunk [lit "two"] [lit "2"] false]] in
  exists s' d, apply_hunks_to_files None (lit "/w") demo_fs empty_delta hs =
      (s', d, Done {| added := []; modified := [lit "./a"]; deleted := [] |}) /\
    view demo_fs (lit "/w/a") = Some (unlines [lit "one"; lit "two"]) /\ view s' (lit "/w/a") = None.
Proof. do 2 eexists. split; [vm_compute; reflexivity|]. split; vm_compute; reflexivity. Qed.

(** A tree in which [/w/l] is a link to the missing [/w/t]. *)
Definition dangling_fs : LinkFs.state := {[ lit "/w" := LinkFs.Dir; lit "/w/l" := LinkFs.Link (lit "/w/t") ]}.

(** A dangling symbolic link counts as a missing file, so a patch that adds a file at the link
    reports an exact delta although the text went to the link's target: undoing the delta does not
    give the initial files back. *)
Theorem dangling_link_delta_not_exact :
  exists s' d a, apply_hunks_to_files None (lit "/w") dangling_fs empty_delta [AddFile (lit "l") (lit "x")] =
      (s', d, Done a) /\ exact d = true /\
    undo (changes d) (view s') (lit "/w/t") = Some (lit "x") /\ view dangling_fs (lit "/w/t") = None.
Proof. do 3 eexists. split; [vm_compute; reflexivity|]. split; [reflexivity|]. split; vm_compute; reflexivity. Qed.

End ApplyHunks.
