(* ===== verification/ApplyInvocation.v ===== *)
(** * Recognising and verifying apply_patch invocations: apply-patch/src/invocation.rs

    From the argument vector of a command to the proposed changes shown for approval.  The extraction
    of a heredoc from a shell script (tree-sitter) and the rendering of a unified diff (the crate
    similar) are parameters.  The main theorem relates the verified changes to what applying the patch
    then does. *)

From S2P Require Import Prelude Text AbsolutePath FileSystem PatchParser Replacements ApplyHunks.

Module ApplyInvocation.
Import AbsolutePath PatchParser Replacements ApplyHunks.

(** ** Data *)

(** [codex-rs/apply-patch/src/invocation.rs:27-27 APPLY_PATCH_COMMANDS] *)
Definition APPLY_PATCH_COMMANDS : list str := [lit "apply_patch"; lit "applypatch"].

(** [codex-rs/apply-patch/src/invocation.rs:29-34 ApplyPatchShell] *)
Inductive ApplyPatchShell := Unix | PowerShell | Cmd.

(** [codex-rs/apply-patch/src/invocation.rs:44-51 ExtractHeredocError] the wrapped library errors as
    their text. *)
Inductive ExtractHeredocError :=
| CommandDidNotStartWithApplyPatch
| FailedToLoadBashGrammar (e : str)
| HeredocNotUtf8 (e : str)
| FailedToParsePatchIntoAst
| FailedToFindHeredocBody.

(** [codex-rs/apply-patch/src/invocation.rs:36-42 MaybeApplyPatch] *)
Inductive MaybeApplyPatch :=
| Body (args : ApplyPatchArgs)
| ShellParseError (e : ExtractHeredocError)
| PatchParseError (e : ParseError)
| NotApplyPatch.

(** [codex-rs/apply-patch/src/lib.rs:101-115 ApplyPatchFileChange] *)
Inductive ApplyPatchFileChange :=
| AddChange (content : str)
| DeleteChange (content : str)
| UpdateChange (unified_diff : str) (move_path : option str) (new_content : str).

(** [codex-rs/apply-patch/src/lib.rs:132-145 ApplyPatchAction] *)
Record ApplyPatchAction := {
  action_changes : gmap str ApplyPatchFileChange;
  action_patch : str;
  action_cwd : str;
}.

(** [codex-rs/apply-patch/src/lib.rs:117-130 MaybeApplyPatchVerified] *)
Inductive MaybeApplyPatchVerified :=
| VerifiedBody (action : ApplyPatchAction)
| VerifiedShellParseError (e : ExtractHeredocError)
| CorrectnessError (e : ApplyPatchError)
| VerifiedNotApplyPatch.

(** ** Shells *)

(** [Path::file_stem]: the last component without its extension; a leading dot starts no extension. *)
Definition file_stem (path : str) : option str :=
  name ← file_name path;
  match rsplit_once 46%N name with
  | Some (stem, _) => if bool_decide (stem = []) then Some name else Some stem
  | None => Some name
  end.

Definition eq_ignore_ascii_case (a b : str) : bool := bool_decide (to_ascii_lowercase a = to_ascii_lowercase b).

Definition is_one_of (s : str) (l : list str) : bool := bool_decide (s ∈ l).

(** [codex-rs/apply-patch/src/invocation.rs:53-58 classify_shell_name] *)
Definition classify_shell_name (shell : str) : option str := to_ascii_lowercase <$> file_stem shell.

(** [codex-rs/apply-patch/src/invocation.rs:60-69 classify_shell] *)
Definition classify_shell (shell flag : str) : option ApplyPatchShell :=
  name ← classify_shell_name shell;
  if is_one_of name [lit "bash"; lit "zsh"; lit "sh"] && is_one_of flag [lit "-lc"; lit "-c"]
  then Some Unix
  else if is_one_of name [lit "pwsh"; lit "powershell"] && eq_ignore_ascii_case flag (lit "-command")
  then Some PowerShell
  else if bool_decide (name = lit "cmd") && eq_ignore_ascii_case flag (lit "/c")
  then Some Cmd
  else None.

(** [codex-rs/apply-patch/src/invocation.rs:71-75 can_skip_flag] *)
Definition can_skip_flag (shell flag : str) : bool :=
  match classify_shell_name shell with
  | Some name => is_one_of name [lit "pwsh"; lit "powershell"] && eq_ignore_ascii_case flag (lit "-noprofile")
  | None => false
  end.

(** [codex-rs/apply-patch/src/invocation.rs:77-91 parse_shell_script] *)
Definition parse_shell_script (argv : list str) : option (ApplyPatchShell * str) :=
  match argv with
  | [shell; flag; script] => shell_type ← classify_shell shell flag; Some (shell_type, script)
  | [shell; skip_flag; flag; script] =>
      if can_skip_flag shell skip_flag
      then shell_type ← classify_shell shell flag; Some (shell_type, script)
      else None
  | _ => None
  end.

Section Code.
Context {S : Type} `{!ExecutorFileSystem S} (home_dir : option str).
(** [extract_apply_patch_from_bash]: the heredoc body and the directory of a leading [cd]. *)
Context (extract_apply_patch_from_bash : str -> result ExtractHeredocError (str * option str)).
(** The unified diff of two texts, with a number of context lines. *)
Context (text_diff : str -> str -> nat -> str).

(** [codex-rs/apply-patch/src/invocation.rs:93-102 extract_apply_patch_from_shell] *)
Definition extract_apply_patch_from_shell (shell : ApplyPatchShell) (script : str)
    : result ExtractHeredocError (str * option str) :=
  match shell with
  | Unix | PowerShell | Cmd => extract_apply_patch_from_bash script
  end.

Definition with_workdir (dir : option str) (a : ApplyPatchArgs) : ApplyPatchArgs :=
  {| patch := patch a; hunks := hunks a; workdir := dir; environment_id := environment_id a |}.

(** A parsed patch or the error to report. *)
Definition parse_body (body : str) (k : ApplyPatchArgs -> ApplyPatchArgs) : run ApplyPatchError MaybeApplyPatch :=
  match parse_patch body with
  | Done source => Done (Body (k source))
  | Fail e => Done (PatchParseError e)
  | Panic => Panic
  | OutOfFuel => OutOfFuel
  end.

(** [codex-rs/apply-patch/src/invocation.rs:105-130 maybe_parse_apply_patch] *)
Definition maybe_parse_apply_patch (argv : list str) : run ApplyPatchError MaybeApplyPatch :=
  let shell_form :=
    match parse_shell_script argv with
    | Some (shell, script) =>
        match extract_apply_patch_from_shell shell script with
        | Ok (body, workdir) => parse_body body (with_workdir workdir)
        | Err CommandDidNotStartWithApplyPatch => Done NotApplyPatch
        | Err e => Done (ShellParseError e)
        end
    | None => Done NotApplyPatch
    end in
  match argv with
  | [cmd; body] => if is_one_of cmd APPLY_PATCH_COMMANDS then parse_body body id else shell_form
  | _ => shell_form
  end.

(** [codex-rs/apply-patch/src/lib.rs:809-815 ApplyPatchFileUpdate] *)
Record ApplyPatchFileUpdate := { unified_diff : str; original_content : str; content : str }.

(** [codex-rs/apply-patch/src/lib.rs:826-844 unified_diff_from_chunks_with_context] *)
Definition unified_diff_from_chunks_with_context (s : S) (path_abs : str) (chunks : list UpdateFileChunk)
    (context : nat) : run ApplyPatchError ApplyPatchFileUpdate :=
  p ← derive_new_contents_from_chunks s path_abs chunks;
  Done {| unified_diff := text_diff (original_contents p) (new_contents p) context;
          original_content := original_contents p; content := new_contents p |}.

(** [codex-rs/apply-patch/src/lib.rs:817-824 unified_diff_from_chunks] *)
Definition unified_diff_from_chunks (s : S) (path_abs : str) (chunks : list UpdateFileChunk)
    : run ApplyPatchError ApplyPatchFileUpdate :=
  unified_diff_from_chunks_with_context s path_abs chunks 1.

(** [codex-rs/apply-patch/src/invocation.rs:179-226 verify_apply_patch_args] the change proposed for one
    hunk. *)
Definition verify_hunk (s : S) (effective_cwd : str) (h : Hunk) : run ApplyPatchError ApplyPatchFileChange :=
  let path := resolve_path home_dir effective_cwd h in
  match h with
  | AddFile _ contents => Done (AddChange contents)
  | DeleteFile _ =>
      content ← try_ (map_err (IoError (lit "Failed to read " ++ path)) (read_file_text s path));
      Done (DeleteChange content)
  | UpdateFile _ move_path chunks =>
      u ← unified_diff_from_chunks s path chunks;
      Done (UpdateChange (unified_diff u) ((fun p => abs_join home_dir effective_cwd p) <$> move_path) (content u))
  end.

(** [codex-rs/apply-patch/src/invocation.rs:177-227 verify_apply_patch_args] the loop. *)
Fixpoint verify_hunks (s : S) (effective_cwd : str) (changes : gmap str ApplyPatchFileChange)
    (hs : list Hunk) : run ApplyPatchError (gmap str ApplyPatchFileChange) :=
  match hs with
  | [] => Done changes
  | h :: hs =>
      c ← verify_hunk s effective_cwd h;
      verify_hunks s effective_cwd (<[resolve_path home_dir effective_cwd h := c]> changes) hs
  end.

(** [codex-rs/apply-patch/src/invocation.rs:161-233 verify_apply_patch_args] *)
Definition verify_apply_patch_args (args : ApplyPatchArgs) (cwd : str) (s : S)
    : run ApplyPatchError MaybeApplyPatchVerified :=
  let effective_cwd :=
    match workdir args with Some dir => abs_join home_dir cwd dir | None => cwd end in
  match verify_hunks s effective_cwd ∅ (hunks args) with
  | Done changes =>
      Done (VerifiedBody {| action_changes := changes; action_patch := patch args; action_cwd := effective_cwd |})
  | Fail e => Done (CorrectnessError e)
  | Panic => Panic
  | OutOfFuel => OutOfFuel
  end.

Definition parses (text : str) : bool := match parse_patch text with Done _ => true | _ => false end.

(** [codex-rs/apply-patch/src/invocation.rs:134-159 maybe_parse_apply_patch_verified] *)
Definition maybe_parse_apply_patch_verified (argv : list str) (cwd : str) (s : S)
    : run ApplyPatchError MaybeApplyPatchVerified :=
  let raw_body := match argv with [body] => parses body | _ => false end in
  let raw_script := match parse_shell_script argv with Some (_, script) => parses script | None => false end in
  if raw_body then Done (CorrectnessError ImplicitInvocation)
  else if raw_script then Done (CorrectnessError ImplicitInvocation)
  else parsed ← maybe_parse_apply_patch argv;
       match parsed with
       | Body args => verify_apply_patch_args args cwd s
       | ShellParseError e => Done (VerifiedShellParseError e)
       | PatchParseError e => Done (CorrectnessError (ParseError_ e))
       | NotApplyPatch => Done VerifiedNotApplyPatch
       end.

End Code.
(** ** Verified changes and their effect *)

Section Predict.
Context {S : Type} `{!ExecutorFileSystem S, !FileSystemLaws S} (home_dir : option str).
Context (text_diff : str -> str -> nat -> str) (cwd : str).

(** The paths a hunk writes or removes. *)
Definition touched (h : Hunk) : list str :=
  resolve_path home_dir cwd h ::
  match h with UpdateFile _ (Some dest) _ => [resolve_path_against_base home_dir dest cwd] | _ => [] end.

(** The files are as the proposed change says. *)
Definition realised (v : fview) (p : str) (c : ApplyPatchFileChange) : Prop :=
  match c with
  | AddChange x => v p = Some x
  | DeleteChange _ => v p = None
  | UpdateChange _ None x => v p = Some x
  | UpdateChange _ (Some dest) x => v dest = Some x /\ v p = None
  end.

Lemma derive_view (s : S) p chunks ap :
  derive_new_contents_from_chunks s p chunks = Done ap ->
  exists old, view s p = Some old /\ new_contents_of old p chunks = Done (new_contents ap).
Proof. intros H. exists (original_contents ap). split; [by eapply derive_original | by eapply derive_new]. Qed.

Lemma verify_update (s0 : S) path mv chunks c :
  let h := UpdateFile path mv chunks in
  verify_hunk home_dir text_diff s0 cwd h = Done c ->
  exists diff old new, c = UpdateChange diff ((fun d => resolve_path_against_base home_dir d cwd) <$> mv) new /\
    view s0 (resolve_path home_dir cwd h) = Some old /\
    new_contents_of old (resolve_path home_dir cwd h) chunks = Done new.
Proof.
  intros h H. apply run_bind_done in H as (u & Hu & [= <-]).
  apply run_bind_done in Hu as (ap & Hap & [= <-]). apply derive_view in Hap as (old & Hold & Hnew).
  by eexists _, old, _.
Qed.

(** One hunk does what was verified, provided the files it touches are as they were then. *)
Lemma apply_hunk_realises (s0 s : S) d acc h s' d' acc' c :
  apply_hunk home_dir cwd s d acc h = (s', d', Done acc') -> exact d' = true ->
  verify_hunk home_dir text_diff s0 cwd h = Done c ->
  NoDup (touched h) -> (forall q, q ∈ touched h -> view s q = view s0 q) ->
  realised (view s') (resolve_path home_dir cwd h) c /\ (forall q, q ∉ touched h -> view s' q = view s q).
Proof.
  intros Hrun Hex Hc Hnd Hsame. pose proof (apply_hunk_steps home_dir _ _ _ _ _ _ _ _ Hrun Hex) as (_ & ext & Hext & Hf).
  apply apply_hunk_logged in Hrun as [_ [(ch & Hch & [Hpath Hdesc])|(_ & _ & Hbad)]]; [|congruence].
  rewrite Hch in Hext. apply app_inv_head in Hext as <-. apply faithful_replays in Hf as [Hnew Hold]. simpl in Hnew, Hold.
  unfold replay_change, undo_change in *. rewrite Hpath in *. unfold touched in *.
  destruct h as [path x|path|path mv chunks].
  - destruct Hdesc as [o Hch']. rewrite Hch' in *. injection Hc as <-. split; [by simpl; rewrite Hnew, upd_eq|].
    intros q Hq. rewrite Hnew. apply upd_ne. set_solver.
  - destruct Hdesc as [x Hch']. rewrite Hch' in *. apply run_bind_done in Hc as (x' & _ & [= <-]).
    split; [by simpl; rewrite Hnew, upd_eq|]. intros q Hq. rewrite Hnew. apply upd_ne. set_solver.
  - destruct Hdesc as (old & o & new & Hch' & Hcont). rewrite Hch' in *.
    apply verify_update in Hc as (diff & old0 & new0 & -> & Hold0 & Hnew0).
    set (p := resolve_path home_dir cwd (UpdateFile path mv chunks)) in *.
    assert (view s p = Some old) as Hp.
    { rewrite <- Hold. destruct mv as [dest|]; simpl; [|by rewrite upd_eq].
      rewrite upd_ne by (apply NoDup_cons in Hnd as [? _]; set_solver). by rewrite upd_eq. }
    rewrite Hsame, Hold0 in Hp by set_solver. injection Hp as ->. rewrite Hnew0 in Hcont. injection Hcont as ->.
    destruct mv as [dest|]; simpl in *.
    + apply NoDup_cons in Hnd as [Hne _]. split; [split|].
      * rewrite Hnew, upd_ne by set_solver. by rewrite upd_eq.
      * by rewrite Hnew, upd_eq.
      * intros q Hq. rewrite Hnew, !upd_ne by set_solver. done.
    + split; [by simpl; rewrite Hnew, upd_eq|]. intros q Hq. rewrite Hnew. apply upd_ne. set_solver.
Qed.

(** Whether a verified change is realised only depends on the paths of its hunk. *)
Lemma realised_local (s0 : S) h c v w :
  verify_hunk home_dir text_diff s0 cwd h = Done c -> (forall q, q ∈ touched h -> w q = v q) ->
  realised v (resolve_path home_dir cwd h) c -> realised w (resolve_path home_dir cwd h) c.
Proof.
  intros Hc Hw. unfold touched in Hw. destruct h as [path x|path|path mv chunks].
  - injection Hc as <-. simpl. by rewrite Hw by set_solver.
  - apply run_bind_done in Hc as (x & _ & [= <-]). simpl. by rewrite Hw by set_solver.
  - apply verify_update in Hc as (diff & old & new & -> & _). destruct mv; simpl; by rewrite !Hw by set_solver.
Qed.

Lemma apply_each_realises (s0 : S) hs cs s d acc s' d' acc' :
  apply_each home_dir cwd s d acc hs = (s', d', Done acc') -> exact d' = true ->
  Forall2 (fun h c => verify_hunk home_dir text_diff s0 cwd h = Done c) hs cs ->
  NoDup (hs ≫= touched) -> (forall q, q ∈ hs ≫= touched -> view s q = view s0 q) ->
  Forall2 (fun h c => realised (view s') (resolve_path home_dir cwd h) c) hs cs /\
  (forall q, q ∉ hs ≫= touched -> view s' q = view s q).
Proof.
  intros Hrun Hex Hcs. revert s d acc Hrun.
  induction Hcs as [|h c hs cs Hc Hcs IH]; intros s d acc Hrun Hnd Hsame.
  { injection Hrun as <- _ _. split; [constructor | done]. }
  rewrite bind_cons in *. simpl in Hrun. apply NoDup_app in Hnd as (Hnd1 & Hdis & Hnd2).
  destruct (apply_hunk home_dir cwd s d acc h) as [[s1 d1] [acc1| | |]] eqn:Hh; try done.
  pose proof (apply_each_steps home_dir _ _ _ _ _ _ _ _ Hrun Hex) as [Hex1 _].
  destruct (apply_hunk_realises s0 _ _ _ _ _ _ _ _ Hh Hex1 Hc Hnd1) as [Hr Hframe].
  { intros q Hq. apply Hsame. set_solver. }
  destruct (IH _ _ _ Hrun Hnd2) as [Hrs Hframes].
  { intros q Hq. rewrite Hframe by (intros Hq'; by apply (Hdis q)). apply Hsame. set_solver. }
  split.
  - constructor; [|done]. eapply realised_local; [done| |done]. intros q Hq. apply Hframes. by apply Hdis.
  - intros q Hq. rewrite Hframes, Hframe by set_solver. done.
Qed.

Lemma verify_hunks_spec (s : S) hs m0 m :
  verify_hunks home_dir text_diff s cwd m0 hs = Done m ->
  exists cs, Forall2 (fun h c => verify_hunk home_dir text_diff s cwd h = Done c) hs cs /\
    forall p c, m !! p = Some c -> m0 !! p = Some c \/
      exists i h, hs !! i = Some h /\ cs !! i = Some c /\ resolve_path home_dir cwd h = p.
Proof.
  revert m0; induction hs as [|h hs IH]; intros m0; simpl.
  - intros [= <-]. exists []. split; [constructor | by left].
  - intros (c & Hc & H)%run_bind_done. apply IH in H as (cs & Hcs & Hm). exists (c :: cs).
    split; [by constructor|]. intros p c' Hp. destruct (Hm p c' Hp) as [Hi|(i & h' & ? & ? & ?)].
    + destruct (decide (resolve_path home_dir cwd h = p)) as [<-|Hne].
      * rewrite lookup_insert_eq in Hi. injection Hi as <-. right. by exists 0, h.
      * rewrite lookup_insert_ne in Hi by done. by left.
    + right. by exists (Datatypes.S i), h'.
Qed.

(** What is proposed for a hunk, given the files: the contents of an added file, those of the deleted file, and for an
    updated file the destination, the new contents and their difference from the present ones. *)
Definition shown (v : fview) (h : Hunk) (c : ApplyPatchFileChange) : Prop :=
  let p := resolve_path home_dir cwd h in
  match h, c with
  | AddFile _ x, AddChange y => y = x
  | DeleteFile _, DeleteChange y => v p = Some y
  | UpdateFile _ mv chunks, UpdateChange diff dest new =>
      dest = ((fun d => resolve_path_against_base home_dir d cwd) <$> mv) /\
      exists old, v p = Some old /\ new_contents_of old p chunks = Done new /\ diff = text_diff old new 1
  | _, _ => False
  end.

Lemma verify_hunk_shown (s : S) h c : verify_hunk home_dir text_diff s cwd h = Done c -> shown (view s) h c.
Proof.
  intros H. unfold shown. destruct h as [path x|path|path mv chunks].
  - by injection H as <-.
  - apply run_bind_done in H as (x & Hx & [= <-]). unfold view. unfold try_ in Hx. by destruct (read_file_text _ _); simplify_eq/=.
  - apply run_bind_done in H as (u & Hu & [= <-]). apply run_bind_done in Hu as (ap & Hap & [= <-]). split; [done|].
    exists (original_contents ap). split; [by eapply derive_original|]. split; [by eapply derive_new|done].
Qed.

(** A path that no hunk names keeps what was proposed for it; with different paths every hunk has its change. *)
Lemma verify_hunks_keeps (s : S) hs m0 m p :
  verify_hunks home_dir text_diff s cwd m0 hs = Done m -> p ∉ (resolve_path home_dir cwd <$> hs) -> m !! p = m0 !! p.
Proof.
  revert m0. induction hs as [|h hs IH]; intros m0; simpl; [by intros [= <-]|].
  intros (c & _ & H)%run_bind_done [Hne Hnot]%not_elem_of_cons. rewrite (IH _ H Hnot). by apply lookup_insert_ne.
Qed.

Lemma verify_hunks_complete (s : S) hs m0 m h :
  verify_hunks home_dir text_diff s cwd m0 hs = Done m -> NoDup (resolve_path home_dir cwd <$> hs) -> h ∈ hs ->
  exists c, m !! resolve_path home_dir cwd h = Some c /\ verify_hunk home_dir text_diff s cwd h = Done c.
Proof.
  revert m0. induction hs as [|h' hs IH]; intros m0; [by intros _ _ ?%elem_of_nil|]. cbn [verify_hunks].
  intros (c & Hc & H)%run_bind_done Hnd Hin. rewrite fmap_cons in Hnd. apply NoDup_cons in Hnd as [Hnot Hnd].
  apply elem_of_cons in Hin as [->|Hin]; [|by eapply IH].
  exists c. split; [|done]. rewrite (verify_hunks_keeps _ _ _ _ _ H Hnot). apply lookup_insert_eq.
Qed.

Lemma touched_paths hs : NoDup (hs ≫= touched) -> NoDup (resolve_path home_dir cwd <$> hs).
Proof.
  induction hs as [|h hs IH]; [constructor|]. rewrite bind_cons. intros (_ & Hdis & Hnd)%NoDup_app.
  rewrite fmap_cons. constructor; [|by apply IH]. intros Hin. apply list_elem_of_fmap in Hin as (h' & Heq & Hin).
  apply (Hdis (resolve_path home_dir cwd h)); [by left|]. apply list_elem_of_bind. exists h'. split; [by rewrite Heq; left|done].
Qed.

(** C24: What is shown for approval is what happens.  Suppose the hunks touch pairwise different paths (two hunks for one
    file are misreported, see [same_path_hunks_misreported]), the patch was verified against the current files, and
    applying it succeeds with an exact delta.  Then every hunk has its change among the proposed ones, which shows what
    the hunk does to the current files ([shown]: the contents of an added file, the contents of the deleted file, and for an updated file its
    destination, its new contents and their diff); every proposed change is realised (added and
    updated files hold the proposed contents, deleted and moved files are gone); and every file that is not as before is
    one for which a change was proposed, or the destination of a proposed move. *)
Theorem verified_changes_realised (s s' : S) hs m d a :
  NoDup (hs ≫= touched) ->
  verify_hunks home_dir text_diff s cwd ∅ hs = Done m ->
  apply_hunks_to_files home_dir cwd s empty_delta hs = (s', d, Done a) -> exact d = true ->
  (forall h, h ∈ hs -> exists c, m !! resolve_path home_dir cwd h = Some c /\ shown (view s) h c) /\
  (forall p c, m !! p = Some c -> realised (view s') p c) /\
  (forall q, view s' q <> view s q ->
     is_Some (m !! q) \/ exists p diff x, m !! p = Some (UpdateChange diff (Some q) x)).
Proof.
  intros Hnd Hv Hrun Hex. pose proof Hv as (cs & Hcs & Hm)%verify_hunks_spec.
  pose proof (touched_paths hs Hnd) as Hndp.
  assert (Hshown : forall h, h ∈ hs -> exists c, m !! resolve_path home_dir cwd h = Some c /\ shown (view s) h c).
  { intros h Hh. destruct (verify_hunks_complete s hs ∅ m h Hv Hndp Hh) as (c & Hc & Hvh). exists c.
    split; [done|]. by apply verify_hunk_shown. }
  destruct hs as [|h hs]; [done|]. cbn [apply_hunks_to_files] in Hrun.
  destruct (apply_each_realises s (h :: hs) cs s _ _ _ _ _ Hrun Hex Hcs Hnd) as [Hr Hframe]; [done|].
  split; [done|]. split.
  - intros p c Hp. destruct (Hm p c Hp) as [Hno|(i & h' & Hh & Hc & <-)]; [done|].
    eapply Forall2_lookup_lr in Hr; [|done|done]. done.
  - intros q Hq. destruct (decide (q ∈ (h :: hs) ≫= touched)) as [Hin|Hnot]; [|by destruct Hq; apply Hframe].
    apply list_elem_of_bind in Hin as (h' & Hq' & Hh'). destruct (Hshown h' Hh') as (c & Hc & Hsh).
    unfold touched in Hq'. apply elem_of_cons in Hq' as [->|Hq']; [left; by eexists|]. right.
    destruct h' as [| |path [dest|] chunks]; try by apply elem_of_nil in Hq'.
    apply list_elem_of_singleton in Hq' as ->. unfold shown in Hsh. destruct c as [| |diff dest' new]; try done.
    destruct Hsh as [-> _]. eauto.
Qed.

End Predict.

Lemma verify_hunks_safe {S} `{!ExecutorFileSystem S} home_dir text_diff (s : S) cwd m hs :
  safe (verify_hunks home_dir text_diff s cwd m hs).
Proof.
  revert m; induction hs as [|h hs IH]; intros m; simpl; [done|]. apply safe_bind; [|intros; apply IH].
  destruct h; simpl; [done|apply safe_bind; [apply safe_try | done]|].
  apply safe_bind; [|done]. apply safe_bind; [apply derive_safe | done].
Qed.

Lemma verify_args_returns {S} `{!ExecutorFileSystem S} home_dir text_diff (s : S) cwd args :
  exists v, verify_apply_patch_args home_dir text_diff args cwd s = Done v.
Proof.
  unfold verify_apply_patch_args. pose proof (verify_hunks_safe home_dir text_diff s) as Hs.
  match goal with |- context [verify_hunks _ _ _ ?c _ _] => specialize (Hs c ∅ (hunks args)) end.
  destruct (verify_hunks _ _ _ _ _ _); [by eexists | by eexists | done | done].
Qed.

Lemma parse_body_returns body k : exists v, parse_body body k = Done v.
Proof.
  unfold parse_body. pose proof (parse_patch_text_safe body
    (if PARSE_IN_STRICT_MODE then Strict else Lenient)) as H.
  unfold parse_patch. destruct (parse_patch_text _ _); [by eexists | by eexists | done | done].
Qed.

Lemma maybe_parse_returns extract argv : exists p, maybe_parse_apply_patch extract argv = Done p.
Proof.
  unfold maybe_parse_apply_patch. set (form := match parse_shell_script argv with Some _ => _ | None => _ end).
  assert (Hform : exists p, form = Done p).
  { subst form. destruct (parse_shell_script argv) as [[sh script]|]; [|by eexists].
    destruct (extract_apply_patch_from_shell extract sh script) as [[body wd]|[]];
      [apply parse_body_returns | by eexists..]. }
  destruct argv as [|cmd [|body [|]]]; try done.
  destruct (is_one_of cmd APPLY_PATCH_COMMANDS); [apply parse_body_returns | done].
Qed.

(** Whatever the arguments, the shell extraction and the file system: verification always gives an
    answer; and a bare patch body, alone or as the script of a shell, is never taken for an
    invocation but reported as an implicit one. *)
Theorem verified_answer {S} `{!ExecutorFileSystem S} home_dir extract text_diff argv cwd (s : S) :
  exists v, maybe_parse_apply_patch_verified home_dir extract text_diff argv cwd s = Done v /\
    ((exists body, argv = [body] /\ parses body = true) \/
     (exists sh script, parse_shell_script argv = Some (sh, script) /\ parses script = true) ->
     v = CorrectnessError ImplicitInvocation).
Proof.
  unfold maybe_parse_apply_patch_verified.
  destruct (match argv with [body] => parses body | _ => false end) eqn:Hraw; [by eexists|].
  destruct (match parse_shell_script argv with Some _ => _ | None => _ end) eqn:Hsh; [by eexists|].
  destruct (maybe_parse_returns extract argv) as [p ->]. simpl.
  assert (Hv : exists v, match p with
      | Body args => verify_apply_patch_args home_dir text_diff args cwd s
      | ShellParseError e => Done (VerifiedShellParseError e)
      | PatchParseError e => Done (CorrectnessError (ParseError_ e))
      | NotApplyPatch => Done VerifiedNotApplyPatch end = Done v).
  { destruct p; [apply verify_args_returns | by eexists..]. }
  destruct Hv as [v ->]. exists v. split; [done|].
  intros [(body & -> & Hb)|(sh & script & Hs & Hb)]; [congruence|]. rewrite Hs in Hsh. congruence.
Qed.

Lemma verified_changes_realised_witness :
  let hs := [AddFile (lit "n") (lit "x"); UpdateFile (lit "a") (Some (lit "b")) [demo_chunk [lit "two"] [lit "2"] false]] in
  exists s' d a m, apply_hunks_to_files None (lit "/w") demo_fs empty_delta hs = (s', d, Done a) /\
    verify_hunks None (fun _ _ _ => []) demo_fs (lit "/w") ∅ hs = Done m /\
    (forall p c, m !! p = Some c -> realised (view s') p c).
Proof.
  intros hs. destruct (apply_hunks_to_files None (lit "/w") demo_fs empty_delta hs) as [[s' d] r] eqn:H.
  destruct (verify_hunks None (fun _ _ _ => []) demo_fs (lit "/w") ∅ hs) as [m|e| |] eqn:Hv;
    [|vm_compute in Hv; discriminate Hv..].
  assert (Hr : (exists a, r = Done a) /\ exact d = true).
  { vm_compute in H. injection H as <- <- <-. split; [by eexists | reflexivity]. }
  destruct Hr as [[a ->] Hex]. exists s', d, a, m. split; [done|]. split; [done|].
  refine (proj1 (proj2 (verified_changes_realised None (fun _ _ _ => []) (lit "/w") demo_fs s' hs m d a _ Hv H Hex))).
  vm_compute. repeat (constructor; [set_solver|]). constructor.
Defined.

(** Two hunks for the same file: the change shown for approval is only the second one, computed
    against the file as it was before the first, while applying the patch makes both. *)
Theorem same_path_hunks_misreported :
  let hs := [UpdateFile (lit "a") None [demo_chunk [lit "one"] [lit "1"] false];
             UpdateFile (lit "a") None [demo_chunk [lit "two"] [lit "2"] false]] in
  (exists s' d a, apply_hunks_to_files None (lit "/w") demo_fs empty_delta hs = (s', d, Done a) /\
     view s' (lit "/w/a") = Some (unlines [lit "1"; lit "2"])) /\
  verify_hunks None (fun _ _ _ => []) demo_fs (lit "/w") ∅ hs =
    Done {[ lit "/w/a" := UpdateChange [] None (unlines [lit "one"; lit "2"]) ]}.
Proof. split; [do 3 eexists; split; vm_compute; reflexivity | vm_compute; reflexivity]. Qed.

End ApplyInvocation.
