(* ===== verification/ExecPolicy.v ===== *)
(** * Command and network rules: execpolicy/src

    Prefix rules over commands, network rules over hosts, the policy that holds them and its evaluation.
    [Rule] has one implementation, [PrefixRule]; [Arc]s are the values they point to.  A [MultiMap] is a
    map to lists.  The home directory and the current directory, which decide how a program name is
    made absolute, are parameters. *)

From S2P Require Import Prelude Text AbsolutePath.

Module ExecPolicy.
Import AbsolutePath.

(** ** Data *)

(** [codex-rs/execpolicy/src/decision.rs:9-16 Decision] *)
Inductive Decision := Allow | Prompt | Forbidden.

#[global] Instance Decision_eq_dec : EqDecision Decision.
Proof. solve_decision. Defined.

(** The derived order: [Allow < Prompt < Forbidden]. *)
Definition rank (d : Decision) : nat := match d with Allow => 0 | Prompt => 1 | Forbidden => 2 end.
Definition decision_max (a b : Decision) : Decision := if rank a <=? rank b then b else a.

(** [codex-rs/execpolicy/src/error.rs:6-22 ErrorLocation] *)
Record ErrorLocation := {
  location_path : str;
  start_line : nat; start_column : nat; end_line : nat; end_column : nat;
}.

(** [codex-rs/execpolicy/src/rule.rs:14-19 PatternToken] *)
Inductive PatternToken := Single (s : str) | Alts (l : list str).

(** [codex-rs/execpolicy/src/rule.rs:37-43 PrefixPattern] *)
Record PrefixPattern := { first : str; rest : list PatternToken }.

(** [codex-rs/execpolicy/src/rule.rs:110-115 PrefixRule] *)
Record PrefixRule := { pattern : PrefixPattern; decision : Decision; justification : option str }.

(** [codex-rs/execpolicy/src/rule.rs:62-82 RuleMatch] *)
Inductive RuleMatch :=
| PrefixRuleMatch (matched_prefix : list str) (decision : Decision) (resolved_program : option str)
    (justification : option str)
| HeuristicsRuleMatch (command : list str) (decision : Decision).

(** [codex-rs/execpolicy/src/error.rs:24-51 Error] rules and matches stand for their printed form;
    [Starlark] wraps the error of a builtin. *)
Inductive Error :=
| InvalidDecision (s : str)
| InvalidPattern (s : str)
| InvalidExample (s : str)
| InvalidRule (s : str)
| ExampleDidNotMatch (rules : list PrefixRule) (examples : list str) (location : option ErrorLocation)
| ExampleDidMatch (rule : RuleMatch) (example : str) (location : option ErrorLocation)
| Starlark (e : Error).

(** [codex-rs/execpolicy/src/rule.rs:117-123 NetworkRuleProtocol] *)
Inductive NetworkRuleProtocol := Http | Https | Socks5Tcp | Socks5Udp.

(** [codex-rs/execpolicy/src/rule.rs:148-154 NetworkRule] *)
Record NetworkRule := {
  host : str;
  protocol : NetworkRuleProtocol;
  net_decision : Decision;
  net_justification : option str;
}.

(** [codex-rs/execpolicy/src/policy.rs:22-25 MatchOptions] *)
Record MatchOptions := { resolve_host_executables : bool }.

Notation MultiMap := (gmap str (list PrefixRule)).

(** [codex-rs/execpolicy/src/policy.rs:27-32 Policy] *)
Record Policy := {
  rules_by_program : MultiMap;
  network_rules : list NetworkRule;
  host_executables_by_name : gmap str (list str);
}.

(** [codex-rs/execpolicy/src/policy.rs:349-355 Evaluation] *)
Record Evaluation := { eval_decision : Decision; matched_rules : list RuleMatch }.

(** [MultiMap::insert] and [MultiMap::get_vec]. *)
Definition multi_insert (program : str) (rule : PrefixRule) (m : MultiMap) : MultiMap :=
  <[program := default [] (m !! program) ++ [rule]]> m.

(** ** Parsing small things *)

(** [codex-rs/execpolicy/src/decision.rs:18-27 Decision::parse] *)
Definition parse_decision (raw : str) : result Error Decision :=
  if bool_decide (raw = lit "allow") then Ok Allow
  else if bool_decide (raw = lit "prompt") then Ok Prompt
  else if bool_decide (raw = lit "forbidden") then Ok Forbidden
  else Err (InvalidDecision raw).

(** [codex-rs/execpolicy/src/rule.rs:126-136 NetworkRuleProtocol::parse] *)
Definition parse_protocol (raw : str) : result Error NetworkRuleProtocol :=
  if bool_decide (raw = lit "http") then Ok Http
  else if bool_decide (raw = lit "https") || bool_decide (raw = lit "https_connect")
          || bool_decide (raw = lit "http-connect") then Ok Https
  else if bool_decide (raw = lit "socks5_tcp") then Ok Socks5Tcp
  else if bool_decide (raw = lit "socks5_udp") then Ok Socks5Udp
  else Err (InvalidRule (lit "network_rule protocol must be one of http, https, socks5_tcp, socks5_udp (got "
                         ++ raw ++ lit ")")).

(** [codex-rs/execpolicy/src/rule.rs:138-145 NetworkRuleProtocol::as_policy_string] *)
Definition as_policy_string (p : NetworkRuleProtocol) : str :=
  match p with
  | Http => lit "http"
  | Https => lit "https"
  | Socks5Tcp => lit "socks5_tcp"
  | Socks5Udp => lit "socks5_udp"
  end.

Definition host_empty : Error := InvalidRule (lit "network_rule host cannot be empty").

Definition all_digits (s : str) : bool := negb (bool_decide (s = [])) && forallb is_ascii_digit s.

(** [codex-rs/execpolicy/src/rule.rs:170-192 normalize_network_rule_host] the host without brackets or
    port. *)
Definition strip_port (raw host : str) : result Error str :=
  match strip_prefix (lit "[") host with
  | Some stripped =>
      match split_once 93%N stripped with
      | None => Err (InvalidRule (lit "network_rule host has an invalid bracketed IPv6 literal"))
      | Some (inside, rest) =>
          let port_ok := match strip_prefix (lit ":") rest with Some port => all_digits port | None => false end in
          if negb (bool_decide (rest = [])) && negb port_ok
          then Err (InvalidRule (lit "network_rule host contains an unsupported suffix: " ++ raw))
          else Ok inside
      end
  | None =>
      if length (filter (fun c => c = 58%N) host) =? 1 then
        match rsplit_once 58%N host with
        | Some (candidate, port) =>
            if negb (bool_decide (candidate = [])) && all_digits port then Ok candidate else Ok host
        | None => Ok host
        end
      else Ok host
  end.

(** [codex-rs/execpolicy/src/rule.rs:156-212 normalize_network_rule_host] *)
Definition normalize_network_rule_host (raw : str) : result Error str :=
  let host := trim raw in
  if bool_decide (host = []) then Err host_empty
  else if contains_sub (lit "://") host || contains_char 47%N host || contains_char 63%N host
          || contains_char 35%N host
  then Err (InvalidRule (lit "network_rule host must be a hostname or IP literal (without scheme or path)"))
  else
    host ← strip_port raw host;
    let normalized := to_ascii_lowercase (trim (trim_end_by (N.eqb 46%N) host)) in
    if bool_decide (normalized = []) then Err host_empty
    else if contains_char 42%N normalized
    then Err (InvalidRule (lit "network_rule host must be a specific host; wildcards are not allowed"))
    else if existsb is_whitespace normalized
    then Err (InvalidRule (lit "network_rule host cannot contain whitespace"))
    else Ok normalized.

(** ** Rules *)

(** [codex-rs/execpolicy/src/rule.rs:22-27 PatternToken::matches] *)
Definition token_matches (p : PatternToken) (token : str) : bool :=
  match p with
  | Single expected => bool_decide (expected = token)
  | Alts alternatives => existsb (fun alt => bool_decide (alt = token)) alternatives
  end.

(** [codex-rs/execpolicy/src/rule.rs:29-34 PatternToken::alternatives] *)
Definition alternatives (p : PatternToken) : list str :=
  match p with Single expected => [expected] | Alts alternatives => alternatives end.

(** [codex-rs/execpolicy/src/rule.rs:46-59 PrefixPattern::matches_prefix] *)
Definition matches_prefix (self : PrefixPattern) (cmd : list str) : option (list str) :=
  let pattern_length := length (rest self) + 1 in
  if length cmd <? pattern_length then None
  else match cmd with
       | [] => None
       | c0 :: args =>
           if negb (bool_decide (c0 = first self)) then None
           else if forallb (fun '(p, t) => token_matches p t) (zip (rest self) (take (length (rest self)) args))
           then Some (take pattern_length cmd)
           else None
       end.

(** [codex-rs/execpolicy/src/rule.rs:85-90 RuleMatch::decision] *)
Definition match_decision (m : RuleMatch) : Decision :=
  match m with PrefixRuleMatch _ d _ _ => d | HeuristicsRuleMatch _ d => d end.

(** [codex-rs/execpolicy/src/rule.rs:92-107 RuleMatch::with_resolved_program] *)
Definition with_resolved_program (program : str) (m : RuleMatch) : RuleMatch :=
  match m with
  | PrefixRuleMatch matched_prefix decision _ justification =>
      PrefixRuleMatch matched_prefix decision (Some program) justification
  | other => other
  end.

(** [codex-rs/execpolicy/src/rule.rs:229-238 PrefixRule::matches] *)
Definition rule_matches (cmd : list str) (r : PrefixRule) : option RuleMatch :=
  matched_prefix ← matches_prefix (pattern r) cmd;
  Some (PrefixRuleMatch matched_prefix (decision r) None (justification r)).

(** [codex-rs/execpolicy/src/rule.rs:225-227 PrefixRule::program] *)
Definition program (r : PrefixRule) : str := first (pattern r).

(** ** The policy *)

(** [codex-rs/execpolicy/src/policy.rs:35-53 Policy::empty] *)
Definition empty_policy : Policy :=
  {| rules_by_program := ∅; network_rules := []; host_executables_by_name := ∅ |}.

(** [codex-rs/execpolicy/src/policy.rs:91-111 Policy::add_prefix_rule] *)
Definition add_prefix_rule (self : Policy) (prefix : list str) (d : Decision) : result Error Policy :=
  match prefix with
  | [] => Err (InvalidPattern (lit "prefix cannot be empty"))
  | first_token :: rest =>
      let rule := {| pattern := {| first := first_token; rest := Single <$> rest |};
                     decision := d; justification := None |} in
      Ok {| rules_by_program := multi_insert first_token rule (rules_by_program self);
            network_rules := network_rules self;
            host_executables_by_name := host_executables_by_name self |}
  end.

Definition blank (j : option str) : bool :=
  match j with Some raw => bool_decide (trim raw = []) | None => false end.

(** [codex-rs/execpolicy/src/policy.rs:113-135 Policy::add_network_rule] *)
Definition add_network_rule (self : Policy) (raw : str) (p : NetworkRuleProtocol) (d : Decision)
    (j : option str) : result Error Policy :=
  h ← normalize_network_rule_host raw;
  if blank j then Err (InvalidRule (lit "justification cannot be empty"))
  else Ok {| rules_by_program := rules_by_program self;
             network_rules := network_rules self ++
               [{| host := h; protocol := p; net_decision := d; net_justification := j |}];
             host_executables_by_name := host_executables_by_name self |}.

(** [codex-rs/execpolicy/src/policy.rs:137-139 Policy::set_host_executable_paths] *)
Definition set_host_executable_paths (self : Policy) (name : str) (paths : list str) : Policy :=
  {| rules_by_program := rules_by_program self; network_rules := network_rules self;
     host_executables_by_name := <[name := paths]> (host_executables_by_name self) |}.

(** [codex-rs/execpolicy/src/policy.rs:141-165 Policy::merge_overlay] the overlay's rules follow the
    base's, its host executables replace them. *)
Definition merge_overlay (self overlay : Policy) : Policy :=
  {| rules_by_program := union_with (fun a b => Some (a ++ b)) (rules_by_program self) (rules_by_program overlay);
     network_rules := network_rules self ++ network_rules overlay;
     host_executables_by_name := host_executables_by_name overlay ∪ host_executables_by_name self |}.

(** [codex-rs/execpolicy/src/policy.rs:337-340 upsert_domain] *)
Definition upsert_domain (entries : list str) (h : str) : list str := filter (fun e => e <> h) entries ++ [h].

(** [codex-rs/execpolicy/src/policy.rs:171-183 Policy::compiled_network_domains] one iteration. *)
Definition compile_step (acc : list str * list str) (r : NetworkRule) : list str * list str :=
  let '(allowed, denied) := acc in
  match net_decision r with
  | Allow => (upsert_domain allowed (host r), filter (fun e => e <> host r) denied)
  | Forbidden => (filter (fun e => e <> host r) allowed, upsert_domain denied (host r))
  | Prompt => (allowed, denied)
  end.

(** [codex-rs/execpolicy/src/policy.rs:167-186 Policy::compiled_network_domains] *)
Definition compiled_network_domains (self : Policy) : list str * list str :=
  foldl compile_step ([], []) (network_rules self).

Section Evaluate.
Context (home_dir current_dir : option str).

(** [codex-rs/execpolicy/src/executable_name.rs:19-22 executable_lookup_key] not on Windows. *)
Definition executable_lookup_key (raw : str) : str := raw.

(** [codex-rs/execpolicy/src/executable_name.rs:25-29 executable_path_lookup_key] *)
Definition executable_path_lookup_key (path : str) : option str := executable_lookup_key <$> file_name path.

(** [codex-rs/execpolicy/src/policy.rs:297-305 Policy::match_exact_rules] *)
Definition match_exact_rules (self : Policy) (cmd : list str) : option (list RuleMatch) :=
  first ← head cmd;
  Some (omap (rule_matches cmd) (default [] (rules_by_program self !! first))).

(** [codex-rs/execpolicy/src/policy.rs:307-334 Policy::match_host_executable_rules] *)
Definition match_host_executable_rules (self : Policy) (cmd : list str) : list RuleMatch :=
  match cmd with
  | [] => []
  | first :: args =>
      match from_absolute_path home_dir current_dir first with
      | Err _ => []
      | Ok program =>
          match executable_path_lookup_key program with
          | None => []
          | Some basename =>
              match rules_by_program self !! basename with
              | None => []
              | Some rules =>
                  let excluded :=
                    match host_executables_by_name self !! basename with
                    | Some paths => negb (existsb (fun path => bool_decide (path = program)) paths)
                    | None => false
                    end in
                  if excluded then []
                  else with_resolved_program program <$> omap (rule_matches (basename :: args)) rules
              end
          end
      end
  end.

(** [codex-rs/execpolicy/src/policy.rs:268-295 Policy::matches_for_command_with_options] *)
Definition matches_for_command_with_options (self : Policy) (cmd : list str)
    (heuristics_fallback : option (list str -> Decision)) (options : MatchOptions) : list RuleMatch :=
  let exact := default [] (match_exact_rules self cmd) in
  let matched_rules :=
    match exact with
    | [] => if resolve_host_executables options then match_host_executable_rules self cmd else []
    | _ => exact
    end in
  match matched_rules, heuristics_fallback with
  | [], Some fallback => [HeuristicsRuleMatch cmd (fallback cmd)]
  | _, _ => matched_rules
  end.

(** [codex-rs/execpolicy/src/policy.rs:365-374 Evaluation::from_matches] [expect] panics on an empty
    list. *)
Definition from_matches {E} (ms : list RuleMatch) : run E Evaluation :=
  match ms with
  | [] => Panic
  | m :: ms' => Done {| eval_decision := foldl decision_max (match_decision m) (match_decision <$> ms');
                        matched_rules := ms |}
  end.

(** [codex-rs/execpolicy/src/policy.rs:200-212 Policy::check_with_options] *)
Definition check_with_options {E} (self : Policy) (cmd : list str) (fallback : list str -> Decision)
    (options : MatchOptions) : run E Evaluation :=
  from_matches (matches_for_command_with_options self cmd (Some fallback) options).

(** [codex-rs/execpolicy/src/policy.rs:188-198 Policy::check] *)
Definition check {E} (self : Policy) (cmd : list str) (fallback : list str -> Decision) : run E Evaluation :=
  check_with_options self cmd fallback {| resolve_host_executables := false |}.

(** [codex-rs/execpolicy/src/policy.rs:228-251 Policy::check_multiple_with_options] *)
Definition check_multiple_with_options {E} (self : Policy) (commands : list (list str))
    (fallback : list str -> Decision) (options : MatchOptions) : run E Evaluation :=
  from_matches (commands ≫= fun cmd => matches_for_command_with_options self cmd (Some fallback) options).

(** [codex-rs/execpolicy/src/policy.rs:358-362 Evaluation::is_match] *)
Definition is_match (e : Evaluation) : bool :=
  existsb (fun m => match m with HeuristicsRuleMatch _ _ => false | _ => true end) (matched_rules e).

End Evaluate.
(** ** Lemmas *)

Lemma token_matches_spec p t : token_matches p t = true <-> t ∈ alternatives p.
Proof.
  destruct p as [e|l]; simpl.
  - rewrite bool_decide_eq_true, list_elem_of_singleton. naive_solver.
  - rewrite existsb_exists. setoid_rewrite bool_decide_eq_true. setoid_rewrite <- list_elem_of_In. naive_solver.
Qed.

Lemma zip_matches ps ts :
  length ps <= length ts ->
  forallb (fun '(p, t) => token_matches p t) (zip ps (take (length ps) ts)) = true <->
  Forall2 (fun p t => t ∈ alternatives p) ps (take (length ps) ts).
Proof.
  revert ts; induction ps as [|p ps IH]; intros [|t ts] Hl; simpl in *; try lia.
  - done.
  - split; [constructor | done].
  - rewrite andb_true_iff, token_matches_spec, IH, Forall2_cons by lia. done.
Qed.

(** The pattern matches exactly the commands that start with its first token and one alternative of
    each further one. *)
Lemma matches_prefix_Some p cmd m :
  matches_prefix p cmd = Some m <->
  exists toks tail, cmd = first p :: toks ++ tail /\ m = first p :: toks /\
    Forall2 (fun q t => t ∈ alternatives q) (rest p) toks.
Proof.
  unfold matches_prefix. split.
  - destruct (Nat.ltb_spec (length cmd) (length (rest p) + 1)); [done|].
    destruct cmd as [|c0 args]; [done|]. simpl in *. case_bool_decide as H0; [|done]. simpl.
    destruct (forallb _ _) eqn:Hz; [|done]. rewrite Nat.add_1_r. simpl. intros [= <-]. subst c0.
    apply zip_matches in Hz; [|lia]. exists (take (length (rest p)) args), (drop (length (rest p)) args).
    by rewrite take_drop.
  - intros (toks & tail & -> & -> & Hf). apply Forall2_length in Hf as Hl. simpl. rewrite length_app.
    destruct (Nat.ltb_spec (Datatypes.S (length toks + length tail)) (length (rest p) + 1)); [lia|].
    rewrite bool_decide_true by done. simpl. rewrite Hl, take_app_length, Nat.add_1_r. simpl.
    rewrite take_app_length.
    pose proof (zip_matches (rest p) toks ltac:(lia)) as Hz.
    rewrite Hl, take_ge in Hz by lia. by rewrite (proj2 Hz Hf).
Qed.

Lemma rank_max_l a b : rank a <= rank (decision_max a b).
Proof. destruct a, b; simpl; lia. Qed.
Lemma rank_max_r a b : rank b <= rank (decision_max a b).
Proof. destruct a, b; simpl; lia. Qed.
Lemma decision_max_choice a b : decision_max a b = a \/ decision_max a b = b.
Proof. destruct a, b; simpl; auto. Qed.

#[global] Instance decision_max_assoc : Assoc (=) decision_max.
Proof. by intros [] [] []. Qed.

Lemma fold_max_choice d ds : foldl decision_max d ds = d \/ foldl decision_max d ds ∈ ds.
Proof.
  revert d; induction ds as [|x ds IH]; intros d; simpl; [by left|].
  destruct (IH (decision_max d x)) as [->|]; [|set_solver].
  destruct (decision_max_choice d x) as [->| ->]; set_solver.
Qed.

Lemma fold_max_upper d ds x : x = d \/ x ∈ ds -> rank x <= rank (foldl decision_max d ds).
Proof.
  revert d x; induction ds as [|y ds IH]; intros d x H; simpl.
  - destruct H as [->|]; [done | set_solver].
  - destruct H as [->|[->|H]%elem_of_cons].
    + etrans; [apply rank_max_l|]. apply IH. by left.
    + etrans; [apply rank_max_r|]. apply IH. by left.
    + apply IH. by right.
Qed.

Lemma fold_max_app d ds d' ds' :
  foldl decision_max d (ds ++ d' :: ds') = decision_max (foldl decision_max d ds) (foldl decision_max d' ds').
Proof.
  rewrite foldl_app. simpl. generalize (foldl decision_max d ds) as a. intros a. revert d'.
  induction ds' as [|x ds' IH]; intros d'; simpl; [done|]. by rewrite <- (assoc decision_max), IH.
Qed.

(** The evaluation of a non-empty list of matches takes the strictest decision. *)
Lemma from_matches_done {E} ms :
  ms <> [] -> exists e, @from_matches E ms = Done e /\ matched_rules e = ms /\
    (exists m, m ∈ ms /\ match_decision m = eval_decision e) /\
    (forall m, m ∈ ms -> rank (match_decision m) <= rank (eval_decision e)).
Proof.
  destruct ms as [|m ms]; [done|]. intros _. eexists. split; [done|]. split; [done|]. simpl. split.
  - destruct (fold_max_choice (match_decision m) (match_decision <$> ms)) as [->|H]; [exists m; set_solver|].
    apply list_elem_of_fmap in H as (m' & -> & Hm'). exists m'. set_solver.
  - intros m' [->|Hm']%elem_of_cons; apply fold_max_upper; [by left|]. right. apply list_elem_of_fmap. eauto.
Qed.

Lemma matches_fallback_nonempty hd cd self cmd fb opts :
  matches_for_command_with_options hd cd self cmd (Some fb) opts <> [].
Proof. unfold matches_for_command_with_options. by repeat case_match. Qed.

Lemma host_matches_are_prefix hd cd self cmd m :
  m ∈ match_host_executable_rules hd cd self cmd -> exists a b c d, m = PrefixRuleMatch a b c d.
Proof.
  unfold match_host_executable_rules. repeat case_match; try set_solver;
    intros (m' & -> & Hm')%list_elem_of_fmap; apply list_elem_of_omap in Hm' as (r & _ & Hr);
    apply bind_Some in Hr as (p & _ & [= <-]); simpl; by repeat eexists.
Qed.

Lemma exact_matches_are_prefix self cmd ms m :
  match_exact_rules self cmd = Some ms -> m ∈ ms -> exists a b c d, m = PrefixRuleMatch a b c d.
Proof.
  intros (c0 & _ & [= <-])%bind_Some (r & _ & Hr)%list_elem_of_omap.
  apply bind_Some in Hr as (p & _ & [= <-]). by repeat eexists.
Qed.

(** Either some rule matched, or the heuristics decided alone. *)
Lemma matches_dichotomy hd cd self cmd fb opts :
  matches_for_command_with_options hd cd self cmd (Some fb) opts = [HeuristicsRuleMatch cmd (fb cmd)] \/
  exists a b c d ms, matches_for_command_with_options hd cd self cmd (Some fb) opts = PrefixRuleMatch a b c d :: ms.
Proof.
  unfold matches_for_command_with_options.
  destruct (match_exact_rules self cmd) as [[|m ms]|] eqn:He; simpl.
  2:{ right. destruct (exact_matches_are_prefix _ _ _ m He) as (a & b & c & d & ->); [set_solver|]. by repeat eexists. }
  all: destruct (resolve_host_executables opts); [|by left].
  all: destruct (match_host_executable_rules hd cd self cmd) as [|m ms] eqn:Hh; [by left|].
  all: right; destruct (host_matches_are_prefix hd cd self cmd m) as (a & b & c & d & ->);
       [rewrite Hh; set_solver | by repeat eexists].
Qed.

(** ** Theorems *)

(** A rule registered for the program, as the command names it, matches the command. *)
Definition exact_applies (self : Policy) (cmd : list str) (m : RuleMatch) : Prop :=
  exists first args r, cmd = first :: args /\ r ∈ default [] (rules_by_program self !! first) /\ rule_matches cmd r = Some m.

(** A rule registered for the name of the program's file matches the command under that name, and the executables listed
    for the name, if any are, include the program. *)
Definition basename_applies (home_dir current_dir : option str) (self : Policy) (cmd : list str) (m : RuleMatch) : Prop :=
  exists first args program basename r m', cmd = first :: args /\ from_absolute_path home_dir current_dir first = Ok program /\
    executable_path_lookup_key program = Some basename /\ r ∈ default [] (rules_by_program self !! basename) /\
    (forall paths, host_executables_by_name self !! basename = Some paths -> program ∈ paths) /\
    rule_matches (basename :: args) r = Some m' /\ m = with_resolved_program program m'.

Lemma exact_rules_spec self cmd m : m ∈ default [] (match_exact_rules self cmd) <-> exact_applies self cmd m.
Proof.
  unfold match_exact_rules, exact_applies. destruct cmd as [|first args]; cbn.
  - split; [by intros ?%elem_of_nil|]. by intros (? & ? & ? & ? & _).
  - rewrite list_elem_of_omap. split.
    + intros (r & Hr & Hm). by exists first, args, r.
    + intros (? & ? & r & [= <- <-] & Hr & Hm). by exists r.
Qed.

Lemma host_rules_spec home_dir current_dir self cmd m :
  m ∈ match_host_executable_rules home_dir current_dir self cmd <-> basename_applies home_dir current_dir self cmd m.
Proof.
  unfold match_host_executable_rules, basename_applies. destruct cmd as [|first args].
  { split; [by intros ?%elem_of_nil|]. by intros (? & ? & ? & ? & ? & ? & ? & _). }
  destruct (from_absolute_path home_dir current_dir first) as [program|] eqn:Hp.
  2:{ split; [by intros ?%elem_of_nil|]. intros (? & ? & ? & ? & ? & ? & [= <- <-] & ? & _). congruence. }
  destruct (executable_path_lookup_key program) as [basename|] eqn:Hk.
  2:{ split; [by intros ?%elem_of_nil|]. intros (? & ? & ? & ? & ? & ? & [= <- <-] & ? & ? & _). congruence. }
  assert (Hspec : basename_applies home_dir current_dir self (first :: args) m <->
    exists r m', r ∈ default [] (rules_by_program self !! basename) /\
      (forall paths, host_executables_by_name self !! basename = Some paths -> program ∈ paths) /\
      rule_matches (basename :: args) r = Some m' /\ m = with_resolved_program program m').
  { split.
    - intros (? & ? & program' & basename' & r & m' & [= <- <-] & Hp' & Hk' & H).
      assert (program' = program) as -> by congruence. assert (basename' = basename) as -> by congruence. by exists r, m'.
    - intros (r & m' & H). by exists first, args, program, basename, r, m'. }
  fold (basename_applies home_dir current_dir self (first :: args) m). rewrite Hspec. clear Hspec.
  destruct (rules_by_program self !! basename) as [rules|]; cbn [default].
  2:{ split; [by intros ?%elem_of_nil|]. by intros (? & ? & ?%elem_of_nil & _). }
  assert (Hin : forall paths, existsb (fun path => bool_decide (path = program)) paths = true <-> program ∈ paths).
  { intros paths. rewrite existsb_exists. split.
    - intros (p & Hp' & ->%bool_decide_eq_true). by apply list_elem_of_In.
    - intros Hin. exists program. split; [by apply list_elem_of_In|by apply bool_decide_eq_true]. }
  destruct (host_executables_by_name self !! basename) as [paths|] eqn:Hh; [destruct (existsb _ paths) eqn:He|]; cbn [negb].
  2:{ split; [by intros ?%elem_of_nil|]. intros (r & m' & _ & Hall & _). specialize (Hall paths eq_refl).
      apply Hin in Hall. congruence. }
  all: rewrite list_elem_of_fmap; setoid_rewrite list_elem_of_omap; split;
    [intros (m' & -> & r & Hr & Hm); exists r, m'; split; [done|]; split; [|done]; intros p [= <-]; by apply Hin
    |intros (r & m' & Hr & _ & Hm & ->); exists m'; split; [done|]; by exists r].
Qed.

(** The rules that a check reports: those registered for the program; if none of these matches, and names are to be
    resolved, those for the name of its file; and if none of these matches, the fallback. *)
Lemma reported_rules home_dir current_dir self cmd fb opts m :
  m ∈ matches_for_command_with_options home_dir current_dir self cmd (Some fb) opts <->
  exact_applies self cmd m \/
  ((forall m', ~ exact_applies self cmd m') /\
   ((resolve_host_executables opts = true /\ basename_applies home_dir current_dir self cmd m) \/
    ((resolve_host_executables opts = true -> forall m', ~ basename_applies home_dir current_dir self cmd m') /\
     m = HeuristicsRuleMatch cmd (fb cmd)))).
Proof.
  setoid_rewrite <- exact_rules_spec. setoid_rewrite <- host_rules_spec. unfold matches_for_command_with_options.
  destruct (default [] (match_exact_rules self cmd)) as [|x xs].
  - assert (Hnone : forall m' : RuleMatch, m' ∉ []) by (intros m'; apply not_elem_of_nil).
    destruct (resolve_host_executables opts); [destruct (match_host_executable_rules _ _ self cmd) as [|y ys]|].
    + rewrite list_elem_of_singleton. set_solver.
    + split; [intros Hm; right; split; [done|by left]|]. intros [[]%Hnone|[_ [[_ Hm]|[Hno _]]]]; [done|].
      destruct (Hno eq_refl y). by left.
    + rewrite list_elem_of_singleton. split; [intros ->; right; split; [done|by right]|]. intros [[]%Hnone|[_ [[? _]|[_ ?]]]]; done.
  - split; [by left|]. intros [Hm|[Hno _]]; [done|]. destruct (Hno x). by left.
Qed.

(** C30: Checking a command never panics.  It reports exactly the rules that apply: those registered for the program as
    the command names it that match; if there is none, and names of files are to be resolved, those registered for the
    name of the program's file, when the executables listed for that name include it or none are listed; and if there
    is none of these either, the answer of the fallback.  The decision is the strictest among them, so a rule that
    applies and forbids always forbids, and when no rule applies the decision is the fallback's. *)
Theorem check_strictest {E} home_dir current_dir self cmd fb opts :
  exists e, @check_with_options home_dir current_dir E self cmd fb opts = Done e /\
    (exists m, m ∈ matched_rules e /\ match_decision m = eval_decision e) /\
    (forall m, m ∈ matched_rules e -> rank (match_decision m) <= rank (eval_decision e)) /\
    (forall m, m ∈ matched_rules e <->
       exact_applies self cmd m \/
       ((forall m', ~ exact_applies self cmd m') /\
        ((resolve_host_executables opts = true /\ basename_applies home_dir current_dir self cmd m) \/
         ((resolve_host_executables opts = true -> forall m', ~ basename_applies home_dir current_dir self cmd m') /\
          m = HeuristicsRuleMatch cmd (fb cmd))))) /\
    (is_match e = false -> eval_decision e = fb cmd).
Proof.
  destruct (@from_matches_done E (matches_for_command_with_options home_dir current_dir self cmd (Some fb) opts))
    as (e & He & Hms & Hex & Hall); [apply matches_fallback_nonempty|].
  exists e. split; [done|]. rewrite Hms. split; [done|]. split; [done|]. split.
  - intros m. apply reported_rules.
  - unfold is_match. rewrite Hms. destruct Hex as (m & Hm & <-).
    destruct (matches_dichotomy home_dir current_dir self cmd fb opts) as [Heq|(a & b & c & d & ms & Heq)];
      rewrite Heq in *; [|done]. apply list_elem_of_singleton in Hm as ->. done.
Qed.

(** A prefix pattern matches exactly the commands that begin with its first token followed by one
    alternative for each further token, and reports that beginning of the command. *)
Theorem matches_prefix_correct p cmd :
  (forall m, matches_prefix p cmd = Some m ->
     exists toks tail, cmd = m ++ tail /\ m = first p :: toks /\
       Forall2 (fun q t => t ∈ alternatives q) (rest p) toks) /\
  (matches_prefix p cmd = None -> forall toks tail,
     Forall2 (fun q t => t ∈ alternatives q) (rest p) toks -> cmd <> first p :: toks ++ tail).
Proof.
  split.
  - intros m (toks & tail & -> & -> & Hf)%matches_prefix_Some. by exists toks, tail.
  - intros Hn toks tail Hf ->. destruct (matches_prefix_Some p (first p :: toks ++ tail) (first p :: toks)) as [_ H].
    rewrite Hn in H. discriminate H. eauto.
Qed.

Lemma merge_exact a b cmd :
  default [] (match_exact_rules (merge_overlay a b) cmd) =
  default [] (match_exact_rules a cmd) ++ default [] (match_exact_rules b cmd).
Proof.
  destruct cmd as [|c0 args]; [done|]. unfold match_exact_rules, merge_overlay.
  cbn [head mbind option_bind default rules_by_program]. rewrite lookup_union_with.
  destruct (rules_by_program a !! c0), (rules_by_program b !! c0); simpl; rewrite ?omap_app, ?app_nil_r; done.
Qed.

Lemma check_exact {E} hd cd self cmd fb opts :
  default [] (match_exact_rules self cmd) <> [] ->
  @check_with_options hd cd E self cmd fb opts = from_matches (default [] (match_exact_rules self cmd)).
Proof.
  intros H. unfold check_with_options, matches_for_command_with_options. by destruct (default [] _).
Qed.

(** An overlay never weakens a decision made by rules: on a command that some rule of the base
    matches, the merged policy decides the stricter of what the base and the overlay's own matching
    rules decide, in particular at least as strictly as the base. *)
Theorem merge_overlay_never_weakens {E} home_dir current_dir base overlay cmd fb opts eb :
  default [] (match_exact_rules base cmd) <> [] ->
  @check_with_options home_dir current_dir E base cmd fb opts = Done eb ->
  exists em, @check_with_options home_dir current_dir E (merge_overlay base overlay) cmd fb opts = Done em /\
    rank (eval_decision eb) <= rank (eval_decision em) /\
    (default [] (match_exact_rules overlay cmd) = [] -> em = eb) /\
    (forall eo, @from_matches E (default [] (match_exact_rules overlay cmd)) = Done eo ->
       eval_decision em = decision_max (eval_decision eb) (eval_decision eo)).
Proof.
  intros Hb He. rewrite check_exact in He by done.
  rewrite check_exact by (rewrite merge_exact; by destruct (default [] (match_exact_rules base cmd))).
  rewrite merge_exact. destruct (default [] (match_exact_rules base cmd)) as [|m ms]; [done|].
  injection He as <-. simpl. eexists. split; [done|]. simpl.
  destruct (default [] (match_exact_rules overlay cmd)) as [|o os].
  - rewrite app_nil_r. split; [done|]. split; [done|]. by intros eo.
  - rewrite fmap_app, fmap_cons, fold_max_app. split; [apply rank_max_l|]. split; [done|]. by intros eo [= <-].
Qed.

(** The last rule for a host that is not a prompt. *)
Definition last_verdict (h : str) (rs : list NetworkRule) : option Decision :=
  net_decision <$> last (filter (fun r => host r = h /\ net_decision r <> Prompt) rs).

Lemma last_verdict_snoc h rs r :
  last_verdict h (rs ++ [r]) =
  if decide (host r = h /\ net_decision r <> Prompt) then Some (net_decision r) else last_verdict h rs.
Proof.
  unfold last_verdict. rewrite filter_app, filter_cons, filter_nil.
  case_decide; [by rewrite last_snoc | by rewrite app_nil_r].
Qed.

Lemma compile_snoc rs r : foldl compile_step ([], []) (rs ++ [r]) = compile_step (foldl compile_step ([], []) rs) r.
Proof. by rewrite foldl_app. Qed.

(** The compiled network domains: no host is listed twice, none is both allowed and denied, and a
    host is allowed (denied) exactly when the last rule for it, prompts aside, allows (forbids) it. *)
Theorem compiled_domains_last_rule_wins self :
  let '(allowed, denied) := compiled_network_domains self in
  NoDup allowed /\ NoDup denied /\ (forall h, h ∈ allowed -> h ∉ denied) /\
  (forall h, h ∈ allowed <-> last_verdict h (network_rules self) = Some Allow) /\
  (forall h, h ∈ denied <-> last_verdict h (network_rules self) = Some Forbidden).
Proof.
  unfold compiled_network_domains. generalize (network_rules self) as rs. intros rs.
  induction rs as [|r rs IH] using rev_ind; [split_and!; try constructor; set_solver|].
  rewrite compile_snoc. destruct (foldl compile_step ([], []) rs) as [al de].
  destruct IH as (Hal & Hde & Hdis & HA & HD).
  assert (Hup : forall l : list str, NoDup l -> NoDup (upsert_domain l (host r))).
  { intros l Hl. apply NoDup_app. split_and!; [by apply NoDup_filter| |apply NoDup_singleton].
    intros x. rewrite list_elem_of_filter. set_solver. }
  assert (Hin : forall l h, h ∈ upsert_domain l (host r) <-> h ∈ l \/ h = host r).
  { intros l h. unfold upsert_domain. rewrite elem_of_app, list_elem_of_filter, list_elem_of_singleton.
    destruct (decide (h = host r)); naive_solver. }
  unfold compile_step. destruct (net_decision r) eqn:Hd; split_and!; try (by auto using NoDup_filter);
    intros h; rewrite ?Hin, ?list_elem_of_filter, ?last_verdict_snoc, ?Hd; try case_decide; naive_solver.
Qed.

(** Everything [strip_port] keeps comes from the host. *)
Lemma strip_port_subset raw h h' : strip_port raw h = Ok h' -> forall c, c ∈ h' -> c ∈ h.
Proof.
  unfold strip_port. destruct (strip_prefix (lit "[") h) as [s|] eqn:Hp.
  - apply strip_prefix_Some in Hp as ->. destruct (split_once 93 s) as [[a b]|] eqn:Hs; [|done].
    apply split_once_eq in Hs as ->. case_match; [done|]. intros [= <-]. set_solver.
  - case_match; [|intros [= <-]; done]. destruct (rsplit_once 58 h) as [[a b]|] eqn:Hs; [|by intros [= <-]].
    apply rsplit_once_eq in Hs as ->. case_match; intros [= <-]; set_solver.
Qed.

(** A host accepted for a network rule is a specific lower-case host: not empty, without white
    space or wildcard, and without the characters of a scheme, a path, a query or a fragment. *)
Theorem normalized_host_shape raw h :
  normalize_network_rule_host raw = Ok h ->
  h <> [] /\ to_ascii_lowercase h = h /\ Forall (fun c => is_whitespace c = false) h /\
  42%N ∉ h /\ 47%N ∉ h /\ 63%N ∉ h /\ 35%N ∉ h.
Proof.
  unfold normalize_network_rule_host. case_bool_decide; [done|].
  destruct (contains_sub _ _ || _ || _ || _) eqn:Hc; [done|].
  apply orb_false_iff in Hc as [[[_ Hc1]%orb_false_iff Hc2]%orb_false_iff Hc3].
  rewrite contains_char_false in Hc1, Hc2, Hc3. intros (h1 & Hs & H1)%result_bind_ok.
  case_bool_decide; [done|]. case_match eqn:Hstar; [done|]. case_match eqn:Hws; [done|]. injection H1 as <-.
  apply contains_char_false in Hstar. split; [done|]. split; [apply lower_idemp|].
  split. { apply Forall_forall. intros c Hin. apply not_true_iff_false. intros Hw.
    apply (eq_true_false_abs _ (proj2 (existsb_exists _ _) (ex_intro _ c (conj (proj1 (list_elem_of_In _ _) Hin) Hw))) Hws). }
  split; [done|]. assert (Hsub : forall c, is_ascii_lower c = false ->
    c ∈ to_ascii_lowercase (trim (trim_end_by (N.eqb 46) h1)) -> c ∈ trim raw).
  { intros c Hl Hin. apply (strip_port_subset _ _ _ Hs), (trim_by_subset (N.eqb 46)), trim_subset. by apply lower_elem. }
  split_and!; intros Hin; apply Hsub in Hin; done.
Qed.

(** A host accepted once may be refused or changed when the policy is read back: the bracket of
    [[[::1]] survives the first normalisation and is an error in the second, so a rule appended for it
    makes the policy file unreadable. *)
Theorem normalize_host_not_idempotent :
  normalize_network_rule_host (lit "[[::1]") = Ok (lit "[::1") /\
  (exists e, normalize_network_rule_host (lit "[::1") = Err e) /\
  normalize_network_rule_host (lit "[h:1]") = Ok (lit "h:1") /\
  normalize_network_rule_host (lit "h:1") = Ok (lit "h").
Proof. split; [reflexivity|]. split; [eexists; reflexivity|]. split; reflexivity. Qed.

Definition demo_rule (prefix : list str) (d : Decision) : Policy :=
  match add_prefix_rule empty_policy prefix d with Ok p => p | Err _ => empty_policy end.

Definition host_resolution : MatchOptions := {| resolve_host_executables := true |}.

(** With host executable resolution, a rule for a program name also decides for a relative path to
    some other program of that name: the name is made absolute with the current directory first, so
    [./git] is allowed by a rule for [git] although only absolute paths are meant to fall back to
    basename rules. *)
Theorem relative_program_matches_basename_rule :
  exists e, @check_with_options None (Some (lit "/w")) Error (demo_rule [lit "git"; lit "status"] Allow)
      [lit "./git"; lit "status"] (fun _ => Prompt) host_resolution = Done e /\
    is_match e = true /\ eval_decision e = Allow.
Proof. eexists. split; [vm_compute; reflexivity|]. split; reflexivity. Qed.

Lemma merge_overlay_never_weakens_witness :
  let base := demo_rule [lit "git"] Prompt in
  let overlay := demo_rule [lit "git"; lit "push"] Allow in
  let cmd := [lit "git"; lit "push"] in
  exists eb em, @check_with_options None None Error base cmd (fun _ => Allow) host_resolution = Done eb /\
    @check_with_options None None Error (merge_overlay base overlay) cmd (fun _ => Allow) host_resolution = Done em /\
    rank (eval_decision eb) <= rank (eval_decision em).
Proof.
  intros base overlay cmd.
  destruct (@check_with_options None None Error base cmd (fun _ => Allow) host_resolution) as [eb|?| |] eqn:He;
    [|vm_compute in He; discriminate He..].
  destruct (@merge_overlay_never_weakens Error None None base overlay cmd (fun _ => Allow) host_resolution eb)
    as (em & Hem & Hle & _).
  - vm_compute. discriminate.
  - exact He.
  - by exists eb, em.
Defined.

Lemma normalized_host_shape_witness :
  normalize_network_rule_host (lit " API.Example.com:443 ") = Ok (lit "api.example.com") /\
  47%N ∉ lit "api.example.com".
Proof.
  split; [reflexivity|].
  apply (normalized_host_shape (lit " API.Example.com:443 ") (lit "api.example.com")). reflexivity.
Defined.

End ExecPolicy.
