(* ===== verification/PolicyFile.v ===== *)
(** * Policy files: execpolicy/src/parser.rs, execpolicy/src/amend.rs

    A policy file is a Starlark program; evaluating it comes down to a sequence of calls of the three
    builtins, which fill a [PolicyBuilder].  The Starlark interpreter is represented by that sequence of
    calls with their arguments, [shlex] by its two functions.  Appending a rule to a policy file is
    modelled on the file's contents; [json_string] is [serde_json::to_string] on strings. *)

From S2P Require Import Prelude Text AbsolutePath ExecPolicy.

Module PolicyFile.
Import AbsolutePath ExecPolicy.

(** A Starlark value: a string, a list, or a value of another type. *)
Inductive Value := VStr (s : str) | VList (l : list Value) | VOther (type_name : str).

Definition get_type (v : Value) : str :=
  match v with VStr _ => lit "string" | VList _ => lit "list" | VOther t => t end.
Definition unpack_str (v : Value) : option str := match v with VStr s => Some s | _ => None end.

(** [codex-rs/execpolicy/src/parser.rs:163-169 PendingExampleValidation] *)
Record PendingExampleValidation := {
  rules : list PrefixRule;
  matches : list (list str);
  not_matches : list (list str);
  location : option ErrorLocation;
}.

(** [codex-rs/execpolicy/src/parser.rs:86-92 PolicyBuilder] *)
Record PolicyBuilder := {
  builder_rules : gmap str (list PrefixRule);
  builder_network_rules : list NetworkRule;
  builder_host_executables : gmap str (list str);
  pending_example_validations : list PendingExampleValidation;
}.

(** [codex-rs/execpolicy/src/parser.rs:95-102 PolicyBuilder::new] *)
Definition new_builder : PolicyBuilder :=
  {| builder_rules := ∅; builder_network_rules := []; builder_host_executables := ∅;
     pending_example_validations := [] |}.

(** [codex-rs/execpolicy/src/parser.rs:104-107 PolicyBuilder::add_rule] *)
Definition add_rule (self : PolicyBuilder) (rule : PrefixRule) : PolicyBuilder :=
  {| builder_rules := multi_insert (program rule) rule (builder_rules self);
     builder_network_rules := builder_network_rules self;
     builder_host_executables := builder_host_executables self;
     pending_example_validations := pending_example_validations self |}.

(** [codex-rs/execpolicy/src/parser.rs:109-111 PolicyBuilder::add_network_rule] *)
Definition builder_add_network_rule (self : PolicyBuilder) (rule : NetworkRule) : PolicyBuilder :=
  {| builder_rules := builder_rules self;
     builder_network_rules := builder_network_rules self ++ [rule];
     builder_host_executables := builder_host_executables self;
     pending_example_validations := pending_example_validations self |}.

(** [codex-rs/execpolicy/src/parser.rs:113-115 PolicyBuilder::add_host_executable] *)
Definition add_host_executable (self : PolicyBuilder) (name : str) (paths : list str) : PolicyBuilder :=
  {| builder_rules := builder_rules self;
     builder_network_rules := builder_network_rules self;
     builder_host_executables := <[name := paths]> (builder_host_executables self);
     pending_example_validations := pending_example_validations self |}.

(** [codex-rs/execpolicy/src/parser.rs:117-131 PolicyBuilder::add_pending_example_validation] *)
Definition add_pending_example_validation (self : PolicyBuilder) (v : PendingExampleValidation) : PolicyBuilder :=
  {| builder_rules := builder_rules self;
     builder_network_rules := builder_network_rules self;
     builder_host_executables := builder_host_executables self;
     pending_example_validations := pending_example_validations self ++ [v] |}.

(** [codex-rs/execpolicy/src/parser.rs:154-160 PolicyBuilder::build] *)
Definition build (self : PolicyBuilder) : Policy :=
  {| rules_by_program := builder_rules self; network_rules := builder_network_rules self;
     host_executables_by_name := builder_host_executables self |}.

(** ** Patterns and examples *)

Definition bad_alternative (v : Value) : Error :=
  InvalidPattern (lit "pattern alternative must be a string (got " ++ get_type v ++ lit ")").

(** [codex-rs/execpolicy/src/parser.rs:184-217 parse_pattern_token] *)
Definition parse_pattern_token (v : Value) : result Error PatternToken :=
  match v with
  | VStr s => Ok (Single s)
  | VList l =>
      tokens ← try_map (fun v => ok_or (unpack_str v) (bad_alternative v)) l;
      match tokens with
      | [] => Err (InvalidPattern (lit "pattern alternatives cannot be empty"))
      | [single] => Ok (Single single)
      | _ => Ok (Alts tokens)
      end
  | VOther _ => Err (InvalidPattern
      (lit "pattern element must be a string or list of strings (got " ++ get_type v ++ lit ")"))
  end.

(** [codex-rs/execpolicy/src/parser.rs:171-182 parse_pattern] *)
Definition parse_pattern (items : list Value) : result Error (list PatternToken) :=
  tokens ← try_map parse_pattern_token items;
  match tokens with [] => Err (InvalidPattern (lit "pattern cannot be empty")) | _ => Ok tokens end.

Section Parser.
Context (shlex_split : str -> option (list str)) (shlex_join : list str -> option str).
Context (home_dir current_dir : option str).

(** [codex-rs/execpolicy/src/parser.rs:297-309 parse_string_example] *)
Definition parse_string_example (raw : str) : result Error (list str) :=
  tokens ← ok_or (shlex_split raw) (InvalidExample (lit "example string has invalid shell syntax"));
  match tokens with
  | [] => Err (InvalidExample (lit "example cannot be an empty string"))
  | _ => Ok tokens
  end.

Definition bad_token (v : Value) : Error :=
  InvalidExample (lit "example tokens must be strings (got " ++ get_type v ++ lit ")").

(** [codex-rs/execpolicy/src/parser.rs:311-335 parse_list_example] *)
Definition parse_list_example (l : list Value) : result Error (list str) :=
  tokens ← try_map (fun v => ok_or (unpack_str v) (bad_token v)) l;
  match tokens with
  | [] => Err (InvalidExample (lit "example cannot be an empty list"))
  | _ => Ok tokens
  end.

(** [codex-rs/execpolicy/src/parser.rs:284-295 parse_example] *)
Definition parse_example (v : Value) : result Error (list str) :=
  match v with
  | VStr raw => parse_string_example raw
  | VList l => parse_list_example l
  | VOther _ => Err (InvalidExample
      (lit "example must be a string or list of strings (got " ++ get_type v ++ lit ")"))
  end.

(** [codex-rs/execpolicy/src/parser.rs:219-221 parse_examples] *)
Definition parse_examples (items : list Value) : result Error (list (list str)) := try_map parse_example items.

(** An optional argument that is a list of examples. *)
Definition optional_examples (items : option (list Value)) : result Error (list (list str)) :=
  match items with Some l => parse_examples l | None => Ok [] end.

(** [codex-rs/execpolicy/src/parser.rs:223-232 parse_literal_absolute_path] *)
Definition parse_literal_absolute_path (raw : str) : result Error str :=
  if negb (is_absolute raw)
  then Err (InvalidRule (lit "host_executable paths must be absolute (got " ++ raw ++ lit ")"))
  else map_err (fun e => InvalidRule (lit "invalid absolute path `" ++ raw ++ lit "`: " ++ e))
         (from_absolute_path home_dir current_dir raw).

(** [codex-rs/execpolicy/src/parser.rs:234-251 validate_host_executable_name] *)
Definition validate_host_executable_name (name : str) : result Error unit :=
  if bool_decide (name = []) then Err (InvalidRule (lit "host_executable name cannot be empty"))
  else if negb (length (components name) =? 1) || negb (bool_decide (file_name name = Some name))
  then Err (InvalidRule (lit "host_executable name must be a bare executable name (got " ++ name ++ lit ")"))
  else Ok tt.

(** [codex-rs/execpolicy/src/parser.rs:253-258 parse_network_rule_decision] *)
Definition parse_network_rule_decision (raw : str) : result Error Decision :=
  if bool_decide (raw = lit "deny") then Ok Forbidden else parse_decision raw.

(** ** Examples *)

(** [codex-rs/execpolicy/src/error.rs:54-76 Error::with_location] *)
Definition with_location (e : Error) (l : ErrorLocation) : Error :=
  match e with
  | ExampleDidNotMatch rules examples None => ExampleDidNotMatch rules examples (Some l)
  | ExampleDidMatch rule example None => ExampleDidMatch rule example (Some l)
  | other => other
  end.

(** [codex-rs/execpolicy/src/parser.rs:277-282 attach_validation_location] *)
Definition attach_validation_location (e : Error) (l : option ErrorLocation) : Error :=
  match l with Some l => with_location e l | None => e end.

Definition render_example (example : list str) : str :=
  default (lit "unable to render example") (shlex_join example).

Definition example_matches (policy : Policy) (example : list str) : list RuleMatch :=
  matches_for_command_with_options home_dir current_dir policy example None
    {| resolve_host_executables := true |}.

(** [codex-rs/execpolicy/src/rule.rs:246-279 validate_match_examples] *)
Definition validate_match_examples (policy : Policy) (rs : list PrefixRule) (examples : list (list str))
    : result Error unit :=
  let unmatched := filter (fun example => example_matches policy example = []) examples in
  match unmatched with
  | [] => Ok tt
  | _ => Err (ExampleDidNotMatch rs (render_example <$> unmatched) None)
  end.

(** [codex-rs/execpolicy/src/rule.rs:282-306 validate_not_match_examples] *)
Fixpoint validate_not_match_examples (policy : Policy) (not_matches : list (list str)) : result Error unit :=
  match not_matches with
  | [] => Ok tt
  | example :: rest =>
      match example_matches policy example with
      | rule :: _ => Err (ExampleDidMatch rule (render_example example) None)
      | [] => validate_not_match_examples policy rest
      end
  end.

(** [codex-rs/execpolicy/src/parser.rs:134-149 PolicyBuilder::validate_pending_examples_from] one
    validation, against the rules of its own call. *)
Definition validate_one (hosts : gmap str (list str)) (v : PendingExampleValidation) : result Error unit :=
  let policy := {| rules_by_program := foldl (fun m r => multi_insert (program r) r m) ∅ (rules v);
                   network_rules := []; host_executables_by_name := hosts |} in
  _ ← map_err (fun e => attach_validation_location e (location v))
        (validate_not_match_examples policy (not_matches v));
  map_err (fun e => attach_validation_location e (location v))
    (validate_match_examples policy (rules v) (matches v)).

(** [codex-rs/execpolicy/src/parser.rs:133-152 PolicyBuilder::validate_pending_examples_from] the slice
    [start..] panics beyond the end. *)
Definition validate_pending_examples_from (self : PolicyBuilder) (start : nat) : run Error unit :=
  pending ← slice_from (pending_example_validations self) start;
  try_ (try_fold (fun _ v => validate_one (builder_host_executables self) v) pending tt).

(** ** The builtins *)

Definition checked_justification (j : option str) : result Error (option str) :=
  if blank j then Err (InvalidRule (lit "justification cannot be empty")) else Ok j.

(** [codex-rs/execpolicy/src/parser.rs:349-408 prefix_rule] the location is that of the call. *)
Definition prefix_rule (pat : list Value) (dec : option str) (match_ not_match : option (list Value))
    (just : option str) (loc : option ErrorLocation) (b : PolicyBuilder) : result Error PolicyBuilder :=
  d ← match dec with Some raw => parse_decision raw | None => Ok Allow end;
  j ← checked_justification just;
  pattern_tokens ← parse_pattern pat;
  ms ← optional_examples match_;
  nms ← optional_examples not_match;
  match pattern_tokens with
  | [] => Err (InvalidPattern (lit "pattern cannot be empty"))
  | first_token :: remaining_tokens =>
      let rs := (fun head => {| pattern := {| first := head; rest := remaining_tokens |};
                                decision := d; justification := j |}) <$> alternatives first_token in
      let b := add_pending_example_validation b
                 {| rules := rs; matches := ms; not_matches := nms; location := loc |} in
      Ok (foldl add_rule b rs)
  end.

(** [codex-rs/execpolicy/src/parser.rs:410-435 network_rule] *)
Definition network_rule (h p d : str) (just : option str) (b : PolicyBuilder) : result Error PolicyBuilder :=
  p ← parse_protocol p;
  d ← parse_network_rule_decision d;
  j ← checked_justification just;
  h ← normalize_network_rule_host h;
  Ok (builder_add_network_rule b {| host := h; protocol := p; net_decision := d; net_justification := j |}).

(** [codex-rs/execpolicy/src/parser.rs:445-468 host_executable] one path of the list. *)
Definition host_path_step (name : str) (parsed : list str) (v : Value) : result Error (list str) :=
  match unpack_str v with
  | None => Err (InvalidRule (lit "host_executable paths must be strings (got " ++ get_type v ++ lit ")"))
  | Some raw =>
      path ← parse_literal_absolute_path raw;
      let wrong := InvalidRule (lit "host_executable path `" ++ raw ++ lit "` must have basename `" ++ name ++ lit "`") in
      match executable_path_lookup_key path with
      | None => Err wrong
      | Some path_name =>
          if negb (bool_decide (path_name = executable_lookup_key name)) then Err wrong
          else if existsb (fun existing => bool_decide (existing = path)) parsed then Ok parsed
          else Ok (parsed ++ [path])
      end
  end.

(** [codex-rs/execpolicy/src/parser.rs:437-472 host_executable] *)
Definition host_executable (name : str) (paths : list Value) (b : PolicyBuilder) : result Error PolicyBuilder :=
  _ ← validate_host_executable_name name;
  parsed_paths ← try_fold (host_path_step name) paths [];
  Ok (add_host_executable b (executable_lookup_key name) parsed_paths).

(** A call made while the file is evaluated. *)
Inductive Call :=
| PrefixRuleCall (pat : list Value) (dec : option str) (match_ not_match : option (list Value))
    (just : option str) (loc : option ErrorLocation)
| NetworkRuleCall (h p d : str) (just : option str)
| HostExecutableCall (name : str) (paths : list Value).

Definition run_call (b : PolicyBuilder) (c : Call) : result Error PolicyBuilder :=
  match c with
  | PrefixRuleCall pat dec m nm just loc => prefix_rule pat dec m nm just loc b
  | NetworkRuleCall h p d just => network_rule h p d just b
  | HostExecutableCall name paths => host_executable name paths b
  end.

(** [codex-rs/execpolicy/src/parser.rs:57-79 PolicyParser::parse] for a file whose evaluation makes the
    given calls. *)
Definition parse (b : PolicyBuilder) (calls : list Call) : run Error PolicyBuilder :=
  let pending_validation_count := length (pending_example_validations b) in
  b ← try_ (map_err Starlark (try_fold run_call calls b));
  _ ← validate_pending_examples_from b pending_validation_count;
  Done b.

End Parser.

(** ** Appending rules *)

(** [codex-rs/execpolicy/src/amend.rs:147-193 append_locked_line] the new contents of the file. *)
Definition append_locked_line (contents line : str) : str :=
  if existsb (fun existing => bool_decide (existing = line)) (lines contents) then contents
  else (if negb (bool_decide (contents = [])) && negb (ends_with [NL] contents) then contents ++ [NL] else contents)
       ++ line ++ [NL].

Section Amend.
Context (json_string : str -> str).

(** [codex-rs/execpolicy/src/amend.rs:65-81 blocking_append_allow_prefix_rule] [None] is
    [EmptyPrefix]. *)
Definition blocking_append_allow_prefix_rule (contents : str) (prefix : list str) : option str :=
  match prefix with
  | [] => None
  | _ =>
      let pattern := lit "[" ++ join (lit ", ") (json_string <$> prefix) ++ lit "]" in
      let rule := lit "prefix_rule(pattern=" ++ pattern ++ lit ", decision=" ++ [34%N] ++ lit "allow" ++ [34%N] ++ lit ")" in
      Some (append_locked_line contents rule)
  end.

(** [codex-rs/execpolicy/src/amend.rs:85-125 blocking_append_network_rule] *)
Definition blocking_append_network_rule (contents raw : str) (p : NetworkRuleProtocol) (d : Decision)
    (just : option str) : result Error str :=
  h ← normalize_network_rule_host raw;
  if blank just then Err (InvalidRule (lit "justification cannot be empty"))
  else
    let decision := json_string match d with
      | Allow => lit "allow" | Prompt => lit "prompt" | Forbidden => lit "deny" end in
    let args := [lit "host=" ++ json_string h; lit "protocol=" ++ json_string (as_policy_string p);
                 lit "decision=" ++ decision] ++
                match just with Some j => [lit "justification=" ++ json_string j] | None => [] end in
    Ok (append_locked_line contents (lit "network_rule(" ++ join (lit ", ") args ++ lit ")")).

End Amend.
(** ** Registered rules *)

Lemma multi_insert_elem k r m k' r' :
  r' ∈ default [] (multi_insert k r m !! k') <-> r' ∈ default [] (m !! k') \/ (k' = k /\ r' = r).
Proof.
  unfold multi_insert. destruct (decide (k' = k)) as [->|Hne].
  - rewrite lookup_insert_eq. simpl. set_solver.
  - rewrite lookup_insert_ne by done. naive_solver.
Qed.

Lemma multi_insert_all_elem rs m k' r' :
  r' ∈ default [] (foldl (fun m r => multi_insert (program r) r m) m rs !! k') <->
  r' ∈ default [] (m !! k') \/ (r' ∈ rs /\ program r' = k').
Proof.
  revert m; induction rs as [|r rs IH]; intros m; simpl; [set_solver|].
  rewrite IH, multi_insert_elem, elem_of_cons. naive_solver.
Qed.

Lemma add_rules_rules rs b :
  builder_rules (foldl add_rule b rs) = foldl (fun m r => multi_insert (program r) r m) (builder_rules b) rs.
Proof. revert b; induction rs as [|r rs IH]; intros b; simpl; [done|]. by rewrite IH. Qed.

Lemma add_rules_pending rs b :
  pending_example_validations (foldl add_rule b rs) = pending_example_validations b.
Proof. revert b; induction rs as [|r rs IH]; intros b; simpl; [done|]. by rewrite IH. Qed.

(** Every rule awaiting validation is registered. *)
Definition pending_registered (b : PolicyBuilder) : Prop :=
  forall v r, v ∈ pending_example_validations b -> r ∈ rules v -> r ∈ default [] (builder_rules b !! program r).

Section Validated.
Context (shlex_split : str -> option (list str)) (shlex_join : list str -> option str).
Context (home_dir current_dir : option str).

Lemma prefix_rule_inv pat dec m nm just loc b b' :
  prefix_rule shlex_split pat dec m nm just loc b = Ok b' ->
  exists d j tok toks ms nms, parse_pattern pat = Ok (tok :: toks) /\
    match dec with Some raw => parse_decision raw | None => Ok Allow end = Ok d /\
    let rs := (fun head => {| pattern := {| first := head; rest := toks |};
                              decision := d; justification := j |}) <$> alternatives tok in
    b' = foldl add_rule (add_pending_example_validation b
           {| rules := rs; matches := ms; not_matches := nms; location := loc |}) rs.
Proof.
  unfold prefix_rule. intros (d & Hd & H)%result_bind_ok. apply result_bind_ok in H as (j & _ & H).
  apply result_bind_ok in H as (ts & Hts & H). apply result_bind_ok in H as (ms & _ & H).
  apply result_bind_ok in H as (nms & _ & H). destruct ts as [|tok toks]; [done|]. injection H as <-.
  by exists d, j, tok, toks, ms, nms.
Qed.

Lemma run_call_registered b c b' :
  pending_registered b -> run_call shlex_split home_dir current_dir b c = Ok b' -> pending_registered b'.
Proof.
  intros Hb. destruct c as [pat dec m nm just loc|h p d just|name paths]; simpl.
  - intros (d & j & tok & toks & ms & nms & _ & _ & ->)%prefix_rule_inv v r.
    rewrite add_rules_pending, add_rules_rules, multi_insert_all_elem. simpl.
    intros [Hv| ->%list_elem_of_singleton]%elem_of_app Hr; [left; by eapply Hb | by right].
  - intros (? & _ & H)%result_bind_ok. apply result_bind_ok in H as (? & _ & H).
    apply result_bind_ok in H as (? & _ & H). by apply result_bind_ok in H as (? & _ & [= <-]).
  - intros (? & _ & H)%result_bind_ok. by apply result_bind_ok in H as (? & _ & [= <-]).
Qed.

Lemma run_calls_registered calls b b' :
  pending_registered b -> try_fold (run_call shlex_split home_dir current_dir) calls b = Ok b' ->
  pending_registered b'.
Proof.
  revert b; induction calls as [|c calls IH]; intros b Hb; simpl; [by intros [= <-]|].
  intros (b1 & H1 & H)%result_bind_ok. eapply IH; [by eapply run_call_registered | done].
Qed.

(** The policy made of the rules of one call only. *)
Definition own_policy (hosts : gmap str (list str)) (rs : list PrefixRule) : Policy :=
  {| rules_by_program := foldl (fun m r => multi_insert (program r) r m) ∅ rs;
     network_rules := []; host_executables_by_name := hosts |}.

Lemma not_match_ok policy nms :
  validate_not_match_examples shlex_join home_dir current_dir policy nms = Ok tt ->
  Forall (fun ex => example_matches home_dir current_dir policy ex = []) nms.
Proof.
  induction nms as [|ex nms IH]; simpl; [constructor|].
  destruct (example_matches home_dir current_dir policy ex) eqn:E; [|done]. intros H. constructor; auto.
Qed.

Lemma match_ok policy rs ms :
  validate_match_examples shlex_join home_dir current_dir policy rs ms = Ok tt ->
  Forall (fun ex => example_matches home_dir current_dir policy ex <> []) ms.
Proof.
  unfold validate_match_examples.
  destruct (filter (fun ex => example_matches home_dir current_dir policy ex = []) ms) eqn:E; [|done].
  intros _. apply Forall_forall. intros ex Hex Hno.
  assert (Hin : ex ∈ filter (fun ex => example_matches home_dir current_dir policy ex = []) ms).
  { by apply list_elem_of_filter. }
  rewrite E in Hin. set_solver.
Qed.

Lemma validate_one_ok hosts v :
  validate_one shlex_join home_dir current_dir hosts v = Ok tt ->
  Forall (fun ex => example_matches home_dir current_dir (own_policy hosts (rules v)) ex <> []) (matches v) /\
  Forall (fun ex => example_matches home_dir current_dir (own_policy hosts (rules v)) ex = []) (not_matches v).
Proof.
  unfold validate_one. intros ([] & Hn & Hm)%result_bind_ok.
  apply map_err_ok in Hn, Hm. split; [by eapply match_ok | by eapply not_match_ok].
Qed.

Lemma validate_all_ok hosts vs :
  try_fold (fun _ v => validate_one shlex_join home_dir current_dir hosts v) vs tt = Ok tt ->
  Forall (fun v => validate_one shlex_join home_dir current_dir hosts v = Ok tt) vs.
Proof.
  induction vs as [|v vs IH]; simpl; [constructor|]. intros ([] & Hv & H)%result_bind_ok. constructor; auto.
Qed.

Lemma example_matches_cases policy c0 args :
  example_matches home_dir current_dir policy (c0 :: args) =
  match omap (rule_matches (c0 :: args)) (default [] (rules_by_program policy !! c0)) with
  | [] => match_host_executable_rules home_dir current_dir policy (c0 :: args)
  | ms => ms
  end.
Proof.
  unfold example_matches, matches_for_command_with_options, match_exact_rules.
  cbn [head mbind option_bind default resolve_host_executables].
  destruct (omap _ _); [|done]. by destruct (match_host_executable_rules _ _ _ _).
Qed.

(** More rules never lose a match: if the rules of one call match a command, possibly through its
    basename, then so does any policy that contains them. *)
Lemma own_matches_kept (policy : Policy) rs ex :
  (forall r, r ∈ rs -> r ∈ default [] (rules_by_program policy !! program r)) ->
  example_matches home_dir current_dir (own_policy (host_executables_by_name policy) rs) ex <> [] ->
  example_matches home_dir current_dir policy ex <> [].
Proof.
  intros Hreg. destruct ex as [|c0 args]; [done|].
  assert (Hsub : forall k r, r ∈ default [] (rules_by_program (own_policy (host_executables_by_name policy) rs) !! k) ->
                 r ∈ default [] (rules_by_program policy !! k)).
  { intros k r. simpl. rewrite multi_insert_all_elem, lookup_empty. intros [H|[Hr <-]]; [set_solver | auto]. }
  assert (Hne : forall k cmd, omap (rule_matches cmd)
      (default [] (rules_by_program (own_policy (host_executables_by_name policy) rs) !! k)) <> [] ->
      omap (rule_matches cmd) (default [] (rules_by_program policy !! k)) <> []).
  { intros k cmd H Hno. destruct (omap _ _) as [|m ms] eqn:E; [done|].
    assert (Hm : m ∈ m :: ms) by set_solver. rewrite <- E in Hm.
    apply list_elem_of_omap in Hm as (r & Hr & Hrm). apply Hsub in Hr.
    assert (Hin : m ∈ omap (rule_matches cmd) (default [] (rules_by_program policy !! k)))
      by (apply list_elem_of_omap; eauto).
    rewrite Hno in Hin. set_solver. }
  rewrite !example_matches_cases. intros Hown.
  destruct (omap (rule_matches (c0 :: args)) (default [] (rules_by_program policy !! c0))) eqn:Ef; [|done].
  destruct (omap (rule_matches (c0 :: args)) (default [] (rules_by_program (own_policy _ rs) !! c0))) eqn:Eo.
  2:{ exfalso. apply (Hne c0 (c0 :: args)); [by rewrite Eo | done]. }
  clear Ef Eo. unfold match_host_executable_rules in *. destruct (from_absolute_path _ _ c0) as [prog|]; [|done].
  destruct (executable_path_lookup_key prog) as [base|]; [|done]. specialize (Hne base (base :: args)).
  destruct (rules_by_program (own_policy _ rs) !! base) as [l|]; [|done].
  change (host_executables_by_name (own_policy _ rs)) with (host_executables_by_name policy) in Hown.
  set (excluded := match host_executables_by_name policy !! base with Some _ => _ | None => _ end) in *.
  assert (Hpol : omap (rule_matches (base :: args)) (default [] (rules_by_program policy !! base)) <> []).
  { apply Hne. intros Hno. simpl in Hno. rewrite Hno in Hown. by destruct excluded. }
  destruct (rules_by_program policy !! base) as [l'|]; [|done]. simpl in Hpol.
  destruct excluded; [done|]. by destruct (omap _ l').
Qed.

(** The examples of a policy file that loads are honoured: every positive example of a rule is
    matched by the policy that was built, and no negative example is matched by the rules of its own
    call. *)
Theorem loaded_examples_hold calls b :
  parse shlex_split shlex_join home_dir current_dir new_builder calls = Done b ->
  forall v, v ∈ pending_example_validations b ->
    (forall ex, ex ∈ matches v -> example_matches home_dir current_dir (build b) ex <> []) /\
    (forall ex, ex ∈ not_matches v ->
       example_matches home_dir current_dir (own_policy (host_executables_by_name (build b)) (rules v)) ex = []).
Proof.
  unfold parse. intros (b1 & Hb1 & H)%run_bind_done. apply run_bind_done in H as ([] & Hval & [= <-]).
  apply try_done, map_err_ok in Hb1. apply run_calls_registered in Hb1 as Hreg; [|intros v r; set_solver].
  apply run_bind_done in Hval as (pend & Hp & Hval). apply slice_from_done in Hp as [_ ->].
  apply try_done, validate_all_ok in Hval. rewrite drop_0 in Hval. rewrite Forall_forall in Hval.
  intros v Hv. destruct (validate_one_ok _ _ (Hval v Hv)) as [Hm Hn]. rewrite Forall_forall in Hm, Hn.
  split; [|done]. intros ex Hex. apply (own_matches_kept (build b1) (rules v)); [|by apply Hm].
  intros r Hr. by apply (Hreg v).
Qed.

End Validated.

Lemma exact_matches_elem policy c0 args m :
  m ∈ default [] (match_exact_rules policy (c0 :: args)) <->
  exists r, r ∈ default [] (rules_by_program policy !! c0) /\ rule_matches (c0 :: args) r = Some m.
Proof.
  unfold match_exact_rules. simpl. by rewrite list_elem_of_omap.
Qed.

(** A rule of a policy file means what it says: the rules it registers match exactly the commands
    that begin with one alternative of each element of the pattern, the first one included, and all
    carry the declared decision, allow by default. *)
Theorem prefix_rule_denotes_pattern shlex_split pat dec m nm just loc b :
  prefix_rule shlex_split pat dec m nm just loc new_builder = Ok b ->
  exists toks d, parse_pattern pat = Ok toks /\
    match dec with Some raw => parse_decision raw = Ok d | None => d = Allow end /\
    forall cmd,
      (default [] (match_exact_rules (build b) cmd) <> [] <->
         exists ts tail, cmd = ts ++ tail /\ Forall2 (fun q t => t ∈ alternatives q) toks ts) /\
      (forall mt, mt ∈ default [] (match_exact_rules (build b) cmd) -> match_decision mt = d).
Proof.
  intros (d & j & tok & toks & ms & nms & Hpat & Hdec & Hb)%prefix_rule_inv.
  exists (tok :: toks), d. split; [done|]. split; [destruct dec; naive_solver|].
  intros [|c0 args].
  { split; [|set_solver]. split; [done|]. intros ([|] & tail & Heq & Hf); [by inversion Hf | done]. }
  assert (Hreg : forall r, r ∈ default [] (rules_by_program (build b) !! c0) <->
    r = {| pattern := {| first := c0; rest := toks |}; decision := d; justification := j |} /\ c0 ∈ alternatives tok).
  { intros r. rewrite Hb. cbn [build rules_by_program]. rewrite add_rules_rules, multi_insert_all_elem. simpl.
    rewrite lookup_empty, list_elem_of_fmap. split.
    - intros [H|[(h & -> & Hh) <-]]; [set_solver | done].
    - intros [-> Hc]. right. eauto. }
  split.
  - transitivity (exists mt, mt ∈ default [] (match_exact_rules (build b) (c0 :: args))).
    { generalize (default [] (match_exact_rules (build b) (c0 :: args))). intros [|mt mts].
      - split; [done|]. by intros [mt ?%not_elem_of_nil].
      - split; [|done]. intros _. exists mt. by left. }
    setoid_rewrite exact_matches_elem. setoid_rewrite Hreg. split.
    + intros (mt & r & [-> Hc] & Hm). apply bind_Some in Hm as (p & Hp & _).
      apply matches_prefix_Some in Hp as (ts & tail & [= ->] & _ & Hf). simpl in Hf.
      exists (c0 :: ts), tail. split; [done | by constructor].
    + intros (ts & tail & Heq & Hf). inversion Hf as [|? t ? ts' Ht Hts]; subst. injection Heq as -> ->.
      eexists _, _. split; [by split|]. unfold rule_matches. simpl.
      rewrite (proj2 (matches_prefix_Some {| first := t; rest := toks |} (t :: ts' ++ tail) (t :: ts'))) by eauto.
      done.
  - intros mt (r & [-> _]%Hreg & Hm)%exact_matches_elem. by apply bind_Some in Hm as (p & _ & [= <-]).
Qed.

(** Appending a rule keeps every line of the policy file, makes the rule one of its lines, and does
    nothing when it is there already; in particular appending it twice is appending it once. *)
Theorem append_line_idempotent contents line :
  NL ∉ line -> last line <> Some CR -> last contents <> Some CR ->
  let contents' := append_locked_line contents line in
  lines contents `prefix_of` lines contents' /\ line ∈ lines contents' /\
  append_locked_line contents' line = contents'.
Proof.
  intros Hnl Hcr Hc contents'.
  assert (Hgoal : lines contents `prefix_of` lines contents' /\ line ∈ lines contents').
  { subst contents'. unfold append_locked_line. destruct (existsb _ (lines contents)) eqn:Hex.
    - split; [done|]. apply existsb_exists in Hex as (l & Hin & ->%bool_decide_eq_true). by apply list_elem_of_In.
    - pose proof (lines_cons line [] Hnl Hcr) as Hline.
      assert (Hbase : exists base, (base = [] \/ exists u, base = u ++ [NL]) /\ lines base = lines contents /\
        (if negb (bool_decide (contents = [])) && negb (ends_with [NL] contents) then contents ++ [NL] else contents) = base).
      { destruct (decide (contents = [])) as [->|Hne]; [exists []; auto|].
        rewrite bool_decide_false by done. simpl. unfold ends_with.
        destruct (strip_suffix [NL] contents) as [u|] eqn:Hs; simpl.
        - exists contents. split_and!; [|done|done]. right. exists u. by apply strip_suffix_Some.
        - exists (contents ++ [NL]). split_and!; [right; by eexists| |done]. apply lines_complete; [done| |done]. intros Hl.
          apply last_snoc_inv in Hl as [u ->]. by eapply strip_suffix_None. }
      destruct Hbase as (base & Hend & <- & ->).
      assert (lines (base ++ line ++ [NL]) = lines base ++ [line]) as ->.
      { destruct Hend as [->|[u ->]]; [exact Hline|]. rewrite <- app_assoc. simpl. by rewrite lines_app_nl, Hline. }
      split; [by apply prefix_app_r | set_solver]. }
  destruct Hgoal as [Hpre Hin]. split; [done|]. split; [done|]. unfold append_locked_line at 1.
  rewrite (proj2 (existsb_exists _ _)); [done|]. exists line. split; [by apply list_elem_of_In|].
  by apply bool_decide_eq_true.
Qed.

Lemma host_path_step_ok hd cd name parsed v parsed' :
  host_path_step hd cd name parsed v = Ok parsed' ->
  NoDup parsed /\ Forall (fun p => normal_form p /\ file_name p = Some name) parsed ->
  NoDup parsed' /\ Forall (fun p => normal_form p /\ file_name p = Some name) parsed'.
Proof.
  unfold host_path_step. destruct (unpack_str v) as [raw|]; [|done]. intros (path & Hp & H)%result_bind_ok [Hnd Hf].
  unfold parse_literal_absolute_path in Hp. destruct (is_absolute raw) eqn:Ha; [|done]. simpl in Hp.
  unfold from_absolute_path, absolutize in Hp. rewrite expand_absolute, Ha in Hp by done. injection Hp as <-.
  unfold executable_path_lookup_key, executable_lookup_key in H.
  destruct (file_name (normalize_path raw)) as [n|] eqn:Hn; simpl in H; [|done].
  case_bool_decide; [|done]. subst n. simpl in H. destruct (existsb _ parsed) eqn:Hex; injection H as <-; [done|].
  rewrite Forall_snoc. split_and!; [|done| |done].
  - apply NoDup_app. split_and!; [done| |apply NoDup_singleton]. intros p Hin ->%list_elem_of_singleton.
    apply not_true_iff_false in Hex. apply Hex, existsb_exists. exists (normalize_path raw).
    split; [by apply list_elem_of_In | by apply bool_decide_eq_true].
  - destruct (normalize_absolute raw Ha) as [-> Hok]. by eexists.
Qed.

(** The paths kept for a host executable are absolute and in normal form, without duplicates, and
    each ends in the declared name; anything else is refused. *)
Theorem host_executable_paths_checked home_dir current_dir name paths b b' :
  host_executable home_dir current_dir name paths b = Ok b' ->
  exists l, builder_host_executables b' = <[name := l]> (builder_host_executables b) /\
    NoDup l /\ Forall (fun p => normal_form p /\ file_name p = Some name) l.
Proof.
  unfold host_executable. intros (? & _ & H)%result_bind_ok. apply result_bind_ok in H as (l & Hl & [= <-]).
  exists l. split; [done|]. clear -Hl. assert (H0 : NoDup ([] : list str) /\
    Forall (fun p => normal_form p /\ file_name p = Some name) []) by (split; constructor).
  revert H0 Hl. generalize (@nil str) as acc. induction paths as [|v vs IH]; intros acc H0; simpl; [by intros [= <-]|].
  intros (acc' & Hacc & H)%result_bind_ok. eapply IH; [|done]. by eapply host_path_step_ok.
Qed.

(** ** Witnesses *)

Definition demo_calls : list Call :=
  [PrefixRuleCall [VList [VStr (lit "git"); VStr (lit "hg")]; VStr (lit "status")] None
     (Some [VList [VStr (lit "hg"); VStr (lit "status"); VStr (lit "-q")]])
     (Some [VList [VStr (lit "git"); VStr (lit "push")]]) None None].

Lemma loaded_examples_hold_witness :
  exists b v, parse (fun _ => None) (fun _ => None) None None new_builder demo_calls = Done b /\
    v ∈ pending_example_validations b /\
    example_matches None None (build b) [lit "hg"; lit "status"; lit "-q"] <> [].
Proof.
  destruct (parse (fun _ => None) (fun _ => None) None None new_builder demo_calls) as [b|?| |] eqn:H;
    [|vm_compute in H; discriminate H..].
  pose proof (loaded_examples_hold (fun _ => None) (fun _ => None) None None demo_calls b H) as Hl.
  assert (Hv : exists v, pending_example_validations b = [v] /\ matches v = [[lit "hg"; lit "status"; lit "-q"]]).
  { vm_compute in H. injection H as <-. by eexists. }
  destruct Hv as (v & Hb & Hm). exists b, v. split; [done|]. rewrite Hb in *. split; [set_solver|].
  apply (Hl v); [set_solver|]. rewrite Hm. set_solver.
Defined.

Lemma prefix_rule_denotes_pattern_witness :
  exists b toks d, prefix_rule (fun _ => None) [VStr (lit "ls")] (Some (lit "prompt")) None None None None new_builder = Ok b /\
    parse_pattern [VStr (lit "ls")] = Ok toks /\ d = Prompt /\
    (default [] (match_exact_rules (build b) [lit "ls"; lit "-l"]) <> [] <->
       exists ts tail, [lit "ls"; lit "-l"] = ts ++ tail /\ Forall2 (fun q t => t ∈ alternatives q) toks ts).
Proof.
  eexists. destruct (prefix_rule_denotes_pattern (fun _ => None) [VStr (lit "ls")] (Some (lit "prompt")) None None
    None None _ eq_refl) as (toks & d & Ht & Hd & Hall).
  exists toks, d. split; [reflexivity|]. split; [done|]. split; [by injection Hd|].
  exact (proj1 (Hall [lit "ls"; lit "-l"])).
Defined.

Lemma append_line_idempotent_witness :
  lit "b" ∈ lines (append_locked_line (lit "a") (lit "b")).
Proof.
  refine (proj1 (proj2 (append_line_idempotent (lit "a") (lit "b") _ _ _))).
  - vm_compute. set_solver.
  - discriminate.
  - discriminate.
Defined.

Lemma host_executable_paths_checked_witness :
  exists b l, host_executable None None (lit "git") [VStr (lit "/usr//bin/git")] new_builder = Ok b /\
    builder_host_executables b = <[lit "git" := l]> ∅ /\ l = [lit "/usr/bin/git"] /\ NoDup l.
Proof.
  eexists. destruct (host_executable_paths_checked None None (lit "git") [VStr (lit "/usr//bin/git")] new_builder _ eq_refl)
    as (l & Hb & Hnd & _).
  exists l. split; [reflexivity|]. split; [exact Hb|]. split; [|exact Hnd].
  apply (f_equal (fun m => m !! lit "git")) in Hb. rewrite lookup_insert_eq in Hb. vm_compute in Hb. by injection Hb.
Defined.

End PolicyFile.
