(* ===== verification/LegacyArgs.v ===== *)
(** * Argument patterns of the legacy exec policy: execpolicy-legacy/src

    Argument types and matchers, and the resolver that assigns the positional arguments of a command to
    the patterns of a program.  The reference is [assigned], a declarative matching of patterns against
    arguments. *)

From S2P Require Import Prelude Text.

Module LegacyArgs.

(** ** Data *)

(** [codex-rs/execpolicy-legacy/src/arg_matcher.rs:17-49 ArgMatcher] *)
Inductive ArgMatcher :=
| MLiteral (s : str)
| MOpaqueNonFile
| MReadableFile
| MWriteableFile
| MReadableFiles
| MReadableFilesOrCwd
| MPositiveInteger
| MSedCommand
| MUnverifiedVarargs.

(** [codex-rs/execpolicy-legacy/src/arg_matcher.rs:81-85 ArgMatcherCardinality] *)
Inductive ArgMatcherCardinality := One | AtLeastOne | ZeroOrMore.

(** [codex-rs/execpolicy-legacy/src/arg_type.rs:13-29 ArgType] *)
Inductive ArgType :=
| TLiteral (s : str)
| TOpaqueNonFile
| TReadableFile
| TWriteableFile
| TPositiveInteger
| TSedCommand
| TUnknown.

(** [codex-rs/execpolicy-legacy/src/arg_resolver.rs:9-13 PositionalArg] *)
Record PositionalArg := { arg_index : nat; arg_value : str }.

(** [codex-rs/execpolicy-legacy/src/valid_exec.rs:39-44 MatchedArg] *)
Record MatchedArg := { ma_index : nat; ma_type : ArgType; ma_value : str }.

(** [codex-rs/execpolicy-legacy/src/error.rs:12-96 Error] *)
Inductive Error :=
| NoSpecForProgram (program : str)
| OptionMissingValue (program option_ : str)
| OptionFollowedByOptionInsteadOfValue (program option_ value : str)
| UnknownOption (program option_ : str)
| UnexpectedArguments (program : str) (args : list PositionalArg)
| DoubleDashNotSupportedYet (program : str)
| MultipleVarargPatterns (program : str) (first_ second : ArgMatcher)
| RangeStartExceedsEnd (start end_ : nat)
| RangeEndOutOfBounds (end_ len : nat)
| PrefixOverlapsSuffix
| NotEnoughArgs (program : str) (args : list PositionalArg) (arg_patterns : list ArgMatcher)
| InternalInvariantViolation (message : str)
| VarargMatcherDidNotMatchAnything (program : str) (matcher : ArgMatcher)
| EmptyFileName
| LiteralValueDidNotMatch (expected actual : str)
| InvalidPositiveInteger (value : str)
| MissingRequiredOptions (program : str) (options : list str)
| SedCommandNotProvablySafe (command : str)
| ReadablePathNotInReadableFolders (file : str) (folders : list str)
| WriteablePathNotInWriteableFolders (file : str) (folders : list str)
| CannotCheckRelativePath (file : str)
| CannotCanonicalizePath (file error : str).

(** ** Matchers and types *)

(** [codex-rs/execpolicy-legacy/src/arg_matcher.rs:51-64 ArgMatcher::cardinality] *)
Definition cardinality (m : ArgMatcher) : ArgMatcherCardinality :=
  match m with
  | MLiteral _ | MOpaqueNonFile | MReadableFile | MWriteableFile | MPositiveInteger | MSedCommand => One
  | MReadableFiles => AtLeastOne
  | MReadableFilesOrCwd | MUnverifiedVarargs => ZeroOrMore
  end.

(** [codex-rs/execpolicy-legacy/src/arg_matcher.rs:66-78 ArgMatcher::arg_type] *)
Definition arg_type (m : ArgMatcher) : ArgType :=
  match m with
  | MLiteral value => TLiteral value
  | MOpaqueNonFile => TOpaqueNonFile
  | MReadableFile => TReadableFile
  | MWriteableFile => TWriteableFile
  | MReadableFiles => TReadableFile
  | MReadableFilesOrCwd => TReadableFile
  | MPositiveInteger => TPositiveInteger
  | MSedCommand => TSedCommand
  | MUnverifiedVarargs => TUnknown
  end.

(** [codex-rs/execpolicy-legacy/src/arg_matcher.rs:87-95 ArgMatcherCardinality::is_exact] *)
Definition is_exact (c : ArgMatcherCardinality) : option nat :=
  match c with One => Some 1 | AtLeastOne => None | ZeroOrMore => None end.

Definition parses_u64 (s : str) : bool := match parse_u64 s with Some _ => true | None => false end.

(** [codex-rs/execpolicy-legacy/src/sed_command.rs:4-17 parse_sed_command] *)
Definition parse_sed_command (sed_command : str) : result Error unit :=
  let safe :=
    match strip_suffix (lit "p") sed_command with
    | Some stripped =>
        match split_once 44%N stripped with
        | Some (first, rest) => parses_u64 first && parses_u64 rest
        | None => false
        end
    | None => false
    end in
  if safe then Ok tt else Err (SedCommandNotProvablySafe sed_command).

(** [codex-rs/execpolicy-legacy/src/arg_type.rs:32-70 ArgType::validate] *)
Definition validate (t : ArgType) (value : str) : result Error unit :=
  match t with
  | TLiteral literal_value =>
      if negb (bool_decide (value = literal_value)) then Err (LiteralValueDidNotMatch literal_value value) else Ok tt
  | TReadableFile => if bool_decide (value = []) then Err EmptyFileName else Ok tt
  | TWriteableFile => if bool_decide (value = []) then Err EmptyFileName else Ok tt
  | TOpaqueNonFile | TUnknown => Ok tt
  | TPositiveInteger =>
      match parse_u64 value with
      | Some 0%N => Err (InvalidPositiveInteger value)
      | Some _ => Ok tt
      | None => Err (InvalidPositiveInteger value)
      end
  | TSedCommand => parse_sed_command value
  end.

(** [codex-rs/execpolicy-legacy/src/arg_type.rs:72-81 ArgType::might_write_file] *)
Definition might_write_file (t : ArgType) : bool :=
  match t with
  | TWriteableFile | TUnknown => true
  | TLiteral _ | TOpaqueNonFile | TPositiveInteger | TReadableFile | TSedCommand => false
  end.

(** [codex-rs/execpolicy-legacy/src/valid_exec.rs:47-54 MatchedArg::new] *)
Definition new_matched_arg (index : nat) (t : ArgType) (value : str) : result Error MatchedArg :=
  _ ← validate t value; Ok {| ma_index := index; ma_type := t; ma_value := value |}.

(** ** The resolver *)

(** [codex-rs/execpolicy-legacy/src/arg_resolver.rs:147-154 ParitionedArgs] *)
Record ParitionedArgs := {
  num_prefix_args : nat;
  num_suffix_args : nat;
  prefix_patterns : list ArgMatcher;
  suffix_patterns : list ArgMatcher;
  vararg_pattern : option ArgMatcher;
}.

(** [codex-rs/execpolicy-legacy/src/arg_resolver.rs:160-185 partition_args] one iteration; the flag is
    [in_prefix]. *)
Definition partition_step (program : str) (st : bool * ParitionedArgs) (pattern : ArgMatcher)
    : result Error (bool * ParitionedArgs) :=
  let '(in_prefix, p) := st in
  match is_exact (cardinality pattern) with
  | Some n =>
      if in_prefix
      then Ok (in_prefix, {| num_prefix_args := num_prefix_args p + n; num_suffix_args := num_suffix_args p;
                             prefix_patterns := prefix_patterns p ++ [pattern];
                             suffix_patterns := suffix_patterns p; vararg_pattern := vararg_pattern p |})
      else Ok (in_prefix, {| num_prefix_args := num_prefix_args p; num_suffix_args := num_suffix_args p + n;
                             prefix_patterns := prefix_patterns p;
                             suffix_patterns := suffix_patterns p ++ [pattern];
                             vararg_pattern := vararg_pattern p |})
  | None =>
      match vararg_pattern p with
      | None => Ok (false, {| num_prefix_args := num_prefix_args p; num_suffix_args := num_suffix_args p;
                              prefix_patterns := prefix_patterns p; suffix_patterns := suffix_patterns p;
                              vararg_pattern := Some pattern |})
      | Some existing_pattern => Err (MultipleVarargPatterns program existing_pattern pattern)
      end
  end.

(** [codex-rs/execpolicy-legacy/src/arg_resolver.rs:156-188 partition_args] *)
Definition partition_args (program : str) (arg_patterns : list ArgMatcher) : result Error ParitionedArgs :=
  '(_, p) ← try_fold (partition_step program) arg_patterns
    (true, {| num_prefix_args := 0; num_suffix_args := 0; prefix_patterns := []; suffix_patterns := [];
              vararg_pattern := None |});
  Ok p.

(** [codex-rs/execpolicy-legacy/src/arg_resolver.rs:190-204 get_range_checked] *)
Definition get_range_checked {A} (v : list A) (start end_ : nat) : run Error (list A) :=
  if end_ <? start then Fail (RangeStartExceedsEnd start end_)
  else if length v <? end_ then Fail (RangeEndOutOfBounds end_ (length v))
  else slice v start end_.

(** [codex-rs/execpolicy-legacy/src/arg_resolver.rs:54-61 resolve_observed_args_with_patterns] the
    arguments matched by one pattern. *)
Definition match_all (pattern : ArgMatcher) (args : list PositionalArg) : result Error (list MatchedArg) :=
  try_map (fun a => new_matched_arg (arg_index a) (arg_type pattern) (arg_value a)) args.

(** [codex-rs/execpolicy-legacy/src/arg_resolver.rs:46-63 resolve_observed_args_with_patterns] the loop
    over the prefix or suffix patterns: the arguments matched and the index reached. *)
Fixpoint match_exact (patterns : list ArgMatcher) (args : list PositionalArg) (idx : nat)
    : run Error (list MatchedArg * nat) :=
  match patterns with
  | [] => Done ([], idx)
  | pattern :: patterns =>
      n ← try_ (ok_or (is_exact (cardinality pattern)) (InternalInvariantViolation (lit "expected exact cardinality")));
      here ← slice args idx (idx + n);
      matched ← try_ (match_all pattern here);
      '(rest, idx) ← match_exact patterns args (idx + n);
      Done (matched ++ rest, idx)
  end.

(** [codex-rs/execpolicy-legacy/src/arg_resolver.rs:78-114 resolve_observed_args_with_patterns] the
    variable pattern, if any. *)
Definition match_vararg (program : str) (vararg : option ArgMatcher) (args : list PositionalArg)
    (start end_ : nat) : run Error (list MatchedArg) :=
  match vararg with
  | None => Done []
  | Some pattern =>
      vararg ← get_range_checked args start end_;
      match cardinality pattern with
      | One => Fail (InternalInvariantViolation (lit "vararg pattern should not have cardinality of one"))
      | AtLeastOne =>
          match vararg with
          | [] => Fail (VarargMatcherDidNotMatchAnything program pattern)
          | _ => try_ (match_all pattern vararg)
          end
      | ZeroOrMore => try_ (match_all pattern vararg)
      end
  end.

(** [codex-rs/execpolicy-legacy/src/arg_resolver.rs:15-145 resolve_observed_args_with_patterns] *)
Definition resolve_observed_args_with_patterns (program : str) (args : list PositionalArg)
    (arg_patterns : list ArgMatcher) : run Error (list MatchedArg) :=
  p ← try_ (partition_args program arg_patterns);
  prefix ← get_range_checked args 0 (num_prefix_args p);
  '(matched_prefix, prefix_arg_index) ← match_exact (prefix_patterns p) prefix 0;
  if length args <? num_suffix_args p then Fail (NotEnoughArgs program args arg_patterns)
  else
    let initial_suffix_args_index := length args - num_suffix_args p in
    if initial_suffix_args_index <? prefix_arg_index then Fail PrefixOverlapsSuffix
    else
      matched_vararg ← match_vararg program (vararg_pattern p) args prefix_arg_index initial_suffix_args_index;
      suffix ← get_range_checked args initial_suffix_args_index (length args);
      '(matched_suffix, _) ← match_exact (suffix_patterns p) suffix 0;
      let matched_args := matched_prefix ++ matched_vararg ++ matched_suffix in
      if length matched_args <? length args then
        extra_args ← get_range_checked args (length matched_args) (length args);
        Fail (UnexpectedArguments program extra_args)
      else Done matched_args.

(** ** The reference *)

(** [m] is argument [a] accepted by pattern [p]. *)
Definition accepts (p : ArgMatcher) (a : PositionalArg) (m : MatchedArg) : Prop :=
  validate (arg_type p) (arg_value a) = Ok tt /\
  m = {| ma_index := arg_index a; ma_type := arg_type p; ma_value := arg_value a |}.

(** The arguments are distributed, in order, over the patterns: one to each pattern of cardinality one,
    any number (at least one, if the pattern says so) to the others; each is accepted by its pattern. *)
Inductive assigned : list ArgMatcher -> list PositionalArg -> list MatchedArg -> Prop :=
| assigned_nil : assigned [] [] []
| assigned_one p ps a args m ms :
    cardinality p = One -> accepts p a m -> assigned ps args ms ->
    assigned (p :: ps) (a :: args) (m :: ms)
| assigned_many p ps here args mh ms :
    cardinality p <> One -> (cardinality p = AtLeastOne -> here <> []) ->
    Forall2 (accepts p) here mh -> assigned ps args ms ->
    assigned (p :: ps) (here ++ args) (mh ++ ms).

(** At most one pattern takes a variable number of arguments. *)
Definition at_most_one_vararg (ps : list ArgMatcher) : Prop :=
  length (filter (fun p => is_exact (cardinality p) = None) ps) <= 1.

(** ** Matching *)

Definition exact_pattern (p : ArgMatcher) : Prop := cardinality p = One.

Lemma is_exact_Some p n : is_exact (cardinality p) = Some n <-> exact_pattern p /\ n = 1.
Proof. unfold exact_pattern. destruct (cardinality p); simpl; naive_solver. Qed.
Lemma is_exact_None p : is_exact (cardinality p) = None <-> ~ exact_pattern p.
Proof. unfold exact_pattern. destruct (cardinality p); simpl; naive_solver. Qed.

Lemma new_matched_arg_ok p a m :
  new_matched_arg (arg_index a) (arg_type p) (arg_value a) = Ok m <-> accepts p a m.
Proof.
  unfold new_matched_arg, accepts. rewrite result_bind_ok. split.
  - intros ([] & Hv & [= <-]). done.
  - intros [Hv ->]. by exists tt.
Qed.

Lemma match_all_ok p args ms : match_all p args = Ok ms <-> Forall2 (accepts p) args ms.
Proof.
  unfold match_all. rewrite try_map_ok. split; intros H; (eapply Forall2_impl; [exact H|]);
    intros a m; by rewrite new_matched_arg_ok.
Qed.

Lemma assigned_app ps1 ps2 args ms :
  assigned (ps1 ++ ps2) args ms <->
  exists a1 a2 m1 m2, args = a1 ++ a2 /\ ms = m1 ++ m2 /\ assigned ps1 a1 m1 /\ assigned ps2 a2 m2.
Proof.
  split.
  - revert args ms; induction ps1 as [|p ps1 IH]; intros args ms H; simpl in H.
    + exists [], args, [], ms. by repeat split; try constructor.
    + inversion H as [|? ? a args' m ms' Hc Ha Hr|? ? here args' mh ms' Hc Hl Ha Hr]; subst.
      * apply IH in Hr as (a1 & a2 & m1 & m2 & -> & -> & H1 & H2).
        exists (a :: a1), a2, (m :: m1), m2. split_and!; try done. by apply assigned_one.
      * apply IH in Hr as (a1 & a2 & m1 & m2 & -> & -> & H1 & H2).
        exists (here ++ a1), a2, (mh ++ m1), m2. rewrite !app_assoc. split_and!; try done. by apply assigned_many.
  - intros (a1 & a2 & m1 & m2 & -> & -> & H1 & H2). induction H1; simpl.
    + done.
    + by apply assigned_one.
    + rewrite <- !app_assoc. by apply assigned_many.
Qed.

Lemma assigned_length ps args ms : assigned ps args ms -> length ms = length args.
Proof.
  induction 1 as [| |p ps here args mh ms _ _ Hf _ IH]; simpl; [done | lia|].
  apply Forall2_length in Hf. rewrite !length_app. lia.
Qed.

Lemma assigned_exact_length ps args ms :
  Forall exact_pattern ps -> assigned ps args ms -> length args = length ps.
Proof.
  intros Hps H. induction H; simpl; [done| |].
  - apply Forall_cons in Hps as [_ Hps]. by rewrite IHassigned.
  - apply Forall_cons in Hps as [Hp _]. done.
Qed.

Lemma assigned_vararg v args ms :
  ~ exact_pattern v ->
  assigned [v] args ms <-> (cardinality v = AtLeastOne -> args <> []) /\ Forall2 (accepts v) args ms.
Proof.
  intros Hv. split.
  - inversion 1 as [| |? ? here args' mh ms' Hc Hl Ha Hr]; subst; [done|].
    inversion Hr; subst. by rewrite !app_nil_r.
  - intros [Hl Hf]. rewrite <- (app_nil_r args), <- (app_nil_r ms). apply assigned_many; try done. constructor.
Qed.

(** The loop over exact patterns, on arguments of the right number. *)
Lemma match_exact_done ps args pre here post ms idx :
  Forall exact_pattern ps -> args = pre ++ here ++ post -> idx = length pre -> length here = length ps ->
  (exists i, match_exact ps args idx = Done (ms, i)) <-> assigned ps here ms.
Proof.
  revert pre here ms idx; induction ps as [|p ps IH]; intros pre here ms idx Hps Hargs Hidx Hlen; simpl.
  - destruct here; [|done]. split; [intros [i [= <- <-]]; constructor|]. inversion 1; subst. eauto.
  - apply Forall_cons in Hps as [Hp Hps]. destruct here as [|a here]; [done|].
    rewrite (proj2 (is_exact_Some p 1)) by done. simpl. subst args idx.
    rewrite slice_ok by (rewrite ?length_app; simpl; lia).
    rewrite drop_app_length. replace (length pre + 1 - length pre) with 1 by lia. simpl take.
    specialize (IH (pre ++ [a]) here). rewrite length_app, <- app_assoc in IH. simpl in IH, Hlen.
    split.
    + intros [i H]. apply run_bind_done in H as (x & Hx & H). injection Hx as <-.
      apply run_bind_done in H as (mh & Hmh%try_done & H). apply run_bind_done in H as ([rest j] & Hr & [= <- <-]).
      apply match_all_ok in Hmh. inversion Hmh as [|? m ? ? Ha Hnil]; subst. inversion Hnil; subst.
      apply assigned_one; [done | done|]. apply (IH _ (length pre + 1)); [done | done | done | lia | eauto].
    + inversion 1 as [|? ? ? ? m ms' Hc Ha Hrest|? ? ? ? ? ? Hc]; subst; [|done].
      apply (IH ms' (length pre + 1)) in Hrest as [i Hi]; [|done|done|done|lia].
      exists i. apply run_bind_done. exists [a]. split; [done|].
      apply run_bind_done. exists [m]. split; [apply try_done, match_all_ok; by constructor|].
      apply run_bind_done. by exists (ms', i).
Qed.

(** The errors the resolver never reports: the ones that stand for a broken invariant. *)
Definition internal_error (e : Error) : Prop :=
  match e with
  | InternalInvariantViolation _ | RangeStartExceedsEnd _ _ => True
  | _ => False
  end.

Definition sound_run {A} (m : run Error A) : Prop :=
  match m with Done _ => True | Fail e => ~ internal_error e | Panic | OutOfFuel => False end.

Lemma sound_bind {A B} (m : run Error A) (k : A -> run Error B) :
  sound_run m -> (forall a, m = Done a -> sound_run (k a)) -> sound_run (m ≫= k).
Proof. destruct m; simpl; auto. Qed.

Lemma validate_sound t v e : validate t v = Err e -> ~ internal_error e.
Proof.
  unfold validate, parse_sed_command. destruct t; repeat case_match; intros [= <-]; simpl; auto.
Qed.

Lemma new_matched_arg_sound i t v e : new_matched_arg i t v = Err e -> ~ internal_error e.
Proof. unfold new_matched_arg. destruct (validate t v) eqn:H; simpl; [done|]. intros [= <-]. by eapply validate_sound. Qed.

Lemma match_all_sound p args : sound_run (try_ (match_all p args)).
Proof.
  unfold match_all. induction args as [|a args IH]; simpl; [done|].
  destruct (new_matched_arg _ _ _) eqn:H; simpl; [|by eapply new_matched_arg_sound].
  destruct (try_map _ args); simpl in *; done.
Qed.

Lemma get_range_ok {A} (l : list A) a b :
  a <= b -> b <= length l -> get_range_checked l a b = Done (take (b - a) (drop a l)).
Proof.
  intros H1 H2. unfold get_range_checked. destruct (Nat.ltb_spec b a); [lia|].
  destruct (Nat.ltb_spec (length l) b); [lia|]. by apply slice_ok.
Qed.

Lemma match_exact_sound ps args idx :
  Forall exact_pattern ps -> idx + length ps <= length args ->
  sound_run (match_exact ps args idx) /\
  forall ms i, match_exact ps args idx = Done (ms, i) -> i = idx + length ps /\ length ms = length ps.
Proof.
  revert idx; induction ps as [|p ps IH]; intros idx Hps Hl; simpl in *.
  - split; [done|]. intros ms i [= <- <-]. simpl. lia.
  - apply Forall_cons in Hps as [Hp Hps]. rewrite (proj2 (is_exact_Some p 1)) by done. simpl.
    rewrite slice_ok by lia. simpl. destruct (IH (idx + 1) Hps ltac:(lia)) as [Hs Hd].
    pose proof (match_all_sound p (take (idx + 1 - idx) (drop idx args))) as Ha.
    destruct (match_all p _) as [here|e] eqn:Hm; simpl in *; [|done].
    apply match_all_ok, Forall2_length in Hm. rewrite length_take, length_drop in Hm.
    destruct (match_exact ps args (idx + 1)) as [[rest i]|e| |]; simpl in *; try done.
    split; [done|]. intros ms j [= <- <-]. destruct (Hd rest i eq_refl) as [-> Hr]. rewrite length_app. lia.
Qed.

(** ** Partitioning *)

(** The state of the loop after the patterns [seen]. *)
Definition partition_inv (seen : list ArgMatcher) (st : bool * ParitionedArgs) : Prop :=
  let '(in_prefix, p) := st in
  Forall exact_pattern (prefix_patterns p) /\ Forall exact_pattern (suffix_patterns p) /\
  num_prefix_args p = length (prefix_patterns p) /\ num_suffix_args p = length (suffix_patterns p) /\
  match vararg_pattern p with
  | None => in_prefix = true /\ seen = prefix_patterns p /\ suffix_patterns p = []
  | Some v => in_prefix = false /\ ~ exact_pattern v /\ seen = prefix_patterns p ++ v :: suffix_patterns p
  end.

Lemma partition_step_inv program seen st q :
  partition_inv seen st ->
  match partition_step program st q with
  | Ok st' => partition_inv (seen ++ [q]) st'
  | Err e => ~ exact_pattern q /\ vararg_pattern st.2 <> None /\ ~ internal_error e
  end.
Proof.
  destruct st as [b p]. intros (Hp & Hs & Hnp & Hns & Hv). unfold partition_step.
  destruct (is_exact (cardinality q)) as [n|] eqn:Hq.
  - apply is_exact_Some in Hq as [Hq ->]. destruct (vararg_pattern p) as [v|] eqn:Hvp; simpl.
    + destruct Hv as (-> & Hv & ->). unfold partition_inv. simpl. rewrite ?Hvp, !Forall_snoc, length_app.
      split_and!; try done; [simpl; lia|]. by rewrite <- app_assoc.
    + destruct Hv as (-> & -> & Hsn). unfold partition_inv. simpl. rewrite ?Hvp, !Forall_snoc, length_app.
      split_and!; try done. simpl; lia.
  - apply is_exact_None in Hq. destruct (vararg_pattern p) as [v|] eqn:Hvp; simpl.
    + rewrite ?Hvp. split_and!; [done | done | auto].
    + destruct Hv as (-> & -> & Hsn). unfold partition_inv. simpl. rewrite Hsn.
      split_and!; try done. by rewrite Hns, Hsn.
Qed.

Lemma partition_fold_inv program ps seen st :
  partition_inv seen st ->
  match try_fold (partition_step program) ps st with
  | Ok st' => partition_inv (seen ++ ps) st'
  | Err e => ~ at_most_one_vararg (seen ++ ps) /\ ~ internal_error e
  end.
Proof.
  revert seen st; induction ps as [|q ps IH]; intros seen st Hinv; simpl; [by rewrite app_nil_r|].
  pose proof (partition_step_inv program seen st q Hinv) as Hq.
  destruct (partition_step program st q) as [st'|e]; simpl.
  - specialize (IH _ _ Hq). by rewrite <- app_assoc in IH.
  - destruct Hq as (Hq & Hv & He). split; [|done]. destruct st as [b p]. destruct Hinv as (_ & _ & _ & _ & Hsn).
    simpl in Hv. destruct (vararg_pattern p) as [v|]; [|done]. destruct Hsn as (_ & Hnv & ->).
    unfold at_most_one_vararg. rewrite <- app_assoc, filter_app, <- app_comm_cons.
    rewrite filter_cons_True by (by apply is_exact_None). rewrite filter_app.
    rewrite filter_cons_True by (by apply is_exact_None). rewrite !length_app. simpl. rewrite length_app. simpl. lia.
Qed.

Lemma exact_no_vararg ps : Forall exact_pattern ps -> filter (fun p => is_exact (cardinality p) = None) ps = [].
Proof.
  induction 1 as [|p ps Hp _ IH]; [done|]. rewrite filter_cons_False; [done|]. by intros Hn%is_exact_None.
Qed.

Lemma partition_args_spec program ps :
  match partition_args program ps with
  | Ok p => at_most_one_vararg ps /\
      Forall exact_pattern (prefix_patterns p) /\ Forall exact_pattern (suffix_patterns p) /\
      num_prefix_args p = length (prefix_patterns p) /\ num_suffix_args p = length (suffix_patterns p) /\
      match vararg_pattern p with
      | None => ps = prefix_patterns p /\ suffix_patterns p = []
      | Some v => ~ exact_pattern v /\ ps = prefix_patterns p ++ v :: suffix_patterns p
      end
  | Err e => ~ at_most_one_vararg ps /\ ~ internal_error e
  end.
Proof.
  unfold partition_args.
  pose proof (partition_fold_inv program ps [] (true, {| num_prefix_args := 0; num_suffix_args := 0;
    prefix_patterns := []; suffix_patterns := []; vararg_pattern := None |})) as H.
  simpl in H. destruct (try_fold _ ps _) as [[b p]|e]; simpl; [|by apply H].
  destruct H as (Hp & Hs & Hnp & Hns & Hv); [done|]. split; [|split_and!; try done].
  - unfold at_most_one_vararg. destruct (vararg_pattern p).
    + destruct Hv as (_ & Hv & ->). rewrite filter_app, filter_cons_True by (by apply is_exact_None).
      rewrite !exact_no_vararg by done. simpl. lia.
    + destruct Hv as (_ & -> & _). rewrite exact_no_vararg by done. simpl. lia.
  - destruct (vararg_pattern p); naive_solver.
Qed.

(** ** The resolver *)

Lemma get_range_done {A} (l : list A) a b r :
  get_range_checked l a b = Done r <-> a <= b <= length l /\ r = take (b - a) (drop a l).
Proof.
  unfold get_range_checked. destruct (Nat.ltb_spec b a); [naive_solver lia|].
  destruct (Nat.ltb_spec (length l) b); [naive_solver lia|]. rewrite slice_done. naive_solver lia.
Qed.

(** Exact patterns against a whole list of arguments. *)
Lemma match_exact_whole ps args ms i :
  Forall exact_pattern ps -> length args = length ps ->
  match_exact ps args 0 = Done (ms, i) <-> assigned ps args ms /\ i = length ps.
Proof.
  intros Hps Hl. pose proof (match_exact_done ps args [] args [] ms 0 Hps) as H.
  destruct (match_exact_sound ps args 0 Hps ltac:(lia)) as [_ Hi]. split.
  - intros Hm. split; [apply H; [by rewrite app_nil_r | done | done | eauto] | by apply Hi in Hm as [-> _]].
  - intros [Ha ->]. destruct H as [_ H]; [by rewrite app_nil_r | done | done |].
    destruct (H Ha) as [i Hi']. by destruct (Hi _ _ Hi') as [-> _].
Qed.

Lemma match_vararg_done program v args a b ms :
  a <= b -> b <= length args -> ~ exact_pattern v ->
  match_vararg program (Some v) args a b = Done ms <-> assigned [v] (take (b - a) (drop a args)) ms.
Proof.
  intros H1 H2 Hv. unfold match_vararg. rewrite get_range_ok, assigned_vararg by done. simpl.
  set (here := take (b - a) (drop a args)). unfold exact_pattern in Hv. destruct (cardinality v); [done| |].
  - destruct here as [|x here]; [naive_solver|]. rewrite try_done, match_all_ok. naive_solver.
  - rewrite try_done, match_all_ok. naive_solver.
Qed.

(** What is matched when the patterns are split around a variable one, or there is none. *)
Lemma resolve_done_assigned program args ps ms :
  resolve_observed_args_with_patterns program args ps = Done ms -> at_most_one_vararg ps /\ assigned ps args ms.
Proof.
  unfold resolve_observed_args_with_patterns. pose proof (partition_args_spec program ps) as Hp.
  destruct (partition_args program ps) as [p|e]; simpl; [|naive_solver].
  destruct Hp as (Hone & Hpre & Hsuf & Hnp & Hns & Hv). rewrite Hnp, Hns. clear Hnp Hns.
  set (pre := prefix_patterns p) in *. set (suf := suffix_patterns p) in *.
  intros H. split; [done|]. apply run_bind_done in H as (pa & Hpa & H).
  apply get_range_done in Hpa as [Hnp ->]. rewrite drop_0, Nat.sub_0_r in H.
  apply run_bind_done in H as ([m1 i1] & Hm1 & H).
  apply match_exact_whole in Hm1 as [Hm1 ->]; [|done|rewrite length_take; lia].
  destruct (Nat.ltb_spec (length args) (length suf)); [done|].
  destruct (Nat.ltb_spec (length args - length suf) (length pre)); [done|].
  apply run_bind_done in H as (mv & Hmv & H). apply run_bind_done in H as (sa & Hsa & H).
  apply get_range_done in Hsa as [_ ->]. apply run_bind_done in H as ([m3 i3] & Hm3 & H).
  rewrite take_ge in Hm3 by (rewrite length_drop; lia).
  apply match_exact_whole in Hm3 as [Hm3 _]; [|done|rewrite length_drop; lia].
  destruct (Nat.ltb_spec (length (m1 ++ mv ++ m3)) (length args)) as [|Hall].
  { by apply run_bind_done in H as (? & _ & ?). }
  injection H as <-. destruct (vararg_pattern p) as [v|].
  + destruct Hv as [Hv ->]. apply match_vararg_done in Hmv; [|lia|lia|done].
    apply assigned_app. exists (take (length pre) args), (drop (length pre) args), m1, (mv ++ m3).
    rewrite take_drop. split_and!; try done. apply (assigned_app [v] suf). eexists _, _, mv, m3.
    split_and!; [|done|exact Hmv|exact Hm3].
    rewrite <- (take_drop (length args - length suf - length pre) (drop (length pre) args)) at 1.
    rewrite drop_drop. do 2 f_equal. lia.
  + destruct Hv as [-> Hnil]. injection Hmv as <-. rewrite Hnil in *. inversion Hm3; subst.
    apply assigned_length in Hm1 as Hl1. rewrite !length_app in Hall. simpl in Hall. rewrite app_nil_r.
    rewrite length_take in Hl1. rewrite take_ge in Hm1 by lia. done.
Qed.

(** An assignment splits like the patterns. *)
Lemma assigned_split pre (v : option ArgMatcher) suf ps args ms :
  match v with None => ps = pre /\ suf = [] | Some v => ~ exact_pattern v /\ ps = pre ++ v :: suf end ->
  assigned ps args ms ->
  exists a1 av a3 m1 mv m3, args = a1 ++ av ++ a3 /\ ms = m1 ++ mv ++ m3 /\
    assigned pre a1 m1 /\ assigned suf a3 m3 /\
    match v with Some v => assigned [v] av mv | None => av = [] /\ mv = [] end.
Proof.
  intros Hv Ha. destruct v as [v|].
  - destruct Hv as [_ ->]. apply assigned_app in Ha as (a1 & a2 & m1 & m2 & -> & -> & H1 & H2).
    apply (assigned_app [v] suf) in H2 as (av & a3 & mv & m3 & -> & -> & H2 & H3).
    by exists a1, av, a3, m1, mv, m3.
  - destruct Hv as [-> ->]. exists args, [], [], ms, [], []. rewrite !app_nil_r. by repeat split; try constructor.
Qed.

Lemma assigned_resolve_done program args ps ms :
  at_most_one_vararg ps -> assigned ps args ms ->
  resolve_observed_args_with_patterns program args ps = Done ms.
Proof.
  intros Hvar Ha.
  unfold resolve_observed_args_with_patterns. pose proof (partition_args_spec program ps) as Hp.
  destruct (partition_args program ps) as [p|e]; simpl; [|naive_solver].
  destruct Hp as (Hone & Hpre & Hsuf & Hnp & Hns & Hv). rewrite Hnp, Hns. clear Hnp Hns.
  set (pre := prefix_patterns p) in *. set (suf := suffix_patterns p) in *.
  destruct (assigned_split pre (vararg_pattern p) suf ps args ms Hv Ha)
    as (a1 & av & a3 & m1 & mv & m3 & -> & -> & H1 & H3 & H2).
  pose proof (assigned_exact_length _ _ _ Hpre H1) as Hl1. pose proof (assigned_exact_length _ _ _ Hsuf H3) as Hl3.
  pose proof (assigned_length _ _ _ H1). pose proof (assigned_length _ _ _ H3).
  assert (length mv = length av) by (destruct (vararg_pattern p); [by eapply assigned_length | by destruct H2 as [-> ->]]).
  apply run_bind_done. exists a1. split.
  { apply get_range_done. rewrite drop_0, Nat.sub_0_r, <- Hl1, take_app_length, length_app. split; [lia | done]. }
  apply run_bind_done. exists (m1, length pre). split; [by apply match_exact_whole|]. simpl.
  rewrite !length_app. destruct (Nat.ltb_spec (length a1 + (length av + length a3)) (length suf)); [lia|].
  replace (length a1 + (length av + length a3) - length suf) with (length a1 + length av) by lia.
  destruct (Nat.ltb_spec (length a1 + length av) (length pre)); [lia|].
  apply run_bind_done. exists mv. split.
  { destruct (vararg_pattern p) as [v|]; [|by destruct H2 as [_ ->]]. destruct Hv as [Hv _].
    apply match_vararg_done; [lia | rewrite !length_app; lia | done|]. rewrite <- Hl1, drop_app_length.
    replace (length a1 + length av - length a1) with (length av) by lia. by rewrite take_app_length. }
  apply run_bind_done. exists a3. split.
  { apply get_range_done. rewrite !length_app. split; [lia|]. rewrite app_assoc, <- (length_app a1 av), drop_app_length.
    rewrite take_ge; [done|]. rewrite length_app. lia. }
  apply run_bind_done. exists (m3, length suf). split; [by apply match_exact_whole|]. simpl.
  rewrite (proj2 (Nat.ltb_ge _ _)) by (rewrite !length_app; lia). done.
Qed.

Lemma resolve_done program args ps ms :
  resolve_observed_args_with_patterns program args ps = Done ms <-> at_most_one_vararg ps /\ assigned ps args ms.
Proof. split; [apply resolve_done_assigned | intros []; by apply assigned_resolve_done]. Qed.

Lemma get_range_sound {A} (l : list A) a b : a <= b -> sound_run (get_range_checked l a b).
Proof.
  intros H. unfold get_range_checked. destruct (Nat.ltb_spec b a); [lia|].
  destruct (Nat.ltb_spec (length l) b); [simpl; auto|]. by rewrite slice_ok by lia.
Qed.

Lemma match_vararg_sound program v args a b :
  a <= b -> (forall p, v = Some p -> ~ exact_pattern p) -> sound_run (match_vararg program v args a b).
Proof.
  intros Hab Hv. unfold match_vararg. destruct v as [p|]; [|done]. specialize (Hv p eq_refl).
  apply sound_bind; [by apply get_range_sound|]. intros here _. unfold exact_pattern in Hv.
  destruct (cardinality p); [done| |apply match_all_sound].
  destruct here; [simpl; auto | apply match_all_sound].
Qed.

Lemma resolve_sound program args ps : sound_run (resolve_observed_args_with_patterns program args ps).
Proof.
  unfold resolve_observed_args_with_patterns. pose proof (partition_args_spec program ps) as Hp.
  destruct (partition_args program ps) as [p|e]; simpl; [|by destruct Hp].
  destruct Hp as (_ & Hpre & Hsuf & Hnp & Hns & Hv). rewrite Hnp, Hns.
  apply sound_bind; [apply get_range_sound; lia|]. intros pa Hpa. apply get_range_done in Hpa as [Hle ->].
  destruct (match_exact_sound (prefix_patterns p) (take (length (prefix_patterns p) - 0) (drop 0 args)) 0 Hpre)
    as [Hs Hd]; [rewrite length_take, drop_0; lia|].
  apply sound_bind; [done|]. intros [m1 i1] Hm1. apply Hd in Hm1 as [-> _]. simpl.
  destruct (Nat.ltb_spec (length args) (length (suffix_patterns p))); [simpl; auto|].
  destruct (Nat.ltb_spec (length args - length (suffix_patterns p)) (length (prefix_patterns p))); [simpl; auto|].
  apply sound_bind; [apply match_vararg_sound; [lia | intros q Hq; rewrite Hq in Hv; by destruct Hv]|].
  intros mv _. apply sound_bind; [apply get_range_sound; lia|]. intros sa Hsa.
  apply get_range_done in Hsa as [_ ->].
  destruct (match_exact_sound (suffix_patterns p)
    (take (length args - (length args - length (suffix_patterns p)))
          (drop (length args - length (suffix_patterns p)) args)) 0 Hsuf) as [Hs3 _].
  { rewrite length_take, length_drop. lia. }
  apply sound_bind; [done|]. intros [m3 i3] _. destruct (Nat.ltb_spec (length (m1 ++ mv ++ m3)) (length args)); [|done].
  apply sound_bind; [apply get_range_sound; lia | simpl; auto].
Qed.

(** ** Theorems *)

(** The resolver decides the declarative matching: for patterns of which at most one takes a
    variable number of arguments it returns exactly the assignments in which every argument, in order,
    is accepted by a pattern and every pattern gets its share; with two variable patterns it accepts
    nothing. *)
Theorem resolver_decides_matching program args ps ms :
  resolve_observed_args_with_patterns program args ps = Done ms <->
  at_most_one_vararg ps /\ assigned ps args ms.
Proof. apply resolve_done. Qed.

(** The resolver never panics, none of its slices is out of range, and it never reports a broken
    internal invariant, whatever the arguments and the patterns. *)
Theorem resolver_invariants_hold program args ps :
  exists r, returns (resolve_observed_args_with_patterns program args ps) r /\
    forall e, r = Err e -> ~ internal_error e.
Proof.
  pose proof (resolve_sound program args ps) as H.
  destruct (resolve_observed_args_with_patterns program args ps) as [ms|e| |]; [exists (Ok ms)|exists (Err e)|done|done].
  - by split.
  - split; [done|]. by intros e' [= <-].
Qed.

End LegacyArgs.
