(* ===== verification/LegacyPolicy.v ===== *)
(** * The legacy exec policy: execpolicy-legacy/src

    Program specifications and their check, the policy that combines them, the checker that compares
    file arguments with folders, and the builtins that build a policy from its Starlark file.  Regular
    expressions (regex_lite), path_absolutize and the test for an executable file are parameters. *)

From S2P Require Import Prelude Text AbsolutePath LegacyArgs.

Module LegacyPolicy.
Import AbsolutePath LegacyArgs.

(** ** Data *)

(** [codex-rs/execpolicy-legacy/src/exec_call.rs:5-9 ExecCall] *)
Record ExecCall := { call_program : str; call_args : list str }.

(** [codex-rs/execpolicy-legacy/src/opt.rs:28-37 OptMeta] *)
Inductive OptMeta := Flag | Value (t : ArgType).

(** [codex-rs/execpolicy-legacy/src/opt.rs:16-26 Opt] *)
Record Opt := { opt : str; meta : OptMeta; required : bool }.

(** [codex-rs/execpolicy-legacy/src/valid_exec.rs:57-66 MatchedOpt] *)
Record MatchedOpt := { mo_name : str; mo_value : str; mo_type : ArgType }.

(** [codex-rs/execpolicy-legacy/src/valid_exec.rs:83-87 MatchedFlag] *)
Record MatchedFlag := { mf_name : str }.

(** [codex-rs/execpolicy-legacy/src/valid_exec.rs:5-18 ValidExec] *)
Record ValidExec := {
  exec_program : str;
  exec_flags : list MatchedFlag;
  exec_opts : list MatchedOpt;
  exec_args : list MatchedArg;
  exec_system_path : list str;
}.

(** [codex-rs/execpolicy-legacy/src/program.rs:75-88 Forbidden] *)
Inductive Forbidden :=
| ForbiddenProgram (program : str) (exec_call : ExecCall)
| ForbiddenArg (arg : str) (exec_call : ExecCall)
| ForbiddenExec (exec : ValidExec).

(** [codex-rs/execpolicy-legacy/src/program.rs:69-73 MatchedExec] *)
Inductive MatchedExec :=
| Match (exec : ValidExec)
| IsForbidden (cause : Forbidden) (reason : str).

(** [codex-rs/execpolicy-legacy/src/program.rs:18-30 ProgramSpec] *)
Record ProgramSpec := {
  program : str;
  system_path : list str;
  option_bundling : bool;
  combined_format : bool;
  allowed_options : gmap str Opt;
  arg_patterns : list ArgMatcher;
  forbidden : option str;
  required_options : gset str;
  should_match : list (list str);
  should_not_match : list (list str);
}.

(** [codex-rs/execpolicy-legacy/src/program.rs:33-66 ProgramSpec::new] *)
Definition new_spec (program : str) (system_path : list str) (option_bundling combined_format : bool)
    (allowed_options : gmap str Opt) (arg_patterns : list ArgMatcher) (forbidden : option str)
    (should_match should_not_match : list (list str)) : ProgramSpec :=
  {| program := program; system_path := system_path; option_bundling := option_bundling;
     combined_format := combined_format; allowed_options := allowed_options; arg_patterns := arg_patterns;
     forbidden := forbidden;
     required_options := dom (filter (fun '(_, o) => required o = true) allowed_options);
     should_match := should_match; should_not_match := should_not_match |}.

(** [codex-rs/execpolicy-legacy/src/valid_exec.rs:69-76 MatchedOpt::new] *)
Definition new_matched_opt (name value : str) (t : ArgType) : result Error MatchedOpt :=
  _ ← validate t value; Ok {| mo_name := name; mo_value := value; mo_type := t |}.

(** [codex-rs/execpolicy-legacy/src/valid_exec.rs:33-36 ValidExec::might_write_files] *)
Definition might_write_files (e : ValidExec) : bool :=
  existsb (fun o => might_write_file (mo_type o)) (exec_opts e)
  || existsb (fun a => might_write_file (ma_type a)) (exec_args e).

(** ** Checking one program *)

(** The mutable variables of [ProgramSpec::check]. *)
Record CheckState := {
  expecting_option_value : option (str * ArgType);
  positional : list PositionalArg;
  matched_flags : list MatchedFlag;
  matched_opts : list MatchedOpt;
}.

Definition dash : str := lit "-".

(** [codex-rs/execpolicy-legacy/src/program.rs:100-149 ProgramSpec::check] one argument. *)
Definition check_arg (self : ProgramSpec) (st : CheckState) (ia : nat * str) : result Error CheckState :=
  let '(index, arg) := ia in
  match expecting_option_value st with
  | Some (name, arg_type) =>
      if starts_with dash arg
      then Err (OptionFollowedByOptionInsteadOfValue (program self) name arg)
      else
        o ← new_matched_opt name arg arg_type;
        Ok {| expecting_option_value := None; positional := positional st;
              matched_flags := matched_flags st; matched_opts := matched_opts st ++ [o] |}
  | None =>
      if bool_decide (arg = lit "--") then Err (DoubleDashNotSupportedYet (program self))
      else if starts_with dash arg then
        match allowed_options self !! arg with
        | Some o =>
            match meta o with
            | Flag => Ok {| expecting_option_value := None; positional := positional st;
                            matched_flags := matched_flags st ++ [{| mf_name := arg |}];
                            matched_opts := matched_opts st |}
            | Value arg_type => Ok {| expecting_option_value := Some (arg, arg_type); positional := positional st;
                                      matched_flags := matched_flags st; matched_opts := matched_opts st |}
            end
        | None => Err (UnknownOption (program self) arg)
        end
      else Ok {| expecting_option_value := None;
                 positional := positional st ++ [{| arg_index := index; arg_value := arg |}];
                 matched_flags := matched_flags st; matched_opts := matched_opts st |}
  end.

(** [.enumerate()]. *)
Definition enumerate {A} (l : list A) : list (nat * A) := zip (seq 0 (length l)) l.

(** [codex-rs/execpolicy-legacy/src/program.rs:94-195 ProgramSpec::check] *)
Definition check_program (self : ProgramSpec) (exec_call : ExecCall) : run Error MatchedExec :=
  st ← try_ (try_fold (check_arg self) (enumerate (call_args exec_call))
       {| expecting_option_value := None; positional := []; matched_flags := []; matched_opts := [] |});
  match expecting_option_value st with
  | Some (name, _) => Fail (OptionMissingValue (program self) name)
  | None =>
      matched_args ← resolve_observed_args_with_patterns (program self) (positional st) (arg_patterns self);
      let matched_opt_names : gset str := list_to_set (mo_name <$> matched_opts st) in
      if negb (bool_decide (required_options self ⊆ matched_opt_names)) then
        let options := merge_sort str_le
                         (elements (required_options self ∖ matched_opt_names)) in
        Fail (MissingRequiredOptions (program self) options)
      else
        let exec := {| exec_program := program self; exec_flags := matched_flags st;
                       exec_opts := matched_opts st; exec_args := matched_args;
                       exec_system_path := system_path self |} in
        match forbidden self with
        | Some reason => Done (IsForbidden (ForbiddenExec exec) reason)
        | None => Done (Match exec)
        end
  end.

(** [codex-rs/execpolicy-legacy/src/program.rs:197-216 ProgramSpec::verify_should_match_list] the examples
    that fail, with their error. *)
Definition verify_should_match_list (self : ProgramSpec) : list (list str * Error) :=
  omap (fun good => match check_program self {| call_program := program self; call_args := good |} with
                    | Fail e => Some (good, e)
                    | _ => None
                    end) (should_match self).

(** [codex-rs/execpolicy-legacy/src/program.rs:218-233 ProgramSpec::verify_should_not_match_list] *)
Definition verify_should_not_match_list (self : ProgramSpec) : list (list str) :=
  omap (fun bad => match check_program self {| call_program := program self; call_args := bad |} with
                   | Done _ => Some bad
                   | _ => None
                   end) (should_not_match self).

(** ** The policy *)

Section Policy.
(** [regex_lite::Regex] with [Regex::new], [is_match] and [escape]. *)
Context {Regex : Type} (regex_new : str -> result str Regex) (is_match : Regex -> str -> bool).
Context (escape : str -> str).

(** [codex-rs/execpolicy-legacy/src/policy_parser.rs:70-74 ForbiddenProgramRegex] *)
Record ForbiddenProgramRegex := { regex : Regex; reason : str }.

(** [codex-rs/execpolicy-legacy/src/policy.rs:15-19 Policy] *)
Record Policy := {
  programs : gmap str (list ProgramSpec);
  forbidden_program_regexes : list ForbiddenProgramRegex;
  forbidden_substrings_pattern : option Regex;
}.

(** [codex-rs/execpolicy-legacy/src/policy.rs:22-42 Policy::new] *)
Definition new_policy (programs : gmap str (list ProgramSpec)) (regexes : list ForbiddenProgramRegex)
    (forbidden_substrings : list str) : result str Policy :=
  pattern ← match forbidden_substrings with
            | [] => Ok None
            | _ =>
                let escaped_substrings := join (lit "|") (escape <$> forbidden_substrings) in
                r ← regex_new (lit "(" ++ escaped_substrings ++ lit ")"); Ok (Some r)
            end;
  Ok {| programs := programs; forbidden_program_regexes := regexes; forbidden_substrings_pattern := pattern |}.

(** [codex-rs/execpolicy-legacy/src/policy.rs:46-56 Policy::check] the first matching program regex. *)
Definition forbidden_program (self : Policy) (p : str) : option ForbiddenProgramRegex :=
  find (fun f => is_match (regex f) p) (forbidden_program_regexes self).

(** [codex-rs/execpolicy-legacy/src/policy.rs:58-70 Policy::check] the first forbidden argument. *)
Definition forbidden_arg (self : Policy) (args : list str) : option str :=
  find (fun arg => match forbidden_substrings_pattern self with
                   | Some regex => is_match regex arg
                   | None => false
                   end) args.

(** [codex-rs/execpolicy-legacy/src/policy.rs:72-85 Policy::check] the first specification that accepts,
    or the last error. *)
Fixpoint check_specs (specs : list ProgramSpec) (exec_call : ExecCall) (last_err : Error)
    : run Error MatchedExec :=
  match specs with
  | [] => Fail last_err
  | spec :: specs =>
      match check_program spec exec_call with
      | Fail err => check_specs specs exec_call err
      | answer => answer
      end
  end.

(** [codex-rs/execpolicy-legacy/src/policy.rs:44-86 Policy::check] *)
Definition check_policy (self : Policy) (exec_call : ExecCall) : run Error MatchedExec :=
  match forbidden_program self (call_program exec_call) with
  | Some f => Done (IsForbidden (ForbiddenProgram (call_program exec_call) exec_call) (reason f))
  | None =>
      match forbidden_arg self (call_args exec_call) with
      | Some arg => Done (IsForbidden (ForbiddenArg arg exec_call)
                            (lit "arg `" ++ arg ++ lit "` contains forbidden substring"))
      | None => check_specs (default [] (programs self !! call_program exec_call)) exec_call
                  (NoSpecForProgram (call_program exec_call))
      end
  end.

(** ** Building a policy *)

(** [codex-rs/execpolicy-legacy/src/policy_parser.rs:76-81 PolicyBuilder] *)
Record PolicyBuilder := {
  b_programs : gmap str (list ProgramSpec);
  b_regexes : list ForbiddenProgramRegex;
  b_substrings : list str;
}.

(** [codex-rs/execpolicy-legacy/src/policy_parser.rs:84-90 PolicyBuilder::new] *)
Definition new_builder : PolicyBuilder := {| b_programs := ∅; b_regexes := []; b_substrings := [] |}.

(** [codex-rs/execpolicy-legacy/src/policy_parser.rs:92-97 PolicyBuilder::build] *)
Definition build (self : PolicyBuilder) : result str Policy :=
  new_policy (b_programs self) (b_regexes self) (b_substrings self).

(** [codex-rs/execpolicy-legacy/src/policy_parser.rs:99-104 PolicyBuilder::add_program_spec] *)
Definition add_program_spec (self : PolicyBuilder) (spec : ProgramSpec) : PolicyBuilder :=
  {| b_programs := <[program spec := default [] (b_programs self !! program spec) ++ [spec]]> (b_programs self);
     b_regexes := b_regexes self; b_substrings := b_substrings self |}.

(** [codex-rs/execpolicy-legacy/src/policy_parser.rs:106-109 PolicyBuilder::add_forbidden_substrings] *)
Definition add_forbidden_substrings (self : PolicyBuilder) (l : list str) : PolicyBuilder :=
  {| b_programs := b_programs self; b_regexes := b_regexes self; b_substrings := b_substrings self ++ l |}.

(** [codex-rs/execpolicy-legacy/src/policy_parser.rs:111-114 PolicyBuilder::add_forbidden_program_regex] *)
Definition add_forbidden_program_regex (self : PolicyBuilder) (r : Regex) (why : str) : PolicyBuilder :=
  {| b_programs := b_programs self; b_regexes := b_regexes self ++ [{| regex := r; reason := why |}];
     b_substrings := b_substrings self |}.

(** [codex-rs/execpolicy-legacy/src/policy_parser.rs:137-146 define_program] one option. *)
Definition add_option (allowed : gmap str Opt) (o : Opt) : result str (gmap str Opt) :=
  match allowed !! opt o with
  | Some _ => Err (lit "duplicate flag: " ++ opt o)
  | None => Ok (<[opt o := o]> allowed)
  end.

(** [codex-rs/execpolicy-legacy/src/policy_parser.rs:119-177 define_program] *)
Definition define_program (name : str) (system_path : option (list str)) (option_bundling combined_format : option bool)
    (options : option (list Opt)) (args : option (list ArgMatcher)) (forbidden : option str)
    (should_match should_not_match : option (list (list str))) (b : PolicyBuilder) : result str PolicyBuilder :=
  allowed_options ← try_fold add_option (default [] options) ∅;
  Ok (add_program_spec b
        (new_spec name (default [] system_path) (default false option_bundling) (default false combined_format)
           allowed_options (default [] args) forbidden (default [] should_match) (default [] should_not_match))).

(** [codex-rs/execpolicy-legacy/src/policy_parser.rs:179-192 forbid_substrings] *)
Definition forbid_substrings (strings : list str) (b : PolicyBuilder) : PolicyBuilder :=
  add_forbidden_substrings b strings.

(** [codex-rs/execpolicy-legacy/src/policy_parser.rs:194-209 forbid_program_regex] *)
Definition forbid_program_regex (pattern why : str) (b : PolicyBuilder) : result str PolicyBuilder :=
  compiled_regex ← regex_new pattern; Ok (add_forbidden_program_regex b compiled_regex why).

(** [codex-rs/execpolicy-legacy/src/policy_parser.rs:211-217 opt] *)
Definition opt_builtin (name : str) (t : ArgMatcher) (req : option bool) : Opt :=
  {| opt := name; meta := Value (arg_type t); required := default false req |}.

(** [codex-rs/execpolicy-legacy/src/policy_parser.rs:219-221 flag] *)
Definition flag_builtin (name : str) : Opt := {| opt := name; meta := Flag; required := false |}.

(** ** Checking the folders *)

(** [path_absolutize]: [absolutize_from] and [absolutize], and the test for an executable file. *)
Context (ext_absolutize_from : str -> str -> result str str) (ext_absolutize : str -> result str str).
Context (is_executable_file : str -> bool).

(** [codex-rs/execpolicy-legacy/src/execv_checker.rs:101-117 ensure_absolute_path] *)
Definition ensure_absolute_path (path : str) (cwd : option str) : result Error str :=
  if negb (is_absolute path) then
    match cwd with
    | Some cwd => map_err (CannotCanonicalizePath path) (ext_absolutize_from path cwd)
    | None => Err (CannotCheckRelativePath path)
    end
  else map_err (CannotCanonicalizePath path) (ext_absolutize path).

(** [Path::starts_with]: a prefix of the components. *)
Definition path_starts_with (path folder : str) : bool :=
  bool_decide (take (length (components folder)) (components path) = components folder).

(** [codex-rs/execpolicy-legacy/src/execv_checker.rs:18-27 check_file_in_folders!] *)
Definition file_in_folders (file : str) (folders : list str) : bool :=
  existsb (fun folder => path_starts_with file folder) folders.

(** [codex-rs/execpolicy-legacy/src/execv_checker.rs:61-87 ExecvChecker::check] one value. *)
Definition check_value (cwd : option str) (readable_folders writeable_folders : list str) (tv : ArgType * str)
    : result Error unit :=
  let '(t, value) := tv in
  match t with
  | TReadableFile =>
      readable_file ← ensure_absolute_path value cwd;
      if file_in_folders readable_file readable_folders then Ok tt
      else Err (ReadablePathNotInReadableFolders readable_file readable_folders)
  | TWriteableFile =>
      writeable_file ← ensure_absolute_path value cwd;
      if file_in_folders writeable_file writeable_folders then Ok tt
      else Err (WriteablePathNotInWriteableFolders writeable_file writeable_folders)
  | TOpaqueNonFile | TUnknown | TPositiveInteger | TSedCommand | TLiteral _ => Ok tt
  end.

(** [codex-rs/execpolicy-legacy/src/execv_checker.rs:44-98 ExecvChecker::check] *)
Definition check_exec (valid_exec : ValidExec) (cwd : option str) (readable_folders writeable_folders : list str)
    : result Error str :=
  let values := map (fun a => (ma_type a, ma_value a)) (exec_args valid_exec) ++
                map (fun o => (mo_type o, mo_value o)) (exec_opts valid_exec) in
  _ ← try_fold (fun _ tv => check_value cwd readable_folders writeable_folders tv) values tt;
  Ok (default (exec_program valid_exec) (find is_executable_file (exec_system_path valid_exec))).

End Policy.
Arguments regex {_} _.
Arguments reason {_} _.
Arguments programs {_} _.
Arguments forbidden_program_regexes {_} _.
Arguments forbidden_substrings_pattern {_} _.

(** ** The reference for one program *)

Section Consumed.
Context (spec : ProgramSpec).

Definition is_option (a : str) : Prop := starts_with dash a = true /\ a <> lit "--".

(** The command line, from position [i] on, as a sequence of flags, options with their value, and
    positional arguments. *)
Inductive consumed : nat -> list str -> list MatchedFlag -> list MatchedOpt -> list PositionalArg -> Prop :=
| consumed_nil i : consumed i [] [] [] []
| consumed_flag i a o args fs os ps :
    is_option a -> allowed_options spec !! a = Some o -> meta o = Flag ->
    consumed (S i) args fs os ps ->
    consumed i (a :: args) ({| mf_name := a |} :: fs) os ps
| consumed_opt i a o t v args fs os ps :
    is_option a -> allowed_options spec !! a = Some o -> meta o = Value t ->
    starts_with dash v = false -> validate t v = Ok tt ->
    consumed (S (S i)) args fs os ps ->
    consumed i (a :: v :: args) fs ({| mo_name := a; mo_value := v; mo_type := t |} :: os) ps
| consumed_pos i a args fs os ps :
    starts_with dash a = false ->
    consumed (S i) args fs os ps ->
    consumed i (a :: args) fs os ({| arg_index := i; arg_value := a |} :: ps).

(** What an accepted command line becomes. *)
Definition accepted (fs : list MatchedFlag) (os : list MatchedOpt) (ms : list MatchedArg) : MatchedExec :=
  let exec := {| exec_program := program spec; exec_flags := fs; exec_opts := os; exec_args := ms;
                 exec_system_path := system_path spec |} in
  match forbidden spec with Some r => IsForbidden (ForbiddenExec exec) r | None => Match exec end.

(** The loop adds what it consumes to its state. *)
Definition extend_state (st : CheckState) (fs : list MatchedFlag) (os : list MatchedOpt) (ps : list PositionalArg)
    : CheckState :=
  {| expecting_option_value := None; positional := positional st ++ ps;
     matched_flags := matched_flags st ++ fs; matched_opts := matched_opts st ++ os |}.

Lemma dash_dash_option : starts_with dash (lit "--") = true.
Proof. reflexivity. Qed.

Lemma not_option_not_dashes a : starts_with dash a = false -> a <> lit "--".
Proof. intros H ->. by rewrite dash_dash_option in H. Qed.

Lemma consumed_fold i args fs os ps st :
  consumed i args fs os ps -> expecting_option_value st = None ->
  try_fold (check_arg spec) (zip (seq i (length args)) args) st = Ok (extend_state st fs os ps).
Proof.
  intros H. revert st. induction H as [i|i a o args fs os ps [Hd Hn] Ho Hm _ IH
    |i a o t v args fs os ps [Hd Hn] Ho Hm Hv Hval _ IH|i a args fs os ps Hd _ IH]; intros st Hst; simpl.
  - unfold extend_state. rewrite !app_nil_r. destruct st; simpl in *; by subst.
  - unfold check_arg at 1. rewrite Hst, bool_decide_false, Hd, Ho, Hm by done. simpl. rewrite IH by done.
    unfold extend_state. simpl. by rewrite <- app_assoc.
  - unfold check_arg at 1. rewrite Hst, (bool_decide_false (a = lit "--")) by done. rewrite Hd, Ho, Hm. simpl.
    rewrite Hv. unfold new_matched_opt. rewrite Hval. simpl. rewrite IH by done.
    unfold extend_state. simpl. by rewrite <- app_assoc.
  - unfold check_arg at 1. rewrite Hst, bool_decide_false, Hd by (by apply not_option_not_dashes). simpl.
    rewrite IH by done. unfold extend_state. simpl. by rewrite <- app_assoc.
Qed.

Lemma fold_consumed args : forall i st st',
  try_fold (check_arg spec) (zip (seq i (length args)) args) st = Ok st' -> expecting_option_value st' = None ->
  match expecting_option_value st with
  | None => exists fs os ps, consumed i args fs os ps /\ st' = extend_state st fs os ps
  | Some (name, t) => exists v rest fs os ps, args = v :: rest /\ starts_with dash v = false /\
      validate t v = Ok tt /\ consumed (S i) rest fs os ps /\
      st' = extend_state st fs ({| mo_name := name; mo_value := v; mo_type := t |} :: os) ps
  end.
Proof.
  induction args as [|a args IH]; intros i st st' H Hend; simpl in H.
  - injection H as <-. rewrite Hend. exists [], [], []. split; [constructor|].
    unfold extend_state. rewrite !app_nil_r. destruct st; simpl in *; by subst.
  - apply result_bind_ok in H as (st1 & H1 & H). specialize (IH (S i) st1 st' H Hend).
    unfold check_arg in H1. destruct (expecting_option_value st) as [[name t]|] eqn:He.
    + destruct (starts_with dash a) eqn:Hd; [done|]. apply result_bind_ok in H1 as (o & Ho & [= <-]).
      simpl in IH. destruct IH as (fs & os & ps & Hc & ->).
      apply result_bind_ok in Ho as ([] & Hval & [= <-]).
      exists a, args, fs, os, ps. split_and!; try done. unfold extend_state. simpl. by rewrite <- app_assoc.
    + case_bool_decide as Hdd; [done|]. destruct (starts_with dash a) eqn:Hd.
      * destruct (allowed_options spec !! a) as [o|] eqn:Ho; [|done]. destruct (meta o) as [|t] eqn:Hm; injection H1 as <-; simpl in IH.
        -- destruct IH as (fs & os & ps & Hc & ->). exists ({| mf_name := a |} :: fs), os, ps.
           split; [by eapply consumed_flag|]. unfold extend_state. simpl. by rewrite <- app_assoc.
        -- destruct IH as (v & rest & fs & os & ps & -> & Hv & Hval & Hc & ->).
           eexists fs, (_ :: os), ps. split; [by eapply consumed_opt|]. done.
      * injection H1 as <-. simpl in IH. destruct IH as (fs & os & ps & Hc & ->).
        exists fs, os, ({| arg_index := i; arg_value := a |} :: ps). split; [by apply consumed_pos|].
        unfold extend_state. simpl. by rewrite <- app_assoc.
Qed.

(** A program specification accepts exactly the command lines it describes: every argument is a
    declared flag, a declared option followed by a value of its type that is not itself an option, or
    a positional argument; the positional arguments are matched by the argument patterns; and all
    required options are there.  Nothing of the command line is ignored.  A specification marked as
    forbidden answers forbidden, not a match. *)
Theorem check_program_decides call m :
  check_program spec call = Done m <->
  exists fs os ps ms, consumed 0 (call_args call) fs os ps /\
    at_most_one_vararg (arg_patterns spec) /\ assigned (arg_patterns spec) ps ms /\
    required_options spec ⊆ list_to_set (mo_name <$> os) /\ m = accepted fs os ms.
Proof.
  unfold check_program, enumerate. split.
  - intros (st & Hst%try_done & H)%run_bind_done.
    destruct (expecting_option_value st) as [[]|] eqn:He; [done|].
    apply fold_consumed in Hst as (fs & os & ps & Hc & ->); [|done].
    apply run_bind_done in H as (ms & Hms & H). apply resolve_done in Hms as [Hone Hms]. simpl in *.
    exists fs, os, ps, ms. case_bool_decide; [|done]. simpl in H. split_and!; try done.
    unfold accepted. destruct (forbidden spec); by injection H.
  - intros (fs & os & ps & ms & Hc & Hone & Hms & Hreq & ->).
    apply run_bind_done. eexists. split; [apply try_done; by apply consumed_fold|]. simpl.
    apply run_bind_done. exists ms. split; [by apply resolve_done|].
    rewrite bool_decide_true by done. unfold accepted. simpl. by destruct (forbidden spec).
Qed.

End Consumed.

(** ** The policy *)

Lemma find_none {A} (f : A -> bool) l x : find f l = None -> x ∈ l -> f x = false.
Proof.
  induction l as [|y l IH]; simpl; [by intros _ ?%not_elem_of_nil|]. destruct (f y) eqn:E; [done|].
  intros H [->|Hx]%elem_of_cons; auto.
Qed.

Lemma find_some_inv {A} (f : A -> bool) l x : find f l = Some x -> x ∈ l /\ f x = true.
Proof.
  induction l as [|y l IH]; simpl; [done|]. destruct (f y) eqn:E.
  - intros [= ->]. split; [by left | done].
  - intros [H1 H2]%IH. split; [by right | done].
Qed.

(** The answer of the specifications is that of the first one that accepts. *)
Lemma check_specs_first specs call e m :
  check_specs specs call e = Done m ->
  exists before spec after, specs = before ++ spec :: after /\ check_program spec call = Done m /\
    Forall (fun s => exists err, check_program s call = Fail err) before.
Proof.
  revert e; induction specs as [|s specs IH]; intros e; simpl; [done|].
  destruct (check_program s call) as [m'|err| |] eqn:Hs; try done.
  - intros [= ->]. exists [], s, specs. by repeat split.
  - intros (before & spec & after & -> & Hc & Hb)%IH. exists (s :: before), spec, after.
    split; [done|]. split; [done|]. constructor; eauto.
Qed.

Section Decides.
Context {Regex : Type} (regex_new : str -> result str Regex) (is_match : Regex -> str -> bool).
Context (escape : str -> str).

(** A match is only answered when nothing forbids it: the program matches no forbidden pattern, no
    argument contains a forbidden substring, and the first specification of the program that accepts
    the command line is not marked forbidden.  The hypothesis is what regex_lite documents for the
    alternation of escaped literals that the policy builds. *)
Theorem policy_match_not_forbidden progs regexes substrings policy call e :
  (forall r, regex_new (lit "(" ++ join (lit "|") (escape <$> substrings) ++ lit ")") = Ok r ->
     forall s, is_match r s = existsb (fun sub => contains_sub sub s) substrings) ->
  new_policy regex_new escape progs regexes substrings = Ok policy ->
  check_policy is_match policy call = Done (Match e) ->
  (forall f, f ∈ regexes -> is_match (regex f) (call_program call) = false) /\
  (forall arg sub, arg ∈ call_args call -> sub ∈ substrings -> contains_sub sub arg = false) /\
  exists before spec after, default [] (progs !! call_program call) = before ++ spec :: after /\
    forbidden spec = None /\ check_program spec call = Done (Match e) /\
    Forall (fun s => exists err, check_program s call = Fail err) before.
Proof.
  intros Hre Hnew Hcheck. apply result_bind_ok in Hnew as (pat & Hpat & [= <-]).
  unfold check_policy in Hcheck. destruct (forbidden_program _ _ _) eqn:Hfp; [done|].
  destruct (forbidden_arg _ _ _) eqn:Hfa; [done|]. split_and!.
  - intros f Hf. by eapply (find_none _ _ f) in Hfp.
  - intros arg sub Harg Hsub. eapply (find_none _ _ arg) in Hfa; [|done]. simpl in Hfa.
    destruct substrings as [|s0 ss]; [by apply not_elem_of_nil in Hsub|].
    apply result_bind_ok in Hpat as (r & Hr & [= <-]). rewrite (Hre r Hr) in Hfa.
    apply not_true_iff_false. intros Hc. apply not_true_iff_false in Hfa. apply Hfa.
    apply existsb_exists. exists sub. split; [by apply list_elem_of_In | done].
  - apply check_specs_first in Hcheck as (before & spec & after & Hsp & Hc & Hb). simpl in Hsp.
    exists before, spec, after. split_and!; try done.
    unfold check_program in Hc. apply run_bind_done in Hc as (st & _ & Hc).
    destruct (expecting_option_value st) as [[]|]; [done|]. apply run_bind_done in Hc as (ms & _ & Hc).
    case_bool_decide; [|done]. simpl in Hc. by destruct (forbidden spec).
Qed.

Context (ext_absolutize_from : str -> str -> result str str) (ext_absolutize : str -> result str str).
Context (is_executable_file : str -> bool).

(** The file is inside the folder: its names begin with the folder's. *)
Definition inside (file folder : str) : Prop :=
  exists names more, Forall name_ok (names ++ more) /\ folder = render names /\ file = render (names ++ more).

Lemma path_starts_with_inside file folder :
  normal_form file -> normal_form folder -> path_starts_with file folder = true -> inside file folder.
Proof.
  intros (ns & -> & Hns) (fs & -> & Hfs). unfold path_starts_with.
  rewrite bool_decide_eq_true, !components_render by done. simpl. rewrite length_fmap. intros [= H].
  rewrite <- fmap_take in H. assert (Hinj : take (length fs) ns = fs).
  { eapply list_fmap_eq_inj; [|exact H]. by intros ?? [=]. }
  assert (Heq : fs ++ drop (length fs) ns = ns) by (rewrite <- Hinj at 1; apply take_drop).
  exists fs, (drop (length fs) ns). by rewrite Heq.
Qed.

Lemma check_values_all cwd rf wf vs :
  try_fold (fun _ tv => check_value ext_absolutize_from ext_absolutize cwd rf wf tv) vs tt = Ok tt ->
  Forall (fun tv => check_value ext_absolutize_from ext_absolutize cwd rf wf tv = Ok tt) vs.
Proof.
  induction vs as [|v vs IH]; simpl; [constructor|]. intros ([] & Hv & H)%result_bind_ok. constructor; auto.
Qed.

Definition file_checked (cwd : option str) (folders : list str) (value : str) : Prop :=
  exists file folder, ensure_absolute_path ext_absolutize_from ext_absolutize value cwd = Ok file /\
    folder ∈ folders /\ inside file folder.

Lemma file_in_folders_inside cwd folders value file :
  (forall v f, ensure_absolute_path ext_absolutize_from ext_absolutize v cwd = Ok f -> normal_form f) ->
  Forall normal_form folders ->
  ensure_absolute_path ext_absolutize_from ext_absolutize value cwd = Ok file ->
  file_in_folders file folders = true -> file_checked cwd folders value.
Proof.
  intros Hnf Hfs Hfile (folder & Hin%list_elem_of_In & Hst)%existsb_exists.
  exists file, folder. split_and!; [done | done|]. apply path_starts_with_inside; [by eapply Hnf| |done].
  rewrite Forall_forall in Hfs. auto.
Qed.

(** When the checker lets an execution pass, every argument or option value that names a file to
    read lies inside a readable folder and every one that names a file to write inside a writeable
    folder, as paths in normal form, so no [..] escapes; and the program to run is the requested one
    or an executable of its system path.  The hypotheses are that path_absolutize gives normal forms
    and that the folders are in canonical form, as the checker asks of its caller. *)
Theorem checked_exec_stays_in_folders exec cwd rf wf prog :
  (forall v f, ensure_absolute_path ext_absolutize_from ext_absolutize v cwd = Ok f -> normal_form f) ->
  Forall normal_form rf -> Forall normal_form wf ->
  check_exec ext_absolutize_from ext_absolutize is_executable_file exec cwd rf wf = Ok prog ->
  (forall t v, (t, v) ∈ map (fun a => (ma_type a, ma_value a)) (exec_args exec) ++
                        map (fun o => (mo_type o, mo_value o)) (exec_opts exec) ->
     (t = TReadableFile -> file_checked cwd rf v) /\ (t = TWriteableFile -> file_checked cwd wf v)) /\
  (prog = exec_program exec \/ prog ∈ exec_system_path exec /\ is_executable_file prog = true).
Proof.
  intros Hnf Hrf Hwf ([] & Hvs & [= <-])%result_bind_ok. apply check_values_all in Hvs.
  rewrite Forall_forall in Hvs. split.
  - intros t v Hin. specialize (Hvs _ Hin). simpl in Hvs.
    split; intros ->; apply result_bind_ok in Hvs as (f & Hf & Hc);
      (destruct (file_in_folders _ _) eqn:Hff; [|done]); by eapply file_in_folders_inside.
  - destruct (find is_executable_file (exec_system_path exec)) as [p|] eqn:Hp; [right | by left].
    by apply find_some_inv in Hp.
Qed.

End Decides.

(** ** Witnesses and a finding *)

Definition demo_ls (args : list ArgMatcher) : ProgramSpec :=
  new_spec (lit "ls") [lit "/bin/ls"] false false {[ lit "-l" := flag_builtin (lit "-l") ]} args None [] [].

(** Regular expressions of the demonstrations: a list of literals, separated by bars. *)
Definition demo_regex_new (p : str) : result str (list str) :=
  match strip_prefix (lit "(") p with
  | Some q => match strip_suffix (lit ")") q with Some b => Ok (split_char 124%N b) | None => Err [] end
  | None => Ok [p]
  end.
Definition demo_is_match (r : list str) (s : str) : bool := existsb (fun sub => contains_sub sub s) r.

Lemma policy_match_not_forbidden_witness :
  exists policy e, new_policy demo_regex_new (fun s => s) {[ lit "ls" := [demo_ls [MReadableFilesOrCwd]] ]} [] [lit ";"] = Ok policy /\
    check_policy demo_is_match policy {| call_program := lit "ls"; call_args := [lit "-l"; lit "a"] |} = Done (Match e) /\
    contains_sub (lit ";") (lit "a") = false.
Proof.
  eexists. eexists.
  assert (Hnew : new_policy demo_regex_new (fun s => s) {[ lit "ls" := [demo_ls [MReadableFilesOrCwd]] ]} [] [lit ";"] = Ok
    {| programs := {[ lit "ls" := [demo_ls [MReadableFilesOrCwd]] ]}; forbidden_program_regexes := [];
       forbidden_substrings_pattern := Some [lit ";"] |}) by reflexivity.
  split; [exact Hnew|]. split; [vm_compute; reflexivity|].
  assert (Hre : forall r, demo_regex_new (lit "(" ++ join (lit "|") ((fun s => s) <$> [lit ";"]) ++ lit ")") = Ok r ->
     forall s, demo_is_match r s = existsb (fun sub => contains_sub sub s) [lit ";"]).
  { intros r [= <-] s. reflexivity. }
  refine (proj1 (proj2 (policy_match_not_forbidden demo_regex_new demo_is_match (fun s => s) _ [] [lit ";"] _
    {| call_program := lit "ls"; call_args := [lit "-l"; lit "a"] |} _ Hre Hnew _)) (lit "a") (lit ";") _ _).
  - vm_compute. reflexivity.
  - right. left.
  - left.
Defined.

Definition demo_read (value : str) : ValidExec :=
  {| exec_program := lit "cat"; exec_flags := []; exec_opts := [];
     exec_args := [{| ma_index := 0; ma_type := TReadableFile; ma_value := value |}];
     exec_system_path := [] |}.

Lemma checked_exec_stays_in_folders_witness :
  exists prog, check_exec (fun p b => Ok (absolutize_from p b)) (fun p => Ok (normalize_path p)) (fun _ => false)
      (demo_read (lit "../r/x")) (Some (lit "/w/r")) [lit "/w/r"] [] = Ok prog /\
    file_checked (fun p b => Ok (absolutize_from p b)) (fun p => Ok (normalize_path p)) (Some (lit "/w/r")) [lit "/w/r"]
      (lit "../r/x").
Proof.
  eexists. split; [reflexivity|].
  assert (Hn : forall v f, ensure_absolute_path (fun p b => Ok (absolutize_from p b)) (fun p => Ok (normalize_path p)) v
             (Some (lit "/w/r")) = Ok f -> normal_form f).
  { intros v f. unfold ensure_absolute_path. destruct (is_absolute v) eqn:Ha; simpl; intros [= <-].
    - destruct (normalize_absolute v Ha) as [-> Hok]. by eexists.
    - unfold absolutize_from, path_with_base. rewrite Ha.
      destruct (normalize_absolute (path_join (lit "/w/r") v)) as [-> Hok]; [by apply push_absolute | by eexists]. }
  refine (proj1 (proj1 (checked_exec_stays_in_folders (fun p b => Ok (absolutize_from p b)) (fun p => Ok (normalize_path p))
    (fun _ => false) (demo_read (lit "../r/x")) (Some (lit "/w/r")) [lit "/w/r"] [] (lit "cat") Hn _ _ eq_refl)
    TReadableFile (lit "../r/x") _) eq_refl).
  - apply Forall_singleton. exists [lit "w"; lit "r"]. split; [reflexivity|].
    apply Forall_cons; split; [|apply Forall_singleton]; (split; [reflexivity | vm_compute; set_solver]).
  - constructor.
  - left.
Defined.

(** A listing without arguments reads the current directory, as the documentation of its pattern
    says, but nothing checks that the directory is readable: the execution passes with no readable
    folder at all. *)
Theorem cwd_listing_not_checked :
  exists e, check_program (demo_ls [MReadableFilesOrCwd]) {| call_program := lit "ls"; call_args := [] |} = Done (Match e) /\
    check_exec (fun p b => Ok (absolutize_from p b)) (fun p => Ok (normalize_path p)) (fun _ => false)
      e (Some (lit "/secret")) [] [] = Ok (lit "ls").
Proof. eexists. split; [vm_compute; reflexivity | reflexivity]. Qed.

End LegacyPolicy.
