(* ===== verification/StreamText.v ===== *)
(** * Streamed text parsers: utils/stream-parser/src/stream_text.rs

    The trait that every parser of streamed assistant text implements, as a class of operations, and
    the law that makes such a parser usable on a stream: its output does not depend on how the text is
    cut into chunks.  The theorems about a stream are proved here, once, from the law; each parser
    discharges the law in its own file. *)

From S2P Require Import Prelude Text.

Module StreamText.

(** [is_empty()] of strings and vectors. *)
Definition is_nil {A} (l : list A) : bool := match l with [] => true | _ => false end.

(** [codex-rs/utils/stream-parser/src/stream_text.rs:3-8 StreamTextChunk] *)
Record StreamTextChunk (E : Type) := Chunk { visible_text : str; extracted : list E }.
Arguments Chunk {_} _ _.
Arguments visible_text {_} _.
Arguments extracted {_} _.

(** [codex-rs/utils/stream-parser/src/stream_text.rs:10-17 default] *)
Definition default_chunk {E} : StreamTextChunk E := Chunk [] [].

(** [codex-rs/utils/stream-parser/src/stream_text.rs:19-24 is_empty] *)
Definition is_empty {E} (c : StreamTextChunk E) : bool :=
  is_nil (visible_text c) && is_nil (extracted c).

(** The outputs of two calls, one after the other. *)
Definition chunk_app {E} (c d : StreamTextChunk E) : StreamTextChunk E :=
  Chunk (visible_text c ++ visible_text d) (extracted c ++ extracted d).

(** [codex-rs/utils/stream-parser/src/stream_text.rs:27-36 StreamTextParser] a call returns the new
    state of the parser and its output; [None] is a panic. *)
Class StreamTextParser (P E : Type) := {
  push_str : P -> str -> option (P * StreamTextChunk E);
  finish : P -> P * StreamTextChunk E
}.

(** What a parser promises.  [wf] is its invariant and [same] tells which outputs are
    interchangeable: equality for most parsers, equality up to how adjacent segments are joined for
    others. *)
Class StreamTextLaws (P E : Type) `{StreamTextParser P E} := {
  wf : P -> Prop;
  same : relation (StreamTextChunk E);
  same_equivalence :: Equivalence same;
  same_app :: Proper (same ==> same ==> same) chunk_app;
  push_total p s : wf p -> exists p' c, push_str p s = Some (p', c) /\ wf p';
  push_nil p : wf p -> exists c, push_str p [] = Some (p, c) /\ same c default_chunk;
  push_push p a b p1 c1 p2 c2 :
    wf p -> push_str p a = Some (p1, c1) -> push_str p1 b = Some (p2, c2) ->
    exists c, push_str p (a ++ b) = Some (p2, c) /\ same c (chunk_app c1 c2)
}.

Lemma chunk_app_nil_l {E} (c : StreamTextChunk E) : chunk_app default_chunk c = c.
Proof. by destruct c. Qed.

Lemma chunk_app_nil_r {E} (c : StreamTextChunk E) : chunk_app c default_chunk = c.
Proof. destruct c. unfold chunk_app. simpl. by rewrite !app_nil_r. Qed.

Lemma chunk_app_assoc {E} (c d e : StreamTextChunk E) :
  chunk_app c (chunk_app d e) = chunk_app (chunk_app c d) e.
Proof. unfold chunk_app. simpl. by rewrite !app_assoc. Qed.

Section stream.
Context {P E : Type} `{StreamTextParser P E}.

(** A stream of chunks, with the outputs of the calls put together. *)
Fixpoint feed (p : P) (chunks : list str) : option (P * StreamTextChunk E) :=
  match chunks with
  | [] => Some (p, default_chunk)
  | s :: chunks =>
      '(p1, c1) ← push_str p s; '(p2, c2) ← feed p1 chunks; Some (p2, chunk_app c1 c2)
  end.

(** A whole stream: its chunks, then [finish]. *)
Definition stream (p : P) (chunks : list str) : option (StreamTextChunk E) :=
  '(p', c) ← feed p chunks; Some (chunk_app c (snd (finish p'))).

Context `{!StreamTextLaws P E}.

(** Feeding a stream is pushing its whole text at once. *)
Lemma feed_push p chunks :
  wf p -> exists p' c c', feed p chunks = Some (p', c) /\ wf p' /\
    push_str p (concat chunks) = Some (p', c') /\ same c c'.
Proof.
  revert p. induction chunks as [|s chunks IH]; intros p Hp.
  { destruct (push_nil p Hp) as (c & Hc & ?).
    exists p, default_chunk, c. by repeat split. }
  destruct (push_total p s Hp) as (p1 & c1 & H1 & Hp1).
  destruct (IH p1 Hp1) as (p2 & c & c' & H2 & Hp2 & H3 & Hs).
  destruct (push_push p s (concat chunks) p1 c1 p2 c' Hp H1 H3) as (c'' & H4 & Hs').
  exists p2, (chunk_app c1 c), c''. simpl. rewrite H1. simpl. rewrite H2. simpl.
  repeat split; try done. by rewrite Hs', Hs.
Qed.

(** Two ways to cut one text: the same final state and the same output. *)
Lemma feed_chunking p cs ds :
  wf p -> concat cs = concat ds ->
  exists p' c d, feed p cs = Some (p', c) /\ feed p ds = Some (p', d) /\ same c d.
Proof.
  intros Hp Heq.
  destruct (feed_push p cs Hp) as (p1 & c & c' & H1 & _ & H2 & Hc).
  destruct (feed_push p ds Hp) as (p2 & d & d' & H3 & _ & H4 & Hd).
  rewrite Heq in H2. simplify_eq. eexists _, c, d. repeat split; try done. by rewrite Hc.
Qed.

Lemma stream_chunking p cs ds :
  wf p -> concat cs = concat ds ->
  exists c d, stream p cs = Some c /\ stream p ds = Some d /\ same c d.
Proof.
  intros Hp Heq. destruct (feed_chunking p cs ds Hp Heq) as (p' & c & d & H1 & H2 & Hs).
  unfold stream. rewrite H1, H2. simpl. do 2 eexists. repeat split. by rewrite Hs.
Qed.
End stream.

End StreamText.
