(* ===== verification/HiddenTags.v ===== *)
(** * Hidden inline tags: utils/stream-parser/src/inline_hidden_tag.rs, citation.rs

    The parser that removes tagged spans from streamed text and hands out their contents, and the
    citation parser built on it.  Positions in the text count characters instead of bytes: every
    position the code computes is a character boundary, and positions in one string are ordered alike
    in both units; the lengths of two delimiters are compared in bytes, as in the code.

    The reference is [hides]: how a complete text splits into visible text and tagged contents. *)

From S2P Require Import Prelude Text StreamText.

Module HiddenTags.
Import StreamText.

(** ** Data *)

(** [codex-rs/utils/stream-parser/src/inline_hidden_tag.rs:6-9 ExtractedInlineTag] *)
Record ExtractedInlineTag (T : Type) := Extracted { tag : T; content : str }.
Arguments Extracted {_} _ _.
Arguments tag {_} _.
Arguments content {_} _.

(** [codex-rs/utils/stream-parser/src/inline_hidden_tag.rs:13-17 InlineTagSpec] *)
Record InlineTagSpec (T : Type) := InlineSpec { spec_tag : T; open : str; close : str }.
Arguments InlineSpec {_} _ _ _.
Arguments spec_tag {_} _.
Arguments open {_} _.
Arguments close {_} _.

(** [codex-rs/utils/stream-parser/src/inline_hidden_tag.rs:20-24 ActiveTag] *)
Record ActiveTag (T : Type) := Active { active_tag : T; active_close : str; active_content : str }.
Arguments Active {_} _ _ _.
Arguments active_tag {_} _.
Arguments active_close {_} _.
Arguments active_content {_} _.

(** [codex-rs/utils/stream-parser/src/inline_hidden_tag.rs:36-43 InlineHiddenTagParser] *)
Record InlineHiddenTagParser (T : Type) := Parser {
  specs : list (InlineTagSpec T);
  pending : str;
  active : option (ActiveTag T)
}.
Arguments Parser {_} _ _ _.
Arguments specs {_} _.
Arguments pending {_} _.
Arguments active {_} _.

(** ** The code *)

Section code.
Context {T : Type}.

(** [codex-rs/utils/stream-parser/src/inline_hidden_tag.rs:50-70 new] [None] is a failed assertion. *)
Definition new (specs : list (InlineTagSpec T)) : option (InlineHiddenTagParser T) :=
  if is_nil specs then None
  else if existsb (fun spec => is_nil (open spec) || is_nil (close spec)) specs then None
  else Some (Parser specs [] None).

(** The comparison of [min_by]: earlier position, then longer delimiter, then smaller index. *)
Definition cmp_open (a b : nat * nat * nat) : comparison :=
  let '(pos_a, len_a, idx_a) := a in
  let '(pos_b, len_b, idx_b) := b in
  match pos_a ?= pos_b with
  | Eq => match len_b ?= len_a with Eq => idx_a ?= idx_b | c => c end
  | c => c
  end.

(** [Iterator::min_by]: the first of the least elements. *)
Definition min_by {A} (cmp : A -> A -> comparison) (l : list A) : option A :=
  match l with
  | [] => None
  | x :: l => Some (fold_left (fun m y => match cmp m y with Gt => y | _ => m end) l x)
  end.

(** [codex-rs/utils/stream-parser/src/inline_hidden_tag.rs:72-88 find_next_open] *)
Definition find_next_open (specs : list (InlineTagSpec T)) (pending : str) : option (nat * nat) :=
  let candidates :=
    omap (fun '(idx, spec) =>
            (fun pos => (pos, len_utf8 (open spec), idx)) <$> find_sub (open spec) pending)
         (imap pair specs) in
  (fun '(pos, _, idx) => (pos, idx)) <$> min_by cmp_open candidates.

(** The loop of [longest_suffix_prefix_len], from [k] down to 1. *)
Fixpoint suffix_prefix_from (k : nat) (s needle : str) : nat :=
  match k with
  | 0 => 0
  | S k' => if ends_with (take k needle) s then k else suffix_prefix_from k' s needle
  end.

(** [codex-rs/utils/stream-parser/src/inline_hidden_tag.rs:200-208 longest_suffix_prefix_len] *)
Definition longest_suffix_prefix_len (s needle : str) : nat :=
  suffix_prefix_from (length s `min` (length needle - 1)) s needle.

(** [codex-rs/utils/stream-parser/src/inline_hidden_tag.rs:90-96 max_open_prefix_suffix_len] *)
Definition max_open_prefix_suffix_len (specs : list (InlineTagSpec T)) (pending : str) : nat :=
  fold_right Nat.max 0 (map (fun spec => longest_suffix_prefix_len pending (open spec)) specs).

(** [codex-rs/utils/stream-parser/src/inline_hidden_tag.rs:98-102 push_visible_prefix] *)
Definition push_visible_prefix (out : StreamTextChunk (ExtractedInlineTag T)) (pending : str)
  : StreamTextChunk (ExtractedInlineTag T) :=
  if is_nil pending then out else Chunk (visible_text out ++ pending) (extracted out).

(** [codex-rs/utils/stream-parser/src/inline_hidden_tag.rs:104-115 drain_visible_to_suffix_match] *)
Definition drain_visible_to_suffix_match (self : InlineHiddenTagParser T)
  (out : StreamTextChunk (ExtractedInlineTag T)) (keep_suffix_len : nat)
  : InlineHiddenTagParser T * StreamTextChunk (ExtractedInlineTag T) :=
  let take_len := length (pending self) - keep_suffix_len in
  if take_len =? 0 then (self, out)
  else (Parser (specs self) (drop take_len (pending self)) (active self),
        push_visible_prefix out (take take_len (pending self))).

(** [codex-rs/utils/stream-parser/src/inline_hidden_tag.rs:128-171 push_str] the loop. *)
Fixpoint push_loop (fuel : nat) (self : InlineHiddenTagParser T)
  (out : StreamTextChunk (ExtractedInlineTag T))
  : option (InlineHiddenTagParser T * StreamTextChunk (ExtractedInlineTag T)) :=
  match fuel with
  | 0 => None
  | S fuel =>
      match active self with
      | Some act =>
          match find_sub (active_close act) (pending self) with
          | Some close_idx =>
              let content := active_content act ++ take close_idx (pending self) in
              push_loop fuel
                (Parser (specs self)
                        (drop (close_idx + length (active_close act)) (pending self)) None)
                (Chunk (visible_text out) (extracted out ++ [Extracted (active_tag act) content]))
          | None =>
              let keep := longest_suffix_prefix_len (pending self) (active_close act) in
              let take_len := length (pending self) - keep in
              if 0 <? take_len then
                Some (Parser (specs self) (drop take_len (pending self))
                        (Some (Active (active_tag act) (active_close act)
                                 (active_content act ++ take take_len (pending self)))), out)
              else Some (self, out)
          end
      | None =>
          match find_next_open (specs self) (pending self) with
          | Some (open_idx, spec_idx) =>
              let out := push_visible_prefix out (take open_idx (pending self)) in
              spec ← specs self !! spec_idx;
              push_loop fuel
                (Parser (specs self) (drop (open_idx + length (open spec)) (pending self))
                        (Some (Active (spec_tag spec) (close spec) []))) out
          | None =>
              let keep := max_open_prefix_suffix_len (specs self) (pending self) in
              Some (drain_visible_to_suffix_match self out keep)
          end
      end
  end.

(** [codex-rs/utils/stream-parser/src/inline_hidden_tag.rs:124-174 push_str] every turn of the loop but
    the last removes a delimiter from the buffer. *)
Definition push_str (self : InlineHiddenTagParser T) (chunk : str)
  : option (InlineHiddenTagParser T * StreamTextChunk (ExtractedInlineTag T)) :=
  let self := Parser (specs self) (pending self ++ chunk) (active self) in
  push_loop (S (length (pending self))) self default_chunk.

(** [codex-rs/utils/stream-parser/src/inline_hidden_tag.rs:176-197 finish] *)
Definition finish (self : InlineHiddenTagParser T)
  : InlineHiddenTagParser T * StreamTextChunk (ExtractedInlineTag T) :=
  match active self with
  | Some act =>
      (Parser (specs self) [] None,
       Chunk [] [Extracted (active_tag act) (active_content act ++ pending self)])
  | None => (Parser (specs self) [] None, Chunk (pending self) [])
  end.
End code.

#[global] Instance inline_parser T :
  StreamTextParser (InlineHiddenTagParser T) (ExtractedInlineTag T) :=
  {| StreamText.push_str := push_str; StreamText.finish := finish |}.

(** ** Citations *)

(** [codex-rs/utils/stream-parser/src/citation.rs:7-9 CitationTag] *)
Inductive CitationTag := Citation.

(** [codex-rs/utils/stream-parser/src/citation.rs:11-11 CITATION_OPEN] *)
Definition CITATION_OPEN : str := lit "<oai-mem-citation>".
(** [codex-rs/utils/stream-parser/src/citation.rs:12-12 CITATION_CLOSE] *)
Definition CITATION_CLOSE : str := lit "</oai-mem-citation>".

(** [codex-rs/utils/stream-parser/src/citation.rs:23-25 CitationStreamParser] *)
Record CitationStreamParser := { inner : InlineHiddenTagParser CitationTag }.

(** [codex-rs/utils/stream-parser/src/citation.rs:28-36 new] *)
Definition new_citation : option CitationStreamParser :=
  p ← new [InlineSpec Citation CITATION_OPEN CITATION_CLOSE]; Some {| inner := p |}.

Definition contents (c : StreamTextChunk (ExtractedInlineTag CitationTag)) : StreamTextChunk str :=
  Chunk (visible_text c) (map content (extracted c)).

(** [codex-rs/utils/stream-parser/src/citation.rs:48-54 push_str] *)
Definition push_citation (self : CitationStreamParser) (chunk : str)
  : option (CitationStreamParser * StreamTextChunk str) :=
  '(p, c) ← push_str (inner self) chunk; Some ({| inner := p |}, contents c).

(** [codex-rs/utils/stream-parser/src/citation.rs:56-62 finish] *)
Definition finish_citation (self : CitationStreamParser) : CitationStreamParser * StreamTextChunk str :=
  let '(p, c) := finish (inner self) in ({| inner := p |}, contents c).

#[global] Instance citation_parser : StreamTextParser CitationStreamParser str :=
  {| StreamText.push_str := push_citation; StreamText.finish := finish_citation |}.

(** [codex-rs/utils/stream-parser/src/citation.rs:69-76 strip_citations] *)
Definition strip_citations (text : str) : option (str * list str) :=
  parser ← new_citation;
  '(parser, out) ← push_citation parser text;
  let '(_, tail) := finish_citation parser in
  Some (visible_text out ++ visible_text tail, extracted out ++ extracted tail).

Example strip_citations_example :
  strip_citations (lit "hello <oai-mem-citation>doc A</oai-mem-citation> world <oai-mem-cit")
  = Some (lit "hello  world <oai-mem-cit", [lit "doc A"]).
Proof. vm_compute. reflexivity. Qed.

(** ** Occurrences *)

(** [n] stands in [s] at position [i]. *)
Definition occurs_at (n s : str) (i : nat) : Prop := exists x r, s = x ++ n ++ r /\ length x = i.

Lemma occurs_at_0 n s : occurs_at n s 0 <-> n `prefix_of` s.
Proof.
  split.
  - intros (x & r & -> & Hx). apply nil_length_inv in Hx as ->. by exists r.
  - intros [r ->]. by exists [], r.
Qed.

Lemma occurs_at_cons n c s i : occurs_at n (c :: s) (S i) <-> occurs_at n s i.
Proof.
  split.
  - intros ([|d x] & r & ? & ?); simplify_eq/=. by exists x, r.
  - intros (x & r & -> & <-). by exists (c :: x), r.
Qed.

Lemma occurs_at_app_r n s b i : occurs_at n s i -> occurs_at n (s ++ b) i.
Proof. intros (x & r & -> & <-). exists x, (r ++ b). by rewrite <- !app_assoc. Qed.

Lemma occurs_at_app_l n x s i : occurs_at n (x ++ s) (length x + i) <-> occurs_at n s i.
Proof. induction x as [|c x IH]; [done|]. simpl. by rewrite occurs_at_cons. Qed.

Lemma starts_with_occurs n s : starts_with n s = true <-> occurs_at n s 0.
Proof. rewrite starts_with_spec, occurs_at_0. done. Qed.

Lemma find_sub_Some n s i :
  find_sub n s = Some i <-> occurs_at n s i /\ forall j, occurs_at n s j -> i <= j.
Proof.
  revert i. induction s as [|c s IH]; intros i; simpl.
  - destruct (starts_with n []) eqn:E.
    + apply starts_with_occurs in E. split; [intros ?; simplify_eq; split; [done|lia]|].
      intros [_ H]. specialize (H 0 E). f_equal. lia.
    + split; [done|]. intros [(x & r & Hs & Hi) _]. exfalso.
      destruct x; simplify_eq/=. destruct n; simplify_eq/=.
  - destruct (starts_with n (c :: s)) eqn:E.
    + apply starts_with_occurs in E. split; [intros ?; simplify_eq; split; [done|lia]|].
      intros [_ H]. specialize (H 0 E). f_equal. lia.
    + assert (~ occurs_at n (c :: s) 0) as H0.
      { intros H. apply starts_with_occurs in H. congruence. }
      rewrite fmap_Some. split.
      * intros (k & Hk & ->). apply IH in Hk as [Hk Hmin]. split; [by apply occurs_at_cons|].
        intros [|j] Hj; [done|]. apply occurs_at_cons, Hmin in Hj. lia.
      * destruct i as [|i]; [intros [? _]; done|]. intros [Hi Hmin]. exists i. split; [|done].
        apply IH. split; [by apply occurs_at_cons in Hi|].
        intros j Hj. apply occurs_at_cons with (c := c), Hmin in Hj. lia.
Qed.

Lemma find_sub_None n s : find_sub n s = None <-> forall i, ~ occurs_at n s i.
Proof.
  split.
  - induction s as [|c s IH]; simpl; destruct (starts_with n _) eqn:E; try done; intros H i Hi.
    all: destruct i as [|i]; [apply starts_with_occurs in Hi; congruence|].
    + destruct Hi as ([|??] & r & ? & ?); done.
    + apply fmap_None in H. apply occurs_at_cons in Hi. by eapply IH.
  - intros H. destruct (find_sub n s) as [i|] eqn:E; [|done]. exfalso.
    apply find_sub_Some in E as [Hi _]. exact (H i Hi).
Qed.

(** An occurrence in [s ++ b] lies in [s], or begins in a suffix of [s] that is a proper prefix of the
    needle, or lies in [b]. *)
Lemma occurs_at_app_inv n s b i :
  occurs_at n (s ++ b) i ->
  occurs_at n s i \/
  (exists x u, s = x ++ u /\ length x = i /\ u `prefix_of` n /\ length u < length n) \/
  length s <= i.
Proof.
  intros (x & r & Heq & Hx). destruct (decide (length s <= i)); [by right; right|].
  apply app_eq_inv in Heq as [(k & -> & Hk)|(k & Hs & Hk)].
  - apply app_eq_inv in Hk as [(m & -> & Hm)|(m & -> & Hm)].
    + destruct m as [|c m].
      { left. exists x, []. by rewrite !app_nil_r. }
      right. left. exists x, k. rewrite length_app. simpl. repeat split; [done|by exists (c :: m)|lia].
    + left. by exists x, m.
  - exfalso. subst x. rewrite length_app in Hx. lia.
Qed.

(** ** Sets of needles *)

Section needles.
Context (ns : list str).

(** [n], the [j]th needle, is the one found at [i]: the earliest, then the longest, then the first. *)
Definition first_of (s : str) (i j : nat) (n : str) : Prop :=
  ns !! j = Some n /\ occurs_at n s i /\
  forall j' n' i', ns !! j' = Some n' -> occurs_at n' s i' ->
    i < i' \/ i = i' /\ (len_utf8 n' < len_utf8 n \/ len_utf8 n' = len_utf8 n /\ j <= j').

Definition none_of (s : str) : Prop := forall n i, n ∈ ns -> ~ occurs_at n s i.

(** The last [k] characters of [s] may be the beginning of a needle. *)
Definition partial (s : str) (k : nat) : Prop :=
  exists n x u, n ∈ ns /\ s = x ++ u /\ length u = k /\ u `prefix_of` n /\ length u < length n.

Definition keep (s : str) : nat := fold_right Nat.max 0 (map (longest_suffix_prefix_len s) ns).

(** No needle is part of another. *)
Definition unambiguous : Prop :=
  forall n n' i, n ∈ ns -> n' ∈ ns -> occurs_at n n' i -> n = n'.
End needles.

Lemma suffix_prefix_from_spec k s n :
  let m := suffix_prefix_from k s n in
  m <= k /\ (m = 0 \/ ends_with (take m n) s = true) /\
  forall l, m < l <= k -> ends_with (take l n) s = false.
Proof.
  induction k as [|k IH]; simpl; [repeat split; [lia|by left|lia]|].
  destruct (ends_with (take (S k) n) s) eqn:E.
  - repeat split; [lia|by right|lia].
  - destruct IH as (? & ? & H). repeat split; [lia|done|]. intros l Hl.
    destruct (decide (l = S k)) as [->|]; [done|]. apply H. lia.
Qed.

Lemma ends_with_spec p s : ends_with p s = true <-> exists x, s = x ++ p.
Proof.
  unfold ends_with. destruct (strip_suffix p s) as [x|] eqn:E.
  - apply strip_suffix_Some in E. naive_solver.
  - rewrite strip_suffix_None in E. naive_solver.
Qed.

Lemma longest_suffix_prefix_spec s n :
  n <> [] -> let m := longest_suffix_prefix_len s n in
  (exists x u, s = x ++ u /\ length u = m /\ u `prefix_of` n /\ length u < length n) /\
  (forall x u, s = x ++ u -> u `prefix_of` n -> length u < length n -> length u <= m).
Proof.
  intros Hn. unfold longest_suffix_prefix_len.
  pose proof (suffix_prefix_from_spec (length s `min` (length n - 1)) s n) as (Hk & Hm & Hl).
  set (m := suffix_prefix_from _ s n) in *. assert (0 < length n) by (destruct n; [done|simpl; lia]).
  split.
  - destruct Hm as [->|Hm].
    + exists s, []. rewrite app_nil_r. repeat split; [apply prefix_nil|simpl; lia].
    + apply ends_with_spec in Hm as [x Hx]. exists x, (take m n).
      rewrite length_take. repeat split; [done|lia|apply prefix_take|lia].
  - intros x u -> [r ->] Hu. destruct (decide (length u <= m)) as [|Hgt]; [done|exfalso].
    rewrite !length_app in *. specialize (Hl (length u)).
    rewrite take_app_length in Hl. assert (ends_with u (x ++ u) = true) as Ht.
    { apply ends_with_spec. by exists x. }
    rewrite Hl in Ht; [done|lia].
Qed.

Section needle_lemmas.
Context (ns : list str) (Hne : Forall (fun n => n <> []) ns).

Lemma keep_ge n s : n ∈ ns -> longest_suffix_prefix_len s n <= keep ns s.
Proof.
  unfold keep. clear Hne. induction ns as [|m ms IH]; [by intros ?%elem_of_nil|].
  intros [->|Hn]%elem_of_cons; simpl; [lia|]. apply IH in Hn. lia.
Qed.

Lemma keep_in s : keep ns s = 0 \/ exists n, n ∈ ns /\ keep ns s = longest_suffix_prefix_len s n.
Proof.
  unfold keep. clear Hne. induction ns as [|m ms IH]; [by left|]. simpl.
  destruct (Nat.max_spec (longest_suffix_prefix_len s m)
              (fold_right Nat.max 0 (map (longest_suffix_prefix_len s) ms))) as [[_ ->]|[_ ->]].
  - destruct IH as [IH|(n & Hn & IH)]; [by left|]. right. exists n. split; [by right|done].
  - right. exists m. split; [by left|done].
Qed.

(** The kept suffix is the longest one that may begin a needle. *)
Lemma keep_max s k : partial ns s k -> k <= keep ns s.
Proof.
  intros (n & x & u & Hn & -> & <- & Hp & Hl). etrans; [|by apply keep_ge].
  rewrite Forall_forall in Hne.
  by apply (proj2 (longest_suffix_prefix_spec (x ++ u) n (Hne n Hn)) x u).
Qed.

Lemma keep_partial s : keep ns s = 0 \/ partial ns s (keep ns s).
Proof.
  destruct (keep_in s) as [?|(n & Hn & ->)]; [by left|right]. rewrite Forall_forall in Hne.
  destruct (longest_suffix_prefix_spec s n (Hne n Hn)) as [(x & u & ? & ? & ? & ?) _].
  by exists n, x, u.
Qed.

Lemma keep_le s : keep ns s <= length s.
Proof.
  destruct (keep_partial s) as [->|(n & x & u & _ & -> & <- & _)]; [lia|]. rewrite length_app. lia.
Qed.

Lemma partial_keep_iff s m :
  (forall k, partial ns s k -> k <= m) -> (m = 0 \/ partial ns s m) -> keep ns s = m.
Proof.
  intros Hmax Hm. apply Nat.le_antisymm.
  - destruct (keep_partial s) as [->|H]; [lia|auto].
  - destruct Hm as [->|Hm]; [lia|by apply keep_max].
Qed.

(** Dropping what cannot begin a needle loses nothing: the later text is searched as if the whole
    text were still there. *)
Lemma keep_shift x u b : length u = keep ns (x ++ u) -> keep ns (u ++ b) = keep ns (x ++ u ++ b).
Proof.
  intros Hu. symmetry. apply partial_keep_iff.
  - intros k (n & y & v & Hn & Heq & <- & Hp & Hl). apply keep_max.
    apply app_eq_inv in Heq as [(z & -> & Hz)|(z & Hx & ->)].
    + destruct z as [|c z].
      { by exists n, [], v. }
      exfalso. assert (partial ns (y ++ (c :: z) ++ u) (length ((c :: z) ++ u))) as Hpart.
      { exists n, y, ((c :: z) ++ u). repeat split; [done| |].
        - etrans; [|exact Hp]. exists b. by rewrite Hz, <- app_assoc.
        - assert (length v = length ((c :: z) ++ u ++ b)) as Hv by by rewrite <- Hz.
          rewrite !length_app in *. simpl in *. lia. }
      apply keep_max in Hpart. rewrite <- app_assoc in Hu. rewrite <- Hu in Hpart.
      rewrite length_app in Hpart. simpl in Hpart. lia.
    + exists n, z, v. done.
  - destruct (keep_partial (u ++ b)) as [?|(n & y & v & Hn & Heq & Hl & Hp & Hlt)]; [by left|right].
    rewrite <- Hl. exists n, (x ++ y), v. rewrite <- app_assoc, <- Heq. done.
Qed.

Lemma none_shift x u b n i :
  none_of ns (x ++ u) -> length u = keep ns (x ++ u) -> n ∈ ns ->
  occurs_at n (x ++ u ++ b) i -> length x <= i.
Proof.
  intros Hnone Hu Hn Hi. rewrite app_assoc in Hi.
  apply occurs_at_app_inv in Hi as [Hi|[(y & v & Heq & <- & Hp & Hl)|Hi]].
  - by apply Hnone in Hi.
  - assert (partial ns (x ++ u) (length v)) as Hv by (by exists n, y, v).
    apply keep_max in Hv. rewrite <- Hu in Hv. apply (f_equal length) in Heq.
    rewrite !length_app in Heq. lia.
  - rewrite length_app in Hi. lia.
Qed.

Lemma none_of_shift x u b :
  none_of ns (x ++ u) -> length u = keep ns (x ++ u) ->
  none_of ns (u ++ b) -> none_of ns (x ++ u ++ b).
Proof.
  intros Hnone Hu H n i Hn Hi. pose proof (none_shift x u b n i Hnone Hu Hn Hi) as Hle.
  replace i with (length x + (i - length x)) in Hi by lia. apply occurs_at_app_l in Hi. by apply H in Hi.
Qed.

Lemma first_of_shift x u b i j n :
  none_of ns (x ++ u) -> length u = keep ns (x ++ u) ->
  first_of ns (u ++ b) i j n -> first_of ns (x ++ u ++ b) (length x + i) j n.
Proof.
  intros Hnone Hu (Hj & Ho & Hmin). split; [done|]. split; [by apply occurs_at_app_l|].
  intros j' n' i' Hj' Ho'.
  pose proof (none_shift x u b n' i' Hnone Hu (list_elem_of_lookup_2 _ _ _ Hj') Ho') as Hle.
  replace i' with (length x + (i' - length x)) in Ho' by lia. apply occurs_at_app_l in Ho'.
  destruct (Hmin j' n' _ Hj' Ho') as [?|[? ?]]; [left; lia|right; split; [lia|done]].
Qed.

(** What has been found stays found when more text arrives. *)
Lemma first_of_app s b i j n :
  unambiguous ns -> first_of ns s i j n -> first_of ns (s ++ b) i j n.
Proof.
  intros Hun (Hj & Ho & Hmin). split; [done|]. split; [by apply occurs_at_app_r|].
  intros j' n' i' Hj' Ho'. destruct (occurs_at_app_inv n' s b i' Ho') as [H|[H|H]].
  - by eapply Hmin.
  - destruct H as (x & u & -> & <- & [r Hr] & Hl).
    destruct (decide (i < length x)) as [|Hge]; [by left|exfalso].
    replace i with (length x + (i - length x)) in Ho by lia. apply occurs_at_app_l in Ho.
    assert (n = n') as <-.
    { apply (Hun n n' (i - length x)); [by eapply list_elem_of_lookup_2..|].
      rewrite Hr. by apply occurs_at_app_r. }
    destruct Ho as (y & w & -> & _). rewrite !length_app in Hl. lia.
  - left. destruct Ho as (x & r & -> & <-). rewrite !length_app in H.
    assert (n <> []) as Hn by (rewrite Forall_forall in Hne; by eapply Hne, list_elem_of_lookup_2).
    destruct n; [done|simpl in *; lia].
Qed.

Lemma first_of_unique s i j n i' j' n' :
  first_of ns s i j n -> first_of ns s i' j' n' -> i = i' /\ j = j' /\ n = n'.
Proof.
  intros (Hj & Ho & Hm) (Hj' & Ho' & Hm').
  destruct (Hm _ _ _ Hj' Ho'), (Hm' _ _ _ Hj Ho); try lia.
  assert (j = j') as -> by lia. split; [lia|]. split; [done|congruence].
Qed.
End needle_lemmas.

(** ** The search for the next delimiter *)

Lemma cmp_open_spec p l i p' l' i' :
  cmp_open (p, l, i) (p', l', i') <> Gt <->
  p < p' \/ p = p' /\ (l' < l \/ l' = l /\ i <= i').
Proof.
  unfold cmp_open. destruct (Nat.compare_spec p p'); [|naive_solver lia..].
  destruct (Nat.compare_spec l' l); [|naive_solver lia..].
  destruct (Nat.compare_spec i i'); naive_solver lia.
Qed.

Lemma min_fold_spec l x :
  let m := fold_left (fun m y => match cmp_open m y with Gt => y | _ => m end) l x in
  m ∈ x :: l /\ forall y, y ∈ x :: l -> cmp_open m y <> Gt.
Proof.
  revert x. induction l as [|y l IH]; intros x; simpl.
  { split; [by left|]. intros y ->%list_elem_of_singleton. destruct x as [[??]?].
    apply cmp_open_spec. lia. }
  set (z := match cmp_open x y with Gt => y | _ => x end). destruct (IH z) as [Hin Hmin].
  assert (z = x /\ cmp_open x y <> Gt \/ z = y /\ cmp_open y x <> Gt) as Hz.
  { subst z. destruct (cmp_open x y) eqn:E; [by left..|right]. split; [done|].
    destruct x as [[p l1] i], y as [[p' l2] i']. apply cmp_open_spec.
    assert (~ cmp_open (p, l1, i) (p', l2, i') <> Gt) as Hn by congruence.
    rewrite cmp_open_spec in Hn. lia. }
  pose proof (Hmin z ltac:(by left)) as Hmz. set (m := fold_left _ l z) in *. split.
  - apply elem_of_cons in Hin as [->|Hin]; [|by do 2 right].
    destruct Hz as [[-> _]|[-> _]]; [by left|by right; left].
  - intros w Hw. destruct (decide (w = z)) as [->|Hwz]; [done|].
    assert (w ∈ l \/ cmp_open z w <> Gt) as [Hl|Hzw].
    { apply elem_of_cons in Hw as [->|[->|?]%elem_of_cons]; [..|by left]; right;
        destruct Hz as [[Hz ?]|[Hz ?]]; congruence. }
    + apply Hmin. by right.
    + destruct m as [[p l1] i], z as [[p' l2] i'], w as [[p'' l3] i''].
      rewrite cmp_open_spec in *. lia.
Qed.

Section search.
Context {T : Type} (sp : list (InlineTagSpec T)).

Notation candidates s :=
  (omap (fun '(idx, spec) =>
           (fun pos => (pos, len_utf8 (open spec), idx)) <$> find_sub (open spec) s)
        (imap pair sp)).

Lemma candidates_spec s p l j :
  (p, l, j) ∈ candidates s <->
  exists n, map open sp !! j = Some n /\ l = len_utf8 n /\ find_sub n s = Some p.
Proof.
  rewrite list_elem_of_omap. split.
  - intros ([j' spec] & (j'' & spec' & ? & Hj)%elem_of_lookup_imap_1 & Hf). simplify_eq.
    apply fmap_Some in Hf as (p' & Hp & ?). simplify_eq.
    exists (open spec'). by rewrite list_lookup_fmap, Hj.
  - intros (n & Hn & -> & Hp). rewrite list_lookup_fmap in Hn.
    apply fmap_Some in Hn as (spec & Hj & ->). exists (j, spec). split.
    + apply elem_of_lookup_imap. by exists j, spec.
    + by rewrite Hp.
Qed.

Lemma find_next_open_sound s i j :
  find_next_open sp s = Some (i, j) -> exists n, first_of (map open sp) s i j n.
Proof.
  unfold find_next_open, min_by. destruct (candidates s) as [|x l] eqn:E; [done|]. simpl.
  destruct (min_fold_spec l x) as [Hin Hmin].
  set (m := fold_left _ l x) in *. destruct m as [[p len] idx]. intros ?. simplify_eq.
  rewrite <- E in Hin. apply candidates_spec in Hin as (n & Hj & -> & Hf).
  apply find_sub_Some in Hf as [Ho Hfirst]. exists n. split; [done|]. split; [done|].
  intros j' n' i' Hj' Ho'. destruct (find_sub n' s) as [p'|] eqn:Hf'.
  2: { rewrite find_sub_None in Hf'. by apply Hf' in Ho'. }
  assert ((p', len_utf8 n', j') ∈ x :: l) as Hc.
  { rewrite <- E. apply candidates_spec. eauto. }
  apply Hmin, cmp_open_spec in Hc. apply find_sub_Some in Hf' as [_ Hf'].
  specialize (Hf' i' Ho'). lia.
Qed.

Lemma find_next_open_None s : find_next_open sp s = None <-> none_of (map open sp) s.
Proof.
  unfold find_next_open, min_by. split.
  - destruct (candidates s) as [|x l] eqn:E; [|by destruct (fold_left _ _ _) as [[??]?]].
    intros _ n i Hn Ho. apply list_elem_of_lookup in Hn as [j Hj].
    destruct (find_sub n s) as [p|] eqn:Hf; [|rewrite find_sub_None in Hf; by apply Hf in Ho].
    assert ((p, len_utf8 n, j) ∈ candidates s) as Hc by (apply candidates_spec; eauto).
    rewrite E in Hc. by apply elem_of_nil in Hc.
  - intros Hnone. destruct (candidates s) as [|[[p len] j] l] eqn:E; [done|exfalso].
    assert ((p, len, j) ∈ candidates s) as Hc by (rewrite E; by left).
    apply candidates_spec in Hc as (n & Hj & _ & Hf). apply find_sub_Some in Hf as [Ho _].
    exact (Hnone n p (list_elem_of_lookup_2 _ _ _ Hj) Ho).
Qed.

(** The search finds the earliest delimiter, the longest of those that begin there. *)
Lemma find_next_open_Some s i j :
  find_next_open sp s = Some (i, j) <-> exists n, first_of (map open sp) s i j n.
Proof.
  split; [apply find_next_open_sound|]. intros (n & Hf).
  destruct (find_next_open sp s) as [[i' j']|] eqn:E.
  - apply find_next_open_sound in E as (n' & Hf').
    destruct (first_of_unique _ _ _ _ _ _ _ _ Hf Hf') as (-> & -> & _). done.
  - apply find_next_open_None in E. destruct Hf as (Hj & Ho & _).
    exfalso. exact (E n i (list_elem_of_lookup_2 _ _ _ Hj) Ho).
Qed.
End search.

Lemma keep_specs {T} (sp : list (InlineTagSpec T)) s :
  max_open_prefix_suffix_len sp s = keep (map open sp) s.
Proof. unfold max_open_prefix_suffix_len, keep. by rewrite map_map. Qed.

Lemma keep_single n s : longest_suffix_prefix_len s n = keep [n] s.
Proof. unfold keep. simpl. lia. Qed.

Lemma none_of_single n s : find_sub n s = None <-> none_of [n] s.
Proof.
  rewrite find_sub_None. split.
  - intros H m i ->%list_elem_of_singleton. apply H.
  - intros H i. apply H. by left.
Qed.

Lemma first_of_single n s i : find_sub n s = Some i <-> first_of [n] s i 0 n.
Proof.
  rewrite find_sub_Some. split.
  - intros [Ho Hm]. split; [done|]. split; [done|]. intros [|j] m i' Hm' Ho'; simplify_eq/=.
    specialize (Hm i' Ho'). lia.
  - intros (_ & Ho & Hm). split; [done|]. intros k Hk. destruct (Hm 0 n k eq_refl Hk); lia.
Qed.

Lemma unambiguous_single n : unambiguous [n].
Proof. intros a b i ->%list_elem_of_singleton ->%list_elem_of_singleton _. done. Qed.

(** ** Runs of the loop *)

(** The specifications [new] accepts. *)
Definition valid_specs {T} (sp : list (InlineTagSpec T)) : Prop :=
  Forall (fun n => n <> []) (map open sp) /\ Forall (fun n => n <> []) (map close sp).

Definition grow {T} (act : ActiveTag T) (x : str) : ActiveTag T :=
  Active (active_tag act) (active_close act) (active_content act ++ x).

Definition found {T} (act : ActiveTag T) (x : str) : StreamTextChunk (ExtractedInlineTag T) :=
  Chunk [] [Extracted (active_tag act) (active_content act ++ x)].

(** [loops s a c s' a']: from buffer [s] and active tag [a] the loop emits [c] and stops with [s'] and
    [a']. *)
Inductive loops {T} (sp : list (InlineTagSpec T)) :
  str -> option (ActiveTag T) -> StreamTextChunk (ExtractedInlineTag T) ->
  str -> option (ActiveTag T) -> Prop :=
| loops_close act x r c s' a' :
    first_of [active_close act] (x ++ active_close act ++ r) (length x) 0 (active_close act) ->
    loops sp r None c s' a' ->
    loops sp (x ++ active_close act ++ r) (Some act) (chunk_app (found act x) c) s' a'
| loops_open spec j x r c s' a' :
    sp !! j = Some spec ->
    first_of (map open sp) (x ++ open spec ++ r) (length x) j (open spec) ->
    loops sp r (Some (Active (spec_tag spec) (close spec) [])) c s' a' ->
    loops sp (x ++ open spec ++ r) None (chunk_app (Chunk x []) c) s' a'
| loops_in act x u :
    none_of [active_close act] (x ++ u) -> length u = keep [active_close act] (x ++ u) ->
    loops sp (x ++ u) (Some act) default_chunk u (Some (grow act x))
| loops_out x u :
    none_of (map open sp) (x ++ u) -> length u = keep (map open sp) (x ++ u) ->
    loops sp (x ++ u) None (Chunk x []) u None.

Lemma push_visible_prefix_app {T} (out : StreamTextChunk (ExtractedInlineTag T)) x :
  push_visible_prefix out x = chunk_app out (Chunk x []).
Proof.
  unfold push_visible_prefix, chunk_app. destruct x; simpl; [|by rewrite app_nil_r].
  destruct out. simpl. by rewrite !app_nil_r.
Qed.

Lemma drop_app_add {A} (x y r : list A) : drop (length x + length y) (x ++ y ++ r) = r.
Proof. rewrite <- length_app, app_assoc. apply drop_app_length. Qed.

Lemma grow_nil {T} (act : ActiveTag T) : grow act [] = act.
Proof. destruct act. unfold grow. simpl. by rewrite app_nil_r. Qed.

Section loops.
Context {T : Type} (sp : list (InlineTagSpec T)) (Hsp : valid_specs sp).

Definition valid_active (a : option (ActiveTag T)) : Prop :=
  match a with Some act => active_close act <> [] | None => True end.

Lemma valid_opened spec j :
  sp !! j = Some spec -> open spec <> [] /\ valid_active (Some (Active (spec_tag spec) (close spec) [])).
Proof.
  destruct Hsp as [Ho Hc]. rewrite Forall_map, Forall_lookup in Ho, Hc.
  intros Hj. split; [exact (Ho _ _ Hj)|exact (Hc _ _ Hj)].
Qed.

(** The loop computes the run, with one unit of fuel more than the buffer has characters. *)
Lemma loops_push s a c s' a' :
  loops sp s a c s' a' -> valid_active a -> forall fuel out, length s < fuel ->
  push_loop fuel (Parser sp s a) out = Some (Parser sp s' a', chunk_app out c).
Proof.
  induction 1 as [act x r c s' a' Hf _ IH|spec j x r c s' a' Hj Hf _ IH|act x u Hn Hu|x u Hn Hu];
    intros Hv [|fuel] out Hfuel; try lia; cbn [push_loop active pending specs].
  - rewrite (proj2 (first_of_single _ _ _) Hf), take_app_length, drop_app_add.
    simpl in Hv. assert (0 < length (active_close act)) by (destruct (active_close act); [done|simpl; lia]).
    rewrite !length_app in Hfuel. rewrite IH; [|done|lia].
    unfold chunk_app. simpl. by rewrite <- app_assoc.
  - rewrite (proj2 (find_next_open_Some _ _ _ _) (ex_intro _ _ Hf)), Hj. simpl.
    rewrite take_app_length, drop_app_add, push_visible_prefix_app.
    destruct (valid_opened spec j Hj) as [Ho Hva].
    assert (0 < length (open spec)) by (destruct (open spec); [done|simpl; lia]).
    rewrite !length_app in Hfuel. rewrite IH; [|done|lia]. by rewrite chunk_app_assoc.
  - rewrite (proj2 (none_of_single _ _) Hn), keep_single, <- Hu, length_app.
    rewrite (Nat.add_sub (length x)), take_app_length, drop_app_length, chunk_app_nil_r.
    destruct x as [|ch x]; [by rewrite grow_nil|done].
  - rewrite (proj2 (find_next_open_None _ _) Hn), keep_specs, <- Hu.
    unfold drain_visible_to_suffix_match. cbn [pending specs active].
    rewrite length_app, (Nat.add_sub (length x)), take_app_length, drop_app_length.
    rewrite push_visible_prefix_app. destruct x as [|ch x]; simpl; [|done].
    do 2 f_equal. symmetry. apply chunk_app_nil_r.
Qed.

Lemma split_keep ns (s : str) (Hne : Forall (fun n => n <> []) ns) :
  exists x u, s = x ++ u /\ length u = keep ns (x ++ u).
Proof.
  exists (take (length s - keep ns s) s), (drop (length s - keep ns s) s).
  rewrite take_drop, length_drop. pose proof (keep_le ns Hne s). split; [done|lia].
Qed.

(** Every buffer has a run. *)
Lemma loops_total s a : valid_active a -> exists c s' a', loops sp s a c s' a' /\ valid_active a'.
Proof.
  revert a. induction s as [s IH] using (induction_ltof1 _ (@length _)). unfold ltof in IH. intros [act|] Hv.
  - destruct (find_sub (active_close act) s) as [i|] eqn:E.
    + apply first_of_single in E as Hf. destruct Hf as (_ & (x & r & -> & <-) & _).
      apply first_of_single in E. destruct (IH r) with (a := @None (ActiveTag T)) as (c & s' & a' & H & ?);
        [|done|by do 3 eexists; split; [apply loops_close; eauto|done]].
      simpl in Hv. destruct (active_close act); [done|]. rewrite !length_app. simpl. lia.
    + apply none_of_single in E.
      destruct (split_keep [active_close act] s) as (x & u & -> & Hu); [by constructor|].
      do 3 eexists. split; [by apply loops_in|done].
  - destruct (find_next_open sp s) as [[i j]|] eqn:E.
    + apply find_next_open_Some in E as (n & Hf). pose proof Hf as (Hj & (x & r & -> & <-) & _).
      rewrite list_lookup_fmap in Hj. apply fmap_Some in Hj as (spec & Hj & ->).
      destruct (valid_opened spec j Hj) as [Ho Hva].
      destruct (IH r) with (a := Some (Active (spec_tag spec) (close spec) [])) as (c & s' & a' & H & ?);
        [|done|by do 3 eexists; split; [eapply loops_open; eauto|done]].
      destruct (open spec); [done|]. rewrite !length_app. simpl. lia.
    + apply find_next_open_None in E. destruct (split_keep (map open sp) s) as (x & u & -> & Hu).
      { apply Hsp. }
      do 3 eexists. split; [by apply loops_out|done].
Qed.

Lemma loops_det s a c s' a' d t b :
  valid_active a -> loops sp s a c s' a' -> loops sp s a d t b -> c = d /\ s' = t /\ a' = b.
Proof.
  intros Hv H1 H2.
  pose proof (loops_push _ _ _ _ _ H1 Hv (S (length s)) default_chunk ltac:(lia)) as E1.
  pose proof (loops_push _ _ _ _ _ H2 Hv (S (length s)) default_chunk ltac:(lia)) as E2.
  rewrite E1 in E2. rewrite !chunk_app_nil_l in E2. by simplify_eq.
Qed.
Context (Hun : unambiguous (map open sp)).

Lemma grow_grow (act : ActiveTag T) x y : grow (grow act x) y = grow act (x ++ y).
Proof. unfold grow. simpl. by rewrite app_assoc. Qed.

Lemma found_grow (act : ActiveTag T) x y : found (grow act x) y = found act (x ++ y).
Proof. unfold found. simpl. by rewrite app_assoc. Qed.

(** The part of the buffer that a stopped run has given away does not change how it goes on. *)
Lemma loops_in_app act x u b d s2 a2 :
  valid_active (Some act) ->
  none_of [active_close act] (x ++ u) -> length u = keep [active_close act] (x ++ u) ->
  loops sp (u ++ b) (Some (grow act x)) d s2 a2 -> loops sp (x ++ u ++ b) (Some act) d s2 a2.
Proof.
  intros Hv Hn Hu. assert (Forall (fun n => n <> []) [active_close act]) as Hne by by constructor.
  inversion 1 as [act' y r c ? ? Hf H2 Es| |act' y v Hn' Hu' Es|]; subst; cbn [grow active_close] in *.
  - rewrite Es in Hf. apply (first_of_shift _ Hne x) in Hf; [|done..].
    rewrite <- Es in Hf. rewrite found_grow, (app_assoc x).
    apply loops_close; [|done]. by rewrite <- app_assoc, length_app.
  - rewrite Es in Hn', Hu'. rewrite grow_grow, app_assoc. apply loops_in; rewrite <- app_assoc, Es.
    + by apply none_of_shift.
    + rewrite Hu'. by apply keep_shift.
Qed.

Lemma loops_out_app x u b d s2 a2 :
  none_of (map open sp) (x ++ u) -> length u = keep (map open sp) (x ++ u) ->
  loops sp (u ++ b) None d s2 a2 -> loops sp (x ++ u ++ b) None (chunk_app (Chunk x []) d) s2 a2.
Proof.
  intros Hn Hu. destruct Hsp as [Hne _].
  inversion 1 as [|spec j y r c ? ? Hj Hf H2 Es| |y v Hn' Hu' Es]; subst.
  - rewrite Es in Hf. apply (first_of_shift _ Hne x) in Hf; [|done..].
    rewrite <- Es in Hf. rewrite chunk_app_assoc, (app_assoc x).
    eapply loops_open; [done| |done]. by rewrite <- app_assoc, length_app.
  - rewrite Es in Hn', Hu'. rewrite app_assoc. apply (loops_out sp (x ++ y)); rewrite <- app_assoc, Es.
    + by apply none_of_shift.
    + rewrite Hu'. by apply keep_shift.
Qed.

(** A run goes on when more text arrives: first [s], then [b], is [s ++ b] at once. *)
Lemma loops_app s a c s1 a1 b d s2 a2 :
  valid_active a -> loops sp s a c s1 a1 -> loops sp (s1 ++ b) a1 d s2 a2 ->
  loops sp (s ++ b) a (chunk_app c d) s2 a2.
Proof.
  intros Hv H. revert Hv d s2 a2.
  induction H as [act x r c s1 a1 Hf _ IH|spec j x r c s1 a1 Hj Hf _ IH|act x u Hn Hu|x u Hn Hu];
    intros Hv d s2 a2 H2; rewrite <- ?app_assoc.
  - rewrite <- chunk_app_assoc. apply loops_close; [|by apply IH].
    apply (first_of_app [active_close act]) with (b := b) in Hf;
      [by rewrite <- !app_assoc in Hf|by constructor|apply unambiguous_single].
  - rewrite <- chunk_app_assoc. destruct (valid_opened spec j Hj) as [? Hva].
    eapply loops_open; [done| |by apply IH].
    apply first_of_app with (b := b) in Hf; [by rewrite <- !app_assoc in Hf|apply Hsp|done].
  - rewrite chunk_app_nil_l. by apply loops_in_app.
  - by apply loops_out_app.
Qed.

(** A stopped parser has nothing left to do. *)
Lemma loops_settled s a c s' a' :
  valid_active a -> loops sp s a c s' a' -> loops sp s' a' default_chunk s' a'.
Proof.
  intros Hv H. revert Hv.
  induction H as [act x r c s1 a1 Hf _ IH|spec j x r c s1 a1 Hj Hf _ IH|act x u Hn Hu|x u Hn Hu];
    intros Hv.
  - by apply IH.
  - apply IH. by eapply valid_opened.
  - rewrite <- (grow_nil (grow act x)) at 2. apply (loops_in sp (grow act x) [] u).
    + intros n i Hin Ho. apply (Hn n (length x + i) Hin). by apply occurs_at_app_l.
    + simpl. pose proof (keep_shift [active_close act] ltac:(by constructor) x u [] Hu) as E.
      rewrite !app_nil_r in E. by rewrite E.
  - apply (loops_out sp [] u).
    + intros n i Hin Ho. apply (Hn n (length x + i) Hin). by apply occurs_at_app_l.
    + pose proof (keep_shift _ (proj1 Hsp) x u [] Hu) as E. rewrite !app_nil_r in E. by rewrite <- E in Hu.
Qed.
End loops.

(** ** The law *)

(** Between calls the buffer holds exactly what may be the beginning of a delimiter. *)
Definition settled {T} (p : InlineHiddenTagParser T) : Prop :=
  valid_specs (specs p) /\ unambiguous (map open (specs p)) /\ valid_active (active p) /\
  loops (specs p) (pending p) (active p) default_chunk (pending p) (active p).

Lemma push_str_loops {T} (p : InlineHiddenTagParser T) s :
  settled p -> exists c s' a', push_str p s = Some (Parser (specs p) s' a', c) /\
    loops (specs p) (pending p ++ s) (active p) c s' a' /\ settled (Parser (specs p) s' a').
Proof.
  intros (Hsp & Hun & Hv & _).
  destruct (loops_total (specs p) Hsp (pending p ++ s) (active p) Hv) as (c & s' & a' & H & Hv').
  exists c, s', a'. split; [|split; [done|]].
  - unfold push_str. cbn [pending]. rewrite (loops_push _ Hsp _ _ _ _ _ H Hv); [|lia].
    by rewrite chunk_app_nil_l.
  - split; [done|]. split; [done|]. split; [done|]. exact (loops_settled _ Hsp _ _ _ _ _ Hv H).
Qed.

#[global] Program Instance inline_laws T :
  StreamTextLaws (InlineHiddenTagParser T) (ExtractedInlineTag T) :=
  {| wf := settled; same := eq |}.
Next Obligation.
  intros T p s Hp. destruct (push_str_loops p s Hp) as (c & s' & a' & H & _ & Hs). by do 2 eexists.
Qed.
Next Obligation.
  intros T p Hp. destruct (push_str_loops p [] Hp) as (c & s' & a' & H & Hl & Hs).
  destruct Hp as (Hsp & _ & Hv & Hidle). rewrite app_nil_r in Hl.
  destruct (loops_det _ Hsp _ _ _ _ _ _ _ _ Hv Hl Hidle) as (-> & -> & ->).
  exists default_chunk. split; [|done]. destruct p. exact H.
Qed.
Next Obligation.
  intros T p a b p1 c1 p2 c2 Hp H1 H2. simpl in *.
  destruct (push_str_loops p a Hp) as (c & s & t & E1 & Hl1 & Hs). rewrite H1 in E1. simplify_eq.
  destruct (push_str_loops _ b Hs) as (d & s' & t' & E2 & Hl2 & _). rewrite H2 in E2. simplify_eq.
  destruct (push_str_loops p (a ++ b) Hp) as (e & s'' & t'' & E & Hl & _).
  destruct Hp as (Hsp & Hun & Hv & _). cbn [specs pending active] in *.
  pose proof (loops_app _ Hsp Hun _ _ _ _ _ _ _ _ _ Hv Hl1 Hl2) as Hl'. rewrite <- app_assoc in Hl'.
  destruct (loops_det _ Hsp _ _ _ _ _ _ _ _ Hv Hl Hl') as (-> & -> & ->). eauto.
Qed.

(** ** The reference *)

(** How a complete text splits into visible text and tagged contents: up to the earliest opening
    delimiter the text is visible; then comes the content, up to the earliest closing delimiter of that
    tag, or up to the end of the text. *)
Inductive hides {T} (sp : list (InlineTagSpec T)) :
  str -> StreamTextChunk (ExtractedInlineTag T) -> Prop :=
| hides_none s : none_of (map open sp) s -> hides sp s (Chunk s [])
| hides_tag spec j x body r c :
    sp !! j = Some spec ->
    first_of (map open sp) (x ++ open spec ++ body ++ close spec ++ r) (length x) j (open spec) ->
    first_of [close spec] (body ++ close spec ++ r) (length body) 0 (close spec) ->
    hides sp r c ->
    hides sp (x ++ open spec ++ body ++ close spec ++ r)
      (chunk_app (Chunk x [Extracted (spec_tag spec) body]) c)
| hides_unclosed spec j x body :
    sp !! j = Some spec ->
    first_of (map open sp) (x ++ open spec ++ body) (length x) j (open spec) ->
    none_of [close spec] body ->
    hides sp (x ++ open spec ++ body) (Chunk x [Extracted (spec_tag spec) body]).

Section reference.
Context {T : Type} (sp : list (InlineTagSpec T)) (Hsp : valid_specs sp).

(** The output of a run and of the [finish] after it. *)
Definition whole (c : StreamTextChunk (ExtractedInlineTag T)) s a :=
  chunk_app c (snd (finish (Parser sp s a))).

Lemma loops_hides s a c s' a' :
  loops sp s a c s' a' ->
  match a with
  | None => hides sp s (whole c s' a')
  | Some act =>
      (exists body r d, s = body ++ active_close act ++ r /\
         first_of [active_close act] s (length body) 0 (active_close act) /\
         hides sp r d /\ whole c s' a' = chunk_app (found act body) d) \/
      none_of [active_close act] s /\ whole c s' a' = found act s
  end.
Proof.
  unfold whole.
  induction 1 as [act x r c s' a' Hf _ IH|spec j x r c s' a' Hj Hf _ IH|act x u Hn Hu|x u Hn Hu].
  - left. eexists x, r, _. split; [done|]. split; [done|]. split; [exact IH|]. by rewrite chunk_app_assoc.
  - simpl in IH. destruct IH as [(body & r' & d & -> & Hc & Hd & E)|[Hc E]];
      rewrite <- chunk_app_assoc, E.
    + unfold found. rewrite chunk_app_assoc. unfold chunk_app at 2. simpl. rewrite app_nil_r.
      by eapply hides_tag.
    + unfold found, chunk_app. simpl. rewrite app_nil_r. by eapply hides_unclosed.
  - right. split; [done|]. unfold found, chunk_app. simpl. by rewrite app_assoc.
  - unfold chunk_app. simpl. by apply hides_none.
Qed.

Lemma hides_loops s c :
  hides sp s c -> exists c' s' a', loops sp s None c' s' a' /\ c = whole c' s' a'.
Proof.
  induction 1 as [s Hn|spec j x body r c Hj Hf Hc _ (c' & s' & a' & IH & ->)|spec j x body Hj Hf Hn].
  - destruct (split_keep (map open sp) s) as (x & u & -> & Hu); [apply Hsp|].
    do 3 eexists. by split; [apply loops_out|].
  - set (act := Active (spec_tag spec) (close spec) []).
    pose proof (loops_close sp act body r c' s' a' Hc IH) as H.
    pose proof (loops_open sp spec j x _ _ _ _ Hj Hf H) as H'. do 3 eexists. split; [exact H'|].
    unfold whole. rewrite !chunk_app_assoc. unfold chunk_app, found. simpl. by rewrite app_nil_r.
  - set (act := Active (spec_tag spec) (close spec) []). destruct (valid_opened sp Hsp spec j Hj) as [? Hv].
    destruct (split_keep [close spec] body) as (y & u & -> & Hu); [by constructor|].
    pose proof (loops_open sp spec j x _ _ _ _ Hj Hf (loops_in sp act y u Hn Hu)) as H'.
    do 3 eexists. split; [exact H'|]. unfold whole, chunk_app. simpl. by rewrite !app_nil_r.
Qed.

Lemma hides_det s c d : hides sp s c -> hides sp s d -> c = d.
Proof.
  intros (c' & s1 & a1 & H1 & ->)%hides_loops (d' & s2 & a2 & H2 & ->)%hides_loops.
  destruct (loops_det sp Hsp s None _ _ _ _ _ _ I H1 H2) as (-> & -> & ->). done.
Qed.
End reference.

Lemma new_settled {T} (sp : list (InlineTagSpec T)) p :
  new sp = Some p -> unambiguous (map open sp) -> p = Parser sp [] None /\ valid_specs sp /\ settled p.
Proof.
  unfold new. destruct (is_nil sp); [done|].
  destruct (existsb _ sp) eqn:E; [done|]. intros [= <-] Hun.
  assert (valid_specs sp) as Hsp.
  { split; apply Forall_map, Forall_forall; intros spec Hin Hnil.
    all: apply not_true_iff_false in E; apply E, existsb_exists; exists spec.
    all: rewrite <- list_elem_of_In, Hnil; split; [done|]; simpl; by rewrite ?orb_true_r. }
  split; [done|]. split; [done|]. split; [done|]. split; [done|]. split; [done|]. cbn.
  apply (loops_out sp [] []).
  - intros n i Hn (x & r & Heq & _). destruct Hsp as [Ho _]. rewrite Forall_forall in Ho.
    apply (Ho n Hn). destruct x, n; done.
  - pose proof (keep_le (map open sp) (proj1 Hsp) []). simpl in *. lia.
Qed.

Lemma stream_hides {T} (sp : list (InlineTagSpec T)) p chunks :
  new sp = Some p -> unambiguous (map open sp) ->
  exists out, stream p chunks = Some out /\ hides sp (concat chunks) out.
Proof.
  intros Hnew Hun. destruct (new_settled sp p Hnew Hun) as (-> & Hsp & Hset).
  destruct (feed_push (Parser sp [] None) chunks) as (p' & c & c' & Hf & _ & Hpush & Hsame); [exact Hset|].
  unfold stream. rewrite Hf. eexists. split; [done|]. simpl in Hsame. subst c'.
  destruct (push_str_loops _ (concat chunks) Hset) as (d & s' & a' & Hp & Hl & _).
  change (push_str (Parser sp [] None) (concat chunks) = Some (p', c)) in Hpush.
  rewrite Hpush in Hp. simplify_eq. exact (loops_hides sp _ _ _ _ _ Hl).
Qed.

(** However a text is cut into chunks, the parser for hidden tags returns after [finish] exactly the
    visible text and the tagged contents that the complete text has: it never panics, its loop ends,
    and its output is the only one the reference allows.  The opening delimiters must not contain one
    another. *)
Theorem hidden_tags_removed {T} (sp : list (InlineTagSpec T)) p chunks :
  new sp = Some p -> unambiguous (map open sp) ->
  exists out, stream p chunks = Some out /\ hides sp (concat chunks) out /\
    forall out', hides sp (concat chunks) out' -> out' = out.
Proof.
  intros Hnew Hun. destruct (stream_hides sp p chunks Hnew Hun) as (out & Hs & Hh).
  exists out. split; [done|]. split; [done|]. intros out' Hh'.
  destruct (new_settled sp p Hnew Hun) as (_ & Hsp & _). by eapply hides_det.
Qed.

Lemma hidden_tags_removed_witness :
  let sp := [InlineSpec Citation CITATION_OPEN CITATION_CLOSE] in
  let chunks := [lit "a <oai-mem-"; lit "citation>x</oai-mem-citatio"; lit "n> b"] in
  exists p out, new sp = Some p /\ stream p chunks = Some out /\
    out = Chunk (lit "a  b") [Extracted Citation (lit "x")] /\ hides sp (concat chunks) out.
Proof.
  intros sp chunks. exists (Parser sp [] None).
  destruct (hidden_tags_removed sp (Parser sp [] None) chunks) as (out & Hs & Hh & _).
  - vm_compute. reflexivity.
  - apply unambiguous_single.
  - exists out. split; [vm_compute; reflexivity|]. split; [exact Hs|]. split; [|exact Hh].
    assert (stream (Parser sp [] None) chunks
            = Some (Chunk (lit "a  b") [Extracted Citation (lit "x")])) as E
      by (vm_compute; reflexivity).
    exact (Some_inj _ _ (eq_trans (eq_sym Hs) E)).
Defined.

(** With delimiters that contain one another the output depends on the chunks: the longer delimiter is
    chosen only if all of it has arrived. *)
Lemma ambiguous_opens_depend_on_chunks :
  let sp := [InlineSpec 0 (lit "<a") (lit ">"); InlineSpec 1 (lit "<ab") (lit ">")] in
  exists p, new sp = Some p /\
    stream p [lit "<abx>"] = Some (Chunk [] [Extracted 1 (lit "x")]) /\
    stream p [lit "<a"; lit "bx>"] = Some (Chunk [] [Extracted 0 (lit "bx")]).
Proof. eexists. split; [vm_compute; reflexivity|]. split; vm_compute; reflexivity. Qed.

(** ** Citations *)

Lemma contents_app c d : contents (chunk_app c d) = chunk_app (contents c) (contents d).
Proof. unfold contents, chunk_app. simpl. by rewrite map_app. Qed.

Lemma push_citation_inner p s q c :
  push_citation p s = Some (q, c) <-> exists d, push_str (inner p) s = Some (inner q, d) /\ c = contents d.
Proof.
  unfold push_citation. destruct (push_str (inner p) s) as [[p' d]|]; simpl; [|naive_solver].
  destruct q. split; [intros; simplify_eq/=; eauto|]. intros (d' & ? & ->). by simplify_eq/=.
Qed.

#[global] Program Instance citation_laws : StreamTextLaws CitationStreamParser str :=
  {| wf p := settled (inner p); same := eq |}.
Next Obligation.
  intros p s Hp. destruct (push_str_loops _ s Hp) as (c & s' & a' & H & _ & Hs).
  eexists {| inner := _ |}, _. split; [apply push_citation_inner; simpl; eauto|done].
Qed.
Next Obligation.
  intros p Hp. destruct (push_nil (inner p)) as (c & H & Hc); [exact Hp|]. simpl in Hc. subst c.
  eexists. split; [apply push_citation_inner; eauto|done].
Qed.
Next Obligation.
  intros p a b p1 c1 p2 c2 Hp H1 H2. simpl in *.
  apply push_citation_inner in H1 as (d1 & H1 & ->). apply push_citation_inner in H2 as (d2 & H2 & ->).
  destruct (push_push (inner p) a b (inner p1) d1 (inner p2) d2) as (d & H & Hd); [exact Hp|exact H1|exact H2|]. simpl in Hd. subst d.
  eexists. split; [apply push_citation_inner; eauto|]. apply contents_app.
Qed.

Lemma first_of_marker c n x r : c ∉ x -> first_of [c :: n] (x ++ (c :: n) ++ r) (length x) 0 (c :: n).
Proof.
  intros Hx. apply first_of_single, find_sub_Some. split; [by exists x, r|].
  intros j (y & w & Heq & <-). simpl in Heq.
  apply app_eq_inv in Heq as [(k & -> & Hk)|(k & -> & _)]; [|rewrite length_app; lia].
  destruct k as [|d k]; [by rewrite app_nil_r|]. simplify_eq/=. set_solver.
Qed.

Lemma none_of_marker c n x : c ∉ x -> none_of [c :: n] x.
Proof. intros Hx m i ->%list_elem_of_singleton (y & w & -> & _). set_solver. Qed.

(** An answer with citations: visible pieces, each followed by a citation, and a last piece. *)
Definition LT : char := 60%N.
Fixpoint render_citations (pieces : list (str * str)) (rest : str) : str :=
  match pieces with
  | [] => rest
  | (x, body) :: pieces =>
      x ++ CITATION_OPEN ++ body ++ CITATION_CLOSE ++ render_citations pieces rest
  end.

Lemma hides_render pieces rest :
  Forall (fun '(x, body) => LT ∉ x /\ LT ∉ body) pieces -> LT ∉ rest ->
  hides [InlineSpec Citation CITATION_OPEN CITATION_CLOSE] (render_citations pieces rest)
    (Chunk (concat (map fst pieces) ++ rest) (map (fun '(_, body) => Extracted Citation body) pieces)).
Proof.
  intros Hp Hr. induction Hp as [|[x body] pieces [Hx Hb] _ IH]; simpl.
  - apply hides_none. by apply none_of_marker.
  - apply (hides_tag [InlineSpec Citation CITATION_OPEN CITATION_CLOSE]
             (InlineSpec Citation CITATION_OPEN CITATION_CLOSE) 0 x body) in IH.
    + unfold chunk_app in IH. simpl in IH. by rewrite app_assoc in IH.
    + done.
    + by apply (first_of_marker LT).
    + by apply (first_of_marker LT).
Qed.

Lemma contents_stream sp p chunks out :
  inner p = Parser sp [] None -> stream (inner p) chunks = Some out -> stream p chunks = Some (contents out).
Proof.
  intros _. unfold stream. revert p out.
  assert (forall p, feed p chunks = ('(q, c) ← feed (inner p) chunks; Some ({| inner := q |}, contents c)))
    as Hfeed.
  { induction chunks as [|s chunks IH]; intros p; [by destruct p|]. simpl.
    unfold push_citation. destruct (push_str (inner p) s) as [[q c]|]; [|done]. simpl. rewrite IH. simpl.
    destruct (feed q chunks) as [[q' c']|]; [|done]. simpl. by rewrite contents_app. }
  intros p out. rewrite Hfeed. destruct (feed (inner p) chunks) as [[q c]|]; [|done]. simpl.
  intros [= <-]. rewrite contents_app. unfold finish_citation. simpl. by destruct (finish q).
Qed.

(** Stripping a complete text is streaming it in one chunk. *)
Lemma strip_citations_stream p text c :
  new_citation = Some p -> stream p [text] = Some c ->
  strip_citations text = Some (visible_text c, extracted c).
Proof.
  intros Hp. unfold strip_citations, stream. rewrite Hp.
  cbn [StreamText.feed StreamText.push_str citation_parser mbind option_bind].
  destruct (push_citation p text) as [[q d]|]; [|done]. simpl. intros [= <-]. simpl.
  destruct (finish_citation q) as [q' t]. simpl. by rewrite !app_nil_r.
Qed.

Lemma new_citation_settled : exists p, new_citation = Some p /\ settled (inner p).
Proof.
  eexists. split; [reflexivity|]. simpl.
  by eapply (new_settled [InlineSpec Citation CITATION_OPEN CITATION_CLOSE]), unambiguous_single.
Qed.

(** Citations are taken out of a streamed answer: when an answer made of text and citations is
    streamed in any chunks, the visible text is the text and the extracted citations are the citations,
    in order; stripping the complete answer gives the same. *)
Theorem citations_roundtrip pieces rest chunks :
  Forall (fun '(x, body) => LT ∉ x /\ LT ∉ body) pieces -> LT ∉ rest ->
  concat chunks = render_citations pieces rest ->
  exists p, new_citation = Some p /\
    stream p chunks = Some (Chunk (concat (map fst pieces) ++ rest) (map snd pieces)) /\
    strip_citations (concat chunks) = Some (concat (map fst pieces) ++ rest, map snd pieces).
Proof.
  intros Hp Hr Hc. set (sp := [InlineSpec Citation CITATION_OPEN CITATION_CLOSE]).
  assert (valid_specs sp) as Hsp by by repeat constructor.
  exists {| inner := Parser sp [] None |}. split; [done|].
  assert (forall cs, concat cs = render_citations pieces rest ->
            stream {| inner := Parser sp [] None |} cs
            = Some (Chunk (concat (map fst pieces) ++ rest) (map snd pieces))) as H.
  { intros cs Hcs. destruct (stream_hides sp (Parser sp [] None) cs eq_refl (unambiguous_single _))
      as (out & Hs & Hh).
    rewrite Hcs in Hh. rewrite (hides_det sp Hsp _ _ _ Hh (hides_render pieces rest Hp Hr)) in Hs.
    apply (contents_stream sp {| inner := Parser sp [] None |}) in Hs; [|done]. rewrite Hs.
    unfold contents. simpl. rewrite map_map. do 2 f_equal. by apply map_ext; intros []. }
  split; [by apply H|]. specialize (H [concat chunks]). cbn [concat] in H. rewrite app_nil_r in H.
  by rewrite (strip_citations_stream _ _ _ eq_refl (H Hc)).
Qed.

Lemma citations_roundtrip_witness :
  let chunks := [lit "see <oai-mem"; lit "-citation>doc"; lit "</oai-mem-citation> there"] in
  strip_citations (concat chunks) = Some (lit "see  there", [lit "doc"]).
Proof.
  intros chunks.
  destruct (citations_roundtrip [(lit "see ", lit "doc")] (lit " there") chunks) as (p & _ & _ & H).
  - constructor; [|constructor]. split.
    + apply (bool_decide_eq_true_1 (LT ∉ lit "see ")). vm_compute. reflexivity.
    + apply (bool_decide_eq_true_1 (LT ∉ lit "doc")). vm_compute. reflexivity.
  - apply (bool_decide_eq_true_1 (LT ∉ lit " there")). vm_compute. reflexivity.
  - vm_compute. reflexivity.
  - exact H.
Defined.

End HiddenTags.
