(* ===== verification/TaggedLines.v ===== *)
(** * Tagged blocks of lines: utils/stream-parser/src/tagged_line_parser.rs, proposed_plan.rs

    The parser that recognises tags standing alone on a line in streamed text, and the parser of
    proposed plans built on it.  The code works character by character and decides as early as it can
    that a line is not a tag.  The reference [line_segments] looks at one complete line at a time.
    Segments of text that follow each other in one call are joined by the code, so outputs are compared
    after joining them ([joined]). *)

From S2P Require Import Prelude Text StreamText.

Module TaggedLines.
Import StreamText.

(** ** Data *)

(** [codex-rs/utils/stream-parser/src/tagged_line_parser.rs:7-11 TagSpec] *)
Record TagSpec (T : Type) := Spec { open : str; close : str; tag : T }.
Arguments Spec {_} _ _ _.
Arguments open {_} _.
Arguments close {_} _.
Arguments tag {_} _.

(** [codex-rs/utils/stream-parser/src/tagged_line_parser.rs:14-19 TaggedLineSegment] *)
Inductive TaggedLineSegment (T : Type) :=
| Normal (text : str)
| TagStart (t : T)
| TagDelta (t : T) (text : str)
| TagEnd (t : T).
Arguments Normal {_} _.
Arguments TagStart {_} _.
Arguments TagDelta {_} _ _.
Arguments TagEnd {_} _.

(** [codex-rs/utils/stream-parser/src/tagged_line_parser.rs:23-31 TaggedLineParser] *)
Record TaggedLineParser (T : Type) := Parser {
  specs : list (TagSpec T);
  active_tag : option T;
  detect_tag : bool;
  line_buffer : str
}.
Arguments Parser {_} _ _ _ _.
Arguments specs {_} _.
Arguments active_tag {_} _.
Arguments detect_tag {_} _.
Arguments line_buffer {_} _.

(** ** The code *)

Section code.
Context {T : Type} `{EqDecision T}.
Implicit Types (self : TaggedLineParser T) (segments : list (TaggedLineSegment T)).

(** [codex-rs/utils/stream-parser/src/tagged_line_parser.rs:37-44 new] *)
Definition new (specs : list (TagSpec T)) : TaggedLineParser T := Parser specs None true [].

(** [codex-rs/utils/stream-parser/src/tagged_line_parser.rs:169-199 push_segment] *)
Definition push_segment segments (segment : TaggedLineSegment T) : list (TaggedLineSegment T) :=
  match segment with
  | Normal delta =>
      if is_nil delta then segments
      else match last segments with
           | Some (Normal existing) => map_last (fun _ => Normal (existing ++ delta)) segments
           | _ => segments ++ [Normal delta]
           end
  | TagDelta t delta =>
      if is_nil delta then segments
      else match last segments with
           | Some (TagDelta existing_tag existing) =>
               if decide (existing_tag = t)
               then map_last (fun _ => TagDelta existing_tag (existing ++ delta)) segments
               else segments ++ [TagDelta t delta]
           | _ => segments ++ [TagDelta t delta]
           end
  | TagStart t => segments ++ [TagStart t]
  | TagEnd t => segments ++ [TagEnd t]
  end.

(** [codex-rs/utils/stream-parser/src/tagged_line_parser.rs:139-145 push_text] *)
Definition push_text self (text : str) segments : list (TaggedLineSegment T) :=
  match active_tag self with
  | Some t => push_segment segments (TagDelta t text)
  | None => push_segment segments (Normal text)
  end.

(** [codex-rs/utils/stream-parser/src/tagged_line_parser.rs:147-152 is_tag_prefix] *)
Definition is_tag_prefix self (slug : str) : bool :=
  let slug := trim_end slug in
  existsb (fun spec => starts_with slug (open spec) || starts_with slug (close spec)) (specs self).

(** [codex-rs/utils/stream-parser/src/tagged_line_parser.rs:154-159 match_open] *)
Definition match_open (specs : list (TagSpec T)) (slug : str) : option T :=
  tag <$> List.find (fun spec => bool_decide (open spec = slug)) specs.

(** [codex-rs/utils/stream-parser/src/tagged_line_parser.rs:161-166 match_close] *)
Definition match_close (specs : list (TagSpec T)) (slug : str) : option T :=
  tag <$> List.find (fun spec => bool_decide (close spec = slug)) specs.

(** The line without its line feed, trimmed on both sides. *)
Definition slug_of (line : str) : str :=
  trim_end (trim_start (default line (strip_suffix [NL] line))).

(** [codex-rs/utils/stream-parser/src/tagged_line_parser.rs:112-137 finish_line] *)
Definition finish_line self segments : TaggedLineParser T * list (TaggedLineSegment T) :=
  let line := line_buffer self in
  let slug := slug_of line in
  match match_open (specs self) slug, active_tag self with
  | Some t, None =>
      (Parser (specs self) (Some t) true [], push_segment segments (TagStart t))
  | _, _ =>
      match match_close (specs self) slug with
      | Some t =>
          if decide (active_tag self = Some t)
          then (Parser (specs self) None true [], push_segment segments (TagEnd t))
          else (Parser (specs self) (active_tag self) true [], push_text self line segments)
      | None => (Parser (specs self) (active_tag self) true [], push_text self line segments)
      end
  end.

(** [codex-rs/utils/stream-parser/src/tagged_line_parser.rs:50-75 parse] one turn of the loop; the
    state is the parser, the run and the segments. *)
Definition parse_char (st : TaggedLineParser T * str * list (TaggedLineSegment T)) (ch : char)
  : TaggedLineParser T * str * list (TaggedLineSegment T) :=
  let '(self, run, segments) := st in
  if detect_tag self then
    let segments := if is_nil run then segments else push_text self run segments in
    let self := Parser (specs self) (active_tag self) true (line_buffer self ++ [ch]) in
    if (ch =? NL)%N then
      let '(self, segments) := finish_line self segments in (self, [], segments)
    else
      let slug := trim_start (line_buffer self) in
      if is_nil slug || is_tag_prefix self slug then (self, [], segments)
      else
        let buffered := line_buffer self in
        let self := Parser (specs self) (active_tag self) false [] in
        (self, [], push_text self buffered segments)
  else
    let run := run ++ [ch] in
    if (ch =? NL)%N then
      (Parser (specs self) (active_tag self) true (line_buffer self), [], push_text self run segments)
    else (self, run, segments).

(** [codex-rs/utils/stream-parser/src/tagged_line_parser.rs:46-82 parse] *)
Definition parse self (delta : str) : TaggedLineParser T * list (TaggedLineSegment T) :=
  let '(self, run, segments) := fold_left parse_char delta (self, [], []) in
  (self, if is_nil run then segments else push_text self run segments).

(** [codex-rs/utils/stream-parser/src/tagged_line_parser.rs:84-110 finish] *)
Definition finish self : TaggedLineParser T * list (TaggedLineSegment T) :=
  let '(active, segments) :=
    if is_nil (line_buffer self) then (active_tag self, [])
    else
      let buffered := line_buffer self in
      let slug := slug_of buffered in
      match match_open (specs self) slug, active_tag self with
      | Some t, None => (Some t, push_segment [] (TagStart t))
      | _, _ =>
          match match_close (specs self) slug with
          | Some t =>
              if decide (active_tag self = Some t) then (None, push_segment [] (TagEnd t))
              else (active_tag self, push_text self buffered [])
          | None => (active_tag self, push_text self buffered [])
          end
      end in
  let segments := match active with Some t => push_segment segments (TagEnd t) | None => segments end in
  (Parser (specs self) None true [], segments).
End code.

(** ** Proposed plans *)

(** [codex-rs/utils/stream-parser/src/proposed_plan.rs:7-7 OPEN_TAG] *)
Definition OPEN_TAG : str := lit "<proposed_plan>".
(** [codex-rs/utils/stream-parser/src/proposed_plan.rs:8-8 CLOSE_TAG] *)
Definition CLOSE_TAG : str := lit "</proposed_plan>".

(** [codex-rs/utils/stream-parser/src/proposed_plan.rs:11-13 PlanTag] *)
Inductive PlanTag := ProposedPlan.

#[global] Instance PlanTag_eq_dec : EqDecision PlanTag.
Proof. solve_decision. Defined.

(** [codex-rs/utils/stream-parser/src/proposed_plan.rs:16-21 ProposedPlanSegment] *)
Inductive ProposedPlanSegment :=
| NormalText (text : str)
| ProposedPlanStart
| ProposedPlanDelta (text : str)
| ProposedPlanEnd.

(** [codex-rs/utils/stream-parser/src/proposed_plan.rs:29-31 ProposedPlanParser] *)
Record ProposedPlanParser := { parser : TaggedLineParser PlanTag }.

(** [codex-rs/utils/stream-parser/src/proposed_plan.rs:34-42 new] *)
Definition new_plan : ProposedPlanParser :=
  {| parser := new [Spec OPEN_TAG CLOSE_TAG ProposedPlan] |}.

(** The [match] of [map_segments]. *)
Definition map_segment (segment : TaggedLineSegment PlanTag) : ProposedPlanSegment :=
  match segment with
  | Normal text => NormalText text
  | TagStart ProposedPlan => ProposedPlanStart
  | TagDelta ProposedPlan text => ProposedPlanDelta text
  | TagEnd ProposedPlan => ProposedPlanEnd
  end.

(** [codex-rs/utils/stream-parser/src/proposed_plan.rs:63-84 map_segments] *)
Definition map_segments (segments : list (TaggedLineSegment PlanTag))
  : StreamTextChunk ProposedPlanSegment :=
  fold_left (fun out segment =>
    let mapped := map_segment segment in
    let visible := match mapped with
                   | NormalText text => visible_text out ++ text
                   | _ => visible_text out
                   end in
    Chunk visible (extracted out ++ [mapped])) segments default_chunk.

(** [codex-rs/utils/stream-parser/src/proposed_plan.rs:54-56 push_str] *)
Definition push_plan (self : ProposedPlanParser) (chunk : str)
  : ProposedPlanParser * StreamTextChunk ProposedPlanSegment :=
  let '(p, segments) := parse (parser self) chunk in ({| parser := p |}, map_segments segments).

(** [codex-rs/utils/stream-parser/src/proposed_plan.rs:58-60 finish] *)
Definition finish_plan (self : ProposedPlanParser)
  : ProposedPlanParser * StreamTextChunk ProposedPlanSegment :=
  let '(p, segments) := finish (parser self) in ({| parser := p |}, map_segments segments).

#[global] Instance plan_parser : StreamTextParser ProposedPlanParser ProposedPlanSegment :=
  {| StreamText.push_str p s := Some (push_plan p s); StreamText.finish := finish_plan |}.

(** [codex-rs/utils/stream-parser/src/proposed_plan.rs:86-91 strip_proposed_plan_blocks] *)
Definition strip_proposed_plan_blocks (text : str) : str :=
  let '(p, c) := push_plan new_plan text in
  visible_text c ++ visible_text (snd (finish_plan p)).

(** The body of the loop of [extract_proposed_plan_text]. *)
Definition extract_step (st : str * bool) (segment : ProposedPlanSegment) : str * bool :=
  let '(plan_text, saw_plan_block) := st in
  match segment with
  | ProposedPlanStart => ([], true)
  | ProposedPlanDelta delta => (plan_text ++ delta, saw_plan_block)
  | ProposedPlanEnd | NormalText _ => (plan_text, saw_plan_block)
  end.

(** [codex-rs/utils/stream-parser/src/proposed_plan.rs:93-115 extract_proposed_plan_text] *)
Definition extract_proposed_plan_text (text : str) : option str :=
  let '(p, c) := push_plan new_plan text in
  let '(plan_text, saw_plan_block) :=
    fold_left extract_step (extracted c ++ extracted (snd (finish_plan p))) ([], false) in
  if saw_plan_block then Some plan_text else None.

Definition nl (s : string) : str := lit s ++ [NL].

Example plan_example :
  extract_proposed_plan_text (nl "before" ++ nl " <proposed_plan> " ++ nl "- step" ++ nl "</proposed_plan>"
                              ++ lit "after")
  = Some (nl "- step").
Proof. vm_compute. reflexivity. Qed.

(** ** Joining segments *)

Section joining.
Context {T : Type} `{EqDecision T}.
Implicit Types (segments a b : list (TaggedLineSegment T)) (x y : TaggedLineSegment T).

(** Segments with adjacent texts of the same block joined. *)
Definition joined segments : list (TaggedLineSegment T) := fold_left push_segment segments [].

(** The text segment of the current block. *)
Definition text_of (active : option T) (text : str) : TaggedLineSegment T :=
  match active with Some t => TagDelta t text | None => Normal text end.

Lemma push_text_eq (self : TaggedLineParser T) text segments :
  push_text self text segments = push_segment segments (text_of (active_tag self) text).
Proof. unfold push_text. by destruct (active_tag self). Qed.

Lemma push_segment_nil segments active : push_segment segments (text_of active []) = segments.
Proof. by destruct active. Qed.

(** Pushing a segment leaves the list alone, joins it to the last segment or appends it. *)
Lemma push_segment_cases segments x :
  (exists active, x = text_of active []) \/
  (exists l active u v, segments = l ++ [text_of active u] /\ x = text_of active v /\
     push_segment segments x = l ++ [text_of active (u ++ v)]) \/
  push_segment segments x = segments ++ [x].
Proof.
  assert (forall y, last segments = Some y -> exists l, segments = l ++ [y]) as Hlast
    by apply last_snoc_inv.
  destruct x as [v|t|t v|t]; simpl; try (by right; right).
  - destruct v as [|c v]; [left; by exists None|]. simpl.
    destruct (last segments) as [[u|t|t u|t]|] eqn:E; try (by right; right).
    destruct (Hlast _ eq_refl) as [l ->]. right. left.
    exists l, None, u, (c :: v). by rewrite map_last_snoc.
  - destruct v as [|c v]; [left; by exists (Some t)|]. simpl.
    destruct (last segments) as [[u|t'|t' u|t']|] eqn:E; try (by right; right).
    destruct (decide (t' = t)) as [->|]; [|by right; right].
    destruct (Hlast _ eq_refl) as [l ->]. right. left.
    exists l, (Some t), u, (c :: v). by rewrite map_last_snoc.
Qed.

Lemma push_segment_join l active u v :
  u <> [] -> v <> [] ->
  push_segment (l ++ [text_of active u]) (text_of active v) = l ++ [text_of active (u ++ v)].
Proof.
  intros Hu Hv. destruct active as [t|], v; try done; simpl; rewrite last_snoc; simpl.
  - by rewrite decide_True, map_last_snoc.
  - by rewrite map_last_snoc.
Qed.

Lemma push_segment_text segments active u :
  u <> [] ->
  push_segment segments (text_of active u) = segments ++ [text_of active u] \/
  exists l e, segments = l ++ [text_of active e] /\
    forall v, v <> [] -> push_segment segments (text_of active v) = l ++ [text_of active (e ++ v)].
Proof.
  intros Hu. destruct active as [t|], u as [|c u]; try done; simpl.
  - destruct (last segments) as [[e|t'|t' e|t']|] eqn:E; try (by left).
    destruct (decide (t' = t)) as [->|]; [|by left]. right.
    apply last_snoc_inv in E as [l ->]. exists l, e. split; [done|]. intros [|d v] ?; [done|]. simpl.
    by rewrite map_last_snoc.
  - destruct (last segments) as [[e|t'|t' e|t']|] eqn:E; try (by left). right.
    apply last_snoc_inv in E as [l ->]. exists l, e. split; [done|]. intros [|d v] ?; [done|]. simpl.
    by rewrite map_last_snoc.
Qed.

(** Two texts of one block are one text. *)
Lemma push_segment_push segments active u v :
  push_segment (push_segment segments (text_of active u)) (text_of active v)
  = push_segment segments (text_of active (u ++ v)).
Proof.
  destruct (decide (u = [])) as [->|Hu]; [by rewrite push_segment_nil|].
  destruct (decide (v = [])) as [->|Hv]; [by rewrite push_segment_nil, app_nil_r|].
  assert (u ++ v <> []) as Huv by (by destruct u).
  destruct (push_segment_text segments active u Hu) as [E|(l & e & -> & E)].
  - rewrite E, push_segment_join by done.
    destruct (push_segment_text segments active (u ++ v) Huv) as [E'|(l & e & -> & E')]; [done|].
    rewrite E' in E by done. exfalso. apply (f_equal length) in E. rewrite !length_app in E.
    simpl in E. lia.
  - rewrite !E by done. destruct (decide (e = [])) as [->|He].
    + by rewrite push_segment_join.
    + rewrite push_segment_join, app_assoc; [done| |done]. by destruct e.
Qed.

Lemma fold_push_push l x s :
  fold_left push_segment (push_segment l x) s = push_segment (fold_left push_segment l s) x.
Proof.
  destruct (push_segment_cases l x) as [[active ->]|[(l' & active & u & v & -> & -> & ->)| -> ]].
  - by rewrite !push_segment_nil.
  - rewrite !fold_left_app. simpl. by rewrite push_segment_push.
  - by rewrite fold_left_app.
Qed.

Lemma fold_push_joined b s : fold_left push_segment b s = fold_left push_segment (joined b) s.
Proof.
  unfold joined. induction b as [|x b IH] using rev_ind; [done|].
  rewrite !fold_left_app. simpl. by rewrite fold_push_push, IH.
Qed.

Lemma joined_idemp b : joined (joined b) = joined b.
Proof. symmetry. apply fold_push_joined. Qed.

Lemma joined_app a b : joined (a ++ b) = joined (joined a ++ joined b).
Proof.
  unfold joined at 1 2. rewrite !fold_left_app. fold (joined a). fold (joined (joined a)).
  by rewrite joined_idemp, fold_push_joined.
Qed.

(** Equality up to joining. *)
Definition same_segments : relation (list (TaggedLineSegment T)) := fun a b => joined a = joined b.

#[global] Instance same_segments_equivalence : Equivalence same_segments.
Proof. split; red; unfold same_segments; congruence. Qed.

#[global] Instance same_segments_app : Proper (same_segments ==> same_segments ==> same_segments) app.
Proof.
  intros a a' Ha b b' Hb. unfold same_segments in *. by rewrite joined_app, Ha, Hb, <- joined_app.
Qed.

#[global] Instance joined_proper : Proper (same_segments ==> eq) joined.
Proof. by intros a b H. Qed.

Lemma same_joined a : same_segments (joined a) a.
Proof. apply joined_idemp. Qed.

Lemma same_text active u v :
  same_segments [text_of active u; text_of active v] [text_of active (u ++ v)].
Proof. unfold same_segments, joined. simpl. by rewrite push_segment_push. Qed.

Lemma same_text_nil active : same_segments [text_of active []] [].
Proof. unfold same_segments, joined. simpl. apply push_segment_nil. Qed.
End joining.

(** ** The reference: one line at a time *)

Section reference.
Context {T : Type} `{EqDecision T}.
Implicit Types (self : TaggedLineParser T) (sp : list (TagSpec T)) (active : option T).

(** What a complete line means: a tag that opens or closes a block, or text. *)
Definition line_segment sp active (line : str) : option T * TaggedLineSegment T :=
  match match_open sp (slug_of line), active with
  | Some t, None => (Some t, TagStart t)
  | _, _ =>
      match match_close sp (slug_of line) with
      | Some t => if decide (active = Some t) then (None, TagEnd t) else (active, text_of active line)
      | None => (active, text_of active line)
      end
  end.

Fixpoint line_segments sp active (ls : list str) : option T * list (TaggedLineSegment T) :=
  match ls with
  | [] => (active, [])
  | l :: ls =>
      let '(active, x) := line_segment sp active l in
      let '(active, xs) := line_segments sp active ls in (active, x :: xs)
  end.

(** A block that is still open at the end of the text is closed. *)
Definition text_segments sp (text : str) : list (TaggedLineSegment T) :=
  let '(active, xs) := line_segments sp None (split_inclusive NL text) in
  xs ++ match active with Some t => [TagEnd t] | None => [] end.

Lemma line_segments_app sp active ls ls' :
  line_segments sp active (ls ++ ls') =
  let '(active, xs) := line_segments sp active ls in
  let '(active, ys) := line_segments sp active ls' in (active, xs ++ ys).
Proof.
  revert active. induction ls as [|l ls IH]; intros active; simpl.
  - by destruct (line_segments sp active ls').
  - destruct (line_segment sp active l) as [a1 x]. rewrite IH.
    destruct (line_segments sp a1 ls) as [a2 xs]. by destruct (line_segments sp a2 ls').
Qed.

(** ** The code, one character at a time *)

(** What one character makes the parser emit, before joining. *)
Definition emit self (ch : char) : TaggedLineParser T * list (TaggedLineSegment T) :=
  let '(Parser sp active detect buffer) := self in
  if detect then
    let line := buffer ++ [ch] in
    if (ch =? NL)%N then
      let '(active, x) := line_segment sp active line in (Parser sp active true [], [x])
    else if is_nil (trim_start line) || is_tag_prefix self (trim_start line)
         then (Parser sp active true line, [])
         else (Parser sp active false [], [text_of active line])
  else (Parser sp active (ch =? NL)%N buffer, [text_of active [ch]]).

Fixpoint emits self (s : str) : TaggedLineParser T * list (TaggedLineSegment T) :=
  match s with
  | [] => (self, [])
  | ch :: s =>
      let '(self, xs) := emit self ch in
      let '(self, ys) := emits self s in (self, xs ++ ys)
  end.

Lemma emits_app self s t :
  emits self (s ++ t) =
  let '(self, xs) := emits self s in let '(self, ys) := emits self t in (self, xs ++ ys).
Proof.
  revert self. induction s as [|ch s IH]; intros self; simpl.
  - by destruct (emits self t).
  - destruct (emit self ch) as [p1 xs]. rewrite IH. destruct (emits p1 s) as [p2 ys].
    destruct (emits p2 t). by rewrite app_assoc.
Qed.

Lemma finish_line_eq self segments :
  finish_line self segments =
  let '(active, x) := line_segment (specs self) (active_tag self) (line_buffer self) in
  (Parser (specs self) active true [], push_segment segments x).
Proof. unfold finish_line, line_segment. rewrite push_text_eq. by repeat case_match. Qed.

Lemma parse_char_emit self run segments ch :
  (detect_tag self = true -> run = []) ->
  let '(self1, run1, segments1) := parse_char (self, run, segments) ch in
  let '(self2, xs) := emit self ch in
  self1 = self2 /\ (detect_tag self1 = true -> run1 = []) /\
  push_segment segments1 (text_of (active_tag self1) run1)
  = fold_left push_segment xs (push_segment segments (text_of (active_tag self) run)).
Proof.
  intros Hrun. destruct self as [sp active detect buffer]. unfold parse_char, emit.
  cbn [detect_tag line_buffer active_tag specs] in *. destruct detect.
  - rewrite Hrun by done. rewrite push_segment_nil. simpl. destruct (N.eqb_spec ch NL) as [->|].
    + rewrite finish_line_eq. simpl. destruct (line_segment sp active _) as [a x].
      simpl. by rewrite push_segment_nil.
    + change (is_tag_prefix (Parser sp active true (buffer ++ [ch])))
        with (is_tag_prefix (Parser sp active true buffer)).
      destruct (is_nil _ || _); simpl; [by rewrite push_segment_nil|].
      by rewrite push_text_eq, push_segment_nil.
  - destruct (N.eqb_spec ch NL) as [->|]; simpl; rewrite ?push_text_eq, ?push_segment_nil; simpl.
    + by rewrite push_segment_push.
    + by rewrite push_segment_push.
Qed.

Lemma parse_fold_emits s self run segments :
  (detect_tag self = true -> run = []) ->
  let '(self1, run1, segments1) := fold_left parse_char s (self, run, segments) in
  let '(self2, xs) := emits self s in
  self1 = self2 /\
  push_segment segments1 (text_of (active_tag self1) run1)
  = fold_left push_segment xs (push_segment segments (text_of (active_tag self) run)).
Proof.
  revert self run segments. induction s as [|ch s IH]; intros self run segments Hrun; [done|].
  cbn [fold_left emits]. pose proof (parse_char_emit self run segments ch Hrun) as H.
  destruct (parse_char _ ch) as [[p1 r1] g1]. destruct (emit self ch) as [p2 xs].
  destruct H as (-> & Hr1 & E). specialize (IH p2 r1 g1 Hr1).
  destruct (fold_left parse_char s (p2, r1, g1)) as [[p3 r3] g3]. destruct (emits p2 s) as [p4 ys].
  destruct IH as [-> E']. split; [done|]. by rewrite E', E, fold_left_app.
Qed.

(** [parse] emits character by character and joins. *)
Lemma parse_emits self s : parse self s = let '(self', xs) := emits self s in (self', joined xs).
Proof.
  unfold parse. pose proof (parse_fold_emits s self [] [] (fun _ => eq_refl)) as H.
  destruct (fold_left parse_char s (self, [], [])) as [[p1 r1] g1]. destruct (emits self s) as [p2 xs].
  destruct H as [-> E]. rewrite push_segment_nil in E. unfold joined. rewrite <- E.
  destruct r1; simpl; [by rewrite push_segment_nil|by rewrite push_text_eq].
Qed.
(** *** A line that is a tag is recognised as one as long as it is read *)

(** A line that begins like no tag is none. *)
Lemma not_tag_line self u v :
  v `prefix_of` u -> trim_start v <> [] -> is_tag_prefix self (trim_start v) = false ->
  match_open (specs self) (trim u) = None /\ match_close (specs self) (trim u) = None.
Proof.
  intros Hv Hne Hp. destruct (trim_prefix u v Hv) as [?|Hpre]; [done|].
  assert (forall spec, In spec (specs self) -> open spec <> trim u /\ close spec <> trim u) as H.
  { intros spec Hin. unfold is_tag_prefix in Hp.
    assert (starts_with (trim v) (trim u) = true) as Hs.
    { apply starts_with_spec. destruct Hpre as [k Hk]. by exists k. }
    split; intros E; apply not_true_iff_false in Hp; apply Hp, existsb_exists; exists spec.
    all: split; [done|]; fold (trim v); rewrite E, Hs; by rewrite ?orb_true_r. }
  unfold match_open, match_close. split; (destruct (List.find _ _) as [spec|] eqn:F; [|done]).
  all: apply List.find_some in F as [Hin E%bool_decide_eq_true_1]; by apply H in Hin as [??].
Qed.

Lemma slug_of_line u : slug_of (u ++ [NL]) = trim u.
Proof.
  unfold slug_of. destruct (strip_suffix [NL] (u ++ [NL])) as [r|] eqn:E.
  - apply strip_suffix_Some in E. apply app_inj_tail in E as [-> _]. done.
  - rewrite strip_suffix_None in E. by destruct (E u).
Qed.

Lemma slug_of_free u : NL ∉ u -> slug_of u = trim u.
Proof.
  intros Hu. unfold slug_of. destruct (strip_suffix [NL] u) as [r|] eqn:E; [|done].
  apply strip_suffix_Some in E. set_solver.
Qed.

(** Inside a line the parser either still holds all of it, or has given it away as text because it
    cannot be a tag. *)
Lemma emits_line sp active u :
  NL ∉ u -> let '(p, xs) := emits (Parser sp active true []) u in
  (p = Parser sp active true u /\ xs = []) \/
  (p = Parser sp active false [] /\ same_segments xs [text_of active u] /\
   exists v, v `prefix_of` u /\ trim_start v <> [] /\ is_tag_prefix (new sp) (trim_start v) = false).
Proof.
  induction u as [|ch u IH] using rev_ind; intros Hu; [by left|].
  rewrite emits_app. destruct (emits (Parser sp active true []) u) as [p xs].
  destruct IH as [[-> ->]|(-> & Hxs & v & Hv & Hne & Ht)]; [set_solver|..].
  - cbn [emits emit]. destruct (N.eqb_spec ch NL) as [->|_]; [set_solver|].
    destruct (is_nil (trim_start (u ++ [ch]))) eqn:En; [by left|]. cbn [orb].
    destruct (is_tag_prefix _ _) eqn:Et; [by left|]. right. split; [done|]. split; [done|].
    exists (u ++ [ch]). split; [done|]. split; [by destruct (trim_start (u ++ [ch]))|done].
  - cbn [emits emit]. destruct (N.eqb_spec ch NL) as [->|_]; [set_solver|].
    right. split; [done|]. split; [by rewrite Hxs, <- same_text|].
    exists v. split; [by apply prefix_app_r|done].
Qed.

Lemma line_segment_text sp active line :
  match_open sp (slug_of line) = None -> match_close sp (slug_of line) = None ->
  line_segment sp active line = (active, text_of active line).
Proof. intros Ho Hc. unfold line_segment. by rewrite Ho, Hc. Qed.

(** A complete line is handled as the reference says. *)
Lemma emits_complete_line sp active u :
  NL ∉ u -> exists xs, let '(active', x) := line_segment sp active (u ++ [NL]) in
    emits (Parser sp active true []) (u ++ [NL]) = (Parser sp active' true [], xs) /\
    same_segments xs [x].
Proof.
  intros Hu. rewrite emits_app. pose proof (emits_line sp active u Hu) as H.
  destruct (emits (Parser sp active true []) u) as [p xs].
  destruct H as [[-> ->]|(-> & Hxs & v & Hv & Hne & Ht)]; cbn [emits emit]; rewrite N.eqb_refl.
  - destruct (line_segment sp active (u ++ [NL])) as [a x]. by exists [x].
  - destruct (not_tag_line (new sp) u v Hv Hne Ht) as [Ho Hc]. eexists.
    rewrite line_segment_text by (by rewrite slug_of_line).
    split; [done|]. by rewrite Hxs, <- same_text.
Qed.

Definition closing active : list (TaggedLineSegment T) :=
  match active with Some t => [TagEnd t] | None => [] end.

Lemma finish_eq self :
  snd (finish self) =
  let '(active, xs) := line_segments (specs self) (active_tag self)
                         (if is_nil (line_buffer self) then [] else [line_buffer self]) in
  joined (xs ++ closing active).
Proof.
  unfold finish, closing, joined. destruct self as [sp active d buf]. cbn [line_buffer specs active_tag].
  destruct buf as [|c buf]; cbn [is_nil line_segments].
  - by destruct active.
  - unfold line_segment. rewrite push_text_eq. cbn [active_tag].
    by repeat case_match; simplify_eq/=.
Qed.

(** The end of a text, with or without a line that is not complete. *)
Lemma emits_last_line sp active u :
  NL ∉ u -> let '(p, xs) := emits (Parser sp active true []) u in
  let '(active', ys) := line_segments sp active (split_inclusive NL u) in
  same_segments (xs ++ snd (finish p)) (ys ++ closing active').
Proof.
  intros Hu. pose proof (emits_line sp active u Hu) as H.
  destruct (emits (Parser sp active true []) u) as [p xs].
  destruct (decide (u = [])) as [->|Hne].
  { destruct H as [[-> ->]|(_ & _ & v & Hv & Hv' & _)].
    - rewrite finish_eq. cbn. apply same_joined.
    - apply prefix_nil_inv in Hv as ->. done. }
  rewrite split_inclusive_free by done. destruct H as [[-> ->]|(-> & Hxs & v & Hv & Hv' & Ht)].
  - rewrite finish_eq. cbn [specs active_tag line_buffer]. destruct u as [|c u]; [done|].
    cbn [is_nil]. destruct (line_segments _ _ _) as [a ys]. apply same_joined.
  - rewrite finish_eq. cbn [specs active_tag line_buffer is_nil line_segments].
    destruct (not_tag_line (new sp) u v Hv Hv' Ht) as [Ho Hc].
    rewrite line_segment_text by (by rewrite slug_of_free). by rewrite same_joined, Hxs.
Qed.

(** A whole text. *)
Lemma emits_text sp active text :
  let '(p, xs) := emits (Parser sp active true []) text in
  let '(active', ys) := line_segments sp active (split_inclusive NL text) in
  same_segments (xs ++ snd (finish p)) (ys ++ closing active').
Proof.
  revert active. induction text as [text IH] using (induction_ltof1 _ (@length _)). unfold ltof in IH.
  intros active. destruct (decide (NL ∈ text)) as [Hin|Hin]; [|by apply emits_last_line].
  apply list_elem_of_split_l in Hin as (u & rest & -> & Hu).
  rewrite split_inclusive_line by done. cbn [line_segments].
  change (NL :: rest) with ([NL] ++ rest). rewrite app_assoc, emits_app.
  destruct (emits_complete_line sp active u Hu) as (xs & H).
  destruct (line_segment sp active (u ++ [NL])) as [a x]. destruct H as [-> Hx].
  specialize (IH rest). rewrite length_app in IH. specialize (IH ltac:(simpl; lia) a).
  destruct (emits (Parser sp a true []) rest) as [p ys].
  destruct (line_segments sp a (split_inclusive NL rest)) as [a' zs].
  rewrite <- app_assoc, Hx, IH. done.
Qed.
End reference.

(** ** Streams *)

Section streams.
Context {T : Type} `{EqDecision T}.

(** The calls of [parse] on a stream of chunks. *)
Fixpoint parse_chunks (self : TaggedLineParser T) (chunks : list str)
  : TaggedLineParser T * list (TaggedLineSegment T) :=
  match chunks with
  | [] => (self, [])
  | s :: chunks =>
      let '(self, xs) := parse self s in
      let '(self, ys) := parse_chunks self chunks in (self, xs ++ ys)
  end.

Lemma parse_chunks_emits self chunks :
  let '(p, xs) := parse_chunks self chunks in
  let '(q, ys) := emits self (concat chunks) in p = q /\ same_segments xs ys.
Proof.
  revert self. induction chunks as [|s chunks IH]; intros self; [done|]. cbn [parse_chunks concat].
  rewrite parse_emits, emits_app. destruct (emits self s) as [p xs]. specialize (IH p).
  destruct (parse_chunks p chunks) as [p' ys]. destruct (emits p (concat chunks)) as [q zs].
  destruct IH as [-> Hys]. split; [done|]. by rewrite same_joined, Hys.
Qed.

(** The streaming parser of tagged blocks, which reads character by character and gives text away
    as soon as it cannot be a tag, finds exactly the blocks that the complete lines of the text have,
    in whatever chunks the text arrives: a tag counts when it stands alone on its line, and a block
    that is open at the end is closed. *)
Theorem tagged_lines_by_line (sp : list (TagSpec T)) chunks :
  let '(p, xs) := parse_chunks (new sp) chunks in
  joined (xs ++ snd (finish p)) = joined (text_segments sp (concat chunks)).
Proof.
  pose proof (parse_chunks_emits (new sp) chunks) as H1. pose proof (emits_text sp None (concat chunks)) as H2.
  unfold new, text_segments in *. destruct (parse_chunks _ chunks) as [p xs].
  destruct (emits _ (concat chunks)) as [q ys]. destruct H1 as [-> H1].
  destruct (line_segments sp None _) as [a zs].
  change (same_segments (xs ++ snd (finish q)) (zs ++ closing a)). by rewrite H1.
Qed.

(** A fold that takes two texts of a block like one does not see how segments are joined. *)
Lemma fold_joined {A} (f : A -> TaggedLineSegment T -> A) :
  (forall s active, f s (text_of active []) = s) ->
  (forall s active u v, f (f s (text_of active u)) (text_of active v) = f s (text_of active (u ++ v))) ->
  forall l s, fold_left f (joined l) s = fold_left f l s.
Proof.
  intros Hnil Happ l s. unfold joined.
  induction l as [|x l IH] using rev_ind; [done|]. rewrite !fold_left_app. simpl. rewrite <- IH.
  destruct (push_segment_cases (fold_left push_segment l []) x)
    as [[active ->]|[(l' & active & u & v & E & -> & ->)| -> ]].
  - by rewrite push_segment_nil, Hnil.
  - rewrite E, !fold_left_app. simpl. by rewrite Happ.
  - by rewrite fold_left_app.
Qed.

Lemma fold_same {A} (f : A -> TaggedLineSegment T -> A) a b s :
  (forall s active, f s (text_of active []) = s) ->
  (forall s active u v, f (f s (text_of active u)) (text_of active v) = f s (text_of active (u ++ v))) ->
  same_segments a b -> fold_left f a s = fold_left f b s.
Proof. intros Hnil Happ H. by rewrite <- (fold_joined f Hnil Happ a), H, fold_joined. Qed.
End streams.

(** ** Plans *)

Definition unmap_segment (segment : ProposedPlanSegment) : TaggedLineSegment PlanTag :=
  match segment with
  | NormalText text => Normal text
  | ProposedPlanStart => TagStart ProposedPlan
  | ProposedPlanDelta text => TagDelta ProposedPlan text
  | ProposedPlanEnd => TagEnd ProposedPlan
  end.

Lemma unmap_map xs : map unmap_segment (map map_segment xs) = xs.
Proof. induction xs as [|[?|[]|[] ?|[]] xs IH]; simpl; [done|by rewrite IH..]. Qed.

Lemma map_unmap xs : map map_segment (map unmap_segment xs) = xs.
Proof. induction xs as [|[?| |?|] xs IH]; simpl; [done|by rewrite IH..]. Qed.

(** The text outside blocks. *)
Definition normal_step (out : str) (x : TaggedLineSegment PlanTag) : str :=
  match x with Normal text => out ++ text | _ => out end.
Definition normal_text (xs : list (TaggedLineSegment PlanTag)) : str := fold_left normal_step xs [].

Lemma map_segments_eq xs : map_segments xs = Chunk (normal_text xs) (map map_segment xs).
Proof.
  unfold map_segments, normal_text, default_chunk.
  enough (forall v e, fold_left _ xs (Chunk v e)
            = Chunk (fold_left normal_step xs v) (e ++ map map_segment xs)) as H by apply H.
  induction xs as [|x xs IH]; intros v e; simpl; [by rewrite app_nil_r|].
  rewrite IH. rewrite <- app_assoc. by destruct x as [?|[]|[] ?|[]].
Qed.

Lemma normal_text_same a b v : same_segments a b -> fold_left normal_step a v = fold_left normal_step b v.
Proof.
  apply fold_same.
  - intros s [[]|]; simpl; [done|by rewrite app_nil_r].
  - intros s [[]|] x y; simpl; [done|by rewrite app_assoc].
Qed.

Lemma normal_step_shift xs v : fold_left normal_step xs v = v ++ normal_text xs.
Proof.
  unfold normal_text. revert v. induction xs as [|x xs IH]; intros v; simpl; [by rewrite app_nil_r|].
  rewrite (IH (normal_step v x)), (IH (normal_step [] x)).
  destruct x; simpl; by rewrite ?app_assoc.
Qed.

Lemma normal_text_app a b : normal_text (a ++ b) = normal_text a ++ normal_text b.
Proof. unfold normal_text. by rewrite fold_left_app, normal_step_shift. Qed.

Lemma fold_left_map {A B C} (f : A -> C -> A) (g : B -> C) l s :
  fold_left f (map g l) s = fold_left (fun s x => f s (g x)) l s.
Proof. revert s. induction l as [|x l IH]; intros s; simpl; [done|apply IH]. Qed.

Lemma extract_same a b st :
  same_segments a b ->
  fold_left extract_step (map map_segment a) st = fold_left extract_step (map map_segment b) st.
Proof.
  rewrite !fold_left_map. apply (fold_same (fun s x => extract_step s (map_segment x))).
  - intros [t saw] [[]|]; simpl; [by rewrite app_nil_r|done].
  - intros [t saw] [[]|] x y; simpl; [by rewrite app_assoc|done].
Qed.

(** Outputs of the plan parser are compared up to joining. *)
Definition same_plan (c d : StreamTextChunk ProposedPlanSegment) : Prop :=
  visible_text c = visible_text d /\
  same_segments (map unmap_segment (extracted c)) (map unmap_segment (extracted d)).

#[global] Instance same_plan_equivalence : Equivalence same_plan.
Proof.
  split.
  - by intros c.
  - intros c d [? ?]. by split.
  - intros c d e [? H1] [? H2]. split; [congruence|by rewrite H1].
Qed.

#[global] Instance same_plan_app : Proper (same_plan ==> same_plan ==> same_plan) chunk_app.
Proof.
  intros c c' [H1 H2] d d' [H3 H4]. split; simpl; [by rewrite H1, H3|].
  by rewrite !map_app, H2, H4.
Qed.

Lemma same_plan_segments xs ys :
  same_segments xs ys -> same_plan (map_segments xs) (map_segments ys).
Proof.
  intros H. rewrite !map_segments_eq. split; simpl; [by apply normal_text_same|].
  by rewrite !unmap_map.
Qed.

Lemma chunk_app_segments xs ys :
  chunk_app (map_segments xs) (map_segments ys) = map_segments (xs ++ ys).
Proof. rewrite !map_segments_eq, map_app, normal_text_app. done. Qed.

Lemma push_plan_emits p s :
  push_plan p s =
  let '(q, xs) := emits (parser p) s in ({| parser := q |}, map_segments (joined xs)).
Proof. unfold push_plan. rewrite parse_emits. by destruct (emits (parser p) s). Qed.

#[global] Program Instance plan_laws : StreamTextLaws ProposedPlanParser ProposedPlanSegment :=
  {| wf _ := True; same := same_plan |}.
Next Obligation. intros p s _. simpl. destruct (push_plan p s) as [q c]. by exists q, c. Qed.
Next Obligation.
  intros [p] _. exists default_chunk. simpl. by rewrite push_plan_emits.
Qed.
Next Obligation.
  intros p a b p1 c1 p2 c2 _ H1 H2. simpl in *. rewrite push_plan_emits in *.
  rewrite emits_app. destruct (emits (parser p) a) as [q xs]. simplify_eq. simpl in H2.
  destruct (emits q b) as [q' ys]. simplify_eq. eexists. split; [done|].
  rewrite chunk_app_segments. apply same_plan_segments. by rewrite !same_joined.
Qed.

Notation plan_specs := [Spec OPEN_TAG CLOSE_TAG ProposedPlan].

(** A stream of plan text gives the segments of its lines. *)
Lemma stream_plan chunks :
  exists c, stream new_plan chunks = Some c /\
    same_plan c (map_segments (text_segments plan_specs (concat chunks))).
Proof.
  destruct (feed_push new_plan chunks) as (p & c & c' & Hf & _ & Hp & Hs); [exact I|].
  unfold stream. rewrite Hf. eexists. split; [done|]. cbn [mbind option_bind] in *.
  cbn [StreamText.push_str plan_parser] in Hp. rewrite push_plan_emits in Hp.
  pose proof (emits_text plan_specs None (concat chunks)) as H.
  change (parser new_plan) with (Parser plan_specs None true []) in Hp. unfold text_segments.
  destruct (emits (Parser plan_specs None true []) (concat chunks)) as [q xs]. simplify_eq/=.
  destruct (line_segments plan_specs None (split_inclusive NL (concat chunks))) as [a zs].
  change (same_plan c (map_segments (joined xs))) in Hs. rewrite Hs.
  unfold finish_plan. simpl. destruct (finish q) as [q' ys]. simpl in *.
  rewrite chunk_app_segments. apply same_plan_segments. by rewrite same_joined.
Qed.

(** Text in which no line is a tag. *)
Definition plain (text : str) : Prop :=
  Forall (fun l => slug_of l <> OPEN_TAG /\ slug_of l <> CLOSE_TAG) (split_inclusive NL text).

Definition complete (text : str) : Prop := text = [] \/ exists t, text = t ++ [NL].

Lemma split_inclusive_complete a b :
  complete a -> split_inclusive NL (a ++ b) = split_inclusive NL a ++ split_inclusive NL b.
Proof. intros [->|[t ->]]; [done|]. rewrite <- app_assoc. apply split_inclusive_app. Qed.

Lemma plan_line_plain active l :
  slug_of l <> OPEN_TAG /\ slug_of l <> CLOSE_TAG ->
  line_segment plan_specs active l = (active, text_of active l).
Proof.
  intros [Ho Hc]. apply line_segment_text; unfold match_open, match_close; simpl.
  - by rewrite bool_decide_eq_false_2.
  - by rewrite bool_decide_eq_false_2.
Qed.

Lemma plan_lines_plain active ls :
  Forall (fun l => slug_of l <> OPEN_TAG /\ slug_of l <> CLOSE_TAG) ls ->
  line_segments plan_specs active ls = (active, map (text_of active) ls).
Proof.
  induction 1 as [|l ls Hl _ IH]; [done|]. cbn [line_segments]. by rewrite plan_line_plain, IH.
Qed.

Lemma plan_line_open l :
  slug_of l = OPEN_TAG -> line_segment plan_specs None l = (Some ProposedPlan, TagStart ProposedPlan).
Proof. intros H. unfold line_segment. by rewrite H. Qed.

Lemma plan_line_close l :
  slug_of l = CLOSE_TAG -> line_segment plan_specs (Some ProposedPlan) l = (None, TagEnd ProposedPlan).
Proof. intros H. unfold line_segment. by rewrite H. Qed.

Lemma normal_text_normal ls : normal_text (map (text_of None) ls) = concat ls.
Proof.
  induction ls as [|l ls IH]; [done|]. change (map (text_of None) (l :: ls))
    with ([@Normal PlanTag l] ++ map (text_of None) ls). by rewrite normal_text_app, IH.
Qed.

Lemma normal_text_plan ls : normal_text (map (text_of (Some ProposedPlan)) ls) = [].
Proof. unfold normal_text. by induction ls. Qed.

Lemma extract_normal ls st :
  fold_left extract_step (map map_segment (map (text_of None) ls)) st = st.
Proof. revert st. induction ls as [|l ls IH]; intros [t saw]; [done|]. simpl. apply IH. Qed.

Lemma extract_plan ls t saw :
  fold_left extract_step (map map_segment (map (text_of (Some ProposedPlan)) ls)) (t, saw)
  = (t ++ concat ls, saw).
Proof.
  revert t. induction ls as [|l ls IH]; intros t; simpl; [by rewrite app_nil_r|].
  by rewrite IH, app_assoc.
Qed.

(** The segments of a text with one plan block. *)
Lemma text_segments_block pre o plan c post :
  plain pre -> complete pre -> NL ∉ o -> trim o = OPEN_TAG ->
  plain plan -> complete plan -> NL ∉ c -> trim c = CLOSE_TAG -> plain post ->
  text_segments plan_specs (pre ++ (o ++ [NL]) ++ plan ++ (c ++ [NL]) ++ post) =
    map (text_of None) (split_inclusive NL pre) ++ [TagStart ProposedPlan] ++
    map (text_of (Some ProposedPlan)) (split_inclusive NL plan) ++ [TagEnd ProposedPlan] ++
    map (text_of None) (split_inclusive NL post).
Proof.
  intros Hpre Cpre Ho Eo Hplan Cplan Hc Ec Hpost. unfold text_segments.
  rewrite split_inclusive_complete by done. rewrite (split_inclusive_complete (o ++ [NL])) by (right; eauto).
  rewrite (split_inclusive_complete plan) by done.
  rewrite (split_inclusive_complete (c ++ [NL])) by (right; eauto).
  rewrite (split_inclusive_line NL o []), (split_inclusive_line NL c []) by done. simpl.
  rewrite line_segments_app, plan_lines_plain by done. cbn [line_segments].
  rewrite plan_line_open by (by rewrite slug_of_line).
  rewrite line_segments_app, plan_lines_plain by done. cbn [line_segments].
  rewrite plan_line_close by (by rewrite slug_of_line).
  rewrite plan_lines_plain by done. cbn iota beta. by rewrite app_nil_r.
Qed.

Lemma stream_single (p : ProposedPlanParser) text c :
  stream p [text] = Some c ->
  let '(q, d) := push_plan p text in c = chunk_app d (snd (finish_plan q)).
Proof.
  unfold stream. simpl. destruct (push_plan p text) as [q d]. simpl. intros [= <-].
  by rewrite chunk_app_nil_r.
Qed.

(** A proposed plan between an opening and a closing tag line is taken out of the answer: whatever
    the chunks, the visible text is the text around the block, stripping the block from the complete
    text gives the same, and the extracted plan is the text between the tags.  The tag lines may be
    indented and followed by blanks. *)
Theorem proposed_plan_roundtrip pre o plan c post chunks :
  plain pre -> complete pre -> NL ∉ o -> trim o = OPEN_TAG ->
  plain plan -> complete plan -> NL ∉ c -> trim c = CLOSE_TAG -> plain post ->
  concat chunks = pre ++ (o ++ [NL]) ++ plan ++ (c ++ [NL]) ++ post ->
  (exists out, stream new_plan chunks = Some out /\ visible_text out = pre ++ post) /\
  strip_proposed_plan_blocks (concat chunks) = pre ++ post /\
  extract_proposed_plan_text (concat chunks) = Some plan.
Proof.
  intros Hpre Cpre Ho Eo Hplan Cplan Hc Ec Hpost E.
  pose proof (text_segments_block pre o plan c post Hpre Cpre Ho Eo Hplan Cplan Hc Ec Hpost) as Hseg.
  rewrite <- E in Hseg. set (segs := text_segments plan_specs (concat chunks)) in *.
  assert (normal_text segs = pre ++ post) as Hn.
  { rewrite Hseg, !normal_text_app, !normal_text_normal, normal_text_plan. cbn.
    by rewrite !concat_split_inclusive. }
  assert (fold_left extract_step (map map_segment segs) ([], false) = (plan, true)) as Hx.
  { rewrite Hseg, !map_app, !fold_left_app, !extract_normal.
    cbn [map fold_left map_segment extract_step]. by rewrite extract_plan, concat_split_inclusive. }
  destruct (stream_plan chunks) as (out & Hs & Hv & _).
  destruct (stream_plan [concat chunks]) as (out' & Hs' & Hv' & Hseg').
  cbn [concat] in Hv', Hseg'. rewrite app_nil_r in Hv', Hseg'. fold segs in Hv, Hv', Hseg'.
  rewrite map_segments_eq in Hv, Hv', Hseg'. cbn [visible_text extracted] in *. rewrite unmap_map in Hseg'.
  apply stream_single in Hs'. unfold strip_proposed_plan_blocks, extract_proposed_plan_text.
  destruct (push_plan new_plan (concat chunks)) as [q d]. subst out'. cbn in Hv', Hseg'.
  split; [|split].
  - exists out. split; [done|]. by rewrite Hv.
  - by rewrite Hv'.
  - rewrite <- (map_unmap (extracted d ++ extracted (snd (finish_plan q)))).
    by rewrite (extract_same _ segs), Hx.
Qed.

Lemma proposed_plan_roundtrip_witness :
  let text := nl "before" ++ nl " <proposed_plan> " ++ nl "- step" ++ nl "</proposed_plan>" ++ lit "after" in
  extract_proposed_plan_text (concat [take 20 text; drop 20 text]) = Some (nl "- step").
Proof.
  intros text.
  assert (forall a b : str, a <> b <-> bool_decide (a = b) = false) as Hdec
    by (intros a b; by rewrite bool_decide_eq_false).
  destruct (proposed_plan_roundtrip (nl "before") (lit " <proposed_plan> ") (nl "- step")
              (lit "</proposed_plan>") (lit "after") [take 20 text; drop 20 text])
    as (_ & _ & H).
  - repeat constructor; apply Hdec; vm_compute; reflexivity.
  - right. by exists (lit "before").
  - apply (bool_decide_eq_true_1 (NL ∉ lit " <proposed_plan> ")). vm_compute. reflexivity.
  - vm_compute. reflexivity.
  - repeat constructor; apply Hdec; vm_compute; reflexivity.
  - right. by exists (lit "- step").
  - apply (bool_decide_eq_true_1 (NL ∉ lit "</proposed_plan>")). vm_compute. reflexivity.
  - vm_compute. reflexivity.
  - repeat constructor; apply Hdec; vm_compute; reflexivity.
  - vm_compute. reflexivity.
  - exact H.
Defined.

End TaggedLines.
