(* ===== verification/Utf8Stream.v ===== *)
(** * Streamed bytes: utils/stream-parser/src/utf8_stream.rs

    The wrapper that feeds a parser of text with raw bytes and holds back an incomplete code point.
    [from_utf8] is [std::str::from_utf8], with the error positions and lengths that the standard
    library documents; bytes are numbers below 256.  The wrapped parser is any instance of
    [StreamTextParser], and the theorems about a stream use its laws. *)

From S2P Require Import Prelude Text StreamText TaggedLines.
From Stdlib Require Import ZifyBool ZifyN ZifyNat.

Module Utf8Stream.
Import StreamText.

(** ** UTF-8 *)

(** [char::is_scalar]: a Unicode scalar value. *)
Definition is_scalar (c : char) : bool :=
  ((c <? 55296) || ((57344 <=? c) && (c <? 1114112)))%N.

(** The bytes of a character and of a string. *)
Definition encode_char (c : char) : list N :=
  (if c <? 128 then [c]
   else if c <? 2048 then [192 + c / 64; 128 + c mod 64]
   else if c <? 65536 then [224 + c / 4096; 128 + c / 64 mod 64; 128 + c mod 64]
   else [240 + c / 262144; 128 + c / 4096 mod 64; 128 + c / 64 mod 64; 128 + c mod 64])%N.

Definition encode (s : str) : list N := concat (map encode_char s).

(** [std::str::Utf8Error]; no length means that the input ends inside a character. *)
Record Utf8Error := { valid_up_to : nat; error_len : option nat }.

Definition continuation (b : N) : bool := ((128 <=? b) && (b <=? 191))%N.

(** The second bytes that may follow the first byte of a sequence of three or four bytes. *)
Definition second_of_three (b0 b1 : N) : bool :=
  (if b0 =? 224 then (160 <=? b1) && (b1 <=? 191)
   else if b0 =? 237 then (128 <=? b1) && (b1 <=? 159)
   else continuation b1)%N.
Definition second_of_four (b0 b1 : N) : bool :=
  (if b0 =? 240 then (144 <=? b1) && (b1 <=? 191)
   else if b0 =? 244 then (128 <=? b1) && (b1 <=? 143)
   else continuation b1)%N.

Definition invalid (pos len : nat) : result Utf8Error str :=
  Err {| valid_up_to := pos; error_len := Some len |}.
Definition incomplete (pos : nat) : result Utf8Error str :=
  Err {| valid_up_to := pos; error_len := None |}.

Fixpoint from_utf8_at (pos : nat) (bs : list N) : result Utf8Error str :=
  match bs with
  | [] => Ok []
  | b0 :: r0 =>
      if (b0 <? 128)%N then s ← from_utf8_at (1 + pos) r0; Ok (b0 :: s)
      else if ((194 <=? b0) && (b0 <=? 223))%N then
        match r0 with
        | [] => incomplete pos
        | b1 :: r1 =>
            if continuation b1 then
              s ← from_utf8_at (2 + pos) r1; Ok (((b0 - 192) * 64 + (b1 - 128))%N :: s)
            else invalid pos 1
        end
      else if ((224 <=? b0) && (b0 <=? 239))%N then
        match r0 with
        | [] => incomplete pos
        | b1 :: r1 =>
            if second_of_three b0 b1 then
              match r1 with
              | [] => incomplete pos
              | b2 :: r2 =>
                  if continuation b2 then
                    s ← from_utf8_at (3 + pos) r2;
                    Ok (((b0 - 224) * 4096 + (b1 - 128) * 64 + (b2 - 128))%N :: s)
                  else invalid pos 2
              end
            else invalid pos 1
        end
      else if ((240 <=? b0) && (b0 <=? 244))%N then
        match r0 with
        | [] => incomplete pos
        | b1 :: r1 =>
            if second_of_four b0 b1 then
              match r1 with
              | [] => incomplete pos
              | b2 :: r2 =>
                  if continuation b2 then
                    match r2 with
                    | [] => incomplete pos
                    | b3 :: r3 =>
                        if continuation b3 then
                          s ← from_utf8_at (4 + pos) r3;
                          Ok (((b0 - 240) * 262144 + (b1 - 128) * 4096
                               + (b2 - 128) * 64 + (b3 - 128))%N :: s)
                        else invalid pos 3
                    end
                  else invalid pos 2
              end
            else invalid pos 1
        end
      else invalid pos 1
  end.

Definition from_utf8 : list N -> result Utf8Error str := from_utf8_at 0.

(** ** The code *)

(** [codex-rs/utils/stream-parser/src/utf8_stream.rs:9-19 Utf8StreamParserError] *)
Inductive Utf8StreamParserError :=
| InvalidUtf8 (valid_up_to : nat) (error_len : nat)
| IncompleteUtf8AtEof.

(** [codex-rs/utils/stream-parser/src/utf8_stream.rs:45-48 Utf8StreamParser] *)
Record Utf8StreamParser (P : Type) := Wrap { inner : P; pending_utf8 : list N }.
Arguments Wrap {_} _ _.
Arguments inner {_} _.
Arguments pending_utf8 {_} _.

Section code.
Context {P E : Type} `{StreamTextParser P E}.

(** [codex-rs/utils/stream-parser/src/utf8_stream.rs:54-59 new] *)
Definition new (inner : P) : Utf8StreamParser P := Wrap inner [].

(** [codex-rs/utils/stream-parser/src/utf8_stream.rs:66-109 push_bytes] *)
Definition push_bytes (self : Utf8StreamParser P) (chunk : list N)
  : option (Utf8StreamParser P * result Utf8StreamParserError (StreamTextChunk E)) :=
  let old_len := length (pending_utf8 self) in
  let pending := pending_utf8 self ++ chunk in
  match from_utf8 pending with
  | Ok text => '(inner, out) ← push_str (inner self) text; Some (Wrap inner [], Ok out)
  | Err err =>
      match error_len err with
      | Some error_len =>
          Some (Wrap (inner self) (take old_len pending), Err (InvalidUtf8 (valid_up_to err) error_len))
      | None =>
          if valid_up_to err =? 0 then Some (Wrap (inner self) pending, Ok default_chunk)
          else
            match from_utf8 (take (valid_up_to err) pending) with
            | Ok text =>
                '(inner, out) ← push_str (inner self) text;
                Some (Wrap inner (drop (valid_up_to err) pending), Ok out)
            | Err prefix_err =>
                Some (Wrap (inner self) (take old_len pending),
                      Err (InvalidUtf8 (valid_up_to prefix_err) (default 0 (error_len prefix_err))))
            end
      end
  end.

(** [codex-rs/utils/stream-parser/src/utf8_stream.rs:111-149 finish] the code decodes the buffer twice; the second
    result is the first. *)
Definition finish_bytes (self : Utf8StreamParser P)
  : option (Utf8StreamParser P * result Utf8StreamParserError (StreamTextChunk E)) :=
  let pending := pending_utf8 self in
  let flush self out :=
    let '(inner, tail) := finish (inner self) in
    Some (Wrap inner (pending_utf8 self), Ok (chunk_app out tail)) in
  if is_nil pending then flush self default_chunk
  else
    match from_utf8 pending with
    | Err err =>
        match error_len err with
        | Some error_len => Some (self, Err (InvalidUtf8 (valid_up_to err) error_len))
        | None => Some (self, Err IncompleteUtf8AtEof)
        end
    | Ok text => '(inner, out) ← push_str (inner self) text; flush (Wrap inner []) out
    end.

(** [codex-rs/utils/stream-parser/src/utf8_stream.rs:154-170 into_inner] *)
Definition into_inner (self : Utf8StreamParser P) : result Utf8StreamParserError P :=
  if is_nil (pending_utf8 self) then Ok (inner self)
  else
    match from_utf8 (pending_utf8 self) with
    | Ok _ => Ok (inner self)
    | Err err =>
        match error_len err with
        | Some error_len => Err (InvalidUtf8 (valid_up_to err) error_len)
        | None => Err IncompleteUtf8AtEof
        end
    end.

(** [codex-rs/utils/stream-parser/src/utf8_stream.rs:175-177 into_inner_lossy] *)
Definition into_inner_lossy (self : Utf8StreamParser P) : P := inner self.
End code.

Example decode_example :
  from_utf8 (encode [97; 233; 8364; 128512])%N = Ok [97; 233; 8364; 128512]%N.
Proof. vm_compute. reflexivity. Qed.

(** ** Decoding and encoding *)

#[local] Ltac Zify.zify_post_hook ::= Z.div_mod_to_equations.

(** Decide a comparison of numbers in a conditional of the goal. *)
Ltac decide_bool :=
  match goal with
  | |- context [if ?b then _ else _] =>
      first [ replace b with true by (symmetry; unfold second_of_three, second_of_four, continuation in *;
                repeat case_match; lia)
            | replace b with false by (symmetry; unfold second_of_three, second_of_four, continuation in *;
                repeat case_match; lia) ]
  end.

Lemma from_utf8_char pos c r :
  is_scalar c = true ->
  from_utf8_at pos (encode_char c ++ r) =
  s ← from_utf8_at (length (encode_char c) + pos) r; Ok (c :: s).
Proof.
  unfold is_scalar, encode_char. intros Hc.
  destruct (N.ltb_spec c 128); [|destruct (N.ltb_spec c 2048); [|destruct (N.ltb_spec c 65536)]].
  - cbn [app length from_utf8_at]. by decide_bool.
  - cbn [app length from_utf8_at]. do 3 decide_bool.
    replace ((192 + c / 64 - 192) * 64 + (128 + c mod 64 - 128))%N with c by lia. done.
  - cbn [app length from_utf8_at]. do 5 decide_bool.
    replace ((224 + c / 4096 - 224) * 4096 + (128 + c / 64 mod 64 - 128) * 64
             + (128 + c mod 64 - 128))%N with c by lia. done.
  - cbn [app length from_utf8_at]. do 7 decide_bool.
    replace ((240 + c / 262144 - 240) * 262144 + (128 + c / 4096 mod 64 - 128) * 4096
             + (128 + c / 64 mod 64 - 128) * 64 + (128 + c mod 64 - 128))%N with c by lia. done.
Qed.

(** A proper beginning of a character is reported as incomplete. *)
Lemma from_utf8_partial pos c t more :
  is_scalar c = true -> encode_char c = t ++ more -> t <> [] -> more <> [] ->
  from_utf8_at pos t = incomplete pos.
Proof.
  unfold is_scalar, encode_char. intros Hc He Ht Hm.
  destruct (N.ltb_spec c 128); [|destruct (N.ltb_spec c 2048); [|destruct (N.ltb_spec c 65536)]].
  all: destruct t as [|t0 [|t1 [|t2 [|t3 t]]]]; simplify_eq/=; try done.
  all: try (by destruct more).
  - by do 2 decide_bool.
  - by do 3 decide_bool.
  - by do 4 decide_bool.
  - by do 4 decide_bool.
  - by do 5 decide_bool.
  - by do 6 decide_bool.
  - by destruct t.
Qed.

(** The first bytes are a character, the beginning of one, or neither. *)
Inductive first_char (bs : list N) : Prop :=
| first_complete c r (Hc : is_scalar c = true) (Hbs : bs = encode_char c ++ r)
| first_partial c more (Hc : is_scalar c = true) (Hbs : encode_char c = bs ++ more) (Hm : more <> [])
| first_invalid n (Hinv : forall pos, from_utf8_at pos bs = invalid pos n).

Lemma encode_two b0 b1 :
  (194 <= b0 <= 223)%N -> continuation b1 = true ->
  exists c, is_scalar c = true /\ encode_char c = [b0; b1].
Proof.
  unfold continuation. intros H0 H1. exists ((b0 - 192) * 64 + (b1 - 128))%N.
  unfold is_scalar, encode_char. split; [lia|]. do 2 decide_bool. repeat f_equal; lia.
Qed.

Lemma encode_three b0 b1 b2 :
  (224 <= b0 <= 239)%N -> second_of_three b0 b1 = true -> continuation b2 = true ->
  exists c, is_scalar c = true /\ encode_char c = [b0; b1; b2].
Proof.
  intros H0 H1 H2. assert (continuation b1 = true /\ (b0 = 224 -> 160 <= b1)%N /\ (b0 = 237 -> b1 <= 159)%N)
    as (H1' & Hlo & Hhi) by (unfold second_of_three, continuation in *; repeat case_match; lia).
  unfold continuation in *. exists ((b0 - 224) * 4096 + (b1 - 128) * 64 + (b2 - 128))%N.
  unfold is_scalar, encode_char. split; [lia|]. do 3 decide_bool. repeat f_equal; lia.
Qed.

Lemma encode_four b0 b1 b2 b3 :
  (240 <= b0 <= 244)%N -> second_of_four b0 b1 = true -> continuation b2 = true ->
  continuation b3 = true -> exists c, is_scalar c = true /\ encode_char c = [b0; b1; b2; b3].
Proof.
  intros H0 H1 H2 H3. assert (continuation b1 = true /\ (b0 = 240 -> 144 <= b1)%N /\ (b0 = 244 -> b1 <= 143)%N)
    as (H1' & Hlo & Hhi) by (unfold second_of_four, continuation in *; repeat case_match; lia).
  unfold continuation in *.
  exists ((b0 - 240) * 262144 + (b1 - 128) * 4096 + (b2 - 128) * 64 + (b3 - 128))%N.
  unfold is_scalar, encode_char. split; [lia|]. do 3 decide_bool. repeat f_equal; lia.
Qed.

Lemma view_complete bs r : (exists c, is_scalar c = true /\ encode_char c = bs) -> first_char (bs ++ r).
Proof. intros (c & Hc & <-). by apply (first_complete _ c r). Qed.

Lemma view_partial bs more :
  (exists c, is_scalar c = true /\ encode_char c = bs ++ more) -> more <> [] -> first_char bs.
Proof. intros (c & Hc & He) Hm. by apply (first_partial _ c more). Qed.

Lemma view_two b r : (194 <= b <= 223)%N -> first_char (b :: r).
Proof.
  intros Hb. destruct r as [|b1 r].
  { apply (view_partial [b] [128%N]); [by apply encode_two|done]. }
  destruct (continuation b1) eqn:E1.
  - by apply (view_complete [b; b1]), encode_two.
  - apply (first_invalid _ 1). intros pos. cbn [from_utf8_at]. do 2 decide_bool. by rewrite E1.
Qed.

Lemma view_three b r : (224 <= b <= 239)%N -> first_char (b :: r).
Proof.
  intros Hb. destruct r as [|b1 r].
  { apply (view_partial [b] [if b =? 224 then 160 else 128; 128]%N); [|done].
    apply encode_three; [done| |done]. unfold second_of_three, continuation. repeat case_match; lia. }
  destruct (second_of_three b b1) eqn:E1.
  2: { apply (first_invalid _ 1). intros pos. cbn [from_utf8_at]. do 3 decide_bool. by rewrite E1. }
  destruct r as [|b2 r]; [apply (view_partial [b; b1] [128%N]); [by apply encode_three|done]|].
  destruct (continuation b2) eqn:E2; [by apply (view_complete [b; b1; b2]), encode_three|].
  apply (first_invalid _ 2). intros pos. cbn [from_utf8_at]. do 3 decide_bool. by rewrite E1, E2.
Qed.

Lemma view_four b r : (240 <= b <= 244)%N -> first_char (b :: r).
Proof.
  intros Hb. destruct r as [|b1 r].
  { apply (view_partial [b] [if b =? 240 then 144 else 128; 128; 128]%N); [|done].
    apply encode_four; [done| |done..]. unfold second_of_four, continuation. repeat case_match; lia. }
  destruct (second_of_four b b1) eqn:E1.
  2: { apply (first_invalid _ 1). intros pos. cbn [from_utf8_at]. do 4 decide_bool. by rewrite E1. }
  destruct r as [|b2 r]; [apply (view_partial [b; b1] [128; 128]%N); [by apply encode_four|done]|].
  destruct (continuation b2) eqn:E2.
  2: { apply (first_invalid _ 2). intros pos. cbn [from_utf8_at]. do 4 decide_bool. by rewrite E1, E2. }
  destruct r as [|b3 r]; [apply (view_partial [b; b1; b2] [128%N]); [by apply encode_four|done]|].
  destruct (continuation b3) eqn:E3; [by apply (view_complete [b; b1; b2; b3]), encode_four|].
  apply (first_invalid _ 3). intros pos. cbn [from_utf8_at]. do 4 decide_bool. by rewrite E1, E2, E3.
Qed.

Lemma first_char_view b r : first_char (b :: r).
Proof.
  destruct (N.ltb_spec b 128).
  { apply (first_complete _ b r); unfold is_scalar, encode_char; [lia|]. by decide_bool. }
  destruct (decide (194 <= b <= 223)%N); [by apply view_two|].
  destruct (decide (224 <= b <= 239)%N); [by apply view_three|].
  destruct (decide (240 <= b <= 244)%N); [by apply view_four|].
  apply (first_invalid _ 1). intros pos. cbn [from_utf8_at]. by do 4 decide_bool.
Qed.

(** ** Texts *)

Notation scalars := (Forall (fun c => is_scalar c = true)).

(** A proper beginning of a character. *)
Definition partial_char (t : list N) : Prop :=
  t <> [] /\ exists c more, is_scalar c = true /\ encode_char c = t ++ more /\ more <> [].

(** What a decoder may hold back. *)
Definition held (t : list N) : Prop := t = [] \/ partial_char t.

(** Bytes that more bytes can complete to a text. *)
Definition completable (bs : list N) : Prop :=
  exists text more, scalars text /\ bs ++ more = encode text.

Lemma encode_char_length c : 1 <= length (encode_char c) <= 4.
Proof. unfold encode_char. repeat case_match; simpl; lia. Qed.

Lemma encode_app s t : encode (s ++ t) = encode s ++ encode t.
Proof. unfold encode. by rewrite map_app, concat_app. Qed.

Lemma held_length t : held t -> length t <= 3.
Proof.
  intros [->|(_ & c & more & _ & He & Hm)]; [simpl; lia|]. apply (f_equal length) in He.
  rewrite length_app in He. pose proof (encode_char_length c). destruct more; [done|simpl in He; lia].
Qed.

Lemma from_utf8_encode_app pos text r :
  scalars text ->
  from_utf8_at pos (encode text ++ r) =
  s ← from_utf8_at (length (encode text) + pos) r; Ok (text ++ s).
Proof.
  intros Ht. revert pos. induction Ht as [|c text Hc _ IH]; intros pos.
  - simpl. by destruct (from_utf8_at pos r).
  - change (encode (c :: text)) with (encode_char c ++ encode text).
    rewrite <- app_assoc, from_utf8_char, IH, length_app by done.
    replace (length (encode text) + (length (encode_char c) + pos))
      with (length (encode_char c) + length (encode text) + pos) by lia.
    by destruct (from_utf8_at _ r).
Qed.

Lemma from_utf8_encode pos text : scalars text -> from_utf8_at pos (encode text) = Ok text.
Proof.
  intros Ht. rewrite <- (app_nil_r (encode text)), from_utf8_encode_app by done.
  simpl. by rewrite app_nil_r.
Qed.

(** The result of decoding, from the shape of the bytes. *)
Lemma from_utf8_held text t :
  scalars text -> held t ->
  from_utf8 (encode text ++ t) = if is_nil t then Ok text else incomplete (length (encode text)).
Proof.
  intros Ht Hheld. unfold from_utf8. rewrite from_utf8_encode_app by done. rewrite Nat.add_0_r.
  destruct Hheld as [->|(Hne & c & more & Hc & He & Hm)]; [simpl; by rewrite app_nil_r|].
  rewrite (from_utf8_partial _ c t more) by done. by destruct t.
Qed.

(** Every sequence of bytes is a text followed by nothing, by the beginning of a character, or by bytes
    that no text contains there. *)
Lemma bytes_view bs :
  exists text t, scalars text /\ bs = encode text ++ t /\
    (held t \/ exists n, forall pos, from_utf8_at pos t = invalid pos n).
Proof.
  induction bs as [bs IH] using (induction_ltof1 _ (@length _)). unfold ltof in IH.
  destruct bs as [|b r]; [exists [], []; repeat split; [constructor|by left; left]|].
  destruct (first_char_view b r) as [c r' Hc Hbs|c more Hc Hbs Hm|n Hinv].
  - rewrite Hbs in *. destruct (IH r') as (text & t & Ht & -> & H).
    { rewrite length_app. pose proof (encode_char_length c). lia. }
    exists (c :: text), t. split; [by constructor|]. split; [|done].
    change (encode (c :: text)) with (encode_char c ++ encode text). by rewrite app_assoc.
  - exists [], (b :: r). split; [constructor|]. split; [done|]. left. right. split; [done|]. by exists c, more.
  - exists [], (b :: r). split; [constructor|]. split; [done|]. right. by exists n.
Qed.

(** A beginning of an encoded text is an encoded beginning of the text and part of a character. *)
Lemma encode_prefix text bs more :
  scalars text -> bs ++ more = encode text ->
  exists t1 t2 t, text = t1 ++ t2 /\ bs = encode t1 ++ t /\ t ++ more = encode t2 /\ held t.
Proof.
  intros Ht. revert bs. induction Ht as [|c text Hc _ IH]; intros bs Heq.
  - apply app_eq_nil in Heq as [-> ->]. exists [], [], []. repeat split. by left.
  - change (encode (c :: text)) with (encode_char c ++ encode text) in Heq.
    apply app_eq_inv in Heq as [(k & -> & Hk)|(k & He & Hk)].
    + destruct (IH k (eq_sym Hk)) as (t1 & t2 & t & -> & -> & Hm & Hheld).
      exists (c :: t1), t2, t. repeat split; try done.
      change (encode (c :: t1)) with (encode_char c ++ encode t1). by rewrite app_assoc.
    + destruct (decide (bs = [])) as [->|Hbs].
      { exists [], (c :: text), []. repeat split; [|by left].
        change (more = encode_char c ++ encode text). by rewrite He, Hk. }
      destruct (decide (k = [])) as [->|Hne].
      * rewrite app_nil_r in He. subst bs. exists [c], text, []. repeat split; [| |by left].
        -- unfold encode. simpl. by rewrite !app_nil_r.
        -- done.
      * exists [], (c :: text), bs. repeat split.
        -- change (bs ++ more = encode_char c ++ encode text). by rewrite Hk, He, app_assoc.
        -- right. split; [done|]. by exists c, k.
Qed.

(** ** Streams *)

Section streams.
Context {P E : Type} `{StreamTextParser P E}.

(** The calls of [push_bytes] on a stream of chunks, up to the first error. *)
Fixpoint feed_bytes (self : Utf8StreamParser P) (chunks : list (list N))
  : option (Utf8StreamParser P * result Utf8StreamParserError (StreamTextChunk E)) :=
  match chunks with
  | [] => Some (self, Ok default_chunk)
  | bs :: chunks =>
      '(self, r) ← push_bytes self bs;
      match r with
      | Err e => Some (self, Err e)
      | Ok c =>
          '(self, r) ← feed_bytes self chunks;
          Some (self, match r with Ok d => Ok (chunk_app c d) | Err e => Err e end)
      end
  end.

Context `{!StreamTextLaws P E}.

(** A chunk that completes [text] and begins a character: [text] is pushed and the rest held. *)
Lemma push_bytes_held p pending chunk text t :
  wf p -> scalars text -> held t -> pending ++ chunk = encode text ++ t ->
  exists q c d, push_bytes (Wrap p pending) chunk = Some (Wrap q t, Ok c) /\ wf q /\
    push_str p text = Some (q, d) /\ same c d.
Proof.
  intros Hp Ht Hheld Heq. unfold push_bytes. cbn [pending_utf8 inner].
  rewrite Heq, from_utf8_held by done. destruct (push_total p text Hp) as (q & d & Hd & Hq).
  destruct t as [|b t]; cbn [is_nil].
  { rewrite Hd. by exists q, d, d. }
  unfold incomplete. cbn [error_len valid_up_to]. destruct (Nat.eqb_spec (length (encode text)) 0) as [E0|].
  - assert (text = []) as ->.
    { destruct text as [|c text]; [done|]. exfalso. change (encode (c :: text)) with
        (encode_char c ++ encode text) in E0. rewrite length_app in E0.
      pose proof (encode_char_length c). lia. }
    destruct (push_nil p Hp) as (c & Hc & Hs). exists p, default_chunk, c. by repeat split.
  - rewrite take_app_length, drop_app_length. unfold from_utf8. rewrite from_utf8_encode by done.
    rewrite Hd. by exists q, d, d.
Qed.

Lemma push_bytes_decides p chunk :
  wf (inner p) ->
  (completable (pending_utf8 p ++ chunk) /\
   exists q c, push_bytes p chunk = Some (q, Ok c) /\ wf (inner q) /\ held (pending_utf8 q)) \/
  (~ completable (pending_utf8 p ++ chunk) /\ exists e, push_bytes p chunk = Some (p, Err e)).
Proof.
  intros Hp. destruct p as [p pending]. cbn [inner pending_utf8] in *.
  destruct (bytes_view (pending ++ chunk)) as (text & t & Ht & Heq & [Hheld|[n Hinv]]).
  - left. split.
    + rewrite Heq. destruct Hheld as [->|(_ & c & more & Hc & He & _)].
      * exists text, []. by rewrite !app_nil_r.
      * exists (text ++ [c]), more. split; [apply Forall_app; by repeat constructor|].
        rewrite encode_app, <- app_assoc. f_equal. unfold encode. simpl. by rewrite app_nil_r.
    + destruct (push_bytes_held p pending chunk text t Hp Ht Hheld Heq) as (q & c & d & Hc & Hq & _).
      by exists (Wrap q t), c.
  - assert (from_utf8 (pending ++ chunk) = invalid (length (encode text)) n) as Hf.
    { unfold from_utf8. by rewrite Heq, from_utf8_encode_app, Hinv, Nat.add_0_r. }
    right. split.
    + intros (text' & more & Ht' & Hm). destruct (encode_prefix text' _ _ Ht' Hm)
        as (t1 & t2 & t' & -> & Hbs & _ & Hheld).
      apply Forall_app in Ht' as [Ht1 _]. rewrite Hbs, from_utf8_held in Hf by done. by destruct t'.
    + unfold push_bytes. cbn [inner pending_utf8]. rewrite Hf. unfold invalid. cbn [error_len valid_up_to].
      rewrite take_app_length. by eexists.
Qed.

Lemma feed_bytes_text p pending chunks text :
  wf p -> scalars text -> held pending -> pending ++ concat chunks = encode text ->
  exists q c d, feed_bytes (Wrap p pending) chunks = Some (Wrap q [], Ok c) /\
    push_str p text = Some (q, d) /\ same c d.
Proof.
  revert p pending text. induction chunks as [|bs chunks IH]; intros p pending text Hp Ht Hheld Heq.
  - simpl in Heq. rewrite app_nil_r in Heq. subst pending.
    assert (text = []) as ->.
    { pose proof (from_utf8_held [] (encode text) (Forall_nil_2 _) Hheld) as Hf. simpl in Hf.
      unfold from_utf8 in Hf. rewrite from_utf8_encode in Hf by done.
      destruct text as [|c text]; [done|]. change (encode (c :: text)) with
        (encode_char c ++ encode text) in Hf. pose proof (encode_char_length c).
      destruct (encode_char c); simpl in *; [lia|done]. }
    destruct (push_nil p Hp) as (c & Hc & Hs). exists p, default_chunk, c. by repeat split.
  - cbn [concat] in Heq. rewrite app_assoc in Heq.
    destruct (encode_prefix text _ _ Ht Heq) as (t1 & t2 & t & -> & Hbs & Hrest & Hheld').
    apply Forall_app in Ht as [Ht1 Ht2].
    destruct (push_bytes_held p pending bs t1 t Hp Ht1 Hheld' Hbs) as (q & c & d & Hc & Hq & Hd & Hs).
    destruct (IH q t t2 Hq Ht2 Hheld' Hrest) as (q' & c' & d' & Hc' & Hd' & Hs').
    destruct (push_push p t1 t2 q d q' d' Hp Hd Hd') as (e & He & Hse).
    exists q', (chunk_app c c'), e. cbn [feed_bytes]. rewrite Hc. cbn [mbind option_bind]. rewrite Hc'.
    split; [done|]. split; [done|]. by rewrite Hse, Hs, Hs'.
Qed.
End streams.

(** Feeding the bytes of a text, cut anywhere, also inside a character, is feeding the text: no call
    fails, the wrapped parser ends in the same state with the same output, and no byte is held back at
    the end. *)
Theorem utf8_stream_transparent {P E} `{StreamTextLaws P E} (p : P) text chunks :
  wf p -> scalars text -> concat chunks = encode text ->
  exists q c d, feed_bytes (new p) chunks = Some (Wrap q [], Ok c) /\
    push_str p text = Some (q, d) /\ same c d /\
    finish_bytes (Wrap q []) = Some (Wrap (fst (finish q)) [], Ok (snd (finish q))) /\
    into_inner (Wrap q []) = Ok q.
Proof.
  intros Hp Ht Heq. destruct (feed_bytes_text p [] chunks text Hp Ht) as (q & c & d & Hc & Hd & Hs);
    [by left|done|].
  exists q, c, d. repeat split; try done. unfold finish_bytes. simpl. destruct (finish q).
  by rewrite chunk_app_nil_l.
Qed.

Lemma utf8_stream_transparent_witness :
  exists q c d, feed_bytes (new TaggedLines.new_plan) [[97; 195]; [169]]%N = Some (Wrap q [], Ok c) /\
    push_str TaggedLines.new_plan [97; 233]%N = Some (q, d) /\ same c d.
Proof.
  destruct (utf8_stream_transparent TaggedLines.new_plan [97; 233]%N [[97; 195]; [169]]%N)
    as (q & c & d & Hc & Hd & Hs & _).
  - exact I.
  - repeat constructor.
  - vm_compute. reflexivity.
  - exact (ex_intro _ q (ex_intro _ c (ex_intro _ d (conj Hc (conj Hd Hs))))).
Defined.

(** A chunk of bytes is refused exactly when no continuation makes the bytes received so far a text;
    then the parser is unchanged, also the wrapped one.  Otherwise at most three bytes, the beginning of a
    character, are held back. *)
Theorem push_bytes_all_or_nothing {P E} `{StreamTextLaws P E} (p : Utf8StreamParser P) chunk :
  wf (inner p) ->
  (completable (pending_utf8 p ++ chunk) /\
   exists q c, push_bytes p chunk = Some (q, Ok c) /\ wf (inner q) /\
     held (pending_utf8 q) /\ length (pending_utf8 q) <= 3) \/
  (~ completable (pending_utf8 p ++ chunk) /\ exists e, push_bytes p chunk = Some (p, Err e)).
Proof.
  intros Hp. destruct (push_bytes_decides p chunk Hp) as [(Hc & q & c & ? & ? & Hq)|?]; [left|by right].
  split; [done|]. exists q, c. repeat split; try done. by apply held_length.
Qed.

Lemma push_bytes_all_or_nothing_witness :
  let p := Wrap TaggedLines.new_plan [195%N] in
  exists e, push_bytes p [97%N] = Some (p, Err e).
Proof.
  intros p. destruct (push_bytes_all_or_nothing p [97%N]) as [(_ & q & c & H & _)|[_ H]].
  - exact I.
  - exfalso. vm_compute in H. discriminate H.
  - exact H.
Defined.

End Utf8Stream.
