(* ===== verification/AssistantText.v ===== *)
(** * Assistant text: utils/stream-parser/src/assistant_text.rs

    The parser the agent puts on the text of the model: citations are taken out first, and in plan mode
    the remaining text is searched for proposed plans.  Its theorem composes the laws of the two
    parsers. *)

From S2P Require Import Prelude Text StreamText HiddenTags TaggedLines.

Module AssistantText.
Import StreamText.

(** [codex-rs/utils/stream-parser/src/assistant_text.rs:8-12 AssistantTextChunk] *)
Record AssistantTextChunk := AChunk {
  visible : str;
  citations : list str;
  plan_segments : list TaggedLines.ProposedPlanSegment
}.

(** [codex-rs/utils/stream-parser/src/assistant_text.rs:15-17 is_empty] *)
Definition is_empty (c : AssistantTextChunk) : bool :=
  is_nil (visible c) && is_nil (citations c) && is_nil (plan_segments c).

(** [codex-rs/utils/stream-parser/src/assistant_text.rs:24-28 AssistantTextStreamParser] *)
Record AssistantTextStreamParser := AParser {
  plan_mode : bool;
  citation_parser : HiddenTags.CitationStreamParser;
  plan : TaggedLines.ProposedPlanParser
}.

(** [codex-rs/utils/stream-parser/src/assistant_text.rs:31-36 new] *)
Definition new (plan_mode : bool) : option AssistantTextStreamParser :=
  c ← HiddenTags.new_citation; Some (AParser plan_mode c TaggedLines.new_plan).

(** [codex-rs/utils/stream-parser/src/assistant_text.rs:59-72 parse_visible_text] *)
Definition parse_visible_text (self : AssistantTextStreamParser) (visible_text : str)
  : AssistantTextStreamParser * AssistantTextChunk :=
  if negb (plan_mode self) then (self, AChunk visible_text [] [])
  else
    let '(plan, plan_chunk) := TaggedLines.push_plan (plan self) visible_text in
    (AParser (plan_mode self) (citation_parser self) plan,
     AChunk (StreamText.visible_text plan_chunk) [] (extracted plan_chunk)).

(** [codex-rs/utils/stream-parser/src/assistant_text.rs:38-43 push_str] *)
Definition push_str (self : AssistantTextStreamParser) (chunk : str)
  : option (AssistantTextStreamParser * AssistantTextChunk) :=
  '(cit, citation_chunk) ← HiddenTags.push_citation (citation_parser self) chunk;
  let self := AParser (plan_mode self) cit (plan self) in
  let '(self, out) := parse_visible_text self (visible_text citation_chunk) in
  Some (self, AChunk (visible out) (extracted citation_chunk) (plan_segments out)).

(** [codex-rs/utils/stream-parser/src/assistant_text.rs:45-57 finish] *)
Definition finish (self : AssistantTextStreamParser) : AssistantTextStreamParser * AssistantTextChunk :=
  let '(cit, citation_chunk) := HiddenTags.finish_citation (citation_parser self) in
  let self := AParser (plan_mode self) cit (plan self) in
  let '(self, out) := parse_visible_text self (visible_text citation_chunk) in
  let '(self, out) :=
    if plan_mode self then
      let '(plan, tail) := TaggedLines.finish_plan (plan self) in
      (AParser (plan_mode self) (citation_parser self) plan,
       if StreamText.is_empty tail then out
       else AChunk (visible out ++ visible_text tail) (citations out)
              (plan_segments out ++ extracted tail))
    else (self, out) in
  (self, AChunk (visible out) (extracted citation_chunk) (plan_segments out)).

(** ** Streams *)

Definition achunk_app (c d : AssistantTextChunk) : AssistantTextChunk :=
  AChunk (visible c ++ visible d) (citations c ++ citations d) (plan_segments c ++ plan_segments d).

Fixpoint feed (p : AssistantTextStreamParser) (chunks : list str)
  : option (AssistantTextStreamParser * AssistantTextChunk) :=
  match chunks with
  | [] => Some (p, AChunk [] [] [])
  | s :: chunks =>
      '(p1, c1) ← push_str p s; '(p2, c2) ← feed p1 chunks; Some (p2, achunk_app c1 c2)
  end.

(** A whole answer: its chunks, then [finish]. *)
Definition answer (p : AssistantTextStreamParser) (chunks : list str) : option AssistantTextChunk :=
  '(p', c) ← feed p chunks; Some (achunk_app c (snd (finish p'))).

Example answer_example :
  (p ← new true;
   answer p [lit "a<oai-mem-citation>x</oai-m"; lit "em-citation>b" ++ [NL] ++ lit "<proposed_";
             lit "plan>" ++ [NL] ++ lit "go"])
  = Some (AChunk (lit "ab" ++ [NL]) [lit "x"]
            [TaggedLines.NormalText (lit "a"); TaggedLines.NormalText (lit "b" ++ [NL]);
             TaggedLines.ProposedPlanStart; TaggedLines.ProposedPlanDelta (lit "go");
             TaggedLines.ProposedPlanEnd]).
Proof. vm_compute. reflexivity. Qed.

(** The two parsers side by side: the plan parser is fed with the visible pieces of the citation
    parser. *)
Definition paired (mode : bool) cit (cc : StreamTextChunk str) old plan
  (pc : StreamTextChunk TaggedLines.ProposedPlanSegment) : AssistantTextStreamParser * AssistantTextChunk :=
  if mode then (AParser true cit plan, AChunk (visible_text pc) (extracted cc) (extracted pc))
  else (AParser false cit old, AChunk (visible_text cc) (extracted cc) []).

Lemma push_str_paired mode cit pl s cit' cc :
  HiddenTags.push_citation cit s = Some (cit', cc) ->
  let '(pl', pc) := TaggedLines.push_plan pl (visible_text cc) in
  push_str (AParser mode cit pl) s = Some (paired mode cit' cc pl pl' pc).
Proof.
  intros H. unfold push_str, parse_visible_text, paired. cbn [citation_parser plan plan_mode]. rewrite H.
  destruct (TaggedLines.push_plan pl (visible_text cc)) as [pl' pc] eqn:E.
  destruct mode; simpl; by rewrite ?E.
Qed.

Lemma feed_paired mode cit pl chunks :
  wf cit -> exists pieces cit' cc pl' pc,
    StreamText.feed cit chunks = Some (cit', cc) /\ concat pieces = visible_text cc /\
    StreamText.feed pl pieces = Some (pl', pc) /\
    feed (AParser mode cit pl) chunks = Some (paired mode cit' cc pl pl' pc).
Proof.
  revert cit pl. induction chunks as [|s chunks IH]; intros cit pl Hcit.
  { exists [], cit, default_chunk, pl, default_chunk. repeat split. by destruct mode. }
  destruct (push_total cit s Hcit) as (cit1 & cc1 & H1 & Hcit1).
  pose proof (push_str_paired mode cit pl s cit1 cc1 H1) as H2.
  destruct (TaggedLines.push_plan pl (visible_text cc1)) as [pl1 pc1] eqn:E.
  destruct (IH cit1 pl1 Hcit1) as (pieces & cit' & cc & pl' & pc & Hc & Hp & Hpl & Hf).
  exists (visible_text cc1 :: pieces), cit', (chunk_app cc1 cc), pl', (chunk_app pc1 pc).
  cbn [StreamText.feed concat]. rewrite H1. cbn [mbind option_bind]. rewrite Hc.
  split; [done|]. split; [simpl; by rewrite Hp|]. split.
  { cbn [StreamText.push_str TaggedLines.plan_parser]. rewrite E. cbn [mbind option_bind]. by rewrite Hpl. }
  cbn [feed]. rewrite H2. destruct mode; cbn [paired mbind option_bind] in *; [by rewrite Hf|].
  destruct (IH cit1 pl Hcit1) as (? & ? & ? & ? & ? & Hc' & _ & _ & Hf').
  rewrite Hc in Hc'. simplify_eq. by rewrite Hf'.
Qed.

Lemma feed_snoc p pieces s :
  StreamText.feed p (pieces ++ [s]) =
  '(p1, c1) ← StreamText.feed p pieces;
  let '(p2, c2) := TaggedLines.push_plan p1 s in Some (p2, chunk_app c1 c2).
Proof.
  revert p. induction pieces as [|t pieces IH]; intros p; cbn [app StreamText.feed].
  - cbn [StreamText.push_str TaggedLines.plan_parser mbind option_bind].
    destruct (TaggedLines.push_plan p s). simpl. by rewrite chunk_app_nil_l, chunk_app_nil_r.
  - cbn [StreamText.push_str TaggedLines.plan_parser mbind option_bind].
    destruct (TaggedLines.push_plan p t) as [p1 c1]. rewrite IH.
    destruct (StreamText.feed p1 pieces) as [[p2 c2]|]; [|done]. simpl.
    destruct (TaggedLines.push_plan p2 s). simpl. by rewrite chunk_app_assoc.
Qed.

Lemma is_empty_default {E} (c : StreamTextChunk E) : StreamText.is_empty c = true -> c = default_chunk.
Proof. destruct c as [[|] [|]]; done. Qed.

(** The end of an answer, after the pieces have been fed. *)
Lemma finish_paired mode cit cc old pl pc pieces :
  StreamText.feed TaggedLines.new_plan pieces = Some (pl, pc) -> (mode = false -> old = TaggedLines.new_plan) ->
  exists pout, stream TaggedLines.new_plan
      (pieces ++ [visible_text (snd (HiddenTags.finish_citation cit))]) = Some pout /\
    let out := chunk_app cc (snd (HiddenTags.finish_citation cit)) in
    let '(p, c) := paired mode cit cc old pl pc in
    achunk_app c (snd (finish p)) =
    if mode then AChunk (visible_text pout) (extracted out) (extracted pout)
    else AChunk (visible_text out) (extracted out) [].
Proof.
  intros Hfeed Hold. unfold stream. rewrite feed_snoc, Hfeed. cbn [mbind option_bind].
  destruct (HiddenTags.finish_citation cit) as [cit' fc] eqn:Ec. cbn [snd].
  destruct (TaggedLines.push_plan pl (visible_text fc)) as [pl' pc'] eqn:Ep.
  eexists. split; [done|]. cbv zeta. unfold paired.
  destruct mode; unfold finish; cbn [citation_parser plan plan_mode]; rewrite Ec; unfold parse_visible_text;
    cbn [plan_mode negb plan citation_parser]; [|done].
  rewrite Ep. cbn [plan_mode plan citation_parser StreamText.finish TaggedLines.plan_parser].
  destruct (TaggedLines.finish_plan pl') as [pl'' tail]. cbn [snd].
  destruct (StreamText.is_empty tail) eqn:Et.
  - apply is_empty_default in Et as ->. unfold achunk_app. simpl. by rewrite !app_nil_r.
  - unfold achunk_app. simpl. by rewrite !app_assoc.
Qed.

(** Stripping plan blocks, in terms of the lines of the text. *)
Lemma strip_plan_lines text :
  TaggedLines.strip_proposed_plan_blocks text =
  TaggedLines.normal_text
    (TaggedLines.text_segments
       [TaggedLines.Spec TaggedLines.OPEN_TAG TaggedLines.CLOSE_TAG TaggedLines.ProposedPlan] text).
Proof.
  destruct (TaggedLines.stream_plan [text]) as (c & Hs & Hv & _). cbn [concat] in Hv.
  rewrite app_nil_r, TaggedLines.map_segments_eq in Hv. apply TaggedLines.stream_single in Hs.
  unfold TaggedLines.strip_proposed_plan_blocks.
  destruct (TaggedLines.push_plan TaggedLines.new_plan text) as [q d]. subst c. exact Hv.
Qed.

(** Parsing an answer as it streams is the composition of the two passes over the complete answer:
    whatever the chunks, the citations are those [strip_citations] finds; in plan mode the visible text
    is what [strip_proposed_plan_blocks] leaves of the text without citations, and the plan segments are
    the blocks of its lines; otherwise the visible text is the text without citations.  No call
    panics. *)
Theorem assistant_text_two_passes plan_mode chunks :
  exists p out v cs, new plan_mode = Some p /\ answer p chunks = Some out /\
    HiddenTags.strip_citations (concat chunks) = Some (v, cs) /\ citations out = cs /\
    if plan_mode then
      visible out = TaggedLines.strip_proposed_plan_blocks v /\
      TaggedLines.joined (map TaggedLines.unmap_segment (plan_segments out)) =
      TaggedLines.joined (TaggedLines.text_segments
        [TaggedLines.Spec TaggedLines.OPEN_TAG TaggedLines.CLOSE_TAG TaggedLines.ProposedPlan] v)
    else visible out = v /\ plan_segments out = [].
Proof.
  destruct HiddenTags.new_citation_settled as (cit & Hcit & Hset).
  destruct (stream_chunking cit chunks [concat chunks]) as (cc & cc' & Hs & Hs' & Heq);
    [exact Hset|cbn [concat]; by rewrite app_nil_r|]. change (cc = cc') in Heq. subst cc'.
  pose proof (HiddenTags.strip_citations_stream cit _ _ Hcit Hs') as Hstrip.
  destruct (feed_paired plan_mode cit TaggedLines.new_plan chunks Hset)
    as (pieces & cit' & c & pl & pc & Hc & Hp & Hpl & Hf).
  unfold stream in Hs. rewrite Hc in Hs. cbn [mbind option_bind] in Hs.
  cbn [StreamText.finish HiddenTags.citation_parser] in Hs. injection Hs as <-.
  destruct (finish_paired plan_mode cit' c TaggedLines.new_plan pl pc pieces Hpl (fun _ => eq_refl))
    as (pout & Hpout & Hfin).
  destruct (TaggedLines.stream_plan (pieces ++ [visible_text (snd (HiddenTags.finish_citation cit'))]))
    as (pout' & Hpout' & Hv & Hsegs).
  rewrite Hpout in Hpout'. injection Hpout' as <-.
  rewrite concat_app in Hv, Hsegs. cbn [concat] in Hv, Hsegs. rewrite app_nil_r, Hp in Hv, Hsegs.
  rewrite TaggedLines.map_segments_eq in Hv, Hsegs. cbn [extracted] in Hsegs.
  rewrite TaggedLines.unmap_map in Hsegs.
  eexists _, _, _, _. split; [unfold new; rewrite Hcit; reflexivity|].
  unfold answer. rewrite Hf. cbn [mbind option_bind].
  destruct (paired plan_mode cit' c TaggedLines.new_plan pl pc) as [p out0]. rewrite Hfin.
  split; [reflexivity|]. split; [exact Hstrip|]. destruct plan_mode; [|done].
  cbn [citations visible plan_segments]. rewrite strip_plan_lines. done.
Qed.

End AssistantText.
