(* ===== verification/ResponseItems.v ===== *)
(** * Items of the conversation: protocol/src/models.rs

    The items that make up the history of a conversation with the model.  Only data: how they are
    serialised is not modelled.  A JSON value is kept as the tree that serde_json documents, a number
    as its text. *)

From S2P Require Import Prelude Text.

Module ResponseItems.

(** [serde_json::Value]. *)
Inductive Json :=
| JNull
| JBool (b : bool)
| JNumber (text : str)
| JString (s : str)
| JArray (l : list Json)
| JObject (fields : list (str * Json)).

(** [codex-rs/protocol/src/models.rs:724-731 ImageDetail] *)
Inductive ImageDetail := Auto | Low | High | Original.

(** [codex-rs/protocol/src/models.rs:701-716 ContentItem] *)
Inductive ContentItem :=
| InputText (text : str)
| InputImage (image_url : str) (detail : option ImageDetail)
| OutputText (text : str).

(** [codex-rs/protocol/src/models.rs:718-722 AgentMessageInputContent] *)
Inductive AgentMessageInputContent := AgentEncryptedContent (encrypted_content : str).

(** [codex-rs/protocol/src/models.rs:735-749 MessagePhase] *)
Inductive MessagePhase := Commentary | FinalAnswer.

(** [codex-rs/protocol/src/models.rs:1173-1179 LocalShellStatus] *)
Inductive LocalShellStatus := Completed | InProgress | Incomplete.

(** [codex-rs/protocol/src/models.rs:1187-1194 LocalShellExecAction] *)
Record LocalShellExecAction := {
  command : list str;
  timeout_ms : option N;
  working_directory : option str;
  env : option (gmap str str);
  user : option str
}.

(** [codex-rs/protocol/src/models.rs:1181-1185 LocalShellAction] *)
Inductive LocalShellAction := Exec (action : LocalShellExecAction).

(** [codex-rs/protocol/src/models.rs:1196-1224 WebSearchAction] *)
Inductive WebSearchAction :=
| Search_ (query : option str) (queries : option (list str))
| OpenPage (url : option str)
| FindInPage (url : option str) (pattern : option str)
| OtherAction.

(** [codex-rs/protocol/src/models.rs:1226-1230 ReasoningItemReasoningSummary] *)
Inductive ReasoningItemReasoningSummary := SummaryText (text : str).

(** [codex-rs/protocol/src/models.rs:1232-1237 ReasoningItemContent] *)
Inductive ReasoningItemContent := ReasoningText (text : str) | ReasoningPlain (text : str).

(** [codex-rs/protocol/src/models.rs:1312-1331 FunctionCallOutputContentItem] *)
Inductive FunctionCallOutputContentItem :=
| OutInputText (text : str)
| OutInputImage (image_url : str) (detail : option ImageDetail)
| OutEncryptedContent (encrypted_content : str).

(** [codex-rs/protocol/src/models.rs:1394-1399 FunctionCallOutputBody] *)
Inductive FunctionCallOutputBody :=
| BodyText (text : str)
| ContentItems (items : list FunctionCallOutputContentItem).

(** [codex-rs/protocol/src/models.rs:1384-1392 FunctionCallOutputPayload] *)
Record FunctionCallOutputPayload := Payload { body : FunctionCallOutputBody; success : option bool }.

(** [codex-rs/protocol/src/models.rs:1423-1428 from_text] *)
Definition from_text (content : str) : FunctionCallOutputPayload := Payload (BodyText content) None.

(** [codex-rs/protocol/src/models.rs:751-912 ResponseItem] *)
Inductive ResponseItem :=
| Message (id : option str) (role : str) (content : list ContentItem) (phase : option MessagePhase)
| AgentMessage (author recipient : str) (content : list AgentMessageInputContent)
| Reasoning (id : str) (summary : list ReasoningItemReasoningSummary)
    (content : option (list ReasoningItemContent)) (encrypted_content : option str)
| LocalShellCall (id call_id : option str) (status : LocalShellStatus) (action : LocalShellAction)
| FunctionCall (id : option str) (name : str) (namespace : option str) (arguments : str) (call_id : str)
| ToolSearchCall (id call_id status : option str) (execution : str) (arguments : Json)
| FunctionCallOutput (call_id : str) (output : FunctionCallOutputPayload)
| CustomToolCall (id status : option str) (call_id name : str) (namespace : option str) (input : str)
| CustomToolCallOutput (call_id : str) (name : option str) (output : FunctionCallOutputPayload)
| ToolSearchOutput (call_id : option str) (status execution : str) (tools : list Json)
| WebSearchCall (id status : option str) (action : option WebSearchAction)
| ImageGenerationCall (id status : str) (revised_prompt : option str) (result : str)
| Compaction (encrypted_content : str)
| CompactionTrigger
| ContextCompaction (encrypted_content : option str)
| Other.

(** [codex-rs/protocol/src/openai_models.rs:152-157 InputModality] *)
Inductive InputModality := TextModality | ImageModality.

#[global] Instance InputModality_eq_dec : EqDecision InputModality.
Proof. solve_decision. Defined.

End ResponseItems.
