(* ===== verification/OutputTruncation.v ===== *)
(** * Truncation of tool output: utils/output-truncation/src/lib.rs, protocol/src/protocol.rs

    The policy that bounds the output of a tool in bytes or in approximate tokens, applied to a text and
    to a list of content items.  A policy is multiplied by a number in binary64 arithmetic, modelled with
    the Standard Library's [SpecFloat]. *)

From S2P Require Import Prelude Text Truncate ResponseItems.
From Stdlib Require Import SpecFloat.
From Stdlib Require Import ZifyBool ZifyN ZifyNat.

Import Truncate ResponseItems.

#[local] Ltac Zify.zify_post_hook ::= Z.div_mod_to_equations.

Module OutputTruncation.

(** ** Policies *)

(** [codex-rs/protocol/src/protocol.rs:3145-3150 TruncationPolicy] *)
Inductive TruncationPolicy := Bytes (bytes : N) | Tokens (tokens : N).

(** [codex-rs/protocol/src/protocol.rs:3162-3170 token_budget] *)
Definition token_budget (self : TruncationPolicy) : N :=
  match self with
  | Bytes bytes => N.min (approx_tokens_from_byte_count bytes) usize_max
  | Tokens tokens => tokens
  end.

(** [codex-rs/protocol/src/protocol.rs:3172-3179 byte_budget] *)
Definition byte_budget (self : TruncationPolicy) : N :=
  match self with
  | Bytes bytes => bytes
  | Tokens tokens => approx_bytes_for_tokens tokens
  end.

(** [n as f64], rounded to nearest, ties to even. *)
Definition f64_of_usize (n : N) : spec_float := binary_normalize 53 1024 (Z.of_N n) 0 false.

(** [x * y] on [f64]. *)
Definition f64_mul : spec_float -> spec_float -> spec_float := SFmul 53 1024.

(** [x.ceil() as usize]: a conversion that saturates, with zero for a value that is not a number. *)
Definition ceil_as_usize (x : spec_float) : N :=
  match x with
  | S754_zero _ | S754_nan | S754_infinity true | S754_finite true _ _ => 0
  | S754_infinity false => usize_max
  | S754_finite false m e =>
      let value := match e with
                   | Zneg k => (Npos m + 2 ^ Npos k - 1) / 2 ^ Npos k
                   | _ => Npos m * 2 ^ Z.to_N e
                   end in
      N.min value usize_max
  end%N.

(** [codex-rs/protocol/src/protocol.rs:3185-3194 mul] *)
Definition mul_policy (self : TruncationPolicy) (multiplier : spec_float) : TruncationPolicy :=
  match self with
  | Bytes bytes => Bytes (ceil_as_usize (f64_mul (f64_of_usize bytes) multiplier))
  | Tokens tokens => Tokens (ceil_as_usize (f64_mul (f64_of_usize tokens) multiplier))
  end.

(** The literal [1.2]. *)
Definition f64_1_2 : spec_float := S754_finite false 5404319552844595 (-52).

(** ** Text *)

(** [codex-rs/utils/output-truncation/src/lib.rs:22-27 truncate_text] *)
Definition truncate_text (content : str) (policy : TruncationPolicy) : option str :=
  match policy with
  | Bytes bytes => truncate_middle_chars content bytes
  | Tokens tokens => fst <$> truncate_middle_with_token_budget content tokens
  end.

(** [codex-rs/utils/output-truncation/src/lib.rs:12-20 formatted_truncate_text] *)
Definition formatted_truncate_text (content : str) (policy : TruncationPolicy) : option str :=
  if (str_len content <=? byte_budget policy)%N then Some content
  else
    let total_lines := length (lines content) in
    result ← truncate_text content policy;
    Some (lit "Total output lines: " ++ show_nat total_lines ++ [NL; NL] ++ result).

(** ** Content items *)

(** [codex-rs/utils/output-truncation/src/lib.rs:33-40 formatted_truncate_text_content_items_with_policy] *)
Definition text_segment (item : FunctionCallOutputContentItem) : option str :=
  match item with
  | OutInputText text => Some text
  | OutInputImage _ _ | OutEncryptedContent _ => None
  end.

(** [codex-rs/utils/output-truncation/src/lib.rs:46-52 formatted_truncate_text_content_items_with_policy] *)
Definition combine_segments (text_segments : list str) : str :=
  fold_left (fun combined text =>
               (if bool_decide (combined = []) then combined else combined ++ [NL]) ++ text)
    text_segments [].

(** [codex-rs/utils/output-truncation/src/lib.rs:61-74 formatted_truncate_text_content_items_with_policy] *)
Definition not_text (item : FunctionCallOutputContentItem) : option FunctionCallOutputContentItem :=
  match item with
  | OutInputImage image_url detail => Some (OutInputImage image_url detail)
  | OutEncryptedContent encrypted_content => Some (OutEncryptedContent encrypted_content)
  | OutInputText _ => None
  end.

(** [codex-rs/utils/output-truncation/src/lib.rs:29-77 formatted_truncate_text_content_items_with_policy] *)
Definition formatted_truncate_text_content_items_with_policy (items : list FunctionCallOutputContentItem)
    (policy : TruncationPolicy) : option (list FunctionCallOutputContentItem * option N) :=
  let text_segments := omap text_segment items in
  if bool_decide (text_segments = []) then Some (items, None)
  else
    let combined := combine_segments text_segments in
    if (str_len combined <=? byte_budget policy)%N then Some (items, None)
    else
      text ← formatted_truncate_text combined policy;
      Some (OutInputText text :: omap not_text items, Some (approx_token_count combined)).

(** The variables of the loop of [truncate_function_output_items_with_policy]. *)
Record ItemsState := Items {
  out : list FunctionCallOutputContentItem;
  remaining_budget : N;
  omitted_text_items : nat
}.

(** [codex-rs/utils/output-truncation/src/lib.rs:98-101 truncate_function_output_items_with_policy] *)
Definition text_cost (policy : TruncationPolicy) (text : str) : N :=
  match policy with Bytes _ => str_len text | Tokens _ => approx_token_count text end.

(** [codex-rs/utils/output-truncation/src/lib.rs:107-110 truncate_function_output_items_with_policy] *)
Definition with_budget (policy : TruncationPolicy) (budget : N) : TruncationPolicy :=
  match policy with Bytes _ => Bytes budget | Tokens _ => Tokens budget end.

(** [codex-rs/utils/output-truncation/src/lib.rs:84-87 truncate_function_output_items_with_policy] *)
Definition total_budget (policy : TruncationPolicy) : N :=
  match policy with Bytes _ => byte_budget policy | Tokens _ => token_budget policy end.

(** [codex-rs/utils/output-truncation/src/lib.rs:90-132 truncate_function_output_items_with_policy] *)
Definition truncate_item (policy : TruncationPolicy) (st : ItemsState) (item : FunctionCallOutputContentItem)
    : option ItemsState :=
  match item with
  | OutInputText text =>
      if (remaining_budget st =? 0)%N
      then Some (Items (out st) (remaining_budget st) (S (omitted_text_items st)))
      else
        let cost := text_cost policy text in
        if (cost <=? remaining_budget st)%N
        then Some (Items (out st ++ [OutInputText text]) (saturating_sub (remaining_budget st) cost)
                     (omitted_text_items st))
        else
          snippet ← truncate_text text (with_budget policy (remaining_budget st));
          if bool_decide (snippet = [])
          then Some (Items (out st) 0 (S (omitted_text_items st)))
          else Some (Items (out st ++ [OutInputText snippet]) 0 (omitted_text_items st))
  | OutInputImage image_url detail =>
      Some (Items (out st ++ [OutInputImage image_url detail]) (remaining_budget st) (omitted_text_items st))
  | OutEncryptedContent encrypted_content =>
      Some (Items (out st ++ [OutEncryptedContent encrypted_content]) (remaining_budget st)
              (omitted_text_items st))
  end.

Fixpoint truncate_items (policy : TruncationPolicy) (items : list FunctionCallOutputContentItem) (st : ItemsState)
    : option ItemsState :=
  match items with
  | [] => Some st
  | item :: items => st ← truncate_item policy st item; truncate_items policy items st
  end.

Definition omitted_note (n : nat) : FunctionCallOutputContentItem :=
  OutInputText (lit "[omitted " ++ show_nat n ++ lit " text items ...]").

(** [codex-rs/utils/output-truncation/src/lib.rs:79-141 truncate_function_output_items_with_policy] *)
Definition truncate_function_output_items_with_policy (items : list FunctionCallOutputContentItem)
    (policy : TruncationPolicy) : option (list FunctionCallOutputContentItem) :=
  st ← truncate_items policy items (Items [] (total_budget policy) 0);
  Some (if 0 <? omitted_text_items st then out st ++ [omitted_note (omitted_text_items st)] else out st).

Definition i64_max : Z := 9223372036854775807%Z.

(** [codex-rs/utils/output-truncation/src/lib.rs:143-150 approx_tokens_from_byte_count_i64] *)
Definition approx_tokens_from_byte_count_i64 (bytes : Z) : Z :=
  if (bytes <=? 0)%Z then 0%Z
  else
    let bytes := Z.to_N bytes in
    let tokens := approx_tokens_from_byte_count bytes in
    if (Z.of_N tokens <=? i64_max)%Z then Z.of_N tokens else i64_max.

Example mul_policy_values :
  map (fun n => mul_policy (Tokens n) f64_1_2) [0; 1; 2; 5; 10; 10000; 16384; 9007199254740993; usize_max]%N
  = map Tokens [0; 2; 3; 6; 12; 12000; 19661; 10808639105689190; usize_max]%N.
Proof. vm_compute. reflexivity. Qed.

(** ** What truncation of a text keeps *)

Definition uses_tokens (policy : TruncationPolicy) : bool :=
  match policy with Bytes _ => false | Tokens _ => true end.

(** The bytes that a policy with the given budget allows. *)
Definition budget_bytes (policy : TruncationPolicy) : N :=
  match policy with Bytes n => n | Tokens n => 4 * n end%N.

Lemma text_cost_fits policy text :
  allocatable text ->
  (text_cost policy text <=? total_budget policy)%N = (str_len text <=? budget_bytes policy)%N.
Proof.
  intros Ha. destruct policy; cbn [text_cost total_budget byte_budget token_budget budget_bytes]; [done|].
  rewrite approx_token_count_exact by done. unfold tokens_for. lia.
Qed.

Lemma truncate_text_fits policy text :
  allocatable text -> (str_len text <= budget_bytes policy)%N -> truncate_text text policy = Some text.
Proof.
  destruct policy as [n|n]; intros Ha Hf; cbn [budget_bytes truncate_text] in *; [by apply truncate_fits|].
  unfold truncate_middle_with_token_budget. case_bool_decide as Hn; [by subst|].
  rewrite bytes_for_tokens_exact by done. unfold tokens_for.
  destruct (N.ltb_spec 0 n), (N.leb_spec ((str_len text + 3) / 4) n); try done; try lia.
  destruct Hn. apply str_len_0. lia.
Qed.

Lemma truncate_text_long policy text :
  allocatable text -> (budget_bytes policy < str_len text)%N ->
  exists out, truncate_text text policy = Some out /\ truncation text (budget_bytes policy) (uses_tokens policy) out.
Proof.
  destruct policy as [n|n]; intros Ha Hf; cbn [budget_bytes truncate_text uses_tokens] in *;
    [by apply truncation_exists|].
  destruct (truncation_exists text (4 * n) true Ha Hf) as (out & Hout & Ht). exists out. split; [|done].
  unfold truncate_middle_with_token_budget.
  rewrite bool_decide_false by (intros ->; rewrite str_len_nil in Hf; lia).
  rewrite bytes_for_tokens_exact by done. unfold tokens_for.
  destruct (N.leb_spec ((str_len text + 3) / 4) n); [lia|]. rewrite andb_false_r.
  assert (approx_bytes_for_tokens n = 4 * n)%N as ->.
  { unfold allocatable, approx_bytes_for_tokens, saturating_mul, APPROX_BYTES_PER_TOKEN, isize_max,
      usize_max, u64_max in *. lia. }
  rewrite Hout. cbn. by case_bool_decide.
Qed.

Lemma truncation_nonempty s n tok out : truncation s n tok out -> out <> [].
Proof.
  intros (before & mid & after & _ & _ & _ & _ & ->) H. apply app_eq_nil in H as [_ H].
  apply app_eq_nil in H as [H _]. unfold format_truncation_marker in H. by destruct tok.
Qed.

(** ** What truncation of items keeps *)

Section items.
Context (policy : TruncationPolicy).

Definition texts (items : list FunctionCallOutputContentItem) : list str := omap text_segment items.

(** The cost of the texts among the items. *)
Definition items_cost (items : list FunctionCallOutputContentItem) : N :=
  foldr (fun text n => text_cost policy text + n)%N 0%N (texts items).

Definition notes (n : nat) : list FunctionCallOutputContentItem :=
  if 0 <? n then [omitted_note n] else [].

(** [r] is what is left of [items] within [budget]: the items up to the text that no longer fits, a
    truncation of this text (none if the budget was used up exactly), then the images and encrypted
    items alone and a note of how many texts were omitted. *)
Definition kept_within (budget : N) (items r : list FunctionCallOutputContentItem) : Prop :=
  (items_cost items <= budget)%N /\ (budget = 0%N -> texts items = []) /\ r = items \/
  exists kept text later,
    items = kept ++ OutInputText text :: later /\
    ((items_cost kept = budget /\ r = kept ++ omap not_text later ++ notes (S (length (texts later)))) \/
     ((items_cost kept < budget < items_cost kept + text_cost policy text)%N /\
      exists snippet, truncation text (budget_bytes (with_budget policy (budget - items_cost kept)))
                        (uses_tokens policy) snippet /\
        r = kept ++ OutInputText snippet :: omap not_text later ++ notes (length (texts later)))).

Lemma truncate_items_exhausted items acc om :
  truncate_items policy items (Items acc 0 om) =
  Some (Items (acc ++ omap not_text items) 0 (om + length (texts items))).
Proof.
  revert acc om; induction items as [|item items IH]; intros acc om; cbn.
  - by rewrite app_nil_r, Nat.add_0_r.
  - destruct item; cbn; rewrite IH; unfold texts; (do 2 f_equal); try (by rewrite <- app_assoc); lia.
Qed.

Lemma items_cost_text text items :
  items_cost (OutInputText text :: items) = (text_cost policy text + items_cost items)%N.
Proof. done. Qed.

Lemma items_cost_other item items : text_segment item = None -> items_cost (item :: items) = items_cost items.
Proof. intros H. unfold items_cost, texts. cbn. by rewrite H. Qed.

Lemma kept_within_other item budget items r :
  text_segment item = None -> kept_within budget items r -> kept_within budget (item :: items) (item :: r).
Proof.
  intros Hn [(Hc & Hz & ->)|(kept & text & later & -> & H)].
  - left. rewrite items_cost_other by done. split; [done|]. split; [|done].
    intros Hb. unfold texts. cbn. rewrite Hn. by apply Hz.
  - right. exists (item :: kept), text, later. split; [done|]. rewrite items_cost_other by done.
    destruct H as [[Hk ->]|(Hk & snippet & Hsn & ->)]; [by left|]. right. split; [done|]. by exists snippet.
Qed.

Lemma kept_within_text text budget items r :
  (text_cost policy text <= budget)%N -> budget <> 0%N ->
  kept_within (budget - text_cost policy text) items r ->
  kept_within budget (OutInputText text :: items) (OutInputText text :: r).
Proof.
  intros Hc Hb [(Hcost & _ & ->)|(kept & text' & later & -> & H)].
  - left. rewrite items_cost_text. by split; [lia|].
  - right. exists (OutInputText text :: kept), text', later. split; [done|]. rewrite items_cost_text.
    destruct H as [[Hk ->]|(Hk & snippet & Hsn & ->)]; [left; split; [lia|done]|].
    right. split; [lia|]. exists snippet. split; [|done].
    by replace (budget - (text_cost policy text + items_cost kept))%N
      with (budget - text_cost policy text - items_cost kept)%N by lia.
Qed.

Lemma truncate_items_kept items acc budget :
  Forall allocatable (texts items) ->
  exists st r, truncate_items policy items (Items acc budget 0) = Some st /\
    kept_within budget items r /\ out st ++ notes (omitted_text_items st) = acc ++ r.
Proof.
  revert acc budget; induction items as [|item items IH]; intros acc budget Ha.
  - eexists _, []. split; [done|]. split; [left; split; [cbn; lia|done]|done].
  - destruct item as [text|url detail|enc].
    + apply Forall_cons in Ha as [Ht Ha]. cbn [truncate_items truncate_item remaining_budget out omitted_text_items].
      destruct (N.eqb_spec budget 0) as [->|Hb].
      { cbn [mbind option_bind]. rewrite truncate_items_exhausted. eexists _, _. split; [done|].
        split; [right; exists [], text, items; split; [done|]; left; by split|].
        cbn [out omitted_text_items app]. by rewrite <- app_assoc. }
      destruct (N.leb_spec (text_cost policy text) budget) as [Hc|Hc].
      * cbn [mbind option_bind]. destruct (IH (acc ++ [OutInputText text]) (budget - text_cost policy text)%N Ha)
          as (st & r & Hst & Hr & Hout). unfold saturating_sub. rewrite Hst.
        exists st, (OutInputText text :: r). split; [done|]. split; [|by rewrite Hout, <- app_assoc].
        by apply kept_within_text.
      * destruct (truncate_text_long (with_budget policy budget) text Ht) as (snippet & Hs & Hsn).
        { pose proof (text_cost_fits (with_budget policy budget) text Ht). destruct policy; cbn in *; lia. }
        rewrite Hs. cbn [mbind option_bind]. rewrite bool_decide_false by (by eapply truncation_nonempty).
        cbn [mbind option_bind]. rewrite truncate_items_exhausted. eexists _, _. split; [done|]. split.
        { right. exists [], text, items. split; [done|]. right. cbn [items_cost texts foldr omap]. split; [cbn; lia|].
          exists snippet. split; [|done]. rewrite N.sub_0_r. by destruct policy. }
        cbn [out omitted_text_items app]. rewrite <- !app_assoc. done.
    + destruct (IH (acc ++ [OutInputImage url detail]) budget Ha) as (st & r & Hst & Hr & Hout).
      exists st, (OutInputImage url detail :: r). split; [exact Hst|].
      split; [by apply kept_within_other | by rewrite Hout, <- app_assoc].
    + destruct (IH (acc ++ [OutEncryptedContent enc]) budget Ha) as (st & r & Hst & Hr & Hout).
      exists st, (OutEncryptedContent enc :: r). split; [exact Hst|].
      split; [by apply kept_within_other | by rewrite Hout, <- app_assoc].
Qed.
End items.

Lemma kept_within_not_text policy budget items r :
  kept_within policy budget items r -> omap not_text r = omap not_text items.
Proof.
  assert (Hid : forall l : list FunctionCallOutputContentItem, omap not_text (omap not_text l) = omap not_text l).
  { induction l as [|[]]; cbn; [done|done|by f_equal|by f_equal]. }
  assert (Hn : forall n, omap not_text (notes n) = []) by (by intros [|n]).
  intros [(_ & _ & ->)|(kept & text & later & -> & [[_ ->]|(_ & snippet & _ & ->)])]; [done| |];
    rewrite !omap_app; cbn [omap list_omap not_text];
    rewrite ?omap_app, Hid, Hn, app_nil_r; done.
Qed.

Lemma items_truncated_spec l policy :
  Forall allocatable (texts l) ->
  exists r, truncate_function_output_items_with_policy l policy = Some r /\
    kept_within policy (total_budget policy) l r /\ omap not_text r = omap not_text l.
Proof.
  intros Ha. destruct (truncate_items_kept policy l [] (total_budget policy) Ha) as (st & r & Hst & Hr & Hout).
  exists r. unfold truncate_function_output_items_with_policy. rewrite Hst. cbn [mbind option_bind].
  split; [|by eapply conj, kept_within_not_text]. cbn [app] in Hout. rewrite <- Hout. unfold notes.
  case_match; [done | by rewrite app_nil_r].
Qed.

(** Truncating the items of a tool's output never panics and keeps every image and encrypted item in
    its place; texts are kept in full while the budget of bytes or tokens lasts, the text that exceeds it
    is truncated to what is left, and the texts after it are replaced by one note that counts them. *)
Theorem items_truncated_within_budget items policy :
  Forall allocatable (texts items) ->
  exists r, truncate_function_output_items_with_policy items policy = Some r /\
    kept_within policy (total_budget policy) items r /\ omap not_text r = omap not_text items.
Proof.
  apply items_truncated_spec.
Qed.

Lemma items_truncated_within_budget_witness :
  let items := [OutInputText (lit "abc"); OutInputImage (lit "u") None; OutInputText (lit "defghi");
                OutInputText (lit "j"); OutEncryptedContent (lit "e")] in
  Forall allocatable (texts items) /\
  exists r, truncate_function_output_items_with_policy items (Bytes 5) = Some r /\
    kept_within (Bytes 5) 5 items r /\ omap not_text r = omap not_text items.
Proof.
  intros items. assert (H : Forall allocatable (texts items)) by (apply allocatable_all; by vm_compute).
  split; [exact H|]. exact (items_truncated_within_budget items (Bytes 5) H).
Defined.

(** The segments of a text without those that are empty at its beginning. *)
Fixpoint drop_empty (segments : list str) : list str :=
  match segments with
  | [] => []
  | [] :: segments => drop_empty segments
  | _ => segments
  end.

(** The joined segments: a line feed between two of them, none before the first that is not empty. *)
Lemma combine_segments_join segments : combine_segments segments = join [NL] (drop_empty segments).
Proof.
  assert (H : forall segments acc, acc <> [] ->
    fold_left (fun combined text : str => (if bool_decide (combined = []) then combined else combined ++ [NL]) ++ text)
      segments acc = join [NL] (acc :: segments)).
  { induction segments0 as [|x l IH]; intros acc Hacc; [done|]. cbn [fold_left].
    rewrite bool_decide_false by done. rewrite IH; [|by destruct acc].
    destruct l; cbn [join]; by rewrite <- ?app_assoc. }
  unfold combine_segments. induction segments as [|[|c x] l IH]; [done|exact IH|]. cbn [fold_left]. by rewrite bool_decide_true, H.
Qed.

Lemma byte_budget_fits policy text :
  allocatable text -> (str_len text <=? byte_budget policy)%N = (str_len text <=? budget_bytes policy)%N.
Proof.
  intros Ha. destruct policy; cbn [byte_budget budget_bytes]; [done|].
  rewrite bytes_for_tokens_exact by done. unfold tokens_for. lia.
Qed.

(** The text shown for a content that exceeds the budget. *)
Definition formatted (content result : str) : str :=
  lit "Total output lines: " ++ show_nat (length (lines content)) ++ [NL; NL] ++ result.

Lemma formatted_truncate_text_spec content policy :
  allocatable content ->
  if (str_len content <=? budget_bytes policy)%N
  then formatted_truncate_text content policy = Some content
  else exists result, formatted_truncate_text content policy = Some (formatted content result) /\
         truncation content (budget_bytes policy) (uses_tokens policy) result.
Proof.
  intros Ha. unfold formatted_truncate_text. rewrite byte_budget_fits by done.
  destruct (N.leb_spec (str_len content) (budget_bytes policy)) as [H|H]; [done|].
  destruct (truncate_text_long policy content Ha H) as (r & Hr & Ht). rewrite Hr. by exists r.
Qed.

(** Items whose joined text fits are returned as they are; otherwise their texts become one formatted
    and truncated text in front of the other items, and the tokens of the joined text are reported. *)
Lemma formatted_items_spec items policy :
  let combined := join [NL] (drop_empty (texts items)) in
  allocatable combined ->
  exists r, formatted_truncate_text_content_items_with_policy items policy = Some r /\
    if (str_len combined <=? budget_bytes policy)%N then r = (items, None)
    else exists result, truncation combined (budget_bytes policy) (uses_tokens policy) result /\
           r = (OutInputText (formatted combined result) :: omap not_text items,
                Some (tokens_for (str_len combined))).
Proof.
  intros combined Ha. unfold formatted_truncate_text_content_items_with_policy. fold (texts items).
  rewrite combine_segments_join. fold combined. rewrite byte_budget_fits by done.
  pose proof (formatted_truncate_text_spec combined policy Ha) as Hf. case_bool_decide as Hn.
  - eexists; split; [done|]. assert (combined = []) as -> by (unfold combined; by rewrite Hn).
    rewrite str_len_nil. by destruct (budget_bytes policy).
  - destruct (N.leb_spec (str_len combined) (budget_bytes policy)); [by eexists|].
    destruct Hf as (result & -> & Ht). eexists; split; [done|]. exists result.
    by rewrite approx_token_count_exact.
Qed.

End OutputTruncation.
