(* ===== verification/ContextFragments.v ===== *)
(** * Injected context: context-fragments/src, core/src/context, core/src/event_mapping.rs

    The program injects context into the conversation as messages of the user or the developer.  These
    functions recognise such messages, so that a rollback can tell them from what the user wrote.
    Parsing the XML of a hook prompt (quick_xml) and the JSON of a message between agents (serde_json)
    are parameters. *)

From S2P Require Import Prelude Text ResponseItems.

Module ContextFragments.
Import ResponseItems.

(** ** str *)

(** [s.get(..n)]: the first [n] bytes, if they end at a character. *)
Fixpoint get_to (n : nat) (s : str) : option str :=
  match n with
  | 0 => Some []
  | _ => match s with
         | [] => None
         | c :: s => if char_len_utf8 c <=? n then cons c <$> get_to (n - char_len_utf8 c) s else None
         end
  end.

(** [s.get(n..)]. *)
Fixpoint get_from (n : nat) (s : str) : option str :=
  match n with
  | 0 => Some s
  | _ => match s with
         | [] => None
         | c :: s => if char_len_utf8 c <=? n then get_from (n - char_len_utf8 c) s else None
         end
  end.

Definition eq_ignore_ascii_case (a b : str) : bool :=
  bool_decide (to_ascii_lowercase a = to_ascii_lowercase b).

Definition is_some_and {A} (f : A -> bool) (o : option A) : bool :=
  match o with Some a => f a | None => false end.

(** [s.split_once(sep)]. *)
Definition split_once_str (sep s : str) : option (str * str) :=
  i ← find_sub sep s; Some (take i s, drop (i + length sep) s).

Definition QUOTE : char := 34%N.
Definition UNDERSCORE : char := 95%N.

(** ** Fragments *)

(** [codex-rs/context-fragments/src/fragment.rs:114-128 matches_marked_text] *)
Definition matches_marked_text (start_marker end_marker text : str) : bool :=
  match start_marker, end_marker with
  | [], _ | _, [] => false
  | _, _ =>
      let trimmed := trim_start text in
      let starts_with_marker :=
        is_some_and (eq_ignore_ascii_case start_marker) (get_to (len_utf8 start_marker) trimmed) in
      let trimmed := trim_end trimmed in
      let ends_with_marker :=
        is_some_and (eq_ignore_ascii_case end_marker)
          (get_from (len_utf8 trimmed - len_utf8 end_marker) trimmed) in
      starts_with_marker && ends_with_marker
  end.

(** [codex-rs/context-fragments/src/additional_context.rs:37-48 matches_text] *)
Definition additional_context_matches (text : str) : bool :=
  let trimmed := trim text in
  match strip_prefix (lit "<external_") trimmed with
  | None => false
  | Some rest =>
      match split_once_str (lit ">") rest with
      | None => false
      | Some (key, value_and_close) =>
          ends_with (lit "</external_" ++ key ++ lit ">") value_and_close
      end
  end.

(** [codex-rs/core/src/context/internal_model_context.rs:117-120 matches_legacy_goal_context] *)
Definition matches_legacy_goal_context (text : str) : bool :=
  starts_with (lit "<goal_context>") text && ends_with (lit "</goal_context>") text.

(** [codex-rs/core/src/context/internal_model_context.rs:122-129 is_valid_source] *)
Definition is_valid_source (source : str) : bool :=
  match source with
  | [] => false
  | first :: chars =>
      is_ascii_lower first
      && forallb (fun ch => is_ascii_lower ch || is_ascii_digit ch || (ch =? UNDERSCORE)%N) chars
  end.

(** [codex-rs/core/src/context/internal_model_context.rs:91-108 matches_text] *)
Definition internal_context_matches (text : str) : bool :=
  let trimmed := trim text in
  if matches_legacy_goal_context trimmed then true
  else
    match strip_prefix (lit "<codex_internal_context") trimmed with
    | None => false
    | Some rest =>
        match strip_prefix (lit " source=" ++ [QUOTE]) rest with
        | None => false
        | Some rest =>
            match split_once_str (QUOTE :: lit ">") rest with
            | None => false
            | Some (source, body_and_close) =>
                is_valid_source source && ends_with (lit "</codex_internal_context>") body_and_close
            end
        end
    end.

(** [codex-rs/core/src/context/legacy_unified_exec_process_limit_warning.rs:20-24 matches_text] *)
Definition process_limit_warning_matches (text : str) : bool :=
  starts_with (lit "Warning: The maximum number of unified exec processes you can keep open is") (trim text).

(** [codex-rs/core/src/context/legacy_apply_patch_exec_command_warning.rs:20-24 matches_text] *)
Definition apply_patch_warning_matches (text : str) : bool :=
  let trimmed := trim text in
  starts_with (lit "Warning: apply_patch was requested via ") trimmed
  && ends_with (lit "Use the apply_patch tool instead of exec_command.") trimmed.

(** [codex-rs/core/src/context/legacy_model_mismatch_warning.rs:20-24 matches_text] *)
Definition model_mismatch_warning_matches (text : str) : bool :=
  starts_with (lit "Warning: Your account was flagged for potentially high-risk cyber activity") (trim text).

(** [codex-rs/core/src/context/contextual_user_message.rs:46-58 CONTEXTUAL_USER_FRAGMENTS] each fragment
    as its [matches_text]; those without one of their own match between their markers. *)
Definition CONTEXTUAL_USER_FRAGMENTS : list (str -> bool) := [
  matches_marked_text (lit "# CODEWITH.md instructions for ") (lit "</INSTRUCTIONS>");
  matches_marked_text (lit "<environment_context>") (lit "</environment_context>");
  additional_context_matches;
  matches_marked_text (lit "<skill>") (lit "</skill>");
  matches_marked_text (lit "<user_shell_command>") (lit "</user_shell_command>");
  matches_marked_text (lit "<turn_aborted>") (lit "</turn_aborted>");
  matches_marked_text (lit "<subagent_notification>") (lit "</subagent_notification>");
  internal_context_matches;
  process_limit_warning_matches;
  apply_patch_warning_matches;
  model_mismatch_warning_matches
].

(** [codex-rs/core/src/context/contextual_user_message.rs:60-64 is_standard_contextual_user_text] *)
Definition is_standard_contextual_user_text (text : str) : bool :=
  existsb (fun matches => matches text) CONTEXTUAL_USER_FRAGMENTS.

(** [codex-rs/core/src/event_mapping.rs:27-33 CONTEXTUAL_DEVELOPER_PREFIXES] *)
Definition CONTEXTUAL_DEVELOPER_PREFIXES : list str := [
  lit "<permissions instructions>"; lit "<model_switch>"; lit "<collaboration_mode>";
  lit "<realtime_conversation>"; lit "<personality_spec>"
].

(** [codex-rs/core/src/event_mapping.rs:56-67 is_contextual_dev_fragment] *)
Definition is_contextual_dev_fragment (content_item : ContentItem) : bool :=
  match content_item with
  | InputText text =>
      let trimmed := trim_start text in
      existsb (fun prefix => is_some_and (eq_ignore_ascii_case prefix) (get_to (len_utf8 prefix) trimmed))
        CONTEXTUAL_DEVELOPER_PREFIXES
  | _ => false
  end.

(** [codex-rs/core/src/event_mapping.rs:44-46 is_contextual_dev_message_content] *)
Definition is_contextual_dev_message_content (message : list ContentItem) : bool :=
  existsb is_contextual_dev_fragment message.

(** [codex-rs/core/src/event_mapping.rs:50-54 has_non_contextual_dev_message_content] *)
Definition has_non_contextual_dev_message_content (message : list ContentItem) : bool :=
  existsb (fun content_item => negb (is_contextual_dev_fragment content_item)) message.

Section parsers.
(** [from_xml_str::<HookPromptXml>], which gives the text and the run id of a hook prompt. *)
Context (from_xml_str : str -> option (str * str)).
(** [serde_json::from_str::<InterAgentCommunication>(text).ok().is_some()]. *)
Context (is_inter_agent_json : str -> bool).

(** [codex-rs/protocol/src/items.rs:418-426 parse_hook_prompt_fragment] *)
Definition parse_hook_prompt_fragment (text : str) : option (str * str) :=
  '(text, hook_run_id) ← from_xml_str (trim text);
  match trim hook_run_id with [] => None | _ => Some (text, hook_run_id) end.

(** [codex-rs/core/src/context/contextual_user_message.rs:66-71 is_contextual_user_fragment] *)
Definition is_contextual_user_fragment (content_item : ContentItem) : bool :=
  match content_item with
  | InputText text =>
      is_some_and (fun _ => true) (parse_hook_prompt_fragment text) || is_standard_contextual_user_text text
  | _ => false
  end.

(** [codex-rs/core/src/event_mapping.rs:35-37 is_contextual_user_message_content] *)
Definition is_contextual_user_message_content (message : list ContentItem) : bool :=
  existsb is_contextual_user_fragment message.

(** [codex-rs/protocol/src/protocol.rs:803-805 is_message_content] *)
Definition is_message_content (content : list ContentItem) : bool :=
  match content with
  | [InputText text] | [OutputText text] => is_inter_agent_json text
  | _ => false
  end.
End parsers.

Example marked_text_example :
  is_standard_contextual_user_text (lit "  <Environment_Context>x</environment_context> ") = true /\
  is_standard_contextual_user_text (lit "please run ls") = false.
Proof. split; vm_compute; reflexivity. Qed.

End ContextFragments.
