(* ===== verification/History.v ===== *)
(** * The history of a conversation: core/src/context_manager

    [normalize.rs], which makes a history fit to be sent to the model, and the operations of
    [ContextManager] in history.rs that rewrite it: normalisation for a prompt, dropping the oldest item,
    and rolling back turns.  [error_or_panic] panics in a build with debug assertions and logs in a
    release build, so the functions that call it take the flag [debug_assertions]; [None] is a panic.
    What the code only stores (token counts and the reference context) has an arbitrary type. *)

From S2P Require Import Prelude Text ResponseItems ContextFragments.

Module History.
Import ResponseItems ContextFragments.

(** ** Normalisation *)

(** [codex-rs/core/src/context_manager/normalize.rs:11-12 IMAGE_CONTENT_OMITTED_PLACEHOLDER] *)
Definition IMAGE_CONTENT_OMITTED_PLACEHOLDER : str :=
  lit "image content omitted because you do not support image input".
(** [codex-rs/core/src/context_manager/normalize.rs:13-14 REMOTE_IMAGE_URL_PLACEHOLDER] *)
Definition REMOTE_IMAGE_URL_PLACEHOLDER : str :=
  lit "image content omitted because remote image URLs are not supported".

Section normalize.
Context (debug_assertions : bool).
Implicit Types (items : list ResponseItem) (item : ResponseItem) (call_id : str).

(** [codex-rs/core/src/util.rs:94-100 error_or_panic] *)
Definition error_or_panic : option unit := if debug_assertions then None else Some tt.

(** The three searches for an output, [items.iter().any(..)]. *)
Definition has_function_output items call_id : bool :=
  existsb (fun i => match i with FunctionCallOutput existing _ => bool_decide (existing = call_id)
                    | _ => false end) items.
Definition has_tool_search_output items call_id : bool :=
  existsb (fun i => match i with ToolSearchOutput (Some existing) _ _ _ => bool_decide (existing = call_id)
                    | _ => false end) items.
Definition has_custom_output items call_id : bool :=
  existsb (fun i => match i with CustomToolCallOutput existing _ _ => bool_decide (existing = call_id)
                    | _ => false end) items.

(** [codex-rs/core/src/context_manager/normalize.rs:23-114 ensure_call_outputs_present] the body of the
    loop: the output to insert after the item, if it is a call without one. *)
Definition missing_output items item : option (option ResponseItem) :=
  match item with
  | FunctionCall _ _ _ _ call_id =>
      if has_function_output items call_id then Some None
      else Some (Some (FunctionCallOutput call_id (from_text (lit "aborted"))))
  | ToolSearchCall _ (Some call_id) _ _ _ =>
      if has_tool_search_output items call_id then Some None
      else Some (Some (ToolSearchOutput (Some call_id) (lit "completed") (lit "client") []))
  | CustomToolCall _ _ call_id _ _ _ =>
      if has_custom_output items call_id then Some None
      else _ ← error_or_panic;
           Some (Some (CustomToolCallOutput call_id None (from_text (lit "aborted"))))
  | LocalShellCall _ (Some call_id) _ _ =>
      if has_function_output items call_id then Some None
      else _ ← error_or_panic;
           Some (Some (FunctionCallOutput call_id (from_text (lit "aborted"))))
  | _ => Some None
  end.

(** The first loop: the outputs to insert with the index of their call. *)
Fixpoint missing_outputs items (idx : nat) (rest : list ResponseItem)
  : option (list (nat * ResponseItem)) :=
  match rest with
  | [] => Some []
  | item :: rest =>
      out ← missing_output items item;
      outs ← missing_outputs items (S idx) rest;
      Some (match out with Some o => (idx, o) :: outs | None => outs end)
  end.

(** [Vec::insert], which panics past the end. *)
Definition insert_at {A} (i : nat) (x : A) (l : list A) : option (list A) :=
  if i <=? length l then Some (take i l ++ x :: drop i l) else None.

(** [codex-rs/core/src/context_manager/normalize.rs:16-122 ensure_call_outputs_present] *)
Definition ensure_call_outputs_present items : option (list ResponseItem) :=
  missing_outputs_to_insert ← missing_outputs items 0 items;
  fold_left (fun acc '(idx, output_item) => acc ← acc; insert_at (idx + 1) output_item acc)
    (rev missing_outputs_to_insert) (Some items).

(** [codex-rs/core/src/context_manager/normalize.rs:191-196 RequiredCall] *)
Inductive RequiredCall := Function_ (call_id : str) | ToolSearch (call_id : str) | CustomTool (call_id : str).

(** [codex-rs/core/src/context_manager/normalize.rs:202-216 required_call_for_output] *)
Definition required_call_for_output item : option RequiredCall :=
  match item with
  | FunctionCallOutput call_id _ => Some (Function_ call_id)
  | CustomToolCallOutput call_id _ _ => Some (CustomTool call_id)
  | ToolSearchOutput call_id _ execution _ =>
      if bool_decide (execution = lit "server") then None
      else match call_id with Some call_id => Some (ToolSearch call_id) | None => None end
  | _ => None
  end.

(** The four sets of call ids that [remove_orphan_outputs] collects. *)
Definition function_call_ids items : gset str :=
  list_to_set (omap (fun i => match i with FunctionCall _ _ _ _ call_id => Some call_id | _ => None end) items).
Definition tool_search_call_ids items : gset str :=
  list_to_set (omap (fun i => match i with ToolSearchCall _ call_id _ _ _ => call_id | _ => None end) items).
Definition local_shell_call_ids items : gset str :=
  list_to_set (omap (fun i => match i with LocalShellCall _ call_id _ _ => call_id | _ => None end) items).
Definition custom_tool_call_ids items : gset str :=
  list_to_set (omap (fun i => match i with CustomToolCall _ _ call_id _ _ _ => Some call_id | _ => None end) items).

Definition has_match items (required_call : RequiredCall) : bool :=
  match required_call with
  | Function_ call_id =>
      bool_decide (call_id ∈ function_call_ids items) || bool_decide (call_id ∈ local_shell_call_ids items)
  | ToolSearch call_id => bool_decide (call_id ∈ tool_search_call_ids items)
  | CustomTool call_id => bool_decide (call_id ∈ custom_tool_call_ids items)
  end.

(** The closure of [retain]. *)
Definition retained items item : option bool :=
  match required_call_for_output item with
  | None => Some true
  | Some required_call =>
      if has_match items required_call then Some true else _ ← error_or_panic; Some false
  end.

(** [Vec::retain] with a closure that may panic. *)
Fixpoint retain {A} (f : A -> option bool) (l : list A) : option (list A) :=
  match l with
  | [] => Some []
  | x :: l => b ← f x; l' ← retain f l; Some (if b : bool then x :: l' else l')
  end.

(** [codex-rs/core/src/context_manager/normalize.rs:124-189 remove_orphan_outputs] *)
Definition remove_orphan_outputs items : option (list ResponseItem) := retain (retained items) items.

(** [codex-rs/core/src/context_manager/normalize.rs:305-312 remove_first_matching] *)
Fixpoint remove_first_matching {A} (predicate : A -> bool) (l : list A) : list A :=
  match l with
  | [] => []
  | x :: l => if predicate x then l else x :: remove_first_matching predicate l
  end.

Definition is_function_output call_id item : bool :=
  match item with FunctionCallOutput existing _ => bool_decide (existing = call_id) | _ => false end.
Definition is_function_call call_id item : bool :=
  match item with FunctionCall _ _ _ _ existing => bool_decide (existing = call_id) | _ => false end.
Definition is_local_shell_call call_id item : bool :=
  match item with LocalShellCall _ (Some existing) _ _ => bool_decide (existing = call_id) | _ => false end.
Definition is_tool_search_output call_id item : bool :=
  match item with ToolSearchOutput (Some existing) _ _ _ => bool_decide (existing = call_id) | _ => false end.
Definition is_tool_search_call call_id item : bool :=
  match item with ToolSearchCall _ (Some existing) _ _ _ => bool_decide (existing = call_id) | _ => false end.
Definition is_custom_output call_id item : bool :=
  match item with CustomToolCallOutput existing _ _ => bool_decide (existing = call_id) | _ => false end.
Definition is_custom_call call_id item : bool :=
  match item with CustomToolCall _ _ existing _ _ _ => bool_decide (existing = call_id) | _ => false end.

(** [codex-rs/core/src/context_manager/normalize.rs:218-303 remove_corresponding_for] *)
Definition remove_corresponding_for items item : list ResponseItem :=
  match item with
  | FunctionCall _ _ _ _ call_id => remove_first_matching (is_function_output call_id) items
  | FunctionCallOutput call_id _ =>
      if existsb (is_function_call call_id) items
      then remove_first_matching (is_function_call call_id) items
      else remove_first_matching (is_local_shell_call call_id) items
  | ToolSearchCall _ (Some call_id) _ _ _ => remove_first_matching (is_tool_search_output call_id) items
  | ToolSearchOutput (Some call_id) _ _ _ => remove_first_matching (is_tool_search_call call_id) items
  | CustomToolCall _ _ call_id _ _ _ => remove_first_matching (is_custom_output call_id) items
  | CustomToolCallOutput call_id _ _ => remove_first_matching (is_custom_call call_id) items
  | LocalShellCall _ (Some call_id) _ _ => remove_first_matching (is_function_output call_id) items
  | _ => items
  end.

Definition COLON : char := 58%N.

(** [codex-rs/core/src/context_manager/normalize.rs:314-318 is_remote_image_url] *)
Definition is_remote_image_url (image_url : str) : bool :=
  match split_once COLON image_url with
  | Some (scheme, _) => eq_ignore_ascii_case scheme (lit "http") || eq_ignore_ascii_case scheme (lit "https")
  | None => false
  end.

(** [content_items_mut()] with an update of the items. *)
Definition on_content_items (f : list FunctionCallOutputContentItem -> list FunctionCallOutputContentItem)
  (output : FunctionCallOutputPayload) : FunctionCallOutputPayload :=
  match body output with
  | BodyText _ => output
  | ContentItems l => Payload (ContentItems (f l)) (success output)
  end.

(** The two assignments of [replace_remote_images_with_error] to a content item. *)
Definition remote_content (c : ContentItem) : ContentItem :=
  match c with
  | InputImage image_url _ =>
      if is_remote_image_url image_url then InputText REMOTE_IMAGE_URL_PLACEHOLDER else c
  | _ => c
  end.
Definition remote_output (c : FunctionCallOutputContentItem) : FunctionCallOutputContentItem :=
  match c with
  | OutInputImage image_url _ =>
      if is_remote_image_url image_url then OutInputText REMOTE_IMAGE_URL_PLACEHOLDER else c
  | _ => c
  end.

(** The body of its loop. *)
Definition remote_item item : ResponseItem :=
  match item with
  | Message id role content phase => Message id role (map remote_content content) phase
  | FunctionCallOutput call_id output => FunctionCallOutput call_id (on_content_items (map remote_output) output)
  | CustomToolCallOutput call_id name output =>
      CustomToolCallOutput call_id name (on_content_items (map remote_output) output)
  | _ => item
  end.

(** [codex-rs/core/src/context_manager/normalize.rs:329-361 replace_remote_images_with_error] *)
Definition replace_remote_images_with_error items : list ResponseItem := map remote_item items.

(** The content items that [strip_images_when_unsupported] pushes. *)
Definition stripped_content (c : ContentItem) : ContentItem :=
  match c with InputImage _ _ => InputText IMAGE_CONTENT_OMITTED_PLACEHOLDER | _ => c end.
Definition stripped_output (c : FunctionCallOutputContentItem) : FunctionCallOutputContentItem :=
  match c with OutInputImage _ _ => OutInputText IMAGE_CONTENT_OMITTED_PLACEHOLDER | _ => c end.

(** The body of its loop. *)
Definition stripped_item item : ResponseItem :=
  match item with
  | Message id role content phase => Message id role (map stripped_content content) phase
  | FunctionCallOutput call_id output => FunctionCallOutput call_id (on_content_items (map stripped_output) output)
  | CustomToolCallOutput call_id name output =>
      CustomToolCallOutput call_id name (on_content_items (map stripped_output) output)
  | ImageGenerationCall id status revised_prompt _ => ImageGenerationCall id status revised_prompt []
  | _ => item
  end.

(** [codex-rs/core/src/context_manager/normalize.rs:365-415 strip_images_when_unsupported] *)
Definition strip_images_when_unsupported (input_modalities : list InputModality) items
  : list ResponseItem :=
  if bool_decide (ImageModality ∈ input_modalities) then items else map stripped_item items.

(** [codex-rs/core/src/context_manager/history.rs:394-406 normalize_history] on the items. *)
Definition normalize_history (input_modalities : list InputModality) items
  : option (list ResponseItem) :=
  items ← ensure_call_outputs_present items;
  items ← remove_orphan_outputs items;
  Some (replace_remote_images_with_error (strip_images_when_unsupported input_modalities items)).
End normalize.

(** ** The context manager *)

(** [codex-rs/core/src/context_manager/history.rs:32-51 ContextManager] *)
Record ContextManager (TokenInfo TurnContext : Type) := Manager {
  items : list ResponseItem;
  history_version : N;
  token_info : option TokenInfo;
  reference_context_item : option TurnContext
}.
Arguments Manager {_ _} _ _ _ _.
Arguments items {_ _} _.
Arguments history_version {_ _} _.
Arguments token_info {_ _} _.
Arguments reference_context_item {_ _} _.

Section manager.
Context {TokenInfo TurnContext : Type}.
Context (from_xml_str : str -> option (str * str)) (is_inter_agent_json : str -> bool).
Implicit Types (self : ContextManager TokenInfo TurnContext).

(** [codex-rs/core/src/context_manager/history.rs:133-136 for_prompt] *)
Definition for_prompt (debug_assertions : bool) self (input_modalities : list InputModality)
  : option (list ResponseItem) :=
  normalize_history debug_assertions input_modalities (items self).

(** [codex-rs/core/src/context_manager/history.rs:191-194 replace] *)
Definition replace self (new_items : list ResponseItem) : ContextManager TokenInfo TurnContext :=
  Manager new_items (N.min (history_version self + 1) u64_max) (token_info self)
    (reference_context_item self).

(** [codex-rs/core/src/context_manager/history.rs:179-189 remove_first_item] *)
Definition remove_first_item self : ContextManager TokenInfo TurnContext :=
  match items self with
  | [] => self
  | removed :: rest =>
      Manager (remove_corresponding_for rest removed) (history_version self) (token_info self)
        (reference_context_item self)
  end.

(** [codex-rs/core/src/context_manager/history.rs:837-847 is_user_turn_boundary] *)
Definition is_user_turn_boundary (item : ResponseItem) : bool :=
  match item with
  | AgentMessage _ _ _ => true
  | Message _ role content _ =>
      (bool_decide (role = lit "user") && negb (is_contextual_user_message_content from_xml_str content))
      || (bool_decide (role = lit "assistant") && is_message_content is_inter_agent_json content)
  | _ => false
  end.

(** [codex-rs/core/src/context_manager/history.rs:853-861 user_message_positions] *)
Definition user_message_positions (snapshot : list ResponseItem) : list nat :=
  omap (fun '(idx, item) => if is_user_turn_boundary item then Some idx else None) (imap pair snapshot).

(** [codex-rs/core/src/context_manager/history.rs:463-491 trim_pre_turn_context_updates] the loop counts
    [cut_idx] down; the state is the reference context. *)
Fixpoint trim_pre_turn_context_updates (snapshot : list ResponseItem) (first_instruction_turn_idx cut_idx : nat)
  (reference : option TurnContext) : option (option TurnContext * nat) :=
  match cut_idx with
  | 0 => Some (reference, cut_idx)
  | S before =>
      if first_instruction_turn_idx <? cut_idx then
        item ← snapshot !! before;
        match item with
        | Message _ role content _ =>
            if bool_decide (role = lit "developer") && is_contextual_dev_message_content content then
              let reference := if has_non_contextual_dev_message_content content then None else reference in
              trim_pre_turn_context_updates snapshot first_instruction_turn_idx before reference
            else if bool_decide (role = lit "user")
                    && is_contextual_user_message_content from_xml_str content then
              trim_pre_turn_context_updates snapshot first_instruction_turn_idx before reference
            else Some (reference, cut_idx)
        | _ => Some (reference, cut_idx)
        end
      else Some (reference, cut_idx)
  end.

(** [codex-rs/core/src/context_manager/history.rs:269-292 drop_last_n_user_turns] [num_turns] is a [u32],
    which fits in a [usize]. *)
Definition drop_last_n_user_turns self (num_turns : nat) : option (ContextManager TokenInfo TurnContext) :=
  if num_turns =? 0 then Some self
  else
    let snapshot := items self in
    let user_positions := user_message_positions snapshot in
    match user_positions with
    | [] => Some (replace self snapshot)
    | first_instruction_turn_idx :: _ =>
        let n_from_end := num_turns in
        cut_idx ←
          (if length user_positions <=? n_from_end then Some first_instruction_turn_idx
           else user_positions !! (length user_positions - n_from_end));
        '(reference, cut_idx) ←
          trim_pre_turn_context_updates snapshot first_instruction_turn_idx cut_idx (reference_context_item self);
        let self := Manager (items self) (history_version self) (token_info self) reference in
        if cut_idx <=? length snapshot then Some (replace self (take cut_idx snapshot)) else None
    end.

(** The replacement loop of [replace_last_turn_images]. *)
Definition replace_images (placeholder : str) (l : list FunctionCallOutputContentItem)
  : list FunctionCallOutputContentItem * bool :=
  fold_right (fun c '(l, replaced) =>
    match c with OutInputImage _ _ => (OutInputText placeholder :: l, true) | _ => (c :: l, replaced) end)
    ([], false) l.

(** [rposition]. *)
Fixpoint rposition {A} (f : A -> bool) (l : list A) : option nat :=
  match l with
  | [] => None
  | x :: l => match rposition f l with Some i => Some (S i) | None => if f x then Some 0 else None end
  end.

(** [codex-rs/core/src/context_manager/history.rs:221-251 replace_last_turn_images] *)
Definition replace_last_turn_images self (placeholder : str) : ContextManager TokenInfo TurnContext * bool :=
  match rposition (fun item => match item with FunctionCallOutput _ _ => true
                               | _ => is_user_turn_boundary item end) (items self) with
  | None => (self, false)
  | Some index =>
      match items self !! index with
      | Some (FunctionCallOutput call_id output) =>
          match body output with
          | BodyText _ => (self, false)
          | ContentItems l =>
              let '(l, replaced) := replace_images placeholder l in
              let item := FunctionCallOutput call_id (Payload (ContentItems l) (success output)) in
              (Manager (<[index := item]> (items self))
                 (if replaced then N.min (history_version self + 1) u64_max else history_version self)
                 (token_info self) (reference_context_item self), replaced)
          end
      | _ => (self, false)
      end
  end.
End manager.

(** ** Calls and outputs *)

(** The ways a call and its output are matched. *)
Inductive call_kind := KFunction | KSearch | KCustom.

#[global] Instance call_kind_eq_dec : EqDecision call_kind.
Proof. solve_decision. Defined.

(** What a call wants answered, what an output answers, and what it needs. *)
Definition call_key (item : ResponseItem) : option (call_kind * str) :=
  match item with
  | FunctionCall _ _ _ _ call_id => Some (KFunction, call_id)
  | LocalShellCall _ (Some call_id) _ _ => Some (KFunction, call_id)
  | ToolSearchCall _ (Some call_id) _ _ _ => Some (KSearch, call_id)
  | CustomToolCall _ _ call_id _ _ _ => Some (KCustom, call_id)
  | _ => None
  end.

Definition answer_key (item : ResponseItem) : option (call_kind * str) :=
  match item with
  | FunctionCallOutput call_id _ => Some (KFunction, call_id)
  | ToolSearchOutput (Some call_id) _ _ _ => Some (KSearch, call_id)
  | CustomToolCallOutput call_id _ _ => Some (KCustom, call_id)
  | _ => None
  end.

Definition required_key (item : ResponseItem) : option (call_kind * str) :=
  match required_call_for_output item with
  | Some (Function_ call_id) => Some (KFunction, call_id)
  | Some (ToolSearch call_id) => Some (KSearch, call_id)
  | Some (CustomTool call_id) => Some (KCustom, call_id)
  | None => None
  end.

(** The history has an output for every call, and the call of every output that needs one. *)
Definition calls_answered (l : list ResponseItem) : Prop :=
  forall item key, item ∈ l -> call_key item = Some key -> exists o, o ∈ l /\ answer_key o = Some key.
Definition outputs_called (l : list ResponseItem) : Prop :=
  forall o key, o ∈ l -> required_key o = Some key -> exists c, c ∈ l /\ call_key c = Some key.

Definition answered (l : list ResponseItem) key : bool :=
  existsb (fun i => bool_decide (answer_key i = Some key)) l.
Definition called (l : list ResponseItem) key : bool :=
  existsb (fun i => bool_decide (call_key i = Some key)) l.

(** The output that stands for the missing one, and the outputs without a call. *)
Definition synthetic (key : call_kind * str) : ResponseItem :=
  match key with
  | (KFunction, call_id) => FunctionCallOutput call_id (from_text (lit "aborted"))
  | (KSearch, call_id) => ToolSearchOutput (Some call_id) (lit "completed") (lit "client") []
  | (KCustom, call_id) => CustomToolCallOutput call_id None (from_text (lit "aborted"))
  end.

Definition missing (l : list ResponseItem) item : list ResponseItem :=
  match call_key item with
  | Some key => if answered l key then [] else [synthetic key]
  | None => []
  end.

Definition orphan (l : list ResponseItem) item : bool :=
  match required_key item with Some key => negb (called l key) | None => false end.

(** Images as the model may see them. *)
Definition clean (input_modalities : list InputModality) (item : ResponseItem) : ResponseItem :=
  remote_item (if bool_decide (ImageModality ∈ input_modalities) then item else stripped_item item).

(** The normalised history, in one pass: orphan outputs dropped, missing outputs after their calls. *)
Definition paired_history (l : list ResponseItem) : list ResponseItem :=
  flat_map (fun item => if orphan l item then [] else item :: missing l item) l.
Definition normalized (input_modalities : list InputModality) (l : list ResponseItem) : list ResponseItem :=
  map (clean input_modalities) (paired_history l).

Lemma existsb_elem {A} (f : A -> bool) l : existsb f l = true <-> exists x, x ∈ l /\ f x = true.
Proof. rewrite existsb_exists. by setoid_rewrite <- list_elem_of_In. Qed.

Lemma answered_true l key : answered l key = true <-> exists o, o ∈ l /\ answer_key o = Some key.
Proof. unfold answered. rewrite existsb_elem. by setoid_rewrite bool_decide_eq_true. Qed.

Lemma called_true l key : called l key = true <-> exists c, c ∈ l /\ call_key c = Some key.
Proof. unfold called. rewrite existsb_elem. by setoid_rewrite bool_decide_eq_true. Qed.

Lemma existsb_ext_eq {A} (f g : A -> bool) l : (forall x, f x = g x) -> existsb f l = existsb g l.
Proof. intros H. induction l as [|x l IH]; simpl; [done|]. by rewrite H, IH. Qed.

Lemma has_function_answered l id : has_function_output l id = answered l (KFunction, id).
Proof.
  apply existsb_ext_eq. intros [| | | | | |? ?| | |[?|] ? ? ?| | | | | |]; simpl; try done.
  all: apply bool_decide_ext; naive_solver.
Qed.

Lemma has_tool_search_answered l id : has_tool_search_output l id = answered l (KSearch, id).
Proof.
  apply existsb_ext_eq. intros [| | | | | |? ?| | |[?|] ? ? ?| | | | | |]; simpl; try done.
  all: apply bool_decide_ext; naive_solver.
Qed.

Lemma has_custom_answered l id : has_custom_output l id = answered l (KCustom, id).
Proof.
  apply existsb_ext_eq. intros [| | | | | |? ?| | |[?|] ? ? ?| | | | | |]; simpl; try done.
  all: apply bool_decide_ext; naive_solver.
Qed.

Lemma ids_called (f : ResponseItem -> option str) l id :
  id ∈ (list_to_set (omap f l) : gset str) <-> exists c, c ∈ l /\ f c = Some id.
Proof. by rewrite elem_of_list_to_set, list_elem_of_omap. Qed.

(** The sets of ids the code collects say which calls there are. *)
Lemma retained_orphan debug l item :
  retained debug l item = if orphan l item then (_ ← error_or_panic debug; Some false) else Some true.
Proof.
  unfold retained, orphan, required_key. destruct (required_call_for_output item) as [rc|]; [|done].
  enough (has_match l rc = called l (match rc with Function_ id => (KFunction, id)
            | ToolSearch id => (KSearch, id) | CustomTool id => (KCustom, id) end)) as ->
    by (destruct rc; by destruct (called _ _)).
  apply Bool.eq_iff_eq_true. rewrite called_true. destruct rc as [id|id|id]; unfold has_match.
  - rewrite orb_true_iff, !bool_decide_eq_true. unfold function_call_ids, local_shell_call_ids.
    rewrite !ids_called. split.
    + intros [(c & Hc & E)|(c & Hc & E)]; exists c; split; try done; destruct c; simplify_eq/=; try done.
    + intros (c & Hc & E). destruct c; simplify_eq/=; [|left|]; try (by eexists);
        case_match; simplify_eq/=; right; by eexists.
  - rewrite bool_decide_eq_true. unfold tool_search_call_ids. rewrite ids_called. split.
    + intros (c & Hc & E). exists c. split; [done|]. destruct c; simplify_eq/=; done.
    + intros (c & Hc & E). exists c. split; [done|]. destruct c; simplify_eq/=; case_match; by simplify_eq/=.
  - rewrite bool_decide_eq_true. unfold custom_tool_call_ids. rewrite ids_called. split.
    + intros (c & Hc & E). exists c. split; [done|]. destruct c; simplify_eq/=; done.
    + intros (c & Hc & E). exists c. split; [done|]. destruct c; simplify_eq/=; try case_match; by simplify_eq/=.
Qed.

(** Calls whose missing output the code considers an error. *)
Definition loud_call (l : list ResponseItem) item : bool :=
  match item with
  | CustomToolCall _ _ call_id _ _ _ => negb (answered l (KCustom, call_id))
  | LocalShellCall _ (Some call_id) _ _ => negb (answered l (KFunction, call_id))
  | _ => false
  end.

Lemma missing_output_eq debug l item :
  missing_output debug l item =
  (if loud_call l item then error_or_panic debug else Some tt) ≫= fun _ => Some (head (missing l item)).
Proof.
  unfold missing_output, loud_call, missing.
  destruct item as [| | |? [cid|] ? ?|? ? ? ? cid|? [cid|] ? ? ?| |? ? cid ? ? ?| | | | | | | |];
    simpl; try done; rewrite ?has_function_answered, ?has_tool_search_answered, ?has_custom_answered;
    destruct (answered _ _); simpl; try done; by destruct (error_or_panic debug).
Qed.

Lemma missing_singleton l item : missing l item = match head (missing l item) with Some o => [o] | None => [] end.
Proof. unfold missing. destruct (call_key item) as [key|]; [by destruct (answered l key)|done]. Qed.

Lemma missing_outputs_eq debug l idx rest :
  missing_outputs debug l idx rest =
  if existsb (loud_call l) rest && debug then None else missing_outputs false l idx rest.
Proof.
  revert idx. induction rest as [|item rest IH]; intros idx; simpl; [done|].
  rewrite IH, !missing_output_eq. unfold error_or_panic.
  destruct (loud_call l item), debug, (existsb (loud_call l) rest); simpl; try done.
Qed.

Lemma insert_after {A} (pre post : list A) x y :
  insert_at (length pre + 1) y (pre ++ x :: post) = Some (pre ++ x :: y :: post).
Proof.
  unfold insert_at. rewrite length_app. simpl. destruct (Nat.leb_spec (length pre + 1) (length pre + S (length post)));
    [|lia].
  change (x :: post) with ([x] ++ post). rewrite app_assoc.
  replace (length pre + 1) with (length (pre ++ [x])) by (rewrite length_app; simpl; lia).
  rewrite take_app_length, drop_app_length, <- app_assoc. done.
Qed.

(** Inserting from the last to the first keeps the indices valid. *)
Lemma insert_missing l pre rest :
  exists ms, missing_outputs false l (length pre) rest = Some ms /\
    fold_left (fun acc '(idx, o) => acc ← acc; insert_at (idx + 1) o acc) (rev ms) (Some (pre ++ rest))
    = Some (pre ++ flat_map (fun item => item :: missing l item) rest).
Proof.
  revert pre. induction rest as [|item rest IH]; intros pre; [by exists []|].
  destruct (IH (pre ++ [item])) as (ms & Hms & Hfold). rewrite length_app, Nat.add_1_r in Hms.
  rewrite <- !app_assoc in Hfold. cbn [app] in Hfold.
  cbn [missing_outputs flat_map]. rewrite missing_output_eq. unfold error_or_panic.
  pose proof (missing_singleton l item) as Hone. destruct (head (missing l item)) as [o|]; rewrite Hone.
  - exists ((length pre, o) :: ms). split; [destruct (loud_call l item); cbn; by rewrite Hms|].
    cbn [rev]. rewrite fold_left_app, Hfold. cbn. by rewrite insert_after.
  - exists ms. split; [destruct (loud_call l item); cbn; by rewrite Hms|]. exact Hfold.
Qed.

Lemma ensure_eq debug l :
  ensure_call_outputs_present debug l =
  if existsb (loud_call l) l && debug then None
  else Some (flat_map (fun item => item :: missing l item) l).
Proof.
  unfold ensure_call_outputs_present. rewrite missing_outputs_eq.
  destruct (existsb (loud_call l) l && debug); [done|].
  destruct (insert_missing l [] l) as (ms & Hms & Hf). simpl in Hms, Hf. by rewrite Hms.
Qed.

Lemma retain_eq debug l rest :
  retain (retained debug l) rest =
  if existsb (orphan l) rest && debug then None
  else Some (List.filter (fun item => negb (orphan l item)) rest).
Proof.
  induction rest as [|item rest IH]; simpl; [done|]. rewrite retained_orphan, IH. unfold error_or_panic.
  by destruct (orphan l item), debug, (existsb (orphan l) rest).
Qed.

(** *** Keys of synthetic outputs *)

Lemma synthetic_keys key :
  call_key (synthetic key) = None /\ answer_key (synthetic key) = Some key /\
  required_key (synthetic key) = Some key.
Proof. by destruct key as [[] id]. Qed.

Lemma missing_in l item o :
  o ∈ missing l item <-> exists key, call_key item = Some key /\ answered l key = false /\ o = synthetic key.
Proof.
  unfold missing. destruct (call_key item) as [key|]; [destruct (answered l key) eqn:E|].
  - split; [by intros ?%elem_of_nil|]. intros (key' & ? & ? & _). simplify_eq. congruence.
  - rewrite list_elem_of_singleton. split; [intros ->; by exists key|]. intros (key' & ? & ? & ->). by simplify_eq.
  - split; [by intros ?%elem_of_nil|]. by intros (key' & ? & _).
Qed.

Lemma required_answer item key : required_key item = Some key -> answer_key item = Some key.
Proof.
  unfold required_key. destruct item as [| | | | | | | | |[id|] ? ? ?| | | | | |]; simpl; try done.
  all: by case_bool_decide.
Qed.

Lemma answer_required item key :
  answer_key item = Some key -> required_key item = Some key \/ required_key item = None.
Proof.
  unfold required_key. destruct item as [| | | | | | | | |[id|] ? ? ?| | | | | |]; simpl; try done; try (by left).
  case_bool_decide; [by right|by left].
Qed.

Lemma call_not_output item key : call_key item = Some key -> answer_key item = None /\ required_key item = None.
Proof. by destruct item. Qed.

Lemma call_not_orphan l item key : call_key item = Some key -> orphan l item = false.
Proof. intros H. unfold orphan. by destruct (call_not_output item key H) as [_ ->]. Qed.

Lemma missing_not_orphan l item o : item ∈ l -> o ∈ missing l item -> orphan l o = false.
Proof.
  intros Hin (key & Hk & _ & ->)%missing_in. unfold orphan.
  destruct (synthetic_keys key) as (_ & _ & ->). apply negb_false_iff, called_true. eauto.
Qed.

Lemma called_ensured l key :
  called (flat_map (fun item => item :: missing l item) l) key = called l key.
Proof.
  apply Bool.eq_iff_eq_true. rewrite !called_true. split.
  - intros (c & Hc & Hk). rewrite list_elem_of_In in Hc. apply in_flat_map in Hc as (item & Hin & Hc).
    rewrite <- !list_elem_of_In in *. apply elem_of_cons in Hc as [->|Hc]; [by eauto|].
    apply missing_in in Hc as (key' & _ & _ & ->). by destruct (synthetic_keys key') as (? & _); congruence.
  - intros (c & Hc & Hk). exists c. split; [|done]. rewrite list_elem_of_In. apply in_flat_map.
    exists c. rewrite <- !list_elem_of_In. split; [done|by left].
Qed.

Lemma orphan_ensured l item : orphan (flat_map (fun item => item :: missing l item) l) item = orphan l item.
Proof. unfold orphan. destruct (required_key item); [by rewrite called_ensured|done]. Qed.

Lemma filter_missing l item :
  item ∈ l -> List.filter (fun item => negb (orphan l item)) (missing l item) = missing l item.
Proof.
  intros Hin. assert (forall o, o ∈ missing l item -> orphan l o = false) as H by (by intros; eapply missing_not_orphan).
  induction (missing l item) as [|o os IH]; [done|]. simpl. rewrite H by (by left). simpl. f_equal.
  apply IH. intros o' Ho'. apply H. by right.
Qed.

Lemma orphan_missing_nil l item : orphan l item = true -> missing l item = [].
Proof.
  unfold missing. destruct (call_key item) as [key|] eqn:E; [|done]. intros H.
  by rewrite (call_not_orphan l item key E) in H.
Qed.

Lemma filter_ensured_sub l rest :
  (forall item, item ∈ rest -> item ∈ l) ->
  List.filter (fun item => negb (orphan l item)) (flat_map (fun item => item :: missing l item) rest)
  = flat_map (fun item => if orphan l item then [] else item :: missing l item) rest.
Proof.
  intros Hsub.
  induction rest as [|item rest IH]; [done|]. cbn [flat_map].
  rewrite List.filter_app, IH by (intros; apply Hsub; by right). cbn [List.filter].
  rewrite filter_missing by (apply Hsub; by left).
  destruct (orphan l item) eqn:E; cbn [negb]; [by rewrite orphan_missing_nil|done].
Qed.

Lemma filter_ensured l :
  List.filter (fun item => negb (orphan l item)) (flat_map (fun item => item :: missing l item) l)
  = paired_history l.
Proof. by apply filter_ensured_sub. Qed.

Lemma existsb_orphan_ensured l :
  existsb (orphan l) (flat_map (fun item => item :: missing l item) l) = existsb (orphan l) l.
Proof.
  apply Bool.eq_iff_eq_true. rewrite !existsb_elem. split.
  - intros (o & Ho & Hor). rewrite list_elem_of_In in Ho. apply in_flat_map in Ho as (item & Hin & Ho).
    rewrite <- !list_elem_of_In in *. apply elem_of_cons in Ho as [->|Ho]; [by eauto|].
    by rewrite (missing_not_orphan l item o Hin Ho) in Hor.
  - intros (o & Ho & Hor). exists o. split; [|done]. rewrite list_elem_of_In. apply in_flat_map.
    exists o. rewrite <- !list_elem_of_In. split; [done|by left].
Qed.

(** The code computes the one-pass description; a debug build panics when something was wrong that the
    code considers an error. *)
Lemma normalize_history_eq debug mods l :
  normalize_history debug mods l =
  if (existsb (loud_call l) l || existsb (orphan l) l) && debug then None else Some (normalized mods l).
Proof.
  unfold normalize_history. rewrite ensure_eq.
  destruct (existsb (loud_call l) l && debug) eqn:El.
  { apply andb_true_iff in El as [-> ->]. done. }
  replace ((existsb (loud_call l) l || existsb (orphan l) l) && debug) with (existsb (orphan l) l && debug)
    by (destruct (existsb (loud_call l) l), debug; simpl in *; by rewrite ?andb_false_r).
  cbn [mbind option_bind]. unfold remove_orphan_outputs. rewrite retain_eq.
  rewrite (existsb_ext_eq (orphan _) (orphan l)) by (intros; apply orphan_ensured).
  rewrite existsb_orphan_ensured. destruct (existsb (orphan l) l && debug); [done|]. cbn.
  rewrite (List.filter_ext _ (fun item => negb (orphan l item))) by (intros; by rewrite orphan_ensured).
  rewrite filter_ensured. unfold normalized, replace_remote_images_with_error, strip_images_when_unsupported, clean.
  case_bool_decide; by rewrite ?map_map.
Qed.

(** ** The normalised history *)

Lemma paired_history_in l o :
  o ∈ paired_history l <-> exists item, item ∈ l /\ orphan l item = false /\ (o = item \/ o ∈ missing l item).
Proof.
  unfold paired_history. rewrite list_elem_of_In, in_flat_map. setoid_rewrite <- list_elem_of_In. split.
  - intros (item & Hin & Ho). exists item. destruct (orphan l item); [by apply elem_of_nil in Ho|].
    apply elem_of_cons in Ho. done.
  - intros (item & Hin & Hor & Ho). exists item. rewrite Hor. split; [done|]. by apply elem_of_cons.
Qed.

Lemma paired_calls_answered l : calls_answered (paired_history l).
Proof.
  intros item key (it & Hin & Hor & Hit)%paired_history_in Hk.
  destruct Hit as [->|(key' & _ & _ & ->)%missing_in].
  2: { by destruct (synthetic_keys key') as (? & _); congruence. }
  destruct (answered l key) eqn:E.
  - apply answered_true in E as (o & Ho & Ha). exists o. split; [|done].
    apply paired_history_in. exists o. repeat split; [done| |by left].
    unfold orphan. destruct (answer_required o key Ha) as [->| ->]; [|done].
    apply negb_false_iff, called_true. eauto.
  - exists (synthetic key). split; [|apply synthetic_keys]. apply paired_history_in.
    exists it. repeat split; [done..|]. right. apply missing_in. eauto.
Qed.

Lemma paired_outputs_called l : outputs_called (paired_history l).
Proof.
  intros o key (it & Hin & Hor & Hit)%paired_history_in Hk.
  assert (exists c, c ∈ l /\ call_key c = Some key) as (c & Hc & Hck).
  { destruct Hit as [->|(key' & Hcall & _ & ->)%missing_in].
    - unfold orphan in Hor. rewrite Hk in Hor. by apply negb_false_iff, called_true in Hor.
    - destruct (synthetic_keys key') as (_ & _ & E). rewrite E in Hk. simplify_eq. eauto. }
  exists c. split; [|done]. apply paired_history_in. exists c.
  repeat split; [done|by eapply call_not_orphan|by left].
Qed.

(** A history that is paired stays as it is. *)
Lemma paired_history_id l : calls_answered l -> outputs_called l -> paired_history l = l.
Proof.
  intros Hca Hoc. unfold paired_history.
  assert (forall rest, (forall item, item ∈ rest -> item ∈ l) ->
    flat_map (fun item => if orphan l item then [] else item :: missing l item) rest = rest) as H;
    [|by apply H].
  induction rest as [|item rest IH]; intros Hsub; [done|]. cbn [flat_map].
  rewrite IH by (intros; apply Hsub; by right). assert (item ∈ l) as Hin by (apply Hsub; by left).
  assert (orphan l item = false) as ->.
  { unfold orphan. destruct (required_key item) as [key|] eqn:E; [|done].
    apply negb_false_iff, called_true. by eapply Hoc. }
  assert (missing l item = []) as ->; [|done].
  unfold missing. destruct (call_key item) as [key|] eqn:E; [|done].
  rewrite (proj2 (answered_true l key)); [done|]. by eapply Hca.
Qed.

Lemma clean_keys mods item :
  call_key (clean mods item) = call_key item /\ answer_key (clean mods item) = answer_key item /\
  required_key (clean mods item) = required_key item.
Proof. unfold clean. case_bool_decide; destruct item; done. Qed.

Lemma map_paired (f : ResponseItem -> ResponseItem) l :
  (forall item, call_key (f item) = call_key item /\ answer_key (f item) = answer_key item /\
     required_key (f item) = required_key item) ->
  calls_answered l -> outputs_called l -> calls_answered (map f l) /\ outputs_called (map f l).
Proof.
  intros Hf Hca Hoc. split.
  - intros item key (x & -> & Hx)%list_elem_of_fmap Hk. destruct (Hf x) as (Hc & _). rewrite Hc in Hk.
    destruct (Hca x key Hx Hk) as (o & Ho & Hok). exists (f o). destruct (Hf o) as (_ & Ha & _).
    split; [by apply list_elem_of_fmap_2|congruence].
  - intros item key (x & -> & Hx)%list_elem_of_fmap Hk. destruct (Hf x) as (_ & _ & Hr). rewrite Hr in Hk.
    destruct (Hoc x key Hx Hk) as (c & Hc & Hck). exists (f c). destruct (Hf c) as (Ha & _ & _).
    split; [by apply list_elem_of_fmap_2|congruence].
Qed.

Lemma normalized_paired mods l : calls_answered (normalized mods l) /\ outputs_called (normalized mods l).
Proof.
  apply map_paired; [apply clean_keys|apply paired_calls_answered|apply paired_outputs_called].
Qed.

Lemma map_idemp {A} (f : A -> A) l : (forall x, f (f x) = f x) -> map f (map f l) = map f l.
Proof. intros H. rewrite map_map. by apply map_ext. Qed.

Lemma clean_idemp mods item : clean mods (clean mods item) = clean mods item.
Proof.
  unfold clean. case_bool_decide; destruct item as [| | | | | |? [[t|l] s]| |? ? [[t|l] s]| | | | | | |];
    try done; unfold remote_item, stripped_item, on_content_items; cbn [body success]; f_equal; try done.
  all: try (match goal with |- Payload _ _ = _ => do 2 f_equal end).
  all: rewrite ?map_map; apply map_ext; intros [|url d|]; simpl; try done.
  all: destruct (is_remote_image_url url) eqn:E; simpl; try done; by rewrite E.
Qed.

Lemma normalized_idemp mods l : normalized mods (normalized mods l) = normalized mods l.
Proof.
  destruct (normalized_paired mods l) as [Hca Hoc]. unfold normalized at 1.
  rewrite paired_history_id by done. unfold normalized. by apply map_idemp, clean_idemp.
Qed.

(** The URLs of the images that an item shows, and the image that it generated. *)
Definition image_urls (item : ResponseItem) : list str :=
  match item with
  | Message _ _ content _ => omap (fun c => match c with InputImage url _ => Some url | _ => None end) content
  | FunctionCallOutput _ output | CustomToolCallOutput _ _ output =>
      match body output with
      | ContentItems l => omap (fun c => match c with OutInputImage url _ => Some url | _ => None end) l
      | BodyText _ => []
      end
  | _ => []
  end.
Definition generated_image (item : ResponseItem) : str :=
  match item with ImageGenerationCall _ _ _ result => result | _ => [] end.

(** A URL with a scheme of the web, in letters of either case. *)
Definition remote_url (url : str) : Prop :=
  exists scheme rest, url = scheme ++ COLON :: rest /\ to_ascii_lowercase scheme ∈ [lit "http"; lit "https"].

Lemma remote_url_spec url : is_remote_image_url url = true <-> remote_url url.
Proof.
  unfold is_remote_image_url, eq_ignore_ascii_case. split.
  - destruct (split_once COLON url) as [[scheme rest]|] eqn:E; [|done]. apply split_once_eq in E as ->.
    intros [H|H]%orb_true_iff; apply bool_decide_eq_true in H; exists scheme, rest; (split; [done|]); rewrite H; set_solver.
  - intros (scheme & rest & -> & Hs). assert (Hno : COLON ∉ scheme).
    { intros Hin. apply (list_elem_of_fmap_2 to_ascii_lower_char) in Hin.
      change (COLON ∈ to_ascii_lowercase scheme) in Hin. revert Hin. rewrite !elem_of_cons in Hs.
      destruct Hs as [-> |[-> |[]%elem_of_nil]]; apply (bool_decide_unpack _); by vm_compute. }
    rewrite split_once_free by done. rewrite !elem_of_cons in Hs. apply orb_true_iff.
    destruct Hs as [Hs|[Hs|[]%elem_of_nil]]; [left|right]; by apply bool_decide_eq_true.
Qed.

Lemma omap_map_none {A B C} (f : B -> option C) (g : A -> B) l : (forall x, f (g x) = None) -> omap f (map g l) = [].
Proof. intros H. induction l as [|x l IH]; [done|]. cbn. by rewrite H. Qed.

Lemma clean_remote mods item url : url ∈ image_urls (clean mods item) -> ~ remote_url url.
Proof.
  rewrite <- remote_url_spec. unfold clean. destruct (if bool_decide _ then item else stripped_item item)
    as [| | | | | |? [[t|l] s]| |? ? [[t|l] s]| | | | | | |]; try (by intros ?%elem_of_nil); simpl.
  all: intros (c & (c0 & -> & _)%list_elem_of_fmap & Hc)%list_elem_of_omap; destruct c0 as [|u d|]; simpl in Hc; try done.
  all: destruct (is_remote_image_url u) eqn:E; simplify_eq; congruence.
Qed.

Lemma clean_unsupported mods item :
  ImageModality ∉ mods -> image_urls (clean mods item) = [] /\ generated_image (clean mods item) = [].
Proof.
  intros H. unfold clean. rewrite bool_decide_eq_false_2 by done. split; [|by destruct item].
  destruct item as [| | | | | |? [[t|l] s]| |? ? [[t|l] s]| | | | | | |]; try done; simpl.
  all: rewrite map_map; by apply omap_map_none; intros [|url d|].
Qed.

(** An item that shows no image stays as it is. *)
Lemma clean_plain mods item : image_urls item = [] -> generated_image item = [] -> clean mods item = item.
Proof.
  intros Hu Hg. assert (Hcontent : forall l, omap (fun c => match c with InputImage url _ => Some url | _ => None end) l = [] ->
    map stripped_content l = l /\ map remote_content l = l).
  { induction l as [|[|u d|] l IH]; cbn; intros E; try done; by destruct (IH E) as [-> ->]. }
  assert (Hout : forall l, omap (fun c => match c with OutInputImage url _ => Some url | _ => None end) l = [] ->
    map stripped_output l = l /\ map remote_output l = l).
  { induction l as [|[|u d|] l IH]; cbn; intros E; try done; by destruct (IH E) as [-> ->]. }
  unfold clean. destruct item as [| | | | | |? [[t|l] s]| |? ? [[t|l] s]| | | | | | |]; try (by case_bool_decide);
    simpl in Hu; try (destruct (Hcontent _ Hu) as [Hs Hr]); try (destruct (Hout _ Hu) as [Hs Hr]).
  all: case_bool_decide; unfold remote_item, stripped_item, on_content_items; cbn [body success]; simpl in Hg; rewrite ?Hs, ?Hr; congruence.
Qed.

(** What a prompt takes over as it is: all but outputs that need a call and images. *)
Definition kept_item (item : ResponseItem) : bool :=
  match required_key item with None => bool_decide (image_urls item = [] /\ generated_image item = []) | Some _ => false end.

Lemma normalized_keeps mods l : List.filter kept_item l `sublist_of` normalized mods l.
Proof.
  unfold normalized, paired_history.
  assert (forall rest, List.filter kept_item rest `sublist_of`
    map (clean mods) (flat_map (fun item => if orphan l item then [] else item :: missing l item) rest)) as H; [|apply H].
  induction rest as [|item rest IH]; [done|]. cbn [List.filter flat_map]. rewrite map_app.
  destruct (kept_item item) eqn:E; [|by apply sublist_inserts_l].
  unfold kept_item in E. unfold orphan at 1. destruct (required_key item); [done|]. apply bool_decide_eq_true in E as [Hu Hg].
  cbn [map app]. rewrite clean_plain by done. apply sublist_skip. by apply sublist_inserts_l.
Qed.

(** C35: in a release build, preparing a history for a prompt always succeeds and yields a history in which
    every call has an output and every output that needs a call has it, no image has a URL with the scheme http or
    https in letters of either case, and, when the model does not take images, no image is left at all, neither in
    messages and outputs nor as the result of an image generation.  All items but images and outputs that need a call
    are still there, in their order, and preparing the history again changes nothing. *)
Theorem prompt_history_wellformed {TI TC} (self : ContextManager TI TC) mods :
  exists l, for_prompt false self mods = Some l /\ calls_answered l /\ outputs_called l /\
    (forall item url, item ∈ l -> url ∈ image_urls item -> ~ remote_url url) /\
    (ImageModality ∉ mods -> forall item, item ∈ l -> image_urls item = [] /\ generated_image item = []) /\
    List.filter kept_item (items self) `sublist_of` l /\
    normalize_history false mods l = Some l.
Proof.
  exists (normalized mods (items self)). unfold for_prompt. rewrite !normalize_history_eq, !andb_false_r.
  destruct (normalized_paired mods (items self)) as [Hca Hoc].
  split; [done|]. split; [done|]. split; [done|]. split; [|split; [|split]].
  - intros item url (x & -> & _)%list_elem_of_fmap. apply clean_remote.
  - intros Hm item (x & -> & _)%list_elem_of_fmap. by apply clean_unsupported.
  - apply normalized_keeps.
  - by rewrite normalized_idemp.
Qed.

(** Normalisation only adds and drops outputs: the result is the history with each orphan output
    dropped, each missing output inserted right after its call, and the images replaced; everything
    else stays in its place.  A build with debug assertions gives the same, except that it panics exactly
    when an output is an orphan or the output of a custom tool call or a shell call is missing. *)
Theorem normalize_history_minimal debug mods l :
  normalize_history debug mods l =
  if debug && (existsb (loud_call l) l || existsb (orphan l) l) then None
  else Some (map (clean mods)
               (flat_map (fun item => if orphan l item then [] else item :: missing l item) l)).
Proof. rewrite normalize_history_eq, andb_comm. done. Qed.

(** ** Dropping the oldest item *)

(** No two calls and no two outputs share a key. *)
Definition unique_keys (l : list ResponseItem) : Prop :=
  NoDup (omap call_key l) /\ NoDup (omap answer_key l).

Lemma remove_first_split {A} (f : A -> bool) l :
  (remove_first_matching f l = l /\ forall x, x ∈ l -> f x = false) \/
  exists l1 x l2, l = l1 ++ x :: l2 /\ f x = true /\ remove_first_matching f l = l1 ++ l2.
Proof.
  induction l as [|y l IH]; [left; split; [done|]; by intros x ?%elem_of_nil|]. simpl.
  destruct (f y) eqn:E; [right; by exists [], y, l|].
  destruct IH as [[-> H]|(l1 & x & l2 & -> & Hx & ->)]; [left|right].
  - split; [done|]. intros x [->|?]%elem_of_cons; [done|auto].
  - by exists (y :: l1), x, l2.
Qed.

(** [b] is [a] without one item that satisfies [P], or [a] itself if no item does. *)
Definition without_one (P : ResponseItem -> Prop) (a b : list ResponseItem) : Prop :=
  (b = a /\ forall x, x ∈ a -> ~ P x) \/ exists l1 x l2, a = l1 ++ x :: l2 /\ P x /\ b = l1 ++ l2.

Lemma remove_first_without (f : ResponseItem -> bool) (P : ResponseItem -> Prop) l :
  (forall x, f x = true <-> P x) -> without_one P l (remove_first_matching f l).
Proof.
  intros H. destruct (remove_first_split f l) as [[-> Hno]|(l1 & x & l2 & -> & Hx & ->)]; [left|right].
  - split; [done|]. intros x Hin Hp. apply H in Hp. rewrite Hno in Hp; done.
  - exists l1, x, l2. by rewrite <- H.
Qed.

Lemma remove_corresponding_call rest x key :
  call_key x = Some key ->
  without_one (fun o => answer_key o = Some key) rest (remove_corresponding_for rest x).
Proof.
  destruct x as [| | |? [id|] ? ?|? ? ? ? id|? [id|] ? ? ?| |? ? id ? ? ?| | | | | | | |];
    intros ?; simplify_eq/=; apply remove_first_without; intros o.
  all: destruct o as [| | | | | |? ?| |? ? ?|[?|] ? ? ?| | | | | |]; simpl; rewrite ?bool_decide_eq_true.
  all: split; intros; by simplify_eq.
Qed.

Lemma remove_corresponding_answer rest x key :
  answer_key x = Some key ->
  without_one (fun c => call_key c = Some key) rest (remove_corresponding_for rest x).
Proof.
  assert (forall id c, is_function_call id c = true -> call_key c = Some (KFunction, id)) as Hf.
  { intros id c. destruct c; simpl; try done. rewrite bool_decide_eq_true. naive_solver. }
  assert (forall id c, is_local_shell_call id c = true -> call_key c = Some (KFunction, id)) as Hl.
  { intros id c. destruct c as [| | |? [?|] ? ?| | | | | | | | | | | |]; simpl; try done.
    rewrite bool_decide_eq_true. naive_solver. }
  destruct x as [| | | | | |id ?| |id ? ?|[id|] ? ? ?| | | | | |]; intros ?; simplify_eq/=.
  - destruct (existsb (is_function_call id) rest) eqn:E.
    + destruct (remove_first_split (is_function_call id) rest) as [[_ Hno]|(l1 & x & l2 & -> & Hx & ->)].
      * apply existsb_elem in E as (x & Hx & Hfx). by rewrite Hno in Hfx.
      * right. exists l1, x, l2. auto.
    + destruct (remove_first_split (is_local_shell_call id) rest) as [[-> Hno]|(l1 & x & l2 & -> & Hx & ->)].
      * left. split; [done|]. intros x Hx Hk. specialize (Hno x Hx).
        destruct x as [| | |? [?|] ? ?| |? [?|] ? ? ?| | | | | | | | | |]; simplify_eq/=.
        -- by rewrite bool_decide_eq_true_2 in Hno.
        -- apply not_true_iff_false in E. apply E, existsb_elem. eexists. split; [exact Hx|].
           simpl. by rewrite bool_decide_eq_true_2.
      * right. exists l1, x, l2. auto.
  - apply remove_first_without. intros o. destruct o as [| | |? [?|] ? ?| |? [?|] ? ? ?| | | | | | | | | |];
      simpl; rewrite ?bool_decide_eq_true; split; intros; by simplify_eq.
  - apply remove_first_without. intros o. destruct o as [| | |? [?|] ? ?| |? [?|] ? ? ?| | | | | | | | | |];
      simpl; rewrite ?bool_decide_eq_true; split; intros; by simplify_eq.
Qed.

Lemma remove_corresponding_other rest x :
  call_key x = None -> answer_key x = None -> remove_corresponding_for rest x = rest.
Proof.
  by destruct x as [| | |? [?|] ? ?| |? [?|] ? ? ?| | | |[?|] ? ? ?| | | | | |].
Qed.

Lemma omap_without {A} (f : ResponseItem -> option A) l1 x l2 :
  NoDup (omap f (l1 ++ x :: l2)) ->
  NoDup (omap f (l1 ++ l2)) /\ forall k, f x = Some k -> forall y, y ∈ l1 ++ l2 -> f y <> Some k.
Proof.
  rewrite !omap_app. simpl. destruct (f x) as [k|] eqn:E.
  - rewrite <- Permutation_middle, NoDup_cons. intros [Hk Hnd]. split; [done|].
    intros k' [= <-] y Hy Hfy. apply Hk. rewrite <- omap_app. apply list_elem_of_omap. eauto.
  - done.
Qed.

Lemma without_one_unique P a b : without_one P a b -> unique_keys a -> unique_keys b.
Proof.
  intros [[-> _]|(l1 & x & l2 & -> & _ & ->)] [Hc Ha]; [done|].
  split; [by apply (omap_without call_key l1 x l2)|by apply (omap_without answer_key l1 x l2)].
Qed.

Lemma without_one_in P a b y : without_one P a b -> y ∈ a -> ~ P y -> y ∈ b.
Proof.
  intros [[-> _]|(l1 & x & l2 & -> & Hx & ->)] Hy Hp; [done|].
  apply elem_of_app in Hy as [Hy|[->|Hy]%elem_of_cons]; [..|done|]; apply elem_of_app; auto.
Qed.

Lemma without_one_sub P a b y : without_one P a b -> y ∈ b -> y ∈ a.
Proof. intros [[-> _]|(l1 & x & l2 & -> & Hx & ->)]; [done|]. set_solver. Qed.

(** After the removal nothing with the key is left, if keys are unique. *)
Lemma without_one_key (f : ResponseItem -> option (call_kind * str)) key a b y :
  without_one (fun x => f x = Some key) a b -> NoDup (omap f a) -> y ∈ b -> f y <> Some key.
Proof.
  intros [[-> H]|(l1 & x & l2 & -> & Hx & ->)] Hnd Hy; [by apply H|].
  by eapply (proj2 (omap_without f l1 x l2 Hnd)).
Qed.

Section drop_first.
Context (x : ResponseItem) (rest : list ResponseItem).
Context (Hca : calls_answered (x :: rest)) (Hoc : outputs_called (x :: rest)) (Hu : unique_keys (x :: rest)).

Lemma rest_unique : unique_keys rest.
Proof.
  destruct Hu as [Hc Ha]. cbn in Hc, Ha. split.
  - revert Hc. destruct (call_key x); [by intros [_ ?]%NoDup_cons|done].
  - revert Ha. destruct (answer_key x); [by intros [_ ?]%NoDup_cons|done].
Qed.

Lemma rest_calls key y : call_key x = Some key -> y ∈ rest -> call_key y <> Some key.
Proof.
  intros Hk Hy Hyk. destruct Hu as [Hc _]. cbn in Hc. rewrite Hk in Hc.
  apply NoDup_cons in Hc as [Hn _]. apply Hn, list_elem_of_omap. eauto.
Qed.

Lemma rest_answers key y : answer_key x = Some key -> y ∈ rest -> answer_key y <> Some key.
Proof.
  intros Hk Hy Hyk. destruct Hu as [_ Ha]. cbn in Ha. rewrite Hk in Ha.
  apply NoDup_cons in Ha as [Hn _]. apply Hn, list_elem_of_omap. eauto.
Qed.

Lemma answer_not_call y key : answer_key y = Some key -> call_key y = None.
Proof. by destruct y as [| | | | | |? ?| |? ? ?|[?|] ? ? ?| | | | | |]. Qed.

Lemma drop_call key l :
  call_key x = Some key -> without_one (fun o => answer_key o = Some key) rest l ->
  calls_answered l /\ outputs_called l.
Proof.
  intros Hk Hw. destruct (call_not_output x key Hk) as [Hxa _]. split.
  - intros c k Hc Hck. pose proof (without_one_sub _ _ _ _ Hw Hc) as Hcr.
    destruct (Hca c k ltac:(by right) Hck) as (o & Ho & Hok).
    apply elem_of_cons in Ho as [->|Ho]; [congruence|]. exists o. split; [|done].
    apply (without_one_in _ _ _ _ Hw Ho). intros E. apply (rest_calls key c Hk Hcr). congruence.
  - intros o k Ho Hor. pose proof (without_one_sub _ _ _ _ Hw Ho) as Hr.
    destruct (Hoc o k ltac:(by right) Hor) as (c & Hc & Hck). apply required_answer in Hor.
    pose proof (without_one_key answer_key key _ _ _ Hw (proj2 rest_unique) Ho) as Hne.
    apply elem_of_cons in Hc as [->|Hc]; [congruence|]. exists c. split; [|done].
    apply (without_one_in _ _ _ _ Hw Hc). intros E. by rewrite (answer_not_call c key E) in Hck.
Qed.

Lemma drop_answer key l :
  answer_key x = Some key -> without_one (fun c => call_key c = Some key) rest l ->
  calls_answered l /\ outputs_called l.
Proof.
  intros Hk Hw. pose proof (answer_not_call x key Hk) as Hxc. split.
  - intros c k Hc Hck. pose proof (without_one_sub _ _ _ _ Hw Hc) as Hcr.
    pose proof (without_one_key call_key key _ _ _ Hw (proj1 rest_unique) Hc) as Hne.
    destruct (Hca c k ltac:(by right) Hck) as (o & Ho & Hok).
    apply elem_of_cons in Ho as [->|Ho]; [congruence|]. exists o. split; [|done].
    apply (without_one_in _ _ _ _ Hw Ho). intros E. by rewrite (answer_not_call o k Hok) in E.
  - intros o k Ho Hor. pose proof (without_one_sub _ _ _ _ Hw Ho) as Hr.
    destruct (Hoc o k ltac:(by right) Hor) as (c & Hc & Hck). apply required_answer in Hor.
    apply elem_of_cons in Hc as [->|Hc]; [congruence|]. exists c. split; [|done].
    apply (without_one_in _ _ _ _ Hw Hc). intros E. apply (rest_answers key o Hk Hr). congruence.
Qed.

Lemma drop_other :
  call_key x = None -> answer_key x = None -> calls_answered rest /\ outputs_called rest.
Proof.
  intros Hxc Hxa. split.
  - intros c k Hc Hck. destruct (Hca c k ltac:(by right) Hck) as (o & Ho & Hok).
    apply elem_of_cons in Ho as [->|Ho]; [congruence|eauto].
  - intros o k Ho Hor. destruct (Hoc o k ltac:(by right) Hor) as (c & Hc & Hck).
    apply elem_of_cons in Hc as [->|Hc]; [congruence|eauto].
Qed.

(** What goes with the dropped item: at most its counterpart. *)
Definition counterpart (y : ResponseItem) : Prop :=
  exists key, call_key x = Some key /\ answer_key y = Some key \/
              answer_key x = Some key /\ call_key y = Some key.

Lemma remove_corresponding_counterpart :
  without_one counterpart rest (remove_corresponding_for rest x).
Proof.
  assert (forall P Q a b, without_one P a b -> (forall y, P y <-> Q y) -> without_one Q a b) as Himpl.
  { intros P Q a b [[-> H]|(l1 & y & l2 & -> & Hy & ->)] HPQ; [left|right].
    - split; [done|]. intros y Hy. rewrite <- HPQ. auto.
    - exists l1, y, l2. by rewrite <- HPQ. }
  destruct (call_key x) as [key|] eqn:Ec; [|destruct (answer_key x) as [key|] eqn:Ea].
  - eapply Himpl; [by apply remove_corresponding_call|]. intros y. unfold counterpart. rewrite Ec.
    destruct (call_not_output x key Ec) as [-> _]. naive_solver.
  - eapply Himpl; [by apply remove_corresponding_answer|]. intros y. unfold counterpart. rewrite Ec, Ea.
    naive_solver.
  - rewrite remove_corresponding_other by done. left. split; [done|]. intros y _ (key & [[? _]|[? _]]); congruence.
Qed.

Lemma remove_corresponding_pairs :
  let l := remove_corresponding_for rest x in calls_answered l /\ outputs_called l /\ unique_keys l.
Proof.
  cbv zeta. split; [|split; [|by eapply without_one_unique, rest_unique; apply remove_corresponding_counterpart]].
  all: destruct (call_key x) as [key|] eqn:Ec; [|destruct (answer_key x) as [key|] eqn:Ea].
  all: try (eapply drop_call; [exact Ec|by apply remove_corresponding_call]).
  all: try (eapply drop_answer; [exact Ea|by apply remove_corresponding_answer]).
  all: rewrite remove_corresponding_other by done; by apply drop_other.
Qed.
End drop_first.

(** Dropping the oldest item of a history in which calls and outputs are paired, with one call and one
    output per id, leaves such a history; what is dropped with the item is its counterpart and nothing
    else. *)
Theorem remove_first_item_keeps_pairs {TI TC} (self : ContextManager TI TC) x rest :
  items self = x :: rest -> calls_answered (x :: rest) -> outputs_called (x :: rest) ->
  unique_keys (x :: rest) ->
  calls_answered (items (remove_first_item self)) /\ outputs_called (items (remove_first_item self)) /\
  unique_keys (items (remove_first_item self)) /\
  without_one (counterpart x) rest (items (remove_first_item self)).
Proof.
  intros E Hca Hoc Hu. unfold remove_first_item. rewrite E. cbn [items].
  destruct (remove_corresponding_pairs x rest Hca Hoc Hu) as (? & ? & ?).
  repeat split; try done; try apply H1. apply remove_corresponding_counterpart.
Qed.

Lemma remove_first_item_keeps_pairs_witness :
  let call := FunctionCall None (lit "shell") None [] (lit "1") in
  let out := FunctionCallOutput (lit "1") (from_text []) in
  let self := @Manager unit unit [call; out; CompactionTrigger] 0 None None in
  without_one (counterpart call) [out; CompactionTrigger] (items (remove_first_item self)).
Proof.
  intros call out self.
  refine (proj2 (proj2 (proj2 (remove_first_item_keeps_pairs self call [out; CompactionTrigger] eq_refl _ _ _)))).
  - intros item key Hin Hk. exists out. split; [right; left|].
    apply elem_of_cons in Hin as [->|[->|[->|[]%elem_of_nil]%elem_of_cons]%elem_of_cons]; simpl in *; done.
  - intros o key Hin Hk. exists call. split; [left|].
    apply elem_of_cons in Hin as [->|[->|[->|[]%elem_of_nil]%elem_of_cons]%elem_of_cons]; simpl in *; done.
  - split; apply NoDup_singleton.
Defined.

(** An output whose id two calls share: dropping the first call leaves the second unanswered. *)
Lemma shared_id_breaks_pairs :
  let call := FunctionCall None (lit "shell") None [] (lit "1") in
  let l := [call; call; FunctionCallOutput (lit "1") (from_text [])] in
  calls_answered l /\ outputs_called l /\ remove_corresponding_for (tail l) call = [call].
Proof.
  cbv zeta. split; [|split; [|vm_compute; reflexivity]].
  - intros item key Hin Hk. exists (FunctionCallOutput (lit "1") (from_text [])). split; [set_solver by idtac|].
    apply elem_of_cons in Hin as [->|[->|[->|[]%elem_of_nil]%elem_of_cons]%elem_of_cons]; simpl in *; congruence.
  - intros o key Hin Hk. exists (FunctionCall None (lit "shell") None [] (lit "1")). split; [by left|].
    apply elem_of_cons in Hin as [->|[->|[->|[]%elem_of_nil]%elem_of_cons]%elem_of_cons]; simpl in *; done.
Qed.

(** ** Rolling back turns *)

Section rollback.
Context (from_xml_str : str -> option (str * str)) (is_inter_agent_json : str -> bool).
Notation boundary := (is_user_turn_boundary from_xml_str is_inter_agent_json).
Notation positions := (user_message_positions from_xml_str is_inter_agent_json).

(** The number of turns. *)
Definition turns (l : list ResponseItem) : nat := length (List.filter boundary l).

(** A message that only updates the context before a turn. *)
Definition context_update (item : ResponseItem) : bool :=
  match item with
  | Message _ role content _ =>
      (bool_decide (role = lit "developer") && is_contextual_dev_message_content content)
      || (bool_decide (role = lit "user") && is_contextual_user_message_content from_xml_str content)
  | _ => false
  end.

(** A context update that also carries text of the developer. *)
Definition mixed_update (item : ResponseItem) : bool :=
  match item with
  | Message _ role content _ =>
      bool_decide (role = lit "developer") && is_contextual_dev_message_content content
      && has_non_contextual_dev_message_content content
  | _ => false
  end.

Lemma context_update_no_boundary item : context_update item = true -> boundary item = false.
Proof.
  destruct item as [? role content ?| | | | | | | | | | | | | | |]; try done. simpl.
  destruct (decide (role = lit "developer")) as [->|Hd].
  { intros _. rewrite !bool_decide_eq_false_2 by (vm_compute; congruence). done. }
  rewrite (bool_decide_eq_false_2 (role = lit "developer")) by done. simpl.
  destruct (decide (role = lit "user")) as [->|Hu].
  - rewrite (bool_decide_eq_false_2 (lit "user" = lit "assistant")) by (vm_compute; congruence).
    rewrite bool_decide_eq_true_2 by done. simpl. intros ->. done.
  - by rewrite (bool_decide_eq_false_2 (role = lit "user")).
Qed.

Lemma turns_app a b : turns (a ++ b) = turns a + turns b.
Proof. unfold turns. by rewrite List.filter_app, length_app. Qed.

Lemma turns_cons x l : turns (x :: l) = (if boundary x then 1 else 0) + turns l.
Proof. unfold turns. simpl. by destruct (boundary x). Qed.

Lemma turns_updates l : Forall (fun x => context_update x = true) l -> turns l = 0.
Proof.
  induction 1 as [|x l Hx _ IH]; [done|]. by rewrite turns_cons, context_update_no_boundary, IH.
Qed.

Lemma positions_cons x l :
  positions (x :: l) = (if boundary x then [0] else []) ++ map S (positions l).
Proof.
  unfold user_message_positions.
  assert (forall f g : nat -> nat, (forall i, f i = S (g i)) ->
            omap (fun '(idx, item) => if boundary item then Some idx else None) (imap (fun i => pair (f i)) l) =
            map S (omap (fun '(idx, item) => if boundary item then Some idx else None)
                     (imap (fun i => pair (g i)) l))) as H.
  { clear x. induction l as [|y l IH]; intros f g Hfg; [done|].
    rewrite !imap_cons. cbn [omap list_omap].
    specialize (IH (fun i => f (S i)) (fun i => g (S i)) (fun i => Hfg (S i))).
    destruct (boundary y); [cbn [map]; f_equal; [apply Hfg|exact IH]|exact IH]. }
  specialize (H S (fun i => i) (fun i => eq_refl)). rewrite imap_cons. cbn [omap list_omap].
  destruct (boundary x); cbn [app]; [f_equal|]; exact H.
Qed.

(** The [j]th position is that of the boundary with [j] boundaries before it. *)
Lemma positions_lookup l j i :
  positions l !! j = Some i ->
  exists l1 b l2, l = l1 ++ b :: l2 /\ length l1 = i /\ boundary b = true /\ turns l1 = j.
Proof.
  revert j i. induction l as [|x l IH]; intros j i; [done|]. rewrite positions_cons.
  destruct (boundary x) eqn:E; simpl.
  - destruct j as [|j]; simpl.
    + intros [= <-]. by exists [], x, l.
    + rewrite list_lookup_fmap. intros (i' & Hi & ->)%fmap_Some.
      destruct (IH _ _ Hi) as (l1 & b & l2 & -> & <- & Hb & <-).
      exists (x :: l1), b, l2. by rewrite turns_cons, E.
  - rewrite list_lookup_fmap. intros (i' & Hi & ->)%fmap_Some.
    destruct (IH _ _ Hi) as (l1 & b & l2 & -> & <- & Hb & <-).
    exists (x :: l1), b, l2. by rewrite turns_cons, E.
Qed.

Lemma positions_length l : length (positions l) = turns l.
Proof.
  induction l as [|x l IH]; [done|]. rewrite positions_cons, turns_cons, length_app, length_map, IH.
  by destruct (boundary x).
Qed.

Lemma trim_step {TC} first l1 y l2 (reference : option TC) :
  first <= length l1 ->
  trim_pre_turn_context_updates from_xml_str (l1 ++ y :: l2) first (S (length l1)) reference =
  if context_update y
  then trim_pre_turn_context_updates from_xml_str (l1 ++ y :: l2) first (length l1)
         (if mixed_update y then None else reference)
  else Some (reference, S (length l1)).
Proof.
  intros Hle. cbn [trim_pre_turn_context_updates].
  rewrite (proj2 (Nat.ltb_lt first (S (length l1)))) by lia.
  rewrite lookup_app_r, Nat.sub_diag by lia. cbn [lookup list_lookup mbind option_bind].
  destruct y as [? role content ?| | | | | | | | | | | | | | |]; try done. cbn [context_update mixed_update].
  destruct (bool_decide (role = lit "developer") && is_contextual_dev_message_content content); [done|].
  by destruct (bool_decide (role = lit "user") && is_contextual_user_message_content from_xml_str content).
Qed.

(** Trimming walks back over the context updates before the cut, but not past the first turn. *)
Lemma trim_spec {TC} first l1 l2 (reference : option TC) :
  first <= length l1 ->
  exists a ctx, l1 = a ++ ctx /\
    trim_pre_turn_context_updates from_xml_str (l1 ++ l2) first (length l1) reference
      = Some (if existsb mixed_update ctx then None else reference, length a) /\
    Forall (fun x => context_update x = true) ctx /\ first <= length a /\
    (length a = first \/ exists a' y, a = a' ++ [y] /\ context_update y = false).
Proof.
  revert l2 reference. induction l1 as [|y l1 IH] using rev_ind; intros l2 reference Hle.
  { exists [], []. simpl in *. repeat split; [constructor|done|left; lia]. }
  rewrite length_app, Nat.add_1_r in Hle |- *. destruct (decide (first = S (length l1))) as [->|Hne].
  { exists (l1 ++ [y]), []. rewrite length_app, app_nil_r, Nat.add_1_r. cbn [trim_pre_turn_context_updates].
    rewrite Nat.ltb_irrefl. repeat split; [constructor|done|by left]. }
  rewrite <- app_assoc. cbn [app]. rewrite trim_step by lia. destruct (context_update y) eqn:Ey.
  - destruct (IH (y :: l2) (if mixed_update y then None else reference))
      as (a & ctx & -> & -> & Hctx & Hfirst & Hlast); [lia|].
    exists a, (ctx ++ [y]). rewrite <- app_assoc, existsb_app, Forall_snoc. simpl. rewrite orb_false_r.
    repeat split; try done. by destruct (existsb mixed_update ctx), (mixed_update y).
  - exists (l1 ++ [y]), []. rewrite length_app, app_nil_r, Nat.add_1_r.
    repeat split; [constructor|lia|]. right. by exists l1, y.
Qed.

Lemma first_turn_prefix pre b0 post l1 b l2 :
  pre ++ b0 :: post = l1 ++ b :: l2 -> turns pre = 0 -> boundary b = true -> length pre <= length l1.
Proof.
  intros Heq Hpre Hb. destruct (decide (length pre <= length l1)) as [|Hgt]; [done|exfalso].
  apply app_eq_inv in Heq as [(k & -> & Hk)|(k & -> & _)]; [|rewrite length_app in Hgt; lia].
  destruct k as [|c k]; [rewrite app_nil_r in Hgt; lia|]. simpl in Hk. simplify_eq.
  rewrite turns_app, turns_cons, Hb in Hpre. lia.
Qed.

(** Where the cut falls, before trimming. *)
Lemma cut_spec l num first rest :
  positions l = first :: rest -> 0 < num ->
  exists l1 b l2 cut, l = l1 ++ b :: l2 /\ length l1 = cut /\ boundary b = true /\
    turns l1 = turns l - num /\ first <= cut /\
    (if length (positions l) <=? num then Some first else positions l !! (length (positions l) - num)) = Some cut.
Proof.
  intros Hpos Hnum. pose proof (positions_length l) as Hlen.
  assert (positions l !! 0 = Some first) as H0 by (by rewrite Hpos).
  destruct (positions_lookup l 0 first H0) as (pre & b0 & post & Hl & Hpre & Hb0 & Ht0).
  destruct (Nat.leb_spec (length (positions l)) num) as [Hle|Hgt].
  - exists pre, b0, post, first. repeat split; try done. lia.
  - destruct (positions l !! (length (positions l) - num)) as [cut|] eqn:E.
    2: { apply lookup_ge_None in E. lia. }
    destruct (positions_lookup l _ cut E) as (l1 & b & l2 & Hl' & Hc & Hb & Ht).
    exists l1, b, l2, cut. repeat split; try done; [lia|]. rewrite <- Hpre, <- Hc.
    apply (first_turn_prefix pre b0 post l1 b l2); [congruence|done|done].
Qed.
End rollback.

(** Rolling back [num_turns] turns never panics and cuts the history at the start of a turn: what is
    kept is a prefix with that many turns fewer, or none if there are not so many; what is dropped begins
    with the context updates just before the turn, all of them unless they stand before the first turn;
    the items before the first turn stay.  The reference context is cleared exactly when a dropped context
    update also carries text of the developer. *)
Theorem rollback_drops_turns {TI TC} from_xml_str is_inter_agent_json (self : ContextManager TI TC) num_turns :
  0 < num_turns -> 0 < turns from_xml_str is_inter_agent_json (items self) ->
  exists self' ctx b tail,
    drop_last_n_user_turns from_xml_str is_inter_agent_json self num_turns = Some self' /\
    items self = items self' ++ ctx ++ b :: tail /\
    is_user_turn_boundary from_xml_str is_inter_agent_json b = true /\
    turns from_xml_str is_inter_agent_json (items self')
      = turns from_xml_str is_inter_agent_json (items self) - num_turns /\
    Forall (fun x => context_update from_xml_str x = true) ctx /\
    (forall pre b0 post, items self = pre ++ b0 :: post ->
       is_user_turn_boundary from_xml_str is_inter_agent_json b0 = true ->
       turns from_xml_str is_inter_agent_json pre = 0 ->
       length pre <= length (items self') /\
       (items self' = pre \/ exists a y, items self' = a ++ [y] /\ context_update from_xml_str y = false)) /\
    reference_context_item self' = (if existsb mixed_update ctx then None else reference_context_item self) /\
    history_version self' = N.min (history_version self + 1) u64_max /\
    token_info self' = token_info self.
Proof.
  intros Hnum Hturns. unfold drop_last_n_user_turns. rewrite (proj2 (Nat.eqb_neq num_turns 0)) by lia.
  destruct (user_message_positions from_xml_str is_inter_agent_json (items self)) as [|first rest] eqn:Hpos.
  { pose proof (positions_length from_xml_str is_inter_agent_json (items self)) as Hl.
    rewrite Hpos in Hl. simpl in Hl. lia. }
  destruct (cut_spec _ _ (items self) num_turns first rest Hpos Hnum)
    as (l1 & b & l2 & cut & Hl & Hc & Hb & Ht & Hle & Hcut).
  rewrite Hpos in Hcut. rewrite Hcut. cbn [mbind option_bind]. subst cut.
  destruct (trim_spec from_xml_str first l1 (b :: l2) (reference_context_item self) Hle)
    as (a & ctx & -> & Htrim & Hctx & Hfirst & Hlast).
  rewrite Hl, Htrim. cbn [mbind option_bind]. rewrite <- app_assoc.
  rewrite (proj2 (Nat.leb_le _ _)) by (rewrite length_app; lia). rewrite take_app_length.
  eexists _, ctx, b, l2. split; [reflexivity|]. cbn [items replace reference_context_item history_version token_info].
  split; [done|]. split; [done|]. split.
  { rewrite turns_app, (turns_updates _ _ ctx Hctx), Hl in Ht. rewrite <- app_assoc in Ht. lia. }
  split; [done|]. split; [|done]. intros pre b0 post Heq Hb0 Hpre.
  assert (length pre = first) as Hpf.
  { destruct (positions_lookup from_xml_str is_inter_agent_json (items self) 0 first) as
      (pre' & b' & post' & Hl' & <- & Hb' & Hpre'); [by rewrite Hpos|].
    rewrite Hl, <- app_assoc, Heq in Hl'.
    apply Nat.le_antisymm; [eapply (first_turn_prefix _ _ pre b0 post pre' b')|
      eapply (first_turn_prefix _ _ pre' b' post' pre b0)]; eauto. }
  split; [lia|]. destruct Hlast as [Hlen|?]; [left|by right].
  apply (f_equal (take first)) in Heq. rewrite <- Hlen in Heq at 1. rewrite take_app_length in Heq.
  by rewrite <- Hpf, take_app_length in Heq.
Qed.

Lemma rollback_drops_turns_witness :
  let msg role text := Message None (lit role) [InputText (lit text)] None in
  let update := msg "user" "<environment_context>x</environment_context>" in
  let self := @Manager unit unit
    [update; msg "user" "hi"; msg "assistant" "hello"; update; msg "user" "again"; msg "assistant" "yes"]%string
    0 None (Some tt) in
  exists self', drop_last_n_user_turns (fun _ => None) (fun _ => false) self 1 = Some self' /\
    turns (fun _ => None) (fun _ => false) (items self') = 1.
Proof.
  intros msg update self.
  assert (turns (fun _ => None) (fun _ => false) (items self) = 2) as E by (vm_compute; reflexivity).
  destruct (rollback_drops_turns (fun _ => None) (fun _ => false) self 1)
    as (self' & ctx & b & tail & H & _ & _ & Ht & _).
  - lia.
  - rewrite E. lia.
  - exists self'. split; [exact H|]. rewrite Ht, E. reflexivity.
Defined.

End History.
