(* ===== verification/HistoryTokens.v ===== *)
(** * Recording items and estimating their size: core/src/context_manager/history.rs

    The operations of [ContextManager] that add items to a history and bound the tool outputs in it, and
    the estimates of how many tokens a history takes.  An [i64] is kept as [Z] with its saturation.  The
    size of an item's JSON (serde_json) and the dimensions of an image (base64 and image decoding) are
    parameters; the cache of image estimates only remembers them and is not modelled. *)

From S2P Require Import Prelude Text Truncate ResponseItems ContextFragments OutputTruncation History.
From Stdlib Require Import ZifyBool ZifyN ZifyNat.

Module HistoryTokens.
Import Truncate ResponseItems OutputTruncation History.

#[global] Instance ImageDetail_eq_dec : EqDecision ImageDetail.
Proof. solve_decision. Defined.
#[global] Instance OutputContentItem_eq_dec : EqDecision FunctionCallOutputContentItem.
Proof. solve_decision. Defined.
#[global] Instance OutputBody_eq_dec : EqDecision FunctionCallOutputBody.
Proof. solve_decision. Defined.
#[global] Instance OutputPayload_eq_dec : EqDecision FunctionCallOutputPayload.
Proof. solve_decision. Defined.

(** ** Integers of 64 bits *)

Definition i64_min : Z := (-9223372036854775808)%Z.
Definition saturate (z : Z) : Z := Z.max i64_min (Z.min z i64_max).
Definition i64_add (a b : Z) : Z := saturate (a + b).
Definition i64_sub (a b : Z) : Z := saturate (a - b).
Definition i64_mul (a b : Z) : Z := saturate (a * b).
(** [i64::try_from(n).unwrap_or(i64::MAX)]. *)
Definition i64_of (n : N) : Z := Z.min (Z.of_N n) i64_max.
(** [a + b] in a build without overflow checks. *)
Definition wrapping_add (a b : Z) : Z := ((a + b - i64_min) mod (2 ^ 64) + i64_min)%Z.
Definition wrapping_sub (a b : Z) : Z := ((a - b - i64_min) mod (2 ^ 64) + i64_min)%Z.

(** ** Token usage *)

(** [codex-rs/protocol/src/protocol.rs:2034-2049 TokenUsage] *)
Record TokenUsage := Usage {
  input_tokens : Z;
  cached_input_tokens : Z;
  cache_write_input_tokens : Z;
  output_tokens : Z;
  reasoning_output_tokens : Z;
  total_tokens : Z
}.

Definition default_usage : TokenUsage := Usage 0 0 0 0 0 0.

(** [codex-rs/protocol/src/protocol.rs:2051-2058 TokenUsageInfo] *)
Record TokenUsageInfo := UsageInfo {
  total_token_usage : TokenUsage;
  last_token_usage : TokenUsage;
  model_context_window : option Z
}.

(** [codex-rs/protocol/src/protocol.rs:2238-2245 add_assign] *)
Definition add_assign (self other : TokenUsage) : TokenUsage :=
  Usage (wrapping_add (input_tokens self) (input_tokens other))
    (wrapping_add (cached_input_tokens self) (cached_input_tokens other))
    (wrapping_add (cache_write_input_tokens self) (cache_write_input_tokens other))
    (wrapping_add (output_tokens self) (output_tokens other))
    (wrapping_add (reasoning_output_tokens self) (reasoning_output_tokens other))
    (wrapping_add (total_tokens self) (total_tokens other)).

(** [codex-rs/protocol/src/protocol.rs:2087-2090 append_last_usage] *)
Definition append_last_usage (self : TokenUsageInfo) (last : TokenUsage) : TokenUsageInfo :=
  UsageInfo (add_assign (total_token_usage self) last) last (model_context_window self).

(** [codex-rs/protocol/src/protocol.rs:2061-2085 new_or_append] *)
Definition new_or_append (info : option TokenUsageInfo) (last : option TokenUsage) (window : option Z)
    : option TokenUsageInfo :=
  match info, last with
  | None, None => None
  | _, _ =>
      let info := match info with Some info => info | None => UsageInfo default_usage default_usage window end in
      let info := match last with Some last => append_last_usage info last | None => info end in
      Some (match window with
            | Some window => UsageInfo (total_token_usage info) (last_token_usage info) (Some window)
            | None => info
            end)
  end.

(** [codex-rs/protocol/src/protocol.rs:2092-2105 fill_to_context_window] *)
Definition fill_to_context_window (self : TokenUsageInfo) (context_window : Z) : TokenUsageInfo :=
  let previous_total := total_tokens (total_token_usage self) in
  let delta := Z.max (wrapping_sub context_window previous_total) 0 in
  UsageInfo (Usage 0 0 0 0 0 context_window) (Usage 0 0 0 0 0 delta) (Some context_window).

(** [codex-rs/protocol/src/protocol.rs:2107-2115 full_context_window] *)
Definition full_context_window (context_window : Z) : TokenUsageInfo :=
  fill_to_context_window (UsageInfo default_usage default_usage (Some context_window)) context_window.

(** ** Recording *)

(** [codex-rs/core/src/context_manager/history.rs:582-601 is_api_message] *)
Definition is_api_message (message : ResponseItem) : bool :=
  match message with
  | Message _ role _ _ => negb (bool_decide (role = lit "system"))
  | CompactionTrigger | Other => false
  | _ => true
  end.

(** [codex-rs/core/src/context_manager/history.rs:494-511 truncate_function_output_payload] *)
Definition truncate_function_output_payload (output : FunctionCallOutputPayload) (policy : TruncationPolicy)
    : option FunctionCallOutputPayload :=
  body ← match body output with
         | BodyText content => BodyText <$> truncate_text content policy
         | ContentItems items => ContentItems <$> truncate_function_output_items_with_policy items policy
         end;
  Some (Payload body (success output)).

(** [codex-rs/core/src/context_manager/history.rs:408-444 process_item] *)
Definition process_item (item : ResponseItem) (policy : TruncationPolicy) : option ResponseItem :=
  let policy_with_serialization_budget := mul_policy policy f64_1_2 in
  match item with
  | FunctionCallOutput call_id output =>
      FunctionCallOutput call_id <$> truncate_function_output_payload output policy_with_serialization_budget
  | CustomToolCallOutput call_id name output =>
      CustomToolCallOutput call_id name <$> truncate_function_output_payload output policy_with_serialization_budget
  | _ => Some item
  end.

(** [codex-rs/core/src/context_manager/history.rs:108-116 record_items] *)
Fixpoint record_loop (policy : TruncationPolicy) (recorded items : list ResponseItem) : option (list ResponseItem) :=
  match items with
  | [] => Some recorded
  | item :: items =>
      if negb (is_api_message item) then record_loop policy recorded items
      else processed ← process_item item policy; record_loop policy (recorded ++ [processed]) items
  end.

Section manager.
Context {TurnContext : Type}.
Abbreviation Manager_ := (ContextManager TokenUsageInfo TurnContext).

Definition with_items (self : Manager_) (l : list ResponseItem) : Manager_ :=
  Manager l (history_version self) (token_info self) (reference_context_item self).
Definition with_token_info (self : Manager_) (info : option TokenUsageInfo) : Manager_ :=
  Manager (items self) (history_version self) info (reference_context_item self).

(** [codex-rs/core/src/context_manager/history.rs:66-75 new] *)
Definition new_manager : Manager_ := Manager [] 0%N (new_or_append None None None) None.

(** [codex-rs/core/src/context_manager/history.rs:93-100 set_token_usage_full] *)
Definition set_token_usage_full (self : Manager_) (context_window : Z) : Manager_ :=
  with_token_info self
    (Some (match token_info self with
           | Some info => fill_to_context_window info context_window
           | None => full_context_window context_window
           end)).

(** [codex-rs/core/src/context_manager/history.rs:294-304 update_token_info] *)
Definition update_token_info (self : Manager_) (usage : TokenUsage) (window : option Z) : Manager_ :=
  with_token_info self (new_or_append (token_info self) (Some usage) window).

(** [codex-rs/core/src/context_manager/history.rs:103-117 record_items] *)
Definition record_items (self : Manager_) (new_items : list ResponseItem) (policy : TruncationPolicy) : option Manager_ :=
  with_items self <$> record_loop policy (items self) new_items.

(** [codex-rs/core/src/context_manager/history.rs:119-127 replace_recorded_items] *)
Definition replace_recorded_items (self : Manager_) (new_items : list ResponseItem) (policy : TruncationPolicy)
    : option Manager_ :=
  replacement ← record_items new_manager new_items policy;
  Some (replace self (items replacement)).
End manager.

(** ** Estimates *)

(** [codex-rs/core/src/context_manager/history.rs:603-609 estimate_reasoning_length] *)
Definition estimate_reasoning_length (encoded_len : N) : N :=
  saturating_sub (saturating_mul encoded_len 3 / 4) 650.

(** [codex-rs/core/src/context_manager/history.rs:611-613 estimate_encrypted_function_output_length] *)
Definition estimate_encrypted_function_output_length (encoded_len : N) : N :=
  ((saturating_mul encoded_len 9 + 15) / 16)%N.

(** [codex-rs/core/src/context_manager/history.rs:624-624 RESIZED_IMAGE_BYTES_ESTIMATE] *)
Definition RESIZED_IMAGE_BYTES_ESTIMATE : Z := 7373.
(** [codex-rs/core/src/context_manager/history.rs:628-628 ORIGINAL_IMAGE_PATCH_SIZE] *)
Definition ORIGINAL_IMAGE_PATCH_SIZE : Z := 32.
(** [codex-rs/core/src/context_manager/history.rs:632-632 ORIGINAL_IMAGE_MAX_PATCHES] *)
Definition ORIGINAL_IMAGE_MAX_PATCHES : N := 10000.

(** [str::get(..n)] followed by [eq_ignore_ascii_case(p)], for a literal [p] of [n] bytes. *)
Definition starts_with_ignore_case (p s : str) : bool :=
  match slice_to_byte s (str_len p) with
  | Some prefix => bool_decide (to_ascii_lowercase prefix = to_ascii_lowercase p)
  | None => false
  end.

(** [codex-rs/core/src/context_manager/history.rs:679-706 parse_base64_image_data_url] The outer option is the panic of a slice out of bounds. *)
Definition parse_base64_image_data_url (url : str) : option (option str) :=
  if negb (starts_with_ignore_case (lit "data:") url) then Some None
  else match split_once 44 url with
       | None => Some None
       | Some (metadata, payload) =>
           metadata_without_scheme ← slice_from_byte metadata (str_len (lit "data:"));
           let metadata_parts := split_char 59 metadata_without_scheme in
           let mime_type := match metadata_parts with mime :: _ => mime | [] => [] end in
           let has_base64_marker :=
             existsb (fun part => bool_decide (to_ascii_lowercase part = lit "base64")) (List.tl metadata_parts) in
           if negb (starts_with_ignore_case (lit "image/") mime_type) then Some None
           else if negb has_base64_marker then Some None
           else Some (Some payload)
       end.

Definition image_payload (url : str) : option str :=
  match parse_base64_image_data_url url with Some payload => payload | None => None end.

Section estimates.
(** The size of an item's JSON, and the width and height of a decoded image; [None] is an error. *)
Context (json_len : ResponseItem -> option N) (image_dims : str -> option (N * N)).

(** [codex-rs/core/src/context_manager/history.rs:708-742 estimate_original_image_bytes] *)
Definition estimate_original_image_bytes (image_url : str) : option Z :=
  payload ← image_payload image_url;
  '(width, height) ← image_dims payload;
  let width := Z.of_N width in
  let height := Z.of_N height in
  let patch_size := ORIGINAL_IMAGE_PATCH_SIZE in
  let patches_wide := (i64_add width (i64_sub patch_size 1) / patch_size)%Z in
  let patches_high := (i64_add height (i64_sub patch_size 1) / patch_size)%Z in
  let patch_count := i64_mul patches_wide patches_high in
  let patch_count := Z.to_N patch_count in
  let patch_count := N.min patch_count ORIGINAL_IMAGE_MAX_PATCHES in
  Some (i64_of (approx_bytes_for_tokens patch_count)).

(** [codex-rs/core/src/context_manager/history.rs:752-763 image_data_url_estimate_adjustment] *)
Definition accumulate (acc : Z * Z) (image : str * option ImageDetail) : Z * Z :=
  let (image_url, detail) := image in
  match image_payload image_url with
  | Some payload =>
      (i64_add acc.1 (i64_of (str_len payload)),
       i64_add acc.2 (match detail with
                      | Some Original =>
                          match estimate_original_image_bytes image_url with
                          | Some n => n
                          | None => RESIZED_IMAGE_BYTES_ESTIMATE
                          end
                      | _ => RESIZED_IMAGE_BYTES_ESTIMATE
                      end))
  | None => acc
  end.

(** [codex-rs/core/src/context_manager/history.rs:765-786 image_data_url_estimate_adjustment] *)
Definition item_images (item : ResponseItem) : list (str * option ImageDetail) :=
  let of_output output :=
    match body output with
    | ContentItems l => omap (fun c => match c with OutInputImage url detail => Some (url, detail) | _ => None end) l
    | BodyText _ => []
    end in
  match item with
  | Message _ _ content _ =>
      omap (fun c => match c with InputImage url detail => Some (url, detail) | _ => None end) content
  | FunctionCallOutput _ output | CustomToolCallOutput _ _ output => of_output output
  | _ => []
  end.

(** [codex-rs/core/src/context_manager/history.rs:748-789 image_data_url_estimate_adjustment] *)
Definition image_data_url_estimate_adjustment (item : ResponseItem) : Z * Z :=
  fold_left accumulate (item_images item) (0, 0)%Z.

(** [codex-rs/core/src/context_manager/history.rs:791-814 encrypted_function_output_estimate_adjustment] *)
Definition encrypted_function_output_estimate_adjustment (item : ResponseItem) : Z * Z :=
  match item with
  | FunctionCallOutput _ output =>
      match body output with
      | ContentItems l =>
          fold_left (fun acc c =>
            match c with
            | OutEncryptedContent content =>
                (i64_add acc.1 (i64_of (str_len content)),
                 i64_add acc.2 (i64_of (estimate_encrypted_function_output_length (str_len content))))
            | _ => acc
            end) l (0, 0)%Z
      | BodyText _ => (0, 0)%Z
      end
  | _ => (0, 0)%Z
  end.

(** [codex-rs/core/src/context_manager/history.rs:642-672 estimate_response_item_model_visible_bytes] *)
Definition estimate_response_item_model_visible_bytes (item : ResponseItem) : Z :=
  let of_encrypted content := i64_of (estimate_reasoning_length (str_len content)) in
  match item with
  | Reasoning _ _ _ (Some content) => of_encrypted content
  | Compaction content => of_encrypted content
  | ContextCompaction (Some content) => of_encrypted content
  | item =>
      let raw := match json_len item with Some n => i64_of n | None => 0%Z end in
      let (image_payload_bytes, image_replacement_bytes) := image_data_url_estimate_adjustment item in
      let (encrypted_payload_bytes, encrypted_replacement_bytes) :=
        encrypted_function_output_estimate_adjustment item in
      let raw := i64_add (i64_sub raw image_payload_bytes) image_replacement_bytes in
      i64_add (i64_sub raw encrypted_payload_bytes) encrypted_replacement_bytes
  end.

(** [codex-rs/core/src/context_manager/history.rs:615-618 estimate_item_token_count] *)
Definition estimate_item_token_count (item : ResponseItem) : Z :=
  approx_tokens_from_byte_count_i64 (estimate_response_item_model_visible_bytes item).

(** [.map(f).fold(0i64, i64::saturating_add)]. *)
Definition sum_of (f : ResponseItem -> Z) (l : list ResponseItem) : Z := fold_left i64_add (map f l) 0%Z.

(** [codex-rs/core/src/context_manager/history.rs:816-835 is_model_generated_item] *)
Definition is_model_generated_item (item : ResponseItem) : bool :=
  match item with
  | Message _ role _ _ => bool_decide (role = lit "assistant")
  | Reasoning _ _ _ _ | FunctionCall _ _ _ _ _ | ToolSearchCall _ _ _ _ _ | WebSearchCall _ _ _
  | ImageGenerationCall _ _ _ _ | CustomToolCall _ _ _ _ _ _ | LocalShellCall _ _ _ _ | Compaction _
  | ContextCompaction _ => true
  | CompactionTrigger => false
  | FunctionCallOutput _ _ | ToolSearchOutput _ _ _ _ | CustomToolCallOutput _ _ _ | AgentMessage _ _ _ | Other => false
  end.

(** ** Bounding tool outputs *)

(** [codex-rs/core/src/context_manager/history.rs:61-61 HEADLESS_TOOL_OUTPUT_TOTAL_TOKENS] *)
Definition HEADLESS_TOOL_OUTPUT_TOTAL_TOKENS : N := 24000.
(** [codex-rs/core/src/context_manager/history.rs:62-62 HEADLESS_TOOL_OUTPUT_ITEM_TOKENS] *)
Definition HEADLESS_TOOL_OUTPUT_ITEM_TOKENS : N := 4000.
(** [codex-rs/core/src/context_manager/history.rs:63-63 HEADLESS_TOOL_OUTPUT_OMITTED] *)
Definition HEADLESS_TOOL_OUTPUT_OMITTED : str := lit "[historical tool output omitted]".

(** [codex-rs/core/src/context_manager/history.rs:513-533 headless_tool_output_token_count] *)
Definition headless_tool_output_token_count (item : ResponseItem) : option N :=
  match item with
  | FunctionCallOutput _ _ | CustomToolCallOutput _ _ _ =>
      let tokens := estimate_item_token_count item in
      Some (if (tokens <? 0)%Z then usize_max else Z.to_N tokens)
  | _ => None
  end.

(** [codex-rs/core/src/context_manager/history.rs:560-577 bound_headless_tool_output_payload] *)
Definition bound_headless_tool_output_payload (output : FunctionCallOutputPayload) (token_budget : N)
    : option (FunctionCallOutputPayload * bool) :=
  bounded ← (if (token_budget =? 0)%N
             then Some (Payload (BodyText HEADLESS_TOOL_OUTPUT_OMITTED) (success output))
             else truncate_function_output_payload output (Tokens token_budget));
  if bool_decide (output = bounded) then Some (output, false) else Some (bounded, true).

(** [codex-rs/core/src/context_manager/history.rs:535-558 bound_headless_tool_output] *)
Definition bound_headless_tool_output (item : ResponseItem) (token_budget : N) : option (ResponseItem * bool) :=
  match item with
  | FunctionCallOutput call_id output =>
      '(output, changed) ← bound_headless_tool_output_payload output token_budget;
      Some (FunctionCallOutput call_id output, changed)
  | CustomToolCallOutput call_id name output =>
      '(output, changed) ← bound_headless_tool_output_payload output token_budget;
      Some (CustomToolCallOutput call_id name output, changed)
  | _ => Some (item, false)
  end.

(** [codex-rs/core/src/context_manager/history.rs:200-211 bound_headless_turn_tool_outputs] The items come in reverse, the newest first. *)
Fixpoint bound_loop (remaining_tokens : N) (changed : bool) (rev_items : list ResponseItem)
    : option (list ResponseItem * bool) :=
  match rev_items with
  | [] => Some ([], changed)
  | item :: rest =>
      match headless_tool_output_token_count item with
      | None =>
          '(rest, changed) ← bound_loop remaining_tokens changed rest;
          Some (item :: rest, changed)
      | Some item_tokens =>
          let item_budget := N.min remaining_tokens HEADLESS_TOOL_OUTPUT_ITEM_TOKENS in
          if (item_budget <? item_tokens)%N
          then
            '(item, item_changed) ← bound_headless_tool_output item item_budget;
            '(rest, changed) ← bound_loop (saturating_sub remaining_tokens item_budget) (changed || item_changed) rest;
            Some (item :: rest, changed)
          else
            '(rest, changed) ← bound_loop (saturating_sub remaining_tokens item_tokens) changed rest;
            Some (item :: rest, changed)
      end
  end.

Section manager.
Context {TurnContext : Type}.
Context (from_xml_str : str -> option (str * str)) (is_inter_agent_json : str -> bool).
Abbreviation Manager_ := (ContextManager TokenUsageInfo TurnContext).
Abbreviation boundary := (is_user_turn_boundary from_xml_str is_inter_agent_json).

(** [codex-rs/core/src/context_manager/history.rs:196-217 bound_headless_turn_tool_outputs] *)
Definition bound_headless_turn_tool_outputs (self : Manager_) : option (Manager_ * bool) :=
  '(rev_items, changed) ← bound_loop HEADLESS_TOOL_OUTPUT_TOTAL_TOKENS false (rev (items self));
  let version := if (changed : bool) then N.min (history_version self + 1) u64_max else history_version self in
  Some (Manager (rev rev_items) version (token_info self) (reference_context_item self), changed).

(** [codex-rs/core/src/context_manager/history.rs:163-177 estimate_token_count_with_base_instructions] *)
Definition estimate_token_count_with_base_instructions (self : Manager_) (base_instructions : str) : option Z :=
  let base_tokens := i64_of (approx_token_count base_instructions) in
  let items_tokens := sum_of estimate_item_token_count (items self) in
  Some (i64_add base_tokens items_tokens).

(** [codex-rs/core/src/context_manager/history.rs:306-326 get_non_last_reasoning_items_tokens] *)
Definition get_non_last_reasoning_items_tokens (self : Manager_) : Z :=
  match rposition boundary (items self) with
  | None => 0%Z
  | Some last_user_index =>
      sum_of estimate_item_token_count
        (List.filter (fun item => match item with Reasoning _ _ _ (Some _) => true | _ => false end)
           (take last_user_index (items self)))
  end.

(** [codex-rs/core/src/context_manager/history.rs:330-337 items_after_last_model_generated_item] *)
Definition items_after_last_model_generated_item (self : Manager_) : list ResponseItem :=
  let start := match rposition is_model_generated_item (items self) with
               | None => length (items self)
               | Some index => S index
               end in
  drop start (items self).

(** [codex-rs/core/src/context_manager/history.rs:341-359 get_total_token_usage] *)
Definition get_total_token_usage (self : Manager_) (server_reasoning_included : bool) : Z :=
  let last_tokens := match token_info self with
                     | Some info => total_tokens (last_token_usage info)
                     | None => 0%Z
                     end in
  let items_after := sum_of estimate_item_token_count (items_after_last_model_generated_item self) in
  if server_reasoning_included then i64_add last_tokens items_after
  else i64_add (i64_add last_tokens (get_non_last_reasoning_items_tokens self)) items_after.

(** [codex-rs/core/src/context_manager/history.rs:53-59 TotalTokenUsageBreakdown] *)
Record TotalTokenUsageBreakdown := Breakdown {
  last_api_response_total_tokens : Z;
  all_history_items_model_visible_bytes : Z;
  estimated_tokens_of_items_added : Z;
  estimated_bytes_of_items_added : Z
}.

(** [codex-rs/core/src/context_manager/history.rs:361-387 get_total_token_usage_breakdown] *)
Definition get_total_token_usage_breakdown (self : Manager_) : TotalTokenUsageBreakdown :=
  let last_usage := match token_info self with Some info => last_token_usage info | None => default_usage end in
  let items_after := items_after_last_model_generated_item self in
  Breakdown (total_tokens last_usage) (sum_of estimate_response_item_model_visible_bytes (items self))
    (sum_of estimate_item_token_count items_after)
    (sum_of estimate_response_item_model_visible_bytes items_after).
End manager.
End estimates.

(** ** What recording keeps *)

Definition allocatable_payload (output : FunctionCallOutputPayload) : Prop :=
  match body output with
  | BodyText content => allocatable content
  | ContentItems l => Forall allocatable (texts l)
  end.

Definition allocatable_item (item : ResponseItem) : Prop :=
  match item with
  | FunctionCallOutput _ output | CustomToolCallOutput _ _ output => allocatable_payload output
  | _ => True
  end.

(** An output within the budget of a policy. *)
Definition bounded_payload (policy : TruncationPolicy) (output bounded : FunctionCallOutputPayload) : Prop :=
  success bounded = success output /\
  match body output, body bounded with
  | BodyText content, BodyText content' =>
      if (str_len content <=? budget_bytes policy)%N then content' = content
      else truncation content (budget_bytes policy) (uses_tokens policy) content'
  | ContentItems l, ContentItems l' =>
      kept_within policy (total_budget policy) l l' /\ omap not_text l' = omap not_text l
  | _, _ => False
  end.

(** The item with its output related by [P], or the item itself. *)
Definition on_output (P : FunctionCallOutputPayload -> FunctionCallOutputPayload -> Prop)
    (item item' : ResponseItem) : Prop :=
  match item with
  | FunctionCallOutput call_id output => exists output', item' = FunctionCallOutput call_id output' /\ P output output'
  | CustomToolCallOutput call_id name output =>
      exists output', item' = CustomToolCallOutput call_id name output' /\ P output output'
  | _ => item' = item
  end.

Lemma on_output_keys P item item' :
  on_output P item item' ->
  call_key item' = call_key item /\ answer_key item' = answer_key item /\ required_key item' = required_key item.
Proof. destruct item; cbn [on_output]; try (by intros ->); by intros (o & -> & _). Qed.

Lemma payload_truncated output policy :
  allocatable_payload output ->
  exists bounded, truncate_function_output_payload output policy = Some bounded /\ bounded_payload policy output bounded.
Proof.
  unfold allocatable_payload, truncate_function_output_payload, bounded_payload. destruct output as [[content|l] s]; cbn [body success].
  - intros Ha. destruct (N.leb_spec (str_len content) (budget_bytes policy)) as [H|H].
    + rewrite truncate_text_fits by done. cbn. by eexists.
    + destruct (truncate_text_long policy content Ha H) as (r & -> & Hr). cbn. by eexists.
  - intros Ha. destruct (items_truncated_spec l policy Ha) as (r & -> & Hr & Hn). cbn. by eexists.
Qed.

Lemma item_processed item policy :
  allocatable_item item ->
  exists item', process_item item policy = Some item' /\ on_output (bounded_payload (mul_policy policy f64_1_2)) item item'.
Proof.
  intros Ha. destruct item; cbn [process_item on_output]; try (by eexists); cbn [allocatable_item] in Ha;
    destruct (payload_truncated _ (mul_policy policy f64_1_2) Ha) as (b & -> & Hb); cbn; eexists; (split; [done|]); by exists b.
Qed.

Lemma record_loop_spec policy l acc :
  Forall allocatable_item l ->
  exists recorded, record_loop policy acc l = Some (acc ++ recorded) /\
    Forall2 (on_output (bounded_payload (mul_policy policy f64_1_2))) (List.filter is_api_message l) recorded.
Proof.
  intros Ha. revert acc. induction Ha as [|item l Hi _ IH]; intros acc; cbn [record_loop List.filter].
  - exists []. by rewrite app_nil_r.
  - destruct (is_api_message item); cbn [negb]; [|apply IH].
    destruct (item_processed item policy Hi) as (item' & -> & Hp). cbn [mbind option_bind].
    destruct (IH (acc ++ [item'])) as (r & -> & Hr). exists (item' :: r). rewrite <- app_assoc.
    split; [done|by constructor].
Qed.

(** Recording items never panics; it appends the items that belong to the conversation, in order, each
    as it is except that the output of a tool is bounded to 1.2 times the policy, keeping its identifier,
    its images and its success flag, so that calls and outputs match in the record as they did before. *)
Theorem recorded_items_bounded {TC} (self : ContextManager TokenUsageInfo TC) l policy :
  Forall allocatable_item l ->
  exists recorded,
    record_items self l policy = Some (with_items self (items self ++ recorded)) /\
    Forall2 (on_output (bounded_payload (mul_policy policy f64_1_2))) (List.filter is_api_message l) recorded /\
    map call_key recorded = map call_key (List.filter is_api_message l) /\
    map answer_key recorded = map answer_key (List.filter is_api_message l) /\
    map required_key recorded = map required_key (List.filter is_api_message l).
Proof.
  intros Ha. destruct (record_loop_spec policy l (items self) Ha) as (r & Hr & Hf). exists r.
  unfold record_items. rewrite Hr. split; [done|]. split; [done|].
  clear Hr Ha. induction Hf as [|a b la lb Hab _ IH]; [done|]. cbn [map].
  destruct (on_output_keys _ _ _ Hab) as (-> & -> & ->). destruct IH as (-> & -> & ->). done.
Qed.

Lemma recorded_items_bounded_witness :
  let l := [Message None (lit "system") [] None; FunctionCall None (lit "shell") None (lit "{}") (lit "1");
            FunctionCallOutput (lit "1") (Payload (BodyText (lit "abcdefghijklmnopqrstuvwxyz")) (Some true))] in
  Forall allocatable_item l /\
  exists recorded,
    record_items (@new_manager unit) l (Bytes 10) = Some (with_items new_manager recorded) /\ length recorded = 2.
Proof.
  intros l. assert (Ha : Forall allocatable_item l).
  { repeat (apply Forall_cons_2; [first [exact I | by vm_compute]|]). by constructor. }
  destruct (recorded_items_bounded (@new_manager unit) l (Bytes 10) Ha) as (r & Hr & Hf & _).
  split; [exact Ha|]. exists r. split; [exact Hr|]. by rewrite <- (Forall2_length _ _ _ Hf).
Defined.

(** ** What bounding keeps *)

Section bounding.
Context (json_len : ResponseItem -> option N) (image_dims : str -> option (N * N)).

(** An output replaced within a budget of tokens. *)
Definition headless_payload (budget : N) (output bounded : FunctionCallOutputPayload) : Prop :=
  if (budget =? 0)%N then bounded = Payload (BodyText HEADLESS_TOOL_OUTPUT_OMITTED) (success output)
  else bounded_payload (Tokens budget) output bounded.

(** [item'] is what [item] becomes when it is given [budget] tokens. *)
Definition within_budget (item : ResponseItem) (budget : N) (item' : ResponseItem) : Prop :=
  match headless_tool_output_token_count json_len image_dims item with
  | None => budget = 0%N /\ item' = item
  | Some tokens =>
      (tokens = budget /\ item' = item) \/
      ((budget < tokens)%N /\ on_output (headless_payload budget) item item')
  end.

Lemma payload_bounded output budget :
  allocatable_payload output ->
  exists bounded changed, bound_headless_tool_output_payload output budget = Some (bounded, changed) /\
    headless_payload budget output bounded /\ (changed = true <-> bounded <> output).
Proof.
  intros Ha. unfold bound_headless_tool_output_payload, headless_payload. destruct (N.eqb_spec budget 0) as [->|Hb].
  - cbn [mbind option_bind]. case_bool_decide as Hd; eexists _, _; (split; [done|]); by split.
  - destruct (payload_truncated output (Tokens budget) Ha) as (b & -> & Hbd). cbn [mbind option_bind].
    case_bool_decide as Hd; [subst b|]; eexists _, _; (split; [done|]); by split.
Qed.

Lemma item_bounded item budget :
  allocatable_item item ->
  exists item' changed, bound_headless_tool_output item budget = Some (item', changed) /\
    on_output (headless_payload budget) item item' /\ (changed = true <-> item' <> item).
Proof.
  intros Ha. destruct item; cbn [bound_headless_tool_output on_output allocatable_item] in *;
    try (by eexists _, false); destruct (payload_bounded _ budget Ha) as (b & c & -> & Hb & Hc); cbn [mbind option_bind];
    eexists _, c; (split; [done|]); (split; [by exists b|]); rewrite Hc; split; intros H; congruence.
Qed.

Definition budget_sum (budgets : list N) : N := foldr N.add 0%N budgets.

Lemma bound_loop_spec l r ch :
  Forall allocatable_item l ->
  exists l' c budgets, bound_loop json_len image_dims r ch l = Some (l', c) /\
    Forall3 within_budget l budgets l' /\ (budget_sum budgets <= r)%N /\
    Forall (fun b => b <= HEADLESS_TOOL_OUTPUT_ITEM_TOKENS)%N budgets /\
    (c = true <-> ch = true \/ l' <> l).
Proof.
  intros Ha. revert r ch. induction Ha as [|item l Hi _ IH]; intros r ch; cbn [bound_loop].
  { exists [], ch, []. cbn. split; [done|]. split; [constructor|]. split; [lia|]. split; [done|naive_solver]. }
  assert (Hnext : forall item' b ch' (q : N), within_budget item b item' -> (b <= HEADLESS_TOOL_OUTPUT_ITEM_TOKENS)%N ->
    (q + b <= r)%N -> (ch' = true <-> ch = true \/ item' <> item) ->
    exists l' c budgets,
      ('(rest, changed) ← bound_loop json_len image_dims q ch' l; Some (item' :: rest, changed)) = Some (l', c) /\
      Forall3 within_budget (item :: l) budgets l' /\ (budget_sum budgets <= r)%N /\
      Forall (fun b => b <= HEADLESS_TOOL_OUTPUT_ITEM_TOKENS)%N budgets /\
      (c = true <-> ch = true \/ l' <> item :: l)).
  { intros item' b ch' q Hw Hb Hq Hch. destruct (IH q ch') as (l' & c & bs & -> & Hf & Hs & Hbs & Hc).
    exists (item' :: l'), c, (b :: bs). cbn [mbind option_bind budget_sum foldr]. split; [done|].
    split; [by constructor|]. split; [unfold budget_sum in *; lia|]. split; [by constructor|].
    split.
    - rewrite Hc, Hch. intros [[H|H]|H]; [by left|right; congruence|right; congruence].
    - intros [H|H]; [by apply Hc; left; apply Hch; left|]. destruct c; [done|]. exfalso.
      assert (Hl : ~ l' <> l) by (intros H'; by assert (false = true) by (apply Hc; by right)).
      assert (Hi' : ~ item' <> item)
        by (intros H'; by assert (false = true) by (apply Hc; left; apply Hch; by right)).
      apply Hl. intros ->. apply Hi'. intros ->. by apply H. }
  destruct (headless_tool_output_token_count json_len image_dims item) as [tokens|] eqn:Ht.
  2: { apply (Hnext item 0%N ch r); [unfold within_budget; by rewrite Ht|lia|lia|naive_solver]. }
  destruct (N.ltb_spec (N.min r HEADLESS_TOOL_OUTPUT_ITEM_TOKENS) tokens) as [Hl|Hl].
  - destruct (item_bounded item (N.min r HEADLESS_TOOL_OUTPUT_ITEM_TOKENS) Hi) as (item' & c & -> & Ho & Hc).
    cbn [mbind option_bind]. unfold saturating_sub.
    apply (Hnext item' (N.min r HEADLESS_TOOL_OUTPUT_ITEM_TOKENS)); [unfold within_budget; rewrite Ht; by right|lia|lia|].
    rewrite orb_true_iff, Hc. done.
  - apply (Hnext item tokens ch); [unfold within_budget; rewrite Ht; by left|lia|unfold saturating_sub; lia|naive_solver].
Qed.
End bounding.

Lemma Forall3_reverse {A B C} (P : A -> B -> C -> Prop) l k k' :
  Forall3 P l k k' -> Forall3 P (rev l) (rev k) (rev k').
Proof. induction 1; simpl; [constructor|]. apply Forall3_app; [done|]. by repeat constructor. Qed.

Lemma budget_sum_rev budgets : budget_sum (rev budgets) = budget_sum budgets.
Proof.
  assert (H : forall a b, budget_sum (a ++ b) = (budget_sum a + budget_sum b)%N).
  { induction a as [|x a IH]; intros b; cbn; [done|]. unfold budget_sum in *. rewrite IH. lia. }
  induction budgets as [|b budgets IH]; [done|]. cbn [rev]. rewrite H, IH.
  change (budget_sum [b]) with (b + 0)%N. change (budget_sum (b :: budgets)) with (b + budget_sum budgets)%N. lia.
Qed.

(** Bounding the tool outputs of a headless turn never panics and changes nothing but tool outputs.
    Every output is given a number of tokens, at most 4,000 and together at most 24,000: one estimated at
    that number is kept as it is, one estimated higher is truncated to it, and omitted if it is zero.  The
    flag returned tells whether anything changed, and so does the version of the history. *)
Theorem headless_outputs_bounded {TC} json_len image_dims (self : ContextManager TokenUsageInfo TC) :
  Forall allocatable_item (items self) ->
  exists l changed budgets,
    bound_headless_turn_tool_outputs json_len image_dims self =
      Some (Manager l (if changed : bool then N.min (history_version self + 1) u64_max else history_version self)
              (token_info self) (reference_context_item self), changed) /\
    Forall3 (within_budget json_len image_dims) (items self) budgets l /\
    (budget_sum budgets <= 24000)%N /\ Forall (fun b => b <= 4000)%N budgets /\
    (changed = true <-> l <> items self).
Proof.
  intros Ha. unfold bound_headless_turn_tool_outputs.
  assert (Hr : Forall allocatable_item (rev (items self))) by (by apply Forall_rev).
  destruct (bound_loop_spec json_len image_dims _ HEADLESS_TOOL_OUTPUT_TOTAL_TOKENS false Hr)
    as (l & c & bs & -> & Hf & Hs & Hbs & Hc).
  exists (rev l), c, (rev bs). cbn [mbind option_bind]. split; [done|].
  split; [apply Forall3_reverse in Hf; by rewrite rev_involutive in Hf|].
  split; [by rewrite budget_sum_rev|]. split; [by apply Forall_rev|]. rewrite Hc. split.
  - intros [H|H]; [done|]. intros Hl. apply H. by rewrite <- Hl, rev_involutive.
  - intros H. right. intros ->. apply H. by rewrite rev_involutive.
Qed.

Lemma headless_outputs_bounded_witness :
  let self := @Manager TokenUsageInfo unit
                [FunctionCallOutput (lit "1") (Payload (BodyText (lit "abc")) None)] 0 None None in
  Forall allocatable_item (items self) /\
  exists l changed budgets,
    bound_headless_turn_tool_outputs (fun _ => Some 20000%N) (fun _ => None) self =
      Some (Manager l (if changed : bool then 1 else 0)%N None None, changed) /\
    (budget_sum budgets <= 24000)%N.
Proof.
  intros self. assert (Ha : Forall allocatable_item (items self)) by (apply Forall_singleton; by vm_compute).
  destruct (headless_outputs_bounded (fun _ => Some 20000%N) (fun _ => None) self Ha)
    as (l & c & bs & H & _ & Hs & _).
  split; [exact Ha|]. exists l, c, bs. split; [|exact Hs]. rewrite H. by destruct c.
Defined.

(** ** Data URLs *)

Lemma starts_with_ignore_case_spec p s :
  starts_with_ignore_case p s = true ->
  exists d r, s = d ++ r /\ str_len d = str_len p /\ to_ascii_lowercase d = to_ascii_lowercase p.
Proof.
  unfold starts_with_ignore_case, slice_to_byte. destruct (split_at_byte s (str_len p)) as [[d r]|] eqn:E; [|done].
  apply split_at_byte_Some in E as [-> Hd]. cbn. intros H. apply bool_decide_eq_true in H. by exists d, r.
Qed.

Lemma lower_not_in c d p :
  to_ascii_lowercase d = p -> to_ascii_lower_char c ∉ p -> c ∉ d.
Proof. intros <- Hc Hd. apply Hc. by apply list_elem_of_fmap_2. Qed.

(** Looking for the payload of an image URL never panics, and a payload found is what follows the first
    comma of a [data:] URL. *)
Lemma parse_base64_image_data_url_safe url :
  exists r, parse_base64_image_data_url url = Some r /\
    forall payload, r = Some payload ->
      exists metadata, url = metadata ++ [44%N] ++ payload /\ 44%N ∉ metadata /\
        starts_with_ignore_case (lit "data:") metadata = true.
Proof.
  unfold parse_base64_image_data_url. destruct (starts_with_ignore_case (lit "data:") url) eqn:Es; cbn [negb];
    [|by exists None].
  destruct (split_once 44 url) as [[metadata payload]|] eqn:Eo; [|by exists None].
  pose proof (split_once_notin _ _ _ _ Eo) as Hnot. apply split_once_eq in Eo as ->.
  destruct (starts_with_ignore_case_spec _ _ Es) as (d & r & Hdr & Hlen & Hlow).
  assert (Hd : 44%N ∉ d).
  { eapply lower_not_in; [exact Hlow|]. apply (bool_decide_unpack _). by vm_compute. }
  assert (Hm : exists m, metadata = d ++ m).
  { clear -Hdr Hd. revert metadata Hdr. induction d as [|c d IH]; intros metadata Hdr; [by exists metadata|].
    apply not_elem_of_cons in Hd as [Hc Hd]. destruct metadata as [|c' metadata]; injection Hdr as Hx Hdr; [congruence|subst c'].
    destruct (IH Hd metadata) as [m ->]; [done|]. by exists m. }
  destruct Hm as [m ->]. rewrite <- Hlen, slice_from_byte_app. cbn [mbind option_bind].
  assert (Hmeta : starts_with_ignore_case (lit "data:") (d ++ m) = true).
  { unfold starts_with_ignore_case. rewrite <- Hlen, slice_to_byte_app. by apply bool_decide_eq_true. }
  destruct (starts_with_ignore_case (lit "image/") _); cbn [negb]; [|by exists None].
  destruct (existsb _ _); cbn [negb]; [|by exists None].
  exists (Some payload). split; [done|]. intros p [= <-]. by exists (d ++ m).
Qed.

(** ** Counting *)

Definition in_i64 (z : Z) : Prop := (i64_min <= z <= i64_max)%Z.

Lemma saturate_in z : in_i64 (saturate z).
Proof. unfold in_i64, saturate, i64_min, i64_max. lia. Qed.

Lemma wrapping_add_exact a b : in_i64 (a + b) -> wrapping_add a b = (a + b)%Z.
Proof.
  unfold in_i64, wrapping_add, i64_min, i64_max. intros H. rewrite Z.mod_small by lia. lia.
Qed.

(** The total of the usages reported so far. *)
Definition usage_total (usages : list TokenUsage) : Z := fold_right (fun u z => total_tokens u + z)%Z 0%Z usages.

(** After a sequence of reports the total is their sum, as long as the sum does not leave 64 bits, and the
    last usage is the last report. *)
Lemma update_token_info_total {TC} (self : ContextManager TokenUsageInfo TC) info usages u window :
  token_info self = Some info ->
  (forall k, in_i64 (total_tokens (total_token_usage info) + usage_total (take k (usages ++ [u])))) ->
  exists info', token_info (fold_left (fun m u => update_token_info m u window) (usages ++ [u]) self) = Some info' /\
    total_tokens (total_token_usage info') = (total_tokens (total_token_usage info) + usage_total (usages ++ [u]))%Z /\
    last_token_usage info' = u.
Proof.
  revert self info. induction usages as [|v usages IH]; intros self info Hi Hb.
  - cbn [app fold_left]. unfold update_token_info. rewrite Hi. cbn [with_token_info token_info].
    specialize (Hb 1). cbn in Hb. rewrite Z.add_0_r in Hb.
    eexists; split; [done|]. destruct window; cbn; rewrite wrapping_add_exact by done; split; (lia || done).
  - cbn [app fold_left].
    assert (Hb1 := Hb 1). cbn in Hb1. rewrite Z.add_0_r in Hb1.
    assert (Hs : exists i1, token_info (update_token_info self v window) = Some i1 /\
      total_tokens (total_token_usage i1) = (total_tokens (total_token_usage info) + total_tokens v)%Z).
    { unfold update_token_info. rewrite Hi. eexists; split; [done|].
      destruct window; cbn; by rewrite wrapping_add_exact. }
    destruct Hs as (i1 & Hi1 & Ht1). destruct (IH _ i1 Hi1) as (info' & Hinfo & Htot & Hlast).
    { intros k. specialize (Hb (S k)). cbn in Hb. rewrite Ht1.
      by replace (total_tokens (total_token_usage info) + total_tokens v + usage_total (take k (usages ++ [u])))%Z
        with (total_tokens (total_token_usage info) + (total_tokens v + usage_total (take k (usages ++ [u]))))%Z by lia. }
    exists info'. split; [exact Hinfo|]. split; [|done]. rewrite Htot, Ht1. cbn [app usage_total fold_right]. unfold usage_total. lia.
Qed.

(** The items added since the last one that the model generated: none of them is the model's. *)
Lemma items_after_last_model_generated_spec {TC} (self : ContextManager TokenUsageInfo TC) :
  Forall (fun item => is_model_generated_item item = false) (items_after_last_model_generated_item self) /\
  (existsb is_model_generated_item (items self) = true ->
   exists l item, items self = l ++ item :: items_after_last_model_generated_item self /\
     is_model_generated_item item = true).
Proof.
  unfold items_after_last_model_generated_item. induction (items self) as [|x l [IH1 IH2]]; [by split|].
  cbn [rposition existsb length]. destruct (rposition is_model_generated_item l) as [i|] eqn:E.
  - cbn [drop] in *. split; [done|]. intros _.
    assert (existsb is_model_generated_item l = true) as He.
    { destruct (existsb is_model_generated_item l) eqn:He; [done|]. exfalso. revert E He. clear.
      revert i; induction l as [|y l IH]; intros i; cbn; [done|]. intros E He. apply orb_false_iff in He as [Hy He].
      destruct (rposition _ l) as [j|]; [by eapply IH|by rewrite Hy in E]. }
    destruct (IH2 He) as (k & item & Heq & Hitem). exists (x :: k), item. split; [|done]. cbn. by f_equal.
  - assert (Hnone : Forall (fun item => is_model_generated_item item = false) l).
    { revert E. clear. induction l as [|y l IH]; [constructor|]. cbn.
      destruct (rposition _ l); [done|]. destruct (is_model_generated_item y) eqn:Hy; [done|]. constructor; auto. }
    destruct (is_model_generated_item x) eqn:Hx; cbn [drop].
    + split; [done|]. intros _. by exists [], x.
    + rewrite drop_all. split; [constructor|]. cbn [orb]. intros He. exfalso.
      apply existsb_exists in He as (y & Hy & Hm). apply list_elem_of_In in Hy.
      eapply Forall_forall in Hnone; [|exact Hy]. congruence.
Qed.

End HistoryTokens.
