(* ===== verification/TurnItems.v ===== *)
(** * Turn items: core/src/event_mapping.rs, protocol/src/items.rs, protocol/src/user_input.rs

    How the input of a user becomes the content of a message for the model (protocol/src/models.rs) and how
    an item of the conversation is read back as an item of a turn: the tags around local images are dropped,
    injected context is hidden, prompts of hooks are shown apart.  A fresh UUID is an argument.  Reading a
    file, decoding an image and the texts of their errors are parameters. *)

From S2P Require Import Prelude Text ResponseItems ContextFragments.
From Stdlib Require Import ZifyBool ZifyN ZifyNat.

Module TurnItems.
Import ResponseItems ContextFragments.

(** ** The input of a user *)

(** [codex-rs/protocol/src/user_input.rs:106-112 ByteRange] *)
Record ByteRange := Range { start : N; end_ : N }.

(** [codex-rs/protocol/src/user_input.rs:54-60 TextElement] *)
Record TextElement := Element { byte_range : ByteRange; placeholder_ : option str }.

(** [codex-rs/protocol/src/user_input.rs:12-52 UserInput] *)
Inductive UserInput :=
| TextInput (text : str) (text_elements : list TextElement)
| ImageInput (image_url : str) (detail : option ImageDetail)
| LocalImageInput (path : str) (detail : option ImageDetail)
| SkillInput (name path : str)
| MentionInput (name path : str).

(** [str::get(start..end)]. *)
Definition get_range (s : str) (a b : N) : option str :=
  if (b <? a)%N then None
  else '(_, rest) ← split_at_byte s a; '(mid, _) ← split_at_byte rest (b - a)%N; Some mid.

(** [codex-rs/protocol/src/user_input.rs:99-103 placeholder] *)
Definition placeholder (self : TextElement) (text : str) : option str :=
  match placeholder_ self with
  | Some p => Some p
  | None => get_range text (start (byte_range self)) (end_ (byte_range self))
  end.

(** [a + b] on [usize] in a build without overflow checks. *)
Definition usize_wrapping_add (a b : N) : N := ((a + b) mod 2 ^ 64)%N.

(** ** Messages for the model *)

(** [codex-rs/protocol/src/models.rs:733-733 DEFAULT_IMAGE_DETAIL] *)
Definition DEFAULT_IMAGE_DETAIL : ImageDetail := High.

(** [codex-rs/protocol/src/models.rs:1018-1018 IMAGE_OPEN_TAG] *)
Definition IMAGE_OPEN_TAG : str := lit "<image>".
(** [codex-rs/protocol/src/models.rs:1019-1019 IMAGE_CLOSE_TAG] *)
Definition IMAGE_CLOSE_TAG : str := lit "</image>".
(** [codex-rs/protocol/src/models.rs:1020-1020 LOCAL_IMAGE_OPEN_TAG_PREFIX] *)
Definition LOCAL_IMAGE_OPEN_TAG_PREFIX : str := lit "<image name=".
(** [codex-rs/protocol/src/models.rs:1021-1021 LOCAL_IMAGE_OPEN_TAG_SUFFIX] *)
Definition LOCAL_IMAGE_OPEN_TAG_SUFFIX : str := lit ">".
(** [codex-rs/protocol/src/models.rs:1022-1022 LOCAL_IMAGE_CLOSE_TAG] *)
Definition LOCAL_IMAGE_CLOSE_TAG : str := IMAGE_CLOSE_TAG.

(** [codex-rs/protocol/src/models.rs:1032-1034 local_image_label_text] *)
Definition local_image_label_text (label_number : nat) : str := lit "[Image #" ++ show_nat label_number ++ lit "]".

(** [codex-rs/protocol/src/models.rs:1036-1040 local_image_open_tag_text_with_path] *)
Definition local_image_open_tag_text_with_path (label_number : nat) (path : str) : str :=
  LOCAL_IMAGE_OPEN_TAG_PREFIX ++ local_image_label_text label_number ++ lit " path=" ++ [QUOTE] ++ path ++ [QUOTE]
  ++ LOCAL_IMAGE_OPEN_TAG_SUFFIX.

(** [codex-rs/protocol/src/models.rs:1042-1045 is_local_image_open_tag_text] *)
Definition is_local_image_open_tag_text (text : str) : bool :=
  is_some_and (ends_with LOCAL_IMAGE_OPEN_TAG_SUFFIX) (strip_prefix LOCAL_IMAGE_OPEN_TAG_PREFIX text).

(** [codex-rs/protocol/src/models.rs:1051-1053 is_image_open_tag_text] *)
Definition is_image_open_tag_text (text : str) : bool := bool_decide (text = IMAGE_OPEN_TAG).

(** [codex-rs/protocol/src/models.rs:1055-1057 is_image_close_tag_text] *)
Definition is_image_close_tag_text (text : str) : bool := bool_decide (text = IMAGE_CLOSE_TAG).

(** [codex-rs/protocol/src/models.rs:1047-1049 is_local_image_close_tag_text] *)
Definition is_local_image_close_tag_text (text : str) : bool := is_image_close_tag_text text.

Definition BACKQUOTE : char := 96%N.

(** [codex-rs/protocol/src/models.rs:1003-1014 local_image_error_placeholder] *)
Definition local_image_error_placeholder (path error : str) : ContentItem :=
  InputText (lit "Codewith could not read the local image at " ++ [BACKQUOTE] ++ path ++ [BACKQUOTE] ++ lit ": " ++ error).

(** [codex-rs/protocol/src/models.rs:1059-1070 invalid_image_error_placeholder] *)
Definition invalid_image_error_placeholder (path error : str) : ContentItem :=
  InputText (lit "Image located at " ++ [BACKQUOTE] ++ path ++ [BACKQUOTE] ++ lit " is invalid: " ++ error).

(** [codex-rs/protocol/src/models.rs:1072-1080 unsupported_image_error_placeholder] *)
Definition unsupported_image_error_placeholder (path mime : str) : ContentItem :=
  InputText (lit "Codewith cannot attach image at " ++ [BACKQUOTE] ++ path ++ [BACKQUOTE] ++ lit ": unsupported image "
             ++ [BACKQUOTE] ++ mime ++ [BACKQUOTE] ++ lit ".").

(** [codex-rs/utils/image/src/lib.rs:41-44 PromptImageMode] *)
Inductive PromptImageMode := ResizeToFit | OriginalMode.

(** [codex-rs/utils/image/src/error.rs:6-28 ImageProcessingError] with the text of an error; a failed decoding
    says whether its source is [ImageError::Decoding]. *)
Inductive ImageProcessingError :=
| ReadError (error : str)
| DecodeError (decoding : bool) (error : str)
| EncodeError (error : str)
| UnsupportedImageFormat (mime error : str).

(** [codex-rs/utils/image/src/error.rs:46-54 is_invalid_image] *)
Definition is_invalid_image (self : ImageProcessingError) : bool :=
  match self with DecodeError decoding _ => decoding | _ => false end.

(** What a local image becomes in a message when it cannot be attached. *)
Definition image_error_item (path : str) (err : ImageProcessingError) : ContentItem :=
  match err with
  | ReadError error | EncodeError error => local_image_error_placeholder path error
  | DecodeError _ error =>
      if is_invalid_image err then invalid_image_error_placeholder path error
      else local_image_error_placeholder path error
  | UnsupportedImageFormat mime _ => unsupported_image_error_placeholder path mime
  end.

Section input.
(** [std::fs::read], or the text of its error; [load_for_prompt_bytes] followed by [into_data_url]. *)
Context (fs_read : str -> list N + str).
Context (load_for_prompt_bytes : str -> list N -> PromptImageMode -> str + ImageProcessingError).

(** [codex-rs/protocol/src/models.rs:1082-1127 local_image_content_items_with_label_number] *)
Definition local_image_content_items_with_label_number (path : str) (file_bytes : list N) (label_number : option nat)
    (detail : ImageDetail) : list ContentItem :=
  let mode := match detail with Original => OriginalMode | Auto | Low | High => ResizeToFit end in
  match load_for_prompt_bytes path file_bytes mode with
  | inl url =>
      match label_number with
      | Some label_number => [InputText (local_image_open_tag_text_with_path label_number path)]
      | None => []
      end
      ++ [InputImage url (Some detail)]
      ++ match label_number with Some _ => [InputText LOCAL_IMAGE_CLOSE_TAG] | None => [] end
  | inr err => [image_error_item path err]
  end.

Definition detail_or_default (detail : option ImageDetail) : ImageDetail :=
  match detail with Some detail => detail | None => DEFAULT_IMAGE_DETAIL end.

(** [codex-rs/protocol/src/models.rs:1246-1272 ResponseInputItem::from] *)
Fixpoint input_content (image_index : nat) (items : list UserInput) : list ContentItem :=
  match items with
  | [] => []
  | c :: items =>
      match c with
      | TextInput text _ => InputText text :: input_content image_index items
      | ImageInput image_url detail =>
          let image_index := S image_index in
          InputImage image_url (Some (detail_or_default detail)) :: input_content image_index items
      | LocalImageInput path detail =>
          let image_index := S image_index in
          match fs_read path with
          | inl file_bytes =>
              local_image_content_items_with_label_number path file_bytes (Some image_index) (detail_or_default detail)
          | inr err => [local_image_error_placeholder path err]
          end ++ input_content image_index items
      | SkillInput _ _ | MentionInput _ _ => input_content image_index items
      end
  end.

(** [codex-rs/protocol/src/models.rs:1239-1277 ResponseInputItem::from] followed by [ResponseItem::from] (1134-1144). *)
Definition user_input_item (items : list UserInput) : ResponseItem :=
  Message None (lit "user") (input_content 0 items) None.
End input.

(** ** Turn items *)

(** [codex-rs/protocol/src/items.rs:56-63 UserMessageItem] *)
Record UserMessageItem := UserMessageOf { um_id : str; um_client_id : option str; um_content : list UserInput }.

(** [codex-rs/protocol/src/items.rs:65-77 HookPromptItem] A fragment is its text and its run id. *)
Record HookPromptItem := HookPromptOf { hp_id : str; hp_fragments : list (str * str) }.

(** [codex-rs/protocol/src/items.rs:101-114 AgentMessageItem] without the citation, which the code here leaves empty. *)
Record AgentMessageItem := AgentMessageOf { am_id : str; am_content : list str; am_phase : option MessagePhase }.

(** [codex-rs/protocol/src/items.rs:122-128 ReasoningItem] *)
Record ReasoningItem := ReasoningOf { rs_id : str; rs_summary_text : list str; rs_raw_content : list str }.

(** [codex-rs/protocol/src/items.rs:130-135 WebSearchItem] *)
Record WebSearchItem := WebSearchOf { ws_id : str; ws_query : str; ws_action : WebSearchAction }.

(** [codex-rs/protocol/src/items.rs:143-154 ImageGenerationItem] *)
Record ImageGenerationItem := ImageGenerationOf {
  ig_id : str; ig_status : str; ig_revised_prompt : option str; ig_result : str; ig_saved_path : option str }.

(** [codex-rs/protocol/src/items.rs:38-54 TurnItem] the variants that an item of the conversation can become. *)
Inductive TurnItem :=
| TUserMessage (item : UserMessageItem)
| THookPrompt (item : HookPromptItem)
| TAgentMessage (item : AgentMessageItem)
| TReasoning (item : ReasoningItem)
| TWebSearch (item : WebSearchItem)
| TImageGeneration (item : ImageGenerationItem).

(** [codex-rs/protocol/src/items.rs:262-271 message] *)
Definition message (self : UserMessageItem) : str :=
  join [] (map (fun c => match c with TextInput text _ => text | _ => [] end) (um_content self)).

(** [codex-rs/protocol/src/items.rs:285-294 text_elements] *)
Definition rebase_element (offset : N) (text : str) (elem : TextElement) : TextElement :=
  Element (Range (usize_wrapping_add offset (start (byte_range elem))) (usize_wrapping_add offset (end_ (byte_range elem))))
    (placeholder elem text).

(** [codex-rs/protocol/src/items.rs:276-297 text_elements] *)
Fixpoint text_elements_loop (offset : N) (content : list UserInput) : list TextElement :=
  match content with
  | [] => []
  | TextInput text elems :: content =>
      map (rebase_element offset text) elems
      ++ text_elements_loop (usize_wrapping_add offset (str_len text)) content
  | _ :: content => text_elements_loop offset content
  end.
(** [codex-rs/protocol/src/items.rs:273-299 text_elements] *)
Definition text_elements (self : UserMessageItem) : list TextElement := text_elements_loop 0 (um_content self).

(** [codex-rs/protocol/src/items.rs:301-309 image_urls] *)
Definition image_urls (self : UserMessageItem) : list str :=
  omap (fun c => match c with ImageInput image_url _ => Some image_url | _ => None end) (um_content self).

(** [codex-rs/protocol/src/items.rs:346-353 trim_trailing_default_image_details] *)
Definition trim_trailing_default_image_details (details : list (option ImageDetail)) : list (option ImageDetail) :=
  fold_right (fun d rest => match d, rest with None, [] => [] | _, _ => d :: rest end) [] details.

(** [codex-rs/protocol/src/items.rs:311-321 image_details] *)
Definition image_details (self : UserMessageItem) : list (option ImageDetail) :=
  trim_trailing_default_image_details
    (omap (fun c => match c with ImageInput _ detail => Some detail | _ => None end) (um_content self)).

(** [codex-rs/protocol/src/items.rs:323-331 local_image_paths] *)
Definition local_image_paths (self : UserMessageItem) : list str :=
  omap (fun c => match c with LocalImageInput path _ => Some path | _ => None end) (um_content self).

(** [codex-rs/protocol/src/items.rs:333-343 local_image_details] *)
Definition local_image_details (self : UserMessageItem) : list (option ImageDetail) :=
  trim_trailing_default_image_details
    (omap (fun c => match c with LocalImageInput _ detail => Some detail | _ => None end) (um_content self)).

(** [codex-rs/protocol/src/protocol.rs:2299-2325 UserMessageEvent] *)
Record UserMessageEvent := UserEvent {
  ue_client_id : option str;
  ue_message : str;
  ue_images : option (list str);
  ue_image_details : list (option ImageDetail);
  ue_local_images : list str;
  ue_local_image_details : list (option ImageDetail);
  ue_text_elements : list TextElement
}.

(** [codex-rs/protocol/src/items.rs:248-260 as_legacy_event] *)
Definition as_legacy_event (self : UserMessageItem) : UserMessageEvent :=
  UserEvent (um_client_id self) (message self) (Some (image_urls self)) (image_details self) (local_image_paths self)
    (local_image_details self) (text_elements self).

(** [codex-rs/core/src/web_search.rs:3-16 search_action_detail] *)
Definition search_action_detail (query : option str) (queries : option (list str)) : str :=
  match query with
  | Some (_ :: _ as q) => q
  | _ =>
      let first := match queries with Some (q :: _) => q | _ => [] end in
      if is_some_and (fun queries => 1 <? length queries) queries && negb (bool_decide (first = []))
      then first ++ lit " ..."
      else first
  end.

Definition TICK : char := 39%N.

(** [codex-rs/core/src/web_search.rs:18-30 web_search_action_detail] *)
Definition web_search_action_detail (action : WebSearchAction) : str :=
  match action with
  | Search_ query queries => search_action_detail query queries
  | OpenPage url => match url with Some url => url | None => [] end
  | FindInPage url pattern =>
      match pattern, url with
      | Some pattern, Some url => [TICK] ++ pattern ++ [TICK] ++ lit " in " ++ url
      | Some pattern, None => [TICK] ++ pattern ++ [TICK]
      | None, Some url => url
      | None, None => []
      end
  | OtherAction => []
  end.

(** [codex-rs/core/src/web_search.rs:32-39 web_search_detail] *)
Definition web_search_detail (action : option WebSearchAction) (query : str) : str :=
  match (match action with Some action => web_search_action_detail action | None => [] end) with
  | [] => query
  | detail => detail
  end.

Section parse.
Context (from_xml_str : str -> option (str * str)).
(** A fresh UUID. *)
Context (new_id : str).

Definition is_input_image (item : option ContentItem) : bool :=
  match item with Some (InputImage _ _) => true | _ => false end.

(** [codex-rs/core/src/event_mapping.rs:76-102 parse_user_message] [prev] is the content item before. *)
Fixpoint parse_user_content (prev : option ContentItem) (message : list ContentItem) : list UserInput :=
  match message with
  | [] => []
  | InputText text as item :: rest =>
      if ((is_local_image_open_tag_text text || is_image_open_tag_text text) && is_input_image (head rest))
         || ((is_local_image_close_tag_text text || is_image_close_tag_text text) && is_input_image prev)
      then parse_user_content (Some item) rest
      else TextInput text [] :: parse_user_content (Some item) rest
  | InputImage image_url detail as item :: rest => ImageInput image_url detail :: parse_user_content (Some item) rest
  | OutputText _ as item :: rest => parse_user_content (Some item) rest
  end.

(** [codex-rs/core/src/event_mapping.rs:69-106 parse_user_message] *)
Definition parse_user_message (message : list ContentItem) : option UserMessageItem :=
  if is_contextual_user_message_content from_xml_str message then None
  else Some (UserMessageOf new_id None (parse_user_content None message)).

(** [codex-rs/core/src/event_mapping.rs:108-134 parse_agent_message] *)
Definition parse_agent_message (id : option str) (message : list ContentItem) (phase : option MessagePhase)
    : AgentMessageItem :=
  AgentMessageOf (match id with Some id => id | None => new_id end)
    (omap (fun c => match c with InputText text | OutputText text => Some text | InputImage _ _ => None end) message)
    phase.

(** [codex-rs/core/src/context/contextual_user_message.rs:77-91 parse_visible_hook_prompt_message] *)
Fixpoint hook_fragments (content : list ContentItem) : option (list (str * str)) :=
  match content with
  | [] => Some []
  | InputText text :: content =>
      match parse_hook_prompt_fragment from_xml_str text with
      | Some fragment => cons fragment <$> hook_fragments content
      | None => if is_standard_contextual_user_text text then hook_fragments content else None
      end
  | _ :: _ => None
  end.

(** [codex-rs/core/src/context/contextual_user_message.rs:73-98 parse_visible_hook_prompt_message] *)
Definition parse_visible_hook_prompt_message (id : option str) (content : list ContentItem) : option HookPromptItem :=
  fragments ← hook_fragments content;
  match fragments with
  | [] => None
  | _ => Some (HookPromptOf (match id with Some id => id | None => new_id end) fragments)
  end.

(** [codex-rs/core/src/event_mapping.rs:136-210 parse_turn_item] *)
Definition parse_turn_item (item : ResponseItem) : option TurnItem :=
  match item with
  | Message id role content phase =>
      if bool_decide (role = lit "user") then
        match THookPrompt <$> parse_visible_hook_prompt_message id content with
        | Some item => Some item
        | None => TUserMessage <$> parse_user_message content
        end
      else if bool_decide (role = lit "assistant") then Some (TAgentMessage (parse_agent_message id content phase))
      else None
  | Reasoning id summary content _ =>
      let summary_text := map (fun entry => match entry with SummaryText text => text end) summary in
      let raw_content := map (fun entry => match entry with ReasoningText text | ReasoningPlain text => text end)
                           (match content with Some content => content | None => [] end) in
      Some (TReasoning (ReasoningOf id summary_text raw_content))
  | WebSearchCall id _ action =>
      let (action, query) :=
        match action with
        | Some action => (action, web_search_action_detail action)
        | None => (OtherAction, [])
        end in
      Some (TWebSearch (WebSearchOf (match id with Some id => id | None => [] end) query action))
  | ImageGenerationCall id status revised_prompt result =>
      Some (TImageGeneration (ImageGenerationOf id status revised_prompt result None))
  | _ => None
  end.
End parse.

(** ** What is read back *)

(** A text that looks like the tag of an image. *)
Definition image_tag_text (text : str) : bool :=
  is_local_image_open_tag_text text || is_image_open_tag_text text || is_image_close_tag_text text.

Lemma open_tag_is_tag n path : is_local_image_open_tag_text (local_image_open_tag_text_with_path n path) = true.
Proof.
  unfold is_local_image_open_tag_text, local_image_open_tag_text_with_path. rewrite strip_prefix_app.
  cbn [is_some_and]. rewrite !app_assoc. unfold ends_with.
  by rewrite (proj2 (strip_suffix_Some LOCAL_IMAGE_OPEN_TAG_SUFFIX _ _) eq_refl).
Qed.

Lemma close_tag_is_tag : is_image_close_tag_text LOCAL_IMAGE_CLOSE_TAG = true.
Proof. by apply bool_decide_eq_true_2. Qed.

(** What the user sent, as the turn item shows it. *)
Section received.
Context (fs_read : str -> list N + str).
Context (load_for_prompt_bytes : str -> list N -> PromptImageMode -> str + ImageProcessingError).

Definition shown_text (item : ContentItem) : UserInput :=
  match item with
  | InputText text | OutputText text => TextInput text []
  | InputImage url detail => ImageInput url detail
  end.

Definition received (input : UserInput) : list UserInput :=
  match input with
  | TextInput text _ => [TextInput text []]
  | ImageInput url detail => [ImageInput url (Some (detail_or_default detail))]
  | LocalImageInput path detail =>
      let detail := detail_or_default detail in
      [match fs_read path with
       | inr err => shown_text (local_image_error_placeholder path err)
       | inl file_bytes =>
           match load_for_prompt_bytes path file_bytes
                   (match detail with Original => OriginalMode | _ => ResizeToFit end) with
           | inl url => ImageInput url (Some detail)
           | inr err => shown_text (image_error_item path err)
           end
       end]
  | SkillInput _ _ | MentionInput _ _ => []
  end.

Definition plain_input (input : UserInput) : Prop :=
  match input with TextInput text _ => image_tag_text text = false | _ => True end.

Lemma plain_text_read text prev rest :
  image_tag_text text = false ->
  parse_user_content prev (InputText text :: rest) = TextInput text [] :: parse_user_content (Some (InputText text)) rest.
Proof.
  unfold image_tag_text. intros [[H1 H2]%orb_false_iff H3]%orb_false_iff. cbn [parse_user_content].
  unfold is_local_image_close_tag_text. by rewrite H1, H2, H3.
Qed.

Lemma error_item_plain item path err :
  item = local_image_error_placeholder path err \/ (exists e, item = image_error_item path e) ->
  exists text, item = InputText text /\ image_tag_text text = false.
Proof.
  assert (forall c s, c <> 60%N -> image_tag_text (c :: s) = false) as Hc.
  { intros c s Hc. unfold image_tag_text, is_local_image_open_tag_text, is_image_open_tag_text, is_image_close_tag_text.
    rewrite !bool_decide_eq_false_2 by (vm_compute; congruence).
    change LOCAL_IMAGE_OPEN_TAG_PREFIX with (60%N :: lit "image name="). unfold strip_prefix at 1.
    destruct (N.eqb_spec 60 c); [by subst c|reflexivity]. }
  intros [-> | [[e|[] e|e|mime e] ->]]; cbn; (eexists; split; [reflexivity|]); by apply Hc.
Qed.

Lemma input_read inputs image_index prev :
  Forall plain_input inputs ->
  parse_user_content prev (input_content fs_read load_for_prompt_bytes image_index inputs) = flat_map received inputs.
Proof.
  intros Hp. revert image_index prev. induction Hp as [|input inputs Hin _ IH]; intros image_index prev; [done|].
  assert (forall item, (exists text, item = InputText text /\ image_tag_text text = false) -> forall rest,
    parse_user_content prev ([item] ++ rest) = shown_text item :: parse_user_content (Some item) rest) as Herr.
  { intros ? (text & -> & Ht) rest. by apply plain_text_read. }
  destruct input as [text elems|url detail|path detail|name path|name path]; cbn [input_content flat_map received].
  - rewrite plain_text_read by done. by rewrite IH.
  - cbn [parse_user_content app]. by rewrite IH.
  - destruct (fs_read path) as [bytes|err].
    2: { rewrite Herr by (eapply (error_item_plain _ path err); by left). by rewrite IH. }
    unfold local_image_content_items_with_label_number. set (d := detail_or_default detail).
    destruct (load_for_prompt_bytes path bytes _) as [url|err].
    + rewrite <- !app_assoc. cbn [app parse_user_content head is_input_image].
      rewrite open_tag_is_tag, close_tag_is_tag. unfold is_local_image_close_tag_text.
      rewrite close_tag_is_tag. cbn [orb andb]. rewrite orb_true_r. by rewrite IH.
    + rewrite Herr by (eapply (error_item_plain _ path []); right; by eexists). by rewrite IH.
  - apply IH.
  - apply IH.
Qed.
End received.

(** A message of the user is read as a user message exactly when none of its content is injected context. *)
Lemma user_message_iff from_xml_str new_id item :
  (exists m, parse_turn_item from_xml_str new_id item = Some (TUserMessage m)) <->
  exists id content phase, item = Message id (lit "user") content phase /\
    is_contextual_user_message_content from_xml_str content = false.
Proof.
  split.
  - intros [m H]. destruct item as [id role content phase| | | | | | | | | |? ? [?|]| | | | |]; try done. cbn [parse_turn_item] in H.
    destruct (bool_decide_reflect (role = lit "user")) as [->|]; [|by destruct (bool_decide (role = lit "assistant"))].
    exists id, content, phase. split; [done|]. unfold parse_user_message in H.
    destruct (parse_visible_hook_prompt_message _ _ id content); [done|]. cbn [fmap option_fmap option_map] in H.
    by destruct (is_contextual_user_message_content from_xml_str content).
  - intros (id & content & phase & -> & Hc). cbn [parse_turn_item]. rewrite bool_decide_eq_true_2 by done.
    unfold parse_user_message. rewrite Hc.
    assert (parse_visible_hook_prompt_message from_xml_str new_id id content = None) as ->; [|by eexists].
    unfold parse_visible_hook_prompt_message. destruct content as [|[text|?|?] content]; try done.
    cbn [is_contextual_user_message_content existsb is_contextual_user_fragment] in Hc.
    apply orb_false_iff in Hc as [[Hf Hs]%orb_false_iff _]. cbn [hook_fragments].
    destruct (parse_hook_prompt_fragment from_xml_str text); [done|]. by rewrite Hs.
Qed.

(** The input of a user survives the conversation.  When nothing in the message is taken for injected
    context and no text of the user is itself an image tag, the turn item read from the message holds the
    user's texts and images in order, each image with its detail or the default; the tags around a local
    image are gone, and an image that could not be attached is the text that says so. *)
Theorem user_input_read_back from_xml_str new_id fs_read load inputs :
  Forall plain_input inputs ->
  is_contextual_user_message_content from_xml_str (input_content fs_read load 0 inputs) = false ->
  parse_turn_item from_xml_str new_id (user_input_item fs_read load inputs) =
    Some (TUserMessage (UserMessageOf new_id None (flat_map (received fs_read load) inputs))).
Proof.
  intros Hp Hc. destruct (proj2 (user_message_iff from_xml_str new_id (user_input_item fs_read load inputs))) as [m Hm].
  { by eexists _, _, _. }
  rewrite Hm. do 2 f_equal. unfold user_input_item in Hm. cbn [parse_turn_item] in Hm.
  rewrite bool_decide_eq_true_2 in Hm by done. unfold parse_user_message in Hm. rewrite Hc in Hm.
  destruct (parse_visible_hook_prompt_message _ _ _ _); [done|]. cbn in Hm. injection Hm as <-. by rewrite input_read.
Qed.

Lemma user_input_read_back_witness :
  parse_turn_item (fun _ => None) (lit "id")
    (user_input_item (fun p => if bool_decide (p = lit "a.png") then inl [1%N] else inr (lit "missing"))
       (fun _ _ _ => inl (lit "data:x"))
       [TextInput (lit "look") []; LocalImageInput (lit "a.png") None; SkillInput [] []; LocalImageInput (lit "b.png") (Some Low)])
  = Some (TUserMessage (UserMessageOf (lit "id") None
      [TextInput (lit "look") []; ImageInput (lit "data:x") (Some High);
       shown_text (local_image_error_placeholder (lit "b.png") (lit "missing"))])).
Proof.
  rewrite user_input_read_back.
  - vm_compute. reflexivity.
  - repeat constructor.
  - vm_compute. reflexivity.
Defined.

Definition input_text (c : UserInput) : str := match c with TextInput text _ => text | _ => [] end.

Lemma join_nil ls : join [] ls = concat ls.
Proof. induction ls as [|a [|b ls] IH]; [done|by cbn; rewrite app_nil_r|]. cbn [join] in *. by rewrite IH. Qed.

Lemma get_range_app s a b mid pre post :
  get_range s a b = Some mid -> get_range (pre ++ s ++ post) (str_len pre + a) (str_len pre + b) = Some mid.
Proof.
  unfold get_range. destruct (N.ltb_spec b a) as [|Hab]; [done|]. intros H.
  destruct (split_at_byte s a) as [[l rest]|] eqn:E1; [|done]. cbn in H.
  destruct (split_at_byte rest (b - a)) as [[m r]|] eqn:E2; [|done]. cbn in H. injection H as ->.
  apply split_at_byte_Some in E1 as [-> ->]. apply split_at_byte_Some in E2 as [-> E2].
  rewrite (proj2 (N.ltb_ge _ _)) by lia.
  replace (pre ++ (l ++ mid ++ r) ++ post) with ((pre ++ l) ++ mid ++ r ++ post) by (by rewrite <- !app_assoc).
  rewrite <- str_len_app, split_at_byte_app. cbn.
  replace (str_len pre + b - str_len (pre ++ l))%N with (str_len mid) by (rewrite str_len_app; lia).
  by rewrite split_at_byte_app.
Qed.

(** The ranges of a legacy user message event, which are relative to the joined text, mark what the ranges of
    the input marked in their own chunk. *)
Lemma elements_rebased self pre text elems post elem mid :
  allocatable (message self) -> um_content self = pre ++ TextInput text elems :: post -> elem ∈ elems ->
  get_range text (start (byte_range elem)) (end_ (byte_range elem)) = Some mid ->
  exists elem', elem' ∈ ue_text_elements (as_legacy_event self) /\
    placeholder elem' (message self) = placeholder elem text /\
    get_range (ue_message (as_legacy_event self)) (start (byte_range elem')) (end_ (byte_range elem')) = Some mid.
Proof.
  cbn [as_legacy_event ue_text_elements ue_message]. unfold text_elements.
  intros Ha Hc Hin Hr.
  assert (message self = concat (map input_text pre) ++ text ++ concat (map input_text post)) as Hm.
  { unfold message. rewrite join_nil, Hc. change (fun c => _) with input_text.
    by rewrite map_app, concat_app. }
  assert (str_len (concat (map input_text pre)) + str_len text <= isize_max)%N as Hle.
  { unfold allocatable in Ha. rewrite Hm, !str_len_app in Ha. lia. }
  assert (forall off, (off + str_len (concat (map input_text pre)) <= isize_max)%N ->
    rebase_element (off + str_len (concat (map input_text pre))) text elem ∈ text_elements_loop off (um_content self)) as Hl.
  { rewrite Hc. clear -Hin. induction pre as [|c pre IH]; intros off Ho.
    - cbn [app text_elements_loop map concat]. rewrite str_len_nil, N.add_0_r. apply elem_of_app. left.
      by apply list_elem_of_fmap_2.
    - cbn [app text_elements_loop map concat] in *. rewrite str_len_app in Ho |- *.
      destruct c as [t e|?|?|?|?]; cbn [input_text] in *; try (rewrite str_len_nil in *; by apply IH).
      apply elem_of_app. right. replace (usize_wrapping_add off (str_len t)) with (off + str_len t)%N.
      + rewrite N.add_assoc. apply IH. lia.
      + unfold usize_wrapping_add. rewrite N.mod_small; [done|]. unfold isize_max in Ho. lia. }
  specialize (Hl 0%N ltac:(lia)). rewrite N.add_0_l in Hl.
  eexists. split; [exact Hl|]. cbn [rebase_element byte_range start end_].
  assert (end_ (byte_range elem) <= str_len text /\ start (byte_range elem) <= str_len text)%N as [He Hs].
  { revert Hr. unfold get_range. destruct (N.ltb_spec (end_ (byte_range elem)) (start (byte_range elem))) as [|Hab]; [done|].
    destruct (split_at_byte text _) as [[l rest]|] eqn:E1; [|done]. cbn.
    destruct (split_at_byte rest _) as [[m r]|] eqn:E2; [|done]. intros _.
    apply split_at_byte_Some in E1 as [-> E1]. apply split_at_byte_Some in E2 as [-> E2].
    rewrite !str_len_app. lia. }
  unfold usize_wrapping_add. rewrite !N.mod_small by (unfold isize_max in Hle; lia). split.
  - unfold placeholder at 1, rebase_element. cbn [placeholder_]. unfold placeholder. by rewrite Hr; destruct (placeholder_ elem).
  - rewrite Hm. by apply get_range_app.
Qed.

End TurnItems.
