(* ===== verification/Compaction.v ===== *)
(** * Compacting a history: core/src/compact.rs, core/src/compact_remote.rs, core/src/compact_remote_v2.rs

    The functions that build the history left after a compaction: the user's newest messages within a budget of
    tokens followed by the summary, where the session's context goes back in, what is kept of a transcript
    compacted by the server, and how a request for one is made to fit the context window.  The requests
    themselves are in [CompactTask].  The JSON of tools is a parameter, as are the XML parser of hook prompts and a
    fresh UUID (see [ContextFragments] and [TurnItems]). *)

From S2P Require Import Prelude Text Truncate HiddenTags TaggedLines ResponseItems ContextFragments OutputTruncation.
From S2P Require Import History HistoryTokens TurnItems.
From Stdlib Require Import ZifyBool ZifyN ZifyNat.

Module Compaction.
Import Truncate ResponseItems ContextFragments OutputTruncation History HistoryTokens TurnItems.

(** [codex-rs/core/src/compact.rs:52-52 COMPACT_USER_MESSAGE_MAX_TOKENS] *)
Definition COMPACT_USER_MESSAGE_MAX_TOKENS : N := 20000.

(** [codex-rs/prompts/src/compact.rs:2-2 SUMMARY_PREFIX] the text of prompts/templates/compact/summary_prefix.md. *)
Definition SUMMARY_PREFIX : str := lit "Another language model started to solve this problem and produced a summary of its thinking process. You also have access to the state of the tools that were used by that language model. Use this to build on the work that has already been done and avoid duplicating work. Here is the summary produced by the other language model, use the information in this summary to assist with your own analysis:".

(** [codex-rs/core/src/compact.rs:64-67 InitialContextInjection] *)
Inductive InitialContextInjection := BeforeLastUserMessage | DoNotInject.

(** ** Texts of items *)

(** [codex-rs/core/src/compact.rs:405-422 content_items_to_text] *)
Definition content_items_to_text (content : list ContentItem) : option str :=
  let pieces :=
    omap (fun item => match item with
                      | InputText text | OutputText text => match text with [] => None | _ => Some text end
                      | InputImage _ _ => None
                      end) content in
  match pieces with [] => None | _ => Some (join [NL] pieces) end.

(** [codex-rs/core/src/compact.rs:440-442 is_summary_message] *)
Definition is_summary_message (message : str) : bool := starts_with (SUMMARY_PREFIX ++ [NL]) message.

(** [codex-rs/core/src/stream_events_utils.rs:95-109 raw_assistant_output_text_from_item] *)
Definition raw_assistant_output_text_from_item (item : ResponseItem) : option str :=
  match item with
  | Message _ role content _ =>
      if bool_decide (role = lit "assistant")
      then Some (concat (omap (fun ci => match ci with OutputText text => Some text | _ => None end) content))
      else None
  | _ => None
  end.

(** [codex-rs/core/src/stream_events_utils.rs:70-77 strip_hidden_assistant_markup] *)
Definition strip_hidden_assistant_markup (text : str) (plan_mode : bool) : option str :=
  '(without_citations, _) ← HiddenTags.HiddenTags.strip_citations text;
  Some (if plan_mode then TaggedLines.TaggedLines.strip_proposed_plan_blocks without_citations else without_citations).

(** [codex-rs/core/src/stream_events_utils.rs:674-689 last_assistant_message_from_item] The outer option is a panic. *)
Definition last_assistant_message_from_item (item : ResponseItem) (plan_mode : bool) : option (option str) :=
  match raw_assistant_output_text_from_item item with
  | Some combined =>
      match combined with
      | [] => Some None
      | _ =>
          stripped ← strip_hidden_assistant_markup combined plan_mode;
          Some (match trim stripped with [] => None | _ => Some stripped end)
      end
  | None => Some None
  end.

(** [codex-rs/core/src/session/turn.rs:2678-2683 get_last_assistant_message_from_turn] The items come in reverse. *)
Fixpoint last_assistant_loop (rev_responses : list ResponseItem) : option (option str) :=
  match rev_responses with
  | [] => Some None
  | item :: rest =>
      found ← last_assistant_message_from_item item false;
      match found with Some message => Some (Some message) | None => last_assistant_loop rest end
  end.
(** [codex-rs/core/src/session/turn.rs:2677-2684 get_last_assistant_message_from_turn] *)
Definition get_last_assistant_message_from_turn (responses : list ResponseItem) : option (option str) :=
  last_assistant_loop (rev responses).

(** ** The compacted history *)

(** A message of the user with one text. *)
Definition user_text (text : str) : ResponseItem := Message None (lit "user") [InputText text] None.

(** [codex-rs/core/src/compact.rs:523-536 build_compacted_history_with_limit] the newest message first. *)
Fixpoint select_messages (remaining : N) (rev_messages : list str) : option (list str) :=
  match rev_messages with
  | [] => Some []
  | message :: rest =>
      if (remaining =? 0)%N then Some []
      else
        let tokens := approx_token_count message in
        if (tokens <=? remaining)%N then cons message <$> select_messages (saturating_sub remaining tokens) rest
        else truncated ← truncate_text message (Tokens remaining); Some [truncated]
  end.

(** [codex-rs/core/src/compact.rs:514-565 build_compacted_history_with_limit] *)
Definition build_compacted_history_with_limit (history : list ResponseItem) (user_messages : list str) (summary_text : str)
    (max_tokens : N) : option (list ResponseItem) :=
  selected_messages ← (if (0 <? max_tokens)%N then @rev _ <$> select_messages max_tokens (rev user_messages) else Some []);
  let history := history ++ map user_text selected_messages in
  let summary_text := match summary_text with [] => lit "(no summary available)" | _ => summary_text end in
  Some (history ++ [user_text summary_text]).

(** [codex-rs/core/src/compact.rs:501-512 build_compacted_history] *)
Definition build_compacted_history (initial_context : list ResponseItem) (user_messages : list str) (summary_text : str)
    : option (list ResponseItem) :=
  build_compacted_history_with_limit initial_context user_messages summary_text COMPACT_USER_MESSAGE_MAX_TOKENS.

Section parse.
Context (from_xml_str : str -> option (str * str)) (new_id : str).

(** The text of a message of the user. *)
Definition user_message_text (item : ResponseItem) : option str :=
  match parse_turn_item from_xml_str new_id item with Some (TUserMessage user) => Some (message user) | _ => None end.

(** [codex-rs/core/src/compact.rs:424-438 collect_user_messages] *)
Definition collect_user_messages (items : list ResponseItem) : list str :=
  omap (fun item => match user_message_text item with
                    | Some text => if is_summary_message text then None else Some text
                    | None => None
                    end) items.

(** [codex-rs/core/src/compact.rs:458-472 insert_initial_context_before_last_real_user_or_summary] [items] is what is
    before the last item looked at, in reverse; the state is [(last_user_or_summary_index, last_real_user_index)]. *)
Fixpoint scan_last_user (rev_items : list ResponseItem) (last_user_or_summary : option nat) : option nat * option nat :=
  match rev_items with
  | [] => (last_user_or_summary, None)
  | item :: rest =>
      let i := length rest in
      match user_message_text item with
      | None => scan_last_user rest last_user_or_summary
      | Some text =>
          let last_user_or_summary := match last_user_or_summary with Some j => Some j | None => Some i end in
          if negb (is_summary_message text) then (last_user_or_summary, Some i)
          else scan_last_user rest last_user_or_summary
      end
  end.

Definition is_compaction_item (item : ResponseItem) : bool :=
  match item with Compaction _ | ContextCompaction _ => true | _ => false end.

Definition or_else {A} (a b : option A) : option A := match a with Some _ => a | None => b end.

(** [codex-rs/core/src/compact.rs:454-499 insert_initial_context_before_last_real_user_or_summary] *)
Definition insert_initial_context_before_last_real_user_or_summary (compacted_history initial_context : list ResponseItem)
    : list ResponseItem :=
  let (last_user_or_summary_index, last_real_user_index) := scan_last_user (rev compacted_history) None in
  let last_compaction_index := rposition is_compaction_item compacted_history in
  let insertion_index := or_else (or_else last_real_user_index last_user_or_summary_index) last_compaction_index in
  match insertion_index with
  | Some i => take i compacted_history ++ initial_context ++ drop i compacted_history
  | None => compacted_history ++ initial_context
  end.

(** ** Transcripts compacted by the server *)

(** [codex-rs/core/src/compact_remote.rs:457-483 should_keep_compacted_history_item] *)
Definition should_keep_compacted_history_item (item : ResponseItem) : bool :=
  match item with
  | Message _ role _ _ =>
      if bool_decide (role = lit "developer") then false
      else if bool_decide (role = lit "user") then
        match parse_turn_item from_xml_str new_id item with
        | Some (TUserMessage _) | Some (THookPrompt _) => true
        | _ => false
        end
      else bool_decide (role = lit "assistant")
  | AgentMessage _ _ _ => true
  | Compaction _ | ContextCompaction _ => true
  | _ => false
  end.

(** [codex-rs/core/src/compact_remote.rs:419-439 process_compacted_history] [initial_context] is what
    [build_initial_context] gives. *)
Definition process_compacted_history (compacted_history initial_context : list ResponseItem)
    (initial_context_injection : InitialContextInjection) : list ResponseItem :=
  let initial_context := match initial_context_injection with BeforeLastUserMessage => initial_context | DoNotInject => [] end in
  insert_initial_context_before_last_real_user_or_summary
    (List.filter should_keep_compacted_history_item compacted_history) initial_context.

(** [codex-rs/core/src/compact_remote_v2.rs:57-57 RETAINED_MESSAGE_TOKEN_BUDGET] *)
Definition RETAINED_MESSAGE_TOKEN_BUDGET : N := 64000.

(** [codex-rs/core/src/compact_remote_v2.rs:618-624 is_retained_for_remote_compaction_v2] *)
Definition is_retained_for_remote_compaction_v2 (item : ResponseItem) : bool :=
  match item with
  | Message _ role _ _ =>
      bool_decide (role = lit "user") || bool_decide (role = lit "developer") || bool_decide (role = lit "system")
  | _ => false
  end.

Definition content_text (c : ContentItem) : option str :=
  match c with InputText text | OutputText text => Some text | InputImage _ _ => None end.

(** [codex-rs/core/src/compact_remote_v2.rs:652-666 message_text_token_count] *)
Definition message_text_token_count (item : ResponseItem) : N :=
  match item with
  | Message _ _ content _ =>
      fold_left usize_wrapping_add
        (map (fun c => match content_text c with Some text => approx_token_count text | None => 0%N end) content) 0%N
  | _ => 0%N
  end.

Definition set_text (c : ContentItem) (text : str) : ContentItem :=
  match c with InputText _ => InputText text | OutputText _ => OutputText text | InputImage _ _ => c end.

(** [codex-rs/core/src/compact_remote_v2.rs:682-704 truncate_message_text_to_token_budget] *)
Fixpoint truncate_content (remaining : N) (content : list ContentItem) : option (list ContentItem) :=
  match content with
  | [] => Some []
  | content_item :: content =>
      match content_text content_item with
      | None => cons content_item <$> truncate_content remaining content
      | Some text =>
          if (remaining =? 0)%N then truncate_content remaining content
          else
            let token_count := approx_token_count text in
            '(text, remaining) ←
              (if (token_count <=? remaining)%N then Some (text, saturating_sub remaining token_count)
               else truncated ← truncate_text text (Tokens remaining); Some (truncated, 0%N));
            rest ← truncate_content remaining content;
            Some (match text with [] => rest | _ => set_text content_item text :: rest end)
      end
  end.

(** [codex-rs/core/src/compact_remote_v2.rs:668-716 truncate_message_text_to_token_budget] The outer option is a panic. *)
Definition truncate_message_text_to_token_budget (item : ResponseItem) (max_tokens : N) : option (option ResponseItem) :=
  match item with
  | Message id role content phase =>
      truncated_content ← truncate_content max_tokens content;
      Some (match truncated_content with [] => None | _ => Some (Message id role truncated_content phase) end)
  | _ => Some (Some item)
  end.

(** [codex-rs/core/src/compact_remote_v2.rs:632-647 truncate_retained_messages_for_remote_compaction] the newest first. *)
Fixpoint truncate_retained_loop (remaining : N) (rev_items : list ResponseItem) : option (list ResponseItem) :=
  match rev_items with
  | [] => Some []
  | item :: rest =>
      if (remaining =? 0)%N then truncate_retained_loop remaining rest
      else
        let token_count := N.max (message_text_token_count item) 1 in
        if (token_count <=? remaining)%N
        then cons item <$> truncate_retained_loop (saturating_sub remaining token_count) rest
        else
          truncated ← truncate_message_text_to_token_budget item remaining;
          match truncated with
          | Some truncated_item => cons truncated_item <$> truncate_retained_loop 0 rest
          | None => truncate_retained_loop remaining rest
          end
  end.

(** [codex-rs/core/src/compact_remote_v2.rs:626-650 truncate_retained_messages_for_remote_compaction] *)
Definition truncate_retained_messages_for_remote_compaction (items : list ResponseItem) (max_tokens : N)
    : option (list ResponseItem) :=
  @rev _ <$> truncate_retained_loop max_tokens (rev items).

(** [codex-rs/core/src/compact_remote_v2.rs:602-616 build_v2_compacted_history] *)
Definition build_v2_compacted_history (prompt_input : list ResponseItem) (compaction_output : ResponseItem)
    : option (list ResponseItem) :=
  let retained := List.filter should_keep_compacted_history_item (List.filter is_retained_for_remote_compaction_v2 prompt_input) in
  retained ← truncate_retained_messages_for_remote_compaction retained RETAINED_MESSAGE_TOKEN_BUDGET;
  Some (retained ++ [compaction_output]).
End parse.

(** ** Making the request fit *)

(** [codex-rs/core/src/compact_remote.rs:48-49 CONTEXT_WINDOW_TRUNCATED_OUTPUT_MESSAGE] *)
Definition CONTEXT_WINDOW_TRUNCATED_OUTPUT_MESSAGE : str :=
  lit "Output exceeded the available model context and was truncated".

(** [codex-rs/core/src/compact_remote.rs:694-699 truncated_output_payload] *)
Definition truncated_output_payload (output : FunctionCallOutputPayload) : FunctionCallOutputPayload :=
  Payload (BodyText CONTEXT_WINDOW_TRUNCATED_OUTPUT_MESSAGE) (success output).

(** [codex-rs/core/src/compact_remote.rs:664-692 rewritten_output_for_context_window] *)
Definition rewritten_output_for_context_window (item : ResponseItem) : option ResponseItem :=
  match item with
  | FunctionCallOutput call_id output => Some (FunctionCallOutput call_id (truncated_output_payload output))
  | CustomToolCallOutput call_id name output => Some (CustomToolCallOutput call_id name (truncated_output_payload output))
  | ToolSearchOutput call_id status execution _ => Some (ToolSearchOutput call_id status execution [])
  | _ => None
  end.

(** [codex-rs/core/src/compact_remote.rs:572-572 COMPACT_REQUEST_OUTPUT_RESERVE_DIVISOR] *)
Definition COMPACT_REQUEST_OUTPUT_RESERVE_DIVISOR : Z := 10.

(** [codex-rs/core/src/compact_remote.rs:581-586 estimate_tool_spec_tokens] given the size of the tools' JSON. *)
Definition estimate_tool_spec_tokens (tools_json_len : option N) : Z :=
  approx_tokens_from_byte_count_i64 (match tools_json_len with Some n => i64_of n | None => 0%Z end).

Section fit.
Context {TurnContext : Type}.
Context (json_len : ResponseItem -> option N) (image_dims : str -> option (N * N)).
Abbreviation Manager_ := (ContextManager TokenUsageInfo TurnContext).

Abbreviation estimate := (estimate_token_count_with_base_instructions json_len image_dims).

(** [codex-rs/core/src/compact_remote.rs:538-563 trim_function_call_history_to_fit_context_window] *)
Fixpoint trim_loop (context_window : Z) (base_instructions : str) (index : nat) (history : Manager_)
    (rewritten_outputs : N) (estimated_deleted_tokens : Z) : Manager_ * (N * Z) :=
  match index with
  | 0 => (history, (rewritten_outputs, estimated_deleted_tokens))
  | S index =>
      match estimate history base_instructions with
      | None => (history, (rewritten_outputs, estimated_deleted_tokens))
      | Some estimated_tokens_before =>
          if (estimated_tokens_before <=? context_window)%Z then (history, (rewritten_outputs, estimated_deleted_tokens))
          else
            match (item ← items history !! index; rewritten_output_for_context_window item) with
            | None => (history, (rewritten_outputs, estimated_deleted_tokens))
            | Some rewritten_item =>
                let history := replace history (<[index := rewritten_item]> (items history)) in
                let estimated_tokens_after :=
                  match estimate history base_instructions with Some n => n | None => 0%Z end in
                trim_loop context_window base_instructions index history (rewritten_outputs + 1)%N
                  (i64_add estimated_deleted_tokens (i64_sub estimated_tokens_before estimated_tokens_after))
            end
      end
  end.

(** [codex-rs/core/src/compact_remote.rs:526-566 trim_function_call_history_to_fit_context_window] *)
Definition trim_function_call_history_to_fit_context_window (history : Manager_) (model_context_window : option Z)
    (base_instructions : str) : Manager_ * (N * Z) :=
  match model_context_window with
  | None => (history, (0%N, 0%Z))
  | Some context_window => trim_loop context_window base_instructions (length (items history)) history 0%N 0%Z
  end.

(** [codex-rs/core/src/compact_remote.rs:632-649 drop_oldest_history_to_fit_context_window] [fuel] is the number of
    rounds, each of which shortens the history. *)
Fixpoint drop_loop (fuel : nat) (budget : Z) (base_instructions : str) (history : Manager_) (dropped : N) : Manager_ * N :=
  match fuel with
  | 0 => (history, dropped)
  | S fuel =>
      if negb (1 <? length (items history)) then (history, dropped)
      else
        match estimate history base_instructions with
        | None => (history, dropped)
        | Some estimated =>
            if (estimated <=? budget)%Z then (history, dropped)
            else
              let before := length (items history) in
              let history := remove_first_item history in
              let after := length (items history) in
              if before <=? after then (history, dropped)
              else drop_loop fuel budget base_instructions history (saturating_add dropped (N.of_nat (before - after)))
        end
  end.

(** [codex-rs/core/src/compact_remote.rs:616-619 drop_oldest_history_to_fit_context_window] [/] rounds to zero. *)
Definition request_budget (context_window request_tool_tokens : Z) : Z :=
  let output_reserve := Z.max (Z.quot context_window COMPACT_REQUEST_OUTPUT_RESERVE_DIVISOR) 0 in
  i64_sub (i64_sub context_window (Z.max request_tool_tokens 0)) output_reserve.

(** [codex-rs/core/src/compact_remote.rs:607-662 drop_oldest_history_to_fit_context_window] *)
Definition drop_oldest_history_to_fit_context_window (history : Manager_) (model_context_window : option Z)
    (base_instructions : str) (request_tool_tokens : Z) : Manager_ * N :=
  match model_context_window with
  | None => (history, 0%N)
  | Some context_window =>
      let budget := request_budget context_window request_tool_tokens in
      let base_tokens := i64_of (approx_token_count base_instructions) in
      if ((budget <=? 0) || (budget <=? base_tokens))%Z then (history, 0%N)
      else drop_loop (length (items history)) budget base_instructions history 0%N
  end.

(** [codex-rs/core/src/compact_remote.rs:318-359 run_remote_compact_attempt] the input of the request, made from a
    copy of the session's history, with the history it came from. *)
Definition prepare_compact_request (debug_assertions : bool) (history : Manager_) (model_context_window : option Z)
    (base_instructions : str) (tools_json_len : option N) (input_modalities : list InputModality)
    : option (Manager_ * list ResponseItem) :=
  let (history, _) := trim_function_call_history_to_fit_context_window history model_context_window base_instructions in
  let (history, _) :=
    drop_oldest_history_to_fit_context_window history model_context_window base_instructions
      (estimate_tool_spec_tokens tools_json_len) in
  prompt_input ← for_prompt debug_assertions history input_modalities;
  Some (history, prompt_input).
End fit.

(** ** The newest within a budget *)

Section newest.
Context {A : Type} (cost : A -> N) (shorten : N -> A -> A -> Prop).

Definition total_cost (l : list A) : N := foldr (fun x n => (cost x + n)%N) 0%N l.

(** Going from the newest: keep what fits, cut the first that does not, and stop. *)
Inductive takes_newest : N -> list A -> list A -> Prop :=
| takes_nil b : takes_newest b [] []
| takes_spent l : takes_newest 0 l []
| takes_keep b x l r :
    (0 < b)%N -> (cost x <= b)%N -> takes_newest (b - cost x) l r -> takes_newest b (x :: l) (x :: r)
| takes_cut b x y l : (0 < b < cost x)%N -> shorten b x y -> takes_newest b (x :: l) [y].

(** [r] is the newest part of [l] within the budget: as many whole elements as fit and, if some budget is left
    over, the one before them shortened to it. *)
Definition newest_within (budget : N) (l r : list A) : Prop :=
  exists dropped kept, (total_cost kept <= budget)%N /\
    ((l = dropped ++ kept /\ r = kept /\ (dropped = [] \/ total_cost kept = budget)) \/
     (exists x y, l = dropped ++ x :: kept /\ r = y :: kept /\
        (0 < budget - total_cost kept < cost x)%N /\ shorten (budget - total_cost kept) x y)).

Lemma total_cost_cons x l : total_cost (x :: l) = (cost x + total_cost l)%N.
Proof. done. Qed.

Lemma total_cost_app a b : total_cost (a ++ b) = (total_cost a + total_cost b)%N.
Proof. induction a as [|x a IH]; cbn; [done|]. fold (total_cost (a ++ b)) (total_cost a). rewrite IH. lia. Qed.

Lemma takes_newest_within b l r : takes_newest b l r -> newest_within b (rev l) (rev r).
Proof.
  induction 1 as [b|l|b x l r Hb Hc _ (dropped & kept & Ht & Hor)|b x y l Hb Hs].
  - exists [], []. split; [cbn; lia|]. left. auto.
  - exists (rev l), []. split; [cbn; lia|]. left. rewrite app_nil_r. auto.
  - exists dropped, (kept ++ [x]). rewrite total_cost_app. cbn [total_cost foldr]. split; [lia|].
    replace (b - (total_cost kept + (cost x + 0)))%N with (b - cost x - total_cost kept)%N by lia. cbn [rev].
    destruct Hor as [(-> & -> & H)|(z & y & -> & -> & H)]; [left|right].
    + rewrite <- app_assoc. repeat split. destruct H; [by left|right; lia].
    + exists z, y. rewrite <- app_assoc. auto.
  - exists (rev l), []. cbn [total_cost foldr]. split; [lia|]. right. exists x, y. rewrite N.sub_0_r. auto.
Qed.
End newest.

(** ** What a compacted history holds *)

Definition message_tokens (text : str) : N := tokens_for (str_len text).

Lemma select_messages_takes remaining rev_messages :
  Forall allocatable rev_messages ->
  exists selected, select_messages remaining rev_messages = Some selected /\
    takes_newest message_tokens (fun b x y => truncation x (4 * b) true y) remaining rev_messages selected.
Proof.
  intros Ha. revert remaining. induction Ha as [|m l Hm _ IH]; intros remaining; cbn [select_messages].
  { eexists. split; [done|constructor]. }
  destruct (N.eqb_spec remaining 0) as [->|Hr]; [eexists; split; [done|constructor]|].
  rewrite approx_token_count_exact by done. fold (message_tokens m).
  destruct (N.leb_spec (message_tokens m) remaining) as [Hle|Hgt].
  - destruct (IH (saturating_sub remaining (message_tokens m))) as (sel & -> & Hsel). cbn.
    eexists. split; [done|]. constructor; [lia|done|exact Hsel].
  - destruct (truncate_text_long (Tokens remaining) m Hm) as (t & -> & Ht).
    { cbn [budget_bytes]. unfold message_tokens, tokens_for in Hgt. lia. }
    cbn. eexists. split; [done|]. constructor; [lia|exact Ht].
Qed.

(** The history after a compaction: the given items, then the newest of the user's messages within the budget, at
    most the oldest of them cut to what is left of it, then the summary, last. *)
Lemma compacted_history_eq history user_messages summary_text max_tokens :
  Forall allocatable user_messages ->
  exists selected,
    build_compacted_history_with_limit history user_messages summary_text max_tokens =
      Some (history ++ map user_text selected
            ++ [user_text (if bool_decide (summary_text = []) then lit "(no summary available)" else summary_text)]) /\
    newest_within message_tokens (fun b x y => truncation x (4 * b) true y) max_tokens user_messages selected.
Proof.
  intros Ha. unfold build_compacted_history_with_limit.
  assert (forall l, Some ((history ++ map user_text l) ++ [user_text (match summary_text with [] => lit "(no summary available)" | _ => summary_text end)])
    = Some (history ++ map user_text l ++ [user_text (if bool_decide (summary_text = []) then lit "(no summary available)" else summary_text)])) as Hs.
  { intros l. rewrite <- app_assoc. by destruct summary_text. }
  destruct (N.ltb_spec 0 max_tokens) as [Hm|Hm].
  - destruct (select_messages_takes max_tokens (rev user_messages)) as (sel & -> & Hsel); [by apply Forall_rev|].
    cbn [fmap option_fmap option_map mbind option_bind]. exists (rev sel). rewrite Hs. split; [done|].
    rewrite <- (rev_involutive user_messages). by apply takes_newest_within.
  - cbn [mbind option_bind]. exists []. rewrite Hs. split; [done|]. exists user_messages, []. split; [cbn; lia|].
    left. rewrite app_nil_r. cbn. repeat split. right. lia.
Qed.

(** [x] is the last element of [l] that satisfies [f], between [pre] and [post]. *)
Definition last_match {A} (f : A -> bool) (l pre : list A) (x : A) (post : list A) : Prop :=
  l = pre ++ x :: post /\ f x = true /\ Forall (fun y => f y = false) post.

Lemma rposition_last {A} (f : A -> bool) l :
  match rposition f l with
  | Some i => exists pre x post, last_match f l pre x post /\ length pre = i
  | None => Forall (fun y => f y = false) l
  end.
Proof.
  induction l as [|y l IH]; cbn [rposition]; [constructor|].
  destruct (rposition f l) as [i|].
  - destruct IH as (pre & x & post & (-> & Hx & Hp) & <-). by exists (y :: pre), x, post.
  - destruct (f y) eqn:E; [|by constructor]. by exists [], y, l.
Qed.

Lemma existsb_none {A} (f : A -> bool) l : existsb f l = false <-> Forall (fun y => f y = false) l.
Proof.
  induction l as [|x l IH]; cbn; [split; [constructor|done]|]. rewrite orb_false_iff, Forall_cons, IH. done.
Qed.

Section placement.
Context (from_xml_str : str -> option (str * str)) (new_id : str).

Definition is_user_item (item : ResponseItem) : bool :=
  match user_message_text from_xml_str new_id item with Some _ => true | None => false end.
Definition is_real_user_item (item : ResponseItem) : bool :=
  match user_message_text from_xml_str new_id item with Some text => negb (is_summary_message text) | None => false end.

Lemma scan_last_user_eq rev_items found :
  scan_last_user from_xml_str new_id rev_items found =
    (or_else found (rposition is_user_item (rev rev_items)), rposition is_real_user_item (rev rev_items)).
Proof.
  assert (forall (f : ResponseItem -> bool) l x, rposition f (l ++ [x]) = if f x then Some (length l) else rposition f l) as Hsnoc.
  { intros f l x. induction l as [|y l IH]; cbn; [by destruct (f x)|]. rewrite IH. by destruct (f x). }
  revert found. induction rev_items as [|item rest IH]; intros found; cbn [scan_last_user rev].
  { by destruct found. }
  rewrite !Hsnoc, length_rev. unfold is_user_item at 1, is_real_user_item at 1.
  destruct (user_message_text from_xml_str new_id item) as [text|]; [|by rewrite IH].
  destruct (is_summary_message text); cbn [negb]; [rewrite IH|]; by destruct found.
Qed.

(** Where the session's context goes: before the last real message of the user if there is one, else before the last
    summary, else before the last compaction item, else at the end; nothing else moves. *)
Lemma context_placement history context :
  exists pre post,
    history = pre ++ post /\
    insert_initial_context_before_last_real_user_or_summary from_xml_str new_id history context = pre ++ context ++ post /\
    if existsb is_real_user_item history then exists x rest, post = x :: rest /\ last_match is_real_user_item history pre x rest
    else if existsb is_user_item history then exists x rest, post = x :: rest /\ last_match is_user_item history pre x rest
    else if existsb is_compaction_item history
         then exists x rest, post = x :: rest /\ last_match is_compaction_item history pre x rest
    else post = [].
Proof.
  unfold insert_initial_context_before_last_real_user_or_summary. rewrite scan_last_user_eq, rev_involutive. cbn [or_else].
  assert (forall (f : ResponseItem -> bool),
    match rposition f history with
    | Some i => existsb f history = true /\ exists x rest, drop i history = x :: rest /\ last_match f history (take i history) x rest
    | None => existsb f history = false
    end) as Hpos.
  { intros f. pose proof (rposition_last f history) as H. destruct (rposition f history) as [i|].
    - destruct H as (pre & x & post & (-> & Hx & Hp) & <-). split; [rewrite existsb_app; cbn; by rewrite Hx, orb_true_r|].
      exists x, post. rewrite drop_app_length, take_app_length. by repeat split.
    - by apply existsb_none. }
  pose proof (Hpos is_real_user_item) as Hreal. pose proof (Hpos is_user_item) as Huser.
  pose proof (Hpos is_compaction_item) as Hcomp.
  destruct (rposition is_real_user_item history) as [i|].
  { destruct Hreal as [-> H]. exists (take i history), (drop i history). rewrite take_drop. auto. }
  rewrite Hreal. destruct (rposition is_user_item history) as [i|].
  { destruct Huser as [-> H]. exists (take i history), (drop i history). rewrite take_drop. auto. }
  rewrite Huser. destruct (rposition is_compaction_item history) as [i|]; cbn [or_else].
  { destruct Hcomp as [-> H]. exists (take i history), (drop i history). rewrite take_drop. auto. }
  rewrite Hcomp. exists history, []. by rewrite !app_nil_r.
Qed.
End placement.

(** ** Messages retained beside a compaction *)

(** The texts of the contents, and the contents without their empty texts. *)
Definition content_tokens (c : ContentItem) : N :=
  match content_text c with Some text => message_tokens text | None => 0%N end.
Definition allocatable_content (content : list ContentItem) : Prop :=
  Forall (fun c => match content_text c with Some text => allocatable text | None => True end) content /\
  (total_cost content_tokens content <= usize_max)%N.

Definition shown_content (c : ContentItem) : bool :=
  match content_text c with Some [] => false | _ => true end.
Definition image_content (c : ContentItem) : bool :=
  match content_text c with Some _ => false | None => true end.

(** A content cut to a budget: the texts that fit, at most one text cut to the rest of the budget, and all images. *)
Definition content_cut (budget : N) (content content' : list ContentItem) : Prop :=
  exists pre post, (total_cost content_tokens pre <= budget)%N /\
    ((content = pre ++ post /\ total_cost content_tokens pre = budget /\
      content' = List.filter shown_content pre ++ List.filter image_content post) \/
     (exists c text text', content = pre ++ c :: post /\ content_text c = Some text /\
        truncation text (4 * (budget - total_cost content_tokens pre)) true text' /\
        content' = List.filter shown_content pre ++ set_text c text' :: List.filter image_content post)).

Lemma truncate_content_spent content : truncate_content 0 content = Some (List.filter image_content content).
Proof.
  induction content as [|c content IH]; [done|]. cbn [truncate_content List.filter]. unfold image_content at 1.
  destruct (content_text c) as [text|]; cbn [N.eqb]; rewrite IH; done.
Qed.

Lemma truncate_content_spec budget content :
  Forall (fun c => match content_text c with Some text => allocatable text | None => True end) content ->
  (budget < total_cost content_tokens content)%N ->
  exists content', truncate_content budget content = Some content' /\ content_cut budget content content'.
Proof.
  intros Ha. revert budget. induction Ha as [|c content Hc Ha IH]; intros budget Hb; cbn [total_cost foldr] in Hb; [lia|].
  fold (total_cost content_tokens content) in Hb. destruct (N.eq_dec budget 0) as [->|Hz].
  { rewrite truncate_content_spent. eexists. split; [done|]. exists [], (c :: content). cbn. split; [lia|]. left. done. }
  cbn [truncate_content]. unfold content_tokens at 1 in Hb. destruct (content_text c) as [text|] eqn:Et.
  2: { destruct (IH budget) as (r & -> & pre & post & Hle & Hor); [lia|]. cbn. eexists. split; [done|].
       exists (c :: pre), post. cbn [List.filter]. rewrite total_cost_cons.
       assert (content_tokens c = 0%N /\ shown_content c = true) as [-> ->]
         by (unfold content_tokens, shown_content; by rewrite Et).
       rewrite N.add_0_l. split; [done|].
       destruct Hor as [(-> & H & ->)|(d & t & t' & -> & ? & ? & ->)]; [by left|right]. by exists d, t, t'. }
  rewrite (proj2 (N.eqb_neq _ _)) by done. rewrite approx_token_count_exact by done. fold (message_tokens text).
  destruct (N.leb_spec (message_tokens text) budget) as [Hle|Hgt]; cbn [mbind option_bind].
  - destruct (IH (saturating_sub budget (message_tokens text))) as (r & -> & pre & post & Hpre & Hor);
      [unfold saturating_sub; lia|]. cbn [mbind option_bind]. unfold saturating_sub in *.
    assert (forall l, match text with [] => l | _ => set_text c text :: l end =
                      (if shown_content c then [c] else []) ++ l) as Hs.
    { intros l. unfold shown_content. rewrite Et. destruct text; [done|].
      by destruct c; cbn in Et; simplify_eq. }
    rewrite Hs. eexists. split; [done|]. exists (c :: pre), post. cbn [List.filter]. rewrite total_cost_cons.
    assert (content_tokens c = message_tokens text) as -> by (unfold content_tokens; by rewrite Et).
    split; [lia|].
    replace (budget - (message_tokens text + total_cost content_tokens pre))%N
      with (budget - message_tokens text - total_cost content_tokens pre)%N by lia.
    destruct Hor as [(-> & H & ->)|(d & t & t' & -> & ? & ? & ->)]; [left|right].
    + split; [done|]. split; [lia|]. by destruct (shown_content c).
    + exists d, t, t'. repeat split; try done. by destruct (shown_content c).
  - destruct (truncate_text_long (Tokens budget) text Hc) as (t & -> & Ht).
    { cbn [budget_bytes]. unfold message_tokens, tokens_for in Hgt. lia. }
    cbn [mbind option_bind]. rewrite truncate_content_spent. cbn [mbind option_bind].
    pose proof (truncation_nonempty _ _ _ _ Ht) as Hne. destruct t as [|ch t]; [done|].
    eexists. split; [done|]. exists [], content. cbn [total_cost foldr]. split; [lia|]. right.
    exists c, text, (ch :: t). rewrite N.sub_0_r. done.
Qed.

Lemma content_cut_nonempty budget content content' :
  (0 < budget)%N -> content_cut budget content content' -> content' <> [].
Proof.
  intros Hb (pre & post & Hle & Hor) ->. destruct Hor as [(-> & H & Hn)|(c & t & t' & -> & _ & _ & Hn)].
  - symmetry in Hn. apply app_eq_nil in Hn as [Hn _]. assert (total_cost content_tokens pre = 0%N); [|lia].
    clear -Hn. induction pre as [|c pre IH]; [done|]. cbn [List.filter] in Hn.
    destruct (shown_content c) eqn:E; [done|]. rewrite total_cost_cons, IH by done.
    unfold shown_content, content_tokens in *. by destruct (content_text c) as [[|]|].
  - by destruct (List.filter shown_content pre).
Qed.

(** A message, with what it counts for and how it is cut. *)
Definition retained_cost (item : ResponseItem) : N := N.max (message_text_token_count item) 1.
Definition message_cut (budget : N) (item item' : ResponseItem) : Prop :=
  exists id role content phase content', item = Message id role content phase /\
    item' = Message id role content' phase /\ content_cut budget content content'.
Definition allocatable_message (item : ResponseItem) : Prop :=
  exists id role content phase, item = Message id role content phase /\ allocatable_content content.

Lemma message_tokens_exact id role content phase :
  allocatable_content content ->
  message_text_token_count (Message id role content phase) = total_cost content_tokens content.
Proof.
  intros [Ha Hsum]. cbn [message_text_token_count].
  assert (forall acc, (acc + total_cost content_tokens content <= usize_max)%N ->
    fold_left usize_wrapping_add
      (map (fun c => match content_text c with Some text => approx_token_count text | None => 0%N end) content) acc
    = (acc + total_cost content_tokens content)%N) as H; [|by rewrite H].
  clear Hsum. induction Ha as [|c content Hc _ IH]; intros acc Hacc; cbn [map fold_left total_cost foldr] in *; [lia|].
  fold (total_cost content_tokens content) in *.
  assert ((match content_text c with Some text => approx_token_count text | None => 0%N end) = content_tokens c) as ->.
  { unfold content_tokens. destruct (content_text c); [by apply approx_token_count_exact|done]. }
  unfold usize_wrapping_add at 2. unfold usize_max, u64_max in *.
  rewrite N.mod_small by lia. rewrite IH by lia. lia.
Qed.

Lemma truncate_retained_takes remaining rev_items :
  Forall allocatable_message rev_items ->
  exists kept, truncate_retained_loop remaining rev_items = Some kept /\
    takes_newest retained_cost message_cut remaining rev_items kept.
Proof.
  assert (forall l, truncate_retained_loop 0 l = Some []) as Hz.
  { induction l as [|x l IH]; [done|]. cbn [truncate_retained_loop N.eqb]. exact IH. }
  intros Ha. revert remaining. induction Ha as [|item l Hm _ IH]; intros remaining.
  { eexists. split; [done|constructor]. }
  destruct (N.eq_dec remaining 0) as [->|Hr]; [rewrite Hz; eexists; split; [done|constructor]|].
  cbn [truncate_retained_loop]. rewrite (proj2 (N.eqb_neq _ _)) by done. fold (retained_cost item).
  destruct (N.leb_spec (retained_cost item) remaining) as [Hle|Hgt].
  - destruct (IH (saturating_sub remaining (retained_cost item))) as (k & -> & Hk). cbn.
    eexists. split; [done|]. constructor; [lia|done|exact Hk].
  - destruct Hm as (id & role & content & phase & -> & Hc). cbn [truncate_message_text_to_token_budget].
    destruct (truncate_content_spec remaining content) as (c' & -> & Hcut); [apply Hc| |].
    { unfold retained_cost in Hgt. rewrite message_tokens_exact in Hgt by done. lia. }
    cbn [mbind option_bind]. pose proof (content_cut_nonempty remaining _ _ ltac:(lia) Hcut) as Hne.
    destruct c' as [|x c']; [done|]. rewrite Hz. cbn [fmap option_fmap option_map]. eexists. split; [done|].
    constructor; [lia|]. by exists id, role, content, phase, (x :: c').
Qed.

(** The history after a compaction by the server that keeps messages: the newest of the messages of the user that
    are worth keeping, within the budget, and the compaction last. *)
Lemma v2_compacted_history_eq from_xml_str new_id prompt_input compaction_output :
  Forall allocatable_message (List.filter is_retained_for_remote_compaction_v2 prompt_input) ->
  exists retained,
    build_v2_compacted_history from_xml_str new_id prompt_input compaction_output = Some (retained ++ [compaction_output]) /\
    newest_within retained_cost message_cut RETAINED_MESSAGE_TOKEN_BUDGET
      (List.filter (should_keep_compacted_history_item from_xml_str new_id)
         (List.filter is_retained_for_remote_compaction_v2 prompt_input)) retained.
Proof.
  intros Ha. unfold build_v2_compacted_history, truncate_retained_messages_for_remote_compaction.
  set (l := List.filter (should_keep_compacted_history_item _ _) _).
  assert (Forall allocatable_message l) as Hl.
  { subst l. rewrite Forall_forall in Ha |- *. intros x Hx. apply Ha.
    apply list_elem_of_In in Hx. apply filter_In in Hx as [Hx _]. by apply list_elem_of_In. }
  destruct (truncate_retained_takes RETAINED_MESSAGE_TOKEN_BUDGET (rev l)) as (k & -> & Hk); [by apply Forall_rev|].
  cbn [fmap option_fmap option_map mbind option_bind]. exists (rev k). split; [done|].
  rewrite <- (rev_involutive l). by apply takes_newest_within.
Qed.

(** ** A request that fits *)

(** Calls and outputs are paired, one of each per id. *)
Definition paired (l : list ResponseItem) : Prop := calls_answered l /\ outputs_called l /\ unique_keys l.

Definition same_keys (x y : ResponseItem) : Prop :=
  call_key y = call_key x /\ answer_key y = answer_key x /\ required_key y = required_key x.

Lemma same_keys_paired l l' : Forall2 same_keys l l' -> paired l -> paired l'.
Proof.
  intros Hk (Hca & Hoc & Hu1 & Hu2).
  assert (forall y, y ∈ l' -> exists x, x ∈ l /\ same_keys x y) as Hback.
  { intros y (i & Hy)%list_elem_of_lookup. destruct (Forall2_lookup_r _ _ _ _ _ Hk Hy) as (x & Hx & Hs).
    exists x. split; [by eapply list_elem_of_lookup_2|done]. }
  assert (forall x, x ∈ l -> exists y, y ∈ l' /\ same_keys x y) as Hforth.
  { intros x (i & Hx)%list_elem_of_lookup. destruct (Forall2_lookup_l _ _ _ _ _ Hk Hx) as (y & Hy & Hs).
    exists y. split; [by eapply list_elem_of_lookup_2|done]. }
  assert (forall f : ResponseItem -> option (call_kind * str), (forall x y, same_keys x y -> f y = f x) -> omap f l' = omap f l) as Ho.
  { intros f Hf. clear -Hk Hf. induction Hk as [|x y l l' H _ IH]; [done|]. cbn. rewrite (Hf x y H).
    by rewrite (IH : omap f l' = omap f l). }
  split; [|split; [|split]].
  - intros y key Hy Hc. destruct (Hback y Hy) as (x & Hx & (E & _)). rewrite E in Hc.
    destruct (Hca x key Hx Hc) as (o & Ho' & Hok). destruct (Hforth o Ho') as (o' & ? & (_ & E' & _)).
    exists o'. split; [done|congruence].
  - intros y key Hy Hc. destruct (Hback y Hy) as (x & Hx & (_ & _ & E)). rewrite E in Hc.
    destruct (Hoc x key Hx Hc) as (o & Ho' & Hok). destruct (Hforth o Ho') as (o' & ? & (E' & _)).
    exists o'. split; [done|congruence].
  - rewrite Ho; [done|]. by intros x y (? & _).
  - rewrite Ho; [done|]. by intros x y (_ & ? & _).
Qed.

Lemma rewritten_same_keys x y : rewritten_output_for_context_window x = Some y -> same_keys x y.
Proof. destruct x as [| | | | | | | | |[id|]| | | | | |]; cbn; try done; by intros [= <-]. Qed.

Section fit_facts.
Context {TurnContext : Type}.
Context (json_len : ResponseItem -> option N) (image_dims : str -> option (N * N)).
Abbreviation Manager_ := (ContextManager TokenUsageInfo TurnContext).
Implicit Types history : Manager_.

(** The estimated size of a request with this history. *)
Definition request_tokens (base_instructions : str) (l : list ResponseItem) : Z :=
  i64_add (i64_of (approx_token_count base_instructions)) (sum_of (estimate_item_token_count json_len image_dims) l).

Lemma estimate_eq history base_instructions :
  estimate_token_count_with_base_instructions json_len image_dims history base_instructions =
    Some (request_tokens base_instructions (items history)).
Proof. done. Qed.

(** The outputs at the end of [l] replaced, as many as it takes. *)
Definition outputs_rewritten (fits : list ResponseItem -> Prop) (l l' : list ResponseItem) : Prop :=
  exists pre tail tail', l = pre ++ tail /\ l' = pre ++ tail' /\
    Forall2 (fun x y => rewritten_output_for_context_window x = Some y) tail tail' /\
    (fits l' \/ pre = [] \/ exists pre' x, pre = pre' ++ [x] /\ rewritten_output_for_context_window x = None).

Lemma trim_loop_spec window base history pre tail n t :
  items history = pre ++ tail ->
  exists pre' mid mid', pre = pre' ++ mid /\
    items (fst (trim_loop json_len image_dims window base (length pre) history n t)) = pre' ++ mid' ++ tail /\
    Forall2 (fun x y => rewritten_output_for_context_window x = Some y) mid mid' /\
    ((request_tokens base (pre' ++ mid' ++ tail) <= window)%Z \/ pre' = [] \/
     exists pre'' x, pre' = pre'' ++ [x] /\ rewritten_output_for_context_window x = None).
Proof.
  revert history tail n t. induction pre as [|x pre IH] using rev_ind; intros history tail n t Hi.
  { exists [], [], []. cbn. repeat split; auto. }
  rewrite length_app, Nat.add_1_r. cbn [trim_loop]. rewrite estimate_eq.
  destruct (Z.leb_spec (request_tokens base (items history)) window) as [Hf|Hf].
  { exists (pre ++ [x]), [], []. rewrite app_nil_r. cbn [fst app]. repeat split; auto. left. by rewrite <- Hi. }
  assert (items history !! length pre = Some x) as ->.
  { rewrite Hi, <- app_assoc, lookup_app_r, Nat.sub_diag by lia. done. }
  cbn [mbind option_bind]. destruct (rewritten_output_for_context_window x) as [y|] eqn:E.
  2: { exists (pre ++ [x]), [], []. rewrite app_nil_r. cbn [fst app]. repeat split; auto. right. right. by exists pre, x. }
  assert (<[length pre := y]> (items history) = pre ++ y :: tail) as Hins.
  { rewrite Hi, <- app_assoc, insert_app_r_alt, Nat.sub_diag by lia. done. }
  match goal with |- context[trim_loop _ _ _ _ _ ?h ?n ?t] =>
    destruct (IH h (y :: tail) n t) as (pre' & mid & mid' & -> & Heq & H2 & Hend); [cbn [items replace]; exact Hins|] end.
  exists pre', (mid ++ [x]), (mid' ++ [y]). rewrite Heq, <- !app_assoc. cbn [app].
  repeat split; auto. apply Forall2_app; auto.
Qed.

Lemma trimmed_spec history window base :
  outputs_rewritten (fun l => match window with Some w => (request_tokens base l <= w)%Z | None => True end)
    (items history) (items (fst (trim_function_call_history_to_fit_context_window json_len image_dims history window base))).
Proof.
  unfold trim_function_call_history_to_fit_context_window. destruct window as [w|].
  2: { exists (items history), [], []. rewrite app_nil_r. repeat split; auto. }
  destruct (trim_loop_spec w base history (items history) [] 0%N 0%Z) as (pre & mid & mid' & Hp & Hi & H2 & Hend);
    [by rewrite app_nil_r|].
  rewrite app_nil_r in Hi, Hend. exists pre, mid, mid'. rewrite Hi. repeat split; auto.
Qed.

Lemma outputs_rewritten_paired fits l l' : outputs_rewritten fits l l' -> paired l -> paired l'.
Proof using Type.
  clear json_len image_dims.
  intros (pre & tail & tail' & -> & -> & H2 & _). apply same_keys_paired. apply Forall2_app.
  - by apply Forall_Forall2_diag, Forall_true.
  - eapply Forall2_impl; [exact H2|]. apply rewritten_same_keys.
Qed.

Lemma remove_first_shorter history :
  items history <> [] -> length (items (remove_first_item history)) < length (items history).
Proof using Type.
  clear json_len image_dims.
  unfold remove_first_item. destruct (items history) as [|x rest]; [done|]. intros _. cbn [items length].
  destruct (remove_corresponding_counterpart x rest) as [[-> _]|(l1 & y & l2 & -> & _ & ->)]; [lia|].
  rewrite !length_app. cbn. lia.
Qed.

Lemma remove_first_paired history : paired (items history) -> paired (items (remove_first_item history)).
Proof using Type.
  clear json_len image_dims.
  unfold remove_first_item. destruct (items history) as [|x rest] eqn:E; [by rewrite E|]. cbn [items].
  intros (Hca & Hoc & Hu). by apply remove_corresponding_pairs.
Qed.

(** The oldest items dropped, each with its counterpart, for as long as the request does not fit. *)
Definition oldest_dropped (fits : list ResponseItem -> Prop) history history' : Prop :=
  exists k, history' = Nat.iter k remove_first_item history /\
    (fits (items history') \/ length (items history') <= 1) /\
    forall j, j < k -> ~ fits (items (Nat.iter j remove_first_item history)) /\
                       1 < length (items (Nat.iter j remove_first_item history)).

Lemma iter_remove_shorter k history : length (items (Nat.iter k remove_first_item history)) <= length (items history).
Proof using Type.
  clear json_len image_dims.
  induction k as [|k IH]; [done|]. cbn [Nat.iter nat_rect].
  destruct (decide (items (Nat.iter k remove_first_item history) = [])) as [E|E].
  - unfold remove_first_item at 1. unfold Nat.iter in E. by rewrite E.
  - apply remove_first_shorter in E. unfold Nat.iter in *. lia.
Qed.

Lemma drop_loop_spec fuel budget base history dropped :
  length (items history) <= fuel ->
  (dropped + N.of_nat (length (items history)) <= usize_max)%N ->
  exists history', drop_loop json_len image_dims fuel budget base history dropped
      = (history', (dropped + N.of_nat (length (items history) - length (items history')))%N) /\
    oldest_dropped (fun l => (request_tokens base l <= budget)%Z) history history'.
Proof.
  revert history dropped. induction fuel as [|fuel IH]; intros history dropped Hf Hd; cbn [drop_loop].
  { exists history. rewrite Nat.sub_diag, N.add_0_r. split; [done|]. exists 0. cbn. split; [done|]. split; [right; lia|lia]. }
  destruct (Nat.ltb_spec 1 (length (items history))) as [Hl|Hl]; cbn [negb].
  2: { exists history. rewrite Nat.sub_diag, N.add_0_r. split; [done|]. exists 0. cbn. split; [done|]. split; [by right|lia]. }
  rewrite estimate_eq. destruct (Z.leb_spec (request_tokens base (items history)) budget) as [Hfit|Hfit].
  { exists history. rewrite Nat.sub_diag, N.add_0_r. split; [done|]. exists 0. cbn. split; [done|]. split; [by left|lia]. }
  assert (length (items (remove_first_item history)) < length (items history)) as Hs.
  { apply remove_first_shorter. intros E. rewrite E in Hl. cbn in Hl. lia. }
  rewrite (proj2 (Nat.leb_gt _ _)) by done.
  assert (saturating_add dropped (N.of_nat (length (items history) - length (items (remove_first_item history))))
          = dropped + N.of_nat (length (items history) - length (items (remove_first_item history))))%N as ->.
  { unfold saturating_add. lia. }
  destruct (IH (remove_first_item history)
              (dropped + N.of_nat (length (items history) - length (items (remove_first_item history))))%N)
    as (h' & -> & k & Hk & Hend & Hall); [lia|lia|].
  exists h'. split.
  { f_equal. subst h'. pose proof (iter_remove_shorter k (remove_first_item history)). lia. }
  exists (S k). rewrite Nat.iter_succ_r. split; [done|]. split; [done|].
  intros [|j] Hj; [cbn; split; [lia|done]|]. rewrite Nat.iter_succ_r. apply Hall. lia.
Qed.

(** Whether dropping items can help at all. *)
Definition can_fit (window : option Z) (base : str) (tools : Z) : bool :=
  match window with
  | Some w => (0 <? request_budget w tools)%Z && (i64_of (approx_token_count base) <? request_budget w tools)%Z
  | None => false
  end.

Lemma dropped_spec history window base tools :
  (N.of_nat (length (items history)) <= usize_max)%N ->
  exists history',
    drop_oldest_history_to_fit_context_window json_len image_dims history window base tools
      = (history', N.of_nat (length (items history) - length (items history'))) /\
    if can_fit window base tools
    then oldest_dropped (fun l => match window with Some w => (request_tokens base l <= request_budget w tools)%Z | None => False end)
           history history'
    else history' = history.
Proof.
  intros Hn. unfold drop_oldest_history_to_fit_context_window, can_fit. destruct window as [w|].
  2: { exists history. by rewrite Nat.sub_diag. }
  destruct (Z.leb_spec (request_budget w tools) 0) as [Hb|Hb]; cbn [orb].
  { exists history. rewrite Nat.sub_diag, (proj2 (Z.ltb_ge _ _)) by done. done. }
  rewrite (proj2 (Z.ltb_lt _ _)) by done. cbn [andb].
  destruct (Z.leb_spec (request_budget w tools) (i64_of (approx_token_count base))) as [Hb'|Hb'].
  { exists history. rewrite Nat.sub_diag, (proj2 (Z.ltb_ge _ _)) by done. done. }
  rewrite (proj2 (Z.ltb_lt _ _)) by done.
  destruct (drop_loop_spec (length (items history)) (request_budget w tools) base history 0%N) as (h' & -> & H);
    [done|lia|]. by exists h'.
Qed.

Lemma oldest_dropped_paired fits history history' :
  oldest_dropped fits history history' -> paired (items history) -> paired (items history').
Proof using Type.
  clear json_len image_dims.
  intros (k & -> & _) Hp. induction k as [|k IH]; [done|]. cbn [Nat.iter nat_rect]. by apply remove_first_paired.
Qed.
End fit_facts.

Lemma for_prompt_paired {TI TC} debug (history : ContextManager TI TC) mods :
  paired (items history) -> for_prompt debug history mods = Some (map (clean mods) (items history)).
Proof.
  intros (Hca & Hoc & _). unfold for_prompt. rewrite normalize_history_eq. unfold normalized.
  rewrite paired_history_id by done.
  assert (existsb (loud_call (items history)) (items history) = false) as ->.
  { apply existsb_none, Forall_forall. intros item Hin. unfold loud_call.
    destruct item as [| |?|? [id|]| | | | | | | | | | | |]; try done; apply negb_false_iff, answered_true; by eapply Hca. }
  assert (existsb (orphan (items history)) (items history) = false) as ->; [|done].
  apply existsb_none, Forall_forall. intros item Hin. unfold orphan.
  destruct (required_key item) as [key|] eqn:E; [|done]. apply negb_false_iff, called_true. by eapply Hoc.
Qed.

(** Preparing a request for a compaction by the server.  From a history with its calls and outputs paired, the
    request is always prepared, whether or not debug assertions are on: first the outputs at the end of the history
    are replaced by a note, from the newest and as far as it takes to fit the context window or to the first item
    that is not an output; then, if room is left for anything beside the instructions, the oldest items go, each
    with its counterpart and only while the request exceeds the window less the tools and a tenth in reserve, until
    it fits or at most one item is left.  The input sent is what is left, paired as before and unchanged but for
    the images that the model may not see. *)
Theorem compact_request_prepared {TC} json_len image_dims debug (history : ContextManager TokenUsageInfo TC)
    window base tools mods :
  paired (items history) -> (N.of_nat (length (items history)) <= usize_max)%N ->
  exists trimmed history',
    prepare_compact_request json_len image_dims debug history window base tools mods =
      Some (history', map (clean mods) (items history')) /\
    outputs_rewritten (fun l => match window with Some w => (request_tokens json_len image_dims base l <= w)%Z | None => True end)
      (items history) (items trimmed) /\
    (if can_fit window base (estimate_tool_spec_tokens tools)
     then oldest_dropped
            (fun l => match window with
                      | Some w => (request_tokens json_len image_dims base l <= request_budget w (estimate_tool_spec_tokens tools))%Z
                      | None => False
                      end) trimmed history'
     else history' = trimmed) /\
    paired (items history').
Proof.
  intros Hp Hn. unfold prepare_compact_request.
  pose proof (trimmed_spec json_len image_dims history window base) as Ht.
  destruct (trim_function_call_history_to_fit_context_window json_len image_dims history window base) as [trimmed [n t]].
  cbn [fst] in Ht. assert (length (items trimmed) = length (items history)) as Hlen.
  { destruct Ht as (pre & tail & tail' & -> & -> & H2 & _). rewrite !length_app. by rewrite (Forall2_length _ _ _ H2). }
  destruct (dropped_spec json_len image_dims trimmed window base (estimate_tool_spec_tokens tools)) as (h' & -> & Hd);
    [by rewrite Hlen|].
  pose proof (outputs_rewritten_paired _ _ _ Ht Hp) as Hpt.
  assert (paired (items h')) as Hp'.
  { destruct (can_fit _ _ _); [by eapply oldest_dropped_paired|by subst h']. }
  rewrite for_prompt_paired by done. by exists trimmed, h'.
Qed.

Lemma compact_request_prepared_witness :
  let call := FunctionCall None (lit "shell") None [] (lit "1") in
  let out := FunctionCallOutput (lit "1") (from_text (lit "a long output")) in
  let history := @Manager TokenUsageInfo unit [user_text (lit "hi"); call; user_text (lit "go"); out] 0 None None in
  let json_len item := match item with FunctionCallOutput _ _ => Some 400%N | Message _ _ _ _ => Some 8%N | _ => Some 4%N end in
  exists history' input,
    prepare_compact_request json_len (fun _ => None) true history (Some 100%Z) [] None [TextModality] = Some (history', input) /\
    paired (items history') /\ items history' = [user_text (lit "go")].
Proof.
  intros call out history json_len.
  assert (paired (items history)) as Hp.
  { split; [|split].
    - intros item key Hin Hk. exists out. split; [do 3 right; left|].
      repeat apply elem_of_cons in Hin as [->|Hin]; try (by apply elem_of_nil in Hin); simpl in *; done.
    - intros o key Hin Hk. exists call. split; [right; left|].
      repeat apply elem_of_cons in Hin as [->|Hin]; try (by apply elem_of_nil in Hin); simpl in *; done.
    - split; apply NoDup_singleton. }
  destruct (compact_request_prepared json_len (fun _ => None) true history (Some 100%Z) [] None [TextModality] Hp)
    as (trimmed & h' & H & _ & _ & Hp'); [vm_compute; congruence|].
  exists h', (map (clean [TextModality]) (items h')). split; [exact H|]. split; [exact Hp'|].
  revert H. vm_compute. by intros [= <-].
Defined.

(** Dropping an item takes its counterpart along, so a history of one call and its output that does not fit is
    dropped whole. *)
Example pair_dropped_whole :
  let call := FunctionCall None (lit "shell") None [] (lit "1") in
  let out := FunctionCallOutput (lit "1") (from_text []) in
  let history := @Manager TokenUsageInfo unit [call; out] 0 None None in
  let (history', dropped) := drop_oldest_history_to_fit_context_window (fun _ => Some 400%N) (fun _ => None)
    history (Some 100%Z) [] 0 in
  items history' = [] /\ dropped = 2%N.
Proof. vm_compute. done. Qed.

End Compaction.
