(* ===== verification/Rollout.v ===== *)
(** * Rollouts and where to cut them: protocol/src/protocol.rs, core/src/thread_rollout_truncation.rs

    The items that a thread persists, in the order in which they happened, and the functions that find the turns in
    them and cut a rollout at a turn, for forks and restarts.  A marker of a rollback takes back the newest turns
    before it.  The parsers of hook prompts and of messages between agents are parameters. *)

From S2P Require Import Prelude Text ResponseItems ContextFragments History TurnItems.
From Stdlib Require Import ZifyBool ZifyN ZifyNat.

Module Rollout.
Import ResponseItems ContextFragments History TurnItems.

(** ** Items *)

(** [codex-rs/protocol/src/protocol.rs:3049-3124 TurnContextItem] the fields that are read here, and the others as JSON. *)
Record TurnContextItem := TurnContextOf {
  tc_turn_id : option str;
  tc_model : str;
  tc_model_provider_id : option str;
  tc_realtime_active : option bool;
  tc_other : list (str * Json)
}.

(** [codex-rs/protocol/src/protocol.rs:3019-3023 CompactedItem] *)
Record CompactedItem := CompactedOf { ci_message : str; ci_replacement_history : option (list ResponseItem) }.

(** [codex-rs/protocol/src/protocol.rs:1276-1302 EventMsg] the events that are told apart here, and the others by
    their name; [num_turns] is a [u32], and an item completed is a plan or not. *)
Inductive EventMsg :=
| ThreadRolledBack (num_turns : nat)
| TurnStarted (turn_id : str)
| TurnComplete (turn_id : str)
| TurnAborted (turn_id : option str)
| UserMessage (event : UserMessageEvent)
| ItemCompleted (plan : bool)
| OtherEvent (variant : string).

(** [codex-rs/protocol/src/protocol.rs:3008-3016 RolloutItem] the metadata of a session is not read here. *)
Inductive RolloutItem :=
| SessionMeta
| Response (item : ResponseItem)
| Compacted (item : CompactedItem)
| TurnContext (item : TurnContextItem)
| Event (msg : EventMsg).

(** [codex-rs/protocol/src/protocol.rs:700-721 InterAgentCommunication] *)
Record InterAgentCommunication := Communication {
  author : str;
  recipient : str;
  other_recipients : list str;
  communication_content : str;
  encrypted_content : option str;
  trigger_turn : bool;
  wake_if_idle : bool
}.

(** [codex-rs/protocol/src/protocol.rs:2468-2473 InitialHistory] *)
Inductive InitialHistory :=
| NewHistory
| ClearedHistory
| ResumedHistory (history : list RolloutItem)
| ForkedHistory (items : list RolloutItem).

(** [codex-rs/protocol/src/protocol.rs:2476-2482 scan_rollout_items] *)
Definition scan_rollout_items (self : InitialHistory) (predicate : RolloutItem -> bool) : bool :=
  match self with
  | NewHistory | ClearedHistory => false
  | ResumedHistory l | ForkedHistory l => existsb predicate l
  end.

(** ** Boundaries *)

Section boundaries.
Context (from_xml_str : str -> option (str * str)) (new_id : str).
(** [serde_json::from_str::<InterAgentCommunication>(text).ok()]. *)
Context (inter_agent_json : str -> option InterAgentCommunication).

(** [codex-rs/protocol/src/protocol.rs:807-814 from_message_content] *)
Definition from_message_content (content : list ContentItem) : option InterAgentCommunication :=
  match content with
  | [InputText text] | [OutputText text] => inter_agent_json text
  | _ => None
  end.

Definition is_inter_agent_json (text : str) : bool :=
  match inter_agent_json text with Some _ => true | None => false end.

Definition turn_boundary (item : ResponseItem) : bool := is_user_turn_boundary from_xml_str is_inter_agent_json item.

(** [codex-rs/core/src/thread_rollout_truncation.rs:19-24 rollout_item_is_user_turn_boundary] *)
Definition rollout_item_is_user_turn_boundary (item : RolloutItem) : bool :=
  match item with Response item => turn_boundary item | _ => false end.

(** [codex-rs/core/src/thread_rollout_truncation.rs:15-17 initial_history_has_prior_user_turns] *)
Definition initial_history_has_prior_user_turns (conversation_history : InitialHistory) : bool :=
  scan_rollout_items conversation_history rollout_item_is_user_turn_boundary.

(** [codex-rs/core/src/thread_rollout_truncation.rs:225-230 is_real_user_message_boundary] *)
Definition is_real_user_message_boundary (item : ResponseItem) : bool :=
  match parse_turn_item from_xml_str new_id item with Some (TUserMessage _) => true | _ => false end.

(** [codex-rs/core/src/thread_rollout_truncation.rs:232-240 is_trigger_turn_boundary] *)
Definition is_trigger_turn_boundary (item : ResponseItem) : bool :=
  match item with
  | Message _ role content _ =>
      bool_decide (role = lit "assistant") && is_some_and trigger_turn (from_message_content content)
  | _ => false
  end.

(** [codex-rs/core/src/thread_rollout_truncation.rs:242-260 is_message_or_tool_call_boundary] *)
Definition is_message_or_tool_call_boundary (item : ResponseItem) : bool :=
  match parse_turn_item from_xml_str new_id item with
  | Some (TUserMessage _) | Some (TAgentMessage _) => true
  | _ =>
      match item with
      | AgentMessage _ _ _ | LocalShellCall _ _ _ _ | FunctionCall _ _ _ _ _ | ToolSearchCall _ _ _ _ _
      | CustomToolCall _ _ _ _ _ _ | WebSearchCall _ _ _ | ImageGenerationCall _ _ _ _ => true
      | _ => false
      end
  end.

(** ** Positions *)

(** [codex-rs/core/src/thread_rollout_truncation.rs:37-52 user_message_positions_in_rollout] *)
Definition user_position_step (user_positions : list nat) (idx : nat) (item : RolloutItem) : list nat :=
  match item with
  | Response (Message _ _ _ _ as item) =>
      if is_real_user_message_boundary item then user_positions ++ [idx] else user_positions
  | Event (ThreadRolledBack num_turns) =>
      let new_len := length user_positions - num_turns in
      take new_len user_positions
  | _ => user_positions
  end.

(** [for (idx, item) in items.iter().enumerate()]. *)
Fixpoint enumerate_fold {A B} (f : A -> nat -> B -> A) (acc : A) (idx : nat) (l : list B) : A :=
  match l with [] => acc | x :: l => enumerate_fold f (f acc idx x) (S idx) l end.

(** [codex-rs/core/src/thread_rollout_truncation.rs:34-55 user_message_positions_in_rollout] *)
Definition user_message_positions_in_rollout (items : list RolloutItem) : list nat :=
  enumerate_fold user_position_step [] 0 items.

(** [codex-rs/core/src/thread_rollout_truncation.rs:71-98 fork_turn_positions_in_rollout], and the same at 114-138 with
    another test; the state is [(rollback_turn_positions, positions)]. *)
Definition boundary_step (is_boundary : ResponseItem -> bool) (st : list nat * list nat) (idx : nat) (item : RolloutItem)
    : list nat * list nat :=
  let (rollback_turn_positions, positions) := st in
  match item with
  | Response item =>
      (if turn_boundary item then rollback_turn_positions ++ [idx] else rollback_turn_positions,
       if is_boundary item then positions ++ [idx] else positions)
  | Event (ThreadRolledBack num_turns) =>
      if num_turns =? 0 then st
      else
        match (if num_turns <=? length rollback_turn_positions
               then rollback_turn_positions !! (length rollback_turn_positions - num_turns)
               else head rollback_turn_positions) with
        | None => st
        | Some rollback_start_idx =>
            let new_rollback_len := length rollback_turn_positions - num_turns in
            (take new_rollback_len rollback_turn_positions,
             List.filter (fun position => position <? rollback_start_idx) positions)
        end
  | _ => st
  end.

(** [codex-rs/core/src/thread_rollout_truncation.rs:67-101 fork_turn_positions_in_rollout] *)
Definition fork_turn_positions_in_rollout (items : list RolloutItem) : list nat :=
  snd (enumerate_fold
         (boundary_step (fun item => is_real_user_message_boundary item || is_trigger_turn_boundary item)) ([], []) 0 items).

(** [codex-rs/core/src/thread_rollout_truncation.rs:110-144 message_or_tool_call_positions_in_rollout] *)
Definition message_or_tool_call_positions_in_rollout (items : list RolloutItem) : list nat :=
  snd (enumerate_fold (boundary_step is_message_or_tool_call_boundary) ([], []) 0 items).

(** ** Cutting *)

(** [&items[..n]] and [&items[n..]]; [None] is a panic. *)
Definition slice_to {A} (l : list A) (n : nat) : option (list A) := if n <=? length l then Some (take n l) else None.
Definition slice_from {A} (l : list A) (n : nat) : option (list A) := if n <=? length l then Some (drop n l) else None.

(** [codex-rs/core/src/thread_rollout_truncation.rs:154-172 truncate_rollout_before_nth_user_message_from_start] *)
Definition truncate_rollout_before_nth_user_message_from_start (items : list RolloutItem) (n_from_start : N)
    : option (list RolloutItem) :=
  if (n_from_start =? usize_max)%N then Some items
  else
    let user_positions := user_message_positions_in_rollout items in
    if (N.of_nat (length user_positions) <=? n_from_start)%N then Some items
    else
      cut_idx ← user_positions !! N.to_nat n_from_start;
      slice_to items cut_idx.

(** The [n]th from the end, or the first if there are not so many. *)
Definition nth_from_end (positions : list nat) (n_from_end : nat) : option nat :=
  if n_from_end <=? length positions then positions !! (length positions - n_from_end) else head positions.

(** [codex-rs/core/src/thread_rollout_truncation.rs:178-196 truncate_rollout_to_last_n_fork_turns] *)
Definition truncate_rollout_to_last_n_fork_turns (items : list RolloutItem) (n_from_end : nat) : option (list RolloutItem) :=
  if n_from_end =? 0 then Some []
  else
    let fork_turn_positions := fork_turn_positions_in_rollout items in
    match nth_from_end fork_turn_positions n_from_end with
    | None => Some []
    | Some keep_idx => slice_from items keep_idx
    end.

(** [codex-rs/core/src/thread_rollout_truncation.rs:205-223 truncate_rollout_before_last_n_message_or_tool_calls] *)
Definition truncate_rollout_before_last_n_message_or_tool_calls (items : list RolloutItem) (n_from_end : nat)
    : option (list RolloutItem) :=
  if n_from_end =? 0 then Some items
  else
    let boundary_positions := message_or_tool_call_positions_in_rollout items in
    match nth_from_end boundary_positions n_from_end with
    | None => Some items
    | Some cut_idx => slice_to items cut_idx
    end.
End boundaries.

(** ** Positions as a stack *)

Lemma enumerate_fold_app {A B} (f : A -> nat -> B -> A) acc idx l1 l2 :
  enumerate_fold f acc idx (l1 ++ l2) = enumerate_fold f (enumerate_fold f acc idx l1) (idx + length l1) l2.
Proof.
  revert acc idx. induction l1 as [|x l1 IH]; intros acc idx; cbn; [by rewrite Nat.add_0_r|].
  rewrite IH. by rewrite Nat.add_succ_r.
Qed.

Section stack.
Context {S B : Type} (step : S -> nat -> B -> S) (pos : S -> list nat) (init : S).
Context (Hinit : pos init = []).
Context (Hstep : forall s idx x, StronglySorted lt (pos s) ->
  pos (step s idx x) = pos s ++ [idx] \/ exists k, pos (step s idx x) = take k (pos s)).

Abbreviation run l := (enumerate_fold step init 0 l).

Lemma run_snoc l x : run (l ++ [x]) = step (run l) (length l) x.
Proof. by rewrite enumerate_fold_app. Qed.

Lemma stack_sorted l : StronglySorted lt (pos (run l)) /\ Forall (fun p => p < length l) (pos (run l)).
Proof.
  induction l as [|x l [Hs Hf]] using rev_ind; [cbn; rewrite Hinit; split; constructor|].
  rewrite run_snoc, length_app. cbn [length].
  assert (Forall (fun p => p < length l + 1) (pos (run l))) as Hf'.
  { eapply Forall_impl; [exact Hf|]. cbn. lia. }
  destruct (Hstep (run l) (length l) x Hs) as [-> | [k ->]].
  - split; [|apply Forall_app; split; [done|apply Forall_singleton; lia]].
    clear -Hs Hf. induction Hs as [|y ys _ IH Hy]; cbn; [repeat constructor|].
    apply Forall_cons in Hf as [? ?]. constructor; [auto|]. apply Forall_app. auto.
  - split; [|by apply Forall_take].
    rewrite <- (take_drop k (pos (run l))) in Hs. by apply StronglySorted_app in Hs as (_ & ? & _).
Qed.

(** Cutting before the element at a surviving position leaves exactly the positions below it. *)
Lemma stack_prefix l n cut :
  pos (run l) !! n = Some cut -> cut < length l /\ pos (run (take cut l)) = take n (pos (run l)).
Proof.
  induction l as [|x l IH] using rev_ind; [cbn; by rewrite Hinit|].
  rewrite run_snoc, length_app. cbn [length]. intros Hn.
  destruct (stack_sorted l) as [Hs _]. destruct (Hstep (run l) (length l) x Hs) as [E | [k E]]; rewrite E in Hn |- *.
  - apply lookup_app_Some in Hn as [Hn | [Hlen Hn]].
    + destruct (IH Hn) as [Hlt Heq]. split; [lia|]. rewrite take_app_le by lia.
      rewrite Heq, take_app_le; [done|]. apply lookup_lt_Some in Hn. lia.
    + apply list_lookup_singleton_Some in Hn as [Hz <-]. split; [lia|].
      rewrite take_app_length, take_app_ge by lia.
      by replace (n - length (pos (run l))) with 0 by lia; rewrite take_0, app_nil_r.
  - apply lookup_take_Some in Hn as [Hn Hk]. destruct (IH Hn) as [Hlt Heq]. split; [lia|].
    rewrite take_app_le, Heq, take_take by lia. f_equal. lia.
Qed.
End stack.

Lemma filter_below_take (l : list nat) b :
  StronglySorted lt l -> exists k, List.filter (fun p => p <? b) l = take k l.
Proof.
  induction 1 as [|x l _ [k IH] Hx]; [by exists 0|]. cbn [List.filter].
  destruct (Nat.ltb_spec x b) as [|Hge]; [exists (S k); cbn [take]; by rewrite IH|]. exists 0. cbn [take].
  clear IH. induction Hx as [|y l Hy _ IHl]; [done|]. cbn [List.filter]. rewrite (proj2 (Nat.ltb_ge y b)) by lia. exact IHl.
Qed.

Lemma nth_from_end_spec (positions : list nat) n :
  0 < n -> nth_from_end positions n = positions !! (length positions - n).
Proof.
  intros Hn. unfold nth_from_end. destruct (Nat.leb_spec n (length positions)); [done|].
  rewrite head_lookup. f_equal. lia.
Qed.

Section cuts.
Context (from_xml_str : str -> option (str * str)) (new_id : str).
Context (inter_agent_json : str -> option InterAgentCommunication).
Abbreviation user_positions := (user_message_positions_in_rollout from_xml_str new_id).
Abbreviation fork_positions := (fork_turn_positions_in_rollout from_xml_str new_id inter_agent_json).
Abbreviation call_positions := (message_or_tool_call_positions_in_rollout from_xml_str new_id inter_agent_json).
Abbreviation bstep := (boundary_step from_xml_str inter_agent_json).
Abbreviation boundary := (turn_boundary from_xml_str inter_agent_json).

Lemma user_prefix items n cut :
  user_positions items !! n = Some cut ->
  cut < length items /\ user_positions (take cut items) = take n (user_positions items).
Proof.
  apply (stack_prefix (user_position_step from_xml_str new_id) id); [done|].
  intros s idx x _. cbn. destruct x as [|item| | |msg]; cbn; try (right; exists (length s); by rewrite firstn_all).
  - destruct item; try (right; exists (length s); by rewrite firstn_all).
    destruct (is_real_user_message_boundary _ _ _); [by left|]. right; exists (length s); by rewrite firstn_all.
  - destruct msg; try (right; exists (length s); by rewrite firstn_all). right. by eexists.
Qed.

Lemma boundary_step_stack is_boundary s idx x :
  StronglySorted lt (snd s) ->
  snd (bstep is_boundary s idx x) = snd s ++ [idx] \/ exists k, snd (bstep is_boundary s idx x) = take k (snd s).
Proof.
  assert (exists k, snd s = take k (snd s)) as Hsame by (exists (length (snd s)); by rewrite firstn_all).
  intros Hs. destruct s as [rb ps]. cbn [snd] in *. unfold boundary_step.
  destruct x as [|item| | |msg]; try by right.
  - cbn [snd]. destruct (is_boundary item); auto.
  - destruct msg as [n| | | | | |]; try by right. destruct (n =? 0); [by right|].
    destruct (if n <=? length rb then _ else _) as [start|]; [|by right]. right. by apply filter_below_take.
Qed.

Lemma call_prefix items n cut :
  call_positions items !! n = Some cut ->
  cut < length items /\ call_positions (take cut items) = take n (call_positions items).
Proof.
  apply (stack_prefix (bstep (is_message_or_tool_call_boundary from_xml_str new_id)) snd); [done|].
  apply boundary_step_stack.
Qed.

(** A turn from which a fork may start counts for a rollback. *)
Definition fork_boundary (item : ResponseItem) : bool :=
  is_real_user_message_boundary from_xml_str new_id item || is_trigger_turn_boundary inter_agent_json item.

Lemma fork_boundary_turn item : fork_boundary item = true -> boundary item = true.
Proof.
  unfold fork_boundary, is_real_user_message_boundary. intros [H|H]%orb_true_iff.
  - destruct (parse_turn_item from_xml_str new_id item) as [[m| | | | |]|] eqn:E; try done.
    destruct (proj1 (user_message_iff from_xml_str new_id item)) as (id & content & phase & -> & Hc); [by exists m|].
    unfold turn_boundary, is_user_turn_boundary. rewrite Hc. by rewrite bool_decide_eq_true_2.
  - destruct item as [id role content phase| | | | | | | | | | | | | | |]; try done. cbn [is_trigger_turn_boundary] in H.
    apply andb_true_iff in H as [Hr H]. apply bool_decide_eq_true in Hr as ->.
    unfold turn_boundary, is_user_turn_boundary. rewrite (bool_decide_eq_true_2 (lit "assistant" = lit "assistant")) by done.
    unfold is_message_content, from_message_content, is_inter_agent_json in *.
    destruct content as [|[t|?|t] [|]]; cbn in H; try done; cbn; destruct (inter_agent_json t); try done; by rewrite orb_true_r.
Qed.

Abbreviation run st idx l := (enumerate_fold (bstep fork_boundary) st idx l).

(** A position that was taken back does not come back. *)
Lemma taken_back rb ps idx l f :
  f ∉ ps -> f < idx -> f ∉ snd (run (rb, ps) idx l).
Proof.
  revert rb ps idx. induction l as [|x l IH]; intros rb ps idx Hf Hlt; [done|]. cbn [enumerate_fold].
  destruct (bstep fork_boundary (rb, ps) idx x) as [rb' ps'] eqn:E. apply IH; [|lia].
  cut (forall p, p ∈ ps' -> p ∈ ps \/ p = idx); [intros H Hin; apply H in Hin as [?| ->]; [done|lia]|].
  intros p Hp. unfold boundary_step in E. destruct x as [|item| | |msg]; simplify_eq; auto.
  - destruct (fork_boundary item); [|auto]. apply elem_of_app in Hp as [?|Hp]; [auto|].
    apply list_elem_of_singleton in Hp. auto.
  - destruct msg as [n| | | | | |]; simplify_eq; auto. destruct (n =? 0); simplify_eq; auto.
    destruct (if n <=? length rb then _ else _) as [start|]; simplify_eq; auto.
    left. apply list_elem_of_In, filter_In in Hp as [Hp _]. by apply list_elem_of_In.
Qed.

(** Shifted states: what the whole rollout has from the position [f] on is what the rest of it has from 0. *)
Definition shifted (f : nat) (R0 F0 : list nat) (st : list nat * list nat) : list nat * list nat :=
  (R0 ++ map (Nat.add f) (fst st), F0 ++ map (Nat.add f) (snd st)).

Lemma filter_shifted f start F0 k :
  Forall (fun p => p < f) F0 ->
  List.filter (fun p => p <? f + start) (F0 ++ map (Nat.add f) k)
    = F0 ++ map (Nat.add f) (List.filter (fun p => p <? start) k).
Proof.
  intros HF. rewrite List.filter_app. f_equal.
  - induction HF as [|y l Hy _ IH]; [done|]. cbn [List.filter]. rewrite (proj2 (Nat.ltb_lt y (f + start))) by lia.
    by rewrite IH.
  - induction k as [|y k IH]; [done|]. cbn [map List.filter]. rewrite IH.
    destruct (Nat.ltb_spec (f + y) (f + start)), (Nat.ltb_spec y start); try lia; done.
Qed.

Lemma step_shift f R0 F0 r k idx x :
  Forall (fun p => p < f) R0 -> Forall (fun p => p < f) F0 -> Forall (fun p => 0 < p) r ->
  f ∈ snd (bstep fork_boundary (shifted f R0 F0 (0 :: r, 0 :: k)) (f + S idx) x) ->
  exists r' k', Forall (fun p => 0 < p) r' /\
    bstep fork_boundary (0 :: r, 0 :: k) (S idx) x = (0 :: r', 0 :: k') /\
    bstep fork_boundary (shifted f R0 F0 (0 :: r, 0 :: k)) (f + S idx) x = shifted f R0 F0 (0 :: r', 0 :: k').
Proof.
  intros HR HF Hr Hin. destruct x as [|item| | |msg]; try (by exists r, k).
  { exists (if boundary item then r ++ [S idx] else r), (if fork_boundary item then k ++ [S idx] else k).
    unfold shifted. cbn [boundary_step fst snd]. split; [|split].
    - destruct (boundary item); [|done]. apply Forall_app. split; [done|]. apply Forall_singleton. lia.
    - by destruct (boundary item), (fork_boundary item).
    - destruct (boundary item), (fork_boundary item); cbn [map app]; rewrite ?map_app, <- ?app_assoc; done. }
  destruct msg as [n| | | | | |]; try (by exists r, k).
  unfold shifted in *. cbn [boundary_step fst snd] in *. destruct (Nat.eqb_spec n 0) as [->|Hn]; [by exists r, k|].
  rewrite length_app, length_map in *. cbn [length] in *.
  destruct (decide (n <= length r)) as [Hle|Hgt].
  - rewrite (proj2 (Nat.leb_le n (length R0 + S (length r)))) by lia.
    rewrite (proj2 (Nat.leb_le n (S (length r)))) by lia. rewrite lookup_app_r by lia.
    replace (length R0 + S (length r) - n - length R0) with (S (length r - n)) by lia.
    replace (length R0 + S (length r) - n) with (length R0 + S (length r - n)) by lia.
    replace (S (length r) - n) with (S (length r - n)) by lia.
    assert (forall i, map (Nat.add f) (0 :: r) !! S i = Nat.add f <$> r !! i) as Hmap.
    { intros i. apply (list_lookup_fmap (Nat.add f) r i). }
    rewrite Hmap, (lookup_cons_ne_0 r 0), Nat.pred_succ by done.
    destruct (r !! (length r - n)) as [start|] eqn:Es; [|apply lookup_ge_None in Es; lia].
    cbn [fmap option_fmap option_map]. exists (take (length r - n) r), (List.filter (fun p => p <? start) k).
    split; [by apply Forall_take|]. assert (0 < start) as Hs by (by eapply Forall_lookup_1 in Hr).
    assert (List.filter (fun p => p <? start) (0 :: k) = 0 :: List.filter (fun p => p <? start) k) as Hk.
    { cbn [List.filter]. by rewrite (proj2 (Nat.ltb_lt 0 start)). }
    rewrite Hk. split; [done|]. f_equal.
    + rewrite take_app_add. cbn [take map]. do 2 f_equal. by rewrite <- fmap_take.
    + change (f + 0 :: map (Nat.add f) k) with (map (Nat.add f) (0 :: k)). rewrite filter_shifted by done. by rewrite Hk.
  - exfalso. revert Hin.
    assert (exists start, (if n <=? length R0 + S (length r)
      then (R0 ++ map (Nat.add f) (0 :: r)) !! (length R0 + S (length r) - n)
      else head (R0 ++ map (Nat.add f) (0 :: r))) = Some start /\ start <= f) as (start & -> & Hst).
    { assert (forall i, i <= length R0 -> exists p, (R0 ++ map (Nat.add f) (0 :: r)) !! i = Some p /\ p <= f) as H.
      { intros i Hi. destruct (decide (i < length R0)) as [Hlt|Hge].
        - destruct (lookup_lt_is_Some_2 R0 i Hlt) as [p Hp]. exists p. rewrite lookup_app_l by done. split; [done|].
          eapply Forall_lookup_1 in HR; [|exact Hp]. cbn in HR. lia.
        - exists f. rewrite lookup_app_r by lia. replace (i - length R0) with 0 by lia. cbn. split; [f_equal; lia|lia]. }
      destruct (Nat.leb_spec n (length R0 + S (length r))) as [Hl|Hl]; [apply H; lia|].
      rewrite head_lookup. apply H. lia. }
    cbn [snd]. intros Hin. apply list_elem_of_In, filter_In in Hin as [_ Hlt%Nat.ltb_lt]. lia.
Qed.

Lemma run_shift f R0 F0 r k idx l :
  Forall (fun p => p < f) R0 -> Forall (fun p => p < f) F0 -> Forall (fun p => 0 < p) r ->
  f ∈ snd (run (shifted f R0 F0 (0 :: r, 0 :: k)) (f + S idx) l) ->
  exists st, run (0 :: r, 0 :: k) (S idx) l = st /\
    run (shifted f R0 F0 (0 :: r, 0 :: k)) (f + S idx) l = shifted f R0 F0 st.
Proof.
  intros HR HF. revert r k idx. induction l as [|x l IH]; intros r k idx Hr Hin; [by eexists|].
  cbn [enumerate_fold] in *. rewrite <- !Nat.add_succ_r in *.
  destruct (decide (f ∈ snd (bstep fork_boundary (shifted f R0 F0 (0 :: r, 0 :: k)) (f + S idx) x))) as [Hf|Hf].
  - destruct (step_shift f R0 F0 r k idx x HR HF Hr Hf) as (r' & k' & Hr' & E1 & E2).
    rewrite E1, E2 in *. by apply IH.
  - exfalso. destruct (bstep fork_boundary _ _ x) as [rb ps]. refine (taken_back rb ps _ l f Hf _ Hin). lia.
Qed.

Lemma turn_positions_below l : Forall (fun p => p < length l) (fst (run ([], []) 0 l)).
Proof.
  induction l as [|y l IH] using rev_ind; [constructor|]. rewrite enumerate_fold_app, length_app.
  cbn [length enumerate_fold]. rewrite Nat.add_0_l. destruct (run ([], []) 0 l) as [rb ps]. cbn [fst] in *.
  assert (Forall (fun p => p < length l + 1) rb) by (eapply Forall_impl; [exact IH|cbn; lia]).
  unfold boundary_step. destruct y as [|item| | |msg]; try done; cbn [fst].
  - destruct (boundary item); [|done]. apply Forall_app. split; [done|]. apply Forall_singleton. lia.
  - destruct msg as [m| | | | | |]; try done. destruct (m =? 0); [done|].
    destruct (if m <=? length rb then _ else _); [|done]. by apply Forall_take.
Qed.

(** A position that survives was pushed by a turn. *)
Lemma pushed_at rb ps idx x l :
  idx ∉ ps -> idx ∈ snd (run (bstep fork_boundary (rb, ps) idx x) (S idx) l) ->
  exists item, x = Response item /\ fork_boundary item = true.
Proof.
  intros Hno Hin. destruct (bstep fork_boundary (rb, ps) idx x) as [rb' ps'] eqn:E.
  assert (idx ∈ ps') as Hps.
  { destruct (decide (idx ∈ ps')) as [|Hno']; [done|]. destruct (taken_back rb' ps' (S idx) l idx Hno' ltac:(lia) Hin). }
  unfold boundary_step in E. destruct x as [|item| | |msg]; simplify_eq; try done.
  - exists item. split; [done|]. by destruct (fork_boundary item).
  - destruct msg as [m| | | | | |]; simplify_eq; try done. destruct (m =? 0); simplify_eq; try done.
    destruct (if m <=? length rb then _ else _); simplify_eq; try done.
    apply list_elem_of_In, filter_In in Hps as [Hps%list_elem_of_In _]. done.
Qed.

(** Keeping a rollout from a fork turn on keeps the turns from there on. *)
Lemma fork_suffix items n keep :
  fork_positions items !! n = Some keep ->
  keep < length items /\ map (Nat.add keep) (fork_positions (drop keep items)) = drop n (fork_positions items).
Proof.
  intros Hn. unfold fork_turn_positions_in_rollout in *. change (fun item => _ || _) with fork_boundary in *.
  destruct (stack_prefix (bstep fork_boundary) snd ([], []) eq_refl (boundary_step_stack fork_boundary) items n keep Hn)
    as [Hlt Hpre]. split; [done|].
  destruct (lookup_lt_is_Some_2 items keep Hlt) as [x Hx].
  pose proof (take_drop_middle items keep x Hx) as Hsplit.
  assert (drop keep items = x :: drop (S keep) items) as Hdrop by (by rewrite (drop_S items x keep)).
  destruct (stack_sorted (bstep fork_boundary) snd ([], []) eq_refl (boundary_step_stack fork_boundary) (take keep items))
    as [Hsort HF]. rewrite length_take, Nat.min_l in HF by lia.
  pose proof (turn_positions_below (take keep items)) as HR. rewrite length_take, Nat.min_l in HR by lia.
  assert (keep ∈ snd (run ([], []) 0 items)) as Hin by (by eapply list_elem_of_lookup_2).
  assert (Hn' := Hn). rewrite <- Hsplit in Hin, Hn. rewrite Hdrop.
  replace (drop n (snd (run ([], []) 0 items))) with (drop n (snd (run ([], []) 0 (take keep items ++ x :: drop (S keep) items))))
    by (by rewrite Hsplit).
  rewrite enumerate_fold_app in *. rewrite length_take, Nat.min_l in * by lia. cbn [enumerate_fold] in *.
  rewrite Nat.add_0_l in *.
  destruct (run ([], []) 0 (take keep items)) as [R0 F0]. cbn [fst snd] in *.
  destruct (pushed_at R0 F0 keep x (drop (S keep) items)) as (item & -> & Hb); [|done|].
  { intros Hc. eapply Forall_forall in HF; [|exact Hc]. cbn in HF. lia. }
  cbn [boundary_step] in *. rewrite Hb, (fork_boundary_turn item Hb) in *.
  assert ((R0 ++ [keep], F0 ++ [keep]) = shifted keep R0 F0 ([0], [0])) as Hst.
  { unfold shifted. cbn [fst snd map]. by rewrite Nat.add_0_r. }
  rewrite Hst in *. rewrite <- (Nat.add_1_r keep) in *. 
  destruct (run_shift keep R0 F0 [] [] 0 (drop (S keep) items)) as (st & E1 & E2); try done.
  { by rewrite Nat.add_1_r in *. }
  cbn [app]. rewrite Nat.add_1_r in E2 |- *. rewrite E1, E2. unfold shifted. cbn [snd].
  rewrite drop_app_length'; [done|]. rewrite Hpre, length_take. apply lookup_lt_Some in Hn'. lia.
Qed.
End cuts.

(** Cutting a rollout at a turn.  With the markers of rollbacks applied, cutting before the [n]th message of the
    user leaves a prefix whose messages of the user are the first [n], or the whole rollout if there are not so many;
    cutting before the last [n] messages and tool calls leaves a prefix with the ones before them; and keeping the
    last [n] fork turns leaves a suffix whose fork turns are the last [n], all of them if there are not so many, and
    nothing if there are none.  No index is out of bounds. *)
Theorem rollout_cuts_exact from_xml_str new_id inter_agent_json items n :
  let users := user_message_positions_in_rollout from_xml_str new_id in
  let calls := message_or_tool_call_positions_in_rollout from_xml_str new_id inter_agent_json in
  let forks := fork_turn_positions_in_rollout from_xml_str new_id inter_agent_json in
  (exists rest pre,
     items = pre ++ rest /\
     truncate_rollout_before_nth_user_message_from_start from_xml_str new_id items (N.of_nat n) = Some pre /\
     (users pre = take n (users items) \/ N.of_nat n = usize_max /\ rest = []) /\ (length (users items) <= n -> rest = [])) /\
  (exists rest pre,
     items = pre ++ rest /\
     truncate_rollout_before_last_n_message_or_tool_calls from_xml_str new_id inter_agent_json items n = Some pre /\
     calls pre = take (length (calls items) - n) (calls items)) /\
  (exists pre rest,
     items = pre ++ rest /\
     truncate_rollout_to_last_n_fork_turns from_xml_str new_id inter_agent_json items n = Some rest /\
     map (Nat.add (length pre)) (forks rest) = drop (length (forks items) - n) (forks items)).
Proof.
  cbv zeta. split; [|split].
  - unfold truncate_rollout_before_nth_user_message_from_start.
    destruct (N.eqb_spec (N.of_nat n) usize_max) as [He|He].
    { exists [], items. rewrite app_nil_r. repeat split; auto. }
    destruct (N.leb_spec (N.of_nat (length (user_message_positions_in_rollout from_xml_str new_id items))) (N.of_nat n)).
    { exists [], items. rewrite app_nil_r, take_ge by lia. repeat split; auto. }
    rewrite Nat2N.id. destruct (user_message_positions_in_rollout from_xml_str new_id items !! n) as [cut|] eqn:E.
    2: { apply lookup_ge_None in E. lia. }
    destruct (user_prefix _ _ _ _ _ E) as [Hlt Heq]. cbn [mbind option_bind]. unfold slice_to.
    rewrite (proj2 (Nat.leb_le _ _)) by lia. exists (drop cut items), (take cut items). rewrite take_drop. split; [done|].
    split; [done|]. split; [by left|lia].
  - unfold truncate_rollout_before_last_n_message_or_tool_calls. destruct (Nat.eqb_spec n 0) as [->|Hn].
    { exists [], items. rewrite app_nil_r, Nat.sub_0_r, take_ge by done. done. }
    rewrite (nth_from_end_spec _ n) by lia.
    set (P := message_or_tool_call_positions_in_rollout from_xml_str new_id inter_agent_json items).
    destruct (P !! (length P - n)) as [cut|] eqn:E.
    + destruct (call_prefix _ _ _ _ _ _ E) as [Hlt Heq]. unfold slice_to. rewrite (proj2 (Nat.leb_le _ _)) by lia.
      exists (drop cut items), (take cut items). by rewrite take_drop.
    + exists [], items. rewrite app_nil_r. split; [done|]. split; [done|]. apply lookup_ge_None in E. fold P.
      destruct P as [|p P]; [by rewrite take_nil|]. cbn [length] in E. lia.
  - unfold truncate_rollout_to_last_n_fork_turns. destruct (Nat.eqb_spec n 0) as [->|Hn].
    { exists items, []. rewrite app_nil_r, Nat.sub_0_r, drop_ge by done. done. }
    rewrite (nth_from_end_spec _ n) by lia.
    set (P := fork_turn_positions_in_rollout from_xml_str new_id inter_agent_json items).
    destruct (P !! (length P - n)) as [keep|] eqn:E.
    + destruct (fork_suffix _ _ _ _ _ _ E) as [Hlt Heq]. unfold slice_from. rewrite (proj2 (Nat.leb_le _ _)) by lia.
      exists (take keep items), (drop keep items). rewrite take_drop, length_take, Nat.min_l by lia. done.
    + exists items, []. rewrite app_nil_r. split; [done|]. split; [done|]. apply lookup_ge_None in E.
      destruct P as [|p P]; [by rewrite drop_nil|]. cbn [length] in E. lia.
Qed.

Lemma rollout_cuts_exact_witness :
  let user text := Response (Message None (lit "user") [InputText (lit text)] None) in
  let reply text := Response (Message None (lit "assistant") [OutputText (lit text)] None) in
  let items := [SessionMeta; user "a"; reply "b"; user "c"; reply "d"; Event (ThreadRolledBack 1); user "e"; reply "f"]%string in
  exists pre, truncate_rollout_before_nth_user_message_from_start (fun _ => None) [] items 1 = Some pre /\
    user_message_positions_in_rollout (fun _ => None) [] pre = [1] /\ length pre = 6.
Proof.
  intros user reply items.
  destruct (rollout_cuts_exact (fun _ => None) [] (fun _ => None) items 1)
    as ((rest & pre & _ & H & Hu & _) & _).
  exists pre. split; [exact H|]. split.
  - destruct Hu as [->|[Hc _]]; [vm_compute; reflexivity|]. vm_compute in Hc. congruence.
  - revert H. vm_compute. by intros [= <-].
Defined.

End Rollout.
