(* ===== verification/Reconstruction.v ===== *)
(** * Rebuilding a thread from its rollout: core/src/session/rollout_reconstruction.rs

    When a thread is resumed, forked or rolled back, its history and the settings of its last turn are rebuilt from
    the persisted items: a scan from the newest item groups them into turns, skips the turns that a rollback took
    back and looks for the newest surviving checkpoint of a compaction; then the items after it are replayed. *)

From S2P Require Import Prelude Text Truncate ResponseItems ContextFragments OutputTruncation History HistoryTokens.
From S2P Require Import TurnItems Compaction Rollout.
From Stdlib Require Import ZifyBool ZifyN ZifyNat.

Module Reconstruction.
Import ResponseItems OutputTruncation History HistoryTokens TurnItems Compaction Rollout.

(** [codex-rs/core/src/session/mod.rs:297-301 PreviousTurnSettings] *)
Record PreviousTurnSettings := SettingsOf {
  model : str; model_provider_id : option str; realtime_active : option bool }.

(** [codex-rs/core/src/session/rollout_reconstruction.rs:13-27 TurnReferenceContextItem] *)
Inductive TurnReferenceContextItem := NeverSet | Cleared | Latest (item : TurnContextItem).

(** [codex-rs/core/src/session/rollout_reconstruction.rs:29-36 ActiveReplaySegment] *)
Record ActiveReplaySegment := Segment {
  turn_id : option str;
  counts_as_user_turn : bool;
  seg_settings : option PreviousTurnSettings;
  seg_reference : TurnReferenceContextItem;
  seg_base : option (list ResponseItem)
}.
Definition default_segment : ActiveReplaySegment := Segment None false None NeverSet None.

(** [codex-rs/core/src/session/rollout_reconstruction.rs:6-11 RolloutReconstruction] *)
Record RolloutReconstruction := Reconstruction_ {
  rr_history : list ResponseItem;
  rr_previous_turn_settings : option PreviousTurnSettings;
  rr_reference_context_item : option TurnContextItem
}.

(** [codex-rs/core/src/session/rollout_reconstruction.rs:38-41 turn_ids_are_compatible] *)
Definition turn_ids_are_compatible (active_turn_id item_turn_id : option str) : bool :=
  match active_turn_id, item_turn_id with
  | Some active, Some item => bool_decide (item = active)
  | _, _ => true
  end.

(** [codex-rs/core/src/session/rollout_reconstruction.rs:110-121 reconstruct_history_from_rollout] the variables of
    the scan. *)
Record Scan := ScanOf {
  base_replacement_history : option (list ResponseItem);
  previous_turn_settings : option PreviousTurnSettings;
  reference_context : TurnReferenceContextItem;
  pending_rollback_turns : N;
  rollout_suffix : list RolloutItem;
  active_segment : option ActiveReplaySegment
}.

Definition never_set (r : TurnReferenceContextItem) : bool := match r with NeverSet => true | _ => false end.
Definition cleared (r : TurnReferenceContextItem) : bool := match r with Cleared => true | _ => false end.

(** [codex-rs/core/src/session/rollout_reconstruction.rs:43-84 finalize_active_segment] *)
Definition finalize_active_segment (st : Scan) (segment : ActiveReplaySegment) : Scan :=
  if (0 <? pending_rollback_turns st)%N then
    ScanOf (base_replacement_history st) (previous_turn_settings st) (reference_context st)
      (if counts_as_user_turn segment then pending_rollback_turns st - 1 else pending_rollback_turns st)%N
      (rollout_suffix st) None
  else
    ScanOf
      (match base_replacement_history st with Some b => Some b | None => seg_base segment end)
      (match previous_turn_settings st with
       | Some s => Some s
       | None => if counts_as_user_turn segment then seg_settings segment else None
       end)
      (if never_set (reference_context st) && (counts_as_user_turn segment || cleared (seg_reference segment))
       then seg_reference segment else reference_context st)
      (pending_rollback_turns st) (rollout_suffix st) None.

Definition or_default (segment : option ActiveReplaySegment) : ActiveReplaySegment :=
  match segment with Some segment => segment | None => default_segment end.
Definition with_active (st : Scan) (segment : ActiveReplaySegment) : Scan :=
  ScanOf (base_replacement_history st) (previous_turn_settings st) (reference_context st) (pending_rollback_turns st)
    (rollout_suffix st) (Some segment).
Definition with_suffix (st : Scan) (suffix : list RolloutItem) : Scan :=
  ScanOf (base_replacement_history st) (previous_turn_settings st) (reference_context st) (pending_rollback_turns st)
    suffix (active_segment st).
Definition with_pending (st : Scan) (pending : N) : Scan :=
  ScanOf (base_replacement_history st) (previous_turn_settings st) (reference_context st) pending
    (rollout_suffix st) (active_segment st).
Definition set_turn_id (segment : ActiveReplaySegment) (id : option str) : ActiveReplaySegment :=
  Segment (or_else (turn_id segment) id) (counts_as_user_turn segment) (seg_settings segment) (seg_reference segment)
    (seg_base segment).

Section reconstruct.
Context (from_xml_str : str -> option (str * str)) (new_id : str).
Context (inter_agent_json : str -> option InterAgentCommunication).
Context (truncation_policy : TruncationPolicy).
Abbreviation boundary := (turn_boundary from_xml_str inter_agent_json).
Abbreviation Manager_ := (ContextManager TokenUsageInfo TurnContextItem).

(** [codex-rs/core/src/session/rollout_reconstruction.rs:124-225 reconstruct_history_from_rollout] one item of the
    scan; [newer] is [rollout_items[index + 1..]]. *)
Definition scan_item (st : Scan) (newer : list RolloutItem) (item : RolloutItem) : Scan :=
  match item with
  | Compacted compacted =>
      let segment := or_default (active_segment st) in
      let segment :=
        Segment (turn_id segment) (counts_as_user_turn segment) (seg_settings segment)
          (if never_set (seg_reference segment) then Cleared else seg_reference segment) (seg_base segment) in
      match seg_base segment, ci_replacement_history compacted with
      | None, Some replacement_history =>
          with_suffix
            (with_active st
               (Segment (turn_id segment) (counts_as_user_turn segment) (seg_settings segment) (seg_reference segment)
                  (Some replacement_history))) newer
      | _, _ => with_active st segment
      end
  | Event (ThreadRolledBack num_turns) =>
      with_pending st (saturating_add (pending_rollback_turns st) (N.of_nat num_turns))
  | Event (TurnComplete id) => with_active st (set_turn_id (or_default (active_segment st)) (Some id))
  | Event (TurnAborted id) =>
      match active_segment st, id with
      | Some segment, _ => with_active st (set_turn_id segment id)
      | None, Some id => with_active st (set_turn_id default_segment (Some id))
      | None, None => st
      end
  | Event (UserMessage _) =>
      let segment := or_default (active_segment st) in
      with_active st (Segment (turn_id segment) true (seg_settings segment) (seg_reference segment) (seg_base segment))
  | TurnContext ctx =>
      let segment := set_turn_id (or_default (active_segment st)) (tc_turn_id ctx) in
      if turn_ids_are_compatible (turn_id segment) (tc_turn_id ctx) then
        with_active st
          (Segment (turn_id segment) (counts_as_user_turn segment)
             (Some (SettingsOf (tc_model ctx) (tc_model_provider_id ctx) (tc_realtime_active ctx)))
             (if never_set (seg_reference segment) then Latest ctx else seg_reference segment) (seg_base segment))
      else with_active st segment
  | Event (TurnStarted id) =>
      match active_segment st with
      | Some segment =>
          if turn_ids_are_compatible (turn_id segment) (Some id) then finalize_active_segment st segment else st
      | None => st
      end
  | Response response_item =>
      let segment := or_default (active_segment st) in
      with_active st
        (Segment (turn_id segment) (counts_as_user_turn segment || boundary response_item) (seg_settings segment)
           (seg_reference segment) (seg_base segment))
  | Event (ItemCompleted _) | Event (OtherEvent _) | SessionMeta => st
  end.

(** [codex-rs/core/src/session/rollout_reconstruction.rs:227-236 reconstruct_history_from_rollout] *)
Definition scan_done (st : Scan) : bool :=
  match base_replacement_history st, previous_turn_settings st with
  | Some _, Some _ => negb (never_set (reference_context st))
  | _, _ => false
  end.

(** [codex-rs/core/src/session/rollout_reconstruction.rs:123-236 reconstruct_history_from_rollout] *)
Fixpoint scan_loop (st : Scan) (rev_items newer : list RolloutItem) : Scan :=
  match rev_items with
  | [] => st
  | item :: rest =>
      let st := scan_item st newer item in
      if scan_done st then st else scan_loop st rest (item :: newer)
  end.

(** [codex-rs/core/src/session/rollout_reconstruction.rs:110-246 reconstruct_history_from_rollout] *)
Definition scan_rollout (rollout_items : list RolloutItem) : Scan :=
  let st := scan_loop (ScanOf None None NeverSet 0 rollout_items None) (rev rollout_items) [] in
  match active_segment st with Some segment => finalize_active_segment st segment | None => st end.

(** [codex-rs/core/src/session/rollout_reconstruction.rs:260-300 reconstruct_history_from_rollout] the history and
    whether a compaction without a replacement was seen; [None] is a panic. *)
Definition replay_item (st : Manager_ * bool) (item : RolloutItem) : option (Manager_ * bool) :=
  let (history, saw_legacy_compaction) := st in
  match item with
  | Response response_item =>
      history ← record_items history [response_item] truncation_policy;
      Some (history, saw_legacy_compaction)
  | Compacted compacted =>
      match ci_replacement_history compacted with
      | Some replacement_history =>
          history ← replace_recorded_items history replacement_history truncation_policy;
          Some (history, saw_legacy_compaction)
      | None =>
          let user_messages := collect_user_messages from_xml_str new_id (items history) in
          rebuilt ← build_compacted_history [] user_messages (ci_message compacted);
          Some (replace history rebuilt, true)
      end
  | Event (ThreadRolledBack num_turns) =>
      history ← drop_last_n_user_turns from_xml_str (is_inter_agent_json inter_agent_json) history num_turns;
      Some (history, saw_legacy_compaction)
  | Event _ | TurnContext _ | SessionMeta => Some st
  end.

(** [codex-rs/core/src/session/rollout_reconstruction.rs:259-301 reconstruct_history_from_rollout] *)
Fixpoint replay (st : Manager_ * bool) (suffix : list RolloutItem) : option (Manager_ * bool) :=
  match suffix with [] => Some st | item :: suffix => st ← replay_item st item; replay st suffix end.

(** [codex-rs/core/src/session/rollout_reconstruction.rs:100-320 reconstruct_history_from_rollout] *)
Definition reconstruct_history_from_rollout (rollout_items : list RolloutItem) : option RolloutReconstruction :=
  let st := scan_rollout rollout_items in
  history ← match base_replacement_history st with
            | Some base => replace_recorded_items new_manager base truncation_policy
            | None => Some new_manager
            end;
  '(history, saw_legacy_compaction) ← replay (history, false) (rollout_suffix st);
  let reference := match reference_context st with Latest item => Some item | NeverSet | Cleared => None end in
  Some (Reconstruction_ (items history) (previous_turn_settings st)
          (if (saw_legacy_compaction : bool) then None else reference)).

(** [codex-rs/core/src/session/rollout_reconstruction.rs:90-98 reconstruct_history_items_from_rollout] *)
Definition reconstruct_history_items_from_rollout (rollout_items : list RolloutItem) : option (list ResponseItem) :=
  rr_history <$> reconstruct_history_from_rollout rollout_items.
End reconstruct.

(** ** Replaying depends on the items only *)

Section facts.
Context (from_xml_str : str -> option (str * str)) (new_id : str).
Context (inter_agent_json : str -> option InterAgentCommunication).
Context (truncation_policy : TruncationPolicy).
Abbreviation Manager_ := (ContextManager TokenUsageInfo TurnContextItem).
Abbreviation replay_item := (replay_item from_xml_str new_id inter_agent_json truncation_policy).
Abbreviation replay := (replay from_xml_str new_id inter_agent_json truncation_policy).
Abbreviation scan_item := (scan_item from_xml_str inter_agent_json).
Abbreviation scan_loop := (scan_loop from_xml_str inter_agent_json).
Abbreviation scan_rollout := (scan_rollout from_xml_str inter_agent_json).
Abbreviation drop_turns := (drop_last_n_user_turns from_xml_str (is_inter_agent_json inter_agent_json)).

(** The items that a replay ends with. *)
Definition outcome (r : option (Manager_ * bool)) : option (list ResponseItem) := (fun st => items (fst st)) <$> r.

Lemma trim_cut_only {TC} snapshot first cut (r1 r2 : option TC) :
  snd <$> trim_pre_turn_context_updates from_xml_str snapshot first cut r1 =
  snd <$> trim_pre_turn_context_updates from_xml_str snapshot first cut r2.
Proof.
  revert r1 r2. induction cut as [|cut IH]; intros r1 r2; cbn [trim_pre_turn_context_updates]; [done|].
  destruct (first <? S cut); [|done]. destruct (snapshot !! cut) as [item|]; [|done]. cbn [mbind option_bind].
  destruct item; try done. repeat (case_match; [by apply IH|]). done.
Qed.

Lemma drop_items_only (m1 m2 : Manager_) n :
  items m1 = items m2 -> items <$> drop_turns m1 n = items <$> drop_turns m2 n.
Proof.
  intros E. unfold drop_last_n_user_turns. rewrite E. destruct (n =? 0); [cbn; by rewrite E|].
  destruct (user_message_positions _ _ (items m2)) as [|first rest]; [done|].
  match goal with |- context[mbind _ ?c] => destruct c as [cut|]; [|done] end. cbn [mbind option_bind].
  pose proof (trim_cut_only (items m2) first cut (reference_context_item m1) (reference_context_item m2)) as H.
  destruct (trim_pre_turn_context_updates _ _ _ _ (reference_context_item m1)) as [[r1 c1]|],
    (trim_pre_turn_context_updates _ _ _ _ (reference_context_item m2)) as [[r2 c2]|]; cbn in H; try done.
  injection H as ->. cbn [mbind option_bind]. by destruct (c2 <=? length (items m2)).
Qed.

Lemma replay_item_items (m1 m2 : Manager_) b1 b2 item :
  items m1 = items m2 -> outcome (replay_item (m1, b1) item) = outcome (replay_item (m2, b2) item).
Proof.
  intros E. unfold outcome. destruct item as [|r|[msg [repl|]]|ctx|[n| | | | | |]]; cbn [Reconstruction.replay_item ci_replacement_history];
    try (cbn; by rewrite E).
  - unfold record_items. rewrite E. by destruct (record_loop truncation_policy (items m2) [r]).
  - unfold replace_recorded_items. by destruct (record_items new_manager repl truncation_policy).
  - cbn [ci_message]. rewrite E. by destruct (build_compacted_history _ _ _).
  - pose proof (drop_items_only m1 m2 n E) as H. destruct (drop_turns m1 n), (drop_turns m2 n); cbn in *; congruence.
Qed.

Lemma replay_items (m1 m2 : Manager_) b1 b2 l :
  items m1 = items m2 -> outcome (replay (m1, b1) l) = outcome (replay (m2, b2) l).
Proof.
  revert m1 m2 b1 b2. induction l as [|x l IH]; intros m1 m2 b1 b2 E; cbn [Reconstruction.replay]; [cbn; by rewrite E|].
  pose proof (replay_item_items m1 m2 b1 b2 x E) as H. unfold outcome in H.
  destruct (replay_item (m1, b1) x) as [[n1 c1]|], (replay_item (m2, b2) x) as [[n2 c2]|]; cbn in H; try done.
  cbn [mbind option_bind]. apply IH. congruence.
Qed.

Lemma replay_app st l1 l2 : replay st (l1 ++ l2) = st' ← replay st l1; replay st' l2.
Proof.
  revert st. induction l1 as [|x l1 IH]; intros st; [done|]. cbn [app Reconstruction.replay].
  destruct (replay_item st x) as [st'|]; [|done]. cbn [mbind option_bind]. apply IH.
Qed.

(** *** Replaying does not panic *)

(** An item whose texts fit in memory; a compaction carries its replacement. *)
Definition replayable (item : RolloutItem) : Prop :=
  match item with
  | Response r => allocatable_item r
  | Compacted ci => match ci_replacement_history ci with Some l => Forall allocatable_item l | None => False end
  | _ => True
  end.

Lemma record_loop_total l recorded :
  Forall allocatable_item l -> is_Some (record_loop truncation_policy recorded l).
Proof.
  intros Ha. revert recorded. induction Ha as [|x l Hx _ IH]; intros recorded; cbn [record_loop]; [done|].
  destruct (negb (is_api_message x)); [apply IH|].
  destruct (item_processed x truncation_policy Hx) as (y & -> & _). cbn [mbind option_bind]. apply IH.
Qed.

Lemma drop_turns_total (m : Manager_) n : is_Some (drop_turns m n).
Proof.
  unfold drop_last_n_user_turns. destruct (Nat.eqb_spec n 0) as [|Hn]; [done|].
  destruct (user_message_positions _ _ (items m)) as [|first rest] eqn:Hpos; [done|].
  destruct (cut_spec _ _ (items m) n first rest Hpos ltac:(lia)) as (l1 & b & l2 & cut & Hl & Hc & _ & _ & Hle & Hcut).
  rewrite Hpos in Hcut. rewrite Hcut. cbn [mbind option_bind]. subst cut.
  destruct (trim_spec from_xml_str first l1 (b :: l2) (reference_context_item m) Hle) as (a & ctx & -> & Htrim & _).
  rewrite Hl, Htrim. cbn [mbind option_bind]. rewrite (proj2 (Nat.leb_le _ _)); [done|]. rewrite !length_app. lia.
Qed.

Lemma replay_total st l : Forall replayable l -> is_Some (replay st l).
Proof.
  intros Hl. revert st. induction Hl as [|x l Hx _ IH]; intros [m b]; cbn [Reconstruction.replay]; [done|].
  assert (is_Some (replay_item (m, b) x)) as [st' ->]; [|cbn [mbind option_bind]; apply IH].
  destruct x as [|r|[msg [repl|]]|ctx|[n| | | | | |]]; cbn [Reconstruction.replay_item ci_replacement_history]; try done.
  - destruct (record_loop_total [r] (items m)) as [y Hy]; [by constructor|]. unfold record_items. rewrite Hy. done.
  - destruct (record_loop_total repl (items (@new_manager TurnContextItem)) Hx) as [y Hy].
    unfold replace_recorded_items, record_items. rewrite Hy. done.
  - destruct (drop_turns_total m n) as [y ->]. done.
Qed.

(** ** What the scan finds *)

Definition checkpoint_of (item : RolloutItem) : option (list ResponseItem) :=
  match item with Compacted ci => ci_replacement_history ci | _ => None end.

(** The suffix starts after the checkpoint [b] or somewhere before it. *)
Definition covers (b : list ResponseItem) (newer suffix : list RolloutItem) : Prop :=
  exists mid c post, newer = mid ++ c :: post /\ checkpoint_of c = Some b /\
    (suffix = post \/ exists mid', suffix = mid' ++ c :: post /\ exists older, newer = older ++ suffix).

Definition scan_inv (all newer : list RolloutItem) (st : Scan) : Prop :=
  (forall b, base_replacement_history st = Some b -> covers b newer (rollout_suffix st)) /\
  (forall seg b, active_segment st = Some seg -> seg_base seg = Some b -> covers b newer (rollout_suffix st)) /\
  (omap checkpoint_of newer = [] -> rollout_suffix st = all).

Lemma covers_cons b newer suffix item : covers b newer suffix -> covers b (item :: newer) suffix.
Proof.
  intros (mid & c & post & -> & Hc & Hor). exists (item :: mid), c, post. split; [done|]. split; [done|].
  destruct Hor as [|(mid' & -> & older & H)]; [by left|right]. exists mid'. split; [done|]. exists (item :: older). by rewrite H.
Qed.

Lemma covers_newer b newer suffix item : covers b newer suffix -> covers b (item :: newer) newer.
Proof.
  intros (mid & c & post & -> & Hc & _). exists (item :: mid), c, post. split; [done|]. split; [done|].
  right. exists mid. split; [done|]. by exists [item].
Qed.

Lemma finalize_inv all newer st seg :
  scan_inv all newer st -> active_segment st = Some seg -> scan_inv all newer (finalize_active_segment st seg).
Proof.
  intros (H1 & H2 & H3) Hseg. unfold finalize_active_segment.
  destruct (0 <? pending_rollback_turns st)%N; split; cbn [base_replacement_history rollout_suffix active_segment]; auto.
  - by split.
  - destruct (base_replacement_history st) as [b|]; intros b'; [auto|]. by apply H2.
  - by split.
Qed.

Lemma scan_item_inv all newer st item :
  scan_inv all newer st -> scan_inv all (item :: newer) (scan_item st newer item).
Proof.
  intros (H1 & H2 & H3).
  assert (scan_inv all (item :: newer) st) as Hst.
  { split; [|split].
    - intros b Hb. by apply covers_cons, H1.
    - intros seg b Hs Hb. apply covers_cons. by eapply H2.
    - cbn. destruct (checkpoint_of item); [done|]. apply H3. }
  assert (forall seg, seg_base seg = seg_base (or_default (active_segment st)) ->
            scan_inv all (item :: newer) (with_active st seg)) as Hact.
  { intros seg Hs. destruct Hst as (G1 & G2 & G3). split; [exact G1|]. split; [|exact G3].
    cbn [with_active active_segment rollout_suffix]. intros seg' b [= <-] Hb. rewrite Hs in Hb.
    destruct (active_segment st) as [seg0|] eqn:E; [|done]. by eapply G2. }
  destruct item as [|r|[msg repl]|ctx|ev]; cbn [Reconstruction.scan_item]; try done.
  - by apply Hact.
  - cbn [seg_base ci_replacement_history]. destruct (seg_base (or_default (active_segment st))) as [b0|] eqn:Eb; [by apply Hact|].
    destruct repl as [repl|]; [|by apply Hact]. split; [|split]; cbn [with_suffix with_active base_replacement_history rollout_suffix active_segment].
    + intros b Hb. apply (covers_newer b newer (rollout_suffix st)). by apply H1.
    + intros seg b [= <-]. cbn [seg_base]. intros [= <-]. exists [], (Compacted (CompactedOf msg (Some repl))), newer. auto.
    + done.
  - destruct (turn_ids_are_compatible _ _); by apply Hact.
  - destruct ev as [n|id|id|id|ue| |]; try done; try (by apply Hact).
    + destruct (active_segment st) as [seg|] eqn:E; [|done].
      destruct (turn_ids_are_compatible _ _); [|done]. by apply finalize_inv.
    + destruct (active_segment st) as [seg|] eqn:E; [by apply Hact|]. destruct id; [by apply Hact|done].
Qed.

Lemma scan_loop_inv all st rev_items newer :
  scan_inv all newer st ->
  exists seen rest, rev_items = seen ++ rest /\ scan_inv all (rev seen ++ newer) (scan_loop st rev_items newer) /\
    (rest = [] \/ scan_done (scan_loop st rev_items newer) = true).
Proof.
  revert st newer. induction rev_items as [|item rest IH]; intros st newer Hi; cbn [Reconstruction.scan_loop].
  { exists [], []. auto. }
  pose proof (scan_item_inv all newer st item Hi) as Hi'.
  destruct (scan_done (scan_item st newer item)) eqn:Ed.
  - exists [item], rest. auto.
  - destruct (IH _ _ Hi') as (seen & rest' & -> & H & Hor). exists (item :: seen), rest'.
    cbn [rev]. rewrite <- app_assoc. auto.
Qed.

Lemma scan_rollout_inv all :
  exists older newer, all = older ++ newer /\ scan_inv all newer (scan_rollout all) /\
    (older = [] \/ is_Some (base_replacement_history (scan_rollout all))).
Proof.
  unfold Reconstruction.scan_rollout.
  destruct (scan_loop_inv all (ScanOf None None NeverSet 0 all None) (rev all) []) as (seen & rest & Hs & Hinv & Hor).
  { by split; [|split]. }
  set (st := scan_loop _ (rev all) []) in *. rewrite app_nil_r in Hinv. exists (rev rest), (rev seen). split.
  { by rewrite <- rev_app_distr, <- Hs, rev_involutive. }
  assert (rev rest = [] \/ is_Some (base_replacement_history st)) as Hor'.
  { destruct Hor as [->|Hd]; [by left|right]. unfold scan_done in Hd. by destruct (base_replacement_history st). }
  destruct (active_segment st) as [seg|] eqn:E; [|done]. split; [by apply finalize_inv|].
  destruct Hor' as [|[b Hb]]; [by left|right]. unfold finalize_active_segment.
  destruct (0 <? pending_rollback_turns st)%N; cbn [base_replacement_history]; by rewrite Hb.
Qed.

(** The rebuilt history is the replay of the whole rollout when a checkpoint was found, or there is none to find. *)
Lemma reconstructed_history all :
  Forall replayable all ->
  is_Some (base_replacement_history (scan_rollout all)) \/ omap checkpoint_of all = [] ->
  exists r st,
    reconstruct_history_from_rollout from_xml_str new_id inter_agent_json truncation_policy all = Some r /\
    replay (new_manager, false) all = Some st /\ rr_history r = items (fst st).
Proof.
  intros Hall Hcond. destruct (replay_total (new_manager, false) all Hall) as [[h legacy] Hfull].
  destruct (scan_rollout_inv all) as (older & newer & Heq & (Hbase & _ & Hnone) & Hor).
  unfold reconstruct_history_from_rollout.
  destruct (base_replacement_history (scan_rollout all)) as [b|] eqn:Eb.
  2: { assert (older = []) as -> by (destruct Hor as [|[? ?]]; done). cbn [app] in Heq. subst newer.
       destruct Hcond as [[? ?]|Hn]; [done|]. rewrite (Hnone Hn). cbn [mbind option_bind]. rewrite Hfull.
       cbn [mbind option_bind]. by eexists _, _. }
  destruct (Hbase b eq_refl) as (mid & c & post & Hnew & Hc & Hsuf).
  destruct c as [| |[msg repl]| |]; try done. cbn [checkpoint_of ci_replacement_history] in Hc. subst repl.
  assert (all = (older ++ mid) ++ Compacted (CompactedOf msg (Some b)) :: post) as Hsplit by (by rewrite <- app_assoc, <- Hnew).
  assert (Forall allocatable_item b /\ Forall replayable post) as [Hb Hpost].
  { rewrite Hsplit in Hall. apply Forall_app in Hall as [_ Hall]. by apply Forall_cons in Hall. }
  destruct (record_loop_total b (items (@new_manager TurnContextItem)) Hb) as [y Hy].
  assert (forall m : Manager_, replace_recorded_items m b truncation_policy = Some (replace m y)) as Hrep.
  { intros m. unfold replace_recorded_items, record_items. by rewrite Hy. }
  rewrite Hrep. cbn [mbind option_bind].
  (* a replay that passes the checkpoint ends like the replay of what follows it *)
  assert (forall st pre, is_Some (replay st pre) ->
    outcome (replay st (pre ++ Compacted (CompactedOf msg (Some b)) :: post)) = outcome (replay (replace new_manager y, false) post)) as Hpass.
  { intros st pre [[m l] Hst]. rewrite replay_app, Hst. cbn [mbind option_bind Reconstruction.replay Reconstruction.replay_item ci_replacement_history].
    rewrite Hrep. cbn [mbind option_bind]. by apply replay_items. }
  assert (outcome (replay (replace new_manager y, false) (rollout_suffix (scan_rollout all)))
          = outcome (replay (replace new_manager y, false) post)) as Hsuffix.
  { destruct Hsuf as [->|(mid' & Hs & older' & Hn')]; [done|]. rewrite Hs. apply Hpass. apply replay_total.
    rewrite Heq, Hn', Hs in Hall. rewrite !Forall_app in Hall. tauto. }
  rewrite <- (Hpass (new_manager, false) (older ++ mid)), <- Hsplit, Hfull in Hsuffix.
  2: { apply replay_total. rewrite Hsplit in Hall. by apply Forall_app in Hall as [? _]. }
  destruct (replay _ (rollout_suffix (scan_rollout all))) as [[h' l']|] eqn:E; [|done].
  cbn [mbind option_bind]. cbn in Hsuffix. eexists _, _. split; [done|]. split; [exact Hfull|]. cbn. congruence.
Qed.

(** ** Turns *)

(** A turn of a rollout: what is persisted between its start and its end. *)
Record Turn := TurnOf { t_id : str; t_body : list RolloutItem; t_close : list RolloutItem }.

Definition body_item (id : str) (item : RolloutItem) : Prop :=
  match item with
  | Response _ | Compacted _ | SessionMeta | Event (UserMessage _) | Event (ItemCompleted _) | Event (OtherEvent _) => True
  | TurnContext ctx => tc_turn_id ctx = None \/ tc_turn_id ctx = Some id
  | Event _ => False
  end.
Definition closing_item (id : str) (item : RolloutItem) : Prop :=
  item = Event (TurnComplete id) \/ item = Event (TurnAborted (Some id)) \/ item = Event (TurnAborted None).
Definition turn_wf (t : Turn) : Prop := Forall (body_item (t_id t)) (t_body t) /\ Forall (closing_item (t_id t)) (t_close t).
Definition turn_items (t : Turn) : list RolloutItem := Event (TurnStarted (t_id t)) :: t_body t ++ t_close t.

(** What is persisted at the end of a rollout: turns, and the markers of rollbacks between them. *)
Inductive Entry := ETurn (t : Turn) | ERollback (num_turns : nat).
Definition entry_items (e : Entry) : list RolloutItem :=
  match e with ETurn t => turn_items t | ERollback n => [Event (ThreadRolledBack n)] end.
Definition entry_wf (e : Entry) : Prop := match e with ETurn t => turn_wf t | ERollback _ => True end.

(** What a turn says of itself: whether the user started it, the settings it began with, the context it ended with
    and the checkpoint it ended with. *)
Definition counts_item (item : RolloutItem) : bool :=
  match item with
  | Response r => turn_boundary from_xml_str inter_agent_json r
  | Event (UserMessage _) => true
  | _ => false
  end.
Definition settings_of (item : RolloutItem) : option PreviousTurnSettings :=
  match item with
  | TurnContext ctx => Some (SettingsOf (tc_model ctx) (tc_model_provider_id ctx) (tc_realtime_active ctx))
  | _ => None
  end.
Definition reference_of (item : RolloutItem) : option TurnReferenceContextItem :=
  match item with TurnContext ctx => Some (Latest ctx) | Compacted _ => Some Cleared | _ => None end.

Definition user_turn (t : Turn) : bool := existsb counts_item (t_body t).
Definition turn_settings (t : Turn) : option PreviousTurnSettings := head (omap settings_of (t_body t)).
Definition turn_reference (t : Turn) : TurnReferenceContextItem :=
  match last (omap reference_of (t_body t)) with Some r => r | None => NeverSet end.
Definition turn_checkpoint (t : Turn) : option (list ResponseItem) := last (omap checkpoint_of (t_body t)).

(** A rollback takes back turns from the newest until it has taken [n] turns of the user. *)
Fixpoint take_back (n : nat) (rev_turns : list Turn) : list Turn :=
  match n, rev_turns with
  | 0, _ => rev_turns
  | S m, t :: rest => take_back (if user_turn t then m else n) rest
  | S _, [] => []
  end.

(** The turns that survive, the newest first. *)
Definition surviving_step (rev_turns : list Turn) (e : Entry) : list Turn :=
  match e with ETurn t => t :: rev_turns | ERollback n => take_back n rev_turns end.
Definition surviving (entries : list Entry) : list Turn := fold_left surviving_step entries [].

(** *** Scanning a turn *)

(** The part of the scan's state that lasts beyond a turn, but for the suffix. *)
Definition Meta : Type := option (list ResponseItem) * option PreviousTurnSettings * TurnReferenceContextItem * N.
Definition meta (st : Scan) : Meta :=
  (base_replacement_history st, previous_turn_settings st, reference_context st, pending_rollback_turns st).

Definition meta_of_turn (m : Meta) (t : Turn) : Meta :=
  let '(base, settings, reference, pending) := m in
  if (0 <? pending)%N then (base, settings, reference, if user_turn t then pending - 1 else pending)%N
  else (or_else base (turn_checkpoint t),
        or_else settings (if user_turn t then turn_settings t else None),
        if never_set reference && (user_turn t || cleared (turn_reference t)) then turn_reference t else reference,
        pending).

(** The scan without its early exit. *)
Fixpoint scan_all (st : Scan) (rev_items newer : list RolloutItem) : Scan :=
  match rev_items with [] => st | item :: rest => scan_all (scan_item st newer item) rest (item :: newer) end.

Lemma scan_all_app st l1 l2 newer : scan_all st (l1 ++ l2) newer = scan_all (scan_all st l1 newer) l2 (rev l1 ++ newer).
Proof.
  revert st newer. induction l1 as [|x l1 IH]; intros st newer; [done|]. cbn [app scan_all rev].
  by rewrite IH, <- app_assoc.
Qed.

(** The segment that a turn's items build up, as far as they have been seen. *)
Definition summarises (id : str) (seg : ActiveReplaySegment) (seen : list RolloutItem) : Prop :=
  (turn_id seg = None \/ turn_id seg = Some id) /\
  counts_as_user_turn seg = existsb counts_item seen /\
  seg_settings seg = head (omap settings_of seen) /\
  seg_reference seg = match last (omap reference_of seen) with Some r => r | None => NeverSet end /\
  seg_base seg = last (omap checkpoint_of seen).

Lemma last_cons_or {A} (x : A) l : last (x :: l) = or_else (last l) (Some x).
Proof. rewrite last_cons. by destruct (last l). Qed.

Lemma never_set_last (seen : list RolloutItem) :
  never_set (match last (omap reference_of seen) with Some r => r | None => NeverSet end)
    = bool_decide (last (omap reference_of seen) = None).
Proof.
  destruct (last (omap reference_of seen)) as [r|] eqn:E; [|done]. rewrite bool_decide_eq_false_2 by done.
  apply last_Some_elem_of in E. apply list_elem_of_omap in E as (item & _ & Hr).
  destruct item as [| | | |]; cbn in Hr; simplify_eq; done.
Qed.

Lemma body_item_scanned id st newer item seen :
  body_item id item -> summarises id (or_default (active_segment st)) seen ->
  meta (scan_item st newer item) = meta st /\
  summarises id (or_default (active_segment (scan_item st newer item))) (item :: seen).
Proof.
  intros Hb (Hid & Hc & Hs & Hr & Hck). destruct item as [|r|[msg repl]|ctx|ev]; cbn [Reconstruction.scan_item].
  - by split.
  - split; [done|]. unfold summarises. cbn. rewrite Hc, orb_comm. auto.
  - unfold summarises. cbn [seg_base ci_replacement_history]. rewrite Hck.
    assert (forall seg, turn_id seg = turn_id (or_default (active_segment st)) ->
      counts_as_user_turn seg = counts_as_user_turn (or_default (active_segment st)) ->
      seg_settings seg = seg_settings (or_default (active_segment st)) ->
      seg_reference seg = (if never_set (seg_reference (or_default (active_segment st))) then Cleared
                           else seg_reference (or_default (active_segment st))) ->
      seg_base seg = or_else (last (omap checkpoint_of seen)) repl ->
      summarises id seg (Compacted (CompactedOf msg repl) :: seen)) as Hseg.
    { intros seg E1 E2 E3 E4 E5. unfold summarises. rewrite E1, E2, E3, E4, E5. split; [done|]. split; [done|]. split; [done|].
      cbn [omap list_omap reference_of checkpoint_of ci_replacement_history]. split.
      - rewrite last_cons_or. rewrite Hr, never_set_last.
        destruct (last (omap reference_of seen)) eqn:El; cbn [or_else]; [by rewrite bool_decide_eq_false_2|by rewrite bool_decide_eq_true_2].
      - destruct repl as [repl|]; [by rewrite last_cons_or|]. by destruct (last (omap checkpoint_of seen)). }
    destruct (last (omap checkpoint_of seen)) as [b|] eqn:El; [|destruct repl as [repl|]]; (split; [done|]); apply Hseg; try done.
    all: cbn [with_active active_segment or_default seg_base or_else]; rewrite ?Hck; done.
  - assert (turn_ids_are_compatible (turn_id (set_turn_id (or_default (active_segment st)) (tc_turn_id ctx))) (tc_turn_id ctx) = true
      /\ (turn_id (set_turn_id (or_default (active_segment st)) (tc_turn_id ctx)) = None \/
          turn_id (set_turn_id (or_default (active_segment st)) (tc_turn_id ctx)) = Some id)) as [-> Hid'].
    { cbn [set_turn_id turn_id body_item] in *. destruct Hid as [-> | ->], Hb as [-> | ->]; cbn; rewrite ?bool_decide_eq_true_2 by done; auto. }
    split; [done|]. unfold summarises. cbn [with_active active_segment or_default turn_id counts_as_user_turn seg_settings seg_reference seg_base set_turn_id].
    split; [exact Hid'|]. split; [by rewrite Hc|]. split; [done|]. split; [|by rewrite Hck].
    cbn [omap list_omap reference_of]. rewrite last_cons_or, Hr, never_set_last.
    destruct (last (omap reference_of seen)) eqn:El; cbn [or_else]; [by rewrite bool_decide_eq_false_2|by rewrite bool_decide_eq_true_2].
  - by destruct ev.
Qed.

Lemma closing_item_scanned id st newer item seen :
  closing_item id item -> summarises id (or_default (active_segment st)) seen ->
  meta (scan_item st newer item) = meta st /\
  summarises id (or_default (active_segment (scan_item st newer item))) seen.
Proof.
  assert (forall seg o, o = None \/ o = Some id -> summarises id seg seen -> summarises id (set_turn_id seg o) seen) as Hset.
  { intros seg o Ho (Hid & H). split; [|exact H]. cbn. destruct Hid as [-> | ->]; cbn; auto. }
  intros [-> | [-> | ->]] Hs; cbn [Reconstruction.scan_item].
  - split; [done|]. cbn [with_active active_segment or_default]. apply Hset; auto.
  - destruct (active_segment st); (split; [done|]); cbn [with_active active_segment or_default]; apply Hset; auto.
  - destruct (active_segment st) as [seg|] eqn:E; [|by rewrite E]. split; [done|]. cbn [with_active active_segment or_default].
    apply Hset; auto.
Qed.

Lemma closing_scanned id rev_close st newer seen :
  Forall (closing_item id) rev_close -> summarises id (or_default (active_segment st)) seen ->
  meta (scan_all st rev_close newer) = meta st /\
  summarises id (or_default (active_segment (scan_all st rev_close newer))) seen.
Proof.
  intros Hl. revert st newer. induction Hl as [|x l Hx _ IH]; intros st newer Hs; [done|]. cbn [scan_all].
  destruct (closing_item_scanned id st newer x seen Hx Hs) as [Hm Hs'].
  destruct (IH (scan_item st newer x) (x :: newer) Hs') as [-> ?]. by rewrite Hm.
Qed.

Lemma body_scanned id rev_body st newer seen :
  Forall (body_item id) rev_body -> summarises id (or_default (active_segment st)) seen ->
  meta (scan_all st rev_body newer) = meta st /\
  summarises id (or_default (active_segment (scan_all st rev_body newer))) (rev rev_body ++ seen).
Proof.
  intros Hl. revert st newer seen. induction Hl as [|x l Hx _ IH]; intros st newer seen Hs; [done|]. cbn [scan_all rev].
  destruct (body_item_scanned id st newer x seen Hx Hs) as [Hm Hs'].
  destruct (IH (scan_item st newer x) (x :: newer) _ Hs') as [-> ?]. rewrite <- app_assoc. by rewrite Hm.
Qed.

Lemma finalized_meta st seg t :
  summarises (t_id t) seg (t_body t) -> meta (finalize_active_segment st seg) = meta_of_turn (meta st) t.
Proof.
  intros (_ & Hc & Hs & Hr & Hck). unfold finalize_active_segment, meta_of_turn, meta, user_turn, turn_settings,
    turn_reference, turn_checkpoint. rewrite Hc, Hs, Hr, Hck.
  destruct (0 <? pending_rollback_turns st)%N; [done|].
  by destruct (base_replacement_history st), (previous_turn_settings st).
Qed.

Lemma turn_scanned t st newer :
  turn_wf t -> active_segment st = None ->
  active_segment (scan_all st (rev (turn_items t)) newer) = None /\
  meta (scan_all st (rev (turn_items t)) newer) = meta_of_turn (meta st) t.
Proof.
  intros [Hb Hc] Ha. unfold turn_items. cbn [rev]. rewrite rev_app_distr, !scan_all_app.
  destruct (closing_scanned (t_id t) (rev (t_close t)) st newer []) as [Hm Hs].
  { by apply Forall_rev. }
  { rewrite Ha. unfold summarises. cbn. auto. }
  set (st1 := scan_all st (rev (t_close t)) newer) in *.
  destruct (body_scanned (t_id t) (rev (t_body t)) st1 (rev (rev (t_close t)) ++ newer) []) as [Hm2 Hs2]; [by apply Forall_rev|done|].
  rewrite (rev_involutive (t_body t)), app_nil_r in Hs2. rewrite Hm in Hm2.
  set (st2 := scan_all st1 _ _) in *. cbn [scan_all Reconstruction.scan_item].
  destruct (active_segment st2) as [seg|] eqn:E; cbn [or_default] in Hs2.
  - assert (turn_ids_are_compatible (turn_id seg) (Some (t_id t)) = true) as ->.
    { destruct Hs2 as [[-> | ->] _]; [done|]. by apply bool_decide_eq_true_2. }
    split; [unfold finalize_active_segment; by destruct (0 <? pending_rollback_turns st2)%N|].
    rewrite (finalized_meta st2 seg t Hs2). by rewrite Hm2.
  - split; [done|]. rewrite <- Hm2, <- (finalized_meta st2 default_segment t Hs2).
    unfold meta, finalize_active_segment. cbn. rewrite andb_false_r.
    destruct (0 <? pending_rollback_turns st2)%N; [done|].
    by destruct (base_replacement_history st2), (previous_turn_settings st2).
Qed.

(** *** Scanning a rollout *)

Definition meta_of_entry (e : Entry) (m : Meta) : Meta :=
  match e with
  | ETurn t => meta_of_turn m t
  | ERollback n => let '(base, settings, reference, pending) := m in
                   (base, settings, reference, saturating_add pending (N.of_nat n))
  end.

Lemma entries_scanned entries st newer :
  Forall entry_wf entries -> active_segment st = None ->
  active_segment (scan_all st (rev (flat_map entry_items entries)) newer) = None /\
  meta (scan_all st (rev (flat_map entry_items entries)) newer) = foldr meta_of_entry (meta st) entries.
Proof.
  revert st newer. induction entries as [|e entries IH] using rev_ind; intros st newer Hwf Ha; [done|].
  apply Forall_app in Hwf as [Hwf He]. apply Forall_cons in He as [He _].
  rewrite flat_map_app, rev_app_distr, scan_all_app, foldr_app. cbn [flat_map]. rewrite app_nil_r.
  destruct e as [t|n]; cbn [entry_items foldr meta_of_entry].
  - destruct (turn_scanned t st newer He Ha) as [Ha' Hm]. rewrite <- Hm. by apply IH.
  - cbn [rev app scan_all Reconstruction.scan_item].
    destruct (IH (with_pending st (saturating_add (pending_rollback_turns st) (N.of_nat n))) (Event (ThreadRolledBack n) :: newer) Hwf)
      as [? ->]; done.
Qed.

(** *** Turns that survive *)

Lemma take_back_nil n : take_back n [] = [].
Proof. by destruct n. Qed.

Lemma take_back_0 l : take_back 0 l = l.
Proof. by destruct l. Qed.

Lemma take_back_add p n l : take_back p (take_back n l) = take_back (p + n) l.
Proof.
  revert p n. induction l as [|t l IH]; intros p n; [by rewrite !take_back_nil|].
  destruct n as [|n]; [by rewrite Nat.add_0_r|]. rewrite Nat.add_succ_r. cbn [take_back].
  destruct (user_turn t); rewrite IH; [done|]. f_equal. lia.
Qed.

Definition Fields : Type := option (list ResponseItem) * option PreviousTurnSettings * TurnReferenceContextItem.

(** A surviving turn fills in what the newer ones left open. *)
Definition fill (f : Fields) (t : Turn) : Fields :=
  let '(base, settings, reference) := f in
  (or_else base (turn_checkpoint t),
   or_else settings (if user_turn t then turn_settings t else None),
   if never_set reference && (user_turn t || cleared (turn_reference t)) then turn_reference t else reference).

Definition rollbacks (entries : list Entry) : N :=
  foldr (fun e n => match e with ERollback k => N.of_nat k + n | ETurn _ => n end)%N 0%N entries.

Lemma entries_surviving entries f p :
  (p + rollbacks entries <= usize_max)%N ->
  fst (foldr meta_of_entry (f, p) entries) = fold_left fill (take_back (N.to_nat p) (surviving entries)) f.
Proof.
  revert f p. induction entries as [|e entries IH] using rev_ind; intros f p Hp.
  { unfold surviving. cbn [fold_left foldr fst]. by rewrite take_back_nil. }
  assert (rollbacks (entries ++ [e]) = rollbacks entries + rollbacks [e])%N as Hr.
  { clear. unfold rollbacks. induction entries as [|x l IH]; [done|]. cbn [app foldr] in *. rewrite IH. destruct x, e; lia. }
  rewrite Hr in Hp. unfold surviving. rewrite foldr_app, fold_left_app. cbn [foldr fold_left]. fold (surviving entries).
  destruct f as [[base settings] reference]. destruct e as [t|n]; cbn [meta_of_entry surviving_step rollbacks foldr] in *.
  - unfold meta_of_turn. destruct (N.ltb_spec 0 p) as [Hpos|Hz].
    + rewrite IH by (destruct (user_turn t); lia). destruct (N.to_nat p) as [|q] eqn:Eq; [lia|]. cbn [take_back].
      f_equal. f_equal. destruct (user_turn t); lia.
    + assert (p = 0)%N as -> by lia. rewrite IH by lia. cbn [N.to_nat]. by rewrite !take_back_0.
  - unfold saturating_add. rewrite N.min_l by lia. rewrite IH by lia.
    rewrite N2Nat.inj_add, Nat2N.id. by rewrite take_back_add.
Qed.

(** What the surviving turns say, the newest first. *)
Definition newest_checkpoint (turns : list Turn) : option (list ResponseItem) := head (omap turn_checkpoint turns).
Definition newest_settings (turns : list Turn) : option PreviousTurnSettings :=
  head (omap (fun t => if user_turn t then turn_settings t else None) turns).
Definition newest_reference (turns : list Turn) : option TurnReferenceContextItem :=
  head (omap (fun t => if (user_turn t || cleared (turn_reference t)) && negb (never_set (turn_reference t))
                       then Some (turn_reference t) else None) turns).

Lemma or_else_assoc {A} (a b c : option A) : or_else (or_else a b) c = or_else a (or_else b c).
Proof. by destruct a. Qed.

Lemma filled turns base settings reference :
  fold_left fill turns (base, settings, reference) =
    (or_else base (newest_checkpoint turns), or_else settings (newest_settings turns),
     if never_set reference then match newest_reference turns with Some r => r | None => NeverSet end else reference).
Proof.
  assert (forall {A B} (f : A -> option B) x l, head (omap f (x :: l)) = or_else (f x) (head (omap f l))) as Hh.
  { intros A B f x l. cbn. by destruct (f x). }
  revert base settings reference. induction turns as [|t turns IH]; intros base settings reference.
  { cbn. by destruct base, settings, reference. }
  cbn [fold_left fill]. rewrite IH, !or_else_assoc. unfold newest_checkpoint, newest_settings, newest_reference.
  rewrite !Hh. do 2 f_equal. destruct (never_set reference) eqn:En; cbn [andb]; [|by rewrite En].
  destruct (user_turn t || cleared (turn_reference t)); cbn [andb or_else]; [|by rewrite En].
  by destruct (turn_reference t).
Qed.

(** *** The early exit *)

Definition finish (st : Scan) : Scan :=
  match active_segment st with Some segment => finalize_active_segment st segment | None => st end.

Lemma done_finalize st seg : scan_done st = true -> fst (meta (finalize_active_segment st seg)) = fst (meta st).
Proof.
  unfold scan_done, finalize_active_segment, meta. destruct (base_replacement_history st); [|done].
  destruct (previous_turn_settings st); [|done]. intros H%negb_true_iff. rewrite H. cbn.
  by destruct (0 <? pending_rollback_turns st)%N.
Qed.

Lemma done_item st newer item : scan_done st = true -> fst (meta (scan_item st newer item)) = fst (meta st).
Proof.
  intros Hd. destruct item as [|r|[msg repl]|ctx|[n|id|id|id|ue| |]]; cbn [Reconstruction.scan_item]; try done.
  - by destruct (seg_base _), repl.
  - by destruct (turn_ids_are_compatible _ _).
  - destruct (active_segment st) as [seg|]; [|done]. destruct (turn_ids_are_compatible _ _); [|done]. by apply done_finalize.
  - by destruct (active_segment st), id.
Qed.

Lemma done_fields st st' : fst (meta st) = fst (meta st') -> scan_done st = scan_done st'.
Proof. unfold scan_done, meta. cbn. by intros [= -> -> ->]. Qed.

Lemma done_all l st newer : scan_done st = true -> fst (meta (scan_all st l newer)) = fst (meta st).
Proof.
  revert st newer. induction l as [|x l IH]; intros st newer Hd; [done|]. cbn [scan_all].
  pose proof (done_item st newer x Hd) as E. rewrite IH; [done|]. by rewrite (done_fields _ _ E).
Qed.

Lemma done_finish st : scan_done st = true -> fst (meta (finish st)) = fst (meta st).
Proof. intros Hd. unfold finish. destruct (active_segment st); [by apply done_finalize|done]. Qed.

Lemma scan_loop_fields l st newer :
  fst (meta (finish (scan_loop st l newer))) = fst (meta (finish (scan_all st l newer))).
Proof.
  revert st newer. induction l as [|x l IH]; intros st newer; [done|]. cbn [Reconstruction.scan_loop scan_all].
  destruct (scan_done (scan_item st newer x)) eqn:Ed; [|apply IH].
  pose proof (done_all l (scan_item st newer x) (x :: newer) Ed) as E.
  rewrite done_finish by done. rewrite done_finish by (by rewrite (done_fields _ _ E)). by rewrite E.
Qed.

(** The scan of a rollout made of turns finds what the surviving turns say. *)
Lemma scan_rollout_turns preamble entries :
  Forall (eq SessionMeta) preamble -> Forall entry_wf entries -> (rollbacks entries <= usize_max)%N ->
  fst (meta (scan_rollout (preamble ++ flat_map entry_items entries))) =
    (newest_checkpoint (surviving entries), newest_settings (surviving entries),
     match newest_reference (surviving entries) with Some r => r | None => NeverSet end).
Proof.
  intros Hpre Hwf Hr. unfold Reconstruction.scan_rollout. set (all := preamble ++ _).
  set (st0 := ScanOf None None NeverSet 0 all None).
  transitivity (fst (meta (finish (scan_all st0 (rev all) [])))); [apply scan_loop_fields|].
  subst all. rewrite rev_app_distr, scan_all_app.
  destruct (entries_scanned entries st0 [] Hwf eq_refl) as [Ha Hm].
  set (st1 := scan_all st0 _ _) in *.
  assert (forall newer, scan_all st1 (rev preamble) newer = st1) as ->.
  { apply Forall_rev in Hpre. clear -Hpre. induction Hpre as [|x l <- _ IH]; intros newer; [done|]. apply IH. }
  unfold finish. rewrite Ha, Hm. unfold meta. cbn [base_replacement_history previous_turn_settings reference_context pending_rollback_turns st0].
  rewrite entries_surviving by lia. cbn [N.to_nat]. rewrite take_back_0, filled. done.
Qed.

(** *** The whole *)

Lemma replay_flag l m m' f : Forall replayable l -> replay (m, false) l = Some (m', f) -> f = false.
Proof.
  intros Hl. revert m. induction Hl as [|x l Hx _ IH]; intros m; cbn [Reconstruction.replay]; [by intros [= _ <-]|].
  destruct (replay_item (m, false) x) as [[m1 f1]|] eqn:E; [|done]. cbn [mbind option_bind].
  assert (f1 = false) as ->; [|apply IH].
  destruct x as [|r|[msg [repl|]]|ctx|[n| | | | | |]]; cbn [Reconstruction.replay_item ci_replacement_history] in E; try done; try (by injection E).
  - destruct (record_items m [r] truncation_policy); cbn in E; by simplify_eq.
  - destruct (replace_recorded_items m repl truncation_policy); cbn in E; by simplify_eq.
  - destruct (drop_turns m n); cbn in E; by simplify_eq.
Qed.

Lemma scan_suffix_forall (P : RolloutItem -> Prop) l st newer :
  Forall P l -> Forall P newer -> Forall P (rollout_suffix st) -> Forall P (rollout_suffix (scan_loop st l newer)).
Proof.
  intros Hl. revert st newer. induction Hl as [|x l Hx _ IH]; intros st newer Hn Hs; [done|]. cbn [Reconstruction.scan_loop].
  assert (Forall P (rollout_suffix (scan_item st newer x))) as Hs'.
  { destruct x as [|r|[msg repl]|ctx|[n|id|id|id|ue| |]]; cbn [Reconstruction.scan_item]; try done.
    - by destruct (seg_base _), repl.
    - by destruct (turn_ids_are_compatible _ _).
    - destruct (active_segment st) as [seg|]; [|done]. destruct (turn_ids_are_compatible _ _); [|done].
      unfold finalize_active_segment. by destruct (0 <? pending_rollback_turns st)%N.
    - by destruct (active_segment st), id. }
  destruct (scan_done _); [done|]. apply IH; [by constructor|done].
Qed.

Lemma reconstruct_total all :
  Forall replayable all ->
  exists r, reconstruct_history_from_rollout from_xml_str new_id inter_agent_json truncation_policy all = Some r /\
    rr_previous_turn_settings r = previous_turn_settings (scan_rollout all) /\
    rr_reference_context_item r = match reference_context (scan_rollout all) with Latest item => Some item | _ => None end.
Proof.
  intros Hall. unfold reconstruct_history_from_rollout.
  assert (Forall replayable (rollout_suffix (scan_rollout all))) as Hsuf.
  { unfold Reconstruction.scan_rollout. set (st := scan_loop _ _ _).
    assert (Forall replayable (rollout_suffix st)) by (apply scan_suffix_forall; [by apply Forall_rev|done|done]).
    destruct (active_segment st) as [seg|]; [|done]. unfold finalize_active_segment.
    by destruct (0 <? pending_rollback_turns st)%N. }
  assert (exists m : Manager_, match base_replacement_history (scan_rollout all) with
            | Some base => replace_recorded_items new_manager base truncation_policy | None => Some new_manager end = Some m) as [m Hm].
  { destruct (base_replacement_history (scan_rollout all)) as [b|] eqn:Eb; [|by eexists].
    destruct (scan_rollout_inv all) as (older & newer & Heq & (Hbase & _) & _).
    destruct (Hbase b Eb) as (mid & c & post & Hnew & Hc & _). rewrite Heq, Hnew in Hall.
    rewrite !Forall_app, Forall_cons in Hall. destruct Hall as (_ & _ & Hrc & _).
    destruct c as [| |[msg repl]| |]; try done. cbn in Hc, Hrc. subst repl.
    destruct (record_loop_total b (items (@new_manager TurnContextItem)) Hrc) as [y Hy].
    unfold replace_recorded_items, record_items. rewrite Hy. by eexists. }
  rewrite Hm. cbn [mbind option_bind]. destruct (replay_total (m, false) _ Hsuf) as [[h f] Hh]. rewrite Hh.
  rewrite (replay_flag _ _ _ _ Hsuf Hh). cbn [mbind option_bind]. by eexists.
Qed.
End facts.

(** C28: a thread rebuilt from its rollout. For a rollout made of turns and of the markers of rollbacks between them,
    in which every compaction carries its replacement history (compactions of older versions do not) and every output
    can be allocated, rebuilding succeeds; the settings are those with which the newest surviving turn of the user
    that recorded any began; the context is the one that the newest surviving turn left among the turns of the user
    that recorded one and all turns, of the user or not, that end without one because they compacted: it is cleared if
    that turn ends so; and the history is what replaying the whole rollout from an empty history gives, if a surviving
    turn has a checkpoint or no turn has one. *)
Theorem thread_rebuilt from_xml_str new_id inter_agent_json policy preamble entries :
  let rollout := preamble ++ flat_map entry_items entries in
  let survivors := surviving from_xml_str inter_agent_json entries in
  Forall (eq SessionMeta) preamble -> Forall entry_wf entries -> (rollbacks entries <= usize_max)%N ->
  Forall replayable rollout ->
  exists r,
    reconstruct_history_from_rollout from_xml_str new_id inter_agent_json policy rollout = Some r /\
    rr_previous_turn_settings r = newest_settings from_xml_str inter_agent_json survivors /\
    rr_reference_context_item r =
      match newest_reference from_xml_str inter_agent_json survivors with Some (Latest item) => Some item | _ => None end /\
    (is_Some (newest_checkpoint survivors) \/ omap checkpoint_of rollout = [] ->
     exists st, replay from_xml_str new_id inter_agent_json policy (new_manager, false) rollout = Some st /\
       rr_history r = items (fst st)).
Proof.
  intros rollout survivors Hpre Hwf Hr Hall.
  pose proof (scan_rollout_turns from_xml_str inter_agent_json preamble entries Hpre Hwf Hr) as Hscan.
  fold rollout survivors in Hscan. unfold meta in Hscan. cbn [fst] in Hscan. injection Hscan as Hbase Hset Href.
  destruct (reconstruct_total from_xml_str new_id inter_agent_json policy rollout Hall) as (r & Hrec & Hs & Hc).
  exists r. split; [done|]. split; [by rewrite Hs, Hset|]. split.
  { rewrite Hc, Href. by destruct (newest_reference _ _ _) as [[]|]. }
  intros Hor. destruct (reconstructed_history from_xml_str new_id inter_agent_json policy rollout Hall) as (r' & st & Hr' & Hst & Hh).
  { rewrite Hbase. done. }
  exists st. split; [done|]. congruence.
Qed.

Definition example_context (id : string) : TurnContextItem := TurnContextOf (Some (lit id)) (lit "model") None None [].
Definition example_turn (id text reply : string) (rest : list RolloutItem) : Turn :=
  TurnOf (lit id)
    ([TurnContext (example_context id); Response (user_text (lit text))] ++ rest
     ++ [Response (Message None (lit "assistant") [OutputText (lit reply)] None)])
    [Event (TurnComplete (lit id))].

Lemma thread_rebuilt_witness :
  let entries := [ETurn (example_turn "1" "hi" "hello" []); ETurn (example_turn "2" "again" "yes" []); ERollback 1] in
  exists r st,
    reconstruct_history_from_rollout (fun _ => None) [] (fun _ => None) (Bytes 1000)
      ([SessionMeta] ++ flat_map entry_items entries) = Some r /\
    rr_previous_turn_settings r = Some (SettingsOf (lit "model") None None) /\
    rr_reference_context_item r = Some (example_context "1") /\
    replay (fun _ => None) [] (fun _ => None) (Bytes 1000) (new_manager, false) ([SessionMeta] ++ flat_map entry_items entries)
      = Some st /\
    rr_history r = items (fst st) /\ length (rr_history r) = 2.
Proof.
  intros entries.
  destruct (thread_rebuilt (fun _ => None) [] (fun _ => None) (Bytes 1000) [SessionMeta] entries) as (r & Hr & Hs & Hc & Hh).
  - repeat constructor.
  - repeat first [apply Forall_nil_2 | apply Forall_cons_2 | split]; cbn; unfold closing_item; auto.
  - vm_compute. congruence.
  - repeat constructor.
  - destruct Hh as (st & Hst & Hh); [by right|]. exists r, st. split; [exact Hr|]. split; [rewrite Hs; vm_compute; reflexivity|].
    split; [rewrite Hc; vm_compute; reflexivity|]. split; [exact Hst|]. split; [exact Hh|].
    revert Hr. vm_compute. by intros [= <-].
Defined.

(** When the only turn with a checkpoint is rolled back, what came after the checkpoint in that turn stays, while a
    replay of the whole rollout drops it. *)
Example rolled_back_checkpoint :
  let entries := [ETurn (example_turn "1" "hi" "hello" []);
                  ETurn (example_turn "2" "again" "yes" [Compacted (CompactedOf [] (Some [user_text (lit "summary")]))]);
                  ERollback 1] in
  reconstruct_history_items_from_rollout (fun _ => None) [] (fun _ => None) (Bytes 1000) (flat_map entry_items entries)
    = Some [Message None (lit "assistant") [OutputText (lit "yes")] None] /\
  outcome (replay (fun _ => None) [] (fun _ => None) (Bytes 1000) (new_manager, false) (flat_map entry_items entries)) = Some [].
Proof. split; vm_compute; reflexivity. Qed.

End Reconstruction.
