(* ===== verification/SessionHistory.v ===== *)
(** * The history of a session and its rollout: core/src/session, core/src/compact.rs, rollout/src/policy.rs

    A session keeps its history in memory and persists what happens in a rollout.  This file has the operations that
    change both: recording items, establishing the context of a turn, compacting, rolling back; and the task that
    compacts a history with the model, with its retries.  The thread store is taken to append what it is given
    (an append that fails is only logged by the code), and the model is a parameter: what it streams back for the
    input of each attempt. *)

From S2P Require Import Prelude Text Truncate HiddenTags ResponseItems ContextFragments OutputTruncation History.
From S2P Require Import HistoryTokens TurnItems Compaction Rollout Reconstruction.
From Stdlib Require Import ZifyBool ZifyN ZifyNat.

Module SessionHistory.
Import Truncate ResponseItems OutputTruncation History HistoryTokens TurnItems Compaction Rollout Reconstruction.

(** ** What is persisted *)

(** [codex-rs/rollout/src/policy.rs:29-49 should_persist_response_item] *)
Definition should_persist_response_item (item : ResponseItem) : bool :=
  match item with CompactionTrigger | Other => false | _ => true end.

(** [codex-rs/rollout/src/policy.rs:52-72 should_persist_response_item_for_memories] *)
Definition should_persist_response_item_for_memories (item : ResponseItem) : bool :=
  match item with
  | Message _ role _ _ => negb (bool_decide (role = lit "developer"))
  | LocalShellCall _ _ _ _ | FunctionCall _ _ _ _ _ | ToolSearchCall _ _ _ _ _ | FunctionCallOutput _ _
  | ToolSearchOutput _ _ _ _ | CustomToolCall _ _ _ _ _ _ | CustomToolCallOutput _ _ _ | WebSearchCall _ _ _ => true
  | AgentMessage _ _ _ | Reasoning _ _ _ _ | ImageGenerationCall _ _ _ _ | Compaction _ | CompactionTrigger
  | ContextCompaction _ | Other => false
  end.

(** [codex-rs/rollout/src/policy.rs:75-162 should_persist_event_msg] *)
Definition should_persist_event_msg (ev : EventMsg) : bool :=
  match ev with
  | UserMessage _ | ThreadRolledBack _ | TurnAborted _ | TurnStarted _ | TurnComplete _ => true
  | ItemCompleted plan => plan
  | OtherEvent variant =>
      bool_decide (variant ∈ ["AgentMessage"; "AgentReasoning"; "AgentReasoningRawContent"; "PatchApplyEnd"; "TokenCount";
        "ThreadGoalUpdated"; "ThreadGoalPlanUpdated"; "ThreadNameUpdated"; "ContextCompacted"; "EnteredReviewMode";
        "ExitedReviewMode"; "McpToolCallEnd"; "WebSearchEnd"; "ImageGenerationEnd"]%string)
  end.

(** [codex-rs/rollout/src/policy.rs:6-15 is_persisted_rollout_item] *)
Definition is_persisted_rollout_item (item : RolloutItem) : bool :=
  match item with
  | Response item => should_persist_response_item item
  | Event ev => should_persist_event_msg ev
  | Compacted _ | TurnContext _ | SessionMeta => true
  end.

(** [codex-rs/rollout/src/policy.rs:18-26 persisted_rollout_items] *)
Definition persisted_rollout_items (items : list RolloutItem) : list RolloutItem :=
  List.filter is_persisted_rollout_item items.

(** ** Sessions *)

Abbreviation Manager_ := (ContextManager TokenUsageInfo TurnContextItem).

(** The history in memory and the rollout in the store. *)
Record Session := SessionOf { s_history : Manager_; s_rollout : list RolloutItem }.

(** [codex-rs/core/src/session/mod.rs:3424-3430 persist_rollout_items] and thread-store's [append_items]. *)
Definition persist_rollout_items (self : Session) (items : list RolloutItem) : Session :=
  SessionOf (s_history self) (s_rollout self ++ persisted_rollout_items items).

Definition with_history (self : Session) (history : Manager_) : Session := SessionOf history (s_rollout self).

(** [codex-rs/core/src/context_manager/history.rs:85-87 set_reference_context_item] *)
Definition set_reference_context_item (self : Manager_) (item : option TurnContextItem) : Manager_ :=
  Manager (items self) (history_version self) (token_info self) item.

(** [codex-rs/core/src/state/session.rs:108-117 replace_history] *)
Definition replace_history (self : Session) (new_items : list ResponseItem) (reference : option TurnContextItem) : Session :=
  with_history self (set_reference_context_item (replace (s_history self) new_items) reference).

(** [codex-rs/core/src/session/mod.rs:3097-3120 replace_compacted_history] *)
Definition replace_compacted_history (self : Session) (new_items : list ResponseItem) (reference : option TurnContextItem)
    (compacted_item : CompactedItem) : Session :=
  let self := replace_history self new_items reference in
  let self := persist_rollout_items self [Compacted compacted_item] in
  match reference with
  | Some turn_context_item => persist_rollout_items self [TurnContext turn_context_item]
  | None => self
  end.

(** [codex-rs/protocol/src/error.rs:68-164 CodexErr] the errors that are told apart here, and the others by their name. *)
Inductive CodexErr :=
| TurnAbortedErr
| Interrupted
| ContextWindowExceeded
| Stream (message : str)
| Fatal (message : str)
| InvalidRequest (message : str)
| UnexpectedStatus
| UsageLimitReached
| ServerOverloaded
| InternalServerError
| RetryLimit
| OtherErr (variant : string).

(** [codex-rs/core/src/compact_model_fallback.rs:8-19 should_retry_with_current_model] *)
Definition should_retry_with_current_model (error : CodexErr) : bool :=
  match error with
  | InvalidRequest _ | UnexpectedStatus | ContextWindowExceeded | UsageLimitReached | ServerOverloaded
  | InternalServerError | RetryLimit => true
  | _ => false
  end.

Inductive CompactionStatus := StatusCompleted | StatusInterrupted | StatusFailed.

(** [codex-rs/core/src/compact.rs:397-403 compaction_status_from_result] *)
Definition compaction_status_from_result {A} (r : result CodexErr A) : CompactionStatus :=
  match r with
  | Ok _ => StatusCompleted
  | Err Interrupted | Err TurnAbortedErr => StatusInterrupted
  | Err _ => StatusFailed
  end.

(** The events of a response that are told apart here. *)
Inductive ResponseEvent :=
| OutputItemDone (item : ResponseItem)
| ResponseCompleted (response_id : str) (token_usage : option TokenUsage)
| OtherResponseEvent.

(** [codex-rs/core/src/compact_remote_v2.rs:545-574 collect_compaction_output] the state is
    [(output_item_count, compaction_count, compaction_output)]; the result is the state and what completed. *)
Fixpoint collect_events (events : list (result CodexErr ResponseEvent)) (st : N * N * option ResponseItem)
    : result CodexErr (N * N * option ResponseItem * option (str * option TokenUsage)) :=
  match events with
  | [] => Ok (st, None)
  | Err e :: _ => Err e
  | Ok (OutputItemDone item) :: events =>
      let '(output_item_count, compaction_count, compaction_output) := st in
      collect_events events
        ((output_item_count + 1)%N,
         match item with Compaction _ => (compaction_count + 1)%N | _ => compaction_count end,
         match item with
         | Compaction _ => or_else compaction_output (Some item)
         | _ => compaction_output
         end)
  | Ok (ResponseCompleted response_id token_usage) :: _ => Ok (st, Some (response_id, token_usage))
  | Ok OtherResponseEvent :: events => collect_events events st
  end.

(** [codex-rs/core/src/compact_remote_v2.rs:542-600 collect_compaction_output] The outer option is [unreachable!]. *)
Definition collect_compaction_output (stream : list (result CodexErr ResponseEvent))
    : option (result CodexErr (ResponseItem * str * option TokenUsage)) :=
  match collect_events stream (0%N, 0%N, None) with
  | Err e => Some (Err e)
  | Ok (_, None) => Some (Err (Stream (lit "remote compaction v2 stream closed before response.completed")))
  | Ok ((output_item_count, compaction_count, compaction_output), Some (response_id, token_usage)) =>
      if negb (compaction_count =? 1)%N then
        Some (Err (Fatal (lit "remote compaction v2 expected exactly one compaction output item, got "
                          ++ show_N compaction_count ++ lit " from " ++ show_N output_item_count ++ lit " output items")))
      else item ← compaction_output; Some (Ok (item, response_id, token_usage))
  end.

Section session.
Context (from_xml_str : str -> option (str * str)) (new_id : str).
Context (inter_agent_json : str -> option InterAgentCommunication).
Context (json_len : ResponseItem -> option N) (image_dims : str -> option (N * N)).
Context (truncation_policy : TruncationPolicy) (model_context_window : option Z) (base_instructions : str).

(** [codex-rs/core/src/session/mod.rs:3015-3026 record_conversation_items] *)
Definition record_conversation_items (self : Session) (new_items : list ResponseItem) : option Session :=
  history ← record_items (s_history self) new_items truncation_policy;
  Some (persist_rollout_items (with_history self history) (map Response new_items)).

(** [codex-rs/core/src/session/mod.rs:3455-3485 record_context_updates_and_set_reference_context_item] given the items
    that [build_initial_context] or [build_settings_update_items] makes. *)
Definition record_context_updates_and_set_reference_context_item (self : Session) (context_items : list ResponseItem)
    (turn_context_item : TurnContextItem) : option Session :=
  self ← (match context_items with [] => Some self | _ => record_conversation_items self context_items end);
  let self := persist_rollout_items self [TurnContext turn_context_item] in
  Some (with_history self (set_reference_context_item (s_history self) (Some turn_context_item))).

(** [codex-rs/core/src/session/mod.rs:3547-3584 recompute_token_usage] *)
Definition recompute_token_usage (self : Session) : Session :=
  match estimate_token_count_with_base_instructions json_len image_dims (s_history self) base_instructions with
  | None => self
  | Some estimated_total_tokens =>
      let info := match token_info (s_history self) with
                  | Some info => info
                  | None => UsageInfo default_usage default_usage None
                  end in
      let info := UsageInfo (total_token_usage info) (Usage 0 0 0 0 0 (Z.max estimated_total_tokens 0))
                    (HistoryTokens.model_context_window info) in
      let info := match model_context_window with
                  | Some window => UsageInfo (total_token_usage info) (last_token_usage info) (Some window)
                  | None => info
                  end in
      with_history self (with_token_info (s_history self) (Some info))
  end.

(** [codex-rs/core/src/session/mod.rs:3638-3644 set_total_tokens_full] *)
Definition set_total_tokens_full (self : Session) : Session :=
  match model_context_window with
  | Some context_window => with_history self (set_token_usage_full (s_history self) context_window)
  | None => self
  end.

(** [codex-rs/core/src/session/mod.rs:1539-1578 apply_rollout_reconstruction] *)
Definition apply_rollout_reconstruction (self : Session) (rollout_items : list RolloutItem) : option Session :=
  reconstructed ← reconstruct_history_from_rollout from_xml_str new_id inter_agent_json truncation_policy rollout_items;
  Some (replace_history self (rr_history reconstructed) (rr_reference_context_item reconstructed)).

(** [codex-rs/core/src/session/handlers.rs:623-728 thread_rollback] with no turn in progress and a store that answers;
    [None] is a panic. *)
Definition thread_rollback (self : Session) (num_turns : nat) : option Session :=
  if num_turns =? 0 then Some self
  else
    let rollback_msg := Event (ThreadRolledBack num_turns) in
    let replay_items := s_rollout self ++ [rollback_msg] in
    self ← apply_rollout_reconstruction self replay_items;
    let self := recompute_token_usage self in
    Some (persist_rollout_items self [rollback_msg]).

(** ** The compaction task *)

(** [codex-rs/core/src/compact.rs:595-634 drain_to_completed] A stream that cannot be opened is one whose first event is
    the error. *)
Fixpoint drain_to_completed (self : Session) (stream : list (result CodexErr ResponseEvent))
    : option (Session * result CodexErr unit) :=
  match stream with
  | [] => Some (self, Err (Stream (lit "stream closed before response.completed")))
  | Ok (OutputItemDone item) :: stream =>
      self ← record_conversation_items self [item];
      drain_to_completed self stream
  | Ok (ResponseCompleted _ token_usage) :: _ =>
      let self := match token_usage with
                  | Some usage => with_history self (update_token_info (s_history self) usage model_context_window)
                  | None => self
                  end in
      Some (self, Ok tt)
  | Ok OtherResponseEvent :: stream => drain_to_completed self stream
  | Err e :: _ => Some (self, Err e)
  end.

Context (debug_assertions : bool) (input_modalities : list InputModality) (max_retries : nat).
(** What the model streams back to an attempt, given its number and its input. *)
Context (model_stream : nat -> list ResponseItem -> list (result CodexErr ResponseEvent)).

(** [codex-rs/core/src/compact.rs:222-290 run_compact_task_inner_impl] [history] is the copy that is sent, [self] the
    session; [None] is a panic or the end of the fuel. *)
Fixpoint compact_loop (fuel attempt : nat) (history : Manager_) (self : Session) (retries : nat)
    : option (Session * result CodexErr unit) :=
  match fuel with
  | 0 => None
  | S fuel =>
      turn_input ← for_prompt debug_assertions history input_modalities;
      let turn_input_len := length turn_input in
      '(self, attempt_result) ← drain_to_completed self (model_stream attempt turn_input);
      match attempt_result with
      | Ok tt => Some (self, Ok tt)
      | Err Interrupted => Some (self, Err Interrupted)
      | Err ContextWindowExceeded =>
          if 1 <? turn_input_len then compact_loop fuel (S attempt) (remove_first_item history) self 0
          else Some (set_total_tokens_full self, Err ContextWindowExceeded)
      | Err e =>
          if retries <? max_retries then compact_loop fuel (S attempt) history self (S retries)
          else Some (self, Err e)
      end
  end.

(** [codex-rs/core/src/compact.rs:292-317 run_compact_task_inner_impl] after the model has answered. *)
Definition install_summary (self : Session) (initial_context_injection : InitialContextInjection)
    (initial_context : list ResponseItem) (turn_context_item : TurnContextItem) : option (Session * str) :=
  let history_items := items (s_history self) in
  last_message ← get_last_assistant_message_from_turn history_items;
  let summary_suffix := match last_message with Some m => m | None => [] end in
  let summary_text := SUMMARY_PREFIX ++ [NL] ++ summary_suffix in
  let user_messages := collect_user_messages from_xml_str new_id history_items in
  new_history ← build_compacted_history [] user_messages summary_text;
  let new_history :=
    match initial_context_injection with
    | BeforeLastUserMessage =>
        insert_initial_context_before_last_real_user_or_summary from_xml_str new_id new_history initial_context
    | DoNotInject => new_history
    end in
  let reference := match initial_context_injection with DoNotInject => None | BeforeLastUserMessage => Some turn_context_item end in
  let compacted_item := CompactedOf summary_text (Some new_history) in
  let self := replace_compacted_history self new_history reference compacted_item in
  Some (recompute_token_usage self, summary_suffix).

(** [codex-rs/core/src/compact.rs:197-327 run_compact_task_inner_impl] [input] is the item made from the prompt. *)
Definition run_compact_task_inner_impl (fuel : nat) (self : Session) (input : ResponseItem)
    (initial_context_injection : InitialContextInjection) (initial_context : list ResponseItem)
    (turn_context_item : TurnContextItem) : option (Session * result CodexErr str) :=
  history ← record_items (s_history self) [input] truncation_policy;
  '(self, attempt) ← compact_loop fuel 0 history self 0;
  match attempt with
  | Err e => Some (self, Err e)
  | Ok tt =>
      '(self, summary_suffix) ← install_summary self initial_context_injection initial_context turn_context_item;
      Some (self, Ok summary_suffix)
  end.
End session.

(** ** Recording, piece by piece *)

Lemma record_loop_snoc policy l acc :
  record_loop policy acc l = (fun r => acc ++ r) <$> record_loop policy [] l.
Proof.
  revert acc. induction l as [|x l IH]; intros acc; cbn [record_loop]; [cbn; by rewrite app_nil_r|].
  destruct (negb (is_api_message x)); [apply IH|].
  destruct (process_item x policy) as [y|]; [|done]. cbn [mbind option_bind].
  rewrite (IH (acc ++ [y])), (IH ([] ++ [y])). destruct (record_loop policy [] l); cbn; [|done]. by rewrite <- app_assoc.
Qed.

Lemma record_loop_cons policy x l acc :
  record_loop policy acc (x :: l) = acc' ← record_loop policy acc [x]; record_loop policy acc' l.
Proof.
  cbn [record_loop]. destruct (negb (is_api_message x)); [done|]. by destruct (process_item x policy).
Qed.

(** An item that recording leaves alone. *)
Definition stable (policy : TruncationPolicy) (item : ResponseItem) : Prop :=
  is_api_message item = true /\ process_item item policy = Some item.

Lemma record_stable policy l acc : Forall (stable policy) l -> record_loop policy acc l = Some (acc ++ l).
Proof.
  intros Hl. revert acc. induction Hl as [|x l [Ha Hp] _ IH]; intros acc; cbn [record_loop]; [by rewrite app_nil_r|].
  rewrite Ha. cbn [negb]. rewrite Hp. cbn [mbind option_bind]. rewrite IH, <- app_assoc. done.
Qed.

Lemma user_text_stable policy text : stable policy (user_text text).
Proof. split; [|done]. cbn. rewrite bool_decide_eq_false_2 by (vm_compute; congruence). done. Qed.

Lemma insert_context_stable policy from_xml_str new_id history context :
  Forall (stable policy) history -> Forall (stable policy) context ->
  Forall (stable policy) (insert_initial_context_before_last_real_user_or_summary from_xml_str new_id history context).
Proof.
  intros Hh Hc. destruct (context_placement from_xml_str new_id history context) as (pre & post & -> & -> & _).
  apply Forall_app in Hh as [? ?]. rewrite !Forall_app. auto.
Qed.

Lemma processed_stable policy from_xml_str new_id compacted context injection :
  Forall (stable policy) context ->
  Forall (stable policy) (process_compacted_history from_xml_str new_id compacted context injection).
Proof.
  intros Hc. unfold process_compacted_history. apply insert_context_stable; [|by destruct injection].
  apply Forall_forall. intros x Hx. apply list_elem_of_In, filter_In in Hx as [_ Hk].
  destruct x as [id role content phase| | | | | | | | | | | | | | |]; try done. split; [|done]. cbn in Hk |- *.
  destruct (bool_decide_reflect (role = lit "system")) as [->|]; [|done].
  rewrite !bool_decide_eq_false_2 in Hk by (vm_compute; congruence). done.
Qed.

Lemma built_stable policy msgs summary l : build_compacted_history [] msgs summary = Some l -> Forall (stable policy) l.
Proof.
  unfold build_compacted_history, build_compacted_history_with_limit. intros H.
  match type of H with context[mbind _ ?e] => destruct e as [sel|]; [|done] end. cbn in H. injection H as <-.
  apply Forall_app. split; [|apply Forall_singleton, user_text_stable]. apply Forall_fmap, Forall_true.
  intros; apply user_text_stable.
Qed.


(** ** Sessions that resume to themselves *)

Section refinement.
Context (from_xml_str : str -> option (str * str)) (new_id : str).
Context (inter_agent_json : str -> option InterAgentCommunication).
Context (json_len : ResponseItem -> option N) (image_dims : str -> option (N * N)).
Context (policy : TruncationPolicy) (window : option Z) (base : str).
Abbreviation replay := (replay from_xml_str new_id inter_agent_json policy).
Abbreviation scan_rollout := (scan_rollout from_xml_str inter_agent_json).
Abbreviation record := (record_conversation_items policy).

(** The rollout has no checkpoint, or a turn that survives has one. *)
Definition checkpoint_ok (rollout : list RolloutItem) : Prop :=
  is_Some (base_replacement_history (scan_rollout rollout)) \/ omap checkpoint_of rollout = [].

(** Replaying the rollout gives the history in memory. *)
Definition in_step (s : Session) : Prop :=
  Forall replayable (s_rollout s) /\ outcome (replay (new_manager, false) (s_rollout s)) = Some (items (s_history s)).

Lemma outcome_app l1 l2 h :
  outcome (replay (new_manager, false) l1) = Some h ->
  outcome (replay (new_manager, false) (l1 ++ l2)) =
    outcome (replay (@with_items TurnContextItem new_manager h, false) l2).
Proof.
  intros H. rewrite replay_app. destruct (replay (new_manager, false) l1) as [[m b]|]; [|done]. cbn in H.
  injection H as <-. cbn [mbind option_bind]. by apply replay_items.
Qed.

Lemma replay_recorded l m recorded :
  record_loop policy (items m) l = Some recorded ->
  outcome (replay (m, false) (persisted_rollout_items (map Response l))) = Some recorded.
Proof.
  revert m. induction l as [|x l IH]; intros m; [cbn; by intros [= <-]|].
  rewrite record_loop_cons. intros H. destruct (record_loop policy (items m) [x]) as [acc|] eqn:Ex; [|done].
  cbn [mbind option_bind] in H. unfold persisted_rollout_items. cbn [map List.filter is_persisted_rollout_item].
  destruct (should_persist_response_item x) eqn:Ep.
  - cbn [Reconstruction.replay replay_item]. unfold record_items. rewrite Ex. cbn [fmap option_fmap option_map mbind option_bind].
    by apply (IH (with_items m acc)).
  - assert (acc = items m) as ->.
    { destruct x; try done; cbn in Ex; by injection Ex. }
    by apply IH.
Qed.

Lemma replayable_recorded l : Forall allocatable_item l -> Forall replayable (persisted_rollout_items (map Response l)).
Proof.
  intros Hl. apply Forall_forall. intros x Hx. apply list_elem_of_In, filter_In in Hx as [Hx _].
  apply list_elem_of_In, list_elem_of_fmap in Hx as (y & -> & Hy). by eapply Forall_forall in Hl.
Qed.

Lemma record_in_step s l s' :
  Forall allocatable_item l -> record s l = Some s' -> in_step s -> in_step s'.
Proof.
  intros Hl Hr [Hok Ho]. unfold record_conversation_items, record_items in Hr.
  destruct (record_loop policy (items (s_history s)) l) as [recorded|] eqn:E; [|done]. cbn in Hr. injection Hr as <-.
  split; cbn [s_rollout s_history items with_items persist_rollout_items with_history].
  - apply Forall_app. split; [done|by apply replayable_recorded].
  - rewrite (outcome_app _ _ _ Ho). by apply replay_recorded.
Qed.

Lemma quiet_in_step s x :
  replayable x -> (forall st, replay_item from_xml_str new_id inter_agent_json policy st x = Some st) ->
  in_step s -> in_step (persist_rollout_items s [x]).
Proof.
  intros Hx Hq [Hok Ho]. unfold persist_rollout_items, persisted_rollout_items. cbn [List.filter].
  destruct (is_persisted_rollout_item x); [|by rewrite app_nil_r; destruct s].
  split; cbn [s_rollout s_history]; [apply Forall_app; auto|]. rewrite (outcome_app _ _ _ Ho).
  cbn [Reconstruction.replay]. by rewrite Hq.
Qed.

Lemma same_items_in_step s s' :
  s_rollout s' = s_rollout s -> items (s_history s') = items (s_history s) -> in_step s -> in_step s'.
Proof. intros H1 H2 [? ?]. split; by rewrite ?H1, ?H2. Qed.

Lemma compact_in_step s new reference msg :
  Forall (stable policy) new -> Forall allocatable_item new -> in_step s ->
  in_step (replace_compacted_history s new reference (CompactedOf msg (Some new))).
Proof.
  intros Hs Ha [Hok Ho].
  assert (in_step (persist_rollout_items (replace_history s new reference) [Compacted (CompactedOf msg (Some new))])) as H.
  { split; cbn [s_rollout s_history persist_rollout_items replace_history with_history items set_reference_context_item replace persisted_rollout_items List.filter is_persisted_rollout_item].
    - apply Forall_app. split; [done|]. by apply Forall_singleton.
    - rewrite (outcome_app _ _ _ Ho). cbn [Reconstruction.replay replay_item ci_replacement_history].
      unfold replace_recorded_items, record_items. rewrite record_stable by done. done. }
  unfold replace_compacted_history. destruct reference as [ctx|]; [|exact H]. apply quiet_in_step; [done|by intros []|exact H].
Qed.

(** Rolling back. *)
(** A rollback leaves in memory what rebuilding the thread gives. *)
Lemma rollback_rebuilds s n s' :
  thread_rollback from_xml_str new_id inter_agent_json json_len image_dims policy window base s n = Some s' -> n <> 0 ->
  s_rollout s' = s_rollout s ++ [Event (ThreadRolledBack n)] /\
  reconstruct_history_items_from_rollout from_xml_str new_id inter_agent_json policy (s_rollout s') = Some (items (s_history s')).
Proof.
  intros Hr Hn. unfold thread_rollback in Hr. destruct (Nat.eqb_spec n 0) as [|_]; [done|].
  unfold apply_rollout_reconstruction, reconstruct_history_items_from_rollout in *.
  destruct (reconstruct_history_from_rollout _ _ _ _ _) as [rec|] eqn:Hrec; [|done]. cbn [mbind option_bind] in Hr.
  injection Hr as <-. unfold persist_rollout_items, persisted_rollout_items.
  cbn [List.filter is_persisted_rollout_item should_persist_event_msg].
  unfold recompute_token_usage. rewrite estimate_eq. cbn. by rewrite Hrec.
Qed.

Lemma rollback_in_step s n s' :
  checkpoint_ok (s_rollout s ++ [Event (ThreadRolledBack n)]) ->
  thread_rollback from_xml_str new_id inter_agent_json json_len image_dims policy window base s n = Some s' ->
  in_step s -> in_step s'.
Proof.
  intros Hck Hr Hin. unfold thread_rollback in Hr. destruct (n =? 0); [by injection Hr as <-|].
  destruct Hin as [Hok Ho].
  assert (Forall replayable (s_rollout s ++ [Event (ThreadRolledBack n)])) as Hok'.
  { apply Forall_app. split; [done|]. by apply Forall_singleton. }
  destruct (reconstructed_history from_xml_str new_id inter_agent_json policy _ Hok' Hck) as (r & st & Hrec & Hst & Hh).
  unfold apply_rollout_reconstruction in Hr. rewrite Hrec in Hr. cbn [mbind option_bind] in Hr.
  injection Hr as <-. unfold persist_rollout_items, persisted_rollout_items. cbn [List.filter is_persisted_rollout_item should_persist_event_msg].
  split; cbn [s_rollout s_history].
  - unfold recompute_token_usage. rewrite estimate_eq. exact Hok'.
  - unfold recompute_token_usage. rewrite estimate_eq.
    cbn [s_rollout s_history with_history with_token_info replace_history items set_reference_context_item replace].
    rewrite Hst, Hh. done.
Qed.

(** *** The compaction task *)

Definition stream_ok (stream : list (result CodexErr ResponseEvent)) : Prop :=
  Forall (fun e => match e with Ok (OutputItemDone item) => allocatable_item item | _ => True end) stream.

Lemma drain_in_step stream s s' r :
  stream_ok stream -> drain_to_completed policy window s stream = Some (s', r) -> in_step s -> in_step s'.
Proof.
  intros Hs. revert s. induction Hs as [|e stream He _ IH]; intros s; cbn [drain_to_completed]; [by intros [= <- _]|].
  destruct e as [[item|id usage|]|e]; [| |apply IH|by intros [= <- _]].
  - destruct (record s [item]) as [s1|] eqn:E; [|done]. cbn [mbind option_bind]. intros Hd Hin.
    apply (IH s1 Hd). apply (record_in_step s [item]); [by apply Forall_singleton|done|done].
  - intros [= <- _]. by destruct usage.
Qed.

Lemma compact_loop_in_step debug mods max_retries model_stream fuel attempt history s retries s' r :
  (forall n input, stream_ok (model_stream n input)) ->
  compact_loop policy window debug mods max_retries model_stream fuel attempt history s retries = Some (s', r) ->
  in_step s -> in_step s'.
Proof.
  intros Hm. revert attempt history s retries. induction fuel as [|fuel IH]; intros attempt history s retries; [done|].
  cbn [compact_loop]. destruct (for_prompt debug history mods) as [input|]; [|done]. cbn [mbind option_bind].
  destruct (drain_to_completed policy window s (model_stream attempt input)) as [[s1 r1]|] eqn:Ed; [|done].
  cbn [mbind option_bind]. intros H Hin. pose proof (drain_in_step _ _ _ _ (Hm attempt input) Ed Hin) as Hin1.
  destruct r1 as [[]|e]; [by injection H as <- _|].
  destruct e; try (by injection H as <- _).
  all: try (destruct (retries <? max_retries); [by apply IH in H|by injection H as <- _]).
  destruct (1 <? length input); [by apply IH in H|]. injection H as <- _.
  eapply same_items_in_step; [| |exact Hin1]; unfold set_total_tokens_full; by destruct window.
Qed.

Definition context_item (item : ResponseItem) : Prop := stable policy item /\ allocatable_item item.

Lemma allocatable_compacted l injection context :
  Forall allocatable_item l -> Forall context_item context ->
  Forall allocatable_item
    (match injection with
     | BeforeLastUserMessage => insert_initial_context_before_last_real_user_or_summary from_xml_str new_id l context
     | DoNotInject => l
     end).
Proof.
  intros Hl Hc. destruct injection; [|done].
  destruct (context_placement from_xml_str new_id l context) as (pre & post & -> & -> & _).
  apply Forall_app in Hl as [? ?]. rewrite !Forall_app. split; [done|]. split; [|done].
  eapply Forall_impl; [exact Hc|]. by intros x [_ ?].
Qed.

Lemma recompute_in_step s : in_step s -> in_step (recompute_token_usage json_len image_dims window base s).
Proof. apply same_items_in_step; unfold recompute_token_usage; by rewrite estimate_eq. Qed.

Lemma install_in_step s injection context tci s' suffix :
  Forall context_item context ->
  install_summary from_xml_str new_id json_len image_dims window base s injection context tci = Some (s', suffix) ->
  in_step s -> in_step s'.
Proof.
  intros Hc H Hin. unfold install_summary in H.
  destruct (get_last_assistant_message_from_turn _) as [m|]; [|done]. cbn [mbind option_bind] in H.
  destruct (build_compacted_history _ _ _) as [l|] eqn:Eb; [|done]. cbn [mbind option_bind] in H. injection H as <- _.
  apply recompute_in_step. pose proof (built_stable policy _ _ _ Eb) as Hst.
  assert (Forall allocatable_item l) as Ha.
  { unfold build_compacted_history, build_compacted_history_with_limit in Eb.
    match type of Eb with context[mbind _ ?e] => destruct e as [sel|]; [|done] end. cbn in Eb. injection Eb as <-.
    apply Forall_app. split; [by apply Forall_fmap, Forall_true|by apply Forall_singleton]. }
  assert (Forall (stable policy) context) as Hcs by (eapply Forall_impl; [exact Hc|by intros x [? _]]).
  apply compact_in_step; [|by apply (allocatable_compacted l injection context)|done].
  destruct injection; [by apply insert_context_stable|done].
Qed.

Lemma compact_task_in_step debug mods max_retries model_stream fuel s input injection context tci s' r :
  (forall n input, stream_ok (model_stream n input)) -> Forall context_item context ->
  run_compact_task_inner_impl from_xml_str new_id json_len image_dims policy window base debug mods max_retries
    model_stream fuel s input injection context tci = Some (s', r) ->
  in_step s -> in_step s'.
Proof.
  intros Hm Hc H Hin. unfold run_compact_task_inner_impl in H.
  destruct (record_items (s_history s) [input] policy) as [history|]; [|done]. cbn [mbind option_bind] in H.
  destruct (compact_loop _ _ _ _ _ _ fuel 0 history s 0) as [[s1 r1]|] eqn:El; [|done]. cbn [mbind option_bind] in H.
  pose proof (compact_loop_in_step _ _ _ _ _ _ _ _ _ _ _ Hm El Hin) as Hin1.
  destruct r1 as [[]|e]; [|by injection H as <- _].
  destruct (install_summary _ _ _ _ _ _ s1 injection context tci) as [[s2 suffix]|] eqn:Ei; [|done].
  cbn in H. injection H as <- _. by eapply install_in_step.
Qed.

(** What a session does to its history, under the truncation policy and the window of the turn in which it does it. *)
Inductive session_step : Session -> Session -> Prop :=
| step_record s l s' :
    Forall allocatable_item l -> record s l = Some s' -> session_step s s'
| step_context s l ctx s' :
    Forall allocatable_item l -> record_context_updates_and_set_reference_context_item policy s l ctx = Some s' ->
    session_step s s'
| step_event s ev :
    (forall n, ev <> ThreadRolledBack n) -> session_step s (persist_rollout_items s [Event ev])
| step_compact s debug mods max_retries model_stream fuel input injection context tci s' r :
    (forall n input, stream_ok (model_stream n input)) -> Forall context_item context ->
    run_compact_task_inner_impl from_xml_str new_id json_len image_dims policy window base debug mods max_retries
      model_stream fuel s input injection context tci = Some (s', r) ->
    session_step s s'
| step_remote_compact s compacted injection context reference new :
    Forall context_item context ->
    new = process_compacted_history from_xml_str new_id compacted context injection ->
    session_step s (replace_compacted_history s new reference (CompactedOf [] (Some new)))
| step_rollback s n s' :
    thread_rollback from_xml_str new_id inter_agent_json json_len image_dims policy window base s n = Some s' ->
    session_step s s'.

(** A step that, when it rolls back, leaves a turn with a checkpoint, if any turn had one. *)
Definition regular_step (s s' : Session) : Prop :=
  session_step s s' /\
  forall n, s_rollout s' = s_rollout s ++ [Event (ThreadRolledBack n)] -> checkpoint_ok (s_rollout s').

Lemma step_in_step s s' : regular_step s s' -> in_step s -> in_step s'.
Proof.
  intros [Hstep Hreg] Hin. revert Hreg.
  destruct Hstep as [s l s' Hl Hr|s l ctx s' Hl Hr|s ev Hev|s debug mods mr ms fuel input inj context tci s' r Hm Hc Hr
    |s compacted inj context reference new Hc ->|s n s' Hr]; intros Hreg.
  - by eapply record_in_step.
  - unfold record_context_updates_and_set_reference_context_item in Hr.
    destruct (match l with [] => Some s | _ => record s l end) as [s1|] eqn:E; [|done]. cbn in Hr. injection Hr as <-.
    assert (in_step s1) as Hin1.
    { destruct l as [|x l]; [by injection E as <-|]. by eapply record_in_step. }
    apply (same_items_in_step (persist_rollout_items s1 [TurnContext ctx])); [done|done|].
    apply quiet_in_step; [done|by intros []|done].
  - apply quiet_in_step; [by destruct ev|intros [m b]|done]. destruct ev as [n| | | | | |]; try done. by destruct (Hev n).
  - by eapply compact_task_in_step.
  - assert (Forall (stable policy) context) as Hcs by (eapply Forall_impl; [exact Hc|by intros x [? _]]).
    apply compact_in_step; [by apply processed_stable| |done].
    unfold process_compacted_history.
    set (l := List.filter _ compacted).
    assert (Forall allocatable_item l) as Hl.
    { apply Forall_forall. intros x Hx. apply list_elem_of_In, filter_In in Hx as [_ Hk]. by destruct x. }
    destruct inj; [by apply (allocatable_compacted l BeforeLastUserMessage context)|].
    by apply (allocatable_compacted l BeforeLastUserMessage []).
  - destruct (decide (n = 0)) as [->|Hn]; [by injection Hr as <-|].
    destruct (rollback_rebuilds _ _ _ Hr Hn) as [Heq _]. eapply rollback_in_step; [|exact Hr|done].
    rewrite <- Heq. by eapply Hreg.
Qed.
End refinement.

(** C26: a resumed session continues where it was.  However a session got there, by recording items, establishing the
    context of turns, logging events, compacting with the model or the server, or rolling back, replaying its rollout
    from an empty history gives the history in memory, and so does rebuilding the thread, if a turn that survives
    has a checkpoint or no turn has one; and any rollback leaves in memory what rebuilding gives.  This is for sessions
    all of whose turns truncate outputs by the policy with which the thread is rebuilt, whose outputs can be allocated,
    whose injected context recording leaves alone, and whose earlier rollbacks
    left a turn with a checkpoint if any turn had one ([rolled_back_checkpoint] shows that they matter). *)
Theorem resumed_history_is_live from_xml_str new_id inter_agent_json json_len image_dims policy window base preamble s :
  Forall (eq SessionMeta) preamble ->
  rtc (regular_step from_xml_str new_id inter_agent_json json_len image_dims policy window base)
    (SessionOf new_manager preamble) s ->
  outcome (replay from_xml_str new_id inter_agent_json policy (new_manager, false) (s_rollout s))
    = Some (items (s_history s)) /\
  (checkpoint_ok from_xml_str inter_agent_json (s_rollout s) ->
   reconstruct_history_items_from_rollout from_xml_str new_id inter_agent_json policy (s_rollout s)
     = Some (items (s_history s))) /\
  (forall n s', thread_rollback from_xml_str new_id inter_agent_json json_len image_dims policy window base s n = Some s' -> n <> 0 ->
   reconstruct_history_items_from_rollout from_xml_str new_id inter_agent_json policy (s_rollout s')
     = Some (items (s_history s'))).
Proof.
  intros Hpre Hsteps.
  assert (in_step from_xml_str new_id inter_agent_json policy (SessionOf new_manager preamble)) as H0.
  { split; cbn [s_rollout s_history].
    - eapply Forall_impl; [exact Hpre|]. by intros x <-.
    - clear -Hpre. induction Hpre as [|x l <- _ IH]; [done|]. exact IH. }
  assert (in_step from_xml_str new_id inter_agent_json policy s) as [Hok Ho].
  { clear -Hsteps H0. induction Hsteps as [|s1 s2 s3 Hstep _ IH]; [done|]. apply IH. by eapply step_in_step. }
  split; [exact Ho|]. split; [|intros n s' Hr Hn; by eapply rollback_rebuilds]. intros Hck. unfold reconstruct_history_items_from_rollout.
  destruct (reconstructed_history from_xml_str new_id inter_agent_json policy _ Hok Hck) as (r & st & -> & Hst & Hh).
  rewrite Hst in Ho. cbn in Ho |- *. congruence.
Qed.

Lemma resumed_history_is_live_witness :
  let user text := user_text (lit text) in
  let reply text := Message None (lit "assistant") [OutputText (lit text)] None in
  let model (_ : nat) (_ : list ResponseItem) : list (result CodexErr ResponseEvent) :=
    [Ok (OutputItemDone (reply "sum"%string)); Ok (ResponseCompleted [] None)] in
  exists s,
    rtc (regular_step (fun _ => None) [] (fun _ => None) (fun _ => None) (fun _ => None) (Bytes 1000) None [])
      (SessionOf new_manager [SessionMeta]) s /\
    reconstruct_history_items_from_rollout (fun _ => None) [] (fun _ => None) (Bytes 1000) (s_rollout s)
      = Some (items (s_history s)) /\
    length (items (s_history s)) = 2.
Proof.
  intros user reply model.
  set (step := regular_step (fun _ => None) [] (fun _ => None) (fun _ => None) (fun _ => None) (Bytes 1000) None []).
  destruct (record_conversation_items (Bytes 1000) (SessionOf new_manager [SessionMeta]) [user "hi"%string; reply "hello"%string])
    as [s1|] eqn:E1; [|vm_compute in E1; congruence].
  destruct (run_compact_task_inner_impl (fun _ => None) [] (fun _ => None) (fun _ => None) (Bytes 1000) None [] false []
    1 model 10 s1 (user "compact"%string) DoNotInject [] (example_context "1")) as [[s2 r]|] eqn:E2.
  2: { vm_compute in E1. injection E1 as <-. vm_compute in E2. congruence. }
  assert (Hsteps : rtc step (SessionOf new_manager [SessionMeta]) s2).
  { apply (rtc_l _ _ s1); [|apply rtc_once].
    - split; [eapply step_record; [|exact E1]; repeat constructor|].
      clear step E2. vm_compute in E1. injection E1 as <-. intros n Hn. discriminate Hn.
    - split; [eapply step_compact; [| |exact E2]; [intros n input; repeat constructor|constructor]|].
      clear step. vm_compute in E1. injection E1 as <-. vm_compute in E2. injection E2 as <- _. intros n Hn. discriminate Hn. }
  assert (Hpre : Forall (eq SessionMeta) [SessionMeta]) by repeat constructor.
  destruct (resumed_history_is_live (fun _ => None) [] (fun _ => None) (fun _ => None) (fun _ => None) (Bytes 1000) None []
    [SessionMeta] s2 Hpre Hsteps) as (_ & Hlive & _).
  exists s2. split; [exact Hsteps|]. vm_compute in E1. injection E1 as <-. vm_compute in E2. injection E2 as <- _. split.
  - apply Hlive. left. vm_compute. by eexists.
  - reflexivity.
Defined.

(** ** The compaction task ends *)

Lemma strip_citations_total text : is_Some (HiddenTags.HiddenTags.strip_citations text).
Proof.
  set (sp := [HiddenTags.HiddenTags.InlineSpec HiddenTags.HiddenTags.Citation HiddenTags.HiddenTags.CITATION_OPEN
                HiddenTags.HiddenTags.CITATION_CLOSE]).
  destruct (HiddenTags.HiddenTags.stream_hides sp (HiddenTags.HiddenTags.Parser sp [] None) [text] eq_refl
              (HiddenTags.HiddenTags.unambiguous_single _)) as (out & Hs & _).
  apply (HiddenTags.HiddenTags.contents_stream sp (HiddenTags.HiddenTags.Build_CitationStreamParser (HiddenTags.HiddenTags.Parser sp [] None))) in Hs; [|done].
  rewrite (HiddenTags.HiddenTags.strip_citations_stream _ _ _ eq_refl Hs). done.
Qed.

Lemma last_assistant_total l : is_Some (get_last_assistant_message_from_turn l).
Proof.
  unfold get_last_assistant_message_from_turn. induction (rev l) as [|x r IH]; [done|]. cbn [last_assistant_loop].
  assert (is_Some (last_assistant_message_from_item x false)) as [m ->].
  { unfold last_assistant_message_from_item, strip_hidden_assistant_markup.
    destruct (raw_assistant_output_text_from_item x) as [[|c t]|]; [done| |done].
    destruct (strip_citations_total (c :: t)) as [[v e] ->]. done. }
  cbn [mbind option_bind]. by destruct m.
Qed.

(** The text of a message of the assistant, without its citations, which is not blank. *)
Definition spoken (item : ResponseItem) (text : str) : Prop :=
  exists id content phase citations, item = Message id (lit "assistant") content phase /\
    HiddenTags.HiddenTags.strip_citations
      (concat (omap (fun ci => match ci with OutputText text => Some text | _ => None end) content)) = Some (text, citations) /\
    trim text <> [].

(** The last message of the assistant among some items, if there is one. *)
Definition last_spoken (l : list ResponseItem) (text : option str) : Prop :=
  match text with
  | Some text => exists pre x post, l = pre ++ x :: post /\ spoken x text /\ Forall (fun y => forall other, ~ spoken y other) post
  | None => Forall (fun y => forall other, ~ spoken y other) l
  end.

Lemma spoken_item x text : last_assistant_message_from_item x false = Some (Some text) <-> spoken x text.
Proof.
  unfold last_assistant_message_from_item, strip_hidden_assistant_markup, spoken, raw_assistant_output_text_from_item.
  destruct x as [id role content phase| | | | | | | | | | | | | | |]; try (split; [done|intros (? & ? & ? & ? & ? & _); done]).
  case_bool_decide as Hr; [subst role|split; [done|]; intros (? & ? & ? & ? & Heq & _); congruence].
  set (whole := concat _).
  assert (Hspec : (exists citations, HiddenTags.HiddenTags.strip_citations whole = Some (text, citations) /\ trim text <> []) <->
    spoken (Message id (lit "assistant") content phase) text).
  { unfold spoken. split.
    - intros (c & H1 & H2). by exists id, content, phase, c.
    - intros (? & ? & ? & c & [= <- <- <-] & H1 & H2). by exists c. }
  fold (spoken (Message id (lit "assistant") content phase) text). rewrite <- Hspec. clear Hspec.
  destruct (strip_citations_total whole) as [[v c] Hs]. rewrite Hs. cbn [mbind option_bind].
  destruct whole as [|ch whole].
  - vm_compute in Hs. injection Hs as <- <-. split; [done|]. by intros (? & [= <- <-] & ?).
  - destruct (trim v) eqn:Et; split.
    + done.
    + by intros (? & [= <- <-] & ?).
    + intros [= <-]. exists c. by rewrite Et.
    + by intros (? & [= <- <-] & _).
Qed.

Lemma last_assistant_spec l :
  exists text, get_last_assistant_message_from_turn l = Some text /\ last_spoken l text.
Proof.
  unfold get_last_assistant_message_from_turn. induction l as [|x l IH] using rev_ind; [exists None; split; [done|constructor]|].
  rewrite rev_app_distr. cbn [rev app last_assistant_loop].
  destruct (last_assistant_total [x]) as [m Hm]. unfold get_last_assistant_message_from_turn in Hm.
  cbn [rev app last_assistant_loop] in Hm.
  destruct (last_assistant_message_from_item x false) as [[text|]|] eqn:E; [| |done]; cbn [mbind option_bind].
  - exists (Some text). split; [done|]. exists l, x, []. split; [done|]. split; [by apply spoken_item|constructor].
  - assert (Hx : forall other, ~ spoken x other) by (intros other Ho%spoken_item; congruence).
    clear Hm. destruct IH as ([text|] & -> & Hl); (eexists; split; [reflexivity|]).
    + destruct Hl as (pre & y & post & -> & Hy & Hp). exists pre, y, (post ++ [x]). split; [by rewrite <- app_assoc|].
      split; [done|]. apply Forall_app. split; [done|]. by apply Forall_singleton.
    + apply Forall_app. split; [done|]. by apply Forall_singleton.
Qed.

(** The items a stream brings before its end, and how it ends. *)
Fixpoint done_items (stream : list (result CodexErr ResponseEvent)) : list ResponseItem :=
  match stream with
  | Ok (OutputItemDone item) :: stream => item :: done_items stream
  | Ok OtherResponseEvent :: stream => done_items stream
  | _ => []
  end.

Fixpoint stream_end (stream : list (result CodexErr ResponseEvent)) : result CodexErr unit :=
  match stream with
  | [] => Err (Stream (lit "stream closed before response.completed"))
  | Ok (OutputItemDone _) :: stream | Ok OtherResponseEvent :: stream => stream_end stream
  | Ok (ResponseCompleted _ _) :: _ => Ok tt
  | Err e :: _ => Err e
  end.

Section task.
Context (from_xml_str : str -> option (str * str)) (new_id : str).
Context (json_len : ResponseItem -> option N) (image_dims : str -> option (N * N)).
Context (policy : TruncationPolicy) (window : option Z) (base : str).

(** An item whose texts fit in memory. *)
Definition fits (item : ResponseItem) : Prop :=
  allocatable_item item /\ forall text, user_message_text from_xml_str new_id item = Some text -> allocatable text.

Definition stream_fits (stream : list (result CodexErr ResponseEvent)) : Prop :=
  Forall (fun e => match e with Ok (OutputItemDone item) => fits item | _ => True end) stream.

(** [s'] is [s] after the items were recorded, one by one. *)
Definition gained (recs : list ResponseItem) (s s' : Session) : Prop :=
  record_loop policy (items (s_history s)) recs = Some (items (s_history s')) /\
  s_rollout s' = s_rollout s ++ persisted_rollout_items (map Response recs).

Lemma gained_refl s s' : s_rollout s' = s_rollout s -> items (s_history s') = items (s_history s) -> gained [] s s'.
Proof. intros H1 H2. unfold gained. cbn. rewrite H1, H2, app_nil_r. done. Qed.

Lemma record_loop_app l1 l2 acc :
  record_loop policy acc (l1 ++ l2) = acc' ← record_loop policy acc l1; record_loop policy acc' l2.
Proof.
  revert acc. induction l1 as [|x l1 IH]; intros acc; [done|]. rewrite <- app_comm_cons, record_loop_cons, (record_loop_cons _ x l1).
  destruct (record_loop policy acc [x]) as [a|]; [|done]. cbn [mbind option_bind]. apply IH.
Qed.

Lemma gained_trans r1 r2 s1 s2 s3 : gained r1 s1 s2 -> gained r2 s2 s3 -> gained (r1 ++ r2) s1 s3.
Proof.
  intros (E1 & R1) (E2 & R2). unfold gained.
  rewrite record_loop_app, E1. cbn [mbind option_bind]. split; [done|]. rewrite R2, R1. unfold persisted_rollout_items.
  by rewrite map_app, List.filter_app, app_assoc.
Qed.

Lemma record_gained s item :
  fits item -> exists s', record_conversation_items policy s [item] = Some s' /\ gained [item] s s'.
Proof.
  intros Hf. destruct (record_loop_total policy [item] (items (s_history s))) as [y Hy]; [apply Forall_singleton, Hf|].
  unfold record_conversation_items, record_items. rewrite Hy. cbn [fmap option_fmap option_map mbind option_bind].
  eexists. split; [done|]. done.
Qed.

Lemma done_fit stream : stream_fits stream -> Forall fits (done_items stream).
Proof. induction 1 as [|[[item|id usage|]|e] stream He _ IH]; cbn; try done. by constructor. Qed.

Lemma drain_gained stream s :
  stream_fits stream ->
  exists s', drain_to_completed policy window s stream = Some (s', stream_end stream) /\ gained (done_items stream) s s'.
Proof.
  intros Hs. revert s. induction Hs as [|e stream He _ IH]; intros s; cbn [drain_to_completed done_items stream_end].
  { eexists. split; [done|]. by apply gained_refl. }
  destruct e as [[item|id usage|]|e].
  - destruct (record_gained s item He) as (s1 & -> & H1). cbn [mbind option_bind].
    destruct (IH s1) as (s2 & -> & H2). eexists. split; [done|]. by eapply (gained_trans [item]).
  - eexists. split; [done|]. apply gained_refl; by destruct usage.
  - apply IH.
  - eexists. split; [done|]. by apply gained_refl.
Qed.

Section attempts.
Context (mods : list InputModality) (max_retries : nat).
Context (model_stream : nat -> list ResponseItem -> list (result CodexErr ResponseEvent)).

(** What the model streams back to an attempt with a copy of the history. *)
Definition sent (attempt : nat) (h : Manager_) : list (result CodexErr ResponseEvent) :=
  model_stream attempt (normalized mods (items h)).

(** The attempts: the copy [h] of the history is sent first, then the others.  An attempt is followed by another one with
    the oldest item dropped when the context overflows and the prompt has more than one item, and by one with the same
    copy after another error, an interruption excepted, unless there have been [max_retries] of these in a row. *)
Fixpoint attempted (attempt retries : nat) (h : Manager_) (hs : list Manager_) (r : result CodexErr unit) : Prop :=
  let prompt := normalized mods (items h) in
  match hs with
  | [] =>
      stream_end (sent attempt h) = r /\
      match r with
      | Ok _ | Err Interrupted => True
      | Err ContextWindowExceeded => length prompt <= 1
      | Err _ => max_retries <= retries
      end
  | h' :: hs =>
      match stream_end (sent attempt h) with
      | Ok _ | Err Interrupted => False
      | Err ContextWindowExceeded => 1 < length prompt /\ h' = remove_first_item h /\ attempted (S attempt) 0 h' hs r
      | Err _ => retries < max_retries /\ h' = h /\ attempted (S attempt) (S retries) h' hs r
      end
  end.

(** The items that the model sent in the attempts. *)
Fixpoint sent_items (attempt : nat) (h : Manager_) (hs : list Manager_) : list ResponseItem :=
  done_items (sent attempt h) ++ match hs with [] => [] | h' :: hs => sent_items (S attempt) h' hs end.

Lemma sent_fit attempt h hs : (forall n input, stream_fits (model_stream n input)) -> Forall fits (sent_items attempt h hs).
Proof.
  intros Hm. revert attempt h. induction hs as [|h' hs IH]; intros attempt h; cbn; apply Forall_app; split;
    try apply done_fit, Hm; [constructor|apply IH].
Qed.

Lemma compact_loop_ends fuel attempt history s retries :
  (forall n input, stream_fits (model_stream n input)) ->
  length (items history) * S max_retries + (max_retries - retries) < fuel ->
  exists s' r hs, compact_loop policy window false mods max_retries model_stream fuel attempt history s retries = Some (s', r) /\
    length hs < fuel /\ attempted attempt retries history hs r /\ gained (sent_items attempt history hs) s s'.
Proof.
  clear json_len image_dims base.
  intros Hm. revert attempt history s retries. induction fuel as [|fuel IH]; intros attempt history s retries Hf; [lia|].
  cbn [compact_loop]. unfold for_prompt. rewrite normalize_history_eq, andb_false_r. cbn [mbind option_bind].
  set (input := normalized mods (items history)).
  destruct (drain_gained (model_stream attempt input) s (Hm attempt input)) as (s1 & -> & H1). cbn [mbind option_bind].
  assert (Hstop : forall r s', r = stream_end (model_stream attempt input) -> gained [] s1 s' ->
    match r with
    | Ok _ | Err Interrupted => True
    | Err ContextWindowExceeded => length input <= 1
    | Err _ => max_retries <= retries
    end ->
    exists s2 r2 hs, Some (s', r) = Some (s2, r2) /\ length hs < S fuel /\ attempted attempt retries history hs r2 /\
      gained (sent_items attempt history hs) s s2).
  { intros r s' Hr Hs' Hwhy. exists s', r, []. split; [done|]. cbn. split; [lia|]. split; [by split|].
    by eapply gained_trans. }
  assert (Hgo : forall h k, length (items h) * S max_retries + (max_retries - k) < fuel ->
    (forall hs r, attempted (S attempt) k h hs r -> attempted attempt retries history (h :: hs) r) ->
    exists s2 r2 hs, compact_loop policy window false mods max_retries model_stream fuel (S attempt) h s1 k = Some (s2, r2) /\
      length hs < S fuel /\ attempted attempt retries history hs r2 /\ gained (sent_items attempt history hs) s s2).
  { intros h k Hk Hnext. destruct (IH (S attempt) h s1 k Hk) as (s2 & r & hs & -> & Hlen & Hatt & H2).
    exists s2, r, (h :: hs). split; [done|]. split; [cbn; lia|]. split; [by apply Hnext|]. by eapply gained_trans. }
  destruct (stream_end (model_stream attempt input)) as [[]|e] eqn:Hend; [by apply Hstop; [|apply gained_refl|]|].
  assert (Hretry : (forall hs r, retries < max_retries -> attempted (S attempt) (S retries) history hs r ->
                      attempted attempt retries history (history :: hs) r) ->
    match e with Interrupted | ContextWindowExceeded => False | _ => True end ->
    exists s2 r2 hs, (if retries <? max_retries
      then compact_loop policy window false mods max_retries model_stream fuel (S attempt) history s1 (S retries)
      else Some (s1, Err e)) = Some (s2, r2) /\ length hs < S fuel /\ attempted attempt retries history hs r2 /\
      gained (sent_items attempt history hs) s s2).
  { intros Hnext He. destruct (Nat.ltb_spec retries max_retries); [apply Hgo; [lia|auto]|].
    apply Hstop; [done|by apply gained_refl|by destruct e]. }
  destruct e; try (apply Hretry; [|done]; intros hs r Hlt Hatt; cbn [attempted]; unfold sent; fold input; by rewrite Hend).
  - by apply Hstop; [|apply gained_refl|].
  - destruct (Nat.ltb_spec 1 (length input)) as [Hl|Hl].
    + apply Hgo.
      * assert (length (items (remove_first_item history)) < length (items history)); [|nia].
        apply remove_first_shorter. intros E. subst input. rewrite E in Hl. cbn in Hl. lia.
      * intros hs r Hatt. cbn [attempted]. unfold sent. fold input. by rewrite Hend.
    + apply Hstop; [done| |done]. apply gained_refl; unfold set_total_tokens_full; by destruct window.
Qed.
End attempts.

Lemma compact_loop_mono debug mods max_retries model_stream fuel fuel' attempt history s retries out :
  fuel <= fuel' -> compact_loop policy window debug mods max_retries model_stream fuel attempt history s retries = Some out ->
  compact_loop policy window debug mods max_retries model_stream fuel' attempt history s retries = Some out.
Proof.
  clear. revert fuel' attempt history s retries. induction fuel as [|fuel IH]; intros fuel' attempt history s retries Hle; [done|].
  destruct fuel' as [|fuel']; [lia|]. cbn [compact_loop]. destruct (for_prompt _ _ _) as [prompt|]; [|done].
  cbn [mbind option_bind]. destruct (drain_to_completed _ _ _ _) as [[s1 r1]|]; [|done]. cbn [mbind option_bind].
  assert (Hnext : forall h k, compact_loop policy window debug mods max_retries model_stream fuel (S attempt) h s1 k = Some out ->
    compact_loop policy window debug mods max_retries model_stream fuel' (S attempt) h s1 k = Some out).
  { intros h k. apply IH. lia. }
  destruct r1 as [[]|[]]; try done; destruct (_ <? _); auto.
Qed.

Lemma processed_fits x y : fits x -> process_item x policy = Some y -> forall text, user_message_text from_xml_str new_id y = Some text -> allocatable text.
Proof.
  intros [_ Hf] Hp. destruct x; cbn [process_item] in Hp; try (injection Hp as <-; exact Hf).
  all: destruct (truncate_function_output_payload _ _); [|done]; cbn in Hp; by injection Hp as <-.
Qed.

Lemma recorded_fits recs acc out :
  Forall fits recs -> Forall (fun x => forall text, user_message_text from_xml_str new_id x = Some text -> allocatable text) acc ->
  record_loop policy acc recs = Some out ->
  Forall (fun x => forall text, user_message_text from_xml_str new_id x = Some text -> allocatable text) out.
Proof.
  intros Hr. revert acc. induction Hr as [|x l Hx _ IH]; intros acc Ha; cbn [record_loop]; [by intros [= <-]|].
  destruct (negb (is_api_message x)); [by apply IH|].
  destruct (process_item x policy) as [y|] eqn:E; [|done]. cbn [mbind option_bind]. apply IH.
  apply Forall_app. split; [done|]. apply Forall_singleton. by eapply processed_fits.
Qed.

Lemma collected_allocatable l :
  Forall (fun x => forall text, user_message_text from_xml_str new_id x = Some text -> allocatable text) l ->
  Forall allocatable (collect_user_messages from_xml_str new_id l).
Proof.
  intros Hl. apply Forall_forall. intros text Hin. apply list_elem_of_omap in Hin as (x & Hx & E).
  destruct (user_message_text from_xml_str new_id x) as [t|] eqn:Et; [|done].
  destruct (is_summary_message t); [done|]. injection E as <-. eapply Forall_forall in Hl; [|exact Hx]. by apply Hl.
Qed.

(** The history that a summary leaves, and what is persisted with it. *)
Definition summarised (injection : InitialContextInjection) (context : list ResponseItem) (tci : TurnContextItem)
    (s s' : Session) (suffix : str) : Prop :=
  let summary := SUMMARY_PREFIX ++ [NL] ++ suffix in
  exists selected pre post,
    newest_within message_tokens (fun b x y => truncation x (4 * b) true y) COMPACT_USER_MESSAGE_MAX_TOKENS
      (collect_user_messages from_xml_str new_id (items (s_history s))) selected /\
    map user_text selected ++ [user_text summary] = pre ++ post /\
    items (s_history s') = pre ++ (match injection with BeforeLastUserMessage => context | DoNotInject => [] end) ++ post /\
    (injection = BeforeLastUserMessage ->
     let l := pre ++ post in
     if existsb (is_real_user_item from_xml_str new_id) l
     then exists x rest, post = x :: rest /\ last_match (is_real_user_item from_xml_str new_id) l pre x rest
     else if existsb (is_user_item from_xml_str new_id) l
     then exists x rest, post = x :: rest /\ last_match (is_user_item from_xml_str new_id) l pre x rest
     else post = []) /\
    reference_context_item (s_history s') = match injection with BeforeLastUserMessage => Some tci | DoNotInject => None end /\
    s_rollout s' = s_rollout s ++ Compacted (CompactedOf summary (Some (items (s_history s'))))
                     :: match injection with BeforeLastUserMessage => [TurnContext tci] | DoNotInject => [] end.

Lemma install_summarised injection context tci s :
  Forall (fun x => forall text, user_message_text from_xml_str new_id x = Some text -> allocatable text) (items (s_history s)) ->
  exists s' suffix,
    install_summary from_xml_str new_id json_len image_dims window base s injection context tci = Some (s', suffix) /\
    (exists m, last_spoken (items (s_history s)) m /\ suffix = default [] m) /\
    summarised injection context tci s s' suffix.
Proof.
  intros Hf. unfold install_summary. destruct (last_assistant_spec (items (s_history s))) as (m & Hm & Hlast). rewrite Hm.
  cbn [mbind option_bind]. set (suffix := match m with Some m => m | None => [] end).
  destruct (compacted_history_eq [] (collect_user_messages from_xml_str new_id (items (s_history s)))
    (SUMMARY_PREFIX ++ [NL] ++ suffix) COMPACT_USER_MESSAGE_MAX_TOKENS (collected_allocatable _ Hf)) as (selected & Hb & Hsel).
  unfold build_compacted_history. rewrite Hb. cbn [mbind option_bind app].
  rewrite bool_decide_eq_false_2 by done. fold suffix. eexists _, suffix. split; [done|].
  split; [by exists m; split; [|destruct m]|]. unfold summarised. exists selected.
  unfold recompute_token_usage. rewrite estimate_eq.
  destruct injection; cbn [replace_compacted_history persist_rollout_items replace_history with_history s_history s_rollout
    set_reference_context_item replace items reference_context_item with_token_info persisted_rollout_items List.filter
    is_persisted_rollout_item].
  - destruct (context_placement from_xml_str new_id (map user_text selected ++ [user_text (SUMMARY_PREFIX ++ NL :: suffix)]) context)
      as (pre & post & Hh & Hi & Hp).
    exists pre, post. split; [done|]. split; [exact Hh|]. split; [exact Hi|]. split.
    { intros _. cbv zeta. rewrite <- Hh. destruct (existsb (is_real_user_item _ _) _); [exact Hp|].
      destruct (existsb (is_user_item _ _) _); [exact Hp|].
      assert (existsb is_compaction_item (map user_text selected ++ [user_text (SUMMARY_PREFIX ++ NL :: suffix)]) = false) as Hno.
      { apply existsb_none, Forall_app. split; [by apply Forall_fmap, Forall_true|by apply Forall_singleton]. }
      by rewrite Hno in Hp. }
    split; [done|]. rewrite <- app_assoc. done.
  - exists (map user_text selected), [user_text (SUMMARY_PREFIX ++ NL :: suffix)]. repeat split; done.
Qed.
End task.

(** C27: compacting with the model always ends.  Whatever the model streams back, if its texts fit in memory, a release
    build makes at most (items + 2) × (retries + 1) attempts ([attempted]): each overflow of the context window drops the
    oldest item of the copy that is sent, as long as the prompt has more than one, and other errors, an interruption
    excepted, are retried at most so often in a row; only when this is exhausted does it fail.  Until then the session
    gains exactly the items that the model sent in these attempts, in order.  If the last attempt fails that is all; if it completes, the
    history becomes the newest of the user's messages within the budget, at most the oldest of them cut, and the summary,
    which is a fixed prefix and the text of the last message of the assistant in the session, without its citations, and
    nothing more only if there is no such message; with the session's context, if asked for, right before the last message
    of the user; and the rollout gains the compaction with that history. *)
Theorem compaction_task_ends from_xml_str new_id json_len image_dims policy window base mods max_retries model_stream fuel s
    input injection context tci :
  (forall n l, stream_fits from_xml_str new_id (model_stream n l)) -> allocatable_item input ->
  Forall (fits from_xml_str new_id) (items (s_history s)) ->
  (length (items (s_history s)) + 2) * S max_retries <= fuel ->
  exists history hs s1 s' r,
    run_compact_task_inner_impl from_xml_str new_id json_len image_dims policy window base false mods max_retries
      model_stream fuel s input injection context tci = Some (s', r) /\
    record_items (s_history s) [input] policy = Some history /\
    length (history :: hs) <= (length (items (s_history s)) + 2) * S max_retries /\
    attempted mods max_retries model_stream 0 0 history hs (_ ← r; Ok tt) /\
    gained policy (sent_items mods model_stream 0 history hs) s s1 /\
    match r with
    | Err _ => s' = s1
    | Ok suffix =>
        (exists m, last_spoken (items (s_history s1)) m /\ suffix = default [] m) /\
        summarised from_xml_str new_id injection context tci s1 s' suffix
    end.
Proof.
  intros Hm Hin Hfits Hfuel. unfold run_compact_task_inner_impl, record_items.
  destruct (record_loop_spec policy [input] (items (s_history s))) as (rec & -> & Hrec); [by apply Forall_singleton|].
  cbn [fmap option_fmap option_map mbind option_bind]. set (history := with_items (s_history s) _).
  assert (length (items history) <= length (items (s_history s)) + 1) as Hlen.
  { subst history. cbn [items with_items]. rewrite length_app, <- (Forall2_length _ _ _ Hrec). cbn [List.filter].
    destruct (is_api_message input); cbn; lia. }
  set (least := (length (items (s_history s)) + 2) * S max_retries) in *.
  destruct (compact_loop_ends from_xml_str new_id policy window mods max_retries model_stream least 0 history s 0 Hm)
    as (s1 & r & hs & Hloop & Hn & Hatt & Hg); [subst least; nia|].
  rewrite (compact_loop_mono _ _ _ _ _ _ _ _ _ _ _ _ _ Hfuel Hloop).
  cbn [mbind option_bind]. exists history, hs, s1. destruct r as [[]|e]; [|by exists s1, (Err e)].
  destruct (install_summarised from_xml_str new_id json_len image_dims window base injection context tci s1)
    as (s' & suffix & -> & Hsuf & Hsum).
  { destruct Hg as (Hl & _). eapply recorded_fits; [by eapply sent_fit| |exact Hl].
    eapply Forall_impl; [exact Hfits|]. by intros x [_ ?]. }
  cbn [mbind option_bind]. by exists s', (Ok suffix).
Qed.

Lemma compaction_task_ends_witness :
  let reply text := Message None (lit "assistant") [OutputText (lit text)] None in
  let model (n : nat) (_ : list ResponseItem) : list (result CodexErr ResponseEvent) :=
    match n with
    | 0 => [Err ContextWindowExceeded]
    | 1 => [Err InternalServerError]
    | _ => [Ok (OutputItemDone (reply "done so far"%string)); Ok (ResponseCompleted [] None)]
    end in
  let s := SessionOf (@Manager TokenUsageInfo TurnContextItem [user_text (lit "a"); user_text (lit "b")] 0 None None) [] in
  exists s1 s' suffix,
    run_compact_task_inner_impl (fun _ => None) [] (fun _ => None) (fun _ => None) (Bytes 1000) None [] false [] 1 model 8 s
      (user_text (lit "compact")) DoNotInject [] (example_context "1") = Some (s', Ok suffix) /\
    summarised (fun _ => None) [] DoNotInject [] (example_context "1") s1 s' suffix /\ suffix = lit "done so far".
Proof.
  intros reply model s.
  destruct (compaction_task_ends (fun _ => None) [] (fun _ => None) (fun _ => None) (Bytes 1000) None [] [] 1 model 8 s
              (user_text (lit "compact")) DoNotInject [] (example_context "1")) as (history & hs & s1 & s' & r & Hr & _ & _ & _ & _ & Hmatch).
  - intros [|[|n]] l; repeat constructor; intros text Ht; vm_compute in Ht; congruence.
  - exact I.
  - repeat (apply Forall_cons_2; [split; [exact I|intros text Ht; vm_compute in Ht; injection Ht as <-; vm_compute; congruence]|]).
    apply Forall_nil_2.
  - reflexivity.
  - destruct r as [suffix|e]; [|vm_compute in Hr; congruence]. exists s1, s', suffix. split; [exact Hr|].
    split; [exact (proj2 Hmatch)|]. vm_compute in Hr. injection Hr as _ <-. reflexivity.
Defined.

Definition is_plain_compaction (item : ResponseItem) : bool := match item with Compaction _ => true | _ => false end.

(** A stream yields its compaction exactly when it completes with one and only one. *)
Lemma compaction_output_spec stream :
  is_Some (collect_compaction_output stream) /\
  forall item id usage, collect_compaction_output stream = Some (Ok (item, id, usage)) ->
    List.filter is_plain_compaction (done_items stream) = [item].
Proof.
  assert (forall stream n c o, (match o with Some _ => 0 < c | None => c = 0 end)%N ->
    match collect_events stream (n, c, o) with
    | Ok ((n', c', o'), _) =>
        c' = (c + N.of_nat (length (List.filter is_plain_compaction (done_items stream))))%N /\
        o' = or_else o (head (List.filter is_plain_compaction (done_items stream)))
    | Err _ => True
    end) as Hc.
  { intros st. induction st as [|e st IH]; intros n c o Ho; [cbn; split; [lia|by destruct o]|].
    destruct e as [[item|id usage|]|e]; cbn [collect_events done_items]; [|cbn; split; [lia|by destruct o]|by apply IH|done].
    destruct (is_plain_compaction item) eqn:Ei.
    - destruct item; try done. cbn [List.filter is_plain_compaction length head].
      match goal with |- context[collect_events st (?n', ?c', ?o')] => specialize (IH n' c' o') end.
      destruct (collect_events st _) as [[[[n' c'] o'] fin]|e]; [|done].
      destruct IH as [-> ->]; [destruct o; cbn; lia|]. split; [lia|by destruct o].
    - assert (match item with Compaction _ => (c + 1)%N | _ => c end = c) as -> by (by destruct item).
      assert (match item with Compaction _ => or_else o (Some item) | _ => o end = o) as -> by (by destruct item).
      cbn [List.filter]. rewrite Ei. by apply IH. }
  specialize (Hc stream 0%N 0%N None eq_refl). unfold collect_compaction_output.
  destruct (collect_events stream (0%N, 0%N, None)) as [[[[n c] o] [[id usage]|]]|e]; [|done|done].
  destruct Hc as [-> ->]. destruct (List.filter is_plain_compaction (done_items stream)) as [|x [|y l]] eqn:E.
  - by split.
  - cbn. split; [done|]. by intros item id' usage' [= -> _ _].
  - cbn [length]. rewrite (proj2 (N.eqb_neq _ 1)) by lia. by split.
Qed.

End SessionHistory.
