(* ===== verification/HeadTailBuffer.v ===== *)
(** * The output of an executing command: core/src/unified_exec

    The capped buffer that keeps the beginning and the end of an output (head_tail_buffer.rs), the way
    it is drained and collected (process_manager.rs), and the streaming of an output in chunks of bytes
    (async_watcher.rs).  Bytes are numbers below 256; sizes are [usize] values that saturate. *)

From S2P Require Import Prelude Text StreamText Utf8Stream.
From Stdlib Require Import ZifyBool ZifyN ZifyNat.

Import StreamText Utf8Stream.

#[local] Ltac Zify.zify_post_hook ::= Z.div_mod_to_equations.

Module HeadTailBuffer.

Definition size {A} (l : list A) : N := N.of_nat (length l).
Definition take_N {A} (n : N) (l : list A) : list A := take (N.to_nat n) l.
Definition drop_N {A} (n : N) (l : list A) : list A := drop (N.to_nat n) l.

(** ** The buffer *)

(** [codex-rs/core/src/unified_exec/head_tail_buffer.rs:5-18 HeadTailBuffer] *)
Record HeadTailBuffer := Buffer {
  max_bytes : N;
  head_budget : N;
  tail_budget : N;
  head : list N;
  tail : list N;
  omitted_bytes : N
}.

(** [codex-rs/core/src/unified_exec/mod.rs:71-71 UNIFIED_EXEC_OUTPUT_MAX_BYTES] *)
Definition UNIFIED_EXEC_OUTPUT_MAX_BYTES : N := (1024 * 1024)%N.

(** [codex-rs/core/src/unified_exec/head_tail_buffer.rs:31-42 new] *)
Definition new (max_bytes : N) : HeadTailBuffer :=
  let head_budget := (max_bytes / 2)%N in
  let tail_budget := saturating_sub max_bytes head_budget in
  Buffer max_bytes head_budget tail_budget [] [] 0.

(** [codex-rs/core/src/unified_exec/head_tail_buffer.rs:21-23 default] *)
Definition default_buffer : HeadTailBuffer := new UNIFIED_EXEC_OUTPUT_MAX_BYTES.

(** [codex-rs/core/src/unified_exec/head_tail_buffer.rs:47-49 retained_bytes] *)
Definition retained_bytes (self : HeadTailBuffer) : N := saturating_add (size (head self)) (size (tail self)).

(** [codex-rs/core/src/unified_exec/head_tail_buffer.rs:59-61 total_bytes] *)
Definition total_bytes (self : HeadTailBuffer) : N := saturating_add (retained_bytes self) (omitted_bytes self).

Definition with_tail (self : HeadTailBuffer) (tail : list N) (omitted : N) : HeadTailBuffer :=
  Buffer (max_bytes self) (head_budget self) (tail_budget self) (head self) tail omitted.

(** [codex-rs/core/src/unified_exec/head_tail_buffer.rs:183-189 trim_tail_to_budget] *)
Definition trim_tail_to_budget (self : HeadTailBuffer) : HeadTailBuffer :=
  let excess := saturating_sub (size (tail self)) (tail_budget self) in
  if (0 <? excess)%N
  then with_tail self (drop_N excess (tail self)) (saturating_add (omitted_bytes self) excess)
  else self.

(** [codex-rs/core/src/unified_exec/head_tail_buffer.rs:155-181 push_to_tail] *)
Definition push_to_tail (self : HeadTailBuffer) (chunk : list N) : HeadTailBuffer :=
  if bool_decide (chunk = []) then self
  else if (tail_budget self =? 0)%N
  then with_tail self (tail self) (saturating_add (omitted_bytes self) (size chunk))
  else if (tail_budget self <=? size chunk)%N
  then
    let start := saturating_sub (size chunk) (tail_budget self) in
    let kept := drop_N start chunk in
    let dropped := saturating_sub (size chunk) (size kept) in
    with_tail self kept
      (saturating_add (saturating_add (omitted_bytes self) (size (tail self))) dropped)
  else trim_tail_to_budget (with_tail self (tail self ++ chunk) (omitted_bytes self)).

(** [codex-rs/core/src/unified_exec/head_tail_buffer.rs:68-84 push_chunk] *)
Definition push_chunk (self : HeadTailBuffer) (chunk : list N) : HeadTailBuffer :=
  if bool_decide (chunk = []) then self
  else if (max_bytes self =? 0)%N
  then with_tail self (tail self) (saturating_add (omitted_bytes self) (size chunk))
  else
    let remaining_head := saturating_sub (head_budget self) (size (head self)) in
    let head_len := N.min remaining_head (size chunk) in
    let self := if (0 <? head_len)%N
                then Buffer (max_bytes self) (head_budget self) (tail_budget self)
                       (head self ++ take_N head_len chunk) (tail self) (omitted_bytes self)
                else self in
    push_to_tail self (drop_N head_len chunk).

(** [codex-rs/core/src/unified_exec/head_tail_buffer.rs:90-99 snapshot_chunks] *)
Definition snapshot_chunks (self : HeadTailBuffer) : list (list N) :=
  (if bool_decide (head self = []) then [] else [head self])
  ++ (if bool_decide (tail self = []) then [] else [tail self]).

(** [codex-rs/core/src/unified_exec/head_tail_buffer.rs:105-110 to_bytes] *)
Definition to_bytes (self : HeadTailBuffer) : list N := head self ++ tail self.

(** [codex-rs/core/src/unified_exec/mod.rs:251-253 format_output_omission_marker] *)
Definition format_output_omission_marker (omitted_bytes : N) : str :=
  lit "... " ++ show_N omitted_bytes ++ lit " bytes omitted ...".

(** [codex-rs/core/src/unified_exec/head_tail_buffer.rs:114-132 to_bytes_with_omission_marker] *)
Definition to_bytes_with_omission_marker (self : HeadTailBuffer) : list N :=
  if (omitted_bytes self =? 0)%N then to_bytes self
  else head self ++ [NL] ++ encode (format_output_omission_marker (omitted_bytes self)) ++ [NL] ++ tail self.

(** [codex-rs/core/src/unified_exec/head_tail_buffer.rs:136-145 drain] *)
Definition drain (self : HeadTailBuffer) : HeadTailBuffer * HeadTailBuffer :=
  (Buffer (max_bytes self) (head_budget self) (tail_budget self) [] [] 0, self).

(** [codex-rs/core/src/unified_exec/head_tail_buffer.rs:149-153 push_buffer] *)
Definition push_buffer (self buffer : HeadTailBuffer) : HeadTailBuffer :=
  let self := push_chunk self (head buffer) in
  let self := push_chunk self (tail buffer) in
  with_tail self (tail self) (saturating_add (omitted_bytes self) (omitted_bytes buffer)).

(** ** What the buffer stands for *)

(** The buffer after the bytes [s]: the first half of the capacity, the last half of what follows, and
    the count of the bytes between them. *)
Definition view (max : N) (s : list N) : HeadTailBuffer :=
  let head_budget := (max / 2)%N in
  let tail_budget := (max - max / 2)%N in
  let rest := drop_N head_budget s in
  Buffer max head_budget tail_budget (take_N head_budget s) (drop_N (size rest - tail_budget) rest)
    (N.min (size s - max) usize_max).

Lemma size_app {A} (a b : list A) : size (a ++ b) = (size a + size b)%N.
Proof. unfold size. rewrite length_app. lia. Qed.

Lemma size_nil {A} (l : list A) : size l = 0%N <-> l = [].
Proof. unfold size. destruct l; simpl; split; intros; try done; lia. Qed.

Lemma size_take {A} n (l : list A) : size (take_N n l) = N.min n (size l).
Proof. unfold size, take_N. rewrite length_take. lia. Qed.

Lemma size_drop {A} n (l : list A) : size (drop_N n l) = (size l - n)%N.
Proof. unfold size, drop_N. rewrite length_drop. lia. Qed.

Lemma drop_N_app {A} n (a b : list A) : drop_N n (a ++ b) = drop_N n a ++ drop_N (n - size a) b.
Proof. unfold drop_N, size. rewrite drop_app. do 3 f_equal. lia. Qed.

Lemma take_N_app {A} n (a b : list A) : take_N n (a ++ b) = take_N n a ++ take_N (n - size a) b.
Proof. unfold take_N, size. rewrite take_app. do 3 f_equal. lia. Qed.

Lemma drop_drop_N {A} n m (l : list A) : drop_N n (drop_N m l) = drop_N (m + n) l.
Proof. unfold drop_N. rewrite drop_drop. f_equal. lia. Qed.

Lemma drop_N_ge {A} n (l : list A) : (size l <= n)%N -> drop_N n l = [].
Proof. intros H. unfold drop_N, size in *. apply drop_ge. lia. Qed.

Lemma take_N_ge {A} n (l : list A) : (size l <= n)%N -> take_N n l = l.
Proof. intros H. unfold take_N, size in *. apply take_ge. lia. Qed.

Lemma drop_N_0 {A} (l : list A) : drop_N 0 l = l.
Proof. done. Qed.

Lemma take_N_0 {A} (l : list A) : take_N 0 l = [].
Proof. done. Qed.

Lemma new_view max : new max = view max [].
Proof. unfold new, view, drop_N, take_N, saturating_sub. by rewrite !drop_nil, take_nil. Qed.

(** What [push_to_tail] does to a buffer whose tail is the end of the bytes [r] beyond the head. *)
Lemma push_to_tail_end m hb tb h r o c :
  push_to_tail (Buffer m hb tb h (drop_N (size r - tb) r) (N.min o usize_max)) c =
  Buffer m hb tb h (drop_N (size (r ++ c) - tb) (r ++ c))
    (N.min (o + (size (drop_N (size r - tb) r) + size c - tb)) usize_max).
Proof.
  set (t := drop_N (size r - tb) r). assert (Ht : size t = N.min (size r) tb) by (unfold t; rewrite size_drop; lia).
  assert (Hend : drop_N (size (r ++ c) - tb) (r ++ c) = drop_N (size (t ++ c) - tb) (t ++ c)).
  { unfold t. rewrite !drop_N_app, drop_drop_N, !size_app, size_drop. f_equal; f_equal; lia. }
  rewrite Hend. unfold push_to_tail, with_tail, trim_tail_to_budget, saturating_add, saturating_sub.
  cbn [max_bytes head_budget tail_budget head tail omitted_bytes].
  case_bool_decide as Hc.
  { subst c. rewrite app_nil_r. change (size (@nil N)) with 0%N.
    replace (size t - tb)%N with 0%N by lia. rewrite drop_N_0. f_equal. lia. }
  destruct (N.eqb_spec tb 0) as [->|Htb].
  { rewrite N.sub_0_r, drop_N_ge by lia. assert (t = []) as -> by (apply size_nil; lia). f_equal.
    change (size (@nil N)) with 0%N. lia. }
  destruct (N.leb_spec tb (size c)) as [Hl|Hl].
  { f_equal; [|rewrite size_drop; lia]. rewrite size_app, drop_N_app, (drop_N_ge _ t) by lia. cbn [app]. f_equal. lia. }
  cbn [tail]. rewrite size_app. destruct (N.ltb_spec 0 (size t + size c - tb)) as [He|He].
  - f_equal. lia.
  - replace (size t + size c - tb)%N with 0%N by lia. by rewrite drop_N_0, N.add_0_r.
Qed.

(** Pushing a chunk is appending it to the bytes that the buffer stands for. *)
Lemma push_chunk_view max s c : push_chunk (view max s) c = view max (s ++ c).
Proof.
  unfold push_chunk. case_bool_decide as Hc; [by subst; rewrite app_nil_r|].
  unfold view. cbn [max_bytes head_budget tail_budget head tail omitted_bytes].
  destruct (N.eqb_spec max 0) as [->|Hm].
  { unfold with_tail, saturating_add. cbn [max_bytes head_budget tail_budget head tail omitted_bytes].
    change (0 / 2)%N with 0%N. rewrite !take_N_0, !drop_N_0, !N.sub_0_r, !(drop_N_ge (size _)), size_app by lia.
    f_equal. lia. }
  assert (Hhb : (max / 2 <= max)%N) by lia. set (hb := (max / 2)%N) in *. clearbody hb.
  set (tb := (max - hb)%N). unfold saturating_sub. rewrite size_take.
  set (k := N.min (hb - N.min hb (size s)) (size c)).
  transitivity (push_to_tail (Buffer max hb tb (take_N hb s ++ take_N k c)
                                (drop_N (size (drop_N hb s) - tb) (drop_N hb s)) (N.min (size s - max) usize_max))
                  (drop_N k c)).
  { destruct (N.ltb_spec 0 k) as [Hk|Hk]; [done|].
    replace k with 0%N by lia. by rewrite take_N_0, app_nil_r. }
  rewrite push_to_tail_end.
  assert (drop_N hb s ++ drop_N k c = drop_N hb (s ++ c)) as ->.
  { rewrite drop_N_app. f_equal. unfold k.
    destruct (N.leb_spec (hb - size s) (size c)); [f_equal; lia|]. rewrite !drop_N_ge; [done|lia|lia]. }
  rewrite !size_drop, size_app. f_equal; [|lia].
  rewrite take_N_app. f_equal. unfold k.
  destruct (N.leb_spec (hb - size s) (size c)); [f_equal; lia|]. rewrite !take_N_ge; [done|lia|lia].
Qed.

(** Pushing the contents of another buffer of the same capacity is appending its bytes, also when it had
    to omit some of them. *)
Lemma push_buffer_view max s r : push_buffer (view max s) (view max r) = view max (s ++ r).
Proof.
  unfold push_buffer. rewrite !push_chunk_view. unfold with_tail.
  assert (Hhb : (max / 2 <= max)%N) by lia. unfold view.
  cbn [max_bytes head_budget tail_budget head tail omitted_bytes].
  set (hb := (max / 2)%N) in *. clearbody hb. set (tb := (max - hb)%N).
  set (h := take_N hb r). set (t := drop_N (size (drop_N hb r) - tb) (drop_N hb r)).
  assert (Hh : size h = N.min hb (size r)) by apply size_take.
  assert (Ht : size t = N.min tb (size r - hb)) by (unfold t; rewrite !size_drop; lia).
  destruct (N.leb_spec (size r) max) as [Hr|Hr].
  { assert (h ++ t = r) as Hht.
    { unfold h, t. rewrite size_drop. replace (size r - hb - tb)%N with 0%N by lia. rewrite drop_N_0. apply take_drop. }
    rewrite <- app_assoc, Hht. f_equal. unfold saturating_add. lia. }
  f_equal.
  - rewrite <- app_assoc, !(take_N_app hb s). f_equal. rewrite take_N_app.
    replace (hb - size s - size h)%N with 0%N by lia. rewrite take_N_0, app_nil_r. unfold h, take_N.
    rewrite take_take. f_equal. lia.
  - assert (Hlast : forall a b : list N, (tb <= size b)%N -> (hb <= size a)%N ->
      drop_N (size (drop_N hb (a ++ b)) - tb) (drop_N hb (a ++ b)) = drop_N (size b - tb) b).
    { intros a b Hb Ha. rewrite drop_drop_N, size_drop, size_app, drop_N_app, drop_N_ge by lia. cbn [app].
      f_equal. lia. }
    rewrite Hlast by (rewrite ?size_app; lia). replace (size t - tb)%N with 0%N by lia. rewrite drop_N_0.
    assert (drop_N hb (s ++ r) = drop_N hb (s ++ take_N hb r) ++ drop_N hb r) as Hd.
    { rewrite <- (take_drop (N.to_nat hb) r) at 1. fold (take_N hb r) (drop_N hb r).
      rewrite app_assoc, drop_N_app. f_equal. rewrite size_app. fold h.
      replace (hb - (size s + size h))%N with 0%N by lia. apply drop_N_0. }
    rewrite Hd, drop_N_app, drop_N_ge, size_app, !size_drop.
    + cbn [app]. unfold t. f_equal. rewrite !size_drop. lia.
    + rewrite size_app, !size_drop, size_app. fold h. lia.
  - rewrite !size_app. unfold saturating_add. lia.
Qed.

(** ** Collecting the output *)

(** What happens to the output of a process: a chunk arrives in the shared buffer, or the reader takes
    what the shared buffer holds. *)
Inductive event := Received (chunk : list N) | Taken.

(** [codex-rs/core/src/unified_exec/process_manager.rs:1248-1257 collect_output_until_deadline] *)
Definition take_output (output_buffer collected : HeadTailBuffer) : HeadTailBuffer * HeadTailBuffer :=
  let (output_buffer, drained_output) := drain output_buffer in
  let has_drained_output := (0 <? retained_bytes drained_output)%N || (0 <? omitted_bytes drained_output)%N in
  (output_buffer, if has_drained_output then push_buffer collected drained_output else collected).

Definition output_step (st : HeadTailBuffer * HeadTailBuffer) (ev : event) : HeadTailBuffer * HeadTailBuffer :=
  match ev with
  | Received chunk => (push_chunk (fst st) chunk, snd st)
  | Taken => take_output (fst st) (snd st)
  end.

Definition received (ev : event) : list N := match ev with Received chunk => chunk | Taken => [] end.

Lemma view_empty max s :
  retained_bytes (view max s) = 0%N -> omitted_bytes (view max s) = 0%N -> s = [].
Proof.
  unfold retained_bytes, view, saturating_add. cbn [head tail omitted_bytes]. rewrite size_take, !size_drop.
  intros H1 H2. apply size_nil. unfold usize_max, u64_max in *. lia.
Qed.

Lemma view_fits max s : (size s <= max)%N -> to_bytes_with_omission_marker (view max s) = s.
Proof.
  intros Hs. unfold to_bytes_with_omission_marker, to_bytes, view. cbn [head tail omitted_bytes].
  replace (size s - max)%N with 0%N by lia. change (N.min 0 usize_max) with 0%N. cbn [N.eqb]. rewrite size_drop.
  replace (size s - max / 2 - (max - max / 2))%N with 0%N by lia. rewrite drop_N_0. apply take_drop.
Qed.

Lemma take_output_view max s r : take_output (view max s) (view max r) = (view max [], view max (r ++ s)).
Proof.
  unfold take_output, drain. cbn [fst snd]. f_equal; [apply new_view|].
  destruct (N.ltb_spec 0 (retained_bytes (view max s))) as [H|H]; [apply push_buffer_view|].
  destruct (N.ltb_spec 0 (omitted_bytes (view max s))) as [H'|H']; [apply push_buffer_view|].
  cbn [orb]. rewrite (view_empty max s), app_nil_r by lia. done.
Qed.

Lemma output_steps max evs taken waiting :
  exists taken' waiting',
    fold_left output_step evs (view max waiting, view max taken) = (view max waiting', view max taken') /\
    taken' ++ waiting' = taken ++ waiting ++ concat (map received evs).
Proof.
  revert taken waiting; induction evs as [|[c|] evs IH]; intros taken waiting; cbn [fold_left map concat].
  - exists taken, waiting. by rewrite app_nil_r.
  - cbn [output_step fst snd received]. rewrite push_chunk_view. destruct (IH taken (waiting ++ c)) as (t & w & -> & Hw).
    exists t, w. split; [done|]. by rewrite Hw, <- !app_assoc.
  - cbn [output_step fst snd received]. rewrite take_output_view. destruct (IH (taken ++ waiting) []) as (t & w & -> & Hw).
    exists t, w. split; [done|]. by rewrite Hw, <- !app_assoc.
Qed.

(** C37: the capped output buffers are exact.  However an output is cut into chunks, and whenever a reader
    drains the shared buffer in between and appends what it took to its own buffer, the reader ends up
    with the first half of the capacity, the last half, and the count of the bytes left out between
    them, of the complete output: never more than the capacity, and the output itself when it fits. *)
Theorem collected_output_exact max evs :
  let out := concat (map received evs) in
  let st := fold_left output_step evs (new max, new max) in
  let collected := snd (take_output (fst st) (snd st)) in
  collected = view max out /\
  (retained_bytes collected <= max)%N /\
  (size out <= max -> to_bytes_with_omission_marker collected = out)%N.
Proof.
  intros out st collected. assert (Hc : collected = view max out).
  { unfold collected, st, out. rewrite new_view.
    destruct (output_steps max evs [] []) as (t & w & -> & Hw). cbn [fst snd]. rewrite take_output_view.
    cbn [snd]. by rewrite Hw. }
  rewrite Hc. split; [done|]. split.
  - unfold retained_bytes, view, saturating_add. cbn [head tail]. rewrite size_take, !size_drop. lia.
  - apply view_fits.
Qed.

(** ** Streaming the output *)

(** [codex-rs/core/src/unified_exec/async_watcher.rs:35-35 UNIFIED_EXEC_OUTPUT_DELTA_MAX_BYTES] *)
Definition UNIFIED_EXEC_OUTPUT_DELTA_MAX_BYTES : nat := N.to_nat 8192.

(** [codex-rs/core/src/exec.rs:73-73 MAX_EXEC_OUTPUT_DELTAS_PER_CALL] *)
Definition MAX_EXEC_OUTPUT_DELTAS_PER_CALL : N := 10000%N.

(** [codex-rs/core/src/unified_exec/async_watcher.rs:301-312 split_valid_utf8_prefix_with_max] *)
Fixpoint find_split (buffer : list N) (max_len split : nat) : option nat :=
  match split with
  | 0 => None
  | S split' =>
      if is_ok (from_utf8 (take split buffer)) then Some split
      else if 4 <? max_len - split then None
      else find_split buffer max_len split'
  end.

(** [codex-rs/core/src/unified_exec/async_watcher.rs:294-318 split_valid_utf8_prefix_with_max] *)
Definition split_valid_utf8_prefix_with_max (buffer : list N) (max_bytes : nat) : option (list N * list N) :=
  if bool_decide (buffer = []) then None
  else
    let max_len := length buffer `min` max_bytes in
    match find_split buffer max_len max_len with
    | Some split => Some (take split buffer, drop split buffer)
    | None => Some (take 1 buffer, drop 1 buffer)
    end.

(** [codex-rs/core/src/unified_exec/async_watcher.rs:290-292 split_valid_utf8_prefix] *)
Definition split_valid_utf8_prefix (buffer : list N) : option (list N * list N) :=
  split_valid_utf8_prefix_with_max buffer UNIFIED_EXEC_OUTPUT_DELTA_MAX_BYTES.

(** The state of the streaming task, with the deltas it has sent. *)
Record Stream := Streaming {
  pending : list N;
  transcript : HeadTailBuffer;
  emitted_deltas : N;
  deltas : list (list N)
}.

(** [codex-rs/core/src/unified_exec/async_watcher.rs:169-188 process_chunk] *)
Fixpoint process_pending (fuel : nat) (st : Stream) : option Stream :=
  match fuel with
  | 0 => None
  | S fuel =>
      match split_valid_utf8_prefix (pending st) with
      | None => Some st
      | Some (prefix, rest) =>
          let transcript := push_chunk (transcript st) prefix in
          if (MAX_EXEC_OUTPUT_DELTAS_PER_CALL <=? emitted_deltas st)%N
          then process_pending fuel (Streaming rest transcript (emitted_deltas st) (deltas st))
          else process_pending fuel
                 (Streaming rest transcript (emitted_deltas st + 1) (deltas st ++ [prefix]))
      end
  end.

(** [codex-rs/core/src/unified_exec/async_watcher.rs:159-189 process_chunk] *)
Definition process_chunk (st : Stream) (chunk : list N) : option Stream :=
  let pending := pending st ++ chunk in
  process_pending (S (length pending)) (Streaming pending (transcript st) (emitted_deltas st) (deltas st)).

(** [String::from_utf8_lossy]: each sequence of bytes that is not a character becomes [U+FFFD]. *)
Fixpoint from_utf8_lossy_at (fuel : nat) (bs : list N) : str :=
  match fuel with
  | 0 => []
  | S fuel =>
      match from_utf8 bs with
      | Ok s => s
      | Err e =>
          match from_utf8 (take (valid_up_to e) bs) with Ok s => s | Err _ => [] end
          ++ [65533%N]
          ++ match error_len e with
             | None => []
             | Some n => from_utf8_lossy_at fuel (drop (valid_up_to e + n) bs)
             end
      end
  end.
Definition from_utf8_lossy (bs : list N) : str := from_utf8_lossy_at (S (length bs)) bs.

(** [codex-rs/core/src/unified_exec/async_watcher.rs:320-330 resolve_aggregated_output] *)
Definition resolve_aggregated_output (transcript : HeadTailBuffer) (fallback : str) : str :=
  if (retained_bytes transcript =? 0)%N then fallback
  else from_utf8_lossy (to_bytes_with_omission_marker transcript).

(** *** Progress *)

(** A delta is a text of at most the maximal size, or a single byte. *)
Definition delta_ok (p : list N) : Prop :=
  p <> [] /\ length p <= UNIFIED_EXEC_OUTPUT_DELTA_MAX_BYTES /\ (is_ok (from_utf8 p) = true \/ length p = 1).

Lemma find_split_Some b m s k :
  find_split b m s = Some k -> 0 < k <= s /\ is_ok (from_utf8 (take k b)) = true.
Proof.
  induction s as [|s IH]; cbn [find_split]; [done|].
  destruct (is_ok (from_utf8 (take (S s) b))) eqn:E; [intros [= <-]; by split; [lia|]|].
  destruct (4 <? m - S s); [done|]. intros H. destruct (IH H). by split; [lia|].
Qed.

Lemma split_progress b :
  b <> [] -> exists p r, split_valid_utf8_prefix b = Some (p, r) /\ b = p ++ r /\ delta_ok p.
Proof.
  intros Hb. unfold split_valid_utf8_prefix, split_valid_utf8_prefix_with_max. rewrite bool_decide_false by done.
  assert (Hl : 0 < length b) by (destruct b; [done|simpl; lia]).
  assert (Hmax : 4 < UNIFIED_EXEC_OUTPUT_DELTA_MAX_BYTES) by (unfold UNIFIED_EXEC_OUTPUT_DELTA_MAX_BYTES; lia).
  destruct (find_split b _ _) as [k|] eqn:E; eexists _, _; (split; [done|]); rewrite take_drop; (split; [done|]).
  - apply find_split_Some in E as [Hk Hok]. repeat split; [|rewrite length_take; lia|by left].
    intros H. apply (f_equal length) in H. rewrite length_take in H. simpl in H. lia.
  - destruct b as [|x b]; [done|]. cbn [take]. repeat split; [done|simpl; lia|by right].
Qed.

(** The deltas that may still be sent. *)
Definition delta_room (emitted : N) : nat := N.to_nat (MAX_EXEC_OUTPUT_DELTAS_PER_CALL - emitted).

(** Pending bytes with the property [I] are cut into a piece with the property [Q] and bytes with the
    property [I]. *)
Definition cut_into (I Q : list N -> Prop) : Prop :=
  forall b, I b -> b <> [] ->
    exists p r, split_valid_utf8_prefix b = Some (p, r) /\ b = p ++ r /\ p <> [] /\ Q p /\ I r.

(** The pieces that the pending bytes are cut into. *)
Fixpoint pieces (fuel : nat) (b : list N) : list (list N) :=
  match fuel with
  | 0 => []
  | S fuel => match split_valid_utf8_prefix b with
              | None => []
              | Some (p, r) => p :: pieces fuel r
              end
  end.

Lemma split_empty : split_valid_utf8_prefix [] = None.
Proof. done. Qed.

Lemma pieces_cut (I Q : list N -> Prop) fuel b :
  cut_into I Q -> I b -> length b < fuel -> concat (pieces fuel b) = b /\ Forall Q (pieces fuel b).
Proof.
  intros Hcut. revert b; induction fuel as [|fuel IH]; intros b Hi Hf; [lia|]. cbn [pieces].
  destruct (decide (b = [])) as [->|Hb]; [by rewrite split_empty|].
  destruct (Hcut b Hi Hb) as (p & r & -> & -> & Hne & Hq & Hr). cbn [concat].
  rewrite length_app in Hf. destruct (IH r Hr) as [-> Hps]; [destruct p; [done|]; simpl in Hf; lia|].
  split; [done | by constructor].
Qed.

(** The loop over the pending bytes ends, with no byte left, and has sent their pieces. *)
Lemma process_pending_pieces fuel st max s :
  transcript st = view max s -> length (pending st) < fuel ->
  process_pending fuel st =
    let sent := take (delta_room (emitted_deltas st)) (pieces fuel (pending st)) in
    Some (Streaming [] (view max (s ++ pending st)) (emitted_deltas st + size sent) (deltas st ++ sent)).
Proof.
  revert st s; induction fuel as [|fuel IH]; intros st s Ht Hf; [lia|]. cbn [process_pending pieces].
  destruct (decide (pending st = [])) as [Hp|Hp].
  { rewrite Hp, split_empty, take_nil, !app_nil_r, N.add_0_r, <- Ht, <- Hp. by destruct st. }
  destruct (split_progress (pending st) Hp) as (p & r & -> & Hpr & Hne & _). rewrite Ht, push_chunk_view.
  assert (Hr : length r < fuel).
  { apply (f_equal length) in Hpr. rewrite length_app in Hpr. destruct p; [done|]. simpl in Hpr. lia. }
  destruct (N.leb_spec MAX_EXEC_OUTPUT_DELTAS_PER_CALL (emitted_deltas st)) as [Hm|Hm].
  - rewrite (IH _ (s ++ p)) by done. cbn [pending emitted_deltas deltas]. rewrite Hpr, <- app_assoc.
    unfold delta_room. by replace (N.to_nat _) with 0 by lia.
  - rewrite (IH _ (s ++ p)) by done. cbn [pending emitted_deltas deltas]. rewrite Hpr, <- !app_assoc.
    assert (delta_room (emitted_deltas st) = S (delta_room (emitted_deltas st + 1))) as -> by (unfold delta_room; lia).
    cbn [take app]. f_equal. f_equal. unfold size. cbn [length]. lia.
Qed.

Lemma cut_any : cut_into (fun _ => True) delta_ok.
Proof.
  intros b _ Hb. destruct (split_progress b Hb) as (p & r & H & Hpr & Hok). exists p, r.
  split; [done|]. split; [done|]. split; [apply Hok|by split].
Qed.

(** *** Characters are not cut *)

Lemma held_take t j : held t -> held (take j t).
Proof.
  intros [->|(Hne & c & more & Hc & He & Hm)]; [rewrite take_nil; by left|].
  destruct (decide (take j t = [])) as [->|Hj]; [by left|]. right. split; [done|].
  exists c, (drop j t ++ more). split; [done|]. rewrite app_assoc, take_drop. split; [done|].
  intros H. apply app_eq_nil in H as [_ H]. done.
Qed.

Lemma held_ok text t : scalars text -> held t -> is_ok (from_utf8 (encode text ++ t)) = is_nil t.
Proof. intros Ht Hh. rewrite from_utf8_held by done. by destruct t. Qed.

Lemma length_encode_pos text : text <> [] -> 0 < length (encode text).
Proof.
  destruct text as [|c text]; [done|]. intros _. unfold encode. cbn [map concat]. rewrite length_app.
  pose proof (encode_char_length c). lia.
Qed.

Lemma find_split_text text t b j :
  scalars text -> held t -> text <> [] -> j <= length t ->
  take (length (encode text ++ t)) b = encode text ++ t ->
  find_split b (length (encode text ++ t)) (length (encode text) + j) = Some (length (encode text)).
Proof.
  intros Ht Hh Hne Hj Hb.
  assert (Htake : forall i, i <= length t -> take (length (encode text) + i) b = encode text ++ take i t).
  { intros i Hi. transitivity (take (length (encode text) + i) (take (length (encode text ++ t)) b)).
    - rewrite take_take. f_equal. rewrite length_app. lia.
    - by rewrite Hb, take_app_add. }
  pose proof (held_length t Hh) as H3. pose proof (length_encode_pos text Hne).
  induction j as [|j IH].
  - rewrite Nat.add_0_r. destruct (length (encode text)) as [|n] eqn:E; [lia|]. cbn [find_split].
    specialize (Htake 0 ltac:(lia)). rewrite Nat.add_0_r, take_0, app_nil_r in Htake.
    rewrite Htake. unfold from_utf8. by rewrite from_utf8_encode.
  - rewrite Nat.add_succ_r. cbn [find_split]. rewrite <- Nat.add_succ_r, Htake by done.
    rewrite held_ok by (try done; by apply held_take). destruct t as [|x t]; [simpl in Hj; lia|]. cbn [take is_nil].
    destruct (Nat.ltb_spec 4 (length (encode text ++ x :: t) - (length (encode text) + S j))) as [Hl|Hl].
    { rewrite length_app in Hl. simpl in *. lia. }
    apply IH. lia.
Qed.

Lemma cut_text :
  cut_into (fun b => exists text, scalars text /\ b = encode text)
    (fun p => delta_ok p /\ exists text, scalars text /\ p = encode text).
Proof.
  intros b (text & Ht & ->) Hne. destruct (split_progress _ Hne) as (p & r & Hsp & Hpr & Hok).
  exists p, r. split; [done|]. split; [done|]. split; [apply Hok|].
  revert Hsp. unfold split_valid_utf8_prefix, split_valid_utf8_prefix_with_max. rewrite bool_decide_false by done.
  set (b := encode text) in *. set (m := UNIFIED_EXEC_OUTPUT_DELTA_MAX_BYTES).
  assert (Hm : 4 < m) by (unfold m, UNIFIED_EXEC_OUTPUT_DELTA_MAX_BYTES; lia).
  destruct (encode_prefix text (take m b) (drop m b) Ht (take_drop m b)) as (t1 & t2 & t & -> & Htake & Hdrop & Hh).
  apply Forall_app in Ht as [Ht1 Ht2].
  assert (Hlen : length b `min` m = length (encode t1 ++ t)) by (rewrite <- Htake, length_take; lia).
  assert (Hne1 : t1 <> []).
  { intros ->. cbn [encode map concat app] in *. pose proof (held_length t Hh) as H3.
    assert (drop m b = []) as Hd by (apply drop_ge; lia). rewrite Hd, app_nil_r in Hdrop.
    assert (t = b) as -> by (unfold b; done).
    assert (Hk : is_ok (from_utf8 (encode t2)) = is_nil (encode t2)) by exact (held_ok [] b (List.Forall_nil _) Hh).
    unfold from_utf8 in Hk. rewrite from_utf8_encode in Hk by done. by destruct (encode t2). }
  rewrite Hlen.
  assert (Hfind : find_split b (length (encode t1 ++ t)) (length (encode t1) + length t) = Some (length (encode t1))).
  { apply find_split_text; try done. rewrite <- Hlen. rewrite <- Htake. destruct (Nat.min_spec (length b) m) as [[Hl ->]|[Hl ->]]; [|done].
    by rewrite firstn_all, take_ge by lia. }
  rewrite <- length_app in Hfind. rewrite Hfind. intros [= <- <-].
  assert (Hb : b = encode t1 ++ encode t2) by (unfold b; apply encode_app).
  rewrite Hb, take_app_length, drop_app_length in *. split; [split; [done|by exists t1]|by exists t2].
Qed.

(** C38: streaming loses nothing and always makes progress.  Each chunk of output that arrives is passed on
    completely before the next one is read: no byte stays pending, the transcript stands for all bytes
    received so far, and they are sent in pieces of at most 8192 bytes, in order, until the limit of
    deltas is reached.  A piece is a text or a single byte; when the bytes are a text, every piece is one,
    so that no character is cut in two. *)
Theorem streaming_delivers_all st max s chunk :
  transcript st = view max s ->
  exists ps,
    process_chunk st chunk =
      Some (Streaming [] (view max (s ++ pending st ++ chunk))
              (emitted_deltas st + size (take (delta_room (emitted_deltas st)) ps))
              (deltas st ++ take (delta_room (emitted_deltas st)) ps)) /\
    concat ps = pending st ++ chunk /\ Forall delta_ok ps /\
    forall text, scalars text -> pending st ++ chunk = encode text ->
      Forall (fun p => exists t, scalars t /\ p = encode t) ps.
Proof.
  intros Ht. unfold process_chunk. set (b := pending st ++ chunk).
  set (st' := Streaming b (transcript st) (emitted_deltas st) (deltas st)).
  rewrite (process_pending_pieces _ st' max s Ht) by (cbn; lia). exists (pieces (S (length b)) b).
  split; [done|]. destruct (pieces_cut _ _ (S (length b)) b cut_any I) as [Hc Hok]; [lia|].
  split; [done|]. split; [done|]. intros text Htext Hb.
  destruct (pieces_cut _ _ (S (length b)) b cut_text) as [_ Hq]; [by exists text|lia|].
  eapply Forall_impl; [exact Hq|]. by intros p [_ H].
Qed.

Lemma streaming_delivers_all_witness :
  transcript (Streaming [] (new 8) 0 []) = view 8 [] /\
  exists ps,
    process_chunk (Streaming [] (new 8) 0 []) [104; 105; 195]%N =
      Some (Streaming [] (view 8 [104; 105; 195]%N) (0 + size (take (delta_room 0) ps)) (take (delta_room 0) ps)) /\
    concat ps = [104; 105; 195]%N /\ Forall delta_ok ps.
Proof.
  split; [apply new_view|].
  destruct (streaming_delivers_all (Streaming [] (new 8) 0 []) 8 [] [104; 105; 195]%N (new_view 8)) as (ps & H & Hc & Hok & _).
  exists ps. split; [exact H|]. by split.
Defined.

(** A character that arrives in two chunks is sent byte by byte: the bytes at the end of the first chunk
    are not held back until the character is complete. *)
Example split_character_sent_as_bytes :
  (process_chunk (Streaming [] (new 64) 0 []) [97; 226; 130] ≫= fun st => process_chunk st [172; 98])%N
  = Some (Streaming [] (view 64 [97; 226; 130; 172; 98]) 5 [[97]; [226]; [130]; [172]; [98]])%N
  /\ encode [97; 8364; 98]%N = [97; 226; 130; 172; 98]%N.
Proof. split; vm_compute; reflexivity. Qed.

Lemma from_utf8_lossy_text text : scalars text -> from_utf8_lossy (encode text) = text.
Proof.
  intros Ht. unfold from_utf8_lossy. cbn [from_utf8_lossy_at]. unfold from_utf8. by rewrite from_utf8_encode.
Qed.

(** The output reported for a process: the text it wrote when that fits in the transcript, or the given
    text when it wrote nothing. *)
Lemma aggregated_output_text max text fallback :
  scalars text -> (size (encode text) <= max)%N ->
  resolve_aggregated_output (view max (encode text)) fallback = if is_nil text then fallback else text.
Proof.
  intros Ht Hs. unfold resolve_aggregated_output. destruct text as [|c text].
  { cbn [encode map concat is_nil]. by rewrite <- new_view. }
  destruct (N.eqb_spec (retained_bytes (view max (encode (c :: text)))) 0) as [H|H].
  - exfalso. pose proof (length_encode_pos (c :: text) ltac:(done)) as Hp.
    apply view_empty in H; [rewrite H in Hp; simpl in Hp; lia|].
    unfold view. cbn [omitted_bytes]. lia.
  - cbn [is_nil]. rewrite <- (from_utf8_lossy_text (c :: text)) at 2 by done. f_equal.
    by apply view_fits.
Qed.

End HeadTailBuffer.
