(* ===== verification/ProcessStore.v ===== *)
(** * The table of running processes: core/src/unified_exec/mod.rs, process_manager.rs

    Numbers of processes are reused, so the table hands out handles: a handle is an allocation with an
    identity of its own (the pointer of an [Arc], here its position in the list of all allocations) that
    carries the number and a token that is cancelled when the process is gone.  Each operation takes the
    lock of the table once, so an operation is one step; what it does after it has released the lock
    (terminating processes, unregistering network approvals) is the list of effects it returns.  Only the end of
    all processes cancels tokens after it has released the lock: emptying the table is one step, and each
    token it then cancels is another. *)

From S2P Require Import Prelude Text.
From Stdlib Require Import ZifyBool ZifyN ZifyNat.

Module ProcessStore.

(** [codex-rs/core/src/unified_exec/mod.rs:126-134 UnifiedExecProcessHandle] *)
Record UnifiedExecProcessHandle := Handle { process_id : N; generation : nat }.

#[global] Instance handle_eq_dec : EqDecision UnifiedExecProcessHandle.
Proof. solve_decision. Defined.

(** [codex-rs/core/src/unified_exec/mod.rs:150-152 same_generation] *)
Definition same_generation (self other : UnifiedExecProcessHandle) : bool :=
  generation self =? generation other.

(** The processes themselves are known by the pointer of their [Arc]; what the table asks of them is the
    state of the world at the time of the call. *)
Record World := {
  has_exited : N -> bool;
  exit_code : N -> option Z;
  interaction_locked : N -> bool;
  now : N
}.

(** [codex-rs/core/src/unified_exec/mod.rs:232-241 ProcessEntry] *)
Record ProcessEntry := Entry {
  process : N;
  call_id : str;
  process_handle : UnifiedExecProcessHandle;
  hook_command : str;
  tty : bool;
  network_approval : option str;
  session : N;
  last_used : N
}.

(** [codex-rs/core/src/unified_exec/mod.rs:172-176 ProcessStore] The table, next to the allocations made so far (the process number of each) and the handles whose
    token is cancelled. *)
Record ProcessStore := Store {
  processes : gmap N ProcessEntry;
  reserved_processes : gmap N UnifiedExecProcessHandle;
  allocations : list N;
  exited : gset nat
}.

Inductive effect :=
| Terminate (process : N)
| Unregister (network_approval : str) (session : N).

(** [codex-rs/core/src/unified_exec/mod.rs:73-73 MAX_UNIFIED_EXEC_PROCESSES] *)
Definition MAX_UNIFIED_EXEC_PROCESSES : nat := 64.

Definition empty_store : ProcessStore := Store ∅ ∅ [] ∅.

(** [codex-rs/core/src/unified_exec/mod.rs:137-144 new] *)
Definition new_handle (store : ProcessStore) (process_id : N) : ProcessStore * UnifiedExecProcessHandle :=
  (Store (processes store) (reserved_processes store) (allocations store ++ [process_id]) (exited store),
   Handle process_id (length (allocations store))).

(** [codex-rs/core/src/unified_exec/mod.rs:158-160 mark_exited] *)
Definition mark_exited (store : ProcessStore) (self : UnifiedExecProcessHandle) : ProcessStore :=
  Store (processes store) (reserved_processes store) (allocations store) ({[generation self]} ∪ exited store).

(** [codex-rs/core/src/unified_exec/mod.rs:179-183 is_current] *)
Definition is_current (self : ProcessStore) (process : UnifiedExecProcessHandle) : bool :=
  match reserved_processes self !! process_id process with
  | Some current => same_generation current process
  | None => false
  end.

(** [codex-rs/core/src/unified_exec/mod.rs:185-193 remove] *)
Definition remove (self : ProcessStore) (process_id : N) : ProcessStore * option ProcessEntry :=
  let entry := processes self !! process_id in
  let reserved := reserved_processes self !! process_id in
  let self := Store (delete process_id (processes self)) (delete process_id (reserved_processes self))
                (allocations self) (exited self) in
  let self := match reserved, entry with
              | Some process, _ => mark_exited self process
              | None, Some entry => mark_exited self (process_handle entry)
              | None, None => self
              end in
  (self, entry).

(** [codex-rs/core/src/unified_exec/mod.rs:195-200 remove_process] *)
Definition remove_process (self : ProcessStore) (process : UnifiedExecProcessHandle)
    : ProcessStore * option ProcessEntry :=
  if negb (is_current self process) then (self, None) else remove self (process_id process).

(** [codex-rs/core/src/unified_exec/process_manager.rs:348-355 allocate_process] *)
Definition next_process_id (store : ProcessStore) : N :=
  match map_to_list (reserved_processes store) with
  | [] => 1000
  | l => N.max (foldr N.max 0 (map fst l)) 999 + 1
  end%N.

(** [codex-rs/core/src/unified_exec/process_manager.rs:342-368 allocate_process] The random numbers drawn are a parameter: one for each iteration of the loop. *)
Fixpoint allocate_process (deterministic : bool) (draws : list N) (store : ProcessStore)
    : option (ProcessStore * UnifiedExecProcessHandle) :=
  match draws with
  | [] => None
  | draw :: draws =>
      let process_id := if deterministic then next_process_id store else draw in
      match reserved_processes store !! process_id with
      | Some _ => allocate_process deterministic draws store
      | None =>
          let (store, process) := new_handle store process_id in
          Some (Store (processes store) (<[process_id := process]> (reserved_processes store))
                  (allocations store) (exited store), process)
      end
  end.

(** [codex-rs/core/src/unified_exec/process_manager.rs:385-398 process_handle] *)
Definition lookup_handle (store : ProcessStore) (process_id : N) : option UnifiedExecProcessHandle :=
  entry ← processes store !! process_id;
  if is_current store (process_handle entry) then Some (process_handle entry) else None.

(** [codex-rs/core/src/unified_exec/process_manager.rs:187-193 unregister_network_approval_for_entry] Whether the session of an entry is still alive is a parameter. *)
Definition unregister_network_approval_for_entry (alive : N -> bool) (entry : ProcessEntry) : list effect :=
  match network_approval entry with
  | Some approval => if alive (session entry) then [Unregister approval (session entry)] else []
  | None => []
  end.

(** [codex-rs/core/src/unified_exec/process_manager.rs:400-408 release_process] *)
Definition release_process (alive : N -> bool) (store : ProcessStore) (process : UnifiedExecProcessHandle)
    : ProcessStore * list effect :=
  let (store, removed) := remove_process store process in
  (store, match removed with
          | Some entry => unregister_network_approval_for_entry alive entry
          | None => []
          end).

(** [codex-rs/core/src/unified_exec/process_manager.rs:410-419 terminate_process] *)
Definition terminate_process (alive : N -> bool) (store : ProcessStore) (handle : UnifiedExecProcessHandle)
    : ProcessStore * list effect :=
  let (store, removed) := remove_process store handle in
  (store, match removed with
          | Some entry => Terminate (process entry) :: unregister_network_approval_for_entry alive entry
          | None => []
          end).

(** [codex-rs/core/src/unified_exec/process_manager.rs:1432-1443 ProcessStatus] *)
Inductive ProcessStatus :=
| Alive (exit_code : option Z) (call_id : str) (process_id : N)
| Exited (exit_code : option Z) (entry : ProcessEntry)
| Unknown.

(** [codex-rs/core/src/unified_exec/process_manager.rs:845-874 refresh_process_state] *)
Definition refresh_process_state (w : World) (store : ProcessStore) (handle : UnifiedExecProcessHandle)
    : ProcessStore * ProcessStatus :=
  match processes store !! process_id handle with
  | None => (store, Unknown)
  | Some entry =>
      if negb (same_generation (process_handle entry) handle) then (store, Unknown)
      else
        let exit_code := exit_code w (process entry) in
        if has_exited w (process entry)
        then let (store, removed) := remove_process store handle in
             match removed with
             | None => (store, Unknown)
             | Some entry => (store, Exited exit_code entry)
             end
        else (store, Alive exit_code (call_id entry) (process_id handle))
  end.

(** [codex-rs/core/src/unified_exec/process_manager.rs:876-920 prepare_process_handles] What the caller gets of the entry is the entry itself. *)
Definition prepare_process_handles (w : World) (store : ProcessStore) (handle : UnifiedExecProcessHandle)
    (expected_process : N) : ProcessStore * option ProcessEntry :=
  match processes store !! process_id handle with
  | None => (store, None)
  | Some entry =>
      if negb (process entry =? expected_process)%N then (store, None)
      else if negb (same_generation (process_handle entry) handle) then (store, None)
      else
        let entry := Entry (process entry) (call_id entry) (process_handle entry) (hook_command entry)
                       (tty entry) (network_approval entry) (session entry) (now w) in
        (Store (<[process_id handle := entry]> (processes store)) (reserved_processes store)
           (allocations store) (exited store), Some entry)
  end.

(** ** Pruning *)

Definition meta := (N * N * bool)%type.
Definition meta_id (m : meta) : N := m.1.1.
Definition meta_used (m : meta) : N := m.1.2.
Definition meta_exited (m : meta) : bool := m.2.

(** [codex-rs/core/src/unified_exec/process_manager.rs:1382-1388 process_id_to_prune_from_meta] *)
Definition protected (ms : list meta) : list N :=
  map meta_id (take 8 (sort_by (fun a b => meta_used b <=? meta_used a)%N ms)).

(** [codex-rs/core/src/unified_exec/process_manager.rs:1377-1403 process_id_to_prune_from_meta] *)
Definition process_id_to_prune_from_meta (ms : list meta) : option N :=
  if bool_decide (ms = []) then None
  else
    let protected := protected ms in
    let unprotected m := negb (existsb (N.eqb (meta_id m)) protected) in
    let lru := sort_by (fun a b => meta_used a <=? meta_used b)%N ms in
    match List.find (fun m => unprotected m && meta_exited m) lru with
    | Some m => Some (meta_id m)
    | None => meta_id <$> List.find unprotected lru
    end.

(** [codex-rs/core/src/unified_exec/process_manager.rs:1360-1373 prune_processes_if_needed] *)
Fixpoint prune_loop (fuel : nat) (w : World) (store : ProcessStore) (ms : list meta)
    : option (ProcessStore * option ProcessEntry) :=
  match fuel with
  | 0 => None
  | S fuel =>
      match process_id_to_prune_from_meta ms with
      | None => Some (store, None)
      | Some process_id =>
          let free := match processes store !! process_id with
                      | Some entry => negb (interaction_locked w (process entry))
                      | None => false
                      end in
          if free then Some (remove store process_id)
          else prune_loop fuel w store (List.filter (fun m => negb (meta_id m =? process_id)%N) ms)
      end
  end.

(** [codex-rs/core/src/unified_exec/process_manager.rs:1354-1358 prune_processes_if_needed] The order in which a hash map is iterated is a parameter: the keys of the table. *)
Definition process_meta (w : World) (store : ProcessStore) (order : list N) : list meta :=
  omap (fun id => match processes store !! id with
                  | Some entry => Some (id, last_used entry, has_exited w (process entry))
                  | None => None
                  end) order.

(** [codex-rs/core/src/unified_exec/process_manager.rs:1349-1374 prune_processes_if_needed] *)
Definition prune_processes_if_needed (w : World) (order : list N) (store : ProcessStore)
    : option (ProcessStore * option ProcessEntry) :=
  if size (processes store) <? MAX_UNIFIED_EXEC_PROCESSES then Some (store, None)
  else let ms := process_meta w store order in prune_loop (S (length ms)) w store ms.

(** [codex-rs/core/src/unified_exec/process_manager.rs:936-973 store_process] The result is whether the process was stored; the effects of starting the watchers are not part of
    the table. *)
Definition store_process (w : World) (alive : N -> bool) (order : list N) (store : ProcessStore)
    (entry : ProcessEntry) : option (ProcessStore * bool * list effect) :=
  let handle := process_handle entry in
  if negb (is_current store handle)
  then Some (store, false,
             Terminate (process entry)
             :: match network_approval entry with
                | Some approval => [Unregister approval (session entry)]
                | None => []
                end)
  else
    '(store, pruned_entry) ← prune_processes_if_needed w order store;
    let store := Store (<[process_id handle := entry]> (processes store)) (reserved_processes store)
                   (allocations store) (exited store) in
    Some (store, true,
          match pruned_entry with
          | Some pruned => unregister_network_approval_for_entry alive pruned ++ [Terminate (process pruned)]
          | None => []
          end).

(** [codex-rs/core/src/unified_exec/process_manager.rs:1406-1419 terminate_all_processes] what happens under the lock: the
    table is emptied, and its entries and handles are kept aside. *)
Definition drain_processes (store : ProcessStore) : ProcessStore * (list ProcessEntry * list UnifiedExecProcessHandle) :=
  (Store ∅ ∅ (allocations store) (exited store),
   (map snd (map_to_list (processes store)), map snd (map_to_list (reserved_processes store)))).

(** [codex-rs/core/src/unified_exec/process_manager.rs:1421-1423 terminate_all_processes] without the lock. *)
Definition mark_drained (store : ProcessStore) (handles : list UnifiedExecProcessHandle) : ProcessStore :=
  foldl mark_exited store handles.

(** [codex-rs/core/src/unified_exec/process_manager.rs:1405-1429 terminate_all_processes] from its beginning to its end. *)
Definition terminate_all_processes (alive : N -> bool) (store : ProcessStore) : ProcessStore * list effect :=
  let '(store, (entries, handles)) := drain_processes store in
  (mark_drained store handles,
   flat_map (fun entry => unregister_network_approval_for_entry alive entry ++ [Terminate (process entry)])
     entries).

(** ** The operations as steps *)

(** A handle that the table has handed out at some time. *)
Definition issued (store : ProcessStore) (h : UnifiedExecProcessHandle) : Prop :=
  allocations store !! generation h = Some (process_id h).

(** The operations that take the lock once.  Callers only have handles that were handed out to them, and they store
    no process under a handle under which one is stored; a token is also cancelled when its process exits. *)
Inductive operation : ProcessStore -> ProcessStore -> Prop :=
| step_allocate deterministic draws store store' h :
    allocate_process deterministic draws store = Some (store', h) -> operation store store'
| step_release alive store h :
    issued store h -> operation store (release_process alive store h).1
| step_terminate alive store h :
    issued store h -> operation store (terminate_process alive store h).1
| step_refresh w store h :
    issued store h -> operation store (refresh_process_state w store h).1
| step_prepare w store h expected :
    issued store h -> operation store (prepare_process_handles w store h expected).1
| step_store w alive order store entry store' stored effects :
    issued store (process_handle entry) ->
    (forall e, processes store !! process_id (process_handle entry) = Some e ->
       generation (process_handle e) <> generation (process_handle entry)) ->
    order ≡ₚ elements (dom (processes store)) ->
    store_process w alive order store entry = Some (store', stored, effects) -> operation store store'
| step_exit store h :
    issued store h -> operation store (mark_exited store h).

(** The table together with the handles that the ends of all processes under way have taken out of it and have still to
    mark as exited. *)
Record Table := mkTable { table : ProcessStore; sweeping : list UnifiedExecProcessHandle }.

Inductive step : Table -> Table -> Prop :=
| step_operation store store' sw : operation store store' -> step (mkTable store sw) (mkTable store' sw)
| step_drain store sw entries handles store' :
    drain_processes store = (store', (entries, handles)) -> step (mkTable store sw) (mkTable store' (sw ++ handles))
| step_mark store before h after :
    step (mkTable store (before ++ h :: after)) (mkTable (mark_exited store h) (before ++ after)).

Inductive reachable : Table -> Prop :=
| reachable_empty : reachable (mkTable empty_store [])
| reachable_step t t' : reachable t -> step t t' -> reachable t'.

(** ** The invariant *)

Record table_inv (sw : list UnifiedExecProcessHandle) (store : ProcessStore) : Prop := {
  (** A stored process is stored under the number of its handle, which is the current one. *)
  inv_entry id e : processes store !! id = Some e -> reserved_processes store !! id = Some (process_handle e);
  (** A current handle carries the number it is current for. *)
  inv_reserved id h : reserved_processes store !! id = Some h -> process_id h = id /\ issued store h;
  (** A handle that is no longer current is marked as exited or is about to be. *)
  inv_exited h : issued store h -> reserved_processes store !! process_id h = Some h \/ generation h ∈ exited store \/ h ∈ sw
}.
#[global] Arguments inv_entry {_} _ _ _ _ _.
#[global] Arguments inv_reserved {_} _ _ _ _ _.
#[global] Arguments inv_exited {_} _ _ _ _.

Section invariant.
Context (sw : list UnifiedExecProcessHandle).
Local Notation Inv := (table_inv sw).

Lemma is_current_spec store h :
  Inv store -> issued store h -> is_current store h = true <-> reserved_processes store !! process_id h = Some h.
Proof.
  intros Hinv Hh. unfold is_current, same_generation.
  destruct (reserved_processes store !! process_id h) as [c|] eqn:E; [|naive_solver].
  destruct (inv_reserved _ Hinv _ _ E) as [Hid Hc]. rewrite Nat.eqb_eq. split; [|naive_solver].
  intros Hg. destruct c as [i g], h as [j k]. simpl in *. by subst.
Qed.

Lemma mark_exited_inv store h : Inv store -> Inv (mark_exited store h).
Proof.
  intros [He Hr Hx]. split; [done|done|]. intros h' Hh'. destruct (Hx h' Hh'); [by left|]. right. set_solver.
Qed.

(** Removing the entry and the reservation of a number, and marking its handle. *)
Lemma removed_inv store id h :
  Inv store -> reserved_processes store !! id = Some h ->
  Inv (Store (delete id (processes store)) (delete id (reserved_processes store)) (allocations store)
         ({[generation h]} ∪ exited store)).
Proof.
  intros [He Hr Hx] Hid. split; cbn [processes reserved_processes].
  - intros i e. rewrite !lookup_delete_Some. naive_solver.
  - intros i h'. rewrite lookup_delete_Some. naive_solver.
  - intros h' Hh'. destruct (Hx h' Hh') as [H|H]; [|right; set_solver].
    destruct (decide (process_id h' = id)) as [<-|Hne]; [|left; by rewrite lookup_delete_ne].
    right. simplify_eq. set_solver.
Qed.

Lemma remove_unfold store id :
  Inv store ->
  remove store id =
  (match reserved_processes store !! id with
   | Some h => Store (delete id (processes store)) (delete id (reserved_processes store)) (allocations store)
                 ({[generation h]} ∪ exited store)
   | None => Store (delete id (processes store)) (delete id (reserved_processes store)) (allocations store)
               (exited store)
   end, processes store !! id).
Proof.
  intros Hinv. unfold remove. destruct (reserved_processes store !! id) as [h|] eqn:E; [done|].
  destruct (processes store !! id) as [e|] eqn:E'; [|done].
  apply (inv_entry _ Hinv) in E'. congruence.
Qed.

Lemma remove_inv store id : Inv store -> Inv (remove store id).1.
Proof.
  intros Hinv. rewrite remove_unfold by done. destruct (reserved_processes store !! id) as [h|] eqn:E;
    [by apply removed_inv|]. cbn [fst].
  assert (processes store !! id = None) as Hp.
  { destruct (processes store !! id) as [e|] eqn:E'; [|done]. apply (inv_entry _ Hinv) in E'. congruence. }
  rewrite !delete_id by done. by destruct store.
Qed.

Lemma remove_process_inv store h : Inv store -> Inv (remove_process store h).1.
Proof. intros Hinv. unfold remove_process. destruct (is_current store h); [by apply remove_inv|done]. Qed.

Lemma remove_process_current store h :
  Inv store -> issued store h -> reserved_processes store !! process_id h = Some h ->
  remove_process store h = remove store (process_id h).
Proof. intros Hinv Hi Hc. unfold remove_process. by rewrite (proj2 (is_current_spec store h Hinv Hi) Hc). Qed.

Lemma remove_process_stale store h :
  Inv store -> issued store h -> reserved_processes store !! process_id h <> Some h ->
  remove_process store h = (store, None).
Proof.
  intros Hinv Hi Hc. unfold remove_process. destruct (is_current store h) eqn:E; [|done].
  by apply is_current_spec in E.
Qed.

Lemma issued_app store h id :
  (allocations store ++ [id]) !! generation h = Some (process_id h) ->
  issued store h \/ h = Handle id (length (allocations store)).
Proof.
  rewrite lookup_app. unfold issued. destruct (allocations store !! generation h) eqn:E; [by left|].
  apply lookup_ge_None in E. intros H. apply list_lookup_singleton_Some in H as [Hg Hid]. right.
  destruct h as [i g]. simpl in *. subst. f_equal. lia.
Qed.

Lemma allocate_spec deterministic draws store store' h :
  allocate_process deterministic draws store = Some (store', h) ->
  reserved_processes store !! process_id h = None /\ generation h = length (allocations store) /\
  store' = Store (processes store) (<[process_id h := h]> (reserved_processes store))
             (allocations store ++ [process_id h]) (exited store).
Proof.
  induction draws as [|d draws IH]; cbn [allocate_process]; [done|].
  set (id := if deterministic then next_process_id store else d).
  destruct (reserved_processes store !! id) eqn:E; [done|]. intros H. by simplify_eq/=.
Qed.

Lemma allocate_inv deterministic draws store store' h :
  Inv store -> allocate_process deterministic draws store = Some (store', h) -> Inv store'.
Proof.
  intros [He Hr Hx] H. apply allocate_spec in H as (Hnone & Hg & ->).
  assert (Hold : forall h', issued store h' ->
    (allocations store ++ [process_id h]) !! generation h' = Some (process_id h')).
  { intros h' Hh'. by apply lookup_app_l_Some. }
  split; unfold issued; cbn [processes reserved_processes allocations exited].
  - intros i e Hi. apply He in Hi. rewrite lookup_insert_ne; [done|]. congruence.
  - intros i h' Hi. apply lookup_insert_Some in Hi as [[<- <-]|[Hne Hi]].
    + split; [done|]. rewrite Hg. by apply list_lookup_middle.
    + apply Hr in Hi as [Hi Hi']. split; [done|]. by apply Hold.
  - intros h' Hh'. destruct (decide (h' = h)) as [->|Hne]; [left; apply lookup_insert_eq|].
    destruct (issued_app store h' (process_id h)) as [Hi| ->]; [done| |].
    + destruct (Hx h' Hi) as [Hi'|Hi']; [|by right]. left. rewrite lookup_insert_ne; [done|]. congruence.
    + destruct Hne. destruct h; simpl in *. by subst.
Qed.

Lemma refresh_inv w store h : Inv store -> Inv (refresh_process_state w store h).1.
Proof.
  intros Hinv. unfold refresh_process_state. destruct (processes store !! process_id h) as [e|]; [|done].
  destruct (same_generation _ h); [|done]. cbn [negb]. destruct (has_exited w (process e)); [|done].
  pose proof (remove_process_inv store h Hinv) as H. destruct (remove_process store h) as [s [r|]]; done.
Qed.

Lemma insert_entry_inv store id e :
  Inv store -> reserved_processes store !! id = Some (process_handle e) ->
  Inv (Store (<[id := e]> (processes store)) (reserved_processes store) (allocations store) (exited store)).
Proof.
  intros [He Hr Hx] Hid. split; [|done|done]. cbn [processes reserved_processes]. intros i e' Hi.
  apply lookup_insert_Some in Hi as [[<- <-]|[_ Hi]]; [done|by apply He].
Qed.

Lemma prepare_inv w store h p : Inv store -> Inv (prepare_process_handles w store h p).1.
Proof.
  intros Hinv. unfold prepare_process_handles. destruct (processes store !! process_id h) as [e|] eqn:E; [|done].
  destruct (process e =? p)%N; [|done]. destruct (same_generation _ h); [|done]. cbn [negb fst].
  apply insert_entry_inv; [done|]. exact (inv_entry _ Hinv _ _ E).
Qed.

Lemma marked_all store handles :
  foldl mark_exited store handles =
  Store (processes store) (reserved_processes store) (allocations store)
    (list_to_set (map generation handles) ∪ exited store).
Proof.
  revert store; induction handles as [|h handles IH]; intros store; simpl.
  - destruct store; simpl. f_equal. set_solver.
  - rewrite IH. simpl. f_equal. set_solver.
Qed.

(** *** Pruning *)

(** A process that may be pruned: at least eight others were used at least as recently. *)
Definition prunable (ms : list meta) (m : meta) : Prop :=
  m ∈ ms /\ exists recent, length recent = 8 /\ NoDup recent /\ m ∉ recent /\
    Forall (fun r => r ∈ ms /\ (meta_used m <= meta_used r)%N) recent.

Lemma nodup_ids_inj (ms : list meta) a b :
  NoDup (map meta_id ms) -> a ∈ ms -> b ∈ ms -> meta_id a = meta_id b -> a = b.
Proof.
  intros Hnd Ha Hb Hid. apply list_elem_of_lookup in Ha as [i Hi], Hb as [j Hj].
  assert (i = j) as <-; [|congruence].
  eapply NoDup_lookup; [exact Hnd| |]; rewrite list_lookup_fmap.
  - by rewrite Hi.
  - by rewrite Hj, Hid.
Qed.

Lemma protected_spec ms m :
  NoDup (map meta_id ms) -> m ∈ ms ->
  existsb (N.eqb (meta_id m)) (protected ms) = false -> prunable ms m.
Proof.
  intros Hnd Hm Hp. split; [done|].
  set (l := sort_by (fun a b => meta_used b <=? meta_used a)%N ms).
  assert (Hperm : l ≡ₚ ms) by apply sort_by_perm.
  assert (Hsort : StronglySorted (fun a b => meta_used b <= meta_used a)%N l).
  { apply sort_by_sorted; [intros a b c; lia| |]; intros a b; lia. }
  assert (Hnl : NoDup l). { rewrite Hperm. by eapply (NoDup_fmap_1 meta_id). }
  assert (Hin : m ∈ drop 8 l).
  { assert (m ∈ l) as Hl by (by rewrite Hperm). rewrite <- (take_drop 8 l) in Hl.
    apply elem_of_app in Hl as [Hl|Hl]; [|done]. exfalso.
    apply not_true_iff_false in Hp. apply Hp, existsb_exists. exists (meta_id m). rewrite N.eqb_refl. split; [|done].
    unfold protected. fold l. by apply in_map, list_elem_of_In. }
  assert (H8 : length (take 8 l) = 8).
  { rewrite length_take. destruct (decide (8 <= length l)); [lia|]. rewrite drop_ge in Hin by lia. set_solver. }
  exists (take 8 l). split; [done|]. rewrite <- (take_drop 8 l) in Hnl, Hsort.
  apply NoDup_app in Hnl as (Hn1 & Hdisj & _). split; [done|]. split; [intros H; by apply (Hdisj m)|].
  apply Forall_forall. intros r Hr. split.
  - rewrite <- Hperm. apply elem_of_take in Hr as (i & Hi & _). by eapply list_elem_of_lookup_2.
  - exact (StronglySorted_app_1_elem_of _ _ _ _ _ Hsort Hr Hin).
Qed.

Lemma find_sorted {A} (R : relation A) (f : A -> bool) l x :
  Reflexive R -> StronglySorted R l -> List.find f l = Some x ->
  x ∈ l /\ f x = true /\ forall y, y ∈ l -> f y = true -> R x y.
Proof.
  intros Hrefl. induction 1 as [|y l Hl IH Hy]; simpl; [done|]. destruct (f y) eqn:E.
  - intros [= ->]. split; [by left|]. split; [done|]. intros z Hz Hfz. apply elem_of_cons in Hz as [->|Hz]; [done|].
    by eapply Forall_forall in Hy.
  - intros H. destruct (IH H) as (Hx & Hf & Hmin). split; [by right|]. split; [done|]. intros z Hz Hfz.
    apply elem_of_cons in Hz as [->|Hz]; [congruence|by apply Hmin].
Qed.

Lemma pick_none ms :
  NoDup (map meta_id ms) -> process_id_to_prune_from_meta ms = None -> length ms <= 8.
Proof.
  intros Hnd. unfold process_id_to_prune_from_meta. case_bool_decide as He; [subst; simpl; lia|].
  set (lru := sort_by _ ms). assert (Hperm : lru ≡ₚ ms) by apply sort_by_perm.
  destruct (List.find (fun m => _ && _) lru); [done|]. intros Hn. apply fmap_None in Hn.
  pose proof (List.find_none _ _ Hn) as Hall. rewrite <- Hperm.
  assert (Hsub : map meta_id lru ⊆ protected ms).
  { intros id Hid. apply list_elem_of_fmap in Hid as (x & -> & Hx). apply list_elem_of_In in Hx.
    specialize (Hall x Hx). apply negb_false_iff, existsb_exists in Hall as (y & Hy & Heq).
    apply N.eqb_eq in Heq as ->. by apply list_elem_of_In. }
  apply NoDup_submseteq in Hsub; [apply submseteq_length in Hsub|by rewrite Hperm].
  rewrite length_map in Hsub. unfold protected in Hsub. rewrite length_map, length_take in Hsub. lia.
Qed.

(** A process is pruned only if at least eight others were used at least as recently; one that has
    exited is preferred, and among those preferred the least recently used one is taken.  No process is
    pruned only when there are at most eight. *)
Theorem pruned_process_choice ms :
  NoDup (map meta_id ms) ->
  match process_id_to_prune_from_meta ms with
  | Some id =>
      exists m, meta_id m = id /\ prunable ms m /\
        forall m', m' ∈ ms -> existsb (N.eqb (meta_id m')) (protected ms) = false ->
          meta_exited m = meta_exited m' /\ (meta_used m <= meta_used m')%N \/
          meta_exited m = true /\ meta_exited m' = false
  | None => length ms <= 8
  end.
Proof.
  intros Hnd. unfold process_id_to_prune_from_meta. case_bool_decide as He; [subst; simpl; lia|].
  set (unprot := fun m => negb (existsb (N.eqb (meta_id m)) (protected ms))).
  set (lru := sort_by (fun a b => meta_used a <=? meta_used b)%N ms).
  assert (Hperm : lru ≡ₚ ms) by apply sort_by_perm.
  assert (Hsort : StronglySorted (fun a b => meta_used a <= meta_used b)%N lru).
  { apply sort_by_sorted; [intros a b c; lia| |]; intros a b; lia. }
  change (fun m => negb (existsb (N.eqb (meta_id m)) (protected ms)) && meta_exited m)
    with (fun m => unprot m && meta_exited m).
  destruct (List.find (fun m => unprot m && meta_exited m) lru) as [m|] eqn:E1.
  { apply (find_sorted (fun a b => meta_used a <= meta_used b)%N) in E1 as (Hm & [Hu Hex]%andb_true_iff & Hmin); [|intros a; lia|done].
    cbn. exists m. split; [done|]. split; [apply protected_spec; [done|by rewrite <- Hperm|by apply negb_true_iff]|].
    intros m' Hm' Hu'. destruct (meta_exited m') eqn:E; [|by right; split]. left. split; [congruence|].
    apply Hmin; [by rewrite Hperm|]. unfold unprot. by rewrite Hu', E. }
  pose proof (List.find_none _ _ E1) as Hnone.
  destruct (List.find unprot lru) as [m|] eqn:E2; simpl.
  - apply (find_sorted (fun a b => meta_used a <= meta_used b)%N) in E2 as (Hm & Hu & Hmin); [|intros a; lia|done].
    exists m. split; [done|]. split; [apply protected_spec; [done|by rewrite <- Hperm|by apply negb_true_iff]|].
    assert (Hnex : forall x, x ∈ lru -> unprot x = true -> meta_exited x = false).
    { intros x Hx Hux. apply list_elem_of_In in Hx. specialize (Hnone x Hx). cbv beta in Hnone.
      by rewrite Hux in Hnone. }
    intros m' Hm' Hu'. rewrite <- Hperm in Hm'. assert (unprot m' = true) by (unfold unprot; by rewrite Hu').
    left. split; [by rewrite !Hnex | by apply Hmin].
  - apply pick_none; [done|]. unfold process_id_to_prune_from_meta. rewrite bool_decide_false by done.
    fold lru. change (fun m => negb (existsb (N.eqb (meta_id m)) (protected ms)) && meta_exited m)
      with (fun m => unprot m && meta_exited m).
    rewrite E1. fold unprot. by rewrite E2.
Qed.

Lemma pruned_process_choice_witness :
  let ms := [(1, 10, false); (2, 3, false); (3, 4, true); (4, 20, true); (5, 21, true); (6, 22, true); (7, 23, true);
             (8, 24, true); (9, 25, true); (10, 26, true)]%N in
  NoDup (map meta_id ms) /\ process_id_to_prune_from_meta ms = Some 3%N /\
  exists m, meta_id m = 3%N /\ prunable ms m.
Proof.
  intros ms. assert (Hnd : NoDup (map meta_id ms)) by (apply (bool_decide_unpack _); by vm_compute).
  assert (Hp : process_id_to_prune_from_meta ms = Some 3%N) by (by vm_compute).
  pose proof (pruned_process_choice ms Hnd) as H. rewrite Hp in H. destruct H as (m & Hm & Hpr & _).
  split; [done|]. split; [done|]. by exists m.
Defined.

Lemma pick_in ms id : process_id_to_prune_from_meta ms = Some id -> id ∈ map meta_id ms.
Proof.
  unfold process_id_to_prune_from_meta. case_bool_decide; [done|].
  assert (Hin : forall f m, List.find f (sort_by (fun a b => meta_used a <=? meta_used b)%N ms) = Some m ->
    meta_id m ∈ map meta_id ms).
  { intros f m Hf. apply List.find_some in Hf as [Hf _]. apply list_elem_of_In in Hf. rewrite sort_by_perm in Hf.
    by apply list_elem_of_fmap_2. }
  destruct (List.find _ _) as [m|] eqn:E; [intros [= <-]; by eapply Hin|].
  intros Hm. apply fmap_Some in Hm as (m & Hm & ->). by eapply Hin.
Qed.

Lemma filter_id_shorter (ms : list meta) id :
  id ∈ map meta_id ms -> length (List.filter (fun m => negb (meta_id m =? id)%N) ms) < length ms.
Proof.
  intros Hid. apply list_elem_of_fmap in Hid as (m & -> & Hm).
  apply list_elem_of_split in Hm as (l1 & l2 & ->). rewrite List.filter_app. simpl. rewrite N.eqb_refl. simpl.
  rewrite !length_app. pose proof (filter_length_le (fun m0 : meta => negb (meta_id m0 =? meta_id m)%N) l1).
  pose proof (filter_length_le (fun m0 : meta => negb (meta_id m0 =? meta_id m)%N) l2). simpl. lia.
Qed.

(** The loop ends, and has removed one unlocked process or nothing. *)
Lemma prune_loop_spec fuel w store ms :
  length ms < fuel ->
  exists r, prune_loop fuel w store ms = Some r /\
    (r = (store, None) \/
     exists id e, processes store !! id = Some e /\ interaction_locked w (process e) = false /\ r = remove store id).
Proof.
  revert ms; induction fuel as [|fuel IH]; intros ms Hf; [lia|]. cbn [prune_loop].
  destruct (process_id_to_prune_from_meta ms) as [id|] eqn:Hp; [|eexists; split; [done|by left]].
  apply pick_in, filter_id_shorter in Hp.
  destruct (processes store !! id) as [e|] eqn:E; [|apply IH; lia].
  destruct (interaction_locked w (process e)) eqn:El; cbn [negb]; [apply IH; lia|].
  eexists; split; [done|]. right. eauto.
Qed.

Lemma prune_spec w order store :
  exists r, prune_processes_if_needed w order store = Some r /\
    (r = (store, None) \/
     exists id e, processes store !! id = Some e /\ interaction_locked w (process e) = false /\ r = remove store id).
Proof.
  unfold prune_processes_if_needed. destruct (_ <? _); [eexists; split; [done|by left]|].
  apply prune_loop_spec. lia.
Qed.

Lemma remove_reserved_ne store id id' :
  Inv store -> id <> id' ->
  reserved_processes (remove store id).1 !! id' = reserved_processes store !! id'.
Proof.
  intros Hinv Hne. rewrite remove_unfold by done.
  destruct (reserved_processes store !! id); cbn [fst reserved_processes]; by rewrite lookup_delete_ne.
Qed.

(** A current handle under which nothing is stored: its number is not in the table of processes. *)
Lemma unstored_none store h :
  Inv store -> reserved_processes store !! process_id h = Some h ->
  (forall e, processes store !! process_id h = Some e -> generation (process_handle e) <> generation h) ->
  processes store !! process_id h = None.
Proof.
  intros Hinv Hc Hne. destruct (processes store !! process_id h) as [e|] eqn:E; [|done].
  destruct (Hne e eq_refl). apply (inv_entry _ Hinv) in E. congruence.
Qed.

Lemma store_inv w alive order store entry store' stored effects :
  Inv store -> issued store (process_handle entry) ->
  (forall e, processes store !! process_id (process_handle entry) = Some e ->
     generation (process_handle e) <> generation (process_handle entry)) ->
  store_process w alive order store entry = Some (store', stored, effects) -> Inv store'.
Proof.
  intros Hinv Hi Hne. unfold store_process. destruct (is_current store (process_handle entry)) eqn:Hc; cbn [negb];
    [|by intros [= <- <- <-]].
  apply is_current_spec in Hc; [|done|done].
  destruct (prune_spec w order store) as ([store1 r] & -> & Hr). cbn [mbind option_bind]. intros [= <- <- <-].
  destruct Hr as [Hr|(id & e & He & _ & Hr)].
  - injection Hr as -> ->. by apply insert_entry_inv.
  - assert (Hid : id <> process_id (process_handle entry)).
    { intros ->. by rewrite (unstored_none store _ Hinv Hc Hne) in He. }
    apply (f_equal fst) in Hr. cbn [fst] in Hr. subst store1.
    apply insert_entry_inv; [by apply remove_inv|]. by rewrite remove_reserved_ne.
Qed.

Lemma operation_inv store store' : Inv store -> operation store store' -> Inv store'.
Proof.
  intros Hinv Hs. destruct Hs.
  - by eapply allocate_inv.
  - unfold release_process. pose proof (remove_process_inv store h Hinv). by destruct (remove_process store h).
  - unfold terminate_process. pose proof (remove_process_inv store h Hinv). by destruct (remove_process store h).
  - by apply refresh_inv.
  - by apply prepare_inv.
  - by eapply store_inv.
  - by apply mark_exited_inv.
Qed.

End invariant.

Lemma drained_inv sw store entries handles store' :
  table_inv sw store -> drain_processes store = (store', (entries, handles)) -> table_inv (sw ++ handles) store'.
Proof.
  intros [He Hr Hx] [= <- <- <-]. split; cbn [processes reserved_processes allocations exited].
  - intros i e. by rewrite lookup_empty.
  - intros i h. by rewrite lookup_empty.
  - intros h Hh. right. rewrite elem_of_app. destruct (Hx h Hh) as [Hh'|[Hh'|Hh']]; [|by left|by right; left]. right. right.
    apply list_elem_of_fmap. exists (process_id h, h). split; [done|]. by apply elem_of_map_to_list.
Qed.

Lemma marked_inv before h after store :
  table_inv (before ++ h :: after) store -> table_inv (before ++ after) (mark_exited store h).
Proof.
  intros [He Hr Hx]. split; [done|done|]. intros h' Hh'. cbn [mark_exited reserved_processes exited].
  destruct (Hx h' Hh') as [H|[H|H]]; [by left|right; left; set_solver|].
  apply elem_of_app in H as [H|[-> |H]%elem_of_cons]; right; [right|left|right]; set_solver.
Qed.

Lemma step_inv t t' : table_inv (sweeping t) (table t) -> step t t' -> table_inv (sweeping t') (table t').
Proof.
  intros Hinv Hs. destruct Hs; cbn [sweeping table] in *; [by eapply operation_inv|by eapply drained_inv|by apply marked_inv].
Qed.

Lemma table_reachable_inv t : reachable t -> table_inv (sweeping t) (table t).
Proof.
  induction 1; [|by eapply step_inv]. split; unfold issued; simpl; intros; by simplify_map_eq.
Qed.

Lemma mark_drained_inv sw store : table_inv sw store -> table_inv [] (mark_drained store sw).
Proof.
  revert store. induction sw as [|h sw IH]; intros store Hinv; [done|]. apply IH. exact (marked_inv [] h sw store Hinv).
Qed.

(** C39: in every state that the operations of the table reach, in whatever order concurrent callers make
    them, a stored process is stored under the number of its handle and that handle is the current one
    for the number; the current handles carry the numbers they are current for; and every handle that
    was handed out and is no longer current is marked as exited, or a call that ends all processes has taken it out of
    the table and has still to mark it.  Once these calls have marked what they hold, no handle is left out.
    Callers use handles that they were given, and store no process under a handle under which one is stored. *)
Theorem table_invariant t :
  reachable t -> table_inv (sweeping t) (table t) /\ table_inv [] (mark_drained (table t) (sweeping t)).
Proof. intros H%table_reachable_inv. split; [done|]. by apply mark_drained_inv. Qed.

(** A table with one stored process and one reserved number. *)
Definition example_entry : ProcessEntry := Entry 7 (lit "call") (Handle 1000 0) (lit "ls") true None 1 5.
Definition example_world : World := {| has_exited := fun _ => false; exit_code := fun _ => None;
                                       interaction_locked := fun _ => false; now := 9 |}.
Definition example_store : ProcessStore :=
  Store {[1000%N := example_entry]} (<[2000%N := Handle 2000 1]> {[1000%N := Handle 1000 0]}) [1000; 2000]%N ∅.

Lemma example_reachable : reachable (mkTable example_store []).
Proof.
  assert (H1 : reachable (mkTable (Store ∅ {[1000%N := Handle 1000 0]} [1000%N] ∅) [])).
  { eapply reachable_step; [constructor|]. apply step_operation. by apply (step_allocate true [5%N] _ _ (Handle 1000 0)). }
  assert (H2 : reachable (mkTable (Store {[1000%N := example_entry]} {[1000%N := Handle 1000 0]} [1000%N] ∅) [])).
  { eapply reachable_step; [exact H1|]. apply step_operation.
    eapply (step_store example_world (fun _ => true) [] _ example_entry); [done|by intros e H; simplify_map_eq|done|].
    reflexivity. }
  eapply reachable_step; [exact H2|]. apply step_operation. by apply (step_allocate false [1000; 2000]%N _ _ (Handle 2000 1)).
Qed.

(** While all processes are being ended: the table is empty, and two handles have still to be marked. *)
Definition swept_store : Table := mkTable (Store ∅ ∅ [1000; 2000]%N ∅) [Handle 1000 0; Handle 2000 1].

Lemma swept_reachable : reachable swept_store.
Proof.
  eapply reachable_step; [exact example_reachable|].
  exact (step_drain example_store [] [example_entry] [Handle 1000 0; Handle 2000 1] _ eq_refl).
Qed.

Lemma table_invariant_witness :
  table_inv (sweeping swept_store) (table swept_store) /\ exited (mark_drained (table swept_store) (sweeping swept_store)) = {[1; 0]}.
Proof. split; [exact (proj1 (table_invariant swept_store swept_reachable)) | by vm_compute]. Defined.

(** A stale handle can do no harm.  With a handle whose number has since been freed or given to another
    process, releasing, terminating, refreshing and preparing leave the table as it is, have no effect
    and report that the process is unknown; a process that should be stored under it is terminated
    instead, and no other process is. *)
Theorem stale_handle_harmless w alive order store sw h entry expected :
  reachable (mkTable store sw) -> issued store h -> reserved_processes store !! process_id h <> Some h ->
  process_handle entry = h ->
  release_process alive store h = (store, []) /\
  terminate_process alive store h = (store, []) /\
  refresh_process_state w store h = (store, Unknown) /\
  prepare_process_handles w store h expected = (store, None) /\
  exists effects, store_process w alive order store entry = Some (store, false, effects) /\
    forall p, Terminate p ∈ effects -> p = process entry.
Proof.
  intros Hreach Hi Hstale Hentry. pose proof (table_reachable_inv _ Hreach) as Hinv. cbn [sweeping table] in Hinv.
  unfold release_process, terminate_process. rewrite (remove_process_stale sw) by done.
  assert (Hgen : forall e, processes store !! process_id h = Some e -> same_generation (process_handle e) h = false).
  { intros e He. apply (inv_entry _ Hinv) in He. unfold same_generation. apply Nat.eqb_neq. intros Hg.
    destruct (inv_reserved _ Hinv _ _ He) as [Hid _]. apply Hstale. rewrite He. f_equal.
    destruct (process_handle e), h. simpl in *. by subst. }
  split; [done|]. split; [done|]. split.
  { unfold refresh_process_state. destruct (processes store !! process_id h) as [e|]; [|done].
    by rewrite (Hgen e eq_refl). }
  split.
  { unfold prepare_process_handles. destruct (processes store !! process_id h) as [e|]; [|done].
    destruct (negb _); [done|]. by rewrite (Hgen e eq_refl). }
  unfold store_process. rewrite Hentry. destruct (is_current store h) eqn:Hc;
    [by apply (is_current_spec sw) in Hc|]. cbn [negb]. eexists; split; [done|].
  intros p Hp. apply elem_of_cons in Hp as [[= ->]|Hp]; [done|].
  destruct (network_approval entry); set_solver.
Qed.

(** The number 1000 after its process was terminated and the number given to another one. *)
Definition reused_store : ProcessStore :=
  Store ∅ (<[1000%N := Handle 1000 2]> {[2000%N := Handle 2000 1]}) [1000; 2000; 1000]%N {[0]}.

Lemma reused_reachable : reachable (mkTable reused_store []).
Proof.
  assert (H1 : reachable (mkTable (Store ∅ {[2000%N := Handle 2000 1]} [1000; 2000]%N {[0]}) [])).
  { eapply reachable_step; [exact example_reachable|]. apply step_operation.
    assert (operation example_store (terminate_process (fun _ => true) example_store (Handle 1000 0)).1) as Hs by by constructor.
    exact Hs. }
  eapply reachable_step; [exact H1|]. apply step_operation. by apply (step_allocate false [1000]%N _ _ (Handle 1000 2)).
Qed.

Lemma stale_handle_harmless_witness :
  release_process (fun _ => true) reused_store (Handle 1000 0) = (reused_store, []) /\
  refresh_process_state example_world reused_store (Handle 1000 0) = (reused_store, Unknown).
Proof.
  destruct (stale_handle_harmless example_world (fun _ => true) [] reused_store [] (Handle 1000 0) example_entry 7
              reused_reachable) as (H1 & _ & H2 & _); [done|by vm_compute|done|]. split; [exact H1|exact H2].
Defined.

(** Nobody waits for a process that is gone.  Whatever the operations before, while no end of all processes is under
    way: once the process of a handle has been released, terminated, found to have exited, or swept up with all others,
    its handle is marked as exited, so that waiting for its exit returns; and so is every handle whose number is
    free or belongs to another process. *)
Theorem removed_handles_released w alive store h :
  reachable (mkTable store []) -> issued store h ->
  generation h ∈ exited (release_process alive store h).1 /\
  generation h ∈ exited (terminate_process alive store h).1 /\
  (forall code e, (refresh_process_state w store h).2 = Exited code e ->
     generation h ∈ exited (refresh_process_state w store h).1) /\
  generation h ∈ exited (terminate_all_processes alive store).1 /\
  (reserved_processes store !! process_id h <> Some h -> generation h ∈ exited store).
Proof.
  intros Hreach Hi. pose proof (table_reachable_inv _ Hreach) as Hinv. cbn [sweeping table] in Hinv.
  assert (Hstale : reserved_processes store !! process_id h <> Some h -> generation h ∈ exited store).
  { intros Hc. destruct (inv_exited _ Hinv h Hi) as [|[|H]]; [done|done|by apply elem_of_nil in H]. }
  assert (Hrm : generation h ∈ exited (remove_process store h).1).
  { destruct (decide (reserved_processes store !! process_id h = Some h)) as [Hc|Hc].
    - rewrite (remove_process_current []), (remove_unfold []), Hc by done. cbn. set_solver.
    - rewrite (remove_process_stale []) by done. by apply Hstale. }
  split; [unfold release_process; by destruct (remove_process store h)|].
  split; [unfold terminate_process; by destruct (remove_process store h)|]. split.
  { intros code e. unfold refresh_process_state. destruct (processes store !! process_id h) as [e'|]; [|done].
    destruct (negb _); [done|]. destruct (has_exited w (process e')); [|done].
    by destruct (remove_process store h) as [s [r|]]. }
  split; [|done]. destruct (drain_processes store) as [store' [entries handles]] eqn:Ed.
  unfold terminate_all_processes. rewrite Ed. cbn [fst].
  pose proof (mark_drained_inv _ _ (drained_inv _ _ _ _ _ Hinv Ed)) as Hend. cbn [app] in Hend. injection Ed as <- <- <-.
  unfold mark_drained in *. rewrite marked_all in Hend |- *.
  destruct (inv_exited _ Hend h Hi) as [H|[H|H]]; [|done|by apply elem_of_nil in H].
  cbn [reserved_processes] in H. by rewrite lookup_empty in H.
Qed.

Lemma removed_handles_released_witness :
  generation (Handle 1000 0) ∈ exited (release_process (fun _ => true) example_store (Handle 1000 0)).1.
Proof. apply (removed_handles_released example_world (fun _ => true) example_store (Handle 1000 0) example_reachable). done. Defined.

(** Storing a process keeps the table at its maximal size, unless some process is held by a write. *)
Lemma store_process_bound sw w alive order store entry :
  table_inv sw store -> order ≡ₚ elements (dom (processes store)) ->
  (forall p, interaction_locked w p = false) ->
  exists store' stored effects, store_process w alive order store entry = Some (store', stored, effects) /\
    size (processes store') <= MAX_UNIFIED_EXEC_PROCESSES `max` size (processes store).
Proof.
  intros Hinv Horder Hfree. unfold store_process. destruct (is_current store _); cbn [negb];
    [|eexists _, _, _; split; [done|lia]].
  assert (Hsize : forall m : gmap N ProcessEntry, size (<[process_id (process_handle entry) := entry]> m) <= S (size m)).
  { intros m. rewrite map_size_insert. case_match; unfold id; lia. }
  destruct (Nat.ltb_spec (size (processes store)) MAX_UNIFIED_EXEC_PROCESSES) as [Hl|Hl].
  { unfold prune_processes_if_needed. rewrite (proj2 (Nat.ltb_lt _ _) Hl). eexists _, _, _. split; [done|].
    cbn [processes]. pose proof (Hsize (processes store)). lia. }
  unfold prune_processes_if_needed. rewrite (proj2 (Nat.ltb_ge _ _) Hl). cbn [prune_loop].
  assert (Hids : map meta_id (process_meta w store order) = order).
  { assert (Hall : Forall (fun id => is_Some (processes store !! id)) order).
    { rewrite Horder. apply Forall_forall. intros id Hid. by apply elem_of_dom, elem_of_elements. }
    clear Horder. unfold process_meta. induction Hall as [|id order [e He] _ IH]; [done|].
    cbn. rewrite He. cbn. by f_equal. }
  destruct (process_id_to_prune_from_meta (process_meta w store order)) as [id|] eqn:Hp.
  - apply pick_in in Hp. rewrite Hids, Horder in Hp. apply elem_of_elements, elem_of_dom in Hp as [e He].
    rewrite He, Hfree, (remove_unfold sw) by done. cbn [negb mbind option_bind]. eexists _, _, _. split; [done|].
    cbn [processes]. etrans; [apply Hsize|]. destruct (reserved_processes store !! id); cbn [processes];
      rewrite map_size_delete_Some by done; unfold MAX_UNIFIED_EXEC_PROCESSES in *; lia.
  - apply pick_none in Hp; [|rewrite Hids, Horder; apply NoDup_elements].
    apply (f_equal length) in Hids. rewrite length_map in Hids. apply Permutation_length in Horder.
    rewrite Horder in Hids. change (length (elements (dom (processes store)))) with (size (dom (processes store))) in Hids.
    rewrite size_dom in Hids. unfold MAX_UNIFIED_EXEC_PROCESSES in *. lia.
Qed.

End ProcessStore.
