(* ===== verification/ShellParse.v ===== *)
(** * Shell scripts: shell-command/src/bash.rs, shell_detect.rs

    The commands of a script given to [bash -lc].  The syntax tree comes from tree-sitter, which is a
    parameter: a tree is a node with a kind, a position, its text and its children, and a flag for syntax
    errors.  What is modelled is what the code does with the tree: the walks over it, the kinds it
    accepts, and the words it takes from a command. *)

From S2P Require Import Prelude Text AbsolutePath.
Import AbsolutePath.

Module ShellParse.

(** ** Syntax trees *)

(** [tree_sitter::Node]; the text is [None] when it is not UTF-8. *)
Inductive Node := mkNode (kind : str) (named : bool) (start_byte : nat) (text : option str) (children : list Node).

Definition kind (n : Node) : str := let 'mkNode k _ _ _ _ := n in k.
Definition is_named (n : Node) : bool := let 'mkNode _ b _ _ _ := n in b.
Definition start_byte (n : Node) : nat := let 'mkNode _ _ s _ _ := n in s.
Definition utf8_text (n : Node) : option str := let 'mkNode _ _ _ t _ := n in t.
Definition children (n : Node) : list Node := let 'mkNode _ _ _ _ l := n in l.
Definition named_children (n : Node) : list Node := List.filter is_named (children n).

(** [tree_sitter::Tree]. *)
Record Tree := { root_node : Node; has_error : bool }.

Definition is_kind (n : Node) (k : string) : bool := bool_decide (kind n = lit k).

Fixpoint node_count (n : Node) : nat :=
  let 'mkNode _ _ _ _ l := n in S (fold_right (fun c k => node_count c + k) 0 l).

Definition stack_count (stack : list Node) : nat := fold_right (fun c k => node_count c + k) 0 stack.

(** The loop [while let Some(node) = stack.pop() { ..; for child in .. { stack.push(child) } }]: the nodes
    in the order in which they are visited.  The head of the list is the top of the stack. *)
Fixpoint walk_stack (fuel : nat) (next : Node -> list Node) (stack : list Node) : option (list Node) :=
  match fuel with
  | 0 => None
  | S fuel =>
      match stack with
      | [] => Some []
      | node :: rest =>
          visited ← walk_stack fuel next (rev (next node) ++ rest);
          Some (node :: visited)
      end
  end.
Definition walk (next : Node -> list Node) (root : Node) : option (list Node) :=
  walk_stack (S (node_count root)) next [root].

(** ** Shells *)

(** [codex-rs/shell-command/src/shell_detect.rs:6-13 ShellType] *)
Inductive ShellType := Zsh | Bash | PowerShell | Sh | Cmd.

(** [Path::file_stem]. *)
Definition file_stem (path : str) : option str :=
  name ← file_name path;
  Some (match rsplit_once 46 name with
        | Some ([], _) => name
        | Some (before, _) => before
        | None => name
        end).

Definition shell_of_name (name : str) : option ShellType :=
  if bool_decide (name = lit "zsh") then Some Zsh
  else if bool_decide (name = lit "sh") then Some Sh
  else if bool_decide (name = lit "cmd") then Some Cmd
  else if bool_decide (name = lit "bash") then Some Bash
  else if bool_decide (name = lit "pwsh") then Some PowerShell
  else if bool_decide (name = lit "powershell") then Some PowerShell
  else None.

(** Two paths are equal when their components are. *)
Fixpoint detect_shell_type_at (fuel : nat) (shell_path : str) : option ShellType :=
  match shell_of_name shell_path with
  | Some shell => Some shell
  | None =>
      match fuel, file_stem shell_path with
      | S fuel, Some shell_name =>
          if bool_decide (components shell_name = components shell_path) then None
          else detect_shell_type_at fuel shell_name
      | _, _ => None
      end
  end.

(** [codex-rs/shell-command/src/shell_detect.rs:39-59 detect_shell_type] *)
Definition detect_shell_type (shell_path : str) : option ShellType :=
  detect_shell_type_at (length shell_path) shell_path.

(** ** Words *)

Definition DQUOTE : char := 34%N.
Definition SQUOTE : char := 39%N.

(** [codex-rs/shell-command/src/bash.rs:359-375 parse_double_quoted_string] *)
Definition parse_double_quoted_string (node : Node) : option str :=
  if negb (is_kind node "string") then None
  else if existsb (fun part => negb (is_kind part "string_content")) (named_children node) then None
  else
    raw ← utf8_text node;
    text ← strip_prefix [DQUOTE] raw;
    strip_suffix [DQUOTE] text.

(** [codex-rs/shell-command/src/bash.rs:377-387 parse_raw_string] *)
Definition parse_raw_string (node : Node) : option str :=
  if negb (is_kind node "raw_string") then None
  else
    raw_string ← utf8_text node;
    s ← strip_prefix [SQUOTE] raw_string;
    strip_suffix [SQUOTE] s.

(** [codex-rs/shell-command/src/bash.rs:203-217 parse_plain_command_from_node] *)
Definition plain_part (part : Node) : option str :=
  if is_kind part "word" || is_kind part "number" then utf8_text part
  else if is_kind part "string" then parse_double_quoted_string part
  else if is_kind part "raw_string" then parse_raw_string part
  else None.

(** [codex-rs/shell-command/src/bash.rs:178-225 parse_plain_command_from_node] *)
Definition plain_word (child : Node) : option str :=
  if is_kind child "command_name" then
    word_node ← head (named_children child);
    if negb (is_kind word_node "word") then None else utf8_text word_node
  else if is_kind child "word" || is_kind child "number" then utf8_text child
  else if is_kind child "string" then parse_double_quoted_string child
  else if is_kind child "raw_string" then parse_raw_string child
  else if is_kind child "concatenation" then
    parts ← mapM plain_part (named_children child);
    let concatenated := concat parts in
    if bool_decide (concatenated = []) then None else Some concatenated
  else None.

(** [codex-rs/shell-command/src/bash.rs:172-228 parse_plain_command_from_node] *)
Definition parse_plain_command_from_node (cmd : Node) : option (list str) :=
  if negb (is_kind cmd "command") then None else mapM plain_word (named_children cmd).

(** [codex-rs/shell-command/src/bash.rs:307-313 is_literal_word_or_number] *)
Definition is_literal_word_or_number (node : Node) : bool :=
  (is_kind node "word" || is_kind node "number") && bool_decide (length (named_children node) = 0).

(** [codex-rs/shell-command/src/bash.rs:251-268 parse_literal_shell_word] *)
Fixpoint parse_literal_shell_word (node : Node) : option str :=
  if (is_kind node "word" || is_kind node "number") && is_literal_word_or_number node then utf8_text node
  else if is_kind node "string" then parse_double_quoted_string node
  else if is_kind node "raw_string" then parse_raw_string node
  else if is_kind node "concatenation" then
    let 'mkNode _ _ _ _ l := node in
    let fix parts (l : list Node) : option str :=
      match l with
      | [] => Some []
      | part :: l =>
          if is_named part
          then match parse_literal_shell_word part, parts l with
               | Some a, Some b => Some (a ++ b)
               | _, _ => None
               end
          else parts l
      end in
    match parts l with
    | Some concatenated => if bool_decide (concatenated = []) then None else Some concatenated
    | None => None
    end
  else None.

(** [codex-rs/shell-command/src/bash.rs:238-246 parse_literal_command_from_node] *)
Fixpoint literal_words (found_command_name : bool) (words : list str) (l : list Node) : option (list str) :=
  match l with
  | [] => if found_command_name then Some words else None
  | child :: l =>
      if is_kind child "command_name" then
        word_node ← head (named_children child);
        command_name ← parse_literal_shell_word word_node;
        literal_words true (words ++ [command_name]) l
      else if found_command_name then
        match parse_literal_shell_word child with
        | Some word => literal_words found_command_name (words ++ [word]) l
        | None => literal_words found_command_name words l
        end
      else literal_words found_command_name words l
  end.

(** [codex-rs/shell-command/src/bash.rs:230-249 parse_literal_command_from_node] *)
Definition parse_literal_command_from_node (cmd : Node) : option (list str) :=
  if negb (is_kind cmd "command") then None else literal_words false [] (named_children cmd).

(** [codex-rs/shell-command/src/bash.rs:315-324 is_allowed_heredoc_attachment_kind] *)
Definition is_allowed_heredoc_attachment_kind (k : str) : bool :=
  existsb (fun s => bool_decide (k = lit s))
    ["heredoc_body"; "simple_heredoc_body"; "heredoc_redirect"; "herestring_redirect"; "redirected_statement"]%string.

(** [codex-rs/shell-command/src/bash.rs:277-302 parse_heredoc_command_words] *)
Fixpoint heredoc_words (l : list Node) : option (list str) :=
  match l with
  | [] => Some []
  | child :: l =>
      if is_kind child "command_name" then
        word_node ← head (named_children child);
        if negb (is_kind word_node "word" || is_kind word_node "number") || negb (is_literal_word_or_number word_node)
        then None
        else word ← utf8_text word_node; words ← heredoc_words l; Some (word :: words)
      else if is_kind child "word" || is_kind child "number" then
        if negb (is_literal_word_or_number child) then None
        else word ← utf8_text child; words ← heredoc_words l; Some (word :: words)
      else if is_kind child "comment" then heredoc_words l
      else if is_allowed_heredoc_attachment_kind (kind child) then heredoc_words l
      else None
  end.

(** [codex-rs/shell-command/src/bash.rs:270-305 parse_heredoc_command_words] *)
Definition parse_heredoc_command_words (cmd : Node) : option (list str) :=
  if negb (is_kind cmd "command") then None
  else
    words ← heredoc_words (named_children cmd);
    if bool_decide (words = []) then None else Some words.

(** ** Scripts *)

Definition ALLOWED_KINDS : list str :=
  map lit ["program"; "list"; "pipeline"; "command"; "command_name"; "word"; "string"; "string_content";
           "raw_string"; "number"; "concatenation"]%string.
Definition ALLOWED_PUNCT_TOKENS : list str :=
  map lit ["&&"; "||"; ";"; "|"]%string ++ [[DQUOTE]; [SQUOTE]].

(** [codex-rs/shell-command/src/bash.rs:60-77 try_parse_word_only_commands_sequence] *)
Definition node_allowed (node : Node) : bool :=
  if is_named node then bool_decide (kind node ∈ ALLOWED_KINDS)
  else if existsb (fun c => contains_char c (lit "&;|")) (kind node)
          && negb (bool_decide (kind node ∈ ALLOWED_PUNCT_TOKENS)) then false
  else bool_decide (kind node ∈ ALLOWED_PUNCT_TOKENS) || bool_decide (trim (kind node) = []).

(** [codex-rs/shell-command/src/bash.rs:29-92 try_parse_word_only_commands_sequence] *)
Definition try_parse_word_only_commands_sequence (tree : Tree) : option (list (list str)) :=
  if has_error tree then None
  else
    visited ← walk children (root_node tree);
    if negb (forallb node_allowed visited) then None
    else
      let command_nodes := List.filter (fun node => is_named node && is_kind node "command") visited in
      let command_nodes := sort_by_key start_byte command_nodes in
      mapM parse_plain_command_from_node command_nodes.

(** [codex-rs/shell-command/src/bash.rs:94-107 extract_bash_command] *)
Definition extract_bash_command (command : list str) : option (str * str) :=
  match command with
  | [shell; flag; script] =>
      if negb (bool_decide (flag = lit "-lc") || bool_decide (flag = lit "-c"))
         || negb (match detect_shell_type shell with Some Zsh | Some Bash | Some Sh => true | _ => false end)
      then None
      else Some (shell, script)
  | _ => None
  end.

Section parser.
(** tree-sitter's parser for bash. *)
Context (try_parse_shell : str -> option Tree).

(** [codex-rs/shell-command/src/bash.rs:112-117 parse_shell_lc_plain_commands] *)
Definition parse_shell_lc_plain_commands (command : list str) : option (list (list str)) :=
  '(_, script) ← extract_bash_command command;
  tree ← try_parse_shell script;
  try_parse_word_only_commands_sequence tree.

(** [codex-rs/shell-command/src/bash.rs:137-147 parse_shell_lc_literal_commands] *)
Definition literal_commands (visited : list Node) : list (list str) :=
  omap (fun node => if is_kind node "command" then parse_literal_command_from_node node else None) visited.

(** [codex-rs/shell-command/src/bash.rs:126-150 parse_shell_lc_literal_commands] *)
Definition parse_shell_lc_literal_commands (command : list str) : option (list (list str)) :=
  '(_, script) ← extract_bash_command command;
  tree ← try_parse_shell script;
  if has_error tree then None
  else
    visited ← walk named_children (root_node tree);
    Some (literal_commands visited).

(** [codex-rs/shell-command/src/bash.rs:345-357 has_named_descendant_kind] *)
Definition has_named_descendant_kind (node : Node) (k : string) : option bool :=
  visited ← walk named_children node;
  Some (existsb (fun current => is_kind current k) visited).

(** [codex-rs/shell-command/src/bash.rs:326-343 find_single_command_node] *)
Definition find_single_command_node (root : Node) : option (option Node) :=
  visited ← walk named_children root;
  Some (match List.filter (fun node => is_kind node "command") visited with
        | [node] => Some node
        | _ => None
        end).

(** [codex-rs/shell-command/src/bash.rs:154-170 parse_shell_lc_single_command_prefix] *)
Definition parse_shell_lc_single_command_prefix (command : list str) : option (list str) :=
  '(_, script) ← extract_bash_command command;
  tree ← try_parse_shell script;
  let root := root_node tree in
  if has_error tree then None
  else
    heredoc ← has_named_descendant_kind root "heredoc_redirect";
    if negb heredoc then None
    else
      redirect ← has_named_descendant_kind root "file_redirect";
      if (redirect : bool) then None
      else
        command_node ← find_single_command_node root;
        command_node ← command_node;
        parse_heredoc_command_words command_node.
End parser.

(** ** The walks *)

(** [descendant next a b]: [b] is reached from [a] by steps to a next node. *)
Inductive descendant (next : Node -> list Node) : Node -> Node -> Prop :=
| descendant_self n : descendant next n n
| descendant_step n c d : c ∈ next n -> descendant next c d -> descendant next n d.

Lemma stack_count_app a b : stack_count (a ++ b) = stack_count a + stack_count b.
Proof. induction a as [|n a IH]; simpl; [done|]. rewrite IH. lia. Qed.

Lemma stack_count_rev a : stack_count (rev a) = stack_count a.
Proof. induction a as [|n a IH]; simpl; [done|]. rewrite stack_count_app, IH. simpl. lia. Qed.

Lemma stack_count_filter f l : stack_count (List.filter f l) <= stack_count l.
Proof. induction l as [|n l IH]; simpl; [done|]. destruct (f n); simpl; lia. Qed.

Lemma node_count_children n : node_count n = S (stack_count (children n)).
Proof. by destruct n. Qed.

Lemma elem_of_rev {A} (x : A) l : x ∈ rev l <-> x ∈ l.
Proof. rewrite !list_elem_of_In. symmetry. apply in_rev. Qed.

(** A walk ends when the next nodes of a node are among its children, and visits exactly the nodes that are
    reached. *)
Section walk.
Context (next : Node -> list Node) (Hnext : forall n, stack_count (next n) <= stack_count (children n)).

Lemma walk_stack_spec fuel stack :
  stack_count stack < fuel ->
  exists visited, walk_stack fuel next stack = Some visited /\
    forall d, d ∈ visited <-> exists n, n ∈ stack /\ descendant next n d.
Proof.
  revert stack; induction fuel as [|fuel IH]; intros stack Hf; [lia|]. destruct stack as [|n rest]; cbn [walk_stack].
  - exists []. split; [done|]. set_solver.
  - destruct (IH (rev (next n) ++ rest)) as (visited & -> & Hv).
    { rewrite stack_count_app, stack_count_rev. simpl in Hf. pose proof (Hnext n). rewrite node_count_children in Hf. lia. }
    exists (n :: visited). split; [done|]. intros d. rewrite elem_of_cons, Hv. setoid_rewrite elem_of_app. split.
    + intros [->|(m & [Hm|Hm] & Hd)].
      * exists n. split; [by left|constructor].
      * exists n. split; [by left|]. apply (descendant_step _ _ m); [|done]. by apply elem_of_rev.
      * exists m. split; [by right|done].
    + intros (m & Hm & Hd). apply elem_of_cons in Hm as [->|Hm]; [|right; exists m; split; [by right|done]].
      destruct Hd as [|n c d Hc Hd]; [by left|]. right. exists c. split; [left|done].
      by apply elem_of_rev.
Qed.

Lemma walk_spec root :
  exists visited, walk next root = Some visited /\ forall d, d ∈ visited <-> descendant next root d.
Proof.
  destruct (walk_stack_spec (S (node_count root)) [root]) as (visited & H & Hv); [simpl; lia|].
  exists visited. split; [done|]. intros d. rewrite Hv. set_solver.
Qed.
End walk.

Lemma walk_children_spec root :
  exists visited, walk children root = Some visited /\ forall d, d ∈ visited <-> descendant children root d.
Proof. apply walk_spec. done. Qed.

Lemma walk_named_spec root :
  exists visited, walk named_children root = Some visited /\ forall d, d ∈ visited <-> descendant named_children root d.
Proof. apply walk_spec. intros n. apply stack_count_filter. Qed.

(** *** Plain commands *)

Lemma mapM_elem {A B} (f : A -> option B) l r :
  mapM f l = Some r ->
  (forall x, x ∈ l -> exists y, f x = Some y /\ y ∈ r) /\ (forall y, y ∈ r -> exists x, x ∈ l /\ f x = Some y).
Proof.
  intros H. apply mapM_Some in H. split.
  - intros x Hx. apply list_elem_of_lookup in Hx as [i Hi].
    destruct (Forall2_lookup_l _ _ _ _ _ H Hi) as (y & Hy & Hf). exists y. split; [done|]. by eapply list_elem_of_lookup_2.
  - intros y Hy. apply list_elem_of_lookup in Hy as [i Hi].
    destruct (Forall2_lookup_r _ _ _ _ _ H Hi) as (x & Hx & Hf). exists x. split; [|done]. by eapply list_elem_of_lookup_2.
Qed.

Definition is_command (n : Node) : bool := is_named n && is_kind n "command".

Lemma word_only_commands tree cmds :
  try_parse_word_only_commands_sequence tree = Some cmds ->
  has_error tree = false /\
  (forall n, descendant children (root_node tree) n -> node_allowed n = true) /\
  (forall n, descendant children (root_node tree) n -> is_command n = true ->
     exists words, parse_plain_command_from_node n = Some words /\ words ∈ cmds) /\
  (forall words, words ∈ cmds ->
     exists n, descendant children (root_node tree) n /\ is_command n = true /\
       parse_plain_command_from_node n = Some words).
Proof.
  unfold try_parse_word_only_commands_sequence. destruct (has_error tree); [done|].
  destruct (walk_children_spec (root_node tree)) as (visited & -> & Hv). cbn [mbind option_bind].
  destruct (forallb node_allowed visited) eqn:Hall; cbn [negb]; [|done]. intros H.
  apply mapM_elem in H as [Hto Hfrom].
  assert (Hin : forall n, n ∈ sort_by_key start_byte (List.filter (fun node => is_named node && is_kind node "command") visited)
    <-> descendant children (root_node tree) n /\ is_command n = true).
  { intros n. rewrite sort_by_key_perm, list_elem_of_In, filter_In, <- list_elem_of_In, Hv. done. }
  split; [done|]. split; [|split].
  - intros n Hn. apply Hv, list_elem_of_In in Hn. by eapply forallb_forall in Hall.
  - intros n Hn Hc. apply Hto. by apply Hin.
  - intros words Hw. destruct (Hfrom words Hw) as (n & Hn & Hp). apply Hin in Hn as [Hn Hc]. by exists n.
Qed.

(** C32: no part of an accepted script escapes the check.  When the commands of a script are taken to be plain,
    its tree has no syntax error, every node of it, at any depth, is one of the allowed kinds or tokens, and
    the commands returned are the words of the command nodes of the tree, all of them and no others. *)
Theorem plain_commands_complete try_parse_shell command cmds :
  parse_shell_lc_plain_commands try_parse_shell command = Some cmds ->
  exists shell script tree,
    extract_bash_command command = Some (shell, script) /\ try_parse_shell script = Some tree /\
    has_error tree = false /\
    (forall n, descendant children (root_node tree) n -> node_allowed n = true) /\
    (forall n, descendant children (root_node tree) n -> is_command n = true ->
       exists words, parse_plain_command_from_node n = Some words /\ words ∈ cmds) /\
    (forall words, words ∈ cmds ->
       exists n, descendant children (root_node tree) n /\ is_command n = true /\
         parse_plain_command_from_node n = Some words).
Proof.
  unfold parse_shell_lc_plain_commands. destruct (extract_bash_command command) as [[shell script]|]; [|done].
  cbn [mbind option_bind]. destruct (try_parse_shell script) as [tree|] eqn:Ht; [|done]. cbn [mbind option_bind].
  intros H. apply word_only_commands in H. by exists shell, script, tree.
Qed.

(** The tree of the script [ls -a && pwd]. *)
Definition word_node (start : nat) (s : string) : Node := mkNode (lit "word") true start (Some (lit s)) [].
Definition command_node (start : nat) (name : string) (args : list Node) : Node :=
  mkNode (lit "command") true start None
    (mkNode (lit "command_name") true start (Some (lit name)) [word_node start name] :: args).
Definition example_tree : Tree := {|
  root_node := mkNode (lit "program") true 0 None
    [mkNode (lit "list") true 0 None
       [command_node 0 "ls" [word_node 3 "-a"]; mkNode (lit "&&") false 6 (Some (lit "&&")) [];
        command_node 9 "pwd" []]];
  has_error := false |}.
Definition example_parser (script : str) : option Tree :=
  if bool_decide (script = lit "ls -a && pwd") then Some example_tree else None.

Lemma plain_commands_complete_witness :
  let command := map lit ["bash"; "-lc"; "ls -a && pwd"]%string in
  let cmds := [map lit ["ls"; "-a"]; map lit ["pwd"]]%string in
  parse_shell_lc_plain_commands example_parser command = Some cmds /\
  exists shell script tree,
    extract_bash_command command = Some (shell, script) /\ example_parser script = Some tree /\ has_error tree = false.
Proof.
  intros command cmds. assert (H : parse_shell_lc_plain_commands example_parser command = Some cmds) by (by vm_compute).
  split; [exact H|]. destruct (plain_commands_complete example_parser command cmds H) as (shell & script & tree & H1 & H2 & H3 & _).
  by exists shell, script, tree.
Defined.

(** *** Shells *)

(** The text of a path that is a single name. *)
Lemma file_stem_no_dot path name : file_name path = Some name -> 46%N ∉ name -> file_stem path = Some name.
Proof.
  intros Hn Hd. unfold file_stem. rewrite Hn. cbn [mbind option_bind]. unfold rsplit_once.
  destruct (split_once 46 (rev name)) as [[b a]|] eqn:E; [|done].
  apply split_once_eq in E. destruct Hd. apply list_elem_of_In, in_rev, list_elem_of_In. rewrite E. set_solver.
Qed.

(** A program whose name has no dot and is no shell is not taken for a shell, wherever it is. *)
Lemma detect_shell_type_none path name :
  file_name path = Some name -> file_name name = Some name -> 46%N ∉ name ->
  shell_of_name path = None -> shell_of_name name = None -> detect_shell_type path = None.
Proof.
  intros Hp Hn Hd Hsp Hsn. unfold detect_shell_type.
  destruct (length path) as [|fuel]; cbn [detect_shell_type_at]; rewrite Hsp; [done|].
  rewrite (file_stem_no_dot path name) by done. case_bool_decide; [done|].
  destruct fuel; cbn [detect_shell_type_at]; rewrite Hsn; [done|].
  rewrite (file_stem_no_dot name name) by done. by rewrite bool_decide_true.
Qed.

End ShellParse.
