(* ===== verification/CommandSafety.v ===== *)
(** * Safe and dangerous commands: shell-command/src/command_safety

    Which commands may run without asking (is_safe_command.rs) and which never may
    (is_dangerous_command.rs), on Unix.  Whether the target is Linux is a parameter, like the parser of
    shell scripts. *)

From S2P Require Import Prelude Text AbsolutePath ShellParse.
Import AbsolutePath ShellParse.

Module CommandSafety.

(** [codex-rs/shell-command/src/command_safety/is_dangerous_command.rs:95-119 executable_name_lookup_key] *)
Definition executable_name_lookup_key (raw : str) : option str := file_name raw.

Definition one_of (s : str) (options : list string) : bool := bool_decide (s ∈ map lit options).

(** ** Git *)

(** [codex-rs/shell-command/src/command_safety/is_dangerous_command.rs:70-81 is_git_global_option_with_value] *)
Definition is_git_global_option_with_value (arg : str) : bool :=
  one_of arg ["-C"; "-c"; "--config-env"; "--exec-path"; "--git-dir"; "--namespace"; "--super-prefix";
              "--work-tree"].

(** [codex-rs/shell-command/src/command_safety/is_dangerous_command.rs:83-93 is_git_global_option_with_inline_value] *)
Definition is_git_global_option_with_inline_value (arg : str) : bool :=
  existsb (fun p => starts_with (lit p) arg)
    ["--config-env="; "--exec-path="; "--git-dir="; "--namespace="; "--super-prefix="; "--work-tree="]%string
  || ((starts_with (lit "-C") arg || starts_with (lit "-c") arg) && (2 <? str_len arg)%N).

(** [codex-rs/shell-command/src/command_safety/is_dangerous_command.rs:136-164 find_git_subcommand] *)
Fixpoint find_subcommand_from (idx : nat) (skip_next : bool) (args : list str) (subcommands : list string)
    : option (nat * str) :=
  match args with
  | [] => None
  | arg :: args =>
      if skip_next then find_subcommand_from (S idx) false args subcommands
      else if is_git_global_option_with_inline_value arg then find_subcommand_from (S idx) false args subcommands
      else if is_git_global_option_with_value arg then find_subcommand_from (S idx) true args subcommands
      else if bool_decide (arg = lit "--") || starts_with [MINUS] arg
      then find_subcommand_from (S idx) false args subcommands
      else if one_of arg subcommands then Some (idx, arg)
      else None
  end.

(** [codex-rs/shell-command/src/command_safety/is_dangerous_command.rs:125-167 find_git_subcommand] *)
Definition find_git_subcommand (command : list str) (subcommands : list string) : option (nat * str) :=
  cmd0 ← head command;
  if negb (bool_decide (executable_name_lookup_key cmd0 = Some (lit "git"))) then None
  else find_subcommand_from 1 false (List.tl command) subcommands.

(** [codex-rs/shell-command/src/command_safety/is_safe_command.rs:230-235 GitOptionPattern] *)
Inductive GitOptionPattern := Exact (option : str) | ShortWithInlineValue (option : str) | Prefix (prefix : str).

(** [codex-rs/shell-command/src/command_safety/is_safe_command.rs:237-256 UNSAFE_GIT_GLOBAL_OPTIONS] *)
Definition UNSAFE_GIT_GLOBAL_OPTIONS : list GitOptionPattern :=
  [Exact (lit "-C"); ShortWithInlineValue (lit "-C"); Exact (lit "-c"); ShortWithInlineValue (lit "-c");
   Exact (lit "-p"); Exact (lit "--config-env"); Prefix (lit "--config-env="); Exact (lit "--exec-path");
   Prefix (lit "--exec-path="); Exact (lit "--git-dir"); Prefix (lit "--git-dir="); Exact (lit "--namespace");
   Prefix (lit "--namespace="); Exact (lit "--paginate"); Exact (lit "--super-prefix");
   Prefix (lit "--super-prefix="); Exact (lit "--work-tree"); Prefix (lit "--work-tree=")].

(** [codex-rs/shell-command/src/command_safety/is_safe_command.rs:258-265 UNSAFE_GIT_SUBCOMMAND_OPTIONS] *)
Definition UNSAFE_GIT_SUBCOMMAND_OPTIONS : list GitOptionPattern :=
  [Exact (lit "--output"); Prefix (lit "--output="); Exact (lit "--ext-diff"); Exact (lit "--textconv");
   Exact (lit "--exec"); Prefix (lit "--exec=")].

(** [codex-rs/shell-command/src/command_safety/is_safe_command.rs:268-276 matches] *)
Definition option_matches (self : GitOptionPattern) (arg : str) : bool :=
  match self with
  | Exact option => bool_decide (arg = option)
  | ShortWithInlineValue option => starts_with option arg && (str_len option <? str_len arg)%N
  | Prefix prefix => starts_with prefix arg
  end.

(** [codex-rs/shell-command/src/command_safety/is_safe_command.rs:279-281 git_matches_option_pattern] *)
Definition git_matches_option_pattern (arg : str) (patterns : list GitOptionPattern) : bool :=
  existsb (fun pattern => option_matches pattern arg) patterns.

(** [codex-rs/shell-command/src/command_safety/is_safe_command.rs:283-288 git_has_unsafe_global_option] *)
Definition git_has_unsafe_global_option (global_args : list str) : bool :=
  existsb (fun arg => git_matches_option_pattern arg UNSAFE_GIT_GLOBAL_OPTIONS) global_args.

(** [codex-rs/shell-command/src/command_safety/is_safe_command.rs:290-295 git_subcommand_args_are_read_only] *)
Definition git_subcommand_args_are_read_only (args : list str) : bool :=
  negb (existsb (fun arg => git_matches_option_pattern arg UNSAFE_GIT_SUBCOMMAND_OPTIONS) args).

(** A flag with which [git branch] only lists branches. *)
Definition branch_flag_read_only (arg : str) : bool :=
  one_of arg ["--list"; "-l"; "--show-current"; "-a"; "--all"; "-r"; "--remotes"; "-v"; "-vv"; "--verbose"]
  || starts_with (lit "--format=") arg.

(** [codex-rs/shell-command/src/command_safety/is_safe_command.rs:210-227 git_branch_is_read_only] *)
Fixpoint branch_flags (saw_read_only_flag : bool) (args : list str) : bool :=
  match args with
  | [] => saw_read_only_flag
  | arg :: args => if branch_flag_read_only arg then branch_flags true args else false
  end.

(** [codex-rs/shell-command/src/command_safety/is_safe_command.rs:204-228 git_branch_is_read_only] *)
Definition git_branch_is_read_only (branch_args : list str) : bool :=
  if bool_decide (branch_args = []) then true else branch_flags false branch_args.

Definition safe_git_subcommands : list string := ["status"; "log"; "diff"; "show"; "branch"]%string.

(** [codex-rs/shell-command/src/command_safety/is_safe_command.rs:175-200 is_safe_git_command] The outer option is the panic of a slice. *)
Definition is_safe_git_command (command : list str) : option bool :=
  match find_git_subcommand command safe_git_subcommands with
  | None => Some false
  | Some (subcommand_idx, subcommand) =>
      if (subcommand_idx <? 1) || (length command <? S subcommand_idx) then None
      else
        let global_args := take (subcommand_idx - 1) (drop 1 command) in
        if git_has_unsafe_global_option global_args then Some false
        else
          let subcommand_args := drop (S subcommand_idx) command in
          Some (if one_of subcommand ["status"; "log"; "diff"; "show"]
                then git_subcommand_args_are_read_only subcommand_args
                else if one_of subcommand ["branch"]
                then git_subcommand_args_are_read_only subcommand_args && git_branch_is_read_only subcommand_args
                else false)
  end.

(** ** Safe commands *)

(** [codex-rs/shell-command/src/command_safety/is_safe_command.rs:304-334 is_valid_sed_n_arg] *)
Definition is_valid_sed_n_arg (arg : option str) : bool :=
  match arg with
  | None => false
  | Some s =>
      match strip_suffix (lit "p") s with
      | None => false
      | Some core =>
          match split_char 44 core with
          | [num] => negb (bool_decide (num = [])) && forallb is_ascii_digit num
          | [a; b] => negb (bool_decide (a = [])) && negb (bool_decide (b = [])) && forallb is_ascii_digit a
                      && forallb is_ascii_digit b
          | _ => false
          end
      end
  end.

(** The commands that are safe with any arguments. *)
Definition always_safe (linux : bool) (cmd : str) : bool :=
  (linux && one_of cmd ["numfmt"; "tac"])
  || one_of cmd ["cat"; "cd"; "cut"; "echo"; "expr"; "false"; "grep"; "head"; "id"; "ls"; "nl"; "paste"; "pwd";
                 "rev"; "seq"; "stat"; "tail"; "tr"; "true"; "uname"; "uniq"; "wc"; "which"; "whoami"].

(** [codex-rs/shell-command/src/command_safety/is_safe_command.rs:105-111 is_safe_to_call_with_exec] *)
Definition unsafe_base64_arg (arg : str) : bool :=
  one_of arg ["-o"; "--output"] || starts_with (lit "--output=") arg
  || (starts_with (lit "-o") arg && negb (bool_decide (arg = lit "-o"))).

(** [codex-rs/shell-command/src/command_safety/is_safe_command.rs:119-130 is_safe_to_call_with_exec] *)
Definition unsafe_find_arg (arg : str) : bool :=
  one_of arg ["-exec"; "-execdir"; "-ok"; "-okdir"; "-delete"; "-fls"; "-fprint"; "-fprint0"; "-fprintf"].

(** [codex-rs/shell-command/src/command_safety/is_safe_command.rs:135-153 is_safe_to_call_with_exec] *)
Definition unsafe_rg_arg (arg : str) : bool :=
  one_of arg ["--search-zip"; "-z"]
  || existsb (fun opt => bool_decide (arg = lit opt) || starts_with (lit opt ++ lit "=") arg)
       ["--pre"; "--hostname-bin"]%string.

Section target.
Context (linux : bool).

(** [codex-rs/shell-command/src/command_safety/is_safe_command.rs:67-173 is_safe_to_call_with_exec] *)
Definition is_safe_to_call_with_exec (command : list str) : option bool :=
  match head command with
  | None => Some false
  | Some cmd0 =>
      match executable_name_lookup_key cmd0 with
      | None => Some false
      | Some cmd =>
          if always_safe linux cmd then Some true
          else if one_of cmd ["base64"] then Some (negb (existsb unsafe_base64_arg (drop 1 command)))
          else if one_of cmd ["find"] then Some (negb (existsb unsafe_find_arg command))
          else if one_of cmd ["rg"] then Some (negb (existsb unsafe_rg_arg command))
          else if one_of cmd ["git"] then is_safe_git_command command
          else if one_of cmd ["sed"] then
            Some ((length command <=? 4) && bool_decide (command !! 1 = Some (lit "-n"))
                  && is_valid_sed_n_arg (command !! 2))
          else Some false
      end
  end.

Section parser.
Context (try_parse_shell : str -> option Tree).

(** [xs.iter().all(f)] with an early result. *)
Fixpoint all_safe (commands : list (list str)) : option bool :=
  match commands with
  | [] => Some true
  | cmd :: commands =>
      match is_safe_to_call_with_exec cmd with
      | Some true => all_safe commands
      | r => r
      end
  end.

Definition zsh_as_bash (s : str) : str := if bool_decide (s = lit "zsh") then lit "bash" else s.

(** [codex-rs/shell-command/src/command_safety/is_safe_command.rs:12-50 is_known_safe_command] *)
Definition is_known_safe_command (command : list str) : option bool :=
  let command := map zsh_as_bash command in
  match is_safe_to_call_with_exec command with
  | Some true => Some true
  | None => None
  | Some false =>
      match parse_shell_lc_plain_commands try_parse_shell command with
      | Some all_commands =>
          if bool_decide (all_commands = []) then Some false else all_safe all_commands
      | None => Some false
      end
  end.

(** ** Dangerous commands *)

(** [codex-rs/shell-command/src/command_safety/is_dangerous_command.rs:7-14 DangerousCommandMatch] *)
Inductive DangerousCommandMatch := ForcedRm | OtherDanger.

(** [codex-rs/shell-command/src/command_safety/is_dangerous_command.rs:16-16 MAX_DANGEROUS_COMMAND_WRAPPER_DEPTH] *)
Definition MAX_DANGEROUS_COMMAND_WRAPPER_DEPTH : nat := 8.

(** [codex-rs/shell-command/src/command_safety/is_dangerous_command.rs:237-246 rm_args_include_force_option] *)
Fixpoint rm_args_include_force_option (args : list str) : bool :=
  match args with
  | [] => false
  | arg :: args =>
      if bool_decide (arg = lit "--") then false
      else bool_decide (arg = lit "--force")
           || match strip_prefix [MINUS] arg with
              | Some flags => negb (starts_with [MINUS] flags) && contains_char 102 flags
              | None => false
              end
           || rm_args_include_force_option args
  end.

(** [codex-rs/shell-command/src/command_safety/is_dangerous_command.rs:200-215 dangerous_command_match_for_env] The rest of the command line. *)
Fixpoint env_command (args : list str) : list str :=
  match args with
  | [] => []
  | argument :: rest =>
      if bool_decide (argument = lit "--") then rest
      else if one_of argument ["-i"; "--ignore-environment"]
              || match split_once 61 argument with
                 | Some (name, _) => negb (bool_decide (name = [])) && negb (starts_with [MINUS] name)
                 | None => false
                 end
      then env_command rest
      else args
  end.

(** [codex-rs/shell-command/src/command_safety/is_dangerous_command.rs:223-232 dangerous_command_match_for_trap] *)
Definition trap_action (args : list str) : option str :=
  let args := match args with
              | argument :: rest => if bool_decide (argument = lit "--") then rest else args
              | [] => []
              end in
  action ← head args;
  if starts_with [MINUS] action then None else Some action.

(** [find_map]. *)
Fixpoint find_map {A B} (f : A -> option B) (l : list A) : option B :=
  match l with
  | [] => None
  | x :: l => match f x with Some y => Some y | None => find_map f l end
  end.

(** [codex-rs/shell-command/src/command_safety/is_dangerous_command.rs:23-53 dangerous_command_match_with_depth] [levels] is one more than the wrappers that may still be looked into; the functions for [sudo], [env] and [trap] are inlined. *)
Fixpoint dangerous_command_match_with_levels (levels : nat) (command : list str) : option DangerousCommandMatch :=
  match levels with
  | 0 => None
  | S levels =>
      let for_exec :=
        match command with
        | [] => None
        | cmd0 :: args =>
            match executable_name_lookup_key cmd0 with
            | None => None
            | Some cmd =>
                if bool_decide (cmd = lit "rm") && rm_args_include_force_option args then Some ForcedRm
                else if bool_decide (cmd = lit "sudo") then dangerous_command_match_with_levels levels args
                else if bool_decide (cmd = lit "env")
                then dangerous_command_match_with_levels levels (env_command args)
                else if bool_decide (cmd = lit "trap")
                then match trap_action args with
                     | Some action => dangerous_command_match_with_levels levels [lit "sh"; lit "-c"; action]
                     | None => None
                     end
                else None
            end
        end in
      match for_exec with
      | Some dangerous_match => Some dangerous_match
      | None =>
          match parse_shell_lc_literal_commands try_parse_shell command with
          | Some commands => find_map (dangerous_command_match_with_levels levels) commands
          | None => None
          end
      end
  end.

(** [codex-rs/shell-command/src/command_safety/is_dangerous_command.rs:19-21 dangerous_command_match] *)
Definition dangerous_command_match (command : list str) : option DangerousCommandMatch :=
  dangerous_command_match_with_levels (S MAX_DANGEROUS_COMMAND_WRAPPER_DEPTH) command.
End parser.
End target.

(** ** Git *)

Lemma one_of_spec s options : one_of s options = true <-> s ∈ map lit options.
Proof. unfold one_of. apply bool_decide_eq_true. Qed.

Lemma pattern_unsafe arg p :
  p ∈ UNSAFE_GIT_GLOBAL_OPTIONS -> option_matches p arg = true ->
  git_matches_option_pattern arg UNSAFE_GIT_GLOBAL_OPTIONS = true.
Proof. intros Hp Hm. apply existsb_exists. exists p. split; [by apply list_elem_of_In|done]. Qed.

Ltac in_list := unfold UNSAFE_GIT_GLOBAL_OPTIONS; repeat first [apply list_elem_of_here | apply list_elem_of_further].

Lemma value_option_unsafe arg :
  is_git_global_option_with_value arg = true -> git_matches_option_pattern arg UNSAFE_GIT_GLOBAL_OPTIONS = true.
Proof.
  intros H. apply one_of_spec in H. cbn [map] in H.
  repeat (apply elem_of_cons in H as [->|H]; [by vm_compute|]). by apply elem_of_nil in H.
Qed.

Lemma inline_option_unsafe arg :
  is_git_global_option_with_inline_value arg = true ->
  git_matches_option_pattern arg UNSAFE_GIT_GLOBAL_OPTIONS = true.
Proof.
  unfold is_git_global_option_with_inline_value. rewrite orb_true_iff. intros [H|H].
  - apply existsb_exists in H as (p & Hp & H). cbn [In] in Hp.
    destruct Hp as [<-|[<-|[<-|[<-|[<-|[<-|[]]]]]]]; match type of H with starts_with ?q _ = true => apply (pattern_unsafe _ (Prefix q)); [in_list|exact H] end.
  - apply andb_true_iff in H as [H Hl]. apply orb_true_iff in H as [H|H].
    + apply (pattern_unsafe _ (ShortWithInlineValue (lit "-C"))); [in_list|]. cbn [option_matches]. by rewrite H.
    + apply (pattern_unsafe _ (ShortWithInlineValue (lit "-c"))); [in_list|]. cbn [option_matches]. by rewrite H.
Qed.

(** A global option that may stand before a subcommand. *)
Definition harmless_option (arg : str) : Prop :=
  starts_with [MINUS] arg = true /\ git_matches_option_pattern arg UNSAFE_GIT_GLOBAL_OPTIONS = false.

Lemma harmless_skipped arg :
  harmless_option arg ->
  is_git_global_option_with_inline_value arg = false /\ is_git_global_option_with_value arg = false.
Proof.
  intros [_ H]. split; apply not_true_iff_false; intros H'.
  - apply inline_option_unsafe in H'. congruence.
  - apply value_option_unsafe in H'. congruence.
Qed.

Lemma find_subcommand_sound idx skip args subs i sub :
  find_subcommand_from idx skip args subs = Some (i, sub) ->
  exists pre post, args = pre ++ sub :: post /\ i = idx + length pre /\ sub ∈ map lit subs /\
    (skip = false -> git_has_unsafe_global_option pre = false -> Forall harmless_option pre).
Proof.
  revert idx skip. induction args as [|arg args IH]; intros idx skip; cbn [find_subcommand_from]; [done|].
  assert (Hnext : forall s, find_subcommand_from (S idx) s args subs = Some (i, sub) ->
    (skip = false -> s = true \/ starts_with [MINUS] arg = false ->
     git_matches_option_pattern arg UNSAFE_GIT_GLOBAL_OPTIONS = true) ->
    exists pre post, arg :: args = pre ++ sub :: post /\ i = idx + length pre /\ sub ∈ map lit subs /\
      (skip = false -> git_has_unsafe_global_option pre = false -> Forall harmless_option pre)).
  { intros s H Hu. destruct (IH _ _ H) as (pre & post & -> & -> & Hsub & Hf). exists (arg :: pre), post.
    split; [done|]. split; [simpl; lia|]. split; [done|]. intros Hs. cbn [git_has_unsafe_global_option existsb].
    intros Hun. apply orb_false_iff in Hun as [Ha Hpre]. specialize (Hu Hs).
    constructor.
    - split; [|done]. destruct (starts_with [MINUS] arg); [done|]. rewrite Hu in Ha; [done|by right].
    - apply Hf; [|done]. destruct s; [|done]. rewrite Hu in Ha; [done|by left]. }
  destruct skip; [intros H; by eapply Hnext|].
  destruct (is_git_global_option_with_inline_value arg) eqn:Ei.
  { intros H. apply (Hnext false); [done|]. intros _ _. by apply inline_option_unsafe. }
  destruct (is_git_global_option_with_value arg) eqn:Ev.
  { intros H. apply (Hnext true); [done|]. intros _ _. by apply value_option_unsafe. }
  destruct (bool_decide (arg = lit "--") || starts_with [MINUS] arg) eqn:Ed.
  { intros H. apply (Hnext false); [done|]. intros _ [Hx|Hx]; [done|]. exfalso.
    apply orb_true_iff in Ed as [Ed|Ed]; [|congruence]. apply bool_decide_eq_true in Ed as ->. by vm_compute in Hx. }
  destruct (one_of arg subs) eqn:Eo; [|done]. intros [= <- <-]. exists [], args.
  split; [done|]. split; [simpl; lia|]. split; [by apply one_of_spec|]. intros _ _. constructor.
Qed.

Lemma find_subcommand_complete idx pre sub post subs :
  Forall harmless_option pre -> sub ∈ map lit subs ->
  is_git_global_option_with_inline_value sub = false -> is_git_global_option_with_value sub = false ->
  bool_decide (sub = lit "--") || starts_with [MINUS] sub = false ->
  find_subcommand_from idx false (pre ++ sub :: post) subs = Some (idx + length pre, sub).
Proof.
  intros Hpre Hsub Hi Hv Hd. revert idx. induction Hpre as [|arg pre Harg _ IH]; intros idx; cbn [app find_subcommand_from].
  - rewrite Hi, Hv, Hd, (proj2 (one_of_spec sub subs) Hsub). by rewrite Nat.add_0_r.
  - destruct (harmless_skipped arg Harg) as [-> ->]. destruct Harg as [-> _]. rewrite orb_true_r, IH.
    f_equal. f_equal. simpl. lia.
Qed.

Lemma branch_flags_all saw args :
  branch_flags saw args = true <-> Forall (fun arg => branch_flag_read_only arg = true) args /\ (saw = true \/ args <> []).
Proof.
  revert saw. induction args as [|arg args IH]; intros saw; cbn [branch_flags].
  - split; [intros ->; split; [constructor|by left]|]. by intros [_ [H|H]].
  - destruct (branch_flag_read_only arg) eqn:E.
    + rewrite IH, Forall_cons. naive_solver.
    + rewrite Forall_cons. split; [done|]. intros [[H _] _]. congruence.
Qed.

Lemma branch_read_only args :
  git_branch_is_read_only args = true <-> Forall (fun arg => branch_flag_read_only arg = true) args.
Proof.
  unfold git_branch_is_read_only. case_bool_decide as H; [subst; split; [constructor|done]|].
  rewrite branch_flags_all. naive_solver.
Qed.

Lemma read_only_args args :
  git_subcommand_args_are_read_only args = true <->
  Forall (fun arg => git_matches_option_pattern arg UNSAFE_GIT_SUBCOMMAND_OPTIONS = false) args.
Proof.
  unfold git_subcommand_args_are_read_only. rewrite negb_true_iff. induction args as [|arg args IH]; cbn [existsb].
  - split; [constructor|done].
  - rewrite orb_false_iff, IH, Forall_cons. done.
Qed.

(** The git commands that may run without asking. *)
Inductive safe_git : list str -> Prop :=
| SafeGit name globals subcommand args :
    executable_name_lookup_key name = Some (lit "git") ->
    Forall harmless_option globals ->
    subcommand ∈ map lit safe_git_subcommands ->
    Forall (fun arg => git_matches_option_pattern arg UNSAFE_GIT_SUBCOMMAND_OPTIONS = false) args ->
    (subcommand = lit "branch" -> Forall (fun arg => branch_flag_read_only arg = true) args) ->
    safe_git (name :: globals ++ subcommand :: args).

Lemma no_unsafe_globals globals : Forall harmless_option globals -> git_has_unsafe_global_option globals = false.
Proof.
  induction 1 as [|arg globals [_ H] _ IH]; [done|]. unfold git_has_unsafe_global_option in *. cbn [existsb]. by rewrite H.
Qed.

(** The parts of a git command at a subcommand. *)
Lemma git_parts (name : str) globals subcommand args :
  let command := name :: globals ++ subcommand :: args in
  ((1 + length globals) <? 1) || (length command <? S (1 + length globals)) = false /\
  take (1 + length globals - 1) (drop 1 command) = globals /\
  drop (S (1 + length globals)) command = args.
Proof.
  cbn [drop Nat.add]. rewrite Nat.sub_succ, Nat.sub_0_r. split; [|split].
  - rewrite orb_false_iff, !Nat.ltb_ge. simpl. rewrite length_app. simpl. lia.
  - apply take_app_length.
  - cbn [drop]. rewrite (app_assoc globals [subcommand] args : globals ++ subcommand :: args = _).
    apply drop_app_length'. rewrite length_app. simpl. lia.
Qed.

Lemma subcommand_checks subcommand args :
  subcommand ∈ map lit safe_git_subcommands ->
  (if one_of subcommand ["status"; "log"; "diff"; "show"] then git_subcommand_args_are_read_only args
   else if one_of subcommand ["branch"]
   then git_subcommand_args_are_read_only args && git_branch_is_read_only args else false) = true <->
  Forall (fun arg => git_matches_option_pattern arg UNSAFE_GIT_SUBCOMMAND_OPTIONS = false) args /\
  (subcommand = lit "branch" -> Forall (fun arg => branch_flag_read_only arg = true) args).
Proof.
  intros Hs. rewrite <- read_only_args, <- branch_read_only. unfold safe_git_subcommands in Hs. cbn [map] in Hs.
  repeat (apply elem_of_cons in Hs as [->|Hs]; [|]); [..|by apply elem_of_nil in Hs].
  1-4: rewrite (proj2 (one_of_spec _ _)) by (cbn [map]; repeat first [apply list_elem_of_here | apply list_elem_of_further]);
       split; [intros H; split; [done|by intros H'; vm_compute in H'] | by intros [H _]].
  change (one_of (lit "branch") ["status"; "log"; "diff"; "show"]) with false. cbv iota.
  change (one_of (lit "branch") ["branch"]) with true. cbv iota. rewrite andb_true_iff. naive_solver.
Qed.

(** A git command may run without asking exactly if it is [git], options that neither take a value nor
    change the repository, configuration, programs or pager used, one of [status], [log], [diff], [show]
    and [branch], and arguments that write no file and run no program; and for [branch] only flags that
    list branches.  Options before the subcommand cannot hide another subcommand. *)
Theorem safe_git_exact command : is_safe_git_command command = Some true <-> safe_git command.
Proof.
  unfold is_safe_git_command, find_git_subcommand. split.
  - destruct command as [|name rest]; [done|]. cbn [head mbind option_bind List.tl].
    case_bool_decide as Hname; cbn [negb]; [|done].
    destruct (find_subcommand_from 1 false rest safe_git_subcommands) as [[i sub]|] eqn:E; [|done].
    destruct (find_subcommand_sound _ _ _ _ _ _ E) as (globals & args & -> & -> & Hsub & Hharm).
    destruct (git_parts name globals sub args) as (-> & -> & ->).
    destruct (git_has_unsafe_global_option globals) eqn:Hu; [done|]. intros [= H].
    apply subcommand_checks in H as [Ha Hb]; [|done]. constructor; auto.
  - intros [name globals sub args Hname Hharm Hsub Ha Hb]. cbn [head mbind option_bind List.tl].
    rewrite bool_decide_true by done. cbn [negb].
    assert (Hno : is_git_global_option_with_inline_value sub = false /\ is_git_global_option_with_value sub = false /\
      bool_decide (sub = lit "--") || starts_with [MINUS] sub = false).
    { clear -Hsub. unfold safe_git_subcommands in Hsub. cbn [map] in Hsub.
      repeat (apply elem_of_cons in Hsub as [->|Hsub]; [by vm_compute|]). by apply elem_of_nil in Hsub. }
    destruct Hno as (Hi & Hv & Hd). rewrite find_subcommand_complete by done.
    destruct (git_parts name globals sub args) as (-> & -> & ->). rewrite no_unsafe_globals by done.
    f_equal. by apply subcommand_checks.
Qed.

(** ** Safe commands are not dangerous *)

(** The names of the programs that may be safe. *)
Definition safe_names : list string :=
  ["numfmt"; "tac"; "cat"; "cd"; "cut"; "echo"; "expr"; "false"; "grep"; "head"; "id"; "ls"; "nl"; "paste"; "pwd";
   "rev"; "seq"; "stat"; "tail"; "tr"; "true"; "uname"; "uniq"; "wc"; "which"; "whoami"; "base64"; "find"; "rg";
   "git"; "sed"]%string.

Definition wrapper_names : list string := ["rm"; "sudo"; "env"; "trap"]%string.

(** A name that stands for itself as a path, has no extension and is no shell. *)
Definition plain_name (n : str) : bool :=
  bool_decide (file_name n = Some n) && negb (bool_decide (46%N ∈ n))
  && match shell_of_name n with None => true | Some _ => false end.

Lemma names_plain n : n ∈ map lit (safe_names ++ wrapper_names) -> plain_name n = true.
Proof.
  intros Hn. assert (H : forallb plain_name (map lit (safe_names ++ wrapper_names)) = true) by (by vm_compute).
  apply list_elem_of_In in Hn. by eapply forallb_forall in H.
Qed.

Lemma shell_path_is_name path s : shell_of_name path = Some s -> file_name path = Some path.
Proof.
  unfold shell_of_name. repeat (case_bool_decide as H; [subst; by vm_compute|clear H]). done.
Qed.

(** A path to a program with such a name is no shell. *)
Lemma plain_not_shell path name :
  file_name path = Some name -> plain_name name = true -> detect_shell_type path = None.
Proof.
  intros Hp H. unfold plain_name in H. rewrite !andb_true_iff in H. destruct H as [[Hn Hd] Hs].
  apply bool_decide_eq_true in Hn. apply negb_true_iff, bool_decide_eq_false in Hd.
  destruct (shell_of_name name) eqn:E; [done|].
  apply (detect_shell_type_none path name); try done.
  destruct (shell_of_name path) as [s|] eqn:E'; [|done]. pose proof (shell_path_is_name _ _ E'). congruence.
Qed.

Lemma safe_exec_name linux command :
  is_safe_to_call_with_exec linux command = Some true ->
  exists cmd0 args name, command = cmd0 :: args /\ file_name cmd0 = Some name /\ name ∈ map lit safe_names.
Proof.
  unfold is_safe_to_call_with_exec, executable_name_lookup_key. destruct command as [|cmd0 args]; [done|]. cbn [head].
  destruct (file_name cmd0) as [name|] eqn:E; [|done]. intros H. exists cmd0, args, name. split; [done|]. split; [done|].
  assert (Hsub : forall l, one_of name l = true -> forallb (fun s => bool_decide (s ∈ safe_names)) l = true -> name ∈ map lit safe_names).
  { intros l Hl Hf. apply one_of_spec in Hl. apply list_elem_of_fmap in Hl as (s & -> & Hs). apply list_elem_of_fmap_2.
    apply list_elem_of_In in Hs. apply (proj1 (forallb_forall _ _) Hf) in Hs. by apply bool_decide_eq_true in Hs. }
  unfold always_safe in H.
  repeat match type of H with context [one_of name ?l] =>
    let E := fresh in destruct (one_of name l) eqn:E; [apply (Hsub l E); by vm_compute|] end.
  by rewrite andb_false_r in H.
Qed.

Section disjoint.
Context (try_parse_shell : str -> option Tree).
Abbreviation dangerous := (dangerous_command_match_with_levels try_parse_shell).

(** A command whose program is neither a shell nor one that runs or removes other things is not dangerous. *)
Lemma inert_not_dangerous levels cmd0 args name :
  file_name cmd0 = Some name -> name ∈ map lit safe_names -> dangerous levels (cmd0 :: args) = None.
Proof.
  intros Hf Hn. destruct levels as [|levels]; [done|]. cbn [dangerous_command_match_with_levels].
  unfold executable_name_lookup_key. rewrite Hf.
  assert (Hw : forall w, w ∈ wrapper_names -> name <> lit w).
  { intros w Hw ->. assert (Hb : forallb (fun w => negb (bool_decide (lit w ∈ map lit safe_names))) wrapper_names = true)
      by (by vm_compute).
    apply list_elem_of_In in Hw. apply (proj1 (forallb_forall _ _) Hb), negb_true_iff, bool_decide_eq_false in Hw. done. }
  rewrite !bool_decide_false by (apply Hw; unfold wrapper_names; repeat first [apply list_elem_of_here | apply list_elem_of_further]).
  cbn [andb]. unfold parse_shell_lc_literal_commands, extract_bash_command.
  destruct args as [|flag [|script [|]]]; try done.
  rewrite (plain_not_shell cmd0 name) by (try done; apply names_plain; rewrite map_app; apply elem_of_app; by left).
  by rewrite orb_true_r.
Qed.

(** What the grammar of bash says of a command: a name, after assignments and redirections only, and no
    other name. *)
Definition command_wf (n : Node) : Prop :=
  exists pre name args, named_children n = pre ++ name :: args /\ is_kind name "command_name" = true /\
    Forall (fun p => kind p ∈ map lit ["variable_assignment"; "file_redirect"; "herestring_redirect"]%string) pre /\
    Forall (fun a => is_kind a "command_name" = false) args.

Lemma literal_words_prefix words l lits :
  literal_words true words l = Some lits -> Forall (fun a => is_kind a "command_name" = false) l ->
  exists more, lits = words ++ more.
Proof.
  intros H Hl. revert words H. induction Hl as [|a l Ha _ IH]; intros words; cbn [literal_words].
  - intros [= <-]. exists []. by rewrite app_nil_r.
  - rewrite Ha. destruct (parse_literal_shell_word a) as [w|]; intros H; [|by apply IH].
    apply IH in H as [more ->]. exists (w :: more). by rewrite <- app_assoc.
Qed.

(** The literal and the plain words of an allowed command begin with the same name. *)
Lemma literal_plain_name n words lits :
  command_wf n -> (forall c, c ∈ named_children n -> node_allowed c = true) ->
  (forall c, c ∈ named_children n -> is_named c = true) ->
  parse_plain_command_from_node n = Some words -> parse_literal_command_from_node n = Some lits ->
  exists name rest rest', words = name :: rest /\ lits = name :: rest'.
Proof.
  intros (pre & name & args & Hc & Hk & Hpre & Hargs) Hallowed Hnamed.
  assert (pre = []) as ->.
  { destruct pre as [|p pre]; [done|]. exfalso. apply Forall_cons in Hpre as [Hp _].
    assert (Hin : p ∈ named_children n) by (rewrite Hc; by left).
    pose proof (Hallowed p Hin) as Ha. unfold node_allowed in Ha. rewrite (Hnamed p Hin) in Ha.
    apply list_elem_of_fmap in Hp as (k & Hpk & Hk'). rewrite Hpk in Ha.
    assert (Hb : forallb (fun k => negb (bool_decide (lit k ∈ ALLOWED_KINDS)))
      ["variable_assignment"; "file_redirect"; "herestring_redirect"]%string = true) by (by vm_compute).
    apply list_elem_of_In in Hk'. apply (proj1 (forallb_forall _ _) Hb) in Hk'. by rewrite Ha in Hk'. }
  unfold parse_plain_command_from_node, parse_literal_command_from_node.
  destruct (is_kind n "command"); [|done]. cbn [negb]. rewrite Hc. cbn [app].
  intros Hplain Hlit. apply mapM_Some in Hplain. apply Forall2_cons_inv_l in Hplain as (w & ws & Hw & _ & ->).
  unfold plain_word in Hw. rewrite Hk in Hw. cbn [literal_words] in Hlit. rewrite Hk in Hlit.
  destruct (head (named_children name)) as [wn|]; [|done]. cbn [mbind option_bind] in Hw, Hlit.
  destruct (is_kind wn "word") eqn:Ewn; cbn [negb] in Hw; [|done].
  assert (Hlw : parse_literal_shell_word wn = if is_literal_word_or_number wn then utf8_text wn else None).
  { destruct wn as [k nm st tx ch]. cbn [parse_literal_shell_word]. rewrite Ewn. cbn [orb andb].
    destruct (is_literal_word_or_number _); [done|]. unfold is_kind in *. cbn [kind] in *.
    apply bool_decide_eq_true in Ewn as ->. done. }
  rewrite Hlw in Hlit. destruct (is_literal_word_or_number wn); [|done]. rewrite Hw in Hlit.
  cbn [mbind option_bind app] in Hlit. apply literal_words_prefix in Hlit as [more ->]; [|done].
  by exists w, ws, more.
Qed.

Lemma named_descendant root n :
  descendant named_children root n -> descendant children root n /\ (n = root \/ is_named n = true).
Proof.
  induction 1 as [n|n c d Hc Hd [IH1 IH2]]; [split; [constructor|by left]|].
  apply list_elem_of_In, filter_In in Hc as [Hc Hn]. apply list_elem_of_In in Hc.
  split; [by apply (descendant_step _ _ c)|]. right. by destruct IH2 as [->|].
Qed.

Lemma descendant_trans next a b c : descendant next a b -> descendant next b c -> descendant next a c.
Proof. induction 1 as [|n x d Hx Hd IH]; [done|]. intros H. apply (descendant_step _ _ x); [done|by apply IH]. Qed.

(** An allowed node that looks like a command is one. *)
Lemma allowed_command n : node_allowed n = true -> is_kind n "command" = true -> is_command n = true.
Proof.
  unfold node_allowed, is_command, is_kind. intros Ha Hk. apply bool_decide_eq_true in Hk. rewrite Hk in *.
  destruct (is_named n); [by rewrite bool_decide_true|]. by vm_compute in Ha.
Qed.

Lemma find_map_none {A B} (f : A -> option B) l : (forall x, x ∈ l -> f x = None) -> find_map f l = None.
Proof.
  induction l as [|x l IH]; intros H; [done|]. cbn [find_map]. rewrite H by (by left). apply IH. intros y Hy. apply H. by right.
Qed.

(** A script all of whose plain commands are safe has no dangerous command. *)
Lemma safe_script_not_dangerous linux tree cmds levels visited :
  try_parse_word_only_commands_sequence tree = Some cmds ->
  (forall n, descendant children (root_node tree) n -> is_command n = true -> command_wf n) ->
  (forall cmd, cmd ∈ cmds -> is_safe_to_call_with_exec linux cmd = Some true) ->
  (forall d, d ∈ visited <-> descendant named_children (root_node tree) d) ->
  find_map (dangerous levels) (literal_commands visited) = None.
Proof.
  intros Hp Hwf Hsafe Hv. apply word_only_commands in Hp as (_ & Hall & Hto & _).
  apply find_map_none. intros lits Hl. unfold literal_commands in Hl.
  apply list_elem_of_omap in Hl as (n & Hn & Hlit). apply Hv, named_descendant in Hn as [Hn _].
  destruct (is_kind n "command") eqn:Hk; [|done].
  pose proof (allowed_command n (Hall n Hn) Hk) as Hc. destruct (Hto n Hn Hc) as (words & Hw & Hin).
  assert (Hch : forall c, c ∈ named_children n -> descendant children (root_node tree) c /\ is_named c = true).
  { intros c Hcn. apply list_elem_of_In, filter_In in Hcn as [Hcn Hnm]. apply list_elem_of_In in Hcn. split; [|done].
    eapply descendant_trans; [exact Hn|]. eapply descendant_step; [exact Hcn|constructor]. }
  destruct (literal_plain_name n words lits (Hwf n Hn Hc)) as (name & rest & rest' & -> & ->);
    [intros c Hcn; by apply Hall, Hch|intros c Hcn; by apply Hch|done|done|].
  destruct (safe_exec_name _ _ (Hsafe _ Hin)) as (cmd0 & args & key & [= <- <-] & Hf & Hkey).
  by apply (inert_not_dangerous _ _ _ key).
Qed.

Lemma all_safe_spec linux cmds :
  all_safe linux cmds = Some true -> forall cmd, cmd ∈ cmds -> is_safe_to_call_with_exec linux cmd = Some true.
Proof.
  induction cmds as [|c cmds IH]; intros H cmd Hc; [by apply elem_of_nil in Hc|]. cbn [all_safe] in H.
  destruct (is_safe_to_call_with_exec linux c) as [[]|] eqn:E; [|done|done].
  apply elem_of_cons in Hc as [->|Hc]; [done|by apply IH].
Qed.

Lemma zsh_as_bash_id s t : zsh_as_bash s = t -> t <> lit "bash" -> s = t.
Proof. unfold zsh_as_bash. case_bool_decide; [by intros <-|done]. Qed.

(** The shell of a script is not a program that wraps others. *)
Lemma shell_not_wrapper shell name w :
  detect_shell_type (zsh_as_bash shell) <> None -> file_name shell = Some name -> w ∈ wrapper_names -> name <> lit w.
Proof.
  intros Hd Hf Hw ->. unfold zsh_as_bash in Hd. case_bool_decide as Hz.
  - subst shell. assert (Hb : forallb (fun w => negb (bool_decide (file_name (lit "zsh") = Some (lit w)))) wrapper_names = true)
      by (by vm_compute).
    apply list_elem_of_In in Hw. apply (proj1 (forallb_forall _ _) Hb), negb_true_iff, bool_decide_eq_false in Hw. done.
  - apply Hd, (plain_not_shell shell (lit w)); [done|]. apply names_plain. rewrite map_app. apply elem_of_app. right.
    by apply list_elem_of_fmap_2.
Qed.

(** The command runs the script [zsh] with a shell. *)
Definition runs_zsh_word (command : list str) : bool :=
  match extract_bash_command command with Some (_, script) => bool_decide (script = lit "zsh") | None => false end.

(** The script of a shell invocation that was checked with [bash] for [zsh]. *)
Lemma extract_mapped command shell script :
  extract_bash_command (map zsh_as_bash command) = Some (shell, script) -> runs_zsh_word command = false ->
  exists shell0 flag, command = [shell0; flag; script] /\ shell = zsh_as_bash shell0 /\ detect_shell_type shell <> None.
Proof.
  unfold runs_zsh_word, extract_bash_command. destruct command as [|s0 [|flag [|scr [|]]]]; try done. cbn [map].
  assert (Hflag : forall w, w <> lit "zsh" -> w <> lit "bash" -> bool_decide (zsh_as_bash flag = w) = bool_decide (flag = w)).
  { intros w Hw Hb. apply bool_decide_ext. unfold zsh_as_bash. case_bool_decide; [|done]. split; congruence. }
  rewrite !Hflag by discriminate.
  destruct (negb (bool_decide _ || _)); [done|]. cbn [orb]. destruct (negb _) eqn:Ed; [done|].
  assert (Hs : match detect_shell_type s0 with Some Zsh | Some Bash | Some Sh => true | _ => false end = true).
  { unfold zsh_as_bash in Ed. case_bool_decide as Hz; [by subst s0|]. by apply negb_false_iff in Ed. }
  rewrite Hs. cbn [negb]. intros [= <- <-] Hz. apply bool_decide_eq_false in Hz. exists s0, flag. split; [|split; [done|]].
  - do 3 f_equal. unfold zsh_as_bash. by rewrite bool_decide_false.
  - destruct (detect_shell_type (zsh_as_bash s0)); [done|]. done.
Qed.

Lemma script_clean linux tree cmds levels shell flag script :
  try_parse_shell script = Some tree ->
  try_parse_word_only_commands_sequence tree = Some cmds ->
  (forall n, descendant children (root_node tree) n -> is_command n = true -> command_wf n) ->
  (forall cmd, cmd ∈ cmds -> is_safe_to_call_with_exec linux cmd = Some true) ->
  match parse_shell_lc_literal_commands try_parse_shell [shell; flag; script] with
  | Some commands => find_map (dangerous levels) commands
  | None => None
  end = None.
Proof.
  intros Ht Hp Hwf Hall. unfold parse_shell_lc_literal_commands.
  destruct (extract_bash_command [shell; flag; script]) as [[sh scr]|] eqn:E; [|done]. cbn [mbind option_bind].
  assert (scr = script) as -> by (unfold extract_bash_command in E; case_match; congruence).
  rewrite Ht. cbn [mbind option_bind]. destruct (has_error tree); [done|].
  destruct (walk_named_spec (root_node tree)) as (visited & -> & Hv). cbn [mbind option_bind].
  by apply (safe_script_not_dangerous linux tree cmds).
Qed.

(** The syntax trees without errors follow bash's grammar for simple commands. *)
Definition bash_grammar : Prop :=
  forall script tree n, try_parse_shell script = Some tree -> has_error tree = false ->
    descendant children (root_node tree) n -> is_command n = true -> command_wf n.

Lemma known_safe_harmless linux command :
  bash_grammar ->
  runs_zsh_word command = false ->
  is_known_safe_command linux try_parse_shell command = Some true ->
  dangerous_command_match try_parse_shell command = None.
Proof.
  intros Hgrammar Hz. unfold is_known_safe_command, dangerous_command_match.
  destruct (is_safe_to_call_with_exec linux (map zsh_as_bash command)) as [[]|] eqn:Es; [| |done].
  - intros _. destruct (safe_exec_name _ _ Es) as (cmd0 & args & name & Hc & Hf & Hn).
    destruct command as [|c0 rest]; [done|]. injection Hc as Hc0 _.
    assert (c0 = cmd0) as ->.
    { apply zsh_as_bash_id; [done|]. intros ->. vm_compute in Hf. injection Hf as <-.
      apply (bool_decide_eq_true (lit "bash" ∈ map lit safe_names)) in Hn. by vm_compute in Hn. }
    by apply (inert_not_dangerous _ _ _ name).
  - unfold parse_shell_lc_plain_commands.
    destruct (extract_bash_command (map zsh_as_bash command)) as [[shell script]|] eqn:Ee; [|done]. cbn [mbind option_bind].
    destruct (try_parse_shell script) as [tree|] eqn:Et; [|done]. cbn [mbind option_bind].
    destruct (try_parse_word_only_commands_sequence tree) as [cmds|] eqn:Ep; [|done].
    pose proof (proj1 (word_only_commands _ _ Ep)) as Herr.
    case_bool_decide; [done|]. intros Hsafe. pose proof (all_safe_spec linux cmds Hsafe) as Hall.
    destruct (extract_mapped _ _ _ Ee Hz) as (shell0 & flag & -> & -> & Hd).
    cbn [dangerous_command_match_with_levels]. unfold executable_name_lookup_key.
    destruct (file_name shell0) as [name|] eqn:Hf.
    2: { cbv iota. apply (script_clean linux tree cmds); try done. intros n. by apply (Hgrammar script). }
    rewrite !bool_decide_false by (apply (shell_not_wrapper shell0 name); [done|done|];
      unfold wrapper_names; repeat first [apply list_elem_of_here | apply list_elem_of_further]).
    cbn [andb]. apply (script_clean linux tree cmds); try done. intros n. by apply (Hgrammar script).
Qed.

(** C31: the two classifications never contradict each other: a command that is known to be safe, directly or
    as a shell script, matches no rule for dangerous commands, at any depth of wrappers and nested scripts.
    The syntax trees without errors are assumed to follow bash's grammar for simple commands: one command name, preceded
    by assignments and redirections only.  An invocation of a shell with the script [zsh] is excluded, since
    the two classifications look at different scripts for it. *)
Theorem safe_not_dangerous linux command :
  bash_grammar -> runs_zsh_word command = false ->
  is_known_safe_command linux try_parse_shell command = Some true ->
  dangerous_command_match try_parse_shell command = None.
Proof. apply known_safe_harmless. Qed.
End disjoint.

(** The tree of [ls -a && pwd] follows the grammar. *)
Lemma example_grammar script tree n :
  example_parser script = Some tree -> has_error tree = false -> descendant children (root_node tree) n -> is_command n = true ->
  command_wf n.
Proof.
  unfold example_parser. case_bool_decide; [|done]. intros [= <-] _ Hn Hc.
  destruct (walk_children_spec (root_node example_tree)) as (visited & Hw & Hv). apply Hv in Hn.
  vm_compute in Hw. injection Hw as <-.
  repeat (apply elem_of_cons in Hn as [->|Hn]; [first
    [ by vm_compute in Hc
    | exists [], (mkNode (lit "command_name") true 0 (Some (lit "ls")) [word_node 0 "ls"]), [word_node 3 "-a"];
      by (repeat split; repeat constructor)
    | exists [], (mkNode (lit "command_name") true 9 (Some (lit "pwd")) [word_node 9 "pwd"]), [];
      by (repeat split; repeat constructor) ]|]).
  by apply elem_of_nil in Hn.
Qed.

Lemma safe_not_dangerous_witness :
  let command := map lit ["bash"; "-lc"; "ls -a && pwd"]%string in
  is_known_safe_command true example_parser command = Some true /\
  dangerous_command_match example_parser command = None.
Proof.
  intros command. assert (H : is_known_safe_command true example_parser command = Some true) by (by vm_compute).
  split; [exact H|]. apply (safe_not_dangerous example_parser true command).
  - exact example_grammar.
  - by vm_compute.
  - exact H.
Defined.

(** ** Further facts *)

Lemma is_safe_git_command_total command : exists b, is_safe_git_command command = Some b.
Proof.
  unfold is_safe_git_command, find_git_subcommand. destruct command as [|name rest]; [by eexists|].
  cbn [head mbind option_bind List.tl]. destruct (negb _); [by eexists|].
  destruct (find_subcommand_from 1 false rest safe_git_subcommands) as [[i sub]|] eqn:E; [|by eexists].
  destruct (find_subcommand_sound _ _ _ _ _ _ E) as (globals & args & -> & -> & _).
  destruct (git_parts name globals sub args) as (-> & _). case_match; by eexists.
Qed.

Lemma is_safe_to_call_with_exec_total linux command : exists b, is_safe_to_call_with_exec linux command = Some b.
Proof.
  unfold is_safe_to_call_with_exec. repeat case_match; try by eexists. apply is_safe_git_command_total.
Qed.

(** Classifying a command never panics. *)
Lemma is_known_safe_command_total linux try_parse_shell command :
  exists b, is_known_safe_command linux try_parse_shell command = Some b.
Proof.
  unfold is_known_safe_command.
  destruct (is_safe_to_call_with_exec_total linux (map zsh_as_bash command)) as [[] ->]; [by eexists|].
  destruct (parse_shell_lc_plain_commands _ _) as [cmds|]; [|by eexists]. case_bool_decide as Hn; [by eexists|]. clear Hn.
  induction cmds as [|c cmds IH]; [by eexists|]. cbn [all_safe].
  destruct (is_safe_to_call_with_exec_total linux c) as [[] ->]; [done|by eexists].
Qed.

(** The argument of [sed -n] is a line number or a range of line numbers, and [p]. *)
Lemma sed_n_arg_exact s :
  is_valid_sed_n_arg (Some s) = true <->
  exists a b, Forall (fun c => is_ascii_digit c = true) a /\ Forall (fun c => is_ascii_digit c = true) b /\ a <> [] /\
    (s = a ++ lit "p" \/ (b <> [] /\ s = a ++ [44%N] ++ b ++ lit "p")).
Proof.
  assert (Hd : forall l, forallb is_ascii_digit l = true <-> Forall (fun c => is_ascii_digit c = true) l).
  { intros l. rewrite forallb_forall, Forall_forall. by setoid_rewrite list_elem_of_In. }
  assert (Hnc : forall l, Forall (fun c => is_ascii_digit c = true) l -> 44%N ∉ l).
  { intros l Hl Hc. eapply Forall_forall in Hl; [|exact Hc]. done. }
  assert (Hne : forall l : str, negb (bool_decide (l = [])) = true <-> l <> []).
  { intros l. by rewrite negb_true_iff, bool_decide_eq_false. }
  cbn [is_valid_sed_n_arg]. split.
  - destruct (strip_suffix (lit "p") s) as [core|] eqn:E; [|done]. apply strip_suffix_Some in E as ->.
    pose proof (join_split_char 44 core) as Hj. destruct (split_char 44 core) as [|a [|b [|]]]; try done; cbn [join] in Hj; subst core.
    + rewrite andb_true_iff, Hne, Hd. intros [Ha Hda]. exists a, []. split; [done|]. split; [constructor|]. split; [done|by left].
    + rewrite !andb_true_iff, !Hne, !Hd. intros (((Ha & Hb) & Hda) & Hdb). exists a, b.
      split; [done|]. split; [done|]. split; [done|]. right. split; [done|]. by rewrite <- !app_assoc.
  - intros (a & b & Ha & Hb & Hna & [->|[Hnb ->]]).
    + rewrite (proj2 (strip_suffix_Some (lit "p") _ a) eq_refl), (split_char_free 44 a) by (by apply Hnc).
      by rewrite andb_true_iff, Hne, Hd.
    + replace (a ++ [44%N] ++ b ++ lit "p") with ((a ++ 44%N :: b) ++ lit "p") by (by rewrite <- app_assoc).
      rewrite (proj2 (strip_suffix_Some (lit "p") _ (a ++ 44%N :: b)) eq_refl), split_char_app by (by apply Hnc).
      rewrite (split_char_free 44 b) by (by apply Hnc). by rewrite !andb_true_iff, !Hne, !Hd.
Qed.

(** The option [-z] of ripgrep is refused, but not when it is combined with another short option. *)
Example rg_combined_option_accepted :
  is_safe_to_call_with_exec true (map lit ["rg"; "-z"; "foo"]%string) = Some false /\
  is_safe_to_call_with_exec true (map lit ["rg"; "-nz"; "foo"]%string) = Some true.
Proof. by vm_compute. Qed.

End CommandSafety.
