(* ===== verification/Permissions.v ===== *)
(** * Filesystem permissions: protocol/src/permissions.rs and models.rs

    The split filesystem policy of a session: entries that grant or deny access to paths, how they are
    resolved against the working directory, and the decision whether a path may be read or written.
    What the process observes of its host (the home and working directories, [TMPDIR], the file system)
    is a record [Os], an argument of the definitions that look at it.  Paths are texts compared the way
    [std::path] compares them, by components; the Windows branches are not modelled. *)

From S2P Require Import Prelude Text AbsolutePath.

Module Permissions.
Import AbsolutePath.

(** ** std::path and the host *)

(** [PathBuf == PathBuf]. *)
Definition path_eqb (a b : str) : bool := bool_decide (components a = components b).

(** [Path::strip_prefix], as the components that remain. *)
Fixpoint strip_components (p b : list Component) : option (list Component) :=
  match b, p with
  | [], _ => Some p
  | y :: b, x :: p => if bool_decide (x = y) then strip_components p b else None
  | _ :: _, [] => None
  end.

Definition path_strip_prefix (path base : str) : option (list Component) :=
  strip_components (components path) (components base).

(** [Path::starts_with]. *)
Definition path_starts_with (path base : str) : bool := bool_decide (is_Some (path_strip_prefix path base)).

(** [Path::ancestors] of a path in normal form: each parent is shorter. *)
Fixpoint ancestors_at (fuel : nat) (path : str) : list str :=
  path :: match fuel, parent_of path with
          | S fuel, Some parent => ancestors_at fuel parent
          | _, _ => []
          end.
Definition ancestors (path : str) : list str := ancestors_at (length path) path.

(** What the code reads of its host. *)
Record Os := {
  home_dir : option str;
  current_dir : option str;
  tmpdir : option str;
  is_dir : str -> bool;
  is_file : str -> bool;
  path_exists : str -> bool;
  read_to_string : str -> option str;
  (** [std::fs::symlink_metadata]: whether the file, when there is one, is a symbolic link. *)
  symlink_metadata : str -> option bool;
  canonicalize : str -> option str
}.

(** ** Data *)

(** [codex-rs/protocol/src/permissions.rs:22-25 PROTECTED_METADATA_GIT_PATH_NAME] *)
Definition GIT : str := lit ".git".
Definition AGENTS : str := lit ".agents".
Definition CODEWITH : str := lit ".codewith".
Definition CODEX : str := lit ".codex".

(** [codex-rs/protocol/src/permissions.rs:28-33 PROTECTED_METADATA_PATH_NAMES] *)
Definition PROTECTED_METADATA_PATH_NAMES : list str := [GIT; AGENTS; CODEWITH; CODEX].

(** [codex-rs/protocol/src/permissions.rs:84-90 NetworkSandboxPolicy] *)
Inductive NetworkSandboxPolicy := NetRestricted | NetEnabled.

(** [codex-rs/protocol/src/permissions.rs:93-95 NetworkSandboxPolicy::is_enabled] *)
Definition is_enabled (self : NetworkSandboxPolicy) : bool := match self with NetEnabled => true | _ => false end.

(** [codex-rs/protocol/src/permissions.rs:118-126 FileSystemAccessMode] *)
Inductive FileSystemAccessMode := Read | Write | Deny.

#[global] Instance FileSystemAccessMode_eq_dec : EqDecision FileSystemAccessMode.
Proof. solve_decision. Defined.

(** The derived order: the order of the constructors. *)
Definition access_rank (a : FileSystemAccessMode) : nat := match a with Read => 0 | Write => 1 | Deny => 2 end.

(** [codex-rs/protocol/src/permissions.rs:129-131 FileSystemAccessMode::can_read] *)
Definition can_read (self : FileSystemAccessMode) : bool := match self with Deny => false | _ => true end.

(** [codex-rs/protocol/src/permissions.rs:133-135 FileSystemAccessMode::can_write] *)
Definition can_write (self : FileSystemAccessMode) : bool := match self with Write => true | _ => false end.

(** [codex-rs/protocol/src/permissions.rs:138-166 FileSystemSpecialPath] *)
Inductive FileSystemSpecialPath :=
  | Root
  | Minimal
  | ProjectRoots (subpath : option str)
  | Tmpdir
  | SlashTmp
  | Unknown (path : str) (subpath : option str).

(** [codex-rs/protocol/src/permissions.rs:341-356 FileSystemPath] *)
Inductive FileSystemPath :=
  | Path (path : str)
  | GlobPattern (pattern : str)
  | Special (value : FileSystemSpecialPath).

(** [codex-rs/protocol/src/permissions.rs:181-185 FileSystemSandboxEntry] *)
Record FileSystemSandboxEntry := mkEntry { entry_path : FileSystemPath; entry_access : FileSystemAccessMode }.

(** [codex-rs/protocol/src/permissions.rs:190-197 FileSystemSandboxKind] *)
Inductive FileSystemSandboxKind := Restricted | Unrestricted | ExternalSandbox.

#[global] Instance FileSystemSandboxKind_eq_dec : EqDecision FileSystemSandboxKind.
Proof. solve_decision. Defined.

(** [codex-rs/protocol/src/permissions.rs:199-207 FileSystemSandboxPolicy] *)
Record FileSystemSandboxPolicy := mkPolicy {
  sandbox_kind : FileSystemSandboxKind;
  glob_scan_max_depth : option N;
  entries : list FileSystemSandboxEntry
}.

(** [codex-rs/protocol/src/permissions.rs:209-213 ResolvedFileSystemEntry] *)
Record ResolvedFileSystemEntry := mkResolved { resolved_path : str; resolved_access : FileSystemAccessMode }.

(** Equality of optional subpaths, which are [PathBuf]s. *)
Definition opt_path_eqb (a b : option str) : bool :=
  match a, b with Some a, Some b => path_eqb a b | None, None => true | _, _ => false end.

(** The derived equality of special paths, of paths and of entries. *)
Definition special_eqb (a b : FileSystemSpecialPath) : bool :=
  match a, b with
  | Root, Root | Minimal, Minimal | Tmpdir, Tmpdir | SlashTmp, SlashTmp => true
  | ProjectRoots a, ProjectRoots b => opt_path_eqb a b
  | Unknown p a, Unknown q b => bool_decide (p = q) && opt_path_eqb a b
  | _, _ => false
  end.

Definition fs_path_eqb (a b : FileSystemPath) : bool :=
  match a, b with
  | Path a, Path b => path_eqb a b
  | GlobPattern a, GlobPattern b => bool_decide (a = b)
  | Special a, Special b => special_eqb a b
  | _, _ => false
  end.

Definition entry_eqb (a b : FileSystemSandboxEntry) : bool :=
  fs_path_eqb (entry_path a) (entry_path b) && bool_decide (entry_access a = entry_access b).

(** [codex-rs/protocol/src/permissions.rs:364-371 read_only_file_system_entries] *)
Definition read_only_file_system_entries : list FileSystemSandboxEntry := [mkEntry (Special Root) Read].

(** [codex-rs/protocol/src/permissions.rs:400-406 FileSystemSandboxPolicy::restricted] *)
Definition restricted (es : list FileSystemSandboxEntry) : FileSystemSandboxPolicy := mkPolicy Restricted None es.

(** [codex-rs/protocol/src/permissions.rs:384-390 FileSystemSandboxPolicy::unrestricted] *)
Definition unrestricted : FileSystemSandboxPolicy := mkPolicy Unrestricted None [].

(** [codex-rs/protocol/src/permissions.rs:392-398 FileSystemSandboxPolicy::external_sandbox] *)
Definition external_sandbox : FileSystemSandboxPolicy := mkPolicy ExternalSandbox None [].

(** [codex-rs/protocol/src/permissions.rs:380-382 FileSystemSandboxPolicy::read_only] *)
Definition read_only : FileSystemSandboxPolicy := restricted read_only_file_system_entries.

Definition is_restricted (self : FileSystemSandboxPolicy) : bool := bool_decide (sandbox_kind self = Restricted).

Definition with_entries (self : FileSystemSandboxPolicy) (es : list FileSystemSandboxEntry) : FileSystemSandboxPolicy :=
  mkPolicy (sandbox_kind self) (glob_scan_max_depth self) es.

(** ** Resolving entries *)

(** [codex-rs/protocol/src/permissions.rs:1364-1386 special_paths_share_target] *)
Definition special_paths_share_target (left right : FileSystemSpecialPath) : bool :=
  match left, right with
  | Root, Root | Minimal, Minimal | Tmpdir, Tmpdir | SlashTmp, SlashTmp => true
  | ProjectRoots l, ProjectRoots r => opt_path_eqb l r
  | Unknown l l_subpath, Unknown r r_subpath => bool_decide (l = r) && opt_path_eqb l_subpath r_subpath
  | _, _ => false
  end.

(** [codex-rs/protocol/src/permissions.rs:1393-1402 special_path_matches_absolute_path] *)
Definition special_path_matches_absolute_path (value : FileSystemSpecialPath) (path : str) : bool :=
  match value with
  | Root => bool_decide (parent_of path = None)
  | SlashTmp => path_eqb path (lit "/tmp")
  | _ => false
  end.

(** [codex-rs/protocol/src/permissions.rs:1342-1360 file_system_paths_share_target] *)
Definition file_system_paths_share_target (left right : FileSystemPath) : bool :=
  match left, right with
  | Path l, Path r => path_eqb l r
  | Special l, Special r => special_paths_share_target l r
  | Path path, Special value | Special value, Path path => special_path_matches_absolute_path value path
  | GlobPattern l, GlobPattern r => bool_decide (l = r)
  | GlobPattern _, _ | _, GlobPattern _ => false
  end.

Section host.
Context (os : Os).

Definition abs_path (path : str) : option str := ok (from_absolute_path (home_dir os) (current_dir os) path).
Definition abs_path_join (base path : str) : str := abs_join (home_dir os) base path.

(** [codex-rs/protocol/src/permissions.rs:1411-1419 absolute_root_path_for_cwd] [None] stands for the
    panics, which an absolute path in normal form never reaches ([root_of_normal]). *)
Definition absolute_root_path_for_cwd (cwd : str) : option str := last (ancestors cwd) ≫= abs_path.

(** [codex-rs/protocol/src/permissions.rs:1459-1495 resolve_file_system_special_path] *)
Definition resolve_file_system_special_path (value : FileSystemSpecialPath) (cwd : option str) : option str :=
  match value with
  | Root | Minimal | Unknown _ _ => None
  | ProjectRoots subpath =>
      cwd ← cwd;
      match subpath with
      | Some subpath => Some (resolve_path_against_base (home_dir os) subpath cwd)
      | None => Some cwd
      end
  | Tmpdir =>
      tmpdir ← tmpdir os;
      if bool_decide (tmpdir = []) then None else abs_path tmpdir
  | SlashTmp =>
      slash_tmp ← abs_path (lit "/tmp");
      if negb (is_dir os slash_tmp) then None else Some slash_tmp
  end.

(** [codex-rs/protocol/src/permissions.rs:1293-1302 resolve_file_system_path] *)
Definition resolve_file_system_path (path : FileSystemPath) (cwd : option str) : option str :=
  match path with
  | Path path => Some path
  | GlobPattern _ => None
  | Special value => resolve_file_system_special_path value cwd
  end.

(** [codex-rs/protocol/src/permissions.rs:1304-1314 resolve_entry_path] *)
Definition resolve_entry_path (path : FileSystemPath) (cwd : option str) : option str :=
  match path with
  | Special Root => cwd ≫= absolute_root_path_for_cwd
  | _ => resolve_file_system_path path cwd
  end.

(** [codex-rs/protocol/src/permissions.rs:1328-1334 resolve_candidate_path] *)
Definition resolve_candidate_path (path cwd : str) : option str :=
  if is_absolute path then abs_path path
  else cwd ← abs_path cwd; Some (abs_path_join cwd path).

Definition resolve_entry (cwd : option str) (entry : FileSystemSandboxEntry) : option ResolvedFileSystemEntry :=
  (fun path => mkResolved path (entry_access entry)) <$> resolve_entry_path (entry_path entry) cwd.

(** [codex-rs/protocol/src/permissions.rs:1228-1241 FileSystemSandboxPolicy::resolved_entries_with_cwd] *)
Definition resolved_entries_with_cwd (self : FileSystemSandboxPolicy) (cwd : str) : list ResolvedFileSystemEntry :=
  omap (resolve_entry (abs_path cwd)) (entries self).

(** [codex-rs/protocol/src/permissions.rs:1406-1409 resolved_entry_precedence] *)
Definition resolved_entry_precedence (entry : ResolvedFileSystemEntry) : nat * FileSystemAccessMode :=
  (length (components (resolved_path entry)), resolved_access entry).

(** The order of the keys: lexicographic. *)
Definition precedence_le (a b : nat * FileSystemAccessMode) : bool :=
  (fst a <? fst b) || ((fst a =? fst b) && (access_rank (snd a) <=? access_rank (snd b))).

(** [Iterator::max_by_key]: the last of the greatest elements. *)
Definition max_step (best : option ResolvedFileSystemEntry) (entry : ResolvedFileSystemEntry)
    : option ResolvedFileSystemEntry :=
  match best with
  | Some b => if precedence_le (resolved_entry_precedence b) (resolved_entry_precedence entry)
              then Some entry else best
  | None => Some entry
  end.
Definition max_by_precedence (l : list ResolvedFileSystemEntry) : option ResolvedFileSystemEntry :=
  foldl max_step None l.

(** [codex-rs/protocol/src/permissions.rs:661-679 FileSystemSandboxPolicy::resolve_access_with_cwd] *)
Definition resolve_access_with_cwd (self : FileSystemSandboxPolicy) (path cwd : str) : FileSystemAccessMode :=
  match sandbox_kind self with
  | Unrestricted | ExternalSandbox => Write
  | Restricted =>
      match resolve_candidate_path path cwd with
      | None => Deny
      | Some path =>
          default Deny (resolved_access <$>
            max_by_precedence (List.filter (fun entry => path_starts_with path (resolved_path entry))
                                           (resolved_entries_with_cwd self cwd)))
      end
  end.

(** [codex-rs/protocol/src/permissions.rs:681-683 FileSystemSandboxPolicy::can_read_path_with_cwd] *)
Definition can_read_path_with_cwd (self : FileSystemSandboxPolicy) (path cwd : str) : bool :=
  can_read (resolve_access_with_cwd self path cwd).
End host.

(** ** Full access *)

(** [codex-rs/protocol/src/permissions.rs:408-417 FileSystemSandboxPolicy::has_root_access] *)
Definition has_root_access (self : FileSystemSandboxPolicy) (predicate : FileSystemAccessMode -> bool) : bool :=
  is_restricted self &&
  existsb (fun entry => match entry_path entry with Special Root => predicate (entry_access entry) | _ => false end)
    (entries self).

(** [codex-rs/protocol/src/permissions.rs:419-425 FileSystemSandboxPolicy::has_denied_read_restrictions] *)
Definition has_denied_read_restrictions (self : FileSystemSandboxPolicy) : bool :=
  is_restricted self && existsb (fun entry => bool_decide (entry_access entry = Deny)) (entries self).

(** [codex-rs/protocol/src/permissions.rs:516-522 FileSystemSandboxPolicy::has_same_target_write_override] *)
Definition has_same_target_write_override (self : FileSystemSandboxPolicy) (entry : FileSystemSandboxEntry) : bool :=
  existsb (fun candidate =>
    can_write (entry_access candidate) &&
    (access_rank (entry_access entry) <? access_rank (entry_access candidate)) &&
    file_system_paths_share_target (entry_path candidate) (entry_path entry)) (entries self).

(** [codex-rs/protocol/src/permissions.rs:493-512 FileSystemSandboxPolicy::has_write_narrowing_entries] *)
Definition has_write_narrowing_entries (self : FileSystemSandboxPolicy) : bool :=
  is_restricted self &&
  existsb (fun entry =>
    if can_write (entry_access entry) then false
    else match entry_path entry with
         | Path _ => negb (has_same_target_write_override self entry)
         | GlobPattern _ => true
         | Special value =>
             match value with
             | Root => bool_decide (entry_access entry = Deny)
             | Minimal | Unknown _ _ => false
             | _ => negb (has_same_target_write_override self entry)
             end
         end) (entries self).

(** [codex-rs/protocol/src/permissions.rs:626-634 FileSystemSandboxPolicy::has_full_disk_read_access] *)
Definition has_full_disk_read_access (self : FileSystemSandboxPolicy) : bool :=
  match sandbox_kind self with
  | Unrestricted | ExternalSandbox => true
  | Restricted => has_root_access self can_read && negb (has_denied_read_restrictions self)
  end.

(** [codex-rs/protocol/src/permissions.rs:637-645 FileSystemSandboxPolicy::has_full_disk_write_access] *)
Definition has_full_disk_write_access (self : FileSystemSandboxPolicy) : bool :=
  match sandbox_kind self with
  | Unrestricted | ExternalSandbox => true
  | Restricted => has_root_access self can_write && negb (has_write_narrowing_entries self)
  end.

(** [codex-rs/protocol/src/permissions.rs:648-659 FileSystemSandboxPolicy::include_platform_defaults] *)
Definition include_platform_defaults (self : FileSystemSandboxPolicy) : bool :=
  negb (has_full_disk_read_access self) && is_restricted self &&
  existsb (fun entry => match entry_path entry with Special Minimal => can_read (entry_access entry) | _ => false end)
    (entries self).

(** ** Protected metadata *)

(** [codex-rs/protocol/src/permissions.rs:1723-1728 metadata_path_name] *)
Definition metadata_path_name (name : str) : option str :=
  List.find (fun metadata_name => bool_decide (name = metadata_name)) PROTECTED_METADATA_PATH_NAMES.

(** [codex-rs/protocol/src/permissions.rs:36-40 is_protected_metadata_name] *)
Definition is_protected_metadata_name (name : str) : bool :=
  existsb (fun metadata_name => bool_decide (name = metadata_name)) PROTECTED_METADATA_PATH_NAMES.

(** [codex-rs/protocol/src/permissions.rs:42-46 is_protected_metadata_directory_name] *)
Definition is_protected_metadata_directory_name (name : str) : bool :=
  bool_decide (name = AGENTS) || bool_decide (name = CODEWITH) || bool_decide (name = CODEX).

Section metadata.
Context (os : Os).

Definition metadata_child (target : str) (entry : ResolvedFileSystemEntry) : option (str * str) :=
  relative_path ← path_strip_prefix target (resolved_path entry);
  first_component ← head relative_path;
  metadata_name ← metadata_path_name (as_os_str first_component);
  Some (abs_path_join os (resolved_path entry) metadata_name, metadata_name).

(** [codex-rs/protocol/src/permissions.rs:1730-1746 metadata_child_of_writable_root] *)
Definition metadata_child_of_writable_root (policy : FileSystemSandboxPolicy) (target cwd : str) : option (str * str) :=
  head (omap (metadata_child target)
    (List.filter (fun entry => can_write (resolved_access entry)) (resolved_entries_with_cwd os policy cwd))).

(** [codex-rs/protocol/src/permissions.rs:1803-1817 has_explicit_write_entry_for_metadata_path] *)
Definition has_explicit_write_entry_for_metadata_path (policy : FileSystemSandboxPolicy)
    (protected_metadata_path target cwd : str) : bool :=
  existsb (fun entry =>
    can_write (resolved_access entry) &&
    path_starts_with target (resolved_path entry) &&
    path_starts_with (resolved_path entry) protected_metadata_path) (resolved_entries_with_cwd os policy cwd).

(** [codex-rs/protocol/src/permissions.rs:695-715 FileSystemSandboxPolicy::is_metadata_write_denied] *)
Definition is_metadata_write_denied (self : FileSystemSandboxPolicy) (path cwd : str) : bool :=
  if negb (is_restricted self) then false
  else match resolve_candidate_path os path cwd with
       | None => true
       | Some target =>
           match metadata_child_of_writable_root self target cwd with
           | None => false
           | Some (protected_metadata_path, _) =>
               negb (has_explicit_write_entry_for_metadata_path self protected_metadata_path target cwd)
           end
       end.

(** [codex-rs/protocol/src/permissions.rs:685-693 FileSystemSandboxPolicy::can_write_path_with_cwd] *)
Definition can_write_path_with_cwd (self : FileSystemSandboxPolicy) (path cwd : str) : bool :=
  if negb (can_write (resolve_access_with_cwd os self path cwd)) then false
  else if has_full_disk_write_access self then true
  else negb (is_metadata_write_denied self path cwd).

(** [codex-rs/protocol/src/permissions.rs:50-79 forbidden_agent_metadata_write] *)
Definition forbidden_agent_metadata_write (path cwd : str) (policy : FileSystemSandboxPolicy) : option str :=
  if negb (is_restricted policy) then None
  else
    target ← resolve_candidate_path os path cwd;
    '(protected_metadata_path, metadata_name) ← metadata_child_of_writable_root policy target cwd;
    if has_explicit_write_entry_for_metadata_path policy protected_metadata_path target cwd then None
    else if negb (can_write_path_with_cwd policy target cwd) then Some metadata_name
    else None.
End metadata.

(** ** Paths *)

Lemma strip_components_Some p b r : strip_components p b = Some r <-> p = b ++ r.
Proof.
  revert p; induction b as [|y b IH]; intros [|x p]; simpl; try (split; [by intros [= ->] | by intros ->]).
  - by split.
  - case_bool_decide as E; [|split; [done | by intros [= ?]]].
    rewrite IH, E. split; [by intros -> | by intros [=]].
Qed.

Lemma path_starts_with_spec t b : path_starts_with t b = true <-> components b `prefix_of` components t.
Proof.
  unfold path_starts_with, path_strip_prefix. rewrite bool_decide_eq_true. split.
  - intros [r Hr%strip_components_Some]. by exists r.
  - intros [r Hr]. exists r. by apply strip_components_Some.
Qed.

Lemma path_eqb_spec a b : path_eqb a b = true <-> components a = components b.
Proof. unfold path_eqb. apply bool_decide_eq_true. Qed.

Lemma prefix_same_length {A} (l1 l2 l : list A) :
  l1 `prefix_of` l -> l2 `prefix_of` l -> length l1 = length l2 -> l1 = l2.
Proof.
  intros H1 H2 Hlen. destruct (prefix_weak_total l1 l2 l H1 H2) as [[k ->]|[k ->]];
    rewrite length_app in Hlen; destruct k; simpl in Hlen; by (rewrite app_nil_r || lia).
Qed.

Lemma prefix_of_longer {A} (l1 l2 l : list A) :
  l1 `prefix_of` l -> l2 `prefix_of` l -> length l1 <= length l2 -> l1 `prefix_of` l2.
Proof.
  intros H1 H2 Hlen. destruct (prefix_weak_total l1 l2 l H1 H2) as [?|[k Hk]]; [done|].
  destruct k; [by rewrite Hk, app_nil_r|]. rewrite Hk, length_app in Hlen. simpl in Hlen. lia.
Qed.

(** A path is absolute exactly when its first component is the root. *)
Lemma absolute_components path : is_absolute path = true <-> head (components path) = Some RootDir.
Proof.
  unfold components. destruct (is_absolute path); [done|]. split; [done|].
  assert (Hb : forall l, head (omap component_of l) <> Some RootDir).
  { intros l. induction l as [|p l IH]; [done|]. simpl. destruct (component_of p) as [c|] eqn:E; [|done].
    simpl. apply component_of_Some in E. naive_solver. }
  destruct (split_char SLASH path); [by intros ?%Hb|]. case_bool_decide; [done|]. by intros ?%Hb.
Qed.

Lemma normalize_components a b : components a = components b -> normalize_path a = normalize_path b.
Proof. intros H. unfold normalize_path. by rewrite H. Qed.

(** The pieces of a path below its start. *)
Definition body (path : str) : list Component := omap component_of (split_char SLASH path).

Lemma absolute_app s t : s <> [] -> is_absolute (s ++ t) = is_absolute s.
Proof. destruct s as [|c s]; [done|]. intros _. rewrite <- app_comm_cons. unfold is_absolute, starts_with, strip_prefix. by destruct (N.eqb SLASH c). Qed.

Lemma components_absolute s : is_absolute s = true -> components s = RootDir :: body s.
Proof. intros Hs. unfold components. by rewrite Hs. Qed.

Lemma components_push_abs base path :
  is_absolute base = true -> is_absolute path = false -> components (push base path) = components base ++ body path.
Proof.
  intros Hb Hp. unfold push. rewrite Hp.
  assert (Hne : base <> []) by by intros ->. rewrite bool_decide_false by done. simpl.
  destruct (ends_with [SLASH] base) eqn:E.
  - unfold ends_with in E. case_match eqn:E'; [|done]. apply strip_suffix_Some in E'. subst base.
    rewrite (components_absolute (l ++ [SLASH])), components_absolute by (done || by rewrite absolute_app).
    unfold body. rewrite <- app_assoc. simpl. rewrite !split_char_join, !omap_app. simpl. by rewrite app_nil_r.
  - rewrite (components_absolute base), components_absolute by (done || by rewrite absolute_app).
    unfold body. simpl. by rewrite split_char_join, omap_app.
Qed.

Lemma body_trim r : body (trim_start_by (N.eqb SLASH) r) = body r /\ is_absolute (trim_start_by (N.eqb SLASH) r) = false.
Proof.
  induction r as [|c r IH]; [done|]. cbn [trim_start_by]. destruct (N.eqb_spec SLASH c) as [<-|Hc].
  - destruct IH as [-> ?]. split; [done|done].
  - split; [done|]. apply starts_with_false. intros r' [= ->]. done.
Qed.

(** The components a path resolves to: those of the home directory for a leading [~], those of the
    base below them otherwise. *)
Definition resolved_components (home : option str) (base : str) (cs : list Component) : list Component :=
  match cs, home with
  | RootDir :: _, _ => cs
  | CurDir :: cs', _ => components base ++ cs'
  | Normal n :: cs', Some h => if bool_decide (n = lit "~") then components h ++ cs' else components base ++ cs
  | _, _ => components base ++ cs
  end.

Lemma relative_components path : is_absolute path = false ->
  components path = (if bool_decide (head (split_char SLASH path) = Some (lit ".")) then [CurDir] else []) ++ body path.
Proof.
  intros Hp. unfold components, body. rewrite Hp. pose proof (split_char_nonempty SLASH path).
  destruct (split_char SLASH path) as [|p ps]; [done|]. simpl. by repeat case_bool_decide; simplify_eq.
Qed.

Lemma tilde_piece path :
  head (split_char SLASH path) = Some (lit "~") <-> path = lit "~" \/ exists r, path = lit "~" ++ SLASH :: r.
Proof.
  split.
  - intros Hh. pose proof (join_split_char SLASH path) as Hj. destruct (split_char SLASH path) as [|p ps]; [done|].
    injection Hh as ->. destruct ps as [|q ps]; [by left | right]. rewrite join_cons in Hj by done. eauto.
  - intros [->|[r ->]]; [done|]. by rewrite split_char_join.
Qed.

Lemma resolve_components_eq home path base :
  (forall h, home = Some h -> is_absolute h = true) -> is_absolute base = true ->
  components (path_with_base (maybe_expand_home_directory home path) base) =
  resolved_components home base (components path).
Proof.
  intros Hh Hb. destruct (is_absolute path) eqn:Ha.
  { rewrite expand_absolute by done. unfold path_with_base. rewrite Ha, components_absolute by done. done. }
  assert (Hplain : forall p, is_absolute p = false -> components (path_with_base p base) = components base ++ body p).
  { intros p Hp. unfold path_with_base. rewrite Hp. by apply components_push_abs. }
  destruct (decide (head (split_char SLASH path) = Some (lit "~"))) as [Ht|Ht].
  - apply tilde_piece in Ht as [->|[r ->]].
    + destruct home as [h|]; simpl; [|by rewrite Hplain].
      change (maybe_expand_home_directory (Some h) (lit "~")) with h.
      unfold path_with_base. rewrite (Hh h) by done. by rewrite app_nil_r.
    + assert (Hc : components (lit "~" ++ SLASH :: r) = Normal (lit "~") :: body r).
      { rewrite relative_components by done. unfold body. by rewrite split_char_join. }
      rewrite Hc. unfold resolved_components. destruct home as [h|].
      * unfold maybe_expand_home_directory. rewrite strip_prefix_app.
        rewrite (bool_decide_true (lit _ = _)), bool_decide_false by done.
        change (SLASH :: r) with ([SLASH] ++ r). rewrite strip_prefix_app.
        unfold path_with_base, path_join. destruct (body_trim r) as [Hbody Htr].
        rewrite push_absolute by auto. by rewrite components_push_abs, Hbody by auto.
      * by rewrite Hplain.
  - assert (He : maybe_expand_home_directory home path = path).
    { unfold maybe_expand_home_directory. destruct home as [h|]; [|done].
      destruct (strip_prefix (lit "~") path) as [l|] eqn:E; [|done]. apply strip_prefix_Some in E.
      case_bool_decide; [exfalso; apply Ht, tilde_piece; left; by subst|].
      destruct (strip_prefix [SLASH] l) as [r|] eqn:E2; [|done]. apply strip_prefix_Some in E2.
      exfalso. apply Ht, tilde_piece. right. exists r. by subst. }
    rewrite He, Hplain, (relative_components path) by done. unfold body. pose proof (split_char_nonempty SLASH path).
    destruct (split_char SLASH path) as [|p ps] eqn:Es; [done|]. simpl in *.
    case_bool_decide as Hd; simplify_eq; [done|]. unfold resolved_components. simpl.
    destruct (component_of p) as [c|] eqn:Ec; simpl.
    + apply component_of_Some in Ec as [[-> ->]| -> ]; [done|]. destruct home; [|done].
      rewrite bool_decide_false by congruence. done.
    + assert (p = []) as ->. { unfold component_of in Ec. repeat case_bool_decide; congruence. }
      destruct ps; [done|]. exfalso. pose proof (join_split_char SLASH path) as Hj. rewrite Es in Hj.
      rewrite join_cons in Hj by done. by subst path.
Qed.

Lemma resolve_same_components home a b base :
  (forall h, home = Some h -> is_absolute h = true) -> is_absolute base = true ->
  components a = components b -> resolve_path_against_base home a base = resolve_path_against_base home b base.
Proof.
  intros Hh Hb Heq. unfold resolve_path_against_base, absolutize_from.
  apply normalize_components. rewrite !resolve_components_eq by done. by rewrite Heq.
Qed.

(** ** Normal forms *)

Lemma normal_absolute p : normal_form p -> is_absolute p = true.
Proof. by intros (names & -> & _). Qed.

Lemma normal_components p : normal_form p -> exists names, components p = RootDir :: (Normal <$> names).
Proof. intros (names & -> & Hok). exists names. by apply components_render. Qed.

#[global] Instance Normal_inj : Inj (=) (=) Normal.
Proof. by intros ?? [= ->]. Qed.

Lemma normal_components_inj a b : normal_form a -> normal_form b -> components a = components b -> a = b.
Proof.
  intros (na & -> & Ha) (nb & -> & Hb). rewrite !components_render by done.
  intros [= H]. by apply list_fmap_eq_inj in H as -> ; [|apply _].
Qed.

Lemma normal_check p : is_absolute p = true -> normalize_path p = p -> normal_form p.
Proof. intros Ha Hn. destruct (normalize_absolute p Ha) as [Hr Hok]. rewrite Hn in Hr. by eexists. Qed.

Lemma normal_root : normal_form [SLASH].
Proof. by exists []. Qed.

Lemma parent_of_name names n : name_ok n -> parent_of (render (names ++ [n])) = Some (render names).
Proof.
  intros Hn. pose proof (pop_name names n Hn) as H. unfold pop in H.
  destruct (parent_of (render (names ++ [n]))) as [q|]; simpl in H; [by subst|].
  exfalso. destruct names as [|m names]; [by destruct Hn as [Hn _]; injection H as ->|].
  rewrite render_snoc in H by done. apply (f_equal length) in H. rewrite length_app in H. simpl in H. lia.
Qed.

Lemma last_ancestors fuel names :
  Forall name_ok names -> length names <= fuel -> last (ancestors_at fuel (render names)) = Some [SLASH].
Proof.
  revert fuel. induction names as [|n names IH] using rev_ind; intros fuel Hok Hlen; [by destruct fuel|].
  apply Forall_snoc in Hok as [Hok Hn]. rewrite length_app in Hlen. simpl in Hlen.
  destruct fuel as [|fuel]; [lia|]. cbn [ancestors_at]. rewrite parent_of_name by done.
  rewrite <- (IH fuel) by (done || lia). by destruct fuel.
Qed.

Lemma length_render names : Forall name_ok names -> length names <= length (render names).
Proof.
  induction names as [|n names IH] using rev_ind; intros Hok; [simpl; lia|].
  apply Forall_snoc in Hok as [Hok Hn]. specialize (IH Hok).
  assert (length (render (names ++ [n])) >= 1 + length (render names)).
  { destruct names as [|m names]; [destruct n; [by destruct Hn | simpl; lia]|].
    rewrite render_snoc by done. rewrite !length_app. simpl. lia. }
  rewrite length_app. cbn [length]. lia.
Qed.

(** The host's directories are absolute paths. *)
Definition os_wf (os : Os) : Prop :=
  (forall h, home_dir os = Some h -> is_absolute h = true) /\
  (forall d, current_dir os = Some d -> is_absolute d = true).

(** The paths of the entries are [AbsolutePathBuf]s. *)
Definition entry_wf (e : FileSystemSandboxEntry) : Prop :=
  match entry_path e with Path p => normal_form p | _ => True end.
Definition policy_wf (self : FileSystemSandboxPolicy) : Prop := Forall entry_wf (entries self).

Section wf.
Context (os : Os) (Hos : os_wf os).

Lemma abs_path_normal p c : abs_path os p = Some c -> normal_form c.
Proof.
  unfold abs_path, from_absolute_path, absolutize. destruct Hos as [_ Hd].
  destruct (is_absolute (maybe_expand_home_directory _ p)) eqn:E; simpl.
  - intros [= <-]. destruct (normalize_absolute _ E) as [-> ?]. by eexists.
  - destruct (current_dir os) as [d|]; [|done]. intros [= <-].
    unfold absolutize_from, path_with_base. rewrite E.
    destruct (normalize_absolute (path_join d (maybe_expand_home_directory (home_dir os) p))) as [-> ?]; [|by eexists].
    apply push_absolute. auto.
Qed.

Lemma abs_path_id p : normal_form p -> abs_path os p = Some p.
Proof.
  intros Hp. unfold abs_path, from_absolute_path, absolutize. rewrite expand_absolute by by apply normal_absolute.
  rewrite (normal_absolute p Hp). simpl. destruct Hp as (names & -> & Hok). by rewrite normalize_render.
Qed.

Lemma resolve_normal p base : is_absolute base = true -> normal_form (resolve_path_against_base (home_dir os) p base).
Proof.
  intros Hb. destruct (resolve_absolute (home_dir os) p base Hb) as (q & Hq & ->).
  destruct (normalize_absolute q Hq) as [-> ?]. by eexists.
Qed.

Lemma root_of_normal cwd : normal_form cwd -> absolute_root_path_for_cwd os cwd = Some [SLASH].
Proof.
  intros (names & -> & Hok). unfold absolute_root_path_for_cwd, ancestors.
  rewrite last_ancestors by (done || by apply length_render). by apply (abs_path_id [SLASH] normal_root).
Qed.

Lemma special_normal v c p :
  (forall d, c = Some d -> normal_form d) -> resolve_file_system_special_path os v c = Some p -> normal_form p.
Proof.
  intros Hc. destruct v as [| |[sub|]| | |]; simpl; try done.
  - destruct c as [d|]; [|done]. intros [= <-]. apply resolve_normal, normal_absolute. auto.
  - destruct c as [d|]; [|done]. intros [= <-]. auto.
  - destruct (tmpdir os); [|done]. simpl. case_bool_decide; [done|]. apply abs_path_normal.
  - destruct (abs_path os (lit "/tmp")) as [t|] eqn:E; [|done]. simpl. case_match; [done|].
    intros [= <-]. by eapply abs_path_normal.
Qed.

Lemma entry_normal e c p :
  entry_wf e -> (forall d, c = Some d -> normal_form d) ->
  resolve_entry_path os (entry_path e) c = Some p -> normal_form p.
Proof.
  unfold entry_wf. intros He Hc. destruct (entry_path e) as [q|g|v] eqn:E; simpl; [by intros [= <-] | done |].
  destruct v; try apply (special_normal _ c p Hc).
  destruct c as [d|]; [|done]. simpl. rewrite root_of_normal by auto. intros [= <-]. apply normal_root.
Qed.

Lemma resolved_normal self cwd e :
  policy_wf self -> e ∈ resolved_entries_with_cwd os self cwd -> normal_form (resolved_path e).
Proof.
  unfold policy_wf. rewrite Forall_forall. intros Hwf (e0 & He0 & Hr)%list_elem_of_omap.
  unfold resolve_entry in Hr. apply fmap_Some in Hr as (p & Hp & ->). simpl.
  eapply entry_normal; [by apply Hwf | | done]. intros d. apply abs_path_normal.
Qed.

Lemma candidate_normal path cwd t : resolve_candidate_path os path cwd = Some t -> normal_form t.
Proof.
  unfold resolve_candidate_path. case_match; [apply abs_path_normal|].
  destruct (abs_path os cwd) as [c|] eqn:E; [|done]. intros [= <-].
  apply resolve_normal, normal_absolute. by eapply abs_path_normal.
Qed.

Lemma candidate_id t cwd : normal_form t -> resolve_candidate_path os t cwd = Some t.
Proof. intros Ht. unfold resolve_candidate_path. rewrite normal_absolute by done. by apply abs_path_id. Qed.

Lemma join_name p n :
  normal_form p -> name_ok n -> n <> lit "~" ->
  normal_form (abs_path_join os p n) /\ components (abs_path_join os p n) = components p ++ [Normal n].
Proof.
  intros (names & -> & Hok) Hn Ht. unfold abs_path_join, abs_join.
  assert (Ha : is_absolute n = false).
  { destruct (is_absolute n) eqn:E; [|done]. apply starts_with_spec in E as [r ->]. destruct Hn. set_solver. }
  assert (Hc : components n = [Normal n]).
  { rewrite relative_components by done. unfold body. rewrite split_char_free by by destruct Hn. simpl.
    destruct Hn as [Hn _]. rewrite Hn. rewrite bool_decide_false; [done|]. by intros [= ->]. }
  assert (Hrel : resolve_path_against_base (home_dir os) n (render names) = render (names ++ [n])).
  { unfold resolve_path_against_base, absolutize_from.
    rewrite (normalize_components _ (render (names ++ [n]))); [by apply normalize_render, Forall_snoc|].
    rewrite resolve_components_eq by (done || apply (proj1 Hos)). rewrite Hc. unfold resolved_components.
    rewrite !components_render by (try apply Forall_snoc; done). rewrite fmap_app.
    destruct (home_dir os); [|done]. by rewrite bool_decide_false. }
  rewrite Hrel. split; [eexists; split; [done|]; by apply Forall_snoc|].
  rewrite !components_render by (try apply Forall_snoc; done). by rewrite fmap_app.
Qed.
End wf.

(** ** The entry that decides *)

Definition covering (l : list ResolvedFileSystemEntry) (target : str) : list ResolvedFileSystemEntry :=
  List.filter (fun entry => path_starts_with target (resolved_path entry)) l.

(** [m] is more specific than [e], or as specific and at least as strong. *)
Definition outranks (m e : ResolvedFileSystemEntry) : Prop :=
  length (components (resolved_path e)) < length (components (resolved_path m)) \/
  components (resolved_path e) = components (resolved_path m) /\
  access_rank (resolved_access e) <= access_rank (resolved_access m).

Lemma covering_elem l t e :
  e ∈ covering l t <-> e ∈ l /\ components (resolved_path e) `prefix_of` components t.
Proof. unfold covering. rewrite list_elem_of_In, filter_In, <- list_elem_of_In. by rewrite path_starts_with_spec. Qed.

Lemma precedence_le_spec a b :
  precedence_le a b = true <-> fst a < fst b \/ fst a = fst b /\ access_rank (snd a) <= access_rank (snd b).
Proof.
  unfold precedence_le. rewrite orb_true_iff, andb_true_iff, Nat.ltb_lt, Nat.eqb_eq, Nat.leb_le. done.
Qed.

Lemma max_by_precedence_spec l :
  match max_by_precedence l with
  | None => l = []
  | Some m => m ∈ l /\ forall e, e ∈ l ->
      precedence_le (resolved_entry_precedence e) (resolved_entry_precedence m) = true
  end.
Proof.
  induction l as [|x l IH] using rev_ind; [done|]. unfold max_by_precedence in *. rewrite foldl_app. simpl.
  destruct (foldl max_step None l) as [m|]; simpl.
  - destruct IH as [Hm IH].
    destruct (precedence_le (resolved_entry_precedence m) (resolved_entry_precedence x)) eqn:E.
    + split; [set_solver|]. intros e [He| ->%list_elem_of_singleton]%elem_of_app.
      * specialize (IH e He). rewrite precedence_le_spec in *. lia.
      * rewrite precedence_le_spec. lia.
    + split; [set_solver|]. intros e [He| ->%list_elem_of_singleton]%elem_of_app; [auto|].
      apply not_true_iff_false in E. rewrite precedence_le_spec in *. lia.
  - subst. split; [set_solver|]. intros e ->%list_elem_of_singleton. rewrite precedence_le_spec. lia.
Qed.

Lemma winner_spec l t :
  match max_by_precedence (covering l t) with
  | None => covering l t = []
  | Some m => m ∈ covering l t /\ forall e, e ∈ covering l t -> outranks m e
  end.
Proof.
  pose proof (max_by_precedence_spec (covering l t)) as H. destruct max_by_precedence as [m|]; [|done].
  destruct H as [Hm H]. split; [done|]. intros e He. specialize (H e He). rewrite precedence_le_spec in H.
  simpl in H. destruct H as [H|[H1 H2]]; [by left | right]. split; [|done].
  apply covering_elem in Hm as [_ Hm], He as [_ He]. by eapply prefix_same_length.
Qed.

Lemma winner_unique m m' :
  outranks m m' -> outranks m' m -> resolved_access m = resolved_access m'.
Proof.
  intros [?|[H1 H2]] [?|[H3 H4]]; try lia; try (rewrite H1 in *; lia); try (rewrite H3 in *; lia).
  destruct (resolved_access m), (resolved_access m'); simpl in *; done || lia.
Qed.

Section access.
Context (os : Os).

Lemma restricted_kind self : is_restricted self = true <-> sandbox_kind self = Restricted.
Proof. apply bool_decide_eq_true. Qed.

Lemma access_cases self path cwd t :
  is_restricted self = true -> resolve_candidate_path os path cwd = Some t ->
  let es := covering (resolved_entries_with_cwd os self cwd) t in
  (es = [] /\ resolve_access_with_cwd os self path cwd = Deny) \/
  exists m, m ∈ es /\ resolve_access_with_cwd os self path cwd = resolved_access m /\
    forall e, e ∈ es -> outranks m e.
Proof.
  intros Hk%restricted_kind Ht es. unfold resolve_access_with_cwd. rewrite Hk, Ht.
  pose proof (winner_spec (resolved_entries_with_cwd os self cwd) t) as H. unfold covering in *.
  destruct max_by_precedence as [m|]; [right | left]; naive_solver.
Qed.

Lemma unrestricted_access self path cwd : is_restricted self = false -> resolve_access_with_cwd os self path cwd = Write.
Proof.
  unfold is_restricted, resolve_access_with_cwd. intros Hr%bool_decide_eq_false. by destruct (sandbox_kind self).
Qed.

Lemma access_of_winner self path cwd t m :
  is_restricted self = true -> resolve_candidate_path os path cwd = Some t ->
  m ∈ covering (resolved_entries_with_cwd os self cwd) t ->
  (forall e, e ∈ covering (resolved_entries_with_cwd os self cwd) t -> outranks m e) ->
  resolve_access_with_cwd os self path cwd = resolved_access m.
Proof.
  intros Hk Ht Hm Hall. destruct (access_cases self path cwd t Hk Ht) as [[Hnil _]|(m' & Hm' & -> & Hall')].
  - rewrite Hnil in Hm. set_solver.
  - symmetry. apply winner_unique; auto.
Qed.

Lemma resolved_perm self self' cwd :
  entries self ≡ₚ entries self' -> resolved_entries_with_cwd os self cwd ≡ₚ resolved_entries_with_cwd os self' cwd.
Proof. intros H. unfold resolved_entries_with_cwd. by rewrite H. Qed.

Lemma access_perm self self' path cwd :
  sandbox_kind self = sandbox_kind self' -> entries self ≡ₚ entries self' ->
  resolve_access_with_cwd os self path cwd = resolve_access_with_cwd os self' path cwd.
Proof.
  intros Hk Hp. destruct (is_restricted self) eqn:Hr.
  - destruct (resolve_candidate_path os path cwd) as [t|] eqn:Ht.
    + assert (Hr' : is_restricted self' = true) by by unfold is_restricted in *; rewrite <- Hk.
      assert (Hiff : forall e, e ∈ covering (resolved_entries_with_cwd os self cwd) t <->
                               e ∈ covering (resolved_entries_with_cwd os self' cwd) t).
      { intros e. rewrite !covering_elem. by rewrite (resolved_perm self self'). }
      destruct (access_cases self path cwd t Hr Ht) as [[Hnil ->]|(m & Hm & -> & Hall)].
      * destruct (access_cases self' path cwd t Hr' Ht) as [[_ ->]|(m' & Hm' & _)]; [done|].
        apply Hiff in Hm'. rewrite Hnil in Hm'. set_solver.
      * symmetry. apply (access_of_winner self' path cwd t); naive_solver.
    + unfold resolve_access_with_cwd. rewrite Ht, <- Hk. done.
  - unfold resolve_access_with_cwd. rewrite <- Hk. unfold is_restricted in Hr.
    apply bool_decide_eq_false in Hr. by destruct (sandbox_kind self).
Qed.

(** Access to a path is decided by its most specific entry, and among entries for the same path a
    denial beats a write grant and a write grant a read grant; a path no entry covers is denied; and
    the order in which the entries are written plays no role. *)
Theorem access_most_specific self path cwd t :
  is_restricted self = true -> resolve_candidate_path os path cwd = Some t ->
  (let es := covering (resolved_entries_with_cwd os self cwd) t in
   (es = [] /\ resolve_access_with_cwd os self path cwd = Deny) \/
   exists m, m ∈ es /\ resolve_access_with_cwd os self path cwd = resolved_access m /\
     forall e, e ∈ es -> outranks m e) /\
  forall self', sandbox_kind self' = Restricted -> entries self' ≡ₚ entries self ->
    resolve_access_with_cwd os self' path cwd = resolve_access_with_cwd os self path cwd.
Proof.
  intros Hr Ht. split; [by apply access_cases|]. intros self' Hk Hp.
  apply access_perm; [|done]. rewrite Hk. symmetry. by apply restricted_kind.
Qed.
End access.

(** ** Full access *)

Section full.
Context (os : Os) (Hos : os_wf os) (cwd : str) (d : str) (Hcwd : abs_path os cwd = Some d).

Lemma resolved_elem self e :
  e ∈ resolved_entries_with_cwd os self cwd <->
  exists e0, e0 ∈ entries self /\ resolve_entry_path os (entry_path e0) (Some d) = Some (resolved_path e) /\
             resolved_access e = entry_access e0.
Proof.
  unfold resolved_entries_with_cwd. rewrite Hcwd, list_elem_of_omap. unfold resolve_entry. split.
  - intros (e0 & He0 & (p & Hp & ->)%fmap_Some). eauto.
  - intros (e0 & He0 & Hp & Ha). exists e0. split; [done|]. rewrite Hp. simpl. rewrite <- Ha. by destruct e.
Qed.

Lemma slash_tmp_path : abs_path os (lit "/tmp") = Some (lit "/tmp").
Proof.
  apply abs_path_id. exists [lit "tmp"]. split; [done|]. apply Forall_singleton.
  split; [done|]. vm_compute. set_solver.
Qed.

(** An entry that shares its target with a resolved one resolves to the same place, when [/tmp] is there. *)
Lemma shared_target w e p :
  is_dir os (lit "/tmp") = true -> entry_wf w -> entry_wf e ->
  file_system_paths_share_target (entry_path w) (entry_path e) = true ->
  resolve_entry_path os (entry_path e) (Some d) = Some p ->
  exists q, resolve_entry_path os (entry_path w) (Some d) = Some q /\ components q = components p.
Proof.
  intros Htmp Hw He. unfold entry_wf in Hw, He. pose proof (abs_path_normal os Hos _ _ Hcwd) as Hd.
  assert (Hroot : forall q, normal_form q -> bool_decide (parent_of q = None) = true -> components q = [RootDir]).
  { intros q (names & -> & Hok) Hp%bool_decide_eq_true. destruct names as [|n names _] using rev_ind; [done|].
    apply Forall_snoc in Hok as [_ Hn]. by rewrite parent_of_name in Hp. }
  assert (Hslash : resolve_file_system_special_path os SlashTmp (Some d) = Some (lit "/tmp")).
  { unfold resolve_file_system_special_path. rewrite slash_tmp_path. simpl. by rewrite Htmp. }
  destruct (entry_path w) as [q|g|v], (entry_path e) as [q'|g'|v']; simpl; try done.
  - intros Heq%path_eqb_spec [= <-]. eauto.
  - intros Hm. exists q. split; [done|]. destruct v'; try done.
    + simpl in *. rewrite root_of_normal in * by done. simplify_eq. by apply Hroot.
    + simpl in Hm. apply path_eqb_spec in Hm. rewrite Hslash in *. by simplify_eq.
  - intros Hm [= <-]. destruct v; try done.
    + exists [SLASH]. split; [by apply root_of_normal|]. symmetry. by apply Hroot.
    + exists (lit "/tmp"). split; [done|]. by apply path_eqb_spec in Hm.
  - intros Hm Hp. destruct v as [| |sub| | |], v' as [| |sub'| | |]; try done; try by eauto.
    simpl in *. destruct sub as [sub|], sub' as [sub'|]; simpl in *; try done; try by eauto.
    simplify_eq. eexists. split; [done|]. apply path_eqb_spec in Hm. f_equal.
    apply resolve_same_components; [apply Hos | by apply normal_absolute | done].
Qed.

Lemma root_entry self access :
  mkEntry (Special Root) access ∈ entries self ->
  forall t, normal_form t -> mkResolved [SLASH] access ∈ covering (resolved_entries_with_cwd os self cwd) t.
Proof.
  intros He t Ht. apply covering_elem. split.
  - apply resolved_elem. exists (mkEntry (Special Root) access). split; [done|]. split; [|done].
    by apply root_of_normal, (abs_path_normal os Hos cwd).
  - destruct (normal_components t Ht) as [names ->]. simpl. by exists (Normal <$> names).
Qed.

Lemma root_access self predicate :
  has_root_access self predicate = true ->
  exists access, mkEntry (Special Root) access ∈ entries self /\ predicate access = true.
Proof.
  unfold has_root_access. rewrite andb_true_iff, existsb_exists. intros (_ & [pth access] & He & Hp). simpl in *.
  destruct pth as [| |[]]; try done. exists access. by rewrite list_elem_of_In.
Qed.

Lemma candidate_defined path : exists t, resolve_candidate_path os path cwd = Some t.
Proof.
  unfold resolve_candidate_path. rewrite Hcwd. destruct (is_absolute path) eqn:E; [|simpl; eauto].
  unfold abs_path, from_absolute_path, absolutize. rewrite expand_absolute, E by done. simpl. eauto.
Qed.

Lemma no_narrowing self e :
  policy_wf self -> is_dir os (lit "/tmp") = true -> has_full_disk_write_access self = true ->
  is_restricted self = true ->
  forall t, normal_form t -> e ∈ covering (resolved_entries_with_cwd os self cwd) t ->
  (forall e', e' ∈ covering (resolved_entries_with_cwd os self cwd) t -> outranks e e') ->
  resolved_access e = Write.
Proof.
  intros Hwf Htmp Hfull Hr t Ht He Hmax. unfold has_full_disk_write_access in Hfull.
  rewrite (proj1 (restricted_kind self) Hr) in Hfull. apply andb_true_iff in Hfull as [Hroot Hnarrow].
  destruct (root_access self can_write Hroot) as ([] & Hra & [=]).
  specialize (Hmax _ (root_entry self Write Hra t Ht)) as Hbeat.
  pose proof (proj1 (covering_elem _ _ _) He) as [Her Hpre]. apply resolved_elem in Her as (e0 & He0 & Hp & Hacc).
  unfold has_write_narrowing_entries in Hnarrow. rewrite Hr in Hnarrow. simpl in Hnarrow.
  apply negb_true_iff, not_true_iff_false in Hnarrow. rewrite existsb_exists in Hnarrow.
  destruct (can_write (entry_access e0)) eqn:Hcan; [by rewrite Hacc; destruct (entry_access e0)|].
  assert (Hoverride : has_same_target_write_override self e0 = true -> resolved_access e = Write).
  { unfold has_same_target_write_override. rewrite existsb_exists. intros (w & Hw & Hc).
    rewrite !andb_true_iff, Nat.ltb_lt in Hc. destruct Hc as [[Hcw Hlt] Hshare].
    unfold policy_wf in Hwf. rewrite Forall_forall in Hwf.
    destruct (shared_target w e0 (resolved_path e) Htmp) as (q & Hq & Hceq); try done.
    { apply Hwf. by apply list_elem_of_In. } { by apply Hwf. }
    assert (Hwin : mkResolved q (entry_access w) ∈ covering (resolved_entries_with_cwd os self cwd) t).
    { apply covering_elem. simpl. rewrite Hceq. split; [|done]. apply resolved_elem. exists w.
      split; [by apply list_elem_of_In|]. done. }
    destruct (Hmax _ Hwin) as [Hl|[_ Hl]]; simpl in *; [rewrite Hceq in Hl; lia|]. rewrite Hacc in Hl. lia. }
  destruct (has_same_target_write_override self e0) eqn:Ho; [auto|]. exfalso. apply Hnarrow. exists e0.
  split; [by apply list_elem_of_In|]. rewrite Hcan, Ho. destruct (entry_path e0) as [| |v]; try done.
  destruct v; try done. apply bool_decide_eq_true. simpl in Hp. rewrite root_of_normal in Hp by
    (done || by eapply abs_path_normal). injection Hp as Hp. destruct Hbeat as [Hl|[_ Hl]]; simpl in *.
  - rewrite <- Hp in Hl. simpl in Hl. lia.
  - rewrite Hacc in Hl. destruct (entry_access e0); simpl in *; done || lia.
Qed.
End full.

(** A policy that reports full access gives it: when [has_full_disk_write_access] holds every path
    may be written, protected metadata included, and when [has_full_disk_read_access] holds every path
    may be read, whatever narrower entries the policy also lists. *)
Theorem full_disk_access_sound os self cwd d :
  os_wf os -> policy_wf self -> abs_path os cwd = Some d -> is_dir os (lit "/tmp") = true ->
  (has_full_disk_write_access self = true -> forall path, can_write_path_with_cwd os self path cwd = true) /\
  (has_full_disk_read_access self = true -> forall path, can_read_path_with_cwd os self path cwd = true).
Proof.
  intros Hos Hwf Hcwd Htmp. split; intros Hfull path.
  - unfold can_write_path_with_cwd. rewrite Hfull.
    assert (Hacc : resolve_access_with_cwd os self path cwd = Write); [|by rewrite Hacc].
    destruct (is_restricted self) eqn:Hr; [|by apply unrestricted_access].
    destruct (candidate_defined os cwd d Hcwd path) as [t Ht].
    pose proof (candidate_normal os Hos _ _ _ Ht) as Hn.
    destruct (access_cases os self path cwd t Hr Ht) as [[Hnil _]|(m & Hm & -> & Hmax)].
    + pose proof Hfull as Hf. unfold has_full_disk_write_access in Hf.
      rewrite (proj1 (restricted_kind self) Hr) in Hf. apply andb_true_iff in Hf as [Hroot _].
      destruct (root_access self can_write Hroot) as (a & Ha & _).
      pose proof (root_entry os Hos cwd d Hcwd self a Ha t Hn) as Hin. rewrite Hnil in Hin. set_solver.
    + by eapply no_narrowing.
  - unfold can_read_path_with_cwd.
    destruct (is_restricted self) eqn:Hr; [|by rewrite unrestricted_access].
    destruct (candidate_defined os cwd d Hcwd path) as [t Ht].
    pose proof (candidate_normal os Hos _ _ _ Ht) as Hn.
    unfold has_full_disk_read_access in Hfull. rewrite (proj1 (restricted_kind self) Hr) in Hfull.
    apply andb_true_iff in Hfull as [Hroot Hdeny].
    destruct (root_access self can_read Hroot) as (a & Ha & _).
    pose proof (root_entry os Hos cwd d Hcwd self a Ha t Hn) as Hin.
    destruct (access_cases os self path cwd t Hr Ht) as [[Hnil _]|(m & Hm & -> & Hmax)].
    { rewrite Hnil in Hin. set_solver. }
    apply covering_elem in Hm as [Hm _]. apply (resolved_elem os cwd d Hcwd) in Hm as (e0 & He0 & _ & ->).
    unfold has_denied_read_restrictions in Hdeny. rewrite Hr in Hdeny. simpl in Hdeny.
    apply negb_true_iff, not_true_iff_false in Hdeny. rewrite existsb_exists in Hdeny.
    destruct (entry_access e0) eqn:E; [done|done|]. exfalso. apply Hdeny. exists e0.
    split; [by apply list_elem_of_In | by rewrite E].
Qed.

(** ** Protected metadata *)

Lemma metadata_name_ok n : metadata_path_name n = Some n -> name_ok n /\ n <> lit "~".
Proof.
  intros H. apply find_some in H as [Hin _]. unfold PROTECTED_METADATA_PATH_NAMES in Hin. simpl in Hin.
  destruct Hin as [<-|[<-|[<-|[<-|[]]]]]; (split; [split; [done | vm_compute; set_solver] | by intros [=]]).
Qed.

Lemma metadata_name_id n m : metadata_path_name n = Some m -> m = n.
Proof. intros H. apply find_some in H as [_ H]. by apply bool_decide_eq_true in H. Qed.

Section denied.
Context (os : Os) (Hos : os_wf os) (self : FileSystemSandboxPolicy) (Hwf : policy_wf self) (cwd : str).
Let es := resolved_entries_with_cwd os self cwd.

(** [r] is a writable entry, and [t] lies at or below its metadata path [n]. *)
Definition below_metadata (r : ResolvedFileSystemEntry) (n t : str) : Prop :=
  r ∈ es /\ resolved_access r = Write /\ metadata_path_name n = Some n /\
  components (resolved_path r) ++ [Normal n] `prefix_of` components t.

(** A write entry that covers [t] from at or below the metadata path [n] of [r]. *)
Definition explicit_write (r : ResolvedFileSystemEntry) (n t : str) : Prop :=
  exists w, w ∈ es /\ resolved_access w = Write /\ components (resolved_path w) `prefix_of` components t /\
    components (resolved_path r) ++ [Normal n] `prefix_of` components (resolved_path w).

Lemma metadata_child_spec t r p n :
  normal_form t -> r ∈ es -> resolved_access r = Write ->
  metadata_child os t r = Some (p, n) <->
  below_metadata r n t /\ p = abs_path_join os (resolved_path r) n.
Proof.
  intros Ht Hr Hw. unfold metadata_child, below_metadata. split.
  - destruct (path_strip_prefix t (resolved_path r)) as [[|c rest]|] eqn:E; simpl; try done.
    apply strip_components_Some in E. destruct (metadata_path_name (as_os_str c)) as [m|] eqn:Em; [|done].
    intros [= <- <-]. pose proof (metadata_name_id _ _ Em) as ->.
    assert (Hc : c = Normal (as_os_str c)).
    { destruct (normal_components t Ht) as [names Hn]. destruct (resolved_normal os Hos self cwd r Hwf Hr) as (nr & Hr1 & Hr2).
      rewrite Hn, Hr1, components_render in E by done. injection E as E.
      apply fmap_app_inv in E as (? & ? & _ & E & _). destruct x0; [done|]. by injection E as -> _. }
    split; [|done]. split; [done|]. split; [done|]. split; [done|]. rewrite <- Hc, E. exists rest. by rewrite <- app_assoc.
  - intros [(_ & _ & Hn & rest & Hrest) ->]. unfold path_strip_prefix.
    rewrite <- app_assoc in Hrest. rewrite (proj2 (strip_components_Some _ _ _) Hrest). simpl. by rewrite Hn.
Qed.
Lemma first_metadata t :
  normal_form t ->
  match metadata_child_of_writable_root os self t cwd with
  | Some (p, n) => exists r, below_metadata r n t /\ p = abs_path_join os (resolved_path r) n
  | None => forall r n, ~ below_metadata r n t
  end.
Proof.
  intros Ht. unfold metadata_child_of_writable_root. destruct (omap _ _) as [|[p n] l] eqn:E; simpl.
  - intros r n Hb. pose proof Hb as (Hr & Hw & _).
    assert (Hin : (abs_path_join os (resolved_path r) n, n) ∈ omap (metadata_child os t)
      (List.filter (fun entry => can_write (resolved_access entry)) (resolved_entries_with_cwd os self cwd))).
    { apply list_elem_of_omap. exists r. split; [|by apply metadata_child_spec].
      rewrite list_elem_of_In, filter_In, <- list_elem_of_In. split; [done | by rewrite Hw]. }
    rewrite E in Hin. set_solver.
  - assert (Hin : (p, n) ∈ (p, n) :: l) by set_solver. rewrite <- E in Hin.
    apply list_elem_of_omap in Hin as (r & Hr & Hm). rewrite list_elem_of_In, filter_In, <- list_elem_of_In in Hr.
    destruct Hr as [Hr Hw]. exists r. apply (metadata_child_spec t r p n); try done.
    by destruct (resolved_access r).
Qed.

Lemma metadata_path_components r n t :
  below_metadata r n t ->
  components (abs_path_join os (resolved_path r) n) = components (resolved_path r) ++ [Normal n].
Proof.
  intros (Hr & _ & Hn & _). destruct (metadata_name_ok n Hn) as [Hok Htilde].
  apply join_name; try done. by eapply resolved_normal.
Qed.

Lemma explicit_write_spec r n t :
  below_metadata r n t ->
  has_explicit_write_entry_for_metadata_path os self (abs_path_join os (resolved_path r) n) t cwd = true <->
  explicit_write r n t.
Proof.
  intros Hb. unfold has_explicit_write_entry_for_metadata_path. rewrite existsb_exists.
  split.
  - intros (w & Hw & Hc). rewrite !andb_true_iff, !path_starts_with_spec, (metadata_path_components r n t) in Hc by done.
    destruct Hc as [[Hc1 Hc2] Hc3]. exists w. rewrite list_elem_of_In. split; [done|]. split; [|done].
    by destruct (resolved_access w).
  - intros (w & Hw & Ha & Hc2 & Hc3). exists w. rewrite <- list_elem_of_In. split; [done|].
    rewrite !andb_true_iff, !path_starts_with_spec, (metadata_path_components r n t) by done. by rewrite Ha.
Qed.

(** Of two metadata paths above a path, the one of the longer root is explicitly writable for the other. *)
Lemma metadata_nested r n r0 n0 t :
  below_metadata r n t -> below_metadata r0 n0 t ->
  below_metadata r0 n0 (resolved_path r) \/
  components (resolved_path r0) = components (resolved_path r) /\ n0 = n \/
  explicit_write r n t.
Proof.
  intros (Hr & Hw & Hn & Hp) (Hr0 & Hw0 & Hn0 & Hp0).
  assert (Hpr : components (resolved_path r) `prefix_of` components t) by (etrans; [by eexists | done]).
  assert (Hpr0 : components (resolved_path r0) `prefix_of` components t) by (etrans; [by eexists | done]).
  destruct (lt_eq_lt_dec (length (components (resolved_path r0))) (length (components (resolved_path r)))) as [[Hl|He]|Hl].
  - left. split; [done|]. split; [done|]. split; [done|].
    eapply prefix_of_longer; [done | done |]. rewrite length_app. simpl. lia.
  - right. left. pose proof (prefix_same_length _ _ _ Hpr0 Hpr He) as Hc. split; [done|].
    assert (Hs : components (resolved_path r0) ++ [Normal n0] = components (resolved_path r) ++ [Normal n]).
    { eapply prefix_same_length; [done | done |]. rewrite !length_app, He. done. }
    rewrite Hc in Hs. apply app_inv_head in Hs. by simplify_eq.
  - right. right. exists r0. split; [done|]. split; [done|]. split; [done|].
    eapply prefix_of_longer; [done | done |]. rewrite length_app. simpl. lia.
Qed.
End denied.

(** C3: Under a restricted policy without write access to the whole disk, with normalised entries and absolute home
    and current directories, the metadata directories of a writable entry ([.git], [.agents], [.codewith], [.codex])
    cannot be written, existing or not, unless an entry at or below them grants it, or the writable entry itself lies
    in the metadata of another one (there the order of the entries decides, see [metadata_depends_on_order]): a write
    there is refused, and reported as a forbidden metadata write. When no writable entry has a metadata path above the
    target, the entries alone decide. *)
Theorem metadata_write_denied os self cwd path t :
  os_wf os -> policy_wf self -> is_restricted self = true -> has_full_disk_write_access self = false ->
  resolve_candidate_path os path cwd = Some t ->
  (forall r n, below_metadata os self cwd r n t -> ~ explicit_write os self cwd r n t ->
     (forall w n', ~ below_metadata os self cwd w n' (resolved_path r)) ->
     can_write_path_with_cwd os self path cwd = false /\
     forbidden_agent_metadata_write os path cwd self = Some n) /\
  ((forall r n, ~ below_metadata os self cwd r n t) ->
   can_write_path_with_cwd os self path cwd = can_write (resolve_access_with_cwd os self path cwd) /\
   forbidden_agent_metadata_write os path cwd self = None).
Proof.
  intros Hos Hwf Hr Hfull Ht. pose proof (candidate_normal os Hos _ _ _ Ht) as Hn.
  pose proof (first_metadata os Hos self Hwf cwd t Hn) as Hfirst.
  unfold can_write_path_with_cwd, is_metadata_write_denied, forbidden_agent_metadata_write,
    can_write_path_with_cwd, is_metadata_write_denied.
  rewrite Hfull, Hr, Ht. simpl. rewrite candidate_id by done. simpl. split.
  - intros r n Hb Hex Houter. destruct (metadata_child_of_writable_root os self t cwd) as [[p0 n0]|];
      [|by exfalso; apply (Hfirst r n)].
    destruct Hfirst as (r0 & Hb0 & ->). simpl.
    destruct (metadata_nested os self cwd r n r0 n0 t Hb Hb0) as [Hbad|[[Hc ->]|Hbad]];
      [by exfalso; apply (Houter r0 n0) | | done].
    assert (Hexp : has_explicit_write_entry_for_metadata_path os self (abs_path_join os (resolved_path r0) n) t cwd = false).
    { apply not_true_iff_false. rewrite explicit_write_spec by done. unfold explicit_write in *. by rewrite Hc. }
    rewrite Hexp. simpl. split; by repeat (case_match; simpl).
  - intros Hnone. destruct (metadata_child_of_writable_root os self t cwd) as [[p0 n0]|]; simpl.
    + destruct Hfirst as (r0 & Hb0 & _). by exfalso; apply (Hnone r0 n0).
    + split; [|done]. by case_match; destruct (can_write _).
Qed.

(** ** Examples *)

Definition example_os : Os := {|
  home_dir := Some (lit "/home/u"); current_dir := Some (lit "/repo"); tmpdir := None;
  is_dir := fun p => bool_decide (p = lit "/tmp"); is_file := fun _ => false;
  path_exists := fun p => bool_decide (p = lit "/tmp"); read_to_string := fun _ => None;
  symlink_metadata := fun _ => None; canonicalize := fun _ => None
|}.

Lemma example_os_wf : os_wf example_os.
Proof. split; by intros ? [= <-]. Qed.

Definition workspace_entries : list FileSystemSandboxEntry :=
  [mkEntry (Special Root) Read; mkEntry (Special (ProjectRoots None)) Write; mkEntry (Path (lit "/repo/vendor")) Deny].

Lemma access_most_specific_witness :
  resolve_access_with_cwd example_os (restricted workspace_entries) (lit "vendor/x") (lit "/repo") = Deny /\
  resolve_access_with_cwd example_os (restricted workspace_entries) (lit "src/x") (lit "/repo") = Write /\
  resolve_access_with_cwd example_os (restricted (rev workspace_entries)) (lit "src/x") (lit "/repo") = Write.
Proof.
  split; [by vm_compute|]. split; [by vm_compute|].
  rewrite (proj2 (access_most_specific example_os (restricted workspace_entries) (lit "src/x") (lit "/repo")
    (lit "/repo/src/x") eq_refl ltac:(by vm_compute)) (restricted (rev workspace_entries)) eq_refl
    (symmetry (Permutation_rev workspace_entries))).
  by vm_compute.
Defined.

Definition full_write_entries : list FileSystemSandboxEntry :=
  [mkEntry (Special Root) Write; mkEntry (Path (lit "/tmp")) Read; mkEntry (Special SlashTmp) Write].

Lemma full_disk_access_sound_witness :
  can_write_path_with_cwd example_os (restricted full_write_entries) (lit "/repo/.git/config") (lit "/repo") = true.
Proof.
  apply (full_disk_access_sound example_os (restricted full_write_entries) (lit "/repo") (lit "/repo")).
  - apply example_os_wf.
  - repeat constructor. by apply normal_check.
  - by vm_compute.
  - by vm_compute.
  - by vm_compute.
Defined.

Lemma workspace_resolved w :
  w ∈ resolved_entries_with_cwd example_os (restricted workspace_entries) (lit "/repo") ->
  w = mkResolved (lit "/") Read \/ w = mkResolved (lit "/repo") Write \/ w = mkResolved (lit "/repo/vendor") Deny.
Proof.
  change (w ∈ [mkResolved (lit "/") Read; mkResolved (lit "/repo") Write; mkResolved (lit "/repo/vendor") Deny] ->
    w = mkResolved (lit "/") Read \/ w = mkResolved (lit "/repo") Write \/ w = mkResolved (lit "/repo/vendor") Deny).
  rewrite !elem_of_cons, elem_of_nil. tauto.
Qed.

Lemma metadata_write_denied_witness :
  forbidden_agent_metadata_write example_os (lit ".git/hooks/x") (lit "/repo") (restricted workspace_entries) = Some GIT.
Proof.
  refine (proj2 (proj1 (metadata_write_denied example_os (restricted workspace_entries) (lit "/repo") (lit ".git/hooks/x")
    (lit "/repo/.git/hooks/x") example_os_wf _ eq_refl _ _) (mkResolved (lit "/repo") Write) GIT _ _ _)).
  - repeat constructor. by apply normal_check.
  - by vm_compute.
  - by vm_compute.
  - split; [by apply list_elem_of_further, list_elem_of_here|]. split; [done|]. split; [done|]. by exists [Normal (lit "hooks"); Normal (lit "x")].
  - intros (w & Hw & Ha & _ & [k Hk]). by destruct (workspace_resolved w Hw) as [ -> | [ -> | -> ]].
  - intros w n' (Hw & Ha & Hn & [k Hk]). by destruct (workspace_resolved w Hw) as [ -> | [ -> | -> ]].
Defined.

(** The protection of metadata looks at the first writable entry only: whether [.git] of a writable
    directory inside another one's metadata may be written depends on the order of the entries. *)
Example metadata_depends_on_order :
  let outer := mkEntry (Path (lit "/repo")) Write in
  let inner := mkEntry (Path (lit "/repo/.codewith/worktree")) Write in
  let target := lit "/repo/.codewith/worktree/.git/config" in
  can_write_path_with_cwd example_os (restricted [outer; inner]) target (lit "/repo") = true /\
  can_write_path_with_cwd example_os (restricted [inner; outer]) target (lit "/repo") = false.
Proof. by vm_compute. Qed.

(** A write entry for the symbolic [/tmp] hides a read entry for the path [/tmp] even when the
    directory is missing and the write entry applies to nothing. *)
Example missing_slash_tmp_reports_full_write :
  let os := {| home_dir := None; current_dir := Some (lit "/repo"); tmpdir := None; is_dir := fun _ => false;
               is_file := fun _ => false; path_exists := fun _ => false; read_to_string := fun _ => None;
               symlink_metadata := fun _ => None; canonicalize := fun _ => None |} in
  has_full_disk_write_access (restricted full_write_entries) = true /\
  can_write_path_with_cwd os (restricted full_write_entries) (lit "/tmp/x") (lit "/repo") = false.
Proof. by vm_compute. Qed.

End Permissions.
