(* ===== verification/WritableRoots.v ===== *)
(** * Roots, legacy policies and enforcement: protocol/src/permissions.rs, protocol.rs and models.rs

    What a filesystem policy is turned into for the sandboxes that enforce it: the readable, writable
    and unreadable roots, the legacy sandbox policies, the permission profiles, and the matcher of
    denied reads.  The compiled globs of the [globset] crate are a parameter. *)

From S2P Require Import Prelude Text AbsolutePath Permissions.

Module WritableRoots.
Import AbsolutePath Permissions.

(** ** Data *)

(** [codex-rs/protocol/src/protocol.rs:945-951 NetworkAccess] *)
Inductive NetworkAccess := AccessRestricted | AccessEnabled.

(** [codex-rs/protocol/src/protocol.rs:959-1011 SandboxPolicy] *)
Inductive SandboxPolicy :=
  | DangerFullAccess
  | ReadOnly (network_access : bool)
  | LegacyExternalSandbox (network_access : NetworkAccess)
  | WorkspaceWrite (writable_roots : list str) (network_access exclude_tmpdir_env_var exclude_slash_tmp : bool).

(** [codex-rs/protocol/src/protocol.rs:1013-1029 WritableRoot] *)
Record WritableRoot := mkRoot {
  root : str;
  read_only_subpaths : list str;
  protected_metadata_names : list str
}.

(** [codex-rs/protocol/src/protocol.rs:1052-1064 WritableRoot::path_contains_protected_metadata_name] *)
Definition path_contains_protected_metadata_name (self : WritableRoot) (path : str) : bool :=
  match path_strip_prefix path (root self) with
  | Some (first_component :: _) =>
      existsb (fun name => bool_decide (as_os_str first_component = name)) (protected_metadata_names self)
  | _ => false
  end.

(** [codex-rs/protocol/src/protocol.rs:1032-1050 WritableRoot::is_path_writable] *)
Definition is_path_writable (self : WritableRoot) (path : str) : bool :=
  if negb (path_starts_with path (root self)) then false
  else if existsb (path_starts_with path) (read_only_subpaths self) then false
  else if path_contains_protected_metadata_name self path then false
  else true.

(** [codex-rs/protocol/src/protocol.rs:1124-1131 SandboxPolicy::has_full_network_access] *)
Definition has_full_network_access (self : SandboxPolicy) : bool :=
  match self with
  | DangerFullAccess => true
  | LegacyExternalSandbox network_access => match network_access with AccessEnabled => true | _ => false end
  | ReadOnly network_access => network_access
  | WorkspaceWrite _ network_access _ _ => network_access
  end.

(** [codex-rs/protocol/src/permissions.rs:1257-1263 NetworkSandboxPolicy::from] *)
Definition network_of_legacy (value : SandboxPolicy) : NetworkSandboxPolicy :=
  if has_full_network_access value then NetEnabled else NetRestricted.

(** [codex-rs/protocol/src/permissions.rs:1716-1721 has_explicit_resolved_path_entry] *)
Definition has_explicit_resolved_path_entry (es : list ResolvedFileSystemEntry) (path : str) : bool :=
  existsb (fun entry => path_eqb (resolved_path entry) path) es.

(** [codex-rs/protocol/src/permissions.rs:1699-1714 append_default_read_only_entry_if_no_explicit_rule] *)
Definition append_default_read_only_entry_if_no_explicit_rule (es : list FileSystemSandboxEntry) (path : FileSystemPath)
    : list FileSystemSandboxEntry :=
  if existsb (fun entry => file_system_paths_share_target (entry_path entry) path) es then es
  else es ++ [mkEntry path Read].

(** [codex-rs/protocol/src/permissions.rs:1692-1697 append_default_read_only_path_if_no_explicit_rule] *)
Definition append_default_read_only_path_if_no_explicit_rule (es : list FileSystemSandboxEntry) (path : str) :=
  append_default_read_only_entry_if_no_explicit_rule es (Path path).

(** [codex-rs/protocol/src/permissions.rs:1680-1690 append_default_read_only_project_root_subpath_if_no_explicit_rule] *)
Definition append_default_read_only_project_root_subpath_if_no_explicit_rule (es : list FileSystemSandboxEntry)
    (subpath : str) :=
  append_default_read_only_entry_if_no_explicit_rule es (Special (ProjectRoots (Some subpath))).

(** [Path::cmp]: component by component, in the order of the constructors and of the names. *)
Definition component_rank (c : Component) : nat :=
  match c with RootDir => 0 | CurDir => 1 | ParentDir => 2 | Normal _ => 3 end.
Fixpoint components_leb (a b : list Component) : bool :=
  match a, b with
  | [], _ => true
  | _ :: _, [] => false
  | x :: a, y :: b =>
      if bool_decide (x = y) then components_leb a b
      else match x, y with
           | Normal m, Normal n => str_leb m n
           | _, _ => component_rank x <? component_rank y
           end
  end.
Definition path_le (a b : str) : Prop := components_leb (components a) (components b) = true.
#[global] Instance path_le_dec : RelDecision path_le.
Proof. intros a b. unfold path_le. apply _. Defined.

(** [codex-rs/protocol/src/permissions.rs:1516-1519 sorted_absolute_paths] *)
Definition sorted_absolute_paths (paths : list str) : list str := merge_sort path_le paths.

Definition root_le (a b : WritableRoot) : Prop := path_le (root a) (root b).
#[global] Instance root_le_dec : RelDecision root_le.
Proof. intros a b. unfold root_le. apply _. Defined.

(** [codex-rs/protocol/src/permissions.rs:1521-1530 sorted_writable_roots] *)
Definition sorted_writable_roots (roots : list WritableRoot) : list WritableRoot :=
  merge_sort root_le (map (fun r => mkRoot (root r) (sorted_absolute_paths (read_only_subpaths r))
    (dedup_adjacent (merge_sort str_le (protected_metadata_names r)))) roots).

Section host.
Context (os : Os).

(** ** Effective paths *)

(** [codex-rs/utils/absolute-path/src/lib.rs:214-221 should_preserve_logical_path] *)
Definition should_preserve_logical_path (logical : str) : bool :=
  existsb (fun ancestor =>
    match symlink_metadata os ancestor with
    | None => false
    | Some is_symlink => is_symlink && bool_decide (is_Some (parent_of ancestor ≫= parent_of))
    end) (ancestors logical).

(** [codex-rs/utils/absolute-path/src/lib.rs:189-197 canonicalize_preserving_symlinks] *)
Definition canonicalize_preserving_symlinks (path : str) : option str :=
  logical ← abs_path os path;
  let preserve_logical_path := should_preserve_logical_path logical in
  match canonicalize os path with
  | Some canonical =>
      if preserve_logical_path && negb (path_eqb canonical logical) then Some logical else Some canonical
  | None => Some logical
  end.

(** The text of a path given by its components. *)
Definition join_components (l : list Component) : str := join [SLASH] (as_os_str <$> l).

(** [codex-rs/protocol/src/permissions.rs:1534-1550 normalize_effective_absolute_path] one iteration. *)
Definition effective_at (raw_path ancestor : str) : option str :=
  if bool_decide (symlink_metadata os ancestor = None) then None
  else
    normalized_ancestor ← canonicalize_preserving_symlinks ancestor;
    suffix ← path_strip_prefix raw_path ancestor;
    abs_path os (path_join normalized_ancestor (join_components suffix)).

(** [codex-rs/protocol/src/permissions.rs:1532-1551 normalize_effective_absolute_path] *)
Definition normalize_effective_absolute_path (path : str) : str :=
  default path (head (omap (effective_at path) (ancestors path))).

(** [codex-rs/protocol/src/permissions.rs:1497-1514 dedup_absolute_paths] the loop over the paths. *)
Fixpoint dedup_from (normalize_effective_paths : bool) (seen : list str) (paths : list str) : list str :=
  match paths with
  | [] => []
  | path :: paths =>
      let dedup_path := if normalize_effective_paths then normalize_effective_absolute_path path else path in
      if existsb (path_eqb dedup_path) seen then dedup_from normalize_effective_paths seen paths
      else dedup_path :: dedup_from normalize_effective_paths (dedup_path :: seen) paths
  end.

(** [codex-rs/protocol/src/permissions.rs:1497-1514 dedup_absolute_paths] *)
Definition dedup_absolute_paths (paths : list str) (normalize_effective_paths : bool) : list str :=
  dedup_from normalize_effective_paths [] paths.

(** ** Read-only subpaths *)

(** [codex-rs/protocol/src/permissions.rs:1819-1822 is_git_pointer_file] *)
Definition is_git_pointer_file (path : str) : bool := is_file os path && bool_decide (file_name path = Some GIT).

(** [codex-rs/protocol/src/permissions.rs:1824-1881 resolve_gitdir_from_file] *)
Definition resolve_gitdir_from_file (dot_git : str) : option str :=
  contents ← read_to_string os dot_git;
  let trimmed := trim contents in
  '(prefix, gitdir_raw) ← split_once 58%N trimmed;
  if negb (bool_decide (trim prefix = lit "gitdir")) then None
  else
    let gitdir_raw := trim gitdir_raw in
    if bool_decide (gitdir_raw = []) then None
    else
      base ← parent_of dot_git;
      let gitdir_path := resolve_path_against_base (home_dir os) gitdir_raw base in
      if negb (path_exists os gitdir_path) then None else Some gitdir_path.

(** [codex-rs/protocol/src/permissions.rs:1553-1597 default_read_only_subpaths_for_writable_root] *)
Definition default_read_only_subpaths_for_writable_root (writable_root : str) (protect_missing_dot_codex : bool) : list str :=
  let top_level_git := abs_path_join os writable_root GIT in
  let git :=
    if is_dir os top_level_git || is_file os top_level_git then
      (if is_file os top_level_git && is_git_pointer_file top_level_git
       then option_list (resolve_gitdir_from_file top_level_git) else []) ++ [top_level_git]
    else [] in
  let top_level_agents := abs_path_join os writable_root AGENTS in
  let agents := if is_dir os top_level_agents then [top_level_agents] else [] in
  let top_level_codewith := abs_path_join os writable_root CODEWITH in
  let codewith := if protect_missing_dot_codex || is_dir os top_level_codewith then [top_level_codewith] else [] in
  let top_level_codex := abs_path_join os writable_root CODEX in
  let codex := if protect_missing_dot_codex || is_dir os top_level_codex then [top_level_codex] else [] in
  dedup_absolute_paths (git ++ agents ++ codewith ++ codex) false.

(** ** Roots of a policy *)

(** [codex-rs/protocol/src/permissions.rs:933-947 FileSystemSandboxPolicy::get_readable_roots_with_cwd] *)
Definition get_readable_roots_with_cwd (self : FileSystemSandboxPolicy) (cwd : str) : list str :=
  if has_full_disk_read_access self then []
  else dedup_absolute_paths
    (resolved_path <$> List.filter (fun entry => can_read_path_with_cwd os self (resolved_path entry) cwd)
       (List.filter (fun entry => can_read (resolved_access entry)) (resolved_entries_with_cwd os self cwd))) true.

(** [codex-rs/protocol/src/permissions.rs:1748-1771 protected_metadata_names_for_writable_root] *)
Definition protected_metadata_names_for_writable_root (policy : FileSystemSandboxPolicy) (root : str)
    (raw_writable_roots : list str) (cwd : str) : list str :=
  List.filter (fun metadata_name =>
    forallb (fun metadata_path => negb (can_write_path_with_cwd os policy metadata_path cwd))
      (abs_path_join os root metadata_name ::
       map (fun raw_root => abs_path_join os raw_root metadata_name) raw_writable_roots))
    PROTECTED_METADATA_PATH_NAMES.

(** [codex-rs/protocol/src/permissions.rs:1015-1035 FileSystemSandboxPolicy::get_writable_roots_with_cwd]
    the search for a raw root above a carveout. *)
Fixpoint raw_carveout (root entry_path : str) (raw_writable_roots : list str) : option str :=
  match raw_writable_roots with
  | [] => None
  | raw_root :: rest =>
      match path_strip_prefix entry_path raw_root with
      | Some (c :: suffix) => Some (abs_path_join os root (join_components (c :: suffix)))
      | _ => raw_carveout root entry_path rest
      end
  end.

(** [codex-rs/protocol/src/permissions.rs:1000-1048 FileSystemSandboxPolicy::get_writable_roots_with_cwd]
    the carveout an entry makes in a writable root. *)
Definition carveout (root : str) (raw_writable_roots : list str) (entry : ResolvedFileSystemEntry) : option str :=
  let effective_path := normalize_effective_absolute_path (resolved_path entry) in
  let preserve_raw_carveout_paths := bool_decide (is_Some (parent_of root)) in
  let raw_carveout_path :=
    if preserve_raw_carveout_paths then
      if path_eqb (resolved_path entry) root then None
      else if path_starts_with (resolved_path entry) root then Some (resolved_path entry)
      else raw_carveout root (resolved_path entry) raw_writable_roots
    else None in
  match raw_carveout_path with
  | Some raw_carveout_path => Some raw_carveout_path
  | None =>
      if path_eqb effective_path root || negb (path_starts_with effective_path root) then None
      else Some effective_path
  end.

(** [codex-rs/protocol/src/permissions.rs:956-962 FileSystemSandboxPolicy::get_writable_roots_with_cwd]
    the paths of the entries that can be written. *)
Definition writable_entries (self : FileSystemSandboxPolicy) (cwd : str) : list str :=
  resolved_path <$> List.filter (fun entry => can_write_path_with_cwd os self (resolved_path entry) cwd)
    (List.filter (fun entry => can_write (resolved_access entry)) (resolved_entries_with_cwd os self cwd)).

(** [codex-rs/protocol/src/permissions.rs:978-981 FileSystemSandboxPolicy::get_writable_roots_with_cwd]
    the entries a root stands for. *)
Definition raw_writable_roots (self : FileSystemSandboxPolicy) (cwd root : str) : list str :=
  List.filter (fun path => path_eqb (normalize_effective_absolute_path path) root) (writable_entries self cwd).

(** [codex-rs/protocol/src/permissions.rs:984-1049 FileSystemSandboxPolicy::get_writable_roots_with_cwd]
    what stays read-only under a root: its metadata, and the carveouts of the other entries. *)
Definition root_read_only (self : FileSystemSandboxPolicy) (cwd root : str) : list str :=
  let resolved_entries := resolved_entries_with_cwd os self cwd in
  let protect_missing_dot_codex :=
    match abs_path os cwd with
    | Some cwd => path_eqb (normalize_effective_absolute_path cwd) root
    | None => false
    end in
  let read_only_subpaths :=
    List.filter (fun path => negb (has_explicit_resolved_path_entry resolved_entries path))
      (default_read_only_subpaths_for_writable_root root protect_missing_dot_codex) in
  read_only_subpaths ++
  omap (carveout root (raw_writable_roots self cwd root))
    (List.filter (fun entry => negb (can_write_path_with_cwd os self (resolved_path entry) cwd))
      (List.filter (fun entry => negb (can_write (resolved_access entry))) resolved_entries)).

(** [codex-rs/protocol/src/permissions.rs:969-1061 FileSystemSandboxPolicy::get_writable_roots_with_cwd]
    one root. *)
Definition writable_root_of (self : FileSystemSandboxPolicy) (cwd root : str) : WritableRoot :=
  mkRoot root (dedup_absolute_paths (root_read_only self cwd root) false)
    (protected_metadata_names_for_writable_root self root (raw_writable_roots self cwd root) cwd).

(** [codex-rs/protocol/src/permissions.rs:951-1063 FileSystemSandboxPolicy::get_writable_roots_with_cwd] *)
Definition get_writable_roots_with_cwd (self : FileSystemSandboxPolicy) (cwd : str) : list WritableRoot :=
  if has_full_disk_write_access self then []
  else map (writable_root_of self cwd) (dedup_absolute_paths (writable_entries self cwd) true).

(** [codex-rs/protocol/src/permissions.rs:1066-1088 FileSystemSandboxPolicy::get_unreadable_roots_with_cwd] *)
Definition get_unreadable_roots_with_cwd (self : FileSystemSandboxPolicy) (cwd : str) : list str :=
  if negb (is_restricted self) then []
  else
    let root := abs_path os cwd ≫= absolute_root_path_for_cwd os in
    dedup_absolute_paths
      (resolved_path <$> List.filter (fun entry => negb (opt_path_eqb root (Some (resolved_path entry))))
        (List.filter (fun entry => negb (can_read_path_with_cwd os self (resolved_path entry) cwd))
          (List.filter (fun entry => bool_decide (resolved_access entry = Deny))
            (resolved_entries_with_cwd os self cwd)))) true.

Definition deny_glob (cwd : str) (entry : FileSystemSandboxEntry) : option str :=
  match entry_path entry with
  | GlobPattern pattern => Some (resolve_path_against_base (home_dir os) pattern cwd)
  | Path _ | Special _ => None
  end.

(** [codex-rs/protocol/src/permissions.rs:1091-1111 FileSystemSandboxPolicy::get_unreadable_globs_with_cwd] *)
Definition get_unreadable_globs_with_cwd (self : FileSystemSandboxPolicy) (cwd : str) : list str :=
  if negb (is_restricted self) then []
  else dedup_adjacent (merge_sort str_le
    (omap (deny_glob cwd) (List.filter (fun entry => bool_decide (entry_access entry = Deny)) (entries self)))).

(** [codex-rs/protocol/src/permissions.rs:215-224 FileSystemSemanticSignature] *)
Record FileSystemSemanticSignature := {
  sig_full_disk_read : bool;
  sig_full_disk_write : bool;
  sig_platform_defaults : bool;
  sig_readable_roots : list str;
  sig_writable_roots : list WritableRoot;
  sig_unreadable_roots : list str;
  sig_unreadable_globs : list str
}.

(** [codex-rs/protocol/src/permissions.rs:1243-1253 FileSystemSandboxPolicy::semantic_signature] *)
Definition semantic_signature (self : FileSystemSandboxPolicy) (cwd : str) : FileSystemSemanticSignature := {|
  sig_full_disk_read := has_full_disk_read_access self;
  sig_full_disk_write := has_full_disk_write_access self;
  sig_platform_defaults := include_platform_defaults self;
  sig_readable_roots := sorted_absolute_paths (get_readable_roots_with_cwd self cwd);
  sig_writable_roots := sorted_writable_roots (get_writable_roots_with_cwd self cwd);
  sig_unreadable_roots := sorted_absolute_paths (get_unreadable_roots_with_cwd self cwd);
  sig_unreadable_globs := get_unreadable_globs_with_cwd self cwd
|}.

(** ** Legacy policies *)

Definition append_default_paths (es : list FileSystemSandboxEntry) (paths : list str) : list FileSystemSandboxEntry :=
  foldl append_default_read_only_path_if_no_explicit_rule es paths.

(** The default subpaths of each writable root, appended in turn. *)
Definition append_root_defaults (es : list FileSystemSandboxEntry) (writable_roots : list str) : list FileSystemSandboxEntry :=
  foldl (fun es writable_root =>
    append_default_paths es (default_read_only_subpaths_for_writable_root writable_root false)) es writable_roots.

(** [codex-rs/protocol/src/permissions.rs:531-568 FileSystemSandboxPolicy::workspace_write] the grants. *)
Definition workspace_grants (writable_roots : list str) (exclude_tmpdir_env_var exclude_slash_tmp : bool)
    : list FileSystemSandboxEntry :=
  [mkEntry (Special Root) Read; mkEntry (Special (ProjectRoots None)) Write] ++
  (if negb exclude_slash_tmp then [mkEntry (Special SlashTmp) Write] else []) ++
  (if negb exclude_tmpdir_env_var then [mkEntry (Special Tmpdir) Write] else []) ++
  map (fun path => mkEntry (Path path) Write) writable_roots.

(** [codex-rs/protocol/src/permissions.rs:526-587 FileSystemSandboxPolicy::workspace_write] *)
Definition workspace_write (writable_roots : list str) (exclude_tmpdir_env_var exclude_slash_tmp : bool)
    : FileSystemSandboxPolicy :=
  let es := workspace_grants writable_roots exclude_tmpdir_env_var exclude_slash_tmp in
  let es := append_default_read_only_project_root_subpath_if_no_explicit_rule es GIT in
  let es := append_default_read_only_project_root_subpath_if_no_explicit_rule es AGENTS in
  let es := append_default_read_only_project_root_subpath_if_no_explicit_rule es CODEWITH in
  let es := append_default_read_only_project_root_subpath_if_no_explicit_rule es CODEX in
  restricted (append_root_defaults es writable_roots).

(** [codex-rs/protocol/src/permissions.rs:1267-1290 FileSystemSandboxPolicy::from] *)
Definition of_legacy (value : SandboxPolicy) : FileSystemSandboxPolicy :=
  match value with
  | DangerFullAccess => unrestricted
  | LegacyExternalSandbox _ => external_sandbox
  | ReadOnly _ => restricted [mkEntry (Special Root) Read]
  | WorkspaceWrite writable_roots _ exclude_tmpdir_env_var exclude_slash_tmp =>
      workspace_write writable_roots exclude_tmpdir_env_var exclude_slash_tmp
  end.

(** [codex-rs/protocol/src/permissions.rs:596-623 FileSystemSandboxPolicy::from_legacy_sandbox_policy_for_cwd] *)
Definition from_legacy_sandbox_policy_for_cwd (sandbox_policy : SandboxPolicy) (cwd : str) : FileSystemSandboxPolicy :=
  let file_system_policy := of_legacy sandbox_policy in
  match sandbox_policy with
  | WorkspaceWrite writable_roots _ _ _ =>
      let es := match abs_path os cwd with
                | Some cwd_root => append_default_paths (entries file_system_policy)
                                     (default_read_only_subpaths_for_writable_root cwd_root true)
                | None => entries file_system_policy
                end in
      with_entries file_system_policy (append_root_defaults es writable_roots)
  | _ => file_system_policy
  end.

(** The deny entries of a policy, each appended unless it is there already. *)
Definition append_deny_entries (es existing : list FileSystemSandboxEntry) : list FileSystemSandboxEntry :=
  foldl (fun es deny_entry => if existsb (fun entry => entry_eqb entry deny_entry) es then es else es ++ [deny_entry])
    es (List.filter (fun entry => bool_decide (entry_access entry = Deny)) existing).

(** [codex-rs/protocol/src/permissions.rs:427-449 FileSystemSandboxPolicy::from_legacy_sandbox_policy_preserving_deny_entries] *)
Definition from_legacy_sandbox_policy_preserving_deny_entries (sandbox_policy : SandboxPolicy) (cwd : str)
    (existing : FileSystemSandboxPolicy) : FileSystemSandboxPolicy :=
  let rebuilt := from_legacy_sandbox_policy_for_cwd sandbox_policy cwd in
  if negb (is_restricted rebuilt) then rebuilt
  else mkPolicy (sandbox_kind rebuilt) (glob_scan_max_depth existing)
         (append_deny_entries (entries rebuilt) (entries existing)).

(** What the loop of [to_legacy_sandbox_policy] collects. *)
Record LegacyScan := {
  workspace_root_writable : bool;
  scan_writable_roots : list str;
  tmpdir_writable : bool;
  slash_tmp_writable : bool;
  unbridgeable_root_write : bool
}.

(** [codex-rs/protocol/src/permissions.rs:1144-1187 FileSystemSandboxPolicy::to_legacy_sandbox_policy] the
    body of the loop. *)
Definition legacy_scan_step (cwd_absolute : option str) (st : LegacyScan) (entry : FileSystemSandboxEntry) : LegacyScan :=
  let w := can_write (entry_access entry) in
  let push path := {| workspace_root_writable := workspace_root_writable st;
                      scan_writable_roots := scan_writable_roots st ++ [path];
                      tmpdir_writable := tmpdir_writable st; slash_tmp_writable := slash_tmp_writable st;
                      unbridgeable_root_write := unbridgeable_root_write st |} in
  let set ws tmp slash root := {| workspace_root_writable := workspace_root_writable st || ws;
                                  scan_writable_roots := scan_writable_roots st;
                                  tmpdir_writable := tmpdir_writable st || tmp;
                                  slash_tmp_writable := slash_tmp_writable st || slash;
                                  unbridgeable_root_write := unbridgeable_root_write st || root |} in
  match entry_path entry with
  | GlobPattern _ => st
  | Path path =>
      if w then
        if opt_path_eqb cwd_absolute (Some path) then set true false false false else push path
      else st
  | Special value =>
      match value with
      | Root => match entry_access entry with Write => set false false false true | Deny | Read => st end
      | Minimal => st
      | ProjectRoots subpath =>
          if bool_decide (subpath = None) && w then set true false false false
          else match resolve_file_system_special_path os value cwd_absolute with
               | Some path => if w then push path else st
               | None => st
               end
      | Tmpdir => if w then set false true false false else st
      | SlashTmp => if w then set false false true false else st
      | Unknown _ _ => st
      end
  end.

Definition legacy_unsupported : str :=
  lit "permissions profile requests filesystem writes outside the workspace root, which is not supported until the runtime enforces FileSystemSandboxPolicy directly".

Definition full_access_legacy (network_policy : NetworkSandboxPolicy) : SandboxPolicy :=
  if is_enabled network_policy then DangerFullAccess else LegacyExternalSandbox AccessRestricted.

(** [codex-rs/protocol/src/permissions.rs:1113-1226 FileSystemSandboxPolicy::to_legacy_sandbox_policy] *)
Definition to_legacy_sandbox_policy (self : FileSystemSandboxPolicy) (network_policy : NetworkSandboxPolicy) (cwd : str)
    : result str SandboxPolicy :=
  match sandbox_kind self with
  | ExternalSandbox =>
      Ok (LegacyExternalSandbox (if is_enabled network_policy then AccessEnabled else AccessRestricted))
  | Unrestricted => Ok (full_access_legacy network_policy)
  | Restricted =>
      let st := foldl (legacy_scan_step (abs_path os cwd))
        {| workspace_root_writable := false; scan_writable_roots := []; tmpdir_writable := false;
           slash_tmp_writable := false; unbridgeable_root_write := false |} (entries self) in
      if has_full_disk_write_access self then Ok (full_access_legacy network_policy)
      else if workspace_root_writable st then
        Ok (WorkspaceWrite (dedup_absolute_paths (scan_writable_roots st) false) (is_enabled network_policy)
              (negb (tmpdir_writable st)) (negb (slash_tmp_writable st)))
      else if unbridgeable_root_write st || negb (bool_decide (scan_writable_roots st = [])) || tmpdir_writable st
              || slash_tmp_writable st
      then Err legacy_unsupported
      else Ok (ReadOnly (is_enabled network_policy))
  end.

(** [codex-rs/protocol/src/permissions.rs:1606-1678 legacy_runtime_file_system_policy_for_cwd] *)
Definition legacy_runtime_file_system_policy_for_cwd (sandbox_policy : SandboxPolicy) (cwd : str) : FileSystemSandboxPolicy :=
  match sandbox_policy with
  | WorkspaceWrite writable_roots _ exclude_tmpdir_env_var exclude_slash_tmp =>
      let es := workspace_grants writable_roots exclude_tmpdir_env_var exclude_slash_tmp in
      let es := match abs_path os cwd with
                | Some cwd_root => append_default_paths es (default_read_only_subpaths_for_writable_root cwd_root true)
                | None => es
                end in
      restricted (append_root_defaults es writable_roots)
  | _ => of_legacy sandbox_policy
  end.

(** [codex-rs/protocol/src/protocol.rs:1136-1224 SandboxPolicy::get_writable_roots_with_cwd] *)
Definition legacy_writable_roots_with_cwd (self : SandboxPolicy) (cwd : str) : list WritableRoot :=
  match self with
  | DangerFullAccess | LegacyExternalSandbox _ | ReadOnly _ => []
  | WorkspaceWrite writable_roots _ exclude_tmpdir_env_var exclude_slash_tmp =>
      let roots := writable_roots ++ option_list (abs_path os cwd) in
      let roots := roots ++
        (if negb exclude_slash_tmp then
           match abs_path os (lit "/tmp") with
           | Some slash_tmp => if is_dir os slash_tmp then [slash_tmp] else []
           | None => []
           end
         else []) in
      let roots := roots ++
        (if negb exclude_tmpdir_env_var then
           match tmpdir os with
           | Some tmpdir => if negb (bool_decide (tmpdir = [])) then option_list (abs_path os tmpdir) else []
           | None => []
           end
         else []) in
      let cwd_root := abs_path os cwd in
      map (fun writable_root =>
        let protect_missing_dot_codex := opt_path_eqb cwd_root (Some writable_root) in
        mkRoot writable_root (default_read_only_subpaths_for_writable_root writable_root protect_missing_dot_codex) [])
        roots
  end.

(** [codex-rs/protocol/src/permissions.rs:1773-1801 protected_metadata_names_need_direct_runtime_enforcement] *)
Definition protected_metadata_names_need_direct_runtime_enforcement (policy : FileSystemSandboxPolicy)
    (legacy_policy : SandboxPolicy) (cwd : str) : bool :=
  let legacy_roots := legacy_writable_roots_with_cwd legacy_policy cwd in
  existsb (fun writable_root =>
    match List.find (fun candidate => path_eqb (root candidate) (root writable_root)) legacy_roots with
    | None => negb (bool_decide (protected_metadata_names writable_root = []))
    | Some legacy_root =>
        existsb (fun metadata_name =>
          let metadata_path := abs_path_join os (root writable_root) metadata_name in
          negb (existsb (fun subpath => path_eqb subpath metadata_path) (read_only_subpaths legacy_root)))
          (protected_metadata_names writable_root)
    end) (get_writable_roots_with_cwd policy cwd).

(** The derived equality of signatures. *)
Fixpoint list_eqb {A} (eqb : A -> A -> bool) (a b : list A) : bool :=
  match a, b with
  | [], [] => true
  | x :: a, y :: b => eqb x y && list_eqb eqb a b
  | _, _ => false
  end.
Definition root_eqb (a b : WritableRoot) : bool :=
  path_eqb (root a) (root b) && list_eqb path_eqb (read_only_subpaths a) (read_only_subpaths b) &&
  bool_decide (protected_metadata_names a = protected_metadata_names b).
Definition signature_eqb (a b : FileSystemSemanticSignature) : bool :=
  Bool.eqb (sig_full_disk_read a) (sig_full_disk_read b) && Bool.eqb (sig_full_disk_write a) (sig_full_disk_write b) &&
  Bool.eqb (sig_platform_defaults a) (sig_platform_defaults b) &&
  list_eqb path_eqb (sig_readable_roots a) (sig_readable_roots b) &&
  list_eqb root_eqb (sig_writable_roots a) (sig_writable_roots b) &&
  list_eqb path_eqb (sig_unreadable_roots a) (sig_unreadable_roots b) &&
  bool_decide (sig_unreadable_globs a = sig_unreadable_globs b).

(** [codex-rs/protocol/src/permissions.rs:928-930 FileSystemSandboxPolicy::is_semantically_equivalent_to] *)
Definition is_semantically_equivalent_to (self other : FileSystemSandboxPolicy) (cwd : str) : bool :=
  signature_eqb (semantic_signature self cwd) (semantic_signature other cwd).

(** [codex-rs/protocol/src/permissions.rs:904-924 FileSystemSandboxPolicy::needs_direct_runtime_enforcement] *)
Definition needs_direct_runtime_enforcement (self : FileSystemSandboxPolicy) (network_policy : NetworkSandboxPolicy)
    (cwd : str) : bool :=
  if negb (is_restricted self) then false
  else match to_legacy_sandbox_policy self network_policy cwd with
       | Err _ => true
       | Ok legacy_policy =>
           if protected_metadata_names_need_direct_runtime_enforcement self legacy_policy cwd then true
           else negb (signature_eqb (semantic_signature self cwd)
                        (semantic_signature (legacy_runtime_file_system_policy_for_cwd legacy_policy cwd) cwd))
       end.

(** ** Changing a policy *)

(** [codex-rs/protocol/src/permissions.rs:453-484 FileSystemSandboxPolicy::preserve_deny_read_restrictions_from] *)
Definition preserve_deny_read_restrictions_from (self existing : FileSystemSandboxPolicy) : FileSystemSandboxPolicy :=
  let has_deny_read_entries := existsb (fun entry => bool_decide (entry_access entry = Deny)) (entries existing) in
  let self := if bool_decide (sandbox_kind self = Unrestricted) && has_deny_read_entries
              then restricted [mkEntry (Special Root) Write] else self in
  if negb (is_restricted self) then self
  else mkPolicy (sandbox_kind self)
         (if bool_decide (glob_scan_max_depth self = None) then glob_scan_max_depth existing else glob_scan_max_depth self)
         (append_deny_entries (entries self) (entries existing)).

(** [codex-rs/protocol/src/permissions.rs:358-358 PROJECT_ROOTS_GLOB_PATTERN_PREFIX] *)
Definition PROJECT_ROOTS_GLOB_PATTERN_PREFIX : str := lit "codex-project-roots://".

(** [codex-rs/protocol/src/permissions.rs:360-362 project_roots_glob_pattern] *)
Definition project_roots_glob_pattern (subpath : str) : str := PROJECT_ROOTS_GLOB_PATTERN_PREFIX ++ subpath.

(** [codex-rs/protocol/src/permissions.rs:1316-1320 parse_project_roots_glob_pattern] *)
Definition parse_project_roots_glob_pattern (pattern : str) : option str :=
  strip_prefix PROJECT_ROOTS_GLOB_PATTERN_PREFIX pattern.

(** [codex-rs/protocol/src/permissions.rs:1322-1326 resolve_project_roots_glob_pattern] *)
Definition resolve_project_roots_glob_pattern (subpath root : str) : str :=
  resolve_path_against_base (home_dir os) subpath root.

(** [codex-rs/protocol/src/permissions.rs:724-744 FileSystemSandboxPolicy::materialize_project_roots_with_cwd] the
    body of the loop. *)
Definition materialize_entry_with_cwd (cwd : option str) (entry : FileSystemSandboxEntry) : FileSystemSandboxEntry :=
  match entry_path entry with
  | Special (ProjectRoots _) =>
      match resolve_file_system_path os (entry_path entry) cwd with
      | Some path => mkEntry (Path path) (entry_access entry)
      | None => entry
      end
  | GlobPattern pattern =>
      match cwd, parse_project_roots_glob_pattern pattern with
      | Some cwd, Some subpath => mkEntry (GlobPattern (resolve_project_roots_glob_pattern subpath cwd)) (entry_access entry)
      | _, _ => entry
      end
  | Special _ => entry
  | Path _ => entry
  end.

(** [codex-rs/protocol/src/permissions.rs:722-747 FileSystemSandboxPolicy::materialize_project_roots_with_cwd] *)
Definition materialize_project_roots_with_cwd (self : FileSystemSandboxPolicy) (cwd : str) : FileSystemSandboxPolicy :=
  with_entries self (map (materialize_entry_with_cwd (abs_path os cwd)) (entries self)).

(** [codex-rs/protocol/src/permissions.rs:756-799 FileSystemSandboxPolicy::materialize_project_roots_with_workspace_roots]
    the body of the loop. *)
Definition materialize_entry (workspace_roots : list str) (entry : FileSystemSandboxEntry) : list FileSystemSandboxEntry :=
  match entry_path entry with
  | Special (ProjectRoots subpath) =>
      map (fun root => mkEntry (Path (match subpath with
                                      | Some subpath => resolve_path_against_base (home_dir os) subpath root
                                      | None => root
                                      end)) (entry_access entry)) workspace_roots
  | GlobPattern pattern =>
      match parse_project_roots_glob_pattern pattern with
      | Some subpath =>
          map (fun root => mkEntry (GlobPattern (resolve_project_roots_glob_pattern subpath root)) (entry_access entry))
            workspace_roots
      | None => [mkEntry (GlobPattern pattern) (entry_access entry)]
      end
  | Path path => [mkEntry (Path path) (entry_access entry)]
  | Special value => [mkEntry (Special value) (entry_access entry)]
  end.

(** [codex-rs/protocol/src/permissions.rs:751-805 FileSystemSandboxPolicy::materialize_project_roots_with_workspace_roots] *)
Definition materialize_project_roots_with_workspace_roots (self : FileSystemSandboxPolicy) (workspace_roots : list str)
    : FileSystemSandboxPolicy :=
  with_entries self (concat (map (materialize_entry workspace_roots) (entries self))).

(** [codex-rs/protocol/src/permissions.rs:809-822 FileSystemSandboxPolicy::with_materialized_project_roots_for_workspace_roots] *)
Definition with_materialized_project_roots_for_workspace_roots (self : FileSystemSandboxPolicy) (workspace_roots : list str)
    : FileSystemSandboxPolicy :=
  let materialized := materialize_project_roots_with_workspace_roots self workspace_roots in
  with_entries self (foldl (fun es entry => if existsb (entry_eqb entry) es then es else es ++ [entry])
    (entries self) (entries materialized)).

(** [codex-rs/protocol/src/permissions.rs:824-845 FileSystemSandboxPolicy::with_additional_readable_roots] *)
Definition with_additional_readable_roots (self : FileSystemSandboxPolicy) (cwd : str) (additional_readable_roots : list str)
    : FileSystemSandboxPolicy :=
  if has_full_disk_read_access self then self
  else foldl (fun self path =>
    if can_read_path_with_cwd os self path cwd then self
    else with_entries self (entries self ++ [mkEntry (Path path) Read])) self additional_readable_roots.

(** [codex-rs/protocol/src/permissions.rs:847-864 FileSystemSandboxPolicy::with_additional_writable_roots] *)
Definition with_additional_writable_roots (self : FileSystemSandboxPolicy) (cwd : str) (additional_writable_roots : list str)
    : FileSystemSandboxPolicy :=
  foldl (fun self path =>
    if can_write_path_with_cwd os self path cwd then self
    else with_entries self (entries self ++ [mkEntry (Path path) Write])) self additional_writable_roots.

(** [codex-rs/protocol/src/permissions.rs:872-902 FileSystemSandboxPolicy::with_additional_legacy_workspace_writable_roots] *)
Definition with_additional_legacy_workspace_writable_roots (self : FileSystemSandboxPolicy)
    (additional_writable_roots : list str) : FileSystemSandboxPolicy :=
  if negb (is_restricted self) then self
  else with_entries self (foldl (fun es path =>
    let es := if existsb (fun entry => can_write (entry_access entry) &&
                            match entry_path entry with Path existing => path_eqb existing path | _ => false end) es
              then es else es ++ [mkEntry (Path path) Write] in
    append_default_paths es (default_read_only_subpaths_for_writable_root path false))
    (entries self) additional_writable_roots).

(** ** Denied reads *)

Section globs.
(** The compiled glob of the [globset] crate: the paths it matches, or why the pattern is malformed. *)
Context (build_glob_matcher : str -> result str (str -> bool)).

(** [codex-rs/protocol/src/permissions.rs:226-231 ReadDenyMatcher] *)
Record ReadDenyMatcher := {
  denied_candidates : list (list str);
  deny_read_matchers : list (str -> bool);
  invalid_pattern : bool
}.

(** [codex-rs/protocol/src/permissions.rs:335-339 InvalidDenyReadGlobBehavior] *)
Inductive InvalidDenyReadGlobBehavior := FailClosed | ReturnError.

(** [codex-rs/protocol/src/permissions.rs:1442-1446 push_unique] *)
Definition push_unique (candidates : list str) (candidate : str) : list str :=
  if existsb (fun existing => path_eqb existing candidate) candidates then candidates else candidates ++ [candidate].

(** [codex-rs/protocol/src/permissions.rs:1421-1440 normalized_and_canonical_candidates] *)
Definition normalized_and_canonical_candidates (path : str) : list str :=
  let candidates := push_unique [] (default path (abs_path os path)) in
  match canonicalize os path ≫= abs_path os with
  | Some canonical_absolute => push_unique candidates canonical_absolute
  | None => candidates
  end.

(** [codex-rs/protocol/src/permissions.rs:288-296 ReadDenyMatcher::build] the loop over the patterns. *)
Definition add_matcher (behavior : InvalidDenyReadGlobBehavior) (st : list (str -> bool) * bool) (pattern : str)
    : result str (list (str -> bool) * bool) :=
  match build_glob_matcher pattern with
  | Ok matcher => Ok (st.1 ++ [matcher], st.2)
  | Err err =>
      match behavior with
      | FailClosed => Ok (st.1, true)
      | ReturnError => Err (lit "invalid deny-read glob pattern `" ++ pattern ++ lit "`: " ++ err)
      end
  end.

(** [codex-rs/protocol/src/permissions.rs:266-303 ReadDenyMatcher::build] *)
Definition build (policy : FileSystemSandboxPolicy) (cwd : str) (behavior : InvalidDenyReadGlobBehavior)
    : result str (option ReadDenyMatcher) :=
  if negb (has_denied_read_restrictions policy) then Ok None
  else
    let denied := map normalized_and_canonical_candidates (get_unreadable_roots_with_cwd policy cwd) in
    '(matchers, invalid) ← try_fold (add_matcher behavior) (get_unreadable_globs_with_cwd policy cwd) ([], false);
    Ok (Some {| denied_candidates := denied; deny_read_matchers := matchers; invalid_pattern := invalid |}).

(** [codex-rs/protocol/src/permissions.rs:306-332 ReadDenyMatcher::is_read_denied] *)
Definition is_read_denied (self : ReadDenyMatcher) (path : str) : bool :=
  if invalid_pattern self then true
  else
    let path_candidates := normalized_and_canonical_candidates path in
    if existsb (fun denied =>
         existsb (fun candidate =>
           existsb (fun denied_candidate =>
             path_eqb candidate denied_candidate || path_starts_with candidate denied_candidate) denied)
           path_candidates) (denied_candidates self)
    then true
    else existsb (fun matcher => existsb matcher path_candidates) (deny_read_matchers self).
End globs.
End host.

(** ** Permission profiles *)

(** [codex-rs/protocol/src/models.rs:251-267 ManagedFileSystemPermissions] *)
Inductive ManagedFileSystemPermissions :=
  | ManagedRestricted (es : list FileSystemSandboxEntry) (glob_scan_max_depth : option N)
  | ManagedUnrestricted.

(** [codex-rs/protocol/src/models.rs:309-327 PermissionProfile] *)
Inductive PermissionProfile :=
  | Managed (file_system : ManagedFileSystemPermissions) (network : NetworkSandboxPolicy)
  | Disabled
  | External (network : NetworkSandboxPolicy).

(** [codex-rs/protocol/src/models.rs:230-239 SandboxEnforcement] *)
Inductive SandboxEnforcement := EnforceManaged | EnforceDisabled | EnforceExternal.

#[global] Instance SandboxEnforcement_eq_dec : EqDecision SandboxEnforcement.
Proof. solve_decision. Defined.

(** [NonZeroUsize::new]. *)
Definition non_zero (n : N) : option N := if (n =? 0)%N then None else Some n.

(** [codex-rs/protocol/src/models.rs:270-283 ManagedFileSystemPermissions::from_sandbox_policy] [None] is the
    unreachable branch. *)
Definition managed_from_sandbox_policy (policy : FileSystemSandboxPolicy) : option ManagedFileSystemPermissions :=
  match sandbox_kind policy with
  | Restricted => Some (ManagedRestricted (entries policy) (glob_scan_max_depth policy ≫= non_zero))
  | Unrestricted => Some ManagedUnrestricted
  | ExternalSandbox => None
  end.

(** [codex-rs/protocol/src/models.rs:285-297 ManagedFileSystemPermissions::to_sandbox_policy] *)
Definition to_sandbox_policy (self : ManagedFileSystemPermissions) : FileSystemSandboxPolicy :=
  match self with
  | ManagedRestricted es depth => mkPolicy Restricted depth es
  | ManagedUnrestricted => unrestricted
  end.

(** [codex-rs/protocol/src/models.rs:498-504 PermissionProfile::enforcement] *)
Definition enforcement (self : PermissionProfile) : SandboxEnforcement :=
  match self with Managed _ _ => EnforceManaged | Disabled => EnforceDisabled | External _ => EnforceExternal end.

(** [codex-rs/protocol/src/models.rs:506-512 PermissionProfile::file_system_sandbox_policy] *)
Definition file_system_sandbox_policy (self : PermissionProfile) : FileSystemSandboxPolicy :=
  match self with
  | Managed file_system _ => to_sandbox_policy file_system
  | Disabled => unrestricted
  | External _ => external_sandbox
  end.

(** [codex-rs/protocol/src/models.rs:514-519 PermissionProfile::network_sandbox_policy] *)
Definition network_sandbox_policy (self : PermissionProfile) : NetworkSandboxPolicy :=
  match self with Managed _ network | External network => network | Disabled => NetEnabled end.

(** [codex-rs/protocol/src/models.rs:459-480 PermissionProfile::from_runtime_permissions_with_enforcement] *)
Definition from_runtime_permissions_with_enforcement (e : SandboxEnforcement) (policy : FileSystemSandboxPolicy)
    (network : NetworkSandboxPolicy) : option PermissionProfile :=
  match sandbox_kind policy with
  | ExternalSandbox => Some (External network)
  | Unrestricted =>
      if bool_decide (e = EnforceDisabled) then Some Disabled
      else (fun fs => Managed fs network) <$> managed_from_sandbox_policy policy
  | Restricted => (fun fs => Managed fs network) <$> managed_from_sandbox_policy policy
  end.

(** [codex-rs/protocol/src/models.rs:442-457 PermissionProfile::from_runtime_permissions] *)
Definition from_runtime_permissions (policy : FileSystemSandboxPolicy) (network : NetworkSandboxPolicy)
    : option PermissionProfile :=
  let e := match sandbox_kind policy with
           | Restricted | Unrestricted => EnforceManaged
           | ExternalSandbox => EnforceExternal
           end in
  from_runtime_permissions_with_enforcement e policy network.

(** [codex-rs/protocol/src/models.rs:242-248 SandboxEnforcement::from_legacy_sandbox_policy] *)
Definition enforcement_of_legacy (sandbox_policy : SandboxPolicy) : SandboxEnforcement :=
  match sandbox_policy with
  | DangerFullAccess => EnforceDisabled
  | LegacyExternalSandbox _ => EnforceExternal
  | ReadOnly _ | WorkspaceWrite _ _ _ _ => EnforceManaged
  end.

(** [codex-rs/protocol/src/models.rs:490-496 PermissionProfile::from_legacy_sandbox_policy_for_cwd] *)
Definition profile_from_legacy_for_cwd (os : Os) (sandbox_policy : SandboxPolicy) (cwd : str) : option PermissionProfile :=
  from_runtime_permissions_with_enforcement (enforcement_of_legacy sandbox_policy)
    (from_legacy_sandbox_policy_for_cwd os sandbox_policy cwd) (network_of_legacy sandbox_policy).

(** [codex-rs/protocol/src/models.rs:521-538 PermissionProfile::to_legacy_sandbox_policy] *)
Definition profile_to_legacy (os : Os) (self : PermissionProfile) (cwd : str) : result str SandboxPolicy :=
  match self with
  | Managed file_system network => to_legacy_sandbox_policy os (to_sandbox_policy file_system) network cwd
  | Disabled => Ok DangerFullAccess
  | External network => Ok (LegacyExternalSandbox (if is_enabled network then AccessEnabled else AccessRestricted))
  end.

(** ** Hosts without symbolic links *)

(** No file is a symbolic link, and canonical paths are the paths themselves. *)
Definition no_symlinks (os : Os) : Prop :=
  forall p, symlink_metadata os p <> Some true /\ forall q, normal_form p -> canonicalize os p = Some q -> q = p.

Lemma join_components_body names : Forall name_ok names -> body (join_components (Normal <$> names)) = Normal <$> names.
Proof.
  intros Hok. unfold join_components, body. rewrite <- list_fmap_compose. 
  replace (as_os_str ∘ Normal <$> names) with names by (symmetry; apply list_fmap_id).
  destruct names as [|n names]; [done|]. rewrite split_join_char; [by apply omap_names | done |].
  eapply Forall_impl; [done|]. by intros ? [].
Qed.

Lemma ancestors_normal fuel names a :
  Forall name_ok names -> a ∈ ancestors_at fuel (render names) ->
  exists front back, names = front ++ back /\ a = render front.
Proof.
  revert names; induction fuel as [|fuel IH]; intros names Hok; cbn [ancestors_at].
  - rewrite elem_of_cons, elem_of_nil. intros [->|[]]. exists names, []. by rewrite app_nil_r.
  - destruct names as [|n names _] using rev_ind.
    + simpl. rewrite elem_of_cons, elem_of_nil. intros [->|[]]. by exists [], [].
    + apply Forall_snoc in Hok as [Hok Hn]. rewrite parent_of_name by done.
      rewrite elem_of_cons. intros [->|Ha]; [exists (names ++ [n]), []; by rewrite app_nil_r|].
      destruct (IH names Hok Ha) as (front & back & -> & ->). exists front, (back ++ [n]). by rewrite app_assoc.
Qed.

Section plain_host.
Context (os : Os) (Hos : os_wf os) (Hplain : no_symlinks os).

Lemma canonicalize_plain p : normal_form p -> canonicalize_preserving_symlinks os p = Some p.
Proof.
  intros Hp. unfold canonicalize_preserving_symlinks. rewrite abs_path_id by done. simpl.
  destruct (canonicalize os p) as [q|] eqn:E; [|done]. rewrite (proj2 (Hplain p) q Hp E).
  by case_match.
Qed.

Lemma normalize_effective_plain p : normal_form p -> normalize_effective_absolute_path os p = p.
Proof.
  intros Hp. unfold normalize_effective_absolute_path. destruct Hp as (names & -> & Hok).
  assert (Hall : forall a q, a ∈ ancestors (render names) -> effective_at os (render names) a = Some q -> q = render names).
  { intros a q Ha. destruct (ancestors_normal _ _ _ Hok Ha) as (front & back & -> & ->).
    apply Forall_app in Hok as [Hf Hb]. unfold effective_at. case_bool_decide; [done|].
    rewrite canonicalize_plain by by eexists. simpl. unfold path_strip_prefix.
    rewrite !components_render by (done || by apply Forall_app). rewrite fmap_app, app_comm_cons.
    rewrite (proj2 (strip_components_Some _ _ (Normal <$> back))) by done. simpl.
    assert (Hrel : is_absolute (join_components (Normal <$> back)) = false).
    { unfold join_components. rewrite <- list_fmap_compose.
      replace (as_os_str ∘ Normal <$> back) with back by (symmetry; apply list_fmap_id).
      destruct back as [|n back]; [done|]. apply Forall_cons in Hb as [[Hc Hs] _].
      apply starts_with_false. intros r Hr. destruct n as [|c n]; [done|].
      destruct back; simpl in Hr; injection Hr as -> _; set_solver. }
    unfold abs_path, from_absolute_path, absolutize.
    rewrite expand_absolute, push_absolute by (done || by apply push_absolute). simpl. intros [= <-].
    unfold path_join. rewrite (normalize_components _ (render (front ++ back))); [by apply normalize_render, Forall_app|].
    rewrite components_push_abs, join_components_body, !components_render by (done || by apply Forall_app).
    by rewrite fmap_app, app_comm_cons. }
  destruct (omap _ _) as [|q l] eqn:E; [done|]. simpl.
  assert (Hq : q ∈ omap (effective_at os (render names)) (ancestors (render names))) by (rewrite E; set_solver).
  apply list_elem_of_omap in Hq as (a & Ha & Hq). by eapply Hall.
Qed.
End plain_host.

Lemma dedup_from_sub os b seen l x :
  x ∈ dedup_from os b seen l -> exists y, y ∈ l /\ x = if b then normalize_effective_absolute_path os y else y.
Proof.
  revert seen; induction l as [|y l IH]; intros seen; simpl; [set_solver|].
  destruct (existsb _ seen); [intros (z & ? & ->)%IH; exists z; set_solver|].
  rewrite elem_of_cons. intros [->|(z & ? & ->)%IH]; [exists y | exists z]; set_solver.
Qed.

Lemma dedup_from_sup os b seen l y :
  y ∈ l -> exists x, (x ∈ seen \/ x ∈ dedup_from os b seen l) /\
    components x = components (if b then normalize_effective_absolute_path os y else y).
Proof.
  revert seen; induction l as [|z l IH]; intros seen; simpl; [set_solver|]. rewrite elem_of_cons. intros [->|Hy].
  - destruct (existsb _ seen) eqn:E.
    + apply existsb_exists in E as (x & Hx & Heq%path_eqb_spec). exists x. rewrite list_elem_of_In. auto.
    + eexists. split; [right; apply list_elem_of_here | done].
  - destruct (existsb _ seen).
    + by apply IH.
    + destruct (IH ((if b then normalize_effective_absolute_path os z else z) :: seen) Hy) as (x & Hx & Heq).
      exists x. split; [|done]. rewrite elem_of_cons in *. naive_solver.
Qed.

(** ** Enforced roots and the decision *)

Section agree.
Context (os : Os) (Hos : os_wf os) (Hplain : no_symlinks os).
Context (self : FileSystemSandboxPolicy) (Hwf : policy_wf self) (cwd : str).
Context (Hr : is_restricted self = true) (Hfull : has_full_disk_write_access self = false).
Let es := resolved_entries_with_cwd os self cwd.

(** [m] decides the access to [t]. *)
Definition decides (m : ResolvedFileSystemEntry) (t : str) : Prop :=
  m ∈ covering es t /\ forall e, e ∈ covering es t -> outranks m e.

Lemma entry_path_normal e : e ∈ es -> normal_form (resolved_path e).
Proof. by apply resolved_normal. Qed.

Lemma decides_own m t : decides m t -> decides m (resolved_path m).
Proof.
  intros [Hm Hmax]. apply covering_elem in Hm as [Hm Hpre]. split; [by apply covering_elem|].
  intros e [He Hpe]%covering_elem. apply Hmax, covering_elem. split; [done|]. by etrans.
Qed.

Lemma decides_access m path t :
  resolve_candidate_path os path cwd = Some t -> decides m t ->
  resolve_access_with_cwd os self path cwd = resolved_access m.
Proof. intros Ht [Hm Hmax]. by eapply access_of_winner. Qed.

Lemma decides_own_access m t : decides m t -> resolve_access_with_cwd os self (resolved_path m) cwd = resolved_access m.
Proof.
  intros Hd. eapply decides_access; [|by eapply decides_own]. apply candidate_id, entry_path_normal.
  destruct Hd as [Hm _]. by apply covering_elem in Hm as [? _].
Qed.

Lemma can_write_cases path t :
  resolve_candidate_path os path cwd = Some t ->
  can_write_path_with_cwd os self path cwd = true <->
  resolve_access_with_cwd os self path cwd = Write /\
  match metadata_child_of_writable_root os self t cwd with
  | None => True
  | Some (p, _) => has_explicit_write_entry_for_metadata_path os self p t cwd = true
  end.
Proof.
  intros Ht. unfold can_write_path_with_cwd, is_metadata_write_denied. rewrite Hfull, Hr, Ht. simpl.
  destruct (metadata_child_of_writable_root os self t cwd) as [[p n]|]; destruct (resolve_access_with_cwd os self path cwd);
    simpl; rewrite ?negb_involutive; naive_solver.
Qed.

(** A writable entry that decides some path is writable itself. *)
Lemma deciding_entry_writable m t :
  decides m t -> resolved_access m = Write -> can_write_path_with_cwd os self (resolved_path m) cwd = true.
Proof.
  intros Hd Hw. assert (Hm : m ∈ es) by (destruct Hd as [Hm _]; by apply covering_elem in Hm as [? _]).
  pose proof (entry_path_normal m Hm) as Hn. apply (can_write_cases _ (resolved_path m)); [by apply candidate_id|].
  rewrite (decides_own_access m t) by done. split; [done|].
  pose proof (first_metadata os Hos self Hwf cwd (resolved_path m) Hn) as Hfirst.
  destruct (metadata_child_of_writable_root os self (resolved_path m) cwd) as [[p n]|]; [|done].
  destruct Hfirst as (r & Hb & ->). apply explicit_write_spec; try done. exists m. by destruct Hb as (_ & _ & _ & ?).
Qed.

Lemma writable_entry_elem p :
  p ∈ writable_entries os self cwd <->
  exists e, e ∈ es /\ resolved_access e = Write /\ can_write_path_with_cwd os self p cwd = true /\ p = resolved_path e.
Proof.
  unfold writable_entries. rewrite list_elem_of_fmap. split.
  - intros (e & -> & He). rewrite list_elem_of_In, !filter_In, <- list_elem_of_In in He.
    destruct He as [[He Hw] Hc]. exists e. repeat split; try done. by destruct (resolved_access e).
  - intros (e & He & Hw & Hc & ->). exists e. split; [done|].
    rewrite list_elem_of_In, !filter_In, <- list_elem_of_In. by rewrite Hw.
Qed.

Lemma root_elem r :
  r ∈ get_writable_roots_with_cwd os self cwd ->
  exists e, e ∈ es /\ resolved_access e = Write /\ can_write_path_with_cwd os self (resolved_path e) cwd = true /\
    r = writable_root_of os self cwd (resolved_path e).
Proof.
  unfold get_writable_roots_with_cwd. rewrite Hfull. intros (p & -> & Hp)%list_elem_of_fmap.
  apply dedup_from_sub in Hp as (y & Hy & ->). apply writable_entry_elem in Hy as (e & He & Hw & Hc & ->).
  exists e. by rewrite normalize_effective_plain by by (done || apply entry_path_normal).
Qed.

Lemma root_of_entry e :
  e ∈ es -> resolved_access e = Write -> can_write_path_with_cwd os self (resolved_path e) cwd = true ->
  writable_root_of os self cwd (resolved_path e) ∈ get_writable_roots_with_cwd os self cwd.
Proof.
  intros He Hw Hc. unfold get_writable_roots_with_cwd. rewrite Hfull. apply list_elem_of_fmap_2.
  assert (Hin : resolved_path e ∈ writable_entries os self cwd) by (apply writable_entry_elem; eauto).
  destruct (dedup_from_sup os true [] _ _ Hin) as (x & [Hx|Hx] & Heq); [set_solver|].
  rewrite normalize_effective_plain in Heq by (done || by apply entry_path_normal).
  assert (x = resolved_path e) as <-; [|done]. apply normal_components_inj; [|by apply entry_path_normal|done].
  apply dedup_from_sub in Hx as (y & Hy & ->). apply writable_entry_elem in Hy as (e' & He' & _ & _ & ->).
  rewrite normalize_effective_plain; try done; by apply entry_path_normal.
Qed.

Lemma raw_carveout_none root p raws :
  path_starts_with p root = false -> Forall (fun q => components q = components root) raws -> raw_carveout os root p raws = None.
Proof.
  intros Hp. induction 1 as [|q raws Hq _ IH]; [done|]. simpl.
  unfold path_strip_prefix. rewrite Hq. fold (path_strip_prefix p root).
  destruct (path_strip_prefix p root) eqn:E; [|done]. unfold path_starts_with in Hp. by rewrite E in Hp.
Qed.

Lemma carveout_plain root raws e s :
  normal_form root -> e ∈ es -> Forall (fun q => components q = components root) raws ->
  carveout os root raws e = Some s <->
  s = resolved_path e /\ components root `prefix_of` components (resolved_path e) /\
  components (resolved_path e) <> components root.
Proof.
  intros Hroot He Hraws. unfold carveout. rewrite normalize_effective_plain by (done || by apply entry_path_normal).
  destruct (path_eqb (resolved_path e) root) eqn:Eq.
  - apply path_eqb_spec in Eq. simpl. case_bool_decide; split; (done || tauto).
  - assert (Hne : components (resolved_path e) <> components root) by by intros ?%path_eqb_spec; congruence.
    destruct (path_starts_with (resolved_path e) root) eqn:Es.
    + apply path_starts_with_spec in Es. simpl.
      case_bool_decide; (split; [by intros [= <-] | by intros [-> _]]).
    + rewrite raw_carveout_none by done. simpl. apply not_true_iff_false in Es. rewrite path_starts_with_spec in Es.
      case_bool_decide; (split; [done | by intros (_ & ? & _)]).
Qed.

Lemma raw_roots_plain p :
  normal_form p ->
  Forall (fun q => components q = components p) (raw_writable_roots os self cwd p).
Proof.
  intros Hp. apply Forall_forall. intros q Hq. unfold raw_writable_roots in Hq.
  rewrite list_elem_of_In, filter_In, <- list_elem_of_In in Hq.
  destruct Hq as [Hq Heq%path_eqb_spec]. apply writable_entry_elem in Hq as (e & He & _ & _ & ->).
  by rewrite normalize_effective_plain in Heq by (done || by apply entry_path_normal).
Qed.

Lemma default_subpath_elem p b s :
  s ∈ default_read_only_subpaths_for_writable_root os p b ->
  resolve_gitdir_from_file os (abs_path_join os p GIT) = Some s \/
  exists n, metadata_path_name n = Some n /\ s = abs_path_join os p n.
Proof.
  unfold default_read_only_subpaths_for_writable_root. intros (y & Hy & ->)%dedup_from_sub.
  rewrite !elem_of_app in Hy. destruct Hy as [Hy|[Hy|[Hy|Hy]]].
  - case_match; [|set_solver]. apply elem_of_app in Hy as [Hy| ->%list_elem_of_singleton]; [|right; by exists GIT].
    case_match; [|set_solver]. destruct (resolve_gitdir_from_file os (abs_path_join os p GIT)) as [g|]; simpl in Hy;
      [apply list_elem_of_singleton in Hy as ->; by left | set_solver].
  - case_match; [apply list_elem_of_singleton in Hy as ->; right; by exists AGENTS | set_solver].
  - case_match; [apply list_elem_of_singleton in Hy as ->; right; by exists CODEWITH | set_solver].
  - case_match; [apply list_elem_of_singleton in Hy as ->; right; by exists CODEX | set_solver].
Qed.

Lemma read_only_elem e s :
  e ∈ es -> s ∈ read_only_subpaths (writable_root_of os self cwd (resolved_path e)) ->
  resolve_gitdir_from_file os (abs_path_join os (resolved_path e) GIT) = Some s \/
  (exists n, metadata_path_name n = Some n /\ s = abs_path_join os (resolved_path e) n) \/
  exists c, c ∈ es /\ s = resolved_path c /\ components (resolved_path e) `prefix_of` components s /\
    components s <> components (resolved_path e).
Proof.
  intros He (y & Hy & ->)%dedup_from_sub. apply elem_of_app in Hy as [Hy|Hy].
  - rewrite list_elem_of_In, filter_In, <- list_elem_of_In in Hy. destruct Hy as [Hy _].
    apply default_subpath_elem in Hy as [?|?]; auto.
  - apply list_elem_of_omap in Hy as (c & Hc & Hs). rewrite list_elem_of_In, !filter_In, <- list_elem_of_In in Hc.
    destruct Hc as [[Hc _] _]. apply carveout_plain in Hs as (-> & ? & ?);
      [eauto 10 | by apply entry_path_normal | done | by apply raw_roots_plain, entry_path_normal].
Qed.

Lemma carveout_in e c :
  e ∈ es -> c ∈ es -> can_write_path_with_cwd os self (resolved_path c) cwd = false -> resolved_access c <> Write ->
  components (resolved_path e) `prefix_of` components (resolved_path c) ->
  components (resolved_path c) <> components (resolved_path e) ->
  exists s, s ∈ read_only_subpaths (writable_root_of os self cwd (resolved_path e)) /\
    components s = components (resolved_path c).
Proof.
  intros He Hc Hw Ha Hp Hne.
  destruct (dedup_from_sup os false [] (root_read_only os self cwd (resolved_path e)) (resolved_path c))
    as (x & [Hx|Hx] & Heq); [|set_solver|by exists x].
  apply elem_of_app. right. apply list_elem_of_omap. exists c. split.
  - rewrite list_elem_of_In, !filter_In, <- list_elem_of_In. rewrite Hw.
    repeat split; try done. by destruct (resolved_access c).
  - apply carveout_plain; [by apply entry_path_normal | done | by apply raw_roots_plain, entry_path_normal | done].
Qed.

(** Below a metadata path of its deciding entry nothing can be written, unless that entry lies inside
    the metadata of another one. *)
Lemma writable_no_metadata path t m n :
  resolve_candidate_path os path cwd = Some t -> decides m t -> resolved_access m = Write ->
  can_write_path_with_cwd os self path cwd = true -> below_metadata os self cwd m n t ->
  (forall w n', ~ below_metadata os self cwd w n' (resolved_path m)) -> False.
Proof.
  intros Ht [Hm Hmax] Hw Hc Hb Hnest. apply (can_write_cases path t Ht) in Hc as [_ Hc].
  pose proof (first_metadata os Hos self Hwf cwd t (candidate_normal os Hos _ _ _ Ht)) as Hfirst.
  destruct (metadata_child_of_writable_root os self t cwd) as [[p0 n0]|]; [|by eapply Hfirst].
  destruct Hfirst as (r0 & Hb0 & ->). rewrite explicit_write_spec in Hc by done.
  assert (Hno : ~ explicit_write os self cwd m n t).
  { intros (w & Hwe & Hww & Hwt & Hwm). assert (Hcov : w ∈ covering es t) by by apply covering_elem.
    apply prefix_length in Hwm. rewrite length_app in Hwm. simpl in Hwm.
    destruct (Hmax w Hcov) as [|[Heq _]]; [lia|]. rewrite Heq in Hwm. lia. }
  destruct (metadata_nested os self cwd m n r0 n0 t Hb Hb0) as [Hbad|[[Heq ->]|Hbad]]; [by eapply Hnest | | done].
  apply Hno. unfold explicit_write in *. by rewrite <- Heq.
Qed.

(** A path that its most specific root lets through is decided by that root's entry. *)
Lemma root_decides e t :
  normal_form t -> e ∈ es -> resolved_access e = Write -> can_write_path_with_cwd os self (resolved_path e) cwd = true ->
  is_path_writable (writable_root_of os self cwd (resolved_path e)) t = true ->
  (forall r, r ∈ get_writable_roots_with_cwd os self cwd -> path_starts_with t (root r) = true ->
     length (components (root r)) <= length (components (resolved_path e))) ->
  exists m, decides m t /\ resolved_access m = Write /\ resolved_path m = resolved_path e.
Proof.
  intros Hn He Hw Hc Hp Hspec. unfold is_path_writable in Hp.
  change (root (writable_root_of os self cwd (resolved_path e))) with (resolved_path e) in Hp.
  destruct (path_starts_with t (resolved_path e)) eqn:Hstart; [|done]. cbn [negb] in Hp.
  destruct (existsb (path_starts_with t) _) eqn:Hro; [done|].
  apply path_starts_with_spec in Hstart. assert (Hcov : e ∈ covering es t) by by apply covering_elem.
  destruct (access_cases os self t cwd t Hr (candidate_id os t cwd Hn)) as [[Hnil _]|(m & Hm & _ & Hmax)].
  { fold es in Hnil. rewrite Hnil in Hcov. set_solver. }
  assert (Hd : decides m t) by done. exists m. split; [done|].
  apply covering_elem in Hm as [Hm Hmt]. pose proof (Hmax e Hcov) as Hout.
  assert (Hlen : length (components (resolved_path e)) <= length (components (resolved_path m))).
  { destruct Hout as [|[-> _]]; lia. }
  assert (Hw' : resolved_access m = Write).
  { destruct (decide (resolved_access m = Write)) as [|Hmw]; [done|]. exfalso.
    assert (Hmc : can_write_path_with_cwd os self (resolved_path m) cwd = false).
    { unfold can_write_path_with_cwd. rewrite (decides_own_access m t) by done. by destruct (resolved_access m). }
    destruct (decide (components (resolved_path m) = components (resolved_path e))) as [Heq|Hne].
    - rewrite (normal_components_inj (resolved_path m) (resolved_path e)) in Hmc by
        (done || by apply entry_path_normal). congruence.
    - destruct (carveout_in e m He Hm Hmc Hmw) as (s & Hs & Heq); [by eapply prefix_of_longer | done |].
      apply not_true_iff_false in Hro. apply Hro, existsb_exists. exists s. rewrite <- list_elem_of_In.
      split; [done|]. apply path_starts_with_spec. by rewrite Heq. }
  split; [done|]. apply normal_components_inj; [by apply entry_path_normal .. |].
  eapply prefix_same_length; [done | done |]. apply Nat.le_antisymm; [|done].
  apply (Hspec (writable_root_of os self cwd (resolved_path m))); [|by apply path_starts_with_spec].
  apply root_of_entry; [done | done | by eapply deciding_entry_writable].
Qed.

(** The metadata names of a root that its policy protects. *)
Lemma protected_names p n :
  n ∈ protected_metadata_names (writable_root_of os self cwd p) <->
  n ∈ PROTECTED_METADATA_PATH_NAMES /\
  forall q, q = p \/ q ∈ raw_writable_roots os self cwd p -> can_write_path_with_cwd os self (abs_path_join os q n) cwd = false.
Proof.
  simpl. unfold protected_metadata_names_for_writable_root. rewrite list_elem_of_In, filter_In, <- list_elem_of_In.
  rewrite forallb_forall. setoid_rewrite negb_true_iff. split.
  - intros [Hn Hall]. split; [done|]. intros q [->|Hq]; apply Hall; [by left | right].
    apply list_elem_of_In, list_elem_of_fmap. eauto.
  - intros [Hn Hall]. split; [done|]. intros x [<-|Hx]; [by apply Hall; left|].
    apply list_elem_of_In, list_elem_of_fmap in Hx as (q & -> & Hq). apply Hall. by right.
Qed.

Lemma below_metadata_first m t c rest :
  m ∈ es -> resolved_access m = Write -> normal_form t -> path_strip_prefix t (resolved_path m) = Some (c :: rest) ->
  as_os_str c ∈ PROTECTED_METADATA_PATH_NAMES -> below_metadata os self cwd m (as_os_str c) t.
Proof.
  intros Hm Hw Hn Hs Hin. assert (Hname : metadata_path_name (as_os_str c) = Some (as_os_str c)).
  { revert Hin. generalize (as_os_str c). intros n. unfold PROTECTED_METADATA_PATH_NAMES. rewrite !elem_of_cons, elem_of_nil.
    by intros [->|[->|[->|[->|[]]]]]. }
  apply (metadata_child_spec os Hos self Hwf cwd t m (abs_path_join os (resolved_path m) (as_os_str c))); try done.
  unfold metadata_child. rewrite Hs. simpl. by rewrite Hname.
Qed.

(** The metadata path of a deciding entry cannot be written, unless the entry lies inside the metadata
    of another one. *)
Lemma metadata_path_unwritable m n t :
  decides m t -> resolved_access m = Write -> below_metadata os self cwd m n t ->
  (forall w n', ~ below_metadata os self cwd w n' (resolved_path m)) ->
  can_write_path_with_cwd os self (abs_path_join os (resolved_path m) n) cwd = false.
Proof.
  intros [Hm Hmax] Hw (Hme & _ & Hname & Hjt) Hnest. destruct (metadata_name_ok n Hname) as [Hok Htilde].
  destruct (join_name os Hos (resolved_path m) n (entry_path_normal m Hme) Hok Htilde) as [Hjn Hjc].
  apply not_true_iff_false. rewrite (can_write_cases _ _ (candidate_id os _ cwd Hjn)). intros [_ Hexp].
  pose proof (first_metadata os Hos self Hwf cwd _ Hjn) as Hfirst.
  destruct (metadata_child_of_writable_root os self (abs_path_join os (resolved_path m) n) cwd) as [[p1 n1]|].
  2:{ apply (Hfirst m n). repeat split; try done. by rewrite Hjc. }
  destruct Hfirst as (r1 & Hb1 & ->). rewrite explicit_write_spec in Hexp by done.
  destruct Hexp as (w & Hwe & Hww & Hwj & Hwr). rewrite Hjc in Hwj.
  assert (Hcw : w ∈ covering es t) by (apply covering_elem; split; [done | by etrans]).
  assert (Hwm : length (components (resolved_path w)) <= length (components (resolved_path m))).
  { destruct (Hmax w Hcw) as [|[-> _]]; lia. }
  apply (Hnest r1 n1). destruct Hb1 as (? & ? & ? & _). repeat split; try done. etrans; [exact Hwr|].
  apply (prefix_of_longer _ _ (components t)); [by etrans | | done]. by apply covering_elem in Hm as [_ ?].
Qed.

(** An entry that decides a path does not let through what its root protects. *)
Lemma unprotected_writable path t m :
  resolve_candidate_path os path cwd = Some t -> decides m t -> resolved_access m = Write ->
  (forall r n, below_metadata os self cwd r n t -> forall w n', ~ below_metadata os self cwd w n' (resolved_path r)) ->
  path_contains_protected_metadata_name (writable_root_of os self cwd (resolved_path m)) t = false ->
  can_write_path_with_cwd os self path cwd = true.
Proof.
  intros Ht Hd Hw Hnest Hp. pose proof (candidate_normal os Hos _ _ _ Ht) as Hn. destruct Hd as [Hm Hmax].
  pose proof (proj1 (covering_elem _ _ _) Hm) as [Hme Hmt].
  apply (can_write_cases path t Ht). rewrite (decides_access m path t) by done. split; [done|].
  pose proof (first_metadata os Hos self Hwf cwd t Hn) as Hfirst.
  destruct (metadata_child_of_writable_root os self t cwd) as [[p0 n0]|]; [|done].
  destruct Hfirst as (r0 & Hb0 & ->). apply explicit_write_spec; try done.
  pose proof Hb0 as (Hr0 & Hw0 & Hn0 & Hp0).
  assert (Hr0t : components (resolved_path r0) `prefix_of` components t) by (etrans; [by eexists | done]).
  assert (Hcov0 : r0 ∈ covering es t) by by apply covering_elem.
  destruct (Hmax r0 Hcov0) as [Hlt|[Heq _]].
  - exists m. repeat split; try done. eapply prefix_of_longer; [done | done |]. rewrite length_app. simpl. lia.
  - exfalso. assert (Hrm : resolved_path r0 = resolved_path m) by
      (apply normal_components_inj; [by apply entry_path_normal .. | done]).
    destruct Hp0 as [rest Hrest]. rewrite <- app_assoc, Hrm in Hrest.
    assert (Hstrip : path_strip_prefix t (resolved_path m) = Some (Normal n0 :: rest)) by by apply strip_components_Some.
    unfold path_contains_protected_metadata_name in Hp. cbn [root writable_root_of] in Hp. rewrite Hstrip in Hp.
    apply not_true_iff_false in Hp. apply Hp, existsb_exists. exists n0. rewrite <- list_elem_of_In.
    split; [|by apply bool_decide_eq_true].
    apply (protected_names (resolved_path m)). apply find_some in Hn0 as [Hin _]. split; [by apply list_elem_of_In|].
    assert (Hname : metadata_path_name n0 = Some n0) by by destruct Hb0 as (_ & _ & ? & _).
    intros q Hq. assert (q = resolved_path m) as ->.
    { destruct Hq as [->|Hq]; [done|]. pose proof (raw_roots_plain (resolved_path m) (entry_path_normal m Hme)) as Hraw.
      rewrite Forall_forall in Hraw. unfold raw_writable_roots in Hq.
      pose proof Hq as Hq'. rewrite list_elem_of_In, filter_In, <- list_elem_of_In in Hq'. destruct Hq' as [Hq' _].
      apply writable_entry_elem in Hq' as (e' & He' & _ & _ & ->).
      apply normal_components_inj; [by apply entry_path_normal .. |]. by apply Hraw. }
    assert (Hbm : below_metadata os self cwd m n0 t).
    { repeat split; try done. exists rest. by rewrite <- app_assoc. }
    apply (metadata_path_unwritable m n0 t); try done. by apply (Hnest m n0).
Qed.

Lemma decider_lets_through path t m :
  resolve_candidate_path os path cwd = Some t -> decides m t -> resolved_access m = Write ->
  can_write_path_with_cwd os self path cwd = true ->
  (forall n, below_metadata os self cwd m n t -> forall w n', ~ below_metadata os self cwd w n' (resolved_path m)) ->
  (forall g, resolve_gitdir_from_file os (abs_path_join os (resolved_path m) GIT) = Some g -> path_starts_with t g = false) ->
  is_path_writable (writable_root_of os self cwd (resolved_path m)) t = true.
Proof.
  intros Ht Hd Hmw Hc Hnest Hgit. pose proof Hd as [Hm Hmax]. pose proof (proj1 (covering_elem _ _ _) Hm) as [Hme Hmt].
  assert (Hno : forall n, ~ below_metadata os self cwd m n t).
  { intros n Hb. eapply writable_no_metadata; try done. by eapply Hnest. }
  unfold is_path_writable. change (root (writable_root_of os self cwd (resolved_path m))) with (resolved_path m).
  rewrite (proj2 (path_starts_with_spec _ _)) by done. cbn [negb].
  destruct (existsb (path_starts_with t) _) eqn:Hro.
  - exfalso. apply existsb_exists in Hro as (x & Hx & Hxt%path_starts_with_spec). apply list_elem_of_In in Hx.
    destruct (read_only_elem m x Hme Hx) as [Hg|[(n & Hnn & ->)|(c & Hce & -> & Hpre & Hne)]].
    + specialize (Hgit _ Hg). by apply not_true_iff_false in Hgit; rewrite path_starts_with_spec in Hgit.
    + apply (Hno n). destruct (metadata_name_ok n Hnn) as [Hok Htilde].
      destruct (join_name os Hos (resolved_path m) n) as [_ Hjc]; try done; [by apply entry_path_normal|].
      rewrite Hjc in Hxt. by repeat split.
    + apply prefix_length in Hpre as Hlen. destruct (Hmax c) as [Hl|[Heq _]]; [by apply covering_elem | lia | done].
  - destruct (path_contains_protected_metadata_name _ t) eqn:Hp; [|done]. exfalso.
    unfold path_contains_protected_metadata_name in Hp.
    change (root (writable_root_of os self cwd (resolved_path m))) with (resolved_path m) in Hp.
    destruct (path_strip_prefix t (resolved_path m)) as [[|c rest]|] eqn:Hs; try done.
    apply existsb_exists in Hp as (n & Hin' & <-%bool_decide_eq_true). apply list_elem_of_In in Hin'.
    apply (protected_names (resolved_path m)) in Hin' as [Hin' _].
    eapply Hno, below_metadata_first; try done. by eapply candidate_normal.
Qed.
End agree.

(** C2: The roots handed to the sandboxes and the decision agree, under a restricted policy without write access to
    the whole disk, on a host without symbolic links whose home and current directories are absolute, with normalised
    entries. A path that its most specific writable root lets through can be written; and a path that can be written
    is let through by its most specific writable root, unless it lies in a repository directory that the [.git] file
    of a root points to. Excluded are paths inside the metadata of a writable entry that itself lies in the metadata
    of another, such as [/repo/.codewith/worktree] with [/repo]: there the decision depends on the order of the
    entries. *)
Theorem writable_roots_agree os self cwd path t :
  os_wf os -> no_symlinks os -> policy_wf self -> is_restricted self = true -> has_full_disk_write_access self = false ->
  resolve_candidate_path os path cwd = Some t ->
  (forall r n, below_metadata os self cwd r n t -> forall w n', ~ below_metadata os self cwd w n' (resolved_path r)) ->
  let roots := get_writable_roots_with_cwd os self cwd in
  let most_specific r := r ∈ roots /\ forall r', r' ∈ roots -> path_starts_with t (root r') = true ->
                           length (components (root r')) <= length (components (root r)) in
  (forall r, most_specific r -> is_path_writable r t = true -> can_write_path_with_cwd os self path cwd = true) /\
  (can_write_path_with_cwd os self path cwd = true ->
   (forall r g, r ∈ roots -> resolve_gitdir_from_file os (abs_path_join os (root r) GIT) = Some g ->
      path_starts_with t g = false) ->
   exists r, most_specific r /\ is_path_writable r t = true).
Proof.
  intros Hos Hplain Hwf Hr Hfull Ht Hnest roots most_specific.
  pose proof (candidate_normal os Hos _ _ _ Ht) as Hn. split.
  - intros r [Hroot Hspec] Hp. destruct (root_elem os Hos Hplain self Hwf cwd Hfull r Hroot) as (e & He & Hw & Hc & ->).
    destruct (root_decides os Hos Hplain self Hwf cwd Hr Hfull e t Hn He Hw Hc Hp Hspec) as (m & Hd & Hmw & Hpath).
    eapply (unprotected_writable os Hos Hplain self Hwf cwd Hr Hfull path t m); try done. rewrite Hpath.
    unfold is_path_writable in Hp. by repeat case_match.
  - intros Hc Hgit. pose proof Hc as Hc'. apply (can_write_cases os self cwd Hr Hfull path t Ht) in Hc' as [Ha _].
    destruct (access_cases os self path cwd t Hr Ht) as [[_ Hbad]|(m & Hm & Hacc & Hmax)]; [congruence|].
    assert (Hd : decides os self cwd m t) by done. assert (Hmw : resolved_access m = Write) by congruence.
    pose proof (proj1 (covering_elem _ _ _) Hm) as [Hme Hmt].
    assert (Hin : writable_root_of os self cwd (resolved_path m) ∈ roots).
    { apply (root_of_entry os Hos Hplain self Hwf cwd Hr Hfull); [done | done |]. by eapply deciding_entry_writable. }
    exists (writable_root_of os self cwd (resolved_path m)). split.
    + split; [done|]. intros r' Hr' Hst. destruct (root_elem os Hos Hplain self Hwf cwd Hfull r' Hr') as (e & He & Hw & _ & ->).
      apply path_starts_with_spec in Hst. simpl in *.
      destruct (Hmax e) as [|[-> _]]; [by apply covering_elem | lia | done].
    + eapply decider_lets_through; try done. { intros n Hb. by eapply Hnest. } intros g Hg. by eapply Hgit.
Qed.

(** ** Denied reads *)

Lemma append_deny_spec es existing :
  exists added, append_deny_entries es existing = es ++ added /\ Forall (fun e => entry_access e = Deny) added /\
  forall e, e ∈ existing -> entry_access e = Deny -> exists e', e' ∈ append_deny_entries es existing /\ (e' = e \/ entry_eqb e' e = true).
Proof.
  unfold append_deny_entries. set (f := fun entry => bool_decide (entry_access entry = Deny)).
  assert (Hgen : forall l, Forall (fun e => entry_access e = Deny) l -> forall es,
    let r := foldl (fun es deny_entry => if existsb (fun entry => entry_eqb entry deny_entry) es then es else es ++ [deny_entry]) es l in
    (exists added, r = es ++ added /\ Forall (fun e => entry_access e = Deny) added) /\
    forall e, e ∈ l -> exists e', e' ∈ r /\ (e' = e \/ entry_eqb e' e = true)).
  { induction 1 as [|x l Hx _ IH]; intros es0; [split; [exists []; by rewrite app_nil_r | set_solver]|]. simpl.
    destruct (existsb _ es0) eqn:E.
    - destruct (IH es0) as [(added & Hr & Hd) Hall]. split; [eauto|]. intros e [->|He]%elem_of_cons; [|by apply Hall].
      apply existsb_exists in E as (y & Hy & Heq). exists y. split; [|by right].
      rewrite Hr. apply elem_of_app. left. by apply list_elem_of_In.
    - destruct (IH (es0 ++ [x])) as [(added & Hr & Hd) Hall]. split.
      + exists ([x] ++ added). rewrite Hr, app_assoc. split; [done|]. by constructor.
      + intros e [->|He]%elem_of_cons; [|by apply Hall]. exists x. split; [|by left]. rewrite Hr. set_solver. }
  destruct (Hgen (List.filter f existing)) with (es := es) as [(added & Hr & Hd) Hall].
  { apply Forall_forall. intros e He. rewrite list_elem_of_In, filter_In in He.
    destruct He as [_ He]. by apply bool_decide_eq_true in He. }
  exists added. split; [done|]. split; [done|]. intros e He Ha. apply Hall.
  rewrite list_elem_of_In, filter_In, <- list_elem_of_In. split; [done | by apply bool_decide_eq_true].
Qed.

Section deny.
Context (os : Os) (Hos : os_wf os) (cwd d : str) (Hcwd : abs_path os cwd = Some d).

(** Equal entries resolve to the same place. *)
Lemma equal_entries_resolve a b p :
  entry_eqb a b = true -> resolve_entry_path os (entry_path b) (Some d) = Some p ->
  entry_access a = entry_access b /\
  exists q, resolve_entry_path os (entry_path a) (Some d) = Some q /\ components q = components p.
Proof.
  unfold entry_eqb. rewrite andb_true_iff, bool_decide_eq_true. intros [Hp Ha] Hb. split; [done|].
  destruct (entry_path a) as [x|x|x], (entry_path b) as [y|y|y]; simpl in *; try done.
  - simplify_eq. apply path_eqb_spec in Hp. eauto.
  - destruct x as [| |x| | |], y as [| |y| | |]; try done; try by eauto.
    destruct x as [x|], y as [y|]; simpl in *; try done; try by eauto. simplify_eq. eexists. split; [done|].
    apply path_eqb_spec in Hp. f_equal. apply resolve_same_components; [apply Hos | | done].
    apply normal_absolute. by eapply abs_path_normal.
Qed.


(** The policy the denials are added to: an unrestricted one becomes a grant of the root. *)
Lemma deny_base self p :
  sandbox_kind self <> ExternalSandbox -> normal_form p ->
  exists base,
    (if bool_decide (sandbox_kind self = Unrestricted) then restricted [mkEntry (Special Root) Write] else self) = base /\
    is_restricted base = true /\
    forall t, (forall c, c ∈ resolved_entries_with_cwd os self cwd -> path_starts_with t (resolved_path c) = true ->
      length (components (resolved_path c)) <= length (components p)) ->
    forall c, c ∈ resolved_entries_with_cwd os base cwd -> path_starts_with t (resolved_path c) = true ->
      length (components (resolved_path c)) <= length (components p).
Proof.
  intros Hk Hp. eexists. split; [done|]. case_bool_decide as Hu; (split; [|intros t Hspec]).
  - done.
  - intros c Hc _. apply (resolved_elem os cwd d Hcwd) in Hc as (e0 & He0 & Hr & _).
    simpl in He0. apply list_elem_of_singleton in He0 as ->. simpl in Hr.
    rewrite root_of_normal in Hr by by eapply abs_path_normal. injection Hr as <-.
    destruct (normal_components p Hp) as [names ->]. simpl. lia.
  - apply restricted_kind. by destruct (sandbox_kind self).
  - done.
Qed.
End deny.

(** Read denials survive a replacement of the allow side of a policy: when the denials of an
    existing policy are preserved in a new one that no external sandbox enforces, a path below a denied
    entry stays denied, unless the new policy has an entry strictly below the denied one for it. *)
Theorem denials_preserved os self existing cwd d path t e p :
  os_wf os -> policy_wf existing -> abs_path os cwd = Some d -> sandbox_kind self <> ExternalSandbox ->
  resolve_candidate_path os path cwd = Some t ->
  e ∈ entries existing -> entry_access e = Deny -> resolve_entry_path os (entry_path e) (Some d) = Some p ->
  path_starts_with t p = true ->
  (forall c, c ∈ resolved_entries_with_cwd os self cwd -> path_starts_with t (resolved_path c) = true ->
     length (components (resolved_path c)) <= length (components p)) ->
  resolve_access_with_cwd os (preserve_deny_read_restrictions_from self existing) path cwd = Deny.
Proof.
  intros Hos Hwf Hcwd Hk Ht He Hdeny Hp Hst%path_starts_with_spec Hspec. unfold preserve_deny_read_restrictions_from.
  rewrite (proj2 (existsb_exists _ (entries existing))), andb_true_r
    by (exists e; rewrite <- list_elem_of_In; by rewrite bool_decide_eq_true).
  destruct (deny_base os Hos cwd d Hcwd self p Hk) as (base & -> & Hr & Hbase).
  { unfold policy_wf in Hwf. rewrite Forall_forall in Hwf. eapply entry_normal; [done | by apply Hwf | | done].
    intros ? [= <-]. by eapply abs_path_normal. }
  rewrite Hr. simpl. destruct (append_deny_spec (entries base) (entries existing)) as (added & Heq & Hadd & Hall).
  destruct (Hall e He Hdeny) as (e' & He' & Hsame).
  assert (Hq : exists q, resolve_entry_path os (entry_path e') (Some d) = Some q /\ components q = components p /\ entry_access e' = Deny).
  { destruct Hsame as [->|Hsame]; [eauto|].
    destruct (equal_entries_resolve os Hos cwd d Hcwd e' e p Hsame Hp) as [Ha (q & Hq & Hc)]. exists q. by rewrite Ha. }
  destruct Hq as (q & Hq & Hqc & Hqa). set (new := mkPolicy _ _ _).
  assert (Hin : mkResolved q Deny ∈ covering (resolved_entries_with_cwd os new cwd) t).
  { apply covering_elem. simpl. rewrite Hqc. split; [|done]. apply (resolved_elem os cwd d Hcwd). by exists e'. }
  destruct (access_cases os new path cwd t Hr Ht) as [[_ ->]|(m & Hm & -> & Hmax)]; [done|].
  destruct (Hmax _ Hin) as [Hl|[_ Hl]]; simpl in Hl; [|destruct (resolved_access m); simpl in Hl; done || lia].
  apply covering_elem in Hm as [Hm Hmt]. apply (resolved_elem os cwd d Hcwd) in Hm as (e0 & He0 & Hr0 & Ha0).
  simpl in He0. rewrite Heq in He0. apply elem_of_app in He0 as [He0|He0].
  - exfalso. rewrite Hqc in Hl. assert (Hle : length (components (resolved_path m)) <= length (components p)); [|lia].
    apply (Hbase t Hspec); [|by apply path_starts_with_spec]. apply (resolved_elem os cwd d Hcwd). eauto.
  - rewrite Forall_forall in Hadd. rewrite Ha0. by apply Hadd.
Qed.

(** ** The matcher of denied reads *)

Lemma add_matchers_total globs patterns st :
  exists r, try_fold (add_matcher globs FailClosed) patterns st = Ok r.
Proof.
  revert st; induction patterns as [|x l IH]; intros st; simpl; [eauto|].
  assert (exists st', add_matcher globs FailClosed st x = Ok st') as [st' ->]; [|apply IH].
  unfold add_matcher. destruct (globs x); eauto.
Qed.

Lemma own_candidate os p : default p (abs_path os p) ∈ normalized_and_canonical_candidates os p.
Proof.
  unfold normalized_and_canonical_candidates, push_unique at 2. simpl.
  case_match; [|set_solver]. unfold push_unique. case_match; set_solver.
Qed.

(** The runtime check of reads enforces the denials: the matcher of a restricted policy is always
    built, malformed patterns making it deny everything, and it denies every path whose access a deny
    entry decides (an entry for the whole file system aside). *)
Theorem denied_reads_enforced os globs self cwd d path t e :
  os_wf os -> no_symlinks os -> policy_wf self -> is_restricted self = true -> abs_path os cwd = Some d ->
  abs_path os path = Some t -> decides os self cwd e t -> resolved_access e = Deny ->
  components (resolved_path e) <> [RootDir] ->
  exists m, build os globs self cwd FailClosed = Ok (Some m) /\ is_read_denied os m path = true.
Proof.
  intros Hos Hplain Hwf Hr Hcwd Ht Hd Ha Hroot. pose proof Hd as [Hc Hmax].
  pose proof (proj1 (covering_elem _ _ _) Hc) as [He Het].
  assert (Hhas : has_denied_read_restrictions self = true).
  { unfold has_denied_read_restrictions. rewrite Hr. apply existsb_exists.
    apply (resolved_elem os cwd d Hcwd) in He as (e0 & He0 & _ & Hacc). exists e0.
    rewrite <- list_elem_of_In, bool_decide_eq_true. split; [done | congruence]. }
  unfold build. rewrite Hhas. simpl.
  destruct (add_matchers_total globs (get_unreadable_globs_with_cwd os self cwd) ([], false)) as [[ms inv] ->]. simpl.
  eexists. split; [done|]. unfold is_read_denied. simpl. destruct inv; [done|].
  assert (Hin : exists x, x ∈ get_unreadable_roots_with_cwd os self cwd /\ components x = components (resolved_path e)).
  { unfold get_unreadable_roots_with_cwd. rewrite Hr, Hcwd. simpl. rewrite root_of_normal by by eapply abs_path_normal.
    match goal with |- exists x, x ∈ dedup_absolute_paths os ?l true /\ _ =>
      destruct (dedup_from_sup os true [] l (resolved_path e)) as (x & [Hx|Hx] & Heq) end.
    - apply list_elem_of_fmap_2. rewrite list_elem_of_In, !filter_In, <- list_elem_of_In. repeat split; [done | by rewrite Ha | |].
      + unfold can_read_path_with_cwd. by rewrite (decides_own_access os Hos self Hwf cwd Hr e t), Ha.
      + apply negb_true_iff, not_true_iff_false. simpl. rewrite path_eqb_spec. intros Heq. by apply Hroot.
    - set_solver.
    - exists x. split; [done|]. by rewrite Heq, normalize_effective_plain by (done || by eapply resolved_normal). }
  destruct Hin as (x & Hx & Hxc).
  assert (Hxn : normal_form x).
  { unfold get_unreadable_roots_with_cwd in Hx. rewrite Hr in Hx. simpl in Hx. apply dedup_from_sub in Hx as (y & Hy & ->).
    apply list_elem_of_fmap in Hy as (e' & -> & He'). rewrite list_elem_of_In, !filter_In, <- list_elem_of_In in He'.
    destruct He' as [[[He' _] _] _]. pose proof (resolved_normal os Hos self cwd e' Hwf He').
    by rewrite normalize_effective_plain. }
  rewrite (proj2 (existsb_exists _ _)); [done|]. exists (normalized_and_canonical_candidates os x). split.
  { apply list_elem_of_In, list_elem_of_fmap_2. done. }
  apply existsb_exists. exists t. pose proof (own_candidate os path) as Hown. rewrite Ht in Hown. simpl in Hown.
  split; [by apply list_elem_of_In|]. apply existsb_exists. exists x. pose proof (own_candidate os x) as Hownx.
  rewrite (abs_path_id os x Hxn) in Hownx. split; [by apply list_elem_of_In|].
  apply orb_true_iff. right. apply path_starts_with_spec. by rewrite Hxc.
Qed.

(** ** Round trips *)

(** Entries that only add default read-only paths. *)
Definition default_entry (e : FileSystemSandboxEntry) : Prop :=
  entry_access e = Read /\ match entry_path e with Special Root => False | _ => True end.

Definition adds_defaults (es es' : list FileSystemSandboxEntry) : Prop :=
  exists added, es' = es ++ added /\ Forall default_entry added.

#[global] Instance adds_defaults_preorder : PreOrder adds_defaults.
Proof.
  split.
  - intros es. exists []. by rewrite app_nil_r.
  - intros es es1 es2 (a & -> & Ha) (b & -> & Hb). exists (a ++ b). rewrite app_assoc. by rewrite Forall_app.
Qed.

Lemma append_default_spec es path :
  match path with Special Root => False | _ => True end ->
  adds_defaults es (append_default_read_only_entry_if_no_explicit_rule es path).
Proof.
  intros Hp. unfold append_default_read_only_entry_if_no_explicit_rule. destruct (existsb _ es); [done|].
  exists [mkEntry path Read]. split; [done|]. by repeat constructor.
Qed.

Lemma foldl_adds_defaults {A} (f : list FileSystemSandboxEntry -> A -> list FileSystemSandboxEntry) l es :
  (forall x es, adds_defaults es (f es x)) -> adds_defaults es (foldl f es l).
Proof. intros Hf. revert es. induction l as [|x l IH]; intros es; [done|]. simpl. etrans; [apply Hf | apply IH]. Qed.

Lemma append_paths_spec paths es : adds_defaults es (append_default_paths es paths).
Proof. apply foldl_adds_defaults. intros x es0. by apply append_default_spec. Qed.

Lemma append_roots_spec os roots es : adds_defaults es (append_root_defaults os es roots).
Proof. apply foldl_adds_defaults. intros x es0. apply append_paths_spec. Qed.

Lemma workspace_write_defaults os roots tmp slash :
  adds_defaults (workspace_grants roots tmp slash) (entries (workspace_write os roots tmp slash)).
Proof. unfold workspace_write. simpl. rewrite <- append_roots_spec. by do 4 (etrans; [|by apply append_default_spec]). Qed.

Lemma workspace_legacy_entries os roots net tmp slash cwd :
  exists added,
    from_legacy_sandbox_policy_for_cwd os (WorkspaceWrite roots net tmp slash) cwd =
    restricted (workspace_grants roots tmp slash ++ added) /\ Forall default_entry added.
Proof.
  assert (Hadd : adds_defaults (workspace_grants roots tmp slash)
    (entries (from_legacy_sandbox_policy_for_cwd os (WorkspaceWrite roots net tmp slash) cwd))).
  { simpl. etrans; [|apply append_roots_spec]. etrans; [apply workspace_write_defaults|].
    destruct (abs_path os cwd); [apply append_paths_spec | done]. }
  destruct Hadd as (added & Heq & Hall). exists added. split; [|done]. rewrite <- Heq. done.
Qed.

(** Default entries leave the scan as it is. *)
Lemma scan_defaults os c st added : Forall default_entry added -> foldl (legacy_scan_step os c) st added = st.
Proof.
  induction 1 as [|e l [Ha Hp] _ IH]; [done|]. simpl. rewrite <- IH at 2. f_equal.
  unfold legacy_scan_step. rewrite Ha. simpl. destruct (entry_path e) as [q|g|v]; [done|done|].
  destruct v as [| |sub| | |]; try done. rewrite andb_false_r. by case_match.
Qed.

Lemma scan_roots os d roots st :
  Forall (fun r => components r <> components d) roots ->
  foldl (legacy_scan_step os (Some d)) st (map (fun path => mkEntry (Path path) Write) roots) =
  {| workspace_root_writable := workspace_root_writable st; scan_writable_roots := scan_writable_roots st ++ roots;
     tmpdir_writable := tmpdir_writable st; slash_tmp_writable := slash_tmp_writable st;
     unbridgeable_root_write := unbridgeable_root_write st |}.
Proof.
  intros Hr. revert st. induction Hr as [|r l Hr _ IH]; intros st; simpl; [rewrite app_nil_r; by destruct st|].
  rewrite IH. unfold legacy_scan_step. simpl. destruct (path_eqb d r) eqn:E; [by apply path_eqb_spec in E|].
  simpl. by rewrite <- app_assoc.
Qed.

Lemma dedup_distinct os seen l :
  NoDup (map components l) -> Forall (fun x => Forall (fun s => components x <> components s) seen) l ->
  dedup_from os false seen l = l.
Proof.
  revert seen. induction l as [|x l IH]; intros seen Hnd Hf; [done|]. simpl in *.
  apply NoDup_cons in Hnd as [Hx Hnd]. apply Forall_cons in Hf as [Hxs Hf].
  destruct (existsb (path_eqb x) seen) eqn:E.
  { apply existsb_exists in E as (y & Hy & Heq%path_eqb_spec). rewrite Forall_forall in Hxs.
    exfalso. apply (Hxs y); [by apply list_elem_of_In | done]. }
  f_equal. apply IH; [done|]. apply Forall_forall. intros y Hy. constructor.
  - intros Heq. apply Hx. rewrite <- Heq. by apply list_elem_of_fmap_2.
  - rewrite Forall_forall in Hf. by apply Hf.
Qed.

(** Legacy sandbox policies survive the trip through the split representation: projecting a legacy
    policy to filesystem and network permissions for a working directory and back gives the policy
    itself, when its extra writable roots are distinct and do not repeat the working directory; and a
    permission profile is recovered from its enforcement, filesystem and network parts. *)
Theorem legacy_roundtrip os cwd d :
  abs_path os cwd = Some d ->
  (forall legacy,
     (forall roots net tmp slash, legacy = WorkspaceWrite roots net tmp slash ->
        NoDup (map components roots) /\ Forall (fun r => components r <> components d) roots) ->
     to_legacy_sandbox_policy os (from_legacy_sandbox_policy_for_cwd os legacy cwd) (network_of_legacy legacy) cwd = Ok legacy) /\
  (forall profile,
     (forall es depth net, profile = Managed (ManagedRestricted es (Some depth)) net -> depth <> 0%N) ->
     from_runtime_permissions_with_enforcement (enforcement profile) (file_system_sandbox_policy profile)
       (network_sandbox_policy profile) = Some profile).
Proof.
  intros Hcwd. split.
  - intros [|net|net|roots net tmp slash] Hwf; [done | by destruct net | by destruct net |].
    destruct (Hwf _ _ _ _ eq_refl) as [Hnd Hne].
    destruct (workspace_legacy_entries os roots net tmp slash cwd) as (added & -> & Hadd).
    unfold to_legacy_sandbox_policy. cbn [sandbox_kind restricted].
    assert (Hfull : has_full_disk_write_access (restricted (workspace_grants roots tmp slash ++ added)) = false).
    { unfold has_full_disk_write_access. simpl. apply andb_false_iff. left. apply not_true_iff_false.
      intros ([] & Hr & [=])%root_access. cbn [entries restricted] in Hr. unfold workspace_grants in Hr.
      rewrite !elem_of_cons, !elem_of_app in Hr. rewrite Forall_forall in Hadd.
      destruct Hr as [Hr|[Hr|[[Hr|[Hr|Hr]]|Hr]]]; [done | done | destruct slash; set_solver | destruct tmp; set_solver | |].
      - apply list_elem_of_fmap in Hr as (? & ? & _). done.
      - by destruct (Hadd _ Hr). }
    fold (restricted (workspace_grants roots tmp slash ++ added)). rewrite Hfull, Hcwd. cbn [entries restricted].
    unfold workspace_grants. rewrite !foldl_app, scan_defaults by done.
    rewrite scan_roots by done.
    unfold dedup_absolute_paths. destruct slash, tmp; simpl; rewrite dedup_distinct by (done || by apply Forall_true); by destruct net.
  - intros [[es [depth|]|] net| |net] Hd; try done.
    unfold from_runtime_permissions_with_enforcement. simpl. unfold non_zero.
    destruct (N.eqb_spec depth 0); [by destruct (Hd es depth net)|done].
Qed.

(** ** Witnesses *)

Lemma example_no_symlinks : no_symlinks example_os.
Proof. by split. Qed.

Lemma workspace_no_metadata r n :
  ~ below_metadata example_os (restricted workspace_entries) (lit "/repo") r n (lit "/repo/src/x").
Proof.
  intros (Hr & Hw & Hn & [k Hk]). destruct (workspace_resolved r Hr) as [ -> | [ -> | -> ]]; try done.
  injection Hk as <- _. done.
Qed.

Lemma writable_roots_agree_witness :
  exists r, r ∈ get_writable_roots_with_cwd example_os (restricted workspace_entries) (lit "/repo") /\
    is_path_writable r (lit "/repo/src/x") = true.
Proof.
  destruct (writable_roots_agree example_os (restricted workspace_entries) (lit "/repo") (lit "src/x") (lit "/repo/src/x"))
    as [_ Hback].
  - apply example_os_wf.
  - apply example_no_symlinks.
  - repeat constructor. by apply normal_check.
  - done.
  - by vm_compute.
  - by vm_compute.
  - intros r n Hb. exfalso. by apply (workspace_no_metadata r n).
  - destruct Hback as (r & [Hr _] & Hw); [by vm_compute | done | by exists r].
Defined.

(** The enforced roots of the example: the workspace, with the denied directory and the metadata
    protected. *)
Example workspace_roots :
  get_writable_roots_with_cwd example_os (restricted workspace_entries) (lit "/repo") =
  [mkRoot (lit "/repo") [lit "/repo/.codewith"; lit "/repo/.codex"; lit "/repo/vendor"] PROTECTED_METADATA_PATH_NAMES].
Proof. by vm_compute. Qed.

Lemma denials_preserved_witness :
  resolve_access_with_cwd example_os (preserve_deny_read_restrictions_from unrestricted (restricted workspace_entries))
    (lit "vendor/x") (lit "/repo") = Deny.
Proof.
  apply (denials_preserved example_os unrestricted (restricted workspace_entries) (lit "/repo") (lit "/repo")
    (lit "vendor/x") (lit "/repo/vendor/x") (mkEntry (Path (lit "/repo/vendor")) Deny) (lit "/repo/vendor")).
  - apply example_os_wf.
  - repeat constructor. by apply normal_check.
  - by vm_compute.
  - done.
  - by vm_compute.
  - by do 2 apply list_elem_of_further; apply list_elem_of_here.
  - done.
  - done.
  - by vm_compute.
  - intros c Hc. by apply not_elem_of_nil in Hc.
Defined.

Lemma denied_reads_enforced_witness :
  exists m, build example_os (fun _ => Err (lit "unsupported")) (restricted workspace_entries) (lit "/repo") FailClosed = Ok (Some m) /\
    is_read_denied example_os m (lit "/repo/vendor/x") = true.
Proof.
  apply (denied_reads_enforced example_os (fun _ => Err (lit "unsupported")) (restricted workspace_entries) (lit "/repo") (lit "/repo")
    (lit "/repo/vendor/x") (lit "/repo/vendor/x") (mkResolved (lit "/repo/vendor") Deny)).
  - apply example_os_wf.
  - apply example_no_symlinks.
  - repeat constructor. by apply normal_check.
  - done.
  - by vm_compute.
  - by vm_compute.
  - split.
    + apply covering_elem. split; [by do 2 apply list_elem_of_further; apply list_elem_of_here|].
      by exists [Normal (lit "x")].
    + intros e [He _]%covering_elem. destruct (workspace_resolved e He) as [ -> | [ -> | -> ]];
        [left; vm_compute; lia | left; vm_compute; lia | by right].
  - done.
  - done.
Defined.

Lemma legacy_roundtrip_witness :
  to_legacy_sandbox_policy example_os
    (from_legacy_sandbox_policy_for_cwd example_os (WorkspaceWrite [lit "/data"] true false true) (lit "/repo"))
    NetEnabled (lit "/repo") = Ok (WorkspaceWrite [lit "/data"] true false true).
Proof.
  apply (proj1 (legacy_roundtrip example_os (lit "/repo") (lit "/repo") eq_refl) (WorkspaceWrite [lit "/data"] true false true)).
  intros roots net tmp slash [= <- <- <- <-]. split; [apply NoDup_singleton | by repeat constructor].
Defined.

(** The repository a [.git] file points to becomes a read-only subpath of the root even when it lies
    elsewhere. *)
Example gitdir_outside_root :
  let os := {| home_dir := None; current_dir := Some (lit "/w"); tmpdir := None;
               is_dir := fun _ => false; is_file := fun p => bool_decide (p = lit "/w/.git");
               path_exists := fun p => bool_decide (p = lit "/main/.git/worktrees/w");
               read_to_string := fun _ => Some (lit "gitdir: /main/.git/worktrees/w");
               symlink_metadata := fun _ => None; canonicalize := fun _ => None |} in
  read_only_subpaths <$> legacy_writable_roots_with_cwd os (WorkspaceWrite [] false true true) (lit "/w") =
  [[lit "/main/.git/worktrees/w"; lit "/w/.git"; lit "/w/.codewith"; lit "/w/.codex"]].
Proof. by vm_compute. Qed.

End WritableRoots.
