(* ===== verification/SandboxTransforms.v ===== *)
(** * Additional permissions and the choice of a sandbox: sandboxing/src/policy_transforms.rs and manager.rs

    The permissions a command asks for on top of the session's, what of them a grant covers, the policy
    that results, and whether the platform's sandbox must be used.  The compiled globs of the [globset]
    crate are a parameter. *)

From S2P Require Import Prelude Text AbsolutePath Permissions WritableRoots.

Module SandboxTransforms.
Import AbsolutePath Permissions WritableRoots.

(** ** Data *)

(** [codex-rs/protocol/src/models.rs:64-68 FileSystemPermissions] *)
Record FileSystemPermissions := mkFs { fs_entries : list FileSystemSandboxEntry; fs_glob_depth : option N }.

(** [codex-rs/protocol/src/models.rs:202-205 NetworkPermissions] *)
Record NetworkPermissions := mkNet { enabled : option bool }.

(** [codex-rs/protocol/src/models.rs:213-219 AdditionalPermissionProfile] *)
Record AdditionalPermissionProfile := mkAdditional {
  network : option NetworkPermissions;
  file_system : option FileSystemPermissions
}.

(** [codex-rs/protocol/src/models.rs:73-75 FileSystemPermissions::is_empty] *)
Definition fs_is_empty (self : FileSystemPermissions) : bool := bool_decide (fs_entries self = []).

(** [codex-rs/protocol/src/models.rs:208-210 NetworkPermissions::is_empty] *)
Definition net_is_empty (self : NetworkPermissions) : bool := bool_decide (enabled self = None).

(** [codex-rs/protocol/src/models.rs:222-224 AdditionalPermissionProfile::is_empty] *)
Definition additional_is_empty (self : AdditionalPermissionProfile) : bool :=
  match network self, file_system self with None, None => true | _, _ => false end.

(** [Option::filter]. *)
Definition option_filter {A} (f : A -> bool) (o : option A) : option A := match o with Some x => if f x then o else None | None => None end.

(** [codex-rs/sandboxing/src/policy_transforms.rs:233-237 GlobScanDepth] *)
Inductive GlobScanDepth := Bounded (depth : N) | Unbounded.

(** [codex-rs/sandboxing/src/policy_transforms.rs:217-231 effective_glob_scan_depth] *)
Definition effective_glob_scan_depth (es : list FileSystemSandboxEntry) (depth : option N) : option GlobScanDepth :=
  if existsb (fun entry => bool_decide (entry_access entry = Deny) &&
                match entry_path entry with GlobPattern _ => true | _ => false end) es
  then Some (match depth with Some depth => Bounded depth | None => Unbounded end)
  else None.

(** [codex-rs/sandboxing/src/policy_transforms.rs:197-215 merge_glob_scan_max_depth] *)
Definition merge_glob_scan_max_depth (left_entries : list FileSystemSandboxEntry) (left_depth : option N)
    (right_entries : list FileSystemSandboxEntry) (right_depth : option N) : option N :=
  match effective_glob_scan_depth left_entries left_depth, effective_glob_scan_depth right_entries right_depth with
  | Some Unbounded, _ | _, Some Unbounded => None
  | Some (Bounded l), Some (Bounded r) => Some (N.max l r)
  | Some (Bounded depth), None | None, Some (Bounded depth) => Some depth
  | None, None => None
  end.

(** [if !v.contains(&x) { v.push(x) }]. *)
Definition push_entry (es : list FileSystemSandboxEntry) (entry : FileSystemSandboxEntry) : list FileSystemSandboxEntry :=
  if existsb (entry_eqb entry) es then es else es ++ [entry].

(** [codex-rs/sandboxing/src/policy_transforms.rs:406-417 merge_permission_entries] *)
Definition merge_permission_entries (base permissions : list FileSystemSandboxEntry) : list FileSystemSandboxEntry :=
  foldl push_entry [] (base ++ permissions).

Definition network_enabled (o : option NetworkPermissions) : bool :=
  match o with Some n => bool_decide (enabled n = Some true) | None => false end.

(** [codex-rs/sandboxing/src/policy_transforms.rs:71-123 merge_permission_profiles] *)
Definition merge_permission_profiles (base permissions : option AdditionalPermissionProfile)
    : option AdditionalPermissionProfile :=
  match permissions with
  | None => base
  | Some permissions =>
      match base with
      | Some base =>
          let net := if network_enabled (network base) || network_enabled (network permissions)
                     then Some (mkNet (Some true)) else None in
          let fs :=
            match file_system base, file_system permissions with
            | Some base, Some permissions =>
                option_filter (fun fs => negb (fs_is_empty fs))
                  (Some (mkFs (merge_permission_entries (fs_entries base) (fs_entries permissions))
                    (merge_glob_scan_max_depth (fs_entries base) (fs_glob_depth base) (fs_entries permissions)
                       (fs_glob_depth permissions) ≫= non_zero)))
            | Some base, None => Some base
            | None, Some permissions => Some permissions
            | None, None => None
            end in
          option_filter (fun p => negb (additional_is_empty p)) (Some (mkAdditional net fs))
      | None => option_filter (fun p => negb (additional_is_empty p)) (Some permissions)
      end
  end.

(** [codex-rs/sandboxing/src/policy_transforms.rs:339-345 access_covers] *)
Definition access_covers (requested granted : FileSystemAccessMode) : bool :=
  match granted with Read => can_read requested | Write => can_write requested | Deny => false end.

(** [codex-rs/sandboxing/src/policy_transforms.rs:335-337 paths_overlap] *)
Definition paths_overlap (left_path right_path : str) : bool :=
  path_starts_with left_path right_path || path_starts_with right_path left_path.

Section host.
Context (os : Os) (build_glob_matcher : str -> result str (str -> bool)).

(** [codex-rs/sandboxing/src/policy_transforms.rs:372-404 resolve_permission_path] *)
Definition resolve_permission_path (path : FileSystemPath) (cwd : str) : option str :=
  match path with
  | Path path => Some path
  | GlobPattern _ => None
  | Special value =>
      match value with
      | Root => last (ancestors cwd) ≫= abs_path os
      | ProjectRoots subpath =>
          cwd ← abs_path os cwd;
          Some (match subpath with
                | Some subpath => resolve_path_against_base (home_dir os) subpath cwd
                | None => cwd
                end)
      | Tmpdir =>
          tmpdir ← tmpdir os;
          if bool_decide (tmpdir = []) then None else abs_path os tmpdir
      | SlashTmp => option_filter (is_dir os) (abs_path os (lit "/tmp"))
      | Minimal | Unknown _ _ => None
      end
  end.

(** [codex-rs/sandboxing/src/policy_transforms.rs:347-370 materialize_cwd_dependent_entry] *)
Definition materialize_cwd_dependent_entry (entry : FileSystemSandboxEntry) (cwd : str) : FileSystemSandboxEntry :=
  match entry_path entry with
  | Special (ProjectRoots _) =>
      match resolve_permission_path (entry_path entry) cwd with
      | Some path => mkEntry (Path path) (entry_access entry)
      | None => entry
      end
  | GlobPattern pattern =>
      mkEntry (GlobPattern (resolve_path_against_base (home_dir os) pattern cwd)) (entry_access entry)
  | Path _ | Special _ => entry
  end.

Definition is_glob_char (c : char) : bool := existsb (N.eqb c) [42; 63; 91; 93]%N.

(** The text before the first glob character, and whether there is one. *)
Fixpoint static_prefix (s : str) : str * bool :=
  match s with
  | [] => ([], false)
  | c :: s => if is_glob_char c then ([], true) else let '(p, found) := static_prefix s in (c :: p, found)
  end.

(** [Path::parent] of a path without repeated or trailing slashes, whose last name may be [.], which does not count. *)
Definition prefix_parent (prefix : str) : option str :=
  match strip_suffix (lit "/.") prefix with
  | Some dir => if bool_decide (dir = []) then None else parent_of dir
  | None => parent_of prefix
  end.

(** [codex-rs/sandboxing/src/policy_transforms.rs:314-333 glob_static_prefix_path] *)
Definition glob_static_prefix_path (pattern cwd : str) : option str :=
  let resolved_pattern := resolve_path_against_base (home_dir os) pattern cwd in
  prefix ←
    match static_prefix resolved_pattern with
    | ([], true) => None
    | (prefix, true) =>
        if ends_with [SLASH] prefix || ends_with [92%N] prefix then Some prefix else prefix_parent prefix
    | (_, false) => Some resolved_pattern
    end;
  abs_path os prefix.

(** [codex-rs/sandboxing/src/policy_transforms.rs:290-312 deny_entry_constrains_accepted_grant] *)
Definition deny_entry_constrains_accepted_grant (deny_entry : FileSystemSandboxEntry)
    (accepted_entries : list FileSystemSandboxEntry) (cwd : str) : bool :=
  existsb (fun entry =>
    can_read (entry_access entry) &&
    match resolve_permission_path (entry_path entry) cwd with
    | None => false
    | Some grant_path =>
        match entry_path deny_entry with
        | GlobPattern pattern =>
            match glob_static_prefix_path pattern cwd with
            | Some prefix => paths_overlap prefix grant_path
            | None => false
            end
        | Path _ | Special _ =>
            match resolve_permission_path (entry_path deny_entry) cwd with
            | Some deny_path => paths_overlap deny_path grant_path
            | None => false
            end
        end
    end) accepted_entries.

(** [codex-rs/sandboxing/src/policy_transforms.rs:267-288 retain_constraining_deny_entries] the entries that
    are retained, and the output with them. *)
Definition retain_constraining_deny_entries (source_entries accepted_entries : list FileSystemSandboxEntry) (cwd : str)
    (output_entries : list FileSystemSandboxEntry) : list FileSystemSandboxEntry * list FileSystemSandboxEntry :=
  let retained := map (fun entry => materialize_cwd_dependent_entry entry cwd)
    (List.filter (fun entry => deny_entry_constrains_accepted_grant entry accepted_entries cwd)
      (List.filter (fun entry => bool_decide (entry_access entry = Deny)) source_entries)) in
  (retained, foldl push_entry output_entries retained).

(** [codex-rs/sandboxing/src/policy_transforms.rs:239-265 granted_file_system_entry_within_request] *)
Definition granted_file_system_entry_within_request (requested : FileSystemPermissions)
    (requested_policy : FileSystemSandboxPolicy) (requested_read_deny_matcher : option ReadDenyMatcher)
    (granted_entry : FileSystemSandboxEntry) (cwd : str) : bool :=
  if negb (can_read (entry_access granted_entry)) then false
  else match resolve_permission_path (entry_path granted_entry) cwd with
       | Some path =>
           if match requested_read_deny_matcher with Some matcher => is_read_denied os matcher path | None => false end
           then false
           else access_covers (resolve_access_with_cwd os requested_policy path cwd) (entry_access granted_entry)
       | None =>
           existsb (fun requested_entry =>
             access_covers (entry_access requested_entry) (entry_access granted_entry) &&
             fs_path_eqb (entry_path requested_entry) (entry_path granted_entry)) (fs_entries requested)
       end.

(** [codex-rs/protocol/src/permissions.rs:239-248 ReadDenyMatcher::new] *)
Definition matcher_new (policy : FileSystemSandboxPolicy) (cwd : str) : option ReadDenyMatcher :=
  match build os build_glob_matcher policy cwd FailClosed with Ok matcher => matcher | Err _ => None end.

(** [codex-rs/sandboxing/src/policy_transforms.rs:130-176 intersect_permission_profiles] the filesystem part. *)
Definition intersect_file_system (requested_file_system granted_file_system : FileSystemPermissions) (cwd : str)
    : FileSystemPermissions :=
  let requested_policy := restricted (fs_entries requested_file_system) in
  let requested_read_deny_matcher := matcher_new requested_policy cwd in
  let accepted_entries :=
    foldl (fun accepted entry => push_entry accepted (materialize_cwd_dependent_entry entry cwd)) []
      (List.filter (fun entry => granted_file_system_entry_within_request requested_file_system requested_policy
                                   requested_read_deny_matcher entry cwd) (fs_entries granted_file_system)) in
  let '(requested_retained_deny_entries, es) :=
    retain_constraining_deny_entries (fs_entries requested_file_system) accepted_entries cwd accepted_entries in
  let '(granted_retained_deny_entries, es) :=
    retain_constraining_deny_entries (fs_entries granted_file_system) accepted_entries cwd es in
  mkFs es (merge_glob_scan_max_depth requested_retained_deny_entries (fs_glob_depth requested_file_system)
             granted_retained_deny_entries (fs_glob_depth granted_file_system) ≫= non_zero).

(** [codex-rs/sandboxing/src/policy_transforms.rs:125-195 intersect_permission_profiles] *)
Definition intersect_permission_profiles (requested granted : AdditionalPermissionProfile) (cwd : str)
    : AdditionalPermissionProfile :=
  let fs :=
    option_filter (fun fs => negb (fs_is_empty fs))
      ((fun requested_file_system =>
          intersect_file_system requested_file_system (default (mkFs [] None) (file_system granted)) cwd) <$>
       file_system requested) in
  let net := if network_enabled (network requested) && network_enabled (network granted)
             then Some (mkNet (Some true)) else None in
  mkAdditional net fs.

(** [codex-rs/sandboxing/src/policy_transforms.rs:28-55 normalize_additional_permissions] the loop. *)
Definition normalize_entry (es : list FileSystemSandboxEntry) (entry : FileSystemSandboxEntry)
    : result str (list FileSystemSandboxEntry) :=
  if match entry_path entry with GlobPattern _ => true | _ => false end && negb (bool_decide (entry_access entry = Deny))
  then Err (lit "glob file system permissions only support deny-read entries")
  else
    let path :=
      match entry_path entry with
      | Path path => Path (default path (canonicalize_preserving_symlinks os path ≫= abs_path os))
      | GlobPattern pattern => GlobPattern pattern
      | Special value => Special value
      end in
    Ok (push_entry es (mkEntry path (entry_access entry))).

(** [codex-rs/sandboxing/src/policy_transforms.rs:19-69 normalize_additional_permissions] *)
Definition normalize_additional_permissions (additional_permissions : AdditionalPermissionProfile)
    : result str AdditionalPermissionProfile :=
  let net := option_filter (fun n => negb (net_is_empty n)) (network additional_permissions) in
  match file_system additional_permissions with
  | Some fs =>
      es ← try_fold normalize_entry (fs_entries fs) [];
      let fs := mkFs es (fs_glob_depth fs) in
      Ok (mkAdditional net (if negb (fs_is_empty fs) then Some fs else None))
  | None => Ok (mkAdditional net None)
  end.
End host.

(** ** Effective permissions *)

(** [codex-rs/sandboxing/src/policy_transforms.rs:419-443 merge_file_system_policy_with_additional_permissions] *)
Definition merge_file_system_policy_with_additional_permissions (policy : FileSystemSandboxPolicy)
    (additional_permissions : FileSystemPermissions) : FileSystemSandboxPolicy :=
  match sandbox_kind policy with
  | Restricted =>
      mkPolicy Restricted
        (merge_glob_scan_max_depth (entries policy) (glob_scan_max_depth policy) (fs_entries additional_permissions)
           (fs_glob_depth additional_permissions))
        (foldl push_entry (entries policy) (fs_entries additional_permissions))
  | Unrestricted | ExternalSandbox => policy
  end.

(** [codex-rs/sandboxing/src/policy_transforms.rs:445-464 effective_file_system_sandbox_policy] *)
Definition effective_file_system_sandbox_policy (policy : FileSystemSandboxPolicy)
    (additional_permissions : option AdditionalPermissionProfile) : FileSystemSandboxPolicy :=
  match additional_permissions with
  | None => policy
  | Some additional_permissions =>
      match file_system additional_permissions with
      | None => policy
      | Some permissions =>
          if fs_is_empty permissions then policy
          else merge_file_system_policy_with_additional_permissions policy permissions
      end
  end.

(** [codex-rs/sandboxing/src/policy_transforms.rs:466-476 merge_network_access] *)
Definition merge_network_access (base_network_access : bool) (additional_permissions : AdditionalPermissionProfile) : bool :=
  base_network_access || default false (network additional_permissions ≫= enabled).

(** [codex-rs/sandboxing/src/policy_transforms.rs:478-491 effective_network_sandbox_policy] *)
Definition effective_network_sandbox_policy (network_policy : NetworkSandboxPolicy)
    (additional_permissions : option AdditionalPermissionProfile) : NetworkSandboxPolicy :=
  match additional_permissions with
  | Some permissions => if merge_network_access (is_enabled network_policy) permissions then NetEnabled else NetRestricted
  | None => network_policy
  end.

(** [codex-rs/sandboxing/src/policy_transforms.rs:493-507 effective_permission_profile] *)
Definition effective_permission_profile (profile : PermissionProfile)
    (additional_permissions : option AdditionalPermissionProfile) : option PermissionProfile :=
  from_runtime_permissions_with_enforcement (enforcement profile)
    (effective_file_system_sandbox_policy (file_system_sandbox_policy profile) additional_permissions)
    (effective_network_sandbox_policy (network_sandbox_policy profile) additional_permissions).

(** [codex-rs/sandboxing/src/policy_transforms.rs:509-529 should_require_platform_sandbox] *)
Definition should_require_platform_sandbox (policy : FileSystemSandboxPolicy) (network_policy : NetworkSandboxPolicy)
    (has_managed_network_requirements : bool) : bool :=
  if has_managed_network_requirements then true
  else if negb (is_enabled network_policy) then negb (bool_decide (sandbox_kind policy = ExternalSandbox))
  else match sandbox_kind policy with
       | Restricted => negb (has_full_disk_write_access policy)
       | Unrestricted | ExternalSandbox => false
       end.

(** ** Choosing the sandbox *)

(** [codex-rs/sandboxing/src/manager.rs:22-28 SandboxType] *)
Inductive SandboxType := NoSandbox | MacosSeatbelt | LinuxSeccomp | WindowsRestrictedToken.

(** [codex-rs/sandboxing/src/manager.rs:41-46 SandboxablePreference] *)
Inductive SandboxablePreference := Auto | Require | Forbid.

(** The systems the program is built for. *)
Inductive TargetOs := MacOs | Linux | Windows | OtherOs.

(** [codex-rs/sandboxing/src/manager.rs:48-62 get_platform_sandbox] *)
Definition get_platform_sandbox (target : TargetOs) (windows_sandbox_enabled : bool) : option SandboxType :=
  match target with
  | MacOs => Some MacosSeatbelt
  | Linux => Some LinuxSeccomp
  | Windows => if windows_sandbox_enabled then Some WindowsRestrictedToken else None
  | OtherOs => None
  end.

(** [codex-rs/sandboxing/src/manager.rs:160-187 SandboxManager::select_initial] *)
Definition select_initial (target : TargetOs) (policy : FileSystemSandboxPolicy) (network_policy : NetworkSandboxPolicy)
    (pref : SandboxablePreference) (windows_sandbox_enabled has_managed_network_requirements : bool) : SandboxType :=
  match pref with
  | Forbid => NoSandbox
  | Require => default NoSandbox (get_platform_sandbox target windows_sandbox_enabled)
  | Auto =>
      if should_require_platform_sandbox policy network_policy has_managed_network_requirements
      then default NoSandbox (get_platform_sandbox target windows_sandbox_enabled)
      else NoSandbox
  end.

(** ** Lists of entries *)

Lemma path_eqb_sym a b : path_eqb a b = path_eqb b a.
Proof. unfold path_eqb. apply bool_decide_ext; naive_solver. Qed.

Lemma opt_path_eqb_sym a b : opt_path_eqb a b = opt_path_eqb b a.
Proof. destruct a, b; simpl; try done. apply path_eqb_sym. Qed.

Lemma entry_eqb_sym a b : entry_eqb a b = entry_eqb b a.
Proof.
  unfold entry_eqb. f_equal; [|apply bool_decide_ext; naive_solver].
  destruct (entry_path a) as [x|x|x], (entry_path b) as [y|y|y]; simpl; try done.
  - apply path_eqb_sym.
  - apply bool_decide_ext; naive_solver.
  - destruct x, y; simpl; try done; [apply opt_path_eqb_sym|]. rewrite opt_path_eqb_sym. f_equal. apply bool_decide_ext; naive_solver.
Qed.

Lemma push_entries_sub acc l x : x ∈ foldl push_entry acc l -> x ∈ acc \/ x ∈ l.
Proof.
  revert acc; induction l as [|y l IH]; intros acc; simpl; [by left|]. intros [Hx|Hx]%IH; [|set_solver].
  unfold push_entry in Hx. destruct (existsb _ acc); set_solver.
Qed.

Lemma push_entries_acc acc l x : x ∈ acc -> x ∈ foldl push_entry acc l.
Proof.
  revert acc; induction l as [|y l IH]; intros acc Hx; simpl; [done|]. apply IH. unfold push_entry.
  destruct (existsb _ acc); set_solver.
Qed.

Lemma push_entries_sup acc l x :
  x ∈ l -> exists y, y ∈ foldl push_entry acc l /\ (y = x \/ entry_eqb y x = true).
Proof.
  revert acc; induction l as [|z l IH]; intros acc; simpl; [set_solver|]. rewrite elem_of_cons. intros [->|Hx]; [|by apply IH].
  unfold push_entry at 2. destruct (existsb (entry_eqb z) acc) eqn:E.
  - apply existsb_exists in E as (y & Hy & Heq). exists y. split; [|right; by rewrite entry_eqb_sym].
    apply push_entries_acc. by apply list_elem_of_In.
  - exists z. split; [|by left]. apply push_entries_acc. set_solver.
Qed.

Lemma foldl_push_map (f : FileSystemSandboxEntry -> FileSystemSandboxEntry) l acc :
  foldl (fun acc e => push_entry acc (f e)) acc l = foldl push_entry acc (map f l).
Proof. revert acc; induction l as [|x l IH]; intros acc; simpl; [done | apply IH]. Qed.

(** ** Patterns *)

(** The names of a pattern before the first one with a character that is special in patterns. *)
Definition literal_name (n : str) : bool := forallb (fun c => negb (is_glob_char c)) n.
Fixpoint literal_names (names : list str) : list str :=
  match names with n :: names => if literal_name n then n :: literal_names names else [] | [] => [] end.

Lemma literal_names_split names :
  literal_names names = names /\ forallb literal_name names = true \/
  exists g rest, names = literal_names names ++ g :: rest /\ literal_name g = false /\ forallb literal_name (literal_names names) = true.
Proof.
  induction names as [|n names IH]; [by left|]. cbn [literal_names forallb]. destruct (literal_name n) eqn:E.
  - destruct IH as [[IH Hl]|(g & rest & Hn & Hg & Hl)]; [left; by rewrite IH|]. right. exists g, rest. cbn. by rewrite <- Hn, E.
  - right. by exists n, names.
Qed.

Lemma static_prefix_app a s : literal_name a = true ->
  static_prefix (a ++ s) = (a ++ fst (static_prefix s), snd (static_prefix s)).
Proof.
  induction a as [|c a IH]; cbn; [by destruct (static_prefix s)|]. intros [Hc Ha]%andb_true_iff. apply negb_true_iff in Hc.
  rewrite Hc, IH by done. done.
Qed.

Lemma literal_app a b : literal_name (a ++ b) = literal_name a && literal_name b.
Proof. apply forallb_app. Qed.

Lemma literal_render names : forallb literal_name names = true -> literal_name (render names) = true.
Proof.
  unfold render. change (literal_name (SLASH :: join [SLASH] names)) with (literal_name (join [SLASH] names)).
  induction names as [|n [|m names] IH]; cbn [forallb]; [done|intros [? _]%andb_true_iff; done|].
  intros [Hn Hm]%andb_true_iff. rewrite join_cons by done. rewrite !literal_app, Hn, IH by done. done.
Qed.

Lemma special_split g : literal_name g = false -> exists a c b, g = a ++ c :: b /\ literal_name a = true /\ is_glob_char c = true.
Proof.
  induction g as [|c g IH]; [done|]. change (literal_name (c :: g)) with (negb (is_glob_char c) && literal_name g).
  destruct (is_glob_char c) eqn:E; cbn [negb andb].
  - intros _. by exists [], c, g.
  - intros (a & c' & b & -> & Ha & Hc)%IH. exists (c :: a), c', b. split; [done|]. split; [|done].
    change (literal_name (c :: a)) with (negb (is_glob_char c) && literal_name a). by rewrite E.
Qed.

Lemma join_app_names sep l r : l <> [] -> r <> [] -> join sep (l ++ r) = join sep l ++ sep ++ join sep r.
Proof.
  intros Hl Hr. induction l as [|x [|y l] IH]; [done|by rewrite <- join_cons|].
  change ((x :: y :: l) ++ r) with (x :: (y :: l) ++ r). rewrite join_cons by done. rewrite IH by done.
  rewrite (join_cons _ x) by done. by rewrite <- !app_assoc.
Qed.

Lemma components_snoc names a : SLASH ∉ a -> components (render names ++ SLASH :: a) = components (render names) ++ omap component_of [a].
Proof.
  intros Ha. unfold render. rewrite <- app_comm_cons, !components_abs, split_char_join, omap_app. by rewrite (split_char_free SLASH a).
Qed.

Lemma parent_render names : names <> [] -> Forall name_ok names ->
  exists front, parent_of (render names) = Some (render front) /\ front `prefix_of` names.
Proof.
  intros Hne Hok. destruct names as [|n front _] using rev_ind; [done|]. apply Forall_snoc in Hok as [_ Hn].
  exists front. split; [|by eexists]. pose proof (pop_name front n Hn) as Hp. unfold pop in Hp.
  destruct (parent_of (render (front ++ [n]))) as [q|]; cbn in Hp; [by subst q|].
  exfalso. apply name_ok_nonempty in Hn. destruct front as [|x front]; [by destruct n|].
  rewrite render_snoc in Hp by done. apply (f_equal length) in Hp. rewrite !length_app in Hp. cbn in Hp. lia.
Qed.

(** The fixed part that a denied pattern is compared by contains everything below its literal names. *)
Lemma glob_prefix_above os cwd pattern names : os_wf os -> Forall name_ok names ->
  resolve_path_against_base (home_dir os) pattern cwd = render names ->
  literal_names names <> [] -> 92%N ∉ render names ->
  exists p, glob_static_prefix_path os pattern cwd = Some p /\ components p `prefix_of` components (render (literal_names names)).
Proof.
  intros Hos Hok Hres Hne Hback. unfold glob_static_prefix_path. rewrite Hres.
  assert (Hlok : Forall name_ok (literal_names names)).
  { destruct (literal_names_split names) as [[-> _]|(g & rest & Hn & _)]; [done|]. rewrite Hn in Hok. by apply Forall_app in Hok as [? _]. }
  assert (Habs : abs_path os (render (literal_names names)) = Some (render (literal_names names))) by (apply abs_path_id; by eexists).
  destruct (literal_names_split names) as [[Heq Hl]|(g & rest & Hn & Hg & Hl)].
  { rewrite Heq in *. pose proof (static_prefix_app (render names) [] (literal_render _ Hl)) as Hsp. cbn [fst snd static_prefix] in Hsp. rewrite !app_nil_r in Hsp. rewrite Hsp.
    exists (render names). split; [|done]. exact Habs. }
  destruct (special_split g Hg) as (a & c & b & -> & Ha & Hc).
  set (lits := literal_names names) in *. set (D := render lits).
  assert (Hr : render names = (D ++ SLASH :: a) ++ c :: b ++ (match rest with [] => [] | _ => SLASH :: join [SLASH] rest end)).
  { rewrite Hn. unfold D, render. rewrite join_app_names by done. destruct rest as [|r rest].
    - cbn [app join]. rewrite <- !app_assoc. cbn. by rewrite app_nil_r.
    - rewrite (join_cons _ (a ++ c :: b)) by done. cbn [app]. rewrite <- !app_assoc. cbn [app]. rewrite <- ?app_assoc. done. }
  assert (HD : literal_name (D ++ SLASH :: a) = true).
  { rewrite literal_app. unfold D. rewrite literal_render by done. done. }
  assert (Has : SLASH ∉ a). { rewrite Hn in Hok. apply Forall_app in Hok as [_ [[_ Hs] _]%Forall_cons]. set_solver. }
  rewrite Hr, static_prefix_app by done. cbn [static_prefix]. rewrite Hc. cbn [fst snd]. rewrite app_nil_r.
  assert (Hshape : exists x l, D ++ SLASH :: a = x :: l) by (unfold D, render; by eexists _, _).
  destruct Hshape as (x & l & Hxl). rewrite Hxl. rewrite <- Hxl.
  assert (HDabs : forall q, components q = components D -> is_absolute q = true -> abs_path os q = Some D).
  { intros q Hq Ha'. unfold abs_path, from_absolute_path, absolutize. rewrite expand_absolute by done. rewrite Ha'. cbn.
    destruct (normalize_absolute q Ha') as [-> _]. rewrite Hq. unfold D. rewrite components_render by done. cbn.
    by rewrite stack_names. }
  assert (Habsp : is_absolute (D ++ SLASH :: a) = true) by done.
  destruct (decide (a = [])) as [->|Hane].
  - assert (ends_with [SLASH] (D ++ [SLASH]) = true) as -> by (unfold ends_with; by rewrite (proj2 (strip_suffix_Some [SLASH] _ D))).
    cbn [orb mbind option_bind]. exists D. split; [|done]. apply HDabs; [|done].
    unfold D. rewrite components_snoc by done. cbn. by rewrite app_nil_r.
  - assert (Hb : ends_with [92%N] (D ++ SLASH :: a) = false).
    { unfold ends_with. destruct (strip_suffix [92%N] _) as [r|] eqn:E; [|done]. exfalso. apply Hback. rewrite Hr.
      apply strip_suffix_Some in E. rewrite E. set_solver. }
    assert (Hs : ends_with [SLASH] (D ++ SLASH :: a) = false) by (change (SLASH :: a) with ([SLASH] ++ a); rewrite app_assoc; by apply ends_with_slash).
    rewrite Hs, Hb. cbn [orb]. unfold prefix_parent.
    destruct (strip_suffix (lit "/.") (D ++ SLASH :: a)) as [dir|] eqn:E.
    + apply strip_suffix_Some in E. change (lit "/.") with (SLASH :: lit ".") in E.
      pose proof (rsplit_once_free SLASH D a Has) as E1. rewrite E, rsplit_once_free in E1 by (intros Hin%(bool_decide_pack _); done).
      injection E1 as -> _. rewrite bool_decide_eq_false_2 by done. unfold D.
      destruct (parent_render lits Hne Hlok) as (front & -> & Hfront). cbn [mbind option_bind].
      assert (Hfok : Forall name_ok front) by (destruct Hfront as [k ->]; by apply Forall_app in Hlok as [? _]).
      exists (render front). split; [apply abs_path_id; by eexists|]. rewrite !components_render by done.
      destruct Hfront as [k ->]. exists (Normal <$> k). by rewrite fmap_app.
    + unfold parent_of. rewrite bool_decide_eq_false_2 by (by destruct D). rewrite bool_decide_eq_false_2.
      2:{ intros Heq%(f_equal length). rewrite length_app in Heq. unfold D, render in Heq. cbn in Heq. lia. }
      rewrite rsplit_once_free by done. rewrite bool_decide_eq_false_2 by done. cbn [orb mbind option_bind]. exists D. by split.
Qed.

(** ** What an intersection grants *)

Section intersection.
Context (os : Os) (Hos : os_wf os) (globs : str -> result str (str -> bool)).
Context (cwd : str) (Hcwd : normal_form cwd).
Context (req gr : FileSystemPermissions) (Hgrant : Forall entry_wf (fs_entries gr)).

Lemma cwd_abs : abs_path os cwd = Some cwd.
Proof. by apply abs_path_id. Qed.

Lemma resolve_permission_entry path : resolve_permission_path os path cwd = resolve_entry_path os path (Some cwd).
Proof.
  destruct path as [p|g|[| |sub| | |]]; simpl; try done.
  - rewrite cwd_abs. by destruct sub.
  - destruct (abs_path os (lit "/tmp")); simpl; [|done]. by destruct (is_dir os _).
Qed.

Lemma materialize_resolves e :
  entry_access (materialize_cwd_dependent_entry os e cwd) = entry_access e /\
  resolve_entry_path os (entry_path (materialize_cwd_dependent_entry os e cwd)) (Some cwd) =
  resolve_entry_path os (entry_path e) (Some cwd).
Proof.
  unfold materialize_cwd_dependent_entry. destruct (entry_path e) as [p|g|v] eqn:Ep; [by rewrite Ep | done |].
  destruct v; try by rewrite Ep. rewrite resolve_permission_entry.
  destruct (resolve_entry_path os _ (Some cwd)) as [q|] eqn:E; simpl; [done | by rewrite Ep].
Qed.

Abbreviation inter := (intersect_file_system os globs req gr cwd).
Abbreviation req_policy := (restricted (fs_entries req)).
Abbreviation within := (granted_file_system_entry_within_request os req req_policy (matcher_new os globs req_policy cwd)).

Definition accepted : list FileSystemSandboxEntry :=
  foldl push_entry [] (map (fun e => materialize_cwd_dependent_entry os e cwd)
    (List.filter (fun e => within e cwd) (fs_entries gr))).

Lemma inter_entries :
  fs_entries inter =
  (retain_constraining_deny_entries os (fs_entries gr) accepted cwd
     (retain_constraining_deny_entries os (fs_entries req) accepted cwd accepted).2).2.
Proof. unfold intersect_file_system, accepted. by rewrite foldl_push_map. Qed.

Lemma retained_deny src acc out x :
  x ∈ (retain_constraining_deny_entries os src acc cwd out).1 -> entry_access x = Deny.
Proof.
  simpl. intros (e & -> & He)%list_elem_of_fmap. rewrite list_elem_of_In, !filter_In in He.
  destruct He as [[_ He] _]. apply bool_decide_eq_true in He. by rewrite (proj1 (materialize_resolves e)).
Qed.

(** A grant of the intersection stems from a granted entry the request covers. *)
Lemma inter_grant x :
  x ∈ fs_entries inter -> entry_access x <> Deny ->
  x ∈ accepted /\ exists g, g ∈ fs_entries gr /\ within g cwd = true /\ x = materialize_cwd_dependent_entry os g cwd.
Proof.
  rewrite inter_entries. intros Hx Hd.
  assert (Hacc : x ∈ accepted).
  { apply (push_entries_sub _ (retain_constraining_deny_entries os (fs_entries gr) accepted cwd []).1) in Hx as [Hx|Hx];
      [|by apply retained_deny in Hx].
    apply (push_entries_sub _ (retain_constraining_deny_entries os (fs_entries req) accepted cwd []).1) in Hx as [Hx|Hx];
      [done|by apply retained_deny in Hx]. }
  split; [done|]. apply push_entries_sub in Hacc as [Hacc|Hacc]; [set_solver|].
  apply list_elem_of_fmap in Hacc as (g & -> & Hg). rewrite list_elem_of_In, filter_In, <- list_elem_of_In in Hg.
  exists g. naive_solver.
Qed.

(** A denial of the request below an accepted grant is kept. *)
Lemma inter_denial dn p x q :
  dn ∈ fs_entries req -> entry_access dn = Deny -> resolve_entry_path os (entry_path dn) (Some cwd) = Some p ->
  x ∈ accepted -> can_read (entry_access x) = true -> resolve_entry_path os (entry_path x) (Some cwd) = Some q ->
  path_starts_with p q = true ->
  exists y p', y ∈ fs_entries inter /\ entry_access y = Deny /\
    resolve_entry_path os (entry_path y) (Some cwd) = Some p' /\ components p' = components p.
Proof.
  intros Hdn Hdeny Hp Hx Hcr Hq Hst. rewrite inter_entries.
  destruct (materialize_resolves dn) as [Hma Hmr].
  assert (Hin : materialize_cwd_dependent_entry os dn cwd ∈ (retain_constraining_deny_entries os (fs_entries req) accepted cwd accepted).1).
  { simpl. apply (list_elem_of_fmap_2 (fun entry => materialize_cwd_dependent_entry os entry cwd)).
    rewrite list_elem_of_In, !filter_In, <- list_elem_of_In. rewrite bool_decide_eq_true. split; [done|].
    unfold deny_entry_constrains_accepted_grant. apply existsb_exists. exists x. rewrite <- list_elem_of_In.
    split; [done|]. rewrite Hcr, resolve_permission_entry, Hq. simpl.
    unfold paths_overlap. rewrite resolve_permission_entry, Hp.
    destruct (entry_path dn); [by rewrite Hst | done | by rewrite Hst]. }
  destruct (push_entries_sup accepted _ _ Hin) as (y & Hy & Heq).
  exists y. assert (Hres : entry_access y = Deny /\ exists p', resolve_entry_path os (entry_path y) (Some cwd) = Some p' /\
    components p' = components p).
  { destruct Heq as [->|Heq]; [rewrite Hma, Hmr; eauto|].
    destruct (equal_entries_resolve os Hos cwd cwd cwd_abs y (materialize_cwd_dependent_entry os dn cwd) p Heq) as [Ha Hq'];
      [by rewrite Hmr | by rewrite Ha, Hma]. }
  destruct Hres as [Hya (p' & Hp' & Hc)]. exists p'. split; [|done]. simpl. by apply push_entries_acc.
Qed.

(** At a path the intersection grants, the request's own verdict is decided by an entry that is no
    longer than the grant, or by a longer one that is no denial. *)
Lemma inter_decided path t m :
  resolve_candidate_path os path cwd = Some t ->
  m ∈ covering (resolved_entries_with_cwd os (restricted (fs_entries inter)) cwd) t ->
  (forall e, e ∈ covering (resolved_entries_with_cwd os (restricted (fs_entries inter)) cwd) t -> outranks m e) ->
  resolved_access m <> Deny ->
  exists w, w ∈ covering (resolved_entries_with_cwd os req_policy cwd) t /\
    resolve_access_with_cwd os req_policy path cwd = resolved_access w /\
    (access_covers (resolved_access w) (resolved_access m) = true \/
     resolved_access w <> Deny /\ length (components (resolved_path m)) < length (components (resolved_path w)) /\
     exists r, r ∈ covering (resolved_entries_with_cwd os req_policy cwd) (resolved_path m) /\
       access_covers (resolved_access r) (resolved_access m) = true).
Proof.
  intros Ht Hm Hmax Hd. pose proof (proj1 (covering_elem _ _ _) Hm) as [Hme Hmt].
  apply (resolved_elem os cwd cwd cwd_abs) in Hme as (x & Hx & Hxp & Hxa). simpl in Hx. rewrite Hxa in *.
  destruct (inter_grant x Hx Hd) as (Hacc & g & Hg & Hw & ->). destruct (materialize_resolves g) as [Hga Hgr].
  rewrite Hga in *. rewrite Hgr in Hxp. unfold granted_file_system_entry_within_request in Hw.
  destruct (can_read (entry_access g)) eqn:Hcr; [|done]. simpl in Hw. rewrite resolve_permission_entry, Hxp in Hw.
  destruct (match matcher_new _ _ _ _ with Some _ => _ | None => _ end); [done|].
  assert (Hpn : normal_form (resolved_path m)).
  { rewrite Forall_forall in Hgrant. eapply entry_normal; [done | by apply Hgrant | | done]. by intros ? [= <-]. }
  destruct (access_cases os req_policy (resolved_path m) cwd (resolved_path m) eq_refl (candidate_id os _ cwd Hpn))
    as [[_ Hbad]|(wp & Hwp & Hap & Hmaxp)]; [rewrite Hbad in Hw; by destruct (entry_access g)|].
  apply covering_elem in Hwp as Hwp'. destruct Hwp' as [Hwpe Hwpp].
  assert (Hwpt : wp ∈ covering (resolved_entries_with_cwd os req_policy cwd) t) by (apply covering_elem; split; [done | by etrans]).
  destruct (access_cases os req_policy path cwd t eq_refl Ht) as [[Hnil _]|(w & Hwc & Haw & Hmaxw)].
  { rewrite Hnil in Hwpt. set_solver. }
  exists w. split; [done|]. split; [done|]. pose proof (proj1 (covering_elem _ _ _) Hwc) as [Hwe Hwt].
  destruct (le_lt_dec (length (components (resolved_path w))) (length (components (resolved_path m)))) as [Hle|Hlt].
  - left. assert (Hwp2 : w ∈ covering (resolved_entries_with_cwd os req_policy cwd) (resolved_path m)).
    { apply covering_elem. split; [done|]. by eapply prefix_of_longer. }
    rewrite <- (winner_unique wp w (Hmaxp w Hwp2) (Hmaxw wp Hwpt)). by rewrite <- Hap.
  - right. split; [|split; [done|]; exists wp; by rewrite <- Hap]. intros Hwd. apply (resolved_elem os cwd cwd cwd_abs) in Hwe as (dn & Hdn & Hdp & Hda).
    destruct (inter_denial dn (resolved_path w) (materialize_cwd_dependent_entry os g cwd) (resolved_path m))
      as (y & p' & Hy & Hya & Hyp & Hyc); try done; [congruence | by rewrite Hga | by rewrite Hgr | |].
    { apply path_starts_with_spec. eapply prefix_of_longer; [done | done | lia]. }
    assert (Hcov : mkResolved p' Deny ∈ covering (resolved_entries_with_cwd os (restricted (fs_entries inter)) cwd) t).
    { apply covering_elem. simpl. rewrite Hyc. split; [|done]. apply (resolved_elem os cwd cwd cwd_abs). by exists y. }
    destruct (Hmax _ Hcov) as [Hl|[Hl _]]; simpl in Hl; rewrite Hyc in Hl; [lia | rewrite Hl in Hlt; lia].
Qed.

(** A denied pattern of the request or of the grant is kept with a readable grant it may apply below. *)
Lemma inter_pattern src pattern names x q t : src = req \/ src = gr ->
  mkEntry (GlobPattern pattern) Deny ∈ fs_entries src ->
  resolve_path_against_base (home_dir os) pattern cwd = render names -> Forall name_ok names ->
  literal_names names <> [] -> 92%N ∉ render names ->
  x ∈ accepted -> can_read (entry_access x) = true -> resolve_entry_path os (entry_path x) (Some cwd) = Some q ->
  components (render (literal_names names)) `prefix_of` components t -> components q `prefix_of` components t ->
  mkEntry (GlobPattern (render names)) Deny ∈ fs_entries inter.
Proof.
  intros Hsrc Hdn Hres Hok Hne Hback Hx Hcr Hq Hlt Hqt. rewrite inter_entries.
  destruct (glob_prefix_above os cwd pattern names Hos Hok Hres Hne Hback) as (p & Hp & Hpre).
  assert (Hover : paths_overlap p q = true).
  { unfold paths_overlap. apply orb_true_iff. rewrite !path_starts_with_spec.
    destruct (prefix_weak_total _ _ _ (transitivity Hpre Hlt) Hqt); auto. }
  assert (Hin : forall out, mkEntry (GlobPattern (render names)) Deny ∈ (retain_constraining_deny_entries os (fs_entries src) accepted cwd out).1).
  { intros out. cbn. replace (mkEntry (GlobPattern (render names)) Deny)
      with (materialize_cwd_dependent_entry os (mkEntry (GlobPattern pattern) Deny) cwd) by (cbn; by rewrite Hres).
    apply (list_elem_of_fmap_2 (fun entry => materialize_cwd_dependent_entry os entry cwd)).
    rewrite list_elem_of_In, !filter_In, <- list_elem_of_In. split; [split; [done|by rewrite bool_decide_eq_true]|].
    unfold deny_entry_constrains_accepted_grant. apply existsb_exists. exists x. rewrite <- list_elem_of_In.
    split; [done|]. rewrite Hcr, resolve_permission_entry, Hq. cbn. by rewrite Hp. }
  assert (Hsame : forall y, entry_eqb y (mkEntry (GlobPattern (render names)) Deny) = true -> y = mkEntry (GlobPattern (render names)) Deny).
  { intros [[|y|] ac]; unfold entry_eqb; cbn; try done. intros [?%bool_decide_eq_true ?%bool_decide_eq_true]%andb_true_iff. by subst. }
  destruct Hsrc as [-> | ->].
  - destruct (push_entries_sup accepted _ _ (Hin accepted)) as (y & Hy & [->|Heq]); [by apply push_entries_acc|].
    rewrite <- (Hsame y Heq). by apply push_entries_acc.
  - destruct (push_entries_sup (retain_constraining_deny_entries os (fs_entries req) accepted cwd accepted).2 _ _
      (Hin (retain_constraining_deny_entries os (fs_entries req) accepted cwd accepted).2)) as (y & Hy & [->|Heq]); [done|].
    by rewrite <- (Hsame y Heq).
Qed.

End intersection.

(** C4: A grant never reaches beyond the request: whatever the intersection of a requested and a granted
    set of permissions lets be read, the request lets be read; and whatever it lets be written the
    request lets be written, when the request has no read-only entry below one of its writable ones.  A
    pattern by which the request or the grant denies reads, resolved against the working directory, is still denied
    in the intersection whenever the intersection lets a path be read below the literal beginning of the pattern
    (patterns with a literal first directory and without backslashes).  The network is granted only when it was
    requested and granted.  The access of a set of permissions is that of its path entries; the working directory is a
    normalised absolute path, and the granted paths are, as [AbsolutePathBuf]s, too. *)
Theorem intersection_within_request os globs cwd requested granted path t :
  os_wf os -> normal_form cwd ->
  (forall fs, file_system granted = Some fs -> Forall entry_wf (fs_entries fs)) ->
  resolve_candidate_path os path cwd = Some t ->
  let result := intersect_permission_profiles os globs requested granted cwd in
  let access p := match file_system p with
                  | Some fs => resolve_access_with_cwd os (restricted (fs_entries fs)) path cwd
                  | None => Deny
                  end in
  (can_read (access result) = true -> can_read (access requested) = true) /\
  ((forall fs w r, file_system requested = Some fs ->
      w ∈ resolved_entries_with_cwd os (restricted (fs_entries fs)) cwd ->
      r ∈ resolved_entries_with_cwd os (restricted (fs_entries fs)) cwd ->
      resolved_access w = Read -> resolved_access r = Write ->
      ~ (path_starts_with (resolved_path w) (resolved_path r) = true /\
         length (components (resolved_path r)) < length (components (resolved_path w)))) ->
   can_write (access result) = true -> can_write (access requested) = true) /\
  (forall src pattern names, file_system requested = Some src \/ file_system granted = Some src ->
     mkEntry (GlobPattern pattern) Deny ∈ fs_entries src ->
     resolve_path_against_base (home_dir os) pattern cwd = render names -> Forall name_ok names ->
     literal_names names <> [] -> 92%N ∉ render names ->
     path_starts_with t (render (literal_names names)) = true -> can_read (access result) = true ->
     exists fs, file_system result = Some fs /\ mkEntry (GlobPattern (render names)) Deny ∈ fs_entries fs) /\
  (network_enabled (network result) = true ->
     network_enabled (network requested) = true /\ network_enabled (network granted) = true).
Proof.
  intros Hos Hcwd Hwf Ht result access. unfold result, access, intersect_permission_profiles. simpl.
  split; [|split; [|split]].
  4:{ by destruct (network_enabled (network requested)), (network_enabled (network granted)). }
  all: destruct (file_system requested) as [fs|] eqn:Hfs; simpl; [|done].
  all: set (gr := default (mkFs [] None) (file_system granted)).
  all: assert (Hgr : Forall entry_wf (fs_entries gr)) by
    (unfold gr; destruct (file_system granted) eqn:Hg; [by apply Hwf | constructor]).
  all: destruct (negb (fs_is_empty (intersect_file_system os globs fs gr cwd))); [|done].
  - intros Ha. destruct (access_cases os (restricted (fs_entries (intersect_file_system os globs fs gr cwd))) path cwd t eq_refl Ht)
      as [[_ Hbad]|(m & Hm & Heq & Hmax)]; [by rewrite Hbad in Ha|]. rewrite Heq in Ha.
    destruct (inter_decided os Hos globs cwd Hcwd fs gr Hgr path t m Ht Hm Hmax) as (w & _ & -> & [Hc|(Hc & _)]).
    + by destruct (resolved_access m).
    + destruct (resolved_access m), (resolved_access w); done.
    + by destruct (resolved_access w).
  - intros Hread Ha. destruct (access_cases os (restricted (fs_entries (intersect_file_system os globs fs gr cwd))) path cwd t eq_refl Ht)
      as [[_ Hbad]|(m & Hm & Heq & Hmax)]; [by rewrite Hbad in Ha|]. rewrite Heq in Ha.
    assert (Hmw : resolved_access m = Write) by by destruct (resolved_access m).
    destruct (inter_decided os Hos globs cwd Hcwd fs gr Hgr path t m Ht Hm Hmax) as (w & Hw & -> & [Hc|(Hc & Hl & r & Hr & Hra)]).
    + by rewrite Hmw.
    + by rewrite Hmw in Hc.
    + destruct (resolved_access w) eqn:Hwa; [exfalso | done | done].
      rewrite Hmw in Hra. apply covering_elem in Hr as [Hre Hrm], Hw as [Hwe Hwt], Hm as [_ Hmt].
      assert (Hrw : components (resolved_path r) `prefix_of` components (resolved_path w)).
      { etrans; [done|]. eapply prefix_of_longer; [done | done | lia]. }
      apply (Hread fs w r eq_refl Hwe Hre Hwa); [by destruct (resolved_access r)|].
      rewrite path_starts_with_spec. split; [done|]. apply prefix_length in Hrm. lia.
  - intros src pattern names Hsrc Hin Hres Hok Hne Hback Hlt Ha. eexists. split; [done|].
    destruct (access_cases os (restricted (fs_entries (intersect_file_system os globs fs gr cwd))) path cwd t eq_refl Ht)
      as [[_ Hbad]|(m & Hm & Heq & Hmax)]; [by rewrite Hbad in Ha|]. rewrite Heq in Ha.
    apply covering_elem in Hm as [Hme Hmt]. apply (resolved_elem os cwd cwd ltac:(by apply cwd_abs)) in Hme as (x & Hx & Hxp & Hxa).
    change (x ∈ fs_entries (intersect_file_system os globs fs gr cwd)) in Hx.
    rewrite Hxa in Ha. apply inter_grant in Hx as [Hacc _]; try done; [|by destruct (entry_access x)].
    eapply (inter_pattern os Hos globs cwd) with (t := t); try done; [|by apply path_starts_with_spec].
    destruct Hsrc as [?|Hsrc]; [left; congruence|right]. unfold gr. by rewrite Hsrc.
Qed.

(** On a system with a sandbox, it is left out by default only where nothing is left to enforce: the
    network is open or managed outside, and the file system is fully writable or sandboxed outside. *)
Lemma sandbox_left_out target policy net windows managed :
  get_platform_sandbox target windows <> None ->
  select_initial target policy net Auto windows managed = NoSandbox ->
  managed = false /\
  (sandbox_kind policy = ExternalSandbox \/ net = NetEnabled /\ has_full_disk_write_access policy = true).
Proof.
  unfold select_initial, should_require_platform_sandbox. intros Hp. destruct managed.
  { by destruct target, windows. }
  destruct net; simpl.
  - case_bool_decide; simpl; [auto|]. by destruct target, windows.
  - destruct (sandbox_kind policy) eqn:Hk; [|by unfold has_full_disk_write_access; rewrite Hk; auto|auto].
    destruct (has_full_disk_write_access policy); simpl; [auto|]. by destruct target, windows.
Qed.

(** ** Examples *)

Definition example_requested : AdditionalPermissionProfile :=
  mkAdditional (Some (mkNet (Some true)))
    (Some (mkFs [mkEntry (Path (lit "/data")) Write; mkEntry (Path (lit "/data/keys")) Deny] None)).
Definition example_granted : AdditionalPermissionProfile :=
  mkAdditional None (Some (mkFs [mkEntry (Path (lit "/data")) Write; mkEntry (Path (lit "/etc")) Read] None)).

(** The denial of the request is kept, the grant it does not ask for is dropped. *)
Example intersection_example :
  intersect_permission_profiles example_os (fun _ => Err []) example_requested example_granted (lit "/repo") =
  mkAdditional None (Some (mkFs [mkEntry (Path (lit "/data")) Write; mkEntry (Path (lit "/data/keys")) Deny] None)).
Proof. by vm_compute. Qed.

Lemma intersection_within_request_witness :
  let result := intersect_permission_profiles example_os (fun _ => Err []) example_requested example_granted (lit "/repo") in
  match file_system result with
  | Some fs => resolve_access_with_cwd example_os (restricted (fs_entries fs)) (lit "/data/x") (lit "/repo") = Write
  | None => False
  end /\
  can_write (match file_system example_requested with
             | Some fs => resolve_access_with_cwd example_os (restricted (fs_entries fs)) (lit "/data/x") (lit "/repo")
             | None => Deny
             end) = true.
Proof.
  intros result. split; [by vm_compute|].
  refine (proj1 (proj2 (intersection_within_request example_os (fun _ => Err []) (lit "/repo") example_requested example_granted
    (lit "/data/x") (lit "/data/x") _ _ _ _)) _ _).
  - apply example_os_wf.
  - by apply normal_check.
  - intros fs [= <-]. repeat constructor; by apply normal_check.
  - by vm_compute.
  - intros fs w r [= <-] Hw _ Hread.
    change (w ∈ [mkResolved (lit "/data") Write; mkResolved (lit "/data/keys") Deny]) in Hw.
    rewrite !elem_of_cons, elem_of_nil in Hw. by destruct Hw as [ -> | [ -> | [] ]].
  - by vm_compute.
Defined.

(** A read-only entry of the request below a writable one is lost: granting the writable one lets
    everything below it be written. *)
Example read_only_carveout_lost :
  let requested := mkAdditional None
    (Some (mkFs [mkEntry (Path (lit "/data")) Write; mkEntry (Path (lit "/data/keys")) Read] None)) in
  let granted := mkAdditional None (Some (mkFs [mkEntry (Path (lit "/data")) Write] None)) in
  let access p := match file_system p with
                  | Some fs => resolve_access_with_cwd example_os (restricted (fs_entries fs)) (lit "/data/keys/k") (lit "/repo")
                  | None => Deny
                  end in
  access requested = Read /\
  access (intersect_permission_profiles example_os (fun _ => Err []) requested granted (lit "/repo")) = Write.
Proof. by vm_compute. Qed.

(** A denied pattern right below the root whose first name is a dot and a special character is lost: the text before
    the special character is [/.], which has no parent. *)
Example root_dot_pattern_lost :
  let requested := mkAdditional None
    (Some (mkFs [mkEntry (Path (lit "/.cfg")) Read; mkEntry (GlobPattern (lit "/.*/secret")) Deny] None)) in
  let granted := mkAdditional None (Some (mkFs [mkEntry (Path (lit "/.cfg")) Read] None)) in
  intersect_permission_profiles example_os (fun _ => Ok (fun _ => false)) requested granted (lit "/repo") =
  mkAdditional None (Some (mkFs [mkEntry (Path (lit "/.cfg")) Read] None)).
Proof. by vm_compute. Qed.

End SandboxTransforms.
