(* ===== verification/ExecApproval.v ===== *)
(** * Approving commands: core/src/exec_policy.rs, core/src/tools/sandboxing.rs

    How a command the model asks for becomes a requirement: it runs, it needs the user's approval, or
    it is forbidden.  The command is split into the simple commands of its script, each is matched
    against the rules of the exec policy, and a command no rule matches is classified by the known safe
    and dangerous commands, the approval setting and the sandbox.  Unix only: the Windows branches
    ([cfg!(windows)], [cfg(windows)]) are not modelled.  tree-sitter's parser and [shlex] are
    parameters; what the host looks like is an [Os]. *)

From S2P Require Import Prelude Text AbsolutePath ExecPolicy PolicyFile ShellParse CommandSafety Permissions WritableRoots.

Module ExecApproval.
Import ExecPolicy.ExecPolicy PolicyFile.PolicyFile ShellParse.ShellParse CommandSafety.CommandSafety.
Import Permissions.Permissions WritableRoots.WritableRoots.

(** ** Data *)

(** [codex-rs/protocol/src/protocol.rs:902-917 GranularApprovalConfig] *)
Record GranularApprovalConfig := {
  sandbox_approval : bool;
  rules : bool;
  skill_approval : bool;
  request_permissions : bool;
  mcp_elicitations : bool
}.

(** [codex-rs/protocol/src/protocol.rs:867-900 AskForApproval] *)
Inductive AskForApproval := UnlessTrusted | OnFailure | OnRequest | Granular (config : GranularApprovalConfig) | Never.

(** [codex-rs/protocol/src/protocol.rs:920-922 GranularApprovalConfig::allows_sandbox_approval] *)
Definition allows_sandbox_approval (self : GranularApprovalConfig) : bool := sandbox_approval self.

(** [codex-rs/protocol/src/protocol.rs:924-926 GranularApprovalConfig::allows_rules_approval] *)
Definition allows_rules_approval (self : GranularApprovalConfig) : bool := rules self.

(** [codex-rs/protocol/src/models.rs:33-43 SandboxPermissions] *)
Inductive SandboxPermissions := UseDefault | RequireEscalated | WithAdditionalPermissions.

(** [codex-rs/protocol/src/models.rs:47-49 SandboxPermissions::requires_escalated_permissions] *)
Definition requires_escalated_permissions (self : SandboxPermissions) : bool :=
  match self with RequireEscalated => true | _ => false end.

(** [codex-rs/protocol/src/models.rs:53-55 SandboxPermissions::requests_sandbox_override] *)
Definition requests_sandbox_override (self : SandboxPermissions) : bool :=
  match self with UseDefault => false | _ => true end.

(** [codex-rs/protocol/src/config_types.rs:267-274 WindowsSandboxLevel] *)
Inductive WindowsSandboxLevel := LevelDisabled | RestrictedToken | Elevated.

(** [codex-rs/core/src/exec_policy.rs:44-49 PROMPT_CONFLICT_REASON] *)
Definition PROMPT_CONFLICT_REASON : str := lit "approval required by policy, but AskForApproval is set to Never".
Definition REJECT_SANDBOX_APPROVAL_REASON : str :=
  lit "approval required by policy, but AskForApproval::Granular.sandbox_approval is false".
Definition REJECT_RULES_APPROVAL_REASON : str :=
  lit "approval required by policy rule, but AskForApproval::Granular.rules is false".

(** [codex-rs/core/src/exec_policy.rs:144-161 ExecPolicyCommandOrigin] on Unix. *)
Inductive ExecPolicyCommandOrigin := Generic.

(** [codex-rs/core/src/exec_policy.rs:163-171 UnmatchedCommandContext] *)
Record UnmatchedCommandContext := {
  approval_policy : AskForApproval;
  permission_profile : PermissionProfile;
  windows_sandbox_level : WindowsSandboxLevel;
  sandbox_permissions : SandboxPermissions;
  used_complex_parsing : bool;
  command_origin : ExecPolicyCommandOrigin
}.

(** [codex-rs/core/src/exec_policy.rs:173-178 ExecPolicyCommands] *)
Record ExecPolicyCommands := {
  commands : list (list str);
  complex : bool;
  origin : ExecPolicyCommandOrigin
}.

(** [codex-rs/core/src/exec_policy.rs:283-290 ExecApprovalRequest] *)
Record ExecApprovalRequest := {
  req_command : list str;
  req_approval_policy : AskForApproval;
  req_permission_profile : PermissionProfile;
  req_windows_sandbox_level : WindowsSandboxLevel;
  req_sandbox_permissions : SandboxPermissions;
  req_prefix_rule : option (list str)
}.

(** [codex-rs/core/src/tools/sandboxing.rs:159-179 ExecApprovalRequirement] *)
Inductive ExecApprovalRequirement :=
  | Skip (bypass_sandbox : bool) (proposed_execpolicy_amendment : option (list str))
  | NeedsApproval (reason : option str) (proposed_execpolicy_amendment : option (list str))
  | ForbiddenBecause (reason : str).

(** [codex-rs/core/src/exec_policy.rs:53-142 BANNED_PREFIX_SUGGESTIONS] *)
Definition BANNED_PREFIX_SUGGESTIONS : list (list string) :=
  [["/bin/bash"]; ["/bin/bash"; "-c"]; ["/bin/bash"; "-lc"]; ["/bin/sh"]; ["/bin/sh"; "-c"];
   ["/bin/sh"; "-lc"]; ["/bin/zsh"]; ["/bin/zsh"; "-c"]; ["/bin/zsh"; "-lc"]; ["Rscript"]; ["bash"];
   ["bash"; "-c"]; ["bash"; "-lc"]; ["bun"]; ["bun"; "-e"]; ["bun"; "run"]; ["cmd"]; ["cmd"; "/c"];
   ["cmd"; "/k"]; ["cmd.exe"]; ["cmd.exe"; "/c"]; ["cmd.exe"; "/k"]; ["dash"]; ["dash"; "-c"]; ["deno"];
   ["deno"; "eval"]; ["env"]; ["fish"]; ["fish"; "-c"]; ["git"]; ["julia"]; ["julia"; "-e"]; ["ksh"];
   ["ksh"; "-c"]; ["lua"]; ["lua"; "-e"]; ["node"]; ["node"; "-e"]; ["nodejs"]; ["nodejs"; "-e"];
   ["npm"; "run"]; ["osascript"]; ["perl"]; ["perl"; "-e"]; ["php"]; ["php"; "-r"]; ["pnpm"; "run"];
   ["powershell"]; ["powershell"; "-Command"]; ["powershell"; "-EncodedCommand"]; ["powershell"; "-File"];
   ["powershell"; "-c"]; ["powershell.exe"]; ["powershell.exe"; "-Command"];
   ["powershell.exe"; "-EncodedCommand"]; ["powershell.exe"; "-File"]; ["powershell.exe"; "-c"]; ["pwsh"];
   ["pwsh"; "-Command"]; ["pwsh"; "-EncodedCommand"]; ["pwsh"; "-File"]; ["pwsh"; "-c"]; ["pwsh"; "-e"];
   ["pwsh"; "-ec"]; ["pwsh"; "-f"]; ["py"]; ["py"; "-3"]; ["pypy"]; ["pypy3"]; ["python"]; ["python"; "-"];
   ["python"; "-c"]; ["python3"]; ["python3"; "-"]; ["python3"; "-c"]; ["pythonw"]; ["pyw"]; ["rm"]; ["ruby"];
   ["ruby"; "-e"]; ["sh"]; ["sh"; "-c"]; ["sh"; "-lc"]; ["sudo"]; ["yarn"; "run"]; ["zsh"]; ["zsh"; "-c"];
   ["zsh"; "-lc"]]%string.

(** ** Policies of approval *)

(** [codex-rs/core/src/exec_policy.rs:204-209 is_policy_match] *)
Definition is_policy_match (m : RuleMatch) : bool :=
  match m with PrefixRuleMatch _ _ _ _ => true | HeuristicsRuleMatch _ _ => false end.

(** [codex-rs/core/src/exec_policy.rs:217-240 prompt_is_rejected_by_policy] *)
Definition prompt_is_rejected_by_policy (policy : AskForApproval) (prompt_is_rule : bool) : option str :=
  match policy with
  | Never => Some PROMPT_CONFLICT_REASON
  | OnFailure => None
  | OnRequest => None
  | UnlessTrusted => None
  | Granular granular_config =>
      if prompt_is_rule then
        if negb (allows_rules_approval granular_config) then Some REJECT_RULES_APPROVAL_REASON else None
      else if negb (allows_sandbox_approval granular_config) then Some REJECT_SANDBOX_APPROVAL_REASON
      else None
  end.

(** [cfg!(windows)] on the systems that are modelled. *)
Definition cfg_windows : bool := false.

(** [codex-rs/core/src/exec_policy.rs:850-858 profile_has_managed_filesystem_restrictions] *)
Definition profile_has_managed_filesystem_restrictions (profile : PermissionProfile) : bool :=
  let policy := file_system_sandbox_policy profile in
  match profile with Managed _ _ => true | _ => false end && is_restricted policy && negb (has_full_disk_write_access policy).

Section host.
(** The host, whether it runs Linux, tree-sitter's parser for bash, and [shlex::try_join]. *)
Context (os : Os) (linux : bool) (try_parse_shell : str -> option Tree) (shlex_try_join : list str -> option str).

(** [codex-rs/core/src/exec_policy.rs:695-706 dangerous_command_match_for_origin] *)
Definition dangerous_command_match_for_origin (command : list str) (command_origin : ExecPolicyCommandOrigin)
    : option DangerousCommandMatch :=
  match command_origin with Generic => dangerous_command_match try_parse_shell command end.

(** [is_known_safe_command], which never panics ([is_known_safe_command_total]). *)
Definition known_safe (command : list str) : bool := default false (is_known_safe_command linux try_parse_shell command).

(** [codex-rs/core/src/exec_policy.rs:709-726 dangerous_command_match_for_heuristics] *)
Definition dangerous_command_match_for_heuristics (evaluation : Evaluation) (decision : Decision)
    (command_origin : ExecPolicyCommandOrigin) : option DangerousCommandMatch :=
  find_map (fun m => match m with
                     | HeuristicsRuleMatch command matched_decision =>
                         if bool_decide (matched_decision = decision)
                         then dangerous_command_match_for_origin command command_origin else None
                     | _ => None
                     end) (matched_rules evaluation).

(** [codex-rs/core/src/exec_policy.rs:729-848 render_decision_for_unmatched_command] *)
Definition render_decision_for_unmatched_command (command : list str) (context : UnmatchedCommandContext) : Decision :=
  let dangerous := dangerous_command_match_for_origin command (command_origin context) in
  let profile := permission_profile context in
  let file_system_sandbox_policy := file_system_sandbox_policy profile in
  let is_known_safe := match command_origin context with Generic => known_safe command end in
  let windows_managed_fs_restrictions_without_sandbox_backend :=
    cfg_windows && match windows_sandbox_level context with LevelDisabled => true | _ => false end &&
    profile_has_managed_filesystem_restrictions profile in
  if is_known_safe && negb (used_complex_parsing context) &&
     (match approval_policy context with UnlessTrusted => true | _ => false end ||
      windows_managed_fs_restrictions_without_sandbox_backend)
  then Allow
  else if bool_decide (is_Some dangerous) || windows_managed_fs_restrictions_without_sandbox_backend then
    match approval_policy context with
    | Never =>
        let sandbox_is_explicitly_disabled := match profile with Disabled | External _ => true | _ => false end in
        if sandbox_is_explicitly_disabled then Allow else Forbidden
    | OnFailure | OnRequest | UnlessTrusted | Granular _ => Prompt
    end
  else
    match approval_policy context with
    | Never | OnFailure => Allow
    | UnlessTrusted => Prompt
    | OnRequest | Granular _ =>
        match sandbox_kind file_system_sandbox_policy with
        | Unrestricted | ExternalSandbox => Allow
        | Restricted => if requests_sandbox_override (sandbox_permissions context) then Prompt else Allow
        end
    end.

(** [codex-rs/core/src/exec_policy.rs:864-902 commands_for_exec_policy] *)
Definition commands_for_exec_policy (command : list str) : ExecPolicyCommands :=
  match parse_shell_lc_plain_commands try_parse_shell command with
  | Some ((_ :: _) as commands) => {| commands := commands; complex := false; origin := Generic |}
  | _ =>
      match parse_shell_lc_single_command_prefix try_parse_shell command with
      | Some single_command => {| commands := [single_command]; complex := true; origin := Generic |}
      | None => {| commands := [command]; complex := false; origin := Generic |}
      end
  end.

(** ** Amendments *)

(** [codex-rs/core/src/exec_policy.rs:914-933 try_derive_execpolicy_amendment_for_prompt_rules] *)
Definition try_derive_execpolicy_amendment_for_prompt_rules (matched_rules : list RuleMatch) : option (list str) :=
  if existsb (fun m => is_policy_match m && bool_decide (match_decision m = Prompt)) matched_rules then None
  else find_map (fun m => match m with HeuristicsRuleMatch command Prompt => Some command | _ => None end) matched_rules.

(** [codex-rs/core/src/exec_policy.rs:938-954 try_derive_execpolicy_amendment_for_allow_rules] *)
Definition try_derive_execpolicy_amendment_for_allow_rules (matched_rules : list RuleMatch) : option (list str) :=
  if existsb is_policy_match matched_rules then None
  else find_map (fun m => match m with HeuristicsRuleMatch command Allow => Some command | _ => None end) matched_rules.

Definition match_options : MatchOptions := {| resolve_host_executables := true |}.

(** The checks of the policy, with the host's directories. *)
Definition check_one {E} (policy : Policy) (command : list str) (fallback : list str -> Decision) : run E Evaluation :=
  check_with_options (home_dir os) (current_dir os) policy command fallback match_options.
Definition check_all {E} (policy : Policy) (commands : list (list str)) (fallback : list str -> Decision) : run E Evaluation :=
  check_multiple_with_options (home_dir os) (current_dir os) policy commands fallback match_options.
Definition rule_matches_of (policy : Policy) (command : list str) : list RuleMatch :=
  matches_for_command_with_options (home_dir os) (current_dir os) policy command None match_options.

(** [xs.iter().all(f)] where [f] may panic. *)
Fixpoint all_run {E A} (f : A -> run E bool) (xs : list A) : run E bool :=
  match xs with
  | [] => Done true
  | x :: xs => b ← f x; if (b : bool) then all_run f xs else Done false
  end.

(** [codex-rs/core/src/exec_policy.rs:997-1018 prefix_rule_would_approve_all_commands] *)
Definition prefix_rule_would_approve_all_commands {E} (exec_policy : Policy) (prefix_rule : list str)
    (commands : list (list str)) (exec_policy_fallback : list str -> Decision) : run E bool :=
  match add_prefix_rule exec_policy prefix_rule Allow with
  | Err _ => Done false
  | Ok policy_with_prefix_rule =>
      all_run (fun command =>
        evaluation ← check_one policy_with_prefix_rule command exec_policy_fallback;
        Done (bool_decide (eval_decision evaluation = Allow))) commands
  end.

Definition is_banned (prefix_rule : list str) : bool :=
  existsb (fun banned => bool_decide (prefix_rule = map lit banned)) BANNED_PREFIX_SUGGESTIONS.

(** [codex-rs/core/src/exec_policy.rs:956-995 derive_requested_execpolicy_amendment_from_prefix_rule] *)
Definition derive_requested_execpolicy_amendment_from_prefix_rule {E} (prefix_rule : option (list str))
    (matched_rules : list RuleMatch) (exec_policy : Policy) (commands : list (list str))
    (exec_policy_fallback : list str -> Decision) : run E (option (list str)) :=
  match prefix_rule with
  | None => Done None
  | Some prefix_rule =>
      if bool_decide (prefix_rule = []) then Done None
      else if is_banned prefix_rule then Done None
      else if existsb is_policy_match matched_rules then Done None
      else
        approves ← prefix_rule_would_approve_all_commands exec_policy prefix_rule commands exec_policy_fallback;
        Done (if (approves : bool) then Some prefix_rule else None)
  end.

(** ** Reasons *)

(** [codex-rs/core/src/exec_policy.rs:1049-1051 render_shlex_command] *)
Definition render_shlex_command (args : list str) : str := default (join (lit " ") args) (shlex_try_join args).

(** [Iterator::max_by_key] with the length of a prefix: the last of the longest. *)
Definition longest_step (best : option (list str * option str)) (x : list str * option str) : option (list str * option str) :=
  match best with Some b => if length b.1 <=? length x.1 then Some x else best | None => Some x end.

(** The prefix rules of the given decision among the matches. *)
Definition rule_of (d : Decision) (m : RuleMatch) : option (list str * option str) :=
  match m with
  | PrefixRuleMatch matched_prefix d' _ justification =>
      if bool_decide (d' = d) then Some (matched_prefix, justification) else None
  | _ => None
  end.
Definition most_specific (d : Decision) (evaluation : Evaluation) : option (list str * option str) :=
  foldl longest_step None (omap (rule_of d) (matched_rules evaluation)).

Definition TICK : char := 96%N.
Definition quoted (s : str) : str := [TICK] ++ s ++ [TICK].

(** [codex-rs/core/src/exec_policy.rs:1021-1047 derive_prompt_reason] *)
Definition derive_prompt_reason (command_args : list str) (evaluation : Evaluation) : option str :=
  let command := render_shlex_command command_args in
  match most_specific Prompt evaluation with
  | Some (_, Some justification) => Some (quoted command ++ lit " requires approval: " ++ justification)
  | Some (_, None) => Some (quoted command ++ lit " requires approval by policy")
  | None => None
  end.

(** [codex-rs/core/src/exec_policy.rs:1108-1117 dangerous_command_rejection_reason] *)
Definition dangerous_command_rejection_reason (m : DangerousCommandMatch) : str :=
  match m with
  | ForcedRm => lit "rm -f style commands are not permitted. Use a safer approach"
  | OtherDanger => lit "blocked by policy"
  end.

(** [codex-rs/core/src/exec_policy.rs:1056-1094 derive_forbidden_reason] *)
Definition derive_forbidden_reason (command_args : list str) (evaluation : Evaluation)
    (dangerous : option DangerousCommandMatch) : str :=
  let command := render_shlex_command command_args in
  match most_specific Forbidden evaluation with
  | Some (_, Some justification) => quoted command ++ lit " rejected: " ++ justification
  | Some (matched_prefix, None) =>
      let prefix := render_shlex_command matched_prefix in
      quoted command ++ lit " rejected: policy forbids commands starting with " ++ quoted prefix
  | None =>
      match dangerous with
      | Some m => quoted command ++ lit " rejected: " ++ dangerous_command_rejection_reason m
      | None => quoted command ++ lit " rejected: blocked by policy"
      end
  end.

(** [codex-rs/core/src/exec_policy.rs:1096-1106 derive_rejected_prompt_reason] *)
Definition derive_rejected_prompt_reason (fallback_reason : str) (dangerous : option DangerousCommandMatch) : str :=
  match dangerous with
  | Some ForcedRm => dangerous_command_rejection_reason ForcedRm
  | Some OtherDanger | None => fallback_reason
  end.

(** ** The requirement *)

(** The fallback for the commands of a request. *)
Definition fallback_of (req : ExecApprovalRequest) (cmds : ExecPolicyCommands) (command : list str) : Decision :=
  render_decision_for_unmatched_command command
    {| approval_policy := req_approval_policy req; permission_profile := req_permission_profile req;
       windows_sandbox_level := req_windows_sandbox_level req; sandbox_permissions := req_sandbox_permissions req;
       used_complex_parsing := complex cmds; command_origin := origin cmds |}.

(** [codex-rs/core/src/exec_policy.rs:370-435 ExecPolicyManager::create_exec_approval_requirement_for_command]
    the requirement for an evaluation. *)
Definition requirement_for (exec_policy : Policy) (req : ExecApprovalRequest) (cmds : ExecPolicyCommands)
    (evaluation : Evaluation) (requested_amendment : option (list str)) : ExecApprovalRequirement :=
  let auto_amendment_allowed := negb (complex cmds) in
  match eval_decision evaluation with
  | Forbidden =>
      ForbiddenBecause (derive_forbidden_reason (req_command req) evaluation
        (dangerous_command_match_for_heuristics evaluation Forbidden (origin cmds)))
  | Prompt =>
      let prompt_is_rule :=
        existsb (fun m => is_policy_match m && bool_decide (match_decision m = Prompt)) (matched_rules evaluation) in
      match prompt_is_rejected_by_policy (req_approval_policy req) prompt_is_rule with
      | Some reason =>
          if prompt_is_rule then ForbiddenBecause reason
          else ForbiddenBecause (derive_rejected_prompt_reason reason
                 (dangerous_command_match_for_heuristics evaluation Prompt (origin cmds)))
      | None =>
          NeedsApproval (derive_prompt_reason (req_command req) evaluation)
            (match requested_amendment with
             | Some amendment => Some amendment
             | None => if auto_amendment_allowed
                       then try_derive_execpolicy_amendment_for_prompt_rules (matched_rules evaluation) else None
             end)
      end
  | Allow =>
      Skip (forallb (fun command =>
              existsb (fun m => is_policy_match m && bool_decide (match_decision m = Allow)) (rule_matches_of exec_policy command))
              (commands cmds))
        (if auto_amendment_allowed then try_derive_execpolicy_amendment_for_allow_rules (matched_rules evaluation) else None)
  end.

(** [codex-rs/core/src/exec_policy.rs:313-436 ExecPolicyManager::create_exec_approval_requirement_for_command] *)
Definition create_exec_approval_requirement_for_command {E} (exec_policy : Policy) (req : ExecApprovalRequest)
    : run E ExecApprovalRequirement :=
  let cmds := commands_for_exec_policy (req_command req) in
  let auto_amendment_allowed := negb (complex cmds) in
  let exec_policy_fallback := fallback_of req cmds in
  evaluation ← check_all exec_policy (commands cmds) exec_policy_fallback;
  requested_amendment ←
    (if auto_amendment_allowed then
       derive_requested_execpolicy_amendment_from_prefix_rule (req_prefix_rule req) (matched_rules evaluation) exec_policy
         (commands cmds) exec_policy_fallback
     else Done None);
  Done (requirement_for exec_policy req cmds evaluation requested_amendment).

(** ** Updating the policy *)

(** [codex-rs/core/src/exec_policy.rs:278-281 ExecPolicyManager] the policy in force and the text of the
    default rules file; the semaphore makes the updates atomic. *)
Record ExecPolicyManager := mkManager { policy : Policy; rules_file : str }.

(** [codex-rs/core/src/exec_policy.rs:263-276 ExecPolicyUpdateError] *)
Inductive ExecPolicyUpdateError := AppendRule | JoinBlockingTask | AddRule (source : Error).

(** [serde_json]'s strings, and whether the blocking task could write the rules file. *)
Context (json_string : str -> str) (write_ok : bool).

(** [codex-rs/core/src/exec_policy.rs:438-486 ExecPolicyManager::append_amendment_and_update] *)
Definition append_amendment_and_update {E} (self : ExecPolicyManager) (amendment : list str)
    : run E (ExecPolicyManager * result ExecPolicyUpdateError unit) :=
  match blocking_append_allow_prefix_rule json_string (rules_file self) amendment with
  | None => Done (self, Err AppendRule)
  | Some contents =>
      if negb write_ok then Done (self, Err AppendRule)
      else
        let self := mkManager (policy self) contents in
        existing_evaluation ← check_all (policy self) [amendment] (fun _ => Forbidden);
        let already_allowed :=
          bool_decide (eval_decision existing_evaluation = Allow) &&
          existsb (fun m => is_policy_match m && bool_decide (match_decision m = Allow)) (matched_rules existing_evaluation) in
        if already_allowed then Done (self, Ok tt)
        else match add_prefix_rule (policy self) amendment Allow with
             | Err e => Done (self, Err (AddRule e))
             | Ok updated_policy => Done (mkManager updated_policy (rules_file self), Ok tt)
             end
  end.

(** [codex-rs/core/src/exec_policy.rs:488-532 ExecPolicyManager::append_network_rule_and_update] *)
Definition append_network_rule_and_update (self : ExecPolicyManager) (host : str) (protocol : NetworkRuleProtocol)
    (decision : Decision) (justification : option str) : ExecPolicyManager * result ExecPolicyUpdateError unit :=
  match blocking_append_network_rule json_string (rules_file self) host protocol decision justification with
  | Err _ => (self, Err AppendRule)
  | Ok contents =>
      if negb write_ok then (self, Err AppendRule)
      else match add_network_rule (policy self) host protocol decision justification with
           | Err e => (mkManager (policy self) contents, Err (AddRule e))
           | Ok updated_policy => (mkManager updated_policy contents, Ok tt)
           end
  end.
End host.

(** ** Requirements and the sandbox *)

(** [codex-rs/core/src/tools/sandboxing.rs:182-194 ExecApprovalRequirement::proposed_execpolicy_amendment] *)
Definition proposed_execpolicy_amendment (self : ExecApprovalRequirement) : option (list str) :=
  match self with
  | NeedsApproval _ (Some prefix) => Some prefix
  | Skip _ (Some prefix) => Some prefix
  | _ => None
  end.

(** [codex-rs/core/src/tools/sandboxing.rs:202-238 default_exec_approval_requirement] *)
Definition default_exec_approval_requirement (policy : AskForApproval) (file_system_sandbox_policy : FileSystemSandboxPolicy)
    : ExecApprovalRequirement :=
  let needs_approval :=
    match policy with
    | Never | OnFailure => false
    | OnRequest | Granular _ => is_restricted file_system_sandbox_policy
    | UnlessTrusted => true
    end in
  if needs_approval &&
     match policy with Granular granular_config => negb (allows_sandbox_approval granular_config) | _ => false end
  then ForbiddenBecause (lit "approval policy disallowed sandbox approval prompt")
  else if needs_approval then NeedsApproval None None
  else Skip false None.

(** [codex-rs/core/src/tools/sandboxing.rs:240-244 SandboxOverride] *)
Inductive SandboxOverride := NoOverride | BypassSandboxFirstAttempt.

(** [codex-rs/core/src/tools/sandboxing.rs:283-287 unsandboxed_execution_allowed] *)
Definition unsandboxed_execution_allowed (policy : FileSystemSandboxPolicy) : bool :=
  negb (has_denied_read_restrictions policy).

(** [codex-rs/core/src/tools/sandboxing.rs:246-275 sandbox_override_for_first_attempt] *)
Definition sandbox_override_for_first_attempt (sandbox_permissions : SandboxPermissions)
    (exec_approval_requirement : ExecApprovalRequirement) (policy : FileSystemSandboxPolicy) : SandboxOverride :=
  if negb (unsandboxed_execution_allowed policy) then NoOverride
  else if match exec_approval_requirement with Skip true _ => true | _ => false end then BypassSandboxFirstAttempt
  else if requires_escalated_permissions sandbox_permissions then BypassSandboxFirstAttempt
  else NoOverride.

(** [codex-rs/core/src/tools/sandboxing.rs:289-303 sandbox_permissions_preserving_denied_reads] *)
Definition sandbox_permissions_preserving_denied_reads (sandbox_permissions : SandboxPermissions)
    (policy : FileSystemSandboxPolicy) : SandboxPermissions :=
  if requires_escalated_permissions sandbox_permissions && negb (unsandboxed_execution_allowed policy) then UseDefault
  else sandbox_permissions.

(** [codex-rs/core/src/tools/sandboxing.rs:334-340 Approvable::should_bypass_approval] the default. *)
Definition should_bypass_approval (policy : AskForApproval) (already_approved : bool) : bool :=
  if already_approved then true else match policy with Never => true | _ => false end.

(** [codex-rs/core/src/tools/sandboxing.rs:355-363 Approvable::wants_no_sandbox_approval] the default. *)
Definition wants_no_sandbox_approval (policy : AskForApproval) : bool :=
  match policy with
  | OnFailure => true
  | UnlessTrusted => true
  | Never => false
  | OnRequest => false
  | Granular granular_config => sandbox_approval granular_config
  end.

(** ** Lemmas *)

Section lemmas.
Context (os : Os) (linux : bool) (try_parse_shell : str -> option Tree) (shlex_try_join : list str -> option str).

(** The matches of one command: its rules, or the verdict of the fallback. *)
Definition segment_matches (p : Policy) (fb : list str -> Decision) (c : list str) : list RuleMatch :=
  matches_for_command_with_options (home_dir os) (current_dir os) p c (Some fb) match_options.

Lemma commands_nonempty command : commands (commands_for_exec_policy try_parse_shell command) <> [].
Proof. unfold commands_for_exec_policy. by repeat case_match; simplify_eq/=. Qed.

Lemma check_all_done {E} p cs fb :
  cs <> [] ->
  exists e, @check_all os E p cs fb = Done e /\ matched_rules e = (cs ≫= segment_matches p fb) /\
    (exists c m, c ∈ cs /\ m ∈ segment_matches p fb c /\ match_decision m = eval_decision e) /\
    (forall c m, c ∈ cs -> m ∈ segment_matches p fb c -> rank (match_decision m) <= rank (eval_decision e)).
Proof.
  intros Hne. unfold check_all, check_multiple_with_options.
  destruct (@from_matches_done E (cs ≫= segment_matches p fb)) as (e & He & Hms & (m & Hm & Hd) & Hmax).
  { destruct cs as [|c cs]; [done|]. simpl. intros [Hnil _]%app_eq_nil. by apply matches_fallback_nonempty in Hnil. }
  exists e. split; [exact He|]. split; [done|]. split.
  - apply list_elem_of_bind in Hm as (c & Hm & Hc). eauto.
  - intros c m' Hc Hm'. apply Hmax, list_elem_of_bind. eauto.
Qed.

Lemma check_one_done {E} p c fb :
  exists e, @check_one os E p c fb = Done e /\ matched_rules e = segment_matches p fb c /\
    (eval_decision e = Allow <-> forall m, m ∈ segment_matches p fb c -> match_decision m = Allow).
Proof.
  destruct (@from_matches_done E (segment_matches p fb c)) as (e & He & Hms & (m & Hm & Hd) & Hmax);
    [apply matches_fallback_nonempty|].
  exists e. split; [exact He|]. split; [done|]. split.
  - intros Ha m' Hm'. specialize (Hmax m' Hm'). rewrite Ha in Hmax. destruct (match_decision m'); simpl in Hmax; done || lia.
  - intros Hall. rewrite <- Hd. by apply Hall.
Qed.

Lemma all_run_done {E A} (f : A -> run E bool) (g : A -> bool) xs :
  (forall x, f x = Done (g x)) -> all_run f xs = Done (forallb g xs).
Proof. intros Hf. induction xs as [|x xs IH]; [done|]. simpl. rewrite Hf. simpl. by destruct (g x). Qed.

Lemma all_allowed e (cs : list (list str)) p fb :
  (exists c m, c ∈ cs /\ m ∈ segment_matches p fb c /\ match_decision m = eval_decision e) ->
  (forall c m, c ∈ cs -> m ∈ segment_matches p fb c -> rank (match_decision m) <= rank (eval_decision e)) ->
  eval_decision e = Allow <-> forall c m, c ∈ cs -> m ∈ segment_matches p fb c -> match_decision m = Allow.
Proof.
  intros (c0 & m0 & Hc0 & Hm0 & <-) Hmax. split; [|by eauto].
  intros Ha c m Hc Hm. specialize (Hmax c m Hc Hm). rewrite Ha in Hmax.
  destruct (match_decision m); simpl in Hmax; done || lia.
Qed.

(** The request for a prefix rule is answered without a panic, and only when the rule would approve
    every command. *)
Lemma requested_amendment {E} prefix ms p cs fb :
  exists r, @derive_requested_execpolicy_amendment_from_prefix_rule os E prefix ms p cs fb = Done r /\
    forall am, r = Some am -> prefix = Some am /\ am <> [] /\ is_banned am = false /\ existsb is_policy_match ms = false /\
      exists p', add_prefix_rule p am Allow = Ok p' /\
        forall c m, c ∈ cs -> m ∈ segment_matches p' fb c -> match_decision m = Allow.
Proof.
  unfold derive_requested_execpolicy_amendment_from_prefix_rule. destruct prefix as [pr|]; [|by eexists].
  case_bool_decide as Hnil; [by eexists|]. destruct (is_banned pr) eqn:Hb; [by eexists|].
  destruct (existsb is_policy_match ms) eqn:Hp; [by eexists|]. unfold prefix_rule_would_approve_all_commands.
  destruct (add_prefix_rule p pr Allow) as [p'|err] eqn:Hadd; [|by eexists].
  rewrite (all_run_done _ (fun c => forallb (fun m => bool_decide (match_decision m = Allow)) (segment_matches p' fb c))).
  2:{ intros c. destruct (@check_one_done E p' c fb) as (e & -> & _ & Hiff). simpl. f_equal.
      apply eq_true_iff_eq. rewrite bool_decide_eq_true, forallb_forall, Hiff. split; intros H m Hm.
      - apply bool_decide_eq_true, H. by apply list_elem_of_In.
      - apply list_elem_of_In, H, bool_decide_eq_true in Hm. done. }
  simpl. eexists. split; [done|]. intros am. case_match eqn:Hall; [|done]. intros [= <-].
  split; [done|]. split; [done|]. split; [done|]. split; [done|]. exists p'. split; [done|]. intros c m Hc Hm.
  rewrite forallb_forall in Hall. apply list_elem_of_In, Hall in Hc. rewrite forallb_forall in Hc.
  by apply list_elem_of_In, Hc, bool_decide_eq_true in Hm.
Qed.

Abbreviation create E := (@create_exec_approval_requirement_for_command os linux try_parse_shell shlex_try_join E).

(** The commands of a request and the verdicts of their matches. *)
Definition segments (req : ExecApprovalRequest) : list (list str) :=
  commands (commands_for_exec_policy try_parse_shell (req_command req)).
Definition request_fallback (req : ExecApprovalRequest) : list str -> Decision :=
  fallback_of linux try_parse_shell req (commands_for_exec_policy try_parse_shell (req_command req)).

Lemma create_done {E} p req :
  exists e am,
    create E p req =
      Done (requirement_for os try_parse_shell shlex_try_join p req (commands_for_exec_policy try_parse_shell (req_command req)) e am) /\
    matched_rules e = (segments req ≫= segment_matches p (request_fallback req)) /\
    (exists c m, c ∈ segments req /\ m ∈ segment_matches p (request_fallback req) c /\ match_decision m = eval_decision e) /\
    (forall c m, c ∈ segments req -> m ∈ segment_matches p (request_fallback req) c ->
       rank (match_decision m) <= rank (eval_decision e)) /\
    (forall x, am = Some x -> complex (commands_for_exec_policy try_parse_shell (req_command req)) = false /\
       req_prefix_rule req = Some x /\ x <> [] /\ is_banned x = false /\
       existsb is_policy_match (matched_rules e) = false /\
       exists p', add_prefix_rule p x Allow = Ok p' /\
         forall c m, c ∈ segments req -> m ∈ segment_matches p' (request_fallback req) c -> match_decision m = Allow).
Proof.
  unfold create_exec_approval_requirement_for_command.
  destruct (@check_all_done E p (segments req) (request_fallback req) (commands_nonempty (req_command req)))
    as (e & He & Hms & Hex & Hmax). unfold segments, request_fallback in *. rewrite He. simpl.
  destruct (complex (commands_for_exec_policy try_parse_shell (req_command req))) eqn:Hc; simpl.
  - by exists e, None.
  - destruct (@requested_amendment E (req_prefix_rule req) (matched_rules e) p
      (commands (commands_for_exec_policy try_parse_shell (req_command req)))
      (fallback_of linux try_parse_shell req (commands_for_exec_policy try_parse_shell (req_command req))))
      as (am & -> & Ham). exists e, am. simpl. do 4 (split; [done|]). intros x Hx. split; [done | by apply Ham].
Qed.

(** A rule of the policy, rather than the fallback, wants the user to be asked about a part of the request. *)
Definition asked_by_rule (p : Policy) (req : ExecApprovalRequest) : Prop :=
  exists c m, c ∈ segments req /\ m ∈ segment_matches p (request_fallback req) c /\ is_policy_match m = true /\
    match_decision m = Prompt.

Lemma asked_by_rule_iff p req e : matched_rules e = (segments req ≫= segment_matches p (request_fallback req)) ->
  existsb (fun m => is_policy_match m && bool_decide (match_decision m = Prompt)) (matched_rules e) = true <-> asked_by_rule p req.
Proof.
  intros ->. rewrite existsb_exists. unfold asked_by_rule. split.
  - intros (m & Hm & [Hp Hd%bool_decide_eq_true]%andb_true_iff). apply list_elem_of_In, list_elem_of_bind in Hm as (c & Hm & Hc). eauto 6.
  - intros (c & m & Hc & Hm & Hp & Hd). exists m. rewrite Hp, bool_decide_eq_true_2 by done. split; [|done].
    apply list_elem_of_In, list_elem_of_bind. eauto.
Qed.

(** When the approval setting lets a question through: questions are not off, and with granular settings the kind of
    question is switched on, that of the rules or that of the sandbox. *)
Definition questions_on (policy : AskForApproval) (by_rule : Prop) : Prop :=
  policy <> Never /\
  forall cfg, policy = Granular cfg -> (by_rule -> rules cfg = true) /\ (~ by_rule -> sandbox_approval cfg = true).

Lemma prompt_allowed_iff policy (by_rule : bool) : prompt_is_rejected_by_policy policy by_rule = None <-> questions_on policy (by_rule = true).
Proof.
  unfold questions_on, prompt_is_rejected_by_policy, allows_rules_approval, allows_sandbox_approval.
  destruct policy as [| | |cfg|]; try (split; [intros _; split; intros; discriminate|done]); [|split; [done|by intros [? _]]].
  destruct by_rule, (rules cfg) eqn:Hr, (sandbox_approval cfg) eqn:Hs; cbn; split; try done; try (intros [_ H]; destruct (H cfg eq_refl) as [H1 H2]; first [by specialize (H1 eq_refl); congruence|by specialize (H2 ltac:(discriminate)); congruence]).
  all: intros _; split; [done|]; intros ? [= <-]; rewrite Hr, Hs; by split.
Qed.

Lemma questions_on_iff policy (P Q : Prop) : (P <-> Q) -> questions_on policy P <-> questions_on policy Q.
Proof. intros H. unfold questions_on. by setoid_rewrite H. Qed.

(** C1: A command is approved by all its parts.  Deciding never panics; a rule that forbids any simple
    command of the request forbids the request; the request runs without asking only if every rule and
    every fallback verdict for every simple command is to allow it, and outside the sandbox only if
    each simple command has a rule of its own that allows it; the user is asked only when some
    simple command calls for it and the approval setting lets the question through (it is not the setting
    without questions, and a granular setting has rule prompts, or sandbox prompts when no rule asks, switched
    on); and the request is refused only when some verdict forbids it or asks although the setting does not let
    the question through. *)
Theorem approval_sound {E} p req :
  exists r, create E p req = Done r /\
    (forall c m, c ∈ segments req -> m ∈ segment_matches p (request_fallback req) c -> match_decision m = Forbidden ->
       exists why, r = ForbiddenBecause why) /\
    (forall bypass am, r = Skip bypass am -> forall c, c ∈ segments req ->
       (forall m, m ∈ segment_matches p (request_fallback req) c -> match_decision m = Allow) /\
       (bypass = true -> exists m, m ∈ rule_matches_of os p c /\ is_policy_match m = true /\ match_decision m = Allow)) /\
    (forall why am, r = NeedsApproval why am ->
       (exists c m, c ∈ segments req /\ m ∈ segment_matches p (request_fallback req) c /\ match_decision m = Prompt) /\
       questions_on (req_approval_policy req) (asked_by_rule p req)) /\
    (forall why, r = ForbiddenBecause why ->
       exists c m, c ∈ segments req /\ m ∈ segment_matches p (request_fallback req) c /\
         (match_decision m = Forbidden \/
          match_decision m = Prompt /\ ~ questions_on (req_approval_policy req) (asked_by_rule p req))).
Proof.
  destruct (@create_done E p req) as (e & am & -> & Hms & Hex & Hmax & _). eexists. split; [done|]. unfold requirement_for.
  pose proof (prompt_allowed_iff (req_approval_policy req)
    (existsb (fun m => is_policy_match m && bool_decide (match_decision m = Prompt)) (matched_rules e))) as Hq.
  rewrite (questions_on_iff _ _ _ (asked_by_rule_iff p req e Hms)) in Hq.
  split; [|split; [|split]].
  - intros c m Hc Hm Hf. specialize (Hmax c m Hc Hm). rewrite Hf in Hmax.
    destruct (eval_decision e) eqn:Hd; simpl in Hmax; try lia. eauto.
  - intros bypass x Hr c Hc. pose proof (all_allowed e (segments req) p (request_fallback req) Hex Hmax) as Hall.
    destruct (eval_decision e) eqn:Hd; [|by repeat case_match|done]. injection Hr as <- _.
    split; [intros m Hm; by eapply Hall|]. intros Hb. rewrite forallb_forall in Hb.
    apply list_elem_of_In, Hb, existsb_exists in Hc as (m & Hm & [Hp Ha]%andb_true_iff).
    exists m. rewrite list_elem_of_In. split; [done|]. split; [done|]. by apply bool_decide_eq_true in Ha.
  - intros why x Hr. destruct (eval_decision e) eqn:Hd; [done| |done]. split; [by destruct Hex as (c & m & ? & ? & ?); eauto|].
    apply Hq. destruct (prompt_is_rejected_by_policy _ _); [by case_match|done].
  - intros why Hr. destruct Hex as (c & m & Hc & Hm & Hd). exists c, m. split; [done|]. split; [done|]. rewrite Hd.
    destruct (eval_decision e); [done| |by left]. right. split; [done|]. intros Hon%Hq. by rewrite Hon in Hr.
Qed.

(** Whether the command's own sandbox is explicitly off. *)
Definition sandbox_off (profile : PermissionProfile) : Prop :=
  match profile with Disabled | External _ => True | Managed _ _ => False end.

Lemma no_rule_fallback p fb c m :
  rule_matches_of os p c = [] -> m ∈ segment_matches p fb c -> m = HeuristicsRuleMatch c (fb c).
Proof.
  unfold rule_matches_of, segment_matches, matches_for_command_with_options. simpl.
  destruct (default [] (match_exact_rules p c)) as [|x l]; [|done].
  destruct (match_host_executable_rules (home_dir os) (current_dir os) p c); [|done].
  intros _. by rewrite list_elem_of_singleton.
Qed.

(** A dangerous command never runs silently: when a simple command of the request is classified as
    dangerous and no rule speaks about it, the request runs without asking only if the user both turned
    questions off and disabled the sandbox or delegated it to an external one. *)
Theorem dangerous_needs_consent {E} p req c bypass am :
  bash_grammar try_parse_shell -> runs_zsh_word c = false ->
  c ∈ segments req -> rule_matches_of os p c = [] -> dangerous_command_match try_parse_shell c <> None ->
  create E p req = Done (Skip bypass am) ->
  req_approval_policy req = Never /\ sandbox_off (req_permission_profile req).
Proof.
  intros Hg Hz Hc Hnone Hdanger Hr.
  destruct (@create_done E p req) as (e & am' & Heq & Hms & Hex & Hmax & _). rewrite Heq in Hr. injection Hr as Hr.
  assert (Hd : eval_decision e = Allow) by (unfold requirement_for in Hr; by repeat case_match).
  pose proof (proj1 (all_allowed e (segments req) p (request_fallback req) Hex Hmax) Hd c) as Hall.
  destruct (segment_matches p (request_fallback req) c) as [|m l] eqn:Hseg; [by apply matches_fallback_nonempty in Hseg|].
  assert (Hin : m ∈ segment_matches p (request_fallback req) c) by (rewrite Hseg; set_solver).
  pose proof (no_rule_fallback p _ c m Hnone Hin) as ->.
  specialize (Hall _ Hc (list_elem_of_here _ _)). simpl in Hall.
  unfold request_fallback, fallback_of, render_decision_for_unmatched_command in Hall. simpl in Hall.
  rewrite ?orb_false_r in Hall.
  destruct (origin (commands_for_exec_policy try_parse_shell (req_command req))). simpl in Hall.
  rewrite (bool_decide_true (is_Some (dangerous_command_match try_parse_shell c))) in Hall by by apply not_eq_None_Some.
  assert (Hks : known_safe linux try_parse_shell c = false).
  { unfold known_safe. destruct (is_known_safe_command linux try_parse_shell c) as [[]|] eqn:Es; try done.
    by apply (known_safe_harmless try_parse_shell linux c Hg Hz) in Es. }
  rewrite Hks in Hall. simpl in Hall. destruct (req_approval_policy req); try done. split; [done|].
  by destruct (req_permission_profile req).
Qed.

Lemma find_map_Some {A B} (f : A -> option B) l y : find_map f l = Some y -> exists x, x ∈ l /\ f x = Some y.
Proof.
  induction l as [|a l IH]; simpl; [done|]. destruct (f a) eqn:Ef.
  - intros [= <-]. exists a. set_solver.
  - intros (x & Hx & Hf)%IH. exists x. set_solver.
Qed.

(** A rule added for a command that no rule matched is the only one that matches it. *)
Lemma added_rule_matches p p' c fb :
  rule_matches_of os p c = [] -> add_prefix_rule p c Allow = Ok p' ->
  segment_matches p' fb c = [PrefixRuleMatch c Allow None None].
Proof.
  destruct c as [|c0 args]; [done|]. intros Hnone [= <-].
  unfold rule_matches_of, segment_matches, matches_for_command_with_options, match_exact_rules in *. simpl in *.
  unfold multi_insert. rewrite lookup_insert_eq. simpl. rewrite omap_app.
  assert (Hold : omap (rule_matches (c0 :: args)) (default [] (rules_by_program p !! c0)) = []).
  { by destruct (omap (rule_matches (c0 :: args)) (default [] (rules_by_program p !! c0))). }
  rewrite Hold. simpl.
  assert (Hown : rule_matches (c0 :: args) {| pattern := {| first := c0; rest := Single <$> args |}; decision := Allow;
                                              justification := None |} = Some (PrefixRuleMatch (c0 :: args) Allow None None)).
  { unfold rule_matches. simpl.
    rewrite (proj2 (matches_prefix_Some {| first := c0; rest := Single <$> args |} (c0 :: args) (c0 :: args))); [done|].
    exists args, []. rewrite app_nil_r. split; [done|]. split; [done|]. simpl.
    clear. induction args as [|a args IH]; simpl; [constructor|]. constructor; [by apply list_elem_of_singleton | done]. }
  by rewrite Hown.
Qed.

Lemma heuristics_only p fb c cmd d :
  HeuristicsRuleMatch cmd d ∈ segment_matches p fb c -> cmd = c /\ d = fb c /\ rule_matches_of os p c = [].
Proof.
  unfold rule_matches_of, segment_matches, matches_for_command_with_options.
  destruct (match_exact_rules p c) as [[|x l]|] eqn:He; simpl.
  2:{ intros Hin. destruct (exact_matches_are_prefix _ _ _ _ He Hin) as (? & ? & ? & ? & ?). done. }
  all: destruct (match_host_executable_rules (home_dir os) (current_dir os) p c) as [|x l] eqn:Hh;
    [by intros [= -> ->]%list_elem_of_singleton|].
  all: intros Hin; rewrite <- Hh in Hin; destruct (host_matches_are_prefix _ _ _ _ _ Hin) as (? & ? & ? & ? & ?); done.
Qed.

(** A proposed amendment has the effect it is proposed for.  When the user is asked with a rule to
    add, and the rule is added, either the rule is the one the request asked for, it is none of the
    banned ones, and the same request then runs without asking; or the rule is one of the simple
    commands, the one that made the program ask, and that command is then allowed by the rule. *)
Theorem amendment_takes_effect {E} p req reason am p' :
  create E p req = Done (NeedsApproval reason (Some am)) -> add_prefix_rule p am Allow = Ok p' ->
  (req_prefix_rule req = Some am /\ is_banned am = false /\
   exists bypass am', create E p' req = Done (Skip bypass am')) \/
  (am ∈ segments req /\ request_fallback req am = Prompt /\
   segment_matches p' (request_fallback req) am = [PrefixRuleMatch am Allow None None]).
Proof.
  intros Hr Hadd. destruct (@create_done E p req) as (e & am' & Heq & Hms & Hex & Hmax & Ham).
  rewrite Heq in Hr. injection Hr as Hr. unfold requirement_for in Hr.
  destruct (eval_decision e) eqn:Hd; [done| |done]. destruct (prompt_is_rejected_by_policy _ _); [by case_match|].
  injection Hr as _ Hr. destruct am' as [x|].
  - left. injection Hr as ->. destruct (Ham am eq_refl) as (_ & Hreq & _ & Hban & _ & p'' & Hadd' & Hall).
    rewrite Hadd in Hadd'. injection Hadd' as <-. split; [done|]. split; [done|].
    destruct (@create_done E p' req) as (e' & am'' & -> & _ & Hex' & Hmax' & _).
    pose proof (proj2 (all_allowed e' (segments req) p' (request_fallback req) Hex' Hmax') Hall) as Ha.
    unfold requirement_for. rewrite Ha. eauto.
  - right. case_match; [|done]. unfold try_derive_execpolicy_amendment_for_prompt_rules in Hr. case_match; [done|].
    apply find_map_Some in Hr as (m & Hm & Hf). destruct m as [|cmd [| |]]; try done. injection Hf as ->.
    rewrite Hms in Hm. apply list_elem_of_bind in Hm as (c & Hm & Hc).
    destruct (heuristics_only _ _ _ _ _ Hm) as (-> & Hp & Hnone). split; [done|]. split; [done|].
    by apply (added_rule_matches p).
Qed.

(** Without questions nothing waits for an answer, and denied reads keep the sandbox: under [Never]
    no request of any kind needs approval; and while a policy denies reads no requirement and no
    escalation takes the command out of the sandbox. *)
Lemma sandbox_kept {E} p req policy :
  (req_approval_policy req = Never -> forall r, create E p req = Done r -> forall why am, r <> NeedsApproval why am) /\
  (forall fs, default_exec_approval_requirement Never fs = Skip false None) /\
  (has_denied_read_restrictions policy = true ->
   forall permissions requirement,
     sandbox_override_for_first_attempt permissions requirement policy = NoOverride /\
     requires_escalated_permissions (sandbox_permissions_preserving_denied_reads permissions policy) = false).
Proof.
  split; [|split].
  - intros Hn r Hr why am ->. destruct (@create_done E p req) as (e & am' & Heq & _). rewrite Heq in Hr.
    injection Hr as Hr. unfold requirement_for in Hr. rewrite Hn in Hr. simpl in Hr. by repeat case_match.
  - done.
  - intros Hd permissions requirement. unfold sandbox_override_for_first_attempt, sandbox_permissions_preserving_denied_reads,
      unsandboxed_execution_allowed. rewrite Hd. simpl. split; [done|]. by destruct permissions.
Qed.

(** An update that succeeds for a command without rules makes its rule the only one; one that fails
    leaves the policy as it was. *)
Lemma amendment_update {E} json_string write_ok self am self' r :
  @append_amendment_and_update os json_string write_ok E self am = Done (self', r) ->
  match r with
  | Ok _ => rule_matches_of os (policy self) am = [] ->
      forall fb, segment_matches (policy self') fb am = [PrefixRuleMatch am Allow None None]
  | Err _ => policy self' = policy self
  end.
Proof.
  unfold append_amendment_and_update. destruct (blocking_append_allow_prefix_rule _ _ am) as [contents|]; [|by intros [= <- <-]].
  destruct write_ok; simpl; [|by intros [= <- <-]].
  destruct (@check_all_done E (policy self) [am] (fun _ => Forbidden)) as (e & -> & Hms & Hex & Hmax); [done|]. simpl.
  destruct (_ && _) eqn:Hal.
  - intros [= <- <-] Hnone fb. exfalso. apply andb_true_iff in Hal as [_ Hal]. rewrite Hms in Hal.
    apply existsb_exists in Hal as (m & Hm & [Hp _]%andb_true_iff). apply list_elem_of_In, list_elem_of_bind in Hm as (c & Hm & Hc).
    apply list_elem_of_singleton in Hc as ->. by rewrite (no_rule_fallback _ _ _ _ Hnone Hm) in Hp.
  - destruct (add_prefix_rule (policy self) am Allow) as [p'|err] eqn:Hadd; intros [= <- <-]; [|done].
    intros Hnone fb. by apply (added_rule_matches (policy self)).
Qed.
End lemmas.

(** ** Witnesses *)

Definition example_request (command : list string) (approval : AskForApproval) (profile : PermissionProfile)
    (prefix : option (list string)) : ExecApprovalRequest := {|
  req_command := map lit command; req_approval_policy := approval; req_permission_profile := profile;
  req_windows_sandbox_level := LevelDisabled; req_sandbox_permissions := UseDefault;
  req_prefix_rule := map lit <$> prefix
|}.

Lemma dangerous_needs_consent_witness :
  let req := example_request ["rm"; "-rf"; "build"] Never Disabled None in
  req_approval_policy req = Never /\ sandbox_off (req_permission_profile req).
Proof.
  intros req. apply (dangerous_needs_consent example_os true (fun _ => None) (fun _ => None) (E := Error) empty_policy req
    (map lit ["rm"; "-rf"; "build"]%string) false (Some (map lit ["rm"; "-rf"; "build"]%string))).
  - done.
  - by vm_compute.
  - by apply list_elem_of_here.
  - by vm_compute.
  - by vm_compute.
  - by vm_compute.
Defined.

(** Under the other settings the same command is asked about, or forbidden. *)
Example dangerous_settings :
  (fun '(a, p) => @create_exec_approval_requirement_for_command example_os true (fun _ => None) (fun _ => None) Error
     empty_policy (example_request ["rm"; "-rf"; "x"] a p None)) <$>
  [(OnRequest, Disabled); (Never, Managed ManagedUnrestricted NetEnabled)] =
  [Done (NeedsApproval None (Some (map lit ["rm"; "-rf"; "x"]%string)));
   Done (ForbiddenBecause (quoted (lit "rm -rf x") ++
     lit " rejected: rm -f style commands are not permitted. Use a safer approach"))].
Proof. by vm_compute. Qed.

Lemma amendment_takes_effect_witness :
  let req := example_request ["cargo"; "build"; "--release"] UnlessTrusted Disabled (Some ["cargo"; "build"]%string) in
  exists p', add_prefix_rule empty_policy (map lit ["cargo"; "build"]%string) Allow = Ok p' /\
    ((req_prefix_rule req = Some (map lit ["cargo"; "build"]%string) /\ is_banned (map lit ["cargo"; "build"]%string) = false /\
      exists bypass am', @create_exec_approval_requirement_for_command example_os true (fun _ => None) (fun _ => None) Error p' req =
        Done (Skip bypass am')) \/
     (map lit ["cargo"; "build"]%string ∈ segments (fun _ => None) req /\
      request_fallback true (fun _ => None) req (map lit ["cargo"; "build"]%string) = Prompt /\
      segment_matches example_os p' (request_fallback true (fun _ => None) req) (map lit ["cargo"; "build"]%string) =
        [PrefixRuleMatch (map lit ["cargo"; "build"]%string) Allow None None])).
Proof.
  intros req. eexists. split; [reflexivity|].
  apply (amendment_takes_effect example_os true (fun _ => None) (fun _ => None) (E := Error) empty_policy req None
    (map lit ["cargo"; "build"]%string)); [by vm_compute | reflexivity].
Defined.

End ExecApproval.
