(* ===== verification/PatchSafety.v ===== *)
(** * Approving patches: core/src/safety.rs and core/src/apply_patch.rs

    Whether a verified patch is applied at once, needs the user's approval, or is rejected, from the
    paths it changes, the approval setting and the sandbox. *)

From S2P Require Import Prelude Text AbsolutePath ApplyInvocation ExecPolicy Permissions WritableRoots.
From S2P Require Import SandboxTransforms ExecApproval.

Module PatchSafety.
Import AbsolutePath.AbsolutePath ApplyInvocation.ApplyInvocation Permissions.Permissions WritableRoots.WritableRoots.
Import SandboxTransforms.SandboxTransforms ExecApproval.ExecApproval.

(** [codex-rs/core/src/safety.rs:21-31 SafetyCheck] *)
Inductive SafetyCheck :=
  | AutoApprove (sandbox_type : SandboxType) (user_explicitly_approved : bool)
  | AskUser
  | Reject (reason : str).

(** [codex-rs/core/src/safety.rs:16-19 PATCH_REJECTED_OUTSIDE_PROJECT_REASON] *)
Definition PATCH_REJECTED_OUTSIDE_PROJECT_REASON : str :=
  lit "writing outside of the project; rejected by user approval settings".
Definition PATCH_REJECTED_READ_ONLY_REASON : str :=
  lit "writing is blocked by read-only sandbox; rejected by user approval settings".

(** [codex-rs/core/src/util.rs:102-108 resolve_path] *)
Definition resolve_path (base path : str) : str := if is_absolute path then path else path_join base path.

(** [codex-rs/core/src/safety.rs:145-157 is_write_patch_constrained_to_writable_paths] the inner [normalize]. *)
Definition normalize (path : str) : option str :=
  Some (foldl (fun out comp => match comp with
                               | ParentDir => pop out
                               | CurDir => out
                               | other => push out (as_os_str other)
                               end) [] (components path)).

Section host.
Context (os : Os) (target : TargetOs).

(** [codex-rs/core/src/safety.rs:162-170 is_write_patch_constrained_to_writable_paths] the closure. *)
Definition path_is_writable (policy : FileSystemSandboxPolicy) (cwd p : str) : bool :=
  match normalize (resolve_path cwd p) with
  | Some abs => can_write_path_with_cwd os policy abs cwd
  | None => false
  end.

(** [codex-rs/core/src/safety.rs:173-189 is_write_patch_constrained_to_writable_paths] one change. *)
Definition change_is_writable (policy : FileSystemSandboxPolicy) (cwd : str) (kv : str * ApplyPatchFileChange) : bool :=
  let '(path, change) := kv in
  match change with
  | AddChange _ | DeleteChange _ => path_is_writable policy cwd path
  | UpdateChange _ move_path _ =>
      if negb (path_is_writable policy cwd path) then false
      else match move_path with
           | Some dest => path_is_writable policy cwd dest
           | None => true
           end
  end.

(** [codex-rs/core/src/safety.rs:138-193 is_write_patch_constrained_to_writable_paths] *)
Definition is_write_patch_constrained_to_writable_paths (action : ApplyPatchAction) (policy : FileSystemSandboxPolicy)
    (cwd : str) : bool :=
  forallb (change_is_writable policy cwd) (map_to_list (action_changes action)).

(** [codex-rs/core/src/safety.rs:118-136 patch_rejection_reason] *)
Definition patch_rejection_reason (profile : PermissionProfile) (policy : FileSystemSandboxPolicy) (cwd : str) : str :=
  match profile with
  | Managed _ _ =>
      if negb (has_full_disk_write_access policy) && bool_decide (length (get_writable_roots_with_cwd os policy cwd) = 0)
      then PATCH_REJECTED_READ_ONLY_REASON else PATCH_REJECTED_OUTSIDE_PROJECT_REASON
  | Disabled | External _ => PATCH_REJECTED_OUTSIDE_PROJECT_REASON
  end.

(** [codex-rs/core/src/safety.rs:33-116 assess_patch_safety] *)
Definition assess_patch_safety (action : ApplyPatchAction) (policy : AskForApproval) (profile : PermissionProfile)
    (file_system_policy : FileSystemSandboxPolicy) (cwd : str) (windows_sandbox_level : WindowsSandboxLevel) : SafetyCheck :=
  if bool_decide (action_changes action = ∅) then Reject (lit "empty patch")
  else match policy with
  | UnlessTrusted => AskUser
  | _ =>
      let rejects_sandbox_approval :=
        match policy with
        | Never => true
        | Granular granular_config => negb (sandbox_approval granular_config)
        | _ => false
        end in
      let on_failure := match policy with OnFailure => true | _ => false end in
      if is_write_patch_constrained_to_writable_paths action file_system_policy cwd || on_failure then
        match profile with
        | Disabled | External _ => AutoApprove NoSandbox false
        | Managed _ _ =>
            match get_platform_sandbox target
                    (match windows_sandbox_level with LevelDisabled => false | _ => true end) with
            | Some sandbox_type => AutoApprove sandbox_type false
            | None =>
                if rejects_sandbox_approval then Reject (patch_rejection_reason profile file_system_policy cwd)
                else AskUser
            end
        end
      else if rejects_sandbox_approval then Reject (patch_rejection_reason profile file_system_policy cwd)
      else AskUser
  end.

(** [codex-rs/core/src/apply_patch.rs:13-25 InternalApplyPatchInvocation] with
    [ApplyPatchRuntimeInvocation]; [Output] carries the message for the model. *)
Inductive InternalApplyPatchInvocation :=
  | Output (message : str)
  | DelegateToRuntime (action : ApplyPatchAction) (auto_approved : bool) (exec_approval_requirement : ExecApprovalRequirement).

(** [codex-rs/core/src/apply_patch.rs:33-74 apply_patch] *)
Definition apply_patch (approval_policy : AskForApproval) (profile : PermissionProfile)
    (windows_sandbox_level : WindowsSandboxLevel) (file_system_policy : FileSystemSandboxPolicy) (action : ApplyPatchAction)
    : InternalApplyPatchInvocation :=
  match assess_patch_safety action approval_policy profile file_system_policy (action_cwd action) windows_sandbox_level with
  | AutoApprove _ user_explicitly_approved => DelegateToRuntime action (negb user_explicitly_approved) (Skip false None)
  | AskUser => DelegateToRuntime action false (NeedsApproval None None)
  | Reject reason => Output (lit "patch rejected: " ++ reason)
  end.
End host.

(** ** Theorems *)

(** The paths a patch writes or removes. *)
Definition touched (action : ApplyPatchAction) (p : str) : Prop :=
  exists path change, action_changes action !! path = Some change /\
    (p = path \/ exists diff content, change = UpdateChange diff (Some p) content).

Lemma constrained_spec os action policy cwd :
  is_write_patch_constrained_to_writable_paths os action policy cwd = true <->
  forall p, touched action p -> path_is_writable os policy cwd p = true.
Proof.
  unfold is_write_patch_constrained_to_writable_paths. rewrite forallb_forall. split.
  - intros H p (path & change & Hl & Hp). apply elem_of_map_to_list, list_elem_of_In, H in Hl. simpl in Hl.
    destruct Hp as [->|(diff & content & ->)].
    + destruct change; try done. by destruct (path_is_writable os policy cwd path).
    + by destruct (path_is_writable os policy cwd path).
  - intros H [path change] Hin%list_elem_of_In%elem_of_map_to_list. simpl.
    assert (Hpath : path_is_writable os policy cwd path = true) by (apply H; exists path, change; auto).
    destruct change as [| |diff [dest|] content]; rewrite ?Hpath; try done. apply H.
    exists path, (UpdateChange diff (Some dest) content). split; [done|]. right. eauto.
Qed.

Lemma constrained_false os action policy cwd :
  is_write_patch_constrained_to_writable_paths os action policy cwd = false ->
  exists p, touched action p /\ path_is_writable os policy cwd p = false.
Proof.
  unfold is_write_patch_constrained_to_writable_paths. intros H.
  assert (Hex : exists kv, kv ∈ map_to_list (action_changes action) /\ change_is_writable os policy cwd kv = false).
  { induction (map_to_list (action_changes action)) as [|kv l IH]; [done|]. simpl in H.
    destruct (change_is_writable os policy cwd kv) eqn:E; [|exists kv; set_solver].
    destruct (IH H) as (kv' & ? & ?). exists kv'. set_solver. }
  destruct Hex as ([path change] & Hin%elem_of_map_to_list & Hf). simpl in Hf.
  destruct (path_is_writable os policy cwd path) eqn:Hp; [|exists path; split; [exists path, change; auto | done]].
  destruct change as [| |diff [dest|] content]; try done. exists dest. split; [|done].
  exists path, (UpdateChange diff (Some dest) content). split; [done|]. right. eauto.
Qed.

Lemma normalize_normal p : normal_form p -> normalize p = Some p.
Proof.
  intros (names & -> & Hok). pose proof (normalize_render names Hok) as Hn. unfold normalize_path in Hn.
  assert (Hf : forall l s, foldl (fun out comp => match comp with
      | ParentDir => pop out | CurDir => out | other => push out (as_os_str other) end) s l = foldl normalize_step s l).
  { induction l as [|c l IH]; intros s; simpl; [done|]. rewrite IH. by destruct c. }
  unfold normalize. rewrite Hf. by case_bool_decide; [|rewrite Hn].
Qed.

Lemma writable_normal os policy cwd p :
  normal_form p -> path_is_writable os policy cwd p = can_write_path_with_cwd os policy p cwd.
Proof.
  intros Hp. unfold path_is_writable, resolve_path. rewrite (normal_absolute p Hp). by rewrite normalize_normal.
Qed.

(** C5: A patch is applied without asking only where it may write.  Unless failures alone are to be asked
    about, every file an automatically approved patch adds, removes, updates or moves to is one the
    filesystem policy lets be written; it runs without a sandbox only when the profile has none; a
    patch is never applied unasked when only trusted commands are, nor held for an answer when
    questions are off or a granular setting has sandbox prompts switched off; and it is rejected only when it is empty,
    or when asking is off in one of these ways and it would write where it may not or a sandbox that it needs is missing.
    The paths of the patch are absolute and normalised, as the verification of a patch leaves them. *)
Theorem patch_approval_sound os target action policy profile fs cwd level :
  (forall p, touched action p -> normal_form p) ->
  match assess_patch_safety os target action policy profile fs cwd level with
  | AutoApprove sandbox_type explicit =>
      explicit = false /\ policy <> UnlessTrusted /\ action_changes action <> ∅ /\
      (policy <> OnFailure -> forall p, touched action p -> can_write_path_with_cwd os fs p cwd = true) /\
      (sandbox_type = NoSandbox -> sandbox_off profile)
  | AskUser => policy <> Never /\ (forall config, policy = Granular config -> sandbox_approval config = true) /\
      action_changes action <> ∅ /\
      (policy = UnlessTrusted \/ (exists p, touched action p /\ can_write_path_with_cwd os fs p cwd = false) \/
       get_platform_sandbox target (match level with LevelDisabled => false | _ => true end) = None)
  | Reject reason => action_changes action = ∅ \/
      (policy = Never \/ exists config, policy = Granular config /\ sandbox_approval config = false) /\
      ((exists p, touched action p /\ can_write_path_with_cwd os fs p cwd = false) \/
       get_platform_sandbox target (match level with LevelDisabled => false | _ => true end) = None /\ ~ sandbox_off profile)
  end.
Proof.
  intros Hnorm. unfold assess_patch_safety. case_bool_decide as Hempty; [by left|].
  assert (Hcon : is_write_patch_constrained_to_writable_paths os action fs cwd = true ->
    forall p, touched action p -> can_write_path_with_cwd os fs p cwd = true).
  { intros H p Hp. rewrite <- writable_normal by auto. by eapply constrained_spec. }
  assert (Hnot : is_write_patch_constrained_to_writable_paths os action fs cwd = false ->
    exists p, touched action p /\ can_write_path_with_cwd os fs p cwd = false).
  { intros H. destruct (constrained_false os action fs cwd H) as (p & Hp & Hw). exists p. split; [done|].
    by rewrite <- writable_normal by auto. }
  set (g := get_platform_sandbox target _). assert (Hg : forall st, g = Some st -> st = NoSandbox -> sandbox_off profile).
  { unfold g. intros st Hst ->. by destruct target, level. }
  destruct (is_write_patch_constrained_to_writable_paths os action fs cwd);
    [specialize (Hcon eq_refl); clear Hnot | specialize (Hnot eq_refl); clear Hcon];
    destruct policy as [| | |config|]; simpl; try destruct (sandbox_approval config) eqn:Hs; simpl;
    destruct profile; simpl in *; try destruct g as [st|] eqn:Eg; simpl; naive_solver.
Qed.

Definition example_action : ApplyPatchAction :=
  {| action_changes := {[ lit "/repo/src/x" := AddChange (lit "x") ]}; action_patch := []; action_cwd := lit "/repo" |}.

Lemma example_touched p : touched example_action p -> p = lit "/repo/src/x".
Proof.
  intros (path & change & Hl & Hp). simpl in Hl. apply lookup_singleton_Some in Hl as [<- <-].
  by destruct Hp as [->|(diff & content & ?)].
Qed.

Lemma patch_approval_sound_witness :
  let profile := Managed (ManagedRestricted workspace_entries None) NetRestricted in
  let fs := restricted workspace_entries in
  assess_patch_safety example_os Linux example_action OnRequest profile fs (lit "/repo") LevelDisabled =
    AutoApprove LinuxSeccomp false /\
  can_write_path_with_cwd example_os fs (lit "/repo/src/x") (lit "/repo") = true.
Proof.
  intros profile fs.
  assert (Ha : assess_patch_safety example_os Linux example_action OnRequest profile fs (lit "/repo") LevelDisabled =
    AutoApprove LinuxSeccomp false) by by vm_compute.
  split; [exact Ha|].
  pose proof (patch_approval_sound example_os Linux example_action OnRequest profile fs (lit "/repo") LevelDisabled) as H.
  rewrite Ha in H. destruct H as (_ & _ & _ & H & _).
  - intros p ->%example_touched. by apply normal_check.
  - apply H; [done|]. exists (lit "/repo/src/x"), (AddChange (lit "x")). split; [apply lookup_singleton_eq | by left].
Defined.

End PatchSafety.
