(* ===== verification/TurnDiff.v ===== *)
(** * The net diff of a turn: core/src/turn_diff_tracker.rs and core/src/tools/events.rs

    The tracker follows the deltas of the patches applied in a turn and renders what they amount to as
    one unified diff.  Its maps are finite maps; the order in which a hash map is iterated, the SHA-1
    digest and the text of a diff between two files are parameters.  The paths are those of a delta,
    absolute and in normal form, so that equal paths are equal texts. *)

From S2P Require Import Prelude Text AbsolutePath FileSystem PatchParser Replacements ApplyHunks Utf8Stream Permissions WritableRoots.

#[local] Set Default Proof Using "Type".

Module TurnDiff.
Import AbsolutePath Replacements ApplyHunks.

(** ** Data *)

(** [codex-rs/core/src/turn_diff_tracker.rs:12-12 ZERO_OID] *)
Definition ZERO_OID : str := lit "0000000000000000000000000000000000000000".
(** [codex-rs/core/src/turn_diff_tracker.rs:13-13 DEV_NULL] *)
Definition DEV_NULL : str := lit "/dev/null".
(** [codex-rs/core/src/turn_diff_tracker.rs:14-14 REGULAR_FILE_MODE] *)
Definition REGULAR_FILE_MODE : str := lit "100644".

(** [codex-rs/core/src/turn_diff_tracker.rs:16-20 TrackedPath] *)
Record TrackedPath := mkTracked { environment_id : str; path : str }.

#[global] Instance TrackedPath_eq_dec : EqDecision TrackedPath.
Proof. solve_decision. Defined.
#[global] Instance TrackedPath_countable : Countable TrackedPath.
Proof.
  refine (inj_countable' (fun p => (environment_id p, path p)) (fun x => mkTracked x.1 x.2) _). by intros [].
Defined.

(** [codex-rs/core/src/turn_diff_tracker.rs:31-39 TurnDiffTracker] *)
Record TurnDiffTracker := mkTracker {
  valid : bool;
  display_roots_by_environment : gmap str str;
  baseline_by_path : gmap TrackedPath str;
  current_by_path : gmap TrackedPath str;
  origin_by_current_path : gmap TrackedPath TrackedPath
}.

(** [codex-rs/core/src/turn_diff_tracker.rs:58-64 TurnDiffTracker::with_environment_display_roots] *)
Definition with_environment_display_roots (display_roots : list (str * str)) : TurnDiffTracker :=
  mkTracker true (foldl (fun m '(k, v) => <[k := v]> m) ∅ display_roots) ∅ ∅ ∅.

(** ** Following the patches *)

(** [codex-rs/core/src/turn_diff_tracker.rs:77-79 TurnDiffTracker::invalidate] *)
Definition invalidate (self : TurnDiffTracker) : TurnDiffTracker :=
  mkTracker false (display_roots_by_environment self) (baseline_by_path self) (current_by_path self)
    (origin_by_current_path self).

(** The three maps of a tracker replaced. *)
Definition with_maps (self : TurnDiffTracker) baseline current origin : TurnDiffTracker :=
  mkTracker (valid self) (display_roots_by_environment self) baseline current origin.

(** Neither in the files as they were nor in the files as they are. *)
Definition untracked (self : TurnDiffTracker) (p : TrackedPath) : bool :=
  bool_decide (current_by_path self !! p = None) && bool_decide (baseline_by_path self !! p = None).

(** [codex-rs/core/src/turn_diff_tracker.rs:154-164 TurnDiffTracker::apply_add] *)
Definition apply_add (self : TurnDiffTracker) (p : TrackedPath) (content : str) (overwritten_content : option str)
    : TurnDiffTracker :=
  with_maps self
    (match overwritten_content with
     | Some overwritten => if untracked self p then <[p := overwritten]> (baseline_by_path self) else baseline_by_path self
     | None => baseline_by_path self
     end)
    (<[p := content]> (current_by_path self))
    (delete p (origin_by_current_path self)).

(** [codex-rs/core/src/turn_diff_tracker.rs:166-174 TurnDiffTracker::apply_delete] *)
Definition apply_delete (self : TurnDiffTracker) (p : TrackedPath) (content : str) : TurnDiffTracker :=
  with_maps self
    (if untracked self p then <[p := content]> (baseline_by_path self) else baseline_by_path self)
    (delete p (current_by_path self))
    (delete p (origin_by_current_path self)).

(** [codex-rs/core/src/turn_diff_tracker.rs:176-217 TurnDiffTracker::apply_update] *)
Definition apply_update (self : TurnDiffTracker) (source_path : TrackedPath) (move_path : option TrackedPath)
    (old_content : str) (overwritten_move_content : option str) (new_content : str) : TurnDiffTracker :=
  let self :=
    with_maps self
      (if untracked self source_path then <[source_path := old_content]> (baseline_by_path self) else baseline_by_path self)
      (current_by_path self) (origin_by_current_path self) in
  match move_path with
  | Some dest_path =>
      let baseline :=
        match overwritten_move_content with
        | Some overwritten => if untracked self dest_path then <[dest_path := overwritten]> (baseline_by_path self)
                              else baseline_by_path self
        | None => baseline_by_path self
        end in
      let origin := default source_path (origin_by_current_path self !! source_path) in
      let origins := delete dest_path (delete source_path (origin_by_current_path self)) in
      with_maps self baseline (<[dest_path := new_content]> (delete source_path (current_by_path self)))
        (if bool_decide (dest_path = origin) then origins else <[dest_path := origin]> origins)
  | None =>
      with_maps self (baseline_by_path self) (<[source_path := new_content]> (current_by_path self))
        (origin_by_current_path self)
  end.

(** [codex-rs/core/src/turn_diff_tracker.rs:126-152 TurnDiffTracker::apply_change] *)
Definition apply_change (environment_id : str) (self : TurnDiffTracker) (c : AppliedPatchChange) : TurnDiffTracker :=
  let source_path := mkTracked environment_id (change_path c) in
  match change c with
  | Add content overwritten_content => apply_add self source_path content overwritten_content
  | Delete content => apply_delete self source_path content
  | Update move_path old_content overwritten_move_content new_content =>
      apply_update self source_path (mkTracked environment_id <$> move_path) old_content overwritten_move_content
        new_content
  end.

(** [codex-rs/core/src/turn_diff_tracker.rs:66-75 TurnDiffTracker::track_delta] *)
Definition track_delta (self : TurnDiffTracker) (environment_id : str) (delta : AppliedPatchDelta) : TurnDiffTracker :=
  if negb (exact delta) then invalidate self else foldl (apply_change environment_id) self (changes delta).

(** ** Rendering *)

(** The orders in which the hash maps of a tracker are iterated. *)
Record HashOrder := {
  baseline_keys : gmap TrackedPath str -> list TrackedPath;
  current_keys : gmap TrackedPath str -> list TrackedPath;
  origin_pairs : gmap TrackedPath TrackedPath -> list (TrackedPath * TrackedPath)
}.

Section render.
Context (O : HashOrder) (sha1 : list N -> list N) (text_diff : str -> str -> str -> str -> str).

(** [codex-rs/core/src/turn_diff_tracker.rs:219-235 TurnDiffTracker::rename_pairs] *)
Definition rename_pairs (self : TurnDiffTracker) : gmap TrackedPath TrackedPath :=
  foldl (fun pairs '(dest_path, origin_path) =>
    if bool_decide (dest_path = origin_path)
       || bool_decide (is_Some (current_by_path self !! origin_path))
       || negb (bool_decide (is_Some (current_by_path self !! dest_path)))
       || negb (bool_decide (is_Some (baseline_by_path self !! origin_path)))
       || bool_decide (is_Some (baseline_by_path self !! dest_path))
    then pairs else <[origin_path := dest_path]> pairs) ∅ (origin_pairs O (origin_by_current_path self)).

(** [codex-rs/core/src/turn_diff_tracker.rs:341-350 sha1_output_to_hex] *)
Definition sha1_output_to_hex (output : list N) : str :=
  let hex n := nth (N.to_nat n) (lit "0123456789abcdef") 0%N in
  concat (map (fun byte => [hex (N.shiftr byte 4); hex (N.land byte 15)]) output).

(** [codex-rs/core/src/turn_diff_tracker.rs:332-339 git_blob_sha1_hex_bytes] *)
Definition git_blob_sha1_hex_bytes (data : list N) : list N :=
  sha1 (Utf8Stream.encode (lit "blob " ++ show_nat (length data) ++ [0%N]) ++ data).

(** [codex-rs/core/src/turn_diff_tracker.rs:327-329 git_blob_oid] *)
Definition git_blob_oid (data : list N) : str := sha1_output_to_hex (git_blob_sha1_hex_bytes data).

(** [codex-rs/core/src/turn_diff_tracker.rs:312-324 TurnDiffTracker::display_path] *)
Definition display_path (self : TurnDiffTracker) (p : TrackedPath) : str :=
  let display :=
    default (path p)
      (root ← display_roots_by_environment self !! environment_id p;
       WritableRoots.join_components <$> Permissions.path_strip_prefix (path p) root) in
  let display := map (fun c => if (c =? 92)%N then SLASH else c) display in
  if (1 <? size (display_roots_by_environment self)) && negb (bool_decide (environment_id p = []))
  then environment_id p ++ lit "/" ++ display else display.

(** [codex-rs/core/src/turn_diff_tracker.rs:259-310 TurnDiffTracker::render_diff] *)
Definition render_diff (self : TurnDiffTracker) (left_path : TrackedPath) (left_content : option str)
    (right_path : TrackedPath) (right_content : option str) : option str :=
  if bool_decide (left_content = right_content) then None
  else
    let left_display := display_path self left_path in
    let right_display := display_path self right_path in
    let oid content := match content with None => ZERO_OID | Some c => git_blob_oid (Utf8Stream.encode c) end in
    let diff := lit "diff --git a/" ++ left_display ++ lit " b/" ++ right_display ++ [NL] in
    mode ← match left_content, right_content with
           | None, Some _ => Some (lit "new file mode " ++ REGULAR_FILE_MODE ++ [NL])
           | Some _, None => Some (lit "deleted file mode " ++ REGULAR_FILE_MODE ++ [NL])
           | Some _, Some _ => Some []
           | None, None => None
           end;
    let old_header := if left_content is Some _ then lit "a/" ++ left_display else DEV_NULL in
    let new_header := if right_content is Some _ then lit "b/" ++ right_display else DEV_NULL in
    Some (diff ++ mode ++ lit "index " ++ oid left_content ++ lit ".." ++ oid right_content ++ [NL] ++
          text_diff (default [] left_content) (default [] right_content) old_header new_header).

(** [codex-rs/core/src/turn_diff_tracker.rs:237-244 TurnDiffTracker::render_path_diff] *)
Definition render_path_diff (self : TurnDiffTracker) (p : TrackedPath) : option str :=
  render_diff self p (baseline_by_path self !! p) p (current_by_path self !! p).

(** [codex-rs/core/src/turn_diff_tracker.rs:246-257 TurnDiffTracker::render_rename_diff] *)
Definition render_rename_diff (self : TurnDiffTracker) (source_path dest_path : TrackedPath) : option str :=
  render_diff self source_path (baseline_by_path self !! source_path) dest_path (current_by_path self !! dest_path).

(** One more diff at the end of the text. *)
Definition push_diff (aggregated diff : str) : str :=
  let aggregated := aggregated ++ diff in
  if ends_with [NL] aggregated then aggregated else aggregated ++ [NL].

(** [codex-rs/core/src/turn_diff_tracker.rs:100-121 TurnDiffTracker::get_unified_diff] one path of the loop. *)
Definition diff_step (self : TurnDiffTracker) (pairs : gmap TrackedPath TrackedPath) (destinations : gset TrackedPath)
    (acc : gset TrackedPath * str) (p : TrackedPath) : gset TrackedPath * str :=
  let '(handled, aggregated) := acc in
  if bool_decide (p ∈ handled) then acc
  else
    let handled := {[p]} ∪ handled in
    if bool_decide (p ∈ destinations) then (handled, aggregated)
    else
      let '(handled, diff) :=
        match pairs !! p with
        | Some dest => ({[dest]} ∪ handled, render_rename_diff self p dest)
        | None => (handled, render_path_diff self p)
        end in
      (handled, match diff with Some diff => push_diff aggregated diff | None => aggregated end).

(** [codex-rs/core/src/turn_diff_tracker.rs:81-124 TurnDiffTracker::get_unified_diff] *)
Definition get_unified_diff (self : TurnDiffTracker) : option str :=
  if negb (valid self) then None
  else
    let pairs := rename_pairs self in
    let destinations := list_to_set (map snd (map_to_list pairs)) in
    let paths := baseline_keys O (baseline_by_path self) ++ current_keys O (current_by_path self) in
    let paths := sort_by (fun a b => str_leb (display_path self a) (display_path self b)) paths in
    let paths := dedup_adjacent paths in
    let '(_, aggregated) := foldl (diff_step self pairs destinations) (∅, []) paths in
    if bool_decide (aggregated = []) then None else Some aggregated.

(** [codex-rs/core/src/tools/events.rs:72-79 TurnDiffTrackerUpdate] *)
Inductive TurnDiffTrackerUpdate :=
| Track (environment_id : option str) (delta : AppliedPatchDelta)
| Invalidate
| NoUpdate.

(** [codex-rs/core/src/tools/events.rs:81-93 tracker_update_for_known_delta] *)
Definition tracker_update_for_known_delta (environment_id : option str) (delta : AppliedPatchDelta) : TurnDiffTrackerUpdate :=
  if exact delta && bool_decide (length (changes delta) = 0) then NoUpdate else Track environment_id delta.

(** [codex-rs/core/src/tools/events.rs:588-611 emit_patch_end] the update of the tracker by the result of a
    patch, with the diff that is sent, if any. *)
Definition update_tracker (self : TurnDiffTracker) (update : TurnDiffTrackerUpdate) : TurnDiffTracker * option str :=
  let previous_diff := get_unified_diff self in
  let '(self, tracker_changed) :=
    match update with
    | Track environment_id delta => (track_delta self (default [] environment_id) delta, true)
    | Invalidate => (invalidate self, true)
    | NoUpdate => (self, false)
    end in
  let unified_diff := get_unified_diff self in
  let should_emit_turn_diff := tracker_changed && (bool_decide (is_Some previous_diff) || bool_decide (is_Some unified_diff)) in
  (self, if should_emit_turn_diff then Some (default [] unified_diff) else None).

End render.

(** ** The files behind a tracker *)

(** The tracker [t] stands for the change of the files from [F0] to [F]: of a path it knows it has the
    content before and the content now, and any other path is unchanged. *)
Definition net (t : TurnDiffTracker) (F0 F : TrackedPath -> option str) : Prop :=
  forall p, match baseline_by_path t !! p, current_by_path t !! p with
            | None, None => F0 p = F p
            | b, c => F0 p = b /\ F p = c
            end.

Lemma untracked_spec t p : untracked t p = true <-> baseline_by_path t !! p = None /\ current_by_path t !! p = None.
Proof. unfold untracked. rewrite andb_true_iff, !bool_decide_eq_true. tauto. Qed.

(** What the tracker knows of one path, by the three cases. *)
Lemma net_cases t F0 F p : net t F0 F ->
  (untracked t p = true /\ baseline_by_path t !! p = None /\ current_by_path t !! p = None /\ F0 p = F p) \/
  (untracked t p = false /\ F0 p = baseline_by_path t !! p /\ F p = current_by_path t !! p).
Proof.
  intros H. specialize (H p). destruct (untracked t p) eqn:E.
  - left. apply untracked_spec in E as [Hb Hc]. by rewrite Hb, Hc in *.
  - right. split; [done|]. apply not_true_iff_false in E. rewrite untracked_spec in E.
    destruct (baseline_by_path t !! p), (current_by_path t !! p); tauto.
Qed.

(** Changing one path: the content it had is noted as its first one when nothing is known of it. *)
Lemma net_touch t F0 F p old new origins F' :
  net t F0 F -> F p = old -> F' p = new -> (forall q, q <> p -> F' q = F q) ->
  net (with_maps t
         (match old with
          | Some old => if untracked t p then <[p := old]> (baseline_by_path t) else baseline_by_path t
          | None => baseline_by_path t
          end)
         (partial_alter (fun _ => new) p (current_by_path t)) origins) F0 F'.
Proof.
  intros H Hold Hnew Hq q. cbn [with_maps baseline_by_path current_by_path].
  destruct (decide (q = p)) as [->|Hqp].
  - rewrite lookup_partial_alter_eq. destruct (net_cases t F0 F p H) as [(Hu & Hb & Hc & Heq)|(Hu & Hb & Hc)]; rewrite Hu.
    + destruct old as [old|].
      * rewrite lookup_insert_eq. split; congruence.
      * rewrite Hb. destruct new; [split|]; congruence.
    + assert (baseline_by_path t !! p = None -> new = None -> F0 p = F' p) by (intros; congruence).
      destruct old; destruct (baseline_by_path t !! p), new; try (split; congruence); auto.
  - rewrite lookup_partial_alter_ne, Hq by done. specialize (H q).
    destruct old; [destruct (untracked t p)|]; rewrite ?lookup_insert_ne by done; exact H.
Qed.

(** The files of one environment as they are after a change. *)
Definition set_files (F : TrackedPath -> option str) (e : str) (v : fview) : TrackedPath -> option str :=
  fun p => if decide (environment_id p = e) then v (path p) else F p.

(** No file is moved onto itself. *)
Definition no_self_move (c : AppliedPatchChange) : Prop :=
  match change c with Update (Some dest) _ _ _ => dest <> change_path c | _ => True end.

Lemma set_files_at F e v q : set_files F e v (mkTracked e q) = v q.
Proof. unfold set_files. by rewrite decide_True. Qed.

Lemma set_files_set F e v w p : set_files (set_files F e v) e w p = set_files F e w p.
Proof. unfold set_files. by case_decide. Qed.

Lemma net_ext t F0 F G : (forall p, G p = F p) -> net t F0 F -> net t F0 G.
Proof. intros HG H p. rewrite HG. apply H. Qed.

Lemma set_files_upd F e q c v p : p <> mkTracked e q -> set_files F e (upd q c v) p = set_files F e v p.
Proof.
  intros Hp. unfold set_files. case_decide as He; [|done]. apply upd_ne. intros Hq. apply Hp. destruct p; cbn in *; by subst.
Qed.

(** Following one change that leads from the files [v] of an environment to [w]. *)
Lemma apply_change_net t F0 F e c v w :
  net t F0 (set_files F e v) -> commits c v w -> no_self_move c -> net (apply_change e t c) F0 (set_files F e w).
Proof.
  intros Hnet [Hw Hv] Hns. unfold apply_change. set (p := mkTracked e (change_path c)).
  assert (Hread : forall q, set_files F e v (mkTracked e q) = undo_change c w q) by (intros q; by rewrite set_files_at, Hv).
  eapply (net_ext _ _ (set_files F e (replay_change v c))).
  { intros q. unfold set_files. case_decide; [apply Hw|done]. }
  unfold replay_change, undo_change, no_self_move in *.
  destruct (change c) as [content o|content|[dest|] old o new] eqn:Ec.
  - apply (net_touch t F0 (set_files F e v) p o (Some content)); [done|by unfold p; rewrite Hread, upd_eq|
      by unfold p; rewrite set_files_at, upd_eq|intros q; apply set_files_upd].
  - apply (net_touch t F0 (set_files F e v) p (Some content) None); [done|by unfold p; rewrite Hread, upd_eq|
      by unfold p; rewrite set_files_at, upd_eq|intros q; apply set_files_upd].
  - set (d := mkTracked e dest). assert (Hdp : d <> p) by (intros [= ?]; by subst).
    set (t1 := with_maps t (if untracked t p then <[p := old]> (baseline_by_path t) else baseline_by_path t)
                 (partial_alter (fun _ => None) p (current_by_path t)) (origin_by_current_path t)).
    assert (H1 : net t1 F0 (set_files F e (upd (change_path c) None v))).
    { apply (net_touch t F0 (set_files F e v) p (Some old) None);
        [done| |by unfold p; rewrite set_files_at, upd_eq|intros q; apply set_files_upd].
      unfold p. rewrite Hread, upd_ne by done. apply upd_eq. }
    assert (Hd : set_files F e (upd (change_path c) None v) d = o).
    { rewrite set_files_upd by done. unfold d. by rewrite Hread, upd_eq. }
    pose proof (fun o' => net_touch t1 F0 _ d o (Some new) o' (set_files F e (upd (change_path c) None (upd dest (Some new) v))) H1 Hd)
      as H2. cbn [apply_update fmap option_fmap option_map].
    assert (Hu : untracked t1 d = untracked (with_maps t (if untracked t p then <[p:=old]> (baseline_by_path t) else baseline_by_path t)
                   (current_by_path t) (origin_by_current_path t)) d).
    { unfold untracked. cbn. by rewrite lookup_partial_alter_ne. }
    rewrite Hu in H2. apply H2.
    + rewrite set_files_upd by done. unfold d. by rewrite set_files_at, upd_eq.
    + intros q Hq. unfold set_files. case_decide as Hqe; [|done]. unfold upd. repeat case_decide; try done.
      destruct Hq. destruct q; cbn in *; by subst.
  - apply (net_touch t F0 (set_files F e v) p (Some old) (Some new)); [done|by unfold p; rewrite Hread, upd_eq|
      by unfold p; rewrite set_files_at, upd_eq|intros q; apply set_files_upd].
Qed.

Lemma apply_changes_net e cs t F0 F v w :
  net t F0 (set_files F e v) -> faithful cs v w -> Forall no_self_move cs ->
  net (foldl (apply_change e) t cs) F0 (set_files F e w).
Proof.
  revert t v. induction cs as [|c cs IH]; intros t v Hnet Hf Hns; cbn [foldl].
  - eapply net_ext; [|done]. intros p. unfold set_files. case_decide; [apply Hf|done].
  - destruct Hf as (u & Hc & Hf). apply Forall_cons in Hns as [Hn Hns]. eapply IH; [|done|done]. by eapply apply_change_net.
Qed.

Lemma changes_valid e cs t : valid (foldl (apply_change e) t cs) = valid t.
Proof.
  revert t. induction cs as [|c cs IH]; intros t; cbn [foldl]; [done|]. rewrite IH. unfold apply_change.
  destruct (change c) as [| |[dest|] ? ? ?]; done.
Qed.

(** ** The pieces of a diff *)

(** A file that was at one path and is now gone, and a file that is new at another. *)
Definition renamed (F0 F : TrackedPath -> option str) (l r : TrackedPath) : Prop :=
  l <> r /\ is_Some (F0 l) /\ F l = None /\ F0 r = None /\ is_Some (F r).

Lemma net_known t F0 F : net t F0 F -> forall p, untracked t p = false ->
  baseline_by_path t !! p = F0 p /\ current_by_path t !! p = F p.
Proof. intros H p Hp. destruct (net_cases t _ _ p H) as [(Hu & _)|(_ & -> & ->)]; [congruence|done]. Qed.

(** The first occurrences of a list's elements that are not in [seen]. *)
Fixpoint firsts (seen : gset TrackedPath) (l : list TrackedPath) : list TrackedPath :=
  match l with
  | [] => []
  | p :: l => if bool_decide (p ∈ seen) then firsts seen l else p :: firsts ({[p]} ∪ seen) l
  end.

Lemma firsts_elem l seen p : p ∈ firsts seen l <-> p ∈ l /\ p ∉ seen.
Proof.
  revert seen. induction l as [|q l IH]; intros seen; cbn [firsts]; [set_solver|].
  case_bool_decide as Hq; [rewrite IH; set_solver|]. rewrite !elem_of_cons, IH.
  destruct (decide (p = q)) as [->|Hp]; set_solver.
Qed.

Lemma firsts_nodup l seen : NoDup (firsts seen l).
Proof.
  revert seen. induction l as [|q l IH]; intros seen; cbn [firsts]; [constructor|]. case_bool_decide; [apply IH|].
  constructor; [|apply IH]. rewrite firsts_elem. set_solver.
Qed.

Section pieces.
Context (O : HashOrder) (sha1 : list N -> list N) (text_diff : str -> str -> str -> str -> str).
Context (t : TurnDiffTracker).
#[local] Notation pairs := (rename_pairs O t).

(** The file a path is compared with, unless it is the destination of a rename. *)
Definition piece (p : TrackedPath) : option (TrackedPath * TrackedPath) :=
  if bool_decide (p ∈ map snd (map_to_list pairs)) then None
  else let right := default p (pairs !! p) in
       if bool_decide (baseline_by_path t !! p = current_by_path t !! right) then None else Some (p, right).

Definition render_piece (lr : TrackedPath * TrackedPath) : str :=
  default [] (render_diff sha1 text_diff t lr.1 (baseline_by_path t !! lr.1) lr.2 (current_by_path t !! lr.2)).

(** The text of some pieces. *)
Definition render_pieces (pieces : list (TrackedPath * TrackedPath)) : str :=
  foldl (fun text lr => push_diff text (render_piece lr)) [] pieces.

Lemma render_diff_none l r : render_diff sha1 text_diff t l (baseline_by_path t !! l) r (current_by_path t !! r) = None <->
  baseline_by_path t !! l = current_by_path t !! r.
Proof.
  unfold render_diff. case_bool_decide as E; [done|]. destruct (baseline_by_path t !! l), (current_by_path t !! r); done.
Qed.

Lemma diff_loop l handled seen text :
  (forall p, p ∉ map snd (map_to_list pairs) -> p ∈ handled <-> p ∈ seen) ->
  (foldl (diff_step sha1 text_diff t pairs (list_to_set (map snd (map_to_list pairs)))) (handled, text) l).2 =
  foldl (fun text lr => push_diff text (render_piece lr)) text (omap piece (firsts seen l)).
Proof.
  revert handled seen text. induction l as [|p l IH]; intros handled seen text Hs; cbn [foldl firsts]; [done|].
  destruct (decide (p ∈ map snd (map_to_list pairs))) as [Hd|Hd].
  - assert (Hstep : exists handled', diff_step sha1 text_diff t pairs (list_to_set (map snd (map_to_list pairs))) (handled, text) p
        = (handled', text) /\ forall q, q ∉ map snd (map_to_list pairs) -> q ∈ handled' <-> q ∈ seen).
    { unfold diff_step. case_bool_decide; [by exists handled|].
      rewrite bool_decide_true by by apply elem_of_list_to_set. eexists. split; [done|]. intros q Hq. rewrite <- (Hs q Hq).
      rewrite elem_of_union, elem_of_singleton. naive_solver. }
    destruct Hstep as (handled' & -> & Hs'). case_bool_decide; [by apply IH|]. cbn [omap list_omap].
    unfold piece at 1. rewrite bool_decide_true by done. apply IH. intros q Hq. rewrite (Hs' q Hq).
    rewrite elem_of_union, elem_of_singleton. naive_solver.
  - unfold diff_step at 2. rewrite (bool_decide_ext _ _ (Hs p Hd)). case_bool_decide as Hp; [by apply IH|].
    rewrite bool_decide_false by by rewrite elem_of_list_to_set.
    set (right := default p (pairs !! p)).
    replace (match pairs !! p with Some dest => _ | None => _ end)
      with ((match pairs !! p with Some dest => {[dest]} | None => ∅ end) ∪ ({[p]} ∪ handled),
            render_diff sha1 text_diff t p (baseline_by_path t !! p) right (current_by_path t !! right)).
    2:{ unfold right. destruct (pairs !! p); [done|]. f_equal. set_solver. }
    rewrite (IH _ ({[p]} ∪ seen)).
    2:{ intros q Hq. rewrite !elem_of_union, (Hs q Hq). destruct (pairs !! p) as [dest|] eqn:Edest; [|set_solver].
        assert (q <> dest); [|set_solver]. intros ->. apply Hq, list_elem_of_In, in_map_iff. exists (p, dest). split; [done|].
        by apply list_elem_of_In, elem_of_map_to_list. }
    cbn [omap list_omap]. unfold piece at 2. rewrite bool_decide_false by done. fold right.
    destruct (render_diff _ _ _ p _ right _) as [text'|] eqn:E.
    + rewrite bool_decide_false by (intros H; apply render_diff_none in H; congruence). cbn [foldl].
      unfold render_piece at 3. cbn [fst snd]. by rewrite E.
    + apply render_diff_none in E. by rewrite bool_decide_true.
Qed.

Lemma piece_Some p lr : piece p = Some lr <->
  p ∉ map snd (map_to_list pairs) /\ lr = (p, default p (pairs !! p)) /\
  baseline_by_path t !! p <> current_by_path t !! default p (pairs !! p).
Proof. unfold piece. repeat case_bool_decide; naive_solver. Qed.

Lemma render_pieces_nil L : render_pieces (omap piece L) = [] <-> omap piece L = [].
Proof.
  split; [|by intros ->]. unfold render_pieces. induction L as [|p L IH] using rev_ind; [done|]. rewrite omap_app. cbn.
  destruct (piece p) as [lr|] eqn:E; [|by rewrite app_nil_r]. rewrite foldl_snoc. unfold push_diff.
  apply piece_Some in E as (_ & -> & Hne). unfold render_piece. cbn [fst snd].
  destruct (render_diff _ _ _ _ _ _ _) as [text|] eqn:Er; [|by apply render_diff_none in Er].
  cbn [default from_option id]. destruct (ends_with _ _); [|by intros []%app_nil]. intros [_ ->]%app_nil. revert Er. unfold render_diff.
  case_bool_decide; [done|]. by destruct (baseline_by_path t !! _), (current_by_path t !! _).
Qed.

(** The hash maps are iterated in some order. *)
Definition lawful : Prop :=
  (forall m, baseline_keys O m ≡ₚ map fst (map_to_list m)) /\ (forall m, current_keys O m ≡ₚ map fst (map_to_list m)) /\
  (forall m, origin_pairs O m ≡ₚ map_to_list m).

(** A rename pairs a path that is gone with a path that is new, at most one for each. *)
Lemma rename_pairs_spec : lawful -> forall o d, pairs !! o = Some d ->
  origin_by_current_path t !! d = Some o /\ o <> d /\ current_by_path t !! o = None /\
  is_Some (current_by_path t !! d) /\ is_Some (baseline_by_path t !! o) /\ baseline_by_path t !! d = None.
Proof.
  intros (_ & _ & Ho). unfold rename_pairs.
  assert (H : forall l (m : gmap TrackedPath TrackedPath), (forall x, x ∈ l -> x ∈ map_to_list (origin_by_current_path t)) ->
    forall (P : TrackedPath -> TrackedPath -> Prop), (forall o d, m !! o = Some d -> P o d) ->
    (forall o d, (d, o) ∈ l -> o <> d -> current_by_path t !! o = None -> is_Some (current_by_path t !! d) ->
       is_Some (baseline_by_path t !! o) -> baseline_by_path t !! d = None -> P o d) ->
    forall o d, foldl (fun pairs '(dest_path, origin_path) =>
      if bool_decide (dest_path = origin_path) || bool_decide (is_Some (current_by_path t !! origin_path))
         || negb (bool_decide (is_Some (current_by_path t !! dest_path)))
         || negb (bool_decide (is_Some (baseline_by_path t !! origin_path)))
         || bool_decide (is_Some (baseline_by_path t !! dest_path))
      then pairs else <[origin_path := dest_path]> pairs) m l !! o = Some d -> P o d).
  { induction l as [|[d' o'] l IH]; intros m Hl P Hm Hp o d; cbn [foldl]; [apply Hm|].
    apply IH; [intros x Hx; apply Hl; by right| |intros o1 d1 H1; apply Hp; by right]. clear o d.
    repeat case_bool_decide; cbn [orb negb]; try done. intros o d. rewrite lookup_insert. case_decide as Heq; [|apply Hm].
    subst o. intros [= <-]. apply Hp; [by left|congruence|by apply eq_None_not_Some|done|done|by apply eq_None_not_Some]. }
  apply H.
  - intros x Hx. by rewrite <- Ho.
  - done.
  - intros o d Hin Hne Hco Hcd Hbo Hbd. split_and!; try done.
    apply elem_of_map_to_list. by rewrite <- Ho.
Qed.

(** The paths that a list of pieces is about. *)
Definition about (lr : TrackedPath * TrackedPath) : list TrackedPath :=
  if decide (lr.1 = lr.2) then [lr.1] else [lr.1; lr.2].

Lemma piece_about p lr q : lawful -> piece p = Some lr -> q ∈ about lr ->
  (q = p /\ p ∉ map snd (map_to_list pairs)) \/ pairs !! p = Some q.
Proof.
  intros Hl (Hp & -> & _)%piece_Some. unfold about. cbn [fst snd]. destruct (pairs !! p) as [d|] eqn:Ed; cbn [default].
  - destruct (rename_pairs_spec Hl p d Ed) as (_ & Hne & _). rewrite decide_False by done. set_solver.
  - rewrite decide_True by done. set_solver.
Qed.

(** The paths the diff runs over are those the tracker knows. *)
Definition diff_paths : list TrackedPath :=
  dedup_adjacent (sort_by (fun a b => str_leb (display_path t a) (display_path t b))
    (baseline_keys O (baseline_by_path t) ++ current_keys O (current_by_path t))).

Lemma map_keys_elem {A} (m : gmap TrackedPath A) p : p ∈ map fst (map_to_list m) <-> is_Some (m !! p).
Proof.
  change (p ∈ (map_to_list m).*1 <-> is_Some (m !! p)). rewrite list_elem_of_fmap. split.
  - intros ([q a] & -> & H%elem_of_map_to_list). by exists a.
  - intros [a H]. exists (p, a). by rewrite elem_of_map_to_list.
Qed.

Lemma diff_paths_elem p : lawful -> p ∈ diff_paths <-> untracked t p = false.
Proof.
  clear sha1 text_diff. intros (Hb & Hc & _). unfold diff_paths. rewrite dedup_adjacent_elem, sort_by_perm, elem_of_app, Hb, Hc, !map_keys_elem.
  rewrite <- not_true_iff_false, untracked_spec, <- !not_eq_None_Some.
  destruct (baseline_by_path t !! p), (current_by_path t !! p); naive_solver.
Qed.

Lemma paired_dest p d : pairs !! p = Some d -> d ∈ map snd (map_to_list pairs).
Proof.
  intros H. apply list_elem_of_In, in_map_iff. exists (p, d). split; [done|]. by apply list_elem_of_In, elem_of_map_to_list.
Qed.

Lemma paired_origin d : d ∈ map snd (map_to_list pairs) -> exists o, pairs !! o = Some d.
Proof.
  intros H. apply list_elem_of_In, in_map_iff in H as ([o d'] & Hd & H). cbn in Hd. subst d'. exists o.
  by apply elem_of_map_to_list, list_elem_of_In.
Qed.

Lemma pieces_nodup L : lawful -> NoDup L -> NoDup (concat (map about (omap piece L))).
Proof.
  intros Hl. induction 1 as [|p L Hp HL IH]; [constructor|]. cbn [omap list_omap]. destruct (piece p) as [lr|] eqn:E; [|done].
  cbn [map concat]. apply NoDup_app. split_and!; [| |done].
  - unfold about. case_decide; repeat constructor; set_solver.
  - intros q Hq Hin. apply list_elem_of_In, in_concat in Hin as (l & (lr' & <- & Hlr)%in_map_iff & Hq').
    apply list_elem_of_In in Hlr, Hq'. apply list_elem_of_omap in Hlr as (p' & Hp' & E').
    assert (p <> p') by congruence.
    destruct (piece_about p lr q Hl E Hq) as [[Hqp Hd]|Hd], (piece_about p' lr' q Hl E' Hq') as [[Heq Hd']|Hd'].
    + congruence.
    + subst q. by apply Hd, (paired_dest p').
    + subst q. by apply Hd', (paired_dest p).
    + apply (rename_pairs_spec Hl) in Hd as [Hd _], Hd' as [Hd' _]. congruence.
Qed.

(** A known path is in a piece or has not changed. *)
Lemma piece_shown q : lawful -> untracked t q = false -> q ∉ map snd (map_to_list pairs) ->
  let r := default q (pairs !! q) in
  (q, r) ∈ omap piece (firsts ∅ diff_paths) \/ baseline_by_path t !! q = current_by_path t !! r.
Proof.
  intros Hl Hq Hd r. destruct (decide (baseline_by_path t !! q = current_by_path t !! r)) as [|Hqr]; [by right|]. left.
  apply list_elem_of_omap. exists q. rewrite firsts_elem, diff_paths_elem, piece_Some by done. set_solver.
Qed.

Lemma pair_renamed F0 F : lawful -> net t F0 F -> forall o d, pairs !! o = Some d ->
  untracked t o = false /\ untracked t d = false /\ o ∉ map snd (map_to_list pairs) /\ renamed F0 F o d.
Proof.
  clear sha1 text_diff. intros Hl Hnet o d Hp. destruct (rename_pairs_spec Hl o d Hp) as (_ & Hne & Hco & [cd Hcd] & [bo Hbo] & Hbd).
  assert (Huo : untracked t o = false) by (apply not_true_iff_false; rewrite untracked_spec; naive_solver).
  assert (Hud : untracked t d = false) by (apply not_true_iff_false; rewrite untracked_spec; naive_solver).
  split_and!; [done..| |].
  - intros (o' & Ho')%paired_origin. apply (rename_pairs_spec Hl) in Ho' as (_ & _ & _ & _ & _ & Hn). congruence.
  - unfold renamed. destruct (net_known t F0 F Hnet o Huo) as [<- <-], (net_known t F0 F Hnet d Hud) as [<- <-].
    rewrite Hco, Hcd, Hbo, Hbd. naive_solver.
Qed.

End pieces.

(** ** The diff of a turn *)

Section turn.
Context {S : Type} `{!ExecutorFileSystem S, !FileSystemLaws S}.
Context (O : HashOrder) (sha1 : list N -> list N) (text_diff : str -> str -> str -> str -> str).
Context (roots : list (str * str)).

(** The files of all environments. *)
Definition files (fs : str -> S) (p : TrackedPath) : option str := view (fs (environment_id p)) (path p).

(** A patch was applied, with whatever result, and this delta reported. *)
Definition patched (s s' : S) (d : AppliedPatchDelta) : Prop :=
  exists (W : Type) home_dir (writeln : W -> str -> W * result io_error unit) text cwd out err out' err' r,
    apply_patch home_dir writeln text cwd out err s = (s', out', err', r) /\ reported_delta r = Some d.

(** What happens to a tracker and to the files in a turn: patches are applied, in any environment, and
    sometimes what a patch did is not known. *)
Inductive turn (fs0 : str -> S) : TurnDiffTracker -> (str -> S) -> Prop :=
| turn_start : turn fs0 (with_environment_display_roots roots) fs0
| turn_patch t fs e s' d :
    turn fs0 t fs -> patched (fs (default [] e)) s' d -> (exact d = true -> Forall no_self_move (changes d)) ->
    turn fs0 (update_tracker O sha1 text_diff t (tracker_update_for_known_delta e d)).1
      (fun e' => if decide (e' = default [] e) then s' else fs e')
| turn_lost t fs fs' : turn fs0 t fs -> turn fs0 (update_tracker O sha1 text_diff t Invalidate).1 fs'.

Lemma turn_net fs0 t fs : turn fs0 t fs -> valid t = true -> net t (files fs0) (files fs).
Proof using All.
  induction 1 as [|t fs e s' d _ IH (W & hd & wr & text & cwd & out & err & out' & err' & r & Hrun & Hd) Hns|t fs fs' _ IH];
    [intros _ p; cbn [with_environment_display_roots baseline_by_path current_by_path]; by rewrite !lookup_empty| |done].
  set (fs' := fun e' => _).
  assert (Hf : exact d = true -> faithful (changes d) (view (fs (default [] e))) (view s')) by (by eapply apply_patch_faithful).
  assert (Hset : forall p, files fs' p = set_files (files fs) (default [] e) (view s') p).
  { intros p. unfold files, fs', set_files. by repeat case_decide. }
  assert (Hgo : exact d = true -> valid t = true ->
    net (foldl (apply_change (default [] e)) t (changes d)) (files fs0) (files fs')).
  { intros Hex Hv. apply (net_ext _ _ _ _ Hset). eapply apply_changes_net; [|by apply Hf|by apply Hns].
    eapply net_ext; [|by apply IH]. intros p. unfold set_files. case_decide as E; [|done]. by unfold files; rewrite E. }
  unfold tracker_update_for_known_delta. destruct (exact d) eqn:Ex; cbn [andb]; [case_bool_decide as Hlen|]; cbn;
    unfold track_delta; rewrite ?Ex; cbn [negb].
  - intros Hv. specialize (Hgo eq_refl Hv). by apply nil_length_inv in Hlen; rewrite Hlen in Hgo.
  - rewrite changes_valid. by apply Hgo.
  - done.
Qed.

(** C25: As long as every patch of a turn is known exactly and none moves a file onto itself
    ([self_move_shown_as_change]), the diff shown for the turn is the net change of the files since it began, whatever
    happened in between, on a file system with the laws of one. It is made of pieces, each comparing the content of
    one path then with the content of a path now; no path is in two pieces; a piece with two paths is a renamed file;
    and every path whose content changed is in a piece, except that a file renamed without any change of its content
    is left out. Without pieces there is no diff. *)
Theorem turn_diff_net fs0 t fs :
  lawful O -> turn fs0 t fs -> valid t = true ->
  exists pieces,
    get_unified_diff O sha1 text_diff t =
      (if bool_decide (pieces = []) then None else Some (render_pieces sha1 text_diff t pieces)) /\
    NoDup (concat (map about pieces)) /\
    Forall (fun '(l, r) => baseline_by_path t !! l = files fs0 l /\ current_by_path t !! r = files fs r /\
      files fs0 l <> files fs r /\ (l = r \/ renamed (files fs0) (files fs) l r)) pieces /\
    forall p, files fs0 p <> files fs p ->
      (p, p) ∈ pieces \/
      exists l r, renamed (files fs0) (files fs) l r /\ (p = l \/ p = r) /\ ((l, r) ∈ pieces \/ files fs0 l = files fs r).
Proof using All.
  intros Hl Ht Hv. pose proof (turn_net fs0 t fs Ht Hv) as Hnet.
  pose proof (net_known t _ _ Hnet) as Hknown. pose proof (pair_renamed O t _ _ Hl Hnet) as Hpair.
  exists (omap (piece O t) (firsts ∅ (diff_paths O t))). split_and!.
  - unfold get_unified_diff. rewrite Hv. cbn [negb]. fold (diff_paths O t).
    pose proof (diff_loop O sha1 text_diff t (diff_paths O t) ∅ ∅ [] ltac:(done)) as Hloop.
    destruct (foldl _ _ (diff_paths O t)) as [handled text]. cbn [snd] in Hloop. subst text.
    fold (render_pieces sha1 text_diff t (omap (piece O t) (firsts ∅ (diff_paths O t)))).
    by rewrite (bool_decide_ext _ _ (render_pieces_nil O sha1 text_diff t _)).
  - apply pieces_nodup; [done|apply firsts_nodup].
  - apply Forall_forall. intros [l r] (p & [Hp _]%firsts_elem & (Hd & [= -> ->] & Hne)%piece_Some)%list_elem_of_omap.
    apply diff_paths_elem in Hp; [|done]. destruct (rename_pairs O t !! p) as [d|] eqn:Ed; cbn [default from_option id] in *.
    + destruct (Hpair p d Ed) as (_ & Hud & _ & Hr). destruct (Hknown p Hp) as [Hb _], (Hknown d Hud) as [_ Hc].
      rewrite Hb, Hc in *. auto.
    + destruct (Hknown p Hp) as [Hb Hc]. rewrite Hb, Hc in *. auto.
  - intros p Hne. assert (Hp : untracked t p = false).
    { destruct (net_cases t _ _ p Hnet) as [(_ & _ & _ & ?)|(? & _)]; done. }
    pose proof (fun q => piece_shown O t q Hl) as Hshown.
    assert (Hren : forall o d, rename_pairs O t !! o = Some d -> p = o \/ p = d -> exists l r, renamed (files fs0) (files fs) l r /\
      (p = l \/ p = r) /\ ((l, r) ∈ omap (piece O t) (firsts ∅ (diff_paths O t)) \/ files fs0 l = files fs r)).
    { intros o d Ed Hpo. destruct (Hpair o d Ed) as (Huo & Hud & Hod & Hr). exists o, d. split_and!; [done..|].
      destruct (Hshown o Huo Hod) as [H|H]; rewrite Ed in H; cbn [default from_option id] in H; [by left|right].
      destruct (Hknown o Huo) as [<- _], (Hknown d Hud) as [_ <-]. done. }
    destruct (decide (p ∈ map snd (map_to_list (rename_pairs O t)))) as [(o & Ho)%paired_origin|Hd]; [right; eauto|].
    destruct (rename_pairs O t !! p) as [d|] eqn:Ed; [right; eauto|].
    destruct (Hshown p Hp Hd) as [H|H]; rewrite Ed in H; cbn [default from_option id] in H; [by left|].
    destruct (Hknown p Hp) as [Hb Hc]. congruence.
Qed.

End turn.

(** The maps iterated in the order of their keys, and digests and diffs left blank. *)
Definition key_order : HashOrder :=
  {| baseline_keys := fun m => map fst (map_to_list m); current_keys := fun m => map fst (map_to_list m);
     origin_pairs := map_to_list |}.
Definition no_digest (_ : list N) : list N := [].
Definition no_hunks (_ _ old_header new_header : str) : str := old_header ++ [NL] ++ new_header ++ [NL].

Definition demo_update (t : TurnDiffTracker) (patch : str) (s : MemFs.state) : MemFs.state * TurnDiffTracker :=
  match apply_patch None log_writeln patch (lit "/w") [] [] s with
  | (s', _, _, Done d) => (s', (update_tracker key_order no_digest no_hunks t (tracker_update_for_known_delta None d)).1)
  | (s', _, _, _) => (s', t)
  end.

Lemma turn_diff_net_witness :
  exists t fs pieces,
    turn key_order no_digest no_hunks [] (fun _ => demo_fs) t fs /\ valid t = true /\
    get_unified_diff key_order no_digest no_hunks t = Some (render_pieces no_digest no_hunks t pieces) /\
    NoDup (concat (map about pieces)).
Proof.
  set (start := with_environment_display_roots []).
  destruct (apply_patch None log_writeln demo_patch (lit "/w") [] [] demo_fs) as [[[s' out'] err'] r] eqn:H.
  assert (Hr : exists d, r = Done d /\ Forall no_self_move (changes d) /\
    valid (update_tracker key_order no_digest no_hunks start (tracker_update_for_known_delta None d)).1 = true /\
    get_unified_diff key_order no_digest no_hunks
      (update_tracker key_order no_digest no_hunks start (tracker_update_for_known_delta None d)).1 <> None).
  { vm_compute in H. injection H as _ _ _ <-. eexists. split; [reflexivity|]. split; [repeat constructor; by vm_compute|].
    split; [reflexivity|by vm_compute]. }
  destruct Hr as (d & -> & Hns & Hv & Hd).
  assert (Ht := turn_patch key_order no_digest no_hunks [] (fun _ => demo_fs) start (fun _ => demo_fs) None s' d
    (turn_start key_order no_digest no_hunks [] _)
    ltac:(by exists (list str), None, log_writeln, demo_patch, (lit "/w"), [], [], out', err', (Done d)) (fun _ => Hns)).
  destruct (turn_diff_net key_order no_digest no_hunks [] (fun _ => demo_fs) _ _ ltac:(done) Ht Hv) as (pieces & Hg & Hnd & _).
  eexists _, _, pieces. split; [exact Ht|]. split; [exact Hv|]. split; [|exact Hnd]. rewrite Hg in Hd |- *.
  by case_bool_decide.
Defined.

(** What a rename with a change and a new file look like. *)
Example rename_and_add_shown :
  get_unified_diff key_order no_digest no_hunks
    (demo_update (with_environment_display_roots [([], lit "/w")]) demo_patch demo_fs).2 =
  Some (unlines [lit "diff --git a/a b/b"; lit "index .."; lit "a/a"; lit "b/b";
    lit "diff --git a/d/n b/d/n"; lit "new file mode 100644"; lit "index 0000000000000000000000000000000000000000..";
    lit "/dev/null"; lit "b/d/n"]).
Proof. vm_compute. reflexivity. Qed.

(** A file moved onto itself is removed, and shown as changed. *)
Example self_move_shown_as_change :
  let patch := join [NL] [lit "*** Begin Patch"; lit "*** Update File: a"; lit "*** Move to: ./a"; lit "@@"; lit "-two";
                          lit "+2"; lit "*** End Patch"] in
  let '(s', t) := demo_update (with_environment_display_roots [([], lit "/w")]) patch demo_fs in
  view s' (lit "/w/a") = None /\
  get_unified_diff key_order no_digest no_hunks t = Some (unlines [lit "diff --git a/a b/a"; lit "index .."; lit "a/a"; lit "b/a"]).
Proof. vm_compute. split; reflexivity. Qed.

End TurnDiff.
