(* ===== verification/IpAddress.v ===== *)
(** * IP addresses: parsing, classification, and the ranges that count as local

    The classification of addresses in network-proxy/src/policy.rs, on the addresses and the parser of
    Rust's standard library (core::net).  An address is its octets or its 16-bit groups, at their
    width; the parser works on a text and returns what it leaves of it. *)

From S2P Require Import Prelude Text.
#[local] Open Scope N_scope.

Module IpAddress.

(** ** Addresses *)

(** [core::net::Ipv4Addr], by octets. *)
Record Ipv4Addr := V4Octets { octet0 : N; octet1 : N; octet2 : N; octet3 : N }.

(** [core::net::Ipv6Addr], by groups of 16 bits. *)
Record Ipv6Addr := V6Groups { group0 : N; group1 : N; group2 : N; group3 : N; group4 : N; group5 : N; group6 : N; group7 : N }.

Inductive IpAddr := V4 (ip : Ipv4Addr) | V6 (ip : Ipv6Addr).

#[global] Instance Ipv4Addr_eq_dec : EqDecision Ipv4Addr.
Proof. solve_decision. Defined.
#[global] Instance Ipv6Addr_eq_dec : EqDecision Ipv6Addr.
Proof. solve_decision. Defined.
#[global] Instance IpAddr_eq_dec : EqDecision IpAddr.
Proof. solve_decision. Defined.

Definition octets (ip : Ipv4Addr) : list N := [octet0 ip; octet1 ip; octet2 ip; octet3 ip].
Definition segments (ip : Ipv6Addr) : list N :=
  [group0 ip; group1 ip; group2 ip; group3 ip; group4 ip; group5 ip; group6 ip; group7 ip].

(** The fields have the width of their types. *)
Definition ip_wf (ip : IpAddr) : Prop :=
  match ip with
  | V4 ip => Forall (fun o => o < 256) (octets ip)
  | V6 ip => Forall (fun g => g < 65536) (segments ip)
  end.

(** [u32::from(ip)]. *)
Definition u32_of (ip : Ipv4Addr) : N :=
  octet0 ip * 16777216 + octet1 ip * 65536 + octet2 ip * 256 + octet3 ip.

(** The predicates of [Ipv4Addr] that the classification uses. *)
Definition v4_is_loopback (ip : Ipv4Addr) : bool := octet0 ip =? 127.
Definition v4_is_private (ip : Ipv4Addr) : bool :=
  (octet0 ip =? 10)
  || ((octet0 ip =? 172) && (16 <=? octet1 ip) && (octet1 ip <=? 31))
  || ((octet0 ip =? 192) && (octet1 ip =? 168)).
Definition v4_is_link_local (ip : Ipv4Addr) : bool := (octet0 ip =? 169) && (octet1 ip =? 254).
Definition v4_is_unspecified (ip : Ipv4Addr) : bool := bool_decide (octets ip = [0; 0; 0; 0]).
Definition v4_is_multicast (ip : Ipv4Addr) : bool := (224 <=? octet0 ip) && (octet0 ip <=? 239).
Definition v4_is_broadcast (ip : Ipv4Addr) : bool := bool_decide (octets ip = [255; 255; 255; 255]).

(** The predicates of [Ipv6Addr]. *)
Definition v6_is_loopback (ip : Ipv6Addr) : bool := bool_decide (segments ip = [0; 0; 0; 0; 0; 0; 0; 1]).
Definition v6_is_unspecified (ip : Ipv6Addr) : bool := bool_decide (segments ip = [0; 0; 0; 0; 0; 0; 0; 0]).
Definition v6_is_multicast (ip : Ipv6Addr) : bool := N.shiftr (group0 ip) 8 =? 255.
Definition v6_is_unique_local (ip : Ipv6Addr) : bool := N.land (group0 ip) 65024 =? 64512.
Definition v6_is_unicast_link_local (ip : Ipv6Addr) : bool := N.land (group0 ip) 65472 =? 65152.

(** [Ipv6Addr::to_ipv4]: the IPv4-mapped and the IPv4-compatible addresses. *)
Definition to_ipv4 (ip : Ipv6Addr) : option Ipv4Addr :=
  if bool_decide (take 5 (segments ip) = [0; 0; 0; 0; 0]) && ((group5 ip =? 0) || (group5 ip =? 65535))
  then Some (V4Octets (N.shiftr (group6 ip) 8) (N.land (group6 ip) 255) (N.shiftr (group7 ip) 8) (N.land (group7 ip) 255))
  else None.

(** [IpAddr::is_loopback]. *)
Definition is_loopback (ip : IpAddr) : bool :=
  match ip with V4 ip => v4_is_loopback ip | V6 ip => v6_is_loopback ip end.

(** ** The parser of the standard library *)

(** [char::to_digit]. *)
Definition to_digit (radix : N) (c : char) : option N :=
  let digit := if is_ascii_digit c then Some (c - 48)
               else if is_ascii_lower c then Some (c - 87)
               else if is_ascii_upper c then Some (c - 55)
               else None in
  d ← digit; if d <? radix then Some d else None.

(** The loop of [Parser::read_number]: the digits read and what is left, [None] when there are too many. *)
Fixpoint read_digits (radix : N) (max_digits digit_count : nat) (result : N) (s : str) : option (nat * N * str) :=
  match s with
  | c :: rest =>
      match to_digit radix c with
      | Some d =>
          if (max_digits <? S digit_count)%nat then None
          else read_digits radix max_digits (S digit_count) ((result * radix + d) mod 4294967296) rest
      | None => Some (digit_count, result, s)
      end
  | [] => Some (digit_count, result, s)
  end.

(** [Parser::read_number]; [limit] is the number of values of the result's type. *)
Definition read_number (radix : N) (max_digits : nat) (allow_zero_prefix : bool) (limit : N) (s : str) : option (N * str) :=
  let has_leading_zero := bool_decide (head s = Some 48) in
  '(digit_count, result, rest) ← read_digits radix max_digits 0 0 s;
  if bool_decide (digit_count = 0%nat) then None
  else if negb allow_zero_prefix && has_leading_zero && (1 <? digit_count)%nat then None
  else if result <? limit then Some (result, rest) else None.

Definition read_given_char (c : char) (s : str) : option str :=
  match s with d :: rest => if c =? d then Some rest else None | [] => None end.

(** [Parser::read_separator]. *)
Definition read_separator {A} (sep : char) (i : nat) (inner : str -> option (A * str)) (s : str) : option (A * str) :=
  s ← (if (0 <? i)%nat then read_given_char sep s else Some s); inner s.

(** [Parser::read_ipv4_addr]. *)
Definition read_ipv4_addr (s : str) : option (Ipv4Addr * str) :=
  let octet i := read_separator 46 i (read_number 10 3 false 256) in
  '(a, s) ← octet 0%nat s;
  '(b, s) ← octet 1%nat s;
  '(c, s) ← octet 2%nat s;
  '(d, s) ← octet 3%nat s;
  Some (V4Octets a b c d, s).

(** The inner function [read_groups] of [Parser::read_ipv6_addr]: the groups from number [i] on, at most
    [left_] of them, whether they end in an IPv4 address, and what is left. *)
Fixpoint read_groups (i left_ : nat) (s : str) : list N * bool * str :=
  match left_ with
  | O => ([], false, s)
  | S left_ =>
      match (if (0 <? left_)%nat then read_separator 58 i read_ipv4_addr s else None) with
      | Some (v4, rest) =>
          ([octet0 v4 * 256 + octet1 v4; octet2 v4 * 256 + octet3 v4], true, rest)
      | None =>
          match read_separator 58 i (read_number 16 4 true 65536) s with
          | Some (g, rest) => let '(gs, v4, rest) := read_groups (S i) left_ rest in (g :: gs, v4, rest)
          | None => ([], false, s)
          end
      end
  end.

Definition of_segments (gs : list N) : option Ipv6Addr :=
  match gs with
  | [a; b; c; d; e; f; g; h] => Some (V6Groups a b c d e f g h)
  | _ => None
  end.

(** [Parser::read_ipv6_addr]. *)
Definition read_ipv6_addr (s : str) : option (Ipv6Addr * str) :=
  let '(head_, head_ipv4, s) := read_groups 0 8 s in
  if bool_decide (length head_ = 8%nat) then ip ← of_segments head_; Some (ip, s)
  else if (head_ipv4 : bool) then None
  else
    s ← read_given_char 58 s;
    s ← read_given_char 58 s;
    let '(tail_, _, s) := read_groups 0 (8 - (length head_ + 1))%nat s in
    ip ← of_segments (head_ ++ replicate (8 - length head_ - length tail_) 0 ++ tail_);
    Some (ip, s).

(** [IpAddr::from_str]. *)
Definition parse_ip (s : str) : option IpAddr :=
  match (match read_ipv4_addr s with
         | Some (ip, rest) => Some (V4 ip, rest)
         | None => '(ip, rest) ← read_ipv6_addr s; Some (V6 ip, rest)
         end) with
  | Some (ip, []) => Some ip
  | _ => None
  end.

(** ** The classification *)

(** [codex-rs/network-proxy/src/policy.rs:72-81 ipv4_in_cidr] with [u32] masks. *)
Definition ipv4_in_cidr (ip base : Ipv4Addr) (prefix : N) : bool :=
  let ip := u32_of ip in
  let base := u32_of base in
  let mask := if prefix =? 0 then 0 else N.land (N.shiftl 4294967295 (32 - prefix)) 4294967295 in
  N.land ip mask =? N.land base mask.

(** [codex-rs/network-proxy/src/policy.rs:52-70 is_non_public_ipv4] *)
Definition is_non_public_ipv4 (ip : Ipv4Addr) : bool :=
  v4_is_loopback ip
  || v4_is_private ip
  || v4_is_link_local ip
  || v4_is_unspecified ip
  || v4_is_multicast ip
  || v4_is_broadcast ip
  || ipv4_in_cidr ip (V4Octets 0 0 0 0) 8
  || ipv4_in_cidr ip (V4Octets 100 64 0 0) 10
  || ipv4_in_cidr ip (V4Octets 192 0 0 0) 24
  || ipv4_in_cidr ip (V4Octets 192 0 2 0) 24
  || ipv4_in_cidr ip (V4Octets 198 18 0 0) 15
  || ipv4_in_cidr ip (V4Octets 198 51 100 0) 24
  || ipv4_in_cidr ip (V4Octets 203 0 113 0) 24
  || ipv4_in_cidr ip (V4Octets 240 0 0 0) 4.

(** [codex-rs/network-proxy/src/policy.rs:83-98 is_non_public_ipv6] *)
Definition is_non_public_ipv6 (ip : Ipv6Addr) : bool :=
  match to_ipv4 ip with
  | Some v4 => is_non_public_ipv4 v4 || v6_is_loopback ip
  | None =>
      v6_is_loopback ip || v6_is_unspecified ip || v6_is_multicast ip || v6_is_unique_local ip
      || v6_is_unicast_link_local ip
  end.

(** [codex-rs/network-proxy/src/policy.rs:45-50 is_non_public_ip] *)
Definition is_non_public_ip (ip : IpAddr) : bool :=
  match ip with V4 ip => is_non_public_ipv4 ip | V6 ip => is_non_public_ipv6 ip end.

(** ** Ranges *)

(** The ranges of IPv4 addresses that are not public, by their first and last address. *)
Definition local_ranges : list (N * N) :=
  let net a b c d bits := (u32_of (V4Octets a b c d), u32_of (V4Octets a b c d) + 2 ^ (32 - bits) - 1) in
  [net 0 0 0 0 8; net 10 0 0 0 8; net 100 64 0 0 10; net 127 0 0 0 8; net 169 254 0 0 16; net 172 16 0 0 12;
   net 192 0 0 0 24; net 192 0 2 0 24; net 192 168 0 0 16; net 198 18 0 0 15; net 198 51 100 0 24;
   net 203 0 113 0 24; net 224 0 0 0 4; net 240 0 0 0 4].

Definition in_local_range (n : N) : Prop := exists r, r ∈ local_ranges /\ r.1 <= n <= r.2.

(** An IPv6 address as a number of 128 bits. *)
Definition u128_of (ip : Ipv6Addr) : N := foldl (fun acc g => acc * 65536 + g) 0 (segments ip).

(** The upper part of a number, by a mask of [w] bits whose lower [k] bits are clear. *)
Lemma land_mask w k x : x < 2 ^ w -> k <= w -> N.land x (2 ^ w - 2 ^ k) = x / 2 ^ k * 2 ^ k.
Proof.
  intros Hx Hk.
  replace (2 ^ w - 2 ^ k) with (N.shiftl (N.ones (w - k)) k).
  2:{ rewrite N.shiftl_mul_pow2, N.ones_equiv, <- N.sub_1_r, N.mul_sub_distr_r, N.mul_1_l, <- N.pow_add_r.
      by replace (w - k + k) with w by lia. }
  rewrite <- N.shiftr_div_pow2, <- N.shiftl_mul_pow2. apply N.bits_inj. intros n.
  rewrite N.land_spec. destruct (N.le_gt_cases k n) as [Hn|Hn].
  - rewrite !N.shiftl_spec_high' by done. rewrite N.shiftr_spec', N.sub_add by done.
    destruct (N.lt_ge_cases (n - k) (w - k)) as [Hl|Hl].
    + by rewrite N.ones_spec_low, andb_true_r.
    + rewrite N.ones_spec_high by done. rewrite andb_false_r. symmetry.
      destruct (N.eq_dec x 0) as [->|]; [apply N.bits_0|]. apply N.bits_above_log2.
      apply (N.lt_le_trans _ w); [|lia]. apply N.log2_lt_pow2; lia.
  - rewrite !N.shiftl_spec_low by done. apply andb_false_r.
Qed.

Lemma u32_bound ip : ip_wf (V4 ip) -> u32_of ip < 2 ^ 32.
Proof.
  destruct ip as [a b c d]. unfold ip_wf, octets, u32_of. cbn. rewrite !Forall_cons. change (2 ^ 32) with 4294967296. lia.
Qed.

(** A block of addresses is an interval. *)
Lemma in_cidr_interval ip base prefix :
  ip_wf (V4 ip) -> ip_wf (V4 base) -> 0 < prefix <= 32 ->
  ipv4_in_cidr ip base prefix = true <-> u32_of ip / 2 ^ (32 - prefix) = u32_of base / 2 ^ (32 - prefix).
Proof.
  intros Hi%u32_bound Hb%u32_bound Hp. unfold ipv4_in_cidr.
  replace (prefix =? 0) with false by (symmetry; apply N.eqb_neq; lia).
  replace (N.land (N.shiftl 4294967295 (32 - prefix)) 4294967295) with (2 ^ 32 - 2 ^ (32 - prefix)).
  2:{ change 4294967295 with (N.ones 32). rewrite N.land_ones, N.shiftl_mul_pow2, N.ones_equiv, <- N.sub_1_r.
      rewrite N.mul_sub_distr_r, N.mul_1_l.
      assert (2 ^ (32 - prefix) <= 2 ^ 32) by (apply N.pow_le_mono_r; lia).
      assert (0 < 2 ^ (32 - prefix)) by (apply N.neq_0_lt_0, N.pow_nonzero; lia).
      replace (2 ^ 32 * 2 ^ (32 - prefix) - 2 ^ (32 - prefix))
        with (2 ^ 32 - 2 ^ (32 - prefix) + (2 ^ (32 - prefix) - 1) * 2 ^ 32) by nia.
      rewrite N.Div0.mod_add, N.mod_small; lia. }
  rewrite !land_mask by (done || lia). rewrite N.eqb_eq. split; [|congruence].
  apply N.mul_cancel_r, N.pow_nonzero. lia.
Qed.

Lemma div_interval k B u : k <> 0 -> B mod k = 0 -> u / k = B / k <-> B <= u <= B + k - 1.
Proof.
  intros Hk HB%N.Div0.div_exact. revert HB. generalize (B / k). intros q ->. split.
  - pose proof (N.div_mod' u k) as Hu. pose proof (N.mod_lt u k Hk) as Hm. revert Hu Hm.
    generalize (u mod k) (u / k). intros r q' -> Hr ->. lia.
  - intros Hu. symmetry. apply (N.div_unique _ _ _ (u - k * q)); lia.
Qed.

(** Membership in a block of the table, as bounds. *)
Lemma cidr_bounds ip a b c d prefix :
  ip_wf (V4 ip) -> ip_wf (V4 (V4Octets a b c d)) -> 0 < prefix <= 32 ->
  u32_of (V4Octets a b c d) mod 2 ^ (32 - prefix) = 0 ->
  ipv4_in_cidr ip (V4Octets a b c d) prefix = true <->
  u32_of (V4Octets a b c d) <= u32_of ip <= u32_of (V4Octets a b c d) + 2 ^ (32 - prefix) - 1.
Proof.
  intros Hi Hb Hp Hm. rewrite in_cidr_interval by done. apply div_interval; [apply N.pow_nonzero; lia|done].
Qed.

(** Choose the part of a disjunction that linear arithmetic proves. *)
Ltac pick :=
  match goal with
  | |- _ \/ _ => first [left; pick | right; pick]
  | |- False => fail
  | |- _ => lia
  end.

(** Evaluate the bounds of the blocks. *)
Ltac eval_bounds :=
  let r := eval vm_compute in local_ranges in change local_ranges with r;
  repeat match goal with
    | |- context [u32_of (V4Octets ?a ?b ?c ?d) + ?n - 1] =>
        let e := constr:(u32_of (V4Octets a b c d) + n - 1) in let v := eval vm_compute in e in change e with v
    end;
  repeat match goal with
    | |- context [u32_of (V4Octets ?a ?b ?c ?d)] =>
        let e := constr:(u32_of (V4Octets a b c d)) in let v := eval vm_compute in e in change e with v
    end.

Lemma v4_ranges ip : ip_wf (V4 ip) -> is_non_public_ipv4 ip = true <-> in_local_range (u32_of ip).
Proof.
  intros Hwf. unfold is_non_public_ipv4. rewrite !orb_true_iff.
  rewrite !cidr_bounds by (done || (unfold ip_wf, octets; cbn; repeat constructor) || lia).
  unfold in_local_range. setoid_rewrite <- Exists_exists. eval_bounds. rewrite !Exists_cons, Exists_nil.
  unfold v4_is_loopback, v4_is_private, v4_is_link_local, v4_is_unspecified, v4_is_multicast, v4_is_broadcast.
  rewrite !orb_true_iff, !andb_true_iff, !N.eqb_eq, !N.leb_le, !bool_decide_eq_true.
  destruct ip as [a b c d]. unfold ip_wf, octets, u32_of in *. cbn [octet0 octet1 octet2 octet3 fst snd] in *.
  rewrite !Forall_cons in Hwf. destruct Hwf as (Ha & Hb & Hc & Hd & _).
  split.
  - intros H. repeat destruct H as [H|H]; try (injection H as -> -> -> ->); pick.
  - intros H. repeat destruct H as [H|H]; try done; pick.
Qed.

Lemma group_bytes g : g < 65536 -> N.shiftr g 8 < 256 /\ N.land g 255 < 256 /\ N.shiftr g 8 * 256 + N.land g 255 = g.
Proof.
  intros Hg. rewrite N.shiftr_div_pow2. change 255 with (N.ones 8). rewrite N.land_ones.
  change (2 ^ 8) with 256. pose proof (N.div_mod' g 256). pose proof (N.mod_lt g 256 ltac:(done)).
  assert (g / 256 < 256) by (apply N.Div0.div_lt_upper_bound; lia). lia.
Qed.

Lemma group_mask g k b : g < 65536 -> k <= 16 -> b mod 2 ^ k = 0 -> b < 65536 ->
  N.land g (2 ^ 16 - 2 ^ k) = b <-> b <= g <= b + 2 ^ k - 1.
Proof.
  intros Hg Hk Hb Hb'. rewrite land_mask by (done || lia).
  rewrite <- (div_interval (2 ^ k) b g) by (done || (apply N.pow_nonzero; lia)).
  apply N.Div0.div_exact in Hb. split; [intros <-; symmetry; apply N.div_mul, N.pow_nonzero; lia|].
  intros ->. by rewrite N.mul_comm.
Qed.

(** The addresses that an IPv6 address embeds. *)
Lemma to_ipv4_spec ip v4 :
  ip_wf (V6 ip) -> to_ipv4 ip = Some v4 ->
  ip_wf (V4 v4) /\ (u128_of ip = u32_of v4 \/ u128_of ip = 65535 * 2 ^ 32 + u32_of v4).
Proof.
  destruct ip as [a b c d e f g h]. unfold ip_wf, to_ipv4, u128_of, segments.
  cbn [group0 group1 group2 group3 group4 group5 group6 group7 take foldl].
  rewrite !Forall_cons. intros (Ha & Hb & Hc & Hd & He & Hf & Hg & Hh & _).
  case_bool_decide as H0; [|done]. injection H0 as -> -> -> -> ->. cbn [andb].
  destruct (f =? 0) eqn:E0, (f =? 65535) eqn:E1; try done; cbn [orb]; intros [= <-];
    rewrite ?N.eqb_eq in *; pose proof (group_bytes g Hg); pose proof (group_bytes h Hh);
    unfold octets, u32_of; cbn [octet0 octet1 octet2 octet3]; rewrite !Forall_cons;
    change (2 ^ 32) with 4294967296; intuition (try done; try lia).
Qed.

Lemma to_ipv4_None ip :
  ip_wf (V6 ip) -> to_ipv4 ip = None -> 2 ^ 32 <= u128_of ip /\ u128_of ip / 2 ^ 32 <> 65535.
Proof.
  destruct ip as [a b c d e f g h]. unfold ip_wf, to_ipv4, u128_of, segments.
  cbn [group0 group1 group2 group3 group4 group5 group6 group7 take foldl].
  rewrite !Forall_cons. intros (Ha & Hb & Hc & Hd & He & Hf & Hg & Hh & _).
  intros Hno. assert (Hn : ~ (a = 0 /\ b = 0 /\ c = 0 /\ d = 0 /\ e = 0 /\ (f = 0 \/ f = 65535))).
  { intros (-> & -> & -> & -> & -> & Hf'). rewrite bool_decide_true in Hno by done. cbn [andb] in Hno.
    by destruct Hf' as [-> | ->]. }
  change (2 ^ 32) with 4294967296.
  set (hi := ((((0 * 65536 + a) * 65536 + b) * 65536 + c) * 65536 + d) * 65536 + e) in *.
  assert (hi = 0 -> a = 0 /\ b = 0 /\ c = 0 /\ d = 0 /\ e = 0) by (unfold hi; lia). clearbody hi.
  replace (((hi * 65536 + f) * 65536 + g) * 65536 + h) with ((hi * 65536 + f) * 4294967296 + (g * 65536 + h)) by lia.
  rewrite N.div_add_l, (N.div_small (g * 65536 + h)) by lia. lia.
Qed.

(** The first group of an address decides its block. *)
Lemma first_group ip lo hi :
  ip_wf (V6 ip) -> lo <= group0 ip < hi <-> lo * 2 ^ 112 <= u128_of ip < hi * 2 ^ 112.
Proof.
  destruct ip as [a b c d e f g h]. unfold ip_wf, u128_of, segments.
  cbn [group0 group1 group2 group3 group4 group5 group6 group7 foldl].
  rewrite !Forall_cons. intros (Ha & Hb & Hc & Hd & He & Hf & Hg & Hh & _).
  change (2 ^ 112) with 5192296858534827628530496329220096. lia.
Qed.

(** The addresses that are not public: the IPv4 ranges, also embedded in IPv6 addresses, unique local
    (fc00::/7), link local (fe80::/10) and multicast (ff00::/8) addresses. *)
Definition local_address (ip : IpAddr) : Prop :=
  match ip with
  | V4 ip => in_local_range (u32_of ip)
  | V6 ip =>
      let n := u128_of ip in
      (n < 2 ^ 32 /\ in_local_range n) \/ (n / 2 ^ 32 = 65535 /\ in_local_range (n mod 2 ^ 32)) \/
      64512 * 2 ^ 112 <= n < 65024 * 2 ^ 112 \/ 65152 * 2 ^ 112 <= n < 65216 * 2 ^ 112 \/
      65280 * 2 ^ 112 <= n < 65536 * 2 ^ 112
  end.

Lemma first_group_local ip :
  ip_wf (V6 ip) ->
  (v6_is_multicast ip || v6_is_unique_local ip || v6_is_unicast_link_local ip) = true <->
  64512 <= group0 ip < 65024 \/ 65152 <= group0 ip < 65216 \/ 65280 <= group0 ip < 65536.
Proof.
  intros Hwf. assert (Hg : group0 ip < 65536) by (destruct ip; by apply Forall_cons in Hwf as [? _]).
  unfold v6_is_multicast, v6_is_unique_local, v6_is_unicast_link_local.
  rewrite !orb_true_iff, !N.eqb_eq, N.shiftr_div_pow2.
  change 65024 with (2 ^ 16 - 2 ^ 9) at 1. change 65472 with (2 ^ 16 - 2 ^ 6) at 1.
  rewrite !group_mask by done. change 255 with (65280 / 2 ^ 8). rewrite div_interval by done.
  change (2 ^ 9) with 512. change (2 ^ 6) with 64. change (2 ^ 8) with 256. lia.
Qed.

Lemma non_public_exact ip : ip_wf ip -> is_non_public_ip ip = true <-> local_address ip.
Proof.
  destruct ip as [ip|ip]; [apply v4_ranges|]. intros Hwf. cbn [is_non_public_ip local_address].
  unfold is_non_public_ipv6. rewrite <- !(first_group ip _ _ Hwf).
  destruct (to_ipv4 ip) as [v4|] eqn:Ev.
  - destruct (to_ipv4_spec _ _ Hwf Ev) as [Hv4 Hn]. pose proof (u32_bound v4 Hv4) as Hb.
    assert (Hg : group0 ip = 0).
    { apply N.lt_1_r, (first_group ip 0 1 Hwf). change (2 ^ 112) with 5192296858534827628530496329220096.
      change (2 ^ 32) with 4294967296 in *. lia. }
    assert (Hlo : v6_is_loopback ip = true -> is_non_public_ipv4 v4 = true).
    { intros Hl%bool_decide_eq_true. apply v4_ranges; [done|].
      destruct ip. injection Hl as -> -> -> -> -> -> -> ->. injection Ev as <-.
      exists (0, 16777215). split; [by left|]. vm_compute; split; congruence. }
    rewrite orb_true_iff, Hg. destruct Hn as [-> | ->].
    + rewrite (N.div_small _ _ Hb). rewrite <- (v4_ranges v4 Hv4). intuition (try done; try lia).
    + rewrite N.div_add_l, (N.div_small _ _ Hb), N.add_comm, N.Div0.mod_add, (N.mod_small _ _ Hb) by done.
      rewrite <- (v4_ranges v4 Hv4). change (2 ^ 32) with 4294967296 in *. intuition (try done; try lia).
  - destruct (to_ipv4_None _ Hwf Ev) as [Hlow Hmap].
    assert (v6_is_loopback ip = false /\ v6_is_unspecified ip = false) as [-> ->].
    { split; apply bool_decide_eq_false; intros Hs; destruct ip; injection Hs as -> -> -> -> -> -> -> ->; done. }
    cbn [orb]. rewrite (first_group_local _ Hwf). intuition (try done; try lia).
Qed.

(** ** What the parser returns *)

Lemma read_number_lt radix max zero limit s n rest :
  read_number radix max zero limit s = Some (n, rest) -> n < limit.
Proof.
  unfold read_number. destruct (read_digits radix max 0 0 s) as [[[k r] s']|]; cbn [mbind option_bind]; [|done].
  case_bool_decide; [done|]. destruct (_ && _ && _); [done|]. destruct (r <? limit) eqn:E; [|done].
  intros [= <- <-]. by apply N.ltb_lt.
Qed.

Lemma read_separator_inv {A} sep i (inner : str -> option (A * str)) s r :
  read_separator sep i inner s = Some r -> exists s', inner s' = Some r.
Proof.
  unfold read_separator. destruct (if (0 <? i)%nat then _ else _) as [s'|]; cbn [mbind option_bind]; [eauto|done].
Qed.

Lemma read_ipv4_wf s ip rest : read_ipv4_addr s = Some (ip, rest) -> ip_wf (V4 ip).
Proof.
  unfold read_ipv4_addr.
  repeat (match goal with
          | |- (_ ← ?m; _) = _ -> _ => destruct m as [[? ?]|] eqn:?; cbn [mbind option_bind]; [|done]
          end).
  intros [= <- <-]. repeat match goal with H : read_separator _ _ _ _ = _ |- _ =>
    apply read_separator_inv in H as (? & H%read_number_lt) end.
  unfold ip_wf, octets. cbn. auto.
Qed.

Lemma read_groups_wf left_ i s gs v4 rest :
  read_groups i left_ s = (gs, v4, rest) -> Forall (fun g => g < 65536) gs.
Proof.
  revert i s gs v4 rest. induction left_ as [|left_ IH]; intros i s gs v4 rest; cbn [read_groups].
  { by intros [= <- <- <-]. }
  destruct (if (0 <? left_)%nat then _ else _) as [[ip r]|] eqn:E4.
  - destruct (0 <? left_)%nat; [|done]. apply read_separator_inv in E4 as (? & Hw%read_ipv4_wf).
    intros [= <- <- <-]. destruct ip as [a b c d].
    unfold ip_wf, octets in Hw. cbn [octet0 octet1 octet2 octet3] in *.
    rewrite !Forall_cons in Hw. repeat constructor; lia.
  - clear E4. destruct (read_separator 58 i _ s) as [[g r]|] eqn:Eg; [|by intros [= <- <- <-]].
    apply read_separator_inv in Eg as (? & Hg%read_number_lt).
    destruct (read_groups (S i) left_ r) as [[gs' v4'] r'] eqn:Er. intros [= <- <- <-].
    constructor; [done|]. by apply IH in Er.
Qed.

Lemma of_segments_wf gs ip : of_segments gs = Some ip -> Forall (fun g => g < 65536) gs -> ip_wf (V6 ip).
Proof. do 9 (destruct gs as [|? gs]; try done). by intros [= <-]. Qed.

Lemma read_ipv6_wf s ip rest : read_ipv6_addr s = Some (ip, rest) -> ip_wf (V6 ip).
Proof.
  unfold read_ipv6_addr. destruct (read_groups 0 8 s) as [[hd v4] s1] eqn:Eh. apply read_groups_wf in Eh.
  case_bool_decide.
  - destruct (of_segments hd) eqn:Eo; cbn [mbind option_bind]; [|done]. intros [= <- <-]. by eapply of_segments_wf.
  - destruct v4; [done|]. destruct (read_given_char 58 s1) as [s2|]; cbn [mbind option_bind]; [|done].
    destruct (read_given_char 58 s2) as [s3|]; cbn [mbind option_bind]; [|done].
    destruct (read_groups 0 _ s3) as [[tl v4] s4] eqn:Et. apply read_groups_wf in Et.
    destruct (of_segments _) eqn:Eo; cbn [mbind option_bind]; [|done]. intros [= <- <-].
    eapply of_segments_wf; [done|]. rewrite !Forall_app. split; [done|]. split; [|done].
    apply Forall_replicate. lia.
Qed.

Lemma parse_ip_wf s ip : parse_ip s = Some ip -> ip_wf ip.
Proof.
  unfold parse_ip. destruct (read_ipv4_addr s) as [[v4 [|]]|] eqn:E4; try done.
  - intros [= <-]. by eapply read_ipv4_wf.
  - destruct (read_ipv6_addr s) as [[v6 [|]]|] eqn:E6; cbn [mbind option_bind]; try done.
    intros [= <-]. by eapply read_ipv6_wf.
Qed.

(** The addresses a request may not reach are exactly the documented ranges: a literal that parses has
    fields of the right width, and the masks and predicates classify it as not public just when it lies
    in one of fourteen blocks of IPv4, such a block embedded in IPv6, or a local block of IPv6. *)
Theorem local_literals_exact s ip :
  parse_ip s = Some ip -> ip_wf ip /\ (is_non_public_ip ip = true <-> local_address ip).
Proof. intros Hs%parse_ip_wf. split; [done|]. by apply non_public_exact. Qed.

Lemma local_literals_exact_witness :
  exists ip, parse_ip (lit "::ffff:10.0.0.1") = Some ip /\ local_address ip.
Proof.
  eexists. split; [reflexivity|]. apply (local_literals_exact (lit "::ffff:10.0.0.1")); reflexivity.
Defined.

(** Blocks that are not globally routable but count as public: documentation addresses (2001:db8::/32)
    and private IPv4 addresses behind a translation prefix (64:ff9b::/96). *)
Example unroutable_counts_as_public :
  (is_non_public_ip <$> parse_ip (lit "2001:db8::1")) = Some false /\
  (is_non_public_ip <$> parse_ip (lit "64:ff9b::10.0.0.1")) = Some false.
Proof. split; reflexivity. Qed.

End IpAddress.
