(* ===== verification/HostPatterns.v ===== *)
(** * Hosts and domain patterns of the network proxy

    network-proxy/src/policy.rs: the normal form of a host, the patterns of the allow and deny lists,
    their compilation to sets of globs, and the comparison of patterns with managed ones.  The glob
    library (globset) and the host parser of the url crate are parameters. *)

From S2P Require Import Prelude Text IpAddress.
Import IpAddress.

Module HostPatterns.

(** What the proxy uses of globset: a case-insensitive glob, a set of globs, and matching. *)
Record GlobLib := {
  Glob : Type;
  GlobSet : Type;
  build_glob : str -> result str Glob;
  build_set : list Glob -> result str GlobSet;
  set_is_match : GlobSet -> str -> bool;
}.

(** ** Hosts *)

(** [str::split_once] with a text. *)
Definition split_once_str (delimiter s : str) : option (str * str) :=
  i ← find_sub delimiter s; Some (take i s, drop (i + length delimiter) s).

(** [codex-rs/network-proxy/src/policy.rs:130-134 unscoped_ip_literal] *)
Definition unscoped_ip_literal (host : str) : option str :=
  '(ip, _) ← split_once 37 host;
  _ ← parse_ip ip;
  Some ip.

(** [codex-rs/network-proxy/src/policy.rs:136-148 normalize_ip_literal] *)
Definition normalize_ip_literal (host : str) : option str :=
  let scoped delimiter :=
    '(ip, scope) ← split_once_str delimiter host;
    _ ← parse_ip ip;
    Some (ip ++ lit "%" ++ scope) in
  match parse_ip host with
  | Some _ => Some host
  | None => match scoped (lit "%25") with Some r => Some r | None => scoped (lit "%") end
  end.

(** [codex-rs/network-proxy/src/policy.rs:121-128 normalize_dns_host_or_ip_literal] *)
Definition normalize_dns_host_or_ip_literal (host : str) : str :=
  let host := trim_end_by (N.eqb 46) (to_ascii_lowercase host) in
  match normalize_ip_literal host with Some ip => ip | None => host end.

(** The inside of a bracketed host: [host.starts_with('[')] and [host.find(']')]. *)
Definition bracketed (host : str) : option str :=
  match host with
  | c :: rest => if (c =? 91)%N then fst <$> split_once 93 rest else None
  | [] => None
  end.

(** [codex-rs/network-proxy/src/policy.rs:101-119 normalize_host] *)
Definition normalize_host (host : str) : str :=
  let host := trim host in
  match bracketed host with
  | Some inner => normalize_dns_host_or_ip_literal inner
  | None =>
      if bool_decide (length (List.filter (N.eqb 58) host) = 1)
      then normalize_dns_host_or_ip_literal (default [] (head (split_char 58 host)))
      else normalize_dns_host_or_ip_literal host
  end.

(** [codex-rs/network-proxy/src/policy.rs:21-25 Host::parse] *)
Definition parse_host (input : str) : result str str :=
  let normalized := normalize_host input in
  if bool_decide (normalized = []) then Err (lit "host is empty") else Ok normalized.

(** [codex-rs/network-proxy/src/policy.rs:33-43 is_loopback_host] *)
Definition is_loopback_host (host : str) : bool :=
  let host := default host (unscoped_ip_literal host) in
  if bool_decide (host = lit "localhost") then true
  else match parse_ip host with Some ip => is_loopback ip | None => false end.

(** ** Patterns *)

(** [codex-rs/network-proxy/src/policy.rs:225-230 DomainPattern] *)
Inductive DomainPattern :=
| ApexAndSubdomains (domain : str)
| SubdomainsOnly (domain : str)
| Exact (domain : str).

#[global] Instance DomainPattern_eq_dec : EqDecision DomainPattern.
Proof. solve_decision. Defined.

(** [codex-rs/network-proxy/src/policy.rs:150-170 normalize_pattern] *)
Definition normalize_pattern (pattern : str) : str :=
  let pattern := trim pattern in
  if bool_decide (pattern = lit "*") then lit "*"
  else match strip_prefix (lit "**.") pattern with
       | Some domain => lit "**." ++ normalize_host domain
       | None => match strip_prefix (lit "*.") pattern with
                 | Some domain => lit "*." ++ normalize_host domain
                 | None => normalize_host pattern
                 end
       end.

(** [codex-rs/network-proxy/src/policy.rs:266-272 DomainPattern::parse_domain] *)
Definition parse_domain (domain : str) (build : str -> DomainPattern) : DomainPattern :=
  let domain := trim domain in
  if bool_decide (domain = []) then Exact [] else build domain.

(** [codex-rs/network-proxy/src/policy.rs:237-249 DomainPattern::parse] *)
Definition parse_pattern (input : str) : DomainPattern :=
  let input := trim input in
  if bool_decide (input = []) then Exact []
  else match strip_prefix (lit "**.") input with
       | Some domain => parse_domain domain ApexAndSubdomains
       | None => match strip_prefix (lit "*.") input with
                 | Some domain => parse_domain domain SubdomainsOnly
                 | None => Exact input
                 end
       end.

(** [codex-rs/network-proxy/src/policy.rs:321-331 expand_domain_pattern] *)
Definition expand_domain_pattern (pattern : str) : list str :=
  match parse_pattern pattern with
  | Exact domain => [domain]
  | SubdomainsOnly domain => [lit "?*." ++ domain]
  | ApexAndSubdomains domain => [domain; lit "?*." ++ domain]
  end.

(** [codex-rs/network-proxy/src/policy.rs:172-177 is_global_wildcard_domain_pattern] *)
Definition is_global_wildcard_domain_pattern (pattern : str) : bool :=
  existsb (fun candidate => bool_decide (candidate = lit "*")) (expand_domain_pattern (normalize_pattern pattern)).

(** [codex-rs/network-proxy/src/policy.rs:179-183 GlobalWildcard] *)
Inductive GlobalWildcard := AllowGlobal | RejectGlobal.

Section globs.
Context (lib : GlobLib).

(** [codex-rs/network-proxy/src/policy.rs:211-220 compile_globset_with_policy] the inner loop: the
    candidates seen and the globs added to the builder. *)
Definition add_candidate (acc : gset str * list (Glob lib)) (candidate : str) : result str (gset str * list (Glob lib)) :=
  let '(seen, builder) := acc in
  if bool_decide (candidate ∈ seen) then Ok acc
  else
    glob ← map_err (fun _ => lit "invalid glob pattern: " ++ candidate) (build_glob lib candidate);
    Ok ({[candidate]} ∪ seen, builder ++ [glob]).

(** [codex-rs/network-proxy/src/policy.rs:199-221 compile_globset_with_policy] one pattern. *)
Definition add_pattern (global_wildcard : GlobalWildcard) (acc : gset str * list (Glob lib)) (pattern : str)
    : result str (gset str * list (Glob lib)) :=
  if match global_wildcard with RejectGlobal => is_global_wildcard_domain_pattern pattern | AllowGlobal => false end
  then Err (lit "unsupported global wildcard domain pattern " ++ [34%N] ++ lit "*" ++ [34%N]
            ++ lit "; use exact hosts or scoped wildcards like *.example.com or **.example.com")
  else try_fold add_candidate (expand_domain_pattern (normalize_pattern pattern)) acc.

(** [codex-rs/network-proxy/src/policy.rs:193-223 compile_globset_with_policy] *)
Definition compile_globset_with_policy (patterns : list str) (global_wildcard : GlobalWildcard) : result str (GlobSet lib) :=
  '(_, builder) ← try_fold (add_pattern global_wildcard) patterns (∅, []);
  build_set lib builder.

(** [codex-rs/network-proxy/src/policy.rs:185-187 compile_allowlist_globset] *)
Definition compile_allowlist_globset (patterns : list str) : result str (GlobSet lib) :=
  compile_globset_with_policy patterns AllowGlobal.

(** [codex-rs/network-proxy/src/policy.rs:189-191 compile_denylist_globset] *)
Definition compile_denylist_globset (patterns : list str) : result str (GlobSet lib) :=
  compile_globset_with_policy patterns RejectGlobal.

(** [codex-rs/network-proxy/src/runtime.rs:839-841 globset_matches_host_or_unscoped] *)
Definition globset_matches_host_or_unscoped (set : GlobSet lib) (host : str) : bool :=
  set_is_match lib set host
  || match unscoped_ip_literal host with Some ip => set_is_match lib set ip | None => false end.

End globs.

(** ** Comparing patterns *)

(** [codex-rs/network-proxy/src/policy.rs:333-335 normalize_domain] *)
Definition normalize_domain (domain : str) : str := to_ascii_lowercase (trim_end_by (N.eqb 46) domain).

(** [codex-rs/network-proxy/src/policy.rs:337-339 domain_eq] *)
Definition domain_eq (left_ right_ : str) : bool := bool_decide (normalize_domain left_ = normalize_domain right_).

(** [codex-rs/network-proxy/src/policy.rs:341-348 is_subdomain_or_equal] *)
Definition is_subdomain_or_equal (child parent : str) : bool :=
  let child := normalize_domain child in
  let parent := normalize_domain parent in
  if bool_decide (child = parent) then true else ends_with (lit "." ++ parent) child.

(** [codex-rs/network-proxy/src/policy.rs:350-354 is_strict_subdomain] *)
Definition is_strict_subdomain (child parent : str) : bool :=
  let child := normalize_domain child in
  let parent := normalize_domain parent in
  bool_decide (child <> parent) && ends_with (lit "." ++ parent) child.

(** [codex-rs/network-proxy/src/policy.rs:274-299 DomainPattern::allows] *)
Definition allows (self candidate : DomainPattern) : bool :=
  match self, candidate with
  | Exact domain, Exact candidate => domain_eq candidate domain
  | Exact _, _ => false
  | SubdomainsOnly domain, Exact candidate => is_strict_subdomain candidate domain
  | SubdomainsOnly domain, SubdomainsOnly candidate => is_subdomain_or_equal candidate domain
  | SubdomainsOnly domain, ApexAndSubdomains candidate => is_strict_subdomain candidate domain
  | ApexAndSubdomains domain, Exact candidate => is_subdomain_or_equal candidate domain
  | ApexAndSubdomains domain, SubdomainsOnly candidate => is_subdomain_or_equal candidate domain
  | ApexAndSubdomains domain, ApexAndSubdomains candidate => is_subdomain_or_equal candidate domain
  end.

Section url.
(** [UrlHost::parse] of the url crate, with the text of the host it returns. *)
Context (url_host : str -> option str).

(** [codex-rs/network-proxy/src/policy.rs:302-319 parse_domain_for_constraints] *)
Definition parse_domain_for_constraints (domain : str) : str :=
  let domain := trim_end_by (N.eqb 46) (trim domain) in
  if bool_decide (domain = []) then []
  else
    let host := if starts_with (lit "[") domain && ends_with (lit "]") domain
                then take (length domain - 2) (drop 1 domain) else domain in
    if contains_char 42 host || contains_char 63 host || contains_char 37 host then domain
    else default [] (url_host host).

(** [codex-rs/network-proxy/src/policy.rs:252-264 DomainPattern::parse_for_constraints] *)
Definition parse_for_constraints (input : str) : DomainPattern :=
  let input := trim input in
  if bool_decide (input = []) then Exact []
  else match strip_prefix (lit "**.") input with
       | Some domain => ApexAndSubdomains (parse_domain_for_constraints domain)
       | None => match strip_prefix (lit "*.") input with
                 | Some domain => SubdomainsOnly (parse_domain_for_constraints domain)
                 | None => Exact (parse_domain_for_constraints input)
                 end
       end.

End url.

(** ** What a pattern means *)

Definition DOT : char := 46%N.

(** A proper subdomain. *)
Definition subdomain (host domain : str) : Prop := exists x, x <> [] /\ host = x ++ DOT :: domain.

(** The hosts, in normal form, that a pattern stands for. *)
Definition denotes (p : DomainPattern) (host : str) : Prop :=
  match p with
  | Exact d => host = normalize_domain d
  | SubdomainsOnly d => subdomain host (normalize_domain d)
  | ApexAndSubdomains d => host = normalize_domain d \/ subdomain host (normalize_domain d)
  end.

Definition pattern_domain (p : DomainPattern) : str :=
  match p with Exact d | SubdomainsOnly d | ApexAndSubdomains d => d end.

(** A domain that is not empty and has no empty first label. *)
Definition domain_wf (d : str) : Prop := normalize_domain d <> [] /\ head (normalize_domain d) <> Some DOT.

Lemma domain_ends_with_spec p s : ends_with p s = true <-> exists r, s = r ++ p.
Proof.
  unfold ends_with. destruct (strip_suffix p s) as [r|] eqn:E.
  - apply strip_suffix_Some in E. split; [eauto|done].
  - rewrite strip_suffix_None in E. split; [done|]. intros [r Hr]. by destruct (E r).
Qed.

Lemma strict_spec c d : domain_wf c -> is_strict_subdomain c d = true <-> subdomain (normalize_domain c) (normalize_domain d).
Proof.
  intros [_ Hh]. unfold is_strict_subdomain. rewrite andb_true_iff, bool_decide_eq_true, domain_ends_with_spec. split.
  - intros [Hne [x Hx]]. exists x. split; [|done]. intros ->. apply Hh. by rewrite Hx.
  - intros (x & Hx & Heq). split; [|by exists x]. intros Hc. rewrite Hc in Heq.
    apply (f_equal length) in Heq. rewrite length_app in Heq. cbn in Heq. lia.
Qed.

Lemma subdomain_or_equal_spec c d : domain_wf c ->
  is_subdomain_or_equal c d = true <-> normalize_domain c = normalize_domain d \/ subdomain (normalize_domain c) (normalize_domain d).
Proof.
  intros Hc. rewrite <- (strict_spec c d Hc). unfold is_subdomain_or_equal, is_strict_subdomain.
  case_bool_decide; [naive_solver|]. rewrite bool_decide_true by done. cbn. naive_solver.
Qed.

Lemma subdomain_trans a b c : subdomain a b -> subdomain b c -> subdomain a c.
Proof.
  intros (x & Hx & ->) (y & Hy & ->). exists (x ++ DOT :: y). split; [by destruct x|].
  by rewrite <- (assoc_L (++)).
Qed.

(** Subdomains of [c] by a one-letter label are in [d]'s tree only when [c] is. *)
Lemma label_subdomain (l : char) c d : head c <> Some DOT -> subdomain (l :: DOT :: c) d -> c = d \/ subdomain c d.
Proof.
  intros Hc (x & Hx & Heq). destruct x as [|l' [|l'' x]]; [done| |].
  - injection Heq as -> ->. by left.
  - injection Heq as -> <- Heq. right. exists x. split; [|done]. intros ->. by rewrite Heq in Hc.
Qed.

Lemma subdomain_length a b : subdomain a b -> length b + 2 <= length a.
Proof. intros (x & Hx & ->). rewrite length_app. destruct x; [done|]. cbn. lia. Qed.

(** The inclusion of patterns is decided exactly. *)
Lemma allows_inclusion p q :
  domain_wf (pattern_domain q) -> allows p q = true <-> forall host, denotes q host -> denotes p host.
Proof.
  assert (Hlab : forall l c, subdomain (l :: DOT :: c) c) by (intros l c; by exists [l]).
  intros Hq. pose proof (proj2 Hq) as Hhd.
  destruct p as [d|d|d], q as [c|c|c]; cbn [allows denotes pattern_domain] in *; unfold domain_eq;
    rewrite ?bool_decide_eq_true, ?(strict_spec _ _ Hq), ?(subdomain_or_equal_spec _ _ Hq);
    generalize dependent (normalize_domain c); intros nc; generalize (normalize_domain d); intros nd; intros.
  - split; [|auto]. intros [->|Hs] h [->|Hh]; eauto using subdomain_trans.
  - split.
    + intros [->|Hs] h Hh; eauto using subdomain_trans.
    + intros H. destruct (H _ (Hlab 97%N nc)) as [Ha|Ha]; [|by eapply label_subdomain].
      destruct (H _ (Hlab 98%N nc)) as [Hb|Hb]; [by rewrite <- Ha in Hb|by eapply label_subdomain].
  - split; [|auto]. by intros Hs h ->.
  - split; [|auto]. intros Hs h [->|Hh]; eauto using subdomain_trans.
  - split.
    + intros [->|Hs] h Hh; eauto using subdomain_trans.
    + intros H. by eapply label_subdomain, (H _ (Hlab 97%N nc)).
  - split; [|auto]. by intros Hs h ->.
  - split; [done|]. intros H. pose proof (H nc ltac:(by left)) as <-.
    specialize (H _ (or_intror (Hlab 97%N nc))). apply (f_equal length) in H. cbn in H. lia.
  - split; [done|]. intros H. pose proof (H _ (Hlab 97%N nc)) as Ha. pose proof (H _ (Hlab 98%N nc)) as Hb. congruence.
  - split; [by intros -> h ->|]. auto.
Qed.

(** ** Entries that are names *)

Definition dns_char (c : char) : bool := is_ascii_alphanumeric c || (c =? 45)%N || (c =? 95)%N || (c =? 46)%N.

(** A name made of letters, digits, hyphens, underscores and dots. *)
Definition dns_name (d : str) : Prop := Forall (fun c => dns_char c = true) d /\ domain_wf d.

(** The entries of a list that are names, with or without a wildcard prefix, or the global wildcard. *)
Inductive wf_entry : str -> Prop :=
| wf_global : wf_entry (lit "*")
| wf_exact d : dns_name d -> wf_entry d
| wf_subdomains d : dns_name d -> wf_entry (lit "*." ++ d)
| wf_apex d : dns_name d -> wf_entry (lit "**." ++ d).

Definition entry_denotes (p host : str) : Prop := p = lit "*" \/ denotes (parse_pattern p) host.

Lemma dns_char_range c : dns_char c = true -> (45 <= c < 128)%N /\ is_whitespace c = false /\ c <> 58%N /\ c <> 91%N /\ c <> 63%N /\ c <> 93%N /\ c <> 92%N.
Proof.
  unfold dns_char, is_ascii_alphanumeric, is_ascii_digit, is_ascii_lower, is_ascii_upper.
  rewrite !orb_true_iff, !andb_true_iff, !N.leb_le, !N.eqb_eq. intros H.
  assert (Hw : is_whitespace c = false); [|split_and!; done || lia].
  destruct (is_whitespace c) eqn:E; [|done]. unfold is_whitespace in E.
  rewrite !orb_true_iff, !andb_true_iff, !N.leb_le, ?N.eqb_eq in E. lia.
Qed.

Lemma trim_none s : Forall (fun c => is_whitespace c = false) s -> trim s = s.
Proof.
  intros Hs. destruct s as [|c s]; [done|]. destruct (exists_last (l := c :: s)) as (s' & d & Heq); [done|].
  assert (is_whitespace d = false).
  { rewrite Heq in Hs. apply Forall_app in Hs as [_ Hs]. by apply Forall_cons in Hs as [? _]. }
  unfold trim, trim_start. rewrite trim_start_by_id by (by apply Forall_cons in Hs as [? _]).
  unfold trim_end. rewrite Heq. by apply trim_end_by_snoc.
Qed.

Lemma trim_end_lower s : trim_end_by (N.eqb 46) (to_ascii_lowercase s) = to_ascii_lowercase (trim_end_by (N.eqb 46) s).
Proof.
  assert (Hc : forall c, N.eqb 46 (to_ascii_lower_char c) = N.eqb 46 c).
  { intros c. unfold to_ascii_lower_char, is_ascii_upper.
    destruct (N.leb_spec 65 c), (N.leb_spec c 90); cbn [andb]; try done.
    destruct (N.eqb_spec 46 (c + 32)), (N.eqb_spec 46 c); lia || done. }
  induction s as [|c s IH]; [done|]. cbn [to_ascii_lowercase map trim_end_by] in *.
  fold (to_ascii_lowercase s). rewrite IH, Hc. destruct (trim_end_by (N.eqb 46) s); cbn [map]; [|done].
  by destruct (N.eqb 46 c).
Qed.

Lemma normalize_domain_idemp d : normalize_domain (normalize_domain d) = normalize_domain d.
Proof. unfold normalize_domain. by rewrite trim_end_lower, trim_end_by_idemp, lower_idemp. Qed.

Lemma find_sub_absent c needle s : c ∉ s -> find_sub (c :: needle) s = None.
Proof.
  induction s as [|x s IH]; intros Hc; cbn [find_sub].
  - by rewrite (proj2 (starts_with_false _ _)).
  - rewrite (proj2 (starts_with_false _ _)) by (intros r [= -> _]; apply Hc; constructor).
    rewrite IH; [done|]. intros H. apply Hc. by constructor.
Qed.

Lemma normalize_ip_plain h ip : 37%N ∉ h -> normalize_ip_literal h = Some ip -> ip = h.
Proof.
  intros Hp. unfold normalize_ip_literal, split_once_str. destruct (parse_ip h); [by intros [= <-]|].
  change (lit "%25") with [37; 50; 53]%N. change (lit "%") with [37%N]. by rewrite !find_sub_absent.
Qed.

Lemma lower_dns d : Forall (fun c => dns_char c = true) d -> Forall (fun c => dns_char c = true) (to_ascii_lowercase d).
Proof.
  intros H. apply Forall_fmap. eapply Forall_impl; [done|]. intros c. cbn.
  unfold to_ascii_lower_char. destruct (is_ascii_upper c) eqn:E; [|done]. intros _. revert E.
  unfold dns_char, is_ascii_alphanumeric, is_ascii_digit, is_ascii_lower, is_ascii_upper.
  rewrite !orb_true_iff, !andb_true_iff, !N.leb_le. lia.
Qed.

Lemma normalize_domain_dns d : Forall (fun c => dns_char c = true) d -> Forall (fun c => dns_char c = true) (normalize_domain d).
Proof.
  intros H. apply lower_dns. destruct (trim_end_by_prefix (N.eqb 46) d) as (w & Hw & _). rewrite Hw in H.
  by apply Forall_app in H as [? _].
Qed.

Lemma dns_free d c : Forall (fun c => dns_char c = true) d -> dns_char c = false -> c ∉ d.
Proof. intros H Hc Hin. rewrite Forall_forall in H. apply H in Hin. congruence. Qed.

(** A text without white space, brackets, colons and percent signs has its domain as normal form. *)
Definition plain_char (c : char) : Prop := is_whitespace c = false /\ c <> 58%N /\ c <> 91%N /\ c <> 37%N.

Lemma dns_plain c : dns_char c = true -> plain_char c.
Proof. intros H. apply dns_char_range in H as (? & ? & ? & ? & _). split_and!; try done. lia. Qed.

Lemma normalize_host_plain d : Forall plain_char d -> normalize_host d = normalize_domain d.
Proof.
  intros H. unfold normalize_host.
  rewrite trim_none by (eapply Forall_impl; [done|]; by intros c (? & _)).
  assert (bracketed d = None) as ->.
  { destruct d as [|c d]; [done|]. cbn. destruct (N.eqb_spec c 91) as [->|]; [|done].
    apply Forall_cons in H as [(_ & _ & ? & _) _]. done. }
  assert (List.filter (N.eqb 58) d = []) as ->.
  { clear -H. induction H as [|c d (_ & Hc & _) _ IH]; [done|]. cbn [List.filter].
    by destruct (N.eqb_spec 58 c) as [<-|]. }
  cbn [length]. rewrite bool_decide_false by done. unfold normalize_dns_host_or_ip_literal.
  rewrite trim_end_lower. fold (normalize_domain d). destruct (normalize_ip_literal _) eqn:E; [|done].
  apply normalize_ip_plain in E; [done|]. intros Hin%(lower_elem 37%N); [|done].
  apply trim_by_subset in Hin. rewrite Forall_forall in H. by apply H in Hin as (_ & _ & _ & ?).
Qed.

Lemma normalize_host_dns d : Forall (fun c => dns_char c = true) d -> normalize_host d = normalize_domain d.
Proof. intros H. apply normalize_host_plain. eapply Forall_impl; [done|]. apply dns_plain. Qed.

(** A wildcard entry is never the normal form of a name. *)
Lemma wildcard_host p d :
  p ∈ [lit "*."; lit "**."] -> Forall (fun c => dns_char c = true) d -> head (normalize_host (p ++ d)) = Some 42%N.
Proof.
  intros Hp Hd. assert (exists q, p = 42%N :: q /\ Forall plain_char q) as (q & -> & Hq).
  { apply elem_of_cons in Hp as [->|Hp%list_elem_of_singleton]; [exists (lit ".")|subst p; exists (lit "*.")];
      (split; [done|]; by repeat constructor). }
  assert (Hhead : forall s, head (normalize_domain (42%N :: s)) = Some 42%N).
  { intros s. unfold normalize_domain. cbn [trim_end_by]. by destruct (trim_end_by (N.eqb 46) s). }
  rewrite normalize_host_plain; [apply Hhead|]. constructor; [done|]. apply Forall_app. split; [done|].
  eapply Forall_impl; [done|]. apply dns_plain.
Qed.

Lemma dns_no_space d : Forall (fun c => dns_char c = true) d -> Forall (fun c => is_whitespace c = false) d.
Proof. intros H. eapply Forall_impl; [done|]. intros c Hc. by apply dns_char_range in Hc as (_ & ? & _). Qed.

Lemma dns_no_prefix p d : Forall (fun c => dns_char c = true) d -> strip_prefix (42%N :: p) d = None.
Proof.
  intros H. destruct (strip_prefix (42%N :: p) d) as [r|] eqn:E; [|done].
  apply strip_prefix_Some in E as ->. by apply Forall_cons in H as [? _].
Qed.

(** Parsing an entry that is a name. *)
Lemma parse_exact d : Forall (fun c => dns_char c = true) d -> parse_pattern d = Exact d.
Proof.
  intros H. unfold parse_pattern. rewrite trim_none by by apply dns_no_space.
  case_bool_decide; [by subst|].
  change (lit "**.") with (42%N :: lit "*."). change (lit "*.") with (42%N :: lit ".").
  by rewrite !dns_no_prefix.
Qed.

Lemma trim_prefixed d :
  Forall (fun c => dns_char c = true) d ->
  trim d = d /\ trim (lit "*." ++ d) = lit "*." ++ d /\ trim (lit "**." ++ d) = lit "**." ++ d.
Proof.
  intros H%dns_no_space. split_and!; apply trim_none; [done|..];
    (apply Forall_app; split; [repeat constructor|done]).
Qed.

Lemma parse_prefixed d :
  Forall (fun c => dns_char c = true) d -> d <> [] ->
  parse_pattern (lit "*." ++ d) = SubdomainsOnly d /\ parse_pattern (lit "**." ++ d) = ApexAndSubdomains d.
Proof.
  intros H Hd. unfold parse_pattern, parse_domain. destruct (trim_prefixed d H) as (Ht & -> & ->).
  rewrite !strip_prefix_app, Ht, (bool_decide_false (d = [])) by done. by split.
Qed.

Lemma normalize_prefixed d :
  Forall (fun c => dns_char c = true) d ->
  normalize_pattern d = normalize_domain d /\
  normalize_pattern (lit "*." ++ d) = lit "*." ++ normalize_domain d /\
  normalize_pattern (lit "**." ++ d) = lit "**." ++ normalize_domain d.
Proof.
  intros H. unfold normalize_pattern. destruct (trim_prefixed d H) as (-> & -> & ->).
  assert (d <> lit "*") by (intros ->; by apply Forall_cons in H as [? _]).
  rewrite !bool_decide_false by done. rewrite !strip_prefix_app, !normalize_host_dns by done.
  change (lit "**.") with (42%N :: lit "*."). change (lit "*.") with (42%N :: lit ".").
  by rewrite !(dns_no_prefix _ d H).
Qed.

(** The globs an entry is compiled to. *)
Lemma expand_entry p : wf_entry p ->
  (p = lit "*" /\ expand_domain_pattern (normalize_pattern p) = [lit "*"]) \/
  exists nd, Forall (fun c => dns_char c = true) nd /\ to_ascii_lowercase nd = nd /\
    ((expand_domain_pattern (normalize_pattern p) = [nd] /\ forall h, denotes (parse_pattern p) h <-> h = nd) \/
     (expand_domain_pattern (normalize_pattern p) = [lit "?*." ++ nd] /\
        forall h, denotes (parse_pattern p) h <-> subdomain h nd) \/
     (expand_domain_pattern (normalize_pattern p) = [nd; lit "?*." ++ nd] /\
        forall h, denotes (parse_pattern p) h <-> h = nd \/ subdomain h nd)).
Proof.
  intros [|d [Hd [Hne _]]|d [Hd [Hne _]]|d [Hd [Hne _]]]; [by left|..]; right; exists (normalize_domain d);
    destruct (normalize_prefixed d Hd) as (E1 & E2 & E3); rewrite ?E1, ?E2, ?E3; pose proof (normalize_domain_dns _ Hd) as Hn;
    (split; [done|]); (split; [unfold normalize_domain; by rewrite lower_idemp|]); unfold expand_domain_pattern.
  - left. rewrite !parse_exact by done. done.
  - right; left. assert (d <> []) by (by intros ->).
    rewrite (proj1 (parse_prefixed _ Hn Hne)), (proj1 (parse_prefixed d Hd ltac:(done))). done.
  - right; right. assert (d <> []) by (by intros ->).
    rewrite (proj2 (parse_prefixed _ Hn Hne)), (proj2 (parse_prefixed d Hd ltac:(done))). done.
Qed.

(** ** What a compiled list matches *)

Definition ascii (h : str) : Prop := Forall (fun c => (c < 128)%N) h.
Definition meta_free (d : str) : Prop := Forall (fun c => (c < 128)%N /\ c ∉ lit "*?[]{}\") d.

(** What the proxy relies on of the glob library: a set matches what one of its globs matches; a text
    without special characters matches itself, in any case; a star matches everything, and a question
    mark before it at least one character. *)
Class GlobLaws (lib : GlobLib) := {
  glob_matches : Glob lib -> str -> Prop;
  set_law gs set h : build_set lib gs = Ok set -> set_is_match lib set h = true <-> exists g, g ∈ gs /\ glob_matches g h;
  star_law g h : build_glob lib (lit "*") = Ok g -> glob_matches g h;
  literal_law d g h : meta_free d -> ascii h -> build_glob lib d = Ok g ->
    glob_matches g h <-> to_ascii_lowercase h = to_ascii_lowercase d;
  subdomain_law d g h : meta_free d -> ascii h -> build_glob lib (lit "?*." ++ d) = Ok g ->
    glob_matches g h <-> exists x, x <> [] /\ to_ascii_lowercase h = x ++ DOT :: to_ascii_lowercase d;
}.

Section compiled.
Context {lib : GlobLib} `{!GlobLaws lib}.

(** The globs built so far are those of the candidates seen. *)
Definition built (acc : gset str * list (Glob lib)) : Prop :=
  (forall c, c ∈ acc.1 -> exists g, g ∈ acc.2 /\ build_glob lib c = Ok g) /\
  (forall g, g ∈ acc.2 -> exists c, c ∈ acc.1 /\ build_glob lib c = Ok g).

Lemma add_candidate_built acc acc' c :
  built acc -> add_candidate lib acc c = Ok acc' -> built acc' /\ (forall x, x ∈ acc'.1 <-> x ∈ acc.1 \/ x = c).
Proof.
  destruct acc as [seen gs]. intros [Hc Hg]. unfold add_candidate. case_bool_decide as Hs.
  { intros [= <-]. split; [by split|]. set_solver. }
  destruct (build_glob lib c) as [g|e] eqn:Eg; cbn; [|done]. intros [= <-]. split; [|cbn; set_solver].
  split; cbn in *.
  - intros x [->%elem_of_singleton|Hx]%elem_of_union; [exists g; set_solver|].
    destruct (Hc x Hx) as (g' & ? & ?). exists g'. set_solver.
  - intros g' [Hin| ->%list_elem_of_singleton]%elem_of_app; [|exists c; set_solver].
    destruct (Hg g' Hin) as (x & ? & ?). exists x. set_solver.
Qed.

Lemma add_candidates_built cs acc acc' :
  built acc -> try_fold (add_candidate lib) cs acc = Ok acc' ->
  built acc' /\ (forall x, x ∈ acc'.1 <-> x ∈ acc.1 \/ x ∈ cs).
Proof.
  revert acc. induction cs as [|c cs IH]; intros acc Hb; cbn [try_fold].
  { intros [= <-]. split; [done|]. set_solver. }
  destruct (add_candidate lib acc c) as [acc1|] eqn:E; [|done]. intros H.
  destruct (add_candidate_built _ _ _ Hb E) as [Hb1 H1]. destruct (IH _ Hb1 H) as [Hb' H'].
  split; [done|]. intros x. rewrite H', H1, elem_of_cons. tauto.
Qed.

Lemma add_patterns_built gw ps acc acc' :
  built acc -> try_fold (add_pattern lib gw) ps acc = Ok acc' ->
  built acc' /\ (forall x, x ∈ acc'.1 <-> x ∈ acc.1 \/ exists p, p ∈ ps /\ x ∈ expand_domain_pattern (normalize_pattern p)).
Proof.
  revert acc. induction ps as [|p ps IH]; intros acc Hb; cbn [try_fold].
  { intros [= <-]. split; [done|]. set_solver. }
  destruct (add_pattern lib gw acc p) as [acc1|] eqn:E; [|done]. intros H. unfold add_pattern in E.
  destruct (match gw with RejectGlobal => _ | AllowGlobal => _ end); [done|].
  destruct (add_candidates_built _ _ _ Hb E) as [Hb1 H1]. destruct (IH _ Hb1 H) as [Hb' H'].
  split; [done|]. intros x. rewrite H', H1. setoid_rewrite elem_of_cons. naive_solver.
Qed.

Lemma compiled_candidates ps gw set h :
  compile_globset_with_policy lib ps gw = Ok set ->
  (set_is_match lib set h = true <->
   exists p c g, p ∈ ps /\ c ∈ expand_domain_pattern (normalize_pattern p) /\ build_glob lib c = Ok g /\ glob_matches g h) /\
  (forall p c, p ∈ ps -> c ∈ expand_domain_pattern (normalize_pattern p) -> exists g, build_glob lib c = Ok g).
Proof.
  unfold compile_globset_with_policy. destruct (try_fold _ ps _) as [[seen gs]|] eqn:E; cbn [mbind result_bind]; [|done].
  intros Hs. rewrite (set_law _ _ _ Hs).
  apply add_patterns_built in E as [[Hc Hg] Hseen]; [|split; cbn; set_solver]. cbn in *.
  split; [|intros p c Hp Hcp; destruct (Hc c) as (g & _ & ?); naive_solver]. split.
  - intros (g & Hin & Hm). destruct (Hg g Hin) as (c & [Hx|(p & ? & ?)]%Hseen & ?); [set_solver|]. by exists p, c, g.
  - intros (p & c & g & Hp & Hcp & Hb & Hm). destruct (Hc c) as (g' & ? & Hb'); [naive_solver|].
    rewrite Hb in Hb'. injection Hb' as <-. eauto.
Qed.

Lemma dns_meta_free d : Forall (fun c => dns_char c = true) d -> meta_free d.
Proof.
  intros H. eapply Forall_impl; [done|]. intros c Hc. split; [apply dns_char_range in Hc; lia|].
  intros Hin. change (lit "*?[]{}\") with [42; 63; 91; 93; 123; 125; 92]%N in Hin.
  repeat (apply elem_of_cons in Hin as [->|Hin]; [done|]). by apply elem_of_nil in Hin.
Qed.

(** The globs of an entry match the hosts the entry stands for. *)
Lemma entry_globs p h :
  wf_entry p -> ascii h -> to_ascii_lowercase h = h ->
  (forall c, c ∈ expand_domain_pattern (normalize_pattern p) -> exists g, build_glob lib c = Ok g) ->
  (exists c g, c ∈ expand_domain_pattern (normalize_pattern p) /\ build_glob lib c = Ok g /\ glob_matches g h) <->
  entry_denotes p h.
Proof.
  intros Hp Hh Hl Hb. unfold entry_denotes.
  assert (Hlit : forall nd g, Forall (fun c => dns_char c = true) nd -> to_ascii_lowercase nd = nd ->
    build_glob lib nd = Ok g -> glob_matches g h <-> h = nd).
  { intros nd g Hd Hn Hg. rewrite (literal_law nd g h (dns_meta_free _ Hd) Hh Hg). by rewrite Hl, Hn. }
  assert (Hsub : forall nd g, Forall (fun c => dns_char c = true) nd -> to_ascii_lowercase nd = nd ->
    build_glob lib (lit "?*." ++ nd) = Ok g -> glob_matches g h <-> subdomain h nd).
  { intros nd g Hd Hn Hg. rewrite (subdomain_law nd g h (dns_meta_free _ Hd) Hh Hg). by rewrite Hl, Hn. }
  destruct (expand_entry p Hp) as [[-> He]|(nd & Hd & Hn & Hcase)].
  { rewrite He in *. split; [by left|]. intros _. destruct (Hb (lit "*")) as [g Hg]; [by left|].
    exists (lit "*"), g. split; [by left|]. split; [done|]. by apply (star_law g h). }
  assert (Hns : (p = lit "*" \/ denotes (parse_pattern p) h) <-> denotes (parse_pattern p) h).
  { split; [|by right]. intros [->|]; [|done]. destruct Hcase as [[He _]|[[He _]|[He _]]]; vm_compute in He; simplify_eq.
    by apply Forall_cons in Hd as [? _]. }
  rewrite Hns. clear Hns. destruct Hcase as [[He ->]|[[He ->]|[He ->]]]; rewrite He in *.
  - destruct (Hb nd) as [g Hg]; [by left|]. rewrite <- (Hlit nd g Hd Hn Hg). split.
    + intros (c & g' & ->%list_elem_of_singleton & Hg' & Hm). congruence.
    + intros Hm. exists nd, g. by rewrite list_elem_of_singleton.
  - destruct (Hb (lit "?*." ++ nd)) as [g Hg]; [by left|]. rewrite <- (Hsub nd g Hd Hn Hg). split.
    + intros (c & g' & ->%list_elem_of_singleton & Hg' & Hm). congruence.
    + intros Hm. exists (lit "?*." ++ nd), g. by rewrite list_elem_of_singleton.
  - destruct (Hb nd) as [g Hg]; [by left|]. destruct (Hb (lit "?*." ++ nd)) as [g2 Hg2]; [right; by left|].
    rewrite <- (Hlit nd g Hd Hn Hg), <- (Hsub nd g2 Hd Hn Hg2). split.
    + intros (c & g' & [-> | ->%list_elem_of_singleton]%elem_of_cons & Hg' & Hm); [left|right]; congruence.
    + intros [Hm|Hm]; [exists nd, g|exists (lit "?*." ++ nd), g2]; rewrite elem_of_cons, list_elem_of_singleton; auto.
Qed.

Lemma compiled_meaning ps gw set h :
  compile_globset_with_policy lib ps gw = Ok set -> Forall wf_entry ps -> ascii h -> to_ascii_lowercase h = h ->
  set_is_match lib set h = true <-> exists p, p ∈ ps /\ entry_denotes p h.
Proof.
  intros Hc Hps Hh Hl. destruct (compiled_candidates ps gw set h Hc) as [-> Hb]. rewrite Forall_forall in Hps. split.
  - intros (p & c & g & Hp & Hcp & Hg & Hm). exists p. split; [done|]. apply entry_globs; eauto.
  - intros (p & Hp & Hd). apply entry_globs in Hd as (c & g & ? & ? & ?); eauto 8.
Qed.

End compiled.

(** ** Normal hosts *)

Lemma lower_fixed s : to_ascii_lowercase s = s <-> Forall (fun c => to_ascii_lower_char c = c) s.
Proof.
  induction s as [|c s IH]; [split; [constructor|done]|]. rewrite Forall_cons, <- IH. cbn.
  split; [intros [= H1 H2]; auto|]. intros [H1 H2]. unfold to_ascii_lowercase in H2. congruence.
Qed.

Lemma normalize_ip_fixed (P : char -> Prop) h ip : Forall P h -> P 37%N -> normalize_ip_literal h = Some ip -> Forall P ip.
Proof.
  intros Hh H37. unfold normalize_ip_literal, split_once_str.
  assert (Hs : forall d r, ('(ip, scope) ← (i ← find_sub d h; Some (take i h, drop (i + length d) h));
     _ ← parse_ip ip; Some (ip ++ lit "%" ++ scope)) = Some r -> Forall P r).
  { intros d r. destruct (find_sub d h) as [i|]; cbn; [|done]. destruct (parse_ip (take i h)); cbn; [|done].
    intros [= <-]. apply Forall_app. split; [by apply Forall_take|]. apply Forall_cons. split; [done|].
    by apply Forall_drop. }
  destruct (parse_ip h); [by intros [= <-]|].
  destruct (_ ← _; _) as [r|] eqn:E; [intros [= <-]; by eapply Hs|]. apply Hs.
Qed.

Lemma normalize_host_lower s : to_ascii_lowercase (normalize_host s) = normalize_host s.
Proof.
  assert (H : forall h, to_ascii_lowercase (normalize_dns_host_or_ip_literal h) = normalize_dns_host_or_ip_literal h).
  { intros h. apply lower_fixed. unfold normalize_dns_host_or_ip_literal.
    assert (Hf : Forall (fun c => to_ascii_lower_char c = c) (trim_end_by (N.eqb 46) (to_ascii_lowercase h))).
    { apply lower_fixed. by rewrite <- trim_end_lower, lower_idemp. }
    destruct (normalize_ip_literal _) eqn:E; [|done]. by eapply normalize_ip_fixed. }
  unfold normalize_host. destruct (bracketed _); [apply H|]. case_bool_decide; apply H.
Qed.

(** A normal host that is a name is its own normal form. *)
Lemma normal_host_name s : Forall (fun c => dns_char c = true) (normalize_host s) ->
  normalize_domain (normalize_host s) = normalize_host s.
Proof.
  assert (H : forall h, Forall (fun c => dns_char c = true) (normalize_dns_host_or_ip_literal h) ->
    normalize_domain (normalize_dns_host_or_ip_literal h) = normalize_dns_host_or_ip_literal h).
  { intros h. unfold normalize_dns_host_or_ip_literal. set (t := trim_end_by (N.eqb 46) (to_ascii_lowercase h)).
    assert (Ht : normalize_domain t = t).
    { unfold t. rewrite trim_end_lower. apply normalize_domain_idemp. }
    destruct (normalize_ip_literal t) as [ip|] eqn:E; [|done]. intros Hd.
    destruct (decide (37%N ∈ t)) as [Hin|Hno]; [|by rewrite (normalize_ip_plain t ip Hno E)].
    exfalso. revert E. unfold normalize_ip_literal, split_once_str.
    assert (Hs : forall d, ('(ip, scope) ← (i ← find_sub d t; Some (take i t, drop (i + length d) t));
       _ ← parse_ip ip; Some (ip ++ lit "%" ++ scope)) <> Some ip).
    { intros d. destruct (find_sub d t) as [i|]; cbn; [|done]. destruct (parse_ip (take i t)); cbn; [|done].
      intros [= <-]. apply Forall_app in Hd as [_ Hd]. by apply Forall_cons in Hd as [? _]. }
    destruct (parse_ip t); [intros [= Heq]; rewrite <- Heq in Hd; exact (dns_free t 37%N Hd eq_refl Hin)|].
    destruct (_ ← _; _) as [r|] eqn:E; [intros [= <-]; by eapply Hs|]. apply Hs. }
  unfold normalize_host. destruct (bracketed _); [apply H|]. case_bool_decide; apply H.
Qed.

Lemma unscoped_prefix h ip : unscoped_ip_literal h = Some ip -> exists s, h = ip ++ s.
Proof.
  unfold unscoped_ip_literal. destruct (split_once 37 h) as [[a b]|] eqn:E; cbn; [|done].
  destruct (parse_ip a); cbn; [|done]. intros [= <-]. apply split_once_eq in E. by eexists.
Qed.

(** ** Managed patterns *)

(** The host parser of the url crate returns the name of an entry, in some case. *)
Definition url_keeps (url_host : str -> option str) (p : str) : Prop :=
  let d := pattern_domain (parse_pattern p) in
  exists x, url_host (trim_end_by (N.eqb 46) d) = Some x /\ normalize_domain x = normalize_domain d.

(** An entry that is a name the host parser keeps, or the global wildcard. *)
Definition known_entry (url_host : str -> option str) (p : str) : Prop :=
  wf_entry p /\ (p = lit "*" \/ url_keeps url_host p).

Lemma constraint_domain url_host d x :
  Forall (fun c => dns_char c = true) d -> url_host (trim_end_by (N.eqb 46) d) = Some x ->
  trim_end_by (N.eqb 46) d <> [] -> parse_domain_for_constraints url_host d = x.
Proof.
  intros Hd Hx Hne. unfold parse_domain_for_constraints. rewrite (proj1 (trim_prefixed d Hd)), bool_decide_false by done.
  assert (Ht : Forall (fun c => dns_char c = true) (trim_end_by (N.eqb 46) d)).
  { destruct (trim_end_by_prefix (N.eqb 46) d) as (w & Hw & _). rewrite Hw in Hd. by apply Forall_app in Hd as [? _]. }
  set (t := trim_end_by (N.eqb 46) d) in *.
  assert (starts_with (lit "[") t = false) as ->.
  { apply starts_with_false. intros r Hr. rewrite Hr in Ht. by apply Forall_cons in Ht as [? _]. }
  cbn [andb]. rewrite !(proj2 (contains_char_false _ t)) by (by apply dns_free). cbn [orb]. by rewrite Hx.
Qed.

(** For an entry that is a name, the comparison of patterns is about the hosts it stands for. *)
Lemma constraints_meaning url_host p h :
  wf_entry p -> p <> lit "*" -> url_keeps url_host p ->
  domain_wf (pattern_domain (parse_for_constraints url_host p)) /\
  (denotes (parse_for_constraints url_host p) h <-> denotes (parse_pattern p) h).
Proof.
  intros Hp Hs (x & Hx & Hn). unfold parse_for_constraints.
  destruct Hp as [|d [Hd Hwf]|d [Hd Hwf]|d [Hd Hwf]]; [done|..];
    assert (d <> []) by (intros ->; by destruct Hwf); pose proof Hwf as [Hne _];
    assert (Ht : trim_end_by (N.eqb 46) d <> []) by (unfold normalize_domain in Hne; by intros E; rewrite E in Hne);
    destruct (trim_prefixed d Hd) as (T1 & T2 & T3); rewrite ?T1, ?T2, ?T3;
    rewrite ?(proj1 (parse_prefixed d Hd ltac:(done))), ?(proj2 (parse_prefixed d Hd ltac:(done))), ?(parse_exact d Hd) in *;
    cbn [pattern_domain] in *; pose proof (constraint_domain url_host d x Hd Hx Ht) as Hc;
    rewrite bool_decide_false by (done || by destruct d).
  - change (lit "**.") with (42%N :: lit "*."). change (lit "*.") with (42%N :: lit ".").
    rewrite !dns_no_prefix by done. cbn [pattern_domain denotes]. rewrite Hc. unfold domain_wf. by rewrite Hn.
  - change (strip_prefix (lit "**.") (lit "*." ++ d)) with (@None str).
    rewrite strip_prefix_app. cbn [pattern_domain denotes]. rewrite Hc. unfold domain_wf. by rewrite Hn.
  - rewrite strip_prefix_app. cbn [pattern_domain denotes]. rewrite Hc. unfold domain_wf. by rewrite Hn.
Qed.

Lemma normalize_domain_lower d : normalize_domain (to_ascii_lowercase d) = normalize_domain d.
Proof. unfold normalize_domain. by rewrite trim_end_lower, lower_idemp. Qed.

(** The case of an entry does not matter. *)
Lemma entry_denotes_lower p h : wf_entry p -> entry_denotes p h <-> entry_denotes (to_ascii_lowercase p) h.
Proof.
  assert (Hstar : forall q, to_ascii_lowercase q = lit "*" -> q = lit "*").
  { intros [|c [|]] Hq; try done. injection Hq as Hq. by rewrite (lower_inv _ _ Hq eq_refl). }
  intros Hp. unfold entry_denotes. assert (Hs : p = lit "*" <-> to_ascii_lowercase p = lit "*").
  { split; [by intros ->|apply Hstar]. }
  rewrite <- Hs. apply or_iff_compat_l. clear Hs.
  destruct Hp as [|d [Hd Hwf]|d [Hd Hwf]|d [Hd Hwf]]; [done|..];
    pose proof (lower_dns d Hd) as Hl; pose proof (normalize_domain_lower d) as Hn;
    assert (d <> []) by (intros ->; by destruct Hwf);
    assert (to_ascii_lowercase d <> []) by (by destruct d).
  - rewrite !parse_exact by done. cbn [denotes]. by rewrite Hn.
  - change (to_ascii_lowercase (lit "*." ++ d)) with (lit "*." ++ to_ascii_lowercase d).
    rewrite (proj1 (parse_prefixed d Hd ltac:(done))), (proj1 (parse_prefixed _ Hl ltac:(done))). cbn [denotes]. by rewrite Hn.
  - change (to_ascii_lowercase (lit "**." ++ d)) with (lit "**." ++ to_ascii_lowercase d).
    rewrite (proj2 (parse_prefixed d Hd ltac:(done))), (proj2 (parse_prefixed _ Hl ltac:(done))). cbn [denotes]. by rewrite Hn.
Qed.

(** Every host that an allowed entry stands for, a managed one stands for. *)
Lemma managed_covers url_host managed p h :
  Forall (known_entry url_host) managed -> existsb is_global_wildcard_domain_pattern managed = false ->
  known_entry url_host p ->
  existsb (fun m => allows (parse_for_constraints url_host m) (parse_for_constraints url_host p)) managed = true ->
  entry_denotes p h -> exists m, m ∈ managed /\ entry_denotes m h.
Proof.
  intros Hall Hglob [Hp Hpu] (m & Hm & Ha)%existsb_exists Hd. rewrite <- list_elem_of_In in Hm. exists m. split; [done|].
  rewrite Forall_forall in Hall. destruct (Hall m Hm) as [Hwf [->|Hurl]].
  { apply not_true_iff_false in Hglob. destruct Hglob. apply existsb_exists. exists (lit "*"). by rewrite <- list_elem_of_In. }
  assert (Hms : m <> lit "*").
  { intros ->. apply not_true_iff_false in Hglob. apply Hglob, existsb_exists. exists (lit "*").
    by rewrite <- list_elem_of_In. }
  right. destruct (constraints_meaning url_host m h Hwf Hms Hurl) as [_ <-].
  destruct (decide (p = lit "*")) as [->|Hps].
  - exfalso. change (parse_for_constraints url_host (lit "*")) with (Exact (lit "*")) in Ha.
    assert (Hstar : domain_wf (pattern_domain (Exact (lit "*")))) by (split; vm_compute; congruence).
    apply (proj1 (allows_inclusion _ _ Hstar)) with (host := lit "*") in Ha; [|reflexivity].
    apply (proj2 (constraints_meaning url_host m _ Hwf Hms Hurl)) in Ha.
    destruct (expand_entry m Hwf) as [[? _]|(nd & Hnd & _ & Hcase)]; [done|].
    assert (lit "*" <> nd) by (intros <-; by apply Forall_cons in Hnd as [? _]).
    assert (~ subdomain (lit "*") nd) by (intros Hs%subdomain_length; change (length (lit "*")) with 1 in Hs; lia).
    destruct Hcase as [[_ Hc]|[[_ Hc]|[_ Hc]]]; apply Hc in Ha; tauto.
  - destruct Hpu as [|Hpu]; [done|]. destruct (constraints_meaning url_host p h Hp Hps Hpu) as [Hdw Heq].
    apply (proj1 (allows_inclusion _ _ Hdw) Ha), Heq. by destruct Hd.
Qed.

(** ** A glob library *)

(** Matching of a pattern with [*] and [?]. *)
Fixpoint glob_match (p : str) : str -> bool :=
  match p with
  | [] => fun s => match s with [] => true | _ => false end
  | c :: p =>
      if (c =? 42)%N then
        fix star (s : str) := glob_match p s || match s with [] => false | _ :: s => star s end
      else if (c =? 63)%N then fun s => match s with [] => false | _ :: s => glob_match p s end
      else fun s => match s with [] => false | x :: s => (x =? c)%N && glob_match p s end
  end.

(** A library of globs with [*] and [?] only. *)
Definition simple_globs : GlobLib := {|
  Glob := str;
  GlobSet := list str;
  build_glob p := if existsb (fun c => bool_decide (c ∈ lit "[]{}\")) p then Err (lit "unsupported") else Ok (to_ascii_lowercase p);
  build_set gs := Ok gs;
  set_is_match gs h := existsb (fun g => glob_match g (to_ascii_lowercase h)) gs;
|}.

Lemma glob_match_literal p s : Forall (fun c => c <> 42%N /\ c <> 63%N) p -> glob_match p s = true <-> s = p.
Proof.
  intros H. revert s. induction H as [|c p [H1 H2] _ IH]; intros s; cbn [glob_match]; [by destruct s|].
  rewrite (proj2 (N.eqb_neq _ _) H1), (proj2 (N.eqb_neq _ _) H2). destruct s as [|x s]; [done|].
  rewrite andb_true_iff, N.eqb_eq, IH. naive_solver.
Qed.

Lemma glob_match_star p s : glob_match (42%N :: p) s = true <-> exists x y, s = x ++ y /\ glob_match p y = true.
Proof.
  cbn [glob_match N.eqb Pos.eqb]. induction s as [|c s IH].
  - rewrite orb_false_r. split; [by exists [], []|]. intros (x & y & Hxy & Hy).
    symmetry in Hxy. by apply app_eq_nil in Hxy as [-> ->].
  - rewrite orb_true_iff, IH. split.
    + intros [Hm|(x & y & -> & Hy)]; [by exists [], (c :: s)|by exists (c :: x), y].
    + intros ([|c' x] & y & Heq & Hy); [left; cbn in Heq; by subst|].
      injection Heq as -> ->. right. eauto.
Qed.

Lemma lower_meta_free d : meta_free d -> Forall (fun c => c <> 42%N /\ c <> 63%N) (to_ascii_lowercase d).
Proof.
  intros H. apply Forall_fmap. eapply Forall_impl; [done|]. intros c [_ Hc]. cbn.
  unfold to_ascii_lower_char, is_ascii_upper. destruct (N.leb_spec 65 c), (N.leb_spec c 90); cbn [andb]; [lia|..];
    (split; intros ->; apply Hc, list_elem_of_In; vm_compute; tauto).
Qed.

#[global] Program Instance simple_globs_laws : GlobLaws simple_globs := {|
  glob_matches := fun (g : Glob simple_globs) h => glob_match g (to_ascii_lowercase h) = true;
|}.
Next Obligation.
  intros gs set h [= <-]. cbn. rewrite existsb_exists. by setoid_rewrite <- list_elem_of_In.
Qed.
Next Obligation.
  intros g h [= <-]. change (to_ascii_lowercase (lit "*")) with [42%N]. apply glob_match_star.
  exists (to_ascii_lowercase h), []. by rewrite app_nil_r.
Qed.
Next Obligation.
  intros d g h Hd _. cbn. destruct (existsb _ d); [done|]. intros [= <-].
  apply glob_match_literal. by apply lower_meta_free.
Qed.
Next Obligation.
  intros d g h Hd _. cbn. destruct (existsb _ _); [done|]. intros [= <-].
  change (to_ascii_lowercase (lit "?*." ++ d)) with (63%N :: 42%N :: 46%N :: to_ascii_lowercase d).
  destruct (to_ascii_lowercase h) as [|c s].
  - split; [done|]. by intros ([|] & ? & ?).
  - change (glob_match (42%N :: 46%N :: to_ascii_lowercase d) s = true <->
      exists x, x <> [] /\ c :: s = x ++ DOT :: to_ascii_lowercase d).
    rewrite glob_match_star. split.
    + intros (x & y & -> & Hy%glob_match_literal); [|constructor; [done|by apply lower_meta_free]].
      exists (c :: x). by subst y.
    + intros ([|c' x] & Hx & Heq); [done|]. injection Heq as -> ->. exists x, (DOT :: to_ascii_lowercase d).
      split; [done|]. apply glob_match_literal; [|done]. constructor; [done|by apply lower_meta_free].
Qed.

(** Comparing a pattern with a managed one is exact: the managed pattern allows the other just when it
    stands for every host the other stands for, whatever the wildcards of the two. *)
Theorem pattern_inclusion_exact p q :
  domain_wf (pattern_domain q) -> allows p q = true <-> forall host, denotes q host -> denotes p host.
Proof. apply allows_inclusion. Qed.

Lemma pattern_inclusion_exact_witness :
  allows (SubdomainsOnly (lit "example.com")) (ApexAndSubdomains (lit "api.Example.com.")) = true /\
  forall host, denotes (ApexAndSubdomains (lit "api.Example.com.")) host -> denotes (SubdomainsOnly (lit "example.com")) host.
Proof.
  split; [vm_compute; reflexivity|].
  apply (pattern_inclusion_exact (SubdomainsOnly (lit "example.com")) (ApexAndSubdomains (lit "api.Example.com."))).
  - split; vm_compute; congruence.
  - vm_compute. reflexivity.
Defined.

End HostPatterns.
