(* ===== verification/NetworkConfig.v ===== *)
(** * Settings of the network proxy

    network-proxy/src/config.rs: the settings, the lists of domains and sockets they hold and how they are
    edited, and the addresses the proxy listens on.  The data of interception hooks (mitm_hook.rs) is here
    too, since the settings carry it.  The URL parser is a parameter.  Errors are the outermost message of
    the chain, without the quotes of the debug form. *)

From S2P Require Import Prelude Text AbsolutePath Permissions IpAddress HostPatterns.
Import AbsolutePath Permissions IpAddress HostPatterns.

Module NetworkConfig.

(** ** Data *)

(** [codex-rs/network-proxy/src/config.rs:24-32 NetworkDomainPermission] in the order of the variants. *)
Inductive NetworkDomainPermission := NoPermission | AllowDomain | DenyDomain.

(** [codex-rs/network-proxy/src/config.rs:34-38 NetworkDomainPermissionEntry] *)
Record NetworkDomainPermissionEntry := mkDomain { pattern : str; permission : NetworkDomainPermission }.

(** [codex-rs/network-proxy/src/config.rs:106-111 NetworkUnixSocketPermission] *)
Inductive NetworkUnixSocketPermission := AllowSocket | DenySocket.

(** [codex-rs/network-proxy/src/config.rs:274-285 NetworkMode] *)
Inductive NetworkMode := Limited | Full.

#[global] Instance NetworkDomainPermission_eq_dec : EqDecision NetworkDomainPermission.
Proof. solve_decision. Defined.
#[global] Instance NetworkDomainPermissionEntry_eq_dec : EqDecision NetworkDomainPermissionEntry.
Proof. solve_decision. Defined.
#[global] Instance NetworkUnixSocketPermission_eq_dec : EqDecision NetworkUnixSocketPermission.
Proof. solve_decision. Defined.
#[global] Instance NetworkMode_eq_dec : EqDecision NetworkMode.
Proof. solve_decision. Defined.

(** [codex-rs/network-proxy/src/mitm_hook.rs:52-59 InjectedHeaderConfig] *)
Record InjectedHeaderConfig := mkInjected {
  header_name : str; secret_env_var : option str; secret_file : option str; header_prefix : option str }.

(** [codex-rs/network-proxy/src/mitm_hook.rs:45-50 MitmHookActionsConfig] *)
Record MitmHookActionsConfig := mkActionsConfig {
  strip_request_headers_config : list str; inject_request_headers_config : list InjectedHeaderConfig }.

(** [codex-rs/network-proxy/src/mitm_hook.rs:35-43 MitmHookMatchConfig] the maps in the order of their
    keys; of the reserved body matcher, only whether it is given. *)
Record MitmHookMatchConfig := mkMatchConfig {
  methods_config : list str;
  path_prefixes_config : list str;
  query_config : list (str * list str);
  headers_config : list (str * list str);
  body_config : bool }.

(** [codex-rs/network-proxy/src/mitm_hook.rs:25-33 MitmHookConfig] *)
Record MitmHookConfig := mkHookConfig {
  hook_host : str; hook_matcher : MitmHookMatchConfig; hook_actions : MitmHookActionsConfig }.

#[global] Instance InjectedHeaderConfig_eq_dec : EqDecision InjectedHeaderConfig.
Proof. solve_decision. Defined.
#[global] Instance MitmHookActionsConfig_eq_dec : EqDecision MitmHookActionsConfig.
Proof. solve_decision. Defined.
#[global] Instance MitmHookMatchConfig_eq_dec : EqDecision MitmHookMatchConfig.
Proof. solve_decision. Defined.
#[global] Instance MitmHookConfig_eq_dec : EqDecision MitmHookConfig.
Proof. solve_decision. Defined.

(** [codex-rs/network-proxy/src/config.rs:119-146 NetworkProxySettings] the sockets in the order of their
    paths. *)
Record NetworkProxySettings := mkSettings {
  enabled : bool;
  proxy_url : str;
  enable_socks5 : bool;
  socks_url : str;
  enable_socks5_udp : bool;
  allow_upstream_proxy : bool;
  dangerously_allow_non_loopback_proxy : bool;
  dangerously_allow_all_unix_sockets : bool;
  mode : NetworkMode;
  domains : option (list NetworkDomainPermissionEntry);
  unix_sockets : option (list (str * NetworkUnixSocketPermission));
  allow_local_binding : bool;
  mitm : bool;
  mitm_hooks : list MitmHookConfig }.

#[global] Instance NetworkProxySettings_eq_dec : EqDecision NetworkProxySettings.
Proof. solve_decision. Defined.

Definition set_domains (self : NetworkProxySettings) ds : NetworkProxySettings :=
  let 'mkSettings a b c d e f g h m _ u l i k := self in mkSettings a b c d e f g h m ds u l i k.
Definition set_unix_sockets (self : NetworkProxySettings) us : NetworkProxySettings :=
  let 'mkSettings a b c d e f g h m ds _ l i k := self in mkSettings a b c d e f g h m ds us l i k.
Definition set_mode (self : NetworkProxySettings) m : NetworkProxySettings :=
  let 'mkSettings a b c d e f g h _ ds u l i k := self in mkSettings a b c d e f g h m ds u l i k.

(** [codex-rs/network-proxy/src/config.rs:149-166 NetworkProxySettings::default] *)
Definition default_settings : NetworkProxySettings :=
  mkSettings false (lit "http://127.0.0.1:3128") true (lit "http://127.0.0.1:8081") true true false false Full None
    None false false [].

(** ** Lists of domains *)

Definition permission_rank (p : NetworkDomainPermission) : nat :=
  match p with NoPermission => 0 | AllowDomain => 1 | DenyDomain => 2 end.

(** [codex-rs/network-proxy/src/config.rs:79-90 NetworkDomainPermissions::effective_entries] one entry. *)
Definition effective_step (acc : list str * gmap str NetworkDomainPermission) (entry : NetworkDomainPermissionEntry)
    : list str * gmap str NetworkDomainPermission :=
  let '(order, effective) := acc in
  match effective !! pattern entry with
  | None => (order ++ [pattern entry], <[pattern entry := permission entry]> effective)
  | Some p => (order, if permission_rank p <? permission_rank (permission entry)
                      then <[pattern entry := permission entry]> effective else effective)
  end.

(** [codex-rs/network-proxy/src/config.rs:92-102 NetworkDomainPermissions::effective_entries] the entries
    taken out of the map in order. *)
Fixpoint take_out (order : list str) (effective : gmap str NetworkDomainPermission) : list NetworkDomainPermissionEntry :=
  match order with
  | [] => []
  | p :: order =>
      match effective !! p with
      | Some perm => mkDomain p perm :: take_out order (delete p effective)
      | None => take_out order (delete p effective)
      end
  end.

(** [codex-rs/network-proxy/src/config.rs:75-103 NetworkDomainPermissions::effective_entries] *)
Definition effective_entries (entries : list NetworkDomainPermissionEntry) : list NetworkDomainPermissionEntry :=
  let '(order, effective) := foldl effective_step ([], ∅) entries in take_out order effective.

(** [codex-rs/network-proxy/src/config.rs:178-190 NetworkProxySettings::domain_entries] *)
Definition domain_entries (self : NetworkProxySettings) (perm : NetworkDomainPermission) : option (list str) :=
  ds ← domains self;
  let es := pattern <$> List.filter (fun e => bool_decide (permission e = perm)) (effective_entries ds) in
  if bool_decide (es = []) then None else Some es.

(** [codex-rs/network-proxy/src/config.rs:170-172 NetworkProxySettings::allowed_domains] *)
Definition allowed_domains (self : NetworkProxySettings) : option (list str) := domain_entries self AllowDomain.

(** [codex-rs/network-proxy/src/config.rs:174-176 NetworkProxySettings::denied_domains] *)
Definition denied_domains (self : NetworkProxySettings) : option (list str) := domain_entries self DenyDomain.

(** [codex-rs/network-proxy/src/config.rs:192-206 NetworkProxySettings::allow_unix_sockets] *)
Definition allow_unix_sockets (self : NetworkProxySettings) : list str :=
  match unix_sockets self with
  | Some us => fst <$> List.filter (fun kv => bool_decide (kv.2 = AllowSocket)) us
  | None => []
  end.

(** [(!entries.is_empty()).then_some(entries)]. *)
Definition non_empty {A} (l : list A) : option (list A) := match l with [] => None | _ => Some l end.

(** [codex-rs/network-proxy/src/config.rs:238-256 NetworkProxySettings::set_domain_entries] *)
Definition set_domain_entries (self : NetworkProxySettings) (entries : list str) (perm : NetworkDomainPermission)
    : NetworkProxySettings :=
  let ds := default [] (domains self) in
  let ds := List.filter (fun e => negb (bool_decide (permission e = perm))) ds in
  let push ds entry := if bool_decide (mkDomain entry perm ∈ ds) then ds else ds ++ [mkDomain entry perm] in
  set_domains self (non_empty (foldl push ds entries)).

(** [codex-rs/network-proxy/src/config.rs:208-210 NetworkProxySettings::set_allowed_domains] *)
Definition set_allowed_domains (self : NetworkProxySettings) (allowed : list str) : NetworkProxySettings :=
  set_domain_entries self allowed AllowDomain.

(** [codex-rs/network-proxy/src/config.rs:212-214 NetworkProxySettings::set_denied_domains] *)
Definition set_denied_domains (self : NetworkProxySettings) (denied : list str) : NetworkProxySettings :=
  set_domain_entries self denied DenyDomain.

(** [codex-rs/network-proxy/src/config.rs:216-232 NetworkProxySettings::upsert_domain_permission] *)
Definition upsert_domain_permission (self : NetworkProxySettings) (host : str) (perm : NetworkDomainPermission)
    (normalize : str -> str) : NetworkProxySettings :=
  let ds := default [] (domains self) in
  let normalized_host := normalize host in
  let ds := List.filter (fun e => negb (bool_decide (normalize (pattern e) = normalized_host))) ds in
  set_domains self (non_empty (ds ++ [mkDomain host perm])).

(** [BTreeMap::insert] into the entries in the order of their keys. *)
Fixpoint btree_insert {V} (k : str) (v : V) (m : list (str * V)) : list (str * V) :=
  match m with
  | [] => [(k, v)]
  | (k', v') :: m' =>
      if bool_decide (k = k') then (k, v) :: m'
      else if str_leb k k' then (k, v) :: m else (k', v') :: btree_insert k v m'
  end.

(** [codex-rs/network-proxy/src/config.rs:258-271 NetworkProxySettings::set_unix_socket_entries] *)
Definition set_unix_socket_entries (self : NetworkProxySettings) (entries : list str) (perm : NetworkUnixSocketPermission)
    : NetworkProxySettings :=
  let us := default [] (unix_sockets self) in
  let us := List.filter (fun kv => negb (bool_decide (kv.2 = perm))) us in
  set_unix_sockets self (non_empty (foldl (fun us entry => btree_insert entry perm us) us entries)).

(** [codex-rs/network-proxy/src/config.rs:234-236 NetworkProxySettings::set_allow_unix_sockets] *)
Definition set_allow_unix_sockets (self : NetworkProxySettings) (sockets : list str) : NetworkProxySettings :=
  set_unix_socket_entries self sockets AllowSocket.

(** [codex-rs/network-proxy/src/config.rs:288-293 NetworkMode::allows_method] *)
Definition allows_method (self : NetworkMode) (method : str) : bool :=
  match self with
  | Full => true
  | Limited => bool_decide (method ∈ [lit "GET"; lit "HEAD"; lit "OPTIONS"])
  end.

(** ** Listening addresses *)

(** [std::net::SocketAddr]. *)
Record SocketAddr := mkAddr { addr_ip : IpAddr; addr_port : N }.

(** [SocketAddr::from(([127, 0, 0, 1], port))]. *)
Definition loopback_addr (port : N) : SocketAddr := mkAddr (V4 (V4Octets 127 0 0 1)) port.

(** [codex-rs/network-proxy/src/config.rs:305-325 clamp_non_loopback] *)
Definition clamp_non_loopback (addr : SocketAddr) (allow_non_loopback : bool) : SocketAddr :=
  if is_loopback (addr_ip addr) then addr
  else if allow_non_loopback then addr
  else loopback_addr (addr_port addr).

(** [codex-rs/network-proxy/src/config.rs:327-366 clamp_bind_addrs] *)
Definition clamp_bind_addrs (http_addr socks_addr : SocketAddr) (cfg : NetworkProxySettings) : SocketAddr * SocketAddr :=
  let http_addr := clamp_non_loopback http_addr (dangerously_allow_non_loopback_proxy cfg) in
  let socks_addr := clamp_non_loopback socks_addr (dangerously_allow_non_loopback_proxy cfg) in
  if bool_decide (allow_unix_sockets cfg = []) && negb (dangerously_allow_all_unix_sockets cfg)
  then (http_addr, socks_addr)
  else (loopback_addr (addr_port http_addr), loopback_addr (addr_port socks_addr)).

(** [s.parse::<u16>()]. *)
Definition parse_u16 (s : str) : option N := n ← parse_u64 s; if (n <=? 65535)%N then Some n else None.

(** [codex-rs/network-proxy/src/config.rs:465-469 SocketAddressParts] *)
Record SocketAddressParts := mkParts { parts_host : str; parts_port : N }.

Definition missing_host (url : str) : str := lit "missing host in network proxy address: " ++ url.

(** [codex-rs/network-proxy/src/config.rs:508-557 parse_host_port_fallback] *)
Definition parse_host_port_fallback (input : str) (default_port : N) : result str SocketAddressParts :=
  let without_scheme := match split_once_str (lit "://") input with Some (_, rest) => rest | None => input end in
  let host_port := default without_scheme (head (split_char SLASH without_scheme)) in
  let host_port := match rsplit_once 64 host_port with Some (_, rest) => rest | None => host_port end in
  let bracket := match host_port with
                 | c :: rest => if (c =? 91)%N then split_once 93 rest else None
                 | [] => None
                 end in
  match bracket with
  | Some (host, rest) =>
      let port := default default_port (strip_prefix (lit ":") rest ≫= parse_u16) in
      if bool_decide (host = []) then Err (missing_host input) else Ok (mkParts host port)
  | None =>
      match (if bool_decide (length (List.filter (N.eqb 58) host_port) = 1) then rsplit_once 58 host_port else None) with
      | Some (host, port) =>
          if bool_decide (host = []) then Err (missing_host input)
          else Ok (mkParts host (default default_port (parse_u16 port)))
      | None =>
          if bool_decide (host_port = []) then Err (missing_host input) else Ok (mkParts host_port default_port)
      end
  end.

Section url_parser.
(** [Url::parse]: the host and the port of an URL. *)
Context (url_parse : str -> option (option str * option N)).

(** [codex-rs/network-proxy/src/config.rs:471-506 parse_host_port] *)
Definition parse_host_port (url : str) (default_port : N) : result str SocketAddressParts :=
  let trimmed := trim url in
  if bool_decide (trimmed = []) then Err (missing_host url)
  else if match parse_ip trimmed with Some (V6 _) => negb (starts_with (lit "[") trimmed) | _ => false end
  then Ok (mkParts trimmed default_port)
  else
    let candidate := if contains_sub (lit "://") trimmed then trimmed else lit "http://" ++ trimmed in
    match url_parse candidate with
    | Some (Some host, port) =>
        let bracket c := (c =? 91)%N || (c =? 93)%N in
        let host := trim_end_by bracket (trim_start_by bracket host) in
        if bool_decide (host = []) then Err (missing_host url)
        else Ok (mkParts host (default default_port port))
    | _ => parse_host_port_fallback trimmed default_port
    end.

(** [codex-rs/network-proxy/src/config.rs:428-439 resolve_addr] *)
Definition resolve_addr (url : str) (default_port : N) : result str SocketAddr :=
  addr_parts ← parse_host_port url default_port;
  let host := if bool_decide (to_ascii_lowercase (parts_host addr_parts) = lit "localhost")
              then lit "127.0.0.1" else parts_host addr_parts in
  Ok (match parse_ip host with
      | Some ip => mkAddr ip (parts_port addr_parts)
      | None => loopback_addr (parts_port addr_parts)
      end).

(** [codex-rs/network-proxy/src/config.rs:457-463 format_host_and_port] *)
Definition format_host_and_port (host : str) (port : N) : str :=
  if contains_char 58 host then lit "[" ++ host ++ lit "]:" ++ show_N port else host ++ lit ":" ++ show_N port.

(** [codex-rs/network-proxy/src/config.rs:441-455 host_and_port_from_network_addr] *)
Definition host_and_port_from_network_addr (value : str) (default_port : N) : str :=
  let trimmed := trim value in
  if bool_decide (trimmed = []) then lit "<missing>"
  else match parse_host_port trimmed default_port with
       | Ok parts => format_host_and_port (parts_host parts) (parts_port parts)
       | Err _ => format_host_and_port trimmed default_port
       end.

Section sockets.
Context (os : Os).

(** [codex-rs/network-proxy/src/config.rs:389-402 ValidatedUnixSocketPath::parse] on Unix, where every
    path that is accepted is native. *)
Definition parse_socket_path (socket_path : str) : result str str :=
  if is_absolute socket_path then
    ok_or (abs_path os socket_path) (lit "failed to normalize unix socket path " ++ socket_path)
  else Err (lit "expected an absolute path, got " ++ socket_path).

(** [codex-rs/network-proxy/src/config.rs:405-411 validate_unix_socket_allowlist_paths] *)
Definition validate_unix_socket_allowlist_paths (cfg : NetworkProxySettings) : result str unit :=
  try_fold (fun (_ : unit) '(i, socket_path) =>
    _ ← map_err (fun _ => lit "invalid network.allow_unix_sockets[" ++ show_nat i ++ lit "]") (parse_socket_path socket_path);
    Ok tt) (zip (seq 0 (length (allow_unix_sockets cfg))) (allow_unix_sockets cfg)) tt.

(** [codex-rs/network-proxy/src/config.rs:413-426 resolve_runtime] the addresses for HTTP and SOCKS. *)
Definition resolve_runtime (cfg : NetworkProxySettings) : result str (SocketAddr * SocketAddr) :=
  _ ← validate_unix_socket_allowlist_paths cfg;
  http_addr ← map_err (fun _ => lit "invalid network.proxy_url: " ++ proxy_url cfg) (resolve_addr (proxy_url cfg) 3128);
  socks_addr ← map_err (fun _ => lit "invalid network.socks_url: " ++ socks_url cfg) (resolve_addr (socks_url cfg) 8081);
  Ok (clamp_bind_addrs http_addr socks_addr cfg).

End sockets.
End url_parser.

(** ** The strictest permission of a pattern counts *)

(** The map holds the strictest permission of each pattern seen, and the order lists the patterns once. *)
Definition effective_inv (es : list NetworkDomainPermissionEntry) (acc : list str * gmap str NetworkDomainPermission) : Prop :=
  NoDup acc.1 /\ (forall p, p ∈ acc.1 <-> is_Some (acc.2 !! p)) /\
  forall p q, acc.2 !! p = Some q <->
    mkDomain p q ∈ es /\ forall q', mkDomain p q' ∈ es -> permission_rank q' <= permission_rank q.

Lemma permission_rank_inj p q : permission_rank p = permission_rank q -> p = q.
Proof. by destruct p, q. Qed.

Lemma effective_step_inv es acc e : effective_inv es acc -> effective_inv (es ++ [e]) (effective_step acc e).
Proof.
  destruct acc as [order m], e as [p0 q0]. intros (Hnd & Hdom & Hm). cbn [fst snd] in *. unfold effective_step.
  cbn [pattern permission].
  assert (Hin : forall p q, mkDomain p q ∈ es ++ [mkDomain p0 q0] <-> mkDomain p q ∈ es \/ (p = p0 /\ q = q0)).
  { intros p q. rewrite elem_of_app, list_elem_of_singleton. naive_solver. }
  destruct (m !! p0) as [r|] eqn:E.
  - pose proof (proj1 (Hm p0 r) E) as [Hr Hmax].
    destruct (Nat.ltb_spec (permission_rank r) (permission_rank q0)) as [Hlt|Hge].
    + split; [done|]. split.
      * intros p. rewrite Hdom. cbn [fst snd]. destruct (decide (p = p0)) as [->|]; [|by rewrite lookup_insert_ne].
        rewrite lookup_insert_eq. by rewrite E.
      * intros p q. cbn [fst snd]. destruct (decide (p = p0)) as [->|Hne].
        -- rewrite lookup_insert_eq. setoid_rewrite Hin. split.
           ++ intros [= <-]. split; [by right|]. intros q' [Hq'%Hmax|[_ ->]]; lia.
           ++ intros [[Hq|[_ ->]] Hall]; [|done]. apply Hmax in Hq. specialize (Hall q0 (or_intror (conj eq_refl eq_refl))). lia.
        -- rewrite lookup_insert_ne, Hm by done. setoid_rewrite Hin. naive_solver.
    + split; [done|]. split; [done|]. intros p q. cbn [fst snd]. rewrite Hm. setoid_rewrite Hin. split.
      * intros [Hq Hall]. split; [by left|]. intros q' [|[-> ->]]; [by apply Hall|].
        specialize (Hall r Hr). lia.
      * intros [[Hq|[-> ->]] Hall]; [naive_solver|]. assert (r = q0) as ->; [|naive_solver].
        apply permission_rank_inj. specialize (Hall r (or_introl Hr)). lia.
  - assert (Hno : forall q, mkDomain p0 q ∉ es).
    { intros q Hq. assert (Hex : exists q, mkDomain p0 q ∈ es /\ forall q', mkDomain p0 q' ∈ es -> permission_rank q' <= permission_rank q).
      { clear -Hq. destruct (decide (mkDomain p0 DenyDomain ∈ es)); [exists DenyDomain; split; [done|]; intros []; cbn; lia|].
        destruct (decide (mkDomain p0 AllowDomain ∈ es)); [exists AllowDomain; split; [done|]; intros [] ?; cbn; try done; lia|].
        exists NoPermission. split; [by destruct q|]. intros [] ?; cbn; done || lia. }
      destruct Hex as (q' & Hq'). apply Hm in Hq'. congruence. }
    split; [apply NoDup_app; split_and!; [done| |apply NoDup_singleton]; intros p Hp%Hdom ->%list_elem_of_singleton;
            rewrite E in Hp; by destruct Hp|].
    split.
    + intros p. cbn [fst snd]. rewrite elem_of_app, list_elem_of_singleton, Hdom.
      destruct (decide (p = p0)) as [->|]; [rewrite lookup_insert_eq|rewrite lookup_insert_ne by done]; naive_solver.
    + intros p q. cbn [fst snd]. setoid_rewrite Hin. destruct (decide (p = p0)) as [->|].
      * rewrite lookup_insert_eq. split; [|naive_solver]. intros [= <-]. split; [by right|]. naive_solver.
      * rewrite lookup_insert_ne, Hm by done. naive_solver.
Qed.

Lemma take_out_elem order m e :
  NoDup order -> e ∈ take_out order m <-> pattern e ∈ order /\ m !! pattern e = Some (permission e).
Proof.
  intros Hnd. revert m. induction Hnd as [|p order Hp _ IH]; intros m; cbn [take_out]; [set_solver|].
  assert (Hd : e ∈ take_out order (delete p m) <-> pattern e ∈ order /\ m !! pattern e = Some (permission e)).
  { rewrite IH. destruct (decide (pattern e = p)) as [->|]; [naive_solver|]. by rewrite lookup_delete_ne. }
  destruct (m !! p) as [perm|] eqn:E; rewrite !elem_of_cons, Hd.
  - split; [intros [->|[? ?]]; cbn; naive_solver|].
    intros [[Hp'|?] Hq]; [|by right]. left. destruct e. cbn in *. congruence.
  - split; [naive_solver|]. intros [[Hp'|?] ?]; [congruence|done].
Qed.

(** An entry is effective when it is the strictest for its pattern. *)
Lemma effective_entries_spec es e :
  e ∈ effective_entries es <->
  e ∈ es /\ forall q, mkDomain (pattern e) q ∈ es -> permission_rank q <= permission_rank (permission e).
Proof.
  assert (H : effective_inv es (foldl effective_step ([], ∅) es)).
  { induction es as [|e' es IH] using rev_ind; [|rewrite foldl_app; by apply effective_step_inv].
    split; [constructor|]. cbn. split; [|intros p q; rewrite lookup_empty; set_solver].
    intros p. rewrite lookup_empty. split; [set_solver|by intros []]. }
  unfold effective_entries. destruct (foldl effective_step ([], ∅) es) as [order m]. destruct H as (Hnd & Hdom & Hm).
  cbn in *. rewrite (take_out_elem _ _ _ Hnd), Hdom, Hm. destruct e as [p q]. cbn. split; [naive_solver|].
  intros [H1 H2]. split; [|done]. exists q. by apply Hm.
Qed.

Lemma domain_entries_elem self perm p :
  p ∈ default [] (domain_entries self perm) <-> mkDomain p perm ∈ effective_entries (default [] (domains self)).
Proof.
  unfold domain_entries. destruct (domains self) as [ds|]; cbn; [|set_solver].
  set (es := pattern <$> _). assert (Hes : p ∈ es <-> mkDomain p perm ∈ effective_entries ds).
  { unfold es. rewrite list_elem_of_fmap. setoid_rewrite list_elem_of_In at 1. setoid_rewrite filter_In.
    setoid_rewrite bool_decide_eq_true. setoid_rewrite <- list_elem_of_In. split.
    - intros ([p' q'] & -> & Hin & <-). done.
    - intros Hin. exists (mkDomain p perm). by cbn. }
  rewrite <- Hes. case_bool_decide as E; [by rewrite E|done].
Qed.

(** No pattern is both allowed and denied. *)
Lemma allowed_denied_disjoint self p :
  p ∈ default [] (allowed_domains self) -> p ∉ default [] (denied_domains self).
Proof.
  unfold allowed_domains, denied_domains. rewrite !domain_entries_elem, !effective_entries_spec. cbn.
  intros [_ Ha] [Hd _]. specialize (Ha _ Hd). cbn in Ha. lia.
Qed.

(** Setting the permission of a host: it has that permission, no other entry that normalises to the host
    is left, and the other entries are as they were. *)
Lemma upsert_spec self host perm normalize p q :
  mkDomain p q ∈ effective_entries (default [] (domains (upsert_domain_permission self host perm normalize))) <->
  (p = host /\ q = perm) \/
  (normalize p <> normalize host /\ mkDomain p q ∈ effective_entries (default [] (domains self))).
Proof.
  unfold upsert_domain_permission. set (kept := List.filter _ _).
  assert (Hds : default [] (domains (set_domains self (non_empty (kept ++ [mkDomain host perm])))) = kept ++ [mkDomain host perm]).
  { clearbody kept. destruct self. by destruct kept. }
  rewrite Hds, !effective_entries_spec. cbn [pattern permission].
  assert (Hin : forall p q, mkDomain p q ∈ kept ++ [mkDomain host perm] <->
    (normalize p <> normalize host /\ mkDomain p q ∈ default [] (domains self)) \/ (p = host /\ q = perm)).
  { intros p' q'. unfold kept. rewrite elem_of_app, list_elem_of_singleton, list_elem_of_In, filter_In, <- list_elem_of_In.
    cbn. rewrite negb_true_iff, bool_decide_eq_false. naive_solver. }
  setoid_rewrite Hin. split.
  - intros [[[Hn Hp]|[-> ->]] Hall]; [right|by left]. split; [done|]. split; [done|]. naive_solver.
  - intros [[-> ->]|(Hn & Hp & Hall)].
    + split; [by right|]. intros q' [[? _]|[_ ->]]; [done|lia].
    + split; [by left|]. intros q' [[_ ?]|[-> _]]; [by apply Hall|done].
Qed.

Lemma clamp_loopback addr : is_loopback (addr_ip (clamp_non_loopback addr false)) = true.
Proof. unfold clamp_non_loopback. by destruct (is_loopback (addr_ip addr)) eqn:E. Qed.

(** The proxy listens on the machine itself: the addresses it binds are loopback addresses unless the
    user asked for others, and also then when it forwards to sockets of the machine. *)
Theorem proxy_listens_locally url_parse os cfg http_addr socks_addr :
  resolve_runtime url_parse os cfg = Ok (http_addr, socks_addr) ->
  dangerously_allow_non_loopback_proxy cfg = false \/ allow_unix_sockets cfg <> [] \/
    dangerously_allow_all_unix_sockets cfg = true ->
  is_loopback (addr_ip http_addr) = true /\ is_loopback (addr_ip socks_addr) = true.
Proof.
  unfold resolve_runtime. intros H Hcfg. apply result_bind_ok in H as (_ & _ & H).
  apply result_bind_ok in H as (h & _ & H). apply result_bind_ok in H as (s & _ & H). injection H as H. revert H.
  unfold clamp_bind_addrs. case_bool_decide as Hs; [destruct (dangerously_allow_all_unix_sockets cfg)|]; cbn [negb andb].
  - by intros [= <- <-].
  - intros [= <- <-]. destruct Hcfg as [->|[?|?]]; [|done..]. split; apply clamp_loopback.
  - by intros [= <- <-].
Qed.

(** A host without files. *)
Definition bare_host : Os :=
  {| home_dir := None; current_dir := None; tmpdir := None; is_dir := fun _ => false; is_file := fun _ => false;
     path_exists := fun _ => false; read_to_string := fun _ => None; symlink_metadata := fun _ => None;
     canonicalize := fun _ => None |}.

Lemma proxy_listens_locally_witness :
  exists http_addr socks_addr,
    resolve_runtime (fun _ => Some (Some (lit "0.0.0.0"), Some 80%N)) bare_host default_settings = Ok (http_addr, socks_addr) /\
    is_loopback (addr_ip http_addr) = true /\ is_loopback (addr_ip socks_addr) = true.
Proof.
  eexists _, _. split; [vm_compute; reflexivity|].
  apply (proxy_listens_locally (fun _ => Some (Some (lit "0.0.0.0"), Some 80%N)) bare_host default_settings);
    [vm_compute; reflexivity|left; reflexivity].
Defined.

End NetworkConfig.
