(* ===== verification/MitmHooks.v ===== *)
(** * Interception hooks of the network proxy

    network-proxy/src/mitm_hook.rs: validating the hooks of a configuration, compiling them with their
    secrets, and choosing the hook of a request.  The glob matchers, the header types of the HTTP library,
    the parser of query strings, the environment and the secret files are parameters. *)

From S2P Require Import Prelude Text AbsolutePath Permissions HostPatterns NetworkConfig.
Import AbsolutePath Permissions HostPatterns NetworkConfig.

Module MitmHooks.

(** ** Compiled hooks *)

(** [codex-rs/network-proxy/src/mitm_hook.rs:134-138 CompiledGlobMatcher] *)
Record CompiledGlobMatcher := mkGlob { glob_pattern : str; glob_matcher : str -> bool }.

(** [codex-rs/network-proxy/src/mitm_hook.rs:117-121 PathMatcher] *)
Inductive PathMatcher := PathPrefix (prefix : str) | PathGlob (glob : CompiledGlobMatcher).

(** [codex-rs/network-proxy/src/mitm_hook.rs:123-127 ValueMatcher] *)
Inductive ValueMatcher := ValueExact (value : str) | ValueGlob (glob : CompiledGlobMatcher).

(** [codex-rs/network-proxy/src/mitm_hook.rs:129-132 MatcherPattern] *)
Inductive MatcherPattern := LiteralPattern (text : str) | GlobbedPattern (text : str).

(** [codex-rs/network-proxy/src/mitm_hook.rs:81-85 QueryConstraint] *)
Record QueryConstraint := mkQuery { query_name : str; query_values : list ValueMatcher }.

(** [codex-rs/network-proxy/src/mitm_hook.rs:87-91 HeaderConstraint] *)
Record HeaderConstraint := mkHeader { constrained_header : str; header_values : list ValueMatcher }.

(** [codex-rs/network-proxy/src/mitm_hook.rs:106-110 SecretSource] *)
Inductive SecretSource := EnvVar (name : str) | SecretFile (path : str).

(** [codex-rs/network-proxy/src/mitm_hook.rs:99-104 ResolvedInjectedHeader] *)
Record ResolvedInjectedHeader := mkResolved { injected_name : str; injected_value : str; injected_source : SecretSource }.

(** [codex-rs/network-proxy/src/mitm_hook.rs:93-97 MitmHookActions] *)
Record MitmHookActions := mkActions {
  strip_request_headers : list str; inject_request_headers : list ResolvedInjectedHeader }.

(** [codex-rs/network-proxy/src/mitm_hook.rs:72-79 MitmHookMatcher] the body matcher is always absent. *)
Record MitmHookMatcher := mkMatcher {
  methods : list str; path_prefixes : list PathMatcher; query : list QueryConstraint; headers : list HeaderConstraint }.

(** [codex-rs/network-proxy/src/mitm_hook.rs:65-70 MitmHook] *)
Record MitmHook := mkHook { host : str; matcher : MitmHookMatcher; actions : MitmHookActions }.

(** [codex-rs/network-proxy/src/mitm_hook.rs:164-169 HookEvaluation] *)
Inductive HookEvaluation := NoHooksForHost | Matched (actions : MitmHookActions) | HookedHostNoMatch.

(** What the matching reads of a request; a header value that is not a text is [None]. *)
Record Request := mkRequest {
  req_method : str; req_path : str; req_query : option str; req_headers : list (str * option str) }.

Definition to_ascii_uppercase (s : str) : str := map (fun c => if is_ascii_lower c then (c - 32)%N else c) s.

(** ** Parsing the patterns *)

(** [codex-rs/network-proxy/src/mitm_hook.rs:508-519 parse_matcher_pattern] *)
Definition parse_matcher_pattern (pattern : str) : result str MatcherPattern :=
  match strip_prefix (lit "literal:") pattern with
  | Some literal => Ok (LiteralPattern literal)
  | None =>
      match strip_prefix (lit "pattern:") pattern with
      | None => Ok (LiteralPattern pattern)
      | Some glob_pattern =>
          if bool_decide (glob_pattern = []) then Err (lit "glob pattern must not be empty")
          else Ok (GlobbedPattern glob_pattern)
      end
  end.

(** [codex-rs/network-proxy/src/mitm_hook.rs:535-546 normalize_hook_host] *)
Definition normalize_hook_host (host : str) : result str str :=
  let normalized := normalize_host host in
  if bool_decide (normalized = []) then Err (lit "host must not be empty")
  else if contains_char 42 normalized
  then Err (lit "MITM hook hosts must be exact hosts and cannot contain wildcards")
  else Ok normalized.

(** [codex-rs/network-proxy/src/mitm_hook.rs:548-559 normalize_methods] *)
Definition normalize_methods (methods : list str) : result str (list str) :=
  try_map (fun method =>
    let normalized := to_ascii_uppercase (trim method) in
    if bool_decide (normalized = []) then Err (lit "methods must not contain empty entries") else Ok normalized) methods.

(** [codex-rs/network-proxy/src/mitm_hook.rs:578-583 normalize_query_name] *)
Definition normalize_query_name (name : str) : result str str :=
  if bool_decide (name = []) then Err (lit "query keys must not be empty") else Ok name.

Section libraries.
Context (build_matcher : str -> bool -> result str (str -> bool)).
Context (parse_name parse_value : str -> option str).
Context (form_urlencoded_parse : str -> list (str * str)).
Context (os : Os).

(** [codex-rs/network-proxy/src/mitm_hook.rs:521-533 compile_glob_matcher] *)
Definition compile_glob_matcher (pattern : str) (literal_separator : bool) : result str CompiledGlobMatcher :=
  matcher ← map_err (fun err => lit "invalid glob pattern " ++ pattern ++ lit ": " ++ err)
              (build_matcher pattern literal_separator);
  Ok (mkGlob pattern matcher).

(** [codex-rs/network-proxy/src/mitm_hook.rs:475-493 compile_path_matchers] *)
Definition compile_path_matchers (prefixes : list str) : result str (list PathMatcher) :=
  try_map (fun prefix =>
    parsed ← parse_matcher_pattern prefix;
    match parsed with
    | LiteralPattern prefix =>
        if bool_decide (prefix = []) then Err (lit "path_prefixes must not contain empty entries")
        else Ok (PathPrefix prefix)
    | GlobbedPattern pattern => glob ← compile_glob_matcher pattern true; Ok (PathGlob glob)
    end) prefixes.

(** [codex-rs/network-proxy/src/mitm_hook.rs:495-506 compile_value_matchers] *)
Definition compile_value_matchers (values : list str) : result str (list ValueMatcher) :=
  try_map (fun value =>
    parsed ← parse_matcher_pattern value;
    match parsed with
    | LiteralPattern value => Ok (ValueExact value)
    | GlobbedPattern pattern => glob ← compile_glob_matcher pattern false; Ok (ValueGlob glob)
    end) values.

(** [codex-rs/network-proxy/src/mitm_hook.rs:626-629 parse_header_name] *)
Definition parse_header_name (name : str) : result str str :=
  ok_or (parse_name name) (lit "invalid header name " ++ name).

(** [codex-rs/network-proxy/src/mitm_hook.rs:631-641 parse_secret_file] *)
Definition parse_secret_file (path : str) : result str str :=
  if bool_decide (trim path = []) then Err (lit "secret_file must not be empty")
  else if negb (is_absolute path) then Err (lit "secret_file must be an absolute path: " ++ path)
  else ok_or (abs_path os path) (lit "secret_file must be an absolute path: " ++ path).

(** ** Validation *)

(** [codex-rs/network-proxy/src/mitm_hook.rs:561-576 validate_query_constraints] *)
Definition validate_query_constraints (query : list (str * list str)) : result str unit :=
  try_fold (fun (_ : unit) '(name, values) =>
    normalized ← normalize_query_name name;
    if bool_decide (normalized = []) then Err (lit "query keys must not be empty")
    else if bool_decide (values = []) then Err (lit "query key " ++ name ++ lit " must list at least one allowed value")
    else _ ← map_err (fun _ => lit "invalid matcher for query key " ++ name) (compile_value_matchers values); Ok tt)
    query tt.

(** [codex-rs/network-proxy/src/mitm_hook.rs:585-592 validate_header_constraints] *)
Definition validate_header_constraints (headers : list (str * list str)) : result str unit :=
  try_fold (fun (_ : unit) '(name, values) =>
    _ ← parse_header_name name;
    _ ← map_err (fun _ => lit "invalid matcher for header " ++ name) (compile_value_matchers values); Ok tt)
    headers tt.

(** [codex-rs/network-proxy/src/mitm_hook.rs:594-599 validate_strip_request_headers] *)
Definition validate_strip_request_headers (header_names : list str) : result str unit :=
  try_fold (fun (_ : unit) name => _ ← parse_header_name name; Ok tt) header_names tt.

Definition expected_one_secret : str := lit "expected exactly one of secret_env_var or secret_file".

(** [codex-rs/network-proxy/src/mitm_hook.rs:601-624 validate_injected_headers] *)
Definition validate_injected_headers (headers : list InjectedHeaderConfig) : result str unit :=
  try_fold (fun (_ : unit) header =>
    _ ← parse_header_name (header_name header);
    match secret_env_var header, secret_file header with
    | Some var, None =>
        if bool_decide (trim var = []) then Err (lit "secret_env_var must not be empty") else Ok tt
    | None, Some file => _ ← parse_secret_file file; Ok tt
    | _, _ => Err expected_one_secret
    end) headers tt.

(** The message of a field of a hook. *)
Definition in_hook (hook_index : nat) (what field : str) : str :=
  what ++ lit "network.mitm_hooks[" ++ show_nat hook_index ++ lit "]" ++ field.

(** [codex-rs/network-proxy/src/mitm_hook.rs:181-226 validate_mitm_hook_config] one hook. *)
Definition validate_hook (hook_index : nat) (hook : MitmHookConfig) : result str unit :=
  let invalid field := fun _ : str => in_hook hook_index (lit "invalid ") field in
  let m := hook_matcher hook in
  host ← map_err (invalid (lit ".host")) (normalize_hook_host (hook_host hook));
  methods ← map_err (invalid (lit ".match.methods")) (normalize_methods (methods_config m));
  if bool_decide (methods = []) then Err (in_hook hook_index [] (lit ".match.methods must not be empty"))
  else
    path_prefixes ← map_err (invalid (lit ".match.path_prefixes")) (compile_path_matchers (path_prefixes_config m));
    if bool_decide (length path_prefixes = 0) then Err (in_hook hook_index [] (lit ".match.path_prefixes must not be empty"))
    else if body_config m
    then Err (in_hook hook_index [] (lit ".match.body is reserved for a future release and is not yet supported"))
    else
      _ ← map_err (invalid (lit ".match.query")) (validate_query_constraints (query_config m));
      _ ← map_err (invalid (lit ".match.headers")) (validate_header_constraints (headers_config m));
      _ ← map_err (invalid (lit ".actions.strip_request_headers"))
            (validate_strip_request_headers (strip_request_headers_config (hook_actions hook)));
      _ ← map_err (invalid (lit ".actions.inject_request_headers"))
            (validate_injected_headers (inject_request_headers_config (hook_actions hook)));
      if bool_decide (host = []) then Err (in_hook hook_index [] (lit ".host must not be empty")) else Ok tt.

(** [codex-rs/network-proxy/src/mitm_hook.rs:171-229 validate_mitm_hook_config] *)
Definition validate_mitm_hook_config (config : NetworkProxySettings) : result str unit :=
  let hooks := mitm_hooks config in
  if bool_decide (hooks = []) then Ok tt
  else if negb (mitm config) then Err (lit "network.mitm_hooks requires network.mitm = true")
  else try_fold (fun (_ : unit) '(hook_index, hook) => validate_hook hook_index hook)
         (zip (seq 0 (length hooks)) hooks) tt.

(** ** Compilation *)

Section secrets.
(** [env::var] and [fs::read_to_string] with its trimming. *)
Context (resolve_env_var : str -> option str) (read_secret_file : str -> result str str).

(** [codex-rs/network-proxy/src/mitm_hook.rs:341-381 compile_injected_header] *)
Definition compile_injected_header (header : InjectedHeaderConfig) : result str ResolvedInjectedHeader :=
  name ← parse_header_name (header_name header);
  '(secret, source) ←
    match secret_env_var header, secret_file header with
    | Some env_var, None =>
        value ← ok_or (resolve_env_var env_var) (lit "missing required environment variable " ++ env_var);
        Ok (value, EnvVar env_var)
    | None, Some file =>
        path ← parse_secret_file file;
        value ← read_secret_file path;
        Ok (value, SecretFile path)
    | _, _ => Err expected_one_secret
    end;
  let prefix := default [] (header_prefix header) in
  value ← ok_or (parse_value (prefix ++ secret)) (lit "invalid value for injected header " ++ header_name header);
  Ok (mkResolved name value source).

(** [codex-rs/network-proxy/src/mitm_hook.rs:277-336 compile_mitm_hooks_with_resolvers] one hook. *)
Definition compile_hook (hook : MitmHookConfig) : result str MitmHook :=
  let m := hook_matcher hook in
  host ← normalize_hook_host (hook_host hook);
  methods ← normalize_methods (methods_config m);
  path_prefixes ← compile_path_matchers (path_prefixes_config m);
  query ← try_map (fun '(name, values) =>
            name ← normalize_query_name name; allowed ← compile_value_matchers values; Ok (mkQuery name allowed))
            (query_config m);
  headers ← try_map (fun '(name, values) =>
              name ← parse_header_name name; allowed ← compile_value_matchers values; Ok (mkHeader name allowed))
              (headers_config m);
  strip ← try_map parse_header_name (strip_request_headers_config (hook_actions hook));
  inject ← try_map (fun header =>
             map_err (fun _ => lit "failed to compile injected header " ++ header_name header) (compile_injected_header header))
             (inject_request_headers_config (hook_actions hook));
  Ok (mkHook host (mkMatcher methods path_prefixes query headers) (mkActions strip inject)).

(** [codex-rs/network-proxy/src/mitm_hook.rs:265-339 compile_mitm_hooks_with_resolvers] *)
Definition compile_mitm_hooks (config : NetworkProxySettings) : result str (gmap str (list MitmHook)) :=
  _ ← validate_mitm_hook_config config;
  try_fold (fun hooks_by_host hook =>
    compiled ← compile_hook hook;
    Ok (<[host compiled := default [] (hooks_by_host !! host compiled) ++ [compiled]]> hooks_by_host))
    (mitm_hooks config) ∅.

End secrets.

(** ** Choosing a hook *)

(** [codex-rs/network-proxy/src/mitm_hook.rs:458-463 PathMatcher::matches] *)
Definition path_matcher_matches (self : PathMatcher) (candidate : str) : bool :=
  match self with PathPrefix prefix => starts_with prefix candidate | PathGlob glob => glob_matcher glob candidate end.

(** [codex-rs/network-proxy/src/mitm_hook.rs:467-472 ValueMatcher::matches] *)
Definition value_matcher_matches (self : ValueMatcher) (candidate : str) : bool :=
  match self with ValueExact value => bool_decide (value = candidate) | ValueGlob glob => glob_matcher glob candidate end.

(** [codex-rs/network-proxy/src/mitm_hook.rs:453-455 path_matches] *)
Definition path_matches (prefixes : list PathMatcher) (path : str) : bool :=
  existsb (fun matcher => path_matcher_matches matcher path) prefixes.

(** [codex-rs/network-proxy/src/mitm_hook.rs:406-430 query_matches] *)
Definition query_matches (constraints : list QueryConstraint) (req : Request) : bool :=
  if bool_decide (length constraints = 0) then true
  else
    let actual_values : gmap str (list str) :=
      foldl (fun m '(name, value) => <[name := default [] (m !! name) ++ [value]]> m) ∅
        (form_urlencoded_parse (default [] (req_query req))) in
    forallb (fun constraint =>
      match actual_values !! query_name constraint with
      | Some actual =>
          existsb (fun candidate => existsb (fun allowed => value_matcher_matches allowed candidate) (query_values constraint)) actual
      | None => false
      end) constraints.

(** [codex-rs/network-proxy/src/mitm_hook.rs:432-451 headers_match] header names are compared in the
    lower case the library stores. *)
Definition headers_match (constraints : list HeaderConstraint) (req : Request) : bool :=
  forallb (fun constraint =>
    let actual := snd <$> List.filter (fun kv => bool_decide (kv.1 = constrained_header constraint)) (req_headers req) in
    if bool_decide (length actual = 0) then false
    else if bool_decide (length (header_values constraint) = 0) then true
    else existsb (fun value =>
           match value with
           | Some candidate => existsb (fun allowed => value_matcher_matches allowed candidate) (header_values constraint)
           | None => false
           end) actual) constraints.

(** [codex-rs/network-proxy/src/mitm_hook.rs:383-404 hook_matches] *)
Definition hook_matches (hook : MitmHook) (req : Request) : bool :=
  let method := to_ascii_uppercase (req_method req) in
  if negb (existsb (fun allowed => bool_decide (allowed = method)) (methods (matcher hook))) then false
  else if negb (path_matches (path_prefixes (matcher hook)) (req_path req)) then false
  else if negb (query_matches (query (matcher hook)) req) then false
  else headers_match (headers (matcher hook)) req.

(** [codex-rs/network-proxy/src/mitm_hook.rs:244-263 evaluate_mitm_hooks] *)
Definition evaluate_mitm_hooks (hooks_by_host : gmap str (list MitmHook)) (host : str) (req : Request) : HookEvaluation :=
  match hooks_by_host !! normalize_host host with
  | None => NoHooksForHost
  | Some hooks =>
      match List.find (fun hook => hook_matches hook req) hooks with
      | Some hook => Matched (actions hook)
      | None => HookedHostNoMatch
      end
  end.

(** ** Theorems *)

(** A hook that is validated compiles when its secrets are found. *)
Lemma validated_hook_compiles env read i hook :
  validate_hook i hook = Ok tt ->
  Forall (fun header => exists r, compile_injected_header env read header = Ok r) (inject_request_headers_config (hook_actions hook)) ->
  exists compiled, compile_hook env read hook = Ok compiled /\ normalize_host (hook_host hook) = host compiled.
Proof.
  unfold validate_hook, compile_hook. intros H Hsec.
  apply result_bind_ok in H as (h & Hh%map_err_ok & H).
  apply result_bind_ok in H as (ms & Hms%map_err_ok & H). case_bool_decide; [done|].
  apply result_bind_ok in H as (ps & Hps%map_err_ok & H). case_bool_decide; [done|].
  destruct (body_config (hook_matcher hook)); [done|].
  apply result_bind_ok in H as ([] & Hq%map_err_ok & H).
  apply result_bind_ok in H as ([] & Hhd%map_err_ok & H).
  apply result_bind_ok in H as ([] & Hst%map_err_ok & _).
  apply try_fold_unit in Hq, Hhd, Hst. rewrite Hh, Hms, Hps. cbn [mbind result_bind].
  edestruct (try_map_total (fun '(name, values) => name ← normalize_query_name name; allowed ← compile_value_matchers values; Ok (mkQuery name allowed)))
    as [qs ->].
  { eapply Forall_impl; [exact Hq|]. intros [name values]. cbn. intros Hx.
    apply result_bind_ok in Hx as (n & -> & Hx). do 2 (case_bool_decide; [done|]).
    apply result_bind_ok in Hx as (vs & ->%map_err_ok & _). by eexists. }
  edestruct (try_map_total (fun '(name, values) => name ← parse_header_name name; allowed ← compile_value_matchers values; Ok (mkHeader name allowed)))
    as [hs ->].
  { eapply Forall_impl; [exact Hhd|]. intros [name values]. cbn. intros Hx.
    apply result_bind_ok in Hx as (n & -> & Hx).
    apply result_bind_ok in Hx as (vs & ->%map_err_ok & _). by eexists. }
  edestruct (try_map_total parse_header_name) as [ss ->].
  { eapply Forall_impl; [exact Hst|]. intros name Hx. cbn in Hx.
    apply result_bind_ok in Hx as (n & -> & _). by eexists. }
  edestruct (try_map_total (fun header => map_err (fun _ => lit "failed to compile injected header " ++ header_name header) (compile_injected_header env read header)))
    as [injected ->].
  { eapply Forall_impl; [exact Hsec|]. intros header [r Hr]. cbn. rewrite Hr. by exists r. }
  eexists. split; [reflexivity|]. cbn [host]. unfold normalize_hook_host in Hh.
  case_bool_decide; [done|]. destruct (contains_char 42 _); [done|]. by injection Hh as <-.
Qed.

(** The hooks of a host, in the order of the configuration. *)
Definition hooks_of (h : str) (cs : list MitmHook) : list MitmHook := List.filter (fun c => bool_decide (host c = h)) cs.

Definition add_hook (m : gmap str (list MitmHook)) (c : MitmHook) : gmap str (list MitmHook) :=
  <[host c := default [] (m !! host c) ++ [c]]> m.

Lemma add_hooks_lookup cs h :
  foldl add_hook ∅ cs !! h = if bool_decide (hooks_of h cs = []) then None else Some (hooks_of h cs).
Proof.
  induction cs as [|c cs IH] using rev_ind; [done|]. rewrite foldl_app. cbn [foldl].
  unfold hooks_of in *. rewrite List.filter_app. cbn [List.filter]. unfold add_hook at 1.
  destruct (decide (host c = h)) as [<-|Hne].
  - rewrite lookup_insert_eq, (bool_decide_true (host c = host c)), IH by done.
    rewrite (bool_decide_false (_ ++ [c] = [])) by (by destruct (List.filter _ cs)).
    case_bool_decide as E; cbn [default from_option id]; [by rewrite E|done].
  - by rewrite lookup_insert_ne, (bool_decide_false (host c = h)), app_nil_r, IH by done.
Qed.

Lemma compile_fold env read cfgs cs m :
  Forall2 (fun cfg c => compile_hook env read cfg = Ok c) cfgs cs ->
  try_fold (fun hooks_by_host hook =>
    compiled ← compile_hook env read hook;
    Ok (<[host compiled := default [] (hooks_by_host !! host compiled) ++ [compiled]]> hooks_by_host)) cfgs m =
  Ok (foldl add_hook m cs).
Proof.
  intros H. revert m. induction H as [|cfg c cfgs cs Hc _ IH]; intros m; cbn [try_fold foldl]; [done|].
  rewrite Hc. cbn [mbind result_bind]. apply IH.
Qed.

Lemma find_hooks_of h p cs :
  List.find p (hooks_of h cs) = List.find (fun c => bool_decide (host c = h) && p c) cs.
Proof.
  induction cs as [|c cs IH]; [done|]. unfold hooks_of in *. cbn [List.filter List.find].
  case_bool_decide; cbn [andb List.find]; [by rewrite IH|done].
Qed.

(** A validated configuration of hooks is put into effect as written: it compiles whenever its secrets
    are found, each hook under the normal form of its host, and a request is given the actions of the
    first hook of the configuration that names its host and accepts it; a host that no hook names is
    left alone, and a named host without an accepting hook is reported as such. *)
Theorem validated_hooks_apply env read config :
  validate_mitm_hook_config config = Ok tt ->
  Forall (fun hook => Forall (fun header => exists r, compile_injected_header env read header = Ok r)
                        (inject_request_headers_config (hook_actions hook))) (mitm_hooks config) ->
  exists cs hooks,
    Forall2 (fun cfg c => compile_hook env read cfg = Ok c /\ host c = normalize_host (hook_host cfg)) (mitm_hooks config) cs /\
    compile_mitm_hooks env read config = Ok hooks /\
    forall h req, evaluate_mitm_hooks hooks h req =
      match List.find (fun c => bool_decide (host c = normalize_host h) && hook_matches c req) cs with
      | Some c => Matched (actions c)
      | None => if bool_decide (hooks_of (normalize_host h) cs = []) then NoHooksForHost else HookedHostNoMatch
      end.
Proof.
  intros Hv Hsec.
  assert (exists cs, Forall2 (fun cfg c => compile_hook env read cfg = Ok c /\ host c = normalize_host (hook_host cfg)) (mitm_hooks config) cs)
    as [cs Hcs].
  { unfold validate_mitm_hook_config in Hv. case_bool_decide as Hnil; [exists []; rewrite Hnil; constructor|].
    destruct (mitm config); [|done]. cbn [negb] in Hv. apply try_fold_unit in Hv.
    revert Hv Hsec. generalize 0. clear Hnil. induction (mitm_hooks config) as [|hook hooks IH]; intros n Hv Hsec.
    { exists []. constructor. }
    cbn in Hv. apply Forall_cons in Hv as [Hh Hv]. apply Forall_cons in Hsec as [Hs Hsec].
    destruct (validated_hook_compiles env read n hook Hh Hs) as (c & Hc & Heq).
    destruct (IH (S n) Hv Hsec) as [cs Hcs]. exists (c :: cs). by constructor. }
  exists cs, (foldl add_hook ∅ cs). split; [done|]. split.
  - unfold compile_mitm_hooks. rewrite Hv. cbn [mbind result_bind]. apply compile_fold.
    eapply Forall2_impl; [done|]. by intros ? ? [? _].
  - intros h req. unfold evaluate_mitm_hooks. rewrite add_hooks_lookup, <- find_hooks_of.
    case_bool_decide as E; [by rewrite E|]. done.
Qed.

End libraries.

(** The hook of the documentation: requests to a repository of a host get a token. *)
Definition example_hook : MitmHookConfig :=
  mkHookConfig (lit "API.github.com") (mkMatchConfig [lit "post"] [lit "/repos/openai/"] [] [] false)
    (mkActionsConfig [lit "authorization"]
       [mkInjected (lit "authorization") (Some (lit "TOKEN")) None (Some (lit "Bearer "))]).

Definition example_settings : NetworkProxySettings :=
  mkSettings true (lit "http://127.0.0.1:3128") true (lit "http://127.0.0.1:8081") true true false false Full None None
    false true [example_hook].

Lemma validated_hooks_apply_witness :
  exists hooks,
    compile_mitm_hooks (fun _ _ => Err []) Some Some bare_host (fun _ => Some (lit "secret")) (fun _ => Err []) example_settings
      = Ok hooks /\
    evaluate_mitm_hooks (fun _ => []) hooks (lit "api.github.com:443")
      (mkRequest (lit "POST") (lit "/repos/openai/x") None []) =
      Matched (mkActions [lit "authorization"]
                 [mkResolved (lit "authorization") (lit "Bearer secret") (EnvVar (lit "TOKEN"))]).
Proof.
  destruct (validated_hooks_apply (fun _ _ => Err []) Some Some (fun _ => []) bare_host (fun _ => Some (lit "secret")) (fun _ => Err []) example_settings)
    as (cs & hooks & Hcs & Hc & He).
  - reflexivity.
  - repeat constructor. by eexists.
  - exists hooks. split; [exact Hc|]. rewrite He.
    inversion Hcs as [|cfg c cfgs cs' [Hc1 _] Hcs']; subst. inversion Hcs'; subst.
    vm_compute in Hc1. injection Hc1 as <-. reflexivity.
Defined.

End MitmHooks.
