(* ===== verification/NetworkState.v ===== *)
(** * The network proxy: managed constraints, host decisions and state

    network-proxy/src/state.rs (validating a configuration against managed constraints and compiling it),
    runtime.rs (the decision about a host, and the operations that change the state), network_policy.rs
    (the decision about a request) and connect_policy.rs (the check of a connection).  The libraries the
    proxy calls are collected in [ProxyLib]. *)

From S2P Require Import Prelude Text AbsolutePath Permissions IpAddress HostPatterns NetworkConfig MitmHooks.
Import AbsolutePath Permissions IpAddress HostPatterns NetworkConfig MitmHooks.

Module NetworkState.

(** What the proxy uses of its libraries and of the host: globs, the host parser of the url crate, the
    header types, the environment and secret files, and the set-up of interception. *)
Record ProxyLib := {
  globs : GlobLib;
  url_host : str -> option str;
  build_matcher : str -> bool -> result str (str -> bool);
  parse_name : str -> option str;
  parse_value : str -> option str;
  env_var : str -> option str;
  read_secret : str -> result str str;
  mitm_state_new : bool -> bool -> result str unit;
  host_os : Os;
}.

(** ** Constraints *)

(** [codex-rs/network-proxy/src/state.rs:26-39 NetworkProxyConstraints] *)
Record NetworkProxyConstraints := mkConstraints {
  c_enabled : option bool;
  c_mode : option NetworkMode;
  c_allow_upstream_proxy : option bool;
  c_dangerously_allow_non_loopback_proxy : option bool;
  c_dangerously_allow_all_unix_sockets : option bool;
  c_allowed_domains : option (list str);
  c_allowlist_expansion_enabled : option bool;
  c_denied_domains : option (list str);
  c_denylist_expansion_enabled : option bool;
  c_allow_unix_sockets : option (list str);
  c_allow_local_binding : option bool }.

#[global] Instance NetworkProxyConstraints_eq_dec : EqDecision NetworkProxyConstraints.
Proof. solve_decision. Defined.

(** [codex-rs/network-proxy/src/state.rs:414-422 NetworkProxyConstraintError] the field that is refused; the
    texts of the message depend on the order of hash sets. *)
Inductive NetworkProxyConstraintError := InvalidValue (field_name : str).

Definition refuse_if (bad : bool) (field_name : str) : result NetworkProxyConstraintError unit :=
  if bad then Err (InvalidValue field_name) else Ok tt.

(** [codex-rs/network-proxy/src/state.rs:430-435 network_mode_rank] *)
Definition network_mode_rank (mode : NetworkMode) : nat := match mode with Limited => 0 | Full => 1 end.

(** [codex-rs/network-proxy/src/state.rs:396-412 validate_non_global_wildcard_domain_patterns] *)
Definition validate_non_global_wildcard_domain_patterns (field_name : str) (patterns : list str)
    : result NetworkProxyConstraintError unit :=
  refuse_if (existsb is_global_wildcard_domain_pattern patterns) field_name.

(** The set of the entries in lower case. *)
Definition lower_set (entries : list str) : gset str := list_to_set (to_ascii_lowercase <$> entries).

(** [codex-rs/network-proxy/src/state.rs:227-312 validate_policy_against_constraints] the allowed domains. *)
Definition allowed_domains_refused (url_host : str -> option str) (expansion : option bool)
    (managed config_allowed : list str) (denied_overrides : gset str) : bool :=
  match expansion with
  | Some true => negb (bool_decide (lower_set managed ∖ lower_set config_allowed ∖ denied_overrides = ∅))
  | Some false => negb (bool_decide (lower_set config_allowed = lower_set managed ∖ denied_overrides))
  | None =>
      existsb (fun entry =>
        negb (existsb (fun m => allows (parse_for_constraints url_host m) (parse_for_constraints url_host entry)) managed))
        config_allowed
  end.

(** [codex-rs/network-proxy/src/state.rs:314-359 validate_policy_against_constraints] the denied domains. *)
Definition denied_domains_refused (expansion : option bool) (managed config_denied : list str) : bool :=
  match expansion with
  | Some false => negb (bool_decide (lower_set config_denied = lower_set managed))
  | Some true | None => negb (bool_decide (lower_set managed ∖ lower_set config_denied = ∅))
  end.

Section libraries.
Context (L : ProxyLib).

(** [codex-rs/network-proxy/src/mitm_hook.rs:171-229 validate_mitm_hook_config] with the libraries. *)
Definition validate_hooks (config : NetworkProxySettings) : result str unit :=
  validate_mitm_hook_config (build_matcher L) (parse_name L) (host_os L) config.

(** [codex-rs/network-proxy/src/state.rs:96-386 validate_policy_against_constraints] *)
Definition validate_policy_against_constraints (config : NetworkProxySettings) (constraints : NetworkProxyConstraints)
    : result NetworkProxyConstraintError unit :=
  let config_allowed_domains := default [] (allowed_domains config) in
  let config_denied_domains := default [] (denied_domains config) in
  let denied_domain_overrides := lower_set config_denied_domains in
  let config_allow_unix_sockets := allow_unix_sockets config in
  _ ← map_err (fun _ => InvalidValue (lit "network.mitm_hooks")) (validate_hooks config);
  _ ← validate_non_global_wildcard_domain_patterns (lit "network.denied_domains") config_denied_domains;
  _ ← refuse_if (match c_enabled constraints with
                 | Some max_enabled => enabled config && negb max_enabled
                 | None => false
                 end) (lit "network.enabled");
  _ ← refuse_if (match c_mode constraints with
                 | Some max_mode => network_mode_rank max_mode <? network_mode_rank (mode config)
                 | None => false
                 end) (lit "network.mode");
  _ ← refuse_if (match c_allow_upstream_proxy constraints with
                 | Some false => allow_upstream_proxy config
                 | Some true | None => false
                 end) (lit "network.allow_upstream_proxy");
  _ ← refuse_if (match c_dangerously_allow_non_loopback_proxy constraints with
                 | Some false => dangerously_allow_non_loopback_proxy config
                 | Some true | None => false
                 end) (lit "network.dangerously_allow_non_loopback_proxy");
  let allow_all_unix_sockets :=
    default (bool_decide (c_allow_unix_sockets constraints = None)) (c_dangerously_allow_all_unix_sockets constraints) in
  _ ← refuse_if (dangerously_allow_all_unix_sockets config && negb allow_all_unix_sockets)
        (lit "network.dangerously_allow_all_unix_sockets");
  _ ← refuse_if (match c_allow_local_binding constraints with
                 | Some allow => allow_local_binding config && negb allow
                 | None => false
                 end) (lit "network.allow_local_binding");
  _ ← match c_allowed_domains constraints with
      | Some managed =>
          _ ← validate_non_global_wildcard_domain_patterns (lit "network.allowed_domains") managed;
          refuse_if (allowed_domains_refused (url_host L) (c_allowlist_expansion_enabled constraints) managed
                       config_allowed_domains denied_domain_overrides) (lit "network.allowed_domains")
      | None => Ok tt
      end;
  _ ← match c_denied_domains constraints with
      | Some managed =>
          _ ← validate_non_global_wildcard_domain_patterns (lit "network.denied_domains") managed;
          refuse_if (denied_domains_refused (c_denylist_expansion_enabled constraints) managed config_denied_domains)
            (lit "network.denied_domains")
      | None => Ok tt
      end;
  match c_allow_unix_sockets constraints with
  | Some allowed =>
      refuse_if (existsb (fun entry => negb (bool_decide (to_ascii_lowercase entry ∈ lower_set allowed))) config_allow_unix_sockets)
        (lit "network.allow_unix_sockets")
  | None => Ok tt
  end.

(** ** The state *)

(** [codex-rs/network-proxy/src/runtime.rs:89-104 BlockedRequest] *)
Record BlockedRequest := mkBlocked {
  b_host : str; b_reason : str; b_client : option str; b_method : option str; b_mode : option NetworkMode;
  b_protocol : str; b_decision : option str; b_source : option str; b_port : option N; b_timestamp : Z }.

(** [codex-rs/network-proxy/src/runtime.rs:159-169 ConfigState] *)
Record ConfigState := mkState {
  config : NetworkProxySettings;
  allow_set : GlobSet (globs L);
  deny_set : GlobSet (globs L);
  mitm_on : bool;
  hooks : gmap str (list MitmHook);
  constraints : NetworkProxyConstraints;
  blocked : list BlockedRequest;
  blocked_total : N }.

(** [codex-rs/network-proxy/src/runtime.rs:43-43 MAX_BLOCKED_EVENTS] *)
Definition MAX_BLOCKED_EVENTS : nat := 200.

(** [codex-rs/network-proxy/src/state.rs:64-94 build_config_state] *)
Definition build_config_state (cfg : NetworkProxySettings) (cs : NetworkProxyConstraints) : result str ConfigState :=
  _ ← validate_unix_socket_allowlist_paths (host_os L) cfg;
  let allowed := default [] (allowed_domains cfg) in
  let denied := default [] (denied_domains cfg) in
  _ ← map_err (fun _ => lit "invalid value for network.denied_domains")
        (validate_non_global_wildcard_domain_patterns (lit "network.denied_domains") denied);
  deny_set ← compile_denylist_globset (globs L) denied;
  allow_set ← compile_allowlist_globset (globs L) allowed;
  hooks ← compile_mitm_hooks (build_matcher L) (parse_name L) (parse_value L) (host_os L) (env_var L) (read_secret L) cfg;
  mitm_on ← (if mitm cfg then _ ← mitm_state_new L (allow_upstream_proxy cfg) (allow_local_binding cfg); Ok true else Ok false);
  Ok (mkState cfg allow_set deny_set mitm_on hooks cs [] 0).

(** A new state with the record of blocked requests of an old one. *)
Definition with_blocked_of (new old : ConfigState) : ConfigState :=
  mkState (config new) (allow_set new) (deny_set new) (mitm_on new) (hooks new) (constraints new)
    (blocked old) (blocked_total old).

(** [codex-rs/network-proxy/src/runtime.rs:675-699 NetworkProxyState::reload_if_needed] given the answer of
    the reloader and the state whose record was read before. *)
Definition reload_if_needed (answer : result str (option ConfigState)) (read_before current : ConfigState)
    : result str ConfigState :=
  new_state ← answer;
  match new_state with
  | None => Ok current
  | Some new_state => Ok (with_blocked_of new_state read_before)
  end.

(** [codex-rs/core/src/network_proxy_loader.rs:71-86 build_config_state_from_layers] from the settings and the
    constraints that the layers give: the reloaders, the start of the proxy and the replacement of its
    state validate before they build (also core/src/config/network_proxy_spec.rs, [from_config_and_constraints]). *)
Definition build_config_state_from_layers (cfg : NetworkProxySettings) (cs : NetworkProxyConstraints)
    : result str ConfigState :=
  _ ← map_err (fun _ => lit "network proxy constraints") (validate_policy_against_constraints cfg cs);
  build_config_state cfg cs.

(** [codex-rs/network-proxy/src/runtime.rs:315-342 NetworkProxyState::force_reload] given the answer of the
    reloader and the state found under the lock: the record of blocked requests is kept, their number is
    that of the new state. *)
Definition force_reload (answer : result str ConfigState) (current : ConfigState) : ConfigState * result str unit :=
  match answer with
  | Ok new_state =>
      (mkState (config new_state) (allow_set new_state) (deny_set new_state) (mitm_on new_state) (hooks new_state)
         (constraints new_state) (blocked current) (blocked_total new_state), Ok tt)
  | Err err => (current, Err err)
  end.

(** [codex-rs/network-proxy/src/runtime.rs:344-353 NetworkProxyState::replace_config_state] under the lock. *)
Definition replace_config_state (current new_state : ConfigState) : ConfigState := with_blocked_of new_state current.

(** [codex-rs/network-proxy/src/runtime.rs:443-452 NetworkProxyState::record_blocked] under the lock. *)
Definition record_blocked (current : ConfigState) (entry : BlockedRequest) : ConfigState :=
  let all := blocked current ++ [entry] in
  mkState (config current) (allow_set current) (deny_set current) (mitm_on current) (hooks current) (constraints current)
    (drop (length all - MAX_BLOCKED_EVENTS) all) (N.min (blocked_total current + 1) u64_max).

(** [codex-rs/network-proxy/src/runtime.rs:476-483 NetworkProxyState::drain_blocked] under the lock. *)
Definition drain_blocked (current : ConfigState) : ConfigState * list BlockedRequest :=
  (mkState (config current) (allow_set current) (deny_set current) (mitm_on current) (hooks current) (constraints current)
     [] (blocked_total current), blocked current).

(** What one round of an optimistic update leads to. *)
Inductive attempt :=
| Refused (why : str)
| Unchanged
| Retry
| Committed (new : ConfigState).

(** [codex-rs/network-proxy/src/runtime.rs:561-584 NetworkProxyState::set_network_mode] one round: the
    state read first, and the state found under the lock. *)
Definition set_network_mode (seen current : ConfigState) (m : NetworkMode) : attempt :=
  match validate_policy_against_constraints (set_mode (config seen) m) (constraints seen) with
  | Err _ => Refused (lit "network.mode constrained by managed config")
  | Ok _ =>
      if bool_decide (constraints current = constraints seen)
      then Committed (mkState (set_mode (config current) m) (allow_set current) (deny_set current) (mitm_on current)
                        (hooks current) (constraints current) (blocked current) (blocked_total current))
      else Retry
  end.

(** [codex-rs/network-proxy/src/runtime.rs:702-706 DomainListKind] *)
Inductive DomainListKind := AllowList | DenyList.

(** [codex-rs/network-proxy/src/runtime.rs:723-728 DomainListKind::permission] *)
Definition list_permission (self : DomainListKind) : NetworkDomainPermission :=
  match self with AllowList => AllowDomain | DenyList => DenyDomain end.

(** [codex-rs/network-proxy/src/runtime.rs:730-735 DomainListKind::entries] *)
Definition entries (self : DomainListKind) (network : NetworkProxySettings) : list str :=
  match self with
  | AllowList => default [] (allowed_domains network)
  | DenyList => default [] (denied_domains network)
  end.

(** [codex-rs/network-proxy/src/runtime.rs:737-742 DomainListKind::opposite_entries] *)
Definition opposite_entries (self : DomainListKind) (network : NetworkProxySettings) : list str :=
  match self with
  | AllowList => default [] (denied_domains network)
  | DenyList => default [] (allowed_domains network)
  end.

(** [codex-rs/network-proxy/src/runtime.rs:716-721 DomainListKind::constraint_field] *)
Definition constraint_field (self : DomainListKind) : str :=
  match self with AllowList => lit "network.allowed_domains" | DenyList => lit "network.denied_domains" end.

(** [codex-rs/network-proxy/src/runtime.rs:709-714 DomainListKind::list_name] *)
Definition list_name (self : DomainListKind) : str :=
  match self with AllowList => lit "allowlist" | DenyList => lit "denylist" end.

(** [codex-rs/network-proxy/src/runtime.rs:616-673 NetworkProxyState::update_domain_list] one round. *)
Definition update_domain_list (seen current : ConfigState) (host : str) (target : DomainListKind) : attempt :=
  match parse_host host with
  | Err _ => Refused (lit "invalid network host")
  | Ok normalized_host =>
      let names := existsb (fun entry => bool_decide (normalize_host entry = normalized_host)) in
      if names (entries target (config seen)) && negb (names (opposite_entries target (config seen))) then Unchanged
      else
        let candidate := upsert_domain_permission (config seen) normalized_host (list_permission target) normalize_host in
        match validate_policy_against_constraints candidate (constraints seen) with
        | Err _ => Refused (constraint_field target ++ lit " constrained by managed config")
        | Ok _ =>
            match build_config_state candidate (constraints seen) with
            | Err _ => Refused (lit "failed to compile updated network " ++ list_name target)
            | Ok new_state =>
                if bool_decide (constraints current = constraints seen) && bool_decide (config current = config seen)
                then Committed (with_blocked_of new_state seen)
                else Retry
            end
        end
  end.

(** ** Decisions *)

(** [codex-rs/network-proxy/src/runtime.rs:60-65 HostBlockReason] *)
Inductive HostBlockReason := Denied | NotAllowed | NotAllowedLocal.

(** [codex-rs/network-proxy/src/runtime.rs:83-87 HostBlockDecision] *)
Inductive HostBlockDecision := Allowed | Blocked (reason : HostBlockReason).

(** [codex-rs/network-proxy/src/runtime.rs:843-858 is_explicit_local_allowlisted] *)
Definition is_explicit_local_allowlisted (allowed : list str) (host : str) : bool :=
  existsb (fun pattern =>
    let pattern := trim pattern in
    if bool_decide (pattern = lit "*") || starts_with (lit "*.") pattern || starts_with (lit "**.") pattern then false
    else if contains_char 42 pattern || contains_char 63 pattern then false
    else
      let normalized_pattern := normalize_host pattern in
      bool_decide (normalized_pattern = host) || bool_decide (unscoped_ip_literal host = Some normalized_pattern)) allowed.

(** [codex-rs/network-proxy/src/runtime.rs:749-788 host_resolves_to_non_public_ip] the lookup gives no
    addresses when it fails or takes too long. *)
Definition host_resolves_to_non_public_ip (host : str) (port : N) (lookup : str -> N -> option (list IpAddr)) : bool :=
  match parse_ip host with
  | Some ip => is_non_public_ip ip
  | None =>
      match lookup host port with
      | None => true
      | Some addrs => existsb is_non_public_ip addrs
      end
  end.

(** [codex-rs/network-proxy/src/runtime.rs:394-403 NetworkProxyState::host_blocked] whether the host is a
    local name or address. *)
Definition local_literal (host : str) : bool :=
  if is_loopback_host host then true
  else match parse_ip (default host (unscoped_ip_literal host)) with
       | Some ip => is_non_public_ip ip
       | None => false
       end.

(** [codex-rs/network-proxy/src/runtime.rs:355-430 NetworkProxyState::host_blocked] after the reload. *)
Definition host_blocked (state : ConfigState) (lookup : str -> N -> option (list IpAddr)) (host : str) (port : N)
    : HostBlockDecision :=
  match parse_host host with
  | Err _ => Blocked NotAllowed
  | Ok host =>
      let allowed := allowed_domains (config state) in
      if globset_matches_host_or_unscoped (globs L) (deny_set state) host then Blocked Denied
      else
        let is_allowlisted := globset_matches_host_or_unscoped (globs L) (allow_set state) host in
        if negb (allow_local_binding (config state)) &&
           (if local_literal host then negb (is_explicit_local_allowlisted (default [] allowed) host)
            else host_resolves_to_non_public_ip host port lookup)
        then Blocked NotAllowedLocal
        else if bool_decide (allowed = None) || negb is_allowlisted then Blocked NotAllowed
        else Allowed
  end.

(** [codex-rs/network-proxy/src/connect_policy.rs:69-82 TargetCheckedStreamConnector::connect] whether a
    connection to an address is refused. *)
Definition connect_refused (state : ConfigState) (addr : SocketAddr) : bool :=
  negb (allow_local_binding (config state)) && is_non_public_ip (addr_ip addr).

(** [codex-rs/network-proxy/src/runtime.rs:537-541 NetworkProxyState::method_allowed] *)
Definition method_allowed (state : ConfigState) (method : str) : bool := allows_method (mode (config state)) method.

(** [codex-rs/network-proxy/src/runtime.rs:485-535 NetworkProxyState::is_unix_socket_allowed] [macos] is
    the target on which sockets are supported. *)
Definition is_unix_socket_allowed (macos : bool) (state : ConfigState) (path : str) : bool :=
  if negb macos then false
  else if negb (is_absolute path) then false
  else if dangerously_allow_all_unix_sockets (config state) then true
  else match abs_path (host_os L) path with
       | None => false
       | Some requested_abs =>
           let requested_canonical := canonicalize (host_os L) requested_abs in
           existsb (fun allowed =>
             match parse_socket_path (host_os L) allowed with
             | Err _ => false
             | Ok allowed_path =>
                 path_eqb allowed_path requested_abs ||
                 match requested_canonical, canonicalize (host_os L) allowed_path with
                 | Some requested, Some allowed => path_eqb allowed requested
                 | _, _ => false
                 end
             end) (allow_unix_sockets (config state))
       end.

(** [codex-rs/network-proxy/src/network_policy.rs:57-64 NetworkDecisionSource] *)
Inductive NetworkDecisionSource := BaselinePolicy | ModeGuard | ProxyState | Decider.

(** [codex-rs/network-proxy/src/network_policy.rs:41-46 NetworkPolicyDecision] *)
Inductive NetworkPolicyDecision := PolicyDeny | PolicyAsk.

(** [codex-rs/network-proxy/src/network_policy.rs:121-129 NetworkDecision] *)
Inductive NetworkDecision :=
| NetworkAllow
| NetworkDeny (reason : str) (source : NetworkDecisionSource) (decision : NetworkPolicyDecision).

(** [codex-rs/network-proxy/src/runtime.rs:68-74 HostBlockReason::as_str] *)
Definition reason_str (self : HostBlockReason) : str :=
  match self with
  | Denied => lit "denied"
  | NotAllowed => lit "not_allowed"
  | NotAllowedLocal => lit "not_allowed_local"
  end.

(** [codex-rs/network-proxy/src/network_policy.rs:140-152 NetworkDecision::deny_with_source] *)
Definition deny_with_source (reason : str) (source : NetworkDecisionSource) : NetworkDecision :=
  NetworkDeny (if bool_decide (reason = []) then lit "policy_denied" else reason) source PolicyDeny.

(** [codex-rs/network-proxy/src/network_policy.rs:361-372 map_decider_decision] *)
Definition map_decider_decision (decision : NetworkDecision) : NetworkDecision :=
  match decision with
  | NetworkAllow => NetworkAllow
  | NetworkDeny reason _ decision => NetworkDeny reason Decider decision
  end.

(** [codex-rs/network-proxy/src/network_policy.rs:289-359 evaluate_host_policy] the decision, without the
    event of the audit log; the decider is asked about the request. *)
Definition evaluate_host_policy (state : ConfigState) (lookup : str -> N -> option (list IpAddr))
    (decider : option NetworkDecision) (host : str) (port : N) : NetworkDecision :=
  match host_blocked state lookup host port with
  | Allowed => NetworkAllow
  | Blocked NotAllowed =>
      match decider with
      | Some answer => map_decider_decision answer
      | None => deny_with_source (reason_str NotAllowed) BaselinePolicy
      end
  | Blocked reason => deny_with_source (reason_str reason) BaselinePolicy
  end.

(** ** What validation establishes *)

Lemma bind_unit {E} (m k : result E unit) : (_ ← m; k) = Ok tt <-> m = Ok tt /\ k = Ok tt.
Proof. destruct m as [[]|]; cbn; naive_solver. Qed.

Lemma refuse_if_ok b f : refuse_if b f = Ok tt <-> b = false.
Proof. by destruct b. Qed.

Lemma map_err_ok_iff {E F} (f : E -> F) (m : result E unit) : map_err f m = Ok tt <-> m = Ok tt.
Proof. by destruct m as [[]|]. Qed.

(** The settings stay within the constraints, field by field. *)
Record within (cfg : NetworkProxySettings) (cs : NetworkProxyConstraints) : Prop := {
  within_hooks : validate_hooks cfg = Ok tt;
  within_denied_scoped : existsb is_global_wildcard_domain_pattern (default [] (denied_domains cfg)) = false;
  within_enabled : c_enabled cs = Some false -> enabled cfg = false;
  within_mode : forall m, c_mode cs = Some m -> network_mode_rank (mode cfg) <= network_mode_rank m;
  within_upstream : c_allow_upstream_proxy cs = Some false -> allow_upstream_proxy cfg = false;
  within_loopback : c_dangerously_allow_non_loopback_proxy cs = Some false -> dangerously_allow_non_loopback_proxy cfg = false;
  within_all_sockets : dangerously_allow_all_unix_sockets cfg = true ->
    c_dangerously_allow_all_unix_sockets cs = Some true \/
    (c_dangerously_allow_all_unix_sockets cs = None /\ c_allow_unix_sockets cs = None);
  within_local : c_allow_local_binding cs = Some false -> allow_local_binding cfg = false;
  within_allowed : forall managed, c_allowed_domains cs = Some managed ->
    existsb is_global_wildcard_domain_pattern managed = false /\
    allowed_domains_refused (url_host L) (c_allowlist_expansion_enabled cs) managed (default [] (allowed_domains cfg))
      (lower_set (default [] (denied_domains cfg))) = false;
  within_denied : forall managed, c_denied_domains cs = Some managed ->
    existsb is_global_wildcard_domain_pattern managed = false /\
    denied_domains_refused (c_denylist_expansion_enabled cs) managed (default [] (denied_domains cfg)) = false;
  within_sockets : forall allowed, c_allow_unix_sockets cs = Some allowed ->
    Forall (fun entry => to_ascii_lowercase entry ∈ lower_set allowed) (allow_unix_sockets cfg);
}.

Lemma validate_within cfg cs : validate_policy_against_constraints cfg cs = Ok tt <-> within cfg cs.
Proof.
  unfold validate_policy_against_constraints, validate_non_global_wildcard_domain_patterns.
  rewrite !bind_unit, map_err_ok_iff, !refuse_if_ok. split.
  - intros (H1 & H2 & H3 & H4 & H5 & H6 & H7 & H8 & H9 & H10 & H11). constructor; try done.
    + intros Hc. rewrite Hc in H3. by rewrite andb_true_r in H3.
    + intros m Hc. rewrite Hc in H4. by apply Nat.ltb_ge in H4.
    + intros Hc. by rewrite Hc in H5.
    + intros Hc. by rewrite Hc in H6.
    + intros Ha. rewrite Ha in H7. cbn [andb] in H7. apply negb_false_iff in H7.
      destruct (c_dangerously_allow_all_unix_sockets cs) as [[]|]; cbn in H7; [by left|done|].
      right. by apply bool_decide_eq_true in H7.
    + intros Hc. rewrite Hc in H8. by rewrite andb_true_r in H8.
    + intros managed Hc. rewrite Hc in H9. by rewrite bind_unit, !refuse_if_ok in H9.
    + intros managed Hc. rewrite Hc in H10. by rewrite bind_unit, !refuse_if_ok in H10.
    + intros allowed Hc. rewrite Hc in H11. apply refuse_if_ok in H11. apply Forall_forall. intros e He.
      apply not_true_iff_false in H11. destruct (decide (to_ascii_lowercase e ∈ lower_set allowed)); [done|].
      destruct H11. apply existsb_exists. exists e. rewrite <- list_elem_of_In, bool_decide_false by done. done.
  - intros []. split_and!; try done.
    + destruct (c_enabled cs) as [[]|]; [by rewrite andb_false_r|by rewrite within_enabled0|done].
    + destruct (c_mode cs) as [m|]; [by apply Nat.ltb_ge, within_mode0|done].
    + destruct (c_allow_upstream_proxy cs) as [[]|]; auto.
    + destruct (c_dangerously_allow_non_loopback_proxy cs) as [[]|]; auto.
    + destruct (dangerously_allow_all_unix_sockets cfg); [|done]. cbn [andb]. apply negb_false_iff.
      by destruct within_all_sockets0 as [-> | [-> ->]].
    + destruct (c_allow_local_binding cs) as [[]|]; [by rewrite andb_false_r|by rewrite within_local0|done].
    + destruct (c_allowed_domains cs); [|done]. rewrite bind_unit, !refuse_if_ok. auto.
    + destruct (c_denied_domains cs); [|done]. rewrite bind_unit, !refuse_if_ok. auto.
    + destruct (c_allow_unix_sockets cs) as [allowed|]; [|done]. apply refuse_if_ok, not_true_iff_false.
      intros (e & He & Hn)%existsb_exists. specialize (within_sockets0 _ eq_refl). rewrite Forall_forall in within_sockets0.
      rewrite bool_decide_true in Hn by by apply within_sockets0, list_elem_of_In. done.
Qed.

(** ** The state under concurrent changes *)

(** The state agrees with its configuration, the configuration with its constraints. *)
Record sound (st : ConfigState) : Prop := {
  sound_within : within (config st) (constraints st);
  sound_deny : compile_denylist_globset (globs L) (default [] (denied_domains (config st))) = Ok (deny_set st);
  sound_allow : compile_allowlist_globset (globs L) (default [] (allowed_domains (config st))) = Ok (allow_set st);
  sound_hooks : compile_mitm_hooks (build_matcher L) (parse_name L) (parse_value L) (host_os L) (env_var L) (read_secret L)
                  (config st) = Ok (hooks st);
  sound_blocked : length (blocked st) <= MAX_BLOCKED_EVENTS;
}.

(** A change of the state, made by one of the tasks that share it; a task works with a state it read
    earlier, which may be any state so far.  A state that is installed is built from settings and
    constraints of any kind, or is refused. *)
Inductive change (so_far : list ConfigState) (current : ConfigState) : ConfigState -> Prop :=
| reloads before cfg cs new st : before ∈ so_far -> build_config_state_from_layers cfg cs = Ok new ->
    reload_if_needed (Ok (Some new)) before current = Ok st -> change so_far current st
| force_reloads cfg cs : change so_far current (fst (force_reload (build_config_state_from_layers cfg cs) current))
| replaces cfg cs new : build_config_state_from_layers cfg cs = Ok new ->
    change so_far current (replace_config_state current new)
| records entry : change so_far current (record_blocked current entry)
| drains : change so_far current (fst (drain_blocked current))
| sets_mode seen m new : seen ∈ so_far -> set_network_mode seen current m = Committed new -> change so_far current new
| updates seen host target new : seen ∈ so_far -> update_domain_list seen current host target = Committed new ->
    change so_far current new.

(** The states of a run, the newest first. *)
Inductive run_of : list ConfigState -> Prop :=
| starts cfg cs st : build_config_state_from_layers cfg cs = Ok st -> run_of [st]
| continues current past new : run_of (current :: past) -> change (current :: past) current new -> run_of (new :: current :: past).

Lemma sound_with_blocked new old : sound new -> length (blocked old) <= MAX_BLOCKED_EVENTS -> sound (with_blocked_of new old).
Proof. intros [] Hb. by constructor. Qed.

Lemma built_sound cfg cs st :
  build_config_state cfg cs = Ok st -> within cfg cs ->
  config st = cfg /\ constraints st = cs /\ sound st.
Proof.
  unfold build_config_state. intros H Hw. apply result_bind_ok in H as ([] & _ & H).
  apply result_bind_ok in H as ([] & _ & H). apply result_bind_ok in H as (ds & Hd & H).
  apply result_bind_ok in H as (as_ & Ha & H). apply result_bind_ok in H as (hs & Hh & H).
  apply result_bind_ok in H as (mo & _ & H). injection H as <-. split; [done|]. split; [done|].
  constructor; try done. cbn. unfold MAX_BLOCKED_EVENTS. lia.
Qed.

Lemma built_from_layers cfg cs st :
  build_config_state_from_layers cfg cs = Ok st -> config st = cfg /\ constraints st = cs /\ sound st.
Proof.
  unfold build_config_state_from_layers. intros H. apply result_bind_ok in H as ([] & Hv & Hb).
  apply map_err_ok_iff, validate_within in Hv. by apply built_sound.
Qed.

Lemma force_reload_sound cfg cs current :
  sound current -> sound (fst (force_reload (build_config_state_from_layers cfg cs) current)).
Proof.
  intros Hc. destruct (build_config_state_from_layers cfg cs) as [new|] eqn:Hb; [|done].
  apply built_from_layers in Hb as (_ & _ & []). destruct Hc. by constructor.
Qed.

Lemma sound_mode seen current m new :
  sound seen -> sound current -> set_network_mode seen current m = Committed new -> sound new.
Proof.
  intros [Hs _ _ _ _] [Hw Hd Ha Hh Hb]. unfold set_network_mode.
  destruct (validate_policy_against_constraints _ _) as [[]|] eqn:Hv; [|done].
  case_bool_decide as Hc; [|done]. intros [= <-]. apply validate_within in Hv. rewrite <- Hc in Hv.
  constructor; cbn [config constraints deny_set allow_set hooks blocked]; destruct (config current); try done.
  destruct (config seen), Hw, Hv. constructor; done.
Qed.

Lemma sound_update seen current host target new :
  sound seen -> update_domain_list seen current host target = Committed new -> sound new.
Proof.
  intros Hs. unfold update_domain_list. destruct (parse_host host); [|done]. destruct (_ && negb _); [done|].
  destruct (validate_policy_against_constraints _ _) as [[]|] eqn:Hv; [|done].
  destruct (build_config_state _ _) as [st|] eqn:Hb; [|done]. destruct (_ && _); [|done]. intros [= <-].
  apply validate_within in Hv. apply built_sound in Hb as (_ & _ & Hst); [|done].
  apply sound_with_blocked; [done|apply Hs].
Qed.

Lemma change_sound so_far current new :
  Forall sound so_far -> current ∈ so_far -> change so_far current new -> sound new.
Proof.
  intros Hall Hcur. pose proof Hall as Hf. rewrite Forall_forall in Hf. pose proof (Hf _ Hcur) as Hc.
  intros [before cfg cs n st Hb Hn Hst|cfg cs|cfg cs n Hn|e| |seen m n Hs Hm|seen h t n Hs Hu].
  - apply built_from_layers in Hn as (_ & _ & Hn). injection Hst as <-. apply sound_with_blocked; [done|]. by apply Hf.
  - by apply force_reload_sound.
  - apply built_from_layers in Hn as (_ & _ & Hn). apply sound_with_blocked; [done|]. apply Hc.
  - destruct Hc. constructor; try done. cbn [blocked record_blocked]. rewrite length_drop. lia.
  - destruct Hc. constructor; try done. cbn. unfold MAX_BLOCKED_EVENTS. lia.
  - eapply sound_mode; [by apply Hf|done|done].
  - eapply sound_update; [by apply Hf|done].
Qed.

Lemma run_sound sts : run_of sts -> Forall sound sts.
Proof.
  induction 1 as [cfg cs st Hst|current past new _ IH Hc].
  { apply built_from_layers in Hst as (_ & _ & Hst). by constructor. }
  constructor; [|done]. eapply change_sound; [done| |done]. by left.
Qed.

(** A task that is not disturbed is never sent back. *)
Lemma undisturbed_mode st m : set_network_mode st st m <> Retry.
Proof. unfold set_network_mode. destruct (validate_policy_against_constraints _ _); [|done]. by rewrite bool_decide_true. Qed.

Lemma undisturbed_update st host target : update_domain_list st st host target <> Retry.
Proof.
  unfold update_domain_list. destruct (parse_host host); [|done]. destruct (_ && _); [done|].
  destruct (validate_policy_against_constraints _ _); [|done]. destruct (build_config_state _ _); [|done].
  by rewrite !bool_decide_true.
Qed.

(** C7: Whatever the tasks that share the proxy do - reloading on demand or by force, replacing the
    configuration, recording and draining blocked requests, changing the mode or a list of domains - and
    however their changes interleave, the configuration in force stays within the managed constraints that
    came with it, the compiled lists and hooks are those of that configuration, and at most 200 blocked
    requests are kept; and a change that nothing disturbs is decided in one round.  The settings and
    constraints that a start, a reload or a replacement begins with are arbitrary: they are validated
    before they are installed. *)
Theorem proxy_state_invariant sts st :
  run_of (st :: sts) ->
  sound st /\ (forall m, set_network_mode st st m <> Retry) /\
  (forall host target, update_domain_list st st host target <> Retry).
Proof.
  intros H%run_sound. apply Forall_cons in H as [H _]. split; [done|].
  split; [intros m; apply undisturbed_mode|intros host target; apply undisturbed_update].
Qed.

(** ** The decision about a host *)

Lemma host_allowed_inv st lookup host port :
  host_blocked st lookup host port = Allowed ->
  exists h, parse_host host = Ok h /\
    globset_matches_host_or_unscoped (globs L) (deny_set st) h = false /\
    globset_matches_host_or_unscoped (globs L) (allow_set st) h = true /\
    (allow_local_binding (config st) = false ->
      if local_literal h then is_explicit_local_allowlisted (default [] (allowed_domains (config st))) h = true
      else host_resolves_to_non_public_ip h port lookup = false).
Proof.
  unfold host_blocked. destruct (parse_host host) as [h|]; [|done]. intros H. exists h. split; [done|].
  destruct (globset_matches_host_or_unscoped _ (deny_set st) h); [done|]. split; [done|].
  destruct (negb (allow_local_binding (config st)) && _) eqn:El; [done|].
  destruct (bool_decide _ || _) eqn:Ea; [done|]. apply orb_false_iff in Ea as [_ Ea%negb_false_iff]. split; [done|].
  intros Hl. rewrite Hl in El. cbn [negb andb] in El. destruct (local_literal h); [by apply negb_false_iff in El|done].
Qed.

Section lists.
Context `{!GlobLaws (globs L)}.

(** A host, or the address in it without its scope, that an entry stands for. *)
Definition names (h p : str) : Prop :=
  entry_denotes p h \/ exists ip, unscoped_ip_literal h = Some ip /\ entry_denotes p ip.

Lemma list_meaning ps gw set h :
  compile_globset_with_policy (globs L) ps gw = Ok set -> Forall wf_entry ps -> ascii h -> to_ascii_lowercase h = h ->
  globset_matches_host_or_unscoped (globs L) set h = true <-> exists p, p ∈ ps /\ names h p.
Proof.
  intros Hc Hps Hh Hl. unfold globset_matches_host_or_unscoped, names.
  rewrite orb_true_iff, (compiled_meaning ps gw set h Hc Hps Hh Hl).
  destruct (unscoped_ip_literal h) as [ip|] eqn:E; [|naive_solver].
  destruct (unscoped_prefix h ip E) as [s Hs].
  rewrite (compiled_meaning ps gw set ip Hc Hps); [naive_solver|..].
  - rewrite Hs in Hh. by apply Forall_app in Hh as [? _].
  - rewrite lower_fixed in *. rewrite Hs in Hl. by apply Forall_app in Hl as [? _].
Qed.

Lemma lower_set_elem p ps : to_ascii_lowercase p ∈ lower_set ps <-> exists q, q ∈ ps /\ to_ascii_lowercase q = to_ascii_lowercase p.
Proof. unfold lower_set. rewrite elem_of_list_to_set, list_elem_of_fmap. naive_solver. Qed.

Lemma denied_kept expansion managed config_denied p :
  denied_domains_refused expansion managed config_denied = false -> p ∈ managed ->
  exists q, q ∈ config_denied /\ to_ascii_lowercase q = to_ascii_lowercase p.
Proof.
  intros H Hp. apply lower_set_elem. assert (Hin : to_ascii_lowercase p ∈ lower_set managed) by (apply lower_set_elem; eauto).
  destruct expansion as [[]|]; cbn in H; apply negb_false_iff, bool_decide_eq_true in H; [| by rewrite H |].
  all: destruct (decide (to_ascii_lowercase p ∈ lower_set config_denied)); [done|];
    exfalso; apply (not_elem_of_empty (C := gset str) (to_ascii_lowercase p)); rewrite <- H; by apply elem_of_difference.
Qed.

Lemma names_case h p q : wf_entry p -> wf_entry q -> to_ascii_lowercase q = to_ascii_lowercase p -> names h p -> names h q.
Proof.
  intros Hp Hq Heq. assert (He : forall x, entry_denotes p x <-> entry_denotes q x).
  { intros x. by rewrite (entry_denotes_lower p x Hp), (entry_denotes_lower q x Hq), Heq. }
  unfold names. setoid_rewrite He. done.
Qed.

(** An allowed entry of a configuration within its constraints stands only for hosts that a managed
    allowed entry stands for, unless users may expand the managed list. *)
Lemma allowed_covered expansion managed config_allowed overrides h p :
  allowed_domains_refused (url_host L) expansion managed config_allowed overrides = false ->
  existsb is_global_wildcard_domain_pattern managed = false -> expansion <> Some true ->
  Forall (known_entry (url_host L)) managed -> Forall (known_entry (url_host L)) config_allowed ->
  p ∈ config_allowed -> names h p -> exists m, m ∈ managed /\ names h m.
Proof.
  intros Hr Hg Hex Hka Hkc Hp Hn. pose proof Hka as Hka'. rewrite Forall_forall in Hka', Hkc. pose proof (Hkc p Hp) as Hkp.
  destruct expansion as [[]|]; cbn in Hr; [done| |].
  - apply negb_false_iff, bool_decide_eq_true in Hr.
    assert (Hin : to_ascii_lowercase p ∈ lower_set managed).
    { assert (Hpc : to_ascii_lowercase p ∈ lower_set config_allowed) by (apply lower_set_elem; eauto).
      rewrite Hr in Hpc. by apply elem_of_difference in Hpc as [? _]. }
    apply lower_set_elem in Hin as (q & Hq & Heq). exists q. split; [done|].
    eapply names_case; [apply Hkp|by apply Hka'|done|done].
  - assert (Hc : existsb (fun m => allows (parse_for_constraints (url_host L) m) (parse_for_constraints (url_host L) p)) managed = true).
    { apply not_false_iff_true. intros E. apply not_true_iff_false in Hr. apply Hr, existsb_exists.
      exists p. by rewrite <- list_elem_of_In, E. }
    destruct Hn as [Hn|(ip & Hip & Hn)].
    + destruct (managed_covers (url_host L) managed p h Hka Hg Hkp Hc Hn) as (m & Hm & Hmd). exists m. by split; [|left].
    + destruct (managed_covers (url_host L) managed p ip Hka Hg Hkp Hc Hn) as (m & Hm & Hmd). exists m.
      split; [done|]. right. eauto.
Qed.

(** C6: Managed network rules bind.  Take any state the proxy reaches and any host, in ASCII, that it lets
    through.  When the constraints of the state have a list of allowed domains that users may not expand
    ([allowlist_expansion_enabled] is absent or false), and every entry of that list and of the user's
    allowed domains is [*] or a DNS name with or without a wildcard prefix ([*.] or [**.]) which the url
    parser keeps, some managed entry stands for the host, or for its address without the scope.  When the
    constraints have a list of denied domains, and its entries and the user's denied ones are such names,
    no managed denied entry stands for the host.  When the constraints refuse local access, the host is a
    local one that the user allowed by name, or a public address, or a name whose lookup succeeds and gives
    only public addresses. *)
Theorem managed_hosts_enforced sts st lookup host port h :
  run_of (st :: sts) -> parse_host host = Ok h -> ascii h ->
  host_blocked st lookup host port = Allowed ->
  (forall managed, c_allowed_domains (constraints st) = Some managed ->
    c_allowlist_expansion_enabled (constraints st) <> Some true ->
    Forall (known_entry (url_host L)) (managed ++ default [] (allowed_domains (config st))) ->
    exists p, p ∈ managed /\ names h p) /\
  (forall denied, c_denied_domains (constraints st) = Some denied ->
    Forall wf_entry (denied ++ default [] (denied_domains (config st))) ->
    forall p, p ∈ denied -> ~ names h p) /\
  (c_allow_local_binding (constraints st) = Some false ->
    if local_literal h then is_explicit_local_allowlisted (default [] (allowed_domains (config st))) h = true
    else match parse_ip h with
         | Some ip => is_non_public_ip ip = false
         | None => exists addrs, lookup h port = Some addrs /\ Forall (fun ip => is_non_public_ip ip = false) addrs
         end).
Proof.
  intros Hrun Hh Hasc Hall. apply run_sound, Forall_cons in Hrun as [[Hw Hd Ha _ _] _].
  apply host_allowed_inv in Hall as (h' & Hh' & Hnd & Hal & Hloc). rewrite Hh in Hh'. injection Hh' as <-.
  assert (Hl : to_ascii_lowercase h = h).
  { unfold parse_host in Hh. case_bool_decide; [done|]. injection Hh as <-. apply normalize_host_lower. }
  split; [|split].
  - intros managed Hma Hex [Hka Hkc]%Forall_app. destruct (within_allowed _ _ Hw _ Hma) as [Hg Hr].
    apply (list_meaning _ _ _ _ Ha) in Hal as (p & Hp & Hn); [|eapply Forall_impl; [done|by intros ? []]|done|done].
    by eapply allowed_covered.
  - intros denied Hmd [Hwd Hwc]%Forall_app p Hp Hn. destruct (within_denied _ _ Hw _ Hmd) as [_ Hr].
    destruct (denied_kept _ _ _ _ Hr Hp) as (q & Hq & Heq). apply not_true_iff_false in Hnd. apply Hnd.
    apply (list_meaning _ _ _ _ Hd); [done..|]. exists q. split; [done|]. rewrite Forall_forall in Hwd, Hwc.
    eapply names_case; [by apply Hwd|by apply Hwc|done|done].
  - intros Hb. specialize (Hloc (within_local _ _ Hw Hb)). destruct (local_literal h); [done|].
    unfold host_resolves_to_non_public_ip in Hloc. destruct (parse_ip h); [done|].
    destruct (lookup h port) as [addrs|]; [|done]. exists addrs. split; [done|]. apply Forall_forall. intros ip Hip.
    apply not_true_iff_false. intros Ht. apply not_true_iff_false in Hloc. apply Hloc, existsb_exists. exists ip.
    by rewrite <- list_elem_of_In.
Qed.

(** ** Changing the lists *)

(** The entries of a list after a host was added to it. *)
Lemma upserted_entries cfg h perm target p :
  p ∈ entries target (upsert_domain_permission cfg h perm normalize_host) <->
  (p = h /\ perm = list_permission target) \/ (normalize_host p <> normalize_host h /\ p ∈ entries target cfg).
Proof.
  assert (He : forall c, p ∈ entries target c <-> mkDomain p (list_permission target) ∈ effective_entries (default [] (domains c))).
  { intros c. rewrite <- domain_entries_elem. by destruct target. }
  rewrite !He, upsert_spec. naive_solver.
Qed.

(** An entry that a host normalises to stands for the host. *)
Lemma normalized_entry_names h p : dns_name h -> normalize_domain h = h -> wf_entry p -> normalize_host p = h -> names h p.
Proof.
  intros [Hd _] Hn Hp Heq. left. right.
  assert (Hstar : forall x, head x = Some 42%N -> x <> h).
  { intros x Hx ->. destruct h as [|c h]; [done|]. injection Hx as ->. by apply Forall_cons in Hd as [? _]. }
  destruct Hp as [|d [Hdd _]|d [Hdd _]|d [Hdd _]].
  - by destruct (Hstar (normalize_host (lit "*")) eq_refl Heq).
  - rewrite normalize_host_dns in Heq by done. by rewrite parse_exact.
  - destruct (Hstar (normalize_host (lit "*." ++ d))); [|done]. apply wildcard_host; [by left|done].
  - destruct (Hstar (normalize_host (lit "**." ++ d))); [|done]. apply wildcard_host; [by right; left|done].
Qed.

(** The lists after a request to add a host to one of them. *)
Lemma update_outcome st host target h new :
  sound st -> parse_host host = Ok h -> dns_name h ->
  Forall wf_entry (entries DenyList (config st) ++ entries AllowList (config st)) ->
  (update_domain_list st st host target = Committed new \/ (update_domain_list st st host target = Unchanged /\ new = st)) ->
  sound new /\ Forall wf_entry (entries DenyList (config new) ++ entries AllowList (config new)) /\
  (exists p, p ∈ entries target (config new) /\ names h p) /\
  Forall (fun p => normalize_host p <> h) (opposite_entries target (config new)).
Proof.
  intros Hst Hh Hname Hwf Hup. pose proof Hname as [Hdns _].
  assert (Hn : h = normalize_host host) by (unfold parse_host in Hh; case_bool_decide; [done|by injection Hh as <-]).
  assert (Hnd : normalize_domain h = h) by (rewrite Hn in *; by apply normal_host_name).
  assert (Hnh : normalize_host h = h) by (by rewrite normalize_host_dns).
  rewrite Forall_app, !Forall_forall in Hwf. destruct Hwf as [Hwd Hwa]. rewrite Forall_app, !Forall_forall.
  destruct Hup as [Hc|[Hu ->]].
  - pose proof (sound_update _ _ _ _ _ Hst Hc) as Hs. split; [done|]. unfold update_domain_list in Hc. rewrite Hh in Hc.
    destruct (_ && negb _); [done|]. destruct (validate_policy_against_constraints _ _) as [[]|] eqn:Hv; [|done].
    destruct (build_config_state _ _) as [st'|] eqn:Hb; [|done]. destruct (_ && _); [|done]. injection Hc as <-.
    apply validate_within in Hv. apply built_sound in Hb as (Hcfg & _ & _); [|done]. cbn [config with_blocked_of].
    rewrite Hcfg. split; [|split].
    + assert (wf_entry h) by (by apply wf_exact). split; intros p [[-> _]|[_ Hp]]%upserted_entries; auto.
    + exists h. split; [apply upserted_entries; by left|]. left. right. by rewrite parse_exact.
    + intros p Hp. assert (Hp' : p ∈ entries (match target with AllowList => DenyList | DenyList => AllowList end)
        (upsert_domain_permission (config st) h (list_permission target) normalize_host)) by (by destruct target).
      apply upserted_entries in Hp' as [[_ Hp']|[Hp' _]]; [by destruct target|congruence].
  - split; [done|]. split; [done|]. unfold update_domain_list in Hu. rewrite Hh in Hu.
    destruct (_ && negb _) eqn:E; [|by repeat case_match]. apply andb_true_iff in E as [Hin Hout%negb_true_iff].
    apply existsb_exists in Hin as (p & Hp & Heq%bool_decide_eq_true). rewrite <- list_elem_of_In in Hp. split.
    + exists p. split; [done|]. apply normalized_entry_names; [done..| |done]. destruct target; auto.
    + intros q Hq Heq'. apply not_true_iff_false in Hout. apply Hout, existsb_exists. exists q.
      by rewrite <- list_elem_of_In, bool_decide_true.
Qed.

(** Adding a host to a list has the effect it is for.  After a host was added to the denied ones it is
    blocked as denied, whatever it resolves to and whatever a decider would answer; after it was added to
    the allowed ones no entry for the host itself denies it, and it is let through unless a denied
    wildcard covers it or it is a local host. *)
Theorem domain_update_effective st host target h new lookup port decider :
  sound st -> parse_host host = Ok h -> dns_name h ->
  Forall wf_entry (entries DenyList (config st) ++ entries AllowList (config st)) ->
  (update_domain_list st st host target = Committed new \/ (update_domain_list st st host target = Unchanged /\ new = st)) ->
  match target with
  | DenyList => host_blocked new lookup host port = Blocked Denied /\
                evaluate_host_policy new lookup decider host port = NetworkDeny (lit "denied") BaselinePolicy PolicyDeny
  | AllowList =>
      Forall (fun p => normalize_host p <> h) (entries DenyList (config new)) /\
      ((forall p, p ∈ entries DenyList (config new) -> ~ names h p) ->
       allow_local_binding (config new) = true \/
         (local_literal h = false /\ host_resolves_to_non_public_ip h port lookup = false) ->
       host_blocked new lookup host port = Allowed)
  end.
Proof.
  intros Hst Hh Hname Hwf Hup.
  destruct (update_outcome st host target h new Hst Hh Hname Hwf Hup) as ([_ Hd Ha _ _] & Hwf' & Hin & Hopp).
  apply Forall_app in Hwf' as [Hwd Hwa].
  assert (Hasc : ascii h) by (eapply Forall_impl; [apply Hname|]; intros c Hc%dns_char_range; lia).
  assert (Hl : to_ascii_lowercase h = h).
  { unfold parse_host in Hh. case_bool_decide; [done|]. injection Hh as <-. apply normalize_host_lower. }
  destruct target; cbn [entries opposite_entries] in *.
  - split; [done|]. intros Hno Hloc. unfold host_blocked. rewrite Hh.
    replace (globset_matches_host_or_unscoped _ (deny_set new) h) with false.
    2:{ symmetry. apply not_true_iff_false. intros (p & Hp & Hpn)%(list_meaning _ _ _ _ Hd); [|done..]. by apply (Hno p). }
    rewrite (proj2 (list_meaning _ _ _ _ Ha Hwa Hasc Hl) Hin).
    replace (negb (allow_local_binding (config new)) && _) with false.
    2:{ symmetry. destruct Hloc as [-> | [-> ->]]; [done|by rewrite andb_false_r]. }
    rewrite bool_decide_false; [done|]. intros E. destruct Hin as (p & Hp & _). rewrite E in Hp. by apply elem_of_nil in Hp.
  - assert (Hb : host_blocked new lookup host port = Blocked Denied).
    { unfold host_blocked. rewrite Hh. by rewrite (proj2 (list_meaning _ _ _ _ Hd Hwd Hasc Hl) Hin). }
    split; [done|]. unfold evaluate_host_policy. by rewrite Hb.
Qed.

End lists.

End libraries.

(** ** Examples *)

(** A proxy whose globs have only [*] and [?], with a host parser that keeps plain names. *)
Definition plain_lib : ProxyLib := {|
  globs := simple_globs;
  url_host s := if forallb dns_char s then Some (to_ascii_lowercase s) else None;
  build_matcher _ _ := Err [];
  parse_name := Some;
  parse_value := Some;
  env_var _ := None;
  read_secret _ := Err [];
  mitm_state_new _ _ := Ok tt;
  host_os := bare_host;
|}.

Definition no_constraints : NetworkProxyConstraints := mkConstraints None None None None None None None None None None None.

(** Managed lists of domains. *)
Definition managed_lists (allowed denied : list str) : NetworkProxyConstraints :=
  mkConstraints None None None None None (Some allowed) None (Some denied) None None (Some false).

Definition settings_with (allowed denied : list str) : NetworkProxySettings :=
  set_denied_domains (set_allowed_domains default_settings allowed) denied.

Definition example_constraints : NetworkProxyConstraints :=
  managed_lists [lit "**.example.com"] [lit "private.example.com"].

Definition example_state : ConfigState plain_lib :=
  mkState plain_lib (settings_with [lit "*.Example.com"] [lit "Private.example.com"]) [lit "?*.example.com"] [lit "private.example.com"]
    false ∅ example_constraints [] 0.

Lemma example_state_built :
  build_config_state_from_layers plain_lib (config plain_lib example_state) example_constraints = Ok example_state.
Proof. vm_compute. reflexivity. Qed.

Lemma proxy_state_invariant_witness :
  sound plain_lib (record_blocked plain_lib example_state
    (mkBlocked (lit "h") (lit "denied") None None None (lit "http") None None None 0%Z)).
Proof.
  apply (proxy_state_invariant plain_lib [example_state]).
  apply continues; [eapply starts, example_state_built|apply records].
Defined.

Lemma dns_name_by_decision d :
  forallb dns_char d && negb (bool_decide (normalize_domain d = [])) && negb (bool_decide (head (normalize_domain d) = Some DOT)) = true ->
  dns_name d.
Proof.
  rewrite !andb_true_iff, !negb_true_iff, !bool_decide_eq_false. intros [[H Hn] Hh]. split; [|by split].
  apply Forall_forall. intros c Hc. rewrite forallb_forall in H. apply H. by apply list_elem_of_In.
Qed.

Definition public_lookup (host : str) (port : N) : option (list IpAddr) := Some [V4 (V4Octets 93 184 216 34)].

Lemma managed_hosts_enforced_witness :
  (exists p, p ∈ [lit "**.example.com"] /\ names (lit "www.example.com") p) /\
  (forall p, p ∈ [lit "private.example.com"] -> ~ names (lit "www.example.com") p).
Proof.
  assert (Hex : dns_name (lit "example.com")) by (by apply dns_name_by_decision).
  assert (HEx : dns_name (lit "Example.com")) by (by apply dns_name_by_decision).
  assert (Hpr : dns_name (lit "private.example.com")) by (by apply dns_name_by_decision).
  assert (HPr : dns_name (lit "Private.example.com")) by (by apply dns_name_by_decision).
  destruct (managed_hosts_enforced plain_lib [] example_state public_lookup (lit "WWW.example.com:443") 443 (lit "www.example.com"))
    as (H1 & H2 & _).
  - eapply starts, example_state_built.
  - vm_compute. reflexivity.
  - unfold ascii. repeat constructor.
  - vm_compute. reflexivity.
  - split; [apply H1|apply H2].
    + reflexivity.
    + discriminate.
    + change (default [] (allowed_domains (config plain_lib example_state))) with [lit "*.Example.com"].
      constructor; [|constructor; [|constructor]].
      * split; [by apply (wf_apex (lit "example.com"))|]. right. exists (lit "example.com"). by split.
      * split; [by apply (wf_subdomains (lit "Example.com"))|]. right. exists (lit "example.com"). by split.
    + reflexivity.
    + change (default [] (denied_domains (config plain_lib example_state))) with [lit "Private.example.com"].
      constructor; [by apply wf_exact|constructor; [by apply wf_exact|constructor]].
Defined.

(** The state after a host was added to the denied ones. *)
Definition denied_state : ConfigState plain_lib :=
  mkState plain_lib (upsert_domain_permission default_settings (lit "evil.com") DenyDomain normalize_host) [] [lit "evil.com"] false ∅
    no_constraints [] 0.

Definition empty_state : ConfigState plain_lib := mkState plain_lib default_settings [] [] false ∅ no_constraints [] 0.

Lemma empty_sound : sound plain_lib empty_state.
Proof.
  apply (built_sound plain_lib default_settings no_constraints).
  - vm_compute. reflexivity.
  - apply validate_within. vm_compute. reflexivity.
Qed.

Lemma domain_update_effective_witness :
  host_blocked plain_lib denied_state public_lookup (lit "EVIL.com") 80 = Blocked Denied.
Proof.
  apply (domain_update_effective plain_lib empty_state (lit "EVIL.com") DenyList (lit "evil.com") denied_state public_lookup 80
           (Some NetworkAllow)).
  - apply empty_sound.
  - vm_compute. reflexivity.
  - by apply dns_name_by_decision.
  - constructor.
  - left. vm_compute. reflexivity.
Defined.

(** An entry with a port and a wildcard passes the managed list although it allows another host: the
    managed list has only subdomains of example.com, the entry is compared as a name below it, and
    compiled to the part before the colon. *)
Example port_escapes_managed_list :
  let settings := settings_with [lit "evil.com:*.example.com"] [] in
  let cs := managed_lists [lit "*.example.com"] [] in
  validate_policy_against_constraints plain_lib settings cs = Ok tt /\
  match build_config_state plain_lib settings cs with
  | Ok st => host_blocked plain_lib st public_lookup (lit "evil.com") 443 = Allowed
  | Err _ => False
  end.
Proof. split; vm_compute; reflexivity. Qed.

(** A request that is blocked while a list is being changed is forgotten: the change puts back the record
    it read before. *)
Example blocked_request_lost :
  let request := mkBlocked (lit "h") (lit "denied") None None None (lit "http") None None None 0%Z in
  let between := record_blocked plain_lib empty_state request in
  blocked plain_lib between = [request] /\
  update_domain_list plain_lib empty_state between (lit "evil.com") DenyList = Committed plain_lib denied_state /\
  blocked plain_lib denied_state = [] /\ blocked_total plain_lib denied_state = 0%N.
Proof. vm_compute. split_and!; reflexivity. Qed.

End NetworkState.
