(* ===== verification/ConfigToml.v ===== *)
(** * TOML values of the configuration: config/src/merge.rs, key_aliases.rs, overrides.rs

    A configuration document as a value, the renaming of legacy keys, the merging of one document into another, and
    the document that the overrides of the command line make.  Tables keep their entries in the order of insertion
    (the feature [preserve_order] of the toml crate); what the crate guarantees of [insert], [get], [remove] and
    [entry] is written out on association lists.  Nothing here depends on where [remove] leaves the other entries. *)

From S2P Require Import Prelude Text IpAddress HostPatterns.

Module ConfigToml.
Import HostPatterns.

(** ** Tables *)

Section Tables.
Context {V : Type}.

(** [Map::get]. *)
Fixpoint map_get (table : list (str * V)) (key : str) : option V :=
  match table with
  | [] => None
  | (k, v) :: table => if bool_decide (k = key) then Some v else map_get table key
  end.

(** [Map::insert]: a present key keeps its place. *)
Fixpoint map_insert (table : list (str * V)) (key : str) (value : V) : list (str * V) :=
  match table with
  | [] => [(key, value)]
  | (k, v) :: table => if bool_decide (k = key) then (k, value) :: table else (k, v) :: map_insert table key value
  end.

(** [Map::remove]. *)
Definition map_remove (table : list (str * V)) (key : str) : list (str * V) :=
  List.filter (fun e => negb (bool_decide (e.1 = key))) table.

(** [table.entry(key).or_insert(value)]. *)
Definition or_insert (table : list (str * V)) (key : str) (value : V) : list (str * V) :=
  match map_get table key with Some _ => table | None => map_insert table key value end.

End Tables.

(** ** Values *)

(** The values of the toml crate; a float and a date are carried as their texts. *)
Inductive TomlValue :=
| String_ (text : str)
| Integer (i : Z)
| Float (text : str)
| Boolean (b : bool)
| Datetime (text : str)
| Array (items : list TomlValue)
| Table (entries : list (str * TomlValue)).

(** [TomlValue::is_table]. *)
Definition is_table (v : TomlValue) : bool := match v with Table _ => true | _ => false end.

(** [TomlValue::as_table]. *)
Definition as_table (v : TomlValue) : option (list (str * TomlValue)) :=
  match v with Table entries => Some entries | _ => None end.

(** ** Legacy keys *)

(** [codex-rs/config/src/key_aliases.rs:4-9 ConfigKeyAlias] *)
Record ConfigKeyAlias := { table_path : list str; legacy_key : str; canonical_key : str }.

(** [codex-rs/config/src/key_aliases.rs:11-15 CONFIG_KEY_ALIASES] *)
Definition CONFIG_KEY_ALIASES : list ConfigKeyAlias :=
  [{| table_path := [lit "memories"];
      legacy_key := lit "no_memories_if_mcp_or_web_search";
      canonical_key := lit "disable_on_external_context" |}].

(** [codex-rs/config/src/key_aliases.rs:17-30 normalize_key_aliases] *)
Definition normalize_key_aliases {V} (path : list str) (table : list (str * V)) : list (str * V) :=
  foldl (fun table alias =>
    if bool_decide (path = table_path alias) then
      match map_get table (legacy_key alias) with
      | Some value => or_insert (map_remove table (legacy_key alias)) (canonical_key alias) value
      | None => table
      end
    else table) table CONFIG_KEY_ALIASES.

(** [codex-rs/config/src/key_aliases.rs:32-52 normalized_with_key_aliases] *)
Fixpoint normalized_with_key_aliases (value : TomlValue) (path : list str) : TomlValue :=
  match value with
  | Table table =>
      let normalized :=
        foldl (fun normalized '(key, child) =>
                 map_insert normalized key (normalized_with_key_aliases child (path ++ [key]))) [] table in
      Table (normalize_key_aliases path normalized)
  | Array items => Array (map (fun item => normalized_with_key_aliases item path) items)
  | _ => value
  end.

(** ** Merging *)

(** [codex-rs/config/src/merge.rs:37-43 is_permission_network_domains_path] *)
Definition is_permission_network_domains_path (path : list str) : bool :=
  match path with
  | [permissions; _; network; domains] =>
      bool_decide (permissions = lit "permissions" /\ network = lit "network" /\ domains = lit "domains")
  | _ => false
  end.

(** [codex-rs/config/src/merge.rs:45-50 normalize_network_domain_keys] *)
Definition normalize_network_domain_keys {V} (table : list (str * V)) : list (str * V) :=
  foldl (fun table '(pattern, value) => map_insert table (normalize_host pattern) value) [] table.

(** The tables as they are merged: legacy keys renamed, and hosts in their normal form below a network profile. *)
Definition merge_keys {V} (path : list str) (table : list (str * V)) : list (str * V) :=
  let table := normalize_key_aliases path table in
  if is_permission_network_domains_path path then normalize_network_domain_keys table else table.

(** One turn of the loop over the overlay's entries; [merge_value] merges the entry's value into an existing one. *)
Definition merge_entry (path : list str) (base_table : list (str * TomlValue)) (key : str) (value : TomlValue)
    (merge_value : TomlValue -> list str -> TomlValue) : list (str * TomlValue) :=
  let path := path ++ [key] in
  match map_get base_table key with
  | Some existing => map_insert base_table key (merge_value existing path)
  | None => map_insert base_table key (normalized_with_key_aliases value path)
  end.

(** [codex-rs/config/src/merge.rs:11-35 merge_toml_values_at_path] The overlay comes first: the recursion is on it.
    Its entries are paired with what merging them does before their keys are normalised. *)
Fixpoint merge_toml_values_at_path (overlay base : TomlValue) (path : list str) : TomlValue :=
  match overlay, base with
  | Table overlay_table, Table base_table =>
      let overlay_table := map (fun '(key, value) => (key, (value, merge_toml_values_at_path value))) overlay_table in
      Table (foldl (fun base_table '(key, (value, merge_value)) => merge_entry path base_table key value merge_value)
               (merge_keys path base_table) (merge_keys path overlay_table))
  | _, _ => normalized_with_key_aliases overlay path
  end.

(** [codex-rs/config/src/merge.rs:7-9 merge_toml_values] *)
Definition merge_toml_values (base overlay : TomlValue) : TomlValue := merge_toml_values_at_path overlay base [].

(** ** Overrides of the command line *)

(** [codex-rs/config/src/overrides.rs:3-5 default_empty_table] *)
Definition default_empty_table : TomlValue := Table [].

(** [codex-rs/config/src/overrides.rs:16-54 apply_toml_override], over the segments of the path. *)
Fixpoint apply_toml_override_at (current : TomlValue) (segments : list str) (value : TomlValue) : TomlValue :=
  match segments with
  | [] => current
  | [segment] =>
      match current with
      | Table table => Table (map_insert table segment value)
      | _ => Table [(segment, value)]
      end
  | segment :: rest =>
      let table := match current with Table table => table | _ => [] end in
      let child := default default_empty_table (map_get table segment) in
      Table (map_insert table segment (apply_toml_override_at child rest value))
  end.

(** [codex-rs/config/src/overrides.rs:16-55 apply_toml_override] *)
Definition apply_toml_override (root : TomlValue) (path : str) (value : TomlValue) : TomlValue :=
  apply_toml_override_at root (split_char 46 path) value.

(** [codex-rs/config/src/overrides.rs:7-13 build_cli_overrides_layer] *)
Definition build_cli_overrides_layer (cli_overrides : list (str * TomlValue)) : TomlValue :=
  foldl (fun root '(path, value) => apply_toml_override root path value) default_empty_table cli_overrides.

(** ** Tables by their lookups *)

Section TableLemmas.
Context {V : Type}.
Implicit Types (table : list (str * V)).

Lemma map_get_insert table key value k :
  map_get (map_insert table key value) k = if bool_decide (key = k) then Some value else map_get table k.
Proof.
  induction table as [|[k' v'] table IH]; simpl; [done|].
  repeat (case_bool_decide; simpl); simplify_eq; try done; rewrite IH; by case_bool_decide.
Qed.

Lemma map_get_remove table key k :
  map_get (map_remove table key) k = if bool_decide (key = k) then None else map_get table k.
Proof.
  unfold map_remove. induction table as [|[k' v'] table IH]; [by case_bool_decide|].
  simpl. repeat (case_bool_decide; simpl; rewrite ?IH); by simplify_eq.
Qed.

Lemma map_insert_keys table key value :
  (map_insert table key value).*1 = if bool_decide (key ∈ table.*1) then table.*1 else table.*1 ++ [key].
Proof.
  induction table as [|[k' v'] table IH]; [done|]. csimpl. destruct (decide (k' = key)) as [->|Hk].
  - rewrite !bool_decide_true by set_solver. done.
  - rewrite (bool_decide_false (k' = key)) by done. csimpl. rewrite IH. repeat case_bool_decide; set_solver.
Qed.

Lemma map_insert_nodup table key value : NoDup table.*1 -> NoDup (map_insert table key value).*1.
Proof.
  intros Hnd. rewrite map_insert_keys. case_bool_decide; [done|].
  apply NoDup_app. repeat split; [done| |apply NoDup_singleton]. set_solver.
Qed.

Lemma map_remove_nodup table key : NoDup table.*1 -> NoDup (map_remove table key).*1.
Proof.
  unfold map_remove. induction table as [|e table IH]; csimpl; [done|]. intros [Hn Hnd]%NoDup_cons.
  case_bool_decide; csimpl; [auto|]. apply NoDup_cons. split; [|auto]. intros Hin. apply Hn.
  apply list_elem_of_fmap in Hin as (e' & -> & Hin). apply list_elem_of_In, filter_In in Hin as [Hin _].
  apply list_elem_of_fmap. exists e'. by rewrite list_elem_of_In.
Qed.

Lemma or_insert_nodup table key value : NoDup table.*1 -> NoDup (or_insert table key value).*1.
Proof. unfold or_insert. case_match; [done|apply map_insert_nodup]. Qed.

Lemma map_get_or_insert table key value k :
  map_get (or_insert table key value) k =
  if bool_decide (key = k) then Some (default value (map_get table k)) else map_get table k.
Proof.
  unfold or_insert. destruct (map_get table key) eqn:He; [|rewrite map_get_insert]; case_bool_decide; subst; by rewrite ?He.
Qed.

Lemma map_get_None table k : map_get table k = None <-> k ∉ table.*1.
Proof.
  induction table as [|[k' v'] table IH]; csimpl; [set_solver|].
  case_bool_decide; [set_solver|]. rewrite IH. set_solver.
Qed.

Lemma map_get_elem table k v : map_get table k = Some v -> (k, v) ∈ table.
Proof.
  induction table as [|[k' v'] table IH]; simpl; [done|]. case_bool_decide; intros; simplify_eq; set_solver.
Qed.

Lemma elem_map_get table k v : NoDup table.*1 -> (k, v) ∈ table -> map_get table k = Some v.
Proof.
  induction table as [|[k' v'] table IH]; csimpl; [set_solver|]. intros [Hn Hnd]%NoDup_cons Hin.
  rewrite elem_of_cons in Hin; destruct Hin as [[= -> ->]|Hin]; [by rewrite bool_decide_true|].
  rewrite bool_decide_false; [auto|]. intros ->. apply Hn. apply list_elem_of_fmap. by exists (k, v).
Qed.

(** Renaming legacy keys, by lookups. *)
Lemma aliases_elsewhere path table k :
  path <> [lit "memories"] -> map_get (normalize_key_aliases path table) k = map_get table k.
Proof. intros Hp. unfold normalize_key_aliases. cbn -[lit]. by rewrite bool_decide_false. Qed.

Lemma aliases_get table k :
  map_get (normalize_key_aliases [lit "memories"] table) k =
  if bool_decide (k = lit "no_memories_if_mcp_or_web_search") then None
  else if bool_decide (k = lit "disable_on_external_context")
       then match map_get table k with
            | Some v => Some v
            | None => map_get table (lit "no_memories_if_mcp_or_web_search")
            end
       else map_get table k.
Proof.
  unfold normalize_key_aliases. cbn -[lit]. rewrite bool_decide_true by done.
  destruct (map_get table (lit "no_memories_if_mcp_or_web_search")) eqn:He.
  - rewrite map_get_or_insert, map_get_remove. repeat case_bool_decide; subst; try done; by case_match.
  - repeat case_bool_decide; subst; try done; by case_match.
Qed.

Lemma aliases_nodup path table : NoDup table.*1 -> NoDup (normalize_key_aliases path table).*1.
Proof.
  intros Hnd. unfold normalize_key_aliases. cbn -[lit]. case_bool_decide; [|done].
  case_match; [|done]. by apply or_insert_nodup, map_remove_nodup.
Qed.

Lemma fold_insert_nodup {A} (key : A -> str) (value : A -> V) entries table :
  NoDup table.*1 -> NoDup (foldl (fun table e => map_insert table (key e) (value e)) table entries).*1.
Proof. revert table. induction entries; simpl; [done|]. intros. apply IHentries, map_insert_nodup. done. Qed.

End TableLemmas.

(** Inserting entries with different keys. *)
Lemma fold_insert_get {A V} (value : str -> A -> V) (entries : list (str * A)) (table : list (str * V)) k :
  NoDup entries.*1 ->
  map_get (foldl (fun table '(key, a) => map_insert table key (value key a)) table entries) k =
  match map_get entries k with Some a => Some (value k a) | None => map_get table k end.
Proof.
  revert table. induction entries as [|[key a] entries IH]; csimpl; [done|]. intros table [Hn Hnd]%NoDup_cons.
  rewrite IH, map_get_insert by done. case_bool_decide; subst; [|done].
  destruct (map_get entries k) eqn:He; [|done]. exfalso. apply Hn, list_elem_of_fmap. eexists (_, _). split; [done|].
  by apply map_get_elem.
Qed.

(** ** Values by induction on their nesting *)

Lemma toml_ind (P : TomlValue -> Prop) :
  (forall v, is_table v = false -> (forall items, v <> Array items) -> P v) ->
  (forall items, Forall P items -> P (Array items)) ->
  (forall entries, Forall (fun e => P e.2) entries -> P (Table entries)) ->
  forall v, P v.
Proof.
  intros Hscalar Harray Htable. fix IH 1. intros [| | | | |items|entries]; try (by apply Hscalar).
  - apply Harray. induction items; constructor; auto.
  - apply Htable. induction entries as [|[k v] entries IHe]; constructor; [apply IH|done].
Qed.

(** No table of a value has a key twice. *)
Fixpoint unique_keys (v : TomlValue) : Prop :=
  match v with
  | Array items => foldr (fun item rest => unique_keys item /\ rest) True items
  | Table entries => NoDup entries.*1 /\ foldr (fun e rest => unique_keys e.2 /\ rest) True entries
  | _ => True
  end.

Lemma unique_keys_array items : unique_keys (Array items) <-> Forall unique_keys items.
Proof. simpl. induction items; simpl; [done|]. rewrite Forall_cons. by rewrite IHitems. Qed.

Lemma unique_keys_table entries :
  unique_keys (Table entries) <-> NoDup entries.*1 /\ Forall (fun e => unique_keys e.2) entries.
Proof.
  simpl. apply and_iff_compat_l. induction entries; simpl; [done|]. rewrite Forall_cons. by rewrite IHentries.
Qed.

Lemma unique_keys_nodup entries : unique_keys (Table entries) -> NoDup entries.*1.
Proof. by intros [? _]. Qed.

Lemma unique_keys_get entries k v : unique_keys (Table entries) -> map_get entries k = Some v -> unique_keys v.
Proof.
  rewrite unique_keys_table. intros [_ Hall] Hg%map_get_elem. rewrite Forall_forall in Hall. apply (Hall _ Hg).
Qed.

(** The entry of a table under its normalised keys. *)
Lemma normalized_get entries path k :
  NoDup entries.*1 ->
  map_get (foldl (fun normalized '(key, child) =>
             map_insert normalized key (normalized_with_key_aliases child (path ++ [key]))) [] entries) k =
  (fun child => normalized_with_key_aliases child (path ++ [k])) <$> map_get entries k.
Proof.
  intros Hnd. rewrite (fold_insert_get (fun key child => normalized_with_key_aliases child (path ++ [key]))) by done.
  by destruct (map_get entries k).
Qed.

Lemma foldl_ext_elem {A B} (f g : B -> A -> B) (l : list A) b :
  Forall (fun a => forall b, f b a = g b a) l -> foldl f b l = foldl g b l.
Proof. intros Hl. revert b. induction Hl as [|a l Ha Hl IH]; intros b; simpl; [done|]. by rewrite Ha. Qed.

(** The entries of different keys, inserted one by one, are the entries. *)
Lemma fold_insert_self {V} (entries acc : list (str * V)) :
  NoDup (acc ++ entries).*1 -> foldl (fun table '(key, v) => map_insert table key v) acc entries = acc ++ entries.
Proof.
  revert acc. induction entries as [|[key v] entries IH]; simpl; intros acc Hnd; [by rewrite app_nil_r|].
  assert (map_insert acc key v = acc ++ [(key, v)]) as ->.
  { rewrite fmap_app, fmap_cons in Hnd. apply NoDup_app in Hnd as (_ & Hd & _).
    clear IH. induction acc as [|[k' v'] acc IHa]; [done|]. csimpl. rewrite bool_decide_false.
    - f_equal. apply IHa. intros x Hx. apply Hd. set_solver.
    - intros ->. apply (Hd key); set_solver. }
  rewrite IH; by rewrite <- app_assoc.
Qed.

(** Below the second level nothing is renamed. *)
Lemma normalized_deep v path :
  unique_keys v -> 2 <= length path -> normalized_with_key_aliases v path = v.
Proof.
  revert path. induction v as [v Ht Ha|items IH|entries IH] using toml_ind; intros path Hu Hp.
  - destruct v; try done. by destruct (Ha items).
  - simpl. f_equal. apply unique_keys_array in Hu. rewrite Forall_forall in IH, Hu.
    rewrite <- (list_fmap_id items) at 2. apply Forall_fmap_ext_1, Forall_forall. intros item Hin. by apply IH; auto.
  - simpl. apply unique_keys_table in Hu as [Hnd Hu]. f_equal.
    assert (forall table : list (str * TomlValue), normalize_key_aliases path table = table) as ->.
    { intros table. unfold normalize_key_aliases. cbn -[lit]. rewrite bool_decide_false; [done|]. intros ->. simpl in Hp. lia. }
    rewrite <- (fold_insert_self entries []) at 2 by done. apply foldl_ext_elem.
    rewrite Forall_forall in *. intros [key child] Hin b. f_equal. apply (IH _ Hin); [by apply (Hu _ Hin)|].
    rewrite length_app. lia.
Qed.

(** ** Merging by lookups *)

Section MapValues.
Context {V W : Type} (g : V -> W).
Implicit Types (table : list (str * V)).

(** The same keys with other values. *)
Definition with_values table : list (str * W) := map (fun '(key, v) => (key, g v)) table.

Lemma with_values_get table k : map_get (with_values table) k = g <$> map_get table k.
Proof. induction table as [|[k' v'] table IH]; simpl; [done|]. by case_bool_decide. Qed.

Lemma with_values_insert table k v : map_insert (with_values table) k (g v) = with_values (map_insert table k v).
Proof. induction table as [|[k' v'] table IH]; simpl; [done|]. case_bool_decide; simpl; by rewrite ?IH. Qed.

Lemma with_values_aliases path table :
  normalize_key_aliases path (with_values table) = with_values (normalize_key_aliases path table).
Proof.
  unfold normalize_key_aliases. cbn -[lit]. case_bool_decide; [|done]. rewrite with_values_get.
  destruct (map_get table (lit "no_memories_if_mcp_or_web_search")); simpl; [|done].
  assert (forall k, map_remove (with_values table) k = with_values (map_remove table k)) as ->.
  { intros k. unfold map_remove. clear. induction table as [|[k' v'] table IH]; simpl; [done|].
    case_bool_decide; simpl; by rewrite IH. }
  unfold or_insert. rewrite with_values_get. generalize (map_remove table (lit "no_memories_if_mcp_or_web_search")) as l.
  intros l. destruct (map_get l _); [done|apply with_values_insert].
Qed.

Lemma with_values_keys path table : merge_keys path (with_values table) = with_values (merge_keys path table).
Proof.
  unfold merge_keys. rewrite with_values_aliases. case_match; [|done]. unfold normalize_network_domain_keys.
  generalize (normalize_key_aliases path table) as l. intros l. change (@nil (str * W)) with (with_values []).
  generalize (@nil (str * V)) as acc. induction l as [|[k v] l IH]; intros acc; simpl; [done|].
  by rewrite with_values_insert, IH.
Qed.

End MapValues.

(** The loop of the merge over the entries of the overlay. *)
Lemma merge_tables overlay_table base_table path :
  merge_toml_values_at_path (Table overlay_table) (Table base_table) path =
  Table (foldl (fun base_table '(key, value) =>
                  merge_entry path base_table key value (merge_toml_values_at_path value))
           (merge_keys path base_table) (merge_keys path overlay_table)).
Proof.
  cbn [merge_toml_values_at_path].
  change (map _ overlay_table) with (with_values (fun v => (v, merge_toml_values_at_path v)) overlay_table).
  rewrite with_values_keys. f_equal. generalize (merge_keys path base_table) as b.
  induction (merge_keys path overlay_table) as [|[k v] l IH]; intros b; simpl; [done|]. apply IH.
Qed.

Lemma merge_loop_get path entries base_table k :
  NoDup entries.*1 ->
  map_get (foldl (fun base_table '(key, value) =>
                    merge_entry path base_table key value (merge_toml_values_at_path value)) base_table entries) k =
  match map_get entries k with
  | Some value =>
      Some match map_get base_table k with
           | Some existing => merge_toml_values_at_path value existing (path ++ [k])
           | None => normalized_with_key_aliases value (path ++ [k])
           end
  | None => map_get base_table k
  end.
Proof.
  revert base_table. induction entries as [|[key v] entries IH]; csimpl; [done|]. intros base [Hn Hnd]%NoDup_cons.
  rewrite IH by done.
  assert (forall k', map_get (merge_entry path base key v (merge_toml_values_at_path v)) k' =
            if bool_decide (key = k') then
              Some match map_get base key with
                   | Some existing => merge_toml_values_at_path v existing (path ++ [key])
                   | None => normalized_with_key_aliases v (path ++ [key])
                   end
            else map_get base k') as Hm.
  { intros k'. unfold merge_entry. destruct (map_get base key); by rewrite map_get_insert. }
  rewrite Hm. destruct (decide (key = k)) as [->|Hk].
  - apply map_get_None in Hn. by rewrite Hn, !bool_decide_true.
  - by rewrite !bool_decide_false.
Qed.

(** ** What a document says about a setting *)

(** The value at a path of keys. *)
Fixpoint at_path (v : TomlValue) (path : list str) : option TomlValue :=
  match path, v with
  | [], _ => Some v
  | key :: path, Table table => child ← map_get table key; at_path child path
  | _ :: _, _ => None
  end.

(** The setting at a path, when there is one and it is not a table. *)
Definition setting (v : TomlValue) (path : list str) : option TomlValue :=
  match at_path v path with
  | Some (Table _) | None => None
  | Some v => Some v
  end.

(** A document says nothing about a path when the last table on the way has no entry for it; otherwise it sets it,
    or settles that it is not set (a table is there, or something that is not a table stands above it). *)
Inductive verdict := Silent | NotSet | SetTo (v : TomlValue).

Fixpoint says (v : TomlValue) (path : list str) : verdict :=
  match path, v with
  | [], Table _ => NotSet
  | [], _ => SetTo v
  | key :: path, Table table => match map_get table key with Some child => says child path | None => Silent end
  | _ :: _, _ => NotSet
  end.

Definition set_to (s : verdict) : option TomlValue := match s with SetTo v => Some v | _ => None end.

(** The verdict of the first that is not silent. *)
Definition first_said (high low : verdict) : verdict := match high with Silent => low | _ => high end.

Lemma setting_says v path : setting v path = set_to (says v path).
Proof.
  unfold setting. revert v. induction path as [|k path IH]; intros v; [by destruct v|].
  destruct v; try done. simpl. destruct (map_get entries k); simpl; [apply IH|done].
Qed.

(** No legacy key is left below [path]. *)
Definition aliases_done (path : list str) (v : TomlValue) : Prop :=
  forall rest, path ++ rest = [lit "memories"; lit "no_memories_if_mcp_or_web_search"] -> at_path v rest = None.

(** The path [rest] below [path] does not lead through a table of network domains, whose keys are rewritten. *)
Definition avoids_domains (path rest : list str) : Prop :=
  forall q k r, rest = q ++ k :: r -> is_permission_network_domains_path (path ++ q) = false.

Lemma avoids_cons path k rest :
  avoids_domains path (k :: rest) -> is_permission_network_domains_path path = false /\ avoids_domains (path ++ [k]) rest.
Proof.
  intros Ha. split; [rewrite <- (app_nil_r path); by apply (Ha [] k rest)|].
  intros q k' r ->. rewrite <- app_assoc. apply (Ha (k :: q) k' r). done.
Qed.

Lemma aliases_done_get path table k :
  aliases_done path (Table table) -> map_get (normalize_key_aliases path table) k = map_get table k.
Proof.
  intros Hd. destruct (decide (path = [lit "memories"])) as [->|Hp]; [|by apply aliases_elsewhere].
  specialize (Hd [_] eq_refl). cbn [at_path] in Hd. rewrite aliases_get.
  destruct (map_get table (lit "no_memories_if_mcp_or_web_search")) eqn:He; [done|].
  repeat case_bool_decide; subst; rewrite ?He; try done. by case_match.
Qed.

Lemma aliases_done_child path table k v :
  aliases_done path (Table table) -> map_get table k = Some v -> aliases_done (path ++ [k]) v.
Proof. intros Hd Hg rest Hr. rewrite <- app_assoc in Hr. specialize (Hd _ Hr). simpl in Hd. by rewrite Hg in Hd. Qed.

(** Normalising a table, by lookups: an entry is normalised below its key, wherever the key came from. *)
Lemma normalized_table_get entries path :
  unique_keys (Table entries) ->
  exists table, normalized_with_key_aliases (Table entries) path = Table table /\ NoDup table.*1 /\
    forall k, map_get table k =
    (fun child => normalized_with_key_aliases child (path ++ [k])) <$> map_get (normalize_key_aliases path entries) k.
Proof.
  intros Hu. simpl. eexists. split; [done|]. pose proof (proj1 (unique_keys_table _) Hu) as [Hnd _]. split.
  { apply aliases_nodup. rewrite (foldl_ext_elem _ (fun normalized e =>
      map_insert normalized (e.1) (normalized_with_key_aliases e.2 (path ++ [e.1])))).
    - apply fold_insert_nodup, NoDup_nil_2.
    - apply Forall_forall. by intros [] _ ?. }
  intros k. destruct (decide (path = [lit "memories"])) as [->|Hp]; [|by rewrite !aliases_elsewhere, normalized_get].
  rewrite !aliases_get, !normalized_get by done. repeat case_bool_decide; subst; try done.
  destruct (map_get entries (lit "disable_on_external_context")) eqn:Hc; simpl; [done|].
  destruct (map_get entries (lit "no_memories_if_mcp_or_web_search")) eqn:Hl; simpl; [|done].
  pose proof (unique_keys_get _ _ _ Hu Hl). by rewrite !normalized_deep.
Qed.

Lemma aliases_get_unique path entries k v :
  unique_keys (Table entries) -> map_get (normalize_key_aliases path entries) k = Some v -> unique_keys v.
Proof.
  intros Hu. destruct (decide (path = [lit "memories"])) as [->|Hp];
    [|rewrite aliases_elsewhere by done; by apply unique_keys_get].
  rewrite aliases_get. repeat case_bool_decide; try done; [|by apply unique_keys_get].
  case_match eqn:Hc; [intros; simplify_eq|]; by eapply unique_keys_get.
Qed.

(** After normalising and after merging, no legacy key is left. *)
Lemma normalized_aliases_done v path :
  unique_keys v -> path <> [lit "memories"; lit "no_memories_if_mcp_or_web_search"] ->
  aliases_done path (normalized_with_key_aliases v path).
Proof.
  intros Hu Hp rest. revert v path Hu Hp. induction rest as [|k rest IH]; intros v path Hu Hp Hr.
  { by rewrite app_nil_r in Hr. }
  destruct v as [| | | | | |entries]; try done.
  destruct (normalized_table_get entries path Hu) as (table & -> & _ & Hg). cbn [at_path]. rewrite Hg.
  destruct (map_get (normalize_key_aliases path entries) k) as [child|] eqn:Hc; [|done].
  cbn [fmap option_fmap option_map mbind option_bind]. apply IH.
  - by eapply aliases_get_unique.
  - intros Heq. change [lit "memories"; _] with ([lit "memories"] ++ [lit "no_memories_if_mcp_or_web_search"]) in Heq.
    apply app_inj_tail in Heq as [-> ->]. by rewrite aliases_get, bool_decide_true in Hc.
  - by rewrite <- app_assoc.
Qed.

Lemma merge_loop_nodup path entries base_table :
  NoDup base_table.*1 ->
  NoDup (foldl (fun base_table '(key, value) =>
                  merge_entry path base_table key value (merge_toml_values_at_path value)) base_table entries).*1.
Proof.
  revert base_table. induction entries as [|[key v] entries IH]; intros base Hnd; simpl; [done|]. apply IH.
  unfold merge_entry. case_match; by apply map_insert_nodup.
Qed.

Lemma merge_table_get o b path :
  NoDup o.*1 -> is_permission_network_domains_path path = false ->
  exists table, merge_toml_values_at_path (Table o) (Table b) path = Table table /\
    (NoDup b.*1 -> NoDup table.*1) /\
    forall k, map_get table k =
    match map_get (normalize_key_aliases path o) k with
    | Some value =>
        Some match map_get (normalize_key_aliases path b) k with
             | Some existing => merge_toml_values_at_path value existing (path ++ [k])
             | None => normalized_with_key_aliases value (path ++ [k])
             end
    | None => map_get (normalize_key_aliases path b) k
    end.
Proof.
  intros Hnd Hp. rewrite merge_tables. eexists. split; [done|]. unfold merge_keys. rewrite Hp. split.
  - intros Hb. by apply merge_loop_nodup, aliases_nodup.
  - intros k. apply merge_loop_get. by apply aliases_nodup.
Qed.

Lemma merge_not_tables o b path :
  is_table o = false \/ is_table b = false -> merge_toml_values_at_path o b path = normalized_with_key_aliases o path.
Proof. destruct o, b; simpl; intros [|]; done. Qed.

Lemma alias_path_not_domains path rest :
  path ++ rest = [lit "memories"; lit "no_memories_if_mcp_or_web_search"] ->
  is_permission_network_domains_path path = false.
Proof. intros Hr. apply (f_equal length) in Hr. rewrite length_app in Hr. simpl in Hr. by destruct path as [|? [|? [|]]]. Qed.

Lemma merge_aliases_done o b path :
  unique_keys o -> aliases_done path b -> path <> [lit "memories"; lit "no_memories_if_mcp_or_web_search"] ->
  aliases_done path (merge_toml_values_at_path o b path).
Proof.
  intros Hu Hb Hp rest. revert o b path Hu Hb Hp. induction rest as [|k rest IH]; intros o b path Hu Hb Hp Hr.
  { by rewrite app_nil_r in Hr. }
  destruct (decide (is_table o = true /\ is_table b = true)) as [[Ho Htb]|Hn].
  2:{ rewrite merge_not_tables; [by apply normalized_aliases_done|]. by destruct (is_table o), (is_table b); auto; exfalso; apply Hn. }
  destruct o as [| | | | | |o]; try done. destruct b as [| | | | | |b]; try done.
  pose proof (alias_path_not_domains _ _ Hr) as Hd.
  destruct (merge_table_get o b path (unique_keys_nodup _ Hu) Hd) as (table & -> & _ & Hg). cbn [at_path]. rewrite Hg.
  rewrite (aliases_done_get path b) by done.
  assert (path ++ [k] ++ rest = [lit "memories"; lit "no_memories_if_mcp_or_web_search"]) as Hr' by done.
  rewrite app_assoc in Hr'.
  destruct (map_get (normalize_key_aliases path o) k) as [value|] eqn:Hv; cbn [mbind option_bind].
  - assert (path ++ [k] <> [lit "memories"; lit "no_memories_if_mcp_or_web_search"]) as Hk.
    { intros Heq. change [lit "memories"; _] with ([lit "memories"] ++ [lit "no_memories_if_mcp_or_web_search"]) in Heq.
      apply app_inj_tail in Heq as [-> ->]. by rewrite aliases_get, bool_decide_true in Hv. }
    pose proof (aliases_get_unique _ _ _ _ Hu Hv) as Huv.
    destruct (map_get b k) eqn:Hbk; [|by apply normalized_aliases_done].
    apply IH; try done. by eapply aliases_done_child.
  - specialize (Hb _ Hr). simpl in Hb. done.
Qed.

(** Merging says of a setting what the overlay says, and what the base says where the overlay is silent. *)
Lemma merge_says o b path rest :
  unique_keys o -> aliases_done path b -> avoids_domains path rest ->
  set_to (says (merge_toml_values_at_path o b path) rest) =
  set_to (first_said (says (normalized_with_key_aliases o path) rest) (says b rest)).
Proof.
  revert o b path. induction rest as [|k rest IH]; intros o b path Hu Hb Ha.
  - destruct (decide (is_table o = true)) as [Ho|Ho].
    + destruct o; try done. destruct b; done.
    + rewrite merge_not_tables by (left; by apply not_true_is_false). by destruct o.
  - destruct (decide (is_table o = true)) as [Ho|Ho]; [|rewrite merge_not_tables by (left; by apply not_true_is_false); by destruct o].
    destruct o as [| | | | | |o]; try done. apply avoids_cons in Ha as [Hd Ha].
    destruct (decide (is_table b = true)) as [Htb|Htb].
    + destruct (normalized_table_get o path Hu) as (otable & Hot & _ & Hog). destruct b as [| | | | | |b]; try done.
      destruct (merge_table_get o b path (unique_keys_nodup _ Hu) Hd) as (table & -> & _ & Hg). rewrite Hot. cbn [says]. rewrite Hg, Hog.
      rewrite (aliases_done_get path b) by done.
      destruct (map_get (normalize_key_aliases path o) k) as [value|] eqn:Hv; [|done].
      cbn [fmap option_fmap option_map]. pose proof (aliases_get_unique _ _ _ _ Hu Hv).
      destruct (map_get b k) eqn:Hbk; [|by destruct (says (normalized_with_key_aliases value (path ++ [k])) rest)].
      apply IH; try done. by eapply aliases_done_child.
    + rewrite merge_not_tables by (right; by apply not_true_is_false).
      assert (says b (k :: rest) = NotSet) as -> by (destruct b; done).
      by destruct (says (normalized_with_key_aliases (Table o) path) (k :: rest)).
Qed.

(** ** Unique keys are kept *)

Section ValuesLemmas.
Context {V : Type} (P : V -> Prop).
Implicit Types (table : list (str * V)).

Lemma values_insert table k v : Forall (fun e => P e.2) table -> P v -> Forall (fun e => P e.2) (map_insert table k v).
Proof.
  intros Ht Hv. induction Ht as [|[k' v'] table Hp Ht IH]; simpl; [by apply Forall_singleton|].
  case_bool_decide; by constructor.
Qed.

Lemma values_get table k v : Forall (fun e => P e.2) table -> map_get table k = Some v -> P v.
Proof. intros Ht Hg%map_get_elem. rewrite Forall_forall in Ht. apply (Ht _ Hg). Qed.

Lemma values_aliases path table :
  Forall (fun e => P e.2) table -> Forall (fun e => P e.2) (normalize_key_aliases path table).
Proof.
  intros Ht. unfold normalize_key_aliases. cbn -[lit]. case_bool_decide; [|done].
  destruct (map_get table _) as [v|] eqn:Hg; [|done].
  assert (Forall (fun e => P e.2) (map_remove table (lit "no_memories_if_mcp_or_web_search"))) as Hr.
  { apply Forall_forall. intros e He. apply list_elem_of_In, filter_In in He as [He _].
    rewrite Forall_forall in Ht. by apply Ht, list_elem_of_In. }
  unfold or_insert. case_match; [done|]. apply values_insert; [done|]. exact (values_get _ _ _ Ht Hg).
Qed.

Lemma values_merge_keys path table : Forall (fun e => P e.2) table -> Forall (fun e => P e.2) (merge_keys path table).
Proof.
  intros Ht%(values_aliases path). unfold merge_keys. case_match; [|done]. unfold normalize_network_domain_keys.
  assert (Forall (fun e : str * V => P e.2) []) as Hacc by done. revert Hacc. generalize (@nil (str * V)).
  induction Ht as [|[k v] l Hv Ht IH]; intros acc Hacc; simpl; [done|]. apply IH. by apply values_insert.
Qed.

End ValuesLemmas.

Lemma merge_keys_nodup {V} path (table : list (str * V)) : NoDup table.*1 -> NoDup (merge_keys path table).*1.
Proof.
  intros Hnd%(aliases_nodup path). unfold merge_keys. case_match; [|done]. unfold normalize_network_domain_keys.
  assert (NoDup (@nil (str * V)).*1) as Hacc by constructor. revert Hacc. generalize (@nil (str * V)).
  clear Hnd. induction (normalize_key_aliases path table) as [|[k v] l IH]; intros acc Hacc; simpl; [done|].
  by apply IH, map_insert_nodup.
Qed.

Lemma normalized_unique v path : unique_keys v -> unique_keys (normalized_with_key_aliases v path).
Proof.
  revert path. induction v as [v Ht Ha|items IH|entries IH] using toml_ind; intros path Hu.
  - destruct v; try done. by destruct (Ha items).
  - apply unique_keys_array in Hu. simpl. apply unique_keys_array. apply Forall_fmap.
    rewrite Forall_forall in *. intros item Hin. by apply IH; auto.
  - destruct (normalized_table_get entries path Hu) as (table & Heq & Hnd & _). rewrite Heq.
    apply unique_keys_table. split; [done|]. simpl in Heq. injection Heq as <-. apply values_aliases.
    apply unique_keys_table in Hu as [_ Hu].
    assert (Forall (fun e : str * TomlValue => unique_keys e.2) []) as Hacc by done. revert Hacc.
    generalize (@nil (str * TomlValue)). clear Hnd. induction IH as [|[k v] l Hv IH IHl]; intros acc Hacc; simpl; [done|].
    apply Forall_cons in Hu as [Hk Hu]. apply IHl; [done|]. apply values_insert; [done|]. by apply Hv.
Qed.

Lemma merge_unique o b path : unique_keys o -> unique_keys b -> unique_keys (merge_toml_values_at_path o b path).
Proof.
  revert b path. induction o as [v Ht Ha|items IH|entries IH] using toml_ind; intros b path Ho Hb;
    [rewrite merge_not_tables by auto; by apply normalized_unique..|].
  destruct (decide (is_table b = true)) as [Htb|Htb];
    [|rewrite merge_not_tables by (right; by apply not_true_is_false); by apply normalized_unique].
  destruct b as [| | | | | |b]; try done. rewrite merge_tables.
  apply unique_keys_table in Ho as [Hno Ho], Hb as [Hnb Hb]. apply unique_keys_table. split.
  { apply merge_loop_nodup. by apply merge_keys_nodup. }
  pose (Q v := unique_keys v /\ forall b path, unique_keys v -> unique_keys b -> unique_keys (merge_toml_values_at_path v b path)).
  assert (Forall (fun e => Q e.2) (merge_keys path entries)) as HQ.
  { apply values_merge_keys, Forall_and. done. }
  apply (values_merge_keys _ path) in Hb. revert Hb. generalize (merge_keys path b). clear -HQ.
  induction HQ as [|[k v] l [Hv Hm] HQ IH]; intros acc Hacc; simpl; [done|]. apply IH. unfold merge_entry.
  destruct (map_get acc k) eqn:Hg; apply values_insert; try done; [apply Hm; [done|]|by apply normalized_unique].
  by eapply (values_get unique_keys).
Qed.

(** ** Layers of documents *)

(** Documents from the lowest to the highest, merged into the empty one. *)
Definition merge_documents (documents : list TomlValue) : TomlValue := foldl merge_toml_values (Table []) documents.

Lemma merge_documents_aliases_done documents :
  Forall unique_keys documents -> aliases_done [] (merge_documents documents).
Proof.
  induction documents as [|d documents IH] using rev_ind; intros Hu.
  { intros rest Hr. simpl in Hr. by subst. }
  apply Forall_snoc in Hu as [Hus Hd]. unfold merge_documents. rewrite foldl_app. simpl.
  apply merge_aliases_done; auto.
Qed.

Lemma merge_documents_says documents path :
  Forall unique_keys documents -> avoids_domains [] path ->
  setting (merge_documents documents) path =
  set_to (foldl (fun low d => first_said (says (normalized_with_key_aliases d []) path) low) Silent documents).
Proof.
  intros Hu Ha. rewrite setting_says. induction documents as [|d documents IH] using rev_ind.
  { by destruct path. }
  apply Forall_snoc in Hu as [Hus Hd]. unfold merge_documents in *. rewrite !foldl_app. simpl.
  unfold merge_toml_values at 1. rewrite merge_says by auto using merge_documents_aliases_done.
  specialize (IH Hus). destruct (says (normalized_with_key_aliases d []) path); simpl; done.
Qed.

Lemma snoc_decompose {A} (l lower higher : list A) (x d : A) :
  l ++ [x] = lower ++ d :: higher ->
  (higher = [] /\ l = lower /\ x = d) \/ (exists rest, higher = rest ++ [x] /\ l = lower ++ d :: rest).
Proof.
  intros Heq. destruct higher as [|h higher _] using rev_ind.
  - apply app_inj_tail in Heq as [-> ->]. by left.
  - rewrite app_comm_cons, app_assoc in Heq. apply app_inj_tail in Heq as [-> ->]. right. by exists higher.
Qed.

(** A merged setting is that of the highest document that is not silent about it. *)
Lemma merged_setting documents path v :
  Forall unique_keys documents -> avoids_domains [] path ->
  setting (merge_documents documents) path = Some v <->
  exists lower d higher, documents = lower ++ d :: higher /\
    says (normalized_with_key_aliases d []) path = SetTo v /\
    Forall (fun h => says (normalized_with_key_aliases h []) path = Silent) higher.
Proof.
  intros Hu Ha. rewrite merge_documents_says by done. clear Hu Ha.
  induction documents as [|d documents IH] using rev_ind.
  { split; [done|]. intros (lower & d & higher & Heq & _). by destruct lower. }
  assert (forall lower d' higher, documents ++ [d] = lower ++ d' :: higher ->
    says (normalized_with_key_aliases d' []) path = SetTo v ->
    Forall (fun h => says (normalized_with_key_aliases h []) path = Silent) higher ->
    says (normalized_with_key_aliases d []) path = SetTo v \/
    says (normalized_with_key_aliases d []) path = Silent /\
    exists rest, documents = lower ++ d' :: rest /\
      Forall (fun h => says (normalized_with_key_aliases h []) path = Silent) rest) as Hinv.
  { intros lower d' higher Heq Hset Hsil. apply snoc_decompose in Heq as [(-> & -> & ->)|(rest & -> & ->)]; [by left|].
    right. apply Forall_snoc in Hsil as []. split; [done|]. by exists rest. }
  rewrite foldl_app. simpl. destruct (says (normalized_with_key_aliases d []) path) as [| |v'] eqn:Hs; simpl.
  - rewrite IH. split; intros (lower & d' & higher & Heq & Hset & Hsil).
    + exists lower, d', (higher ++ [d]). subst. rewrite <- app_assoc. repeat split; [done..|]. by apply Forall_snoc.
    + destruct (Hinv _ _ _ Heq Hset Hsil) as [|[_ (rest & -> & Hr)]]; [done|]. by exists lower, d', rest.
  - split; [done|]. intros (lower & d' & higher & Heq & Hset & Hsil). by destruct (Hinv _ _ _ Heq Hset Hsil) as [|[]].
  - split; [intros [= ->]; by exists documents, d, []|]. intros (lower & d' & higher & Heq & Hset & Hsil).
    destruct (Hinv _ _ _ Heq Hset Hsil) as [|[]]; congruence.
Qed.

(** ** Overrides *)

Lemma override_sets current segments value :
  segments <> [] -> at_path (apply_toml_override_at current segments value) segments = Some value.
Proof.
  revert current. induction segments as [|s [|s' rest] IH]; intros current Hne; [done| |].
  - destruct current; simpl; rewrite ?map_get_insert, bool_decide_true; done.
  - change (apply_toml_override_at current (s :: s' :: rest) value) with
      (let table := match current with Table table => table | _ => [] end in
       Table (map_insert table s
                (apply_toml_override_at (default default_empty_table (map_get table s)) (s' :: rest) value))).
    cbv zeta. cbn [at_path]. rewrite map_get_insert, bool_decide_true by done. by apply IH.
Qed.

(** The last override of the command line is in the document it makes. *)
Lemma last_override_set overrides path value :
  at_path (build_cli_overrides_layer (overrides ++ [(path, value)])) (split_char 46 path) = Some value.
Proof.
  unfold build_cli_overrides_layer. rewrite foldl_app. simpl. apply override_sets, split_char_nonempty.
Qed.

(** An override leaves alone every path that parts from its own. *)
Lemma override_keeps current segments value pre s1 s2 rest1 rest2 :
  segments = pre ++ s1 :: rest1 -> s1 <> s2 ->
  (forall q, q `prefix_of` pre -> exists t, at_path current q = Some (Table t)) ->
  at_path (apply_toml_override_at current segments value) (pre ++ s2 :: rest2) = at_path current (pre ++ s2 :: rest2).
Proof.
  intros -> Hne. revert current. induction pre as [|p pre IH]; intros current Hq.
  - destruct (Hq [] (prefix_nil _)) as [t [= ->]]. simpl. destruct rest1; simpl; rewrite map_get_insert, bool_decide_false; done.
  - destruct (Hq [] (prefix_nil _)) as [t [= ->]].
    destruct (Hq [p]) as [t' Ht']; [by apply prefix_cons, prefix_nil|]. simpl in Ht'.
    destruct (map_get t p) as [child|] eqn:Hc; [|done]. simpl in Ht'. simplify_eq.
    assert (apply_toml_override_at (Table t) ((p :: pre) ++ s1 :: rest1) value =
      Table (map_insert t p (apply_toml_override_at (Table t') (pre ++ s1 :: rest1) value))) as ->.
    { simpl. rewrite Hc. by destruct pre. }
    cbn [app at_path]. rewrite map_get_insert, bool_decide_true, Hc by done. simpl. apply IH.
    intros q Hpre. destruct (Hq (p :: q)) as [t'' Ht'']; [by apply prefix_cons|]. simpl in Ht''. rewrite Hc in Ht''. eauto.
Qed.

End ConfigToml.
