(* ===== verification/PermissionProfiles.v ===== *)
(** * Named permission profiles: config/src/permissions_toml.rs and core/src/config/permissions.rs

    The permission profiles of a configuration: their data, the inheritance between them, and their compilation to
    the filesystem and network policies that [Permissions] decides with.  Maps that are [BTreeMap]s are lists in the
    order of their keys.  A profile is merged with its parent as a TOML document; how a profile is written as one and
    read back follows the serde attributes of the types, except for the network section, whose encoder and decoder
    are parameters.  Warnings are threaded as the list the code pushes them to.  The Windows branches are not
    modelled. *)

From S2P Require Import Prelude Text AbsolutePath Permissions WritableRoots IpAddress HostPatterns NetworkConfig ConfigToml.

Module PermissionProfiles.
Import AbsolutePath Permissions WritableRoots HostPatterns NetworkConfig ConfigToml.

(** ** Data *)

(** [codex-rs/config/src/permissions_toml.rs:210-213 WorkspaceRootsToml] *)
Definition WorkspaceRootsToml := list (str * bool).

(** [codex-rs/config/src/permissions_toml.rs:214-220 WorkspaceRootsToml::enabled_roots] *)
Definition enabled_roots (self : WorkspaceRootsToml) : list str :=
  omap (fun '(path, enabled) => if enabled : bool then Some path else None) self.

(** [codex-rs/config/src/permissions_toml.rs:241-244 FilesystemPermissionToml] *)
Inductive FilesystemPermissionToml :=
| Access (access : FileSystemAccessMode)
| Scoped (scoped_entries : list (str * FileSystemAccessMode)).

(** [codex-rs/config/src/permissions_toml.rs:224-231 FilesystemPermissionsToml] *)
Record FilesystemPermissionsToml := mkFilesystem {
  fs_glob_scan_max_depth : option N;
  fs_entries : list (str * FilesystemPermissionToml)
}.

(** [codex-rs/config/src/permissions_toml.rs:234-236 FilesystemPermissionsToml::is_empty] *)
Definition filesystem_is_empty (self : FilesystemPermissionsToml) : bool := bool_decide (length (fs_entries self) = 0).

(** [codex-rs/config/src/permissions_toml.rs:278-285 NetworkDomainPermissionToml] *)
Inductive NetworkDomainPermissionToml := AllowDomainToml | DenyDomainToml.

#[global] Instance NetworkDomainPermissionToml_eq_dec : EqDecision NetworkDomainPermissionToml.
Proof. solve_decision. Defined.

(** [codex-rs/config/src/permissions_toml.rs:247-250 NetworkDomainPermissionsToml] *)
Definition NetworkDomainPermissionsToml := list (str * NetworkDomainPermissionToml).

(** [codex-rs/config/src/permissions_toml.rs:257-265 NetworkDomainPermissionsToml::allowed_domains] *)
Definition toml_allowed_domains (self : NetworkDomainPermissionsToml) : option (list str) :=
  non_empty (map fst (List.filter (fun e => bool_decide (e.2 = AllowDomainToml)) self)).

(** [codex-rs/config/src/permissions_toml.rs:267-275 NetworkDomainPermissionsToml::denied_domains] *)
Definition toml_denied_domains (self : NetworkDomainPermissionsToml) : option (list str) :=
  non_empty (map fst (List.filter (fun e => bool_decide (e.2 = DenyDomainToml)) self)).

(** [codex-rs/config/src/permissions_toml.rs:321-324 NetworkUnixSocketPermissionToml] *)
Inductive NetworkUnixSocketPermissionToml := AllowSocketToml | DenySocketToml.

(** [codex-rs/config/src/permissions_toml.rs:402-407 NetworkMitmInjectedHeaderToml] *)
Record NetworkMitmInjectedHeaderToml := {
  injected_name : str; injected_secret_env_var : option str; injected_secret_file : option str; injected_prefix : option str
}.

(** [codex-rs/config/src/permissions_toml.rs:395-398 NetworkMitmActionToml] *)
Record NetworkMitmActionToml := {
  strip_request_headers : list str; inject_request_headers : list NetworkMitmInjectedHeaderToml
}.

(** [codex-rs/config/src/permissions_toml.rs:373-384 NetworkMitmHookToml] of the reserved body matcher, only whether
    it is given. *)
Record NetworkMitmHookToml := {
  toml_hook_host : str;
  toml_hook_methods : list str;
  toml_hook_path_prefixes : list str;
  toml_hook_query : list (str * list str);
  toml_hook_headers : list (str * list str);
  toml_hook_body : bool;
  toml_hook_action : list str
}.

(** [codex-rs/config/src/permissions_toml.rs:355-362 NetworkMitmToml] the maps in the order of insertion. *)
Record NetworkMitmToml := {
  mitm_toml_hooks : option (list (str * NetworkMitmHookToml));
  mitm_toml_actions : option (list (str * NetworkMitmActionToml))
}.

(** [codex-rs/config/src/permissions_toml.rs:336-353 NetworkToml] *)
Record NetworkToml := {
  t_enabled : option bool;
  t_proxy_url : option str;
  t_enable_socks5 : option bool;
  t_socks_url : option str;
  t_enable_socks5_udp : option bool;
  t_allow_upstream_proxy : option bool;
  t_dangerously_allow_non_loopback_proxy : option bool;
  t_dangerously_allow_all_unix_sockets : option bool;
  t_mode : option NetworkMode;
  t_domains : option NetworkDomainPermissionsToml;
  t_unix_sockets : option (list (str * NetworkUnixSocketPermissionToml));
  t_allow_local_binding : option bool;
  t_mitm : option NetworkMitmToml
}.

(** [codex-rs/config/src/permissions_toml.rs:113-119 PermissionProfileToml] *)
Record PermissionProfileToml := mkProfile {
  description : option str;
  extends : option str;
  workspace_roots : option WorkspaceRootsToml;
  filesystem : option FilesystemPermissionsToml;
  network : option NetworkToml
}.

(** [codex-rs/config/src/permissions_toml.rs:23-26 PermissionsToml] *)
Definition PermissionsToml := list (str * PermissionProfileToml).

(** [codex-rs/config/src/permissions_toml.rs:120-156 PermissionProfileResolutionError] *)
Inductive PermissionProfileResolutionError :=
| UndefinedProfile (profile_name : str)
| UndefinedParent (profile_name parent_profile_name : str)
| UnsupportedBuiltInParent (profile_name parent_profile_name : str)
| Cycle (cycle : list str)
| SerializeProfileToml (source : str)
| DeserializeProfileToml (source : str).

(** ** The network section *)

(** [codex-rs/config/src/permissions_toml.rs:496-498 NetworkMitmActionToml::is_empty] *)
Definition action_is_empty (self : NetworkMitmActionToml) : bool :=
  bool_decide (length (strip_request_headers self) = 0) && bool_decide (length (inject_request_headers self) = 0).

(** [codex-rs/config/src/permissions_toml.rs:430-454 NetworkMitmToml::validate_action_definitions] *)
Definition validate_action_definitions (self : NetworkMitmToml) : result str unit :=
  _ ← try_fold (fun _ '(action_name, action) =>
        if action_is_empty action
        then Err (lit "network.mitm.actions." ++ action_name ++ lit " must define at least one operation")
        else Ok tt) (default [] (mitm_toml_actions self)) tt;
  try_fold (fun _ '(hook_name, hook) =>
    if bool_decide (length (toml_hook_action hook) = 0)
    then Err (lit "network.mitm.hooks." ++ hook_name ++ lit ".action must not be empty")
    else Ok tt) (default [] (mitm_toml_hooks self)) tt.

(** [codex-rs/config/src/permissions_toml.rs:456-477 NetworkMitmToml::validate_action_references] *)
Definition validate_action_references (self : NetworkMitmToml) (actions_by_name : list (str * NetworkMitmActionToml))
    : result str unit :=
  _ ← validate_action_definitions self;
  try_fold (fun _ '(hook_name, hook) =>
    try_fold (fun _ action_name =>
      match map_get actions_by_name action_name with
      | None => Err (lit "network.mitm.hooks." ++ hook_name ++ lit ".action references undefined action " ++
                     [96%N] ++ action_name ++ [96%N])
      | Some _ => Ok tt
      end) (toml_hook_action hook) tt) (default [] (mitm_toml_hooks self)) tt.

(** [codex-rs/config/src/permissions_toml.rs:612-619 NetworkMitmInjectedHeaderToml::to_runtime] *)
Definition injected_to_runtime (self : NetworkMitmInjectedHeaderToml) : InjectedHeaderConfig :=
  mkInjected (injected_name self) (injected_secret_env_var self) (injected_secret_file self) (injected_prefix self).

(** [codex-rs/config/src/permissions_toml.rs:585-608 NetworkMitmHookToml::selected_actions] *)
Definition selected_actions (self : NetworkMitmHookToml) (actions_by_name : option (list (str * NetworkMitmActionToml)))
    : MitmHookActionsConfig :=
  match actions_by_name with
  | None => mkActionsConfig [] []
  | Some actions_by_name =>
      foldl (fun selected action_name =>
        match map_get actions_by_name action_name with
        | Some action =>
            mkActionsConfig (strip_request_headers_config selected ++ strip_request_headers action)
              (inject_request_headers_config selected ++ map injected_to_runtime (inject_request_headers action))
        | None => selected
        end) (mkActionsConfig [] []) (toml_hook_action self)
  end.

(** [codex-rs/config/src/permissions_toml.rs:568-583 NetworkMitmHookToml::to_runtime] *)
Definition hook_to_runtime (self : NetworkMitmHookToml) (actions_by_name : option (list (str * NetworkMitmActionToml)))
    : MitmHookConfig :=
  mkHookConfig (toml_hook_host self)
    (mkMatchConfig (toml_hook_methods self) (toml_hook_path_prefixes self) (toml_hook_query self) (toml_hook_headers self)
       (toml_hook_body self))
    (selected_actions self actions_by_name).

(** [codex-rs/config/src/permissions_toml.rs:479-492 NetworkMitmToml::to_runtime_hooks] *)
Definition to_runtime_hooks (self : NetworkMitmToml) (actions_by_name : option (list (str * NetworkMitmActionToml)))
    : list MitmHookConfig :=
  map (fun e => hook_to_runtime e.2 actions_by_name) (default [] (mitm_toml_hooks self)).

Definition domain_permission_to_proxy (permission : NetworkDomainPermissionToml) : NetworkDomainPermission :=
  match permission with AllowDomainToml => AllowDomain | DenyDomainToml => DenyDomain end.

Definition socket_permission_to_proxy (permission : NetworkUnixSocketPermissionToml) : NetworkUnixSocketPermission :=
  match permission with AllowSocketToml => AllowSocket | DenySocketToml => DenySocket end.

(** [codex-rs/config/src/permissions_toml.rs:621-635 overlay_network_domain_permissions] *)
Definition overlay_network_domain_permissions (config : NetworkProxySettings) (domains : NetworkDomainPermissionsToml)
    : NetworkProxySettings :=
  foldl (fun config '(pattern, permission) =>
    upsert_domain_permission config pattern (domain_permission_to_proxy permission) normalize_host) config domains.

(** [codex-rs/config/src/permissions_toml.rs:502-558 NetworkToml::apply_to_network_proxy_config] *)
Definition apply_to_network_proxy_config (self : NetworkToml) (config : NetworkProxySettings) : NetworkProxySettings :=
  let config :=
    mkSettings (default (enabled config) (t_enabled self))
      (default (proxy_url config) (t_proxy_url self))
      (default (enable_socks5 config) (t_enable_socks5 self))
      (default (socks_url config) (t_socks_url self))
      (default (enable_socks5_udp config) (t_enable_socks5_udp self))
      (default (allow_upstream_proxy config) (t_allow_upstream_proxy self))
      (default (dangerously_allow_non_loopback_proxy config) (t_dangerously_allow_non_loopback_proxy self))
      (default (dangerously_allow_all_unix_sockets config) (t_dangerously_allow_all_unix_sockets self))
      (default (mode config) (t_mode self))
      (domains config) (unix_sockets config) (allow_local_binding config) (mitm config) (mitm_hooks config) in
  let config := match t_domains self with
                | Some domains => overlay_network_domain_permissions config domains
                | None => config
                end in
  let config := match t_unix_sockets self with
                | Some sockets =>
                    set_unix_sockets config
                      (non_empty (foldl (fun us '(path, permission) =>
                                           btree_insert path (socket_permission_to_proxy permission) us)
                                    (default [] (unix_sockets config)) sockets))
                | None => config
                end in
  let 'mkSettings a b c d e f g h m ds us l i hooks := config in
  let l := default l (t_allow_local_binding self) in
  let hooks := match t_mitm self with Some mitm => to_runtime_hooks mitm (mitm_toml_actions mitm) | None => hooks end in
  let i := bool_decide (m = Limited) || negb (bool_decide (length hooks = 0)) in
  mkSettings a b c d e f g h m ds us l i hooks.

(** [codex-rs/config/src/permissions_toml.rs:560-564 NetworkToml::to_network_proxy_config] *)
Definition to_network_proxy_config (self : NetworkToml) : NetworkProxySettings :=
  apply_to_network_proxy_config self default_settings.

(** ** Profiles as TOML documents *)

Definition access_text (access : FileSystemAccessMode) : str :=
  match access with Read => lit "read" | Write => lit "write" | Deny => lit "deny" end.

(** The lowercase names, and the legacy alias [none]. *)
Definition access_of_text (text : str) : option FileSystemAccessMode :=
  if bool_decide (text = lit "read") then Some Read
  else if bool_decide (text = lit "write") then Some Write
  else if bool_decide (text = lit "deny" \/ text = lit "none") then Some Deny
  else None.

Definition expected {A} (what : string) (o : option A) : result str A := ok_or o (lit "expected " ++ lit what).

Definition access_of_toml (v : TomlValue) : option FileSystemAccessMode :=
  match v with String_ text => access_of_text text | _ => None end.

(** A value per entry, into a [BTreeMap]. *)
Definition btree_of {V} (entries : list (str * V)) : list (str * V) :=
  foldl (fun m '(key, v) => btree_insert key v m) [] entries.

(** [toml::map::Map] from the fields that are present. *)
Definition field {V} (name : string) (value : option V) (encode : V -> TomlValue) : list (str * TomlValue) :=
  match value with Some v => [(lit name, encode v)] | None => [] end.

(** An optional field read back. *)
Definition read_field {V} (table : list (str * TomlValue)) (name : string) (decode : TomlValue -> result str V)
    : result str (option V) :=
  match map_get table (lit name) with
  | Some v => Some <$> decode v
  | None => Ok None
  end.

Definition read_string (v : TomlValue) : result str str :=
  match v with String_ text => Ok text | _ => Err (lit "expected a string") end.
Definition read_bool (v : TomlValue) : result str bool :=
  match v with Boolean b => Ok b | _ => Err (lit "expected a boolean") end.
Definition read_table (v : TomlValue) : result str (list (str * TomlValue)) :=
  match v with Table table => Ok table | _ => Err (lit "expected a table") end.
Definition read_usize (v : TomlValue) : result str N :=
  match v with Integer i => if (0 <=? i)%Z then Ok (Z.to_N i) else Err (lit "expected a usize") | _ => Err (lit "expected a usize") end.

(** The entries of a map, each decoded. *)
Definition read_map {V} (decode : TomlValue -> result str V) (table : list (str * TomlValue))
    : result str (list (str * V)) :=
  btree_of <$> try_map (fun '(key, v) => v ← decode v; Ok (key, v)) table.

(** [FilesystemPermissionToml], untagged. *)
Definition permission_to_toml (permission : FilesystemPermissionToml) : TomlValue :=
  match permission with
  | Access access => String_ (access_text access)
  | Scoped scoped => Table (map (fun '(subpath, access) => (subpath, String_ (access_text access))) scoped)
  end.
Definition permission_of_toml (v : TomlValue) : result str FilesystemPermissionToml :=
  match v with
  | String_ _ => Access <$> expected "an access mode" (access_of_toml v)
  | Table scoped => Scoped <$> read_map (fun v => expected "an access mode" (access_of_toml v)) scoped
  | _ => Err (lit "data did not match any variant")
  end.

(** [FilesystemPermissionsToml], with its entries flattened. *)
Definition i64_max : N := 9223372036854775807.
Definition filesystem_to_toml (self : FilesystemPermissionsToml) : result str TomlValue :=
  let entries := map (fun '(path, permission) => (path, permission_to_toml permission)) (fs_entries self) in
  match fs_glob_scan_max_depth self with
  | Some depth =>
      if (depth <=? i64_max)%N then Ok (Table ((lit "glob_scan_max_depth", Integer (Z.of_N depth)) :: entries))
      else Err (lit "u64 value was too large")
  | None => Ok (Table entries)
  end.
Definition filesystem_of_toml (v : TomlValue) : result str FilesystemPermissionsToml :=
  table ← read_table v;
  depth ← read_field table "glob_scan_max_depth" read_usize;
  entries ← read_map permission_of_toml (map_remove table (lit "glob_scan_max_depth"));
  Ok (mkFilesystem depth entries).

Section Inheritance.
(** How serde writes and reads the network section. *)
Context (network_to_toml : NetworkToml -> result str TomlValue) (network_of_toml : TomlValue -> result str NetworkToml).

(** [TomlValue::try_from(profile)]: the fields that are set, in their order. *)
Definition profile_to_toml (self : PermissionProfileToml) : result str TomlValue :=
  filesystem ← (match filesystem self with Some fs => Some <$> filesystem_to_toml fs | None => Ok None end);
  network ← (match network self with Some net => Some <$> network_to_toml net | None => Ok None end);
  Ok (Table (field "description" (description self) String_ ++
             field "extends" (extends self) String_ ++
             field "workspace_roots" (workspace_roots self)
               (fun roots => Table (map (fun '(path, enabled) => (path, Boolean enabled)) roots)) ++
             field "filesystem" filesystem id ++
             field "network" network id)).

(** [value.try_into::<PermissionProfileToml>()]. *)
Definition profile_of_toml (v : TomlValue) : result str PermissionProfileToml :=
  table ← read_table v;
  description ← read_field table "description" read_string;
  extends ← read_field table "extends" read_string;
  workspace_roots ← read_field table "workspace_roots" (fun v => table ← read_table v; read_map read_bool table);
  filesystem ← read_field table "filesystem" filesystem_of_toml;
  network ← read_field table "network" network_of_toml;
  Ok (mkProfile description extends workspace_roots filesystem network).

(** [codex-rs/config/src/permissions_toml.rs:193-207 normalize_profile_network_domains] *)
Definition normalize_profile_network_domains (profile : PermissionProfileToml) : PermissionProfileToml :=
  match network profile with
  | Some net =>
      match t_domains net with
      | Some domains =>
          let domains := btree_of (map (fun '(pattern, permission) => (normalize_host pattern, permission)) domains) in
          mkProfile (description profile) (extends profile) (workspace_roots profile) (filesystem profile)
            (Some {| t_enabled := t_enabled net; t_proxy_url := t_proxy_url net; t_enable_socks5 := t_enable_socks5 net;
                     t_socks_url := t_socks_url net; t_enable_socks5_udp := t_enable_socks5_udp net;
                     t_allow_upstream_proxy := t_allow_upstream_proxy net;
                     t_dangerously_allow_non_loopback_proxy := t_dangerously_allow_non_loopback_proxy net;
                     t_dangerously_allow_all_unix_sockets := t_dangerously_allow_all_unix_sockets net;
                     t_mode := t_mode net; t_domains := Some domains; t_unix_sockets := t_unix_sockets net;
                     t_allow_local_binding := t_allow_local_binding net; t_mitm := t_mitm net |})
      | None => profile
      end
  | None => profile
  end.

(** [codex-rs/config/src/permissions_toml.rs:158-191 merge_permission_profiles] *)
Definition merge_permission_profiles (parent child : PermissionProfileToml)
    : result PermissionProfileResolutionError PermissionProfileToml :=
  let has_domains profile := bool_decide (is_Some (network profile ≫= t_domains)) in
  let merges_network_domains := has_domains parent && has_domains child in
  let parent := mkProfile None None (workspace_roots parent) (filesystem parent) (network parent) in
  let parent := if merges_network_domains then normalize_profile_network_domains parent else parent in
  let child := if merges_network_domains then normalize_profile_network_domains child else child in
  merged ← map_err SerializeProfileToml (profile_to_toml parent);
  child ← map_err SerializeProfileToml (profile_to_toml child);
  map_err DeserializeProfileToml (profile_of_toml (merge_toml_values merged child)).

(** A profile that is not there. *)
Definition missing_profile (referenced_by : option str) (next_profile_name : str) : PermissionProfileResolutionError :=
  match referenced_by with
  | None => UndefinedProfile next_profile_name
  | Some referenced_by =>
      if starts_with (lit ":") next_profile_name then UnsupportedBuiltInParent referenced_by next_profile_name
      else UndefinedParent referenced_by next_profile_name
  end.

(** The position of a name among those visited. *)
Definition position_of (name : str) (names : list str) : option nat :=
  fst <$> list_find (fun n => n = name) names.

(** [codex-rs/config/src/permissions_toml.rs:52-106 PermissionsToml::resolve_profile], the loop.  [None]: out of fuel. *)
Fixpoint resolve_loop (fuel : nat) (self : PermissionsToml) (parent_profile : str -> option PermissionProfileToml)
    (profile_names : list str) (profiles : list PermissionProfileToml) (next_profile_name : str)
    (referenced_by : option str) : option (result PermissionProfileResolutionError PermissionProfileToml) :=
  match fuel with
  | 0 => None
  | S fuel =>
      match position_of next_profile_name profile_names with
      | Some cycle_start => Some (Err (Cycle (drop cycle_start profile_names ++ [next_profile_name])))
      | None =>
          match match map_get self next_profile_name with
                | Some profile => Some profile
                | None => parent_profile next_profile_name
                end with
          | None => Some (Err (missing_profile referenced_by next_profile_name))
          | Some profile =>
              let profile_names := profile_names ++ [next_profile_name] in
              match extends profile with
              | Some parent_profile_name =>
                  resolve_loop fuel self parent_profile profile_names (profiles ++ [profile]) parent_profile_name
                    (Some next_profile_name)
              | None => Some (try_fold merge_permission_profiles (rev profiles) profile)
              end
          end
      end
  end.

(** [codex-rs/config/src/permissions_toml.rs:40-108 PermissionsToml::resolve_profile] A name is not visited twice, and
    the parents that are not entries extend nothing: one turn per entry, one for such a parent or the end of a
    cycle. *)
Definition resolve_profile (self : PermissionsToml) (profile_name : str)
    (parent_profile : str -> option PermissionProfileToml)
    : option (result PermissionProfileResolutionError PermissionProfileToml) :=
  resolve_loop (S (length self)) self parent_profile [] [] profile_name None.

End Inheritance.

(** ** Built-in profiles *)

(** [codex-rs/protocol/src/models.rs:301-307 BUILT_IN_PERMISSION_PROFILE_READ_ONLY] and its siblings. *)
Definition BUILT_IN_READ_ONLY_PROFILE : str := lit ":read-only".
Definition BUILT_IN_WORKSPACE_PROFILE : str := lit ":workspace".
Definition BUILT_IN_DANGER_FULL_ACCESS_PROFILE : str := lit ":danger-full-access".

(** [codex-rs/config/src/config_toml.rs:703-705 ProjectConfig] *)
Inductive TrustLevel := Trusted | Untrusted.

(** [codex-rs/core/src/config/permissions.rs:47-59 default_builtin_permission_profile_name] *)
Definition default_builtin_permission_profile_name (trust_level : option TrustLevel) : str :=
  match trust_level with
  | Some Trusted | Some Untrusted => BUILT_IN_WORKSPACE_PROFILE
  | None => BUILT_IN_READ_ONLY_PROFILE
  end.

(** [codex-rs/core/src/config/permissions.rs:61-68 is_builtin_permission_profile_name] *)
Definition is_builtin_permission_profile_name (profile_name : str) : bool :=
  bool_decide (profile_name = BUILT_IN_READ_ONLY_PROFILE \/ profile_name = BUILT_IN_WORKSPACE_PROFILE \/
               profile_name = BUILT_IN_DANGER_FULL_ACCESS_PROFILE).

(** [codex-rs/config/src/types.rs:1034-1045 SandboxWorkspaceWrite] *)
Record SandboxWorkspaceWrite := {
  ww_writable_roots : list str; ww_network_access : bool; ww_exclude_tmpdir_env_var : bool; ww_exclude_slash_tmp : bool
}.

(** The warnings of the start, threaded through a computation that may fail. *)
Definition W (A : Type) : Type := list str -> list str * result str A.
#[global] Instance W_ret : MRet W := fun _ a warnings => (warnings, Ok a).
#[global] Instance W_bind : MBind W := fun _ _ k m warnings =>
  match m warnings with
  | (warnings, Ok a) => k a warnings
  | (warnings, Err e) => (warnings, Err e)
  end.
Definition lift {A} (r : result str A) : W A := fun warnings => (warnings, r).

(** [for x in xs], collecting what the body adds. *)
Fixpoint collect {A B} (f : A -> W (list B)) (xs : list A) : W (list B) :=
  match xs with
  | [] => mret []
  | x :: xs => ys ← f x; rest ← collect f xs; mret (ys ++ rest)
  end.

(** [codex-rs/core/src/config/permissions.rs:882-885 push_warning] *)
Definition push_warning (message : str) : W unit := fun warnings => (warnings ++ [message], Ok tt).

Definition in_ticks (s : str) : str := [96%N] ++ s ++ [96%N].

(** [codex-rs/core/src/config/permissions.rs:99-118 validate_user_permission_profile_names] *)
Definition validate_user_permission_profile_names (permissions : option PermissionsToml) : result str unit :=
  match permissions with
  | None => Ok tt
  | Some permissions =>
      try_fold (fun _ '(profile_name, _) =>
        if starts_with (lit ":") profile_name
        then Err (lit "permissions profile " ++ in_ticks profile_name ++ lit " uses a reserved built-in profile prefix")
        else Ok tt) permissions tt
  end.

(** [codex-rs/core/src/config/permissions.rs:467-476 reject_unknown_builtin_permission_profile] *)
Definition reject_unknown_builtin_permission_profile (profile_name : str) : result str unit :=
  if starts_with (lit ":") profile_name
  then Err (lit "default_permissions refers to unknown built-in profile " ++ in_ticks profile_name)
  else Ok tt.

(** [codex-rs/core/src/config/permissions.rs:303-323 insert_scoped_filesystem_permission_toml] *)
Definition insert_scoped_filesystem_permission_toml (es : list (str * FilesystemPermissionToml)) (path subpath : str)
    (access : FileSystemAccessMode) : list (str * FilesystemPermissionToml) :=
  match map_get es path with
  | Some (Scoped scoped_entries) => btree_insert path (Scoped (btree_insert subpath access scoped_entries)) es
  | Some (Access _) | None => btree_insert path (Scoped [(subpath, access)]) es
  end.

(** [codex-rs/core/src/config/permissions.rs:255-301 insert_special_filesystem_permission_toml] *)
Definition insert_special_filesystem_permission_toml (es : list (str * FilesystemPermissionToml))
    (value : FileSystemSpecialPath) (access : FileSystemAccessMode) : list (str * FilesystemPermissionToml) :=
  match value with
  | Root => btree_insert (lit ":root") (Access access) es
  | Minimal => btree_insert (lit ":minimal") (Access access) es
  | ProjectRoots subpath =>
      insert_scoped_filesystem_permission_toml es (lit ":workspace_roots") (default (lit ".") subpath) access
  | Tmpdir => btree_insert (lit ":tmpdir") (Access access) es
  | SlashTmp => btree_insert (lit ":slash_tmp") (Access access) es
  | Unknown path (Some subpath) => insert_scoped_filesystem_permission_toml es path subpath access
  | Unknown path None => btree_insert path (Access access) es
  end.

(** [codex-rs/core/src/config/permissions.rs:235-253 insert_filesystem_permission_toml] *)
Definition insert_filesystem_permission_toml (es : list (str * FilesystemPermissionToml)) (entry : FileSystemSandboxEntry)
    : list (str * FilesystemPermissionToml) :=
  match entry_path entry with
  | Path path => btree_insert path (Access (entry_access entry)) es
  | GlobPattern pattern => btree_insert pattern (Access (entry_access entry)) es
  | Special value => insert_special_filesystem_permission_toml es value (entry_access entry)
  end.

(** [codex-rs/core/src/config/permissions.rs:216-233 permission_profile_toml_from_file_system_policy] *)
Definition permission_profile_toml_from_file_system_policy (file_system : FileSystemSandboxPolicy) : PermissionProfileToml :=
  mkProfile None None None
    (Some (mkFilesystem (glob_scan_max_depth file_system)
             (foldl insert_filesystem_permission_toml [] (entries file_system)))) None.

(** ** Paths and globs *)

(** [codex-rs/core/src/config/permissions.rs:756-758 contains_glob_chars] *)
Definition contains_glob_chars (path : str) : bool :=
  existsb (fun ch => bool_decide (ch ∈ lit "*?[]")) path.

(** [codex-rs/core/src/config/permissions.rs:770-772 remove_trailing_glob_suffix] *)
Definition remove_trailing_glob_suffix (path : str) : str := default path (strip_suffix (lit "/**") path).

(** [codex-rs/core/src/config/permissions.rs:779-791 parse_special_path] *)
Definition parse_special_path (path : str) : option FileSystemSpecialPath :=
  if bool_decide (path = lit ":root") then Some Root
  else if bool_decide (path = lit ":minimal") then Some Minimal
  else if bool_decide (path = lit ":workspace_roots") then Some (ProjectRoots None)
  else if bool_decide (path = lit ":tmpdir") then Some Tmpdir
  else if bool_decide (path = lit ":slash_tmp") then Some SlashTmp
  else if starts_with (lit ":") path then Some (Unknown path None)
  else None.

(** [codex-rs/core/src/config/permissions.rs:863-880 parse_relative_subpath] *)
Definition parse_relative_subpath (subpath : str) : result str str :=
  if negb (bool_decide (subpath = [])) &&
     forallb (fun c => match c with Normal _ => true | _ => false end) (components subpath)
  then Ok subpath
  else Err (lit "filesystem subpath " ++ in_ticks subpath ++
            lit " must be a descendant path without " ++ in_ticks (lit ".") ++ lit " or " ++ in_ticks (lit "..") ++
            lit " components").

(** [codex-rs/core/src/config/permissions.rs:677-693 compile_read_write_glob_path] *)
Definition compile_read_write_glob_path (path : str) (access : FileSystemAccessMode) : result str str :=
  if negb (contains_glob_chars path) then Ok path
  else
    let path_without_trailing_glob := remove_trailing_glob_suffix path in
    if negb (contains_glob_chars path_without_trailing_glob) then Ok path_without_trailing_glob
    else Err (lit "filesystem glob path " ++ in_ticks path ++ lit " only supports " ++ in_ticks (lit "deny") ++
              lit " access; use an exact path or trailing " ++ in_ticks (lit "/**") ++ lit " for " ++
              in_ticks (access_text access) ++ lit " subtree access").

(** [codex-rs/core/src/config/permissions.rs:695-718 unsupported_read_write_glob_paths] *)
Definition unsupported_read_write_glob_paths (fs : FilesystemPermissionsToml) : list str :=
  fs_entries fs ≫= fun '(path, permission) =>
    match permission with
    | Access access =>
        if negb (bool_decide (access = Deny)) && contains_glob_chars (remove_trailing_glob_suffix path) then [path] else []
    | Scoped scoped_entries =>
        scoped_entries ≫= fun '(subpath, access) =>
          if negb (bool_decide (access = Deny)) && contains_glob_chars (remove_trailing_glob_suffix subpath)
          then [path ++ lit "/" ++ subpath] else []
    end.

(** [codex-rs/core/src/config/permissions.rs:720-744 unbounded_unreadable_globstar_paths] *)
Definition unbounded_unreadable_globstar_paths (fs : FilesystemPermissionsToml) : list str :=
  match fs_glob_scan_max_depth fs with
  | Some _ => []
  | None =>
      fs_entries fs ≫= fun '(path, permission) =>
        match permission with
        | Access Deny => if contains_sub (lit "**") path then [path] else []
        | Access _ => []
        | Scoped scoped_entries =>
            scoped_entries ≫= fun '(subpath, access) =>
              if bool_decide (access = Deny) && contains_sub (lit "**") subpath then [path ++ lit "/" ++ subpath] else []
        end
  end.

(** [codex-rs/core/src/config/permissions.rs:746-754 validate_glob_scan_max_depth] *)
Definition validate_glob_scan_max_depth (max_depth : option N) : result str (option N) :=
  match max_depth with
  | Some 0%N => Err (lit "glob_scan_max_depth must be at least 1")
  | _ => Ok max_depth
  end.

(** [codex-rs/core/src/config/permissions.rs:887-891 missing_filesystem_entries_warning] *)
Definition missing_filesystem_entries_warning (profile_name : str) : str :=
  lit "Permissions profile " ++ in_ticks profile_name ++
  lit " does not define any recognized filesystem entries for this version of Codewith. Filesystem access will remain restricted. Upgrade Codewith if this profile expects filesystem permissions.".

(** [codex-rs/core/src/config/permissions.rs:893-912 maybe_push_unknown_special_path_warning] *)
Definition maybe_push_unknown_special_path_warning (special : FileSystemSpecialPath) : W unit :=
  match special with
  | Unknown path subpath =>
      push_warning
        (lit "Configured filesystem path " ++ in_ticks path ++
         match subpath with Some subpath => lit " with nested entry " ++ in_ticks subpath | None => [] end ++
         lit " is not recognized by this version of Codewith and will be ignored. Upgrade Codewith if this path is required.")
  | _ => mret tt
  end.

(** [codex-rs/core/src/config/permissions.rs:509-522 compile_network_sandbox_policy] *)
Definition compile_network_sandbox_policy (network : option NetworkToml) (base : NetworkSandboxPolicy)
    : NetworkSandboxPolicy :=
  match network with
  | None => base
  | Some network =>
      match t_enabled network with
      | Some true => NetEnabled
      | Some false => NetRestricted
      | None => base
      end
  end.

(** [codex-rs/core/src/config/permissions.rs:119-132 network_proxy_config_from_profile_network] *)
Definition network_proxy_config_from_profile_network (network : option NetworkToml) : NetworkProxySettings :=
  let 'mkSettings _ b c d e f g h m ds us l i hooks :=
    match network with Some network => to_network_proxy_config network | None => default_settings end in
  mkSettings false b c d e f g h m ds us l i hooks.

(** ** Compiling a profile *)

Section Compile.
Context (os : Os).
Context (network_to_toml : NetworkToml -> result str TomlValue) (network_of_toml : TomlValue -> result str NetworkToml).

(** [codex-rs/protocol/src/models.rs:403-418 PermissionProfile::workspace_write_with] *)
Definition workspace_write_with (writable_roots : list str) (network : NetworkSandboxPolicy)
    (exclude_tmpdir_env_var exclude_slash_tmp : bool) : option PermissionProfile :=
  (fun fs => Managed fs network) <$>
  managed_from_sandbox_policy (workspace_write os writable_roots exclude_tmpdir_env_var exclude_slash_tmp).

(** [codex-rs/protocol/src/models.rs:376-382 PermissionProfile::read_only] *)
Definition profile_read_only : option PermissionProfile :=
  (fun fs => Managed fs NetRestricted) <$> managed_from_sandbox_policy read_only.

(** [codex-rs/core/src/config/permissions.rs:70-97 builtin_permission_profile] *)
Definition builtin_permission_profile (profile_name : str) (workspace_write : option SandboxWorkspaceWrite)
    : option PermissionProfile :=
  if bool_decide (profile_name = BUILT_IN_READ_ONLY_PROFILE) then profile_read_only
  else if bool_decide (profile_name = BUILT_IN_WORKSPACE_PROFILE) then
    match workspace_write with
    | Some w =>
        workspace_write_with [] (if ww_network_access w then NetEnabled else NetRestricted)
          (ww_exclude_tmpdir_env_var w) (ww_exclude_slash_tmp w)
    | None => workspace_write_with [] NetRestricted false false
    end
  else if bool_decide (profile_name = BUILT_IN_DANGER_FULL_ACCESS_PROFILE) then Some Disabled
  else None.

(** [codex-rs/core/src/config/permissions.rs:203-214 extensible_builtin_parent_profile] *)
Definition extensible_builtin_parent_profile (profile_name : str) : option PermissionProfileToml :=
  if bool_decide (profile_name = BUILT_IN_READ_ONLY_PROFILE)
  then Some (permission_profile_toml_from_file_system_policy read_only)
  else if bool_decide (profile_name = BUILT_IN_WORKSPACE_PROFILE)
  then Some (permission_profile_toml_from_file_system_policy (workspace_write os [] false false))
  else None.

(** [codex-rs/config/src/permissions_toml.rs:120-156 PermissionProfileResolutionError] as a message. *)
Definition resolution_error_text (err : PermissionProfileResolutionError) : str :=
  match err with
  | UndefinedProfile name => lit "default_permissions refers to undefined profile " ++ in_ticks name
  | UndefinedParent name parent =>
      lit "permissions profile " ++ in_ticks name ++ lit " extends undefined profile " ++ in_ticks parent
  | UnsupportedBuiltInParent name parent =>
      lit "permissions profile " ++ in_ticks name ++ lit " cannot extend unsupported built-in profile " ++ in_ticks parent
  | Cycle cycle => lit "permissions profile inheritance cycle detected: " ++ join (lit " -> ") cycle
  | SerializeProfileToml source =>
      lit "failed to serialize permissions profile while resolving inheritance: " ++ source
  | DeserializeProfileToml source =>
      lit "failed to deserialize merged permissions profile while resolving inheritance: " ++ source
  end.

(** [codex-rs/core/src/config/permissions.rs:194-201 resolve_permission_profile] Running out of fuel cannot happen
    ([resolution_ends]). *)
Definition resolve_permission_profile (permissions : PermissionsToml) (profile_name : str) : result str PermissionProfileToml :=
  match resolve_profile network_to_toml network_of_toml permissions profile_name extensible_builtin_parent_profile with
  | Some (Ok profile) => Ok profile
  | Some (Err err) => Err (resolution_error_text err)
  | None => Err []
  end.

(** [codex-rs/core/src/config/permissions.rs:793-795 parse_absolute_path] *)
Definition parse_absolute_path (path : str) : result str str :=
  if negb (is_absolute path) && negb (bool_decide (path = lit "~")) && negb (starts_with (lit "~/") path)
  then Err (lit "filesystem path " ++ in_ticks path ++ lit " must be absolute, use " ++ in_ticks (lit "~/...") ++
            lit ", or start with " ++ in_ticks (lit ":"))
  else from_absolute_path (home_dir os) (current_dir os) path.

(** [codex-rs/core/src/config/permissions.rs:594-605 compile_filesystem_path] *)
Definition compile_filesystem_path (path : str) : W FileSystemPath :=
  match parse_special_path path with
  | Some special => _ ← maybe_push_unknown_special_path_warning special; mret (Special special)
  | None => path ← lift (parse_absolute_path path); mret (Path path)
  end.

(** [codex-rs/core/src/config/permissions.rs:571-592 compile_filesystem_access_path] *)
Definition compile_filesystem_access_path (path : str) (access : FileSystemAccessMode) : W FileSystemPath :=
  if negb (contains_glob_chars path) then compile_filesystem_path path
  else if bool_decide (access = Deny) then pattern ← lift (parse_absolute_path path); mret (GlobPattern pattern)
  else path ← lift (compile_read_write_glob_path path access); compile_filesystem_path path.

Definition no_nested_entries (path : str) : str :=
  lit "filesystem path " ++ in_ticks path ++ lit " does not support nested entries".

(** [codex-rs/core/src/config/permissions.rs:607-640 compile_scoped_filesystem_path] *)
Definition compile_scoped_filesystem_path (path subpath : str) : W FileSystemPath :=
  if bool_decide (subpath = lit ".") then compile_filesystem_path path
  else
    match parse_special_path path with
    | Some special =>
        subpath ← lift (parse_relative_subpath subpath);
        value ← lift match special with
                     | ProjectRoots _ => Ok (ProjectRoots (Some subpath))
                     | Unknown path _ => Ok (Unknown path (Some subpath))
                     | _ => Err (no_nested_entries path)
                     end;
        _ ← maybe_push_unknown_special_path_warning value;
        mret (Special value)
    | None =>
        subpath ← lift (parse_relative_subpath subpath);
        base ← lift (parse_absolute_path path);
        mret (Path (resolve_path_against_base (home_dir os) subpath base))
    end.

(** [codex-rs/core/src/config/permissions.rs:642-675 compile_scoped_filesystem_pattern] *)
Definition compile_scoped_filesystem_pattern (path subpath : str) (access : FileSystemAccessMode) : result str str :=
  if negb (bool_decide (access = Deny))
  then Err (lit "filesystem glob subpath " ++ in_ticks subpath ++ lit " only supports " ++ in_ticks (lit "deny") ++ lit " access")
  else
    subpath ← parse_relative_subpath subpath;
    match parse_special_path path with
    | Some (ProjectRoots _) => Ok (project_roots_glob_pattern subpath)
    | Some _ => Err (no_nested_entries path)
    | None => base ← parse_absolute_path path; Ok (abs_join (home_dir os) base subpath)
    end.

(** One entry of a scoped permission. *)
Definition compile_scoped_entry (path : str) (scoped : str * FileSystemAccessMode) : W (list FileSystemSandboxEntry) :=
  let '(subpath, access) := scoped in
  let has_glob := contains_glob_chars subpath in
  let can_compile_as_pattern := match parse_special_path path with
                                | Some (ProjectRoots _) | None => true
                                | Some _ => false
                                end in
  if has_glob && bool_decide (access = Deny) && can_compile_as_pattern
  then pattern ← lift (compile_scoped_filesystem_pattern path subpath access); mret [mkEntry (GlobPattern pattern) access]
  else
    subpath ← lift (compile_read_write_glob_path subpath access);
    path ← compile_scoped_filesystem_path path subpath;
    mret [mkEntry path access].

(** [codex-rs/core/src/config/permissions.rs:524-569 compile_filesystem_permission] *)
Definition compile_filesystem_permission (path : str) (permission : FilesystemPermissionToml)
    : W (list FileSystemSandboxEntry) :=
  match permission with
  | Access access => path ← compile_filesystem_access_path path access; mret [mkEntry path access]
  | Scoped scoped_entries => collect (compile_scoped_entry path) scoped_entries
  end.

Definition unsupported_glob_warning (pattern : str) : str :=
  lit "Filesystem glob " ++ in_ticks pattern ++ lit " uses " ++ in_ticks (lit "read") ++ lit " or " ++ in_ticks (lit "write") ++
  lit " access, which is not fully supported by this platform's sandboxing. Use an exact path or trailing " ++
  in_ticks (lit "/**") ++ lit " subtree rule instead. " ++ in_ticks (lit "deny") ++ lit " globs are supported.".

Definition unbounded_globstar_warning (pattern : str) : str :=
  lit "Filesystem deny-read glob " ++ in_ticks pattern ++ lit " uses " ++ in_ticks (lit "**") ++
  lit ". Non-macOS sandboxing does not support unbounded " ++ in_ticks (lit "**") ++ lit " natively; set " ++
  in_ticks (lit "glob_scan_max_depth") ++
  lit " in this filesystem profile to cap Linux glob expansion and silence this warning, or enumerate explicit depths such as " ++
  in_ticks (lit "*.env") ++ lit ", " ++ in_ticks (lit "*/*.env") ++ lit ", and " ++ in_ticks (lit "*/*/*.env") ++ lit ".".

(** Both lists of warnings, pushed one by one. *)
Definition push_warnings (messages : list str) : W unit := fun warnings => (warnings ++ messages, Ok tt).

(** The filesystem section of a resolved profile. *)
Definition compile_filesystem_section (profile_name : str) (fs : option FilesystemPermissionsToml)
    : W (list FileSystemSandboxEntry) :=
  match fs with
  | Some fs =>
      if filesystem_is_empty fs then _ ← push_warning (missing_filesystem_entries_warning profile_name); mret []
      else
        _ ← push_warnings (map unsupported_glob_warning (unsupported_read_write_glob_paths fs));
        _ ← push_warnings (map unbounded_globstar_warning (unbounded_unreadable_globstar_paths fs));
        collect (fun '(path, permission) => compile_filesystem_permission path permission) (fs_entries fs)
  | None => _ ← push_warning (missing_filesystem_entries_warning profile_name); mret []
  end.

(** [codex-rs/core/src/config/permissions.rs:350-409 compile_permission_profile] on a platform other than macOS. *)
Definition compile_permission_profile (permissions : PermissionsToml) (profile_name : str)
    : W (FileSystemSandboxPolicy * NetworkSandboxPolicy) :=
  profile ← lift (resolve_permission_profile permissions profile_name);
  es ← compile_filesystem_section profile_name (filesystem profile);
  depth ← lift (validate_glob_scan_max_depth (filesystem profile ≫= fs_glob_scan_max_depth));
  mret (mkPolicy Restricted depth es, compile_network_sandbox_policy (network profile) NetRestricted).

Definition require_permissions (permissions : option PermissionsToml) : result str PermissionsToml :=
  ok_or permissions (lit "default_permissions requires a " ++ in_ticks (lit "[permissions]") ++ lit " table").

(** [codex-rs/core/src/config/permissions.rs:411-430 compile_permission_profile_selection] *)
Definition compile_permission_profile_selection (permissions : option PermissionsToml) (profile_name : str)
    (workspace_write : option SandboxWorkspaceWrite) : W (FileSystemSandboxPolicy * NetworkSandboxPolicy) :=
  match builtin_permission_profile profile_name workspace_write with
  | Some profile => mret (file_system_sandbox_policy profile, network_sandbox_policy profile)
  | None =>
      _ ← lift (reject_unknown_builtin_permission_profile profile_name);
      permissions ← lift (require_permissions permissions);
      compile_permission_profile permissions profile_name
  end.

(** [codex-rs/core/src/config/permissions.rs:325-344 network_proxy_config_for_profile_selection] *)
Definition network_proxy_config_for_profile_selection (permissions : option PermissionsToml) (profile_name : str)
    : result str NetworkProxySettings :=
  if is_builtin_permission_profile_name profile_name then Ok default_settings
  else
    _ ← reject_unknown_builtin_permission_profile profile_name;
    permissions ← require_permissions permissions;
    profile ← resolve_permission_profile permissions profile_name;
    Ok (network_proxy_config_from_profile_network (network profile)).

(** [codex-rs/core/src/config/permissions.rs:455-465 compile_workspace_roots] *)
Definition compile_workspace_roots (workspace_roots : option WorkspaceRootsToml) (policy_cwd : str) : list str :=
  match workspace_roots with
  | Some workspace_roots =>
      map (fun path => resolve_path_against_base (home_dir os) path policy_cwd) (enabled_roots workspace_roots)
  | None => []
  end.

(** [codex-rs/core/src/config/permissions.rs:432-453 compile_permission_profile_workspace_roots] *)
Definition compile_permission_profile_workspace_roots (permissions : option PermissionsToml) (profile_name policy_cwd : str)
    : result str (list str) :=
  if is_builtin_permission_profile_name profile_name then Ok []
  else
    _ ← reject_unknown_builtin_permission_profile profile_name;
    permissions ← require_permissions permissions;
    profile ← resolve_permission_profile permissions profile_name;
    Ok (compile_workspace_roots (workspace_roots profile) policy_cwd).

(** [codex-rs/core/src/config/permissions.rs:481-507 get_readable_roots_required_for_codex_runtime] *)
Definition get_readable_roots_required_for_codex_runtime (codex_home : str) (zsh_path main_execve_wrapper_exe : option str)
    : list str :=
  let abs path := ok (from_absolute_path (home_dir os) (current_dir os) path) in
  let arg0_root := abs (path_join (path_join codex_home (lit "tmp")) (lit "arg0")) in
  let execve_wrapper_root :=
    main_execve_wrapper_exe ≫= fun path =>
      path ← abs path;
      match arg0_root with
      | Some arg0_root => if path_starts_with path arg0_root then abs_parent path else Some path
      | None => Some path
      end in
  option_list (zsh_path ≫= abs) ++ option_list execve_wrapper_root.

End Compile.

(** ** Inheritance *)

Section Resolution.
Context (network_to_toml : NetworkToml -> result str TomlValue) (network_of_toml : TomlValue -> result str NetworkToml).
Context (self : PermissionsToml) (parent_profile : str -> option PermissionProfileToml).
Local Notation merge := (merge_permission_profiles network_to_toml network_of_toml).
Local Notation loop := (resolve_loop network_to_toml network_of_toml).

(** The profile of a name: an entry, or a parent that is not one. *)
Definition declared (name : str) : option PermissionProfileToml :=
  match map_get self name with Some profile => Some profile | None => parent_profile name end.

(** [climbs start names profiles next]: following [extends] from [start] passes the names, whose profiles are given,
    and arrives at [next]. *)
Inductive climbs (start : str) : list str -> list PermissionProfileToml -> str -> Prop :=
| climbs_start : climbs start [] [] start
| climbs_up names profiles name profile next :
    climbs start names profiles name -> declared name = Some profile -> extends profile = Some next ->
    climbs start (names ++ [name]) (profiles ++ [profile]) next.

Lemma climbs_names start names profiles next :
  climbs start names profiles next ->
  (forall name profile, parent_profile name = Some profile -> extends profile = None) ->
  Forall (fun name => name ∈ self.*1) names.
Proof.
  intros Hc Hp. induction Hc as [|names profiles name profile next Hc IH Hd He]; [done|].
  apply Forall_snoc. split; [done|]. unfold declared in Hd. destruct (map_get self name) eqn:Hg.
  - apply list_elem_of_fmap. eexists (_, _). split; [done|]. by apply map_get_elem.
  - apply Hp in Hd. congruence.
Qed.

Lemma climbs_short start names profiles next :
  climbs start names profiles next -> NoDup names ->
  (forall name profile, parent_profile name = Some profile -> extends profile = None) ->
  length names <= length self.
Proof.
  intros Hc Hnd Hp. rewrite <- (length_fmap fst self). apply submseteq_length, NoDup_submseteq; [done|].
  apply Forall_forall. by eapply climbs_names.
Qed.

Lemma position_of_Some name names i : position_of name names = Some i -> names !! i = Some name.
Proof.
  unfold position_of. rewrite fmap_Some. intros ([j n] & Hf & ->). apply list_find_Some in Hf as (Hl & -> & _). done.
Qed.

Lemma position_of_None name names : position_of name names = None -> name ∉ names.
Proof.
  unfold position_of. rewrite fmap_None, list_find_None. intros Hf Hin. rewrite Forall_forall in Hf. by eapply Hf.
Qed.

(** How a resolution ends: with the profiles merged from the root down, at a name that was passed before, or at a name
    that is not declared. *)
Definition resolved (start : str) (r : result PermissionProfileResolutionError PermissionProfileToml) : Prop :=
  exists names profiles name, climbs start names profiles name /\ NoDup names /\
    ((exists root, declared name = Some root /\ extends root = None /\ r = try_fold merge (rev profiles) root) \/
     (exists i, names !! i = Some name /\ r = Err (Cycle (drop i names ++ [name]))) \/
     (declared name = None /\ r = Err (missing_profile (last names) name))).

Lemma loop_resolves fuel start names profiles name :
  (forall name profile, parent_profile name = Some profile -> extends profile = None) ->
  climbs start names profiles name -> NoDup names -> length self < length names + fuel ->
  exists r, loop fuel self parent_profile names profiles name (last names) = Some r /\ resolved start r.
Proof.
  intros Hp. revert names profiles name. induction fuel as [|fuel IH]; intros names profiles name Hc Hnd Hf.
  { pose proof (climbs_short _ _ _ _ Hc Hnd Hp). lia. }
  simpl. destruct (position_of name names) as [i|] eqn:Hi.
  { eexists. split; [done|]. exists names, profiles, name. repeat split; [done..|]. right; left. exists i.
    split; [by apply position_of_Some|done]. }
  change (match map_get self name with Some profile => Some profile | None => parent_profile name end) with (declared name).
  destruct (declared name) as [profile|] eqn:Hd.
  2:{ eexists. split; [done|]. exists names, profiles, name. repeat split; [done..|]. by right; right. }
  destruct (extends profile) as [next|] eqn:He.
  - rewrite <- (last_snoc name names). apply IH.
    + by econstructor.
    + apply NoDup_app. repeat split; [done| |apply NoDup_singleton].
      intros x Hx ->%list_elem_of_singleton. by apply position_of_None in Hi.
    + rewrite length_app. simpl. lia.
  - eexists. split; [done|]. exists names, profiles, name. repeat split; [done..|]. left. by exists profile.
Qed.

Lemma resolution_ends name :
  (forall name profile, parent_profile name = Some profile -> extends profile = None) ->
  exists r, resolve_profile network_to_toml network_of_toml self name parent_profile = Some r /\ resolved name r.
Proof.
  intros Hp. apply (loop_resolves (S (length self)) name [] [] name); [done|constructor|constructor|simpl; lia].
Qed.

End Resolution.

(** ** What a child inherits *)

Lemma btree_insert_get {V} (m : list (str * V)) k v k' :
  map_get (btree_insert k v m) k' = if bool_decide (k = k') then Some v else map_get m k'.
Proof.
  induction m as [|[k0 v0] m IH]; simpl; [done|]. repeat (case_bool_decide; simpl); simplify_eq; try done;
    try (case_match; simpl; repeat (case_bool_decide; simpl); simplify_eq; try done);
    rewrite IH; by rewrite ?bool_decide_true, ?bool_decide_false.
Qed.

Lemma btree_of_get {V} (l : list (str * V)) k : NoDup l.*1 -> map_get (btree_of l) k = map_get l k.
Proof.
  unfold btree_of. intros Hnd.
  assert (forall m, map_get (foldl (fun m '(key, v) => btree_insert key v m) m l) k =
            match map_get l k with Some v => Some v | None => map_get m k end) as ->; [|by case_match].
  induction l as [|[k0 v0] l IH]; csimpl; intros m; [done|]. apply NoDup_cons in Hnd as [Hn Hnd].
  rewrite IH, btree_insert_get by done. apply map_get_None in Hn. simpl in Hn. case_bool_decide; subst; by rewrite ?Hn.
Qed.

(** Two permissions that say the same of every path. *)
Definition same_permission (a b : FilesystemPermissionToml) : Prop :=
  match a, b with
  | Access a, Access b => a = b
  | Scoped a, Scoped b => forall subpath, map_get a subpath = map_get b subpath
  | _, _ => False
  end.

(** What a child declares replaces what its parent does; nested entries are kept unless the child names them. *)
Definition inherit (parent child : option FilesystemPermissionToml) : option FilesystemPermissionToml :=
  match child, parent with
  | Some (Scoped c), Some (Scoped p) => Some (Scoped (c ++ p))
  | Some c, _ => Some c
  | None, p => p
  end.

Lemma map_get_app {V} (a b : list (str * V)) k :
  map_get (a ++ b) k = match map_get a k with Some v => Some v | None => map_get b k end.
Proof. induction a as [|[k0 v0] a IH]; simpl; [done|]. by case_bool_decide. Qed.

Lemma try_map_keys {V} (decode : TomlValue -> result str V) (table : list (str * TomlValue)) (l : list (str * V)) :
  try_map (fun '(key, v) => v ← decode v; Ok (key, v)) table = Ok l -> l.*1 = table.*1.
Proof.
  revert l. induction table as [|[k0 v0] table IH]; simpl; intros l Hl; [by simplify_eq|].
  destruct (decode v0) as [w|]; simpl in Hl; [|done].
  destruct (try_map (fun '(key, v) => v ← decode v; Ok (key, v)) table) as [l'|]; simpl in Hl; [|done].
  simplify_eq. csimpl. by rewrite (IH l').
Qed.

Lemma read_map_get {V} (decode : TomlValue -> result str V) table m k :
  NoDup table.*1 -> read_map decode table = Ok m ->
  match map_get table k with
  | Some v => exists w, decode v = Ok w /\ map_get m k = Some w
  | None => map_get m k = None
  end.
Proof.
  unfold read_map. intros Hnd Hr.
  destruct (try_map (fun '(key, v) => v ← decode v; Ok (key, v)) table) as [l|] eqn:Hl; simpl in Hr; simplify_eq.
  apply try_map_keys in Hl as Hk. rewrite btree_of_get by by rewrite Hk. clear Hnd Hk. revert l Hl.
  induction table as [|[k0 v0] table IH]; simpl; intros l Hl; [by simplify_eq|].
  destruct (decode v0) as [w|] eqn:Hd; simpl in Hl; [|done].
  destruct (try_map (fun '(key, v) => v ← decode v; Ok (key, v)) table) as [l'|]; simpl in Hl; [|done].
  simplify_eq. simpl. case_bool_decide; [by exists w|by apply IH].
Qed.

Lemma read_map_ok {V} (decode : TomlValue -> result str V) table :
  Forall (fun e => is_ok (decode e.2) = true) table -> is_ok (read_map decode table) = true.
Proof.
  unfold read_map. intros Hall.
  assert (is_ok (try_map (fun '(key, v) => v ← decode v; Ok (key, v)) table) = true) as Hok.
  { induction Hall as [|[k v] table Hv Hall IH]; simpl in *; [done|]. destruct (decode v); simpl in *; [|done].
    by destruct (try_map _ table). }
  by destruct (try_map _ table).
Qed.

Lemma access_text_read access : access_of_text (access_text access) = Some access.
Proof. by destruct access. Qed.

(** The permissions that a [BTreeMap] can hold. *)
Definition permission_wf (permission : FilesystemPermissionToml) : Prop :=
  match permission with Access _ => True | Scoped scoped => NoDup scoped.*1 end.

Definition scoped_to_toml (scoped : list (str * FileSystemAccessMode)) : list (str * TomlValue) :=
  with_values (fun access => String_ (access_text access)) scoped.

Lemma with_values_fst {V U} (g : V -> U) (table : list (str * V)) : (with_values g table).*1 = table.*1.
Proof. induction table as [|[k v] table IH]; csimpl; [done|]. by rewrite IH. Qed.

Lemma permission_toml_unique permission : permission_wf permission -> unique_keys (permission_to_toml permission).
Proof.
  destruct permission as [|scoped]; [done|]. intros Hnd. simpl permission_to_toml.
  change (map _ scoped) with (scoped_to_toml scoped). apply unique_keys_table. unfold scoped_to_toml.
  rewrite with_values_fst. split; [done|]. clear. induction scoped as [|[k v] s IH]; by constructor.
Qed.

(** Reading back texts of access modes. *)
Lemma read_scoped table m :
  NoDup table.*1 ->
  (forall k, map_get table k = (fun access => String_ (access_text access)) <$> m k) ->
  exists scoped, read_map (fun v => expected "an access mode" (access_of_toml v)) table = Ok scoped /\
    forall k, map_get scoped k = m k.
Proof.
  intros Hnd Hm. destruct (read_map _ table) as [scoped|] eqn:Hr.
  - exists scoped. split; [done|]. intros k. pose proof (read_map_get _ _ _ k Hnd Hr) as Hg. rewrite Hm in Hg.
    destruct (m k) as [access|]; simpl in Hg; [|done]. destruct Hg as (w & Hw & ->).
    rewrite access_text_read in Hw. simpl in Hw. by simplify_eq.
  - exfalso. assert (is_ok (read_map (fun v => expected "an access mode" (access_of_toml v)) table) = true) as Hok;
      [|by rewrite Hr in Hok].
    apply read_map_ok, Forall_forall. intros [k v] Hin. apply elem_map_get in Hin; [|done]. rewrite Hm in Hin.
    destruct (m k); simpl in Hin; simplify_eq. simpl. by rewrite access_text_read.
Qed.

Lemma permission_read_back permission path :
  permission_wf permission -> 2 <= length path ->
  exists r, permission_of_toml (normalized_with_key_aliases (permission_to_toml permission) path) = Ok r /\
    same_permission r permission.
Proof.
  intros Hwf Hp. rewrite normalized_deep by auto using permission_toml_unique.
  destruct permission as [access|scoped]; [by destruct access; eexists|]. simpl permission_to_toml.
  change (map _ scoped) with (scoped_to_toml scoped).
  destruct (read_scoped (scoped_to_toml scoped) (map_get scoped)) as (s & Hs & Hg).
  - unfold scoped_to_toml. by rewrite with_values_fst.
  - intros k. apply with_values_get.
  - exists (Scoped s). simpl. by rewrite Hs.
Qed.

Lemma permission_merge parent child path :
  permission_wf parent -> permission_wf child -> length path = 2 ->
  exists r q, permission_of_toml (merge_toml_values_at_path (permission_to_toml child) (permission_to_toml parent) path) = Ok r /\
    inherit (Some parent) (Some child) = Some q /\ same_permission r q.
Proof.
  intros Hp Hc Hl. destruct (decide (is_table (permission_to_toml child) = true /\ is_table (permission_to_toml parent) = true)) as [[H1 H2]|Hn].
  - destruct child as [|c]; [done|]. destruct parent as [|p]; [done|]. simpl permission_to_toml.
    change (map _ c) with (scoped_to_toml c). change (map _ p) with (scoped_to_toml p).
    assert (is_permission_network_domains_path path = false) as Hd by by destruct path as [|? [|? [|]]].
    assert (forall V (l : list (str * V)) k, map_get (normalize_key_aliases path l) k = map_get l k) as Ha.
    { intros. apply aliases_elsewhere. intros ->. done. }
    destruct (merge_table_get (scoped_to_toml c) (scoped_to_toml p) path) as (table & -> & Hnd & Hg).
    { unfold scoped_to_toml. by rewrite with_values_fst. } { done. }
    destruct (read_scoped table (map_get (c ++ p))) as (s & Hs & Hsg).
    + apply Hnd. unfold scoped_to_toml. by rewrite with_values_fst.
    + intros k. rewrite Hg, !Ha, map_get_app. unfold scoped_to_toml. rewrite !with_values_get.
      destruct (map_get c k), (map_get p k); done.
    + exists (Scoped s), (Scoped (c ++ p)). simpl. by rewrite Hs.
  - rewrite merge_not_tables.
    2:{ destruct (is_table (permission_to_toml child)), (is_table (permission_to_toml parent)); auto. exfalso. by apply Hn. }
    destruct (permission_read_back child path Hc) as (r & Hr & Hs); [lia|]. exists r, child. split; [done|].
    split; [|done]. destruct child, parent; simpl in *; try done. by exfalso; apply Hn.
Qed.

(** The filesystem sections that a configuration can hold. *)
Definition filesystem_wf (fs : FilesystemPermissionsToml) : Prop :=
  NoDup (fs_entries fs).*1 /\ lit "glob_scan_max_depth" ∉ (fs_entries fs).*1 /\
  Forall (fun e => permission_wf e.2) (fs_entries fs).

Lemma filesystem_wf_get fs path permission :
  filesystem_wf fs -> map_get (fs_entries fs) path = Some permission -> permission_wf permission.
Proof. intros (_ & _ & Hall) Hg%map_get_elem. rewrite Forall_forall in Hall. apply (Hall _ Hg). Qed.

Lemma filesystem_toml_get fs v :
  filesystem_wf fs -> filesystem_to_toml fs = Ok v ->
  exists table, v = Table table /\ unique_keys v /\
    (forall path, path <> lit "glob_scan_max_depth" ->
      map_get table path = permission_to_toml <$> map_get (fs_entries fs) path).
Proof.
  intros (Hnd & Hk & Hall) Hv. unfold filesystem_to_toml in Hv.
  change (map _ (fs_entries fs)) with (with_values permission_to_toml (fs_entries fs)) in Hv.
  assert (unique_keys (Table (with_values permission_to_toml (fs_entries fs)))) as Hu.
  { apply unique_keys_table. rewrite with_values_fst. split; [done|]. clear -Hall.
    induction Hall as [|[k p] es Hp Hall IH]; constructor; [by apply permission_toml_unique|done]. }
  destruct (fs_glob_scan_max_depth fs) as [depth|]; [destruct (depth <=? i64_max)%N; [|done]|]; simplify_eq.
  - eexists. split; [done|]. split.
    + apply unique_keys_table in Hu as [Hn Hu]. apply unique_keys_table. csimpl. split; [|by constructor].
      apply NoDup_cons. split; [|done]. by rewrite with_values_fst.
    + intros path Hp. simpl. rewrite bool_decide_false by done. apply with_values_get.
  - eexists. split; [done|]. split; [done|]. intros path _. apply with_values_get.
Qed.

Lemma filesystem_read_get table fs path :
  NoDup table.*1 -> filesystem_of_toml (Table table) = Ok fs -> path <> lit "glob_scan_max_depth" ->
  match map_get table path with
  | Some v => exists w, permission_of_toml v = Ok w /\ map_get (fs_entries fs) path = Some w
  | None => map_get (fs_entries fs) path = None
  end.
Proof.
  intros Hnd Hr Hp. unfold filesystem_of_toml in Hr. simpl in Hr.
  destruct (read_field table "glob_scan_max_depth" read_usize); simpl in Hr; [|done].
  destruct (read_map permission_of_toml (map_remove table (lit "glob_scan_max_depth"))) as [es|] eqn:He; simpl in Hr; [|done].
  simplify_eq. simpl. pose proof (read_map_get _ _ _ path (map_remove_nodup _ _ Hnd) He) as Hg.
  rewrite map_get_remove, bool_decide_false in Hg by done. done.
Qed.

(** What a profile declares for a path. *)
Definition declares (profile : PermissionProfileToml) (path : str) : option FilesystemPermissionToml :=
  fs ← filesystem profile; map_get (fs_entries fs) path.

Definition profile_wf (profile : PermissionProfileToml) : Prop :=
  match filesystem profile with Some fs => filesystem_wf fs | None => True end.

Lemma declares_wf profile path permission :
  profile_wf profile -> declares profile path = Some permission -> permission_wf permission.
Proof. unfold profile_wf, declares. destruct (filesystem profile); simpl; [apply filesystem_wf_get|done]. Qed.

Section Inherited.
Context (network_to_toml : NetworkToml -> result str TomlValue) (network_of_toml : TomlValue -> result str NetworkToml).

(** A profile as a document: its filesystem section holds what it declares. *)
Lemma profile_toml_get profile v :
  profile_wf profile -> profile_to_toml network_to_toml profile = Ok v ->
  exists table, v = Table table /\ NoDup table.*1 /\
    match map_get table (lit "filesystem") with
    | Some fs => exists entries, fs = Table entries /\ unique_keys fs /\ is_Some (filesystem profile) /\
        forall path, path <> lit "glob_scan_max_depth" -> map_get entries path = permission_to_toml <$> declares profile path
    | None => filesystem profile = None
    end.
Proof.
  intros Hwf Hv. unfold profile_to_toml in Hv.
  destruct (match filesystem profile with Some fs => Some <$> filesystem_to_toml fs | None => Ok None end) as [fs|] eqn:Hf;
    simpl in Hv; [|done].
  destruct (match network profile with Some net => Some <$> network_to_toml net | None => Ok None end) as [net|]; simpl in Hv; [|done].
  simplify_eq. eexists. split; [done|]. unfold declares. unfold profile_wf in Hwf.
  assert (map_get (field "description" (description profile) String_ ++
             field "extends" (extends profile) String_ ++
             field "workspace_roots" (workspace_roots profile)
               (fun roots => Table (map (fun '(path, enabled) => (path, Boolean enabled)) roots)) ++
             field "filesystem" fs id ++ field "network" net id) (lit "filesystem") = fs) as ->.
  { by destruct (description profile), (extends profile), (workspace_roots profile), fs, net. }
  split.
  - destruct (description profile), (extends profile), (workspace_roots profile), fs, net; apply (bool_decide_unpack _); by vm_compute.
  - destruct (filesystem profile) as [f|] eqn:He; [|by simplify_eq].
    destruct (filesystem_to_toml f) as [ft|] eqn:Ht; simpl in Hf; simplify_eq.
    destruct (filesystem_toml_get f ft Hwf Ht) as (table & -> & Hu & Hg). exists table. split; [done|]. split; [done|]. split; [done|].
    intros path Hp. simpl. by apply Hg.
Qed.

Lemma profile_read_get table m :
  profile_of_toml network_of_toml (Table table) = Ok m ->
  match map_get table (lit "filesystem") with
  | Some v => exists fs, filesystem_of_toml v = Ok fs /\ filesystem m = Some fs
  | None => filesystem m = None
  end.
Proof.
  unfold profile_of_toml, read_field. simpl. intros Hm.
  repeat match goal with
         | H : (?r ≫= _) = Ok _ |- _ => let E := fresh in destruct r eqn:E; simpl in H; [|done]
         end.
  simplify_eq. simpl. destruct (map_get table (lit "filesystem")) as [v|]; [|by simplify_eq].
  destruct (filesystem_of_toml v) as [fs|]; simpl in *; simplify_eq. by exists fs.
Qed.

Lemma normalize_domains_filesystem profile : filesystem (normalize_profile_network_domains profile) = filesystem profile.
Proof. unfold normalize_profile_network_domains. by destruct (network profile) as [net|]; [destruct (t_domains net)|]. Qed.

Lemma permission_read permission :
  permission_wf permission ->
  exists r, permission_of_toml (permission_to_toml permission) = Ok r /\ same_permission r permission.
Proof.
  intros Hwf. destruct (permission_read_back permission [[]; []] Hwf) as (r & Hr & Hs); [done|].
  rewrite normalized_deep in Hr by auto using permission_toml_unique. by exists r.
Qed.

(** What is read from a table of permissions, some of them inherited. *)
Lemma declares_read table m fs path q :
  NoDup table.*1 -> filesystem_of_toml (Table table) = Ok fs -> filesystem m = Some fs ->
  path <> lit "glob_scan_max_depth" ->
  match map_get table path with
  | Some v => exists r p, permission_of_toml v = Ok r /\ q = Some p /\ same_permission r p
  | None => q = None
  end ->
  option_Forall2 same_permission (declares m path) q.
Proof.
  intros Hnd Hr Hm Hp Hq. unfold declares. rewrite Hm. simpl.
  pose proof (filesystem_read_get _ _ path Hnd Hr Hp) as Hg. destruct (map_get table path) as [v|].
  - destruct Hq as (r & p & Hv & -> & Hs), Hg as (w & Hw & ->). rewrite Hv in Hw. simplify_eq. by constructor.
  - subst. rewrite Hg. constructor.
Qed.

Lemma inherit_nothing o : inherit o None = o.
Proof. done. Qed.

(** The filesystem sections of a parent and of its child, merged as documents. *)
Lemma sections_merge parent child po ch table m path :
  profile_wf parent -> profile_wf child ->
  profile_to_toml network_to_toml parent = Ok po -> profile_to_toml network_to_toml child = Ok ch ->
  merge_toml_values po ch = Table table -> profile_of_toml network_of_toml (Table table) = Ok m ->
  path <> lit "glob_scan_max_depth" ->
  option_Forall2 same_permission (declares m path) (inherit (declares parent path) (declares child path)).
Proof.
  intros Hwp Hwc Hpo Hch Hm Hr Hp.
  destruct (profile_toml_get _ _ Hwp Hpo) as (pt & -> & Hpn & Hpf).
  destruct (profile_toml_get _ _ Hwc Hch) as (ct & -> & Hcn & Hcf).
  unfold merge_toml_values in Hm. destruct (merge_table_get ct pt [] Hcn eq_refl) as (t & Ht & _ & Hg).
  rewrite Ht in Hm. injection Hm as <-. specialize (Hg (lit "filesystem")). rewrite !aliases_elsewhere in Hg by done.
  apply profile_read_get in Hr. rewrite Hg in Hr. clear Hg Ht.
  assert (forall V (l : list (str * V)) k, map_get (normalize_key_aliases [lit "filesystem"] l) k = map_get l k) as Ha.
  { intros. by apply aliases_elsewhere. }
  destruct (map_get ct (lit "filesystem")) as [cf|].
  2:{ assert (declares child path = None) as -> by (unfold declares; by rewrite Hcf). rewrite inherit_nothing.
      destruct (map_get pt (lit "filesystem")) as [pf|]; [|unfold declares; rewrite Hr, Hpf; constructor].
      destruct Hr as (fs & Hfs & Hm), Hpf as (pe & -> & Hpu & _ & Hpe).
      apply (declares_read pe m fs); [by apply unique_keys_nodup|done..|]. rewrite Hpe by done.
      destruct (declares parent path) as [p|] eqn:Hdp; simpl; [|done].
      destruct (permission_read p) as (r & Hrr & Hs); [by apply (declares_wf parent path)|]. by exists r, p. }
  destruct Hr as (fs & Hfs & Hm), Hcf as (ce & -> & Hcu & _ & Hce).
  destruct (map_get pt (lit "filesystem")) as [pf|].
  - destruct Hpf as (pe & -> & Hpu & _ & Hpe).
    destruct (merge_table_get ce pe ([] ++ [lit "filesystem"]) (unique_keys_nodup _ Hcu) eq_refl) as (T & HT & Hnd & Hg).
    rewrite HT in Hfs. apply (declares_read T m fs); [by apply Hnd, unique_keys_nodup|done..|].
    cbn [app] in *. rewrite Hg, !Ha, Hce, Hpe by done.
    destruct (declares child path) as [c|] eqn:Hdc, (declares parent path) as [p|] eqn:Hdp; simpl; try done.
    + destruct (permission_merge p c [lit "filesystem"; path]) as (r & q & Hrr & Hq & Hs); eauto using declares_wf.
    + destruct (permission_read_back c [lit "filesystem"; path]) as (r & Hrr & Hs); [by apply (declares_wf child path)|done|].
      exists r, c. split; [done|]. by destruct c.
    + destruct (permission_read p) as (r & Hrr & Hs); [by apply (declares_wf parent path)|]. by exists r, p.
  - destruct (normalized_table_get ce ([] ++ [lit "filesystem"]) Hcu) as (T & HT & Hnd & Hg).
    rewrite HT in Hfs. apply (declares_read T m fs); [done..|]. cbn [app] in *. rewrite Hg, Ha, Hce by done.
    assert (declares parent path = None) as -> by (unfold declares; by rewrite Hpf).
    destruct (declares child path) as [c|] eqn:Hdc; simpl; [|done].
    destruct (permission_read_back c [lit "filesystem"; path]) as (r & Hrr & Hs); [by apply (declares_wf child path)|done|].
    exists r, c. split; [done|]. by destruct c.
Qed.

Lemma merge_inherits parent child m path :
  profile_wf parent -> profile_wf child ->
  merge_permission_profiles network_to_toml network_of_toml parent child = Ok m -> path <> lit "glob_scan_max_depth" ->
  option_Forall2 same_permission (declares m path) (inherit (declares parent path) (declares child path)).
Proof.
  intros Hwp Hwc Hm Hp. unfold merge_permission_profiles in Hm.
  set (dom := bool_decide _ && bool_decide _) in Hm. clearbody dom.
  set (c := if dom then normalize_profile_network_domains child else child) in Hm.
  set (p := if dom then normalize_profile_network_domains _ else _) in Hm.
  assert (filesystem p = filesystem parent) as Hfp by (subst p; destruct dom; rewrite ?normalize_domains_filesystem; done).
  assert (filesystem c = filesystem child) as Hfc by (subst c; destruct dom; rewrite ?normalize_domains_filesystem; done).
  destruct (profile_to_toml network_to_toml p) as [po|] eqn:Hpo; simpl in Hm; [|done].
  destruct (profile_to_toml network_to_toml c) as [ch|] eqn:Hch; simpl in Hm; [|done].
  destruct (profile_of_toml network_of_toml (merge_toml_values po ch)) as [m'|] eqn:Hr; simpl in Hm; [|done]. simplify_eq.
  assert (exists table, merge_toml_values po ch = Table table) as [table Ht].
  { destruct (merge_toml_values po ch); try done. by eexists. }
  rewrite Ht in Hr.
  assert (declares parent path = declares p path) as -> by (unfold declares; by rewrite Hfp).
  assert (declares child path = declares c path) as -> by (unfold declares; by rewrite Hfc).
  eapply sections_merge; try done; unfold profile_wf; by rewrite ?Hfp, ?Hfc.
Qed.

End Inherited.

Lemma btree_insert_keys {V} k (v : V) m : k ∉ m.*1 -> (btree_insert k v m).*1 ≡ₚ k :: m.*1.
Proof.
  induction m as [|[k' v'] m IH]; csimpl; intros Hk; [done|]. rewrite bool_decide_false by set_solver.
  case_match; csimpl; [done|]. rewrite IH by set_solver. apply Permutation_swap.
Qed.

Lemma btree_of_keys {V} (l : list (str * V)) : NoDup l.*1 -> (btree_of l).*1 ≡ₚ l.*1.
Proof.
  unfold btree_of. induction l as [|[k v] l IH] using rev_ind; intros Hnd; [done|].
  rewrite fmap_app in Hnd. csimpl in Hnd. apply NoDup_app in Hnd as (Hl & Hd & _).
  rewrite foldl_app, fmap_app. csimpl. rewrite btree_insert_keys.
  - rewrite IH by done. apply Permutation_cons_append.
  - rewrite IH by done. intros Hin. by apply (Hd k), list_elem_of_singleton.
Qed.

Lemma read_map_keys {V} (decode : TomlValue -> result str V) table m :
  NoDup table.*1 -> read_map decode table = Ok m -> m.*1 ≡ₚ table.*1.
Proof.
  unfold read_map. intros Hnd Hr.
  destruct (try_map (fun '(key, v) => v ← decode v; Ok (key, v)) table) as [l|] eqn:Hl; simpl in Hr; simplify_eq.
  apply try_map_keys in Hl as Hk. rewrite <- Hk in *. by apply btree_of_keys.
Qed.

Lemma permission_of_toml_wf v permission :
  unique_keys v -> permission_of_toml v = Ok permission -> permission_wf permission.
Proof.
  destruct v as [| | | | | |table]; simpl; try done.
  - intros _. by destruct (access_of_text text); simpl; intros; simplify_eq.
  - intros [Hnd _]. destruct (read_map (fun v => expected "an access mode" (access_of_toml v)) table) eqn:Hr; simpl; intros; simplify_eq. simpl. 
    by rewrite (read_map_keys _ _ _ Hnd Hr).
Qed.

Lemma filesystem_of_toml_wf v fs : unique_keys v -> filesystem_of_toml v = Ok fs -> filesystem_wf fs.
Proof.
  intros Hu Hr. destruct v as [| | | | | |table]; try done. pose proof (unique_keys_nodup _ Hu) as Hnd.
  unfold filesystem_of_toml in Hr. simpl in Hr.
  destruct (read_field table "glob_scan_max_depth" read_usize); simpl in Hr; [|done].
  destruct (read_map permission_of_toml (map_remove table (lit "glob_scan_max_depth"))) as [es|] eqn:He; simpl in Hr; [|done].
  simplify_eq. pose proof (map_remove_nodup _ (lit "glob_scan_max_depth") Hnd) as Hndr.
  pose proof (read_map_keys _ _ _ Hndr He) as Hk. assert (NoDup es.*1) as Hnes by by rewrite Hk.
  split; [done|]. split.
  - cbn [fs_entries]. rewrite Hk. apply map_get_None. rewrite map_get_remove. by rewrite bool_decide_true.
  - cbn [fs_entries]. apply Forall_forall. intros [k permission] Hin. apply (elem_map_get _ _ _ Hnes) in Hin.
    pose proof (read_map_get _ _ _ k Hndr He) as Hg. rewrite map_get_remove in Hg.
    case_bool_decide; [congruence|]. destruct (map_get table k) as [v|] eqn:Hv; [|congruence].
    destruct Hg as (w & Hw & Hg). simplify_eq. eapply permission_of_toml_wf; [|done]. by eapply unique_keys_get.
Qed.

Section Chain.
Context (network_to_toml : NetworkToml -> result str TomlValue) (network_of_toml : TomlValue -> result str NetworkToml).
Local Notation merge := (merge_permission_profiles network_to_toml network_of_toml).

Lemma merge_wf parent child m :
  profile_wf parent -> profile_wf child -> merge parent child = Ok m -> profile_wf m.
Proof.
  intros Hwp Hwc Hm. unfold merge_permission_profiles in Hm.
  set (dom := bool_decide _ && bool_decide _) in Hm. clearbody dom.
  set (c := if dom then normalize_profile_network_domains child else child) in Hm.
  set (p := if dom then normalize_profile_network_domains _ else _) in Hm.
  assert (profile_wf p) as Hp by (unfold profile_wf; subst p; destruct dom; rewrite ?normalize_domains_filesystem; done).
  assert (profile_wf c) as Hc by (unfold profile_wf; subst c; destruct dom; rewrite ?normalize_domains_filesystem; done).
  clearbody p c. destruct (profile_to_toml network_to_toml p) as [po|] eqn:Hpo; simpl in Hm; [|done].
  destruct (profile_to_toml network_to_toml c) as [ch|] eqn:Hch; simpl in Hm; [|done].
  destruct (profile_of_toml network_of_toml (merge_toml_values po ch)) as [m'|] eqn:Hr; simpl in Hm; [|done]. simplify_eq.
  destruct (profile_toml_get _ _ _ Hp Hpo) as (pt & -> & Hpn & Hpf).
  destruct (profile_toml_get _ _ _ Hc Hch) as (ct & -> & Hcn & Hcf).
  unfold merge_toml_values in Hr. destruct (merge_table_get ct pt [] Hcn eq_refl) as (t & Ht & _ & Hg).
  rewrite Ht in Hr. specialize (Hg (lit "filesystem")). rewrite !aliases_elsewhere in Hg by done.
  apply profile_read_get in Hr. rewrite Hg in Hr. unfold profile_wf.
  destruct (map_get ct (lit "filesystem")) as [cf|], (map_get pt (lit "filesystem")) as [pf|];
    [| | |by rewrite Hr]; destruct Hr as (fs & Hfs & ->); eapply filesystem_of_toml_wf; try done.
  - apply merge_unique; naive_solver.
  - apply normalized_unique; naive_solver.
  - naive_solver.
Qed.

#[local] Instance same_permission_equiv : Equivalence same_permission.
Proof.
  split.
  - by intros [].
  - intros [] []; simpl; [congruence|done..|by intros H k; rewrite H].
  - intros [] [] []; simpl; try done; [congruence|by intros H1 H2 k; rewrite H1].
Qed.

Lemma inherit_proper o1 o2 o1' o2' :
  option_Forall2 same_permission o1 o1' -> option_Forall2 same_permission o2 o2' ->
  option_Forall2 same_permission (inherit o1 o2) (inherit o1' o2').
Proof.
  intros [p p' Hp|] [c c' Hc|]; simpl; try (constructor; done).
  - destruct c, c', p, p'; simpl in *; try done; try (by constructor). constructor. simpl. intros k. by rewrite !map_get_app, Hp, Hc.
  - destruct c, c'; simpl in *; try done; by constructor.
Qed.

(** Merging a line of profiles, from its root: what is declared for a path is inherited down the line. *)
Lemma chain_inherits profiles root m path :
  profile_wf root -> Forall profile_wf profiles -> try_fold merge profiles root = Ok m ->
  path <> lit "glob_scan_max_depth" ->
  profile_wf m /\
  option_Forall2 same_permission (declares m path) (foldl inherit (declares root path) ((fun p => declares p path) <$> profiles)).
Proof.
  intros Hr Hall Hm Hp. revert root Hr Hm. induction Hall as [|child profiles Hc Hall IH]; intros root Hr Hm; simpl in *.
  - simplify_eq. split; [done|]. reflexivity.
  - destruct (merge root child) as [m'|] eqn:Hmc; simpl in Hm; [|done].
    destruct (IH m') as [Hwf Hd]; [by apply (merge_wf root child)|done|]. split; [done|]. etrans; [exact Hd|].
    apply (merge_inherits _ _ _ _ _ path) in Hmc; try done. clear -Hmc. revert Hmc.
    generalize (declares m' path), (inherit (declares root path) (declares child path)).
    induction profiles as [|c profiles IH]; intros a b Hab; simpl; [done|]. apply IH, inherit_proper; [done|].
    reflexivity.
Qed.

End Chain.

Lemma builtin_parent_toml os :
  permission_profile_toml_from_file_system_policy (workspace_write os [] false false) =
  mkProfile None None None
    (Some (mkFilesystem None
       [(lit ":root", Access Read); (lit ":slash_tmp", Access Write); (lit ":tmpdir", Access Write);
        (lit ":workspace_roots",
         Scoped [(lit ".", Write); (AGENTS, Read); (CODEWITH, Read); (CODEX, Read); (GIT, Read)])])) None.
Proof. by vm_compute. Qed.

Lemma builtin_parents os name profile :
  extensible_builtin_parent_profile os name = Some profile -> extends profile = None /\ profile_wf profile.
Proof.
  unfold extensible_builtin_parent_profile. rewrite builtin_parent_toml.
  repeat case_bool_decide; intros; simplify_eq; (split; [done|]); split_and!;
    try (apply (bool_decide_unpack _); by vm_compute); repeat constructor; apply (bool_decide_unpack _); by vm_compute.
Qed.

(** Resolving a named profile always ends, and as the declarations say: following [extends] from the name, no profile
    is visited twice; the line ends at a profile that extends nothing, and then the resolved profile declares for every
    path what is inherited down the line (a child replaces its parent's declaration, nested entries are kept unless the
    child names them too); or at a profile already passed, and the error names the cycle; or at one that does not
    exist, and the error names it and the profile that refers to it. *)
Theorem profile_resolution os network_to_toml network_of_toml permissions name :
  Forall (fun e => profile_wf e.2) permissions ->
  exists r names profiles last_name,
    resolve_profile network_to_toml network_of_toml permissions name (extensible_builtin_parent_profile os) = Some r /\
    climbs permissions (extensible_builtin_parent_profile os) name names profiles last_name /\ NoDup names /\
    ((exists root, declared permissions (extensible_builtin_parent_profile os) last_name = Some root /\ extends root = None /\
        forall m path, r = Ok m -> path <> lit "glob_scan_max_depth" ->
          option_Forall2 same_permission (declares m path)
            (foldl inherit (declares root path) ((fun p => declares p path) <$> rev profiles))) \/
     (exists i, names !! i = Some last_name /\ r = Err (Cycle (drop i names ++ [last_name]))) \/
     (declared permissions (extensible_builtin_parent_profile os) last_name = None /\
      r = Err (missing_profile (last names) last_name))).
Proof.
  intros Hwf. destruct (resolution_ends network_to_toml network_of_toml permissions (extensible_builtin_parent_profile os) name)
    as (r & Hr & names & profiles & last_name & Hc & Hnd & Hcases).
  { intros n p Hp. by apply builtin_parents in Hp as []. }
  exists r, names, profiles, last_name. do 3 (split; [done|]). destruct Hcases as [(root & Hd & He & ->)|Hcases]; [|by right].
  assert (forall n p, declared permissions (extensible_builtin_parent_profile os) n = Some p -> profile_wf p) as Hdw.
  { intros n p. unfold declared. case_match eqn:Hg; [intros; simplify_eq; by apply (values_get profile_wf _ _ _ Hwf Hg)|].
    by intros []%builtin_parents. }
  left. exists root. do 2 (split; [done|]). intros m path Hm Hp.
  eapply chain_inherits; [by eapply Hdw| |done|done]. apply Forall_rev. clear -Hc Hdw.
  induction Hc; [done|]. apply Forall_snoc. split; [done|]. by eapply Hdw.
Qed.

(** ** Where compiled entries may be *)

Lemma parse_absolute_normal os path base : os_wf os -> parse_absolute_path os path = Ok base -> normal_form base.
Proof.
  intros Hos. unfold parse_absolute_path. case_match; [done|]. intros Hp. apply (abs_path_normal os Hos path).
  unfold abs_path. by rewrite Hp.
Qed.

(** A path made of names, resolved against a base, has the names of the base and then its own, unless it starts with the
    sign of the home directory. *)
Lemma resolve_below home sub base :
  normal_form base -> parse_relative_subpath sub = Ok sub -> starts_with (lit "~") sub = false ->
  normal_form (resolve_path_against_base home sub base) /\
  components (resolve_path_against_base home sub base) = components base ++ components sub.
Proof.
  intros (names & -> & Hok) Hsub Ht. unfold parse_relative_subpath in Hsub.
  destruct (negb (bool_decide (sub = []))) eqn:Hne; [|done].
  destruct (forallb _ (components sub)) eqn:Hall; [|done]. clear Hsub Hne.
  assert (is_absolute sub = false) as Ha.
  { destruct (is_absolute sub) eqn:Ha; [|done]. apply starts_with_spec in Ha as [r ->]. done. }
  assert (exists subs, components sub = Normal <$> subs) as [subs Hsubs].
  { clear -Hall. induction (components sub) as [|c cs IH]; [by exists []|]. simpl in Hall.
    destruct c as [| | |n]; try done. destruct (IH Hall) as [subs ->]. by exists (n :: subs). }
  unfold resolve_path_against_base, absolutize_from.
  assert (maybe_expand_home_directory home sub = sub) as ->.
  { unfold maybe_expand_home_directory. destruct home; [|done]. unfold starts_with in Ht. by case_match. }
  unfold path_with_base. rewrite ?Ha.
  destruct (normalize_absolute (path_join (render names) sub)) as [Hn Hnok]; [by apply push_absolute|].
  unfold path_join in *. rewrite components_push in Hn, Hnok by done. simpl in Hn, Hnok.
  rewrite foldl_app, stack_names, stack_components, Hsubs, stack_names in Hn, Hnok by done. simpl in Hn, Hnok.
  rewrite Hn. split; [by eexists|]. rewrite Hsubs, !components_render by done. by rewrite fmap_app.
Qed.

(** Computations that thread the warnings. *)
Lemma W_bind_ok {A B} (m : W A) (k : A -> W B) w w' b :
  (m ≫= k) w = (w', Ok b) -> exists w1 a, m w = (w1, Ok a) /\ k a w1 = (w', Ok b).
Proof. unfold mbind, W_bind. destruct (m w) as [w1 [a|]]; [by exists w1, a|done]. Qed.

Lemma W_bind_step {A B} (m : W A) (k : A -> W B) w w1 a : m w = (w1, Ok a) -> (m ≫= k) w = k a w1.
Proof. unfold mbind, W_bind. by intros ->. Qed.

Lemma lift_ok {A} (r : result str A) w w' a : lift r w = (w', Ok a) -> r = Ok a /\ w' = w.
Proof. unfold lift. intros. by simplify_eq. Qed.

Lemma collect_ok {A B} (f : A -> W (list B)) xs w w' ys :
  collect f xs w = (w', Ok ys) -> Forall (fun x => exists w w' zs, f x w = (w', Ok zs) /\ zs ⊆ ys) xs /\
  (forall y, y ∈ ys -> exists x w w' zs, x ∈ xs /\ f x w = (w', Ok zs) /\ y ∈ zs).
Proof.
  revert w ys. induction xs as [|x xs IH]; simpl; intros w ys Hc.
  { unfold mret, W_ret in Hc. simplify_eq. set_solver. }
  apply W_bind_ok in Hc as (w1 & zs & Hz & Hc). apply W_bind_ok in Hc as (w2 & rest & Hr & Hc).
  unfold mret, W_ret in Hc. simplify_eq. destruct (IH _ _ Hr) as [Hall Hex]. split.
  - constructor; [exists w, w1, zs; set_solver|]. eapply Forall_impl; [done|]. intros ? (? & ? & ? & ? & ?).
    do 3 eexists. split; [done|]. set_solver.
  - intros y [Hy|Hy]%elem_of_app; [exists x, w, w1, zs; set_solver|].
    destruct (Hex y Hy) as (x' & v1 & v2 & zs' & Hx & Hf & Hin). exists x', v1, v2, zs'. set_solver.
Qed.

Ltac inv_W := repeat match goal with
  | H : (_ ≫= _) _ = (_, Ok _) |- _ => apply W_bind_ok in H as (? & ? & ? & ?)
  | H : lift _ _ = (_, Ok _) |- _ => apply lift_ok in H as [? ?]
  | H : mret _ _ = (_, Ok _) |- _ => unfold mret, W_ret in H; simplify_eq
  | H : maybe_push_unknown_special_path_warning _ _ = _ |- _ => clear H
  | H : push_warning _ _ = _ |- _ => clear H
  | H : push_warnings _ _ = _ |- _ => clear H
  end.

(** The special path that a key names. *)
Definition names_special (key : str) (value : FileSystemSpecialPath) : Prop :=
  match value with
  | Root => key = lit ":root"
  | Minimal => key = lit ":minimal"
  | Tmpdir => key = lit ":tmpdir"
  | SlashTmp => key = lit ":slash_tmp"
  | ProjectRoots subpath => key = lit ":workspace_roots" /\ subpath = None
  | Unknown name subpath => key = name /\ starts_with (lit ":") name = true /\ subpath = None
  end.

(** A text that stands for a whole subtree: without wildcards, or followed by [/**]. *)
Definition subtree (text key : str) : Prop :=
  contains_glob_chars key = false /\ (text = key \/ text = key ++ lit "/**").

(** The place of an absolute path, or of one in the home directory: in normal form, and itself when it already is. *)
Definition located (os : Os) (text p : str) : Prop :=
  parse_absolute_path os text = Ok p /\ normal_form p /\ (normal_form text -> p = text).

(** The place of a path nested in another one: the names of both, unless the nested one starts with the sign of the home
    directory. *)
Definition nested_in (os : Os) (base nested p : str) : Prop :=
  p = abs_join (home_dir os) base nested /\
  (starts_with (lit "~") nested = false -> normal_form p /\ components p = components base ++ components nested).

(** What a declaration stands for.  A denied path with wildcards is a pattern, with the path under which it is declared
    or with the mark of the workspace roots in front; any other path is a subtree: a special one that its key names, or
    the place of the path, and of the nested path below it. *)
Definition stands_for (os : Os) (path : str) (subpath : option str) (access : FileSystemAccessMode) (p : FileSystemPath) : Prop :=
  match subpath with
  | None =>
      match p with
      | GlobPattern pattern => access = Deny /\ contains_glob_chars path = true /\ located os path pattern
      | Special value => exists key, subtree path key /\ (access = Deny -> path = key) /\ names_special key value
      | Path q =>
          exists key, subtree path key /\ (access = Deny -> path = key) /\ starts_with (lit ":") key = false /\ located os key q
      end
  | Some sub =>
      match p with
      | GlobPattern pattern =>
          access = Deny /\ contains_glob_chars sub = true /\
          ((path = lit ":workspace_roots" /\ pattern = lit "codex-project-roots://" ++ sub) \/
           (starts_with (lit ":") path = false /\ exists base, located os path base /\ nested_in os base sub pattern))
      | Special value =>
          exists nested, subtree sub nested /\ (access = Deny -> path = lit ":workspace_roots" -> sub = nested) /\
          ((nested = lit "." /\ names_special path value) \/
           (nested <> lit "." /\ path = lit ":workspace_roots" /\ value = ProjectRoots (Some nested)) \/
           (nested <> lit "." /\ names_special path (Unknown path None) /\ value = Unknown path (Some nested)))
      | Path q =>
          exists nested base, subtree sub nested /\ (access = Deny -> sub = nested) /\ starts_with (lit ":") path = false /\
          located os path base /\
          ((nested = lit "." /\ q = base) \/ (nested <> lit "." /\ nested_in os base nested q))
      end
  end.

Lemma parse_special_names path value : parse_special_path path = Some value -> names_special path value.
Proof. unfold parse_special_path. repeat (case_bool_decide; [intros; by simplify_eq|]). case_match; intros; by simplify_eq. Qed.

Lemma parse_special_none path : parse_special_path path = None -> starts_with (lit ":") path = false.
Proof. unfold parse_special_path. repeat (case_bool_decide; [done|]). by destruct (starts_with (lit ":") path). Qed.

Lemma read_write_glob_path path access p : compile_read_write_glob_path path access = Ok p -> subtree path p.
Proof.
  unfold compile_read_write_glob_path, subtree. destruct (contains_glob_chars path) eqn:Hg; cbn [negb];
    [|intros; simplify_eq; by auto].
  destruct (contains_glob_chars (remove_trailing_glob_suffix path)) eqn:Hr; cbn [negb]; [done|].
  intros [= <-]. split; [done|]. unfold remove_trailing_glob_suffix.
  destruct (strip_suffix (lit "/**") path) eqn:Hs; [|by left]. apply strip_suffix_Some in Hs. by right.
Qed.

Lemma subtree_plain path key : subtree path key -> contains_glob_chars path = false -> path = key.
Proof.
  intros [_ [->| ->]] Hp; [done|]. unfold contains_glob_chars in Hp. rewrite existsb_app in Hp.
  apply orb_false_iff in Hp as [_ Hp]. by vm_compute in Hp.
Qed.

(** The access that a profile declares for a path, or for a nested one. *)
Definition declares_access (fs : FilesystemPermissionsToml) (path : str) (subpath : option str) (access : FileSystemAccessMode)
    : Prop :=
  match subpath with
  | None => (path, Access access) ∈ fs_entries fs
  | Some subpath => exists scoped, (path, Scoped scoped) ∈ fs_entries fs /\ (subpath, access) ∈ scoped
  end.

Section Confined.
Context (os : Os) (Hos : os_wf os).

Lemma located_ok text p : parse_absolute_path os text = Ok p -> located os text p.
Proof using Hos.
  intros Hp. split; [done|]. split; [by eapply parse_absolute_normal|]. intros (names & -> & Hok).
  unfold parse_absolute_path in Hp. case_match; [done|]. unfold from_absolute_path, absolutize in Hp.
  rewrite expand_absolute in Hp by done. change (is_absolute (render names)) with true in Hp. injection Hp as <-.
  by apply normalize_render.
Qed.

Lemma filesystem_path_stands path key access w w' p :
  subtree path key -> (access = Deny -> path = key) -> compile_filesystem_path os key w = (w', Ok p) ->
  stands_for os path None access p.
Proof using Hos.
  intros Hkey Hd Hc. unfold compile_filesystem_path in Hc. destruct (parse_special_path key) as [value|] eqn:Hs; inv_W.
  - exists key. split_and!; [done..|]. by apply parse_special_names.
  - exists key. split_and!; [done..|by apply parse_special_none|by apply located_ok].
Qed.

Lemma access_path_stands path access w w' p :
  compile_filesystem_access_path os path access w = (w', Ok p) -> stands_for os path None access p.
Proof using Hos.
  unfold compile_filesystem_access_path. intros Hc. destruct (contains_glob_chars path) eqn:Hg; simpl in Hc.
  - case_bool_decide; inv_W; [split_and!; [done..|by apply located_ok]|].
    eapply filesystem_path_stands; [by eapply read_write_glob_path|done|done].
  - eapply filesystem_path_stands; [split; [done|by left]|done|done].
Qed.

Lemma relative_subpath sub x : parse_relative_subpath sub = Ok x -> x = sub /\ parse_relative_subpath sub = Ok sub.
Proof. unfold parse_relative_subpath. by case_match; intros; simplify_eq. Qed.

Lemma nested_in_ok path base nested :
  parse_absolute_path os path = Ok base -> parse_relative_subpath nested = Ok nested ->
  nested_in os base nested (resolve_path_against_base (home_dir os) nested base).
Proof using Hos. intros Hb Hn. split; [done|]. intros Ht. apply resolve_below; [by eapply parse_absolute_normal|done|done]. Qed.

Lemma scoped_path_stands path nested subpath access w w' p :
  subtree subpath nested -> (access = Deny -> parse_special_path path = None \/ path = lit ":workspace_roots" -> subpath = nested) ->
  compile_scoped_filesystem_path os path nested w = (w', Ok p) -> stands_for os path (Some subpath) access p.
Proof using Hos.
  intros Hn Hd Hc. unfold compile_scoped_filesystem_path in Hc. case_bool_decide as Hdot.
  - subst nested. unfold compile_filesystem_path in Hc. destruct (parse_special_path path) as [value|] eqn:Hs; inv_W.
    + exists (lit "."). split; [done|]. split; [auto|]. left. split; [done|]. by apply parse_special_names.
    + exists (lit "."). eexists. split; [done|]. split; [auto|]. split; [by apply parse_special_none|].
      split; [by apply located_ok|]. by left.
  - destruct (parse_special_path path) as [value|] eqn:Hs; inv_W;
      match goal with H : parse_relative_subpath nested = _ |- _ => apply relative_subpath in H as [-> Hrel] end.
    + apply parse_special_names in Hs. exists nested. split; [done|]. split; [auto|]. right.
      destruct value; simplify_eq; [left|right]; simpl in Hs; naive_solver.
    + exists nested. eexists. split; [done|]. split; [auto|]. split; [by apply parse_special_none|].
      split; [by apply located_ok|]. right. split; [done|]. by eapply nested_in_ok.
Qed.

Lemma scoped_pattern_stands path subpath access pattern :
  contains_glob_chars subpath = true -> compile_scoped_filesystem_pattern os path subpath access = Ok pattern ->
  stands_for os path (Some subpath) access (GlobPattern pattern).
Proof using Hos.
  intros Hg Hc. unfold compile_scoped_filesystem_pattern in Hc. case_bool_decide; [|done]. cbn [negb] in Hc.
  apply result_bind_ok in Hc as (x & [-> Hrel]%relative_subpath & Hc). split; [done|]. split; [done|].
  destruct (parse_special_path path) as [value|] eqn:Hs.
  - left. apply parse_special_names in Hs. destruct value; simplify_eq. by destruct Hs as [-> _].
  - right. split; [by apply parse_special_none|]. apply result_bind_ok in Hc as (base & Hb & [= <-]).
    exists base. split; [by apply located_ok|by eapply nested_in_ok].
Qed.

Lemma scoped_entry_stands path subpath access w w' zs :
  compile_scoped_entry os path (subpath, access) w = (w', Ok zs) ->
  exists p, zs = [mkEntry p access] /\ stands_for os path (Some subpath) access p.
Proof using Hos.
  unfold compile_scoped_entry. intros Hc. destruct (contains_glob_chars subpath) eqn:Hg; cbn [andb] in Hc.
  - destruct (bool_decide (access = Deny) && _) eqn:Hd; inv_W; (eexists; split; [done|]).
    + by apply scoped_pattern_stands.
    + eapply scoped_path_stands; [by eapply read_write_glob_path| |done]. intros -> [Hs| ->]; exfalso.
      * by rewrite Hs in Hd.
      * by vm_compute in Hd.
  - inv_W. eexists. split; [done|].
    match goal with H : compile_read_write_glob_path _ _ = Ok _ |- _ => apply read_write_glob_path in H end.
    eapply scoped_path_stands; [done| |done]. intros _ _. by apply subtree_plain.
Qed.

Lemma section_stands name fs w w' es :
  compile_filesystem_section os name (Some fs) w = (w', Ok es) ->
  (forall e, e ∈ es -> exists path subpath, declares_access fs path subpath (entry_access e) /\
     stands_for os path subpath (entry_access e) (entry_path e)) /\
  (forall path subpath access, declares_access fs path subpath access ->
     exists e, e ∈ es /\ entry_access e = access /\ stands_for os path subpath access (entry_path e)).
Proof using Hos.
  unfold compile_filesystem_section. intros Hc. unfold filesystem_is_empty in Hc. case_bool_decide as Hlen.
  { apply nil_length_inv in Hlen. inv_W. split; [set_solver|]. intros path [subpath|] access; simpl; rewrite Hlen; set_solver. }
  inv_W. match goal with H : collect _ _ _ = _ |- _ => apply collect_ok in H as [Hall Hex] end. split.
  - intros e He. destruct (Hex e He) as ([path [access|scoped]] & v1 & v2 & zs & Hin & Hf & Hz); simpl in Hf.
    + inv_W. apply list_elem_of_singleton in Hz as ->. exists path, None. split; [done|]. by eapply access_path_stands.
    + apply collect_ok in Hf as [_ Hf]. destruct (Hf e Hz) as ([subpath access] & ? & ? & ? & Hin' & Hs & Hz').
      apply scoped_entry_stands in Hs as (p & -> & Hconf). apply list_elem_of_singleton in Hz' as ->.
      exists path, (Some subpath). split; [by exists scoped|done].
  - rewrite Forall_forall in Hall. intros path [subpath|] access; simpl.
    + intros (scoped & Hin & Hsub). destruct (Hall _ Hin) as (v1 & v2 & zs & Hf & Hz). simpl in Hf.
      apply collect_ok in Hf as [Hf _]. rewrite Forall_forall in Hf. destruct (Hf _ Hsub) as (? & ? & ? & Hs & Hz').
      apply scoped_entry_stands in Hs as (p & -> & Hconf). exists (mkEntry p access). split; [set_solver|done].
    + intros Hin. destruct (Hall _ Hin) as (v1 & v2 & zs & Hf & Hz). simpl in Hf. inv_W.
      eexists. split; [by apply Hz, list_elem_of_singleton|]. split; [done|]. by eapply access_path_stands.
Qed.

End Confined.

(** C12: A compiled profile grants and denies what the resolved profile declares and nothing else.  The policy is
    restricted; every entry of it stands for a declaration and has its access, and every declaration has such an entry.
    What a declaration stands for ([stands_for]) is exact: a denied path with wildcards becomes the pattern at the place
    of the path (below the path it is nested in, or with the mark of the workspace roots and the nested path); every other
    path stands for a subtree, an ending [/**] being dropped: the special path its key names, with the nested path when
    there is one, or the place of the path in normal form, with the names of the nested path after it.  (A nested path that
    starts with the sign of the home directory is resolved there instead, see [nested_entry_in_home].)  The depth to
    which patterns are expanded is the declared one, and the network is open only when the profile says so.  The home and
    the current directory of the host are taken to be absolute. *)
Theorem compiled_profile_confined os network_to_toml network_of_toml permissions name w w' policy net :
  os_wf os ->
  compile_permission_profile os network_to_toml network_of_toml permissions name w = (w', Ok (policy, net)) ->
  exists profile, resolve_permission_profile os network_to_toml network_of_toml permissions name = Ok profile /\
    sandbox_kind policy = Restricted /\
    glob_scan_max_depth policy = (filesystem profile ≫= fs_glob_scan_max_depth) /\
    (net = NetEnabled <-> exists n, network profile = Some n /\ t_enabled n = Some true) /\
    match filesystem profile with
    | None => entries policy = []
    | Some fs =>
        (forall e, e ∈ entries policy -> exists path subpath, declares_access fs path subpath (entry_access e) /\
           stands_for os path subpath (entry_access e) (entry_path e)) /\
        (forall path subpath access, declares_access fs path subpath access ->
           exists e, e ∈ entries policy /\ entry_access e = access /\ stands_for os path subpath access (entry_path e))
    end.
Proof.
  intros Hos Hc. unfold compile_permission_profile in Hc.
  apply W_bind_ok in Hc as (w1 & profile & [Hr ->]%lift_ok & Hc). apply W_bind_ok in Hc as (w2 & es & Hes & Hc).
  apply W_bind_ok in Hc as (w3 & depth & [Hd ->]%lift_ok & Hc). unfold mret, W_ret in Hc. simplify_eq.
  exists profile. do 2 (split; [done|]). split.
  { unfold validate_glob_scan_max_depth in Hd. by repeat case_match; simplify_eq. }
  split.
  { unfold compile_network_sandbox_policy. destruct (network profile) as [n|]; [|naive_solver].
    destruct (t_enabled n) as [[]|] eqn:He; naive_solver. }
  destruct (filesystem profile) as [fs|]; [by eapply section_stands|]. simpl in Hes. inv_W. done.
Qed.

(** A profile that only extends a built-in one. *)
Definition only_extends (about : option str) (builtin : str) : PermissionProfileToml :=
  mkProfile about (Some builtin) None None None.

Lemma only_extends_resolved os network_to_toml network_of_toml name about builtin root :
  extensible_builtin_parent_profile os builtin = Some root -> name <> builtin ->
  resolve_profile network_to_toml network_of_toml [(name, only_extends about builtin)] name (extensible_builtin_parent_profile os) =
  Some (merge_permission_profiles network_to_toml network_of_toml root (only_extends about builtin)).
Proof.
  intros Hb Hn. destruct (builtin_parents _ _ _ Hb) as [He _]. unfold resolve_profile. cbn [length resolve_loop map_get].
  assert (forall n, position_of n [] = None) as Hnil by done. rewrite Hnil, bool_decide_true by done. cbn [extends only_extends].
  assert (position_of builtin ([] ++ [name]) = None) as ->.
  { unfold position_of. simpl. by rewrite decide_False. }
  rewrite bool_decide_false by done. rewrite Hb, He. simpl. by destruct (merge_permission_profiles _ _ _ _).
Qed.

Lemma push_no_warnings w : push_warnings [] w = (w, Ok tt).
Proof. unfold push_warnings. by rewrite app_nil_r. Qed.

Lemma extended_builtin_compiles os network_to_toml network_of_toml name about builtin root fs es w :
  extensible_builtin_parent_profile os builtin = Some root -> starts_with (lit ":") name = false ->
  starts_with (lit ":") builtin = true ->
  merge_permission_profiles network_to_toml network_of_toml root (only_extends about builtin) =
    Ok (mkProfile about (Some builtin) None (Some fs) None) ->
  filesystem_is_empty fs = false -> unsupported_read_write_glob_paths fs = [] -> unbounded_unreadable_globstar_paths fs = [] ->
  fs_glob_scan_max_depth fs = None ->
  collect (fun '(path, permission) => compile_filesystem_permission os path permission) (fs_entries fs) w = (w, Ok es) ->
  compile_permission_profile os network_to_toml network_of_toml [(name, only_extends about builtin)] name w =
  (w, Ok (mkPolicy Restricted None es, NetRestricted)).
Proof.
  intros Hr Hn Hb Hm He Hg1 Hg2 Hd Hc. unfold compile_permission_profile, resolve_permission_profile.
  rewrite (only_extends_resolved _ _ _ _ _ _ _ Hr) by (intros ->; congruence). rewrite Hm.
  erewrite W_bind_step by reflexivity. cbn [filesystem network].
  assert (compile_filesystem_section os name (Some fs) w = (w, Ok es)) as Hs.
  { unfold compile_filesystem_section. rewrite He, Hg1, Hg2. by do 2 (erewrite W_bind_step by apply push_no_warnings). }
  erewrite W_bind_step by exact Hs. change (Some fs ≫= fs_glob_scan_max_depth) with (fs_glob_scan_max_depth fs). by rewrite Hd.
Qed.

(** Extending a built-in profile without declaring anything else gives the built-in policy: the entries of the
    read-only and of the workspace profile survive being written as a document, merged, read back and compiled. *)
Theorem extended_builtin_same os network_to_toml network_of_toml name about w :
  starts_with (lit ":") name = false ->
  (exists policy, compile_permission_profile os network_to_toml network_of_toml
     [(name, only_extends about BUILT_IN_WORKSPACE_PROFILE)] name w = (w, Ok (policy, NetRestricted)) /\
   entries policy ≡ₚ entries (workspace_write os [] false false) /\ sandbox_kind policy = Restricted) /\
  compile_permission_profile os network_to_toml network_of_toml
     [(name, only_extends about BUILT_IN_READ_ONLY_PROFILE)] name w = (w, Ok (read_only, NetRestricted)).
Proof.
  intros Hname. split.
  - exists (mkPolicy Restricted None
      [mkEntry (Special Root) Read; mkEntry (Special SlashTmp) Write; mkEntry (Special Tmpdir) Write;
       mkEntry (Special (ProjectRoots None)) Write; mkEntry (Special (ProjectRoots (Some AGENTS))) Read;
       mkEntry (Special (ProjectRoots (Some CODEWITH))) Read; mkEntry (Special (ProjectRoots (Some CODEX))) Read;
       mkEntry (Special (ProjectRoots (Some GIT))) Read]). split; [|split; [|done]].
    + eapply extended_builtin_compiles; [reflexivity|done|done| | | | | |];
        [rewrite builtin_parent_toml; by destruct about; vm_compute|by vm_compute..].
    + vm_compute. solve_Permutation.
  - eapply (extended_builtin_compiles _ _ _ _ _ BUILT_IN_READ_ONLY_PROFILE); [reflexivity|done|done| | | | | |];
      [by destruct about; vm_compute|by vm_compute..].
Qed.

(** ** Examples *)

(** A host with a home directory. *)
Definition example_host : Os := {|
  home_dir := Some (lit "/home/u"); current_dir := Some (lit "/work"); tmpdir := None;
  is_dir := fun _ => true; is_file := fun _ => false; path_exists := fun _ => true;
  read_to_string := fun _ => None; symlink_metadata := fun _ => None; canonicalize := fun p => Some p |}.

(** Profiles without a network section need no codec for it. *)
Definition no_codec {A B} (_ : A) : result str B := Err [].

Definition example_profiles : PermissionsToml :=
  [(lit "base", mkProfile None None None
      (Some (mkFilesystem None [(lit "/srv/data", Scoped [(lit "logs", Read); (lit "tmp", Write)]); (lit ":root", Access Read)])) None);
   (lit "child", mkProfile (Some (lit "logs too")) (Some (lit "base")) None
      (Some (mkFilesystem None [(lit "/srv/data", Scoped [(lit "logs", Write)])])) None)].

Lemma example_host_wf : os_wf example_host.
Proof. split; intros ? [= <-]; done. Qed.

Lemma example_profiles_wf : Forall (fun e => profile_wf e.2) example_profiles.
Proof.
  repeat apply Forall_cons_2; [| |apply Forall_nil_2]; (split; [apply (bool_decide_unpack _); by vm_compute|]);
    (split; [apply (bool_decide_unpack _); by vm_compute|]);
    repeat (apply Forall_cons_2; [try exact I; apply (bool_decide_unpack _); by vm_compute|]); apply Forall_nil_2.
Qed.

Lemma profile_resolution_witness :
  exists r, resolve_profile no_codec no_codec example_profiles (lit "child") (extensible_builtin_parent_profile example_host) = Some r.
Proof.
  destruct (profile_resolution example_host no_codec no_codec example_profiles (lit "child") example_profiles_wf)
    as (r & _ & _ & _ & Hr & _). by exists r.
Defined.

Lemma compiled_profile_confined_witness :
  exists profile, resolve_permission_profile example_host no_codec no_codec example_profiles (lit "child") = Ok profile.
Proof.
  destruct (compiled_profile_confined example_host no_codec no_codec example_profiles (lit "child") [] [] 
    (mkPolicy Restricted None
       [mkEntry (Path (lit "/srv/data/logs")) Write; mkEntry (Path (lit "/srv/data/tmp")) Write; mkEntry (Special Root) Read])
    NetRestricted example_host_wf) as (profile & Hp & _); [vm_compute; reflexivity|]. by exists profile.
Defined.

Lemma extended_builtin_same_witness :
  compile_permission_profile example_host no_codec no_codec
     [(lit "mine", only_extends None BUILT_IN_READ_ONLY_PROFILE)] (lit "mine") [] = ([], Ok (read_only, NetRestricted)).
Proof. apply (extended_builtin_same example_host no_codec no_codec (lit "mine") None []). reflexivity. Defined.

(** A nested entry is meant to be a descendant of the path it is declared under, but one that starts with the sign of the
    home directory is not: it grants access there. *)
Example nested_entry_in_home :
  compile_permission_profile example_host no_codec no_codec
    [(lit "p", mkProfile None None None (Some (mkFilesystem None [(lit "/srv/data", Scoped [(lit "~/.ssh", Write)])])) None)]
    (lit "p") [] =
  ([], Ok (mkPolicy Restricted None [mkEntry (Path (lit "/home/u/.ssh")) Write], NetRestricted)).
Proof. by vm_compute. Qed.

End PermissionProfiles.
