(* ===== verification/HookTypes.v ===== *)
(** * Hooks: the events, runs and entries of protocol/src/protocol.rs

    What the client is told about the hooks that run: the events, the summary of each run and the entries of its
    output.  Shared by the requirements of administrators, the discovery of hooks and their execution. *)

From S2P Require Import Prelude Text.

Module HookTypes.

(** [codex-rs/protocol/src/protocol.rs:1445-1458 HookEventName] *)
Inductive HookEventName :=
| PreToolUse | PermissionRequest | PostToolUse | PreCompact | PostCompact | SessionStart | UserPromptSubmit
| SubagentStart | SubagentStop | Stop.

#[global] Instance HookEventName_eq_dec : EqDecision HookEventName.
Proof. solve_decision. Defined.

(** [codex-rs/protocol/src/protocol.rs:1460-1466 HookHandlerType] *)
Inductive HookHandlerType := TypeCommand | TypePrompt | TypeAgent.

(** [codex-rs/protocol/src/protocol.rs:1468-1473 HookExecutionMode] *)
Inductive HookExecutionMode := Sync | Async.

(** [codex-rs/protocol/src/protocol.rs:1475-1480 HookScope] *)
Inductive HookScope := ScopeThread | ScopeTurn.

(** [codex-rs/protocol/src/protocol.rs:1482-1497 HookSource] *)
Inductive HookSource :=
| FromSystem | FromUser | FromProject | FromMdm | FromSessionFlags | FromPlugin | FromCloudRequirements
| FromCloudManagedConfig | FromLegacyManagedConfigFile | FromLegacyManagedConfigMdm | FromUnknown.

(** [codex-rs/protocol/src/protocol.rs:1499-1506 HookTrustStatus] *)
Inductive HookTrustStatus := TrustManaged | TrustUntrusted | TrustTrusted | TrustModified.

#[global] Instance HookTrustStatus_eq_dec : EqDecision HookTrustStatus.
Proof. solve_decision. Defined.

(** [codex-rs/protocol/src/protocol.rs:1508-1516 HookRunStatus] *)
Inductive HookRunStatus := Running | RunCompleted | RunFailed | RunBlocked | RunStopped.

#[global] Instance HookRunStatus_eq_dec : EqDecision HookRunStatus.
Proof. solve_decision. Defined.

(** [codex-rs/protocol/src/protocol.rs:1518-1526 HookOutputEntryKind] *)
Inductive HookOutputEntryKind := KindWarning | KindStop | KindFeedback | KindContext | KindError.

(** [codex-rs/protocol/src/protocol.rs:1528-1533 HookOutputEntry] *)
Record HookOutputEntry := Entry { entry_kind : HookOutputEntryKind; entry_text : str }.

(** [codex-rs/protocol/src/protocol.rs:1535-1556 HookRunSummary] *)
Record HookRunSummary := mkSummary {
  run_id_ : str;
  run_event_name : HookEventName;
  run_handler_type : HookHandlerType;
  run_execution_mode : HookExecutionMode;
  run_scope : HookScope;
  run_source_path : str;
  run_source : HookSource;
  run_display_order : Z;
  run_status : HookRunStatus;
  run_status_message : option str;
  run_started_at : Z;
  run_completed_at : option Z;
  run_duration_ms : option Z;
  run_entries : list HookOutputEntry
}.

(** [codex-rs/protocol/src/protocol.rs:1565-1570 HookCompletedEvent] *)
Record HookCompletedEvent := mkCompleted { completed_turn_id : option str; completed_run : HookRunSummary }.

End HookTypes.
