(* ===== verification/Requirements.v ===== *)
(** * Managed requirements: config/src/constraint.rs, config_requirements.rs, requirements_exec_policy.rs

    What an administrator requires of a configuration: values held under a constraint ([Constrained]), the data of a
    requirements document, and its conversion to constraints on the settings of a session.  The debug forms that error
    messages contain are the class [Debug]; matching a host name against a wildcard pattern is a parameter. *)

From S2P Require Import Prelude Text AbsolutePath Permissions WritableRoots IpAddress HostPatterns NetworkConfig ConfigToml.
From S2P Require Import PermissionProfiles ExecPolicy PolicyFile ShellParse CommandSafety ExecApproval HookTypes.

Module Requirements.
Import HookTypes NetworkConfig AbsolutePath Permissions WritableRoots ConfigToml PermissionProfiles ExecApproval.

(** ** Sources *)

(** [codex-rs/config/src/config_requirements.rs:27-51 RequirementSource] *)
Inductive RequirementSource :=
| UnknownSource
| MdmManagedPreferences (domain key : str)
| Composite (sources : list RequirementSource)
| EnterpriseManaged (id name : str)
| SystemRequirementsToml (file : str)
| LegacyManagedConfigTomlFromFile (file : str)
| LegacyManagedConfigTomlFromMdm.

#[global] Instance RequirementSource_eq_dec : EqDecision RequirementSource.
Proof.
  unfold EqDecision, Decision. fix IH 1. intros [|d k|s|i n|f|f|] [|d' k'|s'|i' n'|f'|f'|]; try (right; discriminate); try (by left).
  - destruct (decide (d = d')); [|right; congruence]. destruct (decide (k = k')); [left|right]; congruence.
  - destruct (List.list_eq_dec IH s s'); [left|right]; congruence.
  - destruct (decide (i = i')); [|right; congruence]. destruct (decide (n = n')); [left|right]; congruence.
  - destruct (decide (f = f')); [left|right]; congruence.
  - destruct (decide (f = f')); [left|right]; congruence.
Defined.

(** [codex-rs/config/src/config_requirements.rs:67-80 RequirementSource::append_to_composite] *)
Fixpoint append_to_composite (self : RequirementSource) (flattened : list RequirementSource) : list RequirementSource :=
  match self with
  | Composite sources => foldl (fun flattened source => append_to_composite source flattened) flattened sources
  | source => if bool_decide (source ∈ flattened) then flattened else flattened ++ [source]
  end.

(** [codex-rs/config/src/config_requirements.rs:53-65 RequirementSource::composite] *)
Definition composite (sources : list RequirementSource) : RequirementSource :=
  match foldl (fun flattened source => append_to_composite source flattened) [] sources with
  | [] => UnknownSource
  | [source] => source
  | flattened => Composite flattened
  end.

(** ** Constraints *)

(** [codex-rs/config/src/constraint.rs:7-27 ConstraintError] *)
Inductive ConstraintError :=
| InvalidValue (field_name candidate allowed : str) (requirement_source : RequirementSource)
| EmptyField (field_name : str)
| ExecPolicyParse (requirement_source : RequirementSource) (reason : str).

Notation ConstraintResult := (result ConstraintError).

(** The form of [{:?}]. *)
Class Debug (T : Type) := debug : T -> str.

#[global] Instance debug_list {T} `{Debug T} : Debug (list T) := fun l => lit "[" ++ join (lit ", ") (map debug l) ++ lit "]".
#[global] Instance debug_option {T} `{Debug T} : Debug (option T) :=
  fun o => match o with Some x => lit "Some(" ++ debug x ++ lit ")" | None => lit "None" end.

(** [codex-rs/config/src/constraint.rs:50-55 Constrained] *)
Record Constrained (T : Type) := mkConstrained {
  value : T;
  validator : T -> ConstraintResult unit;
  normalizer : option (T -> T)
}.
Arguments mkConstrained {_} _ _ _.
Arguments value {_} _.
Arguments validator {_} _ _.
Arguments normalizer {_} _.

Section Constrained.
Context {T : Type}.

(** [codex-rs/config/src/constraint.rs:58-69 Constrained::new] *)
Definition new (initial_value : T) (validator : T -> ConstraintResult unit) : ConstraintResult (Constrained T) :=
  _ ← validator initial_value;
  Ok (mkConstrained initial_value validator None).

(** [codex-rs/config/src/constraint.rs:72-85 Constrained::normalized] *)
Definition normalized (initial_value : T) (normalizer : T -> T) : ConstraintResult (Constrained T) :=
  let validator := fun _ => Ok tt in
  let normalized := normalizer initial_value in
  _ ← validator normalized;
  Ok (mkConstrained normalized validator (Some normalizer)).

(** [codex-rs/config/src/constraint.rs:87-93 Constrained::allow_any] *)
Definition allow_any (initial_value : T) : Constrained T := mkConstrained initial_value (fun _ => Ok tt) None.

(** [codex-rs/config/src/constraint.rs:95-116 Constrained::allow_only] with the equality of the values. *)
Definition allow_only `{Debug T} (eqb : T -> T -> bool) (only_value : T) : Constrained T :=
  mkConstrained only_value
    (fun candidate =>
       if eqb candidate only_value then Ok tt
       else Err (InvalidValue (lit "<unknown>") (debug candidate) (lit "[" ++ debug only_value ++ lit "]") UnknownSource))
    None.

(** [codex-rs/config/src/constraint.rs:137-139 Constrained::can_set] *)
Definition can_set (self : Constrained T) (candidate : T) : ConstraintResult unit := validator self candidate.

(** [codex-rs/config/src/constraint.rs:144-160 Constrained::add_validator] *)
Definition add_validator (self : Constrained T) (validator' : T -> ConstraintResult unit)
    : Constrained T * ConstraintResult unit :=
  let combined_validator := fun candidate => _ ← validator self candidate; validator' candidate in
  match combined_validator (value self) with
  | Ok _ => (mkConstrained (value self) combined_validator (normalizer self), Ok tt)
  | Err e => (self, Err e)
  end.

(** [codex-rs/config/src/constraint.rs:162-171 Constrained::set] *)
Definition set (self : Constrained T) (v : T) : Constrained T * ConstraintResult unit :=
  let v := match normalizer self with Some normalizer => normalizer v | None => v end in
  match validator self v with
  | Ok _ => (mkConstrained v (validator self) (normalizer self), Ok tt)
  | Err e => (self, Err e)
  end.

End Constrained.

(** [codex-rs/config/src/config_requirements.rs:117-120 ConstrainedWithSource] *)
Record ConstrainedWithSource (T : Type) := mkCWS { constrained : Constrained T; cws_source : option RequirementSource }.
Arguments mkCWS {_} _ _.
Arguments constrained {_} _.
Arguments cws_source {_} _.

(** [codex-rs/config/src/config_requirements.rs:866-869 Sourced] *)
Record Sourced (T : Type) := mkSourced { sourced_value : T; source : RequirementSource }.
Arguments mkSourced {_} _ _.
Arguments sourced_value {_} _.
Arguments source {_} _.

(** ** Settings under requirements *)

(** [codex-rs/config/src/config_toml.rs:776-788 ToolPolicy] *)
Inductive ToolPolicy := FullTools | InfinityAgent.

(** [codex-rs/protocol/src/config_types.rs:164-171 ApprovalsReviewer] *)
Inductive ApprovalsReviewer := ReviewByUser | AutoReview.

(** [codex-rs/protocol/src/config_types.rs:304-309 WebSearchMode] *)
Inductive WebSearchMode := SearchDisabled | SearchCached | SearchLive.

(** [codex-rs/config/src/config_requirements.rs:675-679 WebSearchModeRequirement] in the order of the variants. *)
Inductive WebSearchModeRequirement := RequireDisabled | RequireCached | RequireLive.

(** [codex-rs/config/src/config_requirements.rs:682-688 WebSearchModeRequirement::from] *)
Definition search_requirement (mode : WebSearchMode) : WebSearchModeRequirement :=
  match mode with SearchDisabled => RequireDisabled | SearchCached => RequireCached | SearchLive => RequireLive end.

(** [codex-rs/config/src/config_requirements.rs:692-698 WebSearchMode::from] *)
Definition search_mode (mode : WebSearchModeRequirement) : WebSearchMode :=
  match mode with RequireDisabled => SearchDisabled | RequireCached => SearchCached | RequireLive => SearchLive end.

(** [codex-rs/config/src/config_requirements.rs:1069-1082 SandboxModeRequirement] *)
Inductive SandboxModeRequirement := ModeReadOnly | ModeWorkspaceWrite | ModeDangerFullAccess | ModeExternalSandbox.

(** [codex-rs/config/src/types.rs:117-122 WindowsSandboxModeToml] *)
Inductive WindowsSandboxModeToml := WindowsElevated | WindowsUnelevated.

(** [codex-rs/config/src/config_requirements.rs:1094-1098 ResidencyRequirement] *)
Inductive ResidencyRequirement := Us.

#[global] Instance ToolPolicy_eq_dec : EqDecision ToolPolicy.
Proof. solve_decision. Defined.
#[global] Instance ApprovalsReviewer_eq_dec : EqDecision ApprovalsReviewer.
Proof. solve_decision. Defined.
#[global] Instance WebSearchMode_eq_dec : EqDecision WebSearchMode.
Proof. solve_decision. Defined.
#[global] Instance WebSearchModeRequirement_eq_dec : EqDecision WebSearchModeRequirement.
Proof. solve_decision. Defined.
#[global] Instance SandboxModeRequirement_eq_dec : EqDecision SandboxModeRequirement.
Proof. solve_decision. Defined.
#[global] Instance WindowsSandboxModeToml_eq_dec : EqDecision WindowsSandboxModeToml.
Proof. solve_decision. Defined.
#[global] Instance ResidencyRequirement_eq_dec : EqDecision ResidencyRequirement.
Proof. solve_decision. Defined.
#[global] Instance GranularApprovalConfig_eq_dec : EqDecision GranularApprovalConfig.
Proof. solve_decision. Defined.
#[global] Instance AskForApproval_eq_dec : EqDecision AskForApproval.
Proof. solve_decision. Defined.

#[global] Instance debug_tool_policy : Debug ToolPolicy :=
  fun p => match p with FullTools => lit "Full" | InfinityAgent => lit "InfinityAgent" end.
#[global] Instance debug_reviewer : Debug ApprovalsReviewer :=
  fun r => match r with ReviewByUser => lit "User" | AutoReview => lit "AutoReview" end.
#[global] Instance debug_search_mode : Debug WebSearchMode :=
  fun m => match m with SearchDisabled => lit "Disabled" | SearchCached => lit "Cached" | SearchLive => lit "Live" end.
#[global] Instance debug_sandbox_mode : Debug SandboxModeRequirement :=
  fun m => match m with
           | ModeReadOnly => lit "ReadOnly" | ModeWorkspaceWrite => lit "WorkspaceWrite"
           | ModeDangerFullAccess => lit "DangerFullAccess" | ModeExternalSandbox => lit "ExternalSandbox"
           end.
#[global] Instance debug_windows_mode : Debug WindowsSandboxModeToml :=
  fun m => match m with WindowsElevated => lit "Elevated" | WindowsUnelevated => lit "Unelevated" end.
#[global] Instance debug_residency : Debug ResidencyRequirement := fun _ => lit "Us".
#[global] Instance debug_bool : Debug bool := fun b => if b then lit "true" else lit "false".
#[global] Instance debug_approval : Debug AskForApproval :=
  fun p => match p with
           | UnlessTrusted => lit "UnlessTrusted" | OnFailure => lit "OnFailure" | OnRequest => lit "OnRequest"
           | Never => lit "Never"
           | Granular c =>
               lit "Granular(GranularApprovalConfig { sandbox_approval: " ++ debug (sandbox_approval c) ++
               lit ", rules: " ++ debug (ExecApproval.rules c) ++ lit ", skill_approval: " ++ debug (skill_approval c) ++
               lit ", request_permissions: " ++ debug (request_permissions c) ++
               lit ", mcp_elicitations: " ++ debug (mcp_elicitations c) ++ lit " })"
           end.

(** ** The document *)

(** [codex-rs/config/src/config_requirements.rs:225-228 McpServerIdentity] *)
Inductive McpServerIdentity := IdentityCommand (command : str) | IdentityUrl (url : str).

(** [codex-rs/config/src/config_requirements.rs:231-233 McpServerRequirement] *)
Definition McpServerRequirement := McpServerIdentity.

(** [codex-rs/config/src/config_requirements.rs:236-238 PluginRequirementsToml] *)
Definition PluginRequirementsToml := option (list (str * McpServerRequirement)).

(** [codex-rs/config/src/config_requirements.rs:241-243 PluginRequirementsToml::is_empty] *)
Definition plugin_is_empty (self : PluginRequirementsToml) : bool :=
  match self with None | Some [] => true | Some _ => false end.

(** [codex-rs/config/src/config_requirements.rs:333-346 NetworkRequirementsToml] *)
Record NetworkRequirementsToml := mkNetworkRequirements {
  req_enabled : option bool;
  req_http_port : option N;
  req_socks_port : option N;
  req_allow_upstream_proxy : option bool;
  req_dangerously_allow_non_loopback_proxy : option bool;
  req_dangerously_allow_all_unix_sockets : option bool;
  req_domains : option NetworkDomainPermissionsToml;
  req_managed_allowed_domains_only : option bool;
  req_unix_sockets : option (list (str * NetworkUnixSocketPermissionToml));
  req_allow_local_binding : option bool
}.

(** [codex-rs/config/src/config_requirements.rs:349-368 RawNetworkRequirementsToml] the fields that the canonical form
    does not have: the legacy lists. *)
Record RawNetworkLists := {
  raw_allowed_domains : option (list str);
  raw_denied_domains : option (list str);
  raw_allow_unix_sockets : option (list str)
}.

(** [codex-rs/config/src/config_requirements.rs:424-439 legacy_domain_permissions_from_lists] *)
Definition legacy_domain_permissions_from_lists (allowed denied : option (list str)) : option NetworkDomainPermissionsToml :=
  let entries := foldl (fun m p => btree_insert p AllowDomainToml m) [] (default [] allowed) in
  let entries := foldl (fun m p => btree_insert p DenyDomainToml m) entries (default [] denied) in
  non_empty entries.

(** [codex-rs/config/src/config_requirements.rs:441-451 legacy_unix_socket_permissions_from_list] *)
Definition legacy_unix_socket_permissions_from_list (sockets : option (list str))
    : option (list (str * NetworkUnixSocketPermissionToml)) :=
  non_empty (foldl (fun m p => btree_insert p AllowSocketToml m) [] (default [] sockets)).

Definition is_some {A} (o : option A) : bool := match o with Some _ => true | None => false end.

(** [codex-rs/config/src/config_requirements.rs:371-418 NetworkRequirementsToml::deserialize] from the canonical fields
    and the legacy ones. *)
Definition network_requirements_from_raw (raw : NetworkRequirementsToml) (legacy : RawNetworkLists)
    : result str NetworkRequirementsToml :=
  if is_some (req_domains raw) && (is_some (raw_allowed_domains legacy) || is_some (raw_denied_domains legacy))
  then Err (in_ticks (lit "experimental_network.domains") ++ lit " cannot be combined with legacy " ++
            in_ticks (lit "allowed_domains") ++ lit " or " ++ in_ticks (lit "denied_domains"))
  else if is_some (req_unix_sockets raw) && is_some (raw_allow_unix_sockets legacy)
  then Err (in_ticks (lit "experimental_network.unix_sockets") ++ lit " cannot be combined with legacy " ++
            in_ticks (lit "allow_unix_sockets"))
  else
    let 'mkNetworkRequirements a b c d e f domains g sockets h := raw in
    Ok (mkNetworkRequirements a b c d e f
          (match domains with
           | Some domains => Some domains
           | None => legacy_domain_permissions_from_lists (raw_allowed_domains legacy) (raw_denied_domains legacy)
           end) g
          (match sockets with
           | Some sockets => Some sockets
           | None => legacy_unix_socket_permissions_from_list (raw_allow_unix_sockets legacy)
           end) h).

(** [codex-rs/config/src/config_requirements.rs:455-468 NetworkConstraints] the same fields; also the conversion
    [NetworkConstraints::from]. *)
Definition NetworkConstraints := NetworkRequirementsToml.

(** [codex-rs/config/src/config_requirements.rs:580-580 FilesystemDenyReadPattern] *)
Definition FilesystemDenyReadPattern := str.

(** [codex-rs/config/src/config_requirements.rs:669-671 is_glob_metacharacter] *)
Definition is_glob_metacharacter (ch : char) : bool := bool_decide (ch ∈ lit "*?[").

(** [codex-rs/config/src/config_requirements.rs:636-659 split_glob_pattern] not on Windows: the text up to the last
    slash before the first glob character, and what follows it. *)
Definition split_glob_pattern (input : str) : str * str :=
  match list_find (fun ch => is_glob_metacharacter ch = true) input with
  | None => ([], input)
  | Some (first_glob, _) =>
      match rsplit_once SLASH (take first_glob input) with
      | Some ([], after) => ([SLASH], drop 1 input)
      | Some (before, after) => (before, drop (S (length before)) input)
      | None => ([], input)
      end
  end.

Section DenyRead.
Context (home_dir current_dir : option str) (base_path : option str).

(** [codex-rs/utils/absolute-path/src/lib.rs:354-368 AbsolutePathBuf::deserialize], under the base path of the guard. *)
Definition deserialize_absolute_path (input : str) : result str str :=
  match base_path with
  | Some base => Ok (resolve_path_against_base home_dir input base)
  | None =>
      if is_absolute input then from_absolute_path home_dir current_dir input
      else Err (lit "AbsolutePathBuf deserialized without a base path")
  end.

(** [codex-rs/config/src/config_requirements.rs:591-612 FilesystemDenyReadPattern::from_input] *)
Definition deny_read_from_input (input : str) : result str FilesystemDenyReadPattern :=
  if negb (existsb is_glob_metacharacter input) then deserialize_absolute_path input
  else
    let '(directory_prefix, suffix) := split_glob_pattern input in
    prefix ← deserialize_absolute_path (if bool_decide (directory_prefix = []) then lit "." else directory_prefix);
    Ok (if bool_decide (suffix = []) then prefix
        else if bool_decide (prefix = [SLASH]) then SLASH :: suffix
        else prefix ++ SLASH :: suffix).
End DenyRead.

(** [codex-rs/config/src/config_requirements.rs:510-512 FilesystemRequirementsToml] *)
Definition FilesystemRequirementsToml := option (list FilesystemDenyReadPattern).

(** [codex-rs/config/src/config_requirements.rs:555-561 PermissionsRequirementsToml] *)
Record PermissionsRequirementsToml := mkPermissionsRequirements {
  req_filesystem : option FilesystemRequirementsToml;
  req_profiles : list (str * PermissionProfileToml)
}.

(** [codex-rs/config/src/config_requirements.rs:564-566 FilesystemConstraints] *)
Definition FilesystemConstraints := list FilesystemDenyReadPattern.

(** [codex-rs/config/src/config_requirements.rs:569-575 FilesystemConstraints::from] *)
Definition filesystem_constraints (self : PermissionsRequirementsToml) : FilesystemConstraints :=
  default [] (req_filesystem self ≫= id).

(** [codex-rs/config/src/config_requirements.rs:712-714 ComputerUseRequirementsToml] *)
Definition ComputerUseRequirementsToml := option bool.

(** [codex-rs/config/src/config_requirements.rs:723-725 WindowsRequirementsToml] *)
Definition WindowsRequirementsToml := option (list WindowsSandboxModeToml).

(** [codex-rs/config/src/config_requirements.rs:734-737 FeatureRequirementsToml] *)
Definition FeatureRequirementsToml := list (str * bool).

(** [codex-rs/config/src/mcp_types.rs:19-26 AppToolApproval] *)
Inductive AppToolApproval := AppAuto | AppPrompt | AppApprove.

(** [codex-rs/config/src/config_requirements.rs:769-772 AppRequirementToml] with the tools' approval modes. *)
Record AppRequirementToml := mkApp { app_enabled : option bool; app_tools : option (list (str * option AppToolApproval)) }.

(** [codex-rs/config/src/config_requirements.rs:785-788 AppsRequirementsToml] *)
Definition AppsRequirementsToml := list (str * AppRequirementToml).

Definition app_default : AppRequirementToml := mkApp None None.

(** [codex-rs/config/src/config_requirements.rs:775-781 AppRequirementToml::is_empty] *)
Definition app_is_empty (self : AppRequirementToml) : bool :=
  bool_decide (app_enabled self = None) &&
  match app_tools self with None => true | Some tools => forallb (fun e => negb (is_some e.2)) tools end.

(** [codex-rs/config/src/config_requirements.rs:791-793 AppsRequirementsToml::is_empty] *)
Definition apps_is_empty (self : AppsRequirementsToml) : bool := forallb (fun e => app_is_empty e.2) self.

(** One tool of a lower app: its approval mode counts where the higher one has none. *)
Definition merge_tool (base_tools : list (str * option AppToolApproval)) (tool : str * option AppToolApproval)
    : list (str * option AppToolApproval) :=
  let '(tool_name, incoming) := tool in
  match default None (map_get base_tools tool_name) with
  | Some mode => btree_insert tool_name (Some mode) base_tools
  | None => btree_insert tool_name incoming base_tools
  end.

(** [codex-rs/config/src/config_requirements.rs:799-825 merge_app_requirements_descending] *)
Definition merge_app_requirements_descending (base incoming : AppsRequirementsToml) : AppsRequirementsToml :=
  foldl (fun base '(app_id, incoming_requirement) =>
    let base_requirement := default app_default (map_get base app_id) in
    let higher := app_enabled base_requirement in
    let lower := app_enabled incoming_requirement in
    let enabled := if bool_decide (higher = Some false \/ lower = Some false) then Some false
                   else match higher with Some b => Some b | None => lower end in
    let tools := match app_tools incoming_requirement with
                 | None => app_tools base_requirement
                 | Some incoming_tools => Some (foldl merge_tool (default [] (app_tools base_requirement)) incoming_tools)
                 end in
    btree_insert app_id (mkApp enabled tools) base) base incoming.

(** ** Hooks *)

(** [codex-rs/config/src/hook_config.rs:139-156 HookHandlerConfig] *)
Inductive HookHandlerConfig :=
| HookCommand (command : str) (command_windows : option str) (timeout_sec : option N) (is_async : bool)
    (status_message : option str)
| HookPrompt
| HookAgent.

(** [codex-rs/config/src/hook_config.rs:130-135 MatcherGroup] *)
Record MatcherGroup := mkGroup { matcher : option str; group_hooks : list HookHandlerConfig }.

(** [codex-rs/config/src/hook_config.rs:33-54 HookEventsToml] *)
Record HookEventsToml := mkEvents {
  pre_tool_use : list MatcherGroup;
  permission_request : list MatcherGroup;
  post_tool_use : list MatcherGroup;
  pre_compact : list MatcherGroup;
  post_compact : list MatcherGroup;
  session_start : list MatcherGroup;
  user_prompt_submit : list MatcherGroup;
  subagent_start : list MatcherGroup;
  subagent_stop : list MatcherGroup;
  stop : list MatcherGroup
}.

#[global] Instance HookHandlerConfig_eq_dec : EqDecision HookHandlerConfig.
Proof. solve_decision. Defined.
#[global] Instance MatcherGroup_eq_dec : EqDecision MatcherGroup.
Proof. solve_decision. Defined.
#[global] Instance HookEventsToml_eq_dec : EqDecision HookEventsToml.
Proof. solve_decision. Defined.

(** [codex-rs/config/src/hook_config.rs:113-126 HookEventsToml::into_matcher_groups] *)
Definition into_matcher_groups (self : HookEventsToml) : list (HookEventName * list MatcherGroup) :=
  [(PreToolUse, pre_tool_use self); (PermissionRequest, permission_request self); (PostToolUse, post_tool_use self);
   (PreCompact, pre_compact self); (PostCompact, post_compact self); (SessionStart, session_start self);
   (UserPromptSubmit, user_prompt_submit self); (SubagentStart, subagent_start self); (SubagentStop, subagent_stop self);
   (Stop, stop self)].

(** [codex-rs/config/src/hook_config.rs:56-80 HookEventsToml::is_empty] *)
Definition events_is_empty (self : HookEventsToml) : bool :=
  forallb (fun '(_, groups) => bool_decide (length groups = 0)) (into_matcher_groups self).

(** [codex-rs/config/src/hook_config.rs:82-111 HookEventsToml::handler_count] *)
Definition events_handler_count (self : HookEventsToml) : nat :=
  sum_list (map (fun group => length (group_hooks group)) (mjoin (map snd (into_matcher_groups self)))).

(** [codex-rs/config/src/hook_config.rs:159-164 ManagedHooksRequirementsToml] *)
Record ManagedHooksRequirementsToml := mkManagedHooks {
  managed_dir : option str; windows_managed_dir : option str; hook_events : HookEventsToml
}.

#[global] Instance ManagedHooksRequirementsToml_eq_dec : EqDecision ManagedHooksRequirementsToml.
Proof. solve_decision. Defined.

(** [codex-rs/config/src/hook_config.rs:167-174 ManagedHooksRequirementsToml::is_empty] *)
Definition hooks_is_empty (self : ManagedHooksRequirementsToml) : bool :=
  negb (is_some (managed_dir self)) && negb (is_some (windows_managed_dir self)) && events_is_empty (hook_events self).

(** [codex-rs/config/src/hook_config.rs:176-178 ManagedHooksRequirementsToml::handler_count] *)
Definition handler_count (self : ManagedHooksRequirementsToml) : nat := events_handler_count (hook_events self).

(** ** Rules *)

(** [codex-rs/config/src/requirements_exec_policy.rs:70-73 RequirementsExecPolicyPatternTokenToml] *)
Record PatternTokenToml := mkToken { token : option str; any_of : option (list str) }.

(** [codex-rs/config/src/requirements_exec_policy.rs:77-81 RequirementsExecPolicyDecisionToml] *)
Inductive DecisionToml := DecideAllow | DecidePrompt | DecideForbidden.

(** [codex-rs/config/src/requirements_exec_policy.rs:58-62 RequirementsExecPolicyPrefixRuleToml] *)
Record PrefixRuleToml := mkRuleToml {
  rule_pattern : list PatternTokenToml; rule_decision : option DecisionToml; rule_justification : option str
}.

(** [codex-rs/config/src/requirements_exec_policy.rs:50-52 RequirementsExecPolicyToml] *)
Definition RequirementsExecPolicyToml := list PrefixRuleToml.

(** [codex-rs/config/src/requirements_exec_policy.rs:84-90 RequirementsExecPolicyDecisionToml::as_decision] *)
Definition as_decision (self : DecisionToml) : ExecPolicy.Decision :=
  match self with
  | DecideAllow => ExecPolicy.Allow | DecidePrompt => ExecPolicy.Prompt | DecideForbidden => ExecPolicy.Forbidden
  end.

(** [codex-rs/config/src/requirements_exec_policy.rs:94-120 RequirementsExecPolicyParseError] *)
Inductive RequirementsExecPolicyParseError :=
| EmptyPrefixRules
| EmptyPattern (rule_index : nat)
| InvalidPatternToken (rule_index token_index : nat) (reason : str)
| EmptyJustification (rule_index : nat)
| MissingDecision (rule_index : nat)
| AllowDecisionNotAllowed (rule_index : nat).

(** [text.trim().is_empty()]. *)
Definition blank (s : str) : bool := bool_decide (trim s = []).

(** [codex-rs/config/src/requirements_exec_policy.rs:192-236 parse_pattern_token] *)
Definition parse_pattern_token (t : PatternTokenToml) (rule_index token_index : nat)
    : result RequirementsExecPolicyParseError ExecPolicy.PatternToken :=
  let invalid reason := Err (InvalidPatternToken rule_index token_index (lit reason)) in
  match token t, any_of t with
  | Some single, None => if blank single then invalid "token cannot be empty"%string else Ok (ExecPolicy.Single single)
  | None, Some alternatives =>
      if bool_decide (length alternatives = 0) then invalid "any_of cannot be empty"%string
      else if existsb blank alternatives then invalid "any_of cannot include empty tokens"%string
      else Ok (ExecPolicy.Alts alternatives)
  | Some _, Some _ => invalid "set either token or any_of, not both"%string
  | None, None => invalid "set either token or any_of"%string
  end.

(** [codex-rs/config/src/requirements_exec_policy.rs:132-165 RequirementsExecPolicyToml::to_policy] one rule of a document: the decision and the tokens of its pattern. *)
Definition parse_rule (rule_index : nat) (rule : PrefixRuleToml)
    : result RequirementsExecPolicyParseError (ExecPolicy.PatternToken * list ExecPolicy.PatternToken * ExecPolicy.Decision) :=
  if match rule_justification rule with Some j => blank j | None => false end then Err (EmptyJustification rule_index)
  else if bool_decide (length (rule_pattern rule) = 0) then Err (EmptyPattern rule_index)
  else
    tokens ← try_map (fun '(token_index, t) => parse_pattern_token t rule_index token_index)
               (imap pair (rule_pattern rule));
    decision ← match rule_decision rule with
               | Some DecideAllow => Err (AllowDecisionNotAllowed rule_index)
               | Some decision => Ok (as_decision decision)
               | None => Err (MissingDecision rule_index)
               end;
    match tokens with
    | first_token :: remaining_tokens => Ok (first_token, remaining_tokens, decision)
    | [] => Err (EmptyPattern rule_index)
    end.

(** [codex-rs/config/src/requirements_exec_policy.rs:167-179 RequirementsExecPolicyToml::to_policy] a rule per alternative of
    the first token. *)
Definition insert_rule (rule : PrefixRuleToml)
    (parsed : ExecPolicy.PatternToken * list ExecPolicy.PatternToken * ExecPolicy.Decision)
    (rules_by_program : gmap str (list ExecPolicy.PrefixRule)) : gmap str (list ExecPolicy.PrefixRule) :=
  let '(first_token, remaining_tokens, decision) := parsed in
  foldl (fun m head =>
    ExecPolicy.multi_insert head
      {| ExecPolicy.pattern := {| ExecPolicy.first := head; ExecPolicy.rest := remaining_tokens |};
         ExecPolicy.decision := decision; ExecPolicy.justification := rule_justification rule |} m)
    rules_by_program (ExecPolicy.alternatives first_token).

(** [codex-rs/config/src/requirements_exec_policy.rs:125-183 RequirementsExecPolicyToml::to_policy] *)
Definition to_policy (self : RequirementsExecPolicyToml) : result RequirementsExecPolicyParseError ExecPolicy.Policy :=
  if bool_decide (length self = 0) then Err EmptyPrefixRules
  else
    rules_by_program ← try_fold (fun m '(rule_index, rule) => parsed ← parse_rule rule_index rule; Ok (insert_rule rule parsed m))
                         (imap pair self) ∅;
    Ok {| ExecPolicy.rules_by_program := rules_by_program; ExecPolicy.network_rules := [];
          ExecPolicy.host_executables_by_name := ∅ |}.

(** [codex-rs/config/src/requirements_exec_policy.rs:94-120 RequirementsExecPolicyParseError] its message. *)
Definition parse_error_text (err : RequirementsExecPolicyParseError) : str :=
  let at_rule i := lit "rules prefix_rule at index " ++ show_nat i in
  match err with
  | EmptyPrefixRules => lit "rules prefix_rules cannot be empty"
  | EmptyPattern i => at_rule i ++ lit " has an empty pattern"
  | InvalidPatternToken i j reason => at_rule i ++ lit " has an invalid pattern token at index " ++ show_nat j ++ lit ": " ++ reason
  | EmptyJustification i => at_rule i ++ lit " has an empty justification"
  | MissingDecision i => at_rule i ++ lit " is missing a decision"
  | AllowDecisionNotAllowed i =>
      at_rule i ++ lit " has decision 'allow', which is not permitted in requirements.toml: Codewith merges these rules with other config and uses the most restrictive result (use 'prompt' or 'forbidden')"
  end.

(** ** Requirements *)

(** [codex-rs/config/src/config_requirements.rs:858-861 RemoteSandboxConfigToml] *)
Record RemoteSandboxConfigToml := mkRemote {
  hostname_patterns : list str; remote_allowed_sandbox_modes : list SandboxModeRequirement
}.

(** [codex-rs/config/src/config_requirements.rs:829-855 ConfigRequirementsToml] *)
Record ConfigRequirementsToml := {
  toml_allowed_tool_policies : option (list ToolPolicy);
  toml_infinity_agent_trust_key : option str;
  toml_allowed_approval_policies : option (list AskForApproval);
  toml_allowed_approvals_reviewers : option (list ApprovalsReviewer);
  toml_allowed_sandbox_modes : option (list SandboxModeRequirement);
  toml_allowed_permission_profiles : option (list (str * bool));
  toml_default_permissions : option str;
  toml_remote_sandbox_config : option (list RemoteSandboxConfigToml);
  toml_allowed_web_search_modes : option (list WebSearchModeRequirement);
  toml_allow_managed_hooks_only : option bool;
  toml_allow_appshots : option bool;
  toml_computer_use : option ComputerUseRequirementsToml;
  toml_windows : option WindowsRequirementsToml;
  toml_feature_requirements : option FeatureRequirementsToml;
  toml_hooks : option ManagedHooksRequirementsToml;
  toml_mcp_servers : option (list (str * McpServerRequirement));
  toml_plugins : option (list (str * PluginRequirementsToml));
  toml_apps : option AppsRequirementsToml;
  toml_rules : option RequirementsExecPolicyToml;
  toml_enforce_residency : option ResidencyRequirement;
  toml_network : option NetworkRequirementsToml;
  toml_permissions : option PermissionsRequirementsToml;
  toml_guardian_policy_config : option str
}.

(** [codex-rs/config/src/config_requirements.rs:886-909 ConfigRequirementsWithSources] *)
Record ConfigRequirementsWithSources := {
  allowed_tool_policies_with_source : option (Sourced (list ToolPolicy));
  infinity_agent_trust_key_with_source : option (Sourced str);
  allowed_approval_policies_with_source : option (Sourced (list AskForApproval));
  allowed_approvals_reviewers_with_source : option (Sourced (list ApprovalsReviewer));
  allowed_sandbox_modes_with_source : option (Sourced (list SandboxModeRequirement));
  allowed_permission_profiles_with_source : option (Sourced (list (str * bool)));
  default_permissions_with_source : option (Sourced str);
  allowed_web_search_modes_with_source : option (Sourced (list WebSearchModeRequirement));
  allow_managed_hooks_only_with_source : option (Sourced bool);
  allow_appshots_with_source : option (Sourced bool);
  computer_use_with_source : option (Sourced ComputerUseRequirementsToml);
  windows_with_source : option (Sourced WindowsRequirementsToml);
  feature_requirements_with_source : option (Sourced FeatureRequirementsToml);
  hooks_with_source : option (Sourced ManagedHooksRequirementsToml);
  mcp_servers_with_source : option (Sourced (list (str * McpServerRequirement)));
  plugins_with_source : option (Sourced (list (str * PluginRequirementsToml)));
  apps_with_source : option (Sourced AppsRequirementsToml);
  rules_with_source : option (Sourced RequirementsExecPolicyToml);
  enforce_residency_with_source : option (Sourced ResidencyRequirement);
  network_with_source : option (Sourced NetworkRequirementsToml);
  permissions_with_source : option (Sourced PermissionsRequirementsToml);
  guardian_policy_config_with_source : option (Sourced str)
}.

(** [ConfigRequirementsWithSources::default()]. *)
Definition no_requirements : ConfigRequirementsWithSources :=
  {|
     allowed_tool_policies_with_source := None;
     infinity_agent_trust_key_with_source := None;
     allowed_approval_policies_with_source := None;
     allowed_approvals_reviewers_with_source := None;
     allowed_sandbox_modes_with_source := None;
     allowed_permission_profiles_with_source := None;
     default_permissions_with_source := None;
     allowed_web_search_modes_with_source := None;
     allow_managed_hooks_only_with_source := None;
     allow_appshots_with_source := None;
     computer_use_with_source := None;
     windows_with_source := None;
     feature_requirements_with_source := None;
     hooks_with_source := None;
     mcp_servers_with_source := None;
     plugins_with_source := None;
     apps_with_source := None;
     rules_with_source := None;
     enforce_residency_with_source := None;
     network_with_source := None;
     permissions_with_source := None;
     guardian_policy_config_with_source := None |}.

(** A field of [other] that is set counts where [base] has none. *)
Definition fill_missing {T} (base : option (Sourced T)) (other : option T) (src : RequirementSource) : option (Sourced T) :=
  match base, other with
  | None, Some v => Some (mkSourced v src)
  | _, _ => base
  end.

(** [codex-rs/config/src/config_requirements.rs:909-999 ConfigRequirementsWithSources::merge_unset_fields] *)
Definition merge_unset_fields (self : ConfigRequirementsWithSources) (source : RequirementSource)
    (other : ConfigRequirementsToml) : ConfigRequirementsWithSources :=
  let guardian := match toml_guardian_policy_config other with
                  | Some v => if blank v then None else Some v
                  | None => None
                  end in
  let apps := match toml_apps other, apps_with_source self with
              | Some incoming, Some (mkSourced existing src) =>
                  Some (mkSourced (merge_app_requirements_descending existing incoming) src)
              | Some incoming, None => Some (mkSourced incoming source)
              | None, existing => existing
              end in
  {|
     allowed_tool_policies_with_source := fill_missing (allowed_tool_policies_with_source self) (toml_allowed_tool_policies other) source;
     infinity_agent_trust_key_with_source := fill_missing (infinity_agent_trust_key_with_source self) (toml_infinity_agent_trust_key other) source;
     allowed_approval_policies_with_source := fill_missing (allowed_approval_policies_with_source self) (toml_allowed_approval_policies other) source;
     allowed_approvals_reviewers_with_source := fill_missing (allowed_approvals_reviewers_with_source self) (toml_allowed_approvals_reviewers other) source;
     allowed_sandbox_modes_with_source := fill_missing (allowed_sandbox_modes_with_source self) (toml_allowed_sandbox_modes other) source;
     allowed_permission_profiles_with_source := fill_missing (allowed_permission_profiles_with_source self) (toml_allowed_permission_profiles other) source;
     default_permissions_with_source := fill_missing (default_permissions_with_source self) (toml_default_permissions other) source;
     allowed_web_search_modes_with_source := fill_missing (allowed_web_search_modes_with_source self) (toml_allowed_web_search_modes other) source;
     allow_managed_hooks_only_with_source := fill_missing (allow_managed_hooks_only_with_source self) (toml_allow_managed_hooks_only other) source;
     allow_appshots_with_source := fill_missing (allow_appshots_with_source self) (toml_allow_appshots other) source;
     computer_use_with_source := fill_missing (computer_use_with_source self) (toml_computer_use other) source;
     windows_with_source := fill_missing (windows_with_source self) (toml_windows other) source;
     feature_requirements_with_source := fill_missing (feature_requirements_with_source self) (toml_feature_requirements other) source;
     hooks_with_source := fill_missing (hooks_with_source self) (toml_hooks other) source;
     mcp_servers_with_source := fill_missing (mcp_servers_with_source self) (toml_mcp_servers other) source;
     plugins_with_source := fill_missing (plugins_with_source self) (toml_plugins other) source;
     apps_with_source := apps;
     rules_with_source := fill_missing (rules_with_source self) (toml_rules other) source;
     enforce_residency_with_source := fill_missing (enforce_residency_with_source self) (toml_enforce_residency other) source;
     network_with_source := fill_missing (network_with_source self) (toml_network other) source;
     permissions_with_source := fill_missing (permissions_with_source self) (toml_permissions other) source;
     guardian_policy_config_with_source := fill_missing (guardian_policy_config_with_source self) guardian source |}.

(** [codex-rs/config/src/config_requirements.rs:1001-1051 ConfigRequirementsWithSources::into_toml] *)
Definition into_toml (self : ConfigRequirementsWithSources) : ConfigRequirementsToml :=
  {|
     toml_allowed_tool_policies := sourced_value <$> allowed_tool_policies_with_source self;
     toml_infinity_agent_trust_key := sourced_value <$> infinity_agent_trust_key_with_source self;
     toml_allowed_approval_policies := sourced_value <$> allowed_approval_policies_with_source self;
     toml_allowed_approvals_reviewers := sourced_value <$> allowed_approvals_reviewers_with_source self;
     toml_allowed_sandbox_modes := sourced_value <$> allowed_sandbox_modes_with_source self;
     toml_allowed_permission_profiles := sourced_value <$> allowed_permission_profiles_with_source self;
     toml_default_permissions := sourced_value <$> default_permissions_with_source self;
     toml_remote_sandbox_config := None;
     toml_allowed_web_search_modes := sourced_value <$> allowed_web_search_modes_with_source self;
     toml_allow_managed_hooks_only := sourced_value <$> allow_managed_hooks_only_with_source self;
     toml_allow_appshots := sourced_value <$> allow_appshots_with_source self;
     toml_computer_use := sourced_value <$> computer_use_with_source self;
     toml_windows := sourced_value <$> windows_with_source self;
     toml_feature_requirements := sourced_value <$> feature_requirements_with_source self;
     toml_hooks := sourced_value <$> hooks_with_source self;
     toml_mcp_servers := sourced_value <$> mcp_servers_with_source self;
     toml_plugins := sourced_value <$> plugins_with_source self;
     toml_apps := sourced_value <$> apps_with_source self;
     toml_rules := sourced_value <$> rules_with_source self;
     toml_enforce_residency := sourced_value <$> enforce_residency_with_source self;
     toml_network := sourced_value <$> network_with_source self;
     toml_permissions := sourced_value <$> permissions_with_source self;
     toml_guardian_policy_config := sourced_value <$> guardian_policy_config_with_source self |}.

(** [codex-rs/config/src/config_requirements.rs:1117-1162 ConfigRequirementsToml::is_empty] *)
Definition requirements_is_empty (self : ConfigRequirementsToml) : bool :=
  negb (is_some (toml_allowed_tool_policies self)) && negb (is_some (toml_infinity_agent_trust_key self)) &&
  negb (is_some (toml_allowed_approval_policies self)) && negb (is_some (toml_allowed_approvals_reviewers self)) &&
  negb (is_some (toml_allowed_sandbox_modes self)) && negb (is_some (toml_allowed_permission_profiles self)) &&
  negb (is_some (toml_default_permissions self)) && negb (is_some (toml_remote_sandbox_config self)) &&
  negb (is_some (toml_allowed_web_search_modes self)) && negb (is_some (toml_allow_managed_hooks_only self)) &&
  negb (is_some (toml_allow_appshots self)) &&
  match toml_computer_use self with Some (Some _) => false | _ => true end &&
  match toml_windows self with Some (Some _) => false | _ => true end &&
  match toml_feature_requirements self with Some (_ :: _) => false | _ => true end &&
  match toml_hooks self with Some hooks => hooks_is_empty hooks | None => true end &&
  negb (is_some (toml_mcp_servers self)) &&
  match toml_plugins self with Some plugins => forallb (fun e => plugin_is_empty e.2) plugins | None => true end &&
  match toml_apps self with Some apps => apps_is_empty apps | None => true end &&
  negb (is_some (toml_rules self)) && negb (is_some (toml_enforce_residency self)) &&
  negb (is_some (toml_network self)) && negb (is_some (toml_permissions self)) &&
  match toml_guardian_policy_config self with Some v => blank v | None => true end.

(** [codex-rs/config/src/config_requirements.rs:1054-1057 normalize_hostname] *)
Definition normalize_hostname (hostname : str) : option str :=
  let hostname := trim_end_by (N.eqb 46) (trim hostname) in
  if bool_decide (hostname = []) then None else Some (to_ascii_lowercase hostname).

Section Hostnames.
(** The wildcard library: a case-insensitive pattern against a host name. *)
Context (wildmatch : str -> str -> bool).

(** [codex-rs/config/src/config_requirements.rs:1059-1065 hostname_matches_any_pattern] *)
Definition hostname_matches_any_pattern (hostname : str) (patterns : list str) : bool :=
  existsb (fun pattern => match normalize_hostname pattern with Some pattern => wildmatch pattern hostname | None => false end)
    patterns.

(** [codex-rs/config/src/config_requirements.rs:1101-1115 ConfigRequirementsToml::apply_remote_sandbox_config] what
    becomes of the allowed sandbox modes. *)
Definition apply_remote_sandbox_config (self : ConfigRequirementsToml) (hostname : option str)
    : option (list SandboxModeRequirement) :=
  match toml_remote_sandbox_config self, hostname ≫= normalize_hostname with
  | Some configs, Some hostname =>
      match List.find (fun config => hostname_matches_any_pattern hostname (hostname_patterns config)) configs with
      | Some matched_config => Some (remote_allowed_sandbox_modes matched_config)
      | None => toml_allowed_sandbox_modes self
      end
  | _, _ => toml_allowed_sandbox_modes self
  end.
End Hostnames.

(** ** From requirements to constraints *)

(** [codex-rs/config/src/config_requirements.rs:1529-1550 sandbox_mode_requirement_for_permission_profile] *)
Definition sandbox_mode_requirement_for_permission_profile (profile : PermissionProfile) : SandboxModeRequirement :=
  match profile with
  | Disabled => ModeDangerFullAccess
  | External _ => ModeExternalSandbox
  | Managed _ _ =>
      let file_system_policy := file_system_sandbox_policy profile in
      if has_full_disk_write_access file_system_policy then ModeDangerFullAccess
      else if existsb (fun entry => can_write (entry_access entry)) (entries file_system_policy) then ModeWorkspaceWrite
      else ModeReadOnly
  end.

(** [codex-rs/config/src/config_requirements.rs:145-168 ConfigRequirements] *)
Record ConfigRequirements := {
  tool_policy : ConstrainedWithSource ToolPolicy;
  infinity_agent_trust_key : option (Sourced str);
  approval_policy : ConstrainedWithSource AskForApproval;
  approvals_reviewer : ConstrainedWithSource ApprovalsReviewer;
  permission_profile : ConstrainedWithSource PermissionProfile;
  windows_sandbox_mode : ConstrainedWithSource (option WindowsSandboxModeToml);
  web_search_mode : ConstrainedWithSource WebSearchMode;
  allow_managed_hooks_only : option (Sourced bool);
  allow_appshots : option (Sourced bool);
  computer_use : option (Sourced ComputerUseRequirementsToml);
  feature_requirements : option (Sourced FeatureRequirementsToml);
  managed_hooks : option (ConstrainedWithSource ManagedHooksRequirementsToml);
  mcp_servers : option (Sourced (list (str * McpServerRequirement)));
  plugins : option (Sourced (list (str * PluginRequirementsToml)));
  exec_policy : option (Sourced ExecPolicy.Policy);
  enforce_residency : ConstrainedWithSource (option ResidencyRequirement);
  network_constraints : option (Sourced NetworkConstraints);
  filesystem : option (Sourced FilesystemConstraints);
  guardian_policy_config_source : option RequirementSource
}.

Section Convert.
Context (os : Os).
Context {debug_hooks : Debug ManagedHooksRequirementsToml}.

(** [PermissionProfile::read_only()], the value of [profile_read_only]. *)
Definition read_only_profile : PermissionProfile := Managed (ManagedRestricted read_only_file_system_entries None) NetRestricted.

(** [codex-rs/config/src/config_requirements.rs:171-214 ConfigRequirements::default] *)
Definition default_requirements : ConfigRequirements := {|
  tool_policy := mkCWS (allow_any FullTools) None;
  infinity_agent_trust_key := None;
  approval_policy := mkCWS (allow_any OnRequest) None;
  approvals_reviewer := mkCWS (allow_any ReviewByUser) None;
  permission_profile := mkCWS (allow_any read_only_profile) None;
  windows_sandbox_mode := mkCWS (allow_any None) None;
  web_search_mode := mkCWS (allow_any SearchCached) None;
  allow_managed_hooks_only := None;
  allow_appshots := None;
  computer_use := None;
  feature_requirements := None;
  managed_hooks := None;
  mcp_servers := None;
  plugins := None;
  exec_policy := None;
  enforce_residency := mkCWS (allow_any None) None;
  network_constraints := None;
  filesystem := None;
  guardian_policy_config_source := None |}.

(** A candidate that is accepted or refused with the value, what is allowed, and the source of the requirement. *)
Definition check_candidate (accepted : bool) (field_name candidate allowed : str) (src : RequirementSource) : ConstraintResult unit :=
  if accepted then Ok tt else Err (InvalidValue field_name candidate allowed src).

(** [codex-rs/config/src/config_requirements.rs:1249-1278 ConfigRequirements::try_from] a setting with a list of allowed
    values, the first of which is the initial one: the approval policy, and in the same way the tool policy and the
    reviewer. *)
Definition allow_listed {T} `{EqDecision T, Debug T} (field_name list_name : str) (default_value : T)
    (allowed : option (Sourced (list T))) : ConstraintResult (ConstrainedWithSource T) :=
  match allowed with
  | Some (mkSourced policies src) =>
      match policies with
      | [] => Err (EmptyField list_name)
      | initial_value :: _ =>
          c ← new initial_value (fun candidate =>
                check_candidate (bool_decide (candidate ∈ policies)) field_name (debug candidate) (debug policies) src);
          Ok (mkCWS c (Some src))
      end
  | None => Ok (mkCWS (allow_any default_value) None)
  end.

(** [codex-rs/config/src/config_requirements.rs:1226-1248 ConfigRequirements::try_from] the trust key. *)
Definition convert_trust_key (sourced : Sourced str) : ConstraintResult (Sourced str) :=
  match source sourced with
  | SystemRequirementsToml _ =>
      match from_absolute_path (home_dir os) (current_dir os) (sourced_value sourced) with
      | Ok path => Ok (mkSourced path (source sourced))
      | Err _ => Err (InvalidValue (lit "infinity_agent_trust_key") (lit "non-absolute path") (lit "an absolute path") (source sourced))
      end
  | _ => Err (InvalidValue (lit "infinity_agent_trust_key") (lit "non-system requirements source")
                (lit "the system requirements file") (source sourced))
  end.

(** [codex-rs/config/src/config_requirements.rs:1310-1345 ConfigRequirements::try_from] the permission profile. *)
Definition convert_sandbox_modes (allowed : option (Sourced (list SandboxModeRequirement)))
    : ConstraintResult (ConstrainedWithSource PermissionProfile) :=
  match allowed with
  | Some (mkSourced modes src) =>
      if negb (bool_decide (ModeReadOnly ∈ modes))
      then Err (InvalidValue (lit "allowed_sandbox_modes") (debug modes)
                  (lit "must include 'read-only' to allow any PermissionProfile") src)
      else
        c ← new read_only_profile (fun candidate =>
              let mode := sandbox_mode_requirement_for_permission_profile candidate in
              check_candidate (bool_decide (mode ∈ modes)) (lit "sandbox_mode") (debug mode) (debug modes) src);
        Ok (mkCWS c (Some src))
  | None => Ok (mkCWS (allow_any read_only_profile) None)
  end.

(** [codex-rs/config/src/config_requirements.rs:1346-1383 ConfigRequirements::try_from] the Windows sandbox. *)
Definition convert_windows (windows : option (Sourced WindowsRequirementsToml))
    : ConstraintResult (ConstrainedWithSource (option WindowsSandboxModeToml)) :=
  match windows with
  | Some (mkSourced (Some implementations) src) =>
      if bool_decide (length implementations = 0) then Err (EmptyField (lit "windows.allowed_sandbox_implementations"))
      else
        let initial_value := if bool_decide (WindowsElevated ∈ implementations) then WindowsElevated else WindowsUnelevated in
        c ← new (Some initial_value) (fun candidate =>
              check_candidate (match candidate with Some m => bool_decide (m ∈ implementations) | None => false end)
                (lit "windows.sandbox") (debug candidate) (debug implementations) src);
        Ok (mkCWS c (Some src))
  | _ => Ok (mkCWS (allow_any None) None)
  end.

(** The accepted modes in the order of a [BTreeSet]. *)
Definition accepted_search_modes (modes : list WebSearchModeRequirement) : list WebSearchModeRequirement :=
  List.filter (fun m => bool_decide (m ∈ RequireDisabled :: modes)) [RequireDisabled; RequireCached; RequireLive].

(** [codex-rs/config/src/config_requirements.rs:1396-1438 ConfigRequirements::try_from] the web search. *)
Definition convert_search_modes (allowed : option (Sourced (list WebSearchModeRequirement)))
    : ConstraintResult (ConstrainedWithSource WebSearchMode) :=
  match allowed with
  | Some (mkSourced modes src) =>
      let accepted := accepted_search_modes modes in
      let initial_value := if bool_decide (RequireCached ∈ accepted) then SearchCached
                           else if bool_decide (RequireLive ∈ accepted) then SearchLive else SearchDisabled in
      c ← new initial_value (fun candidate =>
            check_candidate (bool_decide (search_requirement candidate ∈ accepted)) (lit "web_search_mode") (debug candidate)
              (debug (map search_mode accepted)) src);
      Ok (mkCWS c (Some src))
  | None => Ok (mkCWS (allow_any SearchCached) None)
  end.

(** [codex-rs/config/src/config_requirements.rs:1441-1469 ConfigRequirements::try_from] the managed hooks. *)
Definition convert_hooks (hooks : option (Sourced ManagedHooksRequirementsToml))
    : ConstraintResult (option (ConstrainedWithSource ManagedHooksRequirementsToml)) :=
  match hooks with
  | Some (mkSourced allowed src) =>
      if bool_decide (handler_count allowed = 0) then Ok None
      else
        c ← new allowed (fun candidate =>
              check_candidate (bool_decide (candidate = allowed)) (lit "hooks") (debug candidate) (debug allowed) src);
        Ok (Some (mkCWS c (Some src)))
  | None => Ok None
  end.

(** [codex-rs/config/src/config_requirements.rs:1470-1504 ConfigRequirements::try_from] the residency. *)
Definition convert_residency (residency : option (Sourced ResidencyRequirement))
    : ConstraintResult (ConstrainedWithSource (option ResidencyRequirement)) :=
  match residency with
  | Some (mkSourced residency src) =>
      let required := Some residency in
      c ← new required (fun candidate =>
            check_candidate (bool_decide (candidate = required)) (lit "enforce_residency") (debug candidate) (debug required) src);
      Ok (mkCWS c (Some src))
  | None => Ok (mkCWS (allow_any None) None)
  end.

(** [codex-rs/config/src/config_requirements.rs:1384-1395 ConfigRequirements::try_from] the rules. *)
Definition convert_rules (rules : option (Sourced RequirementsExecPolicyToml)) : ConstraintResult (option (Sourced ExecPolicy.Policy)) :=
  match rules with
  | Some (mkSourced rules src) =>
      policy ← map_err (fun err => ExecPolicyParse src (parse_error_text err)) (to_policy rules);
      Ok (Some (mkSourced policy src))
  | None => Ok None
  end.

Definition map_sourced {A B} (f : A -> B) (s : Sourced A) : Sourced B := mkSourced (f (sourced_value s)) (source s).

(** [codex-rs/config/src/config_requirements.rs:1168-1526 ConfigRequirements::try_from] *)
Definition requirements_try_from (toml : ConfigRequirementsWithSources) : ConstraintResult ConfigRequirements :=
  tool_policy ← allow_listed (lit "tools.policy") (lit "allowed_tool_policies") FullTools (allowed_tool_policies_with_source toml);
  trust_key ← (match infinity_agent_trust_key_with_source toml with
               | Some sourced => Some <$> convert_trust_key sourced
               | None => Ok None
               end);
  approval_policy ← allow_listed (lit "approval_policy") (lit "allowed_approval_policies") OnRequest
                      (allowed_approval_policies_with_source toml);
  approvals_reviewer ← allow_listed (lit "approvals_reviewer") (lit "allowed_approvals_reviewers") ReviewByUser
                         (allowed_approvals_reviewers_with_source toml);
  permission_profile ← convert_sandbox_modes (allowed_sandbox_modes_with_source toml);
  windows_sandbox_mode ← convert_windows (windows_with_source toml);
  exec_policy ← convert_rules (rules_with_source toml);
  web_search_mode ← convert_search_modes (allowed_web_search_modes_with_source toml);
  managed_hooks ← convert_hooks (hooks_with_source toml);
  enforce_residency ← convert_residency (enforce_residency_with_source toml);
  Ok {| tool_policy := tool_policy;
        infinity_agent_trust_key := trust_key;
        approval_policy := approval_policy;
        approvals_reviewer := approvals_reviewer;
        permission_profile := permission_profile;
        windows_sandbox_mode := windows_sandbox_mode;
        web_search_mode := web_search_mode;
        allow_managed_hooks_only := allow_managed_hooks_only_with_source toml;
        allow_appshots := allow_appshots_with_source toml;
        computer_use := computer_use_with_source toml;
        feature_requirements :=
          match feature_requirements_with_source toml with
          | Some s => if bool_decide (length (sourced_value s) = 0) then None else Some s
          | None => None
          end;
        managed_hooks := managed_hooks;
        mcp_servers := mcp_servers_with_source toml;
        plugins := plugins_with_source toml;
        exec_policy := exec_policy;
        enforce_residency := enforce_residency;
        network_constraints := network_with_source toml;
        filesystem := map_sourced filesystem_constraints <$> permissions_with_source toml;
        guardian_policy_config_source := source <$> guardian_policy_config_with_source toml |}.

End Convert.

(** ** Applying the constraints to a configuration: core/src/config/mod.rs *)

(** [codex-rs/config/src/config_requirements.rs:82-113 RequirementSource::fmt] *)
Fixpoint source_text (self : RequirementSource) : str :=
  match self with
  | UnknownSource => lit "<unspecified>"
  | MdmManagedPreferences domain key => lit "MDM " ++ domain ++ lit ":" ++ key
  | Composite sources => lit "requirements layers: " ++ join (lit ", ") (map source_text sources)
  | EnterpriseManaged id name => lit "enterprise-managed requirements " ++ name ++ lit " (" ++ id ++ lit ")"
  | SystemRequirementsToml file => file
  | LegacyManagedConfigTomlFromFile file => file
  | LegacyManagedConfigTomlFromMdm => lit "MDM managed_config.toml (legacy)"
  end.

(** [codex-rs/config/src/constraint.rs:7-27 ConstraintError] its message. *)
Definition constraint_error_text (err : ConstraintError) : str :=
  match err with
  | InvalidValue field_name candidate allowed src =>
      lit "invalid value for " ++ in_ticks field_name ++ lit ": " ++ in_ticks candidate ++
      lit " is not in the allowed set " ++ allowed ++ lit " (set by " ++ source_text src ++ lit ")"
  | EmptyField field_name => lit "field " ++ in_ticks field_name ++ lit " cannot be empty"
  | ExecPolicyParse src reason => lit "invalid rules in requirements (set by " ++ source_text src ++ lit "): " ++ reason
  end.

(** [codex-rs/core/src/config/mod.rs:2725-2759 apply_requirement_constrained_value] the constraint after it, the warnings,
    and whether the configured value was replaced. *)
Definition apply_requirement_constrained_value {T} `{Debug T} (field_name : str) (configured_value : T)
    (c : ConstrainedWithSource T) : W (ConstrainedWithSource T * bool) :=
  match set (constrained c) configured_value with
  | (c', Ok _) => mret (mkCWS c' (cws_source c), false)
  | (c', Err err) =>
      let fallback_value := value c' in
      _ ← push_warning (lit "Configured value for " ++ in_ticks field_name ++
            lit " is disallowed by requirements; falling back to required value " ++ debug fallback_value ++
            lit ". Details: " ++ constraint_error_text err);
      match set c' fallback_value with
      | (c'', Ok _) => mret (mkCWS c'' (cws_source c), true)
      | (_, Err fallback_err) =>
          lift (Err (lit "configured value for " ++ in_ticks field_name ++ lit " is disallowed by requirements (" ++
                     constraint_error_text err ++ lit "); fallback to a requirement-compliant value also failed (" ++
                     constraint_error_text fallback_err ++ lit ")"))
      end
  end.

(** [codex-rs/core/src/config/mod.rs:4152-4173 Config::load_config_with_layer_stack] the approval policy before the
    requirements are applied: one that was not chosen gives way to the required one. *)
Definition resolve_approval_policy (approval_policy_override cfg_approval_policy : option AskForApproval)
    (trust_level : option TrustLevel) (c : ConstrainedWithSource AskForApproval) : AskForApproval :=
  match approval_policy_override, cfg_approval_policy with
  | Some policy, _ | None, Some policy => policy
  | None, None =>
      let policy := match trust_level with Some Untrusted => UnlessTrusted | Some Trusted | None => OnRequest end in
      match can_set (constrained c) policy with Ok _ => policy | Err _ => value (constrained c) end
  end.

(** [codex-rs/core/src/config/mod.rs:4174-4188 Config::load_config_with_layer_stack] the same for the reviewer. *)
Definition resolve_approvals_reviewer (reviewer_override cfg_reviewer : option ApprovalsReviewer)
    (c : ConstrainedWithSource ApprovalsReviewer) : ApprovalsReviewer :=
  match reviewer_override, cfg_reviewer with
  | Some reviewer, _ | None, Some reviewer => reviewer
  | None, None =>
      match can_set (constrained c) ReviewByUser with Ok _ => ReviewByUser | Err _ => value (constrained c) end
  end.

(** [codex-rs/core/src/config/mod.rs:4518-4534 Config::load_config_with_layer_stack] required denials of reads rule out
    profiles without a sandbox of their own. *)
Definition deny_read_validator (src : RequirementSource) (profile : PermissionProfile) : ConstraintResult unit :=
  let mode := sandbox_mode_requirement_for_permission_profile profile in
  match mode with
  | ModeReadOnly | ModeWorkspaceWrite => Ok tt
  | ModeDangerFullAccess | ModeExternalSandbox =>
      Err (InvalidValue (lit "sandbox_mode") (debug mode) (lit "[read-only, workspace-write]") src)
  end.

(** [codex-rs/core/src/config/mod.rs:4510-4536 Config::load_config_with_layer_stack] the validator added to the profile's
    constraint. *)
Definition add_deny_read (requirements : option (Sourced FilesystemConstraints)) (c : ConstrainedWithSource PermissionProfile)
    : result str (ConstrainedWithSource PermissionProfile) :=
  match requirements with
  | Some (mkSourced (_ :: _) src) =>
      match add_validator (constrained c) (deny_read_validator src) with
      | (c', Ok _) => Ok (mkCWS c' (cws_source c))
      | (_, Err err) => Err (constraint_error_text err)
      end
  | _ => Ok c
  end.

(** Derived equality of permission profiles. *)
Definition permission_profile_eqb (a b : PermissionProfile) : bool :=
  let net_eqb x y := bool_decide (is_enabled x = is_enabled y) in
  let fix entries_eqb xs ys := match xs, ys with
                               | [], [] => true
                               | x :: xs, y :: ys => entry_eqb x y && entries_eqb xs ys
                               | _, _ => false
                               end in
  match a, b with
  | Managed (ManagedRestricted xs d) n, Managed (ManagedRestricted ys d') n' =>
      entries_eqb xs ys && bool_decide (d = d') && net_eqb n n'
  | Managed ManagedUnrestricted n, Managed ManagedUnrestricted n' => net_eqb n n'
  | Disabled, Disabled => true
  | External n, External n' => net_eqb n n'
  | _, _ => false
  end.

(** What a session runs with. *)
Record ConstrainedSettings := {
  final_approval_policy : ConstrainedWithSource AskForApproval;
  final_approvals_reviewer : ConstrainedWithSource ApprovalsReviewer;
  final_permission_profile : ConstrainedWithSource PermissionProfile;
  profile_was_constrained : bool;
  final_web_search_mode : ConstrainedWithSource WebSearchMode
}.

Definition never_without_access : str :=
  in_ticks (lit "approval_policy = " ++ [34%N] ++ lit "never" ++ [34%N]) ++
  lit " cannot be used because requirements do not allow " ++
  in_ticks (lit "sandbox_mode = " ++ [34%N] ++ lit "danger-full-access" ++ [34%N]) ++
  lit "; Codewith would fall back to read-only permissions with approvals disabled. Choose an " ++ in_ticks (lit "approval_policy") ++
  lit " based on what you need, such as " ++ in_ticks (lit "on-request") ++ lit ", or choose an allowed sandbox mode.".

(** [codex-rs/core/src/config/mod.rs:4502-4571 Config::load_config_with_layer_stack] the settings under requirements. *)
Definition apply_requirements {debug_profile : Debug PermissionProfile} (req : ConfigRequirements) (approval : AskForApproval)
    (reviewer : ApprovalsReviewer) (profile : PermissionProfile) (search : WebSearchMode) : W ConstrainedSettings :=
  '(approval_policy, _) ← apply_requirement_constrained_value (lit "approval_policy") approval (approval_policy req);
  constrained_profile ← lift (add_deny_read (filesystem req) (permission_profile req));
  '(approvals_reviewer, _) ← apply_requirement_constrained_value (lit "approvals_reviewer") reviewer (approvals_reviewer req);
  '(permission_profile, was_constrained) ← apply_requirement_constrained_value (lit "permission_profile") profile constrained_profile;
  if was_constrained &&
     bool_decide (sandbox_mode_requirement_for_permission_profile profile = ModeDangerFullAccess) &&
     permission_profile_eqb (value (constrained permission_profile)) read_only_profile &&
     bool_decide (value (constrained approval_policy) = Never)
  then lift (Err never_without_access)
  else
    '(web_search_mode, _) ← apply_requirement_constrained_value (lit "web_search_mode") search (web_search_mode req);
    mret {| final_approval_policy := approval_policy; final_approvals_reviewer := approvals_reviewer;
            final_permission_profile := permission_profile; profile_was_constrained := was_constrained;
            final_web_search_mode := web_search_mode |}.

(** ** Rules: lemmas and theorems *)

(** No requirements convert to the default ones. *)
Lemma no_requirements_default os `{Debug ManagedHooksRequirementsToml} :
  requirements_try_from os no_requirements = Ok default_requirements.
Proof. done. Qed.

(** What a token of a pattern stands for. *)
Definition token_choices (t : PatternTokenToml) : list str :=
  match token t, any_of t with Some single, None => [single] | None, Some alternatives => alternatives | _, _ => [] end.

(** A command that starts with a choice for each token of the rule. *)
Definition rule_covers (rule : PrefixRuleToml) (cmd : list str) : Prop :=
  exists toks tail, cmd = toks ++ tail /\ Forall2 (fun t tok => tok ∈ token_choices t) (rule_pattern rule) toks.

Lemma parse_token_ok t i j p : parse_pattern_token t i j = Ok p -> ExecPolicy.alternatives p = token_choices t.
Proof. unfold parse_pattern_token, token_choices. intros. by case_goal. Qed.

(** What a rule is parsed to: its tokens one by one, and its decision, which does not allow. *)
Lemma parse_rule_ok i rule first rest decision :
  parse_rule i rule = Ok (first, rest, decision) ->
  Forall2 (fun t p => ExecPolicy.alternatives p = token_choices t) (rule_pattern rule) (first :: rest) /\
  decision <> ExecPolicy.Allow /\ as_decision <$> rule_decision rule = Some decision.
Proof.
  unfold parse_rule. intros H. destruct (if rule_justification rule is Some _ then _ else _); [done|].
  case_bool_decide; [done|]. bind_inv H. destruct a as [|p ps]; [done|]. simplify_eq. split.
  - apply try_map_ok in Ha. apply Forall2_same_length_lookup in Ha as [Hl Ha]. apply Forall2_same_length_lookup.
    rewrite length_imap in Hl. split; [done|]. intros j t q Ht Hq.
    specialize (Ha j (j, t) q). rewrite list_lookup_imap, Ht in Ha. by eapply parse_token_ok, Ha.
  - destruct (rule_decision rule) as [[]|]; by simplify_eq.
Qed.

Lemma insert_rule_elem rule first rest decision m k r :
  r ∈ default [] (insert_rule rule (first, rest, decision) m !! k) <->
  r ∈ default [] (m !! k) \/
  k ∈ ExecPolicy.alternatives first /\
  r = {| ExecPolicy.pattern := {| ExecPolicy.first := k; ExecPolicy.rest := rest |};
         ExecPolicy.decision := decision; ExecPolicy.justification := rule_justification rule |}.
Proof.
  unfold insert_rule. generalize (ExecPolicy.alternatives first) as heads. intros heads. revert m.
  induction heads as [|h heads IH]; intros m; simpl; [set_solver|]. rewrite IH, PolicyFile.multi_insert_elem.
  rewrite elem_of_cons. naive_solver.
Qed.

Lemma fold_rules_ok l m m' :
  try_fold (fun m '(i, rule) => parsed ← parse_rule i rule; Ok (insert_rule rule parsed m)) l m = Ok m' ->
  (forall k r, r ∈ default [] (m !! k) -> r ∈ default [] (m' !! k)) /\
  (forall i rule, (i, rule) ∈ l -> exists first rest decision, parse_rule i rule = Ok (first, rest, decision) /\
     forall k, k ∈ ExecPolicy.alternatives first ->
       {| ExecPolicy.pattern := {| ExecPolicy.first := k; ExecPolicy.rest := rest |};
          ExecPolicy.decision := decision; ExecPolicy.justification := rule_justification rule |} ∈ default [] (m' !! k)) /\
  (forall k r, r ∈ default [] (m' !! k) -> r ∈ default [] (m !! k) \/ ExecPolicy.decision r <> ExecPolicy.Allow).
Proof.
  revert m. induction l as [|[i rule] l IH]; intros m; simpl; [intros [= <-]; set_solver|].
  intros (m1 & ([[first rest] decision] & Hp & [= <-])%result_bind_ok & Hf)%result_bind_ok.
  destruct (IH _ Hf) as (Hkeep & Hall & Honly). pose proof (insert_rule_elem rule first rest decision m) as He.
  split; [intros k r Hr; apply Hkeep, He; by left|]. split.
  - intros i' rule' [[= -> ->]|Hin]%elem_of_cons; [|by apply Hall]. exists first, rest, decision. split; [done|].
    intros k Hk. apply Hkeep, He. by right.
  - intros k r Hr. destruct (Honly k r Hr) as [[?|[_ ->]]%He|?]; [by left | right | by right].
    by apply parse_rule_ok in Hp as (_ & ? & _).
Qed.

(** A rule of the document, in the policy it is converted to. *)
Lemma to_policy_rule rules p rule cmd decision :
  to_policy rules = Ok p -> rule ∈ rules -> rule_covers rule cmd -> rule_decision rule = Some decision ->
  exists m, m ∈ default [] (ExecPolicy.match_exact_rules p cmd) /\ ExecPolicy.match_decision m = as_decision decision.
Proof.
  unfold to_policy. case_bool_decide; [done|]. intros (m & Hf & [= <-])%result_bind_ok Hin (toks & tail & -> & Hcover) Hd.
  apply list_elem_of_lookup in Hin as [i Hi]. apply fold_rules_ok in Hf as (_ & Hall & _).
  destruct (Hall i rule) as (first & rest & d & Hp & Hm).
  { apply list_elem_of_lookup. exists i. by rewrite list_lookup_imap, Hi. }
  destruct (parse_rule_ok _ _ _ _ _ Hp) as (Htoks & _ & Hdec). rewrite Hd in Hdec. injection Hdec as <-.
  inversion Htoks as [|t first' ts rest' Hfirst Hrest Hpat]. subst. rewrite <- Hpat in Hcover.
  inversion Hcover as [|? k ? ks Hk Hks]. subst. simpl. rewrite Hfirst in Hm. specialize (Hm k Hk).
  exists (ExecPolicy.PrefixRuleMatch (k :: ks) (as_decision decision) None (rule_justification rule)).
  split; [apply list_elem_of_omap; eexists; split; [exact Hm|] | done].
  unfold ExecPolicy.rule_matches. simpl. erewrite (proj2 (ExecPolicy.matches_prefix_Some _ _ (k :: ks))); [done|].
  simpl. exists ks, tail. split; [done|]. split; [done|]. clear -Hrest Hks. revert ks Hks.
  induction Hrest as [|t p ts ps Ht _ IH]; intros ks; inversion_clear 1; constructor; [by rewrite Ht | by apply IH].
Qed.

(** C13: The rules an administrator requires bind every command they cover.  When the rules of a requirements document are
    accepted, none of them allows anything; and whatever policy of the user they are merged into as an overlay, a command
    that starts with a choice for each token of a required rule gets a decision at least as strict as the rule's. *)
Theorem managed_rules_enforced {E} home_dir current_dir rules p :
  to_policy rules = Ok p ->
  (forall program r, r ∈ default [] (ExecPolicy.rules_by_program p !! program) -> ExecPolicy.decision r <> ExecPolicy.Allow) /\
  forall base rule cmd decision fallback options,
    rule ∈ rules -> rule_covers rule cmd -> rule_decision rule = Some decision ->
    exists e, @ExecPolicy.check_with_options home_dir current_dir E (ExecPolicy.merge_overlay base p) cmd fallback options = Done e /\
      ExecPolicy.rank (as_decision decision) <= ExecPolicy.rank (ExecPolicy.eval_decision e).
Proof.
  intros Hp. split.
  - unfold to_policy in Hp. case_bool_decide; [done|]. apply result_bind_ok in Hp as (m & Hf & [= <-]).
    apply fold_rules_ok in Hf as (_ & _ & Honly). intros program r Hr. destruct (Honly program r Hr) as [H0|]; [|done].
    rewrite lookup_empty in H0. set_solver.
  - intros base rule cmd decision fallback options Hin Hc Hd.
    destruct (to_policy_rule _ _ _ _ _ Hp Hin Hc Hd) as (m & Hm & <-).
    assert (Hm' : m ∈ default [] (ExecPolicy.match_exact_rules (ExecPolicy.merge_overlay base p) cmd))
      by (rewrite ExecPolicy.merge_exact; apply elem_of_app; by right).
    assert (Hne : default [] (ExecPolicy.match_exact_rules (ExecPolicy.merge_overlay base p) cmd) <> [])
      by (intros Hnil; rewrite Hnil in Hm'; set_solver).
    rewrite ExecPolicy.check_exact by done. destruct (ExecPolicy.from_matches_done (E := E) _ Hne) as (e & -> & _ & _ & Hmax).
    exists e. split; [done | by apply Hmax].
Qed.

Definition example_rule : PrefixRuleToml :=
  mkRuleToml [mkToken (Some (lit "git")) None; mkToken None (Some [lit "push"; lit "fetch"])] (Some DecidePrompt) None.

Lemma managed_rules_enforced_witness :
  exists p, to_policy [example_rule] = Ok p /\
    exists e, @ExecPolicy.check_with_options None None unit (ExecPolicy.merge_overlay ExecPolicy.empty_policy p)
      [lit "git"; lit "push"; lit "origin"] (fun _ => ExecPolicy.Allow) {| ExecPolicy.resolve_host_executables := false |} = Done e /\
      1 <= ExecPolicy.rank (ExecPolicy.eval_decision e).
Proof.
  eexists. split; [reflexivity|].
  apply (proj2 (@managed_rules_enforced unit None None [example_rule] _ eq_refl) ExecPolicy.empty_policy example_rule
    [lit "git"; lit "push"; lit "origin"] DecidePrompt).
  - apply list_elem_of_here.
  - exists [lit "git"; lit "push"], [lit "origin"]. split; [done|].
    repeat (constructor; [apply list_elem_of_here|]). constructor.
  - done.
Defined.

End Requirements.
