(* ===== verification/ManagedSettings.v ===== *)
(** * Settings under managed requirements: core/src/config/resolved_permission_profile.rs, parts of core/src/config/mod.rs
      and core/src/session/session.rs

    From the constraints of [Requirements] to the permissions of a configuration and of a session: the resolved profile
    and its state, the effective file-system policy with the denials that are required, and the updates of a session's
    settings.  The theorems are about what a requirement still guarantees after all of them. *)

From S2P Require Import Prelude Text AbsolutePath Permissions WritableRoots IpAddress HostPatterns NetworkConfig ConfigToml.
From S2P Require Import PermissionProfiles ExecPolicy ShellParse CommandSafety ExecApproval Requirements.

Module ManagedSettings.
Import NetworkConfig AbsolutePath Permissions WritableRoots PermissionProfiles ExecApproval Requirements.

(** ** Resolved profiles *)

(** [codex-rs/protocol/src/models.rs:336-347 ActivePermissionProfile] *)
Record ActivePermissionProfile := mkActive { active_id : str; active_extends : option str }.

(** [codex-rs/core/src/config/resolved_permission_profile.rs:10-15 BuiltInPermissionProfileId] *)
Inductive BuiltInPermissionProfileId := BuiltInReadOnly | BuiltInWorkspace | BuiltInDangerFullAccess.

(** [codex-rs/core/src/config/resolved_permission_profile.rs:18-25 BuiltInPermissionProfileId::from_str] *)
Definition builtin_from_str (id : str) : option BuiltInPermissionProfileId :=
  if bool_decide (id = BUILT_IN_READ_ONLY_PROFILE) then Some BuiltInReadOnly
  else if bool_decide (id = BUILT_IN_WORKSPACE_PROFILE) then Some BuiltInWorkspace
  else if bool_decide (id = BUILT_IN_DANGER_FULL_ACCESS_PROFILE) then Some BuiltInDangerFullAccess
  else None.

(** [codex-rs/core/src/config/resolved_permission_profile.rs:27-33 BuiltInPermissionProfileId::as_str] *)
Definition builtin_as_str (self : BuiltInPermissionProfileId) : str :=
  match self with
  | BuiltInReadOnly => BUILT_IN_READ_ONLY_PROFILE
  | BuiltInWorkspace => BUILT_IN_WORKSPACE_PROFILE
  | BuiltInDangerFullAccess => BUILT_IN_DANGER_FULL_ACCESS_PROFILE
  end.

(** [codex-rs/core/src/config/resolved_permission_profile.rs:36-76 ResolvedPermissionProfile] with the records of its
    variants. *)
Inductive ResolvedPermissionProfile :=
| LegacyProfile (permission_profile : PermissionProfile)
| BuiltInProfile (id : BuiltInPermissionProfileId) (extends : option str) (permission_profile : PermissionProfile)
    (profile_workspace_roots : list str)
| NamedProfile (id : str) (extends : option str) (permission_profile : PermissionProfile)
    (profile_workspace_roots : list str).

(** [codex-rs/core/src/config/resolved_permission_profile.rs:78-103 ResolvedPermissionProfile::from_active_profile] *)
Definition from_active_profile (permission_profile : PermissionProfile) (active : option ActivePermissionProfile)
    (profile_workspace_roots : list str) : ResolvedPermissionProfile :=
  match active with
  | None => LegacyProfile permission_profile
  | Some (mkActive id extends) =>
      match builtin_from_str id with
      | Some built_in_id => BuiltInProfile built_in_id extends permission_profile profile_workspace_roots
      | None => NamedProfile id extends permission_profile profile_workspace_roots
      end
  end.

(** [codex-rs/core/src/config/resolved_permission_profile.rs:109-115 ResolvedPermissionProfile::permission_profile] *)
Definition resolved_profile (self : ResolvedPermissionProfile) : PermissionProfile :=
  match self with LegacyProfile p | BuiltInProfile _ _ p _ | NamedProfile _ _ p _ => p end.

(** [codex-rs/core/src/config/resolved_permission_profile.rs:117-129 ResolvedPermissionProfile::active_permission_profile] *)
Definition resolved_active (self : ResolvedPermissionProfile) : option ActivePermissionProfile :=
  match self with
  | LegacyProfile _ => None
  | BuiltInProfile id extends _ _ => Some (mkActive (builtin_as_str id) extends)
  | NamedProfile id extends _ _ => Some (mkActive id extends)
  end.

(** [codex-rs/core/src/config/resolved_permission_profile.rs:131-137 ResolvedPermissionProfile::profile_workspace_roots] *)
Definition resolved_roots (self : ResolvedPermissionProfile) : list str :=
  match self with LegacyProfile _ => [] | BuiltInProfile _ _ _ roots | NamedProfile _ _ _ roots => roots end.

(** [codex-rs/core/src/config/resolved_permission_profile.rs:52-54 PermissionProfileSnapshot] *)
Definition PermissionProfileSnapshot := ResolvedPermissionProfile.

(** [codex-rs/core/src/config/resolved_permission_profile.rs:175-187 PermissionProfileSnapshot::active_with_profile_workspace_roots] *)
Definition active_with_profile_workspace_roots (permission_profile : PermissionProfile) (active : ActivePermissionProfile)
    (profile_workspace_roots : list str) : PermissionProfileSnapshot :=
  from_active_profile permission_profile (Some active) profile_workspace_roots.

(** [codex-rs/core/src/config/resolved_permission_profile.rs:158-167 PermissionProfileSnapshot::active] *)
Definition snapshot_active (permission_profile : PermissionProfile) (active : ActivePermissionProfile)
    : PermissionProfileSnapshot :=
  active_with_profile_workspace_roots permission_profile active [].

(** [codex-rs/core/src/config/resolved_permission_profile.rs:195-205 PermissionProfileSnapshot::from_session_snapshot] *)
Definition from_session_snapshot (permission_profile : PermissionProfile) (active : option ActivePermissionProfile)
    : PermissionProfileSnapshot :=
  match active with
  | Some active => snapshot_active permission_profile active
  | None => LegacyProfile permission_profile
  end.

(** [codex-rs/core/src/config/resolved_permission_profile.rs:228-230 PermissionProfileState] *)
Definition PermissionProfileState := Constrained ResolvedPermissionProfile.

(** [codex-rs/core/src/config/resolved_permission_profile.rs:254-268 PermissionProfileState::from_constrained_resolved] *)
Definition from_constrained_resolved (c : Constrained PermissionProfile) (resolved : ResolvedPermissionProfile)
    : ConstraintResult PermissionProfileState :=
  new resolved (fun candidate => can_set c (resolved_profile candidate)).

(** [codex-rs/core/src/config/resolved_permission_profile.rs:233-239 PermissionProfileState::from_constrained_legacy] *)
Definition from_constrained_legacy (c : Constrained PermissionProfile) : ConstraintResult PermissionProfileState :=
  from_constrained_resolved c (LegacyProfile (value c)).

(** [codex-rs/core/src/config/resolved_permission_profile.rs:241-252 PermissionProfileState::from_constrained_active_profile] *)
Definition from_constrained_active_profile (c : Constrained PermissionProfile) (active : option ActivePermissionProfile)
    (profile_workspace_roots : list str) : ConstraintResult PermissionProfileState :=
  from_constrained_resolved c (from_active_profile (value c) active profile_workspace_roots).

(** [codex-rs/core/src/config/resolved_permission_profile.rs:270-272 PermissionProfileState::permission_profile] *)
Definition state_profile (self : PermissionProfileState) : PermissionProfile := resolved_profile (value self).

(** [codex-rs/core/src/config/resolved_permission_profile.rs:286-292 PermissionProfileState::can_set_legacy_permission_profile] *)
Definition can_set_legacy_permission_profile (self : PermissionProfileState) (permission_profile : PermissionProfile)
    : ConstraintResult unit := can_set self (LegacyProfile permission_profile).

(** [codex-rs/core/src/config/resolved_permission_profile.rs:294-300 PermissionProfileState::set_legacy_permission_profile] *)
Definition set_legacy_permission_profile (self : PermissionProfileState) (permission_profile : PermissionProfile)
    : PermissionProfileState * ConstraintResult unit := set self (LegacyProfile permission_profile).

(** [codex-rs/core/src/config/resolved_permission_profile.rs:302-308 PermissionProfileState::set_permission_profile_snapshot] *)
Definition set_permission_profile_snapshot (self : PermissionProfileState) (snapshot : PermissionProfileSnapshot)
    : PermissionProfileState * ConstraintResult unit := set self snapshot.

(** ** The permissions of a configuration *)

(** [PermissionProfile::from_runtime_permissions_with_enforcement], which is defined for every policy
    ([runtime_profile_total]). *)
Definition runtime_profile (e : SandboxEnforcement) (policy : FileSystemSandboxPolicy) (network : NetworkSandboxPolicy)
    : PermissionProfile := default Disabled (from_runtime_permissions_with_enforcement e policy network).

(** [codex-rs/core/src/config/mod.rs:925-950 Permissions] what decides what a command may do. *)
Record Permissions := mkPermissions {
  permissions_approval_policy : Constrained AskForApproval;
  permission_profile_state : PermissionProfileState;
  permissions_workspace_roots : list str
}.

(** [codex-rs/core/src/config/mod.rs:957-973 Permissions::from_approval_and_profile] *)
Definition from_approval_and_profile (approval : Constrained AskForApproval) (profile : Constrained PermissionProfile)
    : ConstraintResult Permissions :=
  state ← from_constrained_legacy profile;
  Ok (mkPermissions approval state []).

(** The permissions after an operation on the state of their profile. *)
Definition with_state (self : Permissions) (r : PermissionProfileState * ConstraintResult unit)
    : Permissions * ConstraintResult unit :=
  (mkPermissions (permissions_approval_policy self) r.1 (permissions_workspace_roots self), r.2).

(** [codex-rs/core/src/config/mod.rs:991-997 Permissions::set_permission_profile_from_session_snapshot] *)
Definition set_permission_profile_from_session_snapshot (self : Permissions) (snapshot : PermissionProfileSnapshot)
    : Permissions * ConstraintResult unit :=
  with_state self (set_permission_profile_snapshot (permission_profile_state self) snapshot).

(** [codex-rs/core/src/config/mod.rs:1002-1012 Permissions::replace_permission_profile_from_session_snapshot] *)
Definition replace_permission_profile_from_session_snapshot `{Debug PermissionProfile} (self : Permissions)
    (snapshot : PermissionProfileSnapshot) : Permissions * ConstraintResult unit :=
  match from_constrained_resolved (allow_only permission_profile_eqb (resolved_profile snapshot)) snapshot with
  | Ok state => (mkPermissions (permissions_approval_policy self) state (permissions_workspace_roots self), Ok tt)
  | Err e => (self, Err e)
  end.

(** [codex-rs/core/src/config/mod.rs:1028-1030 Permissions::set_workspace_roots] *)
Definition set_workspace_roots (self : Permissions) (workspace_roots : list str) : Permissions :=
  mkPermissions (permissions_approval_policy self) (permission_profile_state self) workspace_roots.

(** [codex-rs/core/src/config/mod.rs:1142-1148 Permissions::set_permission_profile] *)
Definition set_permission_profile (self : Permissions) (permission_profile : PermissionProfile)
    : Permissions * ConstraintResult unit :=
  with_state self (set_legacy_permission_profile (permission_profile_state self) permission_profile).

(** [permissions.approval_policy.set(..)]. *)
Definition set_approval_policy (self : Permissions) (approval : AskForApproval) : Permissions * ConstraintResult unit :=
  let '(c, r) := set (permissions_approval_policy self) approval in
  (mkPermissions c (permission_profile_state self) (permissions_workspace_roots self), r).

Section Host.
Context (os : Os).

(** [codex-rs/protocol/src/models.rs:420-440 PermissionProfile::materialize_project_roots_with_workspace_roots] *)
Definition materialize_profile (self : PermissionProfile) (workspace_roots : list str) : PermissionProfile :=
  match self with
  | Managed file_system network =>
      let policy := materialize_project_roots_with_workspace_roots os (to_sandbox_policy file_system) workspace_roots in
      Managed (default file_system (managed_from_sandbox_policy policy)) network
  | Disabled => Disabled
  | External network => External network
  end.

(** [codex-rs/core/src/config/mod.rs:1046-1050 Permissions::materialized_permission_profile] *)
Definition materialized_permission_profile (self : Permissions) : PermissionProfile :=
  materialize_profile (state_profile (permission_profile_state self)) (permissions_workspace_roots self).

(** [codex-rs/core/src/config/mod.rs:1082-1097 Permissions::can_set_legacy_sandbox_policy] the profile that is tried. *)
Definition legacy_profile (sandbox_policy : SandboxPolicy) (cwd : str) : PermissionProfile :=
  runtime_profile (enforcement_of_legacy sandbox_policy) (from_legacy_sandbox_policy_for_cwd os sandbox_policy cwd)
    (network_of_legacy sandbox_policy).

(** [codex-rs/core/src/config/mod.rs:1082-1097 Permissions::can_set_legacy_sandbox_policy] *)
Definition can_set_legacy_sandbox_policy (self : Permissions) (sandbox_policy : SandboxPolicy) (cwd : str)
    : ConstraintResult unit :=
  can_set_legacy_permission_profile (permission_profile_state self) (legacy_profile sandbox_policy cwd).

(** [codex-rs/core/src/config/mod.rs:1101-1139 Permissions::set_legacy_sandbox_policy] *)
Definition set_legacy_sandbox_policy (self : Permissions) (sandbox_policy : SandboxPolicy) (cwd : str)
    : Permissions * ConstraintResult unit :=
  match can_set_legacy_sandbox_policy self sandbox_policy cwd with
  | Err e => (self, Err e)
  | Ok _ =>
      let cwd_root := default (resolve_path_against_base (home_dir os) cwd (lit "/")) (abs_path os cwd) in
      let workspace_roots :=
        match sandbox_policy with
        | WorkspaceWrite writable_roots _ _ _ =>
            foldl (fun roots root => if existsb (fun existing => path_eqb existing root) roots then roots else roots ++ [root])
              [cwd_root] writable_roots
        | DangerFullAccess | LegacyExternalSandbox _ | ReadOnly _ => [cwd_root]
        end in
      with_state (set_workspace_roots self workspace_roots)
        (set_legacy_permission_profile (permission_profile_state self) (legacy_profile sandbox_policy cwd))
  end.

(** ** The effective file-system policy *)

(** A deny entry that is pushed unless it is there. *)
Definition push_deny (policy : FileSystemSandboxPolicy) (deny_entry : FileSystemSandboxEntry) : FileSystemSandboxPolicy :=
  if existsb (fun existing => entry_eqb existing deny_entry) (entries policy) then policy
  else with_entries policy (entries policy ++ [deny_entry]).

(** [codex-rs/core/src/config/mod.rs:3190-3205 apply_managed_filesystem_constraints] the entry of a required denial. *)
Definition deny_read_entry (deny_read : FilesystemDenyReadPattern) : option FileSystemSandboxEntry :=
  if existsb is_glob_metacharacter deny_read then Some (mkEntry (GlobPattern deny_read) Deny)
  else (fun path => mkEntry (Path path) Deny) <$> abs_path os deny_read.

(** [codex-rs/core/src/config/mod.rs:3185-3214 apply_managed_filesystem_constraints] *)
Definition apply_managed_filesystem_constraints (policy : FileSystemSandboxPolicy) (constraints : FilesystemConstraints)
    : FileSystemSandboxPolicy :=
  foldl (fun policy deny_read =>
    match deny_read_entry deny_read with Some deny_entry => push_deny policy deny_entry | None => policy end)
    policy constraints.

(** [codex-rs/core/src/config/mod.rs:3225-3252 apply_infinity_agent_credential_deny] *)
Definition apply_infinity_agent_credential_deny (policy : FileSystemSandboxPolicy) (codex_home : str)
    : FileSystemSandboxPolicy :=
  let auth_profiles := abs_path_join os codex_home (lit "auth_profiles") in
  let policy := push_deny policy (mkEntry (Path auth_profiles) Deny) in
  preserve_deny_read_restrictions_from policy policy.

(** What [load_config_with_layer_stack] knows when it fixes the permissions. *)
Record Loading := {
  load_cwd : str;
  codex_home : str;
  helper_readable_roots : list str;
  configured_tool_policy : ToolPolicy;
  configured_approval : AskForApproval;
  configured_reviewer : ApprovalsReviewer;
  configured_profile : PermissionProfile;
  configured_policy : FileSystemSandboxPolicy;
  configured_search : WebSearchMode;
  configured_active : option ActivePermissionProfile;
  configured_roots : list str;
  load_workspace_roots : list str
}.

(** [codex-rs/core/src/config/mod.rs:4600-4629 Config::load_config_with_layer_stack] *)
Definition effective_permission_profile (l : Loading) (tool_policy : ToolPolicy) (constraints : option (Sourced FilesystemConstraints))
    (constrained_profile : PermissionProfile) : PermissionProfile :=
  let policy := file_system_sandbox_policy constrained_profile in
  let policy := if negb (permission_profile_eqb constrained_profile (configured_profile l))
                then preserve_deny_read_restrictions_from policy (configured_policy l) else policy in
  let policy := match constraints with
                | Some requirements => apply_managed_filesystem_constraints policy (sourced_value requirements)
                | None => policy
                end in
  let policy := if bool_decide (tool_policy = InfinityAgent)
                then apply_infinity_agent_credential_deny policy (codex_home l) else policy in
  let policy := with_additional_readable_roots os policy (load_cwd l) (helper_readable_roots l) in
  runtime_profile (enforcement constrained_profile) policy (network_sandbox_policy constrained_profile).

(** What the configuration gets: the settings under requirements and the permissions. *)
Record LoadedConfig := {
  loaded_tool_policy : ToolPolicy;
  loaded_settings : ConstrainedSettings;
  loaded_permissions : Permissions
}.

(** A [ConstraintError] as the [std::io::Error] of the loader. *)
Definition io_error {A} (r : ConstraintResult A) : W A := lift (map_err constraint_error_text r).

(** [codex-rs/core/src/config/mod.rs:4502-4639 Config::load_config_with_layer_stack] the permissions of a configuration:
    the tool policy first, then the settings under requirements, then the effective profile, which the constraint must
    accept in its turn.  The Model Context Protocol servers and the network proxy, computed in between, are not part of
    it. *)
Definition load_permissions {debug_profile : Debug PermissionProfile} (req : ConfigRequirements) (l : Loading) : W LoadedConfig :=
  '(tools, _) ← apply_requirement_constrained_value (lit "tools.policy") (configured_tool_policy l) (tool_policy req);
  let tools := value (constrained tools) in
  settings ← apply_requirements req (configured_approval l) (configured_reviewer l) (configured_profile l) (configured_search l);
  let active := if profile_was_constrained settings then None else configured_active l in
  let roots := if profile_was_constrained settings then [] else configured_roots l in
  let c := constrained (final_permission_profile settings) in
  let effective := effective_permission_profile l tools (filesystem req) (value c) in
  match set c effective with
  | (_, Err err) => lift (Err (constraint_error_text err))
  | (c, Ok _) =>
      state ← io_error (from_constrained_active_profile c active roots);
      mret {| loaded_tool_policy := tools; loaded_settings := settings;
              loaded_permissions :=
                mkPermissions (constrained (final_approval_policy settings)) state (load_workspace_roots l) |}
  end.

(** ** The settings of a session *)

(** [codex-rs/sandboxing/src/manager.rs:303-332 compatibility_workspace_write_policy] *)
Definition compatibility_workspace_write_policy (policy : FileSystemSandboxPolicy) (network_policy : NetworkSandboxPolicy)
    (cwd : str) : SandboxPolicy :=
  let cwd_abs := abs_path os cwd in
  let writable_roots := List.filter (fun r => negb (opt_path_eqb cwd_abs (Some r)))
                          (map root (get_writable_roots_with_cwd os policy cwd)) in
  let tmpdir_writable := match tmpdir os with
                         | Some dir => if bool_decide (dir = []) then false
                                       else match abs_path os dir with
                                            | Some dir => can_write_path_with_cwd os policy dir cwd
                                            | None => false
                                            end
                         | None => false
                         end in
  let slash_tmp_writable := is_dir os (lit "/tmp") && can_write_path_with_cwd os policy (lit "/tmp") cwd in
  WorkspaceWrite writable_roots (is_enabled network_policy) (negb tmpdir_writable) (negb slash_tmp_writable).

(** [codex-rs/sandboxing/src/manager.rs:291-301 compatibility_sandbox_policy_for_permission_profile] *)
Definition compatibility_sandbox_policy_for_permission_profile (permissions : PermissionProfile) (cwd : str) : SandboxPolicy :=
  match profile_to_legacy os permissions cwd with
  | Ok policy => policy
  | Err _ =>
      compatibility_workspace_write_policy (file_system_sandbox_policy permissions) (network_sandbox_policy permissions) cwd
  end.

(** [codex-rs/core/src/session/session.rs:51-118 SessionConfiguration] what decides what a command may do, and the state of
    the profile in the configuration the session was started with. *)
Record SessionConfiguration := mkSession {
  session_approval_policy : Constrained AskForApproval;
  session_approvals_reviewer : ApprovalsReviewer;
  session_profile_state : PermissionProfileState;
  session_cwd : str;
  session_workspace_roots : list str;
  config_profile_state : PermissionProfileState
}.

(** [codex-rs/core/src/session/session.rs:559-585 SessionSettingsUpdate] the fields that bear on it. *)
Record SessionSettingsUpdate := mkUpdate {
  update_approval_policy : option AskForApproval;
  update_approvals_reviewer : option ApprovalsReviewer;
  update_cwd : option str;
  update_workspace_roots : option (list str);
  update_permission_profile : option PermissionProfile;
  update_active : option ActivePermissionProfile;
  update_profile_workspace_roots : option (list str);
  update_sandbox_policy : option SandboxPolicy
}.

(** [codex-rs/core/src/session/session.rs:131-136 SessionConfiguration::permission_profile] *)
Definition session_profile (self : SessionConfiguration) : PermissionProfile :=
  materialize_profile (state_profile (session_profile_state self)) (session_workspace_roots self).

(** [codex-rs/core/src/session/session.rs:180-182 SessionConfiguration::file_system_sandbox_policy] *)
Definition session_file_system_policy (self : SessionConfiguration) : FileSystemSandboxPolicy :=
  file_system_sandbox_policy (session_profile self).

(** [codex-rs/core/src/session/session.rs:172-178 SessionConfiguration::sandbox_policy] *)
Definition session_sandbox_policy (self : SessionConfiguration) : SandboxPolicy :=
  compatibility_sandbox_policy_for_permission_profile (session_profile self) (session_cwd self).

(** [codex-rs/core/src/session/session.rs:184-188 SessionConfiguration::network_sandbox_policy] *)
Definition session_network_policy (self : SessionConfiguration) : NetworkSandboxPolicy :=
  network_sandbox_policy (state_profile (session_profile_state self)).

(** An operation on the state of the profile, [?] after it. *)
Definition update_state (self : SessionConfiguration) (r : PermissionProfileState * ConstraintResult unit)
    : ConstraintResult SessionConfiguration :=
  _ ← r.2;
  Ok (mkSession (session_approval_policy self) (session_approvals_reviewer self) r.1 (session_cwd self)
        (session_workspace_roots self) (config_profile_state self)).

(** [codex-rs/core/src/session/session.rs:465-500 SessionConfiguration::set_permission_profile_projection] *)
Definition set_permission_profile_projection (self : SessionConfiguration) (permission_profile : PermissionProfile)
    (active : option ActivePermissionProfile) (profile_workspace_roots : list str)
    (preserve_deny_reads_from : option FileSystemSandboxPolicy) : ConstraintResult SessionConfiguration :=
  let policy := file_system_sandbox_policy permission_profile in
  let policy := match preserve_deny_reads_from with
                | Some existing => preserve_deny_read_restrictions_from policy existing
                | None => policy
                end in
  let effective := runtime_profile (enforcement permission_profile) policy (network_sandbox_policy permission_profile) in
  let snapshot := match active with
                  | Some active => active_with_profile_workspace_roots effective active profile_workspace_roots
                  | None => LegacyProfile effective
                  end in
  update_state self (set_permission_profile_snapshot (session_profile_state self) snapshot).

(** [codex-rs/core/src/session/session.rs:357-373 SessionConfiguration::apply] the workspace roots: those of the update,
    or the current ones with the old working directory replaced by the new one. *)
Definition retarget_roots (self : SessionConfiguration) (new_cwd : str) (update : option (list str)) : list str :=
  match update with
  | Some workspace_roots => workspace_roots
  | None =>
      if negb (path_eqb new_cwd (session_cwd self)) &&
         existsb (fun root => path_eqb root (session_cwd self)) (session_workspace_roots self)
      then foldl (fun roots root =>
             let root := if path_eqb root (session_cwd self) then new_cwd else root in
             if existsb (fun existing => path_eqb existing root) roots then roots else roots ++ [root])
             [] (session_workspace_roots self)
      else session_workspace_roots self
  end.

Section Apply.
(** [Config::network_proxy_spec_for_active_permission_profile]: whether the network settings of an active profile are
    valid. *)
Context (active_network : ActivePermissionProfile -> PermissionProfile -> ConstraintResult unit).

(** [codex-rs/core/src/session/session.rs:375-415 SessionConfiguration::apply] an update with a permission profile. *)
Definition apply_profile (self next : SessionConfiguration) (updates : SessionSettingsUpdate) (permission_profile : PermissionProfile)
    : ConstraintResult SessionConfiguration :=
  let active := match update_active updates with
                | Some active => Some active
                | None => if permission_profile_eqb permission_profile (session_profile self)
                          then resolved_active (value (session_profile_state self)) else None
                end in
  next ← set_permission_profile_projection next permission_profile active
           (default [] (update_profile_workspace_roots updates)) (Some (session_file_system_policy self));
  match resolved_active (value (session_profile_state next)) with
  | None => Ok next
  | Some active =>
      let permission_profile := session_profile next in
      _ ← active_network active permission_profile;
      match set_permission_profile_snapshot (config_profile_state next) (snapshot_active permission_profile active) with
      | (_, Err e) => Err e
      | (config_state, Ok _) =>
          Ok (mkSession (session_approval_policy next) (session_approvals_reviewer next) (session_profile_state next)
                (session_cwd next) (session_workspace_roots next) config_state)
      end
  end.

(** [codex-rs/core/src/session/session.rs:417-434 SessionConfiguration::apply] a legacy sandbox policy, with the denials of the
    current policy. *)
Definition apply_legacy (self next : SessionConfiguration) (sandbox_policy : SandboxPolicy) (network : NetworkSandboxPolicy)
    : ConstraintResult SessionConfiguration :=
  let policy := from_legacy_sandbox_policy_preserving_deny_entries os sandbox_policy (session_cwd next)
                  (session_file_system_policy self) in
  update_state next (set_legacy_permission_profile (session_profile_state next)
    (runtime_profile (enforcement_of_legacy sandbox_policy) policy network)).

(** [codex-rs/core/src/session/session.rs:226-236 SessionConfiguration::apply] the current policy says no more than its
    legacy form. *)
Definition matches_legacy (self : SessionConfiguration) : bool :=
  is_semantically_equivalent_to os (session_file_system_policy self)
    (from_legacy_sandbox_policy_preserving_deny_entries os (session_sandbox_policy self) (session_cwd self)
       (session_file_system_policy self))
    (session_cwd self).

(** [codex-rs/core/src/session/session.rs:237-249 SessionConfiguration::apply] the policy grants writing to the workspace
    roots. *)
Definition has_rebindable_project_root_write (policy : FileSystemSandboxPolicy) : bool :=
  existsb (fun entry => can_write (entry_access entry) &&
                        match entry_path entry with Special (ProjectRoots None) => true | _ => false end)
    (entries policy).

(** [codex-rs/core/src/session/session.rs:343-345 SessionConfiguration::apply] the approval policy. *)
Definition apply_approval (self : SessionConfiguration) (updates : SessionSettingsUpdate)
    : ConstraintResult (Constrained AskForApproval) :=
  match update_approval_policy updates with
  | Some approval_policy =>
      match set (session_approval_policy self) approval_policy with (c, Ok _) => Ok c | (_, Err e) => Err e end
  | None => Ok (session_approval_policy self)
  end.

(** [codex-rs/core/src/session/session.rs:343-456 SessionConfiguration::apply] the settings that decide what a command may
    do: the approval policy and its reviewer, the working directory and the workspace roots, and the permission
    profile.  The model, its provider and the account of the session are set before; that can fail, and touches none of
    these settings. *)
Definition apply (self : SessionConfiguration) (updates : SessionSettingsUpdate) : ConstraintResult SessionConfiguration :=
  approval ← apply_approval self updates;
  let new_cwd := default (session_cwd self) (update_cwd updates) in
  let cwd_changed := negb (path_eqb new_cwd (session_cwd self)) in
  let next := mkSession approval (default (session_approvals_reviewer self) (update_approvals_reviewer updates))
                (session_profile_state self) new_cwd (retarget_roots self new_cwd (update_workspace_roots updates))
                (config_profile_state self) in
  match update_permission_profile updates, update_sandbox_policy updates with
  | Some permission_profile, _ => apply_profile self next updates permission_profile
  | None, Some sandbox_policy => apply_legacy self next sandbox_policy (network_of_legacy sandbox_policy)
  | None, None =>
      if cwd_changed && matches_legacy self && has_rebindable_project_root_write (session_file_system_policy self)
      then apply_legacy self next (session_sandbox_policy self) (session_network_policy self)
      else Ok next
  end.

(** [codex-rs/core/src/session/mod.rs:660-690 Codex::spawn_internal] the configuration of a session that starts. *)
Definition start_session (config : LoadedConfig) (cwd : str) : SessionConfiguration :=
  let permissions := loaded_permissions config in
  mkSession (permissions_approval_policy permissions) (value (constrained (final_approvals_reviewer (loaded_settings config))))
    (permission_profile_state permissions) cwd (permissions_workspace_roots permissions) (permission_profile_state permissions).

(** The configurations a session can come to: each update that is accepted leads to the next one. *)
Inductive session_reaches (start : SessionConfiguration) : SessionConfiguration -> Prop :=
| session_starts : session_reaches start start
| session_updates s s' updates : session_reaches start s -> apply s updates = Ok s' -> session_reaches start s'.
End Apply.

End Host.

(** ** Constraints *)

Section Constraints.
Context {T : Type}.

(** A constrained value that its own constraint accepts. *)
Definition holds (c : Constrained T) : Prop := validator c (value c) = Ok tt.

(** [c'] constrains at least as much as [c]. *)
Definition at_least (c c' : Constrained T) : Prop := forall v, validator c' v = Ok tt -> validator c v = Ok tt.

#[global] Instance at_least_preorder : PreOrder at_least.
Proof. split; [by intros c v|]. intros a b c Hab Hbc v Hv. by apply Hab, Hbc. Qed.

Lemma unit_ok (r : ConstraintResult unit) u : r = Ok u -> r = Ok tt.
Proof. by destruct u. Qed.

Lemma new_ok v (f : T -> ConstraintResult unit) c :
  new v f = Ok c -> holds c /\ validator c = f /\ normalizer c = None.
Proof. unfold new. intros ([] & Hv & [= <-])%result_bind_ok. done. Qed.

Lemma set_cases (c c' : Constrained T) v r :
  set c v = (c', r) -> validator c' = validator c /\ normalizer c' = normalizer c /\
  match r with Ok _ => holds c' /\ (normalizer c = None -> value c' = v) | Err _ => c' = c end.
Proof.
  unfold set. set (v' := match normalizer c with Some f => f v | None => v end).
  destruct (validator c v') as [[]|e] eqn:E; intros [= <- <-]; simpl; [|done].
  split; [done|]. split; [done|]. split; [done|]. unfold v'. by intros ->.
Qed.

Lemma add_validator_ok (c c' : Constrained T) f u :
  add_validator c f = (c', Ok u) ->
  holds c' /\ normalizer c' = normalizer c /\ value c' = value c /\
  forall v, validator c' v = Ok tt <-> validator c v = Ok tt /\ f v = Ok tt.
Proof.
  unfold add_validator. destruct (_ ≫= _) as [[]|] eqn:E; intros [= <- <-]. split; [done|]. do 2 (split; [done|]).
  intros v. simpl. rewrite result_bind_ok. split; [intros ([] & ? & ?); done|]. intros [? ?]. by exists tt.
Qed.
End Constraints.

(** What applying a requirement leaves: the constraint, with a value it accepts. *)
Lemma apply_constrained_ok {T} `{Debug T} field v (c c' : ConstrainedWithSource T) b w w' :
  apply_requirement_constrained_value field v c w = (w', Ok (c', b)) ->
  validator (constrained c') = validator (constrained c) /\ normalizer (constrained c') = normalizer (constrained c) /\
  holds (constrained c').
Proof.
  unfold apply_requirement_constrained_value. destruct (set (constrained c) v) as [c1 [u|e]] eqn:E1;
    destruct (set_cases _ _ _ _ E1) as (Hv & Hn & Hh).
  { unfold mret, W_ret. intros. simplify_eq/=. naive_solver. }
  subst c1. intros (w1 & ? & _ & Hb)%W_bind_ok. revert Hb.
  destruct (set (constrained c) (value (constrained c))) as [c2 [u|e']] eqn:E2; [|unfold lift; by intros [=]].
  destruct (set_cases _ _ _ _ E2) as (Hv2 & Hn2 & Hh2). unfold mret, W_ret. intros. simplify_eq/=. naive_solver.
Qed.

(** What each conversion accepts. *)
Lemma check_candidate_ok b f c a s : check_candidate b f c a s = Ok tt <-> b = true.
Proof. by destruct b. Qed.

Lemma allow_listed_ok {T} `{EqDecision T, Debug T} field name d allowed (c : ConstrainedWithSource T) :
  allow_listed field name d allowed = Ok c ->
  holds (constrained c) /\ normalizer (constrained c) = None /\
  forall l src, allowed = Some (mkSourced l src) -> forall v, validator (constrained c) v = Ok tt -> v ∈ l.
Proof.
  destruct allowed as [[l src]|]; simpl; [|intros [= <-]; done]. destruct l as [|v0 l]; [done|].
  intros (c0 & (Hh & Hv & Hn)%new_ok & [= <-])%result_bind_ok. do 2 (split; [done|]). intros l' src' [= <- <-] v.
  simpl. rewrite Hv, check_candidate_ok, bool_decide_eq_true. done.
Qed.

Notation mode_of := sandbox_mode_requirement_for_permission_profile.

Lemma convert_modes_ok allowed c :
  convert_sandbox_modes allowed = Ok c ->
  holds (constrained c) /\ normalizer (constrained c) = None /\
  forall l src, allowed = Some (mkSourced l src) -> forall p, validator (constrained c) p = Ok tt -> mode_of p ∈ l.
Proof.
  destruct allowed as [[l src]|]; simpl; [|intros [= <-]; done]. destruct (bool_decide _); [|done]. simpl.
  intros (c0 & (Hh & Hv & Hn)%new_ok & [= <-])%result_bind_ok. do 2 (split; [done|]). intros l' src' [= <- <-] p.
  simpl. rewrite Hv, check_candidate_ok, bool_decide_eq_true. done.
Qed.

Lemma convert_search_ok allowed c :
  convert_search_modes allowed = Ok c ->
  holds (constrained c) /\ normalizer (constrained c) = None /\
  forall l src, allowed = Some (mkSourced l src) -> forall m, validator (constrained c) m = Ok tt ->
    search_requirement m ∈ RequireDisabled :: l.
Proof.
  destruct allowed as [[l src]|]; simpl; [|intros [= <-]; done].
  intros (c0 & (Hh & Hv & Hn)%new_ok & [= <-])%result_bind_ok. do 2 (split; [done|]). intros l' src' [= <- <-] m.
  simpl. rewrite Hv, check_candidate_ok, bool_decide_eq_true. unfold accepted_search_modes.
  rewrite list_elem_of_In, filter_In, bool_decide_eq_true. by intros [_ ?].
Qed.

(** A profile in one of these modes has a restricted file-system policy of its own. *)
Definition confined (p : PermissionProfile) : Prop := mode_of p = ModeReadOnly \/ mode_of p = ModeWorkspaceWrite.

Lemma confined_restricted p : confined p -> is_restricted (file_system_sandbox_policy p) = true.
Proof. unfold confined, mode_of. destruct p as [[es depth|] n| |n]; simpl; naive_solver. Qed.

Lemma deny_read_confined src p : deny_read_validator src p = Ok tt <-> confined p.
Proof. unfold deny_read_validator, confined. destruct (mode_of p); naive_solver. Qed.

Lemma add_deny_read_ok constraints c c' :
  add_deny_read constraints c = Ok c' -> holds (constrained c) ->
  holds (constrained c') /\ normalizer (constrained c') = normalizer (constrained c) /\
  at_least (constrained c) (constrained c') /\
  forall d deny src, constraints = Some (mkSourced (d :: deny) src) ->
    forall p, validator (constrained c') p = Ok tt -> confined p.
Proof.
  intros Ha Hc. destruct constraints as [[[|d deny] src]|]; simpl in Ha; simplify_eq; try done.
  destruct (add_validator _ _) as [c1 [u|e]] eqn:E; simplify_eq.
  destruct (add_validator_ok _ _ _ _ E) as (Hh & Hn & _ & Hv). split; [done|]. split; [done|]. simpl. split.
  - intros p Hp. by apply Hv in Hp as [? _].
  - intros d' deny' src' [= <- <- <-] p Hp. apply Hv in Hp as [_ Hp]. by apply deny_read_confined in Hp.
Qed.

(** ** Loading *)

(** A value on the list of the requirement, when there is one. *)
Definition allowed_by {T} (allowed : option (Sourced (list T))) (v : T) : Prop :=
  forall l src, allowed = Some (mkSourced l src) -> v ∈ l.

(** The file-system requirement denies some reads. *)
Definition denies_reads (toml : ConfigRequirementsWithSources) : Prop :=
  exists permissions, permissions_with_source toml = Some permissions /\ filesystem_constraints (sourced_value permissions) <> [].

(** A constraint that only accepts what [P] says, with a value it accepts. *)
Definition constrains {T} (c : Constrained T) (P : T -> Prop) : Prop :=
  holds c /\ normalizer c = None /\ forall v, validator c v = Ok tt -> P v.

Lemma constrains_value {T} (c : Constrained T) P : constrains c P -> P (value c).
Proof. intros (Hh & _ & HP). by apply HP. Qed.

Lemma constrains_same {T} (c c' : Constrained T) P :
  constrains c P -> validator c' = validator c -> normalizer c' = normalizer c -> holds c' -> constrains c' P.
Proof. intros (_ & Hn & HP) Hv Hn' Hh. unfold constrains. rewrite Hv, Hn'. done. Qed.

Lemma constrains_set {T} (c c' : Constrained T) P v u :
  constrains c P -> set c v = (c', Ok u) -> constrains c' P /\ value c' = v.
Proof.
  intros Hc Hs. destruct (set_cases _ _ _ _ Hs) as (Hv & Hn & Hh & Hval). split.
  - by eapply constrains_same.
  - apply Hval. apply Hc.
Qed.

Lemma constrains_applied {T} `{Debug T} field v (c c' : ConstrainedWithSource T) b w w' P :
  apply_requirement_constrained_value field v c w = (w', Ok (c', b)) -> constrains (constrained c) P ->
  constrains (constrained c') P.
Proof. intros (Hv & Hn & Hh)%apply_constrained_ok Hc. by eapply constrains_same. Qed.

Lemma state_ok c active roots st :
  from_constrained_active_profile c active roots = Ok st ->
  holds st /\ validator st = (fun r => validator c (resolved_profile r)) /\ normalizer st = None /\ state_profile st = value c.
Proof.
  intros Hst. unfold from_constrained_active_profile, from_constrained_resolved in Hst.
  pose proof Hst as (Hh & Hv & Hn)%new_ok. do 3 (split; [done|]). unfold new in Hst.
  apply result_bind_ok in Hst as ([] & _ & [= <-]). unfold state_profile. simpl. unfold from_active_profile.
  destruct active as [[id ext]|]; [|done]. by destruct (builtin_from_str id).
Qed.

Section Loading.
Context (os : Os) {debug_hooks : Debug ManagedHooksRequirementsToml} {debug_profile : Debug PermissionProfile}.

Lemma requirements_ok toml req :
  requirements_try_from os toml = Ok req ->
  constrains (constrained (tool_policy req)) (allowed_by (allowed_tool_policies_with_source toml)) /\
  constrains (constrained (approval_policy req)) (allowed_by (allowed_approval_policies_with_source toml)) /\
  constrains (constrained (approvals_reviewer req)) (allowed_by (allowed_approvals_reviewers_with_source toml)) /\
  constrains (constrained (permission_profile req)) (fun p => allowed_by (allowed_sandbox_modes_with_source toml) (mode_of p)) /\
  constrains (constrained (web_search_mode req))
    (fun m => m = SearchDisabled \/ allowed_by (allowed_web_search_modes_with_source toml) (search_requirement m)) /\
  filesystem req = map_sourced filesystem_constraints <$> permissions_with_source toml.
Proof.
  unfold requirements_try_from. intros H. bind_inv H. injection H as <-. simpl.
  apply allow_listed_ok in Ha, Ha1, Ha2. apply convert_modes_ok in Ha3. apply convert_search_ok in Ha6.
  do 4 (split; [unfold constrains, allowed_by; clear -Ha Ha1 Ha2 Ha3; naive_solver|]). split; [|done].
  destruct Ha6 as (Hh & Hn & Hs). do 2 (split; [done|]). intros m Hm.
  destruct m; [by left | right..]; intros l src Hl; specialize (Hs l src Hl _ Hm);
    apply elem_of_cons in Hs as [[=]|Hs]; done.
Qed.

Lemma settings_ok toml req approval reviewer profile search w w' settings :
  requirements_try_from os toml = Ok req ->
  apply_requirements req approval reviewer profile search w = (w', Ok settings) ->
  constrains (constrained (final_approval_policy settings)) (allowed_by (allowed_approval_policies_with_source toml)) /\
  constrains (constrained (final_approvals_reviewer settings)) (allowed_by (allowed_approvals_reviewers_with_source toml)) /\
  constrains (constrained (final_permission_profile settings))
    (fun p => allowed_by (allowed_sandbox_modes_with_source toml) (mode_of p) /\ (denies_reads toml -> confined p)) /\
  constrains (constrained (final_web_search_mode settings))
    (fun m => m = SearchDisabled \/ allowed_by (allowed_web_search_modes_with_source toml) (search_requirement m)).
Proof.
  intros (_ & Ha & Hr & Hp & Hs & Hf)%requirements_ok H. unfold apply_requirements in H.
  apply W_bind_ok in H as (w1 & [a ?] & H1 & H). apply W_bind_ok in H as (w2 & c & [H2 ->]%lift_ok & H).
  apply W_bind_ok in H as (w3 & [r ?] & H3 & H). apply W_bind_ok in H as (w4 & [p was] & H4 & H).
  destruct (_ && _); [by unfold lift in H|]. apply W_bind_ok in H as (w5 & [m ?] & H5 & H).
  unfold mret, W_ret in H. simplify_eq/=.
  split; [by eapply constrains_applied|]. split; [by eapply constrains_applied|].
  split; [|by eapply constrains_applied]. eapply constrains_applied; [done|].
  destruct (add_deny_read_ok _ _ _ H2 (proj1 Hp)) as (Hh & Hn & Hle & Hd). split; [done|].
  split; [rewrite Hn; apply Hp|]. intros v Hv. split; [by apply Hp, Hle|].
  intros (perms & Hperms & Hne). rewrite Hf, Hperms in Hd. simpl in Hd. unfold map_sourced in Hd.
  destruct (filesystem_constraints _) as [|d deny]; [done|]. by eapply Hd.
Qed.

(** The permissions that are loaded: the profile is the effective one, and the requirement accepts it. *)
Lemma loaded_ok toml req l w w' cfg :
  requirements_try_from os toml = Ok req -> load_permissions os req l w = (w', Ok cfg) ->
  allowed_by (allowed_tool_policies_with_source toml) (loaded_tool_policy cfg) /\
  constrains (permissions_approval_policy (loaded_permissions cfg)) (allowed_by (allowed_approval_policies_with_source toml)) /\
  constrains (constrained (final_approvals_reviewer (loaded_settings cfg)))
    (allowed_by (allowed_approvals_reviewers_with_source toml)) /\
  constrains (constrained (final_web_search_mode (loaded_settings cfg)))
    (fun m => m = SearchDisabled \/ allowed_by (allowed_web_search_modes_with_source toml) (search_requirement m)) /\
  constrains (permission_profile_state (loaded_permissions cfg))
    (fun r => allowed_by (allowed_sandbox_modes_with_source toml) (mode_of (resolved_profile r)) /\
              (denies_reads toml -> confined (resolved_profile r))) /\
  exists p, (denies_reads toml -> confined p) /\
    state_profile (permission_profile_state (loaded_permissions cfg)) =
    effective_permission_profile os l (loaded_tool_policy cfg) (filesystem req) p.
Proof.
  intros Hreq H. unfold load_permissions in H. destruct (requirements_ok _ _ Hreq) as (Htools & _).
  apply W_bind_ok in H as (w1 & [t ?] & H1 & H). apply W_bind_ok in H as (w2 & settings & H2 & H).
  destruct (settings_ok _ _ _ _ _ _ _ _ _ Hreq H2) as (Ha & Hr & Hp & Hs).
  destruct (set _ _) as [c [u|]] eqn:Hset; [|by unfold lift in H]. apply W_bind_ok in H as (w3 & st & H3 & H).
  unfold mret, W_ret in H. simplify_eq/=. destruct (constrains_set _ _ _ _ _ Hp Hset) as [Hc Hval].
  apply lift_ok in H3 as [H3 ->]. destruct (from_constrained_active_profile _ _ _) as [st'|] eqn:Hst; [|done].
  simpl in H3. injection H3 as ->. destruct (state_ok _ _ _ _ Hst) as (Hh & Hv & Hn & Hstate).
  split. { apply (constrains_value _ _). by eapply constrains_applied. }
  do 3 (split; [done|]). split.
  - split; [done|]. split; [done|]. intros r. rewrite Hv. apply Hc.
  - exists (value (constrained (final_permission_profile settings))). rewrite Hstate, Hval. split; [|done].
    apply (constrains_value _ _ Hp).
Qed.
End Loading.

(** ** Denials *)

Lemma runtime_profile_total e policy network : is_Some (from_runtime_permissions_with_enforcement e policy network).
Proof.
  unfold from_runtime_permissions_with_enforcement, managed_from_sandbox_policy.
  destruct (sandbox_kind policy); [by eexists | case_bool_decide; by eexists | by eexists].
Qed.

Lemma runtime_profile_entries e policy network :
  is_restricted policy = true ->
  is_restricted (file_system_sandbox_policy (runtime_profile e policy network)) = true /\
  entries (file_system_sandbox_policy (runtime_profile e policy network)) = entries policy.
Proof.
  intros Hr%restricted_kind. unfold runtime_profile, from_runtime_permissions_with_enforcement, managed_from_sandbox_policy.
  by rewrite Hr.
Qed.

(** A profile that is built from a policy that is not restricted is not confined. *)
Lemma runtime_profile_confined e policy network : confined (runtime_profile e policy network) -> is_restricted policy = true.
Proof.
  intros Hc%confined_restricted. revert Hc. rewrite !restricted_kind. unfold runtime_profile,
    from_runtime_permissions_with_enforcement, managed_from_sandbox_policy.
  destruct (sandbox_kind policy); [done | by case_bool_decide | done].
Qed.

(** A denial that workspace roots do not change: of a path, or of a pattern that is not relative to the roots. *)
Definition fixed_denial (e : FileSystemSandboxEntry) : Prop :=
  entry_access e = Deny /\
  match entry_path e with
  | Path _ => True
  | GlobPattern pattern => parse_project_roots_glob_pattern pattern = None
  | Special _ => False
  end.

(** The policy enforces the denial: it is restricted, and has the entry (or one for an equal path). *)
Definition enforces (policy : FileSystemSandboxPolicy) (e : FileSystemSandboxEntry) : Prop :=
  is_restricted policy = true /\ exists e', e' ∈ entries policy /\ entry_eqb e' e = true.

Lemma fixed_denial_eqb e e' :
  fixed_denial e -> entry_eqb e' e = true <->
  entry_access e' = Deny /\
  match entry_path e, entry_path e' with
  | Path p, Path p' => components p' = components p
  | GlobPattern g, GlobPattern g' => g' = g
  | _, _ => False
  end.
Proof.
  intros [Ha Hf]. unfold entry_eqb. rewrite andb_true_iff, bool_decide_eq_true, Ha.
  destruct (entry_path e) as [p|g|v], (entry_path e') as [p'|g'|v']; simpl; try naive_solver.
  - rewrite path_eqb_spec. naive_solver.
  - rewrite bool_decide_eq_true. naive_solver.
Qed.

Lemma fixed_denial_trans e e' e'' : fixed_denial e -> entry_eqb e' e = true -> entry_eqb e'' e' = true -> entry_eqb e'' e = true.
Proof.
  intros Hf He. assert (Hf' : fixed_denial e').
  { apply (fixed_denial_eqb _ _ Hf) in He as [Ha He]. split; [done|]. destruct Hf as [_ Hf].
    destruct (entry_path e), (entry_path e'); try done. by subst. }
  apply (fixed_denial_eqb _ _ Hf) in He as [Ha He]. rewrite !fixed_denial_eqb by done. intros [Ha' He']. split; [done|].
  destruct (entry_path e), (entry_path e'), (entry_path e''); try done; congruence.
Qed.

Lemma fixed_denial_refl e : fixed_denial e -> entry_eqb e e = true.
Proof.
  intros Hf. apply fixed_denial_eqb; [done|]. split; [apply Hf|]. destruct Hf as [_ Hf]. by destruct (entry_path e).
Qed.

Lemma enforces_mono policy policy' e :
  enforces policy e -> is_restricted policy' = is_restricted policy -> entries policy ⊆ entries policy' -> enforces policy' e.
Proof. intros (Hr & e' & He' & Heq) Hk Hsub. split; [by rewrite Hk|]. exists e'. set_solver. Qed.

Lemma push_deny_grows policy e : entries policy ⊆ entries (push_deny policy e) /\ sandbox_kind (push_deny policy e) = sandbox_kind policy.
Proof. unfold push_deny. destruct (existsb _ _); simpl; set_solver. Qed.

Lemma push_deny_enforces policy e : fixed_denial e -> is_restricted policy = true -> enforces (push_deny policy e) e.
Proof.
  intros Hf Hr. unfold push_deny. destruct (existsb _ _) eqn:E.
  - split; [done|]. apply existsb_exists in E as (e' & He' & Heq). exists e'. by rewrite list_elem_of_In.
  - split; [done|]. exists e. split; [set_solver | by apply fixed_denial_refl].
Qed.

Lemma enforces_push policy e e' : enforces policy e -> enforces (push_deny policy e') e.
Proof.
  intros H. destruct (push_deny_grows policy e') as [Hs Hk]. eapply enforces_mono; [done | | done].
  unfold is_restricted. by rewrite Hk.
Qed.

Lemma managed_constraints_enforce os constraints policy deny e :
  is_restricted policy = true -> deny ∈ constraints -> deny_read_entry os deny = Some e -> fixed_denial e ->
  enforces (apply_managed_filesystem_constraints os policy constraints) e.
Proof.
  unfold apply_managed_filesystem_constraints. set (step := fun policy deny => _). intros Hr Hd He Hf.
  assert (Hkind : forall l policy, is_restricted (foldl step policy l) = is_restricted policy).
  { induction l as [|x l IH]; intros q; [done|]. simpl. rewrite IH. unfold step.
    destruct (deny_read_entry os x) as [ex|]; [|done]. unfold is_restricted. by rewrite (proj2 (push_deny_grows q ex)). }
  assert (Hkeep : forall l policy, enforces policy e -> enforces (foldl step policy l) e).
  { induction l as [|x l IH]; intros q Hq; [done|]. simpl. apply IH. unfold step.
    destruct (deny_read_entry os x); [by apply enforces_push | done]. }
  apply list_elem_of_split in Hd as (l1 & l2 & ->). rewrite foldl_app. simpl. apply Hkeep. unfold step at 1. rewrite He.
  apply push_deny_enforces; [done|]. by rewrite Hkind.
Qed.

Lemma preserve_enforces self existing e :
  fixed_denial e -> enforces existing e ->
  is_restricted (preserve_deny_read_restrictions_from self existing) = true ->
  enforces (preserve_deny_read_restrictions_from self existing) e.
Proof.
  intros Hf (_ & e1 & He1 & Heq1) Hr. split; [done|]. revert Hr. unfold preserve_deny_read_restrictions_from.
  set (base := if _ && _ then _ else self). destruct (is_restricted base) eqn:Hb; [|by simpl; rewrite Hb]. simpl. intros _.
  destruct (append_deny_spec (entries base) (entries existing)) as (added & _ & _ & Hall).
  destruct (Hall e1 He1 (proj1 (proj1 (fixed_denial_eqb _ _ Hf) Heq1))) as (e2 & He2 & Hsame).
  exists e2. split; [done|]. destruct Hsame as [->|Hsame]; [done|]. by eapply fixed_denial_trans.
Qed.

Lemma preserve_keeps policy existing e : enforces policy e -> enforces (preserve_deny_read_restrictions_from policy existing) e.
Proof.
  intros H. pose proof (proj1 H) as Hr. unfold preserve_deny_read_restrictions_from. pose proof Hr as Hk%restricted_kind.
  rewrite Hk. rewrite bool_decide_false by done. simpl. rewrite Hr. simpl. eapply enforces_mono; [done | |].
  - unfold is_restricted. simpl. by rewrite Hk.
  - simpl. destruct (append_deny_spec (entries policy) (entries existing)) as (added & -> & _). set_solver.
Qed.

Lemma readable_roots_keep os policy cwd roots e : enforces policy e -> enforces (with_additional_readable_roots os policy cwd roots) e.
Proof.
  intros H. unfold with_additional_readable_roots. destruct (has_full_disk_read_access policy); [done|].
  revert policy H. induction roots as [|r roots IH]; intros policy H; [done|]. simpl. apply IH.
  destruct (can_read_path_with_cwd _ _ _ _); [done|]. eapply enforces_mono; [done..|]. simpl. set_solver.
Qed.

(** The effective profile of a configuration enforces every required denial. *)
Lemma effective_profile_enforces os l tools requirements profile deny e :
  confined profile -> deny ∈ sourced_value requirements -> deny_read_entry os deny = Some e -> fixed_denial e ->
  enforces (file_system_sandbox_policy (effective_permission_profile os l tools (Some requirements) profile)) e.
Proof.
  intros Hc%confined_restricted Hd He Hf. unfold effective_permission_profile.
  set (base := if negb _ then _ else _).
  assert (Hbase : is_restricted base = true).
  { unfold base. destruct (negb _); [|done]. unfold preserve_deny_read_restrictions_from.
    pose proof Hc as Hk%restricted_kind. rewrite Hk. rewrite bool_decide_false by done. simpl. rewrite Hc. simpl.
    unfold is_restricted. simpl. by rewrite Hk. }
  pose proof (managed_constraints_enforce os _ base deny e Hbase Hd He Hf) as H1.
  set (p1 := apply_managed_filesystem_constraints _ _ _) in *.
  assert (H2 : enforces (if bool_decide (tools = InfinityAgent) then apply_infinity_agent_credential_deny os p1 (codex_home l) else p1) e).
  { case_bool_decide; [|done]. unfold apply_infinity_agent_credential_deny. by apply preserve_keeps, enforces_push. }
  pose proof (readable_roots_keep os _ (load_cwd l) (helper_readable_roots l) e H2) as H3.
  destruct (runtime_profile_entries (enforcement profile) _ (network_sandbox_policy profile) (proj1 H3)) as [Hr Hes].
  split; [done|]. rewrite Hes. apply H3.
Qed.

(** Workspace roots leave a fixed denial as it is. *)
Lemma materialize_enforces os profile roots e :
  fixed_denial e -> enforces (file_system_sandbox_policy profile) e ->
  enforces (file_system_sandbox_policy (materialize_profile os profile roots)) e.
Proof.
  intros Hf (Hr & e' & He' & Heq). destruct profile as [[es depth|] n| |n]; simpl in *; try done. split; [done|].
  exists e'. split; [|done]. simpl. rewrite list_elem_of_In, in_concat. exists (materialize_entry os roots e').
  rewrite <- !list_elem_of_In. split; [by apply list_elem_of_fmap_2|].
  apply (fixed_denial_eqb _ _ Hf) in Heq as [Ha Heq]. destruct Hf as [_ Hf]. unfold materialize_entry.
  destruct e' as [[p|g|v] a]; simpl in *; [set_solver | | by destruct (entry_path e)].
  destruct (entry_path e); try done. subst. rewrite Hf. set_solver.
Qed.

(** A denied path is denied. *)
Lemma enforced_path_denied os policy cwd d p :
  os_wf os -> abs_path os cwd = Some d -> normal_form p -> enforces policy (mkEntry (Path p) Deny) ->
  resolve_access_with_cwd os policy p cwd = Deny.
Proof.
  intros Hos Hcwd Hp (Hr & e' & He' & Heq).
  assert (Hf : fixed_denial (mkEntry (Path p) Deny)) by done.
  apply (fixed_denial_eqb _ _ Hf) in Heq as [Ha Heq]. simpl in Heq.
  destruct (entry_path e') as [q|g|v] eqn:Hpath; try done.
  assert (Hin : mkResolved q Deny ∈ covering (resolved_entries_with_cwd os policy cwd) p).
  { apply covering_elem. simpl. rewrite Heq. split; [|done]. apply (resolved_elem os cwd d Hcwd). exists e'. by rewrite Hpath. }
  destruct (access_cases os policy p cwd p Hr (candidate_id os p cwd Hp)) as [[_ ->]|(m & Hm & -> & Hmax)]; [done|].
  apply covering_elem in Hm as [_ Hm%prefix_length].
  destruct (Hmax _ Hin) as [Hl|[_ Hl]]; simpl in Hl; [rewrite Heq in Hl; lia|]. destruct (resolved_access m); simpl in Hl; done || lia.
Qed.

(** ** Sessions *)

Section Sessions.
Context (os : Os) (active_network : ActivePermissionProfile -> PermissionProfile -> ConstraintResult unit).

Lemma update_state_ok s s' r :
  update_state s r = Ok s' ->
  r.2 = Ok tt /\ session_profile_state s' = r.1 /\ session_approval_policy s' = session_approval_policy s /\
  session_approvals_reviewer s' = session_approvals_reviewer s.
Proof. unfold update_state. by intros ([] & Hr & [= <-])%result_bind_ok. Qed.

(** Where the profile of the next configuration comes from: it is the current one, or one built from a policy that keeps
    the denials of the current policy. *)
Definition keeps_denials (s : SessionConfiguration) (p : PermissionProfile) : Prop :=
  exists e network,
    (exists policy, p = runtime_profile e (preserve_deny_read_restrictions_from policy (session_file_system_policy os s)) network) \/
    (exists sandbox_policy cwd, p = runtime_profile e
       (from_legacy_sandbox_policy_preserving_deny_entries os sandbox_policy cwd (session_file_system_policy os s)) network).

Lemma snapshot_profile p active roots :
  resolved_profile (match active with
                    | Some active => active_with_profile_workspace_roots p active roots
                    | None => LegacyProfile p
                    end) = p.
Proof.
  destruct active as [[id ext]|]; [|done]. unfold active_with_profile_workspace_roots, from_active_profile.
  by destruct (builtin_from_str id).
Qed.

Lemma apply_profile_ok P s next updates p s' :
  constrains (session_profile_state next) P ->
  apply_profile os active_network s next updates p = Ok s' ->
  session_approval_policy s' = session_approval_policy next /\ constrains (session_profile_state s') P /\
  keeps_denials s (state_profile (session_profile_state s')).
Proof.
  intros Hc H. unfold apply_profile in H. apply result_bind_ok in H as (n1 & H1 & H).
  unfold set_permission_profile_projection, set_permission_profile_snapshot in H1.
  apply update_state_ok in H1 as (Hr & Hst & Ha & _). destruct (set _ _) as [st r] eqn:Hset. simpl in Hr, Hst. subst.
  destruct (constrains_set _ _ _ _ _ Hc Hset) as [Hc' Hval].
  assert (Hk : keeps_denials s (state_profile (session_profile_state n1))).
  { unfold state_profile. rewrite Hval, snapshot_profile. eexists _, _. left. eexists. done. }
  destruct (resolved_active (value (session_profile_state n1))) as [active|]; [|injection H as <-; by rewrite Ha].
  apply result_bind_ok in H as ([] & _ & H).
  destruct (set_permission_profile_snapshot _ _) as [st' [|]]; [|done]. by simplify_eq/=.
Qed.

Lemma apply_legacy_ok P s next sandbox_policy network s' :
  constrains (session_profile_state next) P ->
  apply_legacy os s next sandbox_policy network = Ok s' ->
  session_approval_policy s' = session_approval_policy next /\ constrains (session_profile_state s') P /\
  keeps_denials s (state_profile (session_profile_state s')).
Proof.
  intros Hc H. unfold apply_legacy, set_legacy_permission_profile in H.
  apply update_state_ok in H as (Hr & Hst & Ha & _). destruct (set _ _) as [st r] eqn:Hset. simpl in Hr, Hst. subst.
  destruct (constrains_set _ _ _ _ _ Hc Hset) as [Hc' Hval]. split; [done|]. split; [done|].
  unfold state_profile. rewrite Hval. eexists _, _. right. eexists _, _. done.
Qed.

(** An accepted update keeps the constraints, and the profile that results keeps the denials. *)
Lemma apply_ok A P s updates s' :
  constrains (session_approval_policy s) A -> constrains (session_profile_state s) P ->
  apply os active_network s updates = Ok s' ->
  constrains (session_approval_policy s') A /\ constrains (session_profile_state s') P /\
  (state_profile (session_profile_state s') = state_profile (session_profile_state s) \/
   keeps_denials s (state_profile (session_profile_state s'))).
Proof.
  intros HA HP H. unfold apply in H. apply result_bind_ok in H as (approval & Happ & H).
  assert (HA' : constrains approval A).
  { unfold apply_approval in Happ. destruct (update_approval_policy updates); [|by simplify_eq].
    destruct (set _ _) as [c [|]] eqn:Hset; simplify_eq. by apply (constrains_set _ _ _ _ _ HA Hset). }
  set (next := mkSession _ _ _ _ _ _) in H. assert (HP' : constrains (session_profile_state next) P) by done.
  destruct (update_permission_profile updates) as [p|];
    [|destruct (update_sandbox_policy updates) as [sp|]; [|destruct (_ && _)]].
  - destruct (apply_profile_ok _ _ _ _ _ _ HP' H) as (-> & ? & ?). by auto.
  - destruct (apply_legacy_ok _ _ _ _ _ _ HP' H) as (-> & ? & ?). by auto.
  - destruct (apply_legacy_ok _ _ _ _ _ _ HP' H) as (-> & ? & ?). by auto.
  - simplify_eq. by auto.
Qed.

Lemma reaches_ok A P start s :
  constrains (session_approval_policy start) A -> constrains (session_profile_state start) P ->
  session_reaches os active_network start s ->
  constrains (session_approval_policy s) A /\ constrains (session_profile_state s) P.
Proof.
  intros HA HP. induction 1 as [|s s' updates _ IH Happ]; [done|]. destruct IH as [IHA IHP].
  destruct (apply_ok A P s updates s' IHA IHP Happ) as (? & ? & _). done.
Qed.

Lemma keeps_denials_enforces s p e :
  confined p -> fixed_denial e -> enforces (session_file_system_policy os s) e -> keeps_denials s p ->
  enforces (file_system_sandbox_policy p) e.
Proof.
  intros Hc Hf He (k & network & [(policy & ->)|(sp & cwd & ->)]); pose proof (runtime_profile_confined _ _ _ Hc) as Hr;
    destruct (runtime_profile_entries k _ network Hr) as [Hr' Hes]; (split; [done|]); rewrite Hes.
  - by apply preserve_enforces.
  - destruct He as (_ & e1 & He1 & Heq1). revert Hr. unfold from_legacy_sandbox_policy_preserving_deny_entries.
    destruct (is_restricted (from_legacy_sandbox_policy_for_cwd os sp cwd)) eqn:E; simpl; [|by rewrite E]. intros _.
    match goal with |- context [append_deny_entries ?a ?b] => destruct (append_deny_spec a b) as (added & _ & _ & Hall) end.
    destruct (Hall e1 He1 (proj1 (proj1 (fixed_denial_eqb _ _ Hf) Heq1))) as (e2 & He2 & Hsame).
    exists e2. split; [done|]. destruct Hsame as [->|Hsame]; [done|]. by eapply fixed_denial_trans.
Qed.

(** Under a constraint that asks for confined profiles, a denial of the first configuration is one of every later one. *)
Lemma reaches_enforces start s e :
  constrains (session_approval_policy start) (fun _ => True) ->
  constrains (session_profile_state start) (fun r => confined (resolved_profile r)) ->
  fixed_denial e -> enforces (file_system_sandbox_policy (state_profile (session_profile_state start))) e ->
  session_reaches os active_network start s ->
  enforces (file_system_sandbox_policy (state_profile (session_profile_state s))) e.
Proof.
  intros HA HP Hf He. induction 1 as [|s s' updates Hs IH Happ]; [done|].
  destruct (reaches_ok _ _ _ _ HA HP Hs) as [HA' HP'].
  destruct (apply_ok _ _ _ _ _ HA' HP' Happ) as (_ & HP'' & [->|Hk]); [done|].
  eapply keeps_denials_enforces; [apply (constrains_value _ _ HP'') | done | by apply materialize_enforces | done].
Qed.
End Sessions.

(** ** Theorems *)

(** C11: A session never leaves what an administrator requires.  When a requirements document is converted and a
    configuration is loaded under it, the tool policy, the reviewer and the web search mode are allowed ones; and after any
    sequence of updates of the session that are accepted, the approval policy is on the list of allowed policies, the
    permission profile is in an allowed sandbox mode, and where reads are denied it is a read-only or a workspace-write
    profile, whose sandbox enforces them. *)
Theorem session_within_requirements os active_network (debug_hooks : Debug ManagedHooksRequirementsToml)
    (debug_profile : Debug PermissionProfile) toml req l w w' cfg cwd s :
  requirements_try_from os toml = Ok req -> load_permissions os req l w = (w', Ok cfg) ->
  session_reaches os active_network (start_session cfg cwd) s ->
  allowed_by (allowed_tool_policies_with_source toml) (loaded_tool_policy cfg) /\
  allowed_by (allowed_approvals_reviewers_with_source toml) (value (constrained (final_approvals_reviewer (loaded_settings cfg)))) /\
  (value (constrained (final_web_search_mode (loaded_settings cfg))) = SearchDisabled \/
   allowed_by (allowed_web_search_modes_with_source toml)
     (search_requirement (value (constrained (final_web_search_mode (loaded_settings cfg)))))) /\
  allowed_by (allowed_approval_policies_with_source toml) (value (session_approval_policy s)) /\
  allowed_by (allowed_sandbox_modes_with_source toml)
    (sandbox_mode_requirement_for_permission_profile (state_profile (session_profile_state s))) /\
  (denies_reads toml -> confined (state_profile (session_profile_state s))).
Proof.
  intros Hreq Hload Hs. destruct (loaded_ok os _ _ _ _ _ _ Hreq Hload) as (Ht & Ha & Hr & Hw & Hp & _).
  destruct (reaches_ok os active_network _ _ (start_session cfg cwd) s Ha Hp Hs) as [Ha' Hp'].
  split; [done|]. split; [apply (constrains_value _ _ Hr)|]. split; [apply (constrains_value _ _ Hw)|].
  split; [apply (constrains_value _ _ Ha')|]. apply (constrains_value _ _ Hp').
Qed.

(** C10: A required denial of reads holds for the whole session.  For each path on the [deny_read] list of the requirements,
    the file-system policy of the session, bound to whatever workspace roots it has, denies all access to the path from
    any working directory, after any sequence of accepted updates: of the permission profile, of the legacy sandbox
    policy, of the working directory or of the roots.  A required pattern stays among the denied patterns in the same way. *)
Theorem required_denials_survive os active_network (debug_hooks : Debug ManagedHooksRequirementsToml)
    (debug_profile : Debug PermissionProfile) toml req l w w' cfg cwd s permissions deny :
  os_wf os -> requirements_try_from os toml = Ok req -> load_permissions os req l w = (w', Ok cfg) ->
  session_reaches os active_network (start_session cfg cwd) s ->
  permissions_with_source toml = Some permissions -> deny ∈ filesystem_constraints (sourced_value permissions) ->
  (forall p, existsb is_glob_metacharacter deny = false -> abs_path os deny = Some p ->
     forall from d, abs_path os from = Some d -> resolve_access_with_cwd os (session_file_system_policy os s) p from = Deny) /\
  (existsb is_glob_metacharacter deny = true -> parse_project_roots_glob_pattern deny = None ->
     mkEntry (GlobPattern deny) Deny ∈ entries (session_file_system_policy os s)).
Proof.
  intros Hos Hreq Hload Hs Hperms Hin. destruct (loaded_ok os _ _ _ _ _ _ Hreq Hload) as (_ & Ha & _ & _ & Hp & p0 & Hc0 & Heff).
  destruct (requirements_ok os _ _ Hreq) as (_ & _ & _ & _ & _ & Hfs). rewrite Hperms in Hfs. simpl in Hfs. rewrite Hfs in Heff.
  assert (Hdeny : denies_reads toml) by (exists permissions; split; [done|]; intros Hnil; rewrite Hnil in Hin; set_solver).
  assert (Hall : forall e, deny_read_entry os deny = Some e -> fixed_denial e -> enforces (session_file_system_policy os s) e).
  { intros e He Hf. apply materialize_enforces; [done|]. eapply (reaches_enforces os active_network (start_session cfg cwd)); try done.
    - destruct Ha as (? & ? & _). by split.
    - destruct Hp as (Hh & Hn & Hv). split; [done|]. split; [done|]. intros r Hr. apply (Hv r Hr), Hdeny.
    - change (session_profile_state (start_session cfg cwd)) with (permission_profile_state (loaded_permissions cfg)).
      rewrite Heff. by apply (effective_profile_enforces os l _ _ _ deny); [apply Hc0, Hdeny|..]. }
  unfold deny_read_entry in Hall. split.
  - intros p Hg Hpath from d Hfrom. rewrite Hg, Hpath in Hall.
    apply (enforced_path_denied os _ from d); [done..| by eapply abs_path_normal | by apply Hall].
  - intros Hg Hparse. rewrite Hg in Hall. destruct (Hall _ eq_refl) as (_ & e' & He' & Heq); [by split|].
    apply fixed_denial_eqb in Heq as [Ha' Heq]; [|by split]. destruct e' as [[q|g|v] a]; simpl in *; try done. by subst.
Qed.

(** ** Examples *)

Definition example_requirements : ConfigRequirementsWithSources :=
  let doc := SystemRequirementsToml (lit "/etc/codex/requirements.toml") in
  merge_unset_fields no_requirements doc
    {| toml_allowed_tool_policies := None; toml_infinity_agent_trust_key := None;
       toml_allowed_approval_policies := Some [OnRequest; UnlessTrusted];
       toml_allowed_approvals_reviewers := Some [ReviewByUser];
       toml_allowed_sandbox_modes := Some [ModeReadOnly; ModeWorkspaceWrite];
       toml_allowed_permission_profiles := None; toml_default_permissions := None; toml_remote_sandbox_config := None;
       toml_allowed_web_search_modes := Some []; toml_allow_managed_hooks_only := None; toml_allow_appshots := None;
       toml_computer_use := None; toml_windows := None; toml_feature_requirements := None; toml_hooks := None;
       toml_mcp_servers := None; toml_plugins := None; toml_apps := None; toml_rules := None;
       toml_enforce_residency := None; toml_network := None;
       toml_permissions := Some (mkPermissionsRequirements (Some (Some [lit "/srv/secret"])) []);
       toml_guardian_policy_config := None |}.

(** A user who asks for full access without approvals. *)
Definition example_loading : Loading := {|
  load_cwd := lit "/repo"; codex_home := lit "/home/u/.codex"; helper_readable_roots := [];
  configured_tool_policy := FullTools; configured_approval := OnFailure; configured_reviewer := ReviewByUser;
  configured_profile := Disabled; configured_policy := unrestricted; configured_search := SearchLive;
  configured_active := None; configured_roots := []; load_workspace_roots := [lit "/repo"] |}.

Definition no_debug {A} : Debug A := fun _ => [].
Definition any_network (_ : ActivePermissionProfile) (_ : PermissionProfile) : ConstraintResult unit := Ok tt.

(** An update to a legacy policy that may write to the working directory. *)
Definition example_update : SessionSettingsUpdate :=
  mkUpdate (Some UnlessTrusted) (Some AutoReview) None None None None None (Some (WorkspaceWrite [] false true true)).

(** A configuration under requirements, and its session after an update. *)
Definition run_session os `{Debug ManagedHooksRequirementsToml} `{Debug PermissionProfile} toml l cwd updates
    : option (LoadedConfig * SessionConfiguration) :=
  match requirements_try_from os toml with
  | Ok req =>
      match load_permissions os req l [] with
      | (_, Ok cfg) =>
          match apply os any_network (start_session cfg cwd) updates with Ok s => Some (cfg, s) | Err _ => None end
      | (_, Err _) => None
      end
  | Err _ => None
  end.

Lemma run_session_inv os (dh : Debug ManagedHooksRequirementsToml) (dp : Debug PermissionProfile) toml l cwd updates cfg s :
  run_session os toml l cwd updates = Some (cfg, s) ->
  exists req w, requirements_try_from os toml = Ok req /\ load_permissions os req l [] = (w, Ok cfg) /\
    session_reaches os any_network (start_session cfg cwd) s.
Proof.
  unfold run_session. destruct (requirements_try_from os toml) as [req|]; [|done].
  destruct (load_permissions os req l []) as [w [c|]] eqn:Hl; [|done].
  destruct (apply os any_network (start_session c cwd) updates) as [s'|] eqn:Ha; [|done]. intros [= -> ->].
  exists req, w. split; [done|]. split; [done|]. eapply session_updates; [apply session_starts | done].
Qed.

Definition example_run : option (LoadedConfig * SessionConfiguration) :=
  @run_session example_os no_debug no_debug example_requirements example_loading (lit "/repo") example_update.

Lemma example_run_some : is_Some example_run.
Proof. apply (bool_decide_unpack _). by vm_compute. Qed.

Lemma session_within_requirements_witness :
  exists cfg s, example_run = Some (cfg, s) /\ confined (state_profile (session_profile_state s)).
Proof.
  destruct example_run_some as [[cfg s] E]. exists cfg, s. split; [done|].
  destruct (run_session_inv _ _ _ _ _ _ _ cfg s E) as (req & w & Hreq & Hload & Hs).
  apply (session_within_requirements example_os any_network no_debug no_debug example_requirements req example_loading [] w cfg
    (lit "/repo") s Hreq Hload Hs).
  eexists. split; [reflexivity | done].
Defined.

Lemma required_denials_survive_witness :
  exists cfg s, example_run = Some (cfg, s) /\
    resolve_access_with_cwd example_os (session_file_system_policy example_os s) (lit "/srv/secret") (lit "/repo") = Deny.
Proof.
  destruct example_run_some as [[cfg s] E]. exists cfg, s. split; [done|].
  destruct (run_session_inv _ _ _ _ _ _ _ cfg s E) as (req & w & Hreq & Hload & Hs).
  eapply (required_denials_survive example_os any_network no_debug no_debug example_requirements req example_loading [] w cfg
    (lit "/repo") s _ (lit "/srv/secret") example_os_wf Hreq Hload Hs eq_refl).
  - apply list_elem_of_here.
  - by vm_compute.
  - by vm_compute.
  - by vm_compute.
Defined.

(** The list of allowed reviewers binds the configuration, but not an update of the session. *)
Example reviewer_update_unchecked :
  (fun '(cfg, s) => (value (constrained (final_approvals_reviewer (loaded_settings cfg))), session_approvals_reviewer s))
    <$> example_run = Some (ReviewByUser, AutoReview).
Proof. by vm_compute. Qed.

(** A legacy policy that is set on the permissions of a configuration replaces the required denials, where an update of a
    session keeps them. *)
Example legacy_policy_drops_denials :
  (fun '(cfg, s) =>
     let access permissions := resolve_access_with_cwd example_os
       (file_system_sandbox_policy (materialized_permission_profile example_os permissions)) (lit "/srv/secret") (lit "/repo") in
     (access (loaded_permissions cfg),
      access (set_legacy_sandbox_policy example_os (loaded_permissions cfg) (ReadOnly false) (lit "/repo")).1))
    <$> example_run = Some (Deny, Read).
Proof. by vm_compute. Qed.

End ManagedSettings.
