(* ===== verification/ConfigLayers.v ===== *)
(** * Layers of configuration: config/src/state.rs and fingerprint.rs

    The stack of configuration documents, from the managed preferences to the flags of the session: its ordering, the
    replacement of user layers, the merged document, and where each setting comes from.  The merge itself is in
    [ConfigToml].  The conversion of a document to JSON, the serialiser and SHA-256 are parameters. *)

From S2P Require Import Prelude Text AbsolutePath Permissions ResponseItems ConfigToml Requirements.

Module ConfigLayers.
Import AbsolutePath Permissions ResponseItems ConfigToml.

(** ** Layers *)

(** [codex-rs/app-server-protocol/src/protocol/v2/config.rs:31-102 ConfigLayerSource] *)
Inductive ConfigLayerSource :=
| MdmLayer (domain key : str)
| SystemLayer (file : str)
| EnterpriseManagedLayer (id name : str)
| UserLayer (file : str) (profile : option str)
| ProjectLayer (dot_codex_folder : str)
| SessionFlags
| LegacyManagedFromFile (file : str)
| LegacyManagedFromMdm.

(** [codex-rs/app-server-protocol/src/protocol/v2/config.rs:107-124 ConfigLayerSource::precedence] *)
Definition precedence (self : ConfigLayerSource) : nat :=
  match self with
  | MdmLayer _ _ => 0
  | SystemLayer _ => 10
  | EnterpriseManagedLayer _ _ => 15
  | UserLayer _ profile => match profile with Some _ => 21 | None => 20 end
  | ProjectLayer _ => 25
  | SessionFlags => 30
  | LegacyManagedFromFile _ => 40
  | LegacyManagedFromMdm => 50
  end.

Definition is_user (name : ConfigLayerSource) : bool := match name with UserLayer _ _ => true | _ => false end.

(** [codex-rs/config/src/state.rs:110-113 RawTomlLayer] *)
Record RawTomlLayer := { contents : str; base_dir : str }.

(** [codex-rs/config/src/state.rs:100-107 ConfigLayerEntry] *)
Record ConfigLayerEntry := mkLayer {
  layer_name : ConfigLayerSource;
  config : TomlValue;
  version : str;
  disabled_reason : option str;
  raw_toml : option RawTomlLayer;
  hooks_config_folder_override : option str
}.

(** [codex-rs/app-server-protocol/src/protocol/v2/config.rs:285-288 ConfigLayerMetadata] *)
Record ConfigLayerMetadata := mkMetadata { meta_name : ConfigLayerSource; meta_version : str }.

(** [codex-rs/config/src/state.rs:164-166 ConfigLayerEntry::is_disabled] *)
Definition is_disabled (self : ConfigLayerEntry) : bool := match disabled_reason self with Some _ => true | None => false end.

(** [codex-rs/config/src/state.rs:186-191 ConfigLayerEntry::metadata] *)
Definition metadata (self : ConfigLayerEntry) : ConfigLayerMetadata := mkMetadata (layer_name self) (version self).

(** [codex-rs/config/src/state.rs:178-184 ConfigLayerEntry::with_hooks_config_folder_override] *)
Definition with_hooks_config_folder_override (self : ConfigLayerEntry) (folder : option str) : ConfigLayerEntry :=
  mkLayer (layer_name self) (config self) (version self) (disabled_reason self) (raw_toml self) folder.

(** [codex-rs/config/src/state.rs:203-214 ConfigLayerEntry::config_folder] *)
Definition config_folder (self : ConfigLayerEntry) : option str :=
  match layer_name self with
  | SystemLayer file | UserLayer file _ => parent_of file
  | ProjectLayer dot_codex_folder => Some dot_codex_folder
  | MdmLayer _ _ | EnterpriseManagedLayer _ _ | SessionFlags | LegacyManagedFromFile _ | LegacyManagedFromMdm => None
  end.

(** [codex-rs/config/src/state.rs:222-226 ConfigLayerEntry::hooks_config_folder] *)
Definition hooks_config_folder (self : ConfigLayerEntry) : option str :=
  match hooks_config_folder_override self with Some folder => Some folder | None => config_folder self end.

(** ** Versions *)

(** [codex-rs/config/src/fingerprint.rs:50-67 canonical_json] *)
Fixpoint canonical_json (value : Json) : Json :=
  match value with
  | JObject map =>
      let canonical := (fix go map := match map with [] => [] | (key, val) :: map => (key, canonical_json val) :: go map end) map in
      JObject (foldl (fun sorted key =>
                 match map_get canonical key with Some val => map_insert sorted key val | None => sorted end)
                 [] (merge_sort str_le (List.map fst canonical)))
  | JArray items => JArray (List.map canonical_json items)
  | other => other
  end.

(** A byte in two hexadecimal digits. *)
Definition hex_byte (b : N) : str :=
  let digit n := if (n <? 10)%N then (48 + n)%N else (87 + n)%N in [digit (b / 16)%N; digit (b mod 16)%N].

Section Stack.
(** [serde_json::to_value] of a document ([Null] when it fails), [serde_json::to_vec], and SHA-256. *)
Context (to_json : TomlValue -> Json) (to_vec : Json -> list N) (sha256 : list N -> list N).

(** [codex-rs/config/src/fingerprint.rs:37-49 version_for_toml] *)
Definition version_for_toml (value : TomlValue) : str :=
  lit "sha256:" ++ mjoin (map hex_byte (sha256 (to_vec (canonical_json (to_json value))))).

(** [codex-rs/config/src/state.rs:116-126 ConfigLayerEntry::new] *)
Definition new_layer (name : ConfigLayerSource) (config : TomlValue) : ConfigLayerEntry :=
  mkLayer name config (version_for_toml config) None None None.

(** [codex-rs/config/src/state.rs:128-146 ConfigLayerEntry::new_with_raw_toml] *)
Definition new_layer_with_raw_toml (name : ConfigLayerSource) (config : TomlValue) (raw_toml raw_toml_base_dir : str)
    : ConfigLayerEntry :=
  mkLayer name config (version_for_toml config) None (Some {| contents := raw_toml; base_dir := raw_toml_base_dir |}) None.

(** [codex-rs/config/src/state.rs:148-162 ConfigLayerEntry::new_disabled] *)
Definition new_disabled_layer (name : ConfigLayerSource) (config : TomlValue) (disabled_reason : str) : ConfigLayerEntry :=
  mkLayer name config (version_for_toml config) (Some disabled_reason) None None.

(** ** The stack *)

(** [codex-rs/config/src/state.rs:236-266 ConfigLayerStack] *)
Record ConfigLayerStack := mkStack {
  layers : list ConfigLayerEntry;
  user_layer_index : option nat;
  stack_requirements : Requirements.ConfigRequirements;
  stack_requirements_toml : Requirements.ConfigRequirementsToml;
  ignore_user_and_project_exec_policy_rules : bool;
  startup_warnings : option (list str)
}.

(** [codex-rs/config/src/state.rs:540-587 verify_layer_ordering] the loop over the layers: the active user layer and the
    project folder before. *)
Fixpoint verify_layers (ls : list ConfigLayerEntry) (index : nat) (user_layer_index : option nat) (previous : option str)
    : result str (option nat) :=
  match ls with
  | [] => Ok user_layer_index
  | layer :: ls =>
      let user_layer_index := if is_user (layer_name layer) then Some index else user_layer_index in
      match layer_name layer with
      | ProjectLayer current =>
          match previous with
          | None => verify_layers ls (S index) user_layer_index (Some current)
          | Some previous =>
              match parent_of previous with
              | None => Err (lit "project layer has no parent directory")
              | Some parent =>
                  if path_eqb previous current || negb (existsb (fun ancestor => path_eqb ancestor parent) (ancestors current))
                  then Err (lit "project layers are not ordered from root to cwd")
                  else verify_layers ls (S index) user_layer_index (Some current)
              end
          end
      | _ => verify_layers ls (S index) user_layer_index previous
      end
  end.

(** [Iterator::is_sorted], by the precedence of the sources. *)
Fixpoint sorted_by_precedence (ls : list ConfigLayerEntry) : bool :=
  match ls with
  | a :: (b :: _) as tail => (precedence (layer_name a) <=? precedence (layer_name b)) && sorted_by_precedence tail
  | _ => true
  end.

(** [codex-rs/config/src/state.rs:538-587 verify_layer_ordering] *)
Definition verify_layer_ordering (ls : list ConfigLayerEntry) : result str (option nat) :=
  if negb (sorted_by_precedence ls) then Err (lit "config layers are not in correct precedence order")
  else verify_layers ls 0 None None.

(** [codex-rs/config/src/state.rs:269-283 ConfigLayerStack::new] *)
Definition new_stack (ls : list ConfigLayerEntry) (requirements : Requirements.ConfigRequirements)
    (requirements_toml : Requirements.ConfigRequirementsToml) : result str ConfigLayerStack :=
  user_layer_index ← verify_layer_ordering ls;
  Ok (mkStack ls user_layer_index requirements requirements_toml false None).

(** [codex-rs/config/src/state.rs:285-291 ConfigLayerStack::with_user_and_project_exec_policy_rules_ignored] *)
Definition with_rules_ignored (self : ConfigLayerStack) (ignore : bool) : ConfigLayerStack :=
  mkStack (layers self) (user_layer_index self) (stack_requirements self) (stack_requirements_toml self) ignore
    (startup_warnings self).

(** [codex-rs/config/src/state.rs:297-300 ConfigLayerStack::with_startup_warnings] *)
Definition with_startup_warnings (self : ConfigLayerStack) (warnings : list str) : ConfigLayerStack :=
  mkStack (layers self) (user_layer_index self) (stack_requirements self) (stack_requirements_toml self)
    (ignore_user_and_project_exec_policy_rules self) (Some warnings).

(** [codex-rs/config/src/state.rs:312-315 ConfigLayerStack::get_active_user_layer] *)
Definition get_active_user_layer (self : ConfigLayerStack) : option ConfigLayerEntry :=
  index ← user_layer_index self; layers self !! index.

(** [codex-rs/config/src/state.rs:317-323 ConfigLayerStack::get_user_config_file] *)
Definition get_user_config_file (self : ConfigLayerStack) : option str :=
  layer ← get_active_user_layer self;
  match layer_name layer with UserLayer file _ => Some file | _ => None end.

(** [codex-rs/config/src/state.rs:230-233 ConfigLayerStackOrdering] *)
Inductive ConfigLayerStackOrdering := LowestPrecedenceFirst | HighestPrecedenceFirst.

(** [codex-rs/config/src/state.rs:521-535 ConfigLayerStack::get_layers] *)
Definition get_layers (self : ConfigLayerStack) (ordering : ConfigLayerStackOrdering) (include_disabled : bool)
    : list ConfigLayerEntry :=
  let ls := List.filter (fun layer => include_disabled || negb (is_disabled layer)) (layers self) in
  match ordering with HighestPrecedenceFirst => reverse ls | LowestPrecedenceFirst => ls end.

(** [codex-rs/config/src/state.rs:511-516 ConfigLayerStack::layers_high_to_low] *)
Definition layers_high_to_low (self : ConfigLayerStack) : list ConfigLayerEntry := get_layers self HighestPrecedenceFirst false.

(** [codex-rs/config/src/state.rs:330-339 ConfigLayerStack::get_user_layers] *)
Definition get_user_layers (self : ConfigLayerStack) (ordering : ConfigLayerStackOrdering) (include_disabled : bool)
    : list ConfigLayerEntry :=
  List.filter (fun layer => is_user (layer_name layer)) (get_layers self ordering include_disabled).

(** [codex-rs/config/src/state.rs:345-359 ConfigLayerStack::effective_user_config] *)
Definition effective_user_config (self : ConfigLayerStack) : option TomlValue :=
  match get_user_layers self LowestPrecedenceFirst false with
  | [] => None
  | user_layers => Some (foldl (fun merged layer => merge_toml_values merged (config layer)) (Table []) user_layers)
  end.

(** [codex-rs/config/src/state.rs:479-488 ConfigLayerStack::effective_config] *)
Definition effective_config (self : ConfigLayerStack) : TomlValue :=
  foldl (fun merged layer => merge_toml_values merged (config layer)) (Table []) (get_layers self LowestPrecedenceFirst false).

(** ** Replacing user layers *)

(** [codex-rs/protocol/src/config_types.rs:127-139 ProfileV2Name::from_str] *)
Definition parse_profile_name (value : str) : option str :=
  if bool_decide (value = []) || negb (forallb (fun c => is_ascii_alphanumeric c || bool_decide (c ∈ lit "_-")) value)
  then None else Some value.

(** A layer inserted before the first one of a higher precedence. *)
Definition insert_by_precedence (layer : ConfigLayerEntry) (ls : list ConfigLayerEntry) : list ConfigLayerEntry :=
  insert_by (fun layer l => precedence (layer_name layer) <? precedence (layer_name l)) layer ls.

(** The first layer that satisfies a condition is removed. *)
Fixpoint remove_first (p : ConfigLayerEntry -> bool) (ls : list ConfigLayerEntry) : list ConfigLayerEntry :=
  match ls with
  | [] => []
  | l :: ls => if p l then ls else l :: remove_first p ls
  end.

(** The index of the last user layer. *)
Definition last_user_index (ls : list ConfigLayerEntry) : option nat :=
  fst <$> last (List.filter (fun '(_, layer) => is_user (layer_name layer)) (imap pair ls)).

(** The layer of a user file. *)
Definition is_user_file (config_toml : str) (layer : ConfigLayerEntry) : bool :=
  match layer_name layer with UserLayer file _ => path_eqb file config_toml | _ => false end.

(** The stack with other layers. *)
Definition with_layers (self : ConfigLayerStack) (ls : list ConfigLayerEntry) : ConfigLayerStack :=
  mkStack ls (last_user_index ls) (stack_requirements self) (stack_requirements_toml self)
    (ignore_user_and_project_exec_policy_rules self) (startup_warnings self).

(** [codex-rs/config/src/state.rs:385-431 ConfigLayerStack::with_user_config_profile] *)
Definition with_user_config_profile (self : ConfigLayerStack) (config_toml : str) (profile : option str) (user_config : TomlValue)
    : ConfigLayerStack :=
  let user_layer := new_layer (UserLayer config_toml profile) user_config in
  with_layers self (insert_by_precedence user_layer (remove_first (is_user_file config_toml) (layers self))).

(** [codex-rs/config/src/state.rs:375-383 ConfigLayerStack::with_user_config] *)
Definition with_user_config (self : ConfigLayerStack) (config_toml : str) (user_config : TomlValue) : ConfigLayerStack :=
  let profile := head (omap (fun layer => match layer_name layer with
                                          | UserLayer file profile =>
                                              if path_eqb file config_toml then profile ≫= parse_profile_name else None
                                          | _ => None
                                          end) (layers self)) in
  with_user_config_profile self config_toml profile user_config.

(** [codex-rs/config/src/state.rs:435-473 ConfigLayerStack::with_user_layer_from] *)
Definition with_user_layer_from (self other : ConfigLayerStack) : ConfigLayerStack :=
  let user_layers := List.filter (fun layer => is_user (layer_name layer)) (layers other) in
  let ls := List.filter (fun layer => negb (is_user (layer_name layer))) (layers self) in
  with_layers self (foldl (fun ls user_layer => insert_by_precedence user_layer ls) ls user_layers).

(** ** Origins *)

(** [codex-rs/config/src/fingerprint.rs:8-35 record_origins] *)
Fixpoint record_origins (value : TomlValue) (meta : ConfigLayerMetadata) (path : list str)
    (origins : gmap str ConfigLayerMetadata) : gmap str ConfigLayerMetadata :=
  match value with
  | Table table =>
      (fix go table origins :=
         match table with
         | [] => origins
         | (key, val) :: table => go table (record_origins val meta (path ++ [key]) origins)
         end) table origins
  | Array items =>
      (fix go idx items origins :=
         match items with
         | [] => origins
         | item :: items => go (S idx) items (record_origins item meta (path ++ [show_nat idx]) origins)
         end) 0 items origins
  | _ => if bool_decide (path = []) then origins else <[join (lit ".") path := meta]> origins
  end.

(** [codex-rs/config/src/state.rs:493-506 ConfigLayerStack::origins] *)
Definition origins (self : ConfigLayerStack) : gmap str ConfigLayerMetadata :=
  foldl (fun origins layer => record_origins (normalized_with_key_aliases (config layer) []) (metadata layer) [] origins)
    ∅ (get_layers self LowestPrecedenceFirst false).

(** The stacks the code builds: a verified one, and what its operations make of it. *)
Inductive built : ConfigLayerStack -> Prop :=
| built_new ls r t stack : new_stack ls r t = Ok stack -> built stack
| built_rules stack ignore : built stack -> built (with_rules_ignored stack ignore)
| built_warnings stack warnings : built stack -> built (with_startup_warnings stack warnings)
| built_user stack file user_config : built stack -> built (with_user_config stack file user_config)
| built_profile stack file profile user_config : built stack -> built (with_user_config_profile stack file profile user_config)
| built_from stack other : built stack -> built other -> built (with_user_layer_from stack other).

End Stack.
(** ** The ordering *)

Definition prec (layer : ConfigLayerEntry) : nat := precedence (layer_name layer).

(** The layers are in the order of their precedence. *)
Notation ordered := (StronglySorted (fun a b => prec a <= prec b)).

#[local] Instance prec_trans : Transitive (fun a b => prec a <= prec b).
Proof. intros a b c. lia. Qed.

Lemma sorted_ordered ls : sorted_by_precedence ls = true <-> ordered ls.
Proof.
  split.
  - intros H. apply (Sorted_StronglySorted _ _). revert H. induction ls as [|a [|b ls] IH]; [constructor | repeat constructor |].
    cbn [sorted_by_precedence]. rewrite andb_true_iff, Nat.leb_le. intros [Hab Hs].
    constructor; [by apply IH | by constructor].
  - induction 1 as [|a ls Hs IH Ha]; [done|]. destruct ls as [|b ls]; [done|].
    apply andb_true_iff. split; [|exact IH]. apply Nat.leb_le. by apply Forall_cons in Ha as [Ha _].
Qed.

Lemma remove_first_sublist p ls : remove_first p ls `sublist_of` ls.
Proof. induction ls as [|l ls IH]; simpl; [done|]. destruct (p l); [by constructor | by constructor]. Qed.

Lemma ordered_sublist ls ls' : ls `sublist_of` ls' -> ordered ls' -> ordered ls.
Proof.
  induction 1 as [|l ls ls' Hs IH|l ls ls' Hs IH]; inversion_clear 1 as [|? ? Ho Hf]; [constructor | | by apply IH].
  constructor; [by apply IH|]. apply Forall_forall. intros x Hx. rewrite Forall_forall in Hf.
  by apply Hf, (sublist_subseteq ls).
Qed.

Lemma ordered_insert l ls : ordered ls -> ordered (insert_by_precedence l ls).
Proof.
  apply insert_by_sorted; [apply _ | |]; unfold prec; intros a b; [rewrite Nat.ltb_lt | rewrite Nat.ltb_ge]; lia.
Qed.

(** The folders of the project layers, and the check of their order. *)
Definition project_folder (layer : ConfigLayerEntry) : option str :=
  match layer_name layer with ProjectLayer folder => Some folder | _ => None end.

Fixpoint check_projects (previous : option str) (folders : list str) : result str unit :=
  match folders with
  | [] => Ok tt
  | current :: folders =>
      match previous with
      | None => check_projects (Some current) folders
      | Some previous =>
          match parent_of previous with
          | None => Err (lit "project layer has no parent directory")
          | Some parent =>
              if path_eqb previous current || negb (existsb (fun ancestor => path_eqb ancestor parent) (ancestors current))
              then Err (lit "project layers are not ordered from root to cwd")
              else check_projects (Some current) folders
          end
      end
  end.

Lemma last_user_snoc ls l :
  last_user_index (ls ++ [l]) = if is_user (layer_name l) then Some (length ls) else last_user_index ls.
Proof.
  unfold last_user_index. rewrite imap_app, List.filter_app. simpl. destruct (is_user (layer_name l)).
  - by rewrite last_snoc, Nat.add_0_r.
  - by rewrite app_nil_r.
Qed.

(** The check of the layers, split into what it checks and the index it finds. *)
Lemma verify_layers_spec ls done_ previous :
  verify_layers ls (length done_) (last_user_index done_) previous =
  (_ ← check_projects previous (omap project_folder ls); Ok (last_user_index (done_ ++ ls))).
Proof.
  revert done_ previous. induction ls as [|l ls IH]; intros done_ previous; simpl; [by rewrite app_nil_r|].
  specialize (IH (done_ ++ [l])). rewrite length_app, Nat.add_1_r, last_user_snoc, <- app_assoc in IH. simpl in IH.
  unfold project_folder at 1. destruct (layer_name l) as [| | |f p|current| | |]; simpl in *; try apply IH.
  destruct previous as [previous|]; [|apply IH]. destruct (parent_of previous); [|done]. destruct (_ || _); [done | apply IH].
Qed.

Lemma verify_spec ls i :
  verify_layer_ordering ls = Ok i <->
  ordered ls /\ check_projects None (omap project_folder ls) = Ok tt /\ i = last_user_index ls.
Proof.
  unfold verify_layer_ordering. rewrite <- sorted_ordered. destruct (sorted_by_precedence ls); simpl; [|naive_solver].
  pose proof (verify_layers_spec ls [] None) as H. simpl in H. unfold last_user_index at 1 in H. simpl in H. rewrite H.
  destruct (check_projects _ _) as [[]|]; simpl; naive_solver.
Qed.

(** What is done to user layers leaves the project layers alone. *)
Lemma projects_insert l ls :
  is_user (layer_name l) = true -> omap project_folder (insert_by_precedence l ls) = omap project_folder ls.
Proof.
  intros Hu. assert (Hl : project_folder l = None) by (unfold project_folder; by destruct (layer_name l)).
  unfold insert_by_precedence. induction ls as [|x ls IH]; simpl; [by rewrite Hl|].
  destruct (_ <? _); simpl; [by rewrite Hl|].
  destruct (project_folder x); [f_equal|]; exact IH.
Qed.

Lemma projects_remove p ls :
  (forall l, p l = true -> is_user (layer_name l) = true) -> omap project_folder (remove_first p ls) = omap project_folder ls.
Proof.
  intros Hp. induction ls as [|l ls IH]; simpl; [done|]. destruct (p l) eqn:E; simpl.
  - apply Hp in E. unfold project_folder at 2. by destruct (layer_name l).
  - destruct (project_folder l); [f_equal|]; exact IH.
Qed.

Lemma projects_not_user ls :
  omap project_folder (List.filter (fun l => negb (is_user (layer_name l))) ls) = omap project_folder ls.
Proof.
  induction ls as [|l ls IH]; simpl; [done|]. destruct (is_user (layer_name l)) eqn:E; simpl.
  - unfold project_folder at 2. by destruct (layer_name l).
  - destruct (project_folder l); [f_equal|]; exact IH.
Qed.

Section Built.
Context (to_json : TomlValue -> Json) (to_vec : Json -> list N) (sha256 : list N -> list N).

Lemma user_profile_verified stack file profile user_config :
  verify_layer_ordering (layers stack) = Ok (user_layer_index stack) ->
  let stack' := with_user_config_profile to_json to_vec sha256 stack file profile user_config in
  verify_layer_ordering (layers stack') = Ok (user_layer_index stack').
Proof.
  rewrite !verify_spec. intros (Ho & Hp & _). simpl. split; [|split; [|done]].
  - apply ordered_insert. by eapply ordered_sublist; [apply remove_first_sublist|].
  - rewrite projects_insert, projects_remove; [done | | done].
    intros l. unfold is_user_file. by destruct (layer_name l).
Qed.

Lemma user_layers_verified stack other :
  verify_layer_ordering (layers stack) = Ok (user_layer_index stack) ->
  let stack' := with_user_layer_from stack other in
  verify_layer_ordering (layers stack') = Ok (user_layer_index stack').
Proof.
  rewrite !verify_spec. intros (Ho & Hp & _). simpl.
  match goal with |- ?A /\ ?B /\ ?C => cut (A /\ B); [intros [HA HB]; exact (conj HA (conj HB eq_refl))|] end.
  assert (Hu : Forall (fun l => is_user (layer_name l) = true) (List.filter (fun l => is_user (layer_name l)) (layers other))).
  { apply List.Forall_forall. intros l Hl. by apply filter_In in Hl as [_ Hl]. }
  revert Hu. generalize (List.filter (fun l => is_user (layer_name l)) (layers other)) as us. intros us.
  assert (Hls : ordered (List.filter (fun l => negb (is_user (layer_name l))) (layers stack)) /\
    check_projects None (omap project_folder (List.filter (fun l => negb (is_user (layer_name l))) (layers stack))) = Ok tt).
  { rewrite projects_not_user. split; [|done]. by eapply ordered_sublist; [apply filter_sublist|]. }
  revert Hls. generalize (List.filter (fun l => negb (is_user (layer_name l))) (layers stack)) as ls. intros ls Hls Hu.
  revert ls Hls. induction Hu as [|u us Hu _ IH]; intros ls [Hl Hc]; [done|]. simpl. apply IH. split.
  - by apply ordered_insert.
  - by rewrite projects_insert.
Qed.

Lemma built_verified stack :
  built to_json to_vec sha256 stack -> verify_layer_ordering (layers stack) = Ok (user_layer_index stack).
Proof.
  induction 1 as [ls r t stack Hn|stack ignore _ IH|stack warnings _ IH|stack file user_config _ IH
    |stack file profile user_config _ IH|stack other _ IH _ _]; try done.
  - unfold new_stack in Hn. by apply result_bind_ok in Hn as (i & Hi & [= <-]).
  - by apply user_profile_verified.
  - by apply user_profile_verified.
  - by apply user_layers_verified.
Qed.

Lemma last_user_last ls i :
  last_user_index ls = Some i ->
  exists l, ls !! i = Some l /\ is_user (layer_name l) = true /\
    forall j l', i < j -> ls !! j = Some l' -> is_user (layer_name l') = false.
Proof.
  induction ls as [|l ls IH] using rev_ind; [done|]. rewrite last_user_snoc. destruct (is_user (layer_name l)) eqn:Hl.
  - intros [= <-]. exists l. rewrite list_lookup_middle by done. split; [done|]. split; [done|].
    intros j l' Hj H%lookup_lt_Some. rewrite length_app in H. simpl in H. lia.
  - intros Hi. destruct (IH Hi) as (l0 & H0 & Hu & Hlater). exists l0. rewrite lookup_app_l by by eapply lookup_lt_Some.
    split; [done|]. split; [done|]. intros j l' Hj [H|[_ H]]%lookup_app_Some; [by eapply Hlater|].
    destruct (j - length ls); simplify_eq/=. done.
Qed.

(** Every stack the code builds passes the check a stack is created with: whatever user layers are replaced, added or
    copied from another stack, the layers are in the order of their precedence and the project layers lead from the root
    to the working directory; and the layer it takes for the active user layer is a user layer of the highest precedence. *)
Theorem stacks_stay_verified stack :
  built to_json to_vec sha256 stack ->
  verify_layer_ordering (layers stack) = Ok (user_layer_index stack) /\
  forall active, get_active_user_layer stack = Some active ->
    is_user (layer_name active) = true /\
    forall l, l ∈ layers stack -> is_user (layer_name l) = true -> precedence (layer_name l) <= precedence (layer_name active).
Proof.
  intros Hv%built_verified. split; [done|]. apply verify_spec in Hv as (Ho & _ & Hi).
  intros active (i & Hidx & Hact)%bind_Some. rewrite Hi in Hidx. destruct (last_user_last _ _ Hidx) as (l0 & H0 & Hu & Hlater).
  simplify_eq. split; [done|]. intros l (j & Hj)%list_elem_of_lookup Hlu.
  destruct (decide (i < j)) as [Hij|Hij]; [by rewrite (Hlater j l Hij Hj) in Hlu|].
  destruct (decide (j = i)) as [->|Hne]; [by simplify_eq|].
  pose proof (take_drop_middle _ _ _ Hact) as Hsplit. rewrite <- Hsplit in Ho.
  apply (StronglySorted_app_1_elem_of _ _ _ l active Ho); [|apply list_elem_of_here].
  apply list_elem_of_lookup. exists j. rewrite lookup_take_lt by lia. done.
Qed.
End Built.

(** ** The merged document *)

(** The enabled layers, from the lowest precedence to the highest. *)
Definition enabled (stack : ConfigLayerStack) : list ConfigLayerEntry := get_layers stack LowestPrecedenceFirst false.

(** What a layer says of a path, with its legacy keys replaced. *)
Definition layer_says (layer : ConfigLayerEntry) (path : list str) : verdict :=
  says (normalized_with_key_aliases (config layer) []) path.

(** [layer] decides that the setting at [path] is [v]: it sets it, and every enabled layer above it is silent. *)
Definition decides (stack : ConfigLayerStack) (path : list str) (layer : ConfigLayerEntry) (v : TomlValue) : Prop :=
  exists lower higher, enabled stack = lower ++ layer :: higher /\ layer_says layer path = SetTo v /\
    Forall (fun h => layer_says h path = Silent) higher.

Lemma enabled_ordered stack : ordered (layers stack) -> ordered (enabled stack).
Proof. apply ordered_sublist, filter_sublist. Qed.

Lemma effective_merged stack : effective_config stack = merge_documents (map config (enabled stack)).
Proof.
  unfold effective_config, merge_documents. fold (enabled stack). generalize (Table []). generalize (enabled stack).
  intros ls. induction ls as [|l ls IH]; intros acc; simpl; [done | apply IH].
Qed.

Lemma map_app_cons {A B} (f : A -> B) l xs y zs :
  map f l = xs ++ y :: zs -> exists l1 x l2, l = l1 ++ x :: l2 /\ map f l1 = xs /\ f x = y /\ map f l2 = zs.
Proof.
  intros H. apply map_eq_app in H as (l1 & l2' & -> & Hx & H). destruct l2' as [|x l2]; [done|].
  injection H as Hy Hz. by exists l1, x, l2.
Qed.

Lemma effective_decided stack path v :
  Forall (fun l => unique_keys (config l)) (enabled stack) -> avoids_domains [] path ->
  setting (effective_config stack) path = Some v <-> exists layer, decides stack path layer v.
Proof.
  intros Hu Ha. rewrite effective_merged, merged_setting; [|by apply Forall_map|done]. unfold decides, layer_says. split.
  - intros (lower & d & higher & Heq & Hs & Hsil). apply map_app_cons in Heq as (l1 & l & l2 & -> & _ & <- & <-).
    exists l, l1, l2. split; [done|]. split; [done|]. by apply Forall_map in Hsil.
  - intros (l & l1 & l2 & Heq & Hs & Hsil). exists (map config l1), (config l), (map config l2). rewrite Heq, map_app.
    split; [done|]. split; [done|]. by apply Forall_map.
Qed.

(** ** Origins *)

(** The paths a document has values at that are no tables or arrays. *)
Fixpoint leaves (value : TomlValue) (path : list str) : list (list str) :=
  match value with
  | Table table =>
      (fix go table := match table with [] => [] | (key, val) :: table => leaves val (path ++ [key]) ++ go table end) table
  | Array items =>
      (fix go idx items := match items with [] => [] | item :: items => leaves item (path ++ [show_nat idx]) ++ go (S idx) items end)
        0 items
  | _ => if bool_decide (path = []) then [] else [path]
  end.

Lemma leaves_table table path q :
  q ∈ leaves (Table table) path <-> exists key val, (key, val) ∈ table /\ q ∈ leaves val (path ++ [key]).
Proof.
  simpl. induction table as [|[key val] table IH]; [set_solver|]. rewrite elem_of_app, IH. setoid_rewrite elem_of_cons.
  naive_solver.
Qed.

Lemma leaves_below v path q : q ∈ leaves v path -> path `prefix_of` q.
Proof.
  revert path q. induction v as [v Ht Ha|items IH|table IH] using toml_ind; intros path q Hq.
  - destruct v; try done; simpl in Hq; [..|by destruct (Ha items)]; case_bool_decide; set_solver.
  - simpl in Hq. revert Hq. generalize 0. induction IH as [|item items Hitem _ IHi]; intros idx Hq; [set_solver|].
    apply elem_of_app in Hq as [Hq|Hq]; [|by eapply IHi]. etrans; [by eexists | by eapply Hitem].
  - apply leaves_table in Hq as (key & val & Hin & Hq). rewrite Forall_forall in IH. etrans; [by eexists | by eapply (IH (key, val))].
Qed.

(** A key that one of the paths is spelled with gets the layer, any other is kept. *)
Definition recorded (paths : list (list str)) (meta : ConfigLayerMetadata) (before after : gmap str ConfigLayerMetadata) : Prop :=
  forall k, ((exists q, q ∈ paths /\ join (lit ".") q = k) -> after !! k = Some meta) /\
            ((forall q, q ∈ paths -> join (lit ".") q <> k) -> after !! k = before !! k).

Lemma recorded_nil meta o : recorded [] meta o o.
Proof. intros k. set_solver. Qed.

Lemma recorded_app l1 l2 meta o o1 o2 : recorded l1 meta o o1 -> recorded l2 meta o1 o2 -> recorded (l1 ++ l2) meta o o2.
Proof.
  intros H1 H2 k. destruct (H1 k) as [Hset1 Hkeep1], (H2 k) as [Hset2 Hkeep2]. setoid_rewrite elem_of_app.
  split; [|intros Hno; rewrite Hkeep2 by naive_solver; apply Hkeep1; naive_solver].
  intros (q & [Hq|Hq] & Hk); [|by apply Hset2; eauto].
  destruct (decide (Exists (fun q => join (lit ".") q = k) l2)) as [(q' & Hq' & Hk')%Exists_exists|Hno].
  - apply Hset2. eauto.
  - rewrite Hkeep2; [by apply Hset1; eauto|]. intros q' Hq' Hk'. apply Hno, Exists_exists. eauto.
Qed.

Lemma record_origins_spec v meta path origins : recorded (leaves v path) meta origins (record_origins v meta path origins).
Proof.
  revert path origins. induction v as [v Ht Ha|items IH|table IH] using toml_ind; intros path origins.
  - assert (record_origins v meta path origins =
      if bool_decide (path = []) then origins else <[join (lit ".") path := meta]> origins) as ->
      by (destruct v; try done; by destruct (Ha items)).
    assert (leaves v path = if bool_decide (path = []) then [] else [path]) as ->
      by (destruct v; try done; by destruct (Ha items)).
    case_bool_decide; [apply recorded_nil|]. intros k. split.
    + intros (q & ->%list_elem_of_singleton & <-). apply lookup_insert_eq.
    + intros Hq. apply lookup_insert_ne, Hq. by apply list_elem_of_singleton.
  - simpl. generalize 0. revert origins. induction IH as [|item items Hitem _ IHi]; intros origins idx; [apply recorded_nil|].
    eapply recorded_app; [apply Hitem | apply IHi].
  - simpl. revert origins. induction IH as [|[key val] table Hval _ IHt]; intros origins; [apply recorded_nil|].
    eapply recorded_app; [apply Hval | apply IHt].
Qed.

(** A setting is among the leaves; a path a document is silent about is not. *)
Definition scalar (v : TomlValue) : Prop := match v with Table _ | Array _ => False | _ => True end.

Lemma set_leaf v pre path s : pre ++ path <> [] -> says v path = SetTo s -> scalar s -> pre ++ path ∈ leaves v pre.
Proof.
  revert v pre. induction path as [|k path IH]; intros v pre Hne Hs Hsc.
  - rewrite app_nil_r in Hne |- *. destruct v; simpl in Hs; simplify_eq; try done; simpl; rewrite bool_decide_false by done; set_solver.
  - destruct v as [| | | | | |table]; try done. simpl in Hs. destruct (map_get table k) as [child|] eqn:Hg; [|done].
    apply leaves_table. exists k, child. split; [by apply map_get_elem|].
    change (k :: path) with ([k] ++ path). rewrite app_assoc. apply (IH child (pre ++ [k])); [by destruct pre | done..].
Qed.

Lemma silent_no_leaf v pre path : unique_keys v -> says v path = Silent -> pre ++ path ∉ leaves v pre.
Proof.
  revert v pre. induction path as [|k path IH]; intros v pre Hu Hs Hin; [by destruct v|].
  destruct v as [| | | | | |table]; try done. simpl in Hs. apply leaves_table in Hin as (key & val & Hv & Hin).
  assert (key = k) as ->.
  { pose proof (leaves_below _ _ _ Hin) as [r Hr]. rewrite <- app_assoc in Hr. apply app_inv_head in Hr. simpl in Hr. congruence. }
  pose proof (elem_map_get _ _ _ (unique_keys_nodup _ Hu) Hv) as Hg. rewrite Hg in Hs.
  change (k :: path) with ([k] ++ path) in Hin. rewrite app_assoc in Hin. eapply IH; [|done..]. by eapply unique_keys_get.
Qed.

(** No other path of an enabled layer is spelled like [path]. *)
Definition unambiguous (stack : ConfigLayerStack) (path : list str) : Prop :=
  forall layer q, layer ∈ enabled stack -> q ∈ leaves (normalized_with_key_aliases (config layer) []) [] ->
    join (lit ".") q = join (lit ".") path -> q = path.

Lemma origins_of_decider stack path layer v :
  Forall (fun l => unique_keys (config l)) (enabled stack) -> path <> [] -> unambiguous stack path -> scalar v ->
  decides stack path layer v -> origins stack !! join (lit ".") path = Some (metadata layer).
Proof.
  intros Hu Hne Hun Hsc (lower & higher & Heq & Hs & Hsil). unfold origins. fold (enabled stack). unfold unambiguous in Hun.
  rewrite Heq in Hu, Hun |- *. rewrite foldl_app. simpl. set (o := record_origins _ (metadata layer) _ _).
  assert (Ho : o !! join (lit ".") path = Some (metadata layer)).
  { apply record_origins_spec. exists path. split; [|done]. by apply (set_leaf _ [] path v). }
  clearbody o. apply Forall_app in Hu as [_ [_ Hu]%Forall_cons].
  assert (Hun' : forall h q, h ∈ higher -> q ∈ leaves (normalized_with_key_aliases (config h) []) [] ->
    join (lit ".") q = join (lit ".") path -> q = path).
  { intros h q Hh. apply Hun, elem_of_app. right. by right. }
  clear Hun Heq. revert o Ho Hu Hun'. induction Hsil as [|h higher Hh _ IH]; intros o Ho Hu Hun'; [done|].
  apply Forall_cons in Hu as [Huh Hu]. simpl. apply IH; [|done|set_solver]. rewrite <- Ho. apply record_origins_spec.
  intros q Hq Hk. assert (q = path) as -> by (apply (Hun' h); [apply list_elem_of_here | done..]).
  by eapply (silent_no_leaf _ [] path); [apply normalized_unique| |].
Qed.

(** C17: A setting of the merged configuration is that of the highest enabled layer that says anything about it. For a
    stack that the code builds, whose enabled layers are documents without a key twice in a table, and a setting that
    is not below a table of network domains ([permissions.<profile>.network.domains], whose keys are normalised when
    layers are merged): the stack has the value exactly when some enabled layer sets it and every enabled layer above
    is silent, in particular every one of a higher precedence. The origin that is reported for the setting is that
    layer, when the value is not a table or a list and no other path of an enabled layer is spelled the same. *)
Theorem effective_setting_decided to_json to_vec sha256 stack path v :
  built to_json to_vec sha256 stack -> Forall (fun l => unique_keys (config l)) (enabled stack) -> avoids_domains [] path ->
  (setting (effective_config stack) path = Some v <-> exists layer, decides stack path layer v) /\
  forall layer, decides stack path layer v ->
    (forall l, l ∈ enabled stack -> precedence (layer_name layer) < precedence (layer_name l) -> layer_says l path = Silent) /\
    (path <> [] -> scalar v -> unambiguous stack path -> origins stack !! join (lit ".") path = Some (metadata layer)).
Proof.
  intros Hb Hu Ha. split; [by apply effective_decided|]. intros layer Hd. split; [|intros; by eapply origins_of_decider].
  assert (Ho : ordered (enabled stack)).
  { apply enabled_ordered. eapply (proj1 (verify_spec (layers stack) (user_layer_index stack))).
    by eapply built_verified. }
  destruct Hd as (lower & higher & Heq & _ & Hsil). rewrite Heq in Ho |- *. intros l Hl Hlt.
  apply elem_of_app in Hl as [Hl|[->|Hl]%elem_of_cons]; [|lia|by eapply Forall_forall in Hsil].
  pose proof (StronglySorted_app_1_elem_of _ _ _ l layer Ho Hl (list_elem_of_here _ _)) as Hle. unfold prec in Hle. lia.
Qed.

(** ** Examples *)

(** A codec and a hash for the examples. *)
Definition null_json (_ : TomlValue) : Json := JNull.
Definition no_bytes {A} (_ : A) : list N := [].

Definition example_layers : list ConfigLayerEntry :=
  map (fun '(name, config) => new_layer null_json no_bytes no_bytes name config)
    [(SystemLayer (lit "/etc/codex/config.toml"), Table [(lit "model", String_ (lit "a")); (lit "tui", Table [(lit "theme", String_ (lit "x"))])]);
     (UserLayer (lit "/home/u/.codex/config.toml") None, Table [(lit "model", String_ (lit "b"))]);
     (ProjectLayer (lit "/repo/.codex"), Table [(lit "tui", Table [(lit "alerts", Boolean true)])])].

Definition example_stack : ConfigLayerStack :=
  mkStack example_layers (last_user_index example_layers) Requirements.default_requirements
    (Requirements.into_toml Requirements.no_requirements) false None.

Lemma example_built : built null_json no_bytes no_bytes example_stack.
Proof.
  apply (built_new _ _ _ example_layers Requirements.default_requirements (Requirements.into_toml Requirements.no_requirements)).
  reflexivity.
Qed.

Lemma stacks_stay_verified_witness :
  verify_layer_ordering (layers (with_user_config null_json no_bytes no_bytes example_stack (lit "/home/u/.codex/config.toml") (Table [])))
    = Ok (Some 1).
Proof.
  apply (stacks_stay_verified null_json no_bytes no_bytes
    (with_user_config null_json no_bytes no_bytes example_stack (lit "/home/u/.codex/config.toml") (Table []))).
  apply built_user, example_built.
Defined.

Lemma effective_setting_decided_witness :
  setting (effective_config example_stack) [lit "tui"; lit "theme"] = Some (String_ (lit "x")).
Proof.
  apply (effective_setting_decided null_json no_bytes no_bytes example_stack [lit "tui"; lit "theme"] (String_ (lit "x")) example_built).
  - repeat (constructor; [repeat split; repeat constructor; set_solver|]). constructor.
  - intros q k r Hq. by destruct q as [|? [|? [|? ?]]]; simplify_eq.
  - eexists. exists [], (drop 1 example_layers). split; [reflexivity|]. split; [reflexivity|].
    repeat (constructor; [reflexivity|]). constructor.
Defined.

(** The origin of a setting whose keys have dots in them can be another one's: the last layer that spells a path that way. *)
Example origin_of_spelling :
  let layer name config := new_layer null_json no_bytes no_bytes name config in
  let low := layer (SystemLayer (lit "/etc/codex/config.toml")) (Table [(lit "a", Table [(lit "b", Boolean true)])]) in
  let high := layer SessionFlags (Table [(lit "a.b", Boolean false)]) in
  let stack := mkStack [low; high] None Requirements.default_requirements (Requirements.into_toml Requirements.no_requirements) false None in
  setting (effective_config stack) [lit "a"; lit "b"] = Some (Boolean true) /\
  origins stack !! lit "a.b" = Some (metadata high).
Proof. by vm_compute. Qed.

End ConfigLayers.
