(* ===== verification/HookDispatch.v ===== *)
(** * Running hooks: hooks/src/engine/mod.rs, command_runner.rs, dispatcher.rs and events/common.rs

    Which configured handlers an event selects, how each is run as a child process, and how the runs, which finish in
    any order, are collected.  What the processes do ([ChildRun]), the clock and the order in which they finish are
    arguments; compiling and matching a regular expression is a parameter. *)

From S2P Require Import Prelude Text AbsolutePath HeadTailBuffer HookTypes.

Module HookDispatch.
Import HookTypes.

(** A signed number in decimal. *)
Definition show_Z (z : Z) : str := lit (pretty z).

(** ** Handlers *)

(** [codex-rs/hooks/src/engine/mod.rs:36-39 CommandShell] *)
Record CommandShell := mkShell { shell_program : str; shell_args : list str }.

(** [codex-rs/hooks/src/engine/mod.rs:42-52 ConfiguredHandler] *)
Record ConfiguredHandler := mkHandler {
  event_name : HookEventName;
  matcher : option str;
  command : str;
  timeout_sec : N;
  status_message : option str;
  source_path : str;
  source : HookSource;
  display_order : Z;
  env : list (str * str)
}.

(** [codex-rs/hooks/src/engine/mod.rs:64-77 ConfiguredHandler::event_name_label] *)
Definition event_name_label (self : ConfiguredHandler) : str :=
  lit match event_name self with
      | PreToolUse => "pre-tool-use"
      | PermissionRequest => "permission-request"
      | PostToolUse => "post-tool-use"
      | PreCompact => "pre-compact"
      | PostCompact => "post-compact"
      | SessionStart => "session-start"
      | UserPromptSubmit => "user-prompt-submit"
      | SubagentStart => "subagent-start"
      | SubagentStop => "subagent-stop"
      | Stop => "stop"
      end.

(** [codex-rs/hooks/src/engine/mod.rs:55-62 ConfiguredHandler::run_id] *)
Definition run_id (self : ConfiguredHandler) : str :=
  event_name_label self ++ lit ":" ++ show_Z (display_order self) ++ lit ":" ++ source_path self.

(** ** Processes *)

(** [codex-rs/hooks/src/engine/command_runner.rs:14-22 CommandRunResult] *)
Record CommandRunResult := mkResult {
  started_at : Z;
  completed_at : Z;
  duration_ms : Z;
  exit_code : option Z;
  stdout : str;
  stderr : str;
  error : option str
}.

(** A [tokio::process::Command]: the program, its arguments and the variables added to the environment. *)
Record Command_ := mkCommand { program : str; args : list str; envs : list (str * str) }.

(** [codex-rs/hooks/src/engine/command_runner.rs:119-134 default_shell_command] not on Windows; [shell_var] is the value
    of [SHELL]. *)
Definition default_shell_command (shell_var : option str) : Command_ :=
  mkCommand (match shell_var with Some shell => shell | None => lit "/bin/sh" end) [lit "-lc"] [].

(** [codex-rs/hooks/src/engine/command_runner.rs:103-117 build_command] *)
Definition build_command (shell_var : option str) (shell : CommandShell) (handler : ConfiguredHandler) : Command_ :=
  let cmd := match shell_program shell with
             | [] => default_shell_command shell_var
             | _ => mkCommand (shell_program shell) (shell_args shell) []
             end in
  mkCommand (program cmd) (args cmd ++ [command handler]) (env handler).

(** What a child process does: it cannot be started, its input cannot be written, it ends, waiting for it fails, or it
    is still running when the time is over. *)
Inductive ChildRun :=
| SpawnFailed (err : str)
| StdinFailed (err : str)
| Finished (code : option Z) (out err : list N)
| WaitFailed (err : str)
| TimedOut.

(** The clock around a run: the times of its start and end, and the milliseconds between them. *)
Record Timing := mkTiming { time_started : Z; time_completed : Z; elapsed_ms : N }.

Definition i64_max : Z := 9223372036854775807.

(** [codex-rs/hooks/src/engine/command_runner.rs:24-101 run_command] *)
Definition run_command (handler : ConfiguredHandler) (time : Timing) (child : ChildRun) : CommandRunResult :=
  let finish := mkResult (time_started time) (time_completed time) (Z.min (Z.of_N (elapsed_ms time)) i64_max) in
  match child with
  | SpawnFailed err => finish None [] [] (Some err)
  | StdinFailed err => finish None [] [] (Some (lit "failed to write hook stdin: " ++ err))
  | Finished code out err =>
      finish code (HeadTailBuffer.from_utf8_lossy out) (HeadTailBuffer.from_utf8_lossy err) None
  | WaitFailed err => finish None [] [] (Some err)
  | TimedOut => finish None [] [] (Some (lit "hook timed out after " ++ show_N (timeout_sec handler) ++ lit "s"))
  end.

(** ** Shared helpers of the events *)

(** [codex-rs/hooks/src/events/common.rs:13-16 SubagentHookContext] *)
Record SubagentHookContext := mkSubagent { agent_id : str; agent_type : str }.

(** [codex-rs/hooks/src/events/common.rs:18-24 join_text_chunks] *)
Definition join_text_chunks (chunks : list str) : option str :=
  match chunks with [] => None | _ => Some (join [NL; NL] chunks) end.

(** [codex-rs/hooks/src/events/common.rs:26-33 trimmed_non_empty] *)
Definition trimmed_non_empty (text : str) : option str := match trim text with [] => None | trimmed => Some trimmed end.

(** [codex-rs/hooks/src/events/common.rs:35-45 append_additional_context] *)
Definition append_additional_context (entries : list HookOutputEntry) (contexts : list str) (additional_context : str)
    : list HookOutputEntry * list str :=
  (entries ++ [Entry KindContext additional_context], contexts ++ [additional_context]).

(** [codex-rs/hooks/src/events/common.rs:47-54 flatten_additional_contexts] *)
Definition flatten_additional_contexts (additional_contexts : list (list str)) : list str := mjoin additional_contexts.

(** [codex-rs/hooks/src/engine/dispatcher.rs:142-154 scope_for_event] *)
Definition scope_for_event (name : HookEventName) : HookScope :=
  match name with
  | SessionStart | SubagentStart => ScopeThread
  | PreToolUse | PermissionRequest | PostToolUse | PreCompact | PostCompact | UserPromptSubmit | SubagentStop | Stop =>
      ScopeTurn
  end.

(** [codex-rs/hooks/src/engine/dispatcher.rs:70-87 running_summary] [now] is the time. *)
Definition running_summary (now : Z) (handler : ConfiguredHandler) : HookRunSummary :=
  mkSummary (run_id handler) (event_name handler) TypeCommand Sync (scope_for_event (event_name handler))
    (source_path handler) (source handler) (display_order handler) Running (status_message handler) now None None [].

(** [codex-rs/hooks/src/engine/dispatcher.rs:117-140 completed_summary] *)
Definition completed_summary (handler : ConfiguredHandler) (run_result : CommandRunResult) (status : HookRunStatus)
    (entries : list HookOutputEntry) : HookRunSummary :=
  mkSummary (run_id handler) (event_name handler) TypeCommand Sync (scope_for_event (event_name handler))
    (source_path handler) (source handler) (display_order handler) status (status_message handler) (started_at run_result)
    (Some (completed_at run_result)) (Some (duration_ms run_result)) entries.

(** [codex-rs/hooks/src/events/common.rs:56-78 serialization_failure_hook_events] *)
Definition serialization_failure_hook_events (now : Z) (handlers : list ConfiguredHandler) (turn_id : option str)
    (error_message : str) : list HookCompletedEvent :=
  map (fun handler =>
    let run := running_summary now handler in
    mkCompleted turn_id
      (mkSummary (run_id_ run) (run_event_name run) (run_handler_type run) (run_execution_mode run) (run_scope run)
         (run_source_path run) (run_source run) (run_display_order run) RunFailed (run_status_message run)
         (run_started_at run) (Some (run_started_at run)) (Some 0%Z) [Entry KindError error_message])) handlers.

(** [codex-rs/hooks/src/events/common.rs:100-103 hook_run_for_tool_use] *)
Definition hook_run_for_tool_use (run : HookRunSummary) (tool_use_id : str) : HookRunSummary :=
  mkSummary (run_id_ run ++ lit ":" ++ tool_use_id) (run_event_name run) (run_handler_type run) (run_execution_mode run)
    (run_scope run) (run_source_path run) (run_source run) (run_display_order run) (run_status run)
    (run_status_message run) (run_started_at run) (run_completed_at run) (run_duration_ms run) (run_entries run).

(** [codex-rs/hooks/src/events/common.rs:92-98 hook_completed_for_tool_use] *)
Definition hook_completed_for_tool_use (event : HookCompletedEvent) (tool_use_id : str) : HookCompletedEvent :=
  mkCompleted (completed_turn_id event) (hook_run_for_tool_use (completed_run event) tool_use_id).

(** [codex-rs/hooks/src/events/common.rs:80-90 serialization_failure_hook_events_for_tool_use] *)
Definition serialization_failure_hook_events_for_tool_use (now : Z) (handlers : list ConfiguredHandler)
    (turn_id : option str) (error_message tool_use_id : str) : list HookCompletedEvent :=
  map (fun event => hook_completed_for_tool_use event tool_use_id)
    (serialization_failure_hook_events now handlers turn_id error_message).

(** [codex-rs/hooks/src/events/common.rs:105-120 matcher_pattern_for_event] *)
Definition matcher_pattern_for_event (name : HookEventName) (matcher : option str) : option str :=
  match name with
  | PreToolUse | PermissionRequest | PostToolUse | SessionStart | SubagentStart | SubagentStop | PreCompact | PostCompact =>
      matcher
  | UserPromptSubmit | Stop => None
  end.

(** [codex-rs/hooks/src/events/common.rs:157-159 is_match_all_matcher] *)
Definition is_match_all_matcher (matcher : str) : bool := bool_decide (matcher = []) || bool_decide (matcher = lit "*").

(** [codex-rs/hooks/src/events/common.rs:161-165 is_exact_matcher] *)
Definition is_exact_matcher (matcher : str) : bool :=
  forallb (fun ch => is_ascii_alphanumeric ch || (ch =? 95)%N || (ch =? 124)%N) matcher.

(** [codex-rs/hooks/src/events/common.rs:145-155 matcher_inputs] *)
Definition matcher_inputs (tool_name : str) (matcher_aliases : list str) : list str := tool_name :: matcher_aliases.

Section Matching.
(** [regex::Regex::new]: an error, or what the expression matches. *)
Context (regex : str -> result str (str -> bool)).

(** [codex-rs/hooks/src/events/common.rs:122-127 validate_matcher_pattern] *)
Definition validate_matcher_pattern (matcher : str) : result str unit :=
  if is_match_all_matcher matcher || is_exact_matcher matcher then Ok tt else _ ← regex matcher; Ok tt.

(** [codex-rs/hooks/src/events/common.rs:129-144 matches_matcher] *)
Definition matches_matcher (matcher : option str) (input : option str) : bool :=
  match matcher with
  | None => true
  | Some matcher =>
      if is_match_all_matcher matcher then true
      else if is_exact_matcher matcher then
        match input with
        | Some input => existsb (fun candidate => bool_decide (candidate = input)) (split_char 124%N matcher)
        | None => false
        end
      else match input with
           | Some input => match regex matcher with Ok is_match => is_match input | Err _ => false end
           | None => false
           end
  end.

(** [codex-rs/hooks/src/engine/dispatcher.rs:36-68 select_handlers_for_matcher_inputs] *)
Definition select_handlers_for_matcher_inputs (handlers : list ConfiguredHandler) (name : HookEventName)
    (inputs : list str) : list ConfiguredHandler :=
  List.filter (fun handler =>
    match name with
    | PreToolUse | PermissionRequest | PostToolUse | SessionStart | SubagentStart | SubagentStop | PreCompact
    | PostCompact =>
        match inputs with
        | [] => matches_matcher (matcher handler) None
        | _ => existsb (fun input => matches_matcher (matcher handler) (Some input)) inputs
        end
    | UserPromptSubmit | Stop => true
    end)
    (List.filter (fun handler => bool_decide (event_name handler = name)) handlers).

(** [codex-rs/hooks/src/engine/dispatcher.rs:27-34 select_handlers] *)
Definition select_handlers (handlers : list ConfiguredHandler) (name : HookEventName) (matcher_input : option str)
    : list ConfiguredHandler :=
  select_handlers_for_matcher_inputs handlers name (match matcher_input with Some input => [input] | None => [] end).
End Matching.

(** ** Execution *)

(** [codex-rs/hooks/src/engine/dispatcher.rs:20-25 ParsedHandler] *)
Record ParsedHandler (T : Type) := mkParsed { completed : HookCompletedEvent; data : T; completion_order : nat }.
Arguments mkParsed {_} _ _ _.
Arguments completed {_} _.
Arguments data {_} _.
Arguments completion_order {_} _.

Definition set_completion_order {T} (parsed : ParsedHandler T) (order : nat) : ParsedHandler T :=
  mkParsed (completed parsed) (data parsed) order.

(** What the hooks meet when they run: the value of [SHELL], what the child of each configured run does with its
    command, input and directory, the clock, and which of the pending runs finishes next. *)
Record World := mkWorld {
  shell_var : option str;
  children : nat -> Command_ -> str -> str -> ChildRun;
  clock : nat -> Timing;
  scheduler : nat -> nat;
  now : Z
}.

(** [FuturesUnordered], polled until it is empty: each pending future is yielded once, in the order in which they finish.
    The scheduler picks among those still pending. *)
Fixpoint completions {A} (scheduler : nat -> nat) (n : nat) (pending : list A) : list A :=
  match n with
  | 0 => []
  | S n =>
      let next := scheduler n mod length pending in
      match pending !! next with
      | Some finished => finished :: completions scheduler n (delete next pending)
      | None => []
      end
  end.

(** What the run of one handler gives. *)
Definition run_handler (world : World) (shell : CommandShell) (input_json cwd : str) (configured_order : nat)
    (handler : ConfiguredHandler) : CommandRunResult :=
  run_command handler (clock world configured_order)
    (children world configured_order (build_command (shell_var world) shell handler) input_json cwd).

(** [codex-rs/hooks/src/engine/dispatcher.rs:89-116 execute_handlers] [None] when reading a result panics. *)
Definition execute_handlers {T} (world : World) (shell : CommandShell) (handlers : list ConfiguredHandler)
    (input_json cwd : str) (turn_id : option str)
    (parse : ConfiguredHandler -> CommandRunResult -> option str -> option (ParsedHandler T))
    : option (list (ParsedHandler T)) :=
  pending ← mapM (fun '(configured_order, handler) =>
                    parsed ← parse handler (run_handler world shell input_json cwd configured_order handler) turn_id;
                    Some (configured_order, parsed)) (imap pair handlers);
  let completed := imap (fun order '(configured_order, parsed) => (configured_order, set_completion_order parsed order))
                     (completions (scheduler world) (length pending) pending) in
  Some (map snd (sort_by_key fst completed)).

(** ** Lemmas *)

Lemma completions_perm {A} sched (pending : list A) : completions sched (length pending) pending ≡ₚ pending.
Proof.
  remember (length pending) as n eqn:Hn. revert pending Hn.
  induction n as [|n IH]; intros pending Hn; [by destruct pending|].
  cbn -[Nat.modulo]. destruct (lookup_lt_is_Some_2 pending (sched n mod length pending)) as [x Hx].
  { apply Nat.mod_upper_bound. intros H0. by rewrite H0 in Hn. }
  rewrite Hx. rewrite IH by (rewrite (length_delete _ _ (mk_is_Some _ _ Hx)); lia).
  symmetry. by apply delete_Permutation.
Qed.

(** Every order of completion is one that some scheduler gives. *)
Lemma completions_any {A} (pending order : list A) :
  order ≡ₚ pending -> exists sched, completions sched (length pending) pending = order.
Proof.
  revert pending. induction order as [|x order IH]; intros pending Hp.
  - destruct pending; [by exists (fun _ => 0)|by apply Permutation_nil_cons in Hp].
  - assert (x ∈ pending) as Hx by (rewrite <- Hp; by left). apply list_elem_of_lookup in Hx as [i Hi].
    pose proof (delete_Permutation _ _ _ Hi) as Hd.
    destruct (IH (delete i pending)) as [sched Hs].
    { eapply Permutation_cons_inv. by rewrite Hp. }
    exists (fun n => if bool_decide (n = length (delete i pending)) then i else sched n).
    assert (length pending = S (length (delete i pending))) as Hl by exact (Permutation_length Hd). rewrite Hl. cbn [completions].
    rewrite bool_decide_true by done. rewrite Nat.mod_small by (by apply lookup_lt_Some in Hi).
    rewrite Hi. f_equal. rewrite <- Hs.
    assert (forall n (l : list A), n <= length (delete i pending) ->
              completions (fun m => if bool_decide (m = length (delete i pending)) then i else sched m) n l
              = completions sched n l) as He; [|by apply He].
    induction n as [|n IHn]; intros l Hn; [done|]. cbn [completions]. rewrite bool_decide_false by lia.
    destruct (l !! _); [|done]. f_equal. apply IHn. lia.
Qed.

(** A list with distinct keys, sorted by them. *)
Lemma sorted_seq n (l : list nat) : StronglySorted le l -> l ≡ₚ seq 0 n -> l = seq 0 n.
Proof.
  intros Hs Hp. apply (StronglySorted_unique le); [done| |done]. clear.
  generalize 0. induction n as [|n IH]; intros k; cbn; constructor; [done|].
  apply Forall_forall. intros x Hx. apply elem_of_seq in Hx. lia.
Qed.

Lemma number_order {T} (l : list (nat * ParsedHandler T)) k :
  map fst (imap (fun order '(configured_order, parsed) => (configured_order, set_completion_order parsed (k + order))) l)
  = map fst l.
Proof.
  revert k. induction l as [|[i p] l IH]; intros k; [done|]. cbn. f_equal.
  etransitivity; [|exact (IH (S k))]. f_equal. apply imap_ext. intros j [i' p'] _. cbn. by rewrite Nat.add_succ_r.
Qed.

Lemma completions_map {A B} (f : A -> B) sched n (l : list A) :
  completions sched n (map f l) = map f (completions sched n l).
Proof.
  revert l. induction n as [|n IH]; intros l; [done|]. cbn -[Nat.modulo]. rewrite length_map, list_lookup_fmap.
  destruct (l !! _) as [x|] eqn:E; [|done]. cbn. f_equal. rewrite <- IH. f_equal.
  rewrite !delete_take_drop. by rewrite map_app, firstn_map, skipn_map.
Qed.

(** The configured places of the runs, in the order in which they finish. *)
Definition finish_order (sched : nat -> nat) (n : nat) : list nat := completions sched n (seq 0 n).

(** The place of each configured run in the order in which they finish. *)
Definition ranked (sched : nat -> nat) (n : nat) (ranks : list nat) : Prop :=
  ranks ≡ₚ seq 0 n /\ forall i k, ranks !! i = Some k -> finish_order sched n !! k = Some i.

(** Which place the run of each handler has in the order of completion: whatever the scheduler does, the results are
    those of the handlers in the order of their configuration, each numbered by its place. *)
Lemma collected {T} sched (parsed : list (ParsedHandler T)) :
  exists ranks, ranked sched (length parsed) ranks /\
    map snd (sort_by_key fst (imap (fun order '(configured_order, parsed) => (configured_order, set_completion_order parsed order))
                                (completions sched (length parsed) (imap pair parsed))))
    = zip_with set_completion_order parsed ranks.
Proof.
  pose proof (completions_perm sched (imap pair parsed)) as Hp. rewrite length_imap in Hp.
  set (done_ := completions sched (length parsed) (imap pair parsed)) in *.
  set (numbered := imap _ done_).
  assert (map fst numbered = map fst done_) as Hf by apply (number_order done_ 0).
  assert (map fst (imap pair parsed) = seq 0 (length parsed)) as Hseq.
  { apply list_eq. intros i. rewrite list_lookup_fmap, list_lookup_imap.
    destruct (parsed !! i) eqn:E; cbn.
    - symmetry. apply lookup_seq. split; [done|]. by apply lookup_lt_Some in E.
    - symmetry. apply lookup_seq_ge. by apply lookup_ge_None. }
  assert (map fst (sort_by_key fst numbered) = seq 0 (length parsed)) as Hs.
  { apply sorted_seq.
    - pose proof (sort_by_key_sorted fst numbered) as H. clear -H. induction H as [|x l H IH Hx]; cbn; constructor; [done|].
      by apply Forall_map.
    - rewrite sort_by_key_perm, Hf, Hp. by rewrite Hseq. }
  set (final := sort_by_key fst numbered) in *.
  assert (forall i p, final !! i = Some p -> exists q, p = (i, set_completion_order q (completion_order p.2)) /\
            done_ !! completion_order p.2 = Some (i, q)) as Hfinal.
  { intros i [j p] E. assert (j = i) as ->.
    { pose proof (f_equal (lookup i) Hs) as H. rewrite list_lookup_fmap, E in H. cbn in H.
      symmetry in H. apply lookup_seq in H as [-> _]. done. }
    assert ((i, p) ∈ numbered) as Hin.
    { rewrite <- (sort_by_key_perm fst numbered). apply list_elem_of_lookup. by exists i. }
    unfold numbered in Hin. apply elem_of_lookup_imap in Hin as (k & [i' q] & Hk & Hd).
    injection Hk as -> ->. by exists q. }
  exists (map (fun e => completion_order e.2) final). split; [split|].
  - assert (map (fun e => completion_order e.2) final ≡ₚ map (fun e => completion_order e.2) numbered) as ->.
    { unfold final. by rewrite sort_by_key_perm. }
    assert (length done_ = length parsed) as <- by (rewrite Hp; apply length_imap).
    assert (map (fun e => completion_order e.2) numbered = seq 0 (length done_)) as ->; [|done].
    unfold numbered. apply list_eq. intros i. rewrite list_lookup_fmap, list_lookup_imap.
    destruct (done_ !! i) as [[? ?]|] eqn:E; cbn.
    + symmetry. apply lookup_seq. split; [done|]. by apply lookup_lt_Some in E.
    + symmetry. apply lookup_seq_ge. by apply lookup_ge_None.
  - intros i k Hk. rewrite list_lookup_fmap in Hk. destruct (final !! i) as [p|] eqn:E; [|done].
    cbn in Hk. injection Hk as <-. destruct (Hfinal i p E) as (q & _ & Hq). unfold finish_order.
    rewrite <- Hseq, completions_map, list_lookup_fmap. fold done_. by rewrite Hq.
  - assert (length final = length parsed) as Hl.
    { rewrite <- (length_map fst final), Hs. apply length_seq. }
    apply list_eq. intros i. rewrite lookup_zip_with, !list_lookup_fmap.
    destruct (final !! i) as [p|] eqn:E; cbn.
    + destruct (Hfinal i p E) as (q & -> & Hq). cbn in *.
      assert ((i, q) ∈ imap pair parsed) as Hin by (rewrite <- Hp; by eapply list_elem_of_lookup_2).
      apply elem_of_lookup_imap in Hin as (m & q' & Hq' & Hm). injection Hq' as -> ->. by rewrite Hm.
    + apply lookup_ge_None in E. assert (parsed !! i = None) as ->; [|done]. apply lookup_ge_None. lia.
Qed.

Section Execute.
Context {T : Type} (world : World) (shell : CommandShell) (input_json cwd : str) (turn_id : option str).
Context (parse : ConfiguredHandler -> CommandRunResult -> option str -> option (ParsedHandler T)).

(** What the handlers give, in the order of their configuration. *)
Definition outcomes (handlers : list ConfiguredHandler) : option (list (ParsedHandler T)) :=
  mapM (fun '(configured_order, handler) =>
          parse handler (run_handler world shell input_json cwd configured_order handler) turn_id) (imap pair handlers).

Lemma execute_handlers_spec handlers :
  match outcomes handlers with
  | None => execute_handlers world shell handlers input_json cwd turn_id parse = None
  | Some parsed => exists ranks, ranked (scheduler world) (length handlers) ranks /\
      execute_handlers world shell handlers input_json cwd turn_id parse = Some (zip_with set_completion_order parsed ranks)
  end.
Proof.
  unfold outcomes, execute_handlers.
  assert (forall k, mapM (fun '(configured_order, handler) =>
            parsed ← parse handler (run_handler world shell input_json cwd configured_order handler) turn_id;
            Some (configured_order, parsed)) (imap (fun i h => (k + i, h)) handlers)
          = (imap (fun i h => (k + i, h))) <$> mapM (fun '(configured_order, handler) =>
            parse handler (run_handler world shell input_json cwd configured_order handler) turn_id)
              (imap (fun i h => (k + i, h)) handlers)) as He.
  { induction handlers as [|h handlers IH]; intros k; [done|]. cbn -[run_handler].
    destruct (parse h _ turn_id); [|done]. cbn -[run_handler].
    assert (imap ((λ i h, (k + i, h)) ∘ S) handlers = imap (λ i h, (S k + i, h)) handlers) as ->.
    { apply imap_ext. intros j x _. cbn. by rewrite Nat.add_succ_r. }
    rewrite IH. destruct (mapM _ _); [|done]. cbn. do 2 f_equal.
    apply imap_ext. intros j x _. cbn. by rewrite Nat.add_succ_r. }
  specialize (He 0). cbn in He. change (imap (λ i h, (i, h)) handlers) with (imap pair handlers) in He. rewrite He.
  clear He. destruct (mapM _ (imap pair handlers)) as [parsed|] eqn:E; [|reflexivity]. cbn -[sort_by_key].
  apply length_mapM in E. rewrite length_imap in E.
  destruct (collected (scheduler world) parsed) as (ranks & Hr & Hc).
  exists ranks. rewrite E. split; [done|]. rewrite length_imap. by f_equal.
Qed.

(** The runs of the handlers, in the order of their configuration. *)
Definition runs (handlers : list ConfiguredHandler) : list CommandRunResult :=
  imap (run_handler world shell input_json cwd) handlers.

(** A reader of the results of the handlers that does not panic. *)
Definition reads_at (read : ConfiguredHandler -> CommandRunResult -> HookRunStatus * list HookOutputEntry * T)
    (handlers : list ConfiguredHandler) : Prop :=
  forall handler run_result turn_id, handler ∈ handlers ->
    parse handler run_result turn_id =
    (let '(status, entries, data) := read handler run_result in
     Some (mkParsed (mkCompleted turn_id (completed_summary handler run_result status entries)) data 0)).

Lemma execute_reads_at read handlers :
  reads_at read handlers ->
  exists results ranks, execute_handlers world shell handlers input_json cwd turn_id parse = Some results /\
    ranked (scheduler world) (length handlers) ranks /\ map completion_order results = ranks /\
    map data results = zip_with (fun h r => (read h r).2) handlers (runs handlers) /\
    map (fun p => run_id_ (completed_run (completed p))) results = map run_id handlers.
Proof.
  intros Hread. pose proof (execute_handlers_spec handlers) as He.
  assert (forall k, exists parsed,
            mapM (fun '(configured_order, handler) =>
              parse handler (run_handler world shell input_json cwd configured_order handler) turn_id)
              (imap (fun i h => (k + i, h)) handlers) = Some parsed /\ length parsed = length handlers /\
            map data parsed = zip_with (fun h r => (read h r).2) handlers
                                (imap (fun i => run_handler world shell input_json cwd (k + i)) handlers) /\
            map (fun p => run_id_ (completed_run (completed p))) parsed = map run_id handlers) as Ho.
  { clear He. induction handlers as [|h handlers IH]; intros k; [by exists []|].
    destruct (IH (fun x r t Hx => Hread x r t (list_elem_of_further _ _ _ Hx)) (S k)) as (parsed & Hm & Hl & Hd & Hi).
    assert (imap ((λ i h, (k + i, h)) ∘ S) handlers = imap (λ i h, (S k + i, h)) handlers) as Hk.
    { apply imap_ext. intros j x _. cbn. by rewrite Nat.add_succ_r. }
    cbn -[run_handler]. rewrite (Hread h) by (by left). rewrite Hk, Hm.
    destruct (read h (run_handler world shell input_json cwd (k + 0) h)) as [[st es] d] eqn:Er. cbn -[run_handler].
    eexists. split; [done|]. cbn -[run_handler]. rewrite Hl, Hd, Hi. repeat split; try done. cbn. f_equal. f_equal.
    apply imap_ext. intros j x _. cbn. by rewrite Nat.add_succ_r. }
  destruct (Ho 0) as (parsed & Hm & Hl & Hd & Hi). unfold outcomes in He.
  change (imap (λ i h, (0 + i, h)) handlers) with (imap pair handlers) in Hm. rewrite Hm in He.
  destruct He as (ranks & Hr & He). assert (length ranks = length parsed) as Hlr.
  { destruct Hr as [Hr _]. rewrite Hr, length_seq. done. }
  eexists _, ranks. split; [exact He|]. split; [done|]. clear He Hm Hr Ho.
  change (map data parsed = zip_with (λ h r, (read h r).2) handlers (runs handlers)) in Hd.
  rewrite <- Hd, <- Hi. clear Hd Hi Hl. revert ranks Hlr.
  induction parsed as [|p parsed IH]; intros [|r ranks] Hlr; try done.
  destruct (IH ranks) as (H1 & H2 & H3); [by injection Hlr|]. cbn. by rewrite H1, H2, H3.
Qed.

(** A reader that does not look at the handler. *)
Definition reads (read : CommandRunResult -> HookRunStatus * list HookOutputEntry * T) : Prop :=
  forall handler run_result turn_id,
    parse handler run_result turn_id =
    (let '(status, entries, data) := read run_result in
     Some (mkParsed (mkCompleted turn_id (completed_summary handler run_result status entries)) data 0)).

Lemma length_runs handlers : length (runs handlers) = length handlers.
Proof. apply length_imap. Qed.

Lemma execute_reads read handlers :
  reads read ->
  exists results ranks, execute_handlers world shell handlers input_json cwd turn_id parse = Some results /\
    ranked (scheduler world) (length handlers) ranks /\ map completion_order results = ranks /\
    map data results = map (fun r => (read r).2) (runs handlers) /\
    map (fun p => run_id_ (completed_run (completed p))) results = map run_id handlers.
Proof.
  intros Hread. destruct (execute_reads_at (fun _ => read) handlers) as (results & ranks & He & Hr & Hk & Hd & Hi).
  { intros handler r t _. apply Hread. }
  exists results, ranks. do 3 (split; [done|]). split; [|done]. rewrite Hd.
  pose proof (length_runs handlers) as Hl. revert Hl. generalize (runs handlers). clear.
  induction handlers as [|h handlers IH]; intros [|r l] Hl; try done. cbn. by rewrite IH by (by injection Hl).
Qed.
End Execute.

(** A denial or a block found first in a list of answers. *)
Lemma head_omap {A B} (f : A -> option B) (l : list A) b :
  head (omap f l) = Some b <->
  exists i a, l !! i = Some a /\ f a = Some b /\ forall j a', j < i -> l !! j = Some a' -> f a' = None.
Proof.
  induction l as [|x l IH].
  - split; [done|]. intros (i & a & Ha & _). done.
  - cbn. destruct (f x) as [y|] eqn:E; cbn.
    + split.
      * intros [= <-]. exists 0, x. split; [done|]. split; [done|]. intros j a' Hj. lia.
      * intros ([|i] & a & Ha & Hb & Hn); cbn in Ha; [by simplify_eq|].
        specialize (Hn 0 x). rewrite E in Hn. discriminate Hn; [lia|done].
    + rewrite IH. split.
      * intros (i & a & Ha & Hb & Hn). exists (S i), a. split; [done|]. split; [done|].
        intros [|j] a' Hj Ha'; [by simplify_eq/=|]. apply (Hn j); [lia|done].
      * intros ([|i] & a & Ha & Hb & Hn); cbn in Ha; [by simplify_eq|]. exists i, a. split; [done|]. split; [done|].
        intros j a' Hj Ha'. apply (Hn (S j)); [lia|done].
Qed.

Lemma selects_iff regex handler inputs :
  match inputs with
  | [] => matches_matcher regex (matcher handler) None
  | _ => existsb (fun input => matches_matcher regex (matcher handler) (Some input)) inputs
  end = true <->
  matcher handler = None \/ (inputs = [] /\ matches_matcher regex (matcher handler) None = true) \/
  exists input, input ∈ inputs /\ matches_matcher regex (matcher handler) (Some input) = true.
Proof.
  assert (matcher handler = None -> forall input, matches_matcher regex (matcher handler) input = true) as Hnone by (by intros ->).
  destruct inputs as [|x inputs].
  - split; [auto|]. intros [Hm|[[_ Hm]|(y & Hy & _)]]; [by apply Hnone|done|by apply elem_of_nil in Hy].
  - rewrite existsb_exists. split.
    + intros (y & Hy & Hm). right. right. exists y. by rewrite list_elem_of_In.
    + intros [Hm|[[? _]|(y & Hy & Hm)]]; [|done|].
      * exists x. split; [by left|by apply Hnone].
      * exists y. by rewrite <- list_elem_of_In.
Qed.

(** ** Theorem *)

(** C29: The handlers an event selects are run once each, whatever the order in which they finish: the handlers selected
    are those configured, in their order, for the event whose matcher accepts one of the names of the call; the results
    come in the order of the configuration, each read from the run of its handler, and number the runs by the order in
    which they finished; every order of finishing is possible. *)
Theorem hooks_run_once {T} regex configured name inputs (world : World) shell input_json cwd turn_id
    (parse : ConfiguredHandler -> CommandRunResult -> option str -> option (ParsedHandler T)) :
  let handlers := select_handlers_for_matcher_inputs regex configured name inputs in
  handlers `sublist_of` configured /\
  (forall handler, handler ∈ handlers <-> handler ∈ configured /\ event_name handler = name /\
     (matcher_pattern_for_event name (matcher handler) = None \/
      (inputs = [] /\ matches_matcher regex (matcher handler) None = true) \/
      exists input, input ∈ inputs /\ matches_matcher regex (matcher handler) (Some input) = true)) /\
  match outcomes world shell input_json cwd turn_id parse handlers with
  | None => execute_handlers world shell handlers input_json cwd turn_id parse = None
  | Some parsed => exists ranks, ranked (scheduler world) (length handlers) ranks /\
      execute_handlers world shell handlers input_json cwd turn_id parse = Some (zip_with set_completion_order parsed ranks)
  end /\
  (forall order, order ≡ₚ seq 0 (length handlers) -> exists sched, finish_order sched (length handlers) = order).
Proof.
  intros handlers. split; [|split; [|split]].
  - unfold handlers, select_handlers_for_matcher_inputs. etransitivity; apply filter_sublist.
  - intros handler. unfold handlers, select_handlers_for_matcher_inputs.
    rewrite !list_elem_of_In, !filter_In, <- !list_elem_of_In, bool_decide_eq_true.
    assert (forall (P Q R : Prop), (Q <-> R) -> ((P /\ Q) <-> (P /\ R))) as Hcong by tauto.
    rewrite (and_assoc (handler ∈ configured)). apply Hcong.
    destruct (decide (matcher_pattern_for_event name (matcher handler) = None /\ (name = UserPromptSubmit \/ name = Stop)))
      as [[_ [-> | ->]]|Hn]; [split; intros; [by left|done]..|].
    destruct name; try (destruct Hn; by auto); apply (selects_iff regex handler inputs).
  - apply execute_handlers_spec.
  - intros order Ho. destruct (completions_any (seq 0 (length handlers)) order Ho) as [sched Hs].
    exists sched. rewrite length_seq in Hs. exact Hs.
Qed.

End HookDispatch.
