(* ===== verification/HookOutput.v ===== *)
(** * What hooks write: hooks/src/schema.rs and engine/output_parser.rs

    The JSON that hooks are given and that they answer with, as records, and the interpretation of the answers.  Reading
    a JSON text and the derived (de)serialisation of the records are the class [HookCodec]. *)

From S2P Require Import Prelude Text ResponseItems HookTypes HookDispatch.

Module HookOutput.
Import ResponseItems HookTypes HookDispatch.

Definition is_some {A} (o : option A) : bool := match o with Some _ => true | None => false end.

(** [Option::or_else]. *)
Definition or_else {A} (o p : option A) : option A := match o with Some _ => o | None => p end.

(** ** Answers, as they are written *)

(** [codex-rs/hooks/src/schema.rs:83-92 HookUniversalOutputWire] *)
Record HookUniversalOutputWire := mkUniversalWire {
  w_continue : bool; w_stop_reason : option str; w_suppress_output : bool; w_system_message : option str
}.

(** [codex-rs/hooks/src/schema.rs:249-256 PreToolUsePermissionDecisionWire] *)
Inductive PreToolUsePermissionDecisionWire := PermissionAllow | PermissionDeny | PermissionAsk.

(** [codex-rs/hooks/src/schema.rs:259-264 PreToolUseDecisionWire] *)
Inductive PreToolUseDecisionWire := Approve | Block.

(** [codex-rs/hooks/src/schema.rs:235-246 PreToolUseHookSpecificOutputWire] The name of the event is required but not
    read. *)
Record PreToolUseHookSpecificOutputWire := mkPreSpecific {
  ps_hook_event_name : HookEventName;
  ps_permission_decision : option PreToolUsePermissionDecisionWire;
  ps_permission_decision_reason : option str;
  ps_updated_input : option Json;
  ps_additional_context : option str
}.

(** [codex-rs/hooks/src/schema.rs:122-131 PreToolUseCommandOutputWire] *)
Record PreToolUseCommandOutputWire := mkPreWire {
  pw_universal : HookUniversalOutputWire;
  pw_decision : option PreToolUseDecisionWire;
  pw_reason : option str;
  pw_hook_specific_output : option PreToolUseHookSpecificOutputWire
}.

(** [codex-rs/hooks/src/schema.rs:473-476 BlockDecisionWire] *)
Inductive BlockDecisionWire := BlockDecision.

(** [codex-rs/hooks/src/schema.rs:222-230 PostToolUseHookSpecificOutputWire] *)
Record PostToolUseHookSpecificOutputWire := mkPostSpecific {
  os_hook_event_name : HookEventName; os_additional_context : option str; os_updated_mcp_tool_output : option Json
}.

(** [codex-rs/hooks/src/schema.rs:137-146 PostToolUseCommandOutputWire] *)
Record PostToolUseCommandOutputWire := mkPostWire {
  ow_universal : HookUniversalOutputWire;
  ow_decision : option BlockDecisionWire;
  ow_reason : option str;
  ow_hook_specific_output : option PostToolUseHookSpecificOutputWire
}.

(** [codex-rs/hooks/src/schema.rs:212-217 PermissionRequestBehaviorWire] *)
Inductive PermissionRequestBehaviorWire := BehaviorAllow | BehaviorDeny.

(** [codex-rs/hooks/src/schema.rs:190-209 PermissionRequestDecisionWire] *)
Record PermissionRequestDecisionWire := mkDecisionWire {
  dw_behavior : PermissionRequestBehaviorWire;
  dw_updated_input : option Json;
  dw_updated_permissions : option Json;
  dw_message : option str;
  dw_interrupt : bool
}.

(** [codex-rs/hooks/src/schema.rs:175-185 PermissionRequestHookSpecificOutputWire] *)
Record PermissionRequestHookSpecificOutputWire := mkRequestSpecific {
  rs_hook_event_name : HookEventName; rs_decision : option PermissionRequestDecisionWire
}.

(** [codex-rs/hooks/src/schema.rs:152-157 PermissionRequestCommandOutputWire] *)
Record PermissionRequestCommandOutputWire := mkRequestWire {
  rw_universal : HookUniversalOutputWire; rw_hook_specific_output : option PermissionRequestHookSpecificOutputWire
}.

(** [codex-rs/hooks/src/schema.rs:389-394 SessionStartHookSpecificOutputWire] The specific outputs of a session's start,
    a subagent's start and a prompt have the same fields. *)
Record ContextSpecificOutputWire := mkContextSpecific {
  cs_hook_event_name : HookEventName; cs_additional_context : option str
}.

(** [codex-rs/hooks/src/schema.rs:379-384 SessionStartCommandOutputWire] and [SubagentStartCommandOutputWire]. *)
Record SessionStartCommandOutputWire := mkStartWire {
  sw_universal : HookUniversalOutputWire; sw_hook_specific_output : option ContextSpecificOutputWire
}.

(** [codex-rs/hooks/src/schema.rs:421-430 UserPromptSubmitCommandOutputWire] *)
Record UserPromptSubmitCommandOutputWire := mkPromptWire {
  uw_universal : HookUniversalOutputWire;
  uw_decision : option BlockDecisionWire;
  uw_reason : option str;
  uw_hook_specific_output : option ContextSpecificOutputWire
}.

(** [codex-rs/hooks/src/schema.rs:446-455 StopCommandOutputWire] and [SubagentStopCommandOutputWire], which has the same
    fields. *)
Record StopCommandOutputWire := mkStopWire {
  tw_universal : HookUniversalOutputWire; tw_decision : option BlockDecisionWire; tw_reason : option str
}.

(** ** What hooks are given *)

(** [codex-rs/hooks/src/schema.rs:63-66 SubagentCommandInputFields] *)
Record SubagentCommandInputFields := mkFields { field_agent_id : option str; field_agent_type : option str }.

(** [codex-rs/hooks/src/schema.rs:69-77 SubagentCommandInputFields::from] *)
Definition subagent_fields (value : option SubagentHookContext) : SubagentCommandInputFields :=
  match value with
  | Some context => mkFields (Some (agent_id context)) (Some (agent_type context))
  | None => mkFields None None
  end.

(** [codex-rs/hooks/src/schema.rs:269-287 PreToolUseCommandInput] A [NullableString] is an optional text. *)
Record PreToolUseCommandInput := mkPreInput {
  pi_session_id : str; pi_turn_id : str; pi_agent_id : option str; pi_agent_type : option str;
  pi_transcript_path : option str; pi_cwd : str; pi_hook_event_name : str; pi_model : str; pi_permission_mode : str;
  pi_tool_name : str; pi_tool_input : Json; pi_tool_use_id : str
}.

(** [codex-rs/hooks/src/schema.rs:292-309 PermissionRequestCommandInput] *)
Record PermissionRequestCommandInput := mkRequestInput {
  ri_session_id : str; ri_turn_id : str; ri_agent_id : option str; ri_agent_type : option str;
  ri_transcript_path : option str; ri_cwd : str; ri_hook_event_name : str; ri_model : str; ri_permission_mode : str;
  ri_tool_name : str; ri_tool_input : Json
}.

(** [codex-rs/hooks/src/schema.rs:314-333 PostToolUseCommandInput] *)
Record PostToolUseCommandInput := mkPostInput {
  oi_session_id : str; oi_turn_id : str; oi_agent_id : option str; oi_agent_type : option str;
  oi_transcript_path : option str; oi_cwd : str; oi_hook_event_name : str; oi_model : str; oi_permission_mode : str;
  oi_tool_name : str; oi_tool_input : Json; oi_tool_response : Json; oi_tool_use_id : str
}.

(** [codex-rs/hooks/src/schema.rs:338-353 PreCompactCommandInput] and [PostCompactCommandInput], which has the same
    fields. *)
Record CompactCommandInput := mkCompactInput {
  ci_session_id : str; ci_turn_id : str; ci_agent_id : option str; ci_agent_type : option str;
  ci_transcript_path : option str; ci_cwd : str; ci_hook_event_name : str; ci_model : str; ci_trigger : str
}.

(** [codex-rs/hooks/src/schema.rs:479-492 SessionStartCommandInput] *)
Record SessionStartCommandInput := mkStartInput {
  si_session_id : str; si_transcript_path : option str; si_cwd : str; si_hook_event_name : str; si_model : str;
  si_permission_mode : str; si_source : str
}.

(** [codex-rs/hooks/src/schema.rs:495-512 SessionStartCommandInput::new] *)
Definition new_start_input (session_id : str) (transcript_path : option str) (cwd model permission_mode source : str)
    : SessionStartCommandInput :=
  mkStartInput session_id transcript_path cwd (lit "SessionStart") model permission_mode source.

(** [codex-rs/hooks/src/schema.rs:518-531 SubagentStartCommandInput] *)
Record SubagentStartCommandInput := mkSubagentStartInput {
  bi_session_id : str; bi_turn_id : str; bi_transcript_path : option str; bi_cwd : str; bi_hook_event_name : str;
  bi_model : str; bi_permission_mode : str; bi_agent_id : str; bi_agent_type : str
}.

(** [codex-rs/hooks/src/schema.rs:536-552 UserPromptSubmitCommandInput] *)
Record UserPromptSubmitCommandInput := mkPromptInput {
  ui_session_id : str; ui_turn_id : str; ui_agent_id : option str; ui_agent_type : option str;
  ui_transcript_path : option str; ui_cwd : str; ui_hook_event_name : str; ui_model : str; ui_permission_mode : str;
  ui_prompt : str
}.

(** [codex-rs/hooks/src/schema.rs:557-570 StopCommandInput] *)
Record StopCommandInput := mkStopInput {
  ti_session_id : str; ti_turn_id : str; ti_transcript_path : option str; ti_cwd : str; ti_hook_event_name : str;
  ti_model : str; ti_permission_mode : str; ti_stop_hook_active : bool; ti_last_assistant_message : option str
}.

(** [codex-rs/hooks/src/schema.rs:575-591 SubagentStopCommandInput] *)
Record SubagentStopCommandInput := mkSubagentStopInput {
  di_session_id : str; di_turn_id : str; di_transcript_path : option str; di_agent_transcript_path : option str;
  di_cwd : str; di_hook_event_name : str; di_model : str; di_permission_mode : str; di_stop_hook_active : bool;
  di_agent_id : str; di_agent_type : str; di_last_assistant_message : option str
}.

(** [serde_json::from_str], the derived readers of the answers and the derived writers of the inputs. *)
Class HookCodec := {
  from_str : str -> option Json;
  read_pre_tool_use : Json -> option PreToolUseCommandOutputWire;
  read_permission_request : Json -> option PermissionRequestCommandOutputWire;
  read_post_tool_use : Json -> option PostToolUseCommandOutputWire;
  read_pre_compact : Json -> option HookUniversalOutputWire;
  read_post_compact : Json -> option HookUniversalOutputWire;
  read_session_start : Json -> option SessionStartCommandOutputWire;
  read_subagent_start : Json -> option SessionStartCommandOutputWire;
  read_user_prompt_submit : Json -> option UserPromptSubmitCommandOutputWire;
  read_stop : Json -> option StopCommandOutputWire;
  read_subagent_stop : Json -> option StopCommandOutputWire;
  write_pre_tool_use : PreToolUseCommandInput -> result str str;
  write_permission_request : PermissionRequestCommandInput -> result str str;
  write_post_tool_use : PostToolUseCommandInput -> result str str;
  write_pre_compact : CompactCommandInput -> result str str;
  write_post_compact : CompactCommandInput -> result str str;
  write_session_start : SessionStartCommandInput -> result str str;
  write_subagent_start : SubagentStartCommandInput -> result str str;
  write_user_prompt_submit : UserPromptSubmitCommandInput -> result str str;
  write_stop : StopCommandInput -> result str str;
  write_subagent_stop : SubagentStopCommandInput -> result str str
}.

(** ** Answers, as they are understood *)

(** [codex-rs/hooks/src/engine/output_parser.rs:1-7 UniversalOutput] *)
Record UniversalOutput := mkUniversal {
  continue_processing : bool; stop_reason : option str; suppress_output : bool; system_message : option str
}.

(** [codex-rs/hooks/src/engine/output_parser.rs:9-13 SessionStartOutput] *)
Record SessionStartOutput := mkStartOutput { start_universal : UniversalOutput; start_additional_context : option str }.

(** [codex-rs/hooks/src/engine/output_parser.rs:15-22 PreToolUseOutput] *)
Record PreToolUseOutput := mkPreOutput {
  pre_universal : UniversalOutput;
  pre_block_reason : option str;
  pre_additional_context : option str;
  pre_updated_input : option Json;
  pre_invalid_reason : option str
}.

(** [codex-rs/hooks/src/engine/output_parser.rs:24-28 PermissionRequestDecision] *)
Inductive PermissionRequestDecision := Allow | Deny (message : str).

#[global] Instance PermissionRequestDecision_eq_dec : EqDecision PermissionRequestDecision.
Proof. solve_decision. Defined.

(** [codex-rs/hooks/src/engine/output_parser.rs:30-35 PermissionRequestOutput] *)
Record PermissionRequestOutput := mkRequestOutput {
  request_universal : UniversalOutput;
  request_decision : option PermissionRequestDecision;
  request_invalid_reason : option str
}.

(** [codex-rs/hooks/src/engine/output_parser.rs:37-45 PostToolUseOutput] *)
Record PostToolUseOutput := mkPostOutput {
  post_universal : UniversalOutput;
  post_should_block : bool;
  post_reason : option str;
  post_invalid_block_reason : option str;
  post_additional_context : option str;
  post_invalid_reason : option str
}.

(** [codex-rs/hooks/src/engine/output_parser.rs:47-54 UserPromptSubmitOutput] *)
Record UserPromptSubmitOutput := mkPromptOutput {
  prompt_universal : UniversalOutput;
  prompt_should_block : bool;
  prompt_reason : option str;
  prompt_invalid_block_reason : option str;
  prompt_additional_context : option str
}.

(** [codex-rs/hooks/src/engine/output_parser.rs:56-62 StopOutput] *)
Record StopOutput := mkStopOutput {
  stop_universal : UniversalOutput;
  stop_should_block : bool;
  stop_output_reason : option str;
  stop_invalid_block_reason : option str
}.

(** [codex-rs/hooks/src/engine/output_parser.rs:65-68 PreCompactOutput] and [StatelessHookOutput], which has the same
    fields. *)
Record CompactOutput := mkCompactOutput { compact_universal : UniversalOutput; compact_invalid_reason : option str }.

(** [codex-rs/hooks/src/engine/output_parser.rs:328-335 UniversalOutput::from] *)
Definition universal_from (value : HookUniversalOutputWire) : UniversalOutput :=
  mkUniversal (w_continue value) (w_stop_reason value) (w_suppress_output value) (w_system_message value).

(** [codex-rs/hooks/src/engine/output_parser.rs:111-119 session_start_output] *)
Definition session_start_output (universal : HookUniversalOutputWire) (additional_context : option str)
    : SessionStartOutput := mkStartOutput (universal_from universal) additional_context.

(** [codex-rs/hooks/src/engine/output_parser.rs:353-356 looks_like_json] *)
Definition looks_like_json (stdout : str) : bool :=
  let trimmed := trim_start stdout in starts_with (lit "{") trimmed || starts_with (lit "[") trimmed.

(** [codex-rs/hooks/src/engine/output_parser.rs:358-360 invalid_block_message] *)
Definition invalid_block_message (event_name : str) : str :=
  event_name ++ lit " hook returned decision:block without a non-empty reason".

(** [codex-rs/hooks/src/engine/output_parser.rs:507-514 trimmed_reason] *)
Definition trimmed_reason (reason : str) : option str := match trim reason with [] => None | trimmed => Some trimmed end.

(** [codex-rs/hooks/src/engine/output_parser.rs:362-372 unsupported_pre_tool_use_universal] *)
Definition unsupported_pre_tool_use_universal (universal : UniversalOutput) : option str :=
  if negb (continue_processing universal) then Some (lit "PreToolUse hook returned unsupported continue:false")
  else if is_some (stop_reason universal) then Some (lit "PreToolUse hook returned unsupported stopReason")
  else if suppress_output universal then Some (lit "PreToolUse hook returned unsupported suppressOutput")
  else None.

(** [codex-rs/hooks/src/engine/output_parser.rs:374-384 unsupported_permission_request_universal] *)
Definition unsupported_permission_request_universal (universal : UniversalOutput) : option str :=
  if negb (continue_processing universal) then Some (lit "PermissionRequest hook returned unsupported continue:false")
  else if is_some (stop_reason universal) then Some (lit "PermissionRequest hook returned unsupported stopReason")
  else if suppress_output universal then Some (lit "PermissionRequest hook returned unsupported suppressOutput")
  else None.

(** [codex-rs/hooks/src/engine/output_parser.rs:386-392 unsupported_post_tool_use_universal] *)
Definition unsupported_post_tool_use_universal (universal : UniversalOutput) : option str :=
  if suppress_output universal then Some (lit "PostToolUse hook returned unsupported suppressOutput") else None.

(** [codex-rs/hooks/src/engine/output_parser.rs:394-407 unsupported_permission_request_hook_specific_output] *)
Definition unsupported_permission_request_hook_specific_output (decision : option PermissionRequestDecisionWire)
    : option str :=
  decision ← decision;
  if is_some (dw_updated_input decision) then Some (lit "PermissionRequest hook returned unsupported updatedInput")
  else if is_some (dw_updated_permissions decision)
  then Some (lit "PermissionRequest hook returned unsupported updatedPermissions")
  else if dw_interrupt decision then Some (lit "PermissionRequest hook returned unsupported interrupt:true")
  else None.

(** [codex-rs/hooks/src/engine/output_parser.rs:409-422 permission_request_decision] *)
Definition permission_request_decision (decision : PermissionRequestDecisionWire) : PermissionRequestDecision :=
  match dw_behavior decision with
  | BehaviorAllow => Allow
  | BehaviorDeny =>
      Deny (default (lit "PermissionRequest hook denied approval") (message ← dw_message decision; trimmed_reason message))
  end.

(** [codex-rs/hooks/src/engine/output_parser.rs:424-432 unsupported_post_tool_use_hook_specific_output] *)
Definition unsupported_post_tool_use_hook_specific_output (output : PostToolUseHookSpecificOutputWire) : option str :=
  if is_some (os_updated_mcp_tool_output output)
  then Some (lit "PostToolUse hook returned unsupported updatedMCPToolOutput") else None.

(** [codex-rs/hooks/src/engine/output_parser.rs:502-505 invalid_pre_tool_use_reason_message] *)
Definition invalid_pre_tool_use_reason_message : str :=
  lit "PreToolUse hook returned permissionDecision:deny without a non-empty permissionDecisionReason".

(** [codex-rs/hooks/src/engine/output_parser.rs:434-475 unsupported_pre_tool_use_hook_specific_output] *)
Definition unsupported_pre_tool_use_hook_specific_output (output : PreToolUseHookSpecificOutputWire) : option str :=
  match ps_updated_input output, ps_permission_decision output with
  | Some _, (None | Some PermissionDeny | Some PermissionAsk) =>
      Some (lit "PreToolUse hook returned updatedInput without permissionDecision:allow")
  | Some _, Some PermissionAllow => None
  | None, Some PermissionAllow => Some (lit "PreToolUse hook returned unsupported permissionDecision:allow")
  | None, Some PermissionAsk => Some (lit "PreToolUse hook returned unsupported permissionDecision:ask")
  | None, Some PermissionDeny =>
      match (reason ← ps_permission_decision_reason output; trimmed_reason reason) with
      | None => Some invalid_pre_tool_use_reason_message
      | Some _ => None
      end
  | None, None =>
      if is_some (ps_permission_decision_reason output)
      then Some (lit "PreToolUse hook returned permissionDecisionReason without permissionDecision") else None
  end.

(** [codex-rs/hooks/src/engine/output_parser.rs:477-500 unsupported_pre_tool_use_legacy_decision] *)
Definition unsupported_pre_tool_use_legacy_decision (decision : option PreToolUseDecisionWire) (reason : option str)
    : option str :=
  match decision with
  | Some Approve => Some (lit "PreToolUse hook returned unsupported decision:approve")
  | Some Block =>
      match (reason ← reason; trimmed_reason reason) with
      | None => Some (invalid_block_message (lit "PreToolUse"))
      | Some _ => None
      end
  | None => if is_some reason then Some (lit "PreToolUse hook returned reason without decision") else None
  end.

(** A block without a reason: [match wire.reason.as_deref() { Some(reason) => reason.trim().is_empty(), None => true }]. *)
Definition blank_reason (reason : option str) : bool :=
  match reason with Some reason => bool_decide (trim reason = []) | None => true end.

(** [codex-rs/hooks/src/engine/output_parser.rs:303-325 stop_output] *)
Definition stop_output (universal : HookUniversalOutputWire) (decision : option BlockDecisionWire) (reason : option str)
    (event_name : str) : StopOutput :=
  let should_block := is_some decision in
  let invalid_block_reason := if should_block && blank_reason reason then Some (invalid_block_message event_name) else None in
  mkStopOutput (universal_from universal) (should_block && negb (is_some invalid_block_reason)) reason invalid_block_reason.

Section Parsing.
Context `{HookCodec}.

(** [codex-rs/hooks/src/engine/output_parser.rs:338-351 parse_json] *)
Definition parse_json {T} (read : Json -> option T) (stdout : str) : option T :=
  match trim stdout with
  | [] => None
  | trimmed =>
      value ← from_str trimmed;
      match value with JObject _ => read value | _ => None end
  end.

(** [codex-rs/hooks/src/engine/output_parser.rs:93-100 parse_session_start] *)
Definition parse_session_start (stdout : str) : option SessionStartOutput :=
  wire ← parse_json read_session_start stdout;
  Some (session_start_output (sw_universal wire) (output ← sw_hook_specific_output wire; cs_additional_context output)).

(** [codex-rs/hooks/src/engine/output_parser.rs:102-109 parse_subagent_start] *)
Definition parse_subagent_start (stdout : str) : option SessionStartOutput :=
  wire ← parse_json read_subagent_start stdout;
  Some (session_start_output (sw_universal wire) (output ← sw_hook_specific_output wire; cs_additional_context output)).

(** [codex-rs/hooks/src/engine/output_parser.rs:121-182 parse_pre_tool_use] *)
Definition parse_pre_tool_use (stdout : str) : option PreToolUseOutput :=
  wire ← parse_json read_pre_tool_use stdout;
  let universal := universal_from (pw_universal wire) in
  let hook_specific_output := pw_hook_specific_output wire in
  let additional_context := output ← hook_specific_output; ps_additional_context output in
  let use_hook_specific_decision :=
    match hook_specific_output with
    | Some output => is_some (ps_permission_decision output) || is_some (ps_permission_decision_reason output)
                     || is_some (ps_updated_input output)
    | None => false
    end in
  let invalid_reason :=
    or_else (unsupported_pre_tool_use_universal universal)
      (if use_hook_specific_decision
       then (output ← hook_specific_output; unsupported_pre_tool_use_hook_specific_output output)
       else unsupported_pre_tool_use_legacy_decision (pw_decision wire) (pw_reason wire)) in
  let block_reason :=
    if negb (is_some invalid_reason) then
      if use_hook_specific_decision then
        output ← hook_specific_output;
        match ps_permission_decision output with
        | Some PermissionDeny => reason ← ps_permission_decision_reason output; trimmed_reason reason
        | _ => None
        end
      else match pw_decision wire with
           | Some Block => reason ← pw_reason wire; trimmed_reason reason
           | Some Approve | None => None
           end
    else None in
  let updated_input :=
    if negb (is_some invalid_reason) then
      output ← hook_specific_output;
      match ps_permission_decision output with Some PermissionAllow => ps_updated_input output | _ => None end
    else None in
  Some (mkPreOutput universal block_reason additional_context updated_input invalid_reason).

(** [codex-rs/hooks/src/engine/output_parser.rs:184-205 parse_permission_request] *)
Definition parse_permission_request (stdout : str) : option PermissionRequestOutput :=
  wire ← parse_json read_permission_request stdout;
  let universal := universal_from (rw_universal wire) in
  let hook_specific_output := rw_hook_specific_output wire in
  let decision := output ← hook_specific_output; rs_decision output in
  let invalid_reason :=
    or_else (unsupported_permission_request_universal universal)
      (output ← hook_specific_output; unsupported_permission_request_hook_specific_output (rs_decision output)) in
  let decision := if negb (is_some invalid_reason) then permission_request_decision <$> decision else None in
  Some (mkRequestOutput universal decision invalid_reason).

(** [codex-rs/hooks/src/engine/output_parser.rs:206-239 parse_post_tool_use] *)
Definition parse_post_tool_use (stdout : str) : option PostToolUseOutput :=
  wire ← parse_json read_post_tool_use stdout;
  let universal := universal_from (ow_universal wire) in
  let invalid_reason :=
    or_else (unsupported_post_tool_use_universal universal)
      (output ← ow_hook_specific_output wire; unsupported_post_tool_use_hook_specific_output output) in
  let should_block := is_some (ow_decision wire) in
  let invalid_block_reason :=
    if should_block && blank_reason (ow_reason wire) then Some (invalid_block_message (lit "PostToolUse"))
    else if negb should_block && continue_processing universal && is_some (ow_reason wire)
    then Some (lit "PostToolUse hook returned reason without decision")
    else None in
  let additional_context := output ← ow_hook_specific_output wire; os_additional_context output in
  Some (mkPostOutput universal (should_block && negb (is_some invalid_reason) && negb (is_some invalid_block_reason))
          (ow_reason wire) invalid_block_reason additional_context invalid_reason).

(** [codex-rs/hooks/src/engine/output_parser.rs:241-248 parse_pre_compact] *)
Definition parse_pre_compact (stdout : str) : option CompactOutput :=
  universal ← parse_json read_pre_compact stdout; Some (mkCompactOutput (universal_from universal) None).

(** [codex-rs/hooks/src/engine/output_parser.rs:250-257 parse_post_compact] *)
Definition parse_post_compact (stdout : str) : option CompactOutput :=
  universal ← parse_json read_post_compact stdout; Some (mkCompactOutput (universal_from universal) None).

(** [codex-rs/hooks/src/engine/output_parser.rs:259-281 parse_user_prompt_submit] *)
Definition parse_user_prompt_submit (stdout : str) : option UserPromptSubmitOutput :=
  wire ← parse_json read_user_prompt_submit stdout;
  let should_block := is_some (uw_decision wire) in
  let invalid_block_reason :=
    if should_block && blank_reason (uw_reason wire) then Some (invalid_block_message (lit "UserPromptSubmit")) else None in
  let additional_context := output ← uw_hook_specific_output wire; cs_additional_context output in
  Some (mkPromptOutput (universal_from (uw_universal wire)) (should_block && negb (is_some invalid_block_reason))
          (uw_reason wire) invalid_block_reason additional_context).

(** [codex-rs/hooks/src/engine/output_parser.rs:283-291 parse_stop] *)
Definition parse_stop (stdout : str) : option StopOutput :=
  wire ← parse_json read_stop stdout; Some (stop_output (tw_universal wire) (tw_decision wire) (tw_reason wire) (lit "Stop")).

(** [codex-rs/hooks/src/engine/output_parser.rs:293-301 parse_subagent_stop] *)
Definition parse_subagent_stop (stdout : str) : option StopOutput :=
  wire ← parse_json read_subagent_stop stdout;
  Some (stop_output (tw_universal wire) (tw_decision wire) (tw_reason wire) (lit "SubagentStop")).
End Parsing.

End HookOutput.
