(* ===== verification/HookToolEvents.v ===== *)
(** * Hooks of tool calls: hooks/src/events/permission_request.rs, pre_tool_use.rs and post_tool_use.rs

    The hooks that are asked before a tool runs, when approval of it is asked for, and after it has run: what each run
    is taken to say, and how the answers of all of them are combined. *)

From S2P Require Import Prelude Text ResponseItems HookTypes HookDispatch HookOutput.

Module HookToolEvents.
Import ResponseItems HookTypes HookDispatch HookOutput.

(** [vec![HookOutputEntry { kind, text }]] for an optional text. *)
Definition entry_if (kind : HookOutputEntryKind) (text : option str) : list HookOutputEntry :=
  match text with Some text => [Entry kind text] | None => [] end.

Definition exited_with (code : Z) : str := lit "hook exited with code " ++ show_Z code.

Section Events.
Context `{HookCodec} (regex : str -> result str (str -> bool)).

(** ** Permission requests *)

(** [codex-rs/hooks/src/events/permission_request.rs:36-48 PermissionRequestRequest] *)
Record PermissionRequestRequest := mkPermissionRequest {
  pr_session_id : str; pr_turn_id : str; pr_subagent : option SubagentHookContext; pr_cwd : str;
  pr_transcript_path : option str; pr_model : str; pr_permission_mode : str; pr_tool_name : str;
  pr_matcher_aliases : list str; pr_run_id_suffix : str; pr_tool_input : Json
}.

(** [codex-rs/hooks/src/events/permission_request.rs:57-60 PermissionRequestOutcome] *)
Record PermissionRequestOutcome := mkPermissionOutcome {
  po_hook_events : list HookCompletedEvent; po_decision : option PermissionRequestDecision
}.

(** [codex-rs/hooks/src/events/permission_request.rs:63-65 PermissionRequestHandlerData] *)
Record PermissionRequestHandlerData := mkPermissionData { pd_decision : option PermissionRequestDecision }.

(** [codex-rs/hooks/src/events/permission_request.rs:67-85 preview] *)
Definition preview_permission_request (now : Z) (handlers : list ConfiguredHandler) (request : PermissionRequestRequest)
    : list HookRunSummary :=
  map (fun handler => hook_run_for_tool_use (running_summary now handler) (pr_run_id_suffix request))
    (select_handlers_for_matcher_inputs regex handlers PermissionRequest
       (matcher_inputs (pr_tool_name request) (pr_matcher_aliases request))).

(** [codex-rs/hooks/src/events/permission_request.rs:153-170 resolve_permission_request_decision] the loop, with the
    allow found so far. *)
Fixpoint resolve_decisions (resolved_allow : option PermissionRequestDecision) (decisions : list PermissionRequestDecision)
    : option PermissionRequestDecision :=
  match decisions with
  | [] => resolved_allow
  | Allow :: decisions => resolve_decisions (Some Allow) decisions
  | Deny message :: _ => Some (Deny message)
  end.

(** [codex-rs/hooks/src/events/permission_request.rs:153-170 resolve_permission_request_decision] *)
Definition resolve_permission_request_decision (decisions : list PermissionRequestDecision)
    : option PermissionRequestDecision := resolve_decisions None decisions.

(** [codex-rs/hooks/src/events/permission_request.rs:172-187 build_command_input] *)
Definition build_command_input (request : PermissionRequestRequest) : PermissionRequestCommandInput :=
  let subagent := subagent_fields (pr_subagent request) in
  mkRequestInput (pr_session_id request) (pr_turn_id request) (field_agent_id subagent) (field_agent_type subagent)
    (pr_transcript_path request) (pr_cwd request) (lit "PermissionRequest") (pr_model request)
    (pr_permission_mode request) (pr_tool_name request) (pr_tool_input request).

(** [codex-rs/hooks/src/events/permission_request.rs:189-291 parse_completed] what a run says: its status, its entries
    and its decision. *)
Definition read_permission_run (run_result : CommandRunResult)
    : HookRunStatus * list HookOutputEntry * option PermissionRequestDecision :=
  match error run_result with
  | Some error => (RunFailed, [Entry KindError error], None)
  | None =>
      match exit_code run_result with
      | Some code =>
          if (code =? 0)%Z then
            match trim (stdout run_result) with
            | [] => (RunCompleted, [], None)
            | _ =>
                match parse_permission_request (stdout run_result) with
                | Some parsed =>
                    let entries := entry_if KindWarning (system_message (request_universal parsed)) in
                    match request_invalid_reason parsed with
                    | Some invalid_reason => (RunFailed, entries ++ [Entry KindError invalid_reason], None)
                    | None =>
                        match request_decision parsed with
                        | Some Allow => (RunCompleted, entries, Some Allow)
                        | Some (Deny message) => (RunBlocked, entries ++ [Entry KindFeedback message], Some (Deny message))
                        | None => (RunCompleted, entries, None)
                        end
                    end
                | None =>
                    if looks_like_json (stdout run_result)
                    then (RunFailed, [Entry KindError (lit "hook returned invalid permission-request JSON output")], None)
                    else (RunCompleted, [], None)
                end
            end
          else if (code =? 2)%Z then
            match trimmed_non_empty (stderr run_result) with
            | Some message => (RunBlocked, [Entry KindFeedback message], Some (Deny message))
            | None =>
                (RunFailed, [Entry KindError (lit "PermissionRequest hook exited with code 2 but did not write a denial reason to stderr")], None)
            end
          else (RunFailed, [Entry KindError (exited_with code)], None)
      | None => (RunFailed, [Entry KindError (lit "hook exited without a status code")], None)
      end
  end.

(** [codex-rs/hooks/src/events/permission_request.rs:189-291 parse_completed] *)
Definition parse_permission_completed (handler : ConfiguredHandler) (run_result : CommandRunResult) (turn_id : option str)
    : option (ParsedHandler PermissionRequestHandlerData) :=
  let '(status, entries, decision) := read_permission_run run_result in
  Some (mkParsed (mkCompleted turn_id (completed_summary handler run_result status entries)) (mkPermissionData decision) 0).

(** [codex-rs/hooks/src/events/permission_request.rs:87-148 run] *)
Definition run_permission_request (world : World) (handlers : list ConfiguredHandler) (shell : CommandShell)
    (request : PermissionRequestRequest) : option PermissionRequestOutcome :=
  let matched := select_handlers_for_matcher_inputs regex handlers PermissionRequest
                   (matcher_inputs (pr_tool_name request) (pr_matcher_aliases request)) in
  match matched with
  | [] => Some (mkPermissionOutcome [] None)
  | _ =>
      match write_permission_request (build_command_input request) with
      | Err error =>
          Some (mkPermissionOutcome
                  (serialization_failure_hook_events_for_tool_use (now world) matched (Some (pr_turn_id request))
                     (lit "failed to serialize permission request hook input: " ++ error) (pr_run_id_suffix request)) None)
      | Ok input_json =>
          results ← execute_handlers world shell matched input_json (pr_cwd request) (Some (pr_turn_id request))
                      parse_permission_completed;
          let decision := resolve_permission_request_decision (omap (fun result => pd_decision (data result)) results) in
          Some (mkPermissionOutcome
                  (map (fun result => hook_completed_for_tool_use (completed result) (pr_run_id_suffix request)) results)
                  decision)
      end
  end.

(** ** Before a tool runs *)

(** [codex-rs/hooks/src/events/pre_tool_use.rs:23-35 PreToolUseRequest] *)
Record PreToolUseRequest := mkPreRequest {
  pt_session_id : str; pt_turn_id : str; pt_subagent : option SubagentHookContext; pt_cwd : str;
  pt_transcript_path : option str; pt_model : str; pt_permission_mode : str; pt_tool_name : str;
  pt_matcher_aliases : list str; pt_tool_use_id : str; pt_tool_input : Json
}.

(** [codex-rs/hooks/src/events/pre_tool_use.rs:38-44 PreToolUseOutcome] *)
Record PreToolUseOutcome := mkPreOutcome {
  pto_hook_events : list HookCompletedEvent;
  pto_should_block : bool;
  pto_block_reason : option str;
  pto_additional_contexts : list str;
  pto_updated_input : option Json
}.

(** [codex-rs/hooks/src/events/pre_tool_use.rs:47-52 PreToolUseHandlerData] *)
Record PreToolUseHandlerData := mkPreData {
  ptd_should_block : bool;
  ptd_block_reason : option str;
  ptd_additional_contexts_for_model : list str;
  ptd_updated_input : option Json
}.

(** [codex-rs/hooks/src/events/pre_tool_use.rs:54-69 preview] *)
Definition preview_pre_tool_use (now : Z) (handlers : list ConfiguredHandler) (request : PreToolUseRequest)
    : list HookRunSummary :=
  map (fun handler => hook_run_for_tool_use (running_summary now handler) (pt_tool_use_id request))
    (select_handlers_for_matcher_inputs regex handlers PreToolUse
       (matcher_inputs (pt_tool_name request) (pt_matcher_aliases request))).

(** [Iterator::max_by_key], which keeps the last of the greatest. *)
Definition max_by_key {A} (key : A -> nat) (l : list A) : option A :=
  foldl (fun best x => match best with Some b => if key x <? key b then Some b else Some x | None => Some x end) None l.

(** [codex-rs/hooks/src/events/pre_tool_use.rs:148-162 latest_updated_input] *)
Definition latest_updated_input (results : list (ParsedHandler PreToolUseHandlerData)) : option Json :=
  snd <$> max_by_key fst (omap (fun result =>
    updated_input ← ptd_updated_input (data result); Some (completion_order result, updated_input)) results).

(** [codex-rs/hooks/src/events/pre_tool_use.rs:170-186 command_input_json] *)
Definition pre_tool_use_input_json (request : PreToolUseRequest) : result str str :=
  let subagent := subagent_fields (pt_subagent request) in
  write_pre_tool_use
    (mkPreInput (pt_session_id request) (pt_turn_id request) (field_agent_id subagent) (field_agent_type subagent)
       (pt_transcript_path request) (pt_cwd request) (lit "PreToolUse") (pt_model request) (pt_permission_mode request)
       (pt_tool_name request) (pt_tool_input request) (pt_tool_use_id request)).

(** [codex-rs/hooks/src/events/pre_tool_use.rs:188-303 parse_completed] what a run says: its status, its entries and
    what it decides. *)
Definition read_pre_tool_use_run (run_result : CommandRunResult)
    : HookRunStatus * list HookOutputEntry * PreToolUseHandlerData :=
  let nothing := mkPreData false None [] None in
  match error run_result with
  | Some error => (RunFailed, [Entry KindError error], nothing)
  | None =>
      match exit_code run_result with
      | Some code =>
          if (code =? 0)%Z then
            match trim (stdout run_result) with
            | [] => (RunCompleted, [], nothing)
            | _ =>
                match parse_pre_tool_use (stdout run_result) with
                | Some parsed =>
                    let entries := entry_if KindWarning (system_message (pre_universal parsed)) in
                    match pre_invalid_reason parsed with
                    | Some invalid_reason => (RunFailed, entries ++ [Entry KindError invalid_reason], nothing)
                    | None =>
                        let '(entries, contexts) :=
                          match pre_additional_context parsed with
                          | Some context => append_additional_context entries [] context
                          | None => (entries, [])
                          end in
                        match pre_block_reason parsed with
                        | Some reason =>
                            (RunBlocked, entries ++ [Entry KindFeedback reason], mkPreData true (Some reason) contexts None)
                        | None => (RunCompleted, entries, mkPreData false None contexts (pre_updated_input parsed))
                        end
                    end
                | None =>
                    if looks_like_json (stdout run_result)
                    then (RunFailed, [Entry KindError (lit "hook returned invalid pre-tool-use JSON output")], nothing)
                    else (RunCompleted, [], nothing)
                end
            end
          else if (code =? 2)%Z then
            match trimmed_non_empty (stderr run_result) with
            | Some reason => (RunBlocked, [Entry KindFeedback reason], mkPreData true (Some reason) [] None)
            | None =>
                (RunFailed, [Entry KindError (lit "PreToolUse hook exited with code 2 but did not write a blocking reason to stderr")], nothing)
            end
          else (RunFailed, [Entry KindError (exited_with code)], nothing)
      | None => (RunFailed, [Entry KindError (lit "hook exited without a status code")], nothing)
      end
  end.

(** [codex-rs/hooks/src/events/pre_tool_use.rs:188-303 parse_completed] *)
Definition parse_pre_tool_use_completed (handler : ConfiguredHandler) (run_result : CommandRunResult)
    (turn_id : option str) : option (ParsedHandler PreToolUseHandlerData) :=
  let '(status, entries, data) := read_pre_tool_use_run run_result in
  Some (mkParsed (mkCompleted turn_id (completed_summary handler run_result status entries)) data 0).

(** [iter().find_map(...)]. *)
Definition find_map {A B} (f : A -> option B) (l : list A) : option B := head (omap f l).

(** [codex-rs/hooks/src/events/pre_tool_use.rs:305-313 serialization_failure_outcome] *)
Definition pre_tool_use_failure (hook_events : list HookCompletedEvent) : PreToolUseOutcome :=
  mkPreOutcome hook_events false None [] None.

(** [codex-rs/hooks/src/events/pre_tool_use.rs:71-142 run] *)
Definition run_pre_tool_use (world : World) (handlers : list ConfiguredHandler) (shell : CommandShell)
    (request : PreToolUseRequest) : option PreToolUseOutcome :=
  let matched := select_handlers_for_matcher_inputs regex handlers PreToolUse
                   (matcher_inputs (pt_tool_name request) (pt_matcher_aliases request)) in
  match matched with
  | [] => Some (mkPreOutcome [] false None [] None)
  | _ =>
      match pre_tool_use_input_json request with
      | Err error =>
          Some (pre_tool_use_failure
                  (serialization_failure_hook_events_for_tool_use (now world) matched (Some (pt_turn_id request))
                     (lit "failed to serialize pre tool use hook input: " ++ error) (pt_tool_use_id request)))
      | Ok input_json =>
          results ← execute_handlers world shell matched input_json (pt_cwd request) (Some (pt_turn_id request))
                      parse_pre_tool_use_completed;
          let should_block := existsb (fun result => ptd_should_block (data result)) results in
          let block_reason := find_map (fun result => ptd_block_reason (data result)) results in
          let additional_contexts :=
            flatten_additional_contexts (map (fun result => ptd_additional_contexts_for_model (data result)) results) in
          let updated_input := if should_block then None else latest_updated_input results in
          Some (mkPreOutcome
                  (map (fun result => hook_completed_for_tool_use (completed result) (pt_tool_use_id request)) results)
                  should_block block_reason additional_contexts updated_input)
      end
  end.

(** ** After a tool has run *)

(** [codex-rs/hooks/src/events/post_tool_use.rs:23-36 PostToolUseRequest] *)
Record PostToolUseRequest := mkPostRequest {
  ot_session_id : str; ot_turn_id : str; ot_subagent : option SubagentHookContext; ot_cwd : str;
  ot_transcript_path : option str; ot_model : str; ot_permission_mode : str; ot_tool_name : str;
  ot_matcher_aliases : list str; ot_tool_use_id : str; ot_tool_input : Json; ot_tool_response : Json
}.

(** [codex-rs/hooks/src/events/post_tool_use.rs:39-45 PostToolUseOutcome] *)
Record PostToolUseOutcome := mkPostOutcome {
  oo_hook_events : list HookCompletedEvent;
  oo_should_stop : bool;
  oo_stop_reason : option str;
  oo_additional_contexts : list str;
  oo_feedback_message : option str
}.

(** [codex-rs/hooks/src/events/post_tool_use.rs:48-53 PostToolUseHandlerData] *)
Record PostToolUseHandlerData := mkPostData {
  od_should_stop : bool;
  od_stop_reason : option str;
  od_additional_contexts_for_model : list str;
  od_feedback_messages_for_model : list str
}.

(** [codex-rs/hooks/src/events/post_tool_use.rs:55-70 preview] *)
Definition preview_post_tool_use (now : Z) (handlers : list ConfiguredHandler) (request : PostToolUseRequest)
    : list HookRunSummary :=
  map (fun handler => hook_run_for_tool_use (running_summary now handler) (ot_tool_use_id request))
    (select_handlers_for_matcher_inputs regex handlers PostToolUse
       (matcher_inputs (ot_tool_name request) (ot_matcher_aliases request))).

(** [codex-rs/hooks/src/events/post_tool_use.rs:152-169 command_input_json] *)
Definition post_tool_use_input_json (request : PostToolUseRequest) : result str str :=
  let subagent := subagent_fields (ot_subagent request) in
  write_post_tool_use
    (mkPostInput (ot_session_id request) (ot_turn_id request) (field_agent_id subagent) (field_agent_type subagent)
       (ot_transcript_path request) (ot_cwd request) (lit "PostToolUse") (ot_model request) (ot_permission_mode request)
       (ot_tool_name request) (ot_tool_input request) (ot_tool_response request) (ot_tool_use_id request)).

(** [codex-rs/hooks/src/events/post_tool_use.rs:171-308 parse_completed] what a run says: its status, its entries and
    what it decides. *)
Definition read_post_tool_use_run (run_result : CommandRunResult)
    : HookRunStatus * list HookOutputEntry * PostToolUseHandlerData :=
  let nothing := mkPostData false None [] [] in
  match error run_result with
  | Some error => (RunFailed, [Entry KindError error], nothing)
  | None =>
      match exit_code run_result with
      | Some code =>
          if (code =? 0)%Z then
            match trim (stdout run_result) with
            | [] => (RunCompleted, [], nothing)
            | _ =>
                match parse_post_tool_use (stdout run_result) with
                | Some parsed =>
                    let universal := post_universal parsed in
                    let entries := entry_if KindWarning (system_message universal) in
                    let '(entries, contexts) :=
                      match post_invalid_reason parsed, post_invalid_block_reason parsed, post_additional_context parsed with
                      | None, None, Some context => append_additional_context entries [] context
                      | _, _, _ => (entries, [])
                      end in
                    if negb (continue_processing universal) then
                      let stop_text := default (lit "PostToolUse hook stopped execution") (stop_reason universal) in
                      let model_feedback := default stop_text (reason ← post_reason parsed; trimmed_non_empty reason) in
                      (RunStopped, entries ++ [Entry KindStop stop_text],
                       mkPostData true (stop_reason universal) contexts [model_feedback])
                    else
                      match post_invalid_reason parsed, post_invalid_block_reason parsed with
                      | Some invalid_reason, _ =>
                          (RunFailed, entries ++ [Entry KindError invalid_reason], mkPostData false None contexts [])
                      | None, Some invalid_block_reason =>
                          (RunFailed, entries ++ [Entry KindError invalid_block_reason], mkPostData false None contexts [])
                      | None, None =>
                          if post_should_block parsed then
                            match post_reason parsed with
                            | Some reason =>
                                (RunBlocked, entries ++ [Entry KindFeedback reason], mkPostData false None contexts [reason])
                            | None => (RunBlocked, entries, mkPostData false None contexts [])
                            end
                          else (RunCompleted, entries, mkPostData false None contexts [])
                      end
                | None =>
                    if looks_like_json (stdout run_result)
                    then (RunFailed, [Entry KindError (lit "hook returned invalid post-tool-use JSON output")], nothing)
                    else (RunCompleted, [], nothing)
                end
            end
          else if (code =? 2)%Z then
            match trimmed_non_empty (stderr run_result) with
            | Some reason => (RunCompleted, [Entry KindFeedback reason], mkPostData false None [] [reason])
            | None =>
                (RunFailed, [Entry KindError (lit "PostToolUse hook exited with code 2 but did not write feedback to stderr")], nothing)
            end
          else (RunFailed, [Entry KindError (exited_with code)], nothing)
      | None => (RunFailed, [Entry KindError (lit "hook exited without a status code")], nothing)
      end
  end.

(** [codex-rs/hooks/src/events/post_tool_use.rs:171-308 parse_completed] *)
Definition parse_post_tool_use_completed (handler : ConfiguredHandler) (run_result : CommandRunResult)
    (turn_id : option str) : option (ParsedHandler PostToolUseHandlerData) :=
  let '(status, entries, data) := read_post_tool_use_run run_result in
  Some (mkParsed (mkCompleted turn_id (completed_summary handler run_result status entries)) data 0).

(** [codex-rs/hooks/src/events/post_tool_use.rs:310-318 serialization_failure_outcome] *)
Definition post_tool_use_failure (hook_events : list HookCompletedEvent) : PostToolUseOutcome :=
  mkPostOutcome hook_events false None [] None.

(** [codex-rs/hooks/src/events/post_tool_use.rs:72-144 run] *)
Definition run_post_tool_use (world : World) (handlers : list ConfiguredHandler) (shell : CommandShell)
    (request : PostToolUseRequest) : option PostToolUseOutcome :=
  let matched := select_handlers_for_matcher_inputs regex handlers PostToolUse
                   (matcher_inputs (ot_tool_name request) (ot_matcher_aliases request)) in
  match matched with
  | [] => Some (mkPostOutcome [] false None [] None)
  | _ =>
      match post_tool_use_input_json request with
      | Err error =>
          Some (post_tool_use_failure
                  (serialization_failure_hook_events_for_tool_use (now world) matched (Some (ot_turn_id request))
                     (lit "failed to serialize post tool use hook input: " ++ error) (ot_tool_use_id request)))
      | Ok input_json =>
          results ← execute_handlers world shell matched input_json (ot_cwd request) (Some (ot_turn_id request))
                      parse_post_tool_use_completed;
          let additional_contexts :=
            flatten_additional_contexts (map (fun result => od_additional_contexts_for_model (data result)) results) in
          let should_stop := existsb (fun result => od_should_stop (data result)) results in
          let stop_reason := find_map (fun result => od_stop_reason (data result)) results in
          let feedback_message :=
            join_text_chunks (mjoin (map (fun result => od_feedback_messages_for_model (data result)) results)) in
          Some (mkPostOutcome
                  (map (fun result => hook_completed_for_tool_use (completed result) (ot_tool_use_id request)) results)
                  should_stop stop_reason additional_contexts feedback_message)
      end
  end.

(** ** What a run says *)

(** The answer of a run that ended without an error and with exit code 0. *)
Definition answers {T} (read : Json -> option T) (r : CommandRunResult) (wire : T) : Prop :=
  error r = None /\ exit_code r = Some 0%Z /\ parse_json read (stdout r) = Some wire.

(** A run that ended with exit code 2 and wrote the message to its standard error. *)
Definition objects (r : CommandRunResult) (message : str) : Prop :=
  error r = None /\ exit_code r = Some 2%Z /\ trimmed_non_empty (stderr r) = Some message.

(** The decision of a permission answer that uses nothing unsupported. *)
Definition supported_decision (wire : PermissionRequestCommandOutputWire) (d : PermissionRequestDecisionWire) : Prop :=
  (rs_decision <$> rw_hook_specific_output wire) = Some (Some d) /\
  w_continue (rw_universal wire) = true /\ w_stop_reason (rw_universal wire) = None /\
  w_suppress_output (rw_universal wire) = false /\
  dw_updated_input d = None /\ dw_updated_permissions d = None /\ dw_interrupt d = false.

Definition says_allow (r : CommandRunResult) : Prop :=
  exists wire d, answers read_permission_request r wire /\ supported_decision wire d /\ dw_behavior d = BehaviorAllow.

Definition says_deny (r : CommandRunResult) (message : str) : Prop :=
  (exists wire d, answers read_permission_request r wire /\ supported_decision wire d /\ dw_behavior d = BehaviorDeny /\
     message = default (lit "PermissionRequest hook denied approval") (message ← dw_message d; trimmed_reason message))
  \/ objects r message.

Lemma parse_json_blank {T} (read : Json -> option T) out : trim out = [] -> parse_json read out = None.
Proof. unfold parse_json. by intros ->. Qed.

(** The decision that an answer carries. *)
Lemma permission_answer out d :
  (exists parsed, parse_permission_request out = Some parsed /\ request_invalid_reason parsed = None /\
     request_decision parsed = Some d) <->
  exists wire dw, parse_json read_permission_request out = Some wire /\ supported_decision wire dw /\
    d = permission_request_decision dw.
Proof.
  unfold parse_permission_request, supported_decision.
  destruct (parse_json read_permission_request out) as [[[c sr so sm] spec]|];
    [|split; [by intros (? & ? & _)|by intros (? & ? & ? & _)]]. cbn.
  split.
  - intros (parsed & [= <-] & Hi & Hd). cbn in *. rewrite Hi in Hd. cbn in Hd.
    destruct spec as [[ev [dw|]]|]; try done. cbn in *. injection Hd as <-. eexists _, dw. split; [done|]. cbn.
    destruct c, sr, so; try done. destruct dw as [b [?|] [?|] m [|]]; try done.
  - intros (wire & dw & [= <-] & Hw & ->). cbn in Hw. destruct Hw as (Hs & -> & -> & -> & Hi & Hp & Ht).
    destruct spec as [[ev dws]|]; [|done]. cbn in Hs. injection Hs as ->. eexists. split; [done|]. cbn.
    destruct dw as [b ui up m it]. cbn in *. by subst.
Qed.

Lemma read_permission_spec r d :
  (read_permission_run r).2 = Some d <->
  (error r = None /\ exit_code r = Some 0%Z /\
   exists parsed, parse_permission_request (stdout r) = Some parsed /\ request_invalid_reason parsed = None /\
     request_decision parsed = Some d) \/
  (exists message, d = Deny message /\ objects r message).
Proof.
  unfold read_permission_run, objects. destruct (error r); [split; [done|intros [[? _]|(? & _ & ? & _)]; done]|].
  destruct (exit_code r) as [code|]; [|split; [done|intros [(_ & ? & _)|(? & _ & _ & ? & _)]; done]].
  destruct (Z.eqb_spec code 0) as [->|H0].
  { assert (forall o, (exists m, d = Deny m /\ @None str = None /\ Some 0%Z = Some 2%Z /\ o = Some m) -> False) as Hno.
    { by intros o (m & _ & _ & ? & _). }
    destruct (trim (stdout r)) as [|c t] eqn:Et.
    { split; [done|]. intros [(_ & _ & parsed & Hp & _)|Hn]; [|by apply Hno in Hn].
      unfold parse_permission_request in Hp. by rewrite parse_json_blank in Hp. }
    destruct (parse_permission_request (stdout r)) as [[u dec inv]|] eqn:Ep.
    - split.
      + intros Hd. left. split; [done|]. split; [done|]. eexists. split; [done|].
        cbn in *. by destruct inv, dec as [[|m]|]; cbn in *; simplify_eq.
      + intros [(_ & _ & parsed & [= <-] & Hi & Hd)|Hn]; [|by apply Hno in Hn]. cbn in *. subst. by destruct d.
    - split; [by destruct (looks_like_json (stdout r))|].
      intros [(_ & _ & parsed & Hp & _)|Hn]; [done|by apply Hno in Hn]. }
  destruct (Z.eqb_spec code 2) as [->|H2].
  - destruct (trimmed_non_empty (stderr r)) as [m|]; cbn.
    + split; [intros [= <-]; right; by exists m|]. intros [(_ & ? & _)|(m' & -> & _ & _ & [= <-])]; done.
    + split; [done|]. intros [(_ & ? & _)|(m' & -> & _ & _ & ?)]; done.
  - split; [done|]. intros [(_ & [= ->] & _)|(m' & _ & _ & [= ->] & _)]; done.
Qed.

Lemma read_allow r : (read_permission_run r).2 = Some Allow <-> says_allow r.
Proof.
  rewrite read_permission_spec, permission_answer. unfold says_allow, answers, permission_request_decision. split.
  - intros [(? & ? & w & dw & ? & ? & Hb)|(? & ? & _)]; [|done]. exists w, dw. by destruct (dw_behavior dw).
  - intros (w & dw & (? & ? & ?) & ? & Hb). left. do 2 (split; [done|]). exists w, dw. by rewrite Hb.
Qed.

Lemma read_deny r m : (read_permission_run r).2 = Some (Deny m) <-> says_deny r m.
Proof.
  rewrite read_permission_spec, permission_answer. unfold says_deny, answers, permission_request_decision. split.
  - intros [(? & ? & w & dw & ? & ? & Hb)|(? & [= <-] & ?)]; [left|by right].
    exists w, dw. destruct (dw_behavior dw); [done|]. by injection Hb as ->.
  - intros [(w & dw & (? & ? & ?) & ? & Hb & ->)|?]; [left|right; by exists m].
    do 2 (split; [done|]). exists w, dw. by rewrite Hb.
Qed.

Lemma and_iff_compat_both (P P' Q Q' : Prop) : (P <-> P') -> (Q <-> Q') -> (P /\ Q <-> P' /\ Q').
Proof. tauto. Qed.

(** ** Combining permission answers *)

Definition denial (d : PermissionRequestDecision) : option str := match d with Deny m => Some m | Allow => None end.

Lemma resolve_spec decisions acc :
  resolve_decisions acc decisions =
  match head (omap denial decisions) with
  | Some m => Some (Deny m)
  | None => match decisions with [] => acc | _ => Some Allow end
  end.
Proof.
  revert acc. induction decisions as [|[|m] decisions IH]; intros acc; [done| |done].
  cbn. rewrite IH. cbn. by destruct (head _); destruct decisions.
Qed.

(** The answers of the runs, as a verdict. *)
Definition verdict_of (said : list (option PermissionRequestDecision)) : option PermissionRequestDecision :=
  resolve_permission_request_decision (omap id said).

Lemma omap_head_join {A B} (f : A -> option B) (l : list (option A)) : omap f (omap id l) = omap (fun o => a ← o; f a) l.
Proof. induction l as [|[a|] l IH]; cbn; [done| |done]. by rewrite IH. Qed.

Lemma verdict_deny said m :
  verdict_of said = Some (Deny m) <->
  exists i, said !! i = Some (Some (Deny m)) /\ forall j m', j < i -> said !! j <> Some (Some (Deny m')).
Proof.
  unfold verdict_of, resolve_permission_request_decision. rewrite resolve_spec, omap_head_join.
  transitivity (head (omap (fun o : option PermissionRequestDecision => a ← o; denial a) said) = Some m).
  { destruct (head _); [split; congruence|]. split; [|done]. by destruct (omap id said). }
  rewrite head_omap. split.
  - intros (i & a & Ha & Hb & Hn). exists i. split.
    + rewrite Ha. destruct a as [[|?]|]; cbn in Hb; try done. by injection Hb as ->.
    + intros j m' Hj Hm. by specialize (Hn j _ Hj Hm).
  - intros (i & Hi & Hn). exists i, (Some (Deny m)). do 2 (split; [done|]).
    intros j [[|m']|] Hj Ha; [done| |done]. by destruct (Hn j m').
Qed.

Lemma verdict_allow said :
  verdict_of said = Some Allow <-> Some Allow ∈ said /\ forall m, Some (Deny m) ∉ said.
Proof.
  split.
  - intros Hv. assert (forall m, Some (Deny m) ∉ said) as Hno.
    { intros m Hm. unfold verdict_of, resolve_permission_request_decision in Hv. rewrite resolve_spec in Hv.
      destruct (head (omap denial (omap id said))) eqn:E; [done|]. assert (Deny m ∈ omap id said) as Hin.
      { apply list_elem_of_omap. by exists (Some (Deny m)). }
      assert (m ∈ omap denial (omap id said)) as Hd by (apply list_elem_of_omap; by exists (Deny m)).
      destruct (omap denial (omap id said)); [by apply elem_of_nil in Hd|done]. }
    split; [|done]. unfold verdict_of, resolve_permission_request_decision in Hv. rewrite resolve_spec in Hv.
    destruct (head _); [done|]. destruct (omap id said) as [|d l] eqn:E; [done|].
    assert (d ∈ omap id said) as Hd by (rewrite E; by left). apply list_elem_of_omap in Hd as (o & Ho & Hd).
    unfold id in Hd. subst o. destruct d; [done|]. by apply Hno in Ho.
  - intros [Ha Hno]. unfold verdict_of, resolve_permission_request_decision. rewrite resolve_spec.
    assert (head (omap denial (omap id said)) = None) as ->.
    { destruct (omap denial (omap id said)) as [|m l] eqn:E; [done|]. exfalso.
      assert (m ∈ omap denial (omap id said)) as Hm by (rewrite E; by left).
      apply list_elem_of_omap in Hm as ([|m'] & Hin & Hm); [done|]. apply list_elem_of_omap in Hin as (o & Ho & Hd).
      unfold id in Hd. subst o. by apply Hno in Ho. }
    destruct (omap id said) eqn:E; [|done]. assert (Allow ∈ omap id said) as Hin.
    { apply list_elem_of_omap. by exists (Some Allow). }
    rewrite E in Hin. by apply elem_of_nil in Hin.
Qed.

(** The handlers a permission request selects, and their runs. *)
Definition permission_handlers (handlers : list ConfiguredHandler) (request : PermissionRequestRequest) :=
  select_handlers_for_matcher_inputs regex handlers PermissionRequest
    (matcher_inputs (pr_tool_name request) (pr_matcher_aliases request)).

Definition permission_runs (world : World) (handlers : list ConfiguredHandler) (shell : CommandShell)
    (request : PermissionRequestRequest) : list CommandRunResult :=
  match write_permission_request (build_command_input request) with
  | Ok input_json => runs world shell input_json (pr_cwd request) (permission_handlers handlers request)
  | Err _ => []
  end.

Lemma run_permission_spec world handlers shell request :
  exists outcome, run_permission_request world handlers shell request = Some outcome /\
    length (po_hook_events outcome) = length (permission_handlers handlers request) /\
    po_decision outcome = verdict_of (map (fun r => (read_permission_run r).2) (permission_runs world handlers shell request)).
Proof.
  unfold run_permission_request, permission_runs. fold (permission_handlers handlers request).
  destruct (permission_handlers handlers request) as [|h hs] eqn:Eh.
  { eexists. split; [done|]. split; [done|]. by destruct (write_permission_request _). }
  destruct (write_permission_request _) as [json|err].
  - destruct (execute_reads world shell json (pr_cwd request) (Some (pr_turn_id request)) parse_permission_completed
      (fun r => let '(st, es, d) := read_permission_run r in (st, es, mkPermissionData d)) (h :: hs))
      as (results & ranks & He & _ & _ & Hd & Hi).
    { intros handler r t. unfold parse_permission_completed. by destruct (read_permission_run r) as [[? ?] ?]. }
    rewrite He. cbn [option_bind mbind]. eexists. split; [done|]. cbn [po_hook_events po_decision]. split.
    + apply (f_equal length) in Hi. rewrite !length_map in Hi. by rewrite length_map.
    + unfold verdict_of. f_equal.
      assert (map (fun r => (read_permission_run r).2) (runs world shell json (pr_cwd request) (h :: hs))
              = map (fun x => pd_decision (data x)) results) as ->.
      { rewrite <- (map_map data pd_decision), Hd, map_map. apply map_ext. intros r.
        by destruct (read_permission_run r) as [[? ?] ?]. }
      clear. induction results as [|x results IH]; [done|]. cbn. rewrite <- IH. by destruct (pd_decision (data x)).
  - eexists. split; [done|]. cbn [po_hook_events po_decision]. split; [|done].
    unfold serialization_failure_hook_events_for_tool_use, serialization_failure_hook_events. by rewrite !length_map.
Qed.

(** C14: Asking the hooks about an approval never panics, reports one event per selected hook, and decides the same
    whatever the order in which the hooks finish: it denies exactly when some hook denies, with the message of the first
    in the order of the configuration that does; and it allows exactly when some hook allows and none denies.  A hook
    allows only by ending with exit code 0 and a JSON answer whose decision allows and that uses no unsupported field; it
    denies by such an answer, or by ending with exit code 2 and a message on its standard error. *)
Theorem permission_verdict_conservative world handlers shell request :
  exists outcome, run_permission_request world handlers shell request = Some outcome /\
    length (po_hook_events outcome) = length (permission_handlers handlers request) /\
    let answers := permission_runs world handlers shell request in
    (forall m, po_decision outcome = Some (Deny m) <->
       exists i r, answers !! i = Some r /\ says_deny r m /\
         forall j r' m', j < i -> answers !! j = Some r' -> ~ says_deny r' m') /\
    (po_decision outcome = Some Allow <->
       (exists r, r ∈ answers /\ says_allow r) /\ forall r m, r ∈ answers -> ~ says_deny r m).
Proof.
  destruct (run_permission_spec world handlers shell request) as (outcome & Hr & Hl & Hd).
  exists outcome. split; [done|]. split; [done|]. intros answers. fold answers in Hd. rewrite Hd. split.
  - intros m. rewrite verdict_deny. split.
    + intros (i & Hi & Hn). rewrite list_lookup_fmap in Hi. destruct (answers !! i) as [r|] eqn:Er; [|done].
      cbn in Hi. injection Hi as Hi. exists i, r. split; [done|]. split; [by apply read_deny|].
      intros j r' m' Hj Hr' Hm. apply (Hn j m' Hj). rewrite list_lookup_fmap, Hr'. cbn. f_equal. by apply read_deny.
    + intros (i & r & Hi & Hm & Hn). exists i. split.
      * rewrite list_lookup_fmap, Hi. cbn. f_equal. by apply read_deny.
      * intros j m' Hj Hm'. rewrite list_lookup_fmap in Hm'. destruct (answers !! j) as [r'|] eqn:Er; [|done].
        cbn in Hm'. injection Hm' as Hm'. apply (Hn j r' m' Hj Er). by apply read_deny.
  - rewrite verdict_allow, list_elem_of_fmap. apply and_iff_compat_both.
    + split; [intros (r & Ha & Hin); exists r; split; [done|by apply read_allow]|].
      intros (r & Hin & Ha). exists r. split; [|done]. symmetry. by apply read_allow.
    + setoid_rewrite list_elem_of_fmap. split.
      * intros Hno r m Hin Hm. apply (Hno m). exists r. split; [|done]. symmetry. by apply read_deny.
      * intros Hno m (r & Hm & Hin). apply (Hno r m Hin). by apply read_deny.
Qed.

(** ** Combining the answers before a tool runs *)

Definition supported_universal (universal : HookUniversalOutputWire) : Prop :=
  w_continue universal = true /\ w_stop_reason universal = None /\ w_suppress_output universal = false.

(** An answer that says nothing in the way of its event. *)
Definition decides_in_general (wire : PreToolUseCommandOutputWire) : Prop :=
  match pw_hook_specific_output wire with
  | Some out => ps_permission_decision out = None /\ ps_permission_decision_reason out = None /\ ps_updated_input out = None
  | None => True
  end.

(** An answer that blocks, in the way of the event or in general. *)
Definition answer_blocks (wire : PreToolUseCommandOutputWire) (reason : str) : Prop :=
  supported_universal (pw_universal wire) /\
  ((exists out text, pw_hook_specific_output wire = Some out /\ ps_permission_decision out = Some PermissionDeny /\
      ps_updated_input out = None /\ ps_permission_decision_reason out = Some text /\ trimmed_reason text = Some reason) \/
   (decides_in_general wire /\ pw_decision wire = Some Block /\
      exists text, pw_reason wire = Some text /\ trimmed_reason text = Some reason)).

Definition answer_rewrites (wire : PreToolUseCommandOutputWire) (input : Json) : Prop :=
  supported_universal (pw_universal wire) /\
  exists out, pw_hook_specific_output wire = Some out /\ ps_permission_decision out = Some PermissionAllow /\
    ps_updated_input out = Some input.

Definition says_block (r : CommandRunResult) (reason : str) : Prop :=
  (exists wire, answers read_pre_tool_use r wire /\ answer_blocks wire reason) \/ objects r reason.

Definition says_rewrite (r : CommandRunResult) (input : Json) : Prop :=
  exists wire, answers read_pre_tool_use r wire /\ answer_rewrites wire input.

Lemma pre_answer_blocks out reason :
  (exists parsed, parse_pre_tool_use out = Some parsed /\ pre_invalid_reason parsed = None /\
     pre_block_reason parsed = Some reason) <->
  exists wire, parse_json read_pre_tool_use out = Some wire /\ answer_blocks wire reason.
Proof.
  unfold parse_pre_tool_use, answer_blocks, supported_universal, decides_in_general.
  destruct (parse_json read_pre_tool_use out) as [[[c sr so sm] dec rs spec]|];
    [|split; [by intros (? & ? & _)|by intros (? & ? & _)]]. cbn.
  split.
  - intros (parsed & [= <-] & Hi & Hb). cbn in *. rewrite Hi in Hb. cbn in Hb. eexists. split; [done|]. cbn.
    destruct c, sr, so; try done. split; [done|]. cbn in Hi.
    destruct spec as [[ev pd pr ui ac]|]; cbn in *;
      [destruct pd as [[| |]|], pr as [pr|], ui as [ui|]; cbn in *; try done|]; try (left; by eexists _, _).
    all: right; split; [done|]; destruct dec as [[|]|]; try done; split; [done|]; destruct rs as [text|]; try done; by exists text.
  - intros (wire & [= <-] & Hw & Hb). cbn in Hw, Hb. destruct Hw as (-> & -> & ->). eexists. split; [done|]. cbn.
    destruct Hb as [(o & text & -> & Hd & Hu & Hr & Ht)|(Hg & -> & text & -> & Ht)].
    + destruct o as [ev pd pr ui ac]. cbn in *. subst. cbn. by rewrite Ht.
    + destruct spec as [[ev pd pr ui ac]|]; cbn in *; [destruct Hg as (-> & -> & ->); cbn|]; by rewrite Ht.
Qed.

Lemma pre_answer_rewrites out input :
  (exists parsed, parse_pre_tool_use out = Some parsed /\ pre_invalid_reason parsed = None /\
     pre_block_reason parsed = None /\ pre_updated_input parsed = Some input) <->
  exists wire, parse_json read_pre_tool_use out = Some wire /\ answer_rewrites wire input.
Proof.
  unfold parse_pre_tool_use, answer_rewrites, supported_universal.
  destruct (parse_json read_pre_tool_use out) as [[[c sr so sm] dec rs spec]|];
    [|split; [by intros (? & ? & _)|by intros (? & ? & _)]]. cbn.
  split.
  - intros (parsed & [= <-] & Hi & _ & Hu). cbn in *. rewrite Hi in Hu. cbn in Hu. eexists. split; [done|]. cbn.
    destruct c, sr, so; try done. split; [done|]. destruct spec as [[ev pd pr ui ac]|]; [|done]. cbn in *.
    destruct pd as [[| |]|]; try done. subst. by eexists.
  - intros (wire & [= <-] & Hw & o & Ho & Hd & Hu). cbn in *. destruct Hw as (-> & -> & ->). subst.
    destruct o as [ev pd pr ui ac]. cbn in *. subst. eexists. split; [done|]. done.
Qed.

Lemma read_pre_spec r (P : PreToolUseHandlerData -> Prop) :
  ~ P (mkPreData false None [] None) ->
  (forall ctx ctx' b ui, P (mkPreData (is_some b) b ctx ui) <-> P (mkPreData (is_some b) b ctx' ui)) ->
  P (read_pre_tool_use_run r).2 <->
  (error r = None /\ exit_code r = Some 0%Z /\
   exists parsed, parse_pre_tool_use (stdout r) = Some parsed /\ pre_invalid_reason parsed = None /\
     P (mkPreData (is_some (pre_block_reason parsed)) (pre_block_reason parsed) []
          (if is_some (pre_block_reason parsed) then None else pre_updated_input parsed))) \/
  (exists reason, objects r reason /\ P (mkPreData true (Some reason) [] None)).
Proof.
  intros Hnot Hctx. unfold read_pre_tool_use_run, objects.
  destruct (error r); [split; [done|intros [[? _]|(? & [? _] & _)]; done]|].
  destruct (exit_code r) as [code|]; [|split; [done|intros [(_ & ? & _)|(? & (_ & ? & _) & _)]; done]].
  destruct (Z.eqb_spec code 0) as [->|H0].
  { assert (forall o Q, (exists m : str, (@None str = None /\ Some 0%Z = Some 2%Z /\ o = Some m) /\ Q m) -> False) as Hno.
    { by intros o Q (m & (_ & ? & _) & _). }
    destruct (trim (stdout r)) as [|c t] eqn:Et.
    { split; [done|]. intros [(_ & _ & parsed & Hp & _)|Hn]; [|by apply Hno in Hn].
      unfold parse_pre_tool_use in Hp. by rewrite parse_json_blank in Hp. }
    destruct (parse_pre_tool_use (stdout r)) as [[u b ac ui inv]|] eqn:Ep; cbn.
    - assert (inv = None -> P (let '(entries, contexts) :=
                match ac with Some context => append_additional_context (entry_if KindWarning (system_message u)) [] context
                | None => (entry_if KindWarning (system_message u), []) end in
              match b with
              | Some reason => (RunBlocked, entries ++ [Entry KindFeedback reason], mkPreData true (Some reason) contexts None)
              | None => (RunCompleted, entries, mkPreData false None contexts ui) end).2 <->
              P (mkPreData (is_some b) b [] (if is_some b then None else ui))) as Hok.
      { intros _. destruct ac as [ac|], b as [b|]; cbn;
          [apply (Hctx [ac] [] (Some b) None)|apply (Hctx [ac] [] None ui)|done|done]. }
      split.
      + intros HP. left. do 2 (split; [done|]). eexists. split; [done|]. cbn.
        destruct inv; [done|]. split; [done|]. by apply Hok.
      + intros [(_ & _ & parsed & [= <-] & Hi & HP)|Hn]; [|by apply Hno in Hn]. cbn in *. subst. by apply Hok.
    - split; [by destruct (looks_like_json (stdout r))|].
      intros [(_ & _ & parsed & Hp & _)|Hn]; [done|by apply Hno in Hn]. }
  destruct (Z.eqb_spec code 2) as [->|H2].
  - destruct (trimmed_non_empty (stderr r)) as [m|]; cbn.
    + split; [intros HP; right; by exists m|]. intros [(_ & ? & _)|(m' & (_ & _ & [= <-]) & HP)]; done.
    + split; [done|]. intros [(_ & ? & _)|(m' & (_ & _ & ?) & _)]; done.
  - split; [done|]. intros [(_ & [= ->] & _)|(m' & (_ & [= ->] & _) & _)]; done.
Qed.

Lemma read_block r reason : ptd_block_reason (read_pre_tool_use_run r).2 = Some reason <-> says_block r reason.
Proof.
  rewrite (read_pre_spec r (fun d => ptd_block_reason d = Some reason)) by done. cbn.
  rewrite (pre_answer_blocks (stdout r) reason). unfold says_block, answers. split.
  - intros [(? & ? & w & ? & ?)|(m & Ho & [= <-])]; [left; by exists w|by right].
  - intros [(w & (? & ? & ?) & ?)|Ho]; [left|right; by exists reason]. do 2 (split; [done|]). by exists w.
Qed.

Lemma read_should_block r : ptd_should_block (read_pre_tool_use_run r).2 = is_some (ptd_block_reason (read_pre_tool_use_run r).2).
Proof.
  unfold read_pre_tool_use_run. repeat (case_match; try done).
Qed.

Lemma read_rewrite r input : ptd_updated_input (read_pre_tool_use_run r).2 = Some input <-> says_rewrite r input.
Proof.
  rewrite (read_pre_spec r (fun d => ptd_updated_input d = Some input)) by done. cbn.
  unfold says_rewrite, answers. pose proof (pre_answer_rewrites (stdout r) input) as Hp. split.
  - intros [(? & ? & parsed & ? & ? & Hu)|(m & _ & ?)]; [|done]. destruct (pre_block_reason parsed) eqn:Eb; [done|].
    destruct Hp as [Hp _]. destruct Hp as (w & ? & ?); [by exists parsed|]. by exists w.
  - intros (w & (? & ? & ?) & ?). left. do 2 (split; [done|]).
    destruct Hp as [_ Hp]. destruct Hp as (parsed & ? & ? & Hb & ?); [by exists w|]. exists parsed. by rewrite Hb.
Qed.

(** ** The latest rewrite *)

Lemma max_by_key_fold {A} (key : A -> nat) (l : list A) best :
  exists b, foldl (fun best x => match best with Some b => if key x <? key b then Some b else Some x | None => Some x end)
              (Some best) l = Some b /\ (b = best \/ b ∈ l) /\ key best <= key b /\ Forall (fun x => key x <= key b) l.
Proof.
  revert best. induction l as [|x l IH]; intros best; cbn [foldl]; [exists best; auto|].
  destruct (Nat.ltb_spec (key x) (key best)) as [Hx|Hx].
  - destruct (IH best) as (b & Hb & Hin & Hle & Hall). exists b. split; [done|]. split; [set_solver|]. split; [lia|].
    constructor; [lia|done].
  - destruct (IH x) as (b & Hb & Hin & Hle & Hall). exists b. split; [done|]. split; [set_solver|]. split; [lia|].
    constructor; [lia|done].
Qed.

Lemma max_by_key_spec {A} (key : A -> nat) (l : list A) :
  match max_by_key key l with
  | Some b => b ∈ l /\ Forall (fun x => key x <= key b) l
  | None => l = []
  end.
Proof.
  unfold max_by_key. destruct l as [|x l]; [done|]. cbn [foldl].
  destruct (max_by_key_fold key l x) as (b & -> & Hin & Hle & Hall). split; [set_solver|]. by constructor.
Qed.

Definition pre_tool_use_handlers (handlers : list ConfiguredHandler) (request : PreToolUseRequest) :=
  select_handlers_for_matcher_inputs regex handlers PreToolUse
    (matcher_inputs (pt_tool_name request) (pt_matcher_aliases request)).

Definition pre_tool_use_runs (world : World) (handlers : list ConfiguredHandler) (shell : CommandShell)
    (request : PreToolUseRequest) : list CommandRunResult :=
  match pre_tool_use_input_json request with
  | Ok input_json => runs world shell input_json (pt_cwd request) (pre_tool_use_handlers handlers request)
  | Err _ => []
  end.

(** What the runs say, with the place of each in the order of finishing. *)
Definition rewrites (said : list PreToolUseHandlerData) (ranks : list nat) : list (nat * Json) :=
  omap (fun '(rank, d) => updated_input ← ptd_updated_input d; Some (rank, updated_input)) (zip ranks said).

Lemma run_pre_tool_use_spec world handlers shell request :
  exists outcome ranks, run_pre_tool_use world handlers shell request = Some outcome /\
    let said := map (fun r => (read_pre_tool_use_run r).2) (pre_tool_use_runs world handlers shell request) in
    ranked (scheduler world) (length said) ranks /\
    length (pto_hook_events outcome) = length (pre_tool_use_handlers handlers request) /\
    pto_should_block outcome = existsb ptd_should_block said /\
    pto_block_reason outcome = head (omap ptd_block_reason said) /\
    pto_updated_input outcome =
      (if existsb ptd_should_block said then None else snd <$> max_by_key fst (rewrites said ranks)).
Proof.
  unfold run_pre_tool_use, pre_tool_use_runs. fold (pre_tool_use_handlers handlers request).
  assert (ranked (scheduler world) 0 []) as H0 by (split; [done|by intros ? ? ?]).
  destruct (pre_tool_use_handlers handlers request) as [|h hs] eqn:Eh.
  { eexists _, []. split; [done|]. by destruct (pre_tool_use_input_json request). }
  destruct (pre_tool_use_input_json request) as [json|err].
  - destruct (execute_reads world shell json (pt_cwd request) (Some (pt_turn_id request)) parse_pre_tool_use_completed
      read_pre_tool_use_run (h :: hs)) as (results & ranks & He & Hr & Hk & Hd & Hi); [done|].
    rewrite He. cbn [option_bind mbind]. eexists _, ranks. split; [done|].
    cbn [pto_hook_events pto_should_block pto_block_reason pto_updated_input]. rewrite <- Hd.
    assert (length results = length (h :: hs)) as Hl by (apply (f_equal length) in Hi; by rewrite !length_map in Hi).
    rewrite !length_map, Hl. split; [done|]. split; [done|].
    assert (existsb (fun result => ptd_should_block (data result)) results = existsb ptd_should_block (map data results)) as Hb.
    { clear. induction results as [|x results IH]; [done|]. cbn. by rewrite IH. }
    split; [done|]. split.
    { unfold find_map. f_equal. clear. induction results as [|x results IH]; [done|]. cbn. by rewrite <- IH. }
    rewrite Hb. destruct (existsb ptd_should_block (map data results)); [done|]. unfold latest_updated_input, rewrites. rewrite <- Hk. do 2 f_equal.
    clear. induction results as [|x results IH]; [done|]. cbn. by rewrite <- IH.
  - eexists _, []. split; [done|]. cbn -[serialization_failure_hook_events_for_tool_use length]. split; [done|]. split; [|done].
    unfold serialization_failure_hook_events_for_tool_use, serialization_failure_hook_events. by rewrite !length_map.
Qed.

Lemma rewrites_elem said ranks rank v :
  (rank, v) ∈ rewrites said ranks <-> exists i d, ranks !! i = Some rank /\ said !! i = Some d /\ ptd_updated_input d = Some v.
Proof.
  unfold rewrites. rewrite list_elem_of_omap. split.
  - intros ([k d] & Hin & Hv). cbn in Hv. destruct (ptd_updated_input d) eqn:E; [|done]. cbn in Hv. injection Hv as -> ->.
    apply list_elem_of_lookup in Hin as [i Hi]. apply lookup_zip_Some in Hi as [? ?]. by exists i, d.
  - intros (i & d & Hk & Hd & Hv). exists (rank, d). split.
    + apply list_elem_of_lookup. exists i. by apply lookup_zip_Some.
    + cbn. by rewrite Hv.
Qed.

(** Each configured place has one rank. *)
Lemma ranked_total sched n ranks i : ranked sched n ranks -> i < n -> exists k, ranks !! i = Some k.
Proof.
  intros [Hp _] Hi. apply lookup_lt_is_Some_2. by rewrite Hp, length_seq.
Qed.

Lemma finish_order_nodup sched n : NoDup (finish_order sched n).
Proof.
  unfold finish_order. pose proof (completions_perm sched (seq 0 n)) as Hp. rewrite length_seq in Hp. rewrite Hp.
  apply NoDup_seq.
Qed.

Lemma rewrites_latest sched answers ranks :
  ranked sched (length answers) ranks ->
  forall input, snd <$> max_by_key fst (rewrites (map (fun r => (read_pre_tool_use_run r).2) answers) ranks) = Some input <->
    exists i k r, answers !! i = Some r /\ says_rewrite r input /\ finish_order sched (length answers) !! k = Some i /\
      forall j k' r' input', answers !! j = Some r' -> says_rewrite r' input' ->
        finish_order sched (length answers) !! k' = Some j -> k' <= k.
Proof.
  intros Hr input. set (said := map _ answers).
  assert (forall rank v, (rank, v) ∈ rewrites said ranks <->
            exists i r, ranks !! i = Some rank /\ answers !! i = Some r /\ says_rewrite r v) as Helem.
  { intros rank v. rewrite rewrites_elem. unfold said. setoid_rewrite list_lookup_fmap. split.
    - intros (i & d & Hk & Hd & Hv). destruct (answers !! i) as [r|] eqn:Ei; [|done]. injection Hd as <-.
      exists i, r. do 2 (split; [done|]). by apply read_rewrite.
    - intros (i & r & Hk & Hi & Hv). exists i, (read_pre_tool_use_run r).2. rewrite Hi. do 2 (split; [done|]).
      by apply read_rewrite. }
  assert (forall i k, i < length answers -> finish_order sched (length answers) !! k = Some i -> ranks !! i = Some k) as Hrank.
  { intros i k Hi Hk. destruct (ranked_total _ _ _ i Hr Hi) as [k' Hk']. rewrite Hk'. f_equal.
    destruct Hr as [_ Hr]. apply Hr in Hk'. eapply NoDup_lookup; [apply finish_order_nodup|exact Hk'|exact Hk]. }
  pose proof (max_by_key_spec fst (rewrites said ranks)) as Hmax.
  destruct (max_by_key fst (rewrites said ranks)) as [[k v]|] eqn:Em; cbn.
  - destruct Hmax as [Hin Hall]. apply Helem in Hin as (i & r & Hk & Hi & Hv). rewrite Forall_forall in Hall. split.
    + intros [= ->]. exists i, k, r. do 2 (split; [done|]). split; [by apply Hr|].
      intros j k' r' input' Hj Hv' Hk'. apply (Hall (k', input')). apply Helem. exists j, r'.
      split; [apply Hrank; [by apply lookup_lt_Some in Hj|done]|done].
    + intros (i' & k' & r' & Hi' & Hv' & Hk' & Hlast). f_equal.
      assert (ranks !! i' = Some k') as Hri by (apply Hrank; [by apply lookup_lt_Some in Hi'|done]).
      assert (k' <= k) as H1 by (apply (Hall (k', input)); apply Helem; by exists i', r').
      assert (k <= k') as H2 by (eapply Hlast; [exact Hi|exact Hv|by apply Hr]).
      assert (k' = k) as -> by lia. assert (i' = i) as ->.
      { destruct Hr as [_ Hr]. apply Hr in Hk. rewrite Hk in Hk'. by injection Hk'. }
      rewrite Hi in Hi'. injection Hi' as <-. apply read_rewrite in Hv, Hv'. congruence.
  - split; [done|]. intros (i & k & r & Hi & Hv & Hk & _).
    assert ((k, input) ∈ rewrites said ranks) as Hin.
    { apply Helem. exists i, r. split; [apply Hrank; [by apply lookup_lt_Some in Hi|done]|done]. }
    rewrite Hmax in Hin. by apply elem_of_nil in Hin.
Qed.

(** C16: Asking the hooks before a tool runs never panics and reports one event per selected hook.  The tool is blocked
    exactly when some hook blocks, by a JSON answer that denies or blocks with a reason and uses nothing unsupported, or
    by ending with exit code 2 and a message; the reason given is that of the first hook in the order of the configuration
    that blocks.  The input of the tool is replaced exactly when nothing blocks and some hook answers with a replacement
    it allows, and then by the replacement of the hook that finished last among them. *)
Theorem tool_blocked_or_rewritten world handlers shell request :
  exists outcome, run_pre_tool_use world handlers shell request = Some outcome /\
    length (pto_hook_events outcome) = length (pre_tool_use_handlers handlers request) /\
    let answers := pre_tool_use_runs world handlers shell request in
    let finished k i := finish_order (scheduler world) (length answers) !! k = Some i in
    (pto_should_block outcome = true <-> exists r reason, r ∈ answers /\ says_block r reason) /\
    (forall reason, pto_block_reason outcome = Some reason <->
       exists i r, answers !! i = Some r /\ says_block r reason /\
         forall j r' reason', j < i -> answers !! j = Some r' -> ~ says_block r' reason') /\
    (forall input, pto_updated_input outcome = Some input <->
       (forall r reason, r ∈ answers -> ~ says_block r reason) /\
       exists i k r, answers !! i = Some r /\ says_rewrite r input /\ finished k i /\
         forall j k' r' input', answers !! j = Some r' -> says_rewrite r' input' -> finished k' j -> k' <= k).
Proof.
  destruct (run_pre_tool_use_spec world handlers shell request) as (outcome & ranks & Hrun & Hr & Hl & Hb & Hre & Hu).
  exists outcome. split; [done|]. split; [done|]. intros answers finished. fold answers in Hr, Hb, Hre, Hu.
  set (said := map (fun r => (read_pre_tool_use_run r).2) answers) in *.
  assert (length said = length answers) as Hls by apply length_map. rewrite Hls in Hr.
  assert (existsb ptd_should_block said = true <-> exists r reason, r ∈ answers /\ says_block r reason) as Hblock.
  { rewrite existsb_exists. split.
    - intros (d & Hd & Hs). apply list_elem_of_In, list_elem_of_fmap in Hd as (r & -> & Hin). exists r.
      rewrite read_should_block in Hs. destruct (ptd_block_reason _) as [reason|] eqn:E; [|done].
      exists reason. by apply read_block in E.
    - intros (r & reason & Hin & Hs). exists (read_pre_tool_use_run r).2. split.
      + apply list_elem_of_In, list_elem_of_fmap. by exists r.
      + rewrite read_should_block. apply read_block in Hs. by rewrite Hs. }
  split; [by rewrite Hb|]. split.
  - intros reason. rewrite Hre, head_omap. split.
    + intros (i & d & Hd & Hs & Hn). unfold said in Hd. rewrite list_lookup_fmap in Hd.
      destruct (answers !! i) as [r|] eqn:E; [|done]. injection Hd as <-. exists i, r. split; [done|].
      split; [by apply read_block|]. intros j r' reason' Hj Hr' Hs'. apply read_block in Hs'.
      assert (said !! j = Some (read_pre_tool_use_run r').2) as Hj' by (unfold said; by rewrite list_lookup_fmap, Hr').
      specialize (Hn j _ Hj Hj'). by rewrite Hs' in Hn.
    + intros (i & r & Hi & Hs & Hn). exists i, (read_pre_tool_use_run r).2. split.
      { unfold said. by rewrite list_lookup_fmap, Hi. }
      split; [by apply read_block|]. intros j d Hj Hd. unfold said in Hd. rewrite list_lookup_fmap in Hd.
      destruct (answers !! j) as [r'|] eqn:E; [|done]. injection Hd as <-.
      destruct (ptd_block_reason _) as [reason'|] eqn:Er; [|done]. apply read_block in Er. by destruct (Hn j r' reason' Hj E).
  - intros input. rewrite Hu.
    assert ((forall r reason, r ∈ answers -> ~ says_block r reason) <-> existsb ptd_should_block said = false) as Hno.
    { rewrite <- not_true_iff_false, Hblock. split; [|naive_solver]. intros Hall (r & reason & Hin & Hs). by apply (Hall r reason). }
    rewrite Hno. destruct (existsb ptd_should_block said); [split; [done|by intros [? _]]|].
    pose proof (rewrites_latest (scheduler world) answers ranks Hr input) as Hlast. fold said in Hlast. rewrite Hlast.
    split; [intros ?; done|by intros [_ ?]].
Qed.
End Events.

(** ** Example *)

(** A codec for three answers: one that allows, one that denies, and one that denies and asks to interrupt. *)
#[local] Instance example_codec : HookCodec := {|
  from_str s := Some (JObject [(s, JNull)]);
  read_permission_request json :=
    let answer behavior interrupt :=
      Some (mkRequestWire (mkUniversalWire true None false None)
              (Some (mkRequestSpecific PermissionRequest (Some (mkDecisionWire behavior None None None interrupt))))) in
    match json with
    | JObject [(s, _)] =>
        if bool_decide (s = lit "allow") then answer BehaviorAllow false
        else if bool_decide (s = lit "deny") then answer BehaviorDeny false
        else if bool_decide (s = lit "deny, interrupt") then answer BehaviorDeny true
        else None
    | _ => None
    end;
  read_pre_tool_use _ := None; read_post_tool_use _ := None; read_pre_compact _ := None; read_post_compact _ := None;
  read_session_start _ := None; read_subagent_start _ := None; read_user_prompt_submit _ := None; read_stop _ := None;
  read_subagent_stop _ := None;
  write_pre_tool_use _ := Ok []; write_permission_request _ := Ok []; write_post_tool_use _ := Ok [];
  write_pre_compact _ := Ok []; write_post_compact _ := Ok []; write_session_start _ := Ok [];
  write_subagent_start _ := Ok []; write_user_prompt_submit _ := Ok []; write_stop _ := Ok []; write_subagent_stop _ := Ok []
|}.

(** Two hooks of a permission request; the scheduler lets the second finish first. *)
Definition example_decision (first second : str) : option (option PermissionRequestDecision) :=
  let handler order := mkHandler PermissionRequest None (lit "check") 600 None (lit "/hooks.json") FromUser order [] in
  let world := mkWorld None (fun i _ _ _ => Finished (Some 0%Z) (if i =? 0 then first else second) [])
                 (fun _ => mkTiming 0 0 0) (fun _ => 1) 0 in
  let request := mkPermissionRequest [] (lit "turn") None (lit "/") None [] [] (lit "shell") [] (lit "call") JNull in
  po_decision <$> run_permission_request (fun _ => Err []) world [handler 0%Z; handler 1%Z] (mkShell [] []) request.

(** A denial wins over an allow, wherever it is; a denial that also asks to interrupt is dropped as a failed run, and the
    allow of another hook then decides. *)
Example denial_with_interrupt_dropped :
  example_decision (lit "deny") (lit "allow") = Some (Some (Deny (lit "PermissionRequest hook denied approval"))) /\
  example_decision (lit "allow") (lit "deny") = Some (Some (Deny (lit "PermissionRequest hook denied approval"))) /\
  example_decision (lit "deny, interrupt") (lit "allow") = Some (Some Allow).
Proof. by vm_compute. Qed.

End HookToolEvents.
