(* ===== verification/HookTurnEvents.v ===== *)
(** * Hooks of sessions and turns: hooks/src/events/session_start.rs, user_prompt_submit.rs, compact.rs and stop.rs

    The hooks that run when a session or a subagent starts or stops, when the user submits a prompt, and around a
    compaction: what each run is taken to say, and how the answers of all of them are combined. *)

From S2P Require Import Prelude Text ResponseItems HookTypes HookDispatch HookOutput HookToolEvents.

Module HookTurnEvents.
Import ResponseItems HookTypes HookDispatch HookOutput HookToolEvents.

Section Events.
Context `{HookCodec} (regex : str -> result str (str -> bool)).

(** ** The start of a session or a subagent *)

(** [codex-rs/hooks/src/events/session_start.rs:23-28 SessionStartSource] *)
Inductive SessionStartSource := Startup | Resume | Clear | Compact.

(** [codex-rs/hooks/src/events/session_start.rs:31-38 SessionStartSource::as_str] *)
Definition source_as_str (self : SessionStartSource) : str :=
  lit match self with Startup => "startup" | Resume => "resume" | Clear => "clear" | Compact => "compact" end.

(** [codex-rs/hooks/src/events/session_start.rs:51-61 StartHookTarget] *)
Inductive StartHookTarget :=
| SessionTarget (source : SessionStartSource)
| SubagentTarget (turn_id agent_id agent_type : str).

(** [codex-rs/hooks/src/events/session_start.rs:41-49 SessionStartRequest] *)
Record SessionStartRequest := mkStartRequest {
  ss_session_id : str; ss_cwd : str; ss_transcript_path : option str; ss_model : str; ss_permission_mode : str;
  ss_target : StartHookTarget
}.

(** [codex-rs/hooks/src/events/session_start.rs:64-69 StartHookTarget::event_name] *)
Definition start_event_name (self : StartHookTarget) : HookEventName :=
  match self with SessionTarget _ => SessionStart | SubagentTarget _ _ _ => SubagentStart end.

(** [codex-rs/hooks/src/events/session_start.rs:71-76 StartHookTarget::matcher_input] *)
Definition start_matcher_input (self : StartHookTarget) : str :=
  match self with SessionTarget source => source_as_str source | SubagentTarget _ _ agent_type => agent_type end.

(** [codex-rs/hooks/src/events/session_start.rs:80-85 SessionStartOutcome] *)
Record SessionStartOutcome := mkStartOutcome {
  so_hook_events : list HookCompletedEvent;
  so_should_stop : bool;
  so_stop_reason : option str;
  so_additional_contexts : list str
}.

(** [codex-rs/hooks/src/events/session_start.rs:88-92 SessionStartHandlerData] *)
Record SessionStartHandlerData := mkStartData {
  sd_should_stop : bool; sd_stop_reason : option str; sd_additional_contexts_for_model : list str
}.

(** [codex-rs/hooks/src/events/session_start.rs:94-106 preview] *)
Definition preview_session_start (now : Z) (handlers : list ConfiguredHandler) (request : SessionStartRequest)
    : list HookRunSummary :=
  map (running_summary now)
    (select_handlers regex handlers (start_event_name (ss_target request)) (Some (start_matcher_input (ss_target request)))).

(** [codex-rs/hooks/src/events/session_start.rs:217-335 parse_completed] what a run says; [None] when the event is
    neither of the two and the code panics. *)
Definition read_start_run (name : HookEventName) (run_result : CommandRunResult)
    : option (HookRunStatus * list HookOutputEntry * SessionStartHandlerData) :=
  let nothing := mkStartData false None [] in
  match error run_result with
  | Some error => Some (RunFailed, [Entry KindError error], nothing)
  | None =>
      match exit_code run_result with
      | Some code =>
          if (code =? 0)%Z then
            match trim (stdout run_result) with
            | [] => Some (RunCompleted, [], nothing)
            | trimmed_stdout =>
                parsed ← match name with
                         | SessionStart => Some (parse_session_start (stdout run_result))
                         | SubagentStart => Some (parse_subagent_start (stdout run_result))
                         | _ => None
                         end;
                match parsed with
                | Some parsed =>
                    let universal := start_universal parsed in
                    let entries := entry_if KindWarning (system_message universal) in
                    let '(entries, contexts) :=
                      match start_additional_context parsed with
                      | Some context => append_additional_context entries [] context
                      | None => (entries, [])
                      end in
                    if bool_decide (name = SessionStart) && negb (continue_processing universal) then
                      Some (RunStopped, entries ++ entry_if KindStop (stop_reason universal),
                            mkStartData true (stop_reason universal) contexts)
                    else Some (RunCompleted, entries, mkStartData false None contexts)
                | None =>
                    if looks_like_json (stdout run_result) then
                      text ← match name with
                             | SessionStart => Some (lit "hook returned invalid session start JSON output")
                             | SubagentStart => Some (lit "hook returned invalid subagent start JSON output")
                             | _ => None
                             end;
                      Some (RunFailed, [Entry KindError text], nothing)
                    else
                      let '(entries, contexts) := append_additional_context [] [] trimmed_stdout in
                      Some (RunCompleted, entries, mkStartData false None contexts)
                end
            end
          else Some (RunFailed, [Entry KindError (exited_with code)], nothing)
      | None => Some (RunFailed, [Entry KindError (lit "hook exited without a status code")], nothing)
      end
  end.

(** [codex-rs/hooks/src/events/session_start.rs:217-335 parse_completed] *)
Definition parse_start_completed (handler : ConfiguredHandler) (run_result : CommandRunResult) (turn_id : option str)
    : option (ParsedHandler SessionStartHandlerData) :=
  '(status, entries, data) ← read_start_run (event_name handler) run_result;
  Some (mkParsed (mkCompleted turn_id (completed_summary handler run_result status entries)) data 0).

(** [codex-rs/hooks/src/events/session_start.rs:337-344 serialization_failure_outcome] *)
Definition start_failure (hook_events : list HookCompletedEvent) : SessionStartOutcome :=
  mkStartOutcome hook_events false None [].

(** [codex-rs/hooks/src/events/session_start.rs:108-209 run] *)
Definition run_session_start (world : World) (handlers : list ConfiguredHandler) (shell : CommandShell)
    (request : SessionStartRequest) (turn_id : option str) : option SessionStartOutcome :=
  let matched := select_handlers regex handlers (start_event_name (ss_target request))
                   (Some (start_matcher_input (ss_target request))) in
  match matched with
  | [] => Some (mkStartOutcome [] false None [])
  | _ =>
      let '(input, turn_id, message) :=
        match ss_target request with
        | SessionTarget source =>
            (write_session_start (new_start_input (ss_session_id request) (ss_transcript_path request) (ss_cwd request)
                                    (ss_model request) (ss_permission_mode request) (source_as_str source)),
             turn_id, lit "failed to serialize session start hook input: ")
        | SubagentTarget subagent_turn_id agent_id agent_type =>
            (write_subagent_start (mkSubagentStartInput (ss_session_id request) subagent_turn_id
                                     (ss_transcript_path request) (ss_cwd request) (lit "SubagentStart") (ss_model request)
                                     (ss_permission_mode request) agent_id agent_type),
             Some subagent_turn_id, lit "failed to serialize subagent start hook input: ")
        end in
      match input with
      | Err error => Some (start_failure (serialization_failure_hook_events (now world) matched turn_id (message ++ error)))
      | Ok input_json =>
          results ← execute_handlers world shell matched input_json (ss_cwd request) turn_id parse_start_completed;
          Some (mkStartOutcome (map completed results)
                  (existsb (fun result => sd_should_stop (data result)) results)
                  (find_map (fun result => sd_stop_reason (data result)) results)
                  (flatten_additional_contexts
                     (map (fun result => sd_additional_contexts_for_model (data result)) results)))
      end
  end.

(** ** The submission of a prompt *)

(** [codex-rs/hooks/src/events/user_prompt_submit.rs:23-32 UserPromptSubmitRequest] *)
Record UserPromptSubmitRequest := mkPromptRequest {
  up_session_id : str; up_turn_id : str; up_subagent : option SubagentHookContext; up_cwd : str;
  up_transcript_path : option str; up_model : str; up_permission_mode : str; up_prompt : str
}.

(** [codex-rs/hooks/src/events/user_prompt_submit.rs:35-40 UserPromptSubmitOutcome] *)
Record UserPromptSubmitOutcome := mkPromptOutcome {
  uo_hook_events : list HookCompletedEvent;
  uo_should_stop : bool;
  uo_stop_reason : option str;
  uo_additional_contexts : list str
}.

(** [codex-rs/hooks/src/events/user_prompt_submit.rs:43-47 UserPromptSubmitHandlerData] *)
Record UserPromptSubmitHandlerData := mkPromptData {
  ud_should_stop : bool; ud_stop_reason : option str; ud_additional_contexts_for_model : list str
}.

(** [codex-rs/hooks/src/events/user_prompt_submit.rs:49-61 preview] *)
Definition preview_user_prompt_submit (now : Z) (handlers : list ConfiguredHandler) (request : UserPromptSubmitRequest)
    : list HookRunSummary :=
  map (running_summary now) (select_handlers regex handlers UserPromptSubmit None).

(** [codex-rs/hooks/src/events/user_prompt_submit.rs:133-265 parse_completed] what a run says. *)
Definition read_prompt_run (run_result : CommandRunResult)
    : HookRunStatus * list HookOutputEntry * UserPromptSubmitHandlerData :=
  let nothing := mkPromptData false None [] in
  match error run_result with
  | Some error => (RunFailed, [Entry KindError error], nothing)
  | None =>
      match exit_code run_result with
      | Some code =>
          if (code =? 0)%Z then
            match trim (stdout run_result) with
            | [] => (RunCompleted, [], nothing)
            | trimmed_stdout =>
                match parse_user_prompt_submit (stdout run_result) with
                | Some parsed =>
                    let universal := prompt_universal parsed in
                    let entries := entry_if KindWarning (system_message universal) in
                    let '(entries, contexts) :=
                      match prompt_invalid_block_reason parsed, prompt_additional_context parsed with
                      | None, Some context => append_additional_context entries [] context
                      | _, _ => (entries, [])
                      end in
                    if negb (continue_processing universal) then
                      (RunStopped, entries ++ entry_if KindStop (stop_reason universal),
                       mkPromptData true (stop_reason universal) contexts)
                    else
                      match prompt_invalid_block_reason parsed with
                      | Some invalid_block_reason =>
                          (RunFailed, entries ++ [Entry KindError invalid_block_reason], mkPromptData false None contexts)
                      | None =>
                          if prompt_should_block parsed then
                            (RunBlocked, entries ++ entry_if KindFeedback (prompt_reason parsed),
                             mkPromptData true (prompt_reason parsed) contexts)
                          else (RunCompleted, entries, mkPromptData false None contexts)
                      end
                | None =>
                    if looks_like_json (stdout run_result)
                    then (RunFailed, [Entry KindError (lit "hook returned invalid user prompt submit JSON output")], nothing)
                    else
                      let '(entries, contexts) := append_additional_context [] [] trimmed_stdout in
                      (RunCompleted, entries, mkPromptData false None contexts)
                end
            end
          else if (code =? 2)%Z then
            match trimmed_non_empty (stderr run_result) with
            | Some reason => (RunBlocked, [Entry KindFeedback reason], mkPromptData true (Some reason) [])
            | None =>
                (RunFailed, [Entry KindError (lit "UserPromptSubmit hook exited with code 2 but did not write a blocking reason to stderr")], nothing)
            end
          else (RunFailed, [Entry KindError (exited_with code)], nothing)
      | None => (RunFailed, [Entry KindError (lit "hook exited without a status code")], nothing)
      end
  end.

(** [codex-rs/hooks/src/events/user_prompt_submit.rs:133-265 parse_completed] *)
Definition parse_prompt_completed (handler : ConfiguredHandler) (run_result : CommandRunResult) (turn_id : option str)
    : option (ParsedHandler UserPromptSubmitHandlerData) :=
  let '(status, entries, data) := read_prompt_run run_result in
  Some (mkParsed (mkCompleted turn_id (completed_summary handler run_result status entries)) data 0).

(** [codex-rs/hooks/src/events/user_prompt_submit.rs:267-274 serialization_failure_outcome] *)
Definition prompt_failure (hook_events : list HookCompletedEvent) : UserPromptSubmitOutcome :=
  mkPromptOutcome hook_events false None [].

(** [codex-rs/hooks/src/events/user_prompt_submit.rs:63-131 run] *)
Definition run_user_prompt_submit (world : World) (handlers : list ConfiguredHandler) (shell : CommandShell)
    (request : UserPromptSubmitRequest) : option UserPromptSubmitOutcome :=
  let matched := select_handlers regex handlers UserPromptSubmit None in
  match matched with
  | [] => Some (mkPromptOutcome [] false None [])
  | _ =>
      let subagent := subagent_fields (up_subagent request) in
      match write_user_prompt_submit
              (mkPromptInput (up_session_id request) (up_turn_id request) (field_agent_id subagent)
                 (field_agent_type subagent) (up_transcript_path request) (up_cwd request) (lit "UserPromptSubmit")
                 (up_model request) (up_permission_mode request) (up_prompt request)) with
      | Err error =>
          Some (prompt_failure (serialization_failure_hook_events (now world) matched (Some (up_turn_id request))
                                  (lit "failed to serialize user prompt submit hook input: " ++ error)))
      | Ok input_json =>
          results ← execute_handlers world shell matched input_json (up_cwd request) (Some (up_turn_id request))
                      parse_prompt_completed;
          Some (mkPromptOutcome (map completed results)
                  (existsb (fun result => ud_should_stop (data result)) results)
                  (find_map (fun result => ud_stop_reason (data result)) results)
                  (flatten_additional_contexts
                     (map (fun result => ud_additional_contexts_for_model (data result)) results)))
      end
  end.

(** ** Around a compaction *)

(** [codex-rs/hooks/src/events/compact.rs:23-31 PreCompactRequest] and [PostCompactRequest], which has the same fields. *)
Record CompactRequest := mkCompactRequest {
  cr_session_id : str; cr_turn_id : str; cr_subagent : option SubagentHookContext; cr_cwd : str;
  cr_transcript_path : option str; cr_model : str; cr_trigger : str
}.

(** [codex-rs/hooks/src/events/compact.rs:45-49 StatelessHookOutcome] and [PreCompactOutcome], which has the same fields. *)
Record CompactOutcome := mkCompactOutcome {
  co_hook_events : list HookCompletedEvent; co_should_stop : bool; co_stop_reason : option str
}.

(** [codex-rs/hooks/src/events/compact.rs:223-226 CompactHandlerData] *)
Record CompactHandlerData := mkCompactData { cd_should_stop : bool; cd_stop_reason : option str }.

(** [codex-rs/hooks/src/events/compact.rs:58-70 preview_pre] *)
Definition preview_pre_compact (now : Z) (handlers : list ConfiguredHandler) (request : CompactRequest)
    : list HookRunSummary :=
  map (running_summary now) (select_handlers regex handlers PreCompact (Some (cr_trigger request))).

(** [codex-rs/hooks/src/events/compact.rs:140-152 preview_post] *)
Definition preview_post_compact (now : Z) (handlers : list ConfiguredHandler) (request : CompactRequest)
    : list HookRunSummary :=
  map (running_summary now) (select_handlers regex handlers PostCompact (Some (cr_trigger request))).

(** [codex-rs/hooks/src/events/compact.rs:125-138 pre_command_input_json] *)
Definition pre_command_input_json (request : CompactRequest) : result str str :=
  let subagent := subagent_fields (cr_subagent request) in
  write_pre_compact
    (mkCompactInput (cr_session_id request) (cr_turn_id request) (field_agent_id subagent) (field_agent_type subagent)
       (cr_transcript_path request) (cr_cwd request) (lit "PreCompact") (cr_model request) (cr_trigger request)).

(** [codex-rs/hooks/src/events/compact.rs:207-220 post_command_input_json] *)
Definition post_command_input_json (request : CompactRequest) : result str str :=
  let subagent := subagent_fields (cr_subagent request) in
  write_post_compact
    (mkCompactInput (cr_session_id request) (cr_turn_id request) (field_agent_id subagent) (field_agent_type subagent)
       (cr_transcript_path request) (cr_cwd request) (lit "PostCompact") (cr_model request) (cr_trigger request)).

(** [codex-rs/hooks/src/events/compact.rs:329-416 parse_completed] what a run says, for the event with the label. *)
Definition read_compact_run (event_label : str) (parse_output : str -> option CompactOutput)
    (run_result : CommandRunResult) : HookRunStatus * list HookOutputEntry * CompactHandlerData :=
  let nothing := mkCompactData false None in
  match error run_result with
  | Some error => (RunFailed, [Entry KindError error], nothing)
  | None =>
      match exit_code run_result with
      | Some code =>
          if (code =? 0)%Z then
            match trim (stdout run_result) with
            | [] => (RunCompleted, [], nothing)
            | _ =>
                match parse_output (stdout run_result) with
                | Some parsed =>
                    let universal := compact_universal parsed in
                    let entries := entry_if KindWarning (system_message universal) in
                    if negb (continue_processing universal) then
                      (RunStopped,
                       entries ++ [Entry KindStop (default (event_label ++ lit " hook stopped execution") (stop_reason universal))],
                       mkCompactData true (stop_reason universal))
                    else
                      match compact_invalid_reason parsed with
                      | Some invalid_reason => (RunFailed, entries ++ [Entry KindError invalid_reason], nothing)
                      | None => (RunCompleted, entries, nothing)
                      end
                | None =>
                    if looks_like_json (stdout run_result)
                    then (RunFailed, [Entry KindError (lit "hook returned invalid " ++ event_label ++ lit " hook JSON output")], nothing)
                    else (RunCompleted, [], nothing)
                end
            end
          else (RunFailed, [Entry KindError (default (exited_with code) (trimmed_non_empty (stderr run_result)))], nothing)
      | None => (RunFailed, [Entry KindError (lit "hook process terminated without an exit code")], nothing)
      end
  end.

(** [codex-rs/hooks/src/events/compact.rs:228-313 parse_pre_completed] the same steps, for the event before. *)
Definition parse_pre_compact_completed (handler : ConfiguredHandler) (run_result : CommandRunResult)
    (turn_id : option str) : option (ParsedHandler CompactHandlerData) :=
  let '(status, entries, data) := read_compact_run (lit "PreCompact") parse_pre_compact run_result in
  Some (mkParsed (mkCompleted turn_id (completed_summary handler run_result status entries)) data 0).

(** [codex-rs/hooks/src/events/compact.rs:315-327 parse_post_completed] *)
Definition parse_post_compact_completed (handler : ConfiguredHandler) (run_result : CommandRunResult)
    (turn_id : option str) : option (ParsedHandler CompactHandlerData) :=
  let '(status, entries, data) := read_compact_run (lit "PostCompact") parse_post_compact run_result in
  Some (mkParsed (mkCompleted turn_id (completed_summary handler run_result status entries)) data 0).

(** [codex-rs/hooks/src/events/compact.rs:72-123 run_pre] *)
Definition run_pre_compact (world : World) (handlers : list ConfiguredHandler) (shell : CommandShell)
    (request : CompactRequest) : option CompactOutcome :=
  let matched := select_handlers regex handlers PreCompact (Some (cr_trigger request)) in
  match matched with
  | [] => Some (mkCompactOutcome [] false None)
  | _ =>
      match pre_command_input_json request with
      | Err error =>
          Some (mkCompactOutcome
                  (serialization_failure_hook_events (now world) matched (Some (cr_turn_id request))
                     (lit "failed to serialize pre compact hook input: " ++ error)) false None)
      | Ok input_json =>
          results ← execute_handlers world shell matched input_json (cr_cwd request) (Some (cr_turn_id request))
                      parse_pre_compact_completed;
          Some (mkCompactOutcome (map completed results) (existsb (fun result => cd_should_stop (data result)) results)
                  (find_map (fun result => cd_stop_reason (data result)) results))
      end
  end.

(** [codex-rs/hooks/src/events/compact.rs:154-205 run_post] *)
Definition run_post_compact (world : World) (handlers : list ConfiguredHandler) (shell : CommandShell)
    (request : CompactRequest) : option CompactOutcome :=
  let matched := select_handlers regex handlers PostCompact (Some (cr_trigger request)) in
  match matched with
  | [] => Some (mkCompactOutcome [] false None)
  | _ =>
      match post_command_input_json request with
      | Err error =>
          Some (mkCompactOutcome
                  (serialization_failure_hook_events (now world) matched (Some (cr_turn_id request))
                     (lit "failed to serialize post compact hook input: " ++ error)) false None)
      | Ok input_json =>
          results ← execute_handlers world shell matched input_json (cr_cwd request) (Some (cr_turn_id request))
                      parse_post_compact_completed;
          Some (mkCompactOutcome (map completed results) (existsb (fun result => cd_should_stop (data result)) results)
                  (find_map (fun result => cd_stop_reason (data result)) results))
      end
  end.

(** ** The end of a turn or a subagent *)

(** [codex-rs/hooks/src/events/stop.rs:37-44 StopHookTarget] *)
Inductive StopHookTarget :=
| StopTarget
| SubagentStopTarget (agent_id agent_type : str) (agent_transcript_path : option str).

(** [codex-rs/hooks/src/events/stop.rs:24-34 StopRequest] *)
Record StopRequest := mkStopRequest {
  st_session_id : str; st_turn_id : str; st_cwd : str; st_transcript_path : option str; st_model : str;
  st_permission_mode : str; st_stop_hook_active : bool; st_last_assistant_message : option str; st_target : StopHookTarget
}.

(** [codex-rs/hooks/src/events/stop.rs:47-52 StopHookTarget::event_name] *)
Definition stop_event_name (self : StopHookTarget) : HookEventName :=
  match self with StopTarget => Stop | SubagentStopTarget _ _ _ => SubagentStop end.

(** [codex-rs/hooks/src/events/stop.rs:54-59 StopHookTarget::matcher_input] *)
Definition stop_matcher_input (self : StopHookTarget) : option str :=
  match self with StopTarget => None | SubagentStopTarget _ agent_type _ => Some agent_type end.

(** [codex-rs/protocol/src/items.rs:74-77 HookPromptFragment] *)
Record HookPromptFragment := mkFragment { fragment_text : str; hook_run_id : str }.

(** [codex-rs/hooks/src/events/stop.rs:63-70 StopOutcome] *)
Record StopOutcome := mkStopOutcome {
  to_hook_events : list HookCompletedEvent;
  to_should_stop : bool;
  to_stop_reason : option str;
  to_should_block : bool;
  to_block_reason : option str;
  to_continuation_fragments : list HookPromptFragment
}.

(** [codex-rs/hooks/src/events/stop.rs:73-79 StopHandlerData] *)
Record StopHandlerData := mkStopData {
  td_should_stop : bool;
  td_stop_reason : option str;
  td_should_block : bool;
  td_block_reason : option str;
  td_continuation_fragments : list HookPromptFragment
}.

(** [codex-rs/hooks/src/events/stop.rs:81-93 preview] *)
Definition preview_stop (now : Z) (handlers : list ConfiguredHandler) (request : StopRequest) : list HookRunSummary :=
  map (running_summary now)
    (select_handlers regex handlers (stop_event_name (st_target request)) (stop_matcher_input (st_target request))).

(** [codex-rs/hooks/src/events/stop.rs:202-371 parse_completed] what a run says for the one event or the other, with the
    text of each message that names it, and the prompt to go on with. *)
Definition read_stop_run (subagent : bool) (run_result : CommandRunResult)
    : HookRunStatus * list HookOutputEntry * (bool * option str * option str) :=
  let nothing := (false, None, None) in
  let name := lit (if subagent then "SubagentStop" else "Stop") in
  match error run_result with
  | Some error => (RunFailed, [Entry KindError error], nothing)
  | None =>
      match exit_code run_result with
      | Some code =>
          if (code =? 0)%Z then
            match trim (stdout run_result) with
            | [] => (RunCompleted, [], nothing)
            | _ =>
                match (if subagent then parse_subagent_stop (stdout run_result) else parse_stop (stdout run_result)) with
                | Some parsed =>
                    let universal := stop_universal parsed in
                    let entries := entry_if KindWarning (system_message universal) in
                    if negb (continue_processing universal) then
                      (RunStopped, entries ++ entry_if KindStop (stop_reason universal), (true, stop_reason universal, None))
                    else
                      match stop_invalid_block_reason parsed with
                      | Some invalid_block_reason => (RunFailed, entries ++ [Entry KindError invalid_block_reason], nothing)
                      | None =>
                          if stop_should_block parsed then
                            match (reason ← stop_output_reason parsed; trimmed_non_empty reason) with
                            | Some reason => (RunBlocked, entries ++ [Entry KindFeedback reason], (false, None, Some reason))
                            | None =>
                                (RunFailed, entries ++ [Entry KindError (name ++ lit " hook returned decision:block without a non-empty reason")], nothing)
                            end
                          else (RunCompleted, entries, nothing)
                      end
                | None =>
                    (RunFailed,
                     [Entry KindError (lit (if subagent then "hook returned invalid subagent stop hook JSON output"
                                            else "hook returned invalid stop hook JSON output"))], nothing)
                end
            end
          else if (code =? 2)%Z then
            match trimmed_non_empty (stderr run_result) with
            | Some reason => (RunBlocked, [Entry KindFeedback reason], (false, None, Some reason))
            | None =>
                (RunFailed, [Entry KindError (name ++ lit " hook exited with code 2 but did not write a continuation prompt to stderr")], nothing)
            end
          else (RunFailed, [Entry KindError (exited_with code)], nothing)
      | None => (RunFailed, [Entry KindError (lit "hook exited without a status code")], nothing)
      end
  end.

(** [codex-rs/hooks/src/events/stop.rs:202-371 parse_completed] [None] when the event of the handler is neither of the
    two, and the code panics.  The reason to block is the prompt to go on with. *)
Definition parse_stop_completed (handler : ConfiguredHandler) (run_result : CommandRunResult) (turn_id : option str)
    : option (ParsedHandler StopHandlerData) :=
  subagent ← match event_name handler with Stop => Some false | SubagentStop => Some true | _ => None end;
  let '(status, entries, (should_stop, stop_reason, continuation_prompt)) := read_stop_run subagent run_result in
  let run := completed_summary handler run_result status entries in
  Some (mkParsed (mkCompleted turn_id run)
          (mkStopData should_stop stop_reason (is_some continuation_prompt) continuation_prompt
             (match continuation_prompt with Some prompt => [mkFragment prompt (run_id_ run)] | None => [] end)) 0).

(** [codex-rs/hooks/src/events/stop.rs:373-407 aggregate_results] *)
Definition aggregate_results (results : list StopHandlerData) : StopHandlerData :=
  let should_stop := existsb td_should_stop results in
  let stop_reason := find_map td_stop_reason results in
  let should_block := negb should_stop && existsb td_should_block results in
  let block_reason := if should_block then join_text_chunks (omap td_block_reason results) else None in
  let continuation_fragments :=
    if should_block then mjoin (map td_continuation_fragments (List.filter td_should_block results)) else [] in
  mkStopData should_stop stop_reason should_block block_reason continuation_fragments.

(** [codex-rs/hooks/src/events/stop.rs:409-418 serialization_failure_outcome] *)
Definition stop_failure (hook_events : list HookCompletedEvent) : StopOutcome :=
  mkStopOutcome hook_events false None false None [].

(** [codex-rs/hooks/src/events/stop.rs:95-200 run] *)
Definition run_stop (world : World) (handlers : list ConfiguredHandler) (shell : CommandShell) (request : StopRequest)
    : option StopOutcome :=
  let matched := select_handlers regex handlers (stop_event_name (st_target request))
                   (stop_matcher_input (st_target request)) in
  match matched with
  | [] => Some (mkStopOutcome [] false None false None [])
  | _ =>
      let '(input, message) :=
        match st_target request with
        | StopTarget =>
            (write_stop (mkStopInput (st_session_id request) (st_turn_id request) (st_transcript_path request)
                           (st_cwd request) (lit "Stop") (st_model request) (st_permission_mode request)
                           (st_stop_hook_active request) (st_last_assistant_message request)),
             lit "failed to serialize stop hook input: ")
        | SubagentStopTarget agent_id agent_type agent_transcript_path =>
            (write_subagent_stop (mkSubagentStopInput (st_session_id request) (st_turn_id request)
                                    (st_transcript_path request) agent_transcript_path (st_cwd request)
                                    (lit "SubagentStop") (st_model request) (st_permission_mode request)
                                    (st_stop_hook_active request) agent_id agent_type (st_last_assistant_message request)),
             lit "failed to serialize subagent stop hook input: ")
        end in
      match input with
      | Err error =>
          Some (stop_failure (serialization_failure_hook_events (now world) matched (Some (st_turn_id request))
                                (message ++ error)))
      | Ok input_json =>
          results ← execute_handlers world shell matched input_json (st_cwd request) (Some (st_turn_id request))
                      parse_stop_completed;
          let aggregate := aggregate_results (map data results) in
          Some (mkStopOutcome (map completed results) (td_should_stop aggregate) (td_stop_reason aggregate)
                  (td_should_block aggregate) (td_block_reason aggregate) (td_continuation_fragments aggregate))
      end
  end.

(** ** What the runs say *)

(** The runs of the handlers that an event selects. *)
Definition stop_handlers (handlers : list ConfiguredHandler) (request : StopRequest) : list ConfiguredHandler :=
  select_handlers regex handlers (stop_event_name (st_target request)) (stop_matcher_input (st_target request)).

(** The input of a hook at the end of a turn. *)
Definition stop_input (request : StopRequest) : result str str :=
  match st_target request with
  | StopTarget =>
      write_stop (mkStopInput (st_session_id request) (st_turn_id request) (st_transcript_path request) (st_cwd request)
                    (lit "Stop") (st_model request) (st_permission_mode request) (st_stop_hook_active request)
                    (st_last_assistant_message request))
  | SubagentStopTarget agent_id agent_type agent_transcript_path =>
      write_subagent_stop (mkSubagentStopInput (st_session_id request) (st_turn_id request) (st_transcript_path request)
                             agent_transcript_path (st_cwd request) (lit "SubagentStop") (st_model request)
                             (st_permission_mode request) (st_stop_hook_active request) agent_id agent_type
                             (st_last_assistant_message request))
  end.

(** The selected handlers with their runs. *)
Definition stop_runs (world : World) (handlers : list ConfiguredHandler) (shell : CommandShell) (request : StopRequest)
    : list (ConfiguredHandler * CommandRunResult) :=
  match stop_input request with
  | Ok input_json =>
      zip (stop_handlers handlers request) (runs world shell input_json (st_cwd request) (stop_handlers handlers request))
  | Err _ => []
  end.

Definition is_subagent (target : StopHookTarget) : bool := match target with StopTarget => false | _ => true end.

Definition read_stop_wire (subagent : bool) : Json -> option StopCommandOutputWire :=
  if subagent then read_subagent_stop else read_stop.

(** A run that stops: its answer says not to go on. *)
Definition says_stop (subagent : bool) (r : CommandRunResult) : Prop :=
  exists wire, answers (read_stop_wire subagent) r wire /\ w_continue (tw_universal wire) = false.

(** A run that has the turn go on: its answer blocks the end with a reason, or it ends with exit code 2 and a message. *)
Definition says_go_on (subagent : bool) (r : CommandRunResult) (reason : str) : Prop :=
  (exists wire text, answers (read_stop_wire subagent) r wire /\ w_continue (tw_universal wire) = true /\
     tw_decision wire = Some BlockDecision /\ tw_reason wire = Some text /\ trimmed_non_empty text = Some reason)
  \/ objects r reason.

Lemma parse_stop_wire (subagent : bool) (out : str) :
  (if subagent then parse_subagent_stop out else parse_stop out) =
  (wire ← parse_json (read_stop_wire subagent) out;
   Some (stop_output (tw_universal wire) (tw_decision wire) (tw_reason wire)
           (lit (if subagent then "SubagentStop" else "Stop")))).
Proof. by destruct subagent. Qed.

Lemma blank_none text : trimmed_non_empty text = None <-> trim text = [].
Proof. unfold trimmed_non_empty. by destruct (trim text). Qed.

(** The answer of a stop hook, read. *)
Lemma stop_answer_read subagent wire r :
  answers (read_stop_wire subagent) r wire ->
  (read_stop_run subagent r).2 =
  (if negb (w_continue (tw_universal wire)) then (true, w_stop_reason (tw_universal wire), None)
   else (false, None, match tw_decision wire with
                      | Some _ => text ← tw_reason wire; trimmed_non_empty text
                      | None => None
                      end)).
Proof.
  intros (He & Hc & Hp). unfold read_stop_run. rewrite He, Hc. cbn [Z.eqb].
  destruct (trim (stdout r)) eqn:Et; [by rewrite parse_json_blank in Hp|].
  rewrite parse_stop_wire, Hp. cbn -[trimmed_non_empty lit]. destruct wire as [[c sr so sm] dec reason]. cbn -[trimmed_non_empty lit].
  destruct c; [|done]. cbn -[trimmed_non_empty lit]. destruct dec as [d|]; [|done]. cbn -[trimmed_non_empty lit].
  destruct reason as [text|]; cbn -[trimmed_non_empty lit]; [|done]. case_bool_decide as Hb; cbn -[trimmed_non_empty lit].
  - apply blank_none in Hb. by rewrite Hb.
  - destruct (trimmed_non_empty text) eqn:E; [done|]. by apply blank_none in E.
Qed.

(** What a run without an answer says. *)
Lemma stop_no_answer_read subagent r :
  (forall wire, ~ answers (read_stop_wire subagent) r wire) ->
  (read_stop_run subagent r).2 =
  (false, None, if bool_decide (error r = None /\ exit_code r = Some 2%Z) then trimmed_non_empty (stderr r) else None).
Proof.
  intros Hno. unfold read_stop_run. destruct (error r) as [e|] eqn:He; [by rewrite bool_decide_false by (by intros [? _])|].
  destruct (exit_code r) as [code|] eqn:Hc; [|by rewrite bool_decide_false by (by intros [_ ?])].
  destruct (Z.eqb_spec code 0) as [->|H0].
  - rewrite bool_decide_false by (by intros [_ ?]). destruct (trim (stdout r)); [done|]. rewrite parse_stop_wire.
    destruct (parse_json (read_stop_wire subagent) (stdout r)) as [wire|] eqn:Ep; [|done]. by destruct (Hno wire).
  - destruct (Z.eqb_spec code 2) as [->|H2].
    + rewrite bool_decide_true by done. by destruct (trimmed_non_empty (stderr r)).
    + by rewrite bool_decide_false by (by intros [_ [= ->]]).
Qed.

Lemma answers_dec subagent r :
  (exists wire, answers (read_stop_wire subagent) r wire) \/ (forall wire, ~ answers (read_stop_wire subagent) r wire).
Proof.
  unfold answers. destruct (error r); [right; by intros w (? & _)|].
  destruct (decide (exit_code r = Some 0%Z)); [|right; by intros w (_ & ? & _)].
  destruct (parse_json _ _) as [w|]; [left; by exists w|right; by intros w (_ & _ & ?)].
Qed.

Lemma read_stop_spec subagent r : (read_stop_run subagent r).2.1.1 = true <-> says_stop subagent r.
Proof.
  destruct (answers_dec subagent r) as [[wire Ha]|Hno].
  - rewrite (stop_answer_read _ wire) by done. split.
    + intros Hs. exists wire. split; [done|]. by destruct (w_continue _).
    + intros (w & Hw & Hc). assert (w = wire) as -> by (destruct Ha as (_ & _ & Ha), Hw as (_ & _ & Hw); congruence).
      by rewrite Hc.
  - rewrite stop_no_answer_read by done. split; [done|]. intros (w & Hw & _). by destruct (Hno w).
Qed.

Lemma read_go_on_spec subagent r reason : (read_stop_run subagent r).2.2 = Some reason <-> says_go_on subagent r reason.
Proof.
  destruct (answers_dec subagent r) as [[wire Ha]|Hno].
  - assert (forall m, ~ objects r m) as Hno by (intros m (_ & Hc & _); destruct Ha as (_ & Hc' & _); congruence).
    rewrite (stop_answer_read _ wire) by done. unfold says_go_on. split.
    + destruct (w_continue _) eqn:Ec; [|done]. cbn. intros Hr. left. destruct (tw_decision wire) as [[]|] eqn:Ed; [|done].
      destruct (tw_reason wire) as [text|] eqn:Et; [|done]. by exists wire, text.
    + intros [(w & text & Hw & Hc & Hd & Ht & Hr)|Ho]; [|by apply Hno in Ho].
      assert (w = wire) as -> by (destruct Ha as (_ & _ & Ha), Hw as (_ & _ & Hw); congruence).
      rewrite Hc, Hd, Ht. done.
  - rewrite stop_no_answer_read by done. unfold says_go_on, objects. cbn. case_bool_decide as Hb; split.
    + intros Hr. right. by destruct Hb.
    + intros [(w & text & Hw & _)|(_ & _ & ?)]; [by destruct (Hno w)|done].
    + done.
    + intros [(w & text & Hw & _)|(He & Hc & _)]; [by destruct (Hno w)|]. by destruct Hb.
Qed.

(** ** Combining the answers at the end of a turn *)

(** What the run of a handler adds to the decision. *)
Definition stop_said (subagent : bool) (h : ConfiguredHandler) (r : CommandRunResult)
    : HookRunStatus * list HookOutputEntry * StopHandlerData :=
  let '(status, entries, (should_stop, stop_reason, prompt)) := read_stop_run subagent r in
  (status, entries,
   mkStopData should_stop stop_reason (is_some prompt) prompt
     (match prompt with Some prompt => [mkFragment prompt (run_id h)] | None => [] end)).

Lemma selected_event handlers name input h : h ∈ select_handlers regex handlers name input -> event_name h = name.
Proof.
  unfold select_handlers, select_handlers_for_matcher_inputs.
  rewrite !list_elem_of_In, !filter_In, bool_decide_eq_true. by intros [[_ ?] _].
Qed.

Lemma run_stop_spec world handlers shell request :
  exists outcome, run_stop world handlers shell request = Some outcome /\
    length (to_hook_events outcome) = length (stop_handlers handlers request) /\
    let said := map (fun '(h, r) => (stop_said (is_subagent (st_target request)) h r).2) (stop_runs world handlers shell request) in
    let aggregate := aggregate_results said in
    to_should_stop outcome = td_should_stop aggregate /\ to_should_block outcome = td_should_block aggregate /\
    to_block_reason outcome = td_block_reason aggregate /\
    to_continuation_fragments outcome = td_continuation_fragments aggregate.
Proof.
  unfold run_stop, stop_runs. fold (stop_handlers handlers request).
  assert (forall h, h ∈ stop_handlers handlers request -> event_name h = stop_event_name (st_target request)) as Hev.
  { intros h Hh. by eapply selected_event. }
  destruct (stop_handlers handlers request) as [|h hs] eqn:Eh.
  { eexists. split; [done|]. split; [done|]. by destruct (stop_input request). }
  match goal with |- context [let '(input, message) := ?m in _] => set (choice := m) end.
  assert (choice.1 = stop_input request) as Hin by (unfold choice, stop_input; by destruct (st_target request)).
  destruct choice as [input message]. cbn in Hin. subst input.
  destruct (stop_input request) as [json|err].
  - destruct (execute_reads_at world shell json (st_cwd request) (Some (st_turn_id request)) parse_stop_completed
      (stop_said (is_subagent (st_target request))) (h :: hs)) as (results & ranks & He & _ & _ & Hd & Hi).
    { intros handler r t Hh. apply Hev in Hh. unfold parse_stop_completed, stop_said. rewrite Hh.
      destruct (st_target request); cbn -[read_stop_run];
        by destruct (read_stop_run _ r) as [[st es] [[ss sr] prompt]]. }
    rewrite He. cbn [option_bind mbind]. eexists. split; [done|]. cbn [to_hook_events]. split.
    { apply (f_equal length) in Hi. rewrite !length_map in Hi. by rewrite length_map. }
    cbn [to_should_stop to_should_block to_block_reason to_continuation_fragments]. rewrite Hd.
    assert (forall l m, zip_with (fun h r => (stop_said (is_subagent (st_target request)) h r).2) l m =
              map (fun '(h, r) => (stop_said (is_subagent (st_target request)) h r).2) (zip l m)) as Hz.
    { clear. induction l as [|x l IH]; intros [|y m]; try done. cbn. by rewrite IH. }
    by rewrite Hz.
  - eexists. split; [done|]. split; [|done]. cbn [to_hook_events stop_failure].
    unfold serialization_failure_hook_events. by rewrite length_map.
Qed.

(** The blocking answers among those given. *)
Definition go_on_fragments (subagent : bool) (pairs : list (ConfiguredHandler * CommandRunResult)) : list HookPromptFragment :=
  omap (fun '(h, r) => prompt ← (read_stop_run subagent r).2.2; Some (mkFragment prompt (run_id h))) pairs.

Lemma stop_said_data subagent h r :
  (stop_said subagent h r).2 =
  let '(should_stop, stop_reason, prompt) := (read_stop_run subagent r).2 in
  mkStopData should_stop stop_reason (is_some prompt) prompt
    (match prompt with Some prompt => [mkFragment prompt (run_id h)] | None => [] end).
Proof. unfold stop_said. by destruct (read_stop_run subagent r) as [[? ?] [[? ?] ?]]. Qed.

Lemma aggregate_said subagent pairs :
  let said := map (fun '(h, r) => (stop_said subagent h r).2) pairs in
  existsb td_should_stop said = existsb (fun p => (read_stop_run subagent p.2).2.1.1) pairs /\
  existsb td_should_block said = negb (bool_decide (go_on_fragments subagent pairs = [])) /\
  omap td_block_reason said = map fragment_text (go_on_fragments subagent pairs) /\
  mjoin (map td_continuation_fragments (List.filter td_should_block said)) = go_on_fragments subagent pairs.
Proof.
  intros said. induction pairs as [|[h r] pairs IH]; [done|]. unfold said, go_on_fragments.
  rewrite map_cons, stop_said_data. cbn -[read_stop_run stop_said].
  destruct (read_stop_run subagent r).2 as [[ss sr] prompt]. cbn -[read_stop_run stop_said].
  destruct IH as (IH1 & IH2 & IH3 & IH4). rewrite IH1. split; [done|].
  destruct prompt as [prompt|]; cbn -[read_stop_run stop_said].
  - split; [done|]. split; [by f_equal|]. by f_equal.
  - done.
Qed.

Lemma go_on_sublist world handlers shell request subagent :
  map hook_run_id (go_on_fragments subagent (stop_runs world handlers shell request))
  `sublist_of` map run_id (stop_handlers handlers request).
Proof.
  unfold stop_runs. destruct (stop_input request); [|apply sublist_nil_l].
  generalize (runs world shell a (st_cwd request) (stop_handlers handlers request)).
  induction (stop_handlers handlers request) as [|h hs IH]; intros l; [apply sublist_nil_l|].
  destruct l as [|r l]; [apply sublist_nil_l|]. unfold go_on_fragments. cbn -[read_stop_run].
  destruct (read_stop_run subagent r).2.2; cbn; constructor; apply IH.
Qed.

(** Asking the hooks at the end of a turn or of a subagent never panics and reports one event per selected hook.  The
    turn is stopped exactly when the answer of some hook says not to go on; it goes on exactly when no hook stops it and
    some hook blocks its end, by an answer with a reason or by ending with exit code 2 and a message.  It then goes on
    with one prompt per hook that blocks, in the order of the configuration, each with the id of its run, and the reason
    is these prompts joined; otherwise there is no prompt and no reason. *)
Theorem stop_hooks_combined world handlers shell request :
  exists outcome, run_stop world handlers shell request = Some outcome /\
    length (to_hook_events outcome) = length (stop_handlers handlers request) /\
    let answers := stop_runs world handlers shell request in
    let subagent := is_subagent (st_target request) in
    (to_should_stop outcome = true <-> exists h r, (h, r) ∈ answers /\ says_stop subagent r) /\
    (to_should_block outcome = true <->
       (forall h r, (h, r) ∈ answers -> ~ says_stop subagent r) /\
       exists h r reason, (h, r) ∈ answers /\ says_go_on subagent r reason) /\
    (forall prompt id, mkFragment prompt id ∈ to_continuation_fragments outcome <->
       to_should_block outcome = true /\ exists h r, (h, r) ∈ answers /\ says_go_on subagent r prompt /\ id = run_id h) /\
    map hook_run_id (to_continuation_fragments outcome) `sublist_of` map run_id (stop_handlers handlers request) /\
    to_block_reason outcome =
      (if to_should_block outcome then Some (join [NL; NL] (map fragment_text (to_continuation_fragments outcome))) else None).
Proof.
  destruct (run_stop_spec world handlers shell request) as (outcome & Hrun & Hl & Hs & Hb & Hr & Hf).
  exists outcome. split; [done|]. split; [done|]. intros answers subagent. fold answers subagent in Hs, Hb, Hr, Hf.
  destruct (aggregate_said subagent answers) as (H1 & H2 & H3 & H4).
  unfold aggregate_results in Hs, Hb, Hr, Hf. cbn [td_should_stop td_should_block td_block_reason td_continuation_fragments] in *.
  rewrite H1 in *. rewrite H2 in *. rewrite H3 in Hr. rewrite H4 in Hf.
  set (fragments := go_on_fragments subagent answers) in *.
  assert (forall prompt id, mkFragment prompt id ∈ fragments <->
            exists h r, (h, r) ∈ answers /\ says_go_on subagent r prompt /\ id = run_id h) as Helem.
  { intros prompt id. unfold fragments, go_on_fragments. rewrite list_elem_of_omap. split.
    - intros ([h r] & Hin & Hp). destruct (read_stop_run subagent r).2.2 as [q|] eqn:E; [|done]. cbn in Hp.
      injection Hp as <- <-. exists h, r. split; [done|]. split; [by apply read_go_on_spec|done].
    - intros (h & r & Hin & Hp & ->). exists (h, r). split; [done|]. apply read_go_on_spec in Hp. by rewrite Hp. }
  assert (existsb (fun p => (read_stop_run subagent p.2).2.1.1) answers = true <-> exists h r, (h, r) ∈ answers /\ says_stop subagent r)
    as Hstop.
  { rewrite existsb_exists. split.
    - intros ([h r] & Hin & Hp). exists h, r. split; [by apply list_elem_of_In|by apply read_stop_spec].
    - intros (h & r & Hin & Hp). exists (h, r). split; [by apply list_elem_of_In|by apply read_stop_spec]. }
  assert (fragments <> [] <-> exists h r reason, (h, r) ∈ answers /\ says_go_on subagent r reason) as Hsome.
  { split.
    - intros Hn. destruct fragments as [|[prompt id] l] eqn:E; [done|].
      destruct (proj1 (Helem prompt id)) as (h & r & ? & ? & _); [by left|]. by exists h, r, prompt.
    - intros (h & r & reason & Hin & Hp) He. assert (mkFragment reason (run_id h) ∈ fragments) as Hx by (apply Helem; by exists h, r).
      rewrite He in Hx. by apply elem_of_nil in Hx. }
  split; [by rewrite Hs|].
  assert (to_should_block outcome = true <->
       (forall h r, (h, r) ∈ answers -> ~ says_stop subagent r) /\
       exists h r reason, (h, r) ∈ answers /\ says_go_on subagent r reason) as Hblock.
  { rewrite Hb, andb_true_iff, !negb_true_iff, <- not_true_iff_false, Hstop, bool_decide_eq_false, Hsome.
    apply and_iff_compat_both; [|done]. split; [|naive_solver]. intros Hn h r Hin Hp. apply Hn. by exists h, r. }
  split; [done|]. rewrite Hf, Hr, <- Hb. split; [|split].
  - intros prompt id. destruct (to_should_block outcome); [rewrite Helem; naive_solver|].
    split; [by intros ?%elem_of_nil|by intros [? _]].
  - assert (map hook_run_id fragments `sublist_of` map run_id (stop_handlers handlers request)) as Hsub.
    { apply (go_on_sublist world). }
    destruct (to_should_block outcome); [done|apply sublist_nil_l].
  - destruct (to_should_block outcome); [|done]. unfold join_text_chunks.
    destruct (proj1 Hblock eq_refl) as [_ Hn%Hsome]. by destruct fragments.
Qed.

(** ** The start of a subagent only adds context *)

Lemma read_start_total name r :
  name = SessionStart \/ name = SubagentStart -> exists said, read_start_run name r = Some said /\
    (name = SubagentStart -> sd_should_stop said.2 = false /\ sd_stop_reason said.2 = None).
Proof.
  intros Hn. unfold read_start_run. destruct (error r); [eexists; split; [reflexivity|done]|]. destruct (exit_code r) as [code|]; [|eexists; split; [reflexivity|done]].
  destruct (code =? 0)%Z; [|eexists; split; [reflexivity|done]]. destruct (trim (stdout r)); [eexists; split; [reflexivity|done]|].
  destruct Hn as [-> | ->]; cbn.
  - destruct (parse_session_start (stdout r)) as [[u [?|]]|]; cbn; repeat case_match; (eexists; split; [reflexivity|done]).
  - destruct (parse_subagent_start (stdout r)) as [[u [?|]]|]; cbn; repeat case_match; (eexists; split; [reflexivity|done]).
Qed.

(** Asking the hooks at the start of a session or a subagent never panics, and never stops a subagent. *)
Theorem subagent_start_never_stopped world handlers shell request turn_id :
  exists outcome, run_session_start world handlers shell request turn_id = Some outcome /\
    (start_event_name (ss_target request) = SubagentStart ->
     so_should_stop outcome = false /\ so_stop_reason outcome = None).
Proof.
  unfold run_session_start.
  match goal with |- context [match ?m with [] => _ | _ => _ end] => set (matched := m) end.
  assert (forall h, h ∈ matched -> event_name h = start_event_name (ss_target request)) as Hev.
  { intros h Hh. by eapply selected_event. }
  destruct matched as [|h hs]; [by eexists|].
  match goal with |- context [let '(p, message) := ?m in _] => destruct m as [[input turn] message] end.
  destruct input as [json|err]; [|by eexists].
  set (name := start_event_name (ss_target request)) in *.
  set (read := fun (h : ConfiguredHandler) r =>
    default (RunFailed, [], mkStartData false None []) (read_start_run name r)).
  assert (name = SessionStart \/ name = SubagentStart) as Hname by (unfold name; destruct (ss_target request); auto).
  destruct (execute_reads_at world shell json (ss_cwd request) turn parse_start_completed read (h :: hs))
    as (results & ranks & He & _ & _ & Hd & _).
  { intros x r t Hx. unfold parse_start_completed, read. rewrite (Hev x Hx).
    destruct (read_start_total name r Hname) as ([[st es] d] & Hr & _). rewrite Hr. done. }
  rewrite He. cbn [option_bind mbind]. eexists. split; [done|]. intros Hsub. cbn [so_should_stop so_stop_reason].
  assert (Forall (fun d => sd_should_stop d = false /\ sd_stop_reason d = None) (map data results)) as Hall.
  { rewrite Hd. apply Forall_forall. intros d Hin. apply elem_of_lookup_zip_with in Hin as (i & x & r & -> & _ & _).
    unfold read. destruct (read_start_total name r Hname) as (said & Hr & Hs). rewrite Hr. by apply Hs. }
  clear -Hall. unfold find_map. induction results as [|x results IH]; [done|]. cbn in *.
  apply Forall_cons in Hall as [[-> ->] Hall]. by apply IH.
Qed.
End Events.

End HookTurnEvents.
