(* ===== verification/HookDiscovery.v ===== *)
(** * Finding hooks: hooks/src/config_rules.rs, engine/discovery.rs, declarations.rs and lib.rs

    Which hooks are configured: those that administrators require, those of the layers of the configuration and those of
    plugins, in this order; which of them are enabled and trusted, and so run.  The file system, the readers of JSON and
    TOML, the conversion of a hook's identity to TOML and the order of a hash map are parameters. *)

From S2P Require Import Prelude Text AbsolutePath Permissions ResponseItems ConfigToml Requirements ConfigLayers HookTypes HookDispatch.

Module HookDiscovery.
Import AbsolutePath ResponseItems ConfigToml HookTypes ConfigLayers HookDispatch.

(** [str::replace] of a pattern that is not empty. *)
Fixpoint replace_at (fuel : nat) (pattern value s : str) : str :=
  match fuel with
  | 0 => s
  | S fuel =>
      match find_sub pattern s with
      | Some i => take i s ++ value ++ replace_at fuel pattern value (drop (i + length pattern) s)
      | None => s
      end
  end.
Definition str_replace (pattern value s : str) : str := replace_at (S (length s)) pattern value s.

(** ** Keys of hooks *)

(** [codex-rs/hooks/src/lib.rs:95-108 hook_event_key_label] *)
Definition hook_event_key_label (name : HookEventName) : str :=
  lit match name with
      | PreToolUse => "pre_tool_use"
      | PermissionRequest => "permission_request"
      | PostToolUse => "post_tool_use"
      | PreCompact => "pre_compact"
      | PostCompact => "post_compact"
      | SessionStart => "session_start"
      | UserPromptSubmit => "user_prompt_submit"
      | SubagentStart => "subagent_start"
      | SubagentStop => "subagent_stop"
      | Stop => "stop"
      end.

(** [codex-rs/hooks/src/lib.rs:109-121 hook_key] *)
Definition hook_key (key_source : str) (name : HookEventName) (group_index handler_index : nat) : str :=
  key_source ++ lit ":" ++ hook_event_key_label name ++ lit ":" ++ show_nat group_index ++ lit ":" ++ show_nat handler_index.

(** [codex-rs/plugin/src/plugin_id.rs:9-13 PluginId] *)
Record PluginId := mkPluginId { plugin_name : str; marketplace_name : str }.

(** [codex-rs/plugin/src/plugin_id.rs:45-47 PluginId::as_key] *)
Definition as_key (self : PluginId) : str := plugin_name self ++ lit "@" ++ marketplace_name self.

(** [codex-rs/plugin/src/lib.rs:32-40 PluginHookSource] *)
Record PluginHookSource := mkPluginSource {
  ph_plugin_id : PluginId; ph_plugin_root : str; ph_plugin_data_root : str; ph_source_path : str;
  ph_source_relative_path : str; ph_hooks : Requirements.HookEventsToml
}.

(** [codex-rs/hooks/src/declarations.rs:35-37 plugin_hook_key_source] *)
Definition plugin_hook_key_source (plugin_id source_relative_path : str) : str :=
  plugin_id ++ lit ":" ++ source_relative_path.

(** [codex-rs/hooks/src/declarations.rs:6-9 PluginHookDeclaration] *)
Record PluginHookDeclaration := mkDeclaration { declared_key : str; declared_event_name : HookEventName }.

(** [codex-rs/hooks/src/declarations.rs:12-33 plugin_hook_declarations] *)
Definition plugin_hook_declarations (hook_sources : list PluginHookSource) : list PluginHookDeclaration :=
  mjoin (map (fun source =>
    let key_source := plugin_hook_key_source (as_key (ph_plugin_id source)) (ph_source_relative_path source) in
    mjoin (map (fun '(name, groups) =>
      mjoin (imap (fun group_index group =>
        imap (fun handler_index _ => mkDeclaration (hook_key key_source name group_index handler_index) name)
          (Requirements.group_hooks group)) groups)) (Requirements.into_matcher_groups (ph_hooks source)))) hook_sources).

(** ** States *)

(** [codex-rs/config/src/hook_config.rs:25-30 HookStateToml] *)
Record HookStateToml := mkState { enabled_ : option bool; trusted_hash : option str }.

(** [TomlValue::get] of a key. *)
Definition toml_get (value : TomlValue) (key : str) : option TomlValue := table ← as_table value; map_get table key.

(** ** Entries *)

(** [codex-rs/hooks/src/engine/mod.rs:81-97 HookListEntry] *)
Record HookListEntry := mkEntry {
  entry_key : str;
  entry_event_name : HookEventName;
  entry_handler_type : HookHandlerType;
  entry_matcher : option str;
  entry_command : option str;
  entry_timeout_sec : N;
  entry_status_message : option str;
  entry_source_path : str;
  entry_source : HookSource;
  entry_plugin_id : option str;
  entry_display_order : Z;
  entry_enabled : bool;
  entry_is_managed : bool;
  entry_current_hash : str;
  entry_trust_status : HookTrustStatus
}.

(** [codex-rs/hooks/src/engine/discovery.rs:33-37 DiscoveryResult] with the number of the next hook, which the code keeps
    beside it. *)
Record Discovery := mkDiscovery {
  found_handlers : list ConfiguredHandler; hook_entries : list HookListEntry; warnings : list str; next_order : Z
}.

(** [codex-rs/hooks/src/engine/discovery.rs:39-48 HookHandlerSource] *)
Record HookHandlerSource := mkSource {
  path : str; key_source : str; hook_source : HookSource; is_managed : bool; source_bypass_hook_trust : bool;
  hook_states : gmap str HookStateToml; source_env : list (str * str); plugin_id : option str
}.

(** [codex-rs/hooks/src/engine/discovery.rs:51-54 HookDiscoveryPolicy] *)
Record HookDiscoveryPolicy := mkPolicy { policy_managed_only : bool; bypass_hook_trust : bool }.

(** [codex-rs/hooks/src/engine/discovery.rs:57-59 HookDiscoveryPolicy::allows] *)
Definition allows (self : HookDiscoveryPolicy) (source : HookHandlerSource) : bool :=
  negb (policy_managed_only self) || is_managed source.

(** [codex-rs/hooks/src/engine/discovery.rs:582-596 hook_trust_status] *)
Definition hook_trust_status (is_managed : bool) (current_hash : str) (trusted_hash : option str) : HookTrustStatus :=
  if is_managed then TrustManaged
  else match trusted_hash with
       | Some trusted_hash => if bool_decide (trusted_hash = current_hash) then TrustTrusted else TrustModified
       | None => TrustUntrusted
       end.

(** [codex-rs/hooks/src/engine/discovery.rs:598-600 hook_enabled] *)
Definition hook_enabled (is_managed : bool) (state : option HookStateToml) : bool :=
  is_managed || negb (bool_decide ((state ← state; enabled_ state) = Some false)).

(** [codex-rs/hooks/src/engine/discovery.rs:602-606 hook_trusted_hash] *)
Definition hook_trusted_hash (is_managed : bool) (state : option HookStateToml) : option str :=
  if is_managed then None else state ← state; trusted_hash state.

(** [codex-rs/hooks/src/engine/discovery.rs:608-623 hook_metadata_for_config_layer_source] *)
Definition hook_metadata_for_config_layer_source (source : ConfigLayerSource) : HookSource * bool :=
  match source with
  | SystemLayer _ => (FromSystem, true)
  | UserLayer _ _ => (FromUser, false)
  | ProjectLayer _ => (FromProject, false)
  | MdmLayer _ _ => (FromMdm, true)
  | EnterpriseManagedLayer _ _ => (FromCloudManagedConfig, true)
  | SessionFlags => (FromSessionFlags, false)
  | LegacyManagedFromFile _ => (FromLegacyManagedConfigFile, true)
  | LegacyManagedFromMdm => (FromLegacyManagedConfigMdm, true)
  end.

(** [codex-rs/hooks/src/engine/discovery.rs:625-645 hook_source_for_requirement_source] of a source that is given. *)
Fixpoint hook_source_for (source : Requirements.RequirementSource) : HookSource :=
  match source with
  | Requirements.MdmManagedPreferences _ _ => FromMdm
  | Requirements.SystemRequirementsToml _ => FromSystem
  | Requirements.LegacyManagedConfigTomlFromFile _ => FromLegacyManagedConfigFile
  | Requirements.LegacyManagedConfigTomlFromMdm => FromLegacyManagedConfigMdm
  | Requirements.Composite sources => match sources with first :: _ => hook_source_for first | [] => FromUnknown end
  | Requirements.EnterpriseManaged _ _ => FromCloudRequirements
  | Requirements.UnknownSource => FromUnknown
  end.

(** [codex-rs/hooks/src/engine/discovery.rs:625-645 hook_source_for_requirement_source] *)
Definition hook_source_for_requirement_source (source : option Requirements.RequirementSource) : HookSource :=
  match source with Some source => hook_source_for source | None => FromUnknown end.

(** [codex-rs/hooks/src/engine/discovery.rs:393-406 escape_xml_text] *)
Definition escape_xml_text (value : str) : str :=
  mjoin (map (fun ch =>
    if (ch =? 38)%N then lit "&amp;"
    else if (ch =? 60)%N then lit "&lt;"
    else if (ch =? 62)%N then lit "&gt;"
    else if (ch =? 34)%N then lit "&quot;"
    else if (ch =? 39)%N then lit "&apos;"
    else [ch]) value).

Section Discovery.
Context (to_json : TomlValue -> Json) (to_vec : Json -> list N) (sha256 : list N -> list N).
(** [home_dir], [current_dir]; the debug form of a text; [Regex::new]. *)
Context (home_dir current_dir : option str) (debug_str : str -> str) (regex : str -> result str (str -> bool)).
(** Reading one state, and the hooks of a TOML or a JSON document. *)
Context (read_state : TomlValue -> option HookStateToml) (read_events : TomlValue -> result str Requirements.HookEventsToml).
Context (read_hooks_file : str -> result str Requirements.HookEventsToml).
(** [Path::is_file] and [fs::read_to_string]. *)
Context (is_file : str -> bool) (read_to_string : str -> result str str).
(** The TOML form of the identity of a hook, if it has one; the entries of a hash map in the order of its iteration. *)
Context (identity_toml : str -> Requirements.MatcherGroup -> option TomlValue) (hash_order : list (str * str) -> list (str * str)).

(** [codex-rs/hooks/src/config_rules.rs:47-66 hook_states_from_stack] one entry of a table of states. *)
Definition add_state (states : gmap str HookStateToml) (entry : str * TomlValue) : gmap str HookStateToml :=
  match read_state entry.2 with
  | None => states
  | Some state =>
      match trim entry.1 with
      | [] => states
      | key =>
          let effective := default (mkState None None) (states !! key) in
          <[key := mkState (match enabled_ state with Some e => Some e | None => enabled_ effective end)
                           (match trusted_hash state with Some h => Some h | None => trusted_hash effective end)]> states
      end
  end.

(** [codex-rs/hooks/src/config_rules.rs:28-67 hook_states_from_stack] the states that one layer adds. *)
Definition add_layer_states (states : gmap str HookStateToml) (layer : ConfigLayerEntry) : gmap str HookStateToml :=
  match layer_name layer with
  | UserLayer _ _ | SessionFlags =>
      match (hooks ← toml_get (config layer) (lit "hooks"); toml_get hooks (lit "state")) with
      | Some (Table state_by_key) =>
          foldl add_state states state_by_key
      | _ => states
      end
  | _ => states
  end.

(** [codex-rs/hooks/src/config_rules.rs:16-70 hook_states_from_stack] *)
Definition hook_states_from_stack (config_layer_stack : option ConfigLayerStack) : gmap str HookStateToml :=
  match config_layer_stack with
  | None => ∅
  | Some stack => foldl add_layer_states ∅ (get_layers stack LowestPrecedenceFirst true)
  end.

(** [codex-rs/hooks/src/engine/discovery.rs:381-391 synthetic_layer_path] not on Windows. *)
Definition synthetic_layer_path (p : str) : str := resolve_path_against_base home_dir p [SLASH].

(** [codex-rs/hooks/src/engine/discovery.rs:563-580 command_hook_hash] [None] when the identity has no TOML form, and the
    code panics. *)
Definition command_hook_hash (name : HookEventName) (matcher : option str)
    (normalized_handler : Requirements.HookHandlerConfig) : option str :=
  value ← identity_toml (hook_event_key_label name) (Requirements.mkGroup matcher [normalized_handler]);
  Some (version_for_toml to_json to_vec sha256 value).

Definition warn (d : Discovery) (message : str) : Discovery :=
  mkDiscovery (found_handlers d) (hook_entries d) (warnings d ++ [message]) (next_order d).

(** [codex-rs/hooks/src/engine/discovery.rs:455-549 append_matcher_groups] one handler of a group. *)
Definition append_handler (source : HookHandlerSource) (name : HookEventName) (matcher : option str) (group_index : nat)
    (d : Discovery) (handler_index : nat) (handler : Requirements.HookHandlerConfig) : option Discovery :=
  match handler with
  | Requirements.HookCommand command command_windows timeout_sec is_async status_message =>
      if is_async then
        Some (warn d (lit "skipping async hook in " ++ path source ++ lit ": async hooks are not supported yet"))
      else if bool_decide (trim command = []) then Some (warn d (lit "skipping empty hook command in " ++ path source))
      else
        let timeout_sec := N.max (default 600%N timeout_sec) 1 in
        let normalized_handler := Requirements.HookCommand command None (Some timeout_sec) is_async status_message in
        current_hash ← command_hook_hash name matcher normalized_handler;
        let command := foldl (fun command '(key, value) => str_replace (lit "${" ++ key ++ lit "}") value command) command
                         (hash_order (source_env source)) in
        let key := hook_key (key_source source) name group_index handler_index in
        let state := hook_states source !! key in
        let enabled := hook_enabled (is_managed source) state in
        let trust_status := hook_trust_status (is_managed source) current_hash (hook_trusted_hash (is_managed source) state) in
        let entry := mkEntry key name TypeCommand matcher (Some command) timeout_sec status_message (path source)
                       (hook_source source) (plugin_id source) (next_order d) enabled (is_managed source) current_hash
                       trust_status in
        let runs := enabled && (source_bypass_hook_trust source
                                || bool_decide (trust_status = TrustManaged) || bool_decide (trust_status = TrustTrusted)) in
        Some (mkDiscovery
                (found_handlers d ++ if runs then [mkHandler name matcher command timeout_sec status_message (path source)
                                                     (hook_source source) (next_order d) (source_env source)] else [])
                (hook_entries d ++ [entry]) (warnings d) (next_order d + 1)%Z)
  | Requirements.HookPrompt =>
      Some (warn d (lit "skipping prompt hook in " ++ path source ++ lit ": prompt hooks are not supported yet"))
  | Requirements.HookAgent =>
      Some (warn d (lit "skipping agent hook in " ++ path source ++ lit ": agent hooks are not supported yet"))
  end.

(** A loop over a list with the places of its elements, stopped by a panic. *)
Fixpoint enumerate_fold {A S} (f : S -> nat -> A -> option S) (index : nat) (l : list A) (s : S) : option S :=
  match l with
  | [] => Some s
  | x :: l => s ← f s index x; enumerate_fold f (index + 1) l s
  end.

(** [codex-rs/hooks/src/engine/discovery.rs:444-550 append_matcher_groups] one group. *)
Definition append_group (source : HookHandlerSource) (name : HookEventName) (d : Discovery) (group_index : nat)
    (group : Requirements.MatcherGroup) : option Discovery :=
  let matcher := matcher_pattern_for_event name (Requirements.matcher group) in
  match matcher with
  | Some m =>
      match validate_matcher_pattern regex m with
      | Err err => Some (warn d (lit "invalid matcher " ++ debug_str m ++ lit " in " ++ path source ++ lit ": " ++ err))
      | Ok _ => enumerate_fold (append_handler source name matcher group_index) 0 (Requirements.group_hooks group) d
      end
  | None => enumerate_fold (append_handler source name matcher group_index) 0 (Requirements.group_hooks group) d
  end.

(** [codex-rs/hooks/src/engine/discovery.rs:434-552 append_matcher_groups] *)
Definition append_matcher_groups (source : HookHandlerSource) (name : HookEventName)
    (groups : list Requirements.MatcherGroup) (d : Discovery) : option Discovery :=
  enumerate_fold (append_group source name) 0 groups d.

(** A loop over a list, stopped by a panic. *)
Definition fold_option {A S} (f : S -> A -> option S) (l : list A) (s : S) : option S :=
  foldl (fun acc x => acc ← acc; f acc x) (Some s) l.

(** [codex-rs/hooks/src/engine/discovery.rs:408-432 append_hook_events] *)
Definition append_hook_events (d : Discovery) (source : HookHandlerSource) (events : Requirements.HookEventsToml)
    (policy : HookDiscoveryPolicy) : option Discovery :=
  if negb (allows policy source) then Some d
  else fold_option (fun d '(name, groups) => append_matcher_groups source name groups d)
         (Requirements.into_matcher_groups events) d.

(** [codex-rs/hooks/src/engine/discovery.rs:268-294 fallback_managed_hooks_source_path] *)
Definition fallback_managed_hooks_source_path (source : option Requirements.RequirementSource) : str :=
  match source with
  | Some (Requirements.SystemRequirementsToml file) | Some (Requirements.LegacyManagedConfigTomlFromFile file) => file
  | Some (Requirements.MdmManagedPreferences domain key) =>
      synthetic_layer_path (lit "<mdm:" ++ domain ++ lit ":" ++ key ++ lit ">/requirements.toml")
  | Some (Requirements.Composite _) => synthetic_layer_path (lit "<requirements-composition>/requirements.toml")
  | Some (Requirements.EnterpriseManaged id name) =>
      synthetic_layer_path (lit "<enterprise-managed:" ++ escape_xml_text name ++ lit ":" ++ escape_xml_text id
                            ++ lit ">/requirements.toml")
  | Some Requirements.LegacyManagedConfigTomlFromMdm =>
      synthetic_layer_path (lit "<legacy-managed-config.toml-mdm>/managed_config.toml")
  | Some Requirements.UnknownSource | None => synthetic_layer_path (lit "<managed-requirements>/requirements.toml")
  end.

(** [codex-rs/hooks/src/engine/discovery.rs:254-266 managed_hooks_source_path] *)
Definition managed_hooks_source_path (managed_hooks : Requirements.ManagedHooksRequirementsToml)
    (source : option Requirements.RequirementSource) : str :=
  match Requirements.managed_dir managed_hooks with
  | Some p =>
      if is_absolute p then
        match from_absolute_path home_dir current_dir p with
        | Ok source_path => source_path
        | Err _ => fallback_managed_hooks_source_path source
        end
      else fallback_managed_hooks_source_path source
  | None => fallback_managed_hooks_source_path source
  end.

(** [codex-rs/hooks/src/engine/discovery.rs:169-200 append_managed_requirement_handlers] *)
Definition append_managed_requirement_handlers (d : Discovery) (stack : ConfigLayerStack)
    (states : gmap str HookStateToml) (policy : HookDiscoveryPolicy) : option Discovery :=
  match Requirements.managed_hooks (stack_requirements stack) with
  | None => Some d
  | Some managed_hooks =>
      let required := Requirements.value (Requirements.constrained managed_hooks) in
      let source_path := managed_hooks_source_path required (Requirements.cws_source managed_hooks) in
      append_hook_events d
        (mkSource source_path source_path (hook_source_for_requirement_source (Requirements.cws_source managed_hooks)) true
           false states [] None)
        (Requirements.hook_events required) policy
  end.

(** [codex-rs/hooks/src/engine/discovery.rs:296-337 load_hooks_json] the warnings it adds, and what it loads. *)
Definition load_hooks_json (config_folder : option str) : list str * option (str * Requirements.HookEventsToml) :=
  match config_folder with
  | None => ([], None)
  | Some folder =>
      let source_path := path_join folder (lit "hooks.json") in
      if negb (is_file source_path) then ([], None)
      else
        match read_to_string source_path with
        | Err err => ([lit "failed to read hooks config " ++ source_path ++ lit ": " ++ err], None)
        | Ok contents =>
            match read_hooks_file contents with
            | Err err => ([lit "failed to parse hooks config " ++ source_path ++ lit ": " ++ err], None)
            | Ok hooks =>
                match from_absolute_path home_dir current_dir source_path with
                | Err err => ([lit "failed to normalize hooks config path " ++ source_path ++ lit ": " ++ err], None)
                | Ok source_path => ([], if Requirements.events_is_empty hooks then None else Some (source_path, hooks))
                end
            end
        end
  end.

(** [codex-rs/hooks/src/engine/discovery.rs:359-379 config_toml_source_path] *)
Definition config_toml_source_path (layer : ConfigLayerEntry) : str :=
  let CONFIG_TOML_FILE := lit "config.toml" in
  match layer_name layer with
  | SystemLayer file | UserLayer file _ | LegacyManagedFromFile file => file
  | ProjectLayer dot_codex_folder => abs_join home_dir (default dot_codex_folder (hooks_config_folder layer)) CONFIG_TOML_FILE
  | MdmLayer domain key => synthetic_layer_path (lit "<mdm:" ++ domain ++ lit ":" ++ key ++ lit ">/" ++ CONFIG_TOML_FILE)
  | EnterpriseManagedLayer id name =>
      synthetic_layer_path (lit "<enterprise-managed:" ++ name ++ lit ":" ++ id ++ lit ">/" ++ CONFIG_TOML_FILE)
  | LegacyManagedFromMdm => synthetic_layer_path (lit "<legacy-managed-config.toml-mdm>/managed_config.toml")
  | SessionFlags => synthetic_layer_path (lit "<session-flags>/config.toml")
  end.

(** [codex-rs/hooks/src/engine/discovery.rs:339-357 load_toml_hooks_from_layer] *)
Definition load_toml_hooks_from_layer (layer : ConfigLayerEntry) : list str * option (str * Requirements.HookEventsToml) :=
  let source_path := config_toml_source_path layer in
  match toml_get (config layer) (lit "hooks") with
  | None => ([], None)
  | Some hook_value =>
      match read_events hook_value with
      | Err err => ([lit "failed to parse TOML hooks in " ++ source_path ++ lit ": " ++ err], None)
      | Ok parsed => ([], if Requirements.events_is_empty parsed then None else Some (source_path, parsed))
      end
  end.

(** [codex-rs/hooks/src/engine/discovery.rs:99-149 discover_handlers] one layer. *)
Definition discover_layer (states : gmap str HookStateToml) (policy : HookDiscoveryPolicy) (d : Discovery)
    (layer : ConfigLayerEntry) : option Discovery :=
  let '(source, managed) := hook_metadata_for_config_layer_source (layer_name layer) in
  let policy_path := config_toml_source_path layer in
  let policy_source := mkSource policy_path policy_path source managed false states [] None in
  if negb (allows policy policy_source) then Some d
  else
    let '(json_warnings, json_hooks) := load_hooks_json (hooks_config_folder layer) in
    let '(toml_warnings, toml_hooks) := load_toml_hooks_from_layer layer in
    let d := foldl warn d (json_warnings ++ toml_warnings) in
    let d := match json_hooks, toml_hooks with
             | Some (json_source_path, json_events), Some (toml_source_path, toml_events) =>
                 if negb (Requirements.events_is_empty json_events) && negb (Requirements.events_is_empty toml_events)
                 then warn d (lit "loading hooks from both " ++ json_source_path ++ lit " and " ++ toml_source_path
                              ++ lit "; prefer a single representation for this layer")
                 else d
             | _, _ => d
             end in
    fold_option (fun d '(source_path, events) =>
      append_hook_events d (mkSource source_path source_path source managed (bypass_hook_trust policy) states [] None)
        events policy) (omap id [json_hooks; toml_hooks]) d.

(** [codex-rs/hooks/src/engine/discovery.rs:202-252 append_plugin_hook_sources] one plugin. *)
Definition append_plugin (states : gmap str HookStateToml) (policy : HookDiscoveryPolicy) (d : Discovery)
    (source : PluginHookSource) : option Discovery :=
  let env := [(lit "PLUGIN_ROOT", ph_plugin_root source); (lit "CLAUDE_PLUGIN_ROOT", ph_plugin_root source);
              (lit "PLUGIN_DATA", ph_plugin_data_root source); (lit "CLAUDE_PLUGIN_DATA", ph_plugin_data_root source)] in
  let plugin_id := as_key (ph_plugin_id source) in
  append_hook_events d
    (mkSource (ph_source_path source) (plugin_hook_key_source plugin_id (ph_source_relative_path source)) FromPlugin false
       (bypass_hook_trust policy) states env (Some plugin_id))
    (ph_hooks source) policy.

(** [codex-rs/hooks/src/engine/discovery.rs:202-252 append_plugin_hook_sources] *)
Definition append_plugin_hook_sources (d : Discovery) (plugin_hook_sources : list PluginHookSource)
    (states : gmap str HookStateToml) (policy : HookDiscoveryPolicy) : option Discovery :=
  fold_option (append_plugin states policy) plugin_hook_sources d.

(** [codex-rs/hooks/src/engine/discovery.rs:73-82 discover_handlers] the policy of the requirements. *)
Definition discovery_policy (config_layer_stack : option ConfigLayerStack) (bypass : bool) : HookDiscoveryPolicy :=
  mkPolicy (match config_layer_stack with
            | Some stack =>
                match Requirements.allow_managed_hooks_only (stack_requirements stack) with
                | Some requirement => Requirements.sourced_value requirement
                | None => false
                end
            | None => false
            end) bypass.

(** [codex-rs/hooks/src/engine/discovery.rs:62-167 discover_handlers] *)
Definition discover_handlers (config_layer_stack : option ConfigLayerStack) (plugin_hook_sources : list PluginHookSource)
    (plugin_hook_load_warnings : list str) (bypass : bool) : option Discovery :=
  let d := mkDiscovery [] [] plugin_hook_load_warnings 0 in
  let states := hook_states_from_stack config_layer_stack in
  let policy := discovery_policy config_layer_stack bypass in
  d ← match config_layer_stack with
      | Some stack =>
          d ← append_managed_requirement_handlers d stack states policy;
          fold_option (discover_layer states policy) (get_layers stack LowestPrecedenceFirst false) d
      | None => Some d
      end;
  append_plugin_hook_sources d plugin_hook_sources states policy.

(** ** What discovery keeps *)










Section Keep.
Context (states : gmap str HookStateToml) (policy : HookDiscoveryPolicy) (from : HookListEntry -> Prop).








End Keep.


(** ** Where trust comes from *)







(** ** Discovery ends *)

Lemma enumerate_total {A S} (f : S -> nat -> A -> option S) l index s :
  (forall s i x, is_Some (f s i x)) -> is_Some (enumerate_fold f index l s).
Proof.
  intros Hf. revert index s. induction l as [|x l IH]; intros index s; cbn; [by eexists|].
  destruct (Hf s index x) as [s' ->]. apply IH.
Qed.

Lemma fold_total {A S} (f : S -> A -> option S) l s : (forall s x, is_Some (f s x)) -> is_Some (fold_option f l s).
Proof.
  intros Hf. unfold fold_option. revert s. induction l as [|x l IH]; intros s; cbn; [by eexists|].
  destruct (Hf s x) as [s' ->]. apply IH.
Qed.

(** Discovery panics for no other reason than an identity without a TOML form. *)
Lemma discovery_returns stack plugins load_warnings bypass :
  (forall name group, is_Some (identity_toml name group)) -> is_Some (discover_handlers stack plugins load_warnings bypass).
Proof.
  intros Hid.
  assert (forall d source events policy, is_Some (append_hook_events d source events policy)) as Hev.
  { intros d source events policy. unfold append_hook_events. destruct (negb _); [by eexists|].
    apply fold_total. intros d1 [name groups]. apply enumerate_total. intros d2 i group. unfold append_group.
    assert (forall m, is_Some (enumerate_fold (append_handler source name m i) 0 (Requirements.group_hooks group) d2)) as Hg.
    { intros m. apply enumerate_total. intros d3 j [cmd cw t a st| |]; [|by eexists..]. unfold append_handler.
      destruct a; [by eexists|]. case_bool_decide; [by eexists|]. unfold command_hook_hash.
      destruct (Hid (hook_event_key_label name) (Requirements.mkGroup m [Requirements.HookCommand cmd None (Some (N.max (default 600%N t) 1)) false st])) as [v ->].
      by eexists. }
    destruct (matcher_pattern_for_event name _) as [m|]; [|apply Hg].
    destruct (validate_matcher_pattern regex m); [apply Hg|by eexists]. }
  unfold discover_handlers. destruct stack as [stack|].
  - unfold append_managed_requirement_handlers. destruct (Requirements.managed_hooks (stack_requirements stack)) as [m|].
    1: match goal with |- context [append_hook_events ?d ?s ?e ?p] => destruct (Hev d s e p) as [d1 ->] end; cbn [mbind option_bind].
    2: cbn [mbind option_bind].
    all: match goal with |- context [fold_option (discover_layer ?st ?p) ?l ?d] =>
           destruct (fold_total (discover_layer st p) l d) as [d2 ->] end;
      [|cbn [mbind option_bind]; apply fold_total; intros; apply Hev].
    all: intros d3 layer; unfold discover_layer; destruct (hook_metadata_for_config_layer_source _) as [src managed];
      destruct (negb _); [by eexists|]; destruct (load_hooks_json _) as [jw json], (load_toml_hooks_from_layer _) as [tw toml];
      apply fold_total; intros d4 [sp events]; apply Hev.
  - cbn [mbind option_bind]. apply fold_total. intros. apply Hev.
Qed.


End Discovery.

(** ** Examples *)

(** The TOML form of an identity: a number that does not fit in 64 bits with a sign has none. *)
Definition example_identity (name : str) (group : Requirements.MatcherGroup) : option TomlValue :=
  match Requirements.group_hooks group with
  | [Requirements.HookCommand command _ (Some timeout) _ _] =>
      if (Z.of_N timeout <=? i64_max)%Z then Some (Table [(name, String_ command)]) else None
  | _ => None
  end.

(** A project with one hook, with the timeout; a user who trusts the hash of it, or does not. *)
Definition example_hook_stack (trusted : option str) : ConfigLayerStack :=
  let layer := new_layer null_json no_bytes no_bytes in
  let state := match trusted with
               | Some hash => [(lit "/repo/.codex/config.toml:pre_tool_use:0:0", String_ hash)]
               | None => []
               end in
  mkStack [layer (UserLayer (lit "/home/u/.codex/config.toml") None) (Table [(lit "hooks", Table [(lit "state", Table state)])]);
           layer (ProjectLayer (lit "/repo/.codex")) (Table [(lit "hooks", Boolean true)])]
    (Some 0) Requirements.default_requirements (Requirements.into_toml Requirements.no_requirements) false None.

Definition example_discover (stack : option ConfigLayerStack) (timeout : N) : option Discovery :=
  discover_handlers null_json no_bytes no_bytes None None id (fun _ => Err [])
    (fun v => match v with String_ hash => Some (mkState None (Some hash)) | _ => None end)
    (fun v => Ok (Requirements.mkEvents
                    (match v with
                     | Boolean _ => [Requirements.mkGroup None [Requirements.HookCommand (lit "check") None (Some timeout) false None]]
                     | _ => []
                     end) [] [] [] [] [] [] [] [] []))
    (fun _ => Err []) (fun _ => false) (fun _ => Err []) example_identity id stack [] [] false.

Definition found_commands (d : option Discovery) : option (list str * list HookTrustStatus) :=
  d ← d; Some (map command (found_handlers d), map entry_trust_status (hook_entries d)).

(** The hook of a project runs when the user trusts its hash, and is only listed when the user does not or it has changed. *)
Example project_hook_needs_trust :
  found_commands (example_discover (Some (example_hook_stack (Some (lit "sha256:")))) 5) = Some ([lit "check"], [TrustTrusted]) /\
  found_commands (example_discover (Some (example_hook_stack None)) 5) = Some ([], [TrustUntrusted]) /\
  found_commands (example_discover (Some (example_hook_stack (Some (lit "sha256:0")))) 5) = Some ([], [TrustModified]).
Proof. by vm_compute. Qed.

(** A timeout that TOML cannot write ends discovery, although it can be read from a JSON document. *)
Example oversized_timeout_panics : example_discover (Some (example_hook_stack None)) (2 ^ 63) = None.
Proof. by vm_compute. Qed.


End HookDiscovery.
