(* ===== verification/HookEngine.v ===== *)
(** * The hooks of a session: hooks/src/engine/mod.rs, output_spill.rs, registry.rs, types.rs and legacy_notify.rs

    The engine holds the handlers that were found and runs them for each event; text of hooks that is too long for the
    model is kept in a file and shown shortened.  Whether a directory can be created and a file written, and fresh
    names of files, are parameters; the files written are a state. *)

From S2P Require Import Prelude Text Truncate AbsolutePath Permissions ResponseItems OutputTruncation ConfigToml Requirements ConfigLayers.
From S2P Require Import HookTypes HookDispatch HookOutput HookToolEvents HookTurnEvents HookDiscovery.

Module HookEngine.
Import Truncate OutputTruncation AbsolutePath HookTypes HookDispatch HookOutput HookToolEvents HookTurnEvents HookDiscovery.

(** ** Long output *)

(** [codex-rs/hooks/src/output_spill.rs:11-11 HOOK_OUTPUTS_DIR] *)
Definition HOOK_OUTPUTS_DIR : str := lit "hook_outputs".

(** [codex-rs/hooks/src/output_spill.rs:12-12 HOOK_OUTPUT_TOKEN_LIMIT] *)
Definition HOOK_OUTPUT_TOKEN_LIMIT : N := 2500.

(** [codex-rs/hooks/src/output_spill.rs:14-17 HookOutputSpiller] *)
Record HookOutputSpiller := mkSpiller { output_dir : str }.

(** The files written so far, and how many fresh names were taken. *)
Record Spilled := mkSpilled { spilled_files : gmap str str; names_taken : nat }.

Section Spill.
(** [home_dir]; the directory for temporary files; fresh identifiers; [create_dir_all] and [fs::write], which may fail.  A
    write that fails gives what is then at the path: nothing, or a file that was there, or that was created, cut to
    nothing or written in part before the failure. *)
Context (home_dir : option str) (temp_dir : str) (fresh : nat -> str) (create_dir_all : str -> result str unit).
Context (write : gmap str str -> str -> str -> result (option str) unit).

(** [codex-rs/hooks/src/output_spill.rs:20-25 HookOutputSpiller::new] *)
Definition new_spiller : HookOutputSpiller :=
  mkSpiller (abs_join home_dir (resolve_path_against_base home_dir temp_dir [SLASH]) HOOK_OUTPUTS_DIR).

(** [codex-rs/hooks/src/output_spill.rs:91-95 hook_output_path] with the fresh name. *)
Definition hook_output_path (dir thread_id name : str) : str :=
  abs_join home_dir (abs_join home_dir dir thread_id) (name ++ lit ".txt").

(** The footer of a shortened text. *)
Definition footer (path : str) : str := [NL; NL] ++ lit "Full hook output saved to: " ++ path.

(** [codex-rs/hooks/src/output_spill.rs:101-107 spilled_hook_output_preview] [None] when truncation panics. *)
Definition spilled_hook_output_preview (text path : str) : option str :=
  let preview_policy := Tokens (saturating_sub HOOK_OUTPUT_TOKEN_LIMIT (approx_token_count (footer path))) in
  preview ← formatted_truncate_text text preview_policy;
  Some (preview ++ footer path).

(** [codex-rs/hooks/src/output_spill.rs:52-60 HookOutputSpiller::maybe_spill_text] from the write on. *)
Definition write_spilled_text (text path : str) (s : Spilled) : option (str * Spilled) :=
  match write (spilled_files s) path text with
  | Err remains =>
      short ← formatted_truncate_text text (Tokens HOOK_OUTPUT_TOKEN_LIMIT);
      Some (short, mkSpilled (partial_alter (fun _ => remains) path (spilled_files s)) (names_taken s))
  | Ok _ =>
      preview ← spilled_hook_output_preview text path;
      Some (preview, mkSpilled (<[path := text]> (spilled_files s)) (names_taken s))
  end.

(** [codex-rs/hooks/src/output_spill.rs:33-61 HookOutputSpiller::maybe_spill_text] *)
Definition maybe_spill_text (self : HookOutputSpiller) (thread_id text : str) (s : Spilled) : option (str * Spilled) :=
  if (approx_token_count text <=? HOOK_OUTPUT_TOKEN_LIMIT)%N then Some (text, s)
  else
    let path := hook_output_path (output_dir self) thread_id (fresh (names_taken s)) in
    let s := mkSpilled (spilled_files s) (S (names_taken s)) in
    match abs_parent path with
    | Some parent =>
        match create_dir_all parent with
        | Err _ => short ← formatted_truncate_text text (Tokens HOOK_OUTPUT_TOKEN_LIMIT); Some (short, s)
        | Ok _ => write_spilled_text text path s
        end
    | None => write_spilled_text text path s
    end.

(** [codex-rs/hooks/src/output_spill.rs:63-73 HookOutputSpiller::maybe_spill_texts] *)
Fixpoint maybe_spill_texts (self : HookOutputSpiller) (thread_id : str) (texts : list str) (s : Spilled)
    : option (list str * Spilled) :=
  match texts with
  | [] => Some ([], s)
  | text :: texts =>
      '(text, s) ← maybe_spill_text self thread_id text s;
      '(texts, s) ← maybe_spill_texts self thread_id texts s;
      Some (text :: texts, s)
  end.

(** [codex-rs/hooks/src/output_spill.rs:75-88 HookOutputSpiller::maybe_spill_prompt_fragments] *)
Fixpoint maybe_spill_prompt_fragments (self : HookOutputSpiller) (thread_id : str) (fragments : list HookPromptFragment)
    (s : Spilled) : option (list HookPromptFragment * Spilled) :=
  match fragments with
  | [] => Some ([], s)
  | fragment :: fragments =>
      '(text, s) ← maybe_spill_text self thread_id (fragment_text fragment) s;
      '(fragments, s) ← maybe_spill_prompt_fragments self thread_id fragments s;
      Some (mkFragment text (hook_run_id fragment) :: fragments, s)
  end.

(** ** The engine *)

(** [codex-rs/hooks/src/engine/mod.rs:99-105 ClaudeHooksEngine] *)
Record ClaudeHooksEngine := mkEngine {
  engine_handlers : list ConfiguredHandler; engine_warnings : list str; shell : CommandShell; output_spiller : HookOutputSpiller
}.

(** [codex-rs/hooks/src/engine/mod.rs:108-138 ClaudeHooksEngine::new] [discovered] is what discovery finds. *)
Definition new_engine (enabled : bool) (discovered : option Discovery) (shell : CommandShell) : option ClaudeHooksEngine :=
  if negb enabled then Some (mkEngine [] [] shell new_spiller)
  else d ← discovered; Some (mkEngine (found_handlers d) (warnings d) shell new_spiller).

Section Runs.
Context `{HookCodec} (regex : str -> result str (str -> bool)).

(** [codex-rs/hooks/src/engine/mod.rs:274-279 ClaudeHooksEngine::maybe_spill_text] *)
Definition engine_spill_text (self : ClaudeHooksEngine) (session_id : str) (text : option str) (s : Spilled)
    : option (option str * Spilled) :=
  match text with
  | Some text => '(text, s) ← maybe_spill_text (output_spiller self) session_id text s; Some (Some text, s)
  | None => Some (None, s)
  end.

(** [codex-rs/hooks/src/engine/mod.rs:169-181 ClaudeHooksEngine::run_session_start] *)
Definition engine_run_session_start (world : World) (self : ClaudeHooksEngine) (request : SessionStartRequest)
    (turn_id : option str) (s : Spilled) : option (SessionStartOutcome * Spilled) :=
  outcome ← run_session_start regex world (engine_handlers self) (shell self) request turn_id;
  '(contexts, s) ← maybe_spill_texts (output_spiller self) (ss_session_id request) (so_additional_contexts outcome) s;
  Some (mkStartOutcome (so_hook_events outcome) (so_should_stop outcome) (so_stop_reason outcome) contexts, s).

(** [codex-rs/hooks/src/engine/mod.rs:183-191 ClaudeHooksEngine::run_pre_tool_use] *)
Definition engine_run_pre_tool_use (world : World) (self : ClaudeHooksEngine) (request : PreToolUseRequest) (s : Spilled)
    : option (PreToolUseOutcome * Spilled) :=
  outcome ← run_pre_tool_use regex world (engine_handlers self) (shell self) request;
  '(contexts, s) ← maybe_spill_texts (output_spiller self) (pt_session_id request) (pto_additional_contexts outcome) s;
  Some (mkPreOutcome (pto_hook_events outcome) (pto_should_block outcome) (pto_block_reason outcome) contexts
          (pto_updated_input outcome), s).

(** [codex-rs/hooks/src/engine/mod.rs:193-198 ClaudeHooksEngine::run_permission_request] *)
Definition engine_run_permission_request (world : World) (self : ClaudeHooksEngine) (request : PermissionRequestRequest)
    : option PermissionRequestOutcome := run_permission_request regex world (engine_handlers self) (shell self) request.

(** [codex-rs/hooks/src/engine/mod.rs:200-214 ClaudeHooksEngine::run_post_tool_use] *)
Definition engine_run_post_tool_use (world : World) (self : ClaudeHooksEngine) (request : PostToolUseRequest) (s : Spilled)
    : option (PostToolUseOutcome * Spilled) :=
  outcome ← run_post_tool_use regex world (engine_handlers self) (shell self) request;
  '(contexts, s) ← maybe_spill_texts (output_spiller self) (ot_session_id request) (oo_additional_contexts outcome) s;
  '(feedback, s) ← engine_spill_text self (ot_session_id request) (oo_feedback_message outcome) s;
  Some (mkPostOutcome (oo_hook_events outcome) (oo_should_stop outcome) (oo_stop_reason outcome) contexts feedback, s).

(** [codex-rs/hooks/src/engine/mod.rs:220-222 ClaudeHooksEngine::run_pre_compact] *)
Definition engine_run_pre_compact (world : World) (self : ClaudeHooksEngine) (request : CompactRequest)
    : option CompactOutcome := run_pre_compact regex world (engine_handlers self) (shell self) request.

(** [codex-rs/hooks/src/engine/mod.rs:228-233 ClaudeHooksEngine::run_post_compact] *)
Definition engine_run_post_compact (world : World) (self : ClaudeHooksEngine) (request : CompactRequest)
    : option CompactOutcome := run_post_compact regex world (engine_handlers self) (shell self) request.

(** [codex-rs/hooks/src/engine/mod.rs:242-253 ClaudeHooksEngine::run_user_prompt_submit] *)
Definition engine_run_user_prompt_submit (world : World) (self : ClaudeHooksEngine) (request : UserPromptSubmitRequest)
    (s : Spilled) : option (UserPromptSubmitOutcome * Spilled) :=
  outcome ← run_user_prompt_submit regex world (engine_handlers self) (shell self) request;
  '(contexts, s) ← maybe_spill_texts (output_spiller self) (up_session_id request) (uo_additional_contexts outcome) s;
  Some (mkPromptOutcome (uo_hook_events outcome) (uo_should_stop outcome) (uo_stop_reason outcome) contexts, s).

(** [codex-rs/hooks/src/engine/mod.rs:259-266 ClaudeHooksEngine::run_stop] *)
Definition engine_run_stop (world : World) (self : ClaudeHooksEngine) (request : StopRequest) (s : Spilled)
    : option (StopOutcome * Spilled) :=
  outcome ← run_stop regex world (engine_handlers self) (shell self) request;
  '(fragments, s) ← maybe_spill_prompt_fragments (output_spiller self) (st_session_id request)
                      (to_continuation_fragments outcome) s;
  Some (mkStopOutcome (to_hook_events outcome) (to_should_stop outcome) (to_stop_reason outcome) (to_should_block outcome)
          (to_block_reason outcome) fragments, s).
End Runs.
End Spill.

(** ** Hooks of the client *)

(** [codex-rs/hooks/src/types.rs:15-24 HookResult] *)
Inductive HookResult := Success | FailedContinue (err : str) | FailedAbort (err : str).

(** [codex-rs/hooks/src/types.rs:27-29 HookResult::should_abort_operation] *)
Definition should_abort_operation (self : HookResult) : bool := match self with FailedAbort _ => true | _ => false end.

(** [codex-rs/hooks/src/types.rs:33-36 HookResponse] *)
Record HookResponse := mkResponse { response_hook_name : str; response_result : HookResult }.

(** [codex-rs/hooks/src/types.rs:76-81 HookEventAfterAgent] *)
Record HookEventAfterAgent := mkAfterAgent {
  aa_thread_id : str; aa_turn_id : str; aa_input_messages : list str; aa_last_assistant_message : option str
}.

(** [codex-rs/hooks/src/types.rs:92-97 HookEvent] *)
Inductive HookEvent := AfterAgent (event : HookEventAfterAgent).

(** [codex-rs/hooks/src/types.rs:64-72 HookPayload] without the time. *)
Record HookPayload := mkPayload {
  payload_session_id : str; payload_cwd : str; payload_client : option str; payload_hook_event : HookEvent
}.

(** [codex-rs/hooks/src/types.rs:39-42 Hook] *)
Record Hook := mkHook { hook_name : str; func : HookPayload -> HookResult }.

(** [codex-rs/hooks/src/types.rs:54-59 Hook::execute] *)
Definition execute (self : Hook) (payload : HookPayload) : HookResponse := mkResponse (hook_name self) (func self payload).

(** [codex-rs/hooks/src/registry.rs:224-233 command_from_argv] *)
Definition command_from_argv (argv : list str) : option Command_ :=
  match argv with
  | [] => None
  | program :: args => match program with [] => None | _ => Some (mkCommand program args []) end
  end.

(** [codex-rs/hooks/src/legacy_notify.rs:43-70 notify_hook] [notify_json] is the payload as JSON, and [spawn] starts a
    program. *)
Definition notify_hook (notify_json : HookPayload -> result str str) (spawn : Command_ -> result str unit)
    (argv : list str) : Hook :=
  mkHook (lit "legacy_notify") (fun payload =>
    match command_from_argv argv with
    | None => Success
    | Some cmd =>
        let cmd := match notify_json payload with
                   | Ok json => mkCommand (program cmd) (args cmd ++ [json]) (envs cmd)
                   | Err _ => cmd
                   end in
        match spawn cmd with Ok _ => Success | Err err => FailedContinue err end
    end).

(** [codex-rs/hooks/src/registry.rs:48-51 Hooks] *)
Record Hooks := mkHooks { after_agent : list Hook; hooks_engine : ClaudeHooksEngine }.

(** [codex-rs/hooks/src/registry.rs:61-66 Hooks::new] the hooks that run after the agent. *)
Definition legacy_hooks (notify : list str -> Hook) (legacy_notify_argv : option (list str)) : list Hook :=
  match legacy_notify_argv with
  | Some argv => match argv with [] | [] :: _ => [] | _ => [notify argv] end
  | None => []
  end.

(** [codex-rs/hooks/src/registry.rs:88-92 Hooks::hooks_for_event] *)
Definition hooks_for_event (self : Hooks) (event : HookEvent) : list Hook := match event with AfterAgent _ => after_agent self end.

(** [codex-rs/hooks/src/registry.rs:94-107 Hooks::dispatch] the loop. *)
Fixpoint dispatch_hooks (hooks : list Hook) (payload : HookPayload) : list HookResponse :=
  match hooks with
  | [] => []
  | hook :: hooks =>
      let outcome := execute hook payload in
      if should_abort_operation (response_result outcome) then [outcome] else outcome :: dispatch_hooks hooks payload
  end.

(** [codex-rs/hooks/src/registry.rs:94-107 Hooks::dispatch] *)
Definition dispatch (self : Hooks) (payload : HookPayload) : list HookResponse :=
  dispatch_hooks (hooks_for_event self (payload_hook_event payload)) payload.

(** [codex-rs/hooks/src/registry.rs:42-45 HookListOutcome] *)
Record HookListOutcome := mkListOutcome { listed_hooks : list HookListEntry; listed_warnings : list str }.

(** [codex-rs/hooks/src/registry.rs:208-223 list_hooks] [discovered] is what discovery finds. *)
Definition list_hooks (feature_enabled : bool) (discovered : option Discovery) : option HookListOutcome :=
  if negb feature_enabled then Some (mkListOutcome [] [])
  else d ← discovered; Some (mkListOutcome (hook_entries d) (warnings d)).

(** ** Lemmas *)

Lemma show_nat_len n : (N.of_nat n <= u64_max)%N -> (str_len (show_nat n) <= 20)%N.
Proof. intros Hn. exact (show_N_len (N.of_nat n) Hn). Qed.

Lemma split_inclusive_len c s : length (split_inclusive c s) <= length s.
Proof.
  induction s as [|x s IH]; [done|]. cbn [split_inclusive]. repeat case_match; cbn in *; lia.
Qed.

Lemma lines_len s : length (lines s) <= length s.
Proof. unfold lines. rewrite length_map. apply split_inclusive_len. Qed.

Lemma approx_le text : (approx_token_count text <= (str_len text + 3) / 4)%N.
Proof.
  unfold approx_token_count, saturating_add, saturating_sub, APPROX_BYTES_PER_TOKEN. apply N.Div0.div_le_mono. lia.
Qed.

(** What is shown of a text that is shortened to a budget of tokens: a count of its lines, and the beginning and the end
    of the text around a marker, which together are at most six bytes short of the budget. *)
Definition shown_of (text : str) (tokens : N) (out : str) : Prop :=
  exists result, out = formatted text result /\ truncation text (4 * tokens) true result.

(** A text over the limit, shortened to a smaller budget. *)
Lemma shortened_text text tokens :
  allocatable text -> (tokens <= HOOK_OUTPUT_TOKEN_LIMIT < approx_token_count text)%N ->
  exists out, formatted_truncate_text text (Tokens tokens) = Some out /\ shown_of text tokens out /\
    (str_len out <= 4 * tokens + 85)%N.
Proof.
  intros Ha [Ht Hl]. rewrite approx_token_count_exact in Hl by done. unfold tokens_for, HOOK_OUTPUT_TOKEN_LIMIT in *.
  pose proof (formatted_truncate_text_spec text (Tokens tokens) Ha) as Hs. cbn [budget_bytes uses_tokens] in Hs.
  destruct (N.leb_spec (str_len text) (4 * tokens)) as [Hle|Hgt]; [exfalso; lia|].
  destruct Hs as (result & Hr & Htr). eexists. split; [exact Hr|]. split; [by exists result|].
  destruct Htr as (before & mid & after & _ & _ & _ & Hout & _). unfold formatted. rewrite !str_len_app.
  assert (str_len (show_nat (length (lines text))) <= 20)%N as Hd.
  { apply show_nat_len. pose proof (lines_len text). pose proof (str_len_ge text). unfold allocatable, isize_max in *. change u64_max with 18446744073709551615%N. lia. }
  assert (str_len (lit "Total output lines: ") = 20%N) as -> by reflexivity.
  assert (str_len [NL; NL] = 2%N) as -> by reflexivity. lia.
Qed.

(** C40: Text of a hook for the model is kept short and is not lost. Within the limit of 2500 tokens it is passed on
    as it is. A longer one is shortened without a panic: when its directory can be created and the file written, the
    whole text is in the file, no other file changes, and what is passed on shows the beginning and the end of the
    text, within the limit less the footer, and a footer that names the file; otherwise no file but that one changes,
    and what is passed on shows the beginning and the end of the text within the limit. Both ends together are at most
    six bytes short of their budget; around a marker and after a count of the lines, the result exceeds the limit (or
    the footer, when that is longer) by at most 22 tokens. *)
Theorem hook_output_kept home fresh create write self thread text s :
  let path := hook_output_path home (output_dir self) thread (fresh (names_taken s)) in
  let saved := (forall parent, abs_parent path = Some parent -> is_ok (create parent) = true) /\
               is_ok (write (spilled_files s) path text) = true in
  allocatable text -> allocatable (footer path) ->
  exists out s', maybe_spill_text home fresh create write self thread text s = Some (out, s') /\
    if (approx_token_count text <=? HOOK_OUTPUT_TOKEN_LIMIT)%N then out = text /\ s' = s
    else names_taken s' = S (names_taken s) /\
      (approx_token_count out <= N.max HOOK_OUTPUT_TOKEN_LIMIT (approx_token_count (footer path)) + 22)%N /\
      (saved -> spilled_files s' = <[path := text]> (spilled_files s) /\
         exists preview, out = preview ++ footer path /\ shown_of text (saturating_sub HOOK_OUTPUT_TOKEN_LIMIT (approx_token_count (footer path))) preview) /\
      (~ saved -> (forall other, other <> path -> spilled_files s' !! other = spilled_files s !! other) /\ shown_of text HOOK_OUTPUT_TOKEN_LIMIT out).
Proof.
  intros path saved Ha Hf. unfold maybe_spill_text. fold path.
  destruct (N.leb_spec (approx_token_count text) HOOK_OUTPUT_TOKEN_LIMIT) as [Hle|Hgt]; [by eexists _, _|].
  destruct (shortened_text text HOOK_OUTPUT_TOKEN_LIMIT Ha) as (short & Hshort & Hshown & Hlen); [lia|].
  destruct (shortened_text text (saturating_sub HOOK_OUTPUT_TOKEN_LIMIT (approx_token_count (footer path))) Ha)
    as (preview & Hpre & Hpshown & Hplen); [unfold saturating_sub; lia|].
  assert (Hs : (approx_token_count short <= N.max HOOK_OUTPUT_TOKEN_LIMIT (approx_token_count (footer path)) + 22)%N).
  { pose proof (approx_le short). unfold HOOK_OUTPUT_TOKEN_LIMIT in *. lia. }
  assert (Hp : (approx_token_count (preview ++ footer path) <= N.max HOOK_OUTPUT_TOKEN_LIMIT (approx_token_count (footer path)) + 22)%N).
  { pose proof (approx_le (preview ++ footer path)) as Hap. rewrite str_len_app in Hap.
    rewrite (approx_token_count_exact (footer path)) in Hplen |- * by done. unfold saturating_sub, tokens_for, HOOK_OUTPUT_TOKEN_LIMIT in *. lia. }
  assert (Hwrite : (forall parent, abs_parent path = Some parent -> is_ok (create parent) = true) ->
    exists out s', write_spilled_text write text path (mkSpilled (spilled_files s) (S (names_taken s))) = Some (out, s') /\
      names_taken s' = S (names_taken s) /\
      (approx_token_count out <= N.max HOOK_OUTPUT_TOKEN_LIMIT (approx_token_count (footer path)) + 22)%N /\
      (saved -> spilled_files s' = <[path := text]> (spilled_files s) /\
         exists preview, out = preview ++ footer path /\
           shown_of text (saturating_sub HOOK_OUTPUT_TOKEN_LIMIT (approx_token_count (footer path))) preview) /\
      (~ saved -> (forall other, other <> path -> spilled_files s' !! other = spilled_files s !! other) /\
         shown_of text HOOK_OUTPUT_TOKEN_LIMIT out)).
  { intros Hdir. unfold write_spilled_text, spilled_hook_output_preview. rewrite Hshort, Hpre. unfold saved. cbn [spilled_files].
    destruct (write (spilled_files s) path text) as [[]|remains] eqn:Ew; cbn [mbind option_bind]; eexists _, _; (split; [done|]);
      (split; [done|]); (split; [done|]); cbn [spilled_files].
    - split; [|by intros []; split]. intros _. split; [done|]. exists preview. split; [reflexivity|exact Hpshown].
    - split; [by intros [_ ?]|]. intros _. split; [|done]. intros other Hne. by apply lookup_partial_alter_ne. }
  destruct (abs_parent path) as [parent|]; [|by apply Hwrite]. destruct (create parent) as [[]|e] eqn:Ec.
  - apply Hwrite. intros p [= <-]. by rewrite Ec.
  - rewrite Hshort. cbn [mbind option_bind]. eexists _, _. split; [done|]. split; [done|]. split; [done|]. split; [|done].
    intros [Hdir _]. specialize (Hdir parent eq_refl). by rewrite Ec in Hdir.
Qed.

(** ** Examples *)

Definition long_text : str := replicate (41 * 61) 128512%N.

Definition example_spill (text : str) : option (str * Spilled) :=
  maybe_spill_text None (fun n => lit "out") (fun _ => Ok tt) (fun _ _ _ => Ok tt) (mkSpiller (lit "/tmp/hook_outputs")) (lit "thread")
    text (mkSpilled ∅ 0).

Lemma hook_output_kept_witness :
  exists out s', example_spill long_text = Some (out, s') /\ names_taken s' = 1.
Proof.
  destruct (hook_output_kept None (fun n => lit "out") (fun _ => Ok tt) (fun _ _ _ => Ok tt) (mkSpiller (lit "/tmp/hook_outputs"))
    (lit "thread") long_text (mkSpilled ∅ 0)) as (out & s' & Hr & Hc).
  - by vm_compute.
  - by vm_compute.
  - exists out, s'. split; [exact Hr|]. assert ((approx_token_count long_text <=? HOOK_OUTPUT_TOKEN_LIMIT)%N = false)
      as Hl by (by vm_compute). rewrite Hl in Hc. apply Hc.
Defined.

(** The shortened text is over the limit that the footer is budgeted for: the line that counts the lines and the marker
    of what is left out come on top. *)
Example preview_exceeds_limit :
  exists out s', example_spill long_text = Some (out, s') /\ (HOOK_OUTPUT_TOKEN_LIMIT < approx_token_count out)%N.
Proof.
  destruct (example_spill long_text) as [[out s']|] eqn:E; [|by vm_compute in E].
  exists out, s'. split; [done|]. assert ((match example_spill long_text with
    | Some (out, _) => HOOK_OUTPUT_TOKEN_LIMIT <? approx_token_count out | None => false end)%N = true) as H by (by vm_compute).
  rewrite E in H. by apply N.ltb_lt.
Qed.

(** ** Hooks of the client run until one aborts *)

(** The hooks that run are those up to and including the first that aborts, each once and in order. *)
Lemma dispatch_until_abort hooks payload :
  exists run rest, hooks = run ++ rest /\ dispatch_hooks hooks payload = map (fun h => execute h payload) run /\
    Forall (fun h => should_abort_operation (func h payload) = false) (removelast run) /\
    (rest <> [] -> exists h, last run = Some h /\ should_abort_operation (func h payload) = true).
Proof.
  induction hooks as [|h hooks (run & rest & -> & Hd & Hf & Hl)]; [by exists [], []|]. cbn [dispatch_hooks].
  change (response_result (execute h payload)) with (func h payload).
  destruct (should_abort_operation (func h payload)) eqn:E.
  - exists [h], (run ++ rest). split; [done|]. split; [done|]. split; [done|]. intros _. by exists h.
  - exists (h :: run), rest. split; [done|]. split; [cbn; by rewrite <- Hd|]. split.
    + destruct run as [|h' run]; [done|]. by constructor.
    + intros Hr. destruct (Hl Hr) as (h' & Hl' & ?). exists h'. split; [|done]. by destruct run.
Qed.

End HookEngine.
