(* ===== verification/AgentPath.v ===== *)
(** * Names of agents: protocol/src/agent_path.rs

    The paths under which the agents of a session are known: the root, the agents below it and the one that watches
    the session.  A path is made by checking a text, and the references that a model writes are resolved against the
    path of the agent that writes them. *)

From S2P Require Import Prelude Text AbsolutePath.

Module AgentPath.
Import AbsolutePath.

(** ** Checks *)

(** [codex-rs/protocol/src/agent_path.rs:18-18 AgentPath::ROOT] *)
Definition ROOT : str := lit "/root".
(** [codex-rs/protocol/src/agent_path.rs:19-19 AgentPath::MORPHEUS] *)
Definition MORPHEUS : str := lit "/morpheus".
(** [codex-rs/protocol/src/agent_path.rs:20-20 AgentPath::ROOT_SEGMENT] *)
Definition ROOT_SEGMENT : str := lit "root".

(** The characters of a name. *)
Definition name_char (ch : char) : bool := is_ascii_lower ch || is_ascii_digit ch || (ch =? 95)%N.

(** [codex-rs/protocol/src/agent_path.rs:125-147 validate_agent_name] *)
Definition validate_agent_name (agent_name : str) : result str unit :=
  if bool_decide (agent_name = []) then Err (lit "agent_name must not be empty")
  else if bool_decide (agent_name = ROOT_SEGMENT) then Err (lit "agent_name `root` is reserved")
  else if bool_decide (agent_name = lit ".") || bool_decide (agent_name = lit "..")
  then Err (lit "agent_name `" ++ agent_name ++ lit "` is reserved")
  else if contains_char SLASH agent_name then Err (lit "agent_name must not contain `/`")
  else if negb (forallb name_char agent_name)
  then Err (lit "agent_name must use only lowercase letters, digits, and underscores")
  else Ok tt.

(** The message for a path that starts elsewhere. *)
Definition not_absolute : str := lit "absolute agent paths must start with `/root` or be `/morpheus`".

(** [codex-rs/protocol/src/agent_path.rs:149-171 validate_absolute_path] *)
Definition validate_absolute_path (path : str) : result str unit :=
  if bool_decide (path = MORPHEUS) then Ok tt
  else match strip_prefix [SLASH] path with
       | None => Err not_absolute
       | Some stripped =>
           match split_char SLASH stripped with
           | [] => Err (lit "absolute agent path must not be empty")
           | root :: segments =>
               if negb (bool_decide (root = ROOT_SEGMENT)) then Err not_absolute
               else if ends_with [SLASH] stripped then Err (lit "absolute agent path must not end with `/`")
               else try_fold (fun _ segment => validate_agent_name segment) segments tt
           end
       end.

(** [codex-rs/protocol/src/agent_path.rs:173-181 validate_relative_reference] *)
Definition validate_relative_reference (reference : str) : result str unit :=
  if ends_with [SLASH] reference then Err (lit "relative agent path must not end with `/`")
  else try_fold (fun _ segment => validate_agent_name segment) (split_char SLASH reference) tt.

(** ** Paths *)

(** [codex-rs/protocol/src/agent_path.rs:30-33 AgentPath::from_string] *)
Definition from_string (path : str) : result str str := _ ← validate_absolute_path path; Ok path.

(** [codex-rs/protocol/src/agent_path.rs:39-41 AgentPath::is_root] *)
Definition is_root (self : str) : bool := bool_decide (self = ROOT).

(** [codex-rs/protocol/src/agent_path.rs:43-52 AgentPath::name] *)
Definition name (self : str) : str :=
  if is_root self then ROOT_SEGMENT
  else match last (split_char SLASH self) with
       | Some segment => if bool_decide (segment = []) then ROOT_SEGMENT else segment
       | None => ROOT_SEGMENT
       end.

(** [codex-rs/protocol/src/agent_path.rs:54-57 AgentPath::join] *)
Definition agent_join (self agent_name : str) : result str str :=
  _ ← validate_agent_name agent_name; from_string (self ++ [SLASH] ++ agent_name).

(** [codex-rs/protocol/src/agent_path.rs:59-72 AgentPath::resolve] *)
Definition resolve (self reference : str) : result str str :=
  if bool_decide (reference = []) then Err (lit "agent path must not be empty")
  else if bool_decide (reference = ROOT) then Ok ROOT
  else if starts_with [SLASH] reference then from_string reference
  else (_ ← validate_relative_reference reference; from_string (self ++ [SLASH] ++ reference)).

(** [codex-rs/core/src/agent/control.rs:679-691 agent_matches_prefix] *)
Definition agent_matches_prefix (agent_path : option str) (prefix : str) : bool :=
  if is_root prefix then true
  else match agent_path with
       | None => false
       | Some agent_path =>
           bool_decide (agent_path = prefix) ||
           match strip_prefix prefix agent_path with
           | Some suffix => starts_with [SLASH] suffix
           | None => false
           end
       end.

(** ** What the checks accept *)

(** The names an agent may have, and the path of a sequence of them below the root. *)
Definition agent_name_ok (n : str) : Prop := validate_agent_name n = Ok tt.
Definition path_of (names : list str) : str := SLASH :: join [SLASH] (ROOT_SEGMENT :: names).

(** The paths that the type holds. *)
Definition valid (p : str) : Prop := validate_absolute_path p = Ok tt.

Lemma agent_name_ok_spec n :
  agent_name_ok n <-> n <> [] /\ n <> ROOT_SEGMENT /\ Forall (fun c => name_char c = true) n.
Proof.
  unfold agent_name_ok, validate_agent_name. split.
  - intros H. repeat case_bool_decide; try done. destruct (contains_char SLASH n); [done|].
    destruct (forallb name_char n) eqn:E; [|done]. split_and!; [done|done|].
    apply Forall_forall. intros c Hc%list_elem_of_In. by eapply forallb_forall in E.
  - intros (H1 & H2 & H3). rewrite !bool_decide_false by (try done; intros ->; by inversion H3).
    cbn [orb]. assert (contains_char SLASH n = false) as ->.
    { apply not_true_iff_false. intros (c & Hc & He)%existsb_exists. apply N.eqb_eq in He as <-.
      rewrite Forall_forall in H3. by specialize (H3 SLASH (proj2 (list_elem_of_In _ _) Hc)). }
    assert (forallb name_char n = true) as ->; [|done].
    apply forallb_forall. intros c Hc%list_elem_of_In. rewrite Forall_forall in H3. auto.
Qed.

Lemma agent_name_slash n : agent_name_ok n -> SLASH ∉ n.
Proof.
  intros (_ & _ & H)%agent_name_ok_spec Hs. rewrite Forall_forall in H. by specialize (H _ Hs).
Qed.

Lemma agent_name_nonempty n : agent_name_ok n -> n <> [].
Proof. by intros (? & _)%agent_name_ok_spec. Qed.

Lemma root_segment_slash : SLASH ∉ ROOT_SEGMENT.
Proof. by apply (bool_decide_unpack (SLASH ∉ ROOT_SEGMENT)). Qed.

Lemma segments_slash names :
  Forall agent_name_ok names -> Forall (fun l => SLASH ∉ l) (ROOT_SEGMENT :: names).
Proof.
  intros H. constructor; [apply root_segment_slash|]. by eapply Forall_impl; [|apply agent_name_slash].
Qed.

Lemma path_of_snoc names n : path_of (names ++ [n]) = path_of names ++ [SLASH] ++ n.
Proof. unfold path_of. by rewrite app_comm_cons, join_snoc. Qed.

Lemma split_path_of names : Forall agent_name_ok names -> split_char SLASH (path_of names) = [] :: ROOT_SEGMENT :: names.
Proof.
  intros H. unfold path_of. cbn [split_char]. rewrite N.eqb_refl. f_equal.
  apply split_join_char; [done|by apply segments_slash].
Qed.

Lemma path_of_ends names : Forall agent_name_ok names -> ends_with [SLASH] (join [SLASH] (ROOT_SEGMENT :: names)) = false.
Proof.
  intros H. destruct names as [|n names _] using rev_ind; [done|].
  rewrite app_comm_cons, join_snoc, app_assoc by done. apply Forall_snoc in H as [_ Hn].
  apply ends_with_slash; [by apply agent_name_nonempty|by apply agent_name_slash].
Qed.

(** A path is that of the watching agent, or names below the root. *)
Lemma valid_spec p : valid p <-> p = MORPHEUS \/ exists names, p = path_of names /\ Forall agent_name_ok names.
Proof.
  unfold valid, validate_absolute_path. split.
  - case_bool_decide as Hm; [by left|]. destruct (strip_prefix [SLASH] p) as [stripped|] eqn:Hs; [|done].
    apply strip_prefix_Some in Hs as ->. pose proof (join_split_char SLASH stripped) as Hj.
    destruct (split_char SLASH stripped) as [|root names]; [done|]. case_bool_decide as Hr; [|done]. cbn [negb].
    destruct (ends_with [SLASH] stripped); [done|]. intros H%try_fold_unit. right. exists names.
    split; [|done]. unfold path_of. by rewrite <- Hr, Hj.
  - intros [->|(names & -> & H)]; [done|]. case_bool_decide as Hm; [done|].
    change (strip_prefix [SLASH] (path_of names)) with (Some (join [SLASH] (ROOT_SEGMENT :: names))). cbv iota beta.
    rewrite split_join_char by (done || by apply segments_slash). rewrite bool_decide_true by done.
    cbn [negb]. rewrite path_of_ends by done. by apply try_fold_unit.
Qed.

Lemma from_string_ok s p : from_string s = Ok p <-> p = s /\ valid s.
Proof. unfold from_string, valid. rewrite result_bind_ok. split; [intros ([] & ? & [= ->]); done|intros [-> H]; by exists tt]. Qed.

Lemma valid_path_of names : Forall agent_name_ok names -> valid (path_of names).
Proof. intros H. apply valid_spec. right. by exists names. Qed.

Lemma path_of_inj a b : Forall agent_name_ok a -> Forall agent_name_ok b -> path_of a = path_of b -> a = b.
Proof. intros Ha Hb Heq. apply (f_equal (split_char SLASH)) in Heq. rewrite !split_path_of in Heq by done. by simplify_eq. Qed.

Lemma path_of_root names : path_of names = ROOT <-> names = [].
Proof.
  split; [|by intros ->]. destruct names as [|n names]; [done|]. unfold path_of. rewrite join_cons by done. intros H.
  apply (f_equal length) in H. rewrite length_cons, !length_app in H. change (length ROOT) with 5 in H.
  change (length ROOT_SEGMENT) with 4 in H. rewrite length_cons in H. lia.
Qed.

Lemma path_of_not_morpheus names : path_of names <> MORPHEUS.
Proof. unfold path_of. destruct names; [done|]. rewrite join_cons by done. done. Qed.

(** The text after a path below another one. *)
Lemma path_of_app names ns : ns <> [] -> path_of (names ++ ns) = path_of names ++ [SLASH] ++ join [SLASH] ns.
Proof.
  induction ns as [|n ns IH] using rev_ind; [done|]. intros _. rewrite app_assoc, path_of_snoc.
  destruct ns as [|m ns]; [by rewrite app_nil_r|]. rewrite IH, (join_snoc _ (m :: ns)) by done. by rewrite <- !app_assoc.
Qed.

Lemma relative_reference r :
  validate_relative_reference r = Ok tt <-> exists ns, r = join [SLASH] ns /\ ns <> [] /\ Forall agent_name_ok ns.
Proof.
  unfold validate_relative_reference. split.
  - destruct (ends_with [SLASH] r); [done|]. intros H%try_fold_unit. exists (split_char SLASH r).
    split_and!; [by rewrite join_split_char|apply split_char_nonempty|done].
  - intros (ns & -> & Hne & H). destruct (exists_last Hne) as (ns' & n & ->).
    pose proof H as [_ Hn]%Forall_snoc.
    assert (ends_with [SLASH] (join [SLASH] (ns' ++ [n])) = false) as ->.
    { destruct ns' as [|m ns'].
      - apply (ends_with_slash []); [by apply agent_name_nonempty|by apply agent_name_slash].
      - rewrite join_snoc, app_assoc by done. apply ends_with_slash; [by apply agent_name_nonempty|by apply agent_name_slash]. }
    apply try_fold_unit. rewrite split_join_char; [done|by destruct ns'|].
    by eapply Forall_impl; [|apply agent_name_slash].
Qed.

(** A relative reference adds names. *)
Lemma resolve_relative names r q : Forall agent_name_ok names -> starts_with [SLASH] r = false ->
  resolve (path_of names) r = Ok q <->
  exists ns, r = join [SLASH] ns /\ ns <> [] /\ Forall agent_name_ok ns /\ q = path_of (names ++ ns).
Proof.
  intros Hn Hr. unfold resolve. case_bool_decide as He.
  { split; [done|]. intros (ns & -> & Hne & Hok & _). destruct ns as [|n [|m ns]]; [done| |].
    - apply Forall_singleton, agent_name_nonempty in Hok. done.
    - apply Forall_cons in Hok as [Hok _]. rewrite join_cons in He by done.
      apply app_eq_nil in He as [-> _]. by apply agent_name_nonempty in Hok. }
  case_bool_decide as Hroot; [by subst r|]. rewrite Hr, result_bind_ok. split.
  - intros ([] & (ns & -> & Hne & Hok)%relative_reference & (-> & _)%from_string_ok). exists ns.
    by rewrite path_of_app.
  - intros (ns & -> & Hne & Hok & ->). exists tt. split; [by apply relative_reference; exists ns|].
    apply from_string_ok. rewrite <- path_of_app by done. split; [done|]. apply valid_path_of, Forall_app. by split.
Qed.

(** An absolute reference stands for itself. *)
Lemma agent_resolve_absolute p r q : starts_with [SLASH] r = true -> resolve p r = Ok q <-> q = r /\ valid r.
Proof.
  intros Hr. unfold resolve. case_bool_decide as He; [by subst r|]. rewrite Hr. case_bool_decide as Hroot.
  - subst r. split; [intros [= <-]; done|by intros [-> _]].
  - apply from_string_ok.
Qed.

(** The prefixes of a path are those of its names. *)
Lemma matches_prefix names prefix : Forall agent_name_ok names -> Forall agent_name_ok prefix ->
  agent_matches_prefix (Some (path_of names)) (path_of prefix) = true <-> prefix `prefix_of` names.
Proof.
  intros Hn Hp. unfold agent_matches_prefix, is_root. case_bool_decide as Hroot.
  { apply path_of_root in Hroot as ->. split; [|done]. intros _. apply prefix_nil. }
  rewrite orb_true_iff, bool_decide_eq_true. split.
  - intros [->%path_of_inj|H]; [done|done|done|]. destruct (strip_prefix _ _) as [suffix|] eqn:Hs; [|done].
    apply starts_with_spec in H as [rest ->]. apply strip_prefix_Some in Hs.
    exists (split_char SLASH rest). apply (f_equal (split_char SLASH)) in Hs.
    cbn [app] in Hs.
    rewrite split_char_join, !split_path_of in Hs by done. by simplify_eq/=.
  - intros [ns ->]. destruct ns as [|n ns]; [left; by rewrite app_nil_r|]. right.
    rewrite path_of_app, strip_prefix_app by done. done.
Qed.

Lemma name_path_of names n : Forall agent_name_ok (names ++ [n]) -> name (path_of (names ++ [n])) = n.
Proof.
  intros H. unfold name, is_root. rewrite bool_decide_false by (rewrite path_of_root; by destruct names).
  rewrite split_path_of by done. rewrite !app_comm_cons, last_snoc.
  apply Forall_snoc in H as [_ Hn]. by rewrite bool_decide_false by by apply agent_name_nonempty.
Qed.

Lemma agent_join_spec names n q : Forall agent_name_ok names ->
  agent_join (path_of names) n = Ok q <-> agent_name_ok n /\ q = path_of (names ++ [n]).
Proof.
  intros Hn. unfold agent_join. rewrite result_bind_ok, path_of_snoc. split.
  - intros ([] & Ho & (-> & _)%from_string_ok). done.
  - intros [Ho ->]. exists tt. split; [done|]. apply from_string_ok. split; [done|]. rewrite <- path_of_snoc.
    apply valid_path_of, Forall_snoc. by split.
Qed.

(** The paths of agents are sequences of names below the root, the watching agent aside: joining a name adds it
    and makes it the name of the agent, a relative reference adds the names it is made of, an absolute one stands for
    itself and must be a path, and one agent is below another exactly when its names start with those of the other;
    different sequences have different paths. *)
Theorem agent_paths_are_names names : Forall agent_name_ok names ->
  (forall p, valid p <-> p = MORPHEUS \/ exists ns, p = path_of ns /\ Forall agent_name_ok ns) /\
  (forall n q, agent_join (path_of names) n = Ok q <-> agent_name_ok n /\ q = path_of (names ++ [n])) /\
  (forall n, agent_name_ok n -> name (path_of (names ++ [n])) = n) /\
  (forall r q, starts_with [SLASH] r = false ->
     resolve (path_of names) r = Ok q <->
     exists ns, r = join [SLASH] ns /\ ns <> [] /\ Forall agent_name_ok ns /\ q = path_of (names ++ ns)) /\
  (forall r q, starts_with [SLASH] r = true -> resolve (path_of names) r = Ok q <-> q = r /\ valid r) /\
  (forall others, Forall agent_name_ok others ->
     (path_of others = path_of names -> others = names) /\
     (agent_matches_prefix (Some (path_of others)) (path_of names) = true <-> names `prefix_of` others)).
Proof.
  intros H. split_and!.
  - apply valid_spec.
  - intros n q. by apply agent_join_spec.
  - intros n Hn. apply name_path_of, Forall_snoc. by split.
  - intros r q. by apply resolve_relative.
  - intros r q. apply agent_resolve_absolute.
  - intros others Ho. split; [by apply path_of_inj|by apply matches_prefix].
Qed.

Lemma agent_paths_are_names_witness :
  resolve (path_of [lit "researcher"]) (lit "worker/helper_2") = Ok (path_of [lit "researcher"; lit "worker"; lit "helper_2"]).
Proof.
  assert (H : Forall agent_name_ok [lit "researcher"]) by by repeat constructor.
  destruct (agent_paths_are_names _ H) as (_ & _ & _ & Hr & _). apply Hr; [done|].
  exists [lit "worker"; lit "helper_2"]. split_and!; [done|done|by repeat constructor|done].
Defined.

(** Nothing is below the watching agent. *)
Example morpheus_has_no_children n : is_ok (agent_join MORPHEUS n) = false.
Proof.
  unfold agent_join. destruct (validate_agent_name n) as [[]|]; [|done].
  cbn. unfold from_string. destruct (validate_absolute_path _) as [[]|] eqn:E; [|done].
  apply valid_spec in E as [E|(ns & E & _)]; [by apply (app_inv_head MORPHEUS (SLASH :: n) []) in E|].
  destruct ns; [done|]. unfold path_of in E. rewrite join_cons in E by done. done.
Qed.

End AgentPath.
