(* ===== verification/AgentRegistry.v ===== *)
(** * The agents of a session: core/src/agent/registry.rs

    The registry that all agents of a session share: the agents that live, the names and paths that are taken, and a
    counter of slots that limits how many agents there are.  The counter is an atomic integer beside the lock of the
    rest, changed by a compare-and-swap loop, so that the operations of different agents interleave between the two;
    a slot is held by a reservation that gives it back when it is dropped.  The identifier of a thread, a UUID, is its
    text.  The order in which a hash map is walked ([entries]), the draws of the random generator and the failures of
    the weak compare-and-swap are arguments. *)

From S2P Require Import Prelude Text AbsolutePath Truncate AgentPath.
From Stdlib Require Import ZifyBool ZifyN ZifyNat.

Module AgentRegistry.
Import AbsolutePath Truncate AgentPath.

Abbreviation ThreadId := str (only parsing).

(** ** Where a session comes from *)

(** [codex-rs/protocol/src/protocol.rs:2716-2731 SubAgentSource] *)
Inductive SubAgentSource :=
| Review
| Compact
| ThreadSpawn (parent_thread_id : ThreadId) (depth : Z) (agent_path agent_nickname agent_role : option str)
| SubMemoryConsolidation
| OtherSubAgent (name : str).

(** [codex-rs/protocol/src/protocol.rs:2655-2666 SessionSource] an internal source has one kind. *)
Inductive SessionSource :=
| Cli | VSCode | Exec | Mcp
| Custom (source : str)
| Internal
| SubAgent (source : SubAgentSource)
| UnknownSource.

(** [codex-rs/protocol/src/protocol.rs:2795-2802 SessionSource::get_agent_path] *)
Definition get_agent_path (self : SessionSource) : option str :=
  match self with SubAgent (ThreadSpawn _ _ agent_path _ _) => agent_path | _ => None end.

Definition i32_max : Z := 2147483647.

(** [codex-rs/core/src/agent/registry.rs:63-69 session_depth] *)
Definition session_depth (session_source : SessionSource) : Z :=
  match session_source with
  | SubAgent (ThreadSpawn _ depth _ _ _) => depth
  | SubAgent _ => 0
  | _ => 0
  end.

(** [codex-rs/core/src/agent/registry.rs:71-73 next_thread_spawn_depth] *)
Definition next_thread_spawn_depth (session_source : SessionSource) : Z :=
  Z.min (session_depth session_source + 1) i32_max.

(** [codex-rs/core/src/agent/registry.rs:75-77 exceeds_thread_spawn_depth_limit] *)
Definition exceeds_thread_spawn_depth_limit (depth max_depth : Z) : bool := (max_depth <? depth)%Z.

(** ** State *)

(** The errors of [CodexErr] that are told apart here, and the others by their text. *)
Inductive CodexErr :=
| AgentLimitReached (max_threads : N)
| UnsupportedOperation (message : str)
| ThreadNotFound (thread_id : ThreadId)
| InternalAgentDied
| Fatal (message : str)
| OtherErr (message : str).

(** [codex-rs/core/src/agent/registry.rs:35-42 AgentMetadata] *)
Record AgentMetadata := mkMetadata {
  agent_id : option ThreadId;
  agent_path : option str;
  agent_nickname : option str;
  agent_role : option str;
  last_task_message : option str
}.

(** [AgentMetadata::default()]. *)
Definition default_metadata : AgentMetadata := mkMetadata None None None None None.

(** [codex-rs/core/src/agent/registry.rs:28-33 ActiveAgents] *)
Record ActiveAgents := mkActive {
  agent_tree : gmap str AgentMetadata;
  used_agent_nicknames : gset str;
  nickname_reset_count : N
}.

(** [codex-rs/core/src/agent/registry.rs:22-26 AgentRegistry] *)
Record AgentRegistry := mkRegistry { active_agents : ActiveAgents; total_count : N }.

(** [AgentRegistry::default()]. *)
Definition empty_registry : AgentRegistry := mkRegistry (mkActive ∅ ∅ 0) 0.

Definition with_tree (f : gmap str AgentMetadata -> gmap str AgentMetadata) (self : AgentRegistry) : AgentRegistry :=
  mkRegistry (mkActive (f (agent_tree (active_agents self))) (used_agent_nicknames (active_agents self))
                (nickname_reset_count (active_agents self))) (total_count self).
Definition tree (self : AgentRegistry) : gmap str AgentMetadata := agent_tree (active_agents self).
#[global] Arguments tree : simpl never.
#[global] Arguments with_tree : simpl never.

(** [AtomicUsize::fetch_add] and [fetch_sub] of one, which wrap around. *)
Definition fetch_add (self : AgentRegistry) : AgentRegistry :=
  mkRegistry (active_agents self) ((total_count self + 1) mod 2 ^ 64)%N.
Definition fetch_sub (self : AgentRegistry) : AgentRegistry :=
  mkRegistry (active_agents self) ((total_count self + (2 ^ 64 - 1)) mod 2 ^ 64)%N.

(** [codex-rs/core/src/agent/registry.rs:308-313 SpawnReservation] beside the registry it holds. *)
Record SpawnReservation := mkReservation {
  active : bool;
  reserved_agent_nickname : option str;
  reserved_agent_path : option str
}.

(** ** Slots *)

(** One round of the loop of [try_increment_spawned], with the value last read. *)
Inductive TryIncrement := Returned (reserved : bool) | Retry (current : N).

(** [codex-rs/core/src/agent/registry.rs:289-305 AgentRegistry::try_increment_spawned] one round; a weak exchange may
    fail although the value is the expected one ([spurious]). *)
Definition try_increment_round (self : AgentRegistry) (max_threads current : N) (spurious : bool) : TryIncrement * AgentRegistry :=
  if (max_threads <=? current)%N then (Returned false, self)
  else if (total_count self =? current)%N && negb spurious
  then (Returned true, mkRegistry (active_agents self) (current + 1))
  else (Retry (total_count self), self).

(** [codex-rs/core/src/agent/registry.rs:289-305 AgentRegistry::try_increment_spawned] when nothing else changes the
    counter: [None] when the weak exchanges given have all failed and the loop goes on. *)
Fixpoint try_increment_loop (spurious : list bool) (self : AgentRegistry) (max_threads current : N) : option (bool * AgentRegistry) :=
  match spurious with
  | [] => None
  | failed :: spurious =>
      match try_increment_round self max_threads current failed with
      | (Returned reserved, self) => Some (reserved, self)
      | (Retry current, self) => try_increment_loop spurious self max_threads current
      end
  end.
(** [codex-rs/core/src/agent/registry.rs:289-305 AgentRegistry::try_increment_spawned] from the value of the counter. *)
Definition try_increment_spawned (spurious : list bool) (self : AgentRegistry) (max_threads : N) : option (bool * AgentRegistry) :=
  try_increment_loop spurious self max_threads (total_count self).

(** The reservation of a slot, before a name or a path is chosen. *)
Definition fresh_reservation : SpawnReservation := mkReservation true None None.

(** [codex-rs/core/src/agent/registry.rs:80-97 AgentRegistry::reserve_spawn_slot] *)
Definition reserve_spawn_slot (spurious : list bool) (self : AgentRegistry) (max_threads : option N)
    : option (result CodexErr SpawnReservation * AgentRegistry) :=
  match max_threads with
  | Some max_threads =>
      '(reserved, self) ← try_increment_spawned spurious self max_threads;
      Some (if reserved : bool then Ok fresh_reservation else Err (AgentLimitReached max_threads), self)
  | None => Some (Ok fresh_reservation, fetch_add self)
  end.

(** ** The tree of agents *)

(** Whether an entry of the tree is a living agent other than the root, and so holds a slot. *)
Definition path_is_root (m : AgentMetadata) : bool := match agent_path m with Some p => is_root p | None => false end.
Definition is_agent (thread_id : ThreadId) (m : AgentMetadata) : bool := bool_decide (agent_id m = Some thread_id).

(** The order in which a map is walked. *)
Definition Entries : Type := gmap str AgentMetadata -> list (str * AgentMetadata).

(** [codex-rs/core/src/agent/registry.rs:99-115 AgentRegistry::release_spawned_thread] what is done under the lock:
    the entry of the thread is removed, and whether it held a slot. *)
Definition remove_spawned (entries : Entries) (self : AgentRegistry) (thread_id : ThreadId) : bool * AgentRegistry :=
  match List.find (fun km => is_agent thread_id km.2) (entries (tree self)) with
  | None => (false, self)
  | Some (key, _) =>
      match tree self !! key with
      | None => (false, self)
      | Some metadata => (negb (path_is_root metadata), with_tree (delete key) self)
      end
  end.

(** [codex-rs/core/src/agent/registry.rs:99-119 AgentRegistry::release_spawned_thread] *)
Definition release_spawned_thread (entries : Entries) (self : AgentRegistry) (thread_id : ThreadId) : AgentRegistry :=
  let '(removed_counted_agent, self) := remove_spawned entries self thread_id in
  if removed_counted_agent then fetch_sub self else self.

(** [codex-rs/core/src/agent/registry.rs:121-134 AgentRegistry::register_root_thread] *)
Definition register_root_thread (self : AgentRegistry) (thread_id : ThreadId) : AgentRegistry :=
  match tree self !! ROOT with
  | Some _ => self
  | None => with_tree (insert ROOT (mkMetadata (Some thread_id) (Some ROOT) None None None)) self
  end.

(** [codex-rs/core/src/agent/registry.rs:136-143 AgentRegistry::agent_id_for_path] *)
Definition agent_id_for_path (self : AgentRegistry) (path : str) : option ThreadId := tree self !! path ≫= agent_id.

(** [codex-rs/core/src/agent/registry.rs:145-153 AgentRegistry::agent_metadata_for_thread] *)
Definition agent_metadata_for_thread (entries : Entries) (self : AgentRegistry) (thread_id : ThreadId) : option AgentMetadata :=
  List.find (is_agent thread_id) (entries (tree self)).*2.

(** [codex-rs/core/src/agent/registry.rs:155-167 AgentRegistry::live_agents] *)
Definition live_agents (entries : Entries) (self : AgentRegistry) : list AgentMetadata :=
  List.filter (fun m => bool_decide (is_Some (agent_id m)) && negb (path_is_root m)) (entries (tree self)).*2.

Definition with_message (message : option str) (m : AgentMetadata) : AgentMetadata :=
  mkMetadata (agent_id m) (agent_path m) (agent_nickname m) (agent_role m) message.

(** The entry of a thread with another message. *)
Definition set_message (entries : Entries) (self : AgentRegistry) (thread_id : ThreadId) (message : option str) : AgentRegistry :=
  match List.find (fun km => is_agent thread_id km.2) (entries (tree self)) with
  | None => self
  | Some (key, metadata) => with_tree (insert key (with_message message metadata)) self
  end.

(** [codex-rs/core/src/agent/registry.rs:169-181 AgentRegistry::update_last_task_message] *)
Definition update_last_task_message (entries : Entries) (self : AgentRegistry) (thread_id : ThreadId) (message : str) : AgentRegistry :=
  set_message entries self thread_id (Some message).

(** [codex-rs/core/src/agent/registry.rs:183-195 AgentRegistry::clear_last_task_message] *)
Definition clear_last_task_message (entries : Entries) (self : AgentRegistry) (thread_id : ThreadId) : AgentRegistry :=
  set_message entries self thread_id None.

Definition thread_key (thread_id : ThreadId) : str := lit "thread:" ++ thread_id.

(** [codex-rs/core/src/agent/registry.rs:197-214 AgentRegistry::register_spawned_thread] *)
Definition register_spawned_thread (self : AgentRegistry) (m : AgentMetadata) : AgentRegistry :=
  match agent_id m with
  | None => self
  | Some thread_id =>
      let key := default (thread_key thread_id) (agent_path m) in
      let a := active_agents self in
      let used := match agent_nickname m with
                  | Some n => {[n]} ∪ used_agent_nicknames a
                  | None => used_agent_nicknames a
                  end in
      mkRegistry (mkActive (<[key := m]> (agent_tree a)) used (nickname_reset_count a)) (total_count self)
  end.

(** [codex-rs/core/src/agent/registry.rs:256-273 AgentRegistry::reserve_agent_path] *)
Definition reserve_agent_path (self : AgentRegistry) (path : str) : result CodexErr unit * AgentRegistry :=
  match tree self !! path with
  | Some _ => (Err (UnsupportedOperation (lit "agent path `" ++ path ++ lit "` already exists")), self)
  | None => (Ok tt, with_tree (insert path (mkMetadata None (Some path) None None None)) self)
  end.

(** [codex-rs/core/src/agent/registry.rs:275-287 AgentRegistry::release_reserved_agent_path] *)
Definition release_reserved_agent_path (self : AgentRegistry) (path : str) : AgentRegistry :=
  match tree self !! path with
  | Some metadata => if bool_decide (agent_id metadata = None) then with_tree (delete path) self else self
  | None => self
  end.

(** ** Nicknames *)

(** [codex-rs/core/src/agent/registry.rs:44-61 format_agent_nickname] *)
Definition format_agent_nickname (name : str) (nickname_reset_count : N) : str :=
  if (nickname_reset_count =? 0)%N then name
  else let value := (nickname_reset_count + 1)%N in
       let suffix :=
         if (11 <=? value mod 100)%N && (value mod 100 <=? 13)%N then lit "th"
         else match (value mod 10)%N with
              | 1%N => lit "st"
              | 2%N => lit "nd"
              | 3%N => lit "rd"
              | _ => lit "th"
              end in
       name ++ lit " the " ++ show_N value ++ suffix.

(** [slice::choose], with the draw: nothing only from an empty slice. *)
Definition choose {A} (draw : nat) (l : list A) : option A := l !! (draw mod length l).

(** [codex-rs/core/src/agent/registry.rs:216-254 AgentRegistry::reserve_agent_nickname] *)
Definition registry_reserve_nickname (draw : nat) (self : AgentRegistry) (names : list str) (preferred : option str)
    : option str * AgentRegistry :=
  let a := active_agents self in
  let take n used count :=
    (Some n, mkRegistry (mkActive (agent_tree a) ({[n]} ∪ used) count) (total_count self)) in
  match preferred with
  | Some preferred => take preferred (used_agent_nicknames a) (nickname_reset_count a)
  | None =>
      if bool_decide (names = []) then (None, self)
      else let available_names :=
             List.filter (fun n => negb (bool_decide (n ∈ used_agent_nicknames a)))
               (map (fun n => format_agent_nickname n (nickname_reset_count a)) names) in
           match choose draw available_names with
           | Some n => take n (used_agent_nicknames a) (nickname_reset_count a)
           | None =>
               let count := (nickname_reset_count a + 1)%N in
               match choose draw names with
               | None => (None, mkRegistry (mkActive (agent_tree a) ∅ count) (total_count self))
               | Some n => take (format_agent_nickname n count) ∅ count
               end
           end
  end.

(** ** Reservations *)

(** [codex-rs/core/src/agent/registry.rs:316-329 SpawnReservation::reserve_agent_nickname_with_preference] *)
Definition reserve_agent_nickname_with_preference (draw : nat) (state : AgentRegistry) (self : SpawnReservation)
    (names : list str) (preferred : option str) : result CodexErr str * SpawnReservation * AgentRegistry :=
  match registry_reserve_nickname draw state names preferred with
  | (None, state) => (Err (UnsupportedOperation (lit "no available agent nicknames")), self, state)
  | (Some n, state) => (Ok n, mkReservation (active self) (Some n) (reserved_agent_path self), state)
  end.

(** [codex-rs/core/src/agent/registry.rs:331-335 SpawnReservation::reserve_agent_path] *)
Definition reservation_reserve_path (state : AgentRegistry) (self : SpawnReservation) (path : str)
    : result CodexErr unit * SpawnReservation * AgentRegistry :=
  match reserve_agent_path state path with
  | (Err e, state) => (Err e, self, state)
  | (Ok _, state) => (Ok tt, mkReservation (active self) (reserved_agent_nickname self) (Some path), state)
  end.

(** [codex-rs/core/src/agent/registry.rs:346-353 SpawnReservation::drop] what is done under the lock, and whether the
    slot is given back. *)
Definition drop_path (state : AgentRegistry) (self : SpawnReservation) : bool * AgentRegistry :=
  if active self
  then (true, match reserved_agent_path self with Some p => release_reserved_agent_path state p | None => state end)
  else (false, state).

(** [codex-rs/core/src/agent/registry.rs:346-353 SpawnReservation::drop] *)
Definition drop_reservation (state : AgentRegistry) (self : SpawnReservation) : AgentRegistry :=
  let '(release, state) := drop_path state self in if release then fetch_sub state else state.

(** [codex-rs/core/src/agent/registry.rs:337-342 SpawnReservation::commit] the reservation is dropped, inactive, at the
    end. *)
Definition commit (state : AgentRegistry) (self : SpawnReservation) (m : AgentMetadata) : AgentRegistry :=
  drop_reservation (register_spawned_thread state m) (mkReservation false None None).

(** [codex-rs/core/src/agent/control.rs:497-534 AgentControl::prepare_thread_spawn] the candidates of the role are an
    argument; the reservation is kept in every case. *)
Definition prepare_thread_spawn (draw : nat) (candidate_names : list str) (state : AgentRegistry) (reservation : SpawnReservation)
    (parent_thread_id : ThreadId) (depth : Z) (path role preferred_agent_nickname : option str)
    : result CodexErr (SessionSource * AgentMetadata) * SpawnReservation * AgentRegistry :=
  let state := if (depth =? 1)%Z then register_root_thread state parent_thread_id else state in
  let '(reserved, reservation, state) :=
    match path with
    | Some p => reservation_reserve_path state reservation p
    | None => (Ok tt, reservation, state)
    end in
  match reserved with
  | Err e => (Err e, reservation, state)
  | Ok _ =>
      match reserve_agent_nickname_with_preference draw state reservation candidate_names preferred_agent_nickname with
      | (Err e, reservation, state) => (Err e, reservation, state)
      | (Ok n, reservation, state) =>
          (Ok (SubAgent (ThreadSpawn parent_thread_id depth path (Some n) role),
               mkMetadata None path (Some n) role None), reservation, state)
      end
  end.

(** ** Interleavings *)

(** What an attempt to spawn, or the release of a thread, is about to do between two operations on shared state. *)
Inductive Task :=
| Reserving (max_threads current : N)
| Holding (reservation : SpawnReservation)
| GivingBack
| Finished
(** Finished, with a slot that nothing will give back. *)
| Stranded.

#[global] Instance Task_stranded_dec t : Decision (t = Stranded).
Proof. destruct t; (left; reflexivity) || (right; discriminate). Defined.

Record System := mkSystem { registry : AgentRegistry; tasks : list Task }.

(** The walk of a map that visits each entry once. *)
Definition walks (entries : Entries) : Prop := forall t, entries t ≡ₚ map_to_list t.

(** One access to the shared state by one task.  The rules for reservations are those of the callers: a path is
    reserved at most once and is not the root, and an agent is committed under the path that was reserved for it.  A
    thread without a path may be registered again while it is in the tree: its entry is replaced, and the slot that was
    taken for it the second time stays taken. *)
Inductive task_step : AgentRegistry -> Task -> AgentRegistry -> Task -> Prop :=
| round_retry reg max cur spurious next reg' :
    try_increment_round reg max cur spurious = (Retry next, reg') ->
    task_step reg (Reserving max cur) reg' (Reserving max next)
| round_reserved reg max cur spurious reg' :
    try_increment_round reg max cur spurious = (Returned true, reg') ->
    task_step reg (Reserving max cur) reg' (Holding fresh_reservation)
| round_refused reg max cur spurious reg' :
    try_increment_round reg max cur spurious = (Returned false, reg') ->
    task_step reg (Reserving max cur) reg' Finished
| hold_path reg r p e r' reg' :
    reserved_agent_path r = None -> valid p -> is_root p = false ->
    reservation_reserve_path reg r p = (e, r', reg') ->
    task_step reg (Holding r) reg' (Holding r')
| hold_nickname draw reg r names preferred e r' reg' :
    reserve_agent_nickname_with_preference draw reg r names preferred = (e, r', reg') ->
    task_step reg (Holding r) reg' (Holding r')
| hold_commit reg r m thread_id :
    agent_id m = Some thread_id -> agent_path m = reserved_agent_path r ->
    (agent_path m = None -> tree reg !! thread_key thread_id = None) ->
    task_step reg (Holding r) (commit reg r m) Finished
| hold_commit_again reg r m thread_id old :
    agent_id m = Some thread_id -> agent_path m = None -> reserved_agent_path r = None ->
    tree reg !! thread_key thread_id = Some old ->
    task_step reg (Holding r) (commit reg r m) Stranded
| hold_drop reg r release reg' :
    drop_path reg r = (release, reg') ->
    task_step reg (Holding r) reg' (if release then GivingBack else Finished)
| give_back reg :
    task_step reg GivingBack (fetch_sub reg) Finished.

(** The limits that requests come with are [allowed]. *)
Inductive step (allowed : option N -> Prop) : System -> System -> Prop :=
| step_task reg l t r reg' t' :
    task_step reg t reg' t' -> step allowed (mkSystem reg (l ++ t :: r)) (mkSystem reg' (l ++ t' :: r))
| step_limited reg ts max :
    allowed (Some max) -> (max <= usize_max)%N -> step allowed (mkSystem reg ts) (mkSystem reg (ts ++ [Reserving max (total_count reg)]))
| step_unlimited reg ts :
    allowed None -> step allowed (mkSystem reg ts) (mkSystem (fetch_add reg) (ts ++ [Holding fresh_reservation]))
| step_release entries reg ts thread_id counted reg' :
    walks entries -> remove_spawned entries reg thread_id = (counted, reg') ->
    step allowed (mkSystem reg ts) (mkSystem reg' (ts ++ [if counted : bool then GivingBack else Finished]))
| step_root reg ts thread_id :
    step allowed (mkSystem reg ts) (mkSystem (register_root_thread reg thread_id) ts)
| step_message entries reg ts thread_id message :
    walks entries -> step allowed (mkSystem reg ts) (mkSystem (set_message entries reg thread_id message) ts).

(** ** Counting slots *)

(** A living agent other than the root. *)
Definition holds_slot (m : AgentMetadata) : bool := bool_decide (is_Some (agent_id m)) && negb (path_is_root m).
Definition living (t : gmap str AgentMetadata) : nat := size (filter (fun km => holds_slot km.2 = true) t).
Definition task_slots (t : Task) : nat := match t with Holding _ | GivingBack | Stranded => 1 | _ => 0 end.
Definition slots (s : System) : nat := living (tree (registry s)) + sum_list_with task_slots (tasks s).

Lemma living_insert t k m : t !! k = None -> living (<[k := m]> t) = living t + (if holds_slot m then 1 else 0).
Proof.
  intros Hk. unfold living. destruct (holds_slot m) eqn:E.
  - rewrite map_filter_insert_True by done. rewrite map_size_insert_None; [lia|].
    apply map_lookup_filter_None. by left.
  - rewrite map_filter_insert_not' by (cbn; congruence || (intros ?; congruence)). lia.
Qed.

Lemma living_delete t k m : t !! k = Some m -> living t = living (delete k t) + (if holds_slot m then 1 else 0).
Proof.
  intros Hk. rewrite <- (insert_id t k m) at 1 by done. rewrite <- insert_delete_eq, living_insert; [done|].
  apply lookup_delete_eq.
Qed.

(** Replacing an entry by one that counts the same. *)
Lemma living_replace t k m m' : t !! k = Some m -> holds_slot m = holds_slot m' -> living (<[k := m']> t) = living t.
Proof.
  intros Hk Hh. rewrite <- insert_delete_eq, living_insert by apply lookup_delete_eq.
  rewrite (living_delete t k m Hk), Hh. done.
Qed.

Lemma tree_with_tree f reg : tree (with_tree f reg) = f (tree reg).
Proof. done. Qed.

Lemma total_with_tree f reg : total_count (with_tree f reg) = total_count reg.
Proof. done. Qed.

(** What [List.find] finds in a walk of a map is an entry of it. *)
Lemma walk_find (entries : Entries) (t : gmap str AgentMetadata) p k m :
  walks entries -> List.find p (entries t) = Some (k, m) -> t !! k = Some m /\ p (k, m) = true.
Proof.
  intros Hw [Hin Hp]%find_some. split; [|done]. apply elem_of_map_to_list. rewrite <- (Hw t). by apply list_elem_of_In.
Qed.

Lemma walk_find_none (entries : Entries) (t : gmap str AgentMetadata) thread_id :
  walks entries -> List.find (fun km => is_agent thread_id km.2) (entries t) = None ->
  map_Forall (fun _ m => agent_id m <> Some thread_id) t.
Proof.
  intros Hw Hf k m Hk. assert (Hin : In (k, m) (entries t)).
  { apply list_elem_of_In. rewrite (Hw t). by apply elem_of_map_to_list. }
  pose proof (find_none _ _ Hf _ Hin) as Hn. cbn in Hn. by apply bool_decide_eq_false in Hn.
Qed.

Lemma remove_spawned_spec entries reg thread_id counted reg' : walks entries ->
  remove_spawned entries reg thread_id = (counted, reg') ->
  total_count reg' = total_count reg /\
  ((reg' = reg /\ counted = false /\ map_Forall (fun _ m => agent_id m <> Some thread_id) (tree reg)) \/
   exists k m, tree reg !! k = Some m /\ agent_id m = Some thread_id /\ counted = holds_slot m /\ tree reg' = delete k (tree reg)).
Proof.
  intros Hw. unfold remove_spawned. destruct (List.find _ _) as [[k m]|] eqn:E.
  2: { intros [= <- <-]. split; [done|]. left. split_and!; [done|done|]. by eapply walk_find_none. }
  apply walk_find in E as [Hk Hi]; [|done]. rewrite Hk. intros [= <- <-]. split; [done|]. right. exists k, m.
  apply bool_decide_eq_true in Hi. cbn in Hi. split_and!; [done|done| |done].
  unfold holds_slot. by rewrite Hi.
Qed.

Lemma set_message_spec entries reg thread_id message : walks entries ->
  set_message entries reg thread_id message = reg \/
  exists k m, tree reg !! k = Some m /\ agent_id m = Some thread_id /\
    set_message entries reg thread_id message = with_tree (insert k (with_message message m)) reg.
Proof.
  intros Hw. unfold set_message. destruct (List.find _ _) as [[k m]|] eqn:E; [|by left].
  apply walk_find in E as [Hk Hi]; [|done]. apply bool_decide_eq_true in Hi. right. by exists k, m.
Qed.

(** ** The invariant *)

Definition held_path (t : Task) : option str := match t with Holding r => reserved_agent_path r | _ => None end.

(** The key of an entry is its path, or stands for its identifier. *)
Definition keyed (k : str) (m : AgentMetadata) : Prop :=
  match agent_path m with
  | Some p => k = p /\ valid p
  | None => exists thread_id, agent_id m = Some thread_id /\ k = thread_key thread_id
  end.

(** Every request comes with a limit, and none with more than [M]. *)
Definition limited (allowed : option N -> Prop) (M : N) : Prop :=
  (M <= usize_max)%N /\ forall o, allowed o -> exists m, o = Some m /\ (m <= M)%N.

(** The counter counts [n] slots, and there are no more than the limits allow. *)
Definition counts (allowed : option N -> Prop) (n : nat) (total : N) : Prop :=
  total = (N.of_nat n mod 2 ^ 64)%N /\ forall M, limited allowed M -> (N.of_nat n <= M)%N.

Record inv (allowed : option N -> Prop) (s : System) : Prop := {
  inv_count : counts allowed (slots s) (total_count (registry s));
  inv_active : forall r, Holding r ∈ tasks s -> active r = true;
  inv_limits : forall max cur, Reserving max cur ∈ tasks s -> allowed (Some max) /\ (max <= usize_max)%N;
  inv_nodup : NoDup (omap held_path (tasks s));
  inv_not_root : ROOT ∉ omap held_path (tasks s);
  inv_held : forall p, p ∈ omap held_path (tasks s) <-> exists m, tree (registry s) !! p = Some m /\ agent_id m = None;
  inv_keyed : map_Forall keyed (tree (registry s))
}.

Lemma slots_perm reg ts ts' : ts ≡ₚ ts' -> slots (mkSystem reg ts) = slots (mkSystem reg ts').
Proof. intros Hp. unfold slots. cbn. by rewrite Hp. Qed.

Lemma omap_perm {A B} (f : A -> option B) l l' : l ≡ₚ l' -> omap f l ≡ₚ omap f l'.
Proof. intros H. by rewrite H. Qed.

Lemma inv_perm allowed reg ts ts' : ts ≡ₚ ts' -> inv allowed (mkSystem reg ts) -> inv allowed (mkSystem reg ts').
Proof.
  intros Hp [H1 H2 H3 H4 H5 H6 H7]. pose proof (omap_perm held_path _ _ Hp) as Ho. constructor; cbn in *.
  - by rewrite <- (slots_perm _ _ _ Hp).
  - intros r. rewrite <- Hp. apply H2.
  - intros max cur. rewrite <- Hp. apply H3.
  - by rewrite <- Ho.
  - by rewrite <- Ho.
  - intros p. rewrite <- Ho. apply H6.
  - done.
Qed.

Lemma slots_cons reg t ts : slots (mkSystem reg (t :: ts)) = living (tree reg) + task_slots t + sum_list_with task_slots ts.
Proof. unfold slots. cbn. lia. Qed.

Lemma valid_slash p : valid p -> exists r, p = SLASH :: r.
Proof.
  intros [->|(ns & -> & _)]%valid_spec; [by eexists|]. unfold path_of. by eexists.
Qed.

Lemma counts_eq allowed n m total : counts allowed n total -> n = m -> counts allowed m total.
Proof. by intros ? <-. Qed.

Lemma counts_add allowed n total : counts allowed n total ->
  (forall M, limited allowed M -> (total < M)%N) -> counts allowed (n + 1) ((total + 1) mod 2 ^ 64).
Proof.
  intros [-> Hb] Hl. split.
  - rewrite N.Div0.add_mod_idemp_l. f_equal. lia.
  - intros M HM. specialize (Hb M HM). specialize (Hl M HM). destruct HM as [HM _]. unfold usize_max, u64_max in HM.
    rewrite N.mod_small in Hl by lia. lia.
Qed.

Lemma counts_sub allowed n total : counts allowed (n + 1) total -> counts allowed n ((total + (2 ^ 64 - 1)) mod 2 ^ 64).
Proof.
  intros [-> Hb]. split.
  - rewrite N.Div0.add_mod_idemp_l.
    replace (N.of_nat (n + 1) + (2 ^ 64 - 1))%N with (N.of_nat n + 1 * 2 ^ 64)%N by lia. by rewrite N.Div0.mod_add.
  - intros M HM. specialize (Hb M HM). lia.
Qed.

(** Dropping a path that a reservation holds. *)
Lemma drop_path_inv allowed reg r ts release reg' :
  inv allowed (mkSystem reg (Holding r :: ts)) -> drop_path reg r = (release, reg') ->
  release = true /\ inv allowed (mkSystem reg' (GivingBack :: ts)).
Proof.
  intros [H1 H2 H3 H4 H5 H6 H7] Hd. unfold drop_path in Hd. cbn in *.
  rewrite (H2 r) in Hd by set_solver. injection Hd as <- <-. split; [done|].
  rewrite slots_cons in H1. destruct (reserved_agent_path r) as [p|] eqn:Hp.
  - pose proof (proj1 (H6 p) ltac:(set_solver)) as (m & Hm & Hid).
    unfold release_reserved_agent_path. rewrite Hm, bool_decide_true by done.
    apply NoDup_cons in H4 as [Hn H4]. constructor; cbn; rewrite ?tree_with_tree, ?total_with_tree.
    + apply (counts_eq _ _ _ _ H1). rewrite slots_cons, tree_with_tree, (living_delete _ _ _ Hm). unfold holds_slot.
      rewrite Hid. cbn. lia.
    + set_solver.
    + set_solver.
    + done.
    + set_solver.
    + intros q. destruct (decide (q = p)) as [->|Hq].
      * rewrite lookup_delete_eq. split; [done|]. by intros (? & ? & _).
      * rewrite lookup_delete_ne by done. rewrite <- (H6 q). set_solver.
    + by apply map_Forall_delete.
  - constructor; cbn; try done; [by rewrite slots_cons|set_solver|set_solver].
Qed.

(** Committing an agent under the path that was reserved. *)
Lemma commit_inv allowed reg r ts m thread_id :
  inv allowed (mkSystem reg (Holding r :: ts)) ->
  agent_id m = Some thread_id -> agent_path m = reserved_agent_path r ->
  (agent_path m = None -> tree reg !! thread_key thread_id = None) ->
  inv allowed (mkSystem (commit reg r m) (Finished :: ts)).
Proof.
  intros [H1 H2 H3 H4 H5 H6 H7] Hid Hp Hfresh. rewrite slots_cons in H1. cbn in *.
  unfold commit, drop_reservation, drop_path, register_spawned_thread. rewrite Hid. cbn.
  destruct (reserved_agent_path r) as [p|] eqn:Hr; rewrite Hp; cbn.
  - pose proof (proj1 (H6 p) ltac:(set_solver)) as (old & Ho & Hoid).
    pose proof (H7 _ _ Ho) as Hk. unfold keyed in Hk. apply NoDup_cons in H4 as [Hn H4].
    constructor; cbn.
    + apply (counts_eq _ _ _ _ H1). rewrite slots_cons. unfold tree. cbn.
      rewrite <- insert_delete_eq, living_insert by apply lookup_delete_eq. fold (tree reg). rewrite (living_delete _ _ _ Ho).
      assert (holds_slot m = true) as ->.
      { unfold holds_slot, path_is_root. rewrite Hid, Hp. unfold is_root. rewrite (bool_decide_false (p = ROOT)) by (intros ->; apply H5; left). done. }
      unfold holds_slot. rewrite Hoid. cbn. lia.
    + set_solver.
    + set_solver.
    + done.
    + set_solver.
    + intros q. unfold tree. cbn. destruct (decide (q = p)) as [->|Hq].
      * rewrite lookup_insert_eq. split; [done|]. intros (? & [= <-] & ?). congruence.
      * rewrite lookup_insert_ne by done. rewrite <- (H6 q). set_solver.
    + apply map_Forall_insert_2; [|done]. unfold keyed. rewrite Hp.
      destruct (agent_path old); [by destruct Hk as [-> ?]|]. destruct Hk as (? & ? & _). congruence.
  - specialize (Hfresh Hp). constructor; cbn.
    + apply (counts_eq _ _ _ _ H1). rewrite slots_cons. unfold tree. cbn. rewrite living_insert by done. fold (tree reg).
      assert (holds_slot m = true) as -> by (unfold holds_slot, path_is_root; by rewrite Hid, Hp). cbn. lia.
    + set_solver.
    + set_solver.
    + done.
    + done.
    + intros q. unfold tree. cbn. rewrite H6. destruct (decide (q = thread_key thread_id)) as [->|Hq].
      * rewrite lookup_insert_eq. fold (tree reg). rewrite Hfresh. split; [by intros (? & ? & _)|]. intros (? & [= <-] & ?). congruence.
      * rewrite lookup_insert_ne by done. done.
    + apply map_Forall_insert_2; [|done]. unfold keyed. rewrite Hp. by exists thread_id.
Qed.

(** Registering a thread again that has no path. *)
Lemma commit_again_inv allowed reg r ts m thread_id old :
  inv allowed (mkSystem reg (Holding r :: ts)) ->
  agent_id m = Some thread_id -> agent_path m = None -> reserved_agent_path r = None ->
  tree reg !! thread_key thread_id = Some old ->
  inv allowed (mkSystem (commit reg r m) (Stranded :: ts)).
Proof.
  intros [H1 H2 H3 H4 H5 H6 H7] Hid Hp Hr Hold. rewrite slots_cons in H1. cbn in *.
  unfold commit, drop_reservation, drop_path, register_spawned_thread. rewrite Hid. cbn. rewrite Hr, Hp in *. cbn.
  assert (exists i, agent_id old = Some i /\ agent_path old = None) as (i & Hi & Hop).
  { pose proof (H7 _ _ Hold) as Hk. unfold keyed in Hk. destruct (agent_path old) as [p|].
    - destruct Hk as [<- Hv]. by apply valid_slash in Hv as [? ?].
    - destruct Hk as (i & ? & _). by exists i. }
  constructor; cbn; [| | |done|done| |].
  - apply (counts_eq _ _ _ _ H1). rewrite slots_cons. unfold tree. cbn. fold (tree reg).
    rewrite (living_replace _ _ _ _ Hold); [done|]. unfold holds_slot, path_is_root. by rewrite Hi, Hid, Hop, Hp.
  - set_solver.
  - set_solver.
  - intros q. unfold tree. cbn. rewrite H6. fold (tree reg). destruct (decide (q = thread_key thread_id)) as [->|Hq].
    + rewrite lookup_insert_eq, Hold. split; intros (? & [= <-] & ?); congruence.
    + by rewrite lookup_insert_ne.
  - apply map_Forall_insert_2; [|done]. unfold keyed. rewrite Hp. by exists thread_id.
Qed.

(** A change of neither the tree, the counter nor the tasks that matter. *)
Lemma inv_same allowed reg reg' ts ts' :
  tree reg' = tree reg -> total_count reg' = total_count reg ->
  sum_list_with task_slots ts' = sum_list_with task_slots ts ->
  omap held_path ts' = omap held_path ts ->
  (forall r, Holding r ∈ ts' -> active r = true) ->
  (forall max cur, Reserving max cur ∈ ts' -> allowed (Some max) /\ (max <= usize_max)%N) ->
  inv allowed (mkSystem reg ts) -> inv allowed (mkSystem reg' ts').
Proof.
  intros Ht Hc Hs Hh Ha Hl [H1 H2 H3 H4 H5 H6 H7]. unfold slots in H1. cbn in *.
  constructor; unfold slots; cbn; rewrite ?Ht, ?Hc, ?Hs, ?Hh; done.
Qed.

Lemma registry_reserve_nickname_frame draw reg names preferred e reg' :
  registry_reserve_nickname draw reg names preferred = (e, reg') ->
  tree reg' = tree reg /\ total_count reg' = total_count reg.
Proof. unfold registry_reserve_nickname, tree. intros H. repeat (case_match; simplify_eq/=; try done). Qed.

(** Taking a slot by the exchange. *)
Lemma reserved_inv allowed reg ts max cur spurious reg' :
  inv allowed (mkSystem reg (Reserving max cur :: ts)) ->
  try_increment_round reg max cur spurious = (Returned true, reg') ->
  (total_count reg < max)%N /\ inv allowed (mkSystem reg' (Holding fresh_reservation :: ts)).
Proof.
  intros [H1 H2 H3 H4 H5 H6 H7] Hr. rewrite slots_cons in H1. cbn in *. unfold try_increment_round in Hr.
  destruct (N.leb_spec max cur) as [|Hmax]; [done|]. destruct (N.eqb_spec (total_count reg) cur) as [Hcur|]; [|done].
  destruct spurious; [done|]. injection Hr as <-. destruct (H3 max cur ltac:(left)) as [Ha Hm].
  unfold usize_max, u64_max in Hm. split; [lia|]. constructor; rewrite ?slots_cons; cbn -[N.modulo N.pow]; try done; [|set_solver|set_solver].
  rewrite <- (N.mod_small (cur + 1) (2 ^ 64)), <- Hcur by lia.
  eapply counts_eq; [apply (counts_add _ _ _ H1)|unfold tree; cbn; lia].
  intros M [_ HM]. destruct (HM _ Ha) as (m & [= <-] & ?). lia.
Qed.

(** Reserving a path. *)
Lemma reserve_path_inv allowed reg r ts p e r' reg' :
  inv allowed (mkSystem reg (Holding r :: ts)) ->
  reserved_agent_path r = None -> valid p -> is_root p = false ->
  reservation_reserve_path reg r p = (e, r', reg') ->
  inv allowed (mkSystem reg' (Holding r' :: ts)).
Proof.
  intros Hi Hnone Hv Hroot Hr. unfold reservation_reserve_path, reserve_agent_path in Hr.
  destruct (tree reg !! p) as [m|] eqn:Hp; simplify_eq/=; [done|].
  destruct Hi as [H1 H2 H3 H4 H5 H6 H7]. rewrite slots_cons in H1. cbn in *. rewrite Hnone in *. cbn in *.
  assert (Hpn : p ∉ omap held_path ts) by (rewrite H6; intros (? & ? & _); congruence).
  apply bool_decide_eq_false in Hroot. constructor; cbn -[N.modulo N.pow]; rewrite ?tree_with_tree, ?total_with_tree.
  - apply (counts_eq _ _ _ _ H1). rewrite slots_cons, tree_with_tree, living_insert by done. cbn. lia.
  - intros r0 [[= ->]|Hin]%elem_of_cons; [|by apply H2; right]. cbn. apply H2. left.
  - intros max cur Hin. apply (H3 max cur). set_solver.
  - by constructor.
  - by apply not_elem_of_cons.
  - intros q. rewrite elem_of_cons. destruct (decide (q = p)) as [->|Hq].
    + rewrite lookup_insert_eq. split; [|by left]. intros _. by eexists.
    + rewrite lookup_insert_ne, <- H6 by done. naive_solver.
  - apply map_Forall_insert_2; [|done]. by split.
Qed.

(** Giving a slot back. *)
Lemma give_back_inv allowed reg ts :
  inv allowed (mkSystem reg (GivingBack :: ts)) -> inv allowed (mkSystem (fetch_sub reg) (Finished :: ts)).
Proof.
  intros [H1 H2 H3 H4 H5 H6 H7]. rewrite slots_cons in H1. cbn -[N.modulo N.pow] in *.
  constructor; cbn -[N.modulo N.pow]; try done; [|set_solver|set_solver].
  rewrite slots_cons. change (tree (fetch_sub reg)) with (tree reg). cbn.
  apply counts_sub, (counts_eq _ _ _ _ H1). lia.
Qed.

(** One access by one task. *)
Lemma task_step_inv allowed reg t ts reg' t' :
  task_step reg t reg' t' -> inv allowed (mkSystem reg (t :: ts)) -> inv allowed (mkSystem reg' (t' :: ts)).
Proof.
  intros Hs Hi. pose proof (inv_active _ _ Hi) as Ha. pose proof (inv_limits _ _ Hi) as Hl. cbn in Ha, Hl. destruct Hs.
  - unfold try_increment_round in H. repeat (case_match; simplify_eq/=).
    eapply inv_same; [..|exact Hi]; try done; [set_solver|].
    intros ? ? [[= -> ->]|?]%elem_of_cons; [apply (Hl _ cur); left|apply (Hl _ cur0); by right].
  - by apply (reserved_inv _ _ _ _ _ _ _ Hi) in H as [_ ?].
  - unfold try_increment_round in H. repeat (case_match; simplify_eq/=).
    eapply inv_same; [..|exact Hi]; try done; set_solver.
  - by eapply reserve_path_inv.
  - unfold reserve_agent_nickname_with_preference in H.
    destruct (registry_reserve_nickname draw reg names preferred) as [[n|] reg0] eqn:E; simplify_eq;
      apply registry_reserve_nickname_frame in E as [Ht Hc];
      (eapply inv_same; [..|exact Hi]; try done);
      first [intros r0 [[= ->]|Hr]%elem_of_cons; cbn; apply Ha; set_solver
        |intros ? ? [?|?]%elem_of_cons; [done|eapply Hl; right; eassumption]].
  - by eapply commit_inv.
  - by eapply commit_again_inv.
  - by apply (drop_path_inv _ _ _ _ _ _ Hi) in H as [-> ?].
  - by apply give_back_inv.
Qed.

(** A new task. *)
Lemma inv_new allowed reg t ts : held_path t = None -> task_slots t = 0 ->
  (forall max cur, t = Reserving max cur -> allowed (Some max) /\ (max <= usize_max)%N) ->
  inv allowed (mkSystem reg ts) -> inv allowed (mkSystem reg (ts ++ [t])).
Proof.
  intros Hh Hs Hl Hi. apply (inv_perm _ _ (t :: ts)); [apply Permutation_cons_append|].
  pose proof (inv_active _ _ Hi) as Ha. pose proof (inv_limits _ _ Hi) as Hm. cbn in Ha, Hm.
  eapply inv_same; [..|exact Hi]; try done; cbn.
  - by rewrite Hs.
  - by rewrite Hh.
  - intros r [<-|?]%elem_of_cons; [done|auto].
  - intros max cur [<-|?]%elem_of_cons; [by eapply Hl|eauto].
Qed.

(** The removal of a thread leaves its slot to be given back. *)
Lemma release_inv allowed entries reg ts thread_id counted reg' : walks entries ->
  remove_spawned entries reg thread_id = (counted, reg') ->
  inv allowed (mkSystem reg ts) ->
  inv allowed (mkSystem reg' (ts ++ [if counted : bool then GivingBack else Finished])).
Proof.
  intros Hw Hr Hi. apply remove_spawned_spec in Hr as [Hc [(-> & -> & _)|(k & m & Hk & Hid & -> & Ht)]]; [by apply inv_new| |done].
  apply (inv_perm _ _ ((if holds_slot m then GivingBack else Finished) :: ts)); [apply Permutation_cons_append|].
  destruct Hi as [H1 H2 H3 H4 H5 H6 H7]. unfold slots in H1. cbn in *. rewrite (living_delete _ _ _ Hk) in H1.
  assert (Hh : held_path (if holds_slot m then GivingBack else Finished) = None) by by destruct (holds_slot m).
  constructor; rewrite ?slots_cons; cbn -[N.modulo N.pow]; rewrite ?Hh, ?Ht, ?Hc; try done.
  - apply (counts_eq _ _ _ _ H1). destruct (holds_slot m); cbn; lia.
  - intros r [E|?]%elem_of_cons; [by destruct (holds_slot m)|auto].
  - intros max cur [E|?]%elem_of_cons; [by destruct (holds_slot m)|eauto].
  - intros p. rewrite H6. destruct (decide (p = k)) as [->|Hp].
    + rewrite lookup_delete_eq, Hk. split; [|by intros (? & ? & _)]. intros (? & [= <-] & ?). congruence.
    + by rewrite lookup_delete_ne.
  - by apply map_Forall_delete.
Qed.

(** An entry replaced by one of the same identity. *)
Lemma replace_inv allowed reg ts k m m' : tree reg !! k = Some m ->
  agent_id m' = agent_id m -> agent_path m' = agent_path m ->
  inv allowed (mkSystem reg ts) -> inv allowed (mkSystem (with_tree (insert k m') reg) ts).
Proof.
  intros Hk Hid Hp [H1 H2 H3 H4 H5 H6 H7]. unfold slots in H1. cbn in *.
  constructor; unfold slots; cbn -[N.modulo N.pow]; rewrite ?tree_with_tree, ?total_with_tree; try done.
  - rewrite (living_replace _ _ m) by (try done; unfold holds_slot, path_is_root; by rewrite Hid, Hp). done.
  - intros p. rewrite H6. destruct (decide (p = k)) as [->|Hq].
    + rewrite lookup_insert_eq, Hk. split; intros (? & [= <-] & ?); eexists; (split; [reflexivity|congruence]).
    + by rewrite lookup_insert_ne.
  - apply map_Forall_insert_2; [|done]. specialize (H7 _ _ Hk). unfold keyed in *. by rewrite Hid, Hp.
Qed.

Lemma register_root_inv allowed reg ts thread_id :
  inv allowed (mkSystem reg ts) -> inv allowed (mkSystem (register_root_thread reg thread_id) ts).
Proof.
  intros Hi. unfold register_root_thread. destruct (tree reg !! ROOT) eqn:Hr; [done|].
  destruct Hi as [H1 H2 H3 H4 H5 H6 H7]. unfold slots in H1. cbn in *.
  constructor; unfold slots; cbn -[N.modulo N.pow]; rewrite ?tree_with_tree, ?total_with_tree; try done.
  - rewrite living_insert by done.
    replace (holds_slot (mkMetadata (Some thread_id) (Some ROOT) None None None)) with false by done.
    apply (counts_eq _ _ _ _ H1). lia.
  - intros p. rewrite H6. destruct (decide (p = ROOT)) as [->|Hp].
    + rewrite lookup_insert_eq, Hr. split; [by intros (? & ? & _)|]. by intros (? & [= <-] & ?).
    + by rewrite lookup_insert_ne.
  - apply map_Forall_insert_2; [|done]. by split.
Qed.

Lemma registry_step_inv allowed s s' : step allowed s s' -> inv allowed s -> inv allowed s'.
Proof.
  intros Hs Hi. destruct Hs.
  - eapply inv_perm; [apply Permutation_middle|]. eapply task_step_inv; [done|].
    eapply inv_perm; [|done]. symmetry. apply Permutation_middle.
  - apply inv_new; [done|done| |done]. by intros ? ? [= <- <-].
  - eapply inv_perm; [apply Permutation_cons_append|]. destruct Hi as [H1 H2 H3 H4 H5 H6 H7]. unfold slots in H1. cbn in *.
    constructor; rewrite ?slots_cons; cbn -[N.modulo N.pow]; try done.
    + eapply counts_eq; [apply (counts_add _ _ _ H1)|change (tree (fetch_add reg)) with (tree reg); lia].
      intros M [_ HM]. by destruct (HM _ H) as (? & ? & _).
    + intros r [[= ->]|?]%elem_of_cons; [done|auto].
    + intros max cur [?|?]%elem_of_cons; [done|eauto].
  - by eapply release_inv.
  - by apply register_root_inv.
  - destruct (set_message_spec entries reg thread_id message H) as [->|(k & m & Hk & Hid & ->)]; [done|].
    by eapply replace_inv.
Qed.

Definition initial : System := mkSystem empty_registry [].

Lemma initial_inv allowed : inv allowed initial.
Proof.
  constructor; cbn; try done; try set_solver.
  - split; [done|]. intros M _. change (slots initial) with 0. lia.
  - apply NoDup_nil_2.
Qed.

Lemma registry_reachable_inv allowed s : rtc (step allowed) initial s -> inv allowed s.
Proof.
  intros Hr. assert (forall a b, rtc (step allowed) a b -> inv allowed a -> inv allowed b) as H; [|by eapply H, initial_inv].
  induction 1; [done|]. intros. eauto using registry_step_inv.
Qed.

(** The living agents are those that hold slots. *)
Lemma live_agents_length (entries : Entries) reg : walks entries -> length (live_agents entries reg) = living (tree reg).
Proof.
  intros Hw. unfold live_agents. change (fun m => bool_decide (is_Some (agent_id m)) && negb (path_is_root m)) with holds_slot.
  assert (Hp : forall l l' : list (str * AgentMetadata), l ≡ₚ l' -> length (List.filter holds_slot l.*2) = length (List.filter holds_slot l'.*2)).
  { induction 1 as [|[k m] l l' _ IH|[k m] [k' m'] l|]; cbn; [done| | |lia]; repeat destruct (holds_slot _); cbn; congruence. }
  rewrite (Hp _ _ (Hw (tree reg))). induction (tree reg) as [|k m t Hk IH] using map_ind.
  - by rewrite map_to_list_empty.
  - rewrite (Hp _ _ (map_to_list_insert t k m Hk)), living_insert, <- IH by done. cbn. destruct (holds_slot m); cbn; lia.
Qed.

(** The registrations that left a slot taken. *)
Definition stranded (ts : list Task) : nat := length (filter (fun t => t = Stranded) ts).

(** C18: However the spawning, releasing and registering of agents interleave, down to the single accesses to the
    counter and to the locked tree: while every request comes with a limit of at most [M], the counter is the number of
    living agents, of slots held or being given back, and of slots stranded because a thread without a path was registered
    again while it was in the tree; it is at most [M]; a path is reserved by one attempt at a time, and a reserved path is
    not that of a living agent; and once nothing is under way the counter is the number of living agents and of stranded
    slots, so exactly that of the living agents when no thread was registered again, and no path is left reserved. *)
Theorem agent_slots_accounted allowed (M : N) (entries : Entries) s :
  limited allowed M -> walks entries -> rtc (step allowed) initial s ->
  total_count (registry s) = N.of_nat (slots s) /\
  (total_count (registry s) <= M)%N /\
  (N.of_nat (length (live_agents entries (registry s))) <= total_count (registry s))%N /\
  NoDup (omap held_path (tasks s)) /\
  (forall p, p ∈ omap held_path (tasks s) -> p <> ROOT /\ agent_id_for_path (registry s) p = None) /\
  (Forall (fun t => t = Finished \/ t = Stranded) (tasks s) ->
     total_count (registry s) =
       (N.of_nat (length (live_agents entries (registry s))) + N.of_nat (stranded (tasks s)))%N /\
     map_Forall (fun _ m => is_Some (agent_id m)) (tree (registry s))).
Proof.
  intros HM Hw Hr. pose proof (registry_reachable_inv _ _ Hr) as [[H1 Hb] _ _ H4 H5 H6 _].
  specialize (Hb M HM). destruct HM as [HM _]. unfold usize_max, u64_max in HM. rewrite N.mod_small in H1 by lia.
  rewrite (live_agents_length _ _ Hw). split_and!; [done|lia|unfold slots in *; lia|done| |].
  - intros p Hp. split; [set_solver|]. apply H6 in Hp as (m & Hm & Hid). unfold agent_id_for_path. by rewrite Hm.
  - intros Hf. assert (sum_list_with task_slots (tasks s) = stranded (tasks s) /\ omap held_path (tasks s) = []) as [Hs Ho].
    { clear -Hf. unfold stranded. induction Hf as [|t ts [-> | ->] _ [IH1 IH2]]; [done|..]; cbn; [done|].
      by rewrite IH1, IH2. }
    split; [unfold slots in *; lia|]. intros k m Hk. destruct (agent_id m) eqn:E; [done|].
    rewrite Ho in H6. exfalso. apply (not_elem_of_nil k), H6. by exists m.
Qed.

(** The limit of six that is used by default, and an agent that is spawned under it. *)
Definition demo_limits : option N -> Prop := fun o => o = Some 6%N.
Definition demo_agent : AgentMetadata := mkMetadata (Some (lit "id-1")) (Some (lit "/root/worker")) (Some (lit "Euclid")) None None.
Definition demo_done : System :=
  mkSystem (commit (reserve_agent_path (mkRegistry (active_agents empty_registry) 1) (lit "/root/worker")).2
              (mkReservation true None (Some (lit "/root/worker"))) demo_agent) [Finished].

Lemma demo_reachable : rtc (step demo_limits) initial demo_done.
Proof.
  eapply rtc_l; [by apply (step_limited demo_limits empty_registry [] 6)|].
  eapply rtc_l; [by eapply (step_task demo_limits _ [] _ []), (round_reserved _ _ _ false)|].
  eapply rtc_l; [by eapply (step_task demo_limits _ [] _ []), (hold_path _ _ (lit "/root/worker"))|].
  eapply rtc_l; [|apply rtc_refl].
  by apply (step_task demo_limits _ [] _ []), (hold_commit _ _ demo_agent (lit "id-1")).
Qed.

Lemma agent_slots_accounted_witness :
  (total_count (registry demo_done) <= 6)%N /\
  total_count (registry demo_done) = N.of_nat (length (live_agents map_to_list (registry demo_done))).
Proof.
  assert (HM : limited demo_limits 6) by (split; [done|]; intros o ->; by eexists).
  destruct (agent_slots_accounted demo_limits 6 map_to_list demo_done HM (fun t => Permutation_refl _) demo_reachable)
    as (_ & Hb & _ & _ & _ & Hf).
  split; [done|]. destruct Hf as [Hf _]; [constructor; [by left|constructor]|]. rewrite Hf. reflexivity.
Defined.

(** A thread without a path that is registered again while its entry is still in the tree holds two slots, of which
    its release gives back one. *)
Example registered_twice_keeps_a_slot :
  let m := mkMetadata (Some (lit "id-1")) None None None None in
  let once := commit (fetch_add empty_registry) fresh_reservation m in
  let twice := commit (fetch_add once) fresh_reservation m in
  let released := release_spawned_thread map_to_list twice (lit "id-1") in
  total_count released = 1%N /\ live_agents map_to_list released = [].
Proof. by vm_compute. Qed.

(** ** Nicknames are not given twice *)

(** A number followed by something else can be read back. *)
Lemma digits_split (a a' b b' : str) :
  Forall (fun c => is_ascii_digit c = true) a -> Forall (fun c => is_ascii_digit c = true) a' ->
  match b with c :: _ => is_ascii_digit c = false | [] => False end ->
  match b' with c :: _ => is_ascii_digit c = false | [] => False end ->
  a ++ b = a' ++ b' -> a = a'.
Proof.
  intros Ha Ha' Hb Hb'. revert a' Ha'. induction Ha as [|c a Hc Ha IH]; intros a' Ha' Heq.
  - destruct Ha' as [|c' a' Hc' _]; [done|]. cbn in Heq. subst b. congruence.
  - destruct Ha' as [|c' a' Hc' Ha']; cbn in Heq; [subst b'; congruence|]. injection Heq as -> Heq. f_equal. by apply IH.
Qed.

(** The ordinal that a round of the nicknames carries. *)
Definition ordinal_suffix (value : N) : str :=
  if (11 <=? value mod 100)%N && (value mod 100 <=? 13)%N then lit "th"
  else match (value mod 10)%N with 1%N => lit "st" | 2%N => lit "nd" | 3%N => lit "rd" | _ => lit "th" end.
Definition ordinal (count : N) : str := show_N (count + 1) ++ ordinal_suffix (count + 1).

Lemma ordinal_suffix_letters value : match ordinal_suffix value with c :: _ => is_ascii_digit c = false | [] => False end.
Proof.
  unfold ordinal_suffix. destruct (_ && _); [done|]. destruct (value mod 10)%N as [|[[p|p|]|[p|p|]|]]; done.
Qed.

Lemma format_later name count : count <> 0%N -> format_agent_nickname name count = name ++ SP :: lit "the " ++ ordinal count.
Proof. intros H. unfold format_agent_nickname, ordinal. apply N.eqb_neq in H as ->. done. Qed.

Lemma ordinal_inj c c' : ordinal c = ordinal c' -> c = c'.
Proof.
  unfold ordinal. intros H.
  assert (show_N (c + 1) = show_N (c' + 1)) as Hs.
  { eapply digits_split; [..|exact H]; first [apply show_N_digits|apply ordinal_suffix_letters]. }
  apply lit_inj, (inj pretty) in Hs. lia.
Qed.

(** Names without spaces in different rounds differ. *)
Lemma format_round n n' c c' : SP ∉ n -> SP ∉ n' -> format_agent_nickname n c = format_agent_nickname n' c' -> c = c'.
Proof.
  intros Hn Hn'. destruct (decide (c = 0%N)) as [->|Hc], (decide (c' = 0%N)) as [->|Hc']; [done|..].
  - rewrite (format_later n' c') by done. unfold format_agent_nickname. cbn. intros ->. destruct Hn. apply elem_of_app. right. left.
  - rewrite (format_later n c) by done. unfold format_agent_nickname. cbn. intros <-. destruct Hn'. apply elem_of_app. right. left.
  - rewrite !format_later by done. intros H. apply (f_equal (split_once SP)) in H. rewrite !split_once_free in H by done.
    injection H as _ H. by apply ordinal_inj.
Qed.

(** Nicknames asked for without a preference, with the draws, and the ones given. *)
Fixpoint nickname_run (draws : list nat) (names : list str) (self : AgentRegistry) : list (option str) * AgentRegistry :=
  match draws with
  | [] => ([], self)
  | draw :: draws =>
      let '(n, self) := registry_reserve_nickname draw self names None in
      let '(ns, self) := nickname_run draws names self in
      (n :: ns, self)
  end.

(** The nicknames given so far: those of the present round are in use, the others are of earlier rounds. *)
Definition given_ok (names given : list str) (a : ActiveAgents) : Prop :=
  Forall (fun g => exists n c, n ∈ names /\ g = format_agent_nickname n c /\ (c <= nickname_reset_count a)%N /\
                             (c = nickname_reset_count a -> g ∈ used_agent_nicknames a)) given.

Lemma choose_Some {A} draw (l : list A) : l <> [] -> exists x, choose draw l = Some x /\ x ∈ l.
Proof.
  intros Hl. unfold choose. destruct (lookup_lt_is_Some_2 l (draw mod length l)) as [x Hx].
  - apply Nat.mod_upper_bound. by destruct l.
  - exists x. split; [done|]. by eapply list_elem_of_lookup_2.
Qed.

Lemma choose_nil {A} draw : choose draw ([] : list A) = None.
Proof. done. Qed.

(** One nickname: given, new, and recorded. *)
Lemma reserve_nickname_new draw names given reg n reg' :
  names <> [] -> Forall (fun n => SP ∉ n) names -> given_ok names given (active_agents reg) ->
  registry_reserve_nickname draw reg names None = (n, reg') ->
  exists g, n = Some g /\ g ∉ given /\ given_ok names (g :: given) (active_agents reg').
Proof.
  intros Hne Hsp Hg. unfold registry_reserve_nickname. rewrite bool_decide_false by done.
  set (a := active_agents reg) in *. set (avail := List.filter _ _).
  assert (Hold : forall g n c, SP ∉ n -> g = format_agent_nickname n c -> (nickname_reset_count a < c)%N -> g ∉ given).
  { intros g n0 c Hn0 -> Hc (n1 & c1 & Hn1 & Heq & Hle & _)%(proj1 (Forall_forall _ _) Hg).
    apply format_round in Heq; [lia|done|]. rewrite Forall_forall in Hsp. auto. }
  destruct avail as [|x l] eqn:Ha.
  - rewrite choose_nil. destruct (choose_Some draw names Hne) as (n0 & -> & Hn0). intros [= <- <-].
    rewrite Forall_forall in Hsp. eexists. split; [reflexivity|]. split; [eapply Hold; [by apply Hsp|done|lia]|]. cbn.
    constructor; [exists n0, (nickname_reset_count a + 1)%N; cbn; split_and!; [done|done|lia|set_solver]|].
    eapply Forall_impl; [exact Hg|]. intros g (n1 & c1 & ? & ? & ? & _). exists n1, c1. cbn. split_and!; [done|done|lia|lia].
  - destruct (choose_Some draw (x :: l)) as (g & -> & Hin); [done|]. intros [= <- <-]. rewrite <- Ha in Hin. subst avail.
    apply list_elem_of_In, filter_In in Hin as [(n0 & <- & Hn0)%in_map_iff Hu]. apply negb_true_iff, bool_decide_eq_false in Hu.
    apply list_elem_of_In in Hn0. rewrite Forall_forall in Hsp. eexists. split; [reflexivity|]. split.
    + intros (n1 & c1 & Hn1 & Heq & Hle & Hc)%(proj1 (Forall_forall _ _) Hg). destruct Hu.
      apply Hc. symmetry. apply format_round in Heq; auto.
    + constructor; [exists n0, (nickname_reset_count a); cbn; split_and!; [done|done|lia|set_solver]|].
      eapply Forall_impl; [exact Hg|]. intros g (n1 & c1 & ? & ? & ? & Hu'). exists n1, c1. cbn. split_and!; [done|done|done|].
      intros Hc. apply elem_of_union. right. auto.
Qed.

(** The nicknames drawn from candidates without spaces are all given and all different, however many are asked for:
    when the candidates run out they are given again with an ordinal. *)
Theorem nicknames_distinct draws names : names <> [] -> Forall (fun n => SP ∉ n) names ->
  exists given, (nickname_run draws names empty_registry).1 = Some <$> given /\ NoDup given /\ length given = length draws.
Proof.
  intros Hne Hsp.
  assert (H : forall reg given, given_ok names given (active_agents reg) ->
    exists more, (nickname_run draws names reg).1 = Some <$> more /\ NoDup more /\ length more = length draws /\ Forall (fun g => g ∉ given) more).
  { induction draws as [|draw draws IH]; intros reg given Hg; cbn [nickname_run]; [exists []; split_and!; try done; constructor|].
    destruct (registry_reserve_nickname draw reg names None) as [n reg'] eqn:E.
    destruct (reserve_nickname_new _ _ _ _ _ _ Hne Hsp Hg E) as (g & -> & Hnew & Hg').
    destruct (IH reg' (g :: given) Hg') as (more & Hm & Hnd & Hl & Hf).
    destruct (nickname_run draws names reg') as [ns reg'']. cbn in Hm. subst ns. exists (g :: more).
    split; [reflexivity|]. split; [|split; [cbn; by rewrite Hl|]].
    - constructor; [|done]. intros Hin. rewrite Forall_forall in Hf. apply (Hf _ Hin). left.
    - constructor; [done|]. eapply Forall_impl; [exact Hf|]. set_solver. }
  destruct (H empty_registry []) as (given & ? & ? & ? & _); [constructor|]. by exists given.
Qed.

End AgentRegistry.
