(* ===== verification/AgentControl.v ===== *)
(** * Agents that control agents: core/src/agent/control.rs, control/legacy.rs

    What the sessions of one tree of agents do to each other: an agent is found by its path, is listed, and is closed
    with all agents below it.  The threads that are loaded are a map from their identifiers to where they come from;
    what a session answers to an operation and the walks of hash maps are arguments. *)

From S2P Require Import Prelude Text AbsolutePath AgentPath AgentRegistry.
From Stdlib Require Import ZifyBool ZifyN ZifyNat.

Module AgentControl.
Import AbsolutePath AgentPath AgentRegistry.

(** ** Threads that are loaded *)

Definition Threads : Type := gmap str SessionSource.

(** [codex-rs/protocol/src/protocol.rs:2766-2768 SessionSource::is_internal] *)
Definition is_internal (self : SessionSource) : bool := match self with Internal => true | _ => false end.

(** [codex-rs/core/src/thread_manager.rs:1090-1096 ThreadManagerState::get_thread] *)
Definition get_thread (threads : Threads) (thread_id : ThreadId) : result CodexErr SessionSource :=
  match threads !! thread_id with
  | Some source => if is_internal source then Err (ThreadNotFound thread_id) else Ok source
  | None => Err (ThreadNotFound thread_id)
  end.

(** The edge of a thread that another one spawned. *)
Definition spawn_edge (thread : ThreadId * SessionSource) : option (ThreadId * ThreadId) :=
  if is_internal thread.2 then None
  else match thread.2 with
       | SubAgent (ThreadSpawn parent_thread_id _ _ _ _) => Some (parent_thread_id, thread.1)
       | _ => None
       end.
(** [codex-rs/core/src/thread_manager.rs:1069-1087 ThreadManagerState::list_live_thread_spawn_edges] *)
Definition list_live_thread_spawn_edges (walk : Threads -> list (str * SessionSource)) (threads : Threads) : list (ThreadId * ThreadId) :=
  omap spawn_edge (walk threads).

(** ** The tree of spawned threads *)

(** The order of the children of a thread: by path, then by identifier. *)
Definition path_text (m : AgentMetadata) : str := default [] (agent_path m).
Definition child_leb (left right : ThreadId * AgentMetadata) : bool :=
  if bool_decide (path_text left.2 = path_text right.2) then str_leb left.1 right.1
  else str_leb (path_text left.2) (path_text right.2).

(** The entry of a thread in the registry, or one with its identifier alone. *)
Definition child_metadata (entries : Entries) (reg : AgentRegistry) (child : ThreadId) : AgentMetadata :=
  default (mkMetadata (Some child) None None None None) (agent_metadata_for_thread entries reg child).

(** The children by parent, in the order of the edges. *)
Definition add_child (entries : Entries) (reg : AgentRegistry) (children : gmap str (list (ThreadId * AgentMetadata)))
    (edge : ThreadId * ThreadId) : gmap str (list (ThreadId * AgentMetadata)) :=
  <[edge.1 := default [] (children !! edge.1) ++ [(edge.2, child_metadata entries reg edge.2)]]> children.
Definition group_children (entries : Entries) (reg : AgentRegistry) (edges : list (ThreadId * ThreadId))
    : gmap str (list (ThreadId * AgentMetadata)) := foldl (add_child entries reg) ∅ edges.

(** [codex-rs/core/src/agent/control.rs:592-625 AgentControl::live_thread_spawn_children] *)
Definition live_thread_spawn_children (entries : Entries) (reg : AgentRegistry) (edges : list (ThreadId * ThreadId))
    : gmap str (list (ThreadId * AgentMetadata)) :=
  sort_by child_leb <$> group_children entries reg edges.

(** [codex-rs/core/src/agent/control.rs:582-590 AgentControl::open_thread_spawn_children] *)
Definition open_thread_spawn_children (entries : Entries) (reg : AgentRegistry) (edges : list (ThreadId * ThreadId))
    (parent_thread_id : ThreadId) : list (ThreadId * AgentMetadata) :=
  default [] (live_thread_spawn_children entries reg edges !! parent_thread_id).

(** [codex-rs/core/src/agent/control.rs:652-676 AgentControl::live_thread_spawn_descendants] the loop: the stack with its
    top first; [None] when the fuel runs out. *)
Fixpoint descendants_loop (fuel : nat) (children_by_parent : gmap str (list (ThreadId * AgentMetadata)))
    (stack descendants : list ThreadId) : option (list ThreadId) :=
  match stack with
  | [] => Some descendants
  | thread_id :: stack =>
      match fuel with
      | O => None
      | S fuel =>
          let descendants := descendants ++ [thread_id] in
          match children_by_parent !! thread_id with
          | Some children => descendants_loop fuel (delete thread_id children_by_parent) (children.*1 ++ stack) descendants
          | None => descendants_loop fuel children_by_parent stack descendants
          end
      end
  end.

(** [codex-rs/core/src/agent/control.rs:652-676 AgentControl::live_thread_spawn_descendants] *)
Definition live_thread_spawn_descendants (entries : Entries) (reg : AgentRegistry) (edges : list (ThreadId * ThreadId))
    (root_thread_id : ThreadId) : option (list ThreadId) :=
  let children_by_parent := live_thread_spawn_children entries reg edges in
  descendants_loop (length edges) (delete root_thread_id children_by_parent)
    (default [] (children_by_parent !! root_thread_id)).*1 [].

(** [codex-rs/core/src/agent/control.rs:232-239 AgentControl::list_live_agent_subtree_thread_ids] *)
Definition list_live_agent_subtree_thread_ids (entries : Entries) (reg : AgentRegistry) (edges : list (ThreadId * ThreadId))
    (agent_id : ThreadId) : option (list ThreadId) :=
  cons agent_id <$> live_thread_spawn_descendants entries reg edges agent_id.

(** ** What the traversal visits *)

Section traversal.
Context (edges : list (ThreadId * ThreadId)).

Definition child_of (parent child : ThreadId) : Prop := (parent, child) ∈ edges.

(** The children not yet put on the stack. *)
Definition remaining (m : gmap str (list (ThreadId * AgentMetadata))) : list ThreadId := (mjoin (map_to_list m).*2).*1.

Lemma remaining_delete m k l : m !! k = Some l -> remaining m ≡ₚ l.*1 ++ remaining (delete k m).
Proof.
  intros Hk. unfold remaining. rewrite <- (map_to_list_delete m k l Hk). cbn. by rewrite fmap_app.
Qed.

Lemma remaining_insert m k l : m !! k = None -> remaining (<[k := l]> m) ≡ₚ l.*1 ++ remaining m.
Proof. intros Hk. unfold remaining. rewrite map_to_list_insert by done. cbn. by rewrite fmap_app. Qed.

Lemma remaining_sort m : remaining (sort_by child_leb <$> m) ≡ₚ remaining m.
Proof.
  induction m as [|k l m Hk IH] using map_ind; [by rewrite fmap_empty|].
  rewrite fmap_insert, !remaining_insert by (done || by rewrite lookup_fmap, Hk).
  rewrite IH, (sort_by_perm child_leb l). done.
Qed.

Section children.
Context (entries : Entries) (reg : AgentRegistry).

Lemma add_edges_remaining m es : remaining (foldl (add_child entries reg) m es) ≡ₚ remaining m ++ es.*2.
Proof.
  revert m; induction es as [|[p c] es IH]; intros m; cbn [foldl]; [by rewrite app_nil_r|].
  rewrite IH. unfold add_child. cbn. rewrite (Permutation_app_comm (remaining m)).
  destruct (m !! p) as [l|] eqn:Hp; cbn.
  - rewrite (remaining_delete m p l Hp), <- insert_delete_eq, remaining_insert by apply lookup_delete_eq.
    rewrite fmap_app. cbn. solve_Permutation.
  - rewrite remaining_insert by done. cbn. solve_Permutation.
Qed.

Lemma add_edges_lookup m es p : (default [] (foldl (add_child entries reg) m es !! p)).*1 = (default [] (m !! p)).*1 ++ (List.filter (fun e => bool_decide (e.1 = p)) es).*2.
Proof.
  revert m; induction es as [|[q c] es IH]; intros m; cbn [foldl]; [by rewrite app_nil_r|].
  rewrite IH. unfold add_child. cbn. destruct (decide (q = p)) as [->|Hq].
  - rewrite lookup_insert_eq, bool_decide_true by done. cbn. rewrite fmap_app, <- app_assoc. done.
  - rewrite lookup_insert_ne, bool_decide_false by done. done.
Qed.

Lemma children_remaining : remaining (live_thread_spawn_children entries reg edges) ≡ₚ edges.*2.
Proof.
  unfold live_thread_spawn_children. rewrite remaining_sort.
  unfold group_children. rewrite add_edges_remaining. unfold remaining. by rewrite map_to_list_empty.
Qed.

Lemma children_lookup p c : c ∈ (default [] (live_thread_spawn_children entries reg edges !! p)).*1 <-> child_of p c.
Proof.
  unfold live_thread_spawn_children. rewrite lookup_fmap.
  transitivity (c ∈ (default [] (group_children entries reg edges !! p)).*1).
  { destruct (group_children entries reg edges !! p) as [l|]; cbn; [|done]. by rewrite (sort_by_perm child_leb l). }
  unfold group_children. rewrite add_edges_lookup, lookup_empty, app_nil_l. unfold child_of. rewrite list_elem_of_fmap. split.
  - intros ([q d] & -> & [Hin Hq]%list_elem_of_In%filter_In). apply bool_decide_eq_true in Hq. cbn in *. subst q. by apply list_elem_of_In.
  - intros Hin. exists (p, c). split; [done|]. apply list_elem_of_In, filter_In. split; [by apply list_elem_of_In|by apply bool_decide_eq_true].
Qed.
End children.

(** The state of the loop: what was visited and what is stacked is reachable and, with what is left, every child once;
    the children of what was visited are visited or stacked. *)
Record visiting (root : ThreadId) (m : gmap str (list (ThreadId * AgentMetadata))) (stack out : list ThreadId) : Prop := {
  v_perm : out ++ stack ++ remaining m ≡ₚ edges.*2;
  v_reach : forall t, t ∈ out \/ t ∈ stack -> tc child_of root t;
  v_closed : forall p c, p = root \/ p ∈ out -> child_of p c -> c ∈ out \/ c ∈ stack;
  v_left : forall p c, p <> root -> p ∉ out -> child_of p c -> c ∈ (default [] (m !! p)).*1;
  v_sound : forall p c, c ∈ (default [] (m !! p)).*1 -> child_of p c
}.

Lemma visiting_pop root m t stack out : visiting root m (t :: stack) out -> m !! t = None -> visiting root m stack (out ++ [t]).
Proof.
  intros [H1 H2 H3 H4 H5] Hm. constructor; [|set_solver| |set_solver|done].
  - rewrite <- H1. solve_Permutation.
  - intros p c Hp Hc. destruct (decide (p = root \/ p ∈ out)) as [Hd|Hd]; [specialize (H3 p c Hd Hc); set_solver|].
    assert (p = t) as -> by set_solver. specialize (H4 t c ltac:(tauto) ltac:(tauto) Hc). rewrite Hm in H4. set_solver.
Qed.

Lemma visiting_push root m t stack out children : visiting root m (t :: stack) out -> m !! t = Some children ->
  visiting root (delete t m) (children.*1 ++ stack) (out ++ [t]).
Proof.
  intros [H1 H2 H3 H4 H5] Hm. assert (Hch : forall c, c ∈ children.*1 -> child_of t c).
  { intros c Hc. apply H5. by rewrite Hm. }
  constructor.
  - rewrite <- H1, (remaining_delete _ _ _ Hm). solve_Permutation.
  - intros x [[Hx|Hx%list_elem_of_singleton]%elem_of_app|[Hx|Hx]%elem_of_app]; [by apply H2; left| |
      |by apply H2; right; right].
    + subst x. apply H2. right. left.
    + eapply tc_r; [apply H2; right; left|]. by apply Hch.
  - intros p c Hp Hc. destruct (decide (p = root \/ p ∈ out)) as [Hd|Hd]; [specialize (H3 p c Hd Hc); set_solver|].
    assert (p = t) as -> by set_solver. specialize (H4 t c ltac:(tauto) ltac:(tauto) Hc). rewrite Hm in H4. set_solver.
  - intros p c Hr Hp Hc. rewrite lookup_delete_ne by set_solver. apply H4; [done|set_solver|done].
  - intros p c Hc. destruct (decide (p = t)) as [->|Hpt]; [rewrite lookup_delete_eq in Hc; cbn in Hc; set_solver|].
    rewrite lookup_delete_ne in Hc by done. by apply H5.
Qed.

Lemma closed_reachable root (out : list ThreadId) x :
  (forall p c, p = root \/ p ∈ out -> child_of p c -> c ∈ out) -> tc child_of root x -> x ∈ out.
Proof.
  intros Hc Hx. assert (Ha : forall a, tc child_of a x -> a = root \/ a ∈ out -> x ∈ out); [|by eapply Ha; [|left]].
  clear Hx. induction 1 as [a c Hac|a b c Hab _ IH]; intros Ha; [by eapply Hc|]. apply IH. right. by eapply Hc.
Qed.

(** The loop ends within its fuel, with what is reachable. *)
Lemma descendants_loop_spec root fuel m stack out : visiting root m stack out -> length edges <= fuel + length out ->
  exists ds, descendants_loop fuel m stack out = Some ds /\ (forall t, t ∈ ds <-> tc child_of root t) /\
    exists rest, ds ++ rest ≡ₚ edges.*2.
Proof.
  revert m stack out. induction fuel as [|fuel IH]; intros m [|t stack] out Hv Hf.
  1, 3: exists out; split; [done|]; pose proof Hv as [H1 H2 H3 _ _]; split; [|by exists (remaining m)];
    intros x; split; [by intros; apply H2; left|]; apply closed_reachable;
    intros p c Hp Hc; destruct (H3 p c Hp Hc) as [|Hn]; [done|by apply elem_of_nil in Hn].
  - pose proof (Permutation_length (v_perm _ _ _ _ Hv)) as Hl. rewrite !length_app, length_fmap in Hl. cbn in Hl. lia.
  - cbn. destruct (m !! t) as [children|] eqn:Hm.
    + apply IH; [by apply visiting_push|]. rewrite length_app. cbn. lia.
    + apply IH; [by apply visiting_pop|]. rewrite length_app. cbn. lia.
Qed.

(** The threads below another one. *)
Lemma descendants_spec entries reg root :
  exists ds, live_thread_spawn_descendants entries reg edges root = Some ds /\ (forall t, t ∈ ds <-> tc child_of root t) /\
    exists rest, ds ++ rest ≡ₚ edges.*2.
Proof.
  unfold live_thread_spawn_descendants. apply descendants_loop_spec; [|lia].
  pose proof (children_remaining entries reg) as Hp. pose proof (children_lookup entries reg) as Hl. constructor.
  - rewrite <- Hp. destruct (live_thread_spawn_children entries reg edges !! root) as [l|] eqn:E.
    + symmetry. apply (remaining_delete _ _ _ E).
    + by rewrite delete_id.
  - intros t [Ht|Ht]; [set_solver|]. apply tc_once, Hl, Ht.
  - intros p c [->|Hp'] Hc; [|set_solver]. right. by apply Hl.
  - intros p c Hr _ Hc. rewrite lookup_delete_ne by done. by apply Hl.
  - intros p c Hc. destruct (decide (p = root)) as [->|Hr]; [rewrite lookup_delete_eq in Hc; cbn in Hc; set_solver|].
    rewrite lookup_delete_ne in Hc by done. by apply Hl.
Qed.

End traversal.

(** ** Closing agents *)

(** The registry, the threads that are loaded and the threads whose edge is recorded as closed. *)
Record Control := mkControl { control_registry : AgentRegistry; control_threads : Threads; closed_edges : gset str }.

(** What the sessions and the state database answer. *)
Record Answers := mkAnswers {
  flush_rollout : ThreadId -> result CodexErr unit;
  is_shutdown : ThreadId -> bool;
  send_op : ThreadId -> result CodexErr str;
  state_db : bool;
  set_thread_spawn_edge_closed : ThreadId -> result str unit
}.

Section closing.
Context (entries : Entries) (walk : Threads -> list (str * SessionSource)) (answers : Answers).

(** [codex-rs/core/src/agent/control/legacy.rs:6-24 AgentControl::shutdown_live_agent] *)
Definition shutdown_live_agent (self : Control) (agent_id : ThreadId) : result CodexErr str * Control :=
  let finish result :=
    (result, mkControl (release_spawned_thread entries (control_registry self) agent_id)
               (delete agent_id (control_threads self)) (closed_edges self)) in
  match get_thread (control_threads self) agent_id with
  | Ok _ =>
      match flush_rollout answers agent_id with
      | Err e => (Err e, self)
      | Ok _ => finish (if is_shutdown answers agent_id then Ok [] else send_op answers agent_id)
      end
  | Err _ => finish (send_op answers agent_id)
  end.

(** [codex-rs/core/src/agent/control/legacy.rs:75-80 AgentControl::shutdown_agent_tree] the loop over the descendants, which
    an unexpected error ends. *)
Fixpoint shutdown_descendants (self : Control) (ids : list ThreadId) : result CodexErr unit * Control :=
  match ids with
  | [] => (Ok tt, self)
  | descendant_id :: ids =>
      match shutdown_live_agent self descendant_id with
      | (Ok _, self) | (Err (ThreadNotFound _), self) | (Err InternalAgentDied, self) => shutdown_descendants self ids
      | (Err e, self) => (Err e, self)
      end
  end.

(** [codex-rs/core/src/agent/control/legacy.rs:72-82 AgentControl::shutdown_agent_tree] *)
Definition shutdown_agent_tree (self : Control) (agent_id : ThreadId) : option (result CodexErr str * Control) :=
  let edges := list_live_thread_spawn_edges walk (control_threads self) in
  descendant_ids ← live_thread_spawn_descendants entries (control_registry self) edges agent_id;
  let '(result, self) := shutdown_live_agent self agent_id in
  Some match shutdown_descendants self descendant_ids with
       | (Err e, self) => (Err e, self)
       | (Ok _, self) => (result, self)
       end.

Definition mark_closed (self : Control) (agent_id : ThreadId) : Control :=
  mkControl (control_registry self) (control_threads self) ({[agent_id]} ∪ closed_edges self).

(** [codex-rs/core/src/agent/control/legacy.rs:28-63 AgentControl::close_agent] the recording of the edge; a thread that
    cannot be found is the only error of looking one up. *)
Definition persist_edge_closed (self : Control) (known_agent : bool) (agent_id : ThreadId) : result CodexErr Control :=
  match get_thread (control_threads self) agent_id with
  | Ok _ =>
      if state_db answers
      then match set_thread_spawn_edge_closed answers agent_id with
           | Ok _ => Ok (mark_closed self agent_id)
           | Err _ => Ok self
           end
      else Ok self
  | Err _ =>
      if known_agent && state_db answers
      then match set_thread_spawn_edge_closed answers agent_id with
           | Ok _ => Ok (mark_closed self agent_id)
           | Err err => Err (Fatal (lit "failed to persist stale thread-spawn edge status for " ++ agent_id ++ lit ": " ++ err))
           end
      else Ok self
  end.

(** A thread that is gone is closed, when it was known. *)
Definition closed_result (known_agent : bool) (r : result CodexErr str) : result CodexErr str :=
  match r with
  | Err (ThreadNotFound _) | Err InternalAgentDied => if known_agent then Ok [] else r
  | _ => r
  end.

(** [codex-rs/core/src/agent/control/legacy.rs:28-69 AgentControl::close_agent] *)
Definition close_agent (self : Control) (agent_id : ThreadId) : option (result CodexErr str * Control) :=
  let known_agent := bool_decide (is_Some (agent_metadata_for_thread entries (control_registry self) agent_id)) in
  match persist_edge_closed self known_agent agent_id with
  | Err e => Some (Err e, self)
  | Ok self =>
      '(result, self) ← shutdown_agent_tree self agent_id;
      Some (closed_result known_agent result, self)
  end.

(** The registry knows each thread once. *)
Definition unique_ids (t : gmap str AgentMetadata) : Prop :=
  forall k k' m m' thread_id, t !! k = Some m -> t !! k' = Some m' ->
    agent_id m = Some thread_id -> agent_id m' = Some thread_id -> k = k'.

(** The entries of other threads. *)
Definition without (ids : list ThreadId) (t : gmap str AgentMetadata) : gmap str AgentMetadata :=
  filter (fun km => existsb (fun i => is_agent i km.2) ids = false) t.

(** The counter counts the living agents and [n] more slots. *)
Definition accounts (n : nat) (reg : AgentRegistry) : Prop :=
  total_count reg = (N.of_nat (living (tree reg) + n) mod 2 ^ 64)%N.

Lemma without_lookup ids t k m : without ids t !! k = Some m <->
  t !! k = Some m /\ forall i, agent_id m = Some i -> i ∉ ids.
Proof.
  unfold without. rewrite map_lookup_filter_Some. cbn. apply and_iff_compat_l. rewrite <- not_true_iff_false, existsb_exists.
  unfold is_agent. setoid_rewrite <- list_elem_of_In. setoid_rewrite bool_decide_eq_true. naive_solver.
Qed.

Lemma without_unique ids t : unique_ids t -> unique_ids (without ids t).
Proof. intros H k k' m m' i [Hk _]%without_lookup [Hk' _]%without_lookup. by apply (H k k' m m'). Qed.

Lemma without_app a b t : without b (without a t) = without (a ++ b) t.
Proof.
  apply map_eq. intros k. apply option_eq. intros m. rewrite !without_lookup. set_solver.
Qed.

Lemma release_tree reg thread_id : walks entries -> unique_ids (tree reg) ->
  tree (release_spawned_thread entries reg thread_id) = without [thread_id] (tree reg).
Proof.
  intros Hw Hu. unfold release_spawned_thread. destruct (remove_spawned entries reg thread_id) as [counted reg'] eqn:E.
  assert (Ht : tree reg' = without [thread_id] (tree reg)); [|by destruct counted].
  apply remove_spawned_spec in E as [_ [(-> & _ & Hno)|(k & m & Hk & Hi & _ & ->)]]; [..|done];
    apply map_eq; intros k'; apply option_eq; intros m'; rewrite without_lookup.
  - split; [|tauto]. intros Hk. split; [done|]. intros i Hi ->%list_elem_of_singleton. by apply (Hno k' m').
  - rewrite lookup_delete_Some. split.
    + intros [Hne Hk']. split; [done|]. intros i Hi' ->%list_elem_of_singleton. by destruct Hne, (Hu k k' m m' thread_id).
    + intros [Hk' Hn]. split; [|done]. intros ->. apply (Hn thread_id); [congruence|set_solver].
Qed.

Lemma release_accounts n reg thread_id : walks entries -> accounts n reg -> accounts n (release_spawned_thread entries reg thread_id).
Proof.
  intros Hw Ha. unfold release_spawned_thread. destruct (remove_spawned entries reg thread_id) as [counted reg'] eqn:E.
  apply remove_spawned_spec in E as [Hc [(-> & -> & _)|(k & m & Hk & Hid & -> & Ht)]]; [done| |done].
  unfold accounts in *. rewrite (living_delete _ _ _ Hk), <- Ht, <- Hc in Ha. destruct (holds_slot m); [|by rewrite Nat.add_0_r in Ha].
  apply (counts_sub (fun _ => True)). change (tree (fetch_sub reg')) with (tree reg'). split; [rewrite Ha; f_equal; lia|].
  intros M [_ HM]. by destruct (HM None I) as (? & ? & _).
Qed.

(** The errors that closing a tree takes for the end of a thread. *)
Definition expected (r : result CodexErr str) : Prop :=
  match r with Ok _ | Err (ThreadNotFound _) | Err InternalAgentDied => True | Err _ => False end.

(** What closing the threads [ids] does. *)
Record closes (n : nat) (ids : list ThreadId) (before after : Control) : Prop := {
  closes_tree : tree (control_registry after) = without ids (tree (control_registry before));
  closes_count : accounts n (control_registry before) -> accounts n (control_registry after);
  closes_threads : forall i, control_threads after !! i = if decide (i ∈ ids) then None else control_threads before !! i;
  closes_edges : closed_edges after = closed_edges before
}.

Lemma shutdown_closes n self i : walks entries -> unique_ids (tree (control_registry self)) -> is_ok (flush_rollout answers i) = true ->
  exists r self', shutdown_live_agent self i = (r, self') /\ closes n [i] self self' /\
    (r = Ok [] \/ r = send_op answers i).
Proof.
  intros Hw Hu Hf. unfold shutdown_live_agent.
  assert (Hc : closes n [i] self (mkControl (release_spawned_thread entries (control_registry self) i)
                 (delete i (control_threads self)) (closed_edges self))).
  { constructor; cbn; [by apply release_tree|by apply release_accounts| |done]. intros j. case_decide as Hj.
    - apply list_elem_of_singleton in Hj as ->. apply lookup_delete_eq.
    - apply lookup_delete_ne. set_solver. }
  destruct (get_thread (control_threads self) i); [|eexists _, _; split_and!; [reflexivity|done|by right]].
  destruct (flush_rollout answers i); [|done]. eexists _, _. split_and!; [reflexivity|done|].
  destruct (is_shutdown answers i); auto.
Qed.

Lemma closes_unique n ids a b : closes n ids a b -> unique_ids (tree (control_registry a)) -> unique_ids (tree (control_registry b)).
Proof. intros [-> _ _ _]. apply without_unique. Qed.

Lemma closes_app n ids ids' a b c : closes n ids a b -> closes n ids' b c -> closes n (ids ++ ids') a c.
Proof.
  intros [H1 H2 H3 H4] [H1' H2' H3' H4']. constructor.
  - by rewrite H1', H1, without_app.
  - auto.
  - intros i. rewrite H3', H3. repeat case_decide; set_solver.
  - by rewrite H4'.
Qed.

Lemma shutdown_descendants_closes n self ids : walks entries -> unique_ids (tree (control_registry self)) ->
  Forall (fun i => is_ok (flush_rollout answers i) = true /\ expected (send_op answers i)) ids ->
  exists self', shutdown_descendants self ids = (Ok tt, self') /\ closes n ids self self'.
Proof.
  intros Hw Hu Hq. revert self Hu. induction Hq as [|i ids [Hf He] _ IH]; intros self Hu; cbn.
  { exists self. split; [done|]. constructor; [|done|done|done]. apply map_eq. intros k. apply option_eq. intros m.
    rewrite without_lookup. set_solver. }
  destruct (shutdown_closes n self i Hw Hu Hf) as (r & self1 & -> & Hc & Hr).
  destruct (IH self1 (closes_unique _ _ _ _ Hc Hu)) as (self2 & H2 & Hc2). exists self2.
  split; [|by apply (closes_app n [i] ids self self1)].
  destruct Hr as [->| ->]; [done|]. destruct (send_op answers i) as [|[]]; done.
Qed.

(** A loaded thread has at most one parent. *)
Lemma edges_nodup threads : (forall t, walk t ≡ₚ map_to_list t) -> NoDup (list_live_thread_spawn_edges walk threads).*2.
Proof.
  intros Hwalk. assert (Hn : NoDup (walk threads).*1) by (rewrite (Hwalk threads); apply NoDup_fst_map_to_list).
  eapply sublist_NoDup; [exact Hn|]. unfold list_live_thread_spawn_edges. clear Hn.
  induction (walk threads) as [|[i source] l IH]; [constructor|]. cbn. unfold spawn_edge at 1. cbn.
  destruct source as [| | | | | |[]|]; cbn; by constructor.
Qed.

(** What is closed does not depend on the recorded edges. *)
Lemma tree_closes n self i : walks entries -> (forall t, walk t ≡ₚ map_to_list t) -> unique_ids (tree (control_registry self)) ->
  let edges := list_live_thread_spawn_edges walk (control_threads self) in
  (forall j, j = i \/ tc (child_of edges) i j -> is_ok (flush_rollout answers j) = true) ->
  (forall j, tc (child_of edges) i j -> expected (send_op answers j)) ->
  exists r below self', shutdown_agent_tree self i = Some (r, self') /\
    (forall j, j ∈ below <-> tc (child_of edges) i j) /\ NoDup below /\
    (r = Ok [] \/ r = send_op answers i) /\ closes n (i :: below) self self'.
Proof.
  intros Hw Hwalk Hu edges Hf He.
  destruct (descendants_spec edges entries (control_registry self) i) as (ds & Hds & Hreach & rest & Hperm).
  assert (Hnd : NoDup ds).
  { pose proof (edges_nodup (control_threads self) Hwalk) as Hn. fold edges in Hn. rewrite <- Hperm in Hn.
    by apply NoDup_app in Hn as [? _]. }
  unfold shutdown_agent_tree. fold edges. rewrite Hds. cbn [mbind option_bind].
  destruct (shutdown_closes n self i Hw Hu (Hf i (or_introl eq_refl))) as (r & self1 & -> & Hc & Hr).
  destruct (shutdown_descendants_closes n self1 ds Hw (closes_unique _ _ _ _ Hc Hu)) as (self2 & -> & Hc2).
  { apply Forall_forall. intros j Hj%Hreach. auto. }
  exists r, ds, self2. split_and!; [done|done|done|done|]. by apply (closes_app n [i] ds self self1).
Qed.

Lemma persist_edge_closed_ok self known i :
  (state_db answers = true -> is_ok (set_thread_spawn_edge_closed answers i) = true) ->
  exists self0, persist_edge_closed self known i = Ok self0 /\
    control_registry self0 = control_registry self /\ control_threads self0 = control_threads self /\
    (state_db answers = true -> is_ok (get_thread (control_threads self) i) = true \/ known = true -> i ∈ closed_edges self0).
Proof.
  intros Hdb. unfold persist_edge_closed.
  destruct (get_thread (control_threads self) i), (state_db answers); rewrite ?andb_true_r, ?andb_false_r;
    try (exists self; naive_solver); specialize (Hdb eq_refl);
    destruct (set_thread_spawn_edge_closed answers i); try done.
  - eexists. split; [reflexivity|]. split_and!; [done|done|]. intros _ _. cbn. set_solver.
  - destruct known; [|exists self; naive_solver]. eexists. split; [reflexivity|]. split_and!; [done|done|].
    intros _ _. cbn. set_solver.
Qed.

(** C20: Closing an agent when its rollout and those of the threads below it can be flushed, the shutdown of each
    thread below it is accepted or finds it gone or dead (for the agent itself any answer will do), closing its edge
    in the database, if there is one, succeeds, and no two entries of the registry have the same identifier: it and
    every loaded thread spawned below it, however deep, and no other, is taken out of the registry and unloaded, once
    each; the slots they held are given back; and its edge is recorded as closed when it is known or loaded and there
    is a database. *)
Theorem agent_tree_closed n self i :
  walks entries -> (forall t, walk t ≡ₚ map_to_list t) -> unique_ids (tree (control_registry self)) ->
  let edges := list_live_thread_spawn_edges walk (control_threads self) in
  (state_db answers = true -> is_ok (set_thread_spawn_edge_closed answers i) = true) ->
  (forall j, j = i \/ tc (child_of edges) i j -> is_ok (flush_rollout answers j) = true) ->
  (forall j, tc (child_of edges) i j -> expected (send_op answers j)) ->
  exists r below self', close_agent self i = Some (r, self') /\
    (forall j, j ∈ below <-> tc (child_of edges) i j) /\ NoDup below /\
    (r = Ok [] \/ r = send_op answers i) /\
    tree (control_registry self') = without (i :: below) (tree (control_registry self)) /\
    (accounts n (control_registry self) -> accounts n (control_registry self')) /\
    (forall j, control_threads self' !! j = if decide (j ∈ i :: below) then None else control_threads self !! j) /\
    (state_db answers = true ->
     is_ok (get_thread (control_threads self) i) = true \/ is_Some (agent_metadata_for_thread entries (control_registry self) i) ->
     i ∈ closed_edges self').
Proof.
  intros Hw Hwalk Hu edges Hdb Hf He. unfold close_agent.
  set (known := bool_decide (is_Some (agent_metadata_for_thread entries (control_registry self) i))).
  destruct (persist_edge_closed_ok self known i Hdb) as (self0 & -> & Hreg & Hth & Hcl).
  destruct (tree_closes n self0 i Hw Hwalk) as (r & below & self' & -> & Hb & Hnd & Hr & [H1 H2 H3 H4]);
    [by rewrite Hreg|by rewrite Hth|by rewrite Hth|].
  rewrite Hreg, Hth in *. cbn [mbind option_bind]. exists (closed_result known r), below, self'.
  split_and!; [done|done|done| |done|done|done|].
  - unfold closed_result. destruct Hr as [->|Hr]; [by left|]. destruct r as [|[]]; try (by right); destruct known; auto.
  - intros Hs Hk. rewrite H4. apply Hcl; [done|]. destruct Hk; [by left|right]. by apply bool_decide_eq_true.
Qed.

End closing.

(** ** Finding and listing agents *)

(** [codex-rs/protocol/src/protocol.rs:1666-1682 AgentStatus] *)
Inductive AgentStatus :=
| PendingInit | Running | Interrupted
| Completed (last_agent_message : option str)
| Errored (message : str)
| ShutdownStatus | NotFound.

(** [codex-rs/core/src/agent/status.rs:23-28 is_final] *)
Definition is_final (status : AgentStatus) : bool :=
  match status with PendingInit | Running | Interrupted => false | _ => true end.

(** [codex-rs/core/src/agent/control.rs:282-301 AgentControl::resolve_agent_reference] *)
Definition resolve_agent_reference (self : Control) (current_session_source : SessionSource) (agent_reference : str)
    : result CodexErr ThreadId :=
  let current_agent_path := default ROOT (get_agent_path current_session_source) in
  path ← map_err UnsupportedOperation (resolve current_agent_path agent_reference);
  match agent_id_for_path (control_registry self) path with
  | Some thread_id => Ok thread_id
  | None => Err (UnsupportedOperation (lit "live agent path `" ++ path ++ lit "` not found"))
  end.

(** [codex-rs/core/src/session_prefix.rs:17-25 format_subagent_context_line] *)
Definition format_subagent_context_line (agent_reference : str) (nickname : option str) : str :=
  match nickname with
  | Some nickname => if bool_decide (nickname = []) then lit "- " ++ agent_reference else lit "- " ++ agent_reference ++ lit ": " ++ nickname
  | None => lit "- " ++ agent_reference
  end.

(** [codex-rs/core/src/agent/control.rs:313-333 AgentControl::format_environment_context_subagents] *)
Definition format_environment_context_subagents (entries : Entries) (reg : AgentRegistry) (edges : list (ThreadId * ThreadId))
    (parent_thread_id : ThreadId) : str :=
  join [NL] (map (fun '(thread_id, m) =>
      format_subagent_context_line (default thread_id (name <$> agent_path m)) (agent_nickname m))
    (open_thread_spawn_children entries reg edges parent_thread_id)).

(** [codex-rs/core/src/agent/control.rs:75-79 ListedAgent] *)
Record ListedAgent := mkListed { listed_name : str; listed_status : AgentStatus; listed_last_task_message : option str }.

(** [codex-rs/core/src/agent/control.rs:48-48 ROOT_LAST_TASK_MESSAGE] *)
Definition ROOT_LAST_TASK_MESSAGE : str := lit "Main thread".

(** The order in which agents are listed. *)
Definition listed_leb (left right : AgentMetadata) : bool :=
  if bool_decide (path_text left = path_text right) then str_leb (default [] (agent_id left)) (default [] (agent_id right))
  else str_leb (path_text left) (path_text right).

Section listing.
Context (entries : Entries) (agent_status : ThreadId -> AgentStatus) (self : Control).

(** [codex-rs/core/src/agent/control.rs:381-405 AgentControl::list_agents] a living agent as it is listed, when it is below the prefix and loaded. *)
Definition listed_agent (prefix : option str) (m : AgentMetadata) : option ListedAgent :=
  match agent_id m with
  | None => None
  | Some thread_id =>
      if match prefix with Some prefix => negb (agent_matches_prefix (agent_path m) prefix) | None => false end then None
      else match get_thread (control_threads self) thread_id with
           | Err _ => None
           | Ok _ => Some (mkListed (default thread_id (agent_path m)) (agent_status thread_id) (last_task_message m))
           end
  end.

(** [codex-rs/core/src/agent/control.rs:367-379 AgentControl::list_agents] the root, when it is below the prefix, known
    and loaded. *)
Definition listed_root (prefix : option str) : list ListedAgent :=
  if match prefix with Some prefix => agent_matches_prefix (Some ROOT) prefix | None => true end
  then match agent_id_for_path (control_registry self) ROOT with
       | None => []
       | Some root_thread_id =>
           match get_thread (control_threads self) root_thread_id with
           | Ok _ => [mkListed ROOT (agent_status root_thread_id) (Some ROOT_LAST_TASK_MESSAGE)]
           | Err _ => []
           end
       end
  else [].

(** [codex-rs/core/src/agent/control.rs:335-408 AgentControl::list_agents] *)
Definition list_agents (current_session_source : SessionSource) (path_prefix : option str) : result CodexErr (list ListedAgent) :=
  prefix ← match path_prefix with
           | None => Ok None
           | Some prefix =>
               p ← map_err UnsupportedOperation (resolve (default ROOT (get_agent_path current_session_source)) prefix);
               Ok (Some p)
           end;
  Ok (listed_root prefix ++ omap (listed_agent prefix) (sort_by listed_leb (live_agents entries (control_registry self)))).

(** The agents listed are the root and the living agents below the prefix, when they are loaded. *)
Lemma list_agents_elem source path_prefix l : walks entries -> list_agents source path_prefix = Ok l ->
  exists prefix, (forall p, path_prefix = Some p -> exists q, resolve (default ROOT (get_agent_path source)) p = Ok q /\ prefix = Some q) /\
    (path_prefix = None -> prefix = None) /\
    forall a, a ∈ l <-> a ∈ listed_root prefix \/
      exists k m, tree (control_registry self) !! k = Some m /\ holds_slot m = true /\ listed_agent prefix m = Some a.
Proof.
  intros Hw. unfold list_agents. rewrite result_bind_ok. intros (prefix & Hp & [= <-]). exists prefix. split_and!.
  - intros p ->. apply result_bind_ok in Hp as (q & Hq%map_err_ok & [= <-]). eauto.
  - intros ->. by injection Hp.
  - intros a. rewrite elem_of_app, list_elem_of_omap. apply or_iff_compat_l. split.
    + intros (m & Hm & Ha). rewrite (sort_by_perm listed_leb) in Hm. apply list_elem_of_In, filter_In in Hm as [Hin Hs].
      apply list_elem_of_In, list_elem_of_fmap in Hin as ([k m'] & -> & Hin). rewrite (Hw (tree _)) in Hin.
      apply elem_of_map_to_list in Hin. by exists k, m'.
    + intros (k & m & Hk & Hs & Ha). exists m. split; [|done]. rewrite (sort_by_perm listed_leb).
      apply list_elem_of_In, filter_In. split; [|done]. apply list_elem_of_In, list_elem_of_fmap. exists (k, m). split; [done|].
      rewrite (Hw (tree _)). by apply elem_of_map_to_list.
Qed.
End listing.

(** A root with a child and a grandchild, of which the child is closed. *)
Definition demo_spawn (parent : str) (path : str) : SessionSource := SubAgent (ThreadSpawn parent 1 (Some path) None None).
Definition demo_meta (i path : str) : AgentMetadata := mkMetadata (Some i) (Some path) None None None.
Definition demo_control : Control :=
  mkControl (mkRegistry (mkActive (list_to_map [(lit "/root", demo_meta (lit "r") (lit "/root"));
                                                (lit "/root/a", demo_meta (lit "a") (lit "/root/a"));
                                                (lit "/root/a/b", demo_meta (lit "b") (lit "/root/a/b"))]) ∅ 0) 2)
    (list_to_map [(lit "r", Cli); (lit "a", demo_spawn (lit "r") (lit "/root/a")); (lit "b", demo_spawn (lit "a") (lit "/root/a/b"))]) ∅.
Definition demo_answers : Answers := mkAnswers (fun _ => Ok tt) (fun _ => false) (fun _ => Ok (lit "sub-1")) true (fun _ => Ok tt).

Lemma demo_unique : unique_ids (tree (control_registry demo_control)).
Proof.
  intros k k' m m' i Hk Hk'. apply elem_of_map_to_list in Hk, Hk'. vm_compute in Hk, Hk'.
  repeat (apply elem_of_cons in Hk as [[= -> ->]|Hk]); repeat (apply elem_of_cons in Hk' as [[= -> ->]|Hk']);
    try (by apply elem_of_nil in Hk); try (by apply elem_of_nil in Hk'); cbn; congruence.
Qed.

Lemma agent_tree_closed_witness :
  exists r self', close_agent map_to_list map_to_list demo_answers demo_control (lit "a") = Some (r, self') /\
    control_threads self' !! lit "a" = None /\ control_threads self' !! lit "b" = None /\ lit "a" ∈ closed_edges self'.
Proof.
  destruct (agent_tree_closed map_to_list map_to_list demo_answers 0 demo_control (lit "a"))
    as (r & below & self' & Hc & Hb & _ & _ & _ & _ & Ht & He).
  - intros t. reflexivity.
  - intros t. reflexivity.
  - exact demo_unique.
  - done.
  - done.
  - done.
  - exists r, self'. split_and!; [done| | |].
    + rewrite Ht. rewrite decide_True by left. done.
    + rewrite Ht. rewrite decide_True; [done|]. right. apply Hb, tc_once. unfold child_of.
      apply (bool_decide_unpack _). vm_compute. exact I.
    + apply He; [done|]. by left.
Defined.

End AgentControl.
