(* ===== verification/AgentSpawn.v ===== *)
(** * Spawning agents: core/src/agent/control.rs, control/spawn.rs, state/src/runtime/threads.rs

    An agent is spawned or resumed in a reserved slot, with its name and path, and is sent its first input; the edges
    between parents and children are recorded, and a session that is resumed reloads the agents recorded below it; and
    what of the history of its parent a forked agent starts from.  The creation of a thread, what a thread answers, the
    candidates for names and what the database fails at are arguments. *)

From S2P Require Import Prelude Text AbsolutePath ResponseItems ContextFragments History TurnItems Rollout AgentPath AgentRegistry AgentControl.
From Stdlib Require Import ZifyBool ZifyN ZifyNat.

Module AgentSpawn.
Import AbsolutePath ResponseItems AgentPath AgentRegistry AgentControl.

(** ** Spawning agents *)

(** [codex-rs/core/src/agent/control.rs:723-725 non_empty_task_message] *)
Definition non_empty_task_message (message : str) : option str := if bool_decide (message = []) then None else Some message.

(** [codex-rs/core/src/agent/control.rs:716-721 last_task_message_from_communication] *)
Definition last_task_message_from_communication (communication : Rollout.InterAgentCommunication) : option str :=
  match Rollout.encrypted_content communication with
  | Some _ => None
  | None => non_empty_task_message (Rollout.communication_content communication)
  end.

(** The operations that are sent to an agent, and the others. *)
Inductive Op :=
| UserInputOp (items : list TurnItems.UserInput)
| InterAgentCommunicationOp (communication : Rollout.InterAgentCommunication)
| OtherOp.

(** [codex-rs/core/src/agent/control.rs:693-714 render_input_preview] *)
Definition render_input_preview (initial_operation : Op) : str :=
  match initial_operation with
  | UserInputOp items =>
      join [NL] (map (fun item => match item with
        | TurnItems.TextInput text _ => text
        | TurnItems.ImageInput _ _ => lit "[image]"
        | TurnItems.LocalImageInput path _ => lit "[local_image:" ++ path ++ lit "]"
        | TurnItems.SkillInput name path => lit "[skill:$" ++ name ++ lit "](" ++ path ++ lit ")"
        | TurnItems.MentionInput name path => lit "[mention:$" ++ name ++ lit "](" ++ path ++ lit ")"
        end) items)
  | InterAgentCommunicationOp communication => Rollout.communication_content communication
  | OtherOp => []
  end.

Definition with_registry (reg : AgentRegistry) (self : Control) : Control :=
  mkControl reg (control_threads self) (closed_edges self).

Section spawning.
Context (entries : Entries).

(** [codex-rs/core/src/agent/control.rs:193-204 AgentControl::handle_thread_request_result] *)
Definition handle_thread_request_result (self : Control) (agent_id : ThreadId) (r : result CodexErr str) : Control :=
  match r with
  | Err InternalAgentDied =>
      mkControl (release_spawned_thread entries (control_registry self) agent_id)
        (delete agent_id (control_threads self)) (closed_edges self)
  | _ => self
  end.

(** What is remembered of a task that was accepted. *)
Definition remember_task (self : Control) (agent_id : ThreadId) (message : option str) : Control :=
  with_registry (match message with
                 | Some message => update_last_task_message entries (control_registry self) agent_id message
                 | None => clear_last_task_message entries (control_registry self) agent_id
                 end) self.

(** [codex-rs/core/src/agent/control.rs:118-146 AgentControl::send_input] with the answer of the thread. *)
Definition send_input (self : Control) (agent_id : ThreadId) (initial_operation : Op) (answer : result CodexErr str)
    : result CodexErr str * Control :=
  let last_task_message := match initial_operation with
                           | InterAgentCommunicationOp communication => last_task_message_from_communication communication
                           | _ => non_empty_task_message (render_input_preview initial_operation)
                           end in
  let self := handle_thread_request_result self agent_id answer in
  (answer, if is_ok answer then remember_task self agent_id last_task_message else self).

(** [codex-rs/core/src/agent/control.rs:148-176 AgentControl::send_inter_agent_communication] with the answer of the
    thread. *)
Definition send_inter_agent_communication (self : Control) (agent_id : ThreadId)
    (communication : Rollout.InterAgentCommunication) (answer : result CodexErr str) : result CodexErr str * Control :=
  let last_task_message := last_task_message_from_communication communication in
  let self := handle_thread_request_result self agent_id answer in
  (answer, if is_ok answer then remember_task self agent_id last_task_message else self).

(** [codex-rs/core/src/agent/control/spawn.rs:237-257 AgentControl::spawn_agent_internal] the name, path and source of a new
    agent, chosen while its slot is reserved. *)
Definition prepare_spawn (draw : nat) (candidates : option str -> list str) (reg : AgentRegistry)
    (reservation : SpawnReservation) (session_source : option SessionSource)
    : result CodexErr (option SessionSource * AgentMetadata) * SpawnReservation * AgentRegistry :=
  match session_source with
  | Some (SubAgent (ThreadSpawn parent_thread_id depth path _ role)) =>
      match prepare_thread_spawn draw (candidates role) reg reservation parent_thread_id depth path role None with
      | (Ok (source, m), reservation, reg) => (Ok (Some source, m), reservation, reg)
      | (Err e, reservation, reg) => (Err e, reservation, reg)
      end
  | other => (Ok (other, default_metadata), reservation, reg)
  end.

(** [codex-rs/core/src/agent/control/spawn.rs:210-370 AgentControl::spawn_agent_internal] the reservation, the creation of
    the thread, its registration and its first input, with what the creation and the input answer; an error before the
    registration drops the reservation.  [None] when the compare-and-swap loop goes on. *)
Definition spawn_agent_internal (spurious : list bool) (draw : nat) (candidates : option str -> list str)
    (max_threads : option N) (create : option SessionSource -> result CodexErr ThreadId) (answer : result CodexErr str)
    (self : Control) (initial_operation : Op) (session_source : option SessionSource)
    : option (result CodexErr (ThreadId * AgentMetadata) * Control) :=
  '(reserved, reg) ← reserve_spawn_slot spurious (control_registry self) max_threads;
  Some match reserved with
       | Err e => (Err e, with_registry reg self)
       | Ok reservation =>
           match prepare_spawn draw candidates reg reservation session_source with
           | (Err e, reservation, reg) => (Err e, with_registry (drop_reservation reg reservation) self)
           | (Ok (source, m), reservation, reg) =>
               match create source with
               | Err e => (Err e, with_registry (drop_reservation reg reservation) self)
               | Ok thread_id =>
                   let m := mkMetadata (Some thread_id) (agent_path m) (agent_nickname m) (agent_role m) (last_task_message m) in
                   let self := mkControl (commit reg reservation m)
                                 (<[thread_id := default VSCode source]> (control_threads self)) (closed_edges self) in
                   match send_input self thread_id initial_operation answer with
                   | (Err e, self) => (Err e, self)
                   | (Ok _, self) => (Ok (thread_id, m), self)
                   end
               end
           end
       end.

End spawning.

(** ** A spawn succeeds or leaves no trace *)

(** The agents other than the root. *)
Definition agents (reg : AgentRegistry) : gmap str AgentMetadata := delete ROOT (tree reg).

(** An identifier that the registry does not know, nor the source of the new session. *)
Definition new_id (reg : AgentRegistry) (source : option SessionSource) (thread_id : ThreadId) : Prop :=
  map_Forall (fun k m => agent_id m <> Some thread_id /\ k <> thread_key thread_id) (tree reg) /\
  match source with Some (SubAgent (ThreadSpawn parent _ _ _ _)) => parent <> thread_id | _ => True end.

(** The path that a source asks for. *)
Definition asked_path (source : option SessionSource) : option str := source ≫= get_agent_path.

Lemma reserve_spawn_slot_spec spurious reg max r reg' :
  (total_count reg < 2 ^ 64)%N -> (forall m, max = Some m -> (m <= usize_max)%N) ->
  reserve_spawn_slot spurious reg max = Some (r, reg') ->
  active_agents reg' = active_agents reg /\
  ((r = Ok fresh_reservation /\ total_count reg' = ((total_count reg + 1) mod 2 ^ 64)%N /\ (forall m, max = Some m -> (total_count reg < m)%N)) \/
   exists m, max = Some m /\ r = Err (AgentLimitReached m) /\ reg' = reg /\ (m <= total_count reg)%N).
Proof.
  intros Ht Hm. unfold reserve_spawn_slot. destruct max as [m|]; [|by intros [= <- <-]; split; [done|left]].
  specialize (Hm m eq_refl). unfold usize_max, u64_max in Hm. unfold try_increment_spawned.
  induction spurious as [|b l IH]; cbn [try_increment_loop]; [done|]. unfold try_increment_round.
  rewrite N.eqb_refl. destruct (N.leb_spec m (total_count reg)) as [Hle|Hlt].
  - intros [= <- <-]. split; [done|]. right. by exists m.
  - destruct b; cbn [andb negb].
    + exact IH.
    + intros [= <- <-]. split; [done|]. left. cbn -[N.modulo N.pow]. split; [done|].
      rewrite N.mod_small by lia. split; [done|]. by intros ? [= <-].
Qed.

Lemma register_root_agents reg parent : agents (register_root_thread reg parent) = agents reg /\
  total_count (register_root_thread reg parent) = total_count reg.
Proof.
  unfold register_root_thread, agents. destruct (tree reg !! ROOT) eqn:E; [done|]. rewrite tree_with_tree. split; [|done].
  by rewrite delete_insert_eq.
Qed.

Lemma agents_lookup reg p : p <> ROOT -> agents reg !! p = tree reg !! p.
Proof. intros H. unfold agents. by rewrite lookup_delete_ne. Qed.

(** The placeholder of a path that is reserved. *)
Definition placeholder (p : str) : AgentMetadata := mkMetadata None (Some p) None None None.

(** The agents while a reservation holds its path. *)
Definition with_reserved (r : SpawnReservation) (t : gmap str AgentMetadata) : gmap str AgentMetadata :=
  match reserved_agent_path r with Some p => <[p := placeholder p]> t | None => t end.

(** What a preparation leaves, whether it succeeds or not. *)
Record prepared (reg reg' : AgentRegistry) (r : SpawnReservation) : Prop := {
  prepared_active : active r = true;
  prepared_count : total_count reg' = total_count reg;
  prepared_agents : agents reg' = with_reserved r (agents reg);
  prepared_path : forall p, reserved_agent_path r = Some p -> p <> ROOT /\ agents reg !! p = None
}.

Lemma prepare_thread_spawn_spec draw names reg parent depth path role e r reg' :
  path <> Some ROOT ->
  prepare_thread_spawn draw names reg fresh_reservation parent depth path role None = (e, r, reg') ->
  prepared reg reg' r /\
  (forall i, parent <> i -> map_Forall (fun _ m => agent_id m <> Some i) (tree reg) -> map_Forall (fun _ m => agent_id m <> Some i) (tree reg')) /\
  (forall source m, e = Ok (source, m) -> agent_path m = reserved_agent_path r /\ path = agent_path m /\ last_task_message m = None).
Proof.
  intros Hroot. unfold prepare_thread_spawn.
  set (reg1 := if (depth =? 1)%Z then register_root_thread reg parent else reg).
  assert (H1 : agents reg1 = agents reg /\ total_count reg1 = total_count reg).
  { subst reg1. destruct (depth =? 1)%Z; [apply register_root_agents|done]. }
  assert (Hids : forall i, parent <> i -> map_Forall (fun _ m => agent_id m <> Some i) (tree reg) -> map_Forall (fun _ m => agent_id m <> Some i) (tree reg1)).
  { intros i Hi Hf. subst reg1. destruct (depth =? 1)%Z; [|done]. unfold register_root_thread. destruct (tree reg !! ROOT); [done|].
    rewrite tree_with_tree. apply map_Forall_insert_2; [|done]. cbn. congruence. }
  destruct H1 as [Ha Hc].
  destruct (match path with Some p => _ | None => _ end) as [[reserved r1] reg2] eqn:E.
  assert (H2 : prepared reg reg2 r1 /\ (forall i, map_Forall (fun _ m => agent_id m <> Some i) (tree reg1) -> map_Forall (fun _ m => agent_id m <> Some i) (tree reg2)) /\
    (reserved = Ok tt -> path = reserved_agent_path r1)).
  { destruct path as [p|]; [|injection E as <- <- <-; split; [by constructor|done]].
    unfold reservation_reserve_path, reserve_agent_path in E. assert (Hp : p <> ROOT) by congruence.
    destruct (tree reg1 !! p) eqn:Hl; injection E as <- <- <-; split; [by constructor|done| |].
    - constructor; cbn; [done|done| |].
      + rewrite <- Ha. unfold agents, with_reserved. rewrite tree_with_tree, delete_insert_ne by done. done.
      + intros q [= <-]. split; [done|]. by rewrite <- Ha, agents_lookup.
    - split; [|done]. intros i Hi. rewrite tree_with_tree. by apply map_Forall_insert_2. }
  destruct H2 as (Hp & Hids2 & Hpath). destruct reserved as [[]|err]; [|intros [= <- <- <-]; split_and!; [done|auto|done]].
  unfold reserve_agent_nickname_with_preference.
  destruct (registry_reserve_nickname draw reg2 names None) as [[n|] reg3] eqn:En;
    apply registry_reserve_nickname_frame in En as [Ht Hc3]; intros [= <- <- <-].
  - destruct Hp as [P1 P2 P3 P4]. split; [constructor; cbn; unfold agents; rewrite ?Ht, ?Hc3; done|].
    split; [intros i Hi Hf; rewrite Ht; auto|]. intros source m [= <- <-]. cbn. by rewrite <- Hpath.
  - destruct Hp as [P1 P2 P3 P4]. split; [constructor; cbn; unfold agents; rewrite ?Ht, ?Hc3; done|].
    split; [intros i Hi Hf; rewrite Ht; auto|done].
Qed.

Lemma drop_prepared reg reg' r : prepared reg reg' r ->
  agents (drop_reservation reg' r) = agents reg /\
  total_count (drop_reservation reg' r) = ((total_count reg + (2 ^ 64 - 1)) mod 2 ^ 64)%N.
Proof.
  intros [H1 H2 H3 H4]. unfold drop_reservation, drop_path. rewrite H1.
  set (reg2 := match reserved_agent_path r with Some p => _ | None => _ end).
  assert (agents reg2 = agents reg /\ total_count reg2 = total_count reg) as [Ha <-]; [|done].
  subst reg2. unfold with_reserved in H3. destruct (reserved_agent_path r) as [p|]; [|done].
  destruct (H4 p eq_refl) as [Hp Hn]. unfold release_reserved_agent_path.
  assert (Hl : tree reg' !! p = Some (placeholder p)) by (rewrite <- agents_lookup, H3 by done; apply lookup_insert_eq).
  rewrite Hl, bool_decide_true by done. split; [|done]. unfold agents at 1.
  rewrite tree_with_tree, delete_delete. fold (agents reg'). by rewrite H3, delete_insert_id.
Qed.

(** The key of an agent. *)
Definition agent_key (thread_id : ThreadId) (path : option str) : str := default (thread_key thread_id) path.

Lemma thread_key_not_root thread_id : thread_key thread_id <> ROOT.
Proof. done. Qed.

Lemma wrap_back t : (t < 2 ^ 64)%N -> ((((t + 1) mod 2 ^ 64) + (2 ^ 64 - 1)) mod 2 ^ 64)%N = t.
Proof.
  intros Ht. rewrite N.Div0.add_mod_idemp_l. replace (t + 1 + (2 ^ 64 - 1))%N with (t + 1 * 2 ^ 64)%N by lia.
  by rewrite N.Div0.mod_add, N.mod_small.
Qed.

(** A committed agent takes the place of what was reserved for it. *)
Lemma commit_prepared reg reg' r m thread_id : prepared reg reg' r ->
  agent_id m = Some thread_id -> agent_path m = reserved_agent_path r -> agents reg !! thread_key thread_id = None ->
  let key := agent_key thread_id (agent_path m) in
  key <> ROOT /\ agents reg !! key = None /\ agents (commit reg' r m) = <[key := m]> (agents reg) /\
  tree (commit reg' r m) = <[key := m]> (tree reg') /\ total_count (commit reg' r m) = total_count reg.
Proof.
  intros [H1 H2 H3 H4] Hid Hp Hn key. unfold commit, drop_reservation, drop_path, register_spawned_thread. rewrite Hid.
  cbn [active]. assert (Hkey : key <> ROOT /\ agents reg !! key = None).
  { subst key. unfold agent_key. rewrite Hp. destruct (reserved_agent_path r) as [p|]; [by apply H4|]. cbn.
    split; [apply thread_key_not_root|done]. }
  destruct Hkey as [Hk Hv]. split_and!; [done|done| |done|done].
  unfold agents at 1, tree. cbn. fold key (tree reg'). rewrite delete_insert_ne by done. fold (agents reg'). rewrite H3.
  unfold with_reserved. subst key. unfold agent_key. rewrite Hp. destruct (reserved_agent_path r); [|done]. cbn.
  by rewrite insert_insert_eq.
Qed.

(** The agent that was committed, when its thread is gone. *)
Lemma release_committed entries reg reg1 thread_id key m : walks entries ->
  key <> ROOT -> agents reg !! key = None -> agents reg1 = <[key := m]> (agents reg) ->
  tree reg1 !! key = Some m -> agent_id m = Some thread_id -> path_is_root m = false ->
  map_Forall (fun k m => agent_id m = Some thread_id -> k = key) (tree reg1) ->
  agents (release_spawned_thread entries reg1 thread_id) = agents reg /\
  total_count (release_spawned_thread entries reg1 thread_id) = ((total_count reg1 + (2 ^ 64 - 1)) mod 2 ^ 64)%N.
Proof.
  intros Hw Hk Hv Ha Ht Hid Hroot Hu. unfold release_spawned_thread.
  destruct (remove_spawned entries reg1 thread_id) as [counted reg2] eqn:E.
  apply remove_spawned_spec in E as [Hc [(_ & _ & Hno)|(k & m' & Hk' & Hid' & -> & Hd)]]; [by destruct (Hno key m Ht)| |done].
  pose proof (Hu _ _ Hk' Hid') as ->. rewrite Ht in Hk'. injection Hk' as <-.
  unfold holds_slot. rewrite Hid, Hroot. cbn [andb negb]. rewrite bool_decide_true by done. cbn [andb].
  assert (agents reg2 = agents reg) as Ha2; [|by split; [|cbn -[N.modulo N.pow]; rewrite Hc]].
  unfold agents at 1. rewrite Hd, delete_delete. fold (agents reg1). by rewrite Ha, delete_insert_id.
Qed.

(** What is remembered of a task changes the message of the agent alone. *)
Lemma remember_committed entries self thread_id key m message reg : walks entries ->
  key <> ROOT -> agents (control_registry self) = <[key := m]> (agents reg) ->
  tree (control_registry self) !! key = Some m ->
  map_Forall (fun k m => agent_id m = Some thread_id -> k = key) (tree (control_registry self)) ->
  let self' := remember_task entries self thread_id message in
  (exists msg, agents (control_registry self') = <[key := with_message msg m]> (agents reg)) /\
  total_count (control_registry self') = total_count (control_registry self) /\ control_threads self' = control_threads self.
Proof.
  intros Hw Hk Ha Ht Hu self'.
  assert (H : control_registry self' = set_message entries (control_registry self) thread_id message) by (by destruct message).
  split_and!; [| |done]; rewrite H;
    destruct (set_message_spec entries (control_registry self) thread_id message Hw) as [->|(k & m' & Hk' & Hid & ->)]; try done.
  - exists (last_task_message m). rewrite Ha. by destruct m.
  - pose proof (Hu _ _ Hk' Hid) as ->. rewrite Ht in Hk'. injection Hk' as <-. exists message.
    unfold agents at 1. rewrite tree_with_tree, delete_insert_ne by done. fold (agents (control_registry self)).
    by rewrite Ha, insert_insert_eq.
Qed.

Lemma prepare_spawn_spec draw candidates reg source e r reg' : asked_path source <> Some ROOT ->
  prepare_spawn draw candidates reg fresh_reservation source = (e, r, reg') ->
  prepared reg reg' r /\
  (forall i, new_id reg source i -> map_Forall (fun _ m => agent_id m <> Some i) (tree reg')) /\
  (forall source' m, e = Ok (source', m) -> agent_path m = reserved_agent_path r /\ asked_path source = agent_path m).
Proof.
  intros Hroot Hp. unfold prepare_spawn in Hp.
  assert (Hi : forall i, new_id reg source i -> map_Forall (fun _ m => agent_id m <> Some i) (tree reg)).
  { intros i [Hids _]. eapply map_Forall_impl; [exact Hids|naive_solver]. }
  destruct source as [[| | | | | |[| |parent depth path nick role| |]|]|].
  9: { destruct (prepare_thread_spawn _ _ _ _ _ _ _ _ _) as [[e' r'] reg1] eqn:E.
       apply prepare_thread_spawn_spec in E as (H1 & H2 & H3); [|exact Hroot].
       destruct e' as [[s m]|]; injection Hp as <- <- <-; (split; [done|split; [|done || idtac]]).
       - intros i Hn. pose proof (Hi i Hn). destruct Hn as [_ Hparent]. auto.
       - intros source' m' [= <- <-]. destruct (H3 _ _ eq_refl) as (? & ? & _). done.
       - intros i Hn. pose proof (Hi i Hn). destruct Hn as [_ Hparent]. auto. }
  all: injection Hp as <- <- <-; split_and!; [by constructor|done|by intros ? ? [= <- <-]].
Qed.

(** The first input of an agent that was committed: it is remembered, or the agent is gone. *)
Lemma send_committed entries self i key m op answer reg : walks entries ->
  key <> ROOT -> agents reg !! key = None -> agents (control_registry self) = <[key := m]> (agents reg) ->
  tree (control_registry self) !! key = Some m -> agent_id m = Some i -> path_is_root m = false ->
  map_Forall (fun k m => agent_id m = Some i -> k = key) (tree (control_registry self)) ->
  exists self', send_input entries self i op answer = (answer, self') /\
    match answer with
    | Ok _ => (exists msg, agents (control_registry self') = <[key := with_message msg m]> (agents reg)) /\
         total_count (control_registry self') = total_count (control_registry self) /\ control_threads self' = control_threads self
    | Err InternalAgentDied => agents (control_registry self') = agents reg /\
         total_count (control_registry self') = ((total_count (control_registry self) + (2 ^ 64 - 1)) mod 2 ^ 64)%N
    | Err _ => self' = self
    end.
Proof.
  intros Hw Hk Hv Ha Ht Hid Hroot Hu. unfold send_input. destruct answer as [a|[]]; (eexists; split; [reflexivity|]);
    [by apply remember_committed|..|by eapply release_committed| |]; done.
Qed.

(** The new agent is registered, in one slot more, under a path or identifier that no agent had, and loaded. *)
Definition registers (reg : AgentRegistry) (source : option SessionSource) (max : option N) (i : ThreadId) (m : AgentMetadata)
    (self' : Control) : Prop :=
  let key := agent_key i (asked_path source) in
  agent_id m = Some i /\ agent_path m = asked_path source /\ is_Some (control_threads self' !! i) /\
  agents reg !! key = None /\ agents (control_registry self') = <[key := m]> (agents reg) /\
  total_count (control_registry self') = ((total_count reg + 1) mod 2 ^ 64)%N /\
  (forall limit, max = Some limit -> (total_count reg < limit)%N).

(** C19: Spawning an agent either registers it in a slot of its own or leaves the registry as it was.  On success the new
    agent is loaded and under the path that was asked for, or under its identifier, which no agent had, there is exactly
    one slot more in use, and there were fewer than the limit.  On an error - no slot, a taken path, a thread that cannot
    be made, or one that has died at its first input - the agents other than the root and the slots in use are the same as
    before; only when the first input fails in another way, after the agent was registered, does the agent stay
    registered in its slot.  The identifier of the new thread is taken to be new, and the path asked for not the root. *)
Theorem spawn_all_or_nothing entries spurious draw candidates max create answer self op source r self' :
  let reg := control_registry self in
  walks entries -> (total_count reg < 2 ^ 64)%N -> (forall m, max = Some m -> (m <= usize_max)%N) ->
  asked_path source <> Some ROOT -> (forall s i, create s = Ok i -> new_id reg source i) ->
  spawn_agent_internal entries spurious draw candidates max create answer self op source = Some (r, self') ->
  match r with
  | Ok (i, m) => exists msg, registers reg source max i (with_message msg m) self'
  | Err e =>
      (agents (control_registry self') = agents reg /\ total_count (control_registry self') = total_count reg) \/
      (answer = Err e /\ e <> InternalAgentDied /\ exists s i m, create s = Ok i /\ registers reg source max i m self')
  end.
Proof.
  intros reg Hw Ht Hmax Hroot Hnew. unfold spawn_agent_internal. fold reg.
  destruct (reserve_spawn_slot spurious reg max) as [[reserved reg1]|] eqn:E1; [|done]. cbn [mbind option_bind].
  apply reserve_spawn_slot_spec in E1 as [Hact [(-> & Hc1 & Hlim)|(m & -> & -> & -> & _)]]; [| |done|done].
  2: { intros [= <- <-]. by left. }
  assert (Hag : agents reg1 = agents reg) by (unfold agents, tree; by rewrite Hact).
  assert (Hnew1 : forall s i, create s = Ok i -> new_id reg1 source i).
  { intros s i Hs. specialize (Hnew s i Hs). unfold new_id, tree in *. by rewrite Hact. }
  destruct (prepare_spawn draw candidates reg1 fresh_reservation source) as [[e rv] reg2] eqn:E2.
  apply prepare_spawn_spec in E2 as (Hprep & Hids & Hok); [|done].
  assert (Hback : agents (drop_reservation reg2 rv) = agents reg /\ total_count (drop_reservation reg2 rv) = total_count reg).
  { apply drop_prepared in Hprep as [-> ->]. by rewrite Hag, Hc1, wrap_back. }
  destruct e as [[source' m]|err]; [|intros [= <- <-]; by left].
  destruct (Hok _ _ eq_refl) as [Hpath Hasked]. destruct (create source') as [i|err] eqn:Hcr; [|intros [= <- <-]; by left].
  specialize (Hids i (Hnew1 _ _ Hcr)). pose proof (Hnew1 _ _ Hcr) as [Hfresh _].
  set (m1 := mkMetadata (Some i) _ _ _ _).
  destruct (commit_prepared reg1 reg2 rv m1 i Hprep eq_refl Hpath) as (Hk & Hv & Ha & Htr & Hct).
  { destruct (agents reg1 !! thread_key i) eqn:El; [|done]. rewrite agents_lookup in El by apply thread_key_not_root.
    by destruct (Hfresh _ _ El) as [_ []]. }
  change (agent_path m1) with (agent_path m) in *. rewrite <- Hasked in *. rewrite Hag in *.
  set (key := agent_key i (asked_path source)) in *. set (threads1 := <[i := _]> _).
  destruct (send_committed entries (mkControl (commit reg2 rv m1) threads1 (closed_edges self)) i key m1 op answer reg)
    as (self2 & -> & Hs); try done.
  - cbn [control_registry]. rewrite Htr. apply lookup_insert_eq.
  - unfold path_is_root. cbn. rewrite <- Hasked. destruct (asked_path source) as [p|]; [|done].
    apply bool_decide_eq_false. congruence.
  - cbn [control_registry]. rewrite Htr. apply map_Forall_insert_2; [done|]. eapply map_Forall_impl; [exact Hids|]. naive_solver.
  - cbn [control_registry control_threads] in Hs. rewrite ?Hct, ?Hc1 in Hs.
    assert (Hreg : forall msg self3, agents (control_registry self3) = <[key := with_message msg m1]> (agents reg) ->
      total_count (control_registry self3) = ((total_count reg + 1) mod 2 ^ 64)%N -> is_Some (control_threads self3 !! i) ->
      registers reg source max i (with_message msg m1) self3).
    { intros msg self3 Hm3 Ht3 Hth3. unfold registers. by split_and!; [|cbn; rewrite Hasked|..]. }
    destruct answer as [a|err]; intros [= <- <-].
    + destruct Hs as ([msg Hmsg] & Htot & Hth). exists msg. apply Hreg; [done..|].
      rewrite Hth. eexists. apply lookup_insert_eq.
    + assert (err = InternalAgentDied \/
        (err <> InternalAgentDied /\ self2 = mkControl (commit reg2 rv m1) threads1 (closed_edges self))) as [->|[Hne ->]].
      { destruct err; auto. }
      { left. by rewrite (proj1 Hs), (proj2 Hs), wrap_back. }
      right. split; [done|]. split; [done|]. exists source', i, (with_message (last_task_message m1) m1). split; [done|].
      apply Hreg; cbn [control_registry control_threads]; [by rewrite Ha|by rewrite Hct, Hc1|].
      eexists. apply lookup_insert_eq.
Qed.

(** ** The operations as interleaved accesses *)

Section accesses.
Context (allowed : option N -> Prop) (ts : list Task).

(** One access of the newest task. *)
Lemma last_task_step reg t reg' t' : task_step reg t reg' t' -> step allowed (mkSystem reg (ts ++ [t])) (mkSystem reg' (ts ++ [t'])).
Proof. apply (step_task allowed reg ts t []). Qed.

Lemma reserve_steps spurious reg max r reg' : allowed max -> (forall m, max = Some m -> (m <= usize_max)%N) ->
  reserve_spawn_slot spurious reg max = Some (r, reg') ->
  rtc (step allowed) (mkSystem reg ts) (mkSystem reg' (ts ++ [match r with Ok res => Holding res | Err _ => Finished end])).
Proof.
  intros Hal Hm. unfold reserve_spawn_slot. destruct max as [m|].
  2: { intros [= <- <-]. apply rtc_once. by apply step_unlimited. }
  destruct (try_increment_spawned spurious reg m) as [[reserved reg1]|] eqn:E; [|done]. cbn. intros [= <- <-].
  eapply rtc_l; [by apply step_limited; [|apply Hm]|]. unfold try_increment_spawned in E. revert E.
  generalize (total_count reg) at 1 2 as cur. induction spurious as [|b l IH]; intros cur; cbn; [done|].
  destruct (try_increment_round reg m cur b) as [[[]|next] reg2] eqn:Er.
  - intros [= <- <-]. by eapply rtc_once, last_task_step, round_reserved.
  - intros [= <- <-]. by eapply rtc_once, last_task_step, round_refused.
  - intros E. eapply rtc_l; [by eapply last_task_step, round_retry|].
    assert (reg2 = reg) as -> by (unfold try_increment_round in Er; repeat (case_match; simplify_eq/=; try done)). by apply IH.
Qed.

Lemma prepare_steps draw names reg parent depth path role preferred e r reg' :
  (forall p, path = Some p -> valid p /\ is_root p = false) ->
  prepare_thread_spawn draw names reg fresh_reservation parent depth path role preferred = (e, r, reg') ->
  rtc (step allowed) (mkSystem reg (ts ++ [Holding fresh_reservation])) (mkSystem reg' (ts ++ [Holding r])).
Proof.
  intros Hv. unfold prepare_thread_spawn. set (reg1 := if (depth =? 1)%Z then _ else reg).
  assert (H1 : rtc (step allowed) (mkSystem reg (ts ++ [Holding fresh_reservation])) (mkSystem reg1 (ts ++ [Holding fresh_reservation]))).
  { subst reg1. destruct (depth =? 1)%Z; [apply rtc_once, step_root|done]. }
  destruct (match path with Some p => _ | None => _ end) as [[reserved r1] reg2] eqn:E.
  assert (H2 : rtc (step allowed) (mkSystem reg1 (ts ++ [Holding fresh_reservation])) (mkSystem reg2 (ts ++ [Holding r1]))).
  { destruct path as [p|]; [|by injection E as <- <- <-]. destruct (Hv p eq_refl).
    by eapply rtc_once, last_task_step, hold_path. }
  destruct reserved; [|intros [= <- <- <-]; by etrans].
  destruct (reserve_agent_nickname_with_preference draw reg2 r1 names preferred) as [[[n|err] r2] reg3] eqn:En;
    intros [= <- <- <-]; (etrans; [done|]; etrans; [done|]); by eapply rtc_once, last_task_step, hold_nickname.
Qed.

Lemma drop_steps reg r : active r = true ->
  rtc (step allowed) (mkSystem reg (ts ++ [Holding r])) (mkSystem (drop_reservation reg r) (ts ++ [Finished])).
Proof.
  intros Ha. unfold drop_reservation. destruct (drop_path reg r) as [release reg'] eqn:E.
  assert (release = true) as -> by (unfold drop_path in E; by rewrite Ha in E; injection E).
  eapply rtc_l; [by eapply last_task_step, hold_drop|]. apply rtc_once, last_task_step, give_back.
Qed.

Lemma release_steps entries reg thread_id : walks entries ->
  rtc (step allowed) (mkSystem reg ts) (mkSystem (release_spawned_thread entries reg thread_id) (ts ++ [Finished])).
Proof.
  intros Hw. unfold release_spawned_thread. destruct (remove_spawned entries reg thread_id) as [counted reg'] eqn:E.
  eapply rtc_l; [by eapply (step_release allowed entries)|]. destruct counted; [|done].
  apply rtc_once, last_task_step, give_back.
Qed.

Lemma one_finished reg reg' : rtc (step allowed) (mkSystem reg ts) (mkSystem reg' (ts ++ [Finished])) ->
  exists done_, Forall (fun t => t = Finished) done_ /\ rtc (step allowed) (mkSystem reg ts) (mkSystem reg' (ts ++ done_)).
Proof. intros H. exists [Finished]. split; [by repeat constructor|done]. Qed.

End accesses.

(** Spawning an agent is a sequence of the accesses that the registry is proved correct for, whatever else is under way. *)
Theorem spawn_as_accesses allowed ts entries spurious draw candidates max create answer self op source r self' :
  let reg := control_registry self in
  walks entries -> allowed max -> (total_count reg < 2 ^ 64)%N -> (forall m, max = Some m -> (m <= usize_max)%N) ->
  (forall p, asked_path source = Some p -> valid p /\ is_root p = false) ->
  (forall s i, create s = Ok i -> new_id reg source i) ->
  spawn_agent_internal entries spurious draw candidates max create answer self op source = Some (r, self') ->
  exists done_, Forall (fun t => t = Finished) done_ /\
    rtc (step allowed) (mkSystem reg ts) (mkSystem (control_registry self') (ts ++ done_)).
Proof.
  intros reg Hw Hal Ht Hmax Hv Hnew. unfold spawn_agent_internal. fold reg.
  assert (Hroot : asked_path source <> Some ROOT) by (intros Hp; by destruct (Hv _ Hp)).
  destruct (reserve_spawn_slot spurious reg max) as [[reserved reg1]|] eqn:E1; [|done]. cbn [mbind option_bind].
  pose proof (reserve_steps allowed ts _ _ _ _ _ Hal Hmax E1) as S1.
  apply reserve_spawn_slot_spec in E1 as [Hact [(-> & _ & _)|(m & -> & -> & -> & _)]]; [|intros [= <- <-]; by apply one_finished|done|done].
  destruct (prepare_spawn draw candidates reg1 fresh_reservation source) as [[e rv] reg2] eqn:E2.
  pose proof (prepare_spawn_spec _ _ _ _ _ _ _ Hroot E2) as (Hprep & _ & Hok).
  assert (S2 : rtc (step allowed) (mkSystem reg1 (ts ++ [Holding fresh_reservation])) (mkSystem reg2 (ts ++ [Holding rv]))).
  { unfold prepare_spawn in E2. destruct source as [[| | | | | |[| |parent depth path nick role| |]|]|];
      try by injection E2 as <- <- <-.
    destruct (prepare_thread_spawn _ _ _ _ _ _ _ _ _) as [[e' r'] reg'] eqn:E. eapply prepare_steps in E; [|exact Hv].
    destruct e' as [[]|]; by injection E2 as <- <- <-. }
  assert (Sdrop : rtc (step allowed) (mkSystem reg ts) (mkSystem (drop_reservation reg2 rv) (ts ++ [Finished]))).
  { etrans; [exact S1|]. etrans; [exact S2|]. apply drop_steps. by destruct Hprep. }
  destruct e as [[source' m]|err]; [|intros [= <- <-]; by apply one_finished].
  destruct (create source') as [i|err] eqn:Hcr; [|intros [= <- <-]; by apply one_finished].
  set (m1 := mkMetadata (Some i) _ _ _ _). destruct (Hok _ _ eq_refl) as [Hpath _].
  assert (S3 : rtc (step allowed) (mkSystem reg ts) (mkSystem (commit reg2 rv m1) (ts ++ [Finished]))).
  { etrans; [exact S1|]. etrans; [exact S2|]. eapply rtc_once, last_task_step, (hold_commit _ _ _ i); [done|done|].
    intros Hnone. cbn in Hnone. destruct Hprep as [_ _ Hag _]. rewrite <- agents_lookup, Hag by apply thread_key_not_root.
    unfold with_reserved. rewrite <- Hpath, Hnone, agents_lookup by apply thread_key_not_root. unfold tree. rewrite Hact.
    destruct (tree reg !! thread_key i) eqn:El; [|done]. destruct (Hnew _ _ Hcr) as [Hf _]. by destruct (Hf _ _ El). }
  unfold send_input. set (self1 := mkControl _ _ _). destruct answer as [a|err]; cbn [is_ok handle_thread_request_result].
  - intros [= <- <-]. apply one_finished. etrans; [exact S3|]. apply rtc_once.
    destruct (match op with InterAgentCommunicationOp c => _ | _ => _ end); by apply (step_message allowed entries).
  - destruct err; intros [= <- <-]; try by apply one_finished.
    exists [Finished; Finished]. split; [by repeat constructor|]. etrans; [exact S3|]. cbn [control_registry].
    change [Finished; Finished] with ([Finished] ++ [Finished]). rewrite app_assoc. by apply release_steps.
Qed.

(** A second child of the root of the example. *)
Definition demo_outcome : option (result CodexErr (ThreadId * AgentMetadata) * Control) :=
  spawn_agent_internal map_to_list [false] 0 (fun _ => [lit "Euclid"]) (Some 6%N) (fun _ => Ok (lit "n")) (Ok (lit "sub-2"))
    demo_control (UserInputOp [TurnItems.TextInput (lit "look around") []]) (Some (demo_spawn (lit "r") (lit "/root/c"))).
Definition demo_new_agent : AgentMetadata := mkMetadata (Some (lit "n")) (Some (lit "/root/c")) (Some (lit "Euclid")) None None.
Definition demo_spawned : Control := from_option snd demo_control demo_outcome.

Lemma demo_outcome_eq : demo_outcome = Some (Ok (lit "n", demo_new_agent), demo_spawned).
Proof. vm_compute. reflexivity. Qed.

Lemma spawn_all_or_nothing_witness :
  total_count (control_registry demo_spawned) = 3%N /\ is_Some (control_threads demo_spawned !! lit "n").
Proof.
  destruct (spawn_all_or_nothing map_to_list [false] 0 (fun _ => [lit "Euclid"]) (Some 6%N) (fun _ => Ok (lit "n")) (Ok (lit "sub-2"))
    demo_control (UserInputOp [TurnItems.TextInput (lit "look around") []]) (Some (demo_spawn (lit "r") (lit "/root/c")))
    (Ok (lit "n", demo_new_agent)) demo_spawned) as (msg & _ & _ & Ht & _ & _ & Hc & _).
  - intros t. reflexivity.
  - vm_compute. reflexivity.
  - intros m [= <-]. vm_compute. discriminate.
  - discriminate.
  - intros s i [= <-]. split; [|discriminate]. apply (bool_decide_unpack _). vm_compute. exact I.
  - exact demo_outcome_eq.
  - split; [|done]. rewrite Hc. vm_compute. reflexivity.
Defined.

(** ** The edges that are recorded *)

(** [codex-rs/state/src/model/graph.rs:8-11 DirectionalThreadSpawnEdgeStatus] *)
Inductive EdgeStatus := OpenEdge | ClosedEdge.
#[global] Instance EdgeStatus_eq_dec : EqDecision EdgeStatus.
Proof. solve_decision. Defined.

(** The table of edges: a child has one parent (state/migrations/0021_thread_spawn_edges.sql). *)
Definition SpawnEdges : Type := gmap str (ThreadId * EdgeStatus).

(** [codex-rs/state/src/runtime/threads.rs:80-104 StateRuntime::upsert_thread_spawn_edge] *)
Definition upsert_thread_spawn_edge (db : SpawnEdges) (parent child : ThreadId) (status : EdgeStatus) : SpawnEdges :=
  <[child := (parent, status)]> db.

(** [codex-rs/state/src/runtime/threads.rs:107-118 StateRuntime::set_thread_spawn_edge_status] *)
Definition set_thread_spawn_edge_status (db : SpawnEdges) (child : ThreadId) (status : EdgeStatus) : SpawnEdges :=
  alter (fun edge => (edge.1, status)) child db.

(** [codex-rs/state/src/runtime/threads.rs:294-315 StateRuntime::insert_thread_spawn_edge_if_absent] *)
Definition insert_thread_spawn_edge_if_absent (db : SpawnEdges) (parent child : ThreadId) : SpawnEdges :=
  match db !! child with Some _ => db | None => <[child := (parent, OpenEdge)]> db end.

(** [codex-rs/state/src/runtime/threads.rs:218-238 StateRuntime::list_thread_spawn_children_matching] *)
Definition list_thread_spawn_children_matching (db : SpawnEdges) (parent : ThreadId) (status : option EdgeStatus) : list ThreadId :=
  sort_by str_leb
    (omap (fun '(child, (p, s)) =>
       if bool_decide (p = parent) && match status with Some st => bool_decide (s = st) | None => true end
       then Some child else None) (map_to_list db)).

(** ** Resuming agents *)

(** The state that resuming changes: the agents and the recorded edges. *)
Record Sessions := mkSessions { sessions_control : Control; sessions_edges : SpawnEdges }.

(** [codex-rs/core/src/agent/control.rs:627-650 AgentControl::persist_thread_spawn_edge_for_source] *)
Definition persist_thread_spawn_edge_for_source (db : SpawnEdges) (child : ThreadId) (source : SessionSource) : SpawnEdges :=
  match source with
  | SubAgent (ThreadSpawn parent _ _ _ _) => upsert_thread_spawn_edge db parent child OpenEdge
  | _ => db
  end.

Section resuming.
Context (spurious : list bool) (draw : nat) (candidates : option str -> list str) (max_threads : option N).
(** What reading a stored thread and starting it answer, the nickname and role that are recorded for it, its recorded
    path, and the parents whose children cannot be listed. *)
Context (stored : ThreadId -> result CodexErr unit) (start : ThreadId -> SessionSource -> result CodexErr ThreadId).
Context (recorded : ThreadId -> option str * option str) (recorded_path : ThreadId -> option str) (list_fails : ThreadId -> bool).

(** [codex-rs/core/src/agent/control/spawn.rs:664-784 AgentControl::resume_single_agent_from_rollout] *)
Definition resume_single_agent_from_rollout (self : Sessions) (thread_id : ThreadId) (session_source : SessionSource)
    : option (result CodexErr ThreadId * Sessions) :=
  let control := sessions_control self in
  let back reg := mkSessions (with_registry reg control) (sessions_edges self) in
  match stored thread_id with
  | Err e => Some (Err e, self)
  | Ok _ =>
      '(reserved, reg) ← reserve_spawn_slot spurious (control_registry control) max_threads;
      Some match reserved with
           | Err e => (Err e, back reg)
           | Ok reservation =>
               let '(prepared, reservation, reg) :=
                 match session_source with
                 | SubAgent (ThreadSpawn parent depth path _ _) =>
                     let '(nickname, role) := recorded thread_id in
                     prepare_thread_spawn draw (candidates role) reg reservation parent depth path role nickname
                 | other => (Ok (other, default_metadata), reservation, reg)
                 end in
               match prepared with
               | Err e => (Err e, back (drop_reservation reg reservation))
               | Ok (source, m) =>
                   match start thread_id source with
                   | Err e => (Err e, back (drop_reservation reg reservation))
                   | Ok resumed =>
                       let m := mkMetadata (Some resumed) (agent_path m) (agent_nickname m) (agent_role m) (last_task_message m) in
                       (Ok resumed,
                        mkSessions (mkControl (commit reg reservation m) (<[resumed := source]> (control_threads control))
                                      (closed_edges control))
                          (persist_thread_spawn_edge_for_source (sessions_edges self) resumed source))
                   end
               end
           end
  end.

(** The source under which a child is reloaded. *)
Definition child_source (parent : ThreadId) (depth : Z) (child : ThreadId) : SessionSource :=
  SubAgent (ThreadSpawn parent depth (recorded_path child ≫= fun path => ok (from_string path)) None None).

(** [codex-rs/core/src/agent/control/spawn.rs:606-660 AgentControl::reload_live_subtree] the children of one thread: those that are loaded, or are resumed, are to be looked at in turn. *)
Fixpoint reload_children (self : Sessions) (parent : ThreadId) (depth : Z) (children : list ThreadId)
    : option (list (ThreadId * Z) * Sessions) :=
  match children with
  | [] => Some ([], self)
  | child :: children =>
      '(resumed, self) ← (if is_ok (get_thread (control_threads (sessions_control self)) child) then Some (true, self)
                          else '(r, self) ← resume_single_agent_from_rollout self child (child_source parent depth child);
                               Some (is_ok r, self));
      '(queue, self) ← reload_children self parent depth children;
      Some (if resumed : bool then (child, depth) :: queue else queue, self)
  end.

(** [codex-rs/core/src/agent/control/spawn.rs:572-662 AgentControl::reload_live_subtree] the loop over the queue; [None]
    when the fuel, or the compare-and-swap loop, does not come to an end. *)
Fixpoint reload_loop (fuel : nat) (self : Sessions) (queue : list (ThreadId * Z)) : option Sessions :=
  match queue with
  | [] => Some self
  | (parent, parent_depth) :: queue =>
      match fuel with
      | O => None
      | S fuel =>
          if list_fails parent then reload_loop fuel self queue
          else '(more, self) ← reload_children self parent (parent_depth + 1)
                 (list_thread_spawn_children_matching (sessions_edges self) parent (Some OpenEdge));
               reload_loop fuel self (queue ++ more)
      end
  end.

(** [codex-rs/core/src/agent/control/spawn.rs:572-662 AgentControl::reload_live_subtree] *)
Definition reload_live_subtree (fuel : nat) (self : Sessions) (root : ThreadId) (root_depth : Z) : option Sessions :=
  if is_ok (get_thread (control_threads (sessions_control self)) root) then reload_loop fuel self [(root, root_depth)]
  else Some self.

Lemma reserve_returns reg : false ∈ spurious -> exists r reg', reserve_spawn_slot spurious reg max_threads = Some (r, reg').
Proof.
  intros Hs. unfold reserve_spawn_slot. destruct max_threads as [m|]; [|by eexists _, _].
  assert (exists b reg', try_increment_spawned spurious reg m = Some (b, reg')) as (b & reg' & ->); [|by eexists _, _].
  unfold try_increment_spawned. revert Hs. generalize spurious as l. induction l as [|b l IH]; intros Hs; [by apply elem_of_nil in Hs|].
  cbn [try_increment_loop]. unfold try_increment_round. rewrite N.eqb_refl. destruct (m <=? total_count reg)%N; [by eexists _, _|].
  destruct b; cbn [andb negb]; [|by eexists _, _]. apply IH. by apply elem_of_cons in Hs as [?|?].
Qed.

Lemma children_matching_elem db p c : c ∈ list_thread_spawn_children_matching db p (Some OpenEdge) <-> db !! c = Some (p, OpenEdge).
Proof.
  unfold list_thread_spawn_children_matching. rewrite (sort_by_perm str_leb), list_elem_of_omap. split.
  - intros ([c' [p' s']] & Hin & Hs). case_match eqn:E; [|done]. injection Hs as ->. apply andb_true_iff in E as [E1 E2].
    apply bool_decide_eq_true in E1 as ->, E2 as ->. by apply elem_of_map_to_list.
  - intros Hc. exists (c, (p, OpenEdge)). split; [by apply elem_of_map_to_list|]. by rewrite !bool_decide_true.
Qed.

Section ends.
Context (Hspurious : false ∈ spurious) (Hstart : forall i s j, start i s = Ok j -> j = i).

(** Resuming a recorded child leaves the records as they are. *)
Lemma resume_single_returns self child parent depth : sessions_edges self !! child = Some (parent, OpenEdge) ->
  exists r self', resume_single_agent_from_rollout self child (child_source parent depth child) = Some (r, self') /\
    sessions_edges self' = sessions_edges self.
Proof.
  intros Hdb. unfold resume_single_agent_from_rollout, child_source. destruct (stored child); [|by eexists _, _].
  destruct (reserve_returns (control_registry (sessions_control self)) Hspurious) as (reserved & reg & ->). cbn [mbind option_bind].
  destruct reserved as [reservation|e]; [|by eexists _, _]. destruct (recorded child) as [nickname role].
  set (path := recorded_path child ≫= _). unfold prepare_thread_spawn.
  destruct (match path with Some p => _ | None => _ end) as [[reserved r1] reg2]. destruct reserved; [|by eexists _, _].
  destruct (reserve_agent_nickname_with_preference draw reg2 r1 (candidates role) nickname) as [[[n|err] r2] reg3]; [|by eexists _, _].
  destruct (start child _) as [resumed|e] eqn:Hs; [|by eexists _, _]. apply Hstart in Hs as ->.
  eexists _, _. split; [reflexivity|]. cbn. unfold upsert_thread_spawn_edge. by apply insert_id.
Qed.

Lemma reload_children_returns self parent depth children :
  Forall (fun c => sessions_edges self !! c = Some (parent, OpenEdge)) children ->
  exists queue self', reload_children self parent depth children = Some (queue, self') /\
    sessions_edges self' = sessions_edges self /\ queue.*1 `sublist_of` children.
Proof.
  revert self. induction children as [|c children IH]; intros self Hf; cbn [reload_children].
  { eexists _, _. split; [reflexivity|]. split; [done|constructor]. }
  apply Forall_cons in Hf as [Hc Hf].
  assert (exists resumed self1, (if is_ok (get_thread (control_threads (sessions_control self)) c) then Some (true, self)
      else '(r, self) ← resume_single_agent_from_rollout self c (child_source parent depth c); Some (is_ok r, self)) = Some (resumed, self1)
      /\ sessions_edges self1 = sessions_edges self) as (resumed & self1 & -> & He).
  { destruct (is_ok _); [by eexists _, _|]. destruct (resume_single_returns self c parent depth Hc) as (r & self' & -> & He).
    by eexists _, _. }
  cbn [mbind option_bind]. destruct (IH self1) as (queue & self2 & -> & He2 & Hsub); [by rewrite He|].
  cbn [mbind option_bind]. eexists _, _. split; [reflexivity|]. split; [by rewrite He2|].
  destruct resumed; cbn; by constructor.
Qed.

(** How many threads there are at and below one, when its depth is bounded. *)
Fixpoint weight (db : SpawnEdges) (n : nat) (p : ThreadId) : nat :=
  match n with
  | O => 1
  | S n => S (sum_list_with (weight db n) (list_thread_spawn_children_matching db p (Some OpenEdge)))
  end.

Lemma sum_ext (f g : ThreadId -> nat) l : (forall c, c ∈ l -> f c = g c) -> sum_list_with f l = sum_list_with g l.
Proof. induction l as [|c l IH]; intros H; cbn; [done|]. rewrite (H c), IH; [done|set_solver|set_solver]. Qed.

Lemma sum_sublist (f : ThreadId -> nat) k l : k `sublist_of` l -> sum_list_with f k <= sum_list_with f l.
Proof. induction 1; cbn; lia. Qed.

Context (rank : ThreadId -> nat).

Lemma weight_stable db n n' p : (forall c p, db !! c = Some (p, OpenEdge) -> rank c < rank p) ->
  rank p <= n -> rank p <= n' -> weight db n p = weight db n' p.
Proof.
  intros Hr. revert n' p. induction n as [|n IH]; intros [|n'] p Hn Hn'; [done| | |]; cbn.
  1, 2: assert (list_thread_spawn_children_matching db p (Some OpenEdge) = []) as ->;
    [destruct (list_thread_spawn_children_matching db p (Some OpenEdge)) as [|c l] eqn:E; [done|];
     assert (Hc : c ∈ c :: l) by left; rewrite <- E in Hc; apply children_matching_elem, Hr in Hc; lia|done].
  f_equal. apply sum_ext. intros c Hc%children_matching_elem%Hr. apply IH; lia.
Qed.

Definition load (db : SpawnEdges) (queue : list (ThreadId * Z)) : nat := sum_list_with (fun p => weight db (rank p) p) queue.*1.

Lemma reload_loop_returns fuel self queue :
  (forall c p, sessions_edges self !! c = Some (p, OpenEdge) -> rank c < rank p) ->
  load (sessions_edges self) queue <= fuel -> exists self', reload_loop fuel self queue = Some self'.
Proof.
  revert self queue. induction fuel as [|fuel IH]; intros self [|[p d] queue] Hr Hf; cbn [reload_loop]; try by eexists.
  { unfold load in Hf. cbn in Hf. destruct (rank p); cbn in Hf; lia. }
  unfold load in Hf. cbn in Hf. assert (Hw : weight (sessions_edges self) (rank p) p = S (sum_list_with (fun c => weight (sessions_edges self) (rank c) c)
    (list_thread_spawn_children_matching (sessions_edges self) p (Some OpenEdge)))).
  { rewrite (weight_stable _ _ (S (rank p))) by (done || lia). cbn. f_equal. apply sum_ext.
    intros c Hc%children_matching_elem%Hr. apply weight_stable; [done|lia|lia]. }
  rewrite Hw in Hf. destruct (list_fails p); [apply IH; [done|]; unfold load; lia|].
  destruct (reload_children_returns self p (d + 1) (list_thread_spawn_children_matching (sessions_edges self) p (Some OpenEdge)))
    as (more & self' & -> & He & Hsub); [apply Forall_forall; intros c; apply children_matching_elem|].
  cbn [mbind option_bind]. apply IH; [by rewrite He|]. rewrite He. unfold load. rewrite fmap_app, sum_list_with_app.
  apply (sum_sublist (fun c => weight (sessions_edges self) (rank c) c)) in Hsub. lia.
Qed.

(** Reloading the agents below a session comes to an end when the recorded edges have no cycle, that is when some
    measure decreases from parent to child. *)
Theorem reload_ends self root depth :
  (forall c p, sessions_edges self !! c = Some (p, OpenEdge) -> rank c < rank p) ->
  exists fuel self', reload_live_subtree fuel self root depth = Some self'.
Proof.
  intros Hr. exists (load (sessions_edges self) [(root, depth)]). unfold reload_live_subtree.
  destruct (is_ok _); [|by eexists]. by apply reload_loop_returns.
Qed.
End ends.

End resuming.

(** Two agents of which each is recorded as spawned by the other, as when an agent resumes the one that spawned it:
    reloading what is below them never ends. *)
Definition cyclic_sessions : Sessions :=
  mkSessions (mkControl empty_registry (list_to_map [(lit "a", demo_spawn (lit "b") (lit "/root/a")); (lit "b", demo_spawn (lit "a") (lit "/root/b"))]) ∅)
    (upsert_thread_spawn_edge (upsert_thread_spawn_edge ∅ (lit "a") (lit "b") OpenEdge) (lit "b") (lit "a") OpenEdge).

Example reload_of_cycle_never_ends spurious draw candidates max stored start recorded recorded_path fuel :
  reload_live_subtree spurious draw candidates max stored start recorded recorded_path (fun _ => false) fuel cyclic_sessions (lit "a") 1 = None.
Proof.
  change (reload_loop spurious draw candidates max stored start recorded recorded_path (fun _ => false) fuel cyclic_sessions [(lit "a", 1%Z)] = None).
  assert (H : forall d, reload_loop spurious draw candidates max stored start recorded recorded_path (fun _ => false) fuel cyclic_sessions [(lit "a", d)] = None /\
                        reload_loop spurious draw candidates max stored start recorded recorded_path (fun _ => false) fuel cyclic_sessions [(lit "b", d)] = None);
    [|by destruct (H 1%Z)].
  induction fuel as [|fuel IH]; intros d; [done|]. cbn [reload_loop].
  replace (list_thread_spawn_children_matching (sessions_edges cyclic_sessions) (lit "a") (Some OpenEdge)) with [lit "b"] by (vm_compute; reflexivity).
  replace (list_thread_spawn_children_matching (sessions_edges cyclic_sessions) (lit "b") (Some OpenEdge)) with [lit "a"] by (vm_compute; reflexivity).
  cbn [reload_children].
  replace (is_ok (get_thread (control_threads (sessions_control cyclic_sessions)) (lit "a"))) with true by (vm_compute; reflexivity).
  replace (is_ok (get_thread (control_threads (sessions_control cyclic_sessions)) (lit "b"))) with true by (vm_compute; reflexivity).
  cbn [mbind option_bind app]. destruct (IH (d + 1)%Z). by split.
Qed.

(** ** What a forked agent remembers *)

(** [codex-rs/core/src/agent/control.rs:53-57 SpawnAgentForkMode] *)
Inductive SpawnAgentForkMode := FullHistory | LastNTurns (n : nat).

(** [codex-rs/core/src/agent/control/spawn.rs:32-63 keep_forked_rollout_item] *)
Definition keep_forked_rollout_item (item : Rollout.RolloutItem) (preserve_reference_context_item : bool) : bool :=
  match item with
  | Rollout.Response (Message _ role _ phase) =>
      if bool_decide (role = lit "system") || bool_decide (role = lit "developer") || bool_decide (role = lit "user") then true
      else if bool_decide (role = lit "assistant") then match phase with Some FinalAnswer => true | _ => false end
      else false
  | Rollout.Response _ => false
  | Rollout.TurnContext _ => preserve_reference_context_item
  | Rollout.Compacted _ | Rollout.Event _ | Rollout.SessionMeta => true
  end.

(** [codex-rs/core/src/agent/control/spawn.rs:90-104 is_multi_agent_v2_usage_hint_message] *)
Definition is_multi_agent_v2_usage_hint_message (item : ResponseItem) (usage_hint_texts : list str) : bool :=
  match item with
  | Message _ role [InputText text] _ =>
      bool_decide (role = lit "developer") && existsb (fun usage_hint_text => bool_decide (usage_hint_text = text)) usage_hint_texts
  | _ => false
  end.

(** [codex-rs/core/src/context_manager/updates.rs:200-202 build_developer_update_item] *)
Definition build_developer_update_item (text_sections : list str) : option ResponseItem :=
  if bool_decide (text_sections = []) then None
  else Some (Message None (lit "developer") (map InputText text_sections) None).

(** [codex-rs/core/src/agent/control/spawn.rs:445-475 AgentControl::spawn_forked_thread] the hints of the parent that are
    left out; only the second version of agents has them. *)
Definition usage_hints_to_filter (v2 : bool) (root_agent_usage_hint_text subagent_usage_hint_text : option str) : list str :=
  if v2 then option_list root_agent_usage_hint_text ++ option_list subagent_usage_hint_text else [].

(** A summary without the hints. *)
Definition filter_compacted (hints : list str) (item : Rollout.RolloutItem) : Rollout.RolloutItem :=
  match item with
  | Rollout.Compacted c =>
      Rollout.Compacted (Rollout.CompactedOf (Rollout.ci_message c)
        (List.filter (fun i => negb (is_multi_agent_v2_usage_hint_message i hints)) <$> Rollout.ci_replacement_history c))
  | _ => item
  end.

(** What is kept of an item of the parent. *)
Definition kept_item (preserve : bool) (hints : list str) (item : Rollout.RolloutItem) : bool :=
  keep_forked_rollout_item item preserve &&
  match item with Rollout.Response r => negb (is_multi_agent_v2_usage_hint_message r hints) | _ => true end.

Section forking.
Context (from_xml_str : str -> option (str * str)) (new_uuid : str) (inter_agent_json : str -> option Rollout.InterAgentCommunication).

(** [codex-rs/core/src/agent/control/spawn.rs:441-511 AgentControl::spawn_forked_thread] from the items of the parent to
    those of the fork; [None] when a slice would be out of range. *)
Definition forked_rollout_items (fork_mode : SpawnAgentForkMode) (v2 : bool) (hints : list str) (usage_hint_enabled : bool)
    (subagent_usage_hint_text : option str) (items : list Rollout.RolloutItem) : option (list Rollout.RolloutItem) :=
  items ← match fork_mode with
          | LastNTurns n => Rollout.truncate_rollout_to_last_n_fork_turns from_xml_str new_uuid inter_agent_json items n
          | FullHistory => Some items
          end;
  let preserve := match fork_mode with FullHistory => true | _ => false end in
  let items := map (filter_compacted hints) (List.filter (kept_item preserve hints) items) in
  Some (if preserve && v2 && usage_hint_enabled
        then match subagent_usage_hint_text with
             | Some text => items ++ option_list (Rollout.Response <$> build_developer_update_item [text])
             | None => items
             end
        else items).

(** What may stand in the history of a fork. *)
Definition fork_item_ok (preserve : bool) (hints : list str) (item : Rollout.RolloutItem) : Prop :=
  match item with
  | Rollout.Response (Message id role content phase) =>
      (role = lit "system" \/ role = lit "developer" \/ role = lit "user" \/ (role = lit "assistant" /\ phase = Some FinalAnswer)) /\
      is_multi_agent_v2_usage_hint_message (Message id role content phase) hints = false
  | Rollout.Response _ => False
  | Rollout.TurnContext _ => preserve = true
  | Rollout.Compacted c => forall l i, Rollout.ci_replacement_history c = Some l -> i ∈ l -> is_multi_agent_v2_usage_hint_message i hints = false
  | _ => True
  end.

Lemma kept_item_ok preserve hints item : kept_item preserve hints item = true -> fork_item_ok preserve hints (filter_compacted hints item).
Proof.
  unfold kept_item, keep_forked_rollout_item. intros [Hk Hh]%andb_true_iff.
  destruct item as [|r|c|t|m]; cbn; [done| | |done|done].
  - destruct r; try done. apply negb_true_iff in Hh. split; [|done].
    repeat case_bool_decide; try done; auto. destruct phase as [[]|]; try done. auto 10.
  - intros l i. rewrite fmap_Some. intros (l0 & _ & ->) Hi. apply list_elem_of_In, filter_In in Hi as [_ Hi]. by apply negb_true_iff.
Qed.

(** A forked agent starts from the messages of its parent that a person, the system or a final answer wrote, in their
    order: no tool call, reasoning or comment is among them, no hint for agents of the parent, neither there nor in a
    summary; the settings of turns are kept only with the full history; and the agent gets its own hint, once, at the
    end. *)
Theorem fork_history_clean fork_mode v2 hints enabled hint items out :
  forked_rollout_items fork_mode v2 hints enabled hint items = Some out ->
  let preserve := match fork_mode with FullHistory => true | _ => false end in
  exists kept own, out = map (filter_compacted hints) kept ++ own /\ kept `sublist_of` items /\
    Forall (fork_item_ok preserve hints) (map (filter_compacted hints) kept) /\
    (own = [] \/ exists text, hint = Some text /\ preserve = true /\ v2 = true /\ enabled = true /\
                 own = [Rollout.Response (Message None (lit "developer") [InputText text] None)]) /\
    (fork_mode = FullHistory -> kept = List.filter (kept_item true hints) items).
Proof.
  unfold forked_rollout_items. set (preserve := match fork_mode with FullHistory => true | _ => false end).
  destruct (match fork_mode with
            | LastNTurns n => Rollout.truncate_rollout_to_last_n_fork_turns from_xml_str new_uuid inter_agent_json items n
            | FullHistory => Some items
            end) as [items'|] eqn:E; [|done]. cbn [mbind option_bind].
  intros [= <-]. cbv zeta. exists (List.filter (kept_item preserve hints) items').
  assert (Hsub : items' `sublist_of` items).
  { destruct fork_mode as [|n]; [by injection E as ->|]. unfold Rollout.truncate_rollout_to_last_n_fork_turns in E.
    destruct (n =? 0); [injection E as <-; apply sublist_nil_l|].
    destruct (Rollout.nth_from_end _ _); [|injection E as <-; apply sublist_nil_l].
    unfold Rollout.slice_from in E. case_match; [|done]. injection E as <-. apply sublist_drop. }
  assert (Hf : Forall (fork_item_ok preserve hints) (map (filter_compacted hints) (List.filter (kept_item preserve hints) items'))).
  { apply Forall_forall. intros x (i & <- & [_ Hi]%filter_In)%list_elem_of_In%in_map_iff. by apply kept_item_ok. }
  destruct (preserve && v2 && enabled) eqn:Hp.
  - apply andb_true_iff in Hp as [[Hp Hv]%andb_true_iff He]. destruct hint as [text|].
    + exists [Rollout.Response (Message None (lit "developer") [InputText text] None)]. split_and!; [done| |done| |].
      * etrans; [apply filter_sublist|done].
      * right. by exists text.
      * intros ->. by injection E as ->.
    + exists []. rewrite app_nil_r. split_and!; [done| |done|by left|intros ->; by injection E as ->].
      etrans; [apply filter_sublist|done].
  - exists []. rewrite app_nil_r. split_and!; [done| |done|by left|intros ->; by injection E as ->].
    etrans; [apply filter_sublist|done].
Qed.
End forking.

End AgentSpawn.
