(* ===== verification/ShellEnvironment.v ===== *)
(** * The environment of commands: protocol/src/shell_environment.rs, config/src/types.rs, core/src/exec_env.rs,
      core/src/unified_exec/process_manager.rs, exec-server/src/local_process.rs

    Which variables of the process a command sees: the policy says what is inherited, left out, set and let through;
    commands of unified exec get variables of their own; and a command that runs on an exec server gets the policy, to be
    applied to the variables of the server, with the variables that differ from what the policy gives locally.  Wildcard
    patterns are a parameter: how one is made, what it matches and how it is printed. *)

From S2P Require Import Prelude Text.

Module ShellEnvironment.

(** ** Policies *)

(** [codex-rs/protocol/src/config_types.rs:188-199 ShellEnvironmentPolicyInherit] *)
Inductive ShellEnvironmentPolicyInherit := InheritCore | InheritAll | InheritNone.

(** [codex-rs/protocol/src/shell_environment.rs:6-6 CODEX_THREAD_ID_ENV_VAR] *)
Definition CODEX_THREAD_ID_ENV_VAR : str := lit "CODEX_THREAD_ID".

(** [codex-rs/protocol/src/shell_environment.rs:113-116 UNIX_CORE_ENV_VARS] *)
Definition UNIX_CORE_ENV_VARS : list str :=
  map lit ["PATH"; "SHELL"; "TMPDIR"; "TEMP"; "TMP"; "HOME"; "LANG"; "LC_ALL"; "LC_CTYPE"; "LOGNAME"; "USER"]%string.

(** [codex-rs/protocol/src/shell_environment.rs:119-149 WINDOWS_CORE_ENV_VARS] *)
Definition WINDOWS_CORE_ENV_VARS : list str :=
  map lit ["PATH"; "PATHEXT"; "SHELL"; "COMSPEC"; "SYSTEMROOT"; "SYSTEMDRIVE"; "USERNAME"; "USERDOMAIN"; "USERPROFILE";
           "HOMEDRIVE"; "HOMEPATH"; "PROGRAMFILES"; "PROGRAMFILES(X86)"; "PROGRAMW6432"; "PROGRAMDATA"; "LOCALAPPDATA";
           "APPDATA"; "TEMP"; "TMP"; "TMPDIR"; "POWERSHELL"; "PWSH"]%string.

Definition eq_ignore_ascii_case (a b : str) : bool := bool_decide (to_ascii_lowercase a = to_ascii_lowercase b).

(** [vars.into_iter().collect::<HashMap<_, _>>()]: the last value of a name is kept. *)
Definition collect_vars (vars : list (str * str)) : gmap str str := foldl (fun env kv => <[kv.1 := kv.2]> env) ∅ vars.

Section environment.
Context {Pattern : Type} (new_case_insensitive : str -> Pattern) (matches : Pattern -> str -> bool) (show_pattern : Pattern -> str).

(** [codex-rs/protocol/src/config_types.rs:211-230 ShellEnvironmentPolicy] *)
Record ShellEnvironmentPolicy := mkPolicy {
  inherit : ShellEnvironmentPolicyInherit;
  ignore_default_excludes : bool;
  exclude : list Pattern;
  set_vars : gmap str str;
  include_only : list Pattern;
  use_profile : bool
}.

(** [codex-rs/protocol/src/config_types.rs:233-242 ShellEnvironmentPolicy::default] *)
Definition default_policy : ShellEnvironmentPolicy := mkPolicy InheritAll true [] ∅ [] false.

(** [codex-rs/config/src/types.rs:1061-1075 ShellEnvironmentPolicyToml] *)
Record ShellEnvironmentPolicyToml := mkPolicyToml {
  toml_inherit : option ShellEnvironmentPolicyInherit;
  toml_ignore_default_excludes : option bool;
  toml_exclude : option (list str);
  toml_set : option (gmap str str);
  toml_include_only : option (list str);
  toml_experimental_use_profile : option bool
}.

(** [codex-rs/config/src/types.rs:1078-1105 ShellEnvironmentPolicy::from] *)
Definition policy_from_toml (toml : ShellEnvironmentPolicyToml) : ShellEnvironmentPolicy :=
  mkPolicy (default InheritAll (toml_inherit toml)) (default true (toml_ignore_default_excludes toml))
    (map new_case_insensitive (default [] (toml_exclude toml))) (default ∅ (toml_set toml))
    (map new_case_insensitive (default [] (toml_include_only toml))) (default false (toml_experimental_use_profile toml)).

(** ** The environment of a command *)

Definition core_env_vars (windows : bool) : list str := if windows then WINDOWS_CORE_ENV_VARS else UNIX_CORE_ENV_VARS.
Definition is_core (windows : bool) (k : str) : bool := existsb (fun allowed => eq_ignore_ascii_case allowed k) (core_env_vars windows).
Definition matches_any (k : str) (patterns : list Pattern) : bool := existsb (fun pattern => matches pattern k) patterns.
Definition default_excludes : list Pattern := map new_case_insensitive [lit "*KEY*"; lit "*SECRET*"; lit "*TOKEN*"].

(** [HashMap::retain]. *)
Definition retain (p : str -> bool) (env : gmap str str) : gmap str str := filter (fun kv => p kv.1 = true) env.

(** [codex-rs/protocol/src/shell_environment.rs:46-110 populate_env] *)
Definition populate_env (windows : bool) (vars : list (str * str)) (policy : ShellEnvironmentPolicy) (thread_id : option str) : gmap str str :=
  let env_map := match inherit policy with
                 | InheritAll => collect_vars vars
                 | InheritNone => ∅
                 | InheritCore => collect_vars (List.filter (fun kv => is_core windows kv.1) vars)
                 end in
  let env_map := if negb (ignore_default_excludes policy) then retain (fun k => negb (matches_any k default_excludes)) env_map else env_map in
  let env_map := match exclude policy with [] => env_map | _ => retain (fun k => negb (matches_any k (exclude policy))) env_map end in
  let env_map := set_vars policy ∪ env_map in
  let env_map := match include_only policy with [] => env_map | _ => retain (fun k => matches_any k (include_only policy)) env_map end in
  match thread_id with
  | Some thread_id => <[CODEX_THREAD_ID_ENV_VAR := thread_id]> env_map
  | None => env_map
  end.

(** [codex-rs/protocol/src/shell_environment.rs:17-44 create_env_from_vars] *)
Definition create_env_from_vars (windows : bool) (vars : list (str * str)) (policy : ShellEnvironmentPolicy) (thread_id : option str) : gmap str str :=
  let env_map := populate_env windows vars policy thread_id in
  if windows
  then if existsb (fun k => eq_ignore_ascii_case k (lit "PATHEXT")) (map_to_list env_map).*1 then env_map
       else <[lit "PATHEXT" := lit ".COM;.EXE;.BAT;.CMD"]> env_map
  else env_map.

(** ** Commands of unified exec *)

(** [codex-rs/core/src/unified_exec/process_manager.rs:62-73 UNIFIED_EXEC_ENV] *)
Definition UNIFIED_EXEC_ENV : list (str * str) :=
  [(lit "NO_COLOR", lit "1"); (lit "TERM", lit "dumb"); (lit "LANG", lit "C.UTF-8"); (lit "LC_CTYPE", lit "C.UTF-8");
   (lit "LC_ALL", lit "C.UTF-8"); (lit "COLORTERM", []); (lit "PAGER", lit "cat"); (lit "GIT_PAGER", lit "cat");
   (lit "GH_PAGER", lit "cat"); (lit "CODEX_CI", lit "1")].

(** [codex-rs/core/src/unified_exec/process_manager.rs:96-101 apply_unified_exec_env] *)
Definition apply_unified_exec_env (env : gmap str str) : gmap str str := foldl (fun env kv => <[kv.1 := kv.2]> env) env UNIFIED_EXEC_ENV.

(** [codex-rs/exec-server/src/protocol.rs:105-111 ExecEnvPolicy] *)
Record ExecEnvPolicy := mkExecPolicy {
  exec_inherit : ShellEnvironmentPolicyInherit;
  exec_ignore_default_excludes : bool;
  exec_exclude : list str;
  exec_set : gmap str str;
  exec_include_only : list str
}.

(** [codex-rs/core/src/unified_exec/process_manager.rs:103-121 exec_env_policy_from_shell_policy] *)
Definition exec_env_policy_from_shell_policy (policy : ShellEnvironmentPolicy) : ExecEnvPolicy :=
  mkExecPolicy (inherit policy) (ignore_default_excludes policy) (map show_pattern (exclude policy)) (set_vars policy)
    (map show_pattern (include_only policy)).

(** [codex-rs/exec-server/src/local_process.rs:423-440 shell_environment_policy] *)
Definition shell_environment_policy (env_policy : ExecEnvPolicy) : ShellEnvironmentPolicy :=
  mkPolicy (exec_inherit env_policy) (exec_ignore_default_excludes env_policy)
    (map new_case_insensitive (exec_exclude env_policy)) (exec_set env_policy)
    (map new_case_insensitive (exec_include_only env_policy)) false.

(** [codex-rs/core/src/unified_exec/process_manager.rs:123-132 env_overlay_for_exec_server] *)
Definition env_overlay_for_exec_server (request_env local_policy_env : gmap str str) : gmap str str :=
  filter (fun kv => local_policy_env !! kv.1 <> Some kv.2) request_env.

(** [codex-rs/core/src/unified_exec/process_manager.rs:134-148 exec_server_env_for_request] [config] is the policy with the
    environment it gives locally. *)
Definition exec_server_env_for_request (request_env : gmap str str) (config : option (ExecEnvPolicy * gmap str str)) : option ExecEnvPolicy * gmap str str :=
  match config with
  | Some (policy, local_policy_env) => (Some policy, env_overlay_for_exec_server request_env local_policy_env)
  | None => (None, request_env)
  end.

(** [codex-rs/exec-server/src/local_process.rs:412-421 child_env] with the variables of the server. *)
Definition child_env (windows : bool) (server_vars : list (str * str)) (params : option ExecEnvPolicy * gmap str str) : gmap str str :=
  match params.1 with
  | None => params.2
  | Some env_policy => params.2 ∪ create_env_from_vars windows server_vars (shell_environment_policy env_policy) None
  end.

(** [codex-rs/core/src/unified_exec/process_manager.rs:1128-1149 open_session_with_sandbox] the environment of the request, and
    the policy with what it gives locally. *)
Definition session_env (windows : bool) (vars : list (str * str)) (policy : ShellEnvironmentPolicy) (thread_id : str)
    : gmap str str * (ExecEnvPolicy * gmap str str) :=
  let local_policy_env := create_env_from_vars windows vars policy None in
  (apply_unified_exec_env (<[CODEX_THREAD_ID_ENV_VAR := thread_id]> local_policy_env),
   (exec_env_policy_from_shell_policy policy, local_policy_env)).

(** ** What a variable is *)

(** The last value of a name in a list of variables. *)
Definition last_value (vars : list (str * str)) (k : str) : option str :=
  snd <$> List.find (fun kv => bool_decide (kv.1 = k)) (rev vars).

Lemma collect_vars_lookup vars k : collect_vars vars !! k = last_value vars k.
Proof.
  unfold collect_vars, last_value. induction vars as [|[k' v] vars IH] using rev_ind; [done|].
  rewrite foldl_snoc, rev_unit. cbn [List.find fst snd]. destruct (decide (k' = k)) as [->|Hk].
  - by rewrite lookup_insert_eq, bool_decide_true.
  - by rewrite lookup_insert_ne, bool_decide_false.
Qed.

Lemma last_value_filter (p : str -> bool) vars k : last_value (List.filter (fun kv => p kv.1) vars) k = if p k then last_value vars k else None.
Proof.
  unfold last_value. induction vars as [|[k' v] vars IH] using rev_ind; [by destruct (p k)|].
  rewrite List.filter_app, !rev_app_distr. cbn [List.filter fst]. destruct (p k') eqn:Hp; cbn [rev app List.find fst].
  - case_bool_decide as Hk; [subst k'; by rewrite Hp|done].
  - rewrite IH. case_bool_decide as Hk; [subst k'; by rewrite Hp|done].
Qed.

Lemma retain_lookup (p : str -> bool) (env : gmap str str) k : retain p env !! k = if p k then env !! k else None.
Proof.
  unfold retain. rewrite map_lookup_filter. destruct (env !! k) as [v|]; cbn; [|by destruct (p k)].
  by destruct (p k).
Qed.

(** What a variable is inherited as. *)
Definition inherited (windows : bool) (vars : list (str * str)) (policy : ShellEnvironmentPolicy) (k : str) : option str :=
  match inherit policy with
  | InheritAll => last_value vars k
  | InheritNone => None
  | InheritCore => if is_core windows k then last_value vars k else None
  end.

(** Whether a name matches one of the patterns for credentials. *)
Definition credential (k : str) : bool :=
  matches (new_case_insensitive (lit "*KEY*")) k || matches (new_case_insensitive (lit "*SECRET*")) k ||
  matches (new_case_insensitive (lit "*TOKEN*")) k.

(** Whether a variable that is inherited is left out. *)
Definition left_out (policy : ShellEnvironmentPolicy) (k : str) : bool :=
  negb (ignore_default_excludes policy) && credential k || matches_any k (exclude policy).

(** A pattern with a star on either side of a word of letters finds the word anywhere in a name, whatever the case, as the
    wildmatch crate documents. *)
Definition finds_words : Prop :=
  forall word k, Forall (fun c => is_ascii_upper c || is_ascii_lower c = true) word ->
    matches (new_case_insensitive (lit "*" ++ word ++ lit "*")) k = contains_sub (to_ascii_lowercase word) (to_ascii_lowercase k).

(** Whether a variable that the policy sets or inherits is let through. *)
Definition let_through (policy : ShellEnvironmentPolicy) (k : str) : bool :=
  match include_only policy with [] => true | _ => matches_any k (include_only policy) end.

Lemma credential_words k :
  finds_words ->
  contains_sub (lit "key") (to_ascii_lowercase k) = true \/ contains_sub (lit "secret") (to_ascii_lowercase k) = true \/
    contains_sub (lit "token") (to_ascii_lowercase k) = true ->
  credential k = true.
Proof.
  intros Hw Hname. unfold credential.
  assert (H1 : matches (new_case_insensitive (lit "*KEY*")) k = contains_sub (lit "key") (to_ascii_lowercase k))
    by (apply (Hw (lit "KEY")); by repeat constructor).
  assert (H2 : matches (new_case_insensitive (lit "*SECRET*")) k = contains_sub (lit "secret") (to_ascii_lowercase k))
    by (apply (Hw (lit "SECRET")); by repeat constructor).
  assert (H3 : matches (new_case_insensitive (lit "*TOKEN*")) k = contains_sub (lit "token") (to_ascii_lowercase k))
    by (apply (Hw (lit "TOKEN")); by repeat constructor).
  rewrite H1, H2, H3.
  destruct Hname as [-> | [-> | ->]]; by rewrite ?orb_true_r.
Qed.

Lemma populate_env_lookup windows vars policy thread_id k :
  populate_env windows vars policy thread_id !! k =
  match thread_id with
  | Some t => if bool_decide (k = CODEX_THREAD_ID_ENV_VAR) then Some t else populate_env windows vars policy None !! k
  | None => if let_through policy k
            then match set_vars policy !! k with
                 | Some v => Some v
                 | None => if left_out policy k then None else inherited windows vars policy k
                 end
            else None
  end.
Proof.
  destruct thread_id as [t|].
  { unfold populate_env. case_bool_decide as Hk; [subst k; by rewrite lookup_insert_eq|by rewrite lookup_insert_ne]. }
  unfold populate_env, let_through.
  assert (Hin : match inherit policy with
                | InheritAll => collect_vars vars
                | InheritNone => ∅
                | InheritCore => collect_vars (List.filter (fun kv => is_core windows kv.1) vars)
                end !! k = inherited windows vars policy k).
  { unfold inherited. destruct (inherit policy); rewrite ?collect_vars_lookup; [by apply last_value_filter|done|done]. }
  set (env0 := match inherit policy with InheritAll => _ | _ => _ end) in *.
  set (env1 := if negb _ then _ else env0). set (env2 := match exclude policy with [] => env1 | _ => _ end).
  assert (H2 : env2 !! k = if left_out policy k then None else inherited windows vars policy k).
  { subst env2 env1. unfold left_out. rewrite <- Hin.
    assert (Hd : (if negb (ignore_default_excludes policy) then retain (fun k => negb (matches_any k default_excludes)) env0 else env0) !! k =
                 if negb (ignore_default_excludes policy) && credential k then None else env0 !! k).
    { assert (Hc : matches_any k default_excludes = credential k).
      { unfold matches_any, default_excludes, credential. cbn. by rewrite orb_false_r, orb_assoc. }
      rewrite <- Hc. destruct (ignore_default_excludes policy); cbn [negb andb]; [done|]. rewrite retain_lookup. by destruct (matches_any k _). }
    destruct (exclude policy) as [|p ps]; [change (matches_any k []) with false; by rewrite orb_false_r|].
    rewrite retain_lookup, Hd. by destruct (matches_any k (p :: ps)), (_ && _). }
  assert (H3 : (set_vars policy ∪ env2) !! k = match set_vars policy !! k with
     | Some v => Some v | None => if left_out policy k then None else inherited windows vars policy k end).
  { rewrite lookup_union, H2. destruct (set_vars policy !! k); [by rewrite union_Some_l|by rewrite option_union_left_id]. }
  destruct (include_only policy); [exact H3|]. rewrite retain_lookup, H3. done.
Qed.

(** C21: What a variable is for a command, on a system other than Windows: the identifier of the thread under its own
    name; otherwise nothing, when the policy lets only some variables through and not this one; otherwise the value
    the policy sets; otherwise what is inherited, unless it is left out: by a pattern of the policy, or, when the
    default exclusions apply, by one of [*KEY*], [*SECRET*] and [*TOKEN*]. So with the default exclusions, and
    wildcards that mean what they are documented to mean, a variable whose name contains key, secret or token in any
    case reaches a command only if the policy sets it (the identifier of the thread aside). *)
Theorem command_env_decided vars policy thread_id k :
  create_env_from_vars false vars policy thread_id !! k =
    (if bool_decide (thread_id <> None /\ k = CODEX_THREAD_ID_ENV_VAR) then thread_id
     else if let_through policy k
          then match set_vars policy !! k with
               | Some v => Some v
               | None => if left_out policy k then None else inherited false vars policy k
               end
          else None) /\
  (finds_words -> ignore_default_excludes policy = false -> k <> CODEX_THREAD_ID_ENV_VAR ->
   contains_sub (lit "key") (to_ascii_lowercase k) = true \/ contains_sub (lit "secret") (to_ascii_lowercase k) = true \/
     contains_sub (lit "token") (to_ascii_lowercase k) = true ->
   forall v, create_env_from_vars false vars policy thread_id !! k = Some v -> set_vars policy !! k = Some v).
Proof.
  assert (H : create_env_from_vars false vars policy thread_id !! k =
    (if bool_decide (thread_id <> None /\ k = CODEX_THREAD_ID_ENV_VAR) then thread_id
     else if let_through policy k
          then match set_vars policy !! k with
               | Some v => Some v
               | None => if left_out policy k then None else inherited false vars policy k
               end
          else None)).
  { unfold create_env_from_vars. rewrite populate_env_lookup. destruct thread_id as [t|].
    - case_bool_decide as Hk; [by rewrite bool_decide_true|]. rewrite bool_decide_false by naive_solver.
      by rewrite populate_env_lookup.
    - by rewrite bool_decide_false by naive_solver. }
  split; [exact H|]. intros Hw Hi Hk Hname v. rewrite H, bool_decide_false by naive_solver. destruct (let_through policy k); [|done].
  destruct (set_vars policy !! k); [done|]. unfold left_out. by rewrite Hi, (credential_words k Hw Hname).
Qed.

(** ** Commands on an exec server *)

(** Policies that decide alike. *)
Lemma populate_env_ext windows vars p q :
  inherit p = inherit q -> ignore_default_excludes p = ignore_default_excludes q -> set_vars p = set_vars q ->
  (forall k, matches_any k (exclude p) = matches_any k (exclude q)) -> (forall k, let_through p k = let_through q k) ->
  populate_env windows vars p None = populate_env windows vars q None.
Proof.
  intros H1 H2 H3 H4 H5. apply map_eq. intros k. rewrite !populate_env_lookup. unfold left_out, inherited.
  by rewrite H1, H2, H3, H4, H5.
Qed.

(** A pattern of a policy says the same after it was printed and read. *)
Definition readable (policy : ShellEnvironmentPolicy) : Prop :=
  Forall (fun p => forall k, matches (new_case_insensitive (show_pattern p)) k = matches p k) (exclude policy ++ include_only policy).

Lemma matches_any_read ps k :
  Forall (fun p => forall k, matches (new_case_insensitive (show_pattern p)) k = matches p k) ps ->
  matches_any k (map new_case_insensitive (map show_pattern ps)) = matches_any k ps.
Proof. induction 1 as [|p ps Hp _ IH]; [done|]. unfold matches_any in *. cbn. by rewrite Hp, IH. Qed.

Lemma server_policy_same windows vars policy : readable policy ->
  create_env_from_vars windows vars (shell_environment_policy (exec_env_policy_from_shell_policy policy)) None =
  create_env_from_vars windows vars policy None.
Proof.
  intros [He Hi]%Forall_app. unfold create_env_from_vars.
  rewrite (populate_env_ext windows vars _ policy); [done|done|done|done| |].
  - intros k. by apply matches_any_read.
  - intros k. unfold let_through. cbn. pose proof (matches_any_read _ k Hi) as Hm. destruct (include_only policy); [done|exact Hm].
Qed.

Lemma apply_unified_exec_env_lookup (env : gmap str str) (k : str) :
  apply_unified_exec_env env !! k = match last_value UNIFIED_EXEC_ENV k with Some v => Some v | None => env !! k end.
Proof.
  unfold apply_unified_exec_env, last_value. induction UNIFIED_EXEC_ENV as [|[k' v] vars IH] using rev_ind; [done|].
  rewrite foldl_snoc, rev_unit. cbn [List.find fst snd]. destruct (decide (k' = k)) as [->|Hk].
  - by rewrite lookup_insert_eq, bool_decide_true.
  - by rewrite lookup_insert_ne, bool_decide_false.
Qed.

Lemma overlay_lookup (request local : gmap str str) (k : str) :
  env_overlay_for_exec_server request local !! k = if bool_decide (request !! k = local !! k) then None else request !! k.
Proof.
  unfold env_overlay_for_exec_server. rewrite map_lookup_filter. destruct (request !! k) as [v|] eqn:E; cbn [mbind option_bind].
  - case_bool_decide as Hb; [by rewrite option_guard_False by (intros Hn; by apply Hn)|].
    rewrite option_guard_True; [done|]. cbn. congruence.
  - by case_bool_decide.
Qed.

(** C22: A command of unified exec has the same environment on an exec server with the same variables as in this process,
    when the patterns of its policy survive printing; and on any server each variable that the request gives a value
    other than the policy gives it here has that value. *)
Theorem exec_server_env_faithful windows vars server_vars policy thread_id : readable policy ->
  let '(request, config) := session_env windows vars policy thread_id in
  child_env windows vars (exec_server_env_for_request request (Some config)) = request /\
  (forall k v, request !! k = Some v -> create_env_from_vars windows vars policy None !! k <> Some v ->
     child_env windows server_vars (exec_server_env_for_request request (Some config)) !! k = Some v).
Proof.
  intros Hr. unfold session_env. set (local := create_env_from_vars windows vars policy None).
  set (request := apply_unified_exec_env _). cbv beta iota. unfold exec_server_env_for_request, child_env. cbn [fst snd].
  assert (Hsub : forall k, request !! k = None -> local !! k = None).
  { intros k. subst request. rewrite apply_unified_exec_env_lookup. destruct (last_value _ k); [done|].
    destruct (decide (CODEX_THREAD_ID_ENV_VAR = k)) as [->|Hk]; [by rewrite lookup_insert_eq|by rewrite lookup_insert_ne]. }
  split.
  - rewrite server_policy_same by done. fold local. apply map_eq. intros k. rewrite lookup_union, overlay_lookup.
    case_bool_decide as Hk; [by rewrite Hk, option_union_left_id|].
    destruct (request !! k) eqn:E; [by rewrite union_Some_l|]. by rewrite Hsub in Hk.
  - intros k v Hk Hl. rewrite lookup_union, overlay_lookup, bool_decide_false by congruence. by rewrite Hk, union_Some_l.
Qed.

End environment.

#[global] Arguments ShellEnvironmentPolicy : clear implicits.

(** ** Examples *)

(** A matcher of patterns with any number of characters for a star and one for a question mark, whatever the case. *)
Fixpoint wild (p : str) : str -> bool :=
  match p with
  | [] => fun s => bool_decide (s = [])
  | c :: p =>
      if (c =? 42)%N
      then fix star (s : str) : bool := wild p s || match s with [] => false | _ :: s => star s end
      else fun s => match s with
                    | [] => false
                    | x :: s => ((c =? 63)%N || (to_ascii_lower_char c =? to_ascii_lower_char x)%N) && wild p s
                    end
  end.

Definition demo_policy : ShellEnvironmentPolicy str :=
  mkPolicy InheritAll false [lit "AWS_*"] {[lit "EDITOR" := lit "vi"]} [] false.

Lemma wild_star p s : wild (42%N :: p) s = wild p s || match s with [] => false | _ :: s => wild (42%N :: p) s end.
Proof. by destruct s. Qed.

Lemma wild_word word s :
  Forall (fun c => is_ascii_upper c || is_ascii_lower c = true) word ->
  wild (word ++ lit "*") s = starts_with (to_ascii_lowercase word) (to_ascii_lowercase s).
Proof.
  intros Hw. revert s. induction Hw as [|c word Hc _ IH]; intros s.
  - cbn [app]. induction s as [|x s IH]; [done|]. change (lit "*") with [42%N] in *. rewrite wild_star, IH.
    by rewrite orb_true_r.
  - cbn [app]. assert (Hne : c <> 42%N /\ c <> 63%N) by (split; intros ->; by vm_compute in Hc).
    cbn [wild]. rewrite (proj2 (N.eqb_neq c 42)), (proj2 (N.eqb_neq c 63)) by tauto. cbn [orb].
    destruct s as [|x s]; [done|]. rewrite IH. unfold starts_with.
    change (strip_prefix (to_ascii_lowercase (c :: word)) (to_ascii_lowercase (x :: s))) with
      (if (to_ascii_lower_char c =? to_ascii_lower_char x)%N
       then strip_prefix (to_ascii_lowercase word) (to_ascii_lowercase s) else None).
    by destruct (to_ascii_lower_char c =? to_ascii_lower_char x)%N.
Qed.

Lemma wild_finds_words : finds_words (fun p => p) wild.
Proof.
  intros word k Hw. change (lit "*" ++ word ++ lit "*") with (42%N :: (word ++ lit "*")).
  induction k as [|x k IH]; rewrite wild_star, (wild_word word) by done; unfold contains_sub.
  - cbn [to_ascii_lowercase map find_sub]. by destruct (starts_with _ _).
  - rewrite IH. unfold contains_sub.
    change (to_ascii_lowercase (x :: k)) with (to_ascii_lower_char x :: to_ascii_lowercase k). cbn [find_sub].
    destruct (starts_with _ _); [done|]. cbn [orb]. by destruct (find_sub _ _).
Qed.

Lemma command_env_decided_witness :
  ~ exists v, create_env_from_vars (fun p => p) wild false [(lit "HOME", lit "/home/u"); (lit "my_Secret", lit "x")] demo_policy
      (Some (lit "t")) !! lit "my_Secret" = Some v.
Proof.
  intros [v Hv].
  destruct (command_env_decided (fun p => p) wild (fun p => p) [(lit "HOME", lit "/home/u"); (lit "my_Secret", lit "x")] demo_policy (Some (lit "t"))
              (lit "my_Secret")) as [_ H].
  assert (Hset : set_vars demo_policy !! lit "my_Secret" = Some v).
  { apply H; [apply wild_finds_words|reflexivity|discriminate|right; left; reflexivity|exact Hv]. }
  vm_compute in Hset. discriminate.
Defined.

Lemma exec_server_env_faithful_witness :
  child_env (fun p => p) wild false [(lit "HOME", lit "/home/u"); (lit "API_KEY", lit "x")]
    (exec_server_env_for_request
       (session_env (fun p => p) wild (fun p => p) false [(lit "HOME", lit "/home/u"); (lit "API_KEY", lit "x")] demo_policy (lit "t")).1
       (Some (session_env (fun p => p) wild (fun p => p) false [(lit "HOME", lit "/home/u"); (lit "API_KEY", lit "x")] demo_policy (lit "t")).2))
  = (session_env (fun p => p) wild (fun p => p) false [(lit "HOME", lit "/home/u"); (lit "API_KEY", lit "x")] demo_policy (lit "t")).1.
Proof.
  apply (exec_server_env_faithful (fun p => p) wild (fun p => p) false [(lit "HOME", lit "/home/u"); (lit "API_KEY", lit "x")] []
           demo_policy (lit "t")).
  apply Forall_forall. done.
Defined.

(** A variable that the policy leaves out, one that it sets and one that is inherited. *)
Example secrets_left_out :
  let env := create_env_from_vars (fun p => p) wild false [(lit "HOME", lit "/home/u"); (lit "Api_Key", lit "x"); (lit "AWS_REGION", lit "eu")] demo_policy None in
  env !! lit "Api_Key" = None /\ env !! lit "AWS_REGION" = None /\ env !! lit "EDITOR" = Some (lit "vi") /\ env !! lit "HOME" = Some (lit "/home/u").
Proof. vm_compute. done. Qed.

(** A variable that unified exec sets to what this process already has is not sent along, so that a server keeps its own
    value of it. *)
Example server_keeps_its_locale :
  let '(request, config) := session_env (fun p => p) wild (fun p => p) false [(lit "LANG", lit "C.UTF-8")] (default_policy : ShellEnvironmentPolicy str) (lit "t") in
  request !! lit "LANG" = Some (lit "C.UTF-8") /\
  child_env (fun p => p) wild false [(lit "LANG", lit "de_DE.UTF-8")] (exec_server_env_for_request request (Some config)) !! lit "LANG" =
    Some (lit "de_DE.UTF-8").
Proof. vm_compute. done. Qed.

End ShellEnvironment.
