(* ===== verification/NetworkApproval.v ===== *)
(** * Approving network access: core/src/tools/network_approval.rs

    The service a session shares between the tool calls that run under its network proxy: which calls are active and
    what became of them, the hosts that were approved or denied for the session, and the requests that wait for an
    approval.  Many requests are handled at once, and each gives the locks back between its accesses, so a function of
    the service is a program of accesses ([prog]): an access to the service is made under one lock and is answered by
    [serve]; an access to the rest of the session (the hooks, the user, the reviewer) is answered by it.  How programs
    interleave is in NetworkApprovalRuns.  Also core/src/network_policy_decision.rs.

    A handle to a pending approval ([Arc]) is its number in the order of creation, and a cancellation token its
    number. *)

From S2P Require Import Prelude Text AbsolutePath Truncate ExecPolicy Permissions WritableRoots SandboxTransforms ExecApproval HostPatterns NetworkState Requirements HookOutput.

Module NetworkApproval.
Import AbsolutePath Truncate.

(** The quotation mark. *)
Definition QUOTE : char := 34%N.

(** ** Requests and decisions *)

(** [codex-rs/network-proxy/src/network_policy.rs:23-28 NetworkProtocol] *)
Inductive NetworkProtocol := ProxyHttp | ProxyHttpsConnect | ProxySocks5Tcp | ProxySocks5Udp.

(** [codex-rs/protocol/src/approvals.rs:62-70 NetworkApprovalProtocol] *)
Inductive NetworkApprovalProtocol := Http | Https | Socks5Tcp | Socks5Udp.

(** [codex-rs/network-proxy/src/network_policy.rs:78-86 NetworkPolicyRequest] *)
Record NetworkPolicyRequest := mkRequest {
  r_protocol : NetworkProtocol;
  r_host : str;
  r_port : N;
  r_client_addr : option str;
  r_method : option str;
  r_command : option str;
  r_exec_policy_hint : option str
}.

Abbreviation NetworkDecision := NetworkState.NetworkDecision (only parsing).
Abbreviation NetworkAllow := NetworkState.NetworkAllow (only parsing).

(** [codex-rs/network-proxy/src/network_policy.rs:132-134 NetworkDecision::deny] *)
Definition deny (reason : str) : NetworkDecision := NetworkState.deny_with_source reason NetworkState.Decider.

(** [codex-rs/network-proxy/src/network_policy.rs:154-166 NetworkDecision::ask_with_source] *)
Definition ask_with_source (reason : str) (source : NetworkState.NetworkDecisionSource) : NetworkDecision :=
  NetworkState.NetworkDeny (if bool_decide (reason = []) then lit "policy_denied" else reason) source NetworkState.PolicyAsk.

(** [codex-rs/network-proxy/src/network_policy.rs:136-138 NetworkDecision::ask] *)
Definition ask (reason : str) : NetworkDecision := ask_with_source reason NetworkState.Decider.

(** [codex-rs/protocol/src/approvals.rs:73-76 NetworkApprovalContext] *)
Record NetworkApprovalContext := mkContext { context_host : str; context_protocol : NetworkApprovalProtocol }.

(** [codex-rs/protocol/src/approvals.rs:80-83 NetworkPolicyRuleAction] *)
Inductive NetworkPolicyRuleAction := RuleAllow | RuleDeny.

(** [codex-rs/protocol/src/approvals.rs:173-176 NetworkPolicyAmendment] *)
Record NetworkPolicyAmendment := mkAmendment { amendment_host : str; amendment_action : NetworkPolicyRuleAction }.

(** [codex-rs/protocol/src/protocol.rs:4161-4193 ReviewDecision] an amendment of the exec policy is its command. *)
Inductive ReviewDecision :=
| Approved
| ApprovedExecpolicyAmendment (proposed_execpolicy_amendment : list str)
| ApprovedForSession
| NetworkAmendment (network_policy_amendment : NetworkPolicyAmendment)
| Denied
| TimedOut
| ReviewAbort.

(** ** network_policy_decision.rs *)

(** [codex-rs/core/src/network_policy_decision.rs:18-24 parse_network_policy_decision] *)
Definition parse_network_policy_decision (value : str) : option NetworkState.NetworkPolicyDecision :=
  if bool_decide (value = lit "deny") then Some NetworkState.PolicyDeny
  else if bool_decide (value = lit "ask") then Some NetworkState.PolicyAsk
  else None.

(** [codex-rs/protocol/src/network_policy.rs:8-16 NetworkPolicyDecisionPayload] *)
Record NetworkPolicyDecisionPayload := mkPayload {
  payload_decision : NetworkState.NetworkPolicyDecision;
  payload_source : NetworkState.NetworkDecisionSource;
  payload_protocol : option NetworkApprovalProtocol;
  payload_host : option str;
  payload_reason : option str;
  payload_port : option N
}.

(** [codex-rs/protocol/src/network_policy.rs:19-21 NetworkPolicyDecisionPayload::is_ask_from_decider] *)
Definition is_ask_from_decider (self : NetworkPolicyDecisionPayload) : bool :=
  match payload_decision self, payload_source self with
  | NetworkState.PolicyAsk, NetworkState.Decider => true
  | _, _ => false
  end.

(** [codex-rs/core/src/network_policy_decision.rs:26-44 network_approval_context_from_payload] *)
Definition network_approval_context_from_payload (payload : NetworkPolicyDecisionPayload) : option NetworkApprovalContext :=
  if negb (is_ask_from_decider payload) then None
  else match payload_protocol payload, payload_host payload with
       | Some protocol, Some host =>
           let host := trim host in
           if bool_decide (host = []) then None else Some (mkContext host protocol)
       | _, _ => None
       end.

(** [codex-rs/core/src/network_policy_decision.rs:60-67 denied_network_policy_message] why a request was blocked. *)
Definition blocked_detail (reason : str) : str :=
  if bool_decide (reason = lit "denied") then lit "domain is explicitly denied by policy and cannot be approved from this prompt"
  else if bool_decide (reason = lit "not_allowed") then lit "domain is not on the allowlist for the current sandbox mode"
  else if bool_decide (reason = lit "not_allowed_local") then lit "local/private network addresses are blocked by the sandbox policy"
  else if bool_decide (reason = lit "method_not_allowed") then lit "request method is blocked by the current network mode"
  else if bool_decide (reason = lit "proxy_disabled") then lit "network proxy is disabled"
  else lit "request is blocked by network policy".

(** [codex-rs/core/src/network_policy_decision.rs:46-72 denied_network_policy_message] *)
Definition denied_network_policy_message (blocked : NetworkState.BlockedRequest) : option str :=
  match NetworkState.b_decision blocked ≫= parse_network_policy_decision with
  | Some NetworkState.PolicyDeny =>
      let host := trim (NetworkState.b_host blocked) in
      if bool_decide (host = []) then Some (lit "Network access was blocked by policy.")
      else Some (lit "Network access to " ++ QUOTE :: host ++ QUOTE :: lit " was blocked: "
                   ++ blocked_detail (NetworkState.b_reason blocked) ++ lit ".")
  | _ => None
  end.

(** [codex-rs/core/src/network_policy_decision.rs:12-16 ExecPolicyNetworkRuleAmendment] *)
Record ExecPolicyNetworkRuleAmendment := mkRuleAmendment {
  rule_protocol : ExecPolicy.NetworkRuleProtocol;
  rule_decision : ExecPolicy.Decision;
  rule_justification : str
}.

(** [codex-rs/core/src/network_policy_decision.rs:74-102 execpolicy_network_rule_amendment] *)
Definition execpolicy_network_rule_amendment (amendment : NetworkPolicyAmendment) (context : NetworkApprovalContext)
    (host : str) : ExecPolicyNetworkRuleAmendment :=
  let protocol := match context_protocol context with
                  | Http => ExecPolicy.Http | Https => ExecPolicy.Https
                  | Socks5Tcp => ExecPolicy.Socks5Tcp | Socks5Udp => ExecPolicy.Socks5Udp
                  end in
  let '(decision, action_verb) := match amendment_action amendment with
                                  | RuleAllow => (ExecPolicy.Allow, lit "Allow")
                                  | RuleDeny => (ExecPolicy.Forbidden, lit "Deny")
                                  end in
  let protocol_label := match context_protocol context with
                        | Http => lit "http" | Https => lit "https_connect"
                        | Socks5Tcp => lit "socks5_tcp" | Socks5Udp => lit "socks5_udp"
                        end in
  mkRuleAmendment protocol decision (action_verb ++ SP :: protocol_label ++ lit " access to " ++ host).

(** [codex-rs/core/src/session/mod.rs:2361-2375 Session::validated_network_policy_amendment_host] *)
Definition validated_network_policy_amendment_host (amendment : NetworkPolicyAmendment) (context : NetworkApprovalContext)
    : result str str :=
  let approved_host := HostPatterns.normalize_host (context_host context) in
  let amended_host := HostPatterns.normalize_host (amendment_host amendment) in
  if bool_decide (amended_host = approved_host) then Ok approved_host
  else Err (lit "network policy amendment host '" ++ amendment_host amendment ++ lit "' does not match approved host '"
              ++ context_host context ++ lit "'").

(** ** The service *)

(** [codex-rs/core/src/tools/network_approval.rs:43-46 NetworkApprovalMode] *)
Inductive NetworkApprovalMode := Immediate | Deferred.

(** [codex-rs/core/src/guardian/approval_request.rs:81-93 GuardianNetworkAccessTrigger] *)
Record GuardianNetworkAccessTrigger := mkTrigger {
  call_id : str;
  tool_name : str;
  trigger_command : list str;
  cwd : str;
  sandbox_permissions : ExecApproval.SandboxPermissions;
  additional_permissions : option SandboxTransforms.AdditionalPermissionProfile;
  justification : option str;
  tty : option bool
}.

(** [codex-rs/core/src/tools/network_approval.rs:122-126 HostApprovalKey] *)
Record HostApprovalKey := mkKey { key_host : str; key_protocol : str; key_port : N }.

#[global] Instance HostApprovalKey_eq_dec : EqDecision HostApprovalKey.
Proof. solve_decision. Defined.
#[global] Instance HostApprovalKey_countable : Countable HostApprovalKey.
Proof.
  refine (inj_countable' (fun k => (key_host k, key_protocol k, key_port k)) (fun x => mkKey x.1.1 x.1.2 x.2) _).
  by intros [].
Defined.

(** [codex-rs/core/src/tools/network_approval.rs:138-145 protocol_key_label] *)
Definition protocol_key_label (protocol : NetworkApprovalProtocol) : str :=
  match protocol with
  | Http => lit "http"
  | Https => lit "https"
  | Socks5Tcp => lit "socks5-tcp"
  | Socks5Udp => lit "socks5-udp"
  end.

(** [codex-rs/core/src/tools/network_approval.rs:129-135 HostApprovalKey::from_request] *)
Definition from_request (request : NetworkPolicyRequest) (protocol : NetworkApprovalProtocol) : HostApprovalKey :=
  mkKey (to_ascii_lowercase (r_host request)) (protocol_key_label protocol) (r_port request).

(** [codex-rs/core/src/tools/network_approval.rs:148-152 PendingApprovalDecision] *)
Inductive PendingApprovalDecision := AllowOnce | AllowForSession | Deny.

(** [codex-rs/core/src/tools/network_approval.rs:155-158 NetworkApprovalOutcome] *)
Inductive NetworkApprovalOutcome := DeniedByUser | DeniedByPolicy (message : str).

(** [codex-rs/core/src/tools/sandboxing.rs:387-390 ToolError] the errors of [Codex] by their text. *)
Inductive ToolError := Rejected (message : str) | Codex (error : str).

(** [codex-rs/core/src/tools/network_approval.rs:160-170 network_approval_outcome_to_result] *)
Definition network_approval_outcome_to_result (outcome : option NetworkApprovalOutcome) : result ToolError unit :=
  match outcome with
  | Some DeniedByUser => Err (Rejected (lit "rejected by user"))
  | Some (DeniedByPolicy message) => Err (Rejected message)
  | None => Ok tt
  end.

(** [codex-rs/core/src/tools/network_approval.rs:173-175 allows_network_approval_flow] *)
Definition allows_network_approval_flow (policy : ExecApproval.AskForApproval) : bool :=
  match policy with ExecApproval.Never => false | _ => true end.

(** [codex-rs/core/src/tools/network_approval.rs:177-179 permission_profile_allows_network_approval_flow] *)
Definition permission_profile_allows_network_approval_flow (profile : WritableRoots.PermissionProfile) : bool :=
  match profile with WritableRoots.Managed _ _ => true | _ => false end.

(** [codex-rs/core/src/tools/network_approval.rs:182-187 PendingApprovalDecision::to_network_decision] *)
Definition to_network_decision (self : PendingApprovalDecision) : NetworkDecision :=
  match self with
  | AllowOnce | AllowForSession => NetworkAllow
  | Deny => deny (lit "not_allowed")
  end.

(** [codex-rs/core/src/tools/network_approval.rs:190-201 PendingHostApproval] the decision, and how often the waiters
    were notified: a waiter that began to listen after [n] notifications wakes at the next one. *)
Record PendingHostApproval := mkPending { decision : option PendingApprovalDecision; notifications : nat }.

(** [codex-rs/core/src/tools/network_approval.rs:222-228 ActiveNetworkApprovalCall] *)
Record ActiveNetworkApprovalCall := mkCall {
  registration_id : str;
  turn_id : str;
  trigger : GuardianNetworkAccessTrigger;
  command : str;
  cancellation_token : nat
}.

(** [codex-rs/core/src/tools/network_approval.rs:230-241 NetworkApprovalService] with the state of the calls, the
    approvals that were ever pending, and the tokens that were cancelled.  The active calls are kept in the order in
    which they came (an [IndexMap]). *)
Record NetworkApprovalService := mkService {
  active_calls : list (str * ActiveNetworkApprovalCall);
  call_outcomes : gmap str NetworkApprovalOutcome;
  pending_host_approvals : gmap HostApprovalKey nat;
  approvals : list PendingHostApproval;
  session_approved_hosts : gset HostApprovalKey;
  session_denied_hosts : gset HostApprovalKey;
  cancelled : gset nat
}.

(** [codex-rs/core/src/tools/network_approval.rs:244-251 NetworkApprovalService::default] *)
Definition empty_service : NetworkApprovalService := mkService [] ∅ ∅ [] ∅ ∅ ∅.

(** The parts of the service replaced. *)
Definition with_calls (calls : list (str * ActiveNetworkApprovalCall)) (outcomes : gmap str NetworkApprovalOutcome)
    (self : NetworkApprovalService) : NetworkApprovalService :=
  mkService calls outcomes (pending_host_approvals self) (approvals self) (session_approved_hosts self)
    (session_denied_hosts self) (cancelled self).
Definition with_pending (pending : gmap HostApprovalKey nat) (all : list PendingHostApproval)
    (self : NetworkApprovalService) : NetworkApprovalService :=
  mkService (active_calls self) (call_outcomes self) pending all (session_approved_hosts self) (session_denied_hosts self)
    (cancelled self).
Definition with_hosts (approved denied : gset HostApprovalKey) (self : NetworkApprovalService) : NetworkApprovalService :=
  mkService (active_calls self) (call_outcomes self) (pending_host_approvals self) (approvals self) approved denied
    (cancelled self).
Definition with_cancelled (tokens : gset nat) (self : NetworkApprovalService) : NetworkApprovalService :=
  mkService (active_calls self) (call_outcomes self) (pending_host_approvals self) (approvals self)
    (session_approved_hosts self) (session_denied_hosts self) tokens.

(** [IndexMap::get], [insert] (in place when the key is there, at the end otherwise) and [shift_remove]. *)
Fixpoint index_get {A} (m : list (str * A)) (k : str) : option A :=
  match m with [] => None | (k', a) :: m => if bool_decide (k' = k) then Some a else index_get m k end.
Fixpoint index_insert {A} (m : list (str * A)) (k : str) (a : A) : list (str * A) :=
  match m with
  | [] => [(k, a)]
  | (k', a') :: m => if bool_decide (k' = k) then (k', a) :: m else (k', a') :: index_insert m k a
  end.
Fixpoint shift_remove {A} (m : list (str * A)) (k : str) : list (str * A) :=
  match m with [] => [] | (k', a) :: m => if bool_decide (k' = k) then m else (k', a) :: shift_remove m k end.

(** [codex-rs/core/src/tools/network_approval.rs:257-262 NetworkApprovalService::sync_session_approved_hosts_to] what it
    makes of the other service, given the hosts it read of this one. *)
Definition sync_session_approved_hosts_to (approved_hosts : gset HostApprovalKey) (other : NetworkApprovalService)
    : NetworkApprovalService :=
  with_hosts approved_hosts (session_denied_hosts other) other.

(** [codex-rs/core/src/tools/network_approval.rs:264-284 NetworkApprovalService::register_call] *)
Definition register_call (self : NetworkApprovalService) (call : ActiveNetworkApprovalCall) : NetworkApprovalService :=
  with_calls (index_insert (active_calls self) (registration_id call) call) (call_outcomes self) self.

(** [codex-rs/core/src/tools/network_approval.rs:290-300 NetworkApprovalService::resolve_single_active_call] *)
Definition resolve_single_active_call (self : NetworkApprovalService) : option ActiveNetworkApprovalCall :=
  match active_calls self with [(_, call)] => Some call | _ => None end.

(** [codex-rs/core/src/tools/network_approval.rs:302-314 NetworkApprovalService::get_or_create_pending_approval] *)
Definition get_or_create_pending_approval (self : NetworkApprovalService) (key : HostApprovalKey)
    : (nat * bool) * NetworkApprovalService :=
  match pending_host_approvals self !! key with
  | Some existing => ((existing, false), self)
  | None =>
      let created := length (approvals self) in
      ((created, true), with_pending (<[key := created]> (pending_host_approvals self)) (approvals self ++ [mkPending None 0]) self)
  end.

(** [codex-rs/core/src/tools/network_approval.rs:330-343 NetworkApprovalService::record_call_outcome] under the lock, with
    the token that is cancelled once the lock is given back. *)
Definition record_outcome_locked (self : NetworkApprovalService) (id : str) (outcome : NetworkApprovalOutcome)
    : option nat * NetworkApprovalService :=
  match index_get (active_calls self) id with
  | None => (None, self)
  | Some call =>
      match call_outcomes self !! id with
      | Some DeniedByUser => (None, self)
      | _ => (Some (cancellation_token call), with_calls (active_calls self) (<[id := outcome]> (call_outcomes self)) self)
      end
  end.

(** [codex-rs/core/src/tools/network_approval.rs:349-353 NetworkApprovalService::remove_call] *)
Definition remove_call (self : NetworkApprovalService) (id : str) : option NetworkApprovalOutcome * NetworkApprovalService :=
  (call_outcomes self !! id, with_calls (shift_remove (active_calls self) id) (delete id (call_outcomes self)) self).

(** ** Programs of accesses *)

(** What the service needs of the context of a turn. *)
Record TurnContext := mkTurn {
  sub_id : str;
  turn_approval_policy : ExecApproval.AskForApproval;
  approvals_reviewer : Requirements.ApprovalsReviewer
}.

(** [codex-rs/core/src/guardian/approval_request.rs:50-58 GuardianApprovalRequest::NetworkAccess] *)
Record NetworkAccess := mkAccess {
  na_id : str;
  na_turn_id : str;
  na_target : str;
  na_host : str;
  na_protocol : NetworkApprovalProtocol;
  na_port : N;
  na_trigger : option GuardianNetworkAccessTrigger
}.

(** The accesses, with what they are answered: first those to the service, each under one lock, then those to the rest
    of the session.  [Unfinished] stands for further rounds of a loop and is never answered. *)
Inductive access : Type -> Type :=
| DeniedContains (key : HostApprovalKey) : access bool
| ApprovedContains (key : HostApprovalKey) : access bool
| GetOrCreate (key : HostApprovalKey) : access (nat * bool)
| Listen (pending : nat) : access nat
| ReadDecision (pending : nat) : access (option PendingApprovalDecision)
| AwaitNotified (pending heard : nat) : access unit
| WriteDecision (pending : nat) (d : PendingApprovalDecision) : access unit
| NotifyWaiters (pending : nat) : access unit
| RemovePending (key : HostApprovalKey) : access unit
| RemoveDenied (key : HostApprovalKey) : access unit
| InsertApproved (key : HostApprovalKey) : access unit
| RemoveApproved (key : HostApprovalKey) : access unit
| InsertDenied (key : HostApprovalKey) : access unit
| ResolveSingleCall : access (option ActiveNetworkApprovalCall)
| RecordOutcome (id : str) (outcome : NetworkApprovalOutcome) : access (option nat)
| CancelToken (token : nat) : access unit
| RegisterCall (call : ActiveNetworkApprovalCall) : access unit
| RemoveCall (id : str) : access (option NetworkApprovalOutcome)
| ActiveTurnContext : access (option TurnContext)
| EffectiveTurnSettings (turn : TurnContext) : access (WritableRoots.PermissionProfile * ExecApproval.AskForApproval)
| PermissionRequestHooks (turn : TurnContext) (id command description : str) : access (option HookOutput.PermissionRequestDecision)
| NewGuardianReviewId : access str
| ReviewApprovalRequest (turn : TurnContext) (review_id : str) (request : NetworkAccess) (retry_reason : str) : access ReviewDecision
| RequestCommandApproval (turn : TurnContext) (id : str) (prompt_command : list str) (reason : str)
    (context : NetworkApprovalContext) : access ReviewDecision
| PersistAmendment (amendment : NetworkPolicyAmendment) (context : NetworkApprovalContext) : access (result str unit)
| RecordAmendmentMessage (sub : str) (amendment : NetworkPolicyAmendment) : access unit
| SendWarning (sub message : str) : access unit
| GuardianRejectionMessage (review_id : str) : access str
| Unfinished : access PendingApprovalDecision.

(** A program: it is done, or it makes an access and goes on with the answer. *)
Inductive prog (A : Type) : Type :=
| Ret (a : A)
| Vis (X : Type) (e : access X) (k : X -> prog A).
Arguments Ret {A} a.
Arguments Vis {A X} e k.

Fixpoint bind {A B} (p : prog A) (f : A -> prog B) : prog B :=
  match p with
  | Ret a => f a
  | Vis e k => Vis e (fun x => bind (k x) f)
  end.
#[global] Instance prog_ret : MRet prog := fun A a => Ret a.
#[global] Instance prog_bind : MBind prog := fun A B f p => bind p f.
(** One access. *)
Definition perform {X} (e : access X) : prog X := Vis e Ret.

(** How the service answers an access: [None] when the access has to wait, or is not the service's to answer. *)
Definition serve {X} (self : NetworkApprovalService) (e : access X) : option (X * NetworkApprovalService) :=
  match e in access X return option (X * NetworkApprovalService) with
  | DeniedContains key => Some (bool_decide (key ∈ session_denied_hosts self), self)
  | ApprovedContains key => Some (bool_decide (key ∈ session_approved_hosts self), self)
  | GetOrCreate key => Some (get_or_create_pending_approval self key)
  | Listen pending => p ← approvals self !! pending; Some (notifications p, self)
  | ReadDecision pending => p ← approvals self !! pending; Some (decision p, self)
  | AwaitNotified pending heard =>
      p ← approvals self !! pending;
      if decide (heard < notifications p) then Some (tt, self) else None
  | WriteDecision pending d =>
      p ← approvals self !! pending;
      Some (tt, with_pending (pending_host_approvals self) (<[pending := mkPending (Some d) (notifications p)]> (approvals self)) self)
  | NotifyWaiters pending =>
      p ← approvals self !! pending;
      Some (tt, with_pending (pending_host_approvals self) (<[pending := mkPending (decision p) (S (notifications p))]> (approvals self)) self)
  | RemovePending key => Some (tt, with_pending (delete key (pending_host_approvals self)) (approvals self) self)
  | RemoveDenied key => Some (tt, with_hosts (session_approved_hosts self) (session_denied_hosts self ∖ {[key]}) self)
  | InsertApproved key => Some (tt, with_hosts ({[key]} ∪ session_approved_hosts self) (session_denied_hosts self) self)
  | RemoveApproved key => Some (tt, with_hosts (session_approved_hosts self ∖ {[key]}) (session_denied_hosts self) self)
  | InsertDenied key => Some (tt, with_hosts (session_approved_hosts self) ({[key]} ∪ session_denied_hosts self) self)
  | ResolveSingleCall => Some (resolve_single_active_call self, self)
  | RecordOutcome id outcome => Some (record_outcome_locked self id outcome)
  | CancelToken token => Some (tt, with_cancelled ({[token]} ∪ cancelled self) self)
  | RegisterCall call => Some (tt, register_call self call)
  | RemoveCall id => Some (remove_call self id)
  | _ => None
  end.

(** ** The functions of the service as programs *)

(** [codex-rs/core/src/tools/network_approval.rs:203-211 PendingHostApproval::wait_for_decision] as many rounds of the
    loop as given. *)
Fixpoint wait_for_decision (rounds : nat) (self : nat) : prog PendingApprovalDecision :=
  match rounds with
  | O => perform Unfinished
  | S rounds =>
      notified ← perform (Listen self);
      current ← perform (ReadDecision self);
      match current with
      | Some decision => Ret decision
      | None => _ ← perform (AwaitNotified self notified); wait_for_decision rounds self
      end
  end.

(** [codex-rs/core/src/tools/network_approval.rs:213-219 PendingHostApproval::set_decision] *)
Definition set_decision (self : nat) (d : PendingApprovalDecision) : prog unit :=
  _ ← perform (WriteDecision self d); perform (NotifyWaiters self).

(** [codex-rs/core/src/tools/network_approval.rs:330-347 NetworkApprovalService::record_call_outcome] *)
Definition record_call_outcome (id : str) (outcome : NetworkApprovalOutcome) : prog unit :=
  token ← perform (RecordOutcome id outcome);
  match token with Some token => perform (CancelToken token) | None => Ret tt end.

(** [codex-rs/core/src/tools/network_approval.rs:316-322 NetworkApprovalService::record_outcome_for_single_active_call] *)
Definition record_outcome_for_single_active_call (outcome : NetworkApprovalOutcome) : prog unit :=
  owner_call ← perform ResolveSingleCall;
  match owner_call with
  | None => Ret tt
  | Some owner_call => record_call_outcome (registration_id owner_call) outcome
  end.

(** The outcome of the call that owns a request, when there is one. *)
Definition record_owner_outcome (owner_call : option ActiveNetworkApprovalCall) (outcome : prog NetworkApprovalOutcome) : prog unit :=
  match owner_call with
  | Some owner_call => outcome ← outcome; record_call_outcome (registration_id owner_call) outcome
  | None => Ret tt
  end.

(** [codex-rs/core/src/tools/network_approval.rs:355-361 NetworkApprovalService::finish_call] and
    [finish_call_outcome]. *)
Definition finish_call (id : str) : prog (result ToolError unit) :=
  outcome ← perform (RemoveCall id); Ret (network_approval_outcome_to_result outcome).

(** [codex-rs/core/src/tools/network_approval.rs:286-288 NetworkApprovalService::unregister_call] *)
Definition unregister_call (id : str) : prog unit := _ ← perform (RemoveCall id); Ret tt.

(** [codex-rs/core/src/tools/network_approval.rs:363-370 NetworkApprovalService::record_blocked_request] *)
Definition record_blocked_request (blocked : NetworkState.BlockedRequest) : prog unit :=
  match denied_network_policy_message blocked with
  | None => Ret tt
  | Some message => record_outcome_for_single_active_call (DeniedByPolicy message)
  end.

(** [codex-rs/core/src/tools/network_approval.rs:382-384 NetworkApprovalService::format_network_target] *)
Definition format_network_target (protocol host : str) (port : N) : str :=
  protocol ++ lit "://" ++ host ++ lit ":" ++ show_N port.

(** [codex-rs/core/src/tools/network_approval.rs:386-388 NetworkApprovalService::approval_id_for_key] *)
Definition approval_id_for_key (key : HostApprovalKey) : str :=
  lit "network#" ++ key_protocol key ++ lit "#" ++ key_host key ++ lit "#" ++ show_N (key_port key).

(** [codex-rs/core/src/tools/network_approval.rs:397-402 NetworkApprovalService::handle_inline_policy_request] the
    protocol of a request. *)
Definition approval_protocol (protocol : NetworkProtocol) : NetworkApprovalProtocol :=
  match protocol with
  | ProxyHttp => Http
  | ProxyHttpsConnect => Https
  | ProxySocks5Tcp => Socks5Tcp
  | ProxySocks5Udp => Socks5Udp
  end.

(** [codex-rs/core/src/guardian/review.rs:152-160 routes_approval_to_guardian_with_reviewer] *)
Definition routes_approval_to_guardian (turn : TurnContext) : bool :=
  match turn_approval_policy turn with
  | ExecApproval.OnRequest | ExecApproval.Granular _ => bool_decide (approvals_reviewer turn = Requirements.AutoReview)
  | _ => false
  end.

(** [codex-rs/core/src/guardian/review.rs:55-59 GUARDIAN_TIMEOUT_INSTRUCTIONS] *)
Definition GUARDIAN_TIMEOUT_INSTRUCTIONS : str :=
  lit "The automatic permission approval review did not finish before its deadline. " ++
  lit "Do not assume the action is unsafe based on the timeout alone. " ++
  lit "You may retry once, or ask the user for guidance or explicit approval.".

(** [codex-rs/core/src/tools/network_approval.rs:395-395 REASON_NOT_ALLOWED] *)
Definition REASON_NOT_ALLOWED : str := lit "not_allowed".

(** [codex-rs/core/src/tools/network_approval.rs:429-437 NetworkApprovalService::handle_inline_policy_request] a request
    that is not asked about: denied, with a message for the call. *)
Definition refuse (pending : nat) (key : HostApprovalKey) (policy_denial_message : str) : prog NetworkDecision :=
  _ ← set_decision pending Deny;
  _ ← perform (RemovePending key);
  _ ← record_outcome_for_single_active_call (DeniedByPolicy policy_denial_message);
  Ret (deny REASON_NOT_ALLOWED).

(** [codex-rs/core/src/tools/network_approval.rs:561-587 NetworkApprovalService::handle_inline_policy_request] saving a
    rule, the same for either action. *)
Definition apply_amendment (turn : TurnContext) (amendment : NetworkPolicyAmendment) (context : NetworkApprovalContext) : prog unit :=
  saved ← perform (PersistAmendment amendment context);
  match saved with
  | Ok _ => perform (RecordAmendmentMessage (sub_id turn) amendment)
  | Err err => perform (SendWarning (sub_id turn) (lit "Failed to apply network policy amendment: " ++ err))
  end.

(** [codex-rs/core/src/tools/network_approval.rs:551-658 NetworkApprovalService::handle_inline_policy_request] what an
    answer comes to: the decision, and whether the host is denied for the session. *)
Definition resolve (turn : TurnContext) (context : NetworkApprovalContext) (owner_call : option ActiveNetworkApprovalCall)
    (guardian_review_id : option str) (approval_decision : ReviewDecision) : prog (PendingApprovalDecision * bool) :=
  match approval_decision with
  | Approved | ApprovedExecpolicyAmendment _ => Ret (AllowOnce, false)
  | ApprovedForSession => Ret (AllowForSession, false)
  | NetworkAmendment amendment =>
      match amendment_action amendment with
      | RuleAllow => _ ← apply_amendment turn amendment context; Ret (AllowForSession, false)
      | RuleDeny =>
          _ ← apply_amendment turn amendment context;
          _ ← record_owner_outcome owner_call (Ret DeniedByUser);
          Ret (Deny, true)
      end
  | Denied | ReviewAbort =>
      _ ← match guardian_review_id with
          | Some review_id =>
              record_owner_outcome owner_call (m ← perform (GuardianRejectionMessage review_id); Ret (DeniedByPolicy m))
          | None => record_owner_outcome owner_call (Ret DeniedByUser)
          end;
      Ret (Deny, false)
  | TimedOut =>
      _ ← record_owner_outcome owner_call (Ret (DeniedByPolicy GUARDIAN_TIMEOUT_INSTRUCTIONS));
      Ret (Deny, false)
  end.

(** [codex-rs/core/src/tools/network_approval.rs:660-682 NetworkApprovalService::handle_inline_policy_request] the
    decision is kept, told to the waiters and returned. *)
Definition settle (pending : nat) (key : HostApprovalKey) (resolved : PendingApprovalDecision) (cache_session_deny : bool)
    : prog NetworkDecision :=
  _ ← match resolved with
      | AllowForSession => _ ← perform (RemoveDenied key); perform (InsertApproved key)
      | _ => Ret tt
      end;
  _ ← (if cache_session_deny then _ ← perform (RemoveApproved key); perform (InsertDenied key) else Ret tt);
  _ ← set_decision pending resolved;
  _ ← perform (RemovePending key);
  Ret (to_network_decision resolved).

(** [codex-rs/core/src/tools/network_approval.rs:424-549 NetworkApprovalService::handle_inline_policy_request] the
    request that owns the pending approval: it is asked about once for all that wait. *)
Definition ask_for_approval (request : NetworkPolicyRequest) (protocol : NetworkApprovalProtocol) (key : HostApprovalKey)
    (pending : nat) : prog NetworkDecision :=
  let target := format_network_target (key_protocol key) (r_host request) (key_port key) in
  let policy_denial_message := lit "Network access to " ++ QUOTE :: target ++ QUOTE :: lit " was blocked by policy." in
  let prompt_reason := r_host request ++ lit " is not in the allowed_domains" in
  turn_context ← perform ActiveTurnContext;
  match turn_context with
  | None => refuse pending key policy_denial_message
  | Some turn_context =>
      effective_turn_settings ← perform (EffectiveTurnSettings turn_context);
      let '(permission_profile, approval_policy) := effective_turn_settings in
      if negb (permission_profile_allows_network_approval_flow permission_profile) then refuse pending key policy_denial_message
      else if negb (allows_network_approval_flow approval_policy) then refuse pending key policy_denial_message
      else
        owner_call ← perform ResolveSingleCall;
        let network_approval_context := mkContext (r_host request) protocol in
        let guardian_approval_id := approval_id_for_key key in
        let prompt_command := [lit "network-access"; target] in
        let command := match owner_call with Some call => command call | None => lit "network-access" ++ SP :: target end in
        permission_request_decision ← perform (PermissionRequestHooks turn_context guardian_approval_id command
                                                 (lit "network-access " ++ target));
        match permission_request_decision with
        | Some HookOutput.Allow =>
            _ ← set_decision pending AllowOnce;
            _ ← perform (RemovePending key);
            Ret NetworkAllow
        | Some (HookOutput.Deny message) =>
            _ ← record_owner_outcome owner_call (Ret (DeniedByPolicy message));
            _ ← set_decision pending Deny;
            _ ← perform (RemovePending key);
            Ret (deny REASON_NOT_ALLOWED)
        | None =>
            guardian_review_id ← (if routes_approval_to_guardian turn_context
                                  then id ← perform NewGuardianReviewId; Ret (Some id) else Ret None);
            approval_decision ←
              match guardian_review_id with
              | Some review_id =>
                  perform (ReviewApprovalRequest turn_context review_id
                    (mkAccess guardian_approval_id
                       (match owner_call with Some call => turn_id call | None => sub_id turn_context end)
                       target (r_host request) protocol (key_port key) (trigger <$> owner_call))
                    policy_denial_message)
              | None =>
                  perform (RequestCommandApproval turn_context guardian_approval_id prompt_command prompt_reason
                             network_approval_context)
              end;
            resolved ← resolve turn_context network_approval_context owner_call guardian_review_id approval_decision;
            settle pending key (fst resolved) (snd resolved)
        end
  end.

(** [codex-rs/core/src/tools/network_approval.rs:390-422 NetworkApprovalService::handle_inline_policy_request] *)
Definition handle_inline_policy_request (rounds : nat) (request : NetworkPolicyRequest) : prog NetworkDecision :=
  let protocol := approval_protocol (r_protocol request) in
  let key := from_request request protocol in
  denied ← perform (DeniedContains key);
  if (denied : bool) then Ret (deny REASON_NOT_ALLOWED)
  else
    approved ← perform (ApprovedContains key);
    if (approved : bool) then Ret NetworkAllow
    else
      pending ← perform (GetOrCreate key);
      if negb (snd pending) then
        d ← wait_for_decision rounds (fst pending); Ret (to_network_decision d)
      else ask_for_approval request protocol key (fst pending).

(** ** Calls *)

(** [codex-rs/core/src/tools/network_approval.rs:48-54 NetworkApprovalSpec] whether there is a proxy. *)
Record NetworkApprovalSpec := mkSpec {
  network : bool;
  spec_mode : NetworkApprovalMode;
  spec_trigger : GuardianNetworkAccessTrigger;
  spec_command : str
}.

(** [codex-rs/core/src/tools/network_approval.rs:87-91 ActiveNetworkApproval] *)
Record ActiveNetworkApproval := mkActive {
  active_registration_id : option str;
  mode : NetworkApprovalMode;
  active_token : nat
}.

(** [codex-rs/core/src/tools/network_approval.rs:56-61 DeferredNetworkApproval] with the cell its clones share. *)
Record DeferredNetworkApproval := mkDeferred {
  deferred_registration_id : str;
  deferred_token : nat;
  finish_outcome : option (option NetworkApprovalOutcome)
}.

(** [codex-rs/core/src/tools/network_approval.rs:102-118 ActiveNetworkApproval::into_deferred] *)
Definition into_deferred (self : ActiveNetworkApproval) : option DeferredNetworkApproval :=
  match mode self, active_registration_id self with
  | Deferred, Some id => Some (mkDeferred id (active_token self) None)
  | _, _ => None
  end.

(** [codex-rs/core/src/tools/network_approval.rs:697-713 build_network_policy_decider] the answer to a request, when the
    session still lives and when it does not. *)
Definition network_policy_decider (rounds : nat) (alive : bool) (request : NetworkPolicyRequest) : prog NetworkDecision :=
  if negb alive then Ret (ask (lit "not_allowed")) else handle_inline_policy_request rounds request.

(** [codex-rs/core/src/tools/network_approval.rs:715-750 begin_network_approval] with the identifier and the token that
    it makes. *)
Definition begin_network_approval (id : str) (token : nat) (turn_id : str) (managed_network_active : bool)
    (spec : option NetworkApprovalSpec) : prog (option ActiveNetworkApproval) :=
  match spec with
  | None => Ret None
  | Some spec =>
      if negb managed_network_active || negb (network spec) then Ret None
      else _ ← perform (RegisterCall (mkCall id turn_id (spec_trigger spec) (spec_command spec) token));
           Ret (Some (mkActive (Some id) (spec_mode spec) token))
  end.

(** [codex-rs/core/src/tools/network_approval.rs:752-765 finish_immediate_network_approval] *)
Definition finish_immediate_network_approval (active : ActiveNetworkApproval) : prog (result ToolError unit) :=
  match active_registration_id active with
  | None => Ret (Ok tt)
  | Some id => finish_call id
  end.

(** [codex-rs/core/src/tools/network_approval.rs:76-83 DeferredNetworkApproval::finish] with the cell afterwards. *)
Definition deferred_finish (self : DeferredNetworkApproval) : prog (DeferredNetworkApproval * result ToolError unit) :=
  outcome ← match finish_outcome self with
            | Some outcome => Ret outcome
            | None => perform (RemoveCall (deferred_registration_id self))
            end;
  Ret (mkDeferred (deferred_registration_id self) (deferred_token self) (Some outcome), network_approval_outcome_to_result outcome).

(** [codex-rs/core/src/tools/network_approval.rs:767-775 finish_deferred_network_approval] *)
Definition finish_deferred_network_approval (deferred : option DeferredNetworkApproval)
    : prog (option DeferredNetworkApproval * result ToolError unit) :=
  match deferred with
  | None => Ret (None, Ok tt)
  | Some deferred => out ← deferred_finish deferred; Ret (Some (fst out), snd out)
  end.

(** ** Keys and their identifiers *)

Definition HASH : char := 35%N.

(** A text that ends at its first number sign, or begins after its last, can be read back. *)
Lemma hash_first (a a' b b' : str) : HASH ∉ a -> HASH ∉ a' -> a ++ HASH :: b = a' ++ HASH :: b' -> a = a' /\ b = b'.
Proof.
  intros Ha Ha' Heq. pose proof (split_once_free HASH a b Ha) as E. rewrite Heq, (split_once_free HASH a' b' Ha') in E.
  by injection E as -> ->.
Qed.
Lemma hash_last (a a' b b' : str) : HASH ∉ b -> HASH ∉ b' -> a ++ HASH :: b = a' ++ HASH :: b' -> a = a' /\ b = b'.
Proof.
  intros Hb Hb' Heq. pose proof (rsplit_once_free HASH a b Hb) as E. rewrite Heq, (rsplit_once_free HASH a' b' Hb') in E.
  by injection E as -> ->.
Qed.

(** The keys of requests: the label of the protocol holds no number sign. *)
Definition key_of (request : NetworkPolicyRequest) : HostApprovalKey := from_request request (approval_protocol (r_protocol request)).

Lemma show_N_no_hash n : HASH ∉ show_N n.
Proof.
  intros Hin. pose proof (show_N_digits n) as Hd. rewrite Forall_forall in Hd. by specialize (Hd _ Hin).
Qed.
Lemma protocol_label_no_hash protocol : HASH ∉ protocol_key_label protocol.
Proof. intros Hin%(bool_decide_pack _). by destruct protocol. Qed.

(** The identifier of an approval names its host, protocol and port, whatever the host holds. *)
Lemma approval_id_inj request request' :
  approval_id_for_key (key_of request) = approval_id_for_key (key_of request') -> key_of request = key_of request'.
Proof.
  unfold approval_id_for_key, key_of, from_request. cbn [key_host key_protocol key_port]. intros Heq.
  apply app_inj_1 in Heq as [_ Heq]; [|done]. change (lit "#") with [HASH] in Heq. cbn [app] in Heq.
  apply hash_first in Heq as [Hp Heq]; [|apply protocol_label_no_hash..].
  apply hash_last in Heq as [Hh Hn]; [|apply show_N_no_hash..]. unfold show_N in Hn.
  apply lit_inj, (inj pretty) in Hn. by rewrite Hp, Hh, Hn.
Qed.

(** ** Outcomes of calls *)

(** The outcomes recorded one after the other. *)
Definition record_all (self : NetworkApprovalService) (ops : list (str * NetworkApprovalOutcome)) : NetworkApprovalService :=
  foldl (fun self '(id, outcome) => snd (record_outcome_locked self id outcome)) self ops.

Lemma record_keeps self id i outcome : call_outcomes self !! id = Some DeniedByUser ->
  call_outcomes (snd (record_outcome_locked self i outcome)) !! id = Some DeniedByUser.
Proof.
  intros Hd. unfold record_outcome_locked. destruct (index_get (active_calls self) i) as [call|]; [|done].
  destruct (decide (i = id)) as [->|Hne]; [by rewrite Hd|].
  destruct (call_outcomes self !! i) as [[]|]; cbn; by rewrite ?lookup_insert_ne.
Qed.

(** Once the user denied an active call, that is what the call ends with, whatever is recorded of it afterwards; an
    outcome recorded before it does not matter. *)
Theorem user_denial_kept self id ops : is_Some (index_get (active_calls self) id) ->
  network_approval_outcome_to_result
    (fst (remove_call (record_all (snd (record_outcome_locked self id DeniedByUser)) ops) id))
  = Err (Rejected (lit "rejected by user")).
Proof.
  intros [call Hc]. cbn. assert (H : call_outcomes (snd (record_outcome_locked self id DeniedByUser)) !! id = Some DeniedByUser).
  { unfold record_outcome_locked. rewrite Hc. destruct (call_outcomes self !! id) as [[]|] eqn:E; cbn; by rewrite ?lookup_insert_eq. }
  revert H. generalize (snd (record_outcome_locked self id DeniedByUser)). induction ops as [|[i o] ops IH]; intros s Hs; cbn [record_all foldl].
  - by rewrite Hs.
  - apply IH. by apply record_keeps.
Qed.

(** A deferred call is finished once: later ends make no access and give the same result. *)
Theorem deferred_finish_once self outcome :
  finish_outcome self = Some outcome -> deferred_finish self = Ret (self, network_approval_outcome_to_result outcome).
Proof. destruct self as [id token cell]. cbn. by intros ->. Qed.

End NetworkApproval.
