(* ===== verification/NetworkApprovalRuns.v ===== *)
(** * Network requests in flight: how the programs of NetworkApproval interleave

    Any number of requests, tool calls and reports of blocked requests are under way at once over one service.  A step
    lets one of them make its next access; the hooks, the user and the reviewer may answer anything, and what they said
    about an approval is kept in a log.  The programs obey a protocol ([okp]): what an access is allowed to do depends
    on the role the request plays for its host (it owns the pending approval, or it waits for it), and following the
    protocol is enough for the theorems, whatever the order of the steps.  A request is not given up half way: a future
    that is dropped makes no more steps. *)

From S2P Require Import Prelude Text Permissions WritableRoots ExecApproval NetworkState Requirements HookOutput NetworkApproval.

Module NetworkApprovalRuns.
Import NetworkApproval.

(** ** Steps *)

(** What was said about an approval: by the hooks, or by the user or the reviewer. *)
Inductive Answer := HookSaid (d : HookOutput.PermissionRequestDecision) | Reviewed (d : ReviewDecision).
Abbreviation Log := (list (str * Answer)) (only parsing).

(** The accesses that the rest of the session answers. *)
Definition external {X} (e : access X) : bool :=
  match e with
  | ActiveTurnContext | EffectiveTurnSettings _ | PermissionRequestHooks _ _ _ _ | NewGuardianReviewId
  | ReviewApprovalRequest _ _ _ _ | RequestCommandApproval _ _ _ _ _ | PersistAmendment _ _ | RecordAmendmentMessage _ _
  | SendWarning _ _ | GuardianRejectionMessage _ => true
  | _ => false
  end.

(** What an access adds to the log. *)
Definition heard {X} (e : access X) : X -> Log :=
  match e in access X return X -> Log with
  | PermissionRequestHooks _ id _ _ => fun said => match said with Some d => [(id, HookSaid d)] | None => [] end
  | ReviewApprovalRequest _ _ request _ => fun d => [(na_id request, Reviewed d)]
  | RequestCommandApproval _ id _ _ _ => fun d => [(id, Reviewed d)]
  | _ => fun _ => []
  end.

Definition answered {X} (self : NetworkApprovalService) (e : access X) (x : X) (self' : NetworkApprovalService) : Prop :=
  serve self e = Some (x, self') \/ external e = true /\ self' = self.

Definition prog_step {A} (self : NetworkApprovalService) (p : prog A) (self' : NetworkApprovalService) (said : Log) (p' : prog A) : Prop :=
  match p with
  | Ret _ => False
  | Vis e k => exists x, answered self e x self' /\ said = heard e x /\ p' = k x
  end.

(** A request of the proxy, or an operation on the calls. *)
Inductive Task := Request (r : NetworkPolicyRequest) (p : prog NetworkState.NetworkDecision) | Calling (p : prog unit).

Definition task_step (self : NetworkApprovalService) (t : Task) (self' : NetworkApprovalService) (said : Log) (t' : Task) : Prop :=
  match t, t' with
  | Request r p, Request r' p' => r' = r /\ prog_step self p self' said p'
  | Calling p, Calling p' => prog_step self p self' said p'
  | _, _ => False
  end.

(** The service, what was said, the hosts ever copied from another session, the identifiers of calls made so far, and
    the tasks. *)
Record System := mkSystem {
  svc : NetworkApprovalService;
  log : Log;
  synced : gset HostApprovalKey;
  issued : gset str;
  tasks : list Task
}.
Definition initial : System := mkSystem empty_service [] ∅ ∅ [].

(** The rounds of [wait_for_decision] that a waiter can need. *)
Definition ROUNDS : nat := 2.

(** A task makes its next access. *)
Inductive run : System -> System -> Prop :=
| run_task self said synced issued l t r self' more t' :
    task_step self t self' more t' ->
    run (mkSystem self said synced issued (l ++ t :: r)) (mkSystem self' (said ++ more) synced issued (l ++ t' :: r)).

(** A new task, with the identifiers it makes. *)
Definition spawn (s : System) (ids : gset str) (t : Task) : System :=
  mkSystem (svc s) (log s) (synced s) (ids ∪ issued s) (tasks s ++ [t]).
Definition discard {A} (p : prog A) : prog unit := bind p (fun _ => Ret tt).

(** Anything that can happen to the service.  The identifiers of calls, version 4 UUIDs, are not made twice. *)
Inductive step : System -> System -> Prop :=
| step_run s s' : run s s' -> step s s'
| step_request s alive r : step s (spawn s ∅ (Request r (network_policy_decider ROUNDS alive r)))
| step_begin s id token turn active spec :
    id ∉ issued s ->
    step s (spawn s {[id]} (Calling (discard (begin_network_approval id token turn active spec))))
| step_finish s active : step s (spawn s ∅ (Calling (discard (finish_immediate_network_approval active))))
| step_finish_deferred s deferred : step s (spawn s ∅ (Calling (discard (finish_deferred_network_approval deferred))))
| step_unregister s id : step s (spawn s ∅ (Calling (unregister_call id)))
| step_blocked s blocked : step s (spawn s ∅ (Calling (record_blocked_request blocked)))
| step_sync s hosts :
    step s (mkSystem (sync_session_approved_hosts_to hosts (svc s)) (log s) (hosts ∪ synced s) (issued s) (tasks s)).

(** ** What answers mean *)

(** What an answer, or none, comes to: the decision, and whether the host is denied for the session. *)
Definition verdict (said : option Answer) : PendingApprovalDecision * bool :=
  match said with
  | None => (Deny, false)
  | Some (HookSaid HookOutput.Allow) => (AllowOnce, false)
  | Some (HookSaid (HookOutput.Deny _)) => (Deny, false)
  | Some (Reviewed (Approved | ApprovedExecpolicyAmendment _)) => (AllowOnce, false)
  | Some (Reviewed ApprovedForSession) => (AllowForSession, false)
  | Some (Reviewed (NetworkAmendment amendment)) =>
      match amendment_action amendment with RuleAllow => (AllowForSession, false) | RuleDeny => (Deny, true) end
  | Some (Reviewed (Denied | ReviewAbort | TimedOut)) => (Deny, false)
  end.

(** Something that was said about the approval of a key. *)
Definition said_of (said : Log) (key : HostApprovalKey) (a : Answer) : Prop := (approval_id_for_key key, a) ∈ said.
Definition explained (said : Log) (key : HostApprovalKey) (d : PendingApprovalDecision) : Prop :=
  d = Deny \/ exists a, said_of said key a /\ fst (verdict (Some a)) = d.

(** ** The protocol *)

(** What a task is for its host. *)
Inductive Role :=
| Calls (registering : option str)
| Fresh
| FromCache (approved : bool)
| Waiting (pending : nat)
| Listening (pending heard : nat)
| Asleep (pending heard : nat)
| Woken (pending : nat)
| Owning (pending : nat) (said : option Answer)
| Written (pending : nat) (d : PendingApprovalDecision)
| Told (pending : nat) (d : PendingApprovalDecision)
| Settled (d : PendingApprovalDecision).

(** What an access asks of the role of a task, and the role afterwards; a task that recorded an outcome first cancels
    the call. *)
Definition allowed {X} (key : HostApprovalKey) (role : Role) (debt : option nat) (e : access X)
    : (X -> Role -> option nat -> Prop) -> Prop :=
  match e in access X return (X -> Role -> option nat -> Prop) -> Prop with
  | CancelToken token => fun K => debt = Some token /\ K tt role None
  | RecordOutcome _ _ => fun K => debt = None /\ forall x, K x role x
  | ResolveSingleCall => fun K => debt = None /\ forall x, K x role None
  | ActiveTurnContext => fun K => debt = None /\ forall x, K x role None
  | EffectiveTurnSettings _ => fun K => debt = None /\ forall x, K x role None
  | NewGuardianReviewId => fun K => debt = None /\ forall x, K x role None
  | PersistAmendment _ _ => fun K => debt = None /\ forall x, K x role None
  | RecordAmendmentMessage _ _ => fun K => debt = None /\ forall x, K x role None
  | SendWarning _ _ => fun K => debt = None /\ forall x, K x role None
  | GuardianRejectionMessage _ => fun K => debt = None /\ forall x, K x role None
  | RegisterCall call => fun K => debt = None /\ role = Calls (Some (registration_id call)) /\ K tt (Calls None) None
  | RemoveCall _ => fun K => debt = None /\ role = Calls None /\ forall x, K x role None
  | DeniedContains k => fun K =>
      debt = None /\ role = Fresh /\ k = key /\ K true (FromCache false) None /\ K false Fresh None
  | ApprovedContains k => fun K =>
      debt = None /\ role = Fresh /\ k = key /\ K true (FromCache true) None /\ K false Fresh None
  | GetOrCreate k => fun K =>
      debt = None /\ role = Fresh /\ k = key /\ forall p, K (p, true) (Owning p None) None /\ K (p, false) (Waiting p) None
  | Listen p => fun K =>
      debt = None /\ ((role = Waiting p /\ forall n, K n (Listening p n) None) \/ (role = Woken p /\ forall n, K n (Woken p) None))
  | ReadDecision p => fun K =>
      debt = None /\ (forall d, K (Some d) (Settled d) None) /\
      (role = Woken p \/ exists n, role = Listening p n /\ K None (Asleep p n) None)
  | AwaitNotified p n => fun K => debt = None /\ role = Asleep p n /\ K tt (Woken p) None
  | PermissionRequestHooks _ id _ _ => fun K =>
      debt = None /\ exists p, role = Owning p None /\ id = approval_id_for_key key /\ forall x, K x (Owning p (HookSaid <$> x)) None
  | ReviewApprovalRequest _ _ request _ => fun K =>
      debt = None /\ exists p, role = Owning p None /\ na_id request = approval_id_for_key key /\
      forall d, K d (Owning p (Some (Reviewed d))) None
  | RequestCommandApproval _ id _ _ _ => fun K =>
      debt = None /\ exists p, role = Owning p None /\ id = approval_id_for_key key /\
      forall d, K d (Owning p (Some (Reviewed d))) None
  | RemoveDenied k => fun K =>
      debt = None /\ exists p said, role = Owning p said /\ k = key /\ fst (verdict said) = AllowForSession /\ K tt role None
  | InsertApproved k => fun K =>
      debt = None /\ exists p said, role = Owning p said /\ k = key /\ fst (verdict said) = AllowForSession /\ K tt role None
  | RemoveApproved k => fun K =>
      debt = None /\ exists p said, role = Owning p said /\ k = key /\ snd (verdict said) = true /\ K tt role None
  | InsertDenied k => fun K =>
      debt = None /\ exists p said, role = Owning p said /\ k = key /\ snd (verdict said) = true /\ K tt role None
  | WriteDecision p d => fun K =>
      debt = None /\ exists said, role = Owning p said /\ d = fst (verdict said) /\ K tt (Written p d) None
  | NotifyWaiters p => fun K => debt = None /\ exists d, role = Written p d /\ K tt (Told p d) None
  | RemovePending k => fun K => debt = None /\ exists p d, role = Told p d /\ k = key /\ K tt (Settled d) None
  | Unfinished => fun K => False
  end.

(** A program that keeps to the protocol and ends in a state of which [post] holds. *)
Fixpoint okp {A} (post : Role -> A -> Prop) (key : HostApprovalKey) (role : Role) (debt : option nat) (p : prog A) : Prop :=
  match p with
  | Ret a => debt = None /\ post role a
  | Vis e k => allowed key role debt e (fun x role debt => okp post key role debt (k x))
  end.

(** How a request ends, and how an operation on the calls does. *)
Definition request_post (role : Role) (d : NetworkState.NetworkDecision) : Prop :=
  match role with
  | FromCache true => d = NetworkState.NetworkAllow
  | FromCache false => d = deny REASON_NOT_ALLOWED
  | Settled decision => d = to_network_decision decision
  | Fresh => d = ask (lit "not_allowed")
  | _ => False
  end.
Definition calls_post (role : Role) (_ : unit) : Prop := exists registering, role = Calls registering.

(** ** The programs keep to the protocol *)

Lemma allowed_mono {X} key role debt (e : access X) (K K' : X -> Role -> option nat -> Prop) :
  (forall x r d, K x r d -> K' x r d) -> allowed key role debt e K -> allowed key role debt e K'.
Proof. intros HK. destruct e; cbn; naive_solver. Qed.

Lemma okp_mono {A} (post post' : Role -> A -> Prop) key p : (forall r a, post r a -> post' r a) ->
  forall role debt, okp post key role debt p -> okp post' key role debt p.
Proof.
  intros Hp. induction p as [a|X e k IH]; intros role debt; cbn; [naive_solver|]. apply allowed_mono. auto.
Qed.

Lemma okp_bind {A B} (post : Role -> A -> Prop) (post' : Role -> B -> Prop) key (p : prog A) (f : A -> prog B) :
  (forall r a, post r a -> okp post' key r None (f a)) ->
  forall role debt, okp post key role debt p -> okp post' key role debt (bind p f).
Proof.
  intros Hf. induction p as [a|X e k IH]; intros role debt; cbn; [intros [-> ?]; auto|]. apply allowed_mono. auto.
Qed.

(** Recording an outcome is allowed in any role, and keeps it. *)
Definition keeps (role : Role) {A} : Role -> A -> Prop := fun r _ => r = role.

Lemma record_call_outcome_ok key role id outcome : okp (keeps role) key role None (record_call_outcome id outcome).
Proof. cbn. split; [done|]. intros [token|]; cbn; by repeat split. Qed.

Lemma record_single_ok key role outcome : okp (keeps role) key role None (record_outcome_for_single_active_call outcome).
Proof. cbn. split; [done|]. intros [call|]; [apply record_call_outcome_ok|done]. Qed.

Lemma record_owner_ok key role owner (p : prog NetworkApprovalOutcome) : okp (keeps role) key role None p ->
  okp (keeps role) key role None (record_owner_outcome owner p).
Proof.
  intros Hp. destruct owner as [call|]; [|done]. cbn. eapply okp_bind; [|exact Hp].
  intros r o ->. apply record_call_outcome_ok.
Qed.

Lemma apply_amendment_ok key role turn amendment context : okp (keeps role) key role None (apply_amendment turn amendment context).
Proof. cbn. split; [done|]. intros [[]|err]; cbn; split; done. Qed.

(** Telling the decision and giving the approval up. *)
Lemma decide_ok {A} key pending said (p : prog A) (post : Role -> A -> Prop) d : d = fst (verdict said) ->
  okp post key (Settled d) None p ->
  okp post key (Owning pending said) None (bind (set_decision pending d) (fun _ => bind (perform (RemovePending key)) (fun _ => p))).
Proof.
  intros Hd Hp. cbn. split; [done|]. exists said. split; [done|]. split; [done|]. split; [done|]. exists d. split; [done|].
  split; [done|]. exists pending, d. done.
Qed.

Lemma refuse_ok key pending message : okp request_post key (Owning pending None) None (refuse pending key message).
Proof.
  unfold refuse. apply (decide_ok key pending None _ _ Deny eq_refl).
  eapply okp_bind; [|apply record_single_ok]. by intros r [] ->.
Qed.

(** What [resolve] returns is the verdict on the answer. *)
Lemma resolve_ok key role turn context owner review d :
  okp (fun r out => r = role /\ out = verdict (Some (Reviewed d))) key role None (resolve turn context owner review d).
Proof.
  assert (Hend : forall (p : prog unit) (out : PendingApprovalDecision * bool), okp (keeps role) key role None p ->
    okp (fun r o => r = role /\ o = out) key role None (bind p (fun _ => Ret out))).
  { intros p out Hp. eapply okp_bind; [|exact Hp]. by intros r a ->. }
  destruct d as [|c| |[host []]| | |]; cbn [resolve amendment_action]; try done.
  - apply Hend, apply_amendment_ok.
  - eapply okp_bind; [|apply apply_amendment_ok]. intros r [] ->. by apply Hend, record_owner_ok.
  - apply Hend. destruct review; apply record_owner_ok; [|done]. cbn. by split.
  - by apply Hend, record_owner_ok.
  - apply Hend. destruct review; apply record_owner_ok; [|done]. cbn. by split.
Qed.

Lemma settle_ok key pending said : okp request_post key (Owning pending said) None
  (settle pending key (fst (verdict said)) (snd (verdict said))).
Proof.
  unfold settle. eapply okp_bind with (post := keeps (Owning pending said)).
  - intros r [] ->. eapply okp_bind with (post := keeps (Owning pending said)).
    + intros r [] ->. by apply (decide_ok key pending said _ _ _ eq_refl).
    + destruct (snd (verdict said)) eqn:E; [|done]. cbn. naive_solver.
  - destruct (fst (verdict said)) eqn:E; try done. cbn. naive_solver.
Qed.

Lemma ask_for_approval_ok request pending :
  okp request_post (key_of request) (Owning pending None) None
    (ask_for_approval request (approval_protocol (r_protocol request)) (key_of request) pending).
Proof.
  unfold ask_for_approval. cbn [okp allowed bind perform mbind prog_bind]. split; [done|].
  intros [turn|]; [|apply refuse_ok]. cbn [okp allowed bind perform mbind prog_bind]. split; [done|]. intros [profile policy].
  destruct (negb _); [apply refuse_ok|]. destruct (negb _); [apply refuse_ok|].
  cbn [okp allowed bind perform mbind prog_bind]. split; [done|]. intros owner. split; [done|]. exists pending.
  split; [done|]. split; [done|]. intros [[|message]|].
  - by apply (decide_ok (key_of request) pending (Some (HookSaid HookOutput.Allow)) _ _ AllowOnce eq_refl).
  - eapply okp_bind; [|by apply record_owner_ok]. intros r [] ->.
    by apply (decide_ok (key_of request) pending (Some (HookSaid (HookOutput.Deny message))) _ _ Deny eq_refl).
  - eapply okp_bind with (post := keeps (Owning pending None)).
    + intros r review ->. eapply okp_bind with (post := fun r d => r = Owning pending (Some (Reviewed d))).
      * intros r d ->. eapply okp_bind; [|apply resolve_ok]. intros r out [-> ->]. apply settle_ok.
      * destruct review; cbn; naive_solver.
    + destruct (routes_approval_to_guardian turn); [|done]. cbn. naive_solver.
Qed.

Lemma wait_for_decision_ok key pending :
  okp (fun r d => r = Settled d) key (Waiting pending) None (wait_for_decision ROUNDS pending).
Proof.
  cbn. split; [done|]. left. split; [done|]. intros n. split; [done|]. split; [done|]. right. exists n.
  split; [done|]. split; [done|]. split; [done|]. split; [done|]. right. split; [done|]. intros m.
  split; [done|]. split; [done|]. by left.
Qed.

Lemma request_ok alive request : okp request_post (key_of request) Fresh None (network_policy_decider ROUNDS alive request).
Proof.
  destruct alive; [|done]. unfold network_policy_decider, handle_inline_policy_request. cbn [negb].
  change (from_request request (approval_protocol (r_protocol request))) with (key_of request).
  cbn [okp allowed bind perform mbind prog_bind]. split; [done|]. split; [done|]. split; [done|]. split; [done|].
  split; [done|]. split; [done|]. split; [done|]. split; [done|]. split; [done|]. split; [done|]. split; [done|]. intros p.
  split; [apply ask_for_approval_ok|]. cbn [fst snd negb]. eapply okp_bind; [|apply wait_for_decision_ok].
  by intros r d ->.
Qed.

(** The operations on the calls. *)
Lemma discard_ok {A} key role (p : prog A) registering : okp (keeps (Calls registering)) key role None p ->
  okp calls_post key role None (discard p).
Proof. intros Hp. eapply okp_bind; [|exact Hp]. intros r a ->. split; [done|]. by exists registering. Qed.

Lemma begin_ok key id token turn active spec :
  okp calls_post key (Calls (Some id)) None (discard (begin_network_approval id token turn active spec)).
Proof.
  destruct spec as [spec|]; cbn; [|unfold calls_post; naive_solver].
  destruct (_ || _); cbn; unfold calls_post; naive_solver.
Qed.

Lemma remove_ok key id : okp calls_post key (Calls None) None (discard (perform (RemoveCall id))).
Proof. cbn. unfold calls_post. naive_solver. Qed.

(** ** The invariant *)

(** A task, as far as the others rely on it. *)
Record Ghost := mkGhost { g_key : HostApprovalKey; g_role : Role; g_debt : option nat }.

Definition owned (g : Ghost) : option (HostApprovalKey * nat) :=
  match g_role g with Owning p _ | Written p _ | Told p _ => Some (g_key g, p) | _ => None end.
Definition registering (g : Ghost) : option str := match g_role g with Calls r => r | _ => None end.

(** Why a host is in one of the sets of the session. *)
Definition granted_for_session (said : Log) (key : HostApprovalKey) : Prop :=
  exists a, said_of said key a /\ fst (verdict (Some a)) = AllowForSession.
Definition denied_for_session (said : Log) (key : HostApprovalKey) : Prop :=
  exists a, said_of said key a /\ snd (verdict (Some a)) = true.

(** What is known in a role: [ks] gives the key of each approval ever pending. *)
Definition role_ok (aps : list PendingHostApproval) (said : Log) (synced : gset HostApprovalKey) (ks : list HostApprovalKey)
    (g : Ghost) : Prop :=
  match g_role g with
  | Calls _ | Fresh => True
  | FromCache true => g_key g ∈ synced \/ granted_for_session said (g_key g)
  | FromCache false => denied_for_session said (g_key g)
  | Waiting p => ks !! p = Some (g_key g)
  | Listening p n => ks !! p = Some (g_key g) /\ exists ap, aps !! p = Some ap /\ n <= notifications ap
  | Asleep p n => ks !! p = Some (g_key g) /\ n = 0
  | Woken p => ks !! p = Some (g_key g) /\ exists ap, aps !! p = Some ap /\ is_Some (decision ap)
  | Owning p a =>
      ks !! p = Some (g_key g) /\ aps !! p = Some (mkPending None 0) /\ (forall x, a = Some x -> said_of said (g_key g) x)
  | Written p d => ks !! p = Some (g_key g) /\ aps !! p = Some (mkPending (Some d) 0)
  | Told p d => ks !! p = Some (g_key g) /\ exists n, aps !! p = Some (mkPending (Some d) (S n))
  | Settled d => explained said (g_key g) d
  end.

(** Each pending approval has one owner; it is silent until the decision is written, and its decision is explained. *)
Record pend_ok (pending : gmap HostApprovalKey nat) (aps : list PendingHostApproval) (said : Log)
    (synced : gset HostApprovalKey) (ks : list HostApprovalKey) (gs : list Ghost) : Prop := {
  po_len : length ks = length aps;
  po_owned : omap owned gs ≡ₚ map_to_list pending;
  po_roles : forall g, g ∈ gs -> role_ok aps said synced ks g;
  po_told : forall p ap, aps !! p = Some ap -> 0 < notifications ap -> is_Some (decision ap);
  po_silent : forall p ap, aps !! p = Some ap -> notifications ap = 0 -> exists key, (key, p) ∈ omap owned gs;
  po_explained : forall p ap d k, aps !! p = Some ap -> decision ap = Some d -> ks !! p = Some k -> explained said k d
}.

(** A call with an outcome is cancelled, or about to be. *)
Record calls_ok (active : list (str * ActiveNetworkApprovalCall)) (outcomes : gmap str NetworkApprovalOutcome)
    (cancelled : gset nat) (issued : gset str) (gs : list Ghost) : Prop := {
  co_outcomes : forall id o, outcomes !! id = Some o ->
    exists call, index_get active id = Some call /\
      (cancellation_token call ∈ cancelled \/ exists g, g ∈ gs /\ g_debt g = Some (cancellation_token call));
  co_issued : forall id call, index_get active id = Some call -> id ∈ issued;
  co_nodup : NoDup (omap registering gs);
  co_registering : forall id, id ∈ omap registering gs -> id ∈ issued /\ index_get active id = None
}.

Definition hosts_ok (approved denied : gset HostApprovalKey) (said : Log) (synced : gset HostApprovalKey) : Prop :=
  (forall k, k ∈ approved -> k ∈ synced \/ granted_for_session said k) /\ (forall k, k ∈ denied -> denied_for_session said k).

Record inv (self : NetworkApprovalService) (said : Log) (synced : gset HostApprovalKey) (issued : gset str)
    (ks : list HostApprovalKey) (gs : list Ghost) : Prop := {
  inv_pend : pend_ok (pending_host_approvals self) (approvals self) said synced ks gs;
  inv_calls : calls_ok (active_calls self) (call_outcomes self) (cancelled self) issued gs;
  inv_hosts : hosts_ok (session_approved_hosts self) (session_denied_hosts self) said synced
}.

(** *** More is said *)

Definition more_said (said said' : Log) : Prop := forall x, x ∈ said -> x ∈ said'.

Lemma more_said_app said more : more_said said (said ++ more).
Proof. intros x Hx. apply elem_of_app. by left. Qed.

Lemma explained_mono said said' k d : more_said said said' -> explained said k d -> explained said' k d.
Proof. intros Hm [->|(a & Ha & Hd)]; [by left|]. right. exists a. split; [|done]. by apply Hm. Qed.

Lemma granted_mono said said' k : more_said said said' -> granted_for_session said k -> granted_for_session said' k.
Proof. intros Hm (a & Ha & Hd). exists a. split; [|done]. by apply Hm. Qed.

Lemma denied_mono said said' k : more_said said said' -> denied_for_session said k -> denied_for_session said' k.
Proof. intros Hm (a & Ha & Hd). exists a. split; [|done]. by apply Hm. Qed.

Lemma hosts_mono approved denied said said' synced : more_said said said' ->
  hosts_ok approved denied said synced -> hosts_ok approved denied said' synced.
Proof.
  intros Hm [Ha Hd]. split; intros k Hk.
  - destruct (Ha k Hk) as [|]; [by left|right]. by eapply granted_mono.
  - by eapply denied_mono, Hd.
Qed.

(** An approval is decided once, and notified more and more often. *)
Definition ap_le (aps aps' : list PendingHostApproval) : Prop := forall p ap, aps !! p = Some ap ->
  exists ap', aps' !! p = Some ap' /\ notifications ap <= notifications ap' /\ (forall d, decision ap = Some d -> decision ap' = Some d).

Lemma ap_le_refl aps : ap_le aps aps.
Proof. intros p ap Hp. by exists ap. Qed.

Lemma role_ok_mono aps aps' said said' synced synced' ks ks' g :
  ap_le aps aps' -> (forall k p, owned g = Some (k, p) -> p < length aps -> aps' !! p = aps !! p) -> more_said said said' ->
  synced ⊆ synced' -> ks `prefix_of` ks' -> role_ok aps said synced ks g -> role_ok aps' said' synced' ks' g.
Proof.
  intros Hle Hown Hm Hs Hk. unfold owned, role_ok in *. destruct g as [key role debt]; cbn [g_role g_key] in *.
  assert (Hks : forall p k, ks !! p = Some k -> ks' !! p = Some k) by (intros; by eapply prefix_lookup_Some).
  assert (Haps : forall p ap, aps !! p = Some ap -> (forall k q, Some (key, p) = Some (k, q) -> q < length aps -> aps' !! q = aps !! q) ->
    aps' !! p = Some ap).
  { intros p ap Hp Hq. rewrite (Hq key p eq_refl); [done|]. by eapply lookup_lt_Some. }
  destruct role as [| |[]| | | | | | | |]; try done.
  - intros [?|?]; [left; set_solver|right; by eapply granted_mono].
  - by eapply denied_mono.
  - auto.
  - intros (? & ap & Hp & Hn). split; [auto|]. destruct (Hle _ _ Hp) as (ap' & Hp' & Hn' & _). exists ap'. split; [done|lia].
  - intros [? ->]. auto.
  - intros (? & ap & Hp & [d Hd]). split; [auto|]. destruct (Hle _ _ Hp) as (ap' & Hp' & _ & Hd'). exists ap'. eauto.
  - intros (? & Hp & Hx). split; [auto|]. split; [by apply Haps|]. intros x Hx'. by apply Hm, Hx.
  - intros (? & Hp). split; [auto|]. by apply Haps.
  - intros (? & n & Hp). split; [auto|]. exists n. by apply Haps.
  - by apply explained_mono.
Qed.

(** *** Pending approvals *)

Lemma owned_key pending aps said synced ks gs g k p : pend_ok pending aps said synced ks gs -> g ∈ gs -> owned g = Some (k, p) ->
  g_key g = k /\ ks !! p = Some k.
Proof.
  intros H Hg Ho. pose proof (po_roles _ _ _ _ _ _ H g Hg) as Hr. unfold owned, role_ok in *.
  destruct (g_role g); simplify_eq; naive_solver.
Qed.

(** Two tasks do not own the same approval. *)
Lemma owned_once pending aps said synced ks g gs g' k k' p : pend_ok pending aps said synced ks (g :: gs) ->
  owned g = Some (k, p) -> g' ∈ gs -> owned g' = Some (k', p) -> False.
Proof.
  intros H Ho Hg' Ho'.
  destruct (owned_key _ _ _ _ _ _ g k p H) as [_ Hk]; [left|done|].
  destruct (owned_key _ _ _ _ _ _ g' k' p H) as [_ Hk']; [by right|done|].
  assert (k' = k) as -> by congruence.
  assert (Hnd : NoDup (omap owned (g :: gs))).
  { rewrite (po_owned _ _ _ _ _ _ H). apply NoDup_map_to_list. }
  cbn in Hnd. rewrite Ho in Hnd. apply NoDup_cons in Hnd as [Hn _]. apply Hn. apply list_elem_of_omap. by exists g'.
Qed.

(** One task changes its role, and keeps what it owns. *)
Lemma pend_same pending aps said said' synced ks g g' gs : owned g' = owned g -> more_said said said' ->
  role_ok aps said' synced ks g' ->
  pend_ok pending aps said synced ks (g :: gs) -> pend_ok pending aps said' synced ks (g' :: gs).
Proof.
  intros Ho Hm Hr H. assert (Hom : omap owned (g' :: gs) = omap owned (g :: gs)) by (cbn; by rewrite Ho).
  constructor; rewrite ?Hom; try apply H.
  - intros g0 [->|Hg0]%elem_of_cons; [done|].
    eapply role_ok_mono; [apply ap_le_refl|done|exact Hm|done|done|]. apply (po_roles _ _ _ _ _ _ H). by right.
  - intros p ap d k Hp Hd Hk. by eapply explained_mono, (po_explained _ _ _ _ _ _ H).
Qed.

(** A task becomes the owner of a new approval. *)
Lemma pend_create pending aps said synced ks key role debt debt' gs : pending !! key = None -> owned (mkGhost key role debt) = None ->
  pend_ok pending aps said synced ks (mkGhost key role debt :: gs) ->
  pend_ok (<[key := length aps]> pending) (aps ++ [mkPending None 0]) said synced (ks ++ [key])
    (mkGhost key (Owning (length aps) None) debt' :: gs).
Proof.
  intros Hn Ho H. pose proof (po_len _ _ _ _ _ _ H) as Hlen. pose proof (po_owned _ _ _ _ _ _ H) as Hown.
  cbn [omap list_omap] in Hown. rewrite Ho in Hown.
  assert (Hnew : forall p ap, (aps ++ [mkPending None 0]) !! p = Some ap -> aps !! p = Some ap \/ p = length aps /\ ap = mkPending None 0).
  { intros p ap [?|[Hl Hp]]%lookup_app_Some; [by left|right]. apply list_lookup_singleton_Some in Hp as [? <-]. split; [lia|done]. }
  constructor.
  - rewrite !length_app, Hlen. done.
  - cbn [omap list_omap owned g_role g_key]. rewrite map_to_list_insert by done. by rewrite Hown.
  - intros g0 [->|Hg0]%elem_of_cons.
    + cbn. split; [|split; [|done]]; [rewrite <- Hlen|]; by rewrite list_lookup_middle.
    + eapply role_ok_mono; [| |by intros x Hx|done|by eexists|apply (po_roles _ _ _ _ _ _ H); by right].
      * intros p ap Hp. exists ap. split; [by apply lookup_app_l_Some|done].
      * intros k p _ Hp. by apply lookup_app_l.
  - intros p ap [Hp|[-> ->]]%Hnew; [by apply (po_told _ _ _ _ _ _ H p)|cbn; lia].
  - intros p ap [Hp|[-> ->]]%Hnew Hz.
    + destruct (po_silent _ _ _ _ _ _ H p ap Hp Hz) as [k Hk]. exists k. cbn [omap list_omap] in Hk |- *. rewrite Ho in Hk. by right.
    + exists key. cbn. left.
  - intros p ap d k [Hp|[-> ->]]%Hnew; [|done]. intros Hd Hk. apply (po_explained _ _ _ _ _ _ H p ap d k Hp Hd).
    apply lookup_app_Some in Hk as [?|[Hl _]]; [done|]. apply lookup_lt_Some in Hp. lia.
Qed.

(** The owner changes the approval it owns. *)
Lemma pend_update pending aps said synced ks g g' gs key p ap ap' : owned g = Some (key, p) -> owned g' = Some (key, p) ->
  aps !! p = Some ap -> ap_le [ap] [ap'] -> is_Some (decision ap') ->
  (forall d, decision ap' = Some d -> explained said key d) ->
  role_ok (<[p := ap']> aps) said synced ks g' ->
  pend_ok pending aps said synced ks (g :: gs) -> pend_ok pending (<[p := ap']> aps) said synced ks (g' :: gs).
Proof.
  intros Ho Ho' Hp Hle Hd Hex Hr H. assert (Hom : omap owned (g' :: gs) = omap owned (g :: gs)) by (cbn; by rewrite Ho, Ho').
  assert (Hlt : p < length aps) by by eapply lookup_lt_Some.
  assert (Hnew : forall q a, <[p := ap']> aps !! q = Some a -> q = p /\ a = ap' \/ q <> p /\ aps !! q = Some a).
  { intros q a Hq. destruct (decide (q = p)) as [->|Hne].
    - rewrite list_lookup_insert_eq in Hq by done. left. naive_solver.
    - rewrite list_lookup_insert_ne in Hq by done. by right. }
  constructor; rewrite ?Hom.
  - by rewrite length_insert, (po_len _ _ _ _ _ _ H).
  - apply H.
  - intros g0 [->|Hg0]%elem_of_cons; [done|].
    eapply role_ok_mono; [| |by intros x Hx|done|done|apply (po_roles _ _ _ _ _ _ H); by right].
    + intros q a Hq. destruct (decide (q = p)) as [->|Hne].
      * destruct (Hle 0 ap eq_refl) as (a' & [= <-] & Hn & Hdd). exists ap'.
        rewrite list_lookup_insert_eq by done. simplify_eq. done.
      * exists a. by rewrite list_lookup_insert_ne.
    + intros k q Hoq _. rewrite list_lookup_insert_ne; [done|]. intros ->. by eapply owned_once.
  - intros q a [[-> ->]|[_ Hq]]%Hnew; [done|]. by apply (po_told _ _ _ _ _ _ H q).
  - intros q a [[-> ->]|[_ Hq]]%Hnew Hz.
    + exists key. cbn. rewrite Ho. left.
    + by apply (po_silent _ _ _ _ _ _ H q a).
  - intros q a d k [[-> ->]|[_ Hq]]%Hnew Hda Hk.
    + destruct (owned_key _ _ _ _ _ _ g key p H) as [_ Hk']; [left|done|]. simplify_eq. by apply Hex.
    + by eapply (po_explained _ _ _ _ _ _ H).
Qed.

(** The owner gives the approval up, once it is told. *)
Lemma pend_remove pending aps said synced ks key p d debt debt' gs :
  pend_ok pending aps said synced ks (mkGhost key (Told p d) debt :: gs) ->
  pend_ok (delete key pending) aps said synced ks (mkGhost key (Settled d) debt' :: gs).
Proof.
  intros H. pose proof (po_owned _ _ _ _ _ _ H) as Hown. cbn in Hown.
  destruct (po_roles _ _ _ _ _ _ H (mkGhost key (Told p d) debt)) as (Hk & n & Hp); [left|]. cbn [g_key] in Hk.
  assert (Hlk : pending !! key = Some p). { apply elem_of_map_to_list. rewrite <- Hown. left. }
  constructor; try apply H.
  - cbn. rewrite <- (map_to_list_delete _ _ _ Hlk) in Hown. by apply Permutation_cons_inv in Hown.
  - intros g0 [->|Hg0]%elem_of_cons; [|apply (po_roles _ _ _ _ _ _ H); by right].
    by apply (po_explained _ _ _ _ _ _ H p (mkPending (Some d) (S n))).
  - intros q ap Hq Hz. destruct (po_silent _ _ _ _ _ _ H q ap Hq Hz) as [k Hin]. cbn in Hin.
    apply elem_of_cons in Hin as [Heq|Hin]; [simplify_eq; done|]. by exists k.
Qed.

(** *** Calls *)

Lemma index_get_insert {A} (m : list (str * A)) k a k' :
  index_get (index_insert m k a) k' = if bool_decide (k = k') then Some a else index_get m k'.
Proof.
  induction m as [|[k0 a0] m IH]; cbn; [done|]. repeat case_bool_decide; simplify_eq; cbn; repeat case_bool_decide; try done; congruence.
Qed.

Lemma index_get_remove {A} (m : list (str * A)) k k' : k <> k' -> index_get (shift_remove m k) k' = index_get m k'.
Proof. intros Hne. induction m as [|[k0 a0] m IH]; cbn; [done|]. repeat (case_bool_decide; simplify_eq; cbn); done. Qed.

Lemma index_get_remove_Some {A} (m : list (str * A)) k k' a : index_get (shift_remove m k) k' = Some a -> is_Some (index_get m k').
Proof.
  induction m as [|[k0 a0] m IH]; cbn; [done|]. repeat (case_bool_decide; simplify_eq; cbn); intros; eauto.
Qed.

(** A task changes its role but not what it registers, and owes nothing before. *)
Lemma calls_same active outcomes cancelled issued g g' gs : registering g' = registering g -> g_debt g = None ->
  calls_ok active outcomes cancelled issued (g :: gs) -> calls_ok active outcomes cancelled issued (g' :: gs).
Proof.
  intros Hr Hd H. assert (Hom : omap registering (g' :: gs) = omap registering (g :: gs)) by (cbn; by rewrite Hr).
  constructor; rewrite ?Hom; try apply H.
  intros id o Ho. destruct (co_outcomes _ _ _ _ _ H id o Ho) as (call & Hc & Hin). exists call. split; [done|].
  destruct Hin as [?|(g0 & [->|Hg0]%elem_of_cons & Hg)]; [by left|congruence|]. right. exists g0. split; [by right|done].
Qed.

Lemma calls_record self issued key role gs id outcome debt self' :
  record_outcome_locked self id outcome = (debt, self') ->
  calls_ok (active_calls self) (call_outcomes self) (cancelled self) issued (mkGhost key role None :: gs) ->
  calls_ok (active_calls self') (call_outcomes self') (cancelled self') issued (mkGhost key role debt :: gs).
Proof.
  intros Hrec H. unfold record_outcome_locked in Hrec.
  destruct (index_get (active_calls self) id) as [call|] eqn:Hcall; [|by simplify_eq].
  assert (Hnew : calls_ok (active_calls self) (<[id := outcome]> (call_outcomes self)) (cancelled self) issued
                   (mkGhost key role (Some (cancellation_token call)) :: gs)).
  { constructor; try apply H. intros i o. destruct (decide (id = i)) as [->|Hne].
    - intros _. exists call. split; [done|]. right. eexists. split; [left|done].
    - rewrite lookup_insert_ne by done. intros Ho. destruct (co_outcomes _ _ _ _ _ H i o Ho) as (c & Hc & Hin).
      exists c. split; [done|]. destruct Hin as [?|(g0 & [->|Hg0]%elem_of_cons & Hg)]; [by left|done|].
      right. exists g0. split; [by right|done]. }
  destruct (call_outcomes self !! id) as [[]|]; simplify_eq; done.
Qed.

Lemma calls_cancel active outcomes cancelled issued key role token gs :
  calls_ok active outcomes cancelled issued (mkGhost key role (Some token) :: gs) ->
  calls_ok active outcomes ({[token]} ∪ cancelled) issued (mkGhost key role None :: gs).
Proof.
  intros H. constructor; try apply H. intros id o Ho. destruct (co_outcomes _ _ _ _ _ H id o Ho) as (call & Hc & Hin).
  exists call. split; [done|]. destruct Hin as [?|(g0 & [->|Hg0]%elem_of_cons & Hg)].
  - left. by apply elem_of_union_r.
  - injection Hg as ->. left. by apply elem_of_union_l, elem_of_singleton.
  - right. exists g0. split; [by right|done].
Qed.

Lemma calls_register active outcomes cancelled issued key call gs :
  calls_ok active outcomes cancelled issued (mkGhost key (Calls (Some (registration_id call))) None :: gs) ->
  calls_ok (index_insert active (registration_id call) call) outcomes cancelled issued (mkGhost key (Calls None) None :: gs).
Proof.
  intros H. set (id := registration_id call) in *.
  pose proof (co_nodup _ _ _ _ _ H) as Hnd. cbn in Hnd. apply NoDup_cons in Hnd as [Hfresh Hnd].
  destruct (co_registering _ _ _ _ _ H id) as [Hid Hnone]; [cbn; left|]. constructor.
  - intros i o Ho. destruct (co_outcomes _ _ _ _ _ H i o Ho) as (c & Hc & Hin). exists c.
    rewrite index_get_insert. rewrite bool_decide_eq_false_2 by congruence. split; [done|].
    destruct Hin as [?|(g0 & [->|Hg0]%elem_of_cons & Hg)]; [by left|done|right; exists g0; split; [by right|done]].
  - intros i c. rewrite index_get_insert. case_bool_decide as E; [by subst|]. apply (co_issued _ _ _ _ _ H).
  - done.
  - cbn. intros i Hi. rewrite index_get_insert. rewrite bool_decide_eq_false_2 by (intros ->; done).
    apply (co_registering _ _ _ _ _ H). cbn. by right.
Qed.

Lemma calls_remove active outcomes cancelled issued id gs :
  calls_ok active outcomes cancelled issued gs -> calls_ok (shift_remove active id) (delete id outcomes) cancelled issued gs.
Proof.
  intros H. constructor; try apply H.
  - intros i o [Hne Ho]%lookup_delete_Some. rewrite index_get_remove by done. by apply (co_outcomes _ _ _ _ _ H) in Ho.
  - intros i c Hi. apply index_get_remove_Some in Hi as [c' Hi]. by eapply (co_issued _ _ _ _ _ H).
  - intros i Hi. destruct (co_registering _ _ _ _ _ H i Hi) as [Hiss Hn]. split; [done|].
    destruct (index_get (shift_remove active id) i) eqn:E; [|done]. apply index_get_remove_Some in E as [? ?]. congruence.
Qed.

(** *** Roles *)

(** A task that only changes its role. *)
Lemma inv_role self said said' synced issued ks key role role' gs :
  owned (mkGhost key role' None) = owned (mkGhost key role None) ->
  registering (mkGhost key role' None) = registering (mkGhost key role None) ->
  more_said said said' -> (role_ok (approvals self) said synced ks (mkGhost key role None) ->
    role_ok (approvals self) said' synced ks (mkGhost key role' None)) ->
  inv self said synced issued ks (mkGhost key role None :: gs) -> inv self said' synced issued ks (mkGhost key role' None :: gs).
Proof.
  intros Ho Hreg Hm Hr [Hp Hc Hh]. constructor.
  - eapply pend_same; [exact Ho|exact Hm| |exact Hp]. apply Hr, (po_roles _ _ _ _ _ _ Hp). left.
  - eapply calls_same; [exact Hreg|done|exact Hc].
  - by eapply hosts_mono.
Qed.

(** The parts of the service that a lemma does not mention are as before. *)
Ltac rest_as_before := constructor; cbn [with_pending with_hosts with_calls with_cancelled pending_host_approvals approvals
  active_calls call_outcomes cancelled session_approved_hosts session_denied_hosts]; try done.

Lemma create_inv self said synced issued ks key p owner self' gs :
  get_or_create_pending_approval self key = ((p, owner), self') ->
  inv self said synced issued ks (mkGhost key Fresh None :: gs) ->
  exists ks', inv self' said synced issued ks' (mkGhost key (if owner then Owning p None else Waiting p) None :: gs).
Proof.
  intros Hget H. unfold get_or_create_pending_approval in Hget. destruct (pending_host_approvals self !! key) as [q|] eqn:Hk; simplify_eq.
  - exists ks. eapply inv_role; [| | | |exact H]; [done|done|by intros x Hx|]. intros _. cbn.
    pose proof (inv_pend _ _ _ _ _ _ H) as Hp.
    apply elem_of_map_to_list in Hk. rewrite <- (po_owned _ _ _ _ _ _ Hp) in Hk.
    apply list_elem_of_omap in Hk as (g & Hg & Ho). by eapply owned_key in Ho as [_ Ho].
  - exists (ks ++ [key]). destruct H as [Hp Hc Hh]. rest_as_before.
    + eapply pend_create; [| |exact Hp]; done.
    + eapply calls_same; [| |exact Hc]; done.
Qed.

Lemma write_inv self said synced issued ks key p answer ap gs : approvals self !! p = Some ap ->
  inv self said synced issued ks (mkGhost key (Owning p answer) None :: gs) ->
  inv (with_pending (pending_host_approvals self)
         (<[p := mkPending (Some (fst (verdict answer))) (notifications ap)]> (approvals self)) self)
    said synced issued ks (mkGhost key (Written p (fst (verdict answer))) None :: gs).
Proof.
  intros Hap [Hp Hc Hh]. destruct (po_roles _ _ _ _ _ _ Hp (mkGhost key (Owning p answer) None)) as (Hk & Hlk & Hsaid); [left|].
  cbn [g_key] in *. simplify_eq.
  assert (Hlt : p < length (approvals self)) by by eapply lookup_lt_Some.
  rest_as_before; [|by eapply calls_same; [| |exact Hc]].
  eapply (pend_update _ _ _ _ _ _ _ _ key p); [| |exact Hap| | | | |exact Hp]; [done|done| |done| |cbn].
  - intros [|i] a Ha; [|done]. cbn in Ha. simplify_eq. by eexists.
  - intros d [= <-]. destruct answer as [a|]; [right|by left]. exists a. split; [by apply Hsaid|done].
  - split; [done|]. by rewrite list_lookup_insert_eq.
Qed.

Lemma notify_inv self said synced issued ks key p d ap gs : approvals self !! p = Some ap ->
  inv self said synced issued ks (mkGhost key (Written p d) None :: gs) ->
  inv (with_pending (pending_host_approvals self) (<[p := mkPending (decision ap) (S (notifications ap))]> (approvals self)) self)
    said synced issued ks (mkGhost key (Told p d) None :: gs).
Proof.
  intros Hap [Hp Hc Hh]. destruct (po_roles _ _ _ _ _ _ Hp (mkGhost key (Written p d) None)) as (Hk & Hlk); [left|].
  cbn [g_key] in *. simplify_eq. cbn [decision notifications].
  assert (Hlt : p < length (approvals self)) by by eapply lookup_lt_Some.
  rest_as_before; [|by eapply calls_same; [| |exact Hc]].
  eapply (pend_update _ _ _ _ _ _ _ _ key p); [| |exact Hap| | | | |exact Hp]; [done|done| |done| |cbn].
  - intros [|i] a Ha; [|done]. cbn in Ha. simplify_eq. eexists. split; [done|]. cbn. split; [lia|done].
  - intros d' [= <-]. by eapply (po_explained _ _ _ _ _ _ Hp).
  - split; [done|]. exists 0. by rewrite list_lookup_insert_eq.
Qed.

Lemma hosts_inv self said synced issued ks gs approved denied : hosts_ok approved denied said synced ->
  inv self said synced issued ks gs -> inv (with_hosts approved denied self) said synced issued ks gs.
Proof. intros Hh' [Hp Hc Hh]. by rest_as_before. Qed.

(** What an owner was told is in the log. *)
Lemma owner_said self said synced issued ks key p answer gs : inv self said synced issued ks (mkGhost key (Owning p answer) None :: gs) ->
  answer <> None -> exists a, answer = Some a /\ said_of said key a.
Proof.
  intros H Hn. destruct (po_roles _ _ _ _ _ _ (inv_pend _ _ _ _ _ _ H) (mkGhost key (Owning p answer) None)) as (_ & _ & Hs); [left|].
  destruct answer as [a|]; [|done]. exists a. split; [done|]. by apply Hs.
Qed.

(** An owner hears something about its approval. *)
Lemma hear_inv self said synced issued ks key p a gs :
  inv self said synced issued ks (mkGhost key (Owning p None) None :: gs) ->
  inv self (said ++ [(approval_id_for_key key, a)]) synced issued ks (mkGhost key (Owning p (Some a)) None :: gs).
Proof.
  intros H. eapply inv_role; [| | | |exact H]; [done|done|apply more_said_app|].
  intros (Hk & Hp & _). split; [done|]. split; [done|]. intros x [= <-]. apply elem_of_app. right. by apply list_elem_of_singleton.
Qed.

(** A waiter looks at the approval: there is no decision yet, and then nobody was notified. *)
Lemma read_inv self said synced issued ks key role p ap gs : approvals self !! p = Some ap ->
  role = Woken p \/ (exists n, role = Listening p n) ->
  inv self said synced issued ks (mkGhost key role None :: gs) ->
  match decision ap with
  | Some d => inv self said synced issued ks (mkGhost key (Settled d) None :: gs)
  | None => exists n, role = Listening p n /\ inv self said synced issued ks (mkGhost key (Asleep p n) None :: gs)
  end.
Proof.
  intros Hap Hrole H. pose proof (inv_pend _ _ _ _ _ _ H) as Hp.
  pose proof (po_roles _ _ _ _ _ _ Hp (mkGhost key role None) (list_elem_of_here _ _)) as Hr.
  destruct (decision ap) as [d|] eqn:Hd.
  - eapply inv_role; [| | | |exact H]; [by destruct Hrole as [->|[n ->]]..|by intros x Hx|]. intros _.
    eapply (po_explained _ _ _ _ _ _ Hp p ap); [done|done|]. destruct Hrole as [->|[n ->]]; by destruct Hr.
  - destruct Hrole as [->|[n ->]].
    + destruct Hr as (_ & ap' & Hap' & [d Hd']). simplify_eq.
    + exists n. split; [done|]. eapply inv_role; [| | | |exact H]; [done|done|by intros x Hx|].
      intros (Hk & ap' & Hap' & Hn). split; [done|]. assert (ap' = ap) as -> by congruence.
      destruct (decide (0 < notifications ap)) as [Hpos|]; [|lia].
      destruct (po_told _ _ _ _ _ _ Hp p ap Hap Hpos) as [d Hd']. congruence.
Qed.

(** Waking up. *)
Lemma wake_inv self said synced issued ks key p n ap gs : approvals self !! p = Some ap -> n < notifications ap ->
  inv self said synced issued ks (mkGhost key (Asleep p n) None :: gs) ->
  inv self said synced issued ks (mkGhost key (Woken p) None :: gs).
Proof.
  intros Hap Hn H. eapply inv_role; [| | | |exact H]; [done|done|by intros x Hx|]. intros (Hk & ->). split; [done|].
  exists ap. split; [done|]. by apply (po_told _ _ _ _ _ _ (inv_pend _ _ _ _ _ _ H) p).
Qed.

(** Paying a debt, or making one, is nothing to the pending approvals. *)
Lemma pend_debt pending aps said synced ks key role debt debt' gs :
  pend_ok pending aps said synced ks (mkGhost key role debt :: gs) -> pend_ok pending aps said synced ks (mkGhost key role debt' :: gs).
Proof.
  intros H. eapply pend_same; [| | |exact H]; [done|by intros x Hx|].
  apply (po_roles _ _ _ _ _ _ H (mkGhost key role debt)). left.
Qed.

Lemma record_inv self said synced issued ks key role id outcome debt self' gs :
  record_outcome_locked self id outcome = (debt, self') -> inv self said synced issued ks (mkGhost key role None :: gs) ->
  inv self' said synced issued ks (mkGhost key role debt :: gs).
Proof.
  intros Hs [Hp Hc Hh]. pose proof (calls_record _ _ _ _ _ _ _ _ _ Hs Hc) as Hc'. apply (pend_debt _ _ _ _ _ _ _ _ debt) in Hp.
  unfold record_outcome_locked in Hs.
  destruct (index_get (active_calls self) id); [destruct (call_outcomes self !! id) as [[]|]|]; simplify_eq; by constructor.
Qed.

(** A waiter's decision changes neither set; what an owner puts into a set was said. *)
Lemma owner_hosts_inv self said synced issued ks key p answer approved denied gs :
  (answer <> None -> approved ⊆ {[key]} ∪ session_approved_hosts self /\ denied ⊆ {[key]} ∪ session_denied_hosts self) ->
  fst (verdict answer) = AllowForSession /\ denied ⊆ session_denied_hosts self \/
  snd (verdict answer) = true /\ approved ⊆ session_approved_hosts self ->
  inv self said synced issued ks (mkGhost key (Owning p answer) None :: gs) ->
  inv (with_hosts approved denied self) said synced issued ks (mkGhost key (Owning p answer) None :: gs).
Proof.
  intros Hsub Hv H. destruct (owner_said _ _ _ _ _ _ _ _ _ H) as (a & -> & Hsaid); [by intros ->; destruct Hv as [[? _]|[? _]]|].
  destruct (Hsub ltac:(done)) as [Ha Hd]. apply hosts_inv; [|done]. destruct (inv_hosts _ _ _ _ _ _ H) as [Happ Hden].
  split; intros k Hk; destruct Hv as [[Hv Hn]|[Hv Hn]].
  - apply Ha in Hk as [->%elem_of_singleton|Hk]%elem_of_union; [right; by exists a|auto].
  - by apply Happ, Hn.
  - by apply Hden, Hn.
  - apply Hd in Hk as [->%elem_of_singleton|Hk]%elem_of_union; [by exists a|auto].
Qed.

(** *** One access *)

(** What the session answers. *)
Lemma external_inv {X} self said synced issued ks key role debt gs (e : access X) K x : external e = true ->
  allowed key role debt e K -> inv self said synced issued ks (mkGhost key role debt :: gs) ->
  exists role', K x role' None /\ inv self (said ++ heard e x) synced issued ks (mkGhost key role' None :: gs).
Proof.
  intros He Ha H. destruct e; try discriminate He; cbn in Ha |- *; rewrite ?app_nil_r;
    try (destruct Ha as (-> & HK); by exists role);
    destruct Ha as (-> & p & -> & -> & HK); eexists; (split; [done|]); try by apply hear_inv.
  destruct x as [d|]; cbn; [by apply hear_inv|by rewrite app_nil_r].
Qed.

(** The accesses of those that wait, and of those that look into the sets of the session. *)
Definition reads {X} (e : access X) : bool :=
  match e with
  | DeniedContains _ | ApprovedContains _ | GetOrCreate _ | Listen _ | ReadDecision _ | AwaitNotified _ _ => true
  | _ => false
  end.

Lemma reads_inv {X} self said synced issued ks key role debt gs (e : access X) K x self' : reads e = true ->
  allowed key role debt e K -> serve self e = Some (x, self') -> inv self said synced issued ks (mkGhost key role debt :: gs) ->
  exists ks' role', K x role' None /\ inv self' said synced issued ks' (mkGhost key role' None :: gs).
Proof.
  intros He Ha Hs H. destruct e; try discriminate He; cbn in Ha, Hs.
  - destruct Ha as (-> & -> & -> & Ht & Hf). simplify_eq. case_bool_decide as Hd; exists ks; eexists; (split; [done|]); [|done].
    eapply inv_role; [| | | |exact H]; [done|done|by intros y Hy|]. intros _. by apply (inv_hosts _ _ _ _ _ _ H).
  - destruct Ha as (-> & -> & -> & Ht & Hf). simplify_eq. case_bool_decide as Hd; exists ks; eexists; (split; [done|]); [|done].
    eapply inv_role; [| | | |exact H]; [done|done|by intros y Hy|]. intros _. by apply (inv_hosts _ _ _ _ _ _ H).
  - destruct Ha as (-> & -> & -> & HK). injection Hs as Hs. destruct x as [p owner]. destruct (HK p) as [Ht Hf].
    destruct (create_inv _ _ _ _ _ _ _ _ _ _ Hs H) as [ks' H']. exists ks'. destruct owner; eauto.
  - destruct Ha as (-> & Ha). apply bind_Some in Hs as (ap & Hap & Hs). simplify_eq. exists ks.
    destruct Ha as [[-> HK]|[-> HK]]; eexists; (split; [by apply HK|]); [|done].
    eapply inv_role; [| | | |exact H]; [done|done|by intros y Hy|]. intros Hk. split; [done|]. by exists ap.
  - destruct Ha as (-> & HKd & Ha). apply bind_Some in Hs as (ap & Hap & Hs). injection Hs as <- <-. exists ks.
    assert (Hrole : role = Woken pending \/ (exists n, role = Listening pending n)) by naive_solver.
    pose proof (read_inv _ _ _ _ _ _ _ _ _ _ Hap Hrole H) as Hread. destruct (decision ap) as [d|]; [by eexists|].
    destruct Hread as (n & -> & H'). destruct Ha as [?|(m & [= <-] & HK)]; [done|]. by eexists.
  - destruct Ha as (-> & -> & HK). apply bind_Some in Hs as (ap & Hap & Hs). case_decide as Hn; [|done]. simplify_eq. exists ks.
    eexists. split; [exact HK|]. by eapply wake_inv.
Qed.

(** An access that the protocol allows keeps the invariant, whatever it is answered. *)
Lemma access_inv {X} self said synced issued ks key role debt gs (e : access X) K x self' :
  allowed key role debt e K -> answered self e x self' -> inv self said synced issued ks (mkGhost key role debt :: gs) ->
  exists ks' role' debt', K x role' debt' /\ inv self' (said ++ heard e x) synced issued ks' (mkGhost key role' debt' :: gs).
Proof.
  intros Ha [Hs|[He ->]] H; [|destruct (external_inv _ _ _ _ _ _ _ _ _ _ _ x He Ha H) as (r & ? & ?); by exists ks, r, None].
  destruct (reads e) eqn:Hre.
  { destruct (reads_inv _ _ _ _ _ _ _ _ _ _ _ _ _ Hre Ha Hs H) as (ks' & r & HK & H'). exists ks', r, None. split; [done|].
    destruct e; try discriminate Hre; cbn; by rewrite app_nil_r. }
  destruct e; try discriminate Hre; try discriminate Hs; cbn in Ha, Hs |- *; rewrite ?app_nil_r; exists ks.
  - destruct Ha as (-> & answer & -> & -> & HK). apply bind_Some in Hs as (ap & Hap & Hs). simplify_eq.
    eexists _, None. split; [done|]. by apply write_inv.
  - destruct Ha as (-> & d & -> & HK). apply bind_Some in Hs as (ap & Hap & Hs). simplify_eq.
    eexists _, None. split; [done|]. by apply notify_inv.
  - destruct Ha as (-> & p & d & -> & -> & HK). simplify_eq. eexists _, None. split; [done|].
    destruct H as [Hp Hc Hh]. rest_as_before; [by eapply pend_remove|by eapply calls_same; [| |exact Hc]].
  - destruct Ha as (-> & p & answer & -> & -> & Hv & HK). simplify_eq. eexists _, None. split; [done|].
    apply owner_hosts_inv; [set_solver|left; set_solver|done].
  - destruct Ha as (-> & p & answer & -> & -> & Hv & HK). simplify_eq. eexists _, None. split; [done|].
    apply owner_hosts_inv; [set_solver|left; set_solver|done].
  - destruct Ha as (-> & p & answer & -> & -> & Hv & HK). simplify_eq. eexists _, None. split; [done|].
    apply owner_hosts_inv; [set_solver|right; set_solver|done].
  - destruct Ha as (-> & p & answer & -> & -> & Hv & HK). simplify_eq. eexists _, None. split; [done|].
    apply owner_hosts_inv; [set_solver|right; set_solver|done].
  - destruct Ha as (-> & HK). simplify_eq. by eexists _, None.
  - destruct Ha as (-> & HK). injection Hs as Hs. exists role, x. split; [done|]. by eapply record_inv.
  - destruct Ha as (-> & HK). simplify_eq. eexists _, None. split; [done|]. destruct H as [Hp Hc Hh].
    rest_as_before; [by eapply pend_debt|by apply calls_cancel].
  - destruct Ha as (-> & -> & HK). simplify_eq. eexists _, None. split; [done|]. destruct H as [Hp Hc Hh].
    rest_as_before; [|by apply calls_register]. eapply pend_same; [| | |exact Hp]; [done|by intros y Hy|done].
  - destruct Ha as (-> & -> & HK). injection Hs as <- <-. eexists _, None. split; [done|]. destruct H as [Hp Hc Hh].
    rest_as_before. by apply calls_remove.
Qed.

(** *** Steps *)

Lemma inv_reorder self said synced issued ks gs gs' : gs ≡ₚ gs' -> inv self said synced issued ks gs -> inv self said synced issued ks gs'.
Proof.
  intros Hperm [[Hl Ho Hr Ht Hs He] [Hco Hci Hcn Hcr] Hh]. constructor; [constructor|constructor|]; try done.
  - by rewrite <- Hperm.
  - intros g. rewrite <- Hperm. apply Hr.
  - intros p ap Hp Hz. setoid_rewrite <- Hperm. by eapply Hs.
  - setoid_rewrite <- Hperm. done.
  - by rewrite <- Hperm.
  - intros id. rewrite <- Hperm. apply Hcr.
Qed.

(** The rest of a task keeps to the protocol. *)
Definition task_ok (t : Task) (g : Ghost) : Prop :=
  match t with
  | Request r p => g_key g = key_of r /\ okp request_post (g_key g) (g_role g) (g_debt g) p
  | Calling p => okp calls_post (g_key g) (g_role g) (g_debt g) p
  end.
Definition sys_inv (s : System) : Prop :=
  exists ks gs, Forall2 task_ok (tasks s) gs /\ inv (svc s) (log s) (synced s) (issued s) ks gs.

Lemma prog_step_inv {A} (post : Role -> A -> Prop) self said synced issued ks key role debt gs p self' more p' :
  okp post key role debt p -> prog_step self p self' more p' -> inv self said synced issued ks (mkGhost key role debt :: gs) ->
  exists ks' role' debt', okp post key role' debt' p' /\ inv self' (said ++ more) synced issued ks' (mkGhost key role' debt' :: gs).
Proof.
  destruct p as [a|X e k]; [done|]. intros Hok (x & Ha & -> & ->) H. cbn in Hok.
  by apply (access_inv _ _ _ _ _ _ _ _ _ _ _ _ _ Hok Ha H).
Qed.

Lemma request_step_inv self said synced issued ks t g gs self' more t' :
  task_ok t g -> task_step self t self' more t' -> inv self said synced issued ks (g :: gs) ->
  exists ks' g', task_ok t' g' /\ inv self' (said ++ more) synced issued ks' (g' :: gs).
Proof.
  intros Hok Hst H. destruct g as [key role debt]. destruct t as [r p|p], t' as [r' p'|p']; try done.
  - destruct Hok as [Hk Hok], Hst as [-> Hst]. cbn [g_key g_role g_debt] in *.
    destruct (prog_step_inv _ _ _ _ _ _ _ _ _ _ _ _ _ _ Hok Hst H) as (ks' & role' & debt' & Hok' & H').
    by exists ks', (mkGhost key role' debt').
  - destruct (prog_step_inv _ _ _ _ _ _ _ _ _ _ _ _ _ _ Hok Hst H) as (ks' & role' & debt' & Hok' & H').
    by exists ks', (mkGhost key role' debt').
Qed.

Lemma run_inv s s' : run s s' -> sys_inv s -> sys_inv s'.
Proof.
  intros [self said sy iss l t r self' more t' Hst] (ks & gs & Hts & H). cbn in *.
  apply Forall2_app_inv_l in Hts as (gl & gr0 & Hl & Hr & ->). apply Forall2_cons_inv_l in Hr as (g & gr & Hg & Hr & ->).
  apply (inv_reorder _ _ _ _ _ _ (g :: gl ++ gr)) in H; [|by rewrite Permutation_middle].
  destruct (request_step_inv _ _ _ _ _ _ _ _ _ _ _ Hg Hst H) as (ks' & g' & Hg' & H').
  exists ks', (gl ++ g' :: gr). split; [by apply Forall2_app; [|constructor]|]. eapply inv_reorder; [|exact H']. by rewrite Permutation_middle.
Qed.

(** A new task that owns and owes nothing. *)
Lemma spawn_inv s ids t g : (forall id, registering g = Some id -> id ∈ ids /\ id ∉ issued s) ->
  owned g = None -> (forall aps said sy ks, role_ok aps said sy ks g) -> task_ok t g -> sys_inv s -> sys_inv (spawn s ids t).
Proof.
  intros Hreg Ho Hr Hok (ks & gs & Hts & H). exists ks, (gs ++ [g]). split; [by apply Forall2_app; [|constructor]|].
  eapply inv_reorder; [symmetry; apply Permutation_app_comm|]. cbn [app svc spawn log synced issued].
  destruct H as [[Hl Hown Hro Ht Hs He] [Hco Hci Hcn Hcr] Hh]. constructor; [constructor|constructor|]; try done.
  - cbn. by rewrite Ho.
  - intros g0 [->|Hg0]%elem_of_cons; auto.
  - intros p ap Hp Hz. destruct (Hs p ap Hp Hz) as [k Hk]. exists k. cbn. by rewrite Ho.
  - intros id o Hid. destruct (Hco id o Hid) as (call & Hc & Hin). exists call. split; [done|].
    destruct Hin as [?|(g0 & Hg0 & Hd)]; [by left|right]. exists g0. split; [by right|done].
  - intros id call Hid. apply elem_of_union_r. by eapply Hci.
  - cbn. destruct (registering g) as [id|]; [|done]. apply NoDup_cons. split; [|done].
    intros Hin. destruct (Hreg id eq_refl) as [_ Hn]. by apply Hn, Hcr.
  - cbn. intros id Hin. assert (Hcase : registering g = Some id \/ id ∈ omap registering gs).
    { destruct (registering g) as [id'|]; [|by right]. apply elem_of_cons in Hin as [->|]; auto. }
    destruct Hcase as [Hg|Hin']; [|destruct (Hcr id Hin'); split; [by apply elem_of_union_r|done]].
    destruct (Hreg id Hg) as [Hid Hn]. split; [by apply elem_of_union_l|].
    destruct (index_get _ id) as [call|] eqn:Hc; [|done]. by apply Hci in Hc.
Qed.

Lemma spawn_request_inv s alive r : sys_inv s -> sys_inv (spawn s ∅ (Request r (network_policy_decider ROUNDS alive r))).
Proof. apply (spawn_inv _ _ _ (mkGhost (key_of r) Fresh None)); [done..|]. split; [done|]. apply request_ok. Qed.

(** Some key, for the tasks that have none. *)
Definition no_key : HostApprovalKey := mkKey [] [] 0.
Lemma spawn_calls_inv s p : okp calls_post no_key (Calls None) None p -> sys_inv s -> sys_inv (spawn s ∅ (Calling p)).
Proof. intros Hp. by apply (spawn_inv _ _ _ (mkGhost no_key (Calls None) None)). Qed.

Lemma sync_inv s hosts : sys_inv s ->
  sys_inv (mkSystem (sync_session_approved_hosts_to hosts (svc s)) (log s) (hosts ∪ synced s) (issued s) (tasks s)).
Proof.
  intros (ks & gs & Hts & [[Hl Hown Hro Ht Hs He] Hc [Ha Hd]]). exists ks, gs. split; [done|].
  constructor; [constructor|done|]; cbn; try done.
  - intros g Hg. eapply role_ok_mono; [apply ap_le_refl|done|by intros x Hx| |done|by apply Hro]. set_solver.
  - split; [|done]. intros k Hk. left. set_solver.
Qed.

Lemma request_spawn_step_inv s s' : step s s' -> sys_inv s -> sys_inv s'.
Proof.
  intros Hst H. destruct Hst as [s s' Hrun|s alive r|s id token turn active spec Hid|s active|s deferred|s id|s blocked|s hosts].
  - by eapply run_inv.
  - by apply spawn_request_inv.
  - apply (spawn_inv _ _ _ (mkGhost no_key (Calls (Some id)) None)); [|done..|apply begin_ok|done].
    intros i [= <-]. split; [by apply elem_of_singleton|done].
  - apply spawn_calls_inv; [|done]. destruct active as [[id|] mode token]; cbn; unfold calls_post; naive_solver.
  - apply spawn_calls_inv; [|done]. destruct deferred as [[id token [outcome|]]|]; cbn; unfold calls_post; naive_solver.
  - apply spawn_calls_inv; [|done]. apply remove_ok.
  - apply spawn_calls_inv; [|done]. unfold record_blocked_request. destruct (denied_network_policy_message blocked); [|by split; [|exists None]].
    eapply okp_mono; [|apply record_single_ok]. intros r [] ->. by exists None.
  - by apply sync_inv.
Qed.

Lemma reachable_sys_inv s : rtc step initial s -> sys_inv s.
Proof.
  intros Hr. assert (H0 : sys_inv initial).
  { exists [], []. split; [constructor|]. constructor; [constructor|constructor|]; cbn; try done;
      [by intros g Hg%elem_of_nil|apply NoDup_nil_2|split; set_solver]. }
  revert H0. induction Hr as [|s1 s2 s3 Hst Hr IH]; [done|]. intros H1. apply IH. by eapply request_spawn_step_inv.
Qed.

(** ** Every request is answered *)

Definition finished (t : Task) : bool := match t with Request _ (Ret _) | Calling (Ret _) => true | _ => false end.

Lemma served {X} self (e : access X) : is_Some (serve self e) -> exists x self', answered self e x self'.
Proof. intros [[x self'] Hs]. exists x, self'. by left. Qed.

(** An access can be made, unless it waits for a decision that was not announced. *)
Lemma access_enabled {X} self said synced issued ks gs key role debt (e : access X) K :
  allowed key role debt e K -> inv self said synced issued ks gs -> mkGhost key role debt ∈ gs ->
  (exists x self', answered self e x self') \/
  (exists p ap, role = Asleep p 0 /\ approvals self !! p = Some ap /\ notifications ap = 0).
Proof.
  intros Ha H Hg. pose proof (inv_pend _ _ _ _ _ _ H) as Hp. pose proof (po_roles _ _ _ _ _ _ Hp _ Hg) as Hr.
  assert (Hlive : forall p, ks !! p = Some key -> exists ap, approvals self !! p = Some ap).
  { intros p Hk. apply lookup_lt_is_Some. rewrite <- (po_len _ _ _ _ _ _ Hp). by eapply lookup_lt_Some. }
  destruct e; try (exfalso; exact Ha); try (left; apply served; by eexists); cbn in Ha.
  - assert (Hk : ks !! pending = Some key) by (destruct Ha as (_ & [[-> _]|[-> _]]); cbn in Hr; tauto).
    destruct (Hlive _ Hk) as [ap Hap]. left. eexists _, self. left. cbn. by rewrite Hap.
  - assert (Hk : ks !! pending = Some key) by (destruct Ha as (_ & _ & [->|(n & -> & _)]); cbn in Hr; tauto).
    destruct (Hlive _ Hk) as [ap Hap]. left. eexists _, self. left. cbn. by rewrite Hap.
  - destruct Ha as (_ & -> & _). destruct Hr as (Hk & ->). destruct (Hlive _ Hk) as [ap Hap].
    destruct (decide (notifications ap = 0)) as [Hz|Hz]; [right; by exists pending, ap|left]. exists tt, self. left. cbn. rewrite Hap. cbn.
    by rewrite decide_True by lia.
  - destruct Ha as (_ & answer & -> & _). destruct Hr as (Hk & Hap & _). left. eexists _, _. left. cbn. by rewrite Hap.
  - destruct Ha as (_ & d' & -> & _). destruct Hr as (Hk & Hap). left. eexists _, _. left. cbn. by rewrite Hap.
  - left. exists None, self. by right.
  - left. exists (WritableRoots.Disabled, ExecApproval.Never), self. by right.
  - left. exists None, self. by right.
  - left. exists [], self. by right.
  - left. exists Denied, self. by right.
  - left. exists Denied, self. by right.
  - left. exists (Ok tt), self. by right.
  - left. exists tt, self. by right.
  - left. exists tt, self. by right.
  - left. exists [], self. by right.
Qed.

(** So a task can go on, is finished, or sleeps. *)
Lemma task_enabled self said synced issued ks gs t g : inv self said synced issued ks gs -> task_ok t g -> g ∈ gs ->
  finished t = true \/ (exists self' more t', task_step self t self' more t') \/
  (exists p ap, g_role g = Asleep p 0 /\ approvals self !! p = Some ap /\ notifications ap = 0).
Proof.
  intros H Hok Hg. destruct g as [key role debt], t as [r [d|X e k]|[u|X e k]]; try by left.
  - destruct Hok as [Hk Hok]. destruct (access_enabled _ _ _ _ _ _ _ _ _ _ _ Hok H Hg) as [(x & self' & Ha)|]; [|by right; right].
    right; left. exists self', (heard e x), (Request r (k x)). split; [done|]. by exists x.
  - destruct (access_enabled _ _ _ _ _ _ _ _ _ _ _ Hok H Hg) as [(x & self' & Ha)|]; [|by right; right].
    right; left. exists self', (heard e x), (Calling (k x)). by exists x.
Qed.

(** A finished task owns and owes nothing. *)
Lemma finished_owns t g : task_ok t g -> finished t = true -> owned g = None /\ g_debt g = None.
Proof.
  destruct t as [r [d|X e k]|[u|X e k]]; try done.
  - intros (_ & Hd & Hp) _. split; [|done]. unfold owned. destruct (g_role g); done.
  - intros (Hd & registering & Hp) _. split; [|done]. unfold owned. by rewrite Hp.
Qed.

Lemma run_elem s t self' more t' : t ∈ tasks s -> task_step (svc s) t self' more t' -> exists s', run s s'.
Proof.
  intros (l & r & Hts)%list_elem_of_split Hst. destruct s as [self said sy iss ts]. cbn in *. subst ts. eexists. by constructor.
Qed.

Lemma Forall2_elem_l {A B} (P : A -> B -> Prop) l k x : Forall2 P l k -> x ∈ l -> exists y, y ∈ k /\ P x y.
Proof. intros HF (i & Hi)%list_elem_of_lookup. destruct (Forall2_lookup_l _ _ _ _ _ HF Hi) as (y & Hy & HP). exists y. split; [|done]. by eapply list_elem_of_lookup_2. Qed.
Lemma Forall2_elem_r {A B} (P : A -> B -> Prop) l k y : Forall2 P l k -> y ∈ k -> exists x, x ∈ l /\ P x y.
Proof. intros HF (i & Hi)%list_elem_of_lookup. destruct (Forall2_lookup_r _ _ _ _ _ HF Hi) as (x & Hx & HP). exists x. split; [|done]. by eapply list_elem_of_lookup_2. Qed.

(** Nothing gets stuck: an unfinished task can go on, or the owner it waits for can. *)
Lemma progress s : sys_inv s -> Forall (fun t => finished t = true) (tasks s) \/ exists s', run s s'.
Proof.
  intros (ks & gs & Hts & H). destruct (decide (Forall (fun t => finished t = true) (tasks s))) as [|Hn]; [by left|right].
  apply not_Forall_Exists, Exists_exists in Hn as (t & Ht & Hnf); [|intros ?; apply _].
  destruct (Forall2_elem_l _ _ _ _ Hts Ht) as (g & Hg & Hok).
  destruct (task_enabled _ _ _ _ _ _ _ _ H Hok Hg) as [?|[(self' & more & t' & Hst)|(p & ap & _ & Hap & Hz)]]; [done|by eapply run_elem|].
  destruct (po_silent _ _ _ _ _ _ (inv_pend _ _ _ _ _ _ H) p ap Hap Hz) as [key Hin].
  apply list_elem_of_omap in Hin as (g' & Hg' & Ho). destruct (Forall2_elem_r _ _ _ _ Hts Hg') as (t0 & Ht0 & Hok0).
  destruct (task_enabled _ _ _ _ _ _ _ _ H Hok0 Hg') as [Hf|[(self' & more & t' & Hst)|(q & ap' & Hrole & _)]].
  - destruct (finished_owns _ _ Hok0 Hf) as [Hnone _]. congruence.
  - by eapply run_elem.
  - unfold owned in Ho. by rewrite Hrole in Ho.
Qed.

(** Nothing runs for ever: an access leaves a part of the program. *)
Definition smaller (t' t : Task) : Prop := exists self self' more, task_step self t self' more t'.

Lemma smaller_acc t : Acc smaller t.
Proof.
  destruct t as [r p|p]; induction p as [a|X e k IH]; constructor; intros [r' p'|p'] (self & self' & more & Hst); try contradiction Hst.
  - by destruct Hst.
  - destruct Hst as (-> & x & _ & _ & ->). apply IH.
  - destruct Hst as (x & _ & _ & ->). apply IH.
Qed.

Definition one_smaller (ts' ts : list Task) : Prop :=
  exists l t r t', ts = l ++ t :: r /\ ts' = l ++ t' :: r /\ smaller t' t.

Lemma one_smaller_acc ts : Acc one_smaller ts.
Proof.
  induction ts as [|t ts IH]; [constructor; intros ts' ([|? ?] & ? & ? & ? & Heq & _); discriminate Heq|].
  revert ts IH. induction (smaller_acc t) as [t _ IHt]. intros ts Hts. induction Hts as [ts Hts IHts].
  constructor. intros ts' (l & t0 & r & t0' & Heq & -> & Hs). destruct l as [|x l]; cbn in *; simplify_eq.
  - apply IHt; [done|]. by constructor.
  - apply IHts. by exists l, t0, r, t0'.
Qed.

Lemma run_acc s : Acc (flip run) s.
Proof.
  remember (tasks s) as ts eqn:Hts. revert s Hts. induction (one_smaller_acc ts) as [ts _ IH]. intros s ->.
  constructor. intros s' Hrun. eapply IH; [|reflexivity]. destruct Hrun as [self said sy iss l t r self' more t' Hst]. cbn.
  exists l, t, r, t'. split; [done|]. split; [done|]. by exists self, self', more.
Qed.

(** ** Theorems *)

(** The answers that let a request through, let a host through for the session, and shut it out for the session. *)
Definition grants (a : Answer) : bool :=
  match a with
  | HookSaid HookOutput.Allow => true
  | Reviewed (Approved | ApprovedExecpolicyAmendment _ | ApprovedForSession) => true
  | Reviewed (NetworkAmendment (mkAmendment _ RuleAllow)) => true
  | _ => false
  end.
Definition grants_session (a : Answer) : bool :=
  match a with Reviewed ApprovedForSession | Reviewed (NetworkAmendment (mkAmendment _ RuleAllow)) => true | _ => false end.
Definition denies_session (a : Answer) : bool :=
  match a with Reviewed (NetworkAmendment (mkAmendment _ RuleDeny)) => true | _ => false end.

Lemma verdict_grants a : fst (verdict (Some a)) <> Deny -> grants a = true.
Proof. by destruct a as [[]|[| | |[? []]| | |]]. Qed.
Lemma verdict_session a : fst (verdict (Some a)) = AllowForSession -> grants_session a = true.
Proof. by destruct a as [[]|[| | |[? []]| | |]]. Qed.
Lemma verdict_denies a : snd (verdict (Some a)) = true -> denies_session a = true.
Proof. by destruct a as [[]|[| | |[? []]| | |]]. Qed.
Lemma session_grants a : grants_session a = true -> grants a = true.
Proof. by destruct a as [[]|[| | |[? []]| | |]]. Qed.

(** A host that is approved for the session was copied from another session, or somebody said so of this very key. *)
Lemma granted_said said key : granted_for_session said key -> exists a, said_of said key a /\ grants_session a = true.
Proof. intros (a & Ha & Hv). exists a. split; [done|]. by apply verdict_session. Qed.

(** How a finished request came to its decision. *)
Lemma finished_explained s r d : sys_inv s -> Request r (Ret d) ∈ tasks s ->
  (d = NetworkState.NetworkAllow /\ (key_of r ∈ synced s \/ exists a, said_of (log s) (key_of r) a /\ grants a = true)) \/
  d = deny REASON_NOT_ALLOWED \/ d = ask (lit "not_allowed").
Proof.
  intros (ks & gs & Hts & H) Hin. destruct (Forall2_elem_l _ _ _ _ Hts Hin) as (g & Hg & Hk & _ & Hpost).
  pose proof (po_roles _ _ _ _ _ _ (inv_pend _ _ _ _ _ _ H) g Hg) as Hr. unfold role_ok in Hr. rewrite Hk in Hr.
  destruct (g_role g) as [| |[]| | | | | | | |decision]; cbn in Hpost; try done; [by right; right| |by right; left|].
  - left. split; [done|]. destruct Hr as [?|(a & Ha & Hv)%granted_said]; [by left|right]. exists a. split; [done|]. by apply session_grants.
  - destruct Hr as [->|(a & Ha & Hv)]; [by right; left|]. destruct decision; [left|left|by right; left]; (split; [done|]); right; exists a;
      (split; [done|]); apply verdict_grants; by rewrite Hv.
Qed.

(** C8: However the requests of the proxy, the tool calls and the answers interleave: a request that was let through had
    its host copied from another session's approved hosts, or a hook, the user or the reviewer allowed this host,
    protocol and port; every other request was refused (or sent back, when the session was gone).  A host is in the
    approved set of the session only when the user or the reviewer allowed it for the session (never by a hook, nor by
    an approval of one request), and in the denied set only when a rule that denies it was chosen. *)
Theorem network_access_explained s : rtc step initial s ->
  (forall r d, Request r (Ret d) ∈ tasks s ->
     (d = NetworkState.NetworkAllow /\ (key_of r ∈ synced s \/ exists a, said_of (log s) (key_of r) a /\ grants a = true)) \/
     d = deny REASON_NOT_ALLOWED \/ d = ask (lit "not_allowed")) /\
  (forall k, k ∈ session_approved_hosts (svc s) -> k ∈ synced s \/ exists a, said_of (log s) k a /\ grants_session a = true) /\
  (forall k, k ∈ session_denied_hosts (svc s) -> exists a, said_of (log s) k a /\ denies_session a = true).
Proof.
  intros Hr%reachable_sys_inv. split; [intros r d; by apply finished_explained|].
  destruct Hr as (ks & gs & Hts & H). destruct (inv_hosts _ _ _ _ _ _ H) as [Ha Hd]. split; intros k Hk.
  - destruct (Ha k Hk) as [?|?%granted_said]; auto.
  - destruct (Hd k Hk) as (a & Hs & Hv). exists a. split; [done|]. by apply verdict_denies.
Qed.

(** At rest, nothing is pending, and a call with an outcome is cancelled. *)
Lemma quiet s : sys_inv s -> Forall (fun t => finished t = true) (tasks s) ->
  pending_host_approvals (svc s) = ∅ /\
  (forall id o, call_outcomes (svc s) !! id = Some o ->
     exists call, index_get (active_calls (svc s)) id = Some call /\ cancellation_token call ∈ cancelled (svc s)).
Proof.
  intros (ks & gs & Hts & H) Hf.
  assert (Hgs : forall g, g ∈ gs -> owned g = None /\ g_debt g = None).
  { intros g Hg. destruct (Forall2_elem_r _ _ _ _ Hts Hg) as (t & Ht & Hok). rewrite Forall_forall in Hf.
    by eapply finished_owns, Hf. }
  split.
  - apply map_empty. intros k. apply eq_None_not_Some. intros [p Hp].
    apply elem_of_map_to_list in Hp. rewrite <- (po_owned _ _ _ _ _ _ (inv_pend _ _ _ _ _ _ H)) in Hp.
    apply list_elem_of_omap in Hp as (g & Hg & Ho). destruct (Hgs g Hg). congruence.
  - intros id o Ho. destruct (co_outcomes _ _ _ _ _ (inv_calls _ _ _ _ _ _ H) id o Ho) as (call & Hc & [Hin|(g & Hg & Hd)]).
    + by exists call.
    + destruct (Hgs g Hg). congruence.
Qed.

Lemma run_reachable s s' : rtc run s s' -> rtc step s s'.
Proof. intros Hr. eapply rtc_subrel; [|exact Hr]. intros x y. apply step_run. Qed.

(** C9: No wake-up is lost and nothing waits for ever: from any state that can be reached, the tasks under way make only
    finitely many accesses, and as long as one of them is unfinished one of them can make its next access, given that
    the session answers what it is asked.  So every request gets its decision, those that wait for another request's
    approval included; and when all are done no approval is left pending, and every active call for which a denial was
    recorded has been cancelled. *)
Theorem network_requests_answered s : rtc step initial s ->
  Acc (flip run) s /\
  forall s', rtc run s s' ->
    (exists s'', run s' s'') \/
    (Forall (fun t => finished t = true) (tasks s') /\ pending_host_approvals (svc s') = ∅ /\
     forall id o, call_outcomes (svc s') !! id = Some o ->
       exists call, index_get (active_calls (svc s')) id = Some call /\ cancellation_token call ∈ cancelled (svc s')).
Proof.
  intros Hr. split; [apply run_acc|]. intros s' Hrun.
  assert (H : sys_inv s') by (apply reachable_sys_inv; etrans; [exact Hr|by apply run_reachable]).
  destruct (progress s' H) as [Hf|]; [right|by left]. split; [done|]. by apply quiet.
Qed.

(** ** Running the programs *)

(** The next access, given what the session answers. *)
Definition serve_with {X} (oracle : forall X, access X -> option X) (self : NetworkApprovalService) (e : access X)
    : option (X * NetworkApprovalService) :=
  if external e then x ← oracle X e; Some (x, self) else serve self e.

Definition prog_exec {A} (oracle : forall X, access X -> option X) (self : NetworkApprovalService) (p : prog A)
    : option (NetworkApprovalService * Log * prog A) :=
  match p with
  | Ret _ => None
  | Vis e k => out ← serve_with oracle self e; Some (snd out, heard e (fst out), k (fst out))
  end.

Definition task_exec (oracle : forall X, access X -> option X) (self : NetworkApprovalService) (t : Task)
    : option (NetworkApprovalService * Log * Task) :=
  match t with
  | Request r p => out ← prog_exec oracle self p; Some (fst out, Request r (snd out))
  | Calling p => out ← prog_exec oracle self p; Some (fst out, Calling (snd out))
  end.

(** The tasks make accesses in the order given. *)
Definition run_one (oracle : forall X, access X -> option X) (s : System) (i : nat) : option System :=
  t ← tasks s !! i;
  out ← task_exec oracle (svc s) t;
  Some (mkSystem (fst (fst out)) (log s ++ snd (fst out)) (synced s) (issued s) (<[i := snd out]> (tasks s))).
Fixpoint schedule (oracle : forall X, access X -> option X) (s : System) (order : list nat) : option System :=
  match order with [] => Some s | i :: order => s ← run_one oracle s i; schedule oracle s order end.

Lemma prog_exec_sound {A} oracle self (p : prog A) self' more p' :
  prog_exec oracle self p = Some (self', more, p') -> prog_step self p self' more p'.
Proof.
  destruct p as [a|X e k]; [done|]. cbn. intros ([x s] & Hs & [= <- <- <-])%bind_Some. exists x. split; [|done].
  unfold serve_with in Hs. destruct (external e) eqn:He; [|by left]. apply bind_Some in Hs as (y & _ & [= -> ->]). by right.
Qed.

Lemma run_one_sound oracle s i s' : run_one oracle s i = Some s' -> run s s'.
Proof.
  intros (t & Ht & ([[self' more] t'] & Hex & [= <-])%bind_Some)%bind_Some. cbn [fst snd].
  assert (Hst : task_step (svc s) t self' more t').
  { destruct t as [r p|p]; apply bind_Some in Hex as ([[s0 m0] p0] & Hp & [= <- <- <-]); apply prog_exec_sound in Hp; done. }
  destruct s as [self said sy iss ts]; cbn in *. rewrite insert_take_drop by by eapply lookup_lt_Some.
  rewrite <- (take_drop_middle ts i t Ht) at 1. by constructor.
Qed.

Lemma schedule_sound oracle order s s' : schedule oracle s order = Some s' -> rtc run s s'.
Proof.
  revert s. induction order as [|i order IH]; intros s; cbn; [by intros [= ->]|].
  intros (s1 & H1 & H2)%bind_Some. eapply rtc_l; [by eapply run_one_sound|by apply IH].
Qed.

(** *** Two requests to one host *)

Definition demo_turn : TurnContext := mkTurn (lit "turn-1") ExecApproval.OnRequest Requirements.ReviewByUser.
(** The user allows the host for the session. *)
Definition demo_user (d : ReviewDecision) : forall X, access X -> option X := fun X e =>
  match e in access X return option X with
  | ActiveTurnContext => Some (Some demo_turn)
  | EffectiveTurnSettings _ => Some (WritableRoots.Managed WritableRoots.ManagedUnrestricted Permissions.NetRestricted, ExecApproval.OnRequest)
  | PermissionRequestHooks _ _ _ _ => Some None
  | RequestCommandApproval _ _ _ _ _ => Some d
  | _ => None
  end.
Definition demo_first : NetworkPolicyRequest := mkRequest ProxyHttpsConnect (lit "Example.com") 443 None None None None.
Definition demo_second : NetworkPolicyRequest := mkRequest ProxyHttpsConnect (lit "example.com") 443 None None None None.
Definition demo_start : System :=
  spawn (spawn initial ∅ (Request demo_first (network_policy_decider ROUNDS true demo_first))) ∅
    (Request demo_second (network_policy_decider ROUNDS true demo_second)).
(** The second waits for the first, which is asked about and tells it. *)
Definition demo_order : list nat := [0; 1; 0; 1; 0; 1; 1; 1; 0; 0; 0; 0; 0; 0; 0; 0; 0; 0; 1; 1; 1].
Definition demo_end : System := default initial (schedule (demo_user ApprovedForSession) demo_start demo_order).

Lemma demo_start_reachable : rtc step initial demo_start.
Proof. eapply rtc_l; [apply (step_request _ true)|]. eapply rtc_l; [apply (step_request _ true)|]. apply rtc_refl. Qed.

Lemma demo_runs : schedule (demo_user ApprovedForSession) demo_start demo_order = Some demo_end.
Proof. vm_compute. reflexivity. Qed.

Example demo_answers : tasks demo_end = [Request demo_first (Ret NetworkState.NetworkAllow); Request demo_second (Ret NetworkState.NetworkAllow)].
Proof. vm_compute. reflexivity. Qed.

Lemma network_access_explained_witness :
  Request demo_second (Ret NetworkState.NetworkAllow) ∈ tasks demo_end /\
  key_of demo_second ∈ session_approved_hosts (svc demo_end) /\
  (key_of demo_second ∈ synced demo_end \/ exists a, said_of (log demo_end) (key_of demo_second) a /\ grants_session a = true).
Proof.
  assert (Hin : key_of demo_second ∈ session_approved_hosts (svc demo_end)) by (eapply (bool_decide_unpack _); vm_compute; exact I).
  split; [rewrite demo_answers; right; left|]. split; [exact Hin|].
  apply (network_access_explained demo_end); [|exact Hin].
  etrans; [exact demo_start_reachable|]. apply run_reachable. eapply schedule_sound. exact demo_runs.
Defined.

Lemma network_requests_answered_witness :
  (exists s'', run demo_start s'') /\ Acc (flip run) demo_start /\
  forall s', rtc run demo_start s' -> (exists s'', run s' s'') \/ Forall (fun t => finished t = true) (tasks s').
Proof.
  destruct (network_requests_answered demo_start demo_start_reachable) as [Hacc Hend].
  split; [|split; [exact Hacc|]].
  - destruct (run_one (demo_user Denied) demo_start 0) as [s|] eqn:E; [|vm_compute in E; discriminate E].
    exists s. eapply run_one_sound. exact E.
  - intros s' Hs'. destruct (Hend s' Hs') as [H|[H _]]; [left|right]; exact H.
Defined.

(** A request whose future is dropped while it owns the approval of its host leaves the approval pending, and a later
    request to the host waits for a decision that nobody will make. *)
Definition dropped (s : System) (i : nat) : System :=
  mkSystem (svc s) (log s) (synced s) (issued s) (take i (tasks s) ++ drop (S i) (tasks s)).

(** The next access of a task has to wait. *)
Definition prog_waits {A} (self : NetworkApprovalService) (p : prog A) : bool :=
  match p with
  | Ret _ => false
  | Vis e _ => negb (external e) && match serve self e with None => true | Some _ => false end
  end.
Definition task_waits (self : NetworkApprovalService) (t : Task) : bool :=
  match t with Request _ p => prog_waits self p | Calling p => prog_waits self p end.

Lemma prog_waits_stuck {A} self (p : prog A) self' more p' : prog_waits self p = true -> ~ prog_step self p self' more p'.
Proof.
  destruct p as [a|X e k]; [done|]. cbn. intros [He Hs]%andb_true_iff (x & [Hx|[Hx _]] & _).
  - by rewrite Hx in Hs.
  - by rewrite Hx in He.
Qed.

Lemma waits_stuck s s' : forallb (task_waits (svc s)) (tasks s) = true -> ~ run s s'.
Proof.
  intros Hw Hrun. revert Hw. destruct Hrun as [self said sy iss l t r self' more t' Hst]. cbn [svc tasks]. intros Hw. rewrite List.forallb_app in Hw. cbn [forallb] in Hw.
  apply andb_true_iff in Hw as [_ [Ht _]%andb_true_iff].
  destruct t as [q p|p], t' as [q' p'|p']; try done; [destruct Hst as [_ Hst]|]; by eapply prog_waits_stuck.
Qed.

Definition demo_owner : System := default initial (schedule (demo_user Denied) demo_start [0; 0; 0]).
Definition demo_stranded : System := default initial (schedule (demo_user Denied) (dropped demo_owner 0) [0; 0; 0; 0; 0]).

Example dropped_owner_strands :
  rtc run demo_start demo_owner /\ rtc run (dropped demo_owner 0) demo_stranded /\
  forallb finished (tasks demo_stranded) = false /\ forall s', ~ run demo_stranded s'.
Proof.
  split; [apply (schedule_sound (demo_user Denied)) with (order := [0; 0; 0]); vm_compute; reflexivity|].
  split; [apply (schedule_sound (demo_user Denied)) with (order := [0; 0; 0; 0; 0]); vm_compute; reflexivity|].
  split; [vm_compute; reflexivity|]. intros s'. apply waits_stuck. vm_compute. reflexivity.
Qed.

End NetworkApprovalRuns.
