(* ===== verification/WorkflowSpec.v ===== *)
(** * Workflow documents: workflows/src/spec.rs, error.rs, ancient_names.rs and the field checks of validation.rs

    The data of a workflow specification as its document has it, and the checks of single fields: texts
    that must not be blank, identifiers, prompt fields and exact model routes. *)

From S2P Require Import Prelude Text.

Module WorkflowSpec.

(** ** Errors *)

(** [codex-rs/workflows/src/error.rs:5-19 WorkflowSpecError] *)
Inductive WorkflowSpecError :=
| EmptyDocument
| DocumentTooLarge (bytes max_bytes : N)
| MarkdownFence
| ParseYaml (message : str)
| UnsupportedYamlFeature (path feature : str)
| Invalid (message : str).

Notation WorkflowSpecResult := (result WorkflowSpecError).

(** [return Err(WorkflowSpecError::invalid(..))] under a condition. *)
Definition invalid_if (bad : bool) (message : str) : WorkflowSpecResult unit :=
  if bad then Err (Invalid message) else Ok tt.

(** A text in backticks, as messages have it. *)
Definition quoted (s : str) : str := [96%N] ++ s ++ [96%N].

(** ** Data *)

(** [codex-rs/workflows/src/spec.rs:34-40 WorkflowStatus] *)
Inductive WorkflowStatus := Draft | NeedsClarification | Blocked.

(** [codex-rs/workflows/src/spec.rs:99-108 WorkflowModelRoutingCapability] *)
Inductive WorkflowModelRoutingCapability := AgentWorker | CodeEdit | CodeReview | Planning | Release | Verification.

(** [codex-rs/workflows/src/spec.rs:110-129 WorkflowModelRoutingContext] *)
Record WorkflowModelRoutingContext := {
  task_id : option str;
  task_title : option str;
  project_path : option str;
  tags : list str;
  context_auth_profile : option str;
  context_approval_policy : option str;
  context_permission_profile : option str;
  worktree_mode : option str
}.

(** [codex-rs/workflows/src/spec.rs:131-168 WorkflowModelRoutingConstraints] *)
Record WorkflowModelRoutingConstraints := {
  allowed_model_gateways : list str;
  preferred_model_gateways : list str;
  allowed_providers : list str;
  preferred_providers : list str;
  allowed_models : list str;
  preferred_models : list str;
  allowed_reasoning : list str;
  preferred_reasoning : list str;
  allowed_service_tiers : list str;
  preferred_service_tiers : list str;
  allowed_auth_profiles : list str;
  allowed_approval_policies : list str;
  allowed_permission_profiles : list str;
  allowed_worktree_modes : list str;
  max_context_tokens : option N;
  budget_usd : option str;
  fallback_required : bool
}.

(** [codex-rs/workflows/src/spec.rs:89-97 WorkflowModelRoutingRequest] *)
Record WorkflowModelRoutingRequest := {
  requested_capability : WorkflowModelRoutingCapability;
  context : WorkflowModelRoutingContext;
  constraints : WorkflowModelRoutingConstraints
}.

(** [codex-rs/workflows/src/spec.rs:170-176 WorkflowModelRoutingDecisionStatus] *)
Inductive WorkflowModelRoutingDecisionStatus := Selected | Fallback | Error.

(** [codex-rs/workflows/src/spec.rs:204-210 WorkflowModelRoutingFallback] *)
Record WorkflowModelRoutingFallback := { used : bool; fallback_reason : option str }.

(** [codex-rs/workflows/src/spec.rs:212-217 WorkflowModelRoutingError] *)
Record WorkflowModelRoutingError := { code : str; error_message : str }.

(** [codex-rs/workflows/src/spec.rs:178-202 WorkflowModelRoutingDecision] *)
Record WorkflowModelRoutingDecision := {
  decision_status : WorkflowModelRoutingDecisionStatus;
  decision_model_gateway : option str;
  decision_provider : option str;
  decision_model : option str;
  decision_reasoning : option str;
  decision_service_tier : option str;
  decision_auth_profile : option str;
  explanation : option str;
  fallback : option WorkflowModelRoutingFallback;
  warnings : list str;
  errors : list WorkflowModelRoutingError
}.

(** [codex-rs/workflows/src/spec.rs:68-81 WorkflowModelRoutingContract] whose router has one value. *)
Record WorkflowModelRoutingContract := {
  contract_version : str;
  request : WorkflowModelRoutingRequest;
  decision : option WorkflowModelRoutingDecision
}.

(** [codex-rs/workflows/src/spec.rs:51-66 WorkflowModelRoute] *)
Record WorkflowModelRoute := {
  model_gateway : str;
  provider : str;
  model : str;
  reasoning : str;
  service_tier : option str;
  approval_policy : option str;
  permission_profile : option str;
  routing : option WorkflowModelRoutingContract
}.

(** [codex-rs/workflows/src/spec.rs:219-229 WorkflowLimits] *)
Record WorkflowLimits := {
  max_parallel_steps : N;
  max_agents : N;
  max_worktrees : N;
  max_runtime_seconds : N;
  max_step_runtime_seconds : N;
  max_tokens : N;
  max_tool_calls : N
}.

(** [codex-rs/workflows/src/spec.rs:238-245 WorkflowAgent] *)
Record WorkflowAgent := { agent_id : str; agent_display_name : str; role : str; agent_model : WorkflowModelRoute }.

(** [codex-rs/workflows/src/spec.rs:378-382 WorkflowVerifierRetryPolicy] *)
Record WorkflowVerifierRetryPolicy := { max_attempts : N }.

(** [codex-rs/workflows/src/spec.rs:348-376 WorkflowVerifier] *)
Record WorkflowVerifier := {
  verifier_id : str;
  kind : str;
  artifact : option str;
  must_contain : list str;
  cwd : option str;
  sandbox : option str;
  network : option str;
  timeout_seconds : option N;
  output_limit_bytes : option N;
  commands : list str;
  expected_stdout : option str;
  expected_exit_code : option Z;
  retry_policy : option WorkflowVerifierRetryPolicy
}.

(** [codex-rs/workflows/src/spec.rs:340-346 WorkflowCompletion] *)
Record WorkflowCompletion := { model_marked_state : str; verifiers : list WorkflowVerifier }.

(** [codex-rs/workflows/src/spec.rs:275-280 WorkflowWorkspaceMode] *)
Inductive WorkflowWorkspaceMode := IsolatedWorktree | SharedRepository.

(** [codex-rs/workflows/src/spec.rs:247-267 WorkflowStep] *)
Record WorkflowStep := {
  step_id : str;
  step_title : str;
  agent : str;
  step_model : option WorkflowModelRoute;
  workspace : option WorkflowWorkspaceMode;
  parallel_group : option str;
  depends_on : list str;
  approval_gate : option str;
  outputs : list str;
  completion : option WorkflowCompletion
}.

(** [codex-rs/workflows/src/spec.rs:310-316 WorkflowLoopIntervalUnit] *)
Inductive WorkflowLoopIntervalUnit := Minutes | Hours | Days.

(** [codex-rs/workflows/src/spec.rs:297-308 WorkflowLoopSchedule] *)
Inductive WorkflowLoopSchedule :=
| Dynamic
| Interval (amount : N) (unit : WorkflowLoopIntervalUnit)
| Cron (expression : str).

(** [codex-rs/workflows/src/spec.rs:318-323 WorkflowStopCondition] *)
Inductive WorkflowStopCondition := WorkflowComplete | StepSucceeded (step : str).

(** [codex-rs/workflows/src/spec.rs:282-295 WorkflowLoop] *)
Record WorkflowLoop := {
  loop_id : str;
  loop_title : str;
  schedule : WorkflowLoopSchedule;
  timezone : str;
  loop_stop_condition : WorkflowStopCondition;
  max_iterations : N;
  loop_trigger_step : option str;
  expires_after_seconds : option N
}.

(** [codex-rs/workflows/src/spec.rs:325-338 WorkflowMonitorLink] *)
Record WorkflowMonitorLink := {
  monitor_id : str;
  monitor_title : str;
  source : str;
  max_events_per_tick : N;
  monitor_ref : option str;
  monitor_trigger_step : option str;
  monitor_stop_condition : option WorkflowStopCondition
}.

(** [codex-rs/workflows/src/spec.rs:5-32 WorkflowSpec] without the fixture and the domain invariants, which
    nothing reads; approvals, artifacts and cleanup by their fields. *)
Record WorkflowSpec := {
  schema_version : str;
  workflow_id : str;
  display_name : str;
  source_prompt : str;
  status : WorkflowStatus;
  questions : list str;
  blocking_reasons : list str;
  execution_defaults : WorkflowModelRoute;
  limits : WorkflowLimits;
  required_before : list str;
  agents : list WorkflowAgent;
  steps : list WorkflowStep;
  loops : list WorkflowLoop;
  monitors : list WorkflowMonitorLink;
  retention : str;
  required_artifacts : list str;
  on_cancel : list str;
  on_complete : list str
}.

(** ** Checks of fields *)

(** [codex-rs/workflows/src/lib.rs:50-50 MAX_WORKFLOW_PROMPT_FIELD_CHARS] *)
Definition MAX_WORKFLOW_PROMPT_FIELD_CHARS : nat := 240.
(** [codex-rs/workflows/src/lib.rs:52-52 SUPPORTED_SCHEMA_VERSION] *)
Definition SUPPORTED_SCHEMA_VERSION : str := lit "workflow.codex.codewith/v0".

(** [codex-rs/workflows/src/validation.rs:853-860 validate_non_empty] *)
Definition validate_non_empty (path value : str) : WorkflowSpecResult unit :=
  invalid_if (bool_decide (trim value = [])) (path ++ lit " must not be empty").

(** A byte of an identifier. *)
Definition identifier_byte (c : char) : bool :=
  is_ascii_alphanumeric c || (c =? 95)%N || (c =? 45)%N.

(** [codex-rs/workflows/src/validation.rs:835-851 validate_identifier] *)
Definition validate_identifier (path value : str) : WorkflowSpecResult unit :=
  _ ← validate_non_empty path value;
  _ ← invalid_if (128 <? str_len value)%N (path ++ lit " " ++ quoted value ++ lit " is too long; maximum is 128 bytes");
  invalid_if (negb (forallb identifier_byte value))
    (path ++ lit " " ++ quoted value ++ lit " must contain only ASCII letters, numbers, underscores, or hyphens").

(** [codex-rs/workflows/src/validation.rs:862-871 validate_prompt_field] *)
Definition validate_prompt_field (path value : str) : WorkflowSpecResult unit :=
  _ ← validate_non_empty path value;
  invalid_if (MAX_WORKFLOW_PROMPT_FIELD_CHARS <? length value)
    (path ++ lit " is too long; maximum is " ++ show_nat MAX_WORKFLOW_PROMPT_FIELD_CHARS ++ lit " characters").

(** [for (index, value) in values.iter().enumerate() { check(path[index], value)? }]. *)
Fixpoint validate_each_from {A} (index : nat) (check : nat -> A -> WorkflowSpecResult unit) (values : list A)
    : WorkflowSpecResult unit :=
  match values with
  | [] => Ok tt
  | value :: values => _ ← check index value; validate_each_from (S index) check values
  end.
Definition validate_each {A} : (nat -> A -> WorkflowSpecResult unit) -> list A -> WorkflowSpecResult unit := validate_each_from 0.

Definition at_index (path : str) (index : nat) : str := path ++ lit "[" ++ show_nat index ++ lit "]".

(** [codex-rs/workflows/src/validation.rs:828-833 validate_string_list] *)
Definition validate_string_list (path : str) (values : list str) : WorkflowSpecResult unit :=
  validate_each (fun index value => validate_non_empty (at_index path index) value) values.

(** [codex-rs/workflows/src/validation.rs:38-46 PLACEHOLDER_ROUTE_VALUES] *)
Definition PLACEHOLDER_ROUTE_VALUES : list str :=
  lit <$> ["ambient"; "auto"; "current"; "default"; "infer"; "inherit"; "inherited"].

(** [codex-rs/workflows/src/validation.rs:792-801 validate_route_field] *)
Definition validate_route_field (path field value : str) : WorkflowSpecResult unit :=
  _ ← validate_non_empty (path ++ lit "." ++ field) value;
  let normalized := to_ascii_lowercase (trim value) in
  invalid_if (bool_decide (normalized ∈ PLACEHOLDER_ROUTE_VALUES))
    (path ++ lit "." ++ field ++ lit " must be exact and cannot use placeholder " ++ quoted value).

(** [codex-rs/workflows/src/validation.rs:803-808 validate_route_value_list] *)
Definition validate_route_value_list (path field : str) (values : list str) : WorkflowSpecResult unit :=
  validate_each (fun index value => validate_route_field (at_index (path ++ lit "." ++ field) index) (lit "value") value) values.

(** [codex-rs/workflows/src/validation.rs:810-816 validate_required_decision_route_field] *)
Definition validate_required_decision_route_field (path field : str) (value : option str) : WorkflowSpecResult unit :=
  validate_route_field path field (default [] value).

(** [if let Some(value) = value { check(value)? }]. *)
Definition if_some {A} (value : option A) (check : A -> WorkflowSpecResult unit) : WorkflowSpecResult unit :=
  match value with Some value => check value | None => Ok tt end.

End WorkflowSpec.
