(* ===== verification/WorkflowOrder.v ===== *)
(** * The order of a workflow's steps: workflows/src/validation.rs, validate_acyclic_dependencies

    The steps of a workflow depend on one another; the check counts, for every step, the dependencies
    that are not yet done, and takes the steps one after the other whose count is zero.  It accepts just
    the workflows whose steps can be put in an order in which each comes after its dependencies. *)

From S2P Require Import Prelude Text WorkflowSpec.

#[local] Set Default Proof Using "Type".

Module WorkflowOrder.
Import WorkflowSpec.

(** ** The check *)

(** [codex-rs/workflows/src/validation.rs:716-728 validate_acyclic_dependencies] one dependency. *)
Definition count_dependency (step : WorkflowStep) (acc : gmap str nat * gmap str (list str)) (dependency : str)
    : result WorkflowSpecError (gmap str nat * gmap str (list str)) :=
  let '(indegree, outgoing) := acc in
  match indegree !! step_id step with
  | None => Err (Invalid (lit "step " ++ quoted (step_id step) ++ lit " was missing from dependency index"))
  | Some degree =>
      Ok (<[step_id step := degree + 1]> indegree,
          <[dependency := default [] (outgoing !! dependency) ++ [step_id step]]> outgoing)
  end.

(** [codex-rs/workflows/src/validation.rs:710-729 validate_acyclic_dependencies] the two indexes. *)
Definition dependency_index (steps : list WorkflowStep) : result WorkflowSpecError (gmap str nat * gmap str (list str)) :=
  let indegree := foldl (fun m step => <[step_id step := 0]> m) ∅ steps in
  try_fold (fun acc step => try_fold (count_dependency step) (depends_on step) acc) steps (indegree, ∅).

(** [codex-rs/workflows/src/validation.rs:739-749 validate_acyclic_dependencies] one dependent of a step that is
    done; a count of zero cannot be lowered. *)
Definition release_dependent (acc : gmap str nat * list str) (dependent : str)
    : run WorkflowSpecError (gmap str nat * list str) :=
  let '(indegree, ready) := acc in
  match indegree !! dependent with
  | None => Fail (Invalid (lit "step " ++ quoted dependent ++ lit " was missing from dependency index"))
  | Some 0 => Panic
  | Some (S degree) =>
      Done (<[dependent := degree]> indegree, if degree =? 0 then ready ++ [dependent] else ready)
  end.

Fixpoint release_all (dependents : list str) (acc : gmap str nat * list str)
    : run WorkflowSpecError (gmap str nat * list str) :=
  match dependents with
  | [] => Done acc
  | dependent :: dependents => acc ← release_dependent acc dependent; release_all dependents acc
  end.

(** [codex-rs/workflows/src/validation.rs:736-751 validate_acyclic_dependencies] the loop, with the number of
    steps taken. *)
Fixpoint take_ready (fuel : nat) (outgoing : gmap str (list str)) (indegree : gmap str nat) (ready : list str)
    (visited : nat) : run WorkflowSpecError nat :=
  match fuel, ready with
  | _, [] => Done visited
  | 0, _ :: _ => OutOfFuel
  | S fuel, step :: ready =>
      '(indegree, ready) ← release_all (default [] (outgoing !! step)) (indegree, ready);
      take_ready fuel outgoing indegree ready (visited + 1)
  end.

(** [codex-rs/workflows/src/validation.rs:709-759 validate_acyclic_dependencies] *)
Definition validate_acyclic_dependencies (steps : list WorkflowStep) : run WorkflowSpecError unit :=
  '(indegree, outgoing) ← try_ (dependency_index steps);
  let ready := sort_by str_leb (omap (fun '(step, degree) => if degree =? 0 then Some step else None) (map_to_list indegree)) in
  visited ← take_ready (S (length steps)) outgoing indegree ready 0;
  if negb (visited =? length steps) then Fail (Invalid (lit "workflow step dependencies contain a cycle")) else Done tt.

(** ** Orders *)

(** The dependencies of the steps, as pairs of the step that comes first and the step that waits. *)
Definition dependencies (steps : list WorkflowStep) : list (str * str) :=
  concat (map (fun step => map (fun dependency => (dependency, step_id step)) (depends_on step)) steps).

(** Every element of the list comes after all that it depends on. *)
Definition after_dependencies (edges : list (str * str)) (order : list str) : Prop :=
  forall before x after, order = before ++ x :: after -> forall d, (d, x) ∈ edges -> d ∈ before.

(** The steps can be taken one after the other. *)
Definition schedulable (steps : list WorkflowStep) : Prop :=
  exists order, order ≡ₚ map step_id steps /\ NoDup order /\ after_dependencies (dependencies steps) order.

(** ** Correctness *)

(** The dependencies of [x] that are not in [done]. *)
Definition waiting (edges : list (str * str)) (done : list str) (x : str) : nat :=
  length (filter (fun e : str * str => e.2 = x /\ e.1 ∉ done) edges).

(** The steps that wait for [d]. *)
Definition dependents (edges : list (str * str)) (d : str) : list str :=
  omap (fun e : str * str => if decide (e.1 = d) then Some e.2 else None) edges.

Definition occurrences (x : str) (l : list str) : nat := length (filter (fun y => y = x) l).

Lemma waiting_zero edges done x : waiting edges done x = 0 <-> forall d, (d, x) ∈ edges -> d ∈ done.
Proof.
  unfold waiting. rewrite length_zero_iff_nil. split.
  - intros H d Hd. destruct (decide (d ∈ done)) as [|Hn]; [done|].
    assert (Hin : (d, x) ∈ filter (fun e : str * str => e.2 = x /\ e.1 ∉ done) edges) by (by apply list_elem_of_filter).
    rewrite H in Hin. by apply elem_of_nil in Hin.
  - intros H. apply elem_of_nil_inv. intros [d y] [[Hy Hd] Hin]%list_elem_of_filter. cbn in *. subst y. by apply Hd, H.
Qed.

(** Taking a step away from those that are waited for. *)
Lemma waiting_done edges done s x : s ∉ done ->
  waiting edges done x = waiting edges (done ++ [s]) x + occurrences x (dependents edges s).
Proof.
  intros Hs. unfold waiting, occurrences, dependents. induction edges as [|[d y] edges IH]; [done|].
  cbn [omap list_omap]. rewrite !filter_cons. cbn [fst snd].
  destruct (decide (d = s)) as [->|Hds].
  - rewrite filter_cons. rewrite (decide_False (P := y = x /\ s ∉ done ++ [s])) by set_solver.
    destruct (decide (y = x)) as [->|Hy]; [rewrite decide_True by done|rewrite decide_False by naive_solver]; cbn [length]; lia.
  - assert (Hiff : y = x /\ d ∉ done ++ [s] <-> y = x /\ d ∉ done) by set_solver.
    destruct (decide (y = x /\ d ∉ done)) as [H|H].
    + rewrite decide_True by tauto. cbn [length]. lia.
    + rewrite decide_False by tauto. lia.
Qed.

Lemma waiting_snoc edges d y x : waiting (edges ++ [(d, y)]) [] x = waiting edges [] x + (if decide (y = x) then 1 else 0).
Proof.
  unfold waiting. rewrite filter_app, length_app, filter_cons, filter_nil. cbn [fst snd].
  destruct (decide (y = x)) as [->|Hy]; [rewrite decide_True by set_solver|rewrite decide_False by naive_solver]; done.
Qed.

(** The indexes hold the counts and the dependents of some edges. *)
Definition indexed (ids : list str) (edges : list (str * str)) (acc : gmap str nat * gmap str (list str)) : Prop :=
  (forall x, acc.1 !! x = if decide (x ∈ ids) then Some (waiting edges [] x) else None) /\
  (forall d, default [] (acc.2 !! d) = dependents edges d).

Lemma count_indexed ids step deps edges acc :
  step_id step ∈ ids -> indexed ids edges acc ->
  exists acc', try_fold (count_dependency step) deps acc = Ok acc' /\
    indexed ids (edges ++ map (fun d => (d, step_id step)) deps) acc'.
Proof.
  intros Hid. revert edges acc. induction deps as [|d deps IH]; intros edges [indegree outgoing] [Hi Ho]; cbn [try_fold map].
  - rewrite app_nil_r. by eexists.
  - cbn [count_dependency mbind result_bind]. cbn [fst snd] in Hi, Ho. rewrite Hi, decide_True by done. cbn [mbind result_bind].
    destruct (IH (edges ++ [(d, step_id step)])
      (<[step_id step := waiting edges [] (step_id step) + 1]> indegree, <[d := default [] (outgoing !! d) ++ [step_id step]]> outgoing))
      as (acc' & Ha & Hx).
    + split; cbn [fst snd]; intros x.
      * rewrite lookup_insert, waiting_snoc. destruct (decide (step_id step = x)) as [<-|Hx]; [by rewrite decide_True|].
        rewrite Hi. by rewrite Nat.add_0_r.
      * unfold dependents. rewrite omap_app. cbn [omap list_omap fst snd]. fold (dependents edges x).
        rewrite lookup_insert. destruct (decide (d = x)) as [->|Hx]; cbn [default from_option id]; [by rewrite Ho|].
        by rewrite app_nil_r.
    + exists acc'. by rewrite <- app_assoc in Hx.
Qed.

Lemma zero_index ids : indexed ids [] (foldl (fun m x => <[x := 0]> m) ∅ ids, ∅).
Proof.
  split; cbn [fst snd]; [|by intros d; rewrite lookup_empty]. intros x.
  induction ids as [|y ids IH] using rev_ind; [cbn [foldl]; by rewrite lookup_empty, decide_False by apply not_elem_of_nil|]. rewrite foldl_snoc, lookup_insert, IH.
  destruct (decide (y = x)) as [->|Hy]; [by rewrite decide_True by set_solver|].
  destruct (decide (x ∈ ids)); [rewrite decide_True by set_solver|rewrite decide_False by set_solver]; done.
Qed.

Lemma index_steps ids steps edges acc :
  Forall (fun step => step_id step ∈ ids) steps -> indexed ids edges acc ->
  exists acc', try_fold (fun acc step => try_fold (count_dependency step) (depends_on step) acc) steps acc = Ok acc' /\
    indexed ids (edges ++ dependencies steps) acc'.
Proof.
  intros Hs. revert edges acc. induction Hs as [|step steps Hid _ IH]; intros edges acc H; cbn [try_fold].
  - rewrite app_nil_r. by eexists.
  - destruct (count_indexed ids step (depends_on step) edges acc Hid H) as (acc1 & -> & H1). cbn [mbind result_bind].
    destruct (IH _ _ H1) as (acc' & Ha & H'). exists acc'. by rewrite <- app_assoc in H'.
Qed.

Lemma index_spec steps : exists acc, dependency_index steps = Ok acc /\ indexed (map step_id steps) (dependencies steps) acc.
Proof.
  unfold dependency_index.
  replace (foldl (fun (m : gmap str nat) step => <[step_id step := 0]> m) ∅ steps)
    with (foldl (fun (m : gmap str nat) x => <[x := 0]> m) ∅ (map step_id steps))
    by (generalize (∅ : gmap str nat); induction steps; cbn; auto).
  apply (index_steps (map step_id steps) steps []); [|apply zero_index].
  apply Forall_forall. intros step Hs. by apply (list_elem_of_fmap_2 step_id).
Qed.

(** The state of the loop: the steps taken in order, the steps that are ready, and the counts; [rest] are
    the dependents of the last step that are still to be told. *)
Record progress (ids : list str) (edges : list (str * str)) (done ready rest : list str) (indegree : gmap str nat) : Prop := {
  progress_distinct : NoDup (done ++ ready);
  progress_known : Forall (fun x => x ∈ ids) (done ++ ready);
  progress_count : forall x, indegree !! x = if decide (x ∈ ids) then Some (waiting edges done x + occurrences x rest) else None;
  progress_ready : forall x, x ∈ ids -> x ∈ done ++ ready <-> waiting edges done x + occurrences x rest = 0;
  progress_order : after_dependencies edges done
}.

Lemma occurrences_cons x y l : occurrences x (y :: l) = (if decide (y = x) then 1 else 0) + occurrences x l.
Proof. unfold occurrences. rewrite filter_cons. by case_decide. Qed.

Lemma release_progress ids edges done ready rest indegree :
  Forall (fun x => x ∈ ids) rest -> progress ids edges done ready rest indegree ->
  exists indegree' ready', release_all rest (indegree, ready) = Done (indegree', ready') /\
    progress ids edges done ready' [] indegree'.
Proof.
  intros Hl. revert ready indegree. induction Hl as [|y rest Hy _ IH]; intros ready indegree [Hd Hk Hc Hr Ho]; cbn [release_all].
  { eexists _, _. split; [done|]. by split. }
  cbn [release_dependent]. rewrite Hc, decide_True, occurrences_cons, decide_True by done.
  set (n := waiting edges done y + occurrences y rest). replace (waiting edges done y + (1 + occurrences y rest)) with (S n) by lia.
  cbn [mbind run_bind]. apply IH.
  assert (Hyn : y ∉ done ++ ready).
  { rewrite Hr by done. rewrite occurrences_cons, decide_True by done. lia. }
  assert (Hready : forall x, x ∈ done ++ (if n =? 0 then ready ++ [y] else ready) <-> x ∈ done ++ ready \/ (n = 0 /\ x = y)).
  { intros x. destruct (Nat.eqb_spec n 0); set_solver. }
  split; try done.
  - destruct (n =? 0); [|done]. rewrite app_assoc. apply NoDup_app. split_and!; [done| |apply NoDup_singleton]. set_solver.
  - apply Forall_forall. intros x [Hx|[_ ->]]%Hready; [|done]. by eapply Forall_forall in Hk.
  - intros x. rewrite lookup_insert, Hc, occurrences_cons. destruct (decide (y = x)) as [<-|Hyx]; [by rewrite decide_True|done].
  - intros x Hx. rewrite Hready, Hr, occurrences_cons by done. destruct (decide (y = x)) as [<-|Hyx]; [|naive_solver lia].
    fold n. naive_solver lia.
Qed.

Lemma dependents_known steps d : Forall (fun x => x ∈ map step_id steps) (dependents (dependencies steps) d).
Proof.
  apply Forall_forall. intros x ([d' y] & Hin & Hx)%list_elem_of_omap. cbn in Hx. case_decide; [|done]. injection Hx as ->.
  unfold dependencies in Hin. apply list_elem_of_In, in_concat in Hin as (l & (step & <- & Hs)%in_map_iff & Hd).
  apply in_map_iff in Hd as (? & [= _ <-] & _). apply (list_elem_of_fmap_2 step_id). by apply list_elem_of_In.
Qed.

Lemma progress_take ids edges done s ready indegree :
  progress ids edges done (s :: ready) [] indegree -> progress ids edges (done ++ [s]) ready (dependents edges s) indegree.
Proof.
  intros [Hd Hk Hc Hr Ho].
  assert (Hs : s ∉ done) by (apply NoDup_app in Hd as (_ & Hd & _); intros H; by apply (Hd s); [|left]).
  assert (Hcount : forall x, waiting edges (done ++ [s]) x + occurrences x (dependents edges s) = waiting edges done x + occurrences x []).
  { intros x. rewrite (waiting_done edges done s x Hs). cbn. lia. }
  split; try (rewrite <- app_assoc; done).
  - intros x. by rewrite Hc, Hcount.
  - intros x Hx. rewrite Hcount, <- app_assoc. by apply Hr.
  - intros before x after Heq d Hin. destruct after as [|a after _] using rev_ind.
    + apply app_inj_tail in Heq as [<- <-]. revert d Hin. apply waiting_zero.
      apply Forall_app in Hk as [_ [Hk _]%Forall_cons]. apply Nat.le_0_r. rewrite <- (proj1 (Hr s Hk)) by set_solver. lia.
    + rewrite app_comm_cons, app_assoc in Heq. apply app_inj_tail in Heq as [-> _]. by eapply Ho.
Qed.

Lemma progress_room ids edges done ready rest indegree :
  progress ids edges done ready rest indegree -> length done + length ready <= length ids.
Proof.
  intros [Hd Hk _ _ _]. rewrite <- length_app. apply submseteq_length, NoDup_submseteq; [done|].
  intros x Hx. by eapply Forall_forall in Hk.
Qed.

Lemma take_ready_done steps outgoing fuel done ready indegree :
  (forall d, default [] (outgoing !! d) = dependents (dependencies steps) d) ->
  progress (map step_id steps) (dependencies steps) done ready [] indegree -> length steps - length done < fuel ->
  exists done' indegree', take_ready fuel outgoing indegree ready (length done) = Done (length done') /\
    progress (map step_id steps) (dependencies steps) done' [] [] indegree'.
Proof.
  intros Hout. revert done ready indegree. induction fuel as [|fuel IH]; intros done ready indegree H Hf; [lia|].
  destruct ready as [|s ready]; cbn [take_ready]; [by exists done, indegree|].
  pose proof (progress_room _ _ _ _ _ _ H) as Hroom. cbn [length] in Hroom. rewrite length_map in Hroom.
  apply progress_take in H. apply release_progress in H as (indegree' & ready' & Hrel & H); [|apply dependents_known].
  rewrite Hout, Hrel. cbn [mbind run_bind].
  replace (length done + 1) with (length (done ++ [s])) by (rewrite length_app; done).
  apply (IH _ _ _ H). rewrite length_app. cbn [length]. lia.
Qed.

Lemma zero_keys_nodup (l : list (str * nat)) :
  NoDup l.*1 -> NoDup (omap (fun '(step, degree) => if degree =? 0 then Some step else None) l).
Proof.
  induction l as [|[x n] l IH]; cbn; [constructor|]. intros [Hx Hl]%NoDup_cons. destruct (n =? 0); [|auto].
  constructor; [|auto]. intros ([y m] & Hin & Hy)%list_elem_of_omap. destruct (m =? 0); [|done]. injection Hy as ->.
  apply Hx. by apply (list_elem_of_fmap_2 fst) in Hin.
Qed.

Lemma initial_progress steps indegree outgoing :
  indexed (map step_id steps) (dependencies steps) (indegree, outgoing) ->
  progress (map step_id steps) (dependencies steps) []
    (sort_by str_leb (omap (fun '(step, degree) => if degree =? 0 then Some step else None) (map_to_list indegree))) [] indegree.
Proof.
  intros [Hi _]. cbn [fst] in Hi. set (ready := omap _ _).
  assert (Hready : forall x, x ∈ ready <-> indegree !! x = Some 0).
  { intros x. unfold ready. rewrite list_elem_of_omap. split.
    - intros ([y n] & H%elem_of_map_to_list & Hx). destruct (Nat.eqb_spec n 0); [|done]. by simplify_eq.
    - intros H. exists (x, 0). by rewrite elem_of_map_to_list. }
  split; cbn [app].
  - rewrite sort_by_perm. apply zero_keys_nodup, NoDup_fst_map_to_list.
  - rewrite sort_by_perm. apply Forall_forall. intros x Hx%Hready. rewrite Hi in Hx. by case_decide.
  - intros x. rewrite Hi. case_decide; [|done]. f_equal. cbn. lia.
  - intros x Hx. rewrite sort_by_perm, Hready, Hi, decide_True by done. change (occurrences x []) with 0. rewrite Nat.add_0_r. split; congruence.
  - intros before x after Heq. by destruct before.
Qed.

(** When nothing is ready any more, the steps taken are all the steps just if they can be ordered. *)
Lemma finished_schedulable steps done indegree :
  progress (map step_id steps) (dependencies steps) done [] [] indegree -> length done = length steps <-> schedulable steps.
Proof.
  intros [Hd Hk _ Hr Ho]. rewrite app_nil_r in *. split.
  - intros Hlen. exists done. split_and!; [|done..]. apply submseteq_length_Permutation; [|by rewrite length_map, Hlen].
    apply NoDup_submseteq; [done|]. intros x Hx. by eapply Forall_forall in Hk.
  - intros (order & Hperm & Hnd & Hord). rewrite <- (length_map step_id steps). apply Permutation_length.
    rewrite <- Hperm. apply NoDup_Permutation; [done..|]. intros x. split.
    + intros Hx. rewrite Hperm. by eapply Forall_forall in Hk.
    + clear Hnd. assert (Hpre : forall before after, order = before ++ after -> forall x, x ∈ before -> x ∈ done).
      { induction before as [|y before IH] using rev_ind; [by intros ? _ ? ?%elem_of_nil|]. intros after Heq.
        rewrite <- app_assoc in Heq. specialize (IH _ Heq). intros z [Hz| ->%list_elem_of_singleton]%elem_of_app; [by apply IH|].
        apply Hr; [rewrite <- Hperm, Heq; set_solver|]. cbn. rewrite Nat.add_0_r. apply waiting_zero.
        intros d Hin. by eapply IH, Hord. }
      apply (Hpre order []). by rewrite app_nil_r.
Qed.

Lemma acyclic_check_cases steps :
  validate_acyclic_dependencies steps = Done tt /\ schedulable steps \/
  validate_acyclic_dependencies steps = Fail (Invalid (lit "workflow step dependencies contain a cycle")) /\ ~ schedulable steps.
Proof.
  unfold validate_acyclic_dependencies. destruct (index_spec steps) as ([indegree outgoing] & -> & Hidx).
  cbn [try_ mbind run_bind]. pose proof (initial_progress _ _ _ Hidx) as H.
  apply (take_ready_done steps outgoing (S (length steps)) []) in H as (done & indegree' & Hrun & H); [|apply Hidx|cbn; lia].
  cbn [length] in Hrun. rewrite Hrun. cbn [mbind run_bind]. apply finished_schedulable in H. destruct (Nat.eqb_spec (length done) (length steps)); cbn [negb]; tauto.
Qed.

(** Checking the dependencies always comes to an end, without lowering a count below zero and without
    missing a step in its index, and accepts exactly the steps that can be put in an order in which each
    comes after all its dependencies; steps with equal identifiers or with unknown dependencies have no
    such order. *)
Theorem acyclic_check_exact steps :
  validate_acyclic_dependencies steps = Done tt /\ schedulable steps \/
  validate_acyclic_dependencies steps = Fail (Invalid (lit "workflow step dependencies contain a cycle")) /\ ~ schedulable steps.
Proof. apply acyclic_check_cases. Qed.

End WorkflowOrder.
