(* ===== verification/WorkflowValidation.v ===== *)
(** * Validating workflow documents: workflows/src/validation.rs, parse.rs and branch_prompt.rs

    [validate] is [WorkflowSpec::validate] with all the checks it calls; it is a run because the check
    of the dependencies counts down.  The YAML library is a parameter: the parser of documents and the
    conversion of a value to a specification. *)

From S2P Require Import Prelude Text WorkflowSpec WorkflowOrder.

Module WorkflowValidation.
Import WorkflowSpec WorkflowOrder.

(** ** Numbers in texts *)

(** The leading digits of a text and the rest. *)
Fixpoint span_digits (s : str) : list char * str :=
  match s with
  | c :: rest => if is_ascii_digit c then let '(ds, r) := span_digits rest in (c :: ds, r) else ([], s)
  | [] => ([], [])
  end.

Definition digits_value (ds : list char) : Z := foldl (fun n c => 10 * n + (Z.of_N c - 48))%Z 0%Z ds.

(** A sign in front of a number, and the rest. *)
Definition split_sign (s : str) : bool * str :=
  match s with
  | c :: rest => if (c =? 45)%N then (true, rest) else if (c =? 43)%N then (false, rest) else (false, s)
  | [] => (false, s)
  end.

(** An exponent; digits past 65536 are ignored, as the standard library does. *)
Definition exponent_value (ds : list char) : Z :=
  foldl (fun n c => if (n <? 65536)%Z then 10 * n + (Z.of_N c - 48) else n)%Z 0%Z ds.

Inductive f64_literal := SpecialLiteral | DecimalLiteral (negative : bool) (mantissa exponent : Z).

(** [str::parse::<f64>], up to the rounding. *)
Definition parse_f64 (s : str) : option f64_literal :=
  let '(negative, s) := split_sign s in
  let '(integer, r) := span_digits s in
  let '(fraction, r) := match r with c :: r' => if (c =? 46)%N then span_digits r' else ([], r) | [] => ([], []) end in
  let number :=
    if bool_decide (integer ++ fraction = []) then None
    else
      let mantissa := digits_value (integer ++ fraction) in
      let scale := Z.of_nat (length fraction) in
      match r with
      | [] => Some (DecimalLiteral negative mantissa (- scale))
      | c :: r =>
          if (c =? 101)%N || (c =? 69)%N then
            let '(down, r) := split_sign r in
            match span_digits r with
            | (d :: ds, []) =>
                let e := exponent_value (d :: ds) in
                Some (DecimalLiteral negative mantissa ((if down then - e else e) - scale))
            | _ => None
            end
          else None
      end in
  match number with
  | Some literal => Some literal
  | None => if bool_decide (to_ascii_lowercase s ∈ lit <$> ["nan"; "inf"; "infinity"]) then Some SpecialLiteral else None
  end.

(** Whether the nearest [f64] is finite and above zero: the value is above half of the smallest positive
    number and below the point where rounding gives infinity. *)
Definition finite_positive (l : f64_literal) : bool :=
  match l with
  | SpecialLiteral => false
  | DecimalLiteral negative m e =>
      let limit := (2 ^ 1024 - 2 ^ 970)%Z in
      negb negative && (0 <? m)%Z &&
      if (0 <=? e)%Z then (m * 10 ^ e <? limit)%Z
      else (10 ^ (- e) <? m * 2 ^ 1075)%Z && (m <? limit * 10 ^ (- e))%Z
  end.

(** ** Model routes *)

Definition dotted (path : str) (field : string) : str := path ++ lit "." ++ lit field.

(** [codex-rs/workflows/src/validation.rs:313-316 WorkflowModelRoutingError::validate] *)
Definition validate_routing_error (path : str) (self : WorkflowModelRoutingError) : WorkflowSpecResult unit :=
  _ ← validate_identifier (dotted path "code") (code self);
  validate_non_empty (dotted path "message") (error_message self).

(** [codex-rs/workflows/src/validation.rs:818-826 validate_routing_errors] *)
Definition validate_routing_errors (path : str) (errs : list WorkflowModelRoutingError) : WorkflowSpecResult unit :=
  validate_each (fun index error => validate_routing_error (at_index (dotted path "errors") index) error) errs.

(** [codex-rs/workflows/src/validation.rs:299-309 WorkflowModelRoutingFallback::validate] *)
Definition validate_fallback (path : str) (self : WorkflowModelRoutingFallback) : WorkflowSpecResult unit :=
  if used self then validate_non_empty (dotted path "reason") (default [] (fallback_reason self))
  else if_some (fallback_reason self) (validate_non_empty (dotted path "reason")).

(** [codex-rs/workflows/src/validation.rs:247-295 WorkflowModelRoutingDecision::validate] *)
Definition validate_decision (path : str) (self : WorkflowModelRoutingDecision) : WorkflowSpecResult unit :=
  _ ← validate_string_list (dotted path "warnings") (warnings self);
  _ ← if_some (fallback self) (validate_fallback (dotted path "fallback"));
  match decision_status self with
  | Selected | Fallback =>
      _ ← validate_required_decision_route_field path (lit "model_gateway") (decision_model_gateway self);
      _ ← validate_required_decision_route_field path (lit "provider") (decision_provider self);
      _ ← validate_required_decision_route_field path (lit "model") (decision_model self);
      _ ← validate_required_decision_route_field path (lit "reasoning") (decision_reasoning self);
      _ ← if_some (decision_service_tier self) (validate_route_field path (lit "service_tier"));
      _ ← if_some (decision_auth_profile self) (validate_non_empty (dotted path "auth_profile"));
      _ ← validate_non_empty (dotted path "explanation") (default [] (explanation self));
      _ ← match decision_status self with
          | Fallback =>
              match fallback self with
              | None => Err (Invalid (dotted path "fallback must describe why fallback routing was used"))
              | Some fallback =>
                  invalid_if (negb (used fallback)) (dotted path "fallback.used must be true for fallback decisions")
              end
          | _ => Ok tt
          end;
      validate_routing_errors path (errors self)
  | Error =>
      _ ← if_some (explanation self) (validate_non_empty (dotted path "explanation"));
      _ ← invalid_if (bool_decide (length (errors self) = 0)) (dotted path "errors must describe why routing failed");
      validate_routing_errors path (errors self)
  end.

(** [codex-rs/workflows/src/validation.rs:175-243 WorkflowModelRoutingConstraints::validate] *)
Definition validate_constraints (path : str) (self : WorkflowModelRoutingConstraints) : WorkflowSpecResult unit :=
  _ ← try_fold (fun (_ : unit) '(field, values) => validate_route_value_list path (lit field) values)
        [("allowed_model_gateways", allowed_model_gateways self); ("preferred_model_gateways", preferred_model_gateways self);
         ("allowed_providers", allowed_providers self); ("preferred_providers", preferred_providers self);
         ("allowed_models", allowed_models self); ("preferred_models", preferred_models self);
         ("allowed_reasoning", allowed_reasoning self); ("preferred_reasoning", preferred_reasoning self);
         ("allowed_service_tiers", allowed_service_tiers self); ("preferred_service_tiers", preferred_service_tiers self)] tt;
  _ ← try_fold (fun (_ : unit) '(field, values) => validate_string_list (dotted path field) values)
        [("allowed_auth_profiles", allowed_auth_profiles self); ("allowed_approval_policies", allowed_approval_policies self);
         ("allowed_permission_profiles", allowed_permission_profiles self); ("allowed_worktree_modes", allowed_worktree_modes self)] tt;
  _ ← if_some (max_context_tokens self) (fun n => invalid_if (n =? 0)%N (dotted path "max_context_tokens must be positive"));
  if_some (budget_usd self) (fun budget =>
    _ ← validate_non_empty (dotted path "budget_usd") budget;
    match parse_f64 budget with
    | None => Err (Invalid (dotted path "budget_usd must be a positive decimal string"))
    | Some amount => invalid_if (negb (finite_positive amount)) (dotted path "budget_usd must be positive")
    end).

(** [codex-rs/workflows/src/validation.rs:152-171 WorkflowModelRoutingContext::validate] *)
Definition validate_context (path : str) (self : WorkflowModelRoutingContext) : WorkflowSpecResult unit :=
  _ ← if_some (task_id self) (validate_identifier (dotted path "task_id"));
  _ ← if_some (task_title self) (validate_prompt_field (dotted path "task_title"));
  _ ← try_fold (fun (_ : unit) '(field, value) => if_some value (validate_non_empty (dotted path field)))
        [("project_path", project_path self); ("auth_profile", context_auth_profile self);
         ("approval_policy", context_approval_policy self); ("permission_profile", context_permission_profile self);
         ("worktree_mode", worktree_mode self)] tt;
  validate_string_list (dotted path "tags") (tags self).

(** [codex-rs/workflows/src/validation.rs:145-148 WorkflowModelRoutingRequest::validate] *)
Definition validate_request (path : str) (self : WorkflowModelRoutingRequest) : WorkflowSpecResult unit :=
  _ ← validate_context (dotted path "context") (context self);
  validate_constraints (dotted path "constraints") (constraints self).

(** [codex-rs/workflows/src/validation.rs:134-141 WorkflowModelRoutingContract::validate] *)
Definition validate_contract (path : str) (self : WorkflowModelRoutingContract) : WorkflowSpecResult unit :=
  _ ← validate_non_empty (dotted path "contract_version") (contract_version self);
  _ ← validate_request (dotted path "request") (request self);
  if_some (decision self) (validate_decision (dotted path "decision")).

(** [codex-rs/workflows/src/validation.rs:112-130 WorkflowModelRoute::validate] *)
Definition validate_route (path : str) (self : WorkflowModelRoute) : WorkflowSpecResult unit :=
  _ ← validate_route_field path (lit "model_gateway") (model_gateway self);
  _ ← validate_route_field path (lit "provider") (provider self);
  _ ← validate_route_field path (lit "model") (model self);
  _ ← validate_route_field path (lit "reasoning") (reasoning self);
  _ ← if_some (service_tier self) (validate_route_field path (lit "service_tier"));
  _ ← if_some (approval_policy self) (validate_non_empty (dotted path "approval_policy"));
  _ ← if_some (permission_profile self) (validate_non_empty (dotted path "permission_profile"));
  if_some (routing self) (validate_contract (dotted path "routing")).

(** [codex-rs/workflows/src/validation.rs:320-352 WorkflowLimits::validate] *)
Definition validate_limits (self : WorkflowLimits) : WorkflowSpecResult unit :=
  _ ← invalid_if (max_parallel_steps self =? 0)%N (lit "limits.max_parallel_steps must be positive");
  _ ← invalid_if (max_agents self =? 0)%N (lit "limits.max_agents must be positive");
  _ ← invalid_if (max_runtime_seconds self =? 0)%N (lit "limits.max_runtime_seconds must be positive");
  _ ← invalid_if (max_step_runtime_seconds self =? 0)%N (lit "limits.max_step_runtime_seconds must be positive");
  _ ← invalid_if (max_tokens self =? 0)%N (lit "limits.max_tokens must be positive");
  invalid_if (max_tool_calls self =? 0)%N (lit "limits.max_tool_calls must be positive").

(** ** Agents *)

(** [codex-rs/workflows/src/ancient_names.rs:12-73 ANCIENT_NAMES] *)
Definition ANCIENT_NAMES : list str := lit <$>
  ["aeschylus"; "agrippa"; "alexander"; "anaxagoras"; "anaximander"; "apollonius"; "archimedes"; "aristarchus"; "aristotle";
   "aryabhata"; "augustus"; "aurelius"; "boethius"; "caesar"; "cato"; "cicero"; "claudius"; "cleopatra"; "confucius";
   "democritus"; "diophantus"; "eratosthenes"; "euclid"; "eudoxus"; "galen"; "hammurabi"; "hero"; "hipparchus";
   "hippocrates"; "hypatia"; "julius"; "lucretius"; "marcus aurelius"; "menelaus"; "nero"; "nicomachus"; "ovid"; "pappus";
   "parmenides"; "phidias"; "plato"; "pliny"; "plotinus"; "plutarch"; "ptolemy"; "pythagoras"; "quintilian"; "seneca";
   "socrates"; "solon"; "sophocles"; "strabo"; "tacitus"; "themistocles"; "theophrastus"; "thucydides"; "varro"; "virgil";
   "vitruvius"; "zeno"].

(** [slice::binary_search(..).is_ok()]: the middle of what is left, while something is left. *)
Fixpoint binary_search_from (fuel : nat) (l : list str) (lo hi : nat) (x : str) : bool :=
  match fuel with
  | 0 => false
  | S fuel =>
      if hi <=? lo then false
      else let mid := (lo + hi) / 2 in
           match l !! mid with
           | None => false
           | Some y => if bool_decide (y = x) then true
                       else if str_leb y x then binary_search_from fuel l (S mid) hi x
                       else binary_search_from fuel l lo mid x
           end
  end.
Definition binary_search (l : list str) (x : str) : bool := binary_search_from (S (length l)) l 0 (length l) x.

(** [codex-rs/workflows/src/ancient_names.rs:1-10 is_ancient_display_name] *)
Definition is_ancient_display_name (display_name : str) : bool :=
  match rsplit_once 45 display_name with
  | None => false
  | Some (role, name) =>
      if bool_decide (trim role = []) || bool_decide (trim name = []) then false
      else binary_search ANCIENT_NAMES (to_ascii_lowercase (trim name))
  end.

(** One element of a list whose identifiers must be distinct. *)
Definition distinct_id (what : str) (seen : gset str) (id : str) (path : str) : WorkflowSpecResult (gset str) :=
  _ ← validate_identifier path id;
  if bool_decide (id ∈ seen) then Err (Invalid (what ++ lit " id " ++ quoted id ++ lit " is duplicated"))
  else Ok ({[id]} ∪ seen).

(** [codex-rs/workflows/src/validation.rs:365-383 validate_agents] one agent. *)
Definition validate_agent (agent_ids : gset str) (agent : WorkflowAgent) : WorkflowSpecResult (gset str) :=
  agent_ids ← distinct_id (lit "agent") agent_ids (agent_id agent) (lit "agent.id");
  _ ← invalid_if (negb (is_ancient_display_name (agent_display_name agent)))
        (lit "agent " ++ quoted (agent_id agent) ++ lit " display_name " ++ quoted (agent_display_name agent) ++
         lit " must be role-first with an approved ancient name");
  _ ← validate_non_empty (lit "agent.role") (role agent);
  _ ← validate_route (lit "agents." ++ agent_id agent ++ lit ".model") (agent_model agent);
  Ok agent_ids.

(** [codex-rs/workflows/src/validation.rs:355-385 validate_agents] *)
Definition validate_agents (spec : WorkflowSpec) : WorkflowSpecResult unit :=
  _ ← invalid_if (max_agents (limits spec) <? N.of_nat (length (agents spec)))%N
        (lit "workflow defines " ++ show_nat (length (agents spec)) ++ lit " agents but limits.max_agents is " ++
         show_N (max_agents (limits spec)));
  _ ← try_fold validate_agent (agents spec) ∅;
  Ok tt.

(** ** Steps *)

(** [codex-rs/workflows/src/validation.rs:29-29 CANDIDATE_SUCCEEDED] *)
Definition CANDIDATE_SUCCEEDED : str := lit "candidate_succeeded".
(** [codex-rs/workflows/src/validation.rs:30-30 ARTIFACT_CONTAINS_VERIFIER] *)
Definition ARTIFACT_CONTAINS_VERIFIER : str := lit "artifact_contains".
(** [codex-rs/workflows/src/validation.rs:31-31 RUN_COMMANDS_VERIFIER] *)
Definition RUN_COMMANDS_VERIFIER : str := lit "run_commands".
(** [codex-rs/workflows/src/validation.rs:32-32 MAX_VERIFIER_RETRY_ATTEMPTS] *)
Definition MAX_VERIFIER_RETRY_ATTEMPTS : N := 5.

(** [codex-rs/workflows/src/validation.rs:591-615 validate_dependencies] *)
Definition validate_dependencies (step : WorkflowStep) (step_ids : gset str) : WorkflowSpecResult unit :=
  _ ← try_fold (fun (seen : gset str) dependency =>
        _ ← validate_identifier (lit "step.depends_on") dependency;
        _ ← invalid_if (bool_decide (dependency = step_id step))
              (lit "step " ++ quoted (step_id step) ++ lit " cannot depend on itself");
        _ ← invalid_if (negb (bool_decide (dependency ∈ step_ids)))
              (lit "step " ++ quoted (step_id step) ++ lit " depends on unknown step " ++ quoted dependency);
        _ ← invalid_if (bool_decide (dependency ∈ seen))
              (lit "step " ++ quoted (step_id step) ++ lit " lists dependency " ++ quoted dependency ++ lit " more than once");
        Ok ({[dependency]} ∪ seen)) (depends_on step) ∅;
  Ok tt.

(** [codex-rs/workflows/src/validation.rs:641-707 validate_verifier] *)
Definition validate_verifier (step_id : str) (verifier : WorkflowVerifier) : WorkflowSpecResult unit :=
  let about what := lit "step " ++ quoted step_id ++ lit what ++ quoted (verifier_id verifier) in
  _ ← validate_identifier (lit "verifier.id") (verifier_id verifier);
  _ ← (if bool_decide (kind verifier = ARTIFACT_CONTAINS_VERIFIER) then
         _ ← validate_non_empty (lit "verifier.artifact") (default [] (artifact verifier));
         _ ← validate_string_list (lit "verifier.must_contain") (must_contain verifier);
         invalid_if (bool_decide (must_contain verifier = [])) (about " artifact_contains verifier " ++ lit " must include must_contain")
       else if bool_decide (kind verifier = RUN_COMMANDS_VERIFIER) then
         _ ← try_fold (fun (_ : unit) '(field, value) => validate_non_empty (lit "verifier." ++ lit field) (default [] value))
               [("cwd", cwd verifier); ("sandbox", sandbox verifier); ("network", network verifier)] tt;
         _ ← invalid_if (default 0 (timeout_seconds verifier) =? 0)%N (about " run_commands verifier " ++ lit " must set timeout_seconds");
         _ ← invalid_if (default 0 (output_limit_bytes verifier) =? 0)%N (about " run_commands verifier " ++ lit " must set output_limit_bytes");
         _ ← validate_string_list (lit "verifier.commands") (commands verifier);
         invalid_if (bool_decide (commands verifier = [])) (about " run_commands verifier " ++ lit " must include commands")
       else Err (Invalid (about " verifier " ++ lit " has unsupported type " ++ quoted (kind verifier))));
  _ ← if_some (retry_policy verifier) (fun policy =>
        invalid_if (max_attempts policy =? 0)%N (about " verifier " ++ lit " retry_policy.max_attempts must be positive"));
  if_some (retry_policy verifier) (fun policy =>
    invalid_if (MAX_VERIFIER_RETRY_ATTEMPTS <? max_attempts policy)%N
      (about " verifier " ++ lit " retry_policy.max_attempts must be at most " ++ show_N MAX_VERIFIER_RETRY_ATTEMPTS)).

(** [codex-rs/workflows/src/validation.rs:617-639 validate_completion] *)
Definition validate_completion (step_id : str) (completion : WorkflowCompletion) : WorkflowSpecResult unit :=
  _ ← invalid_if (negb (bool_decide (model_marked_state completion = CANDIDATE_SUCCEEDED)))
        (lit "step " ++ quoted step_id ++ lit " model_marked_state must be " ++ quoted CANDIDATE_SUCCEEDED);
  _ ← invalid_if (bool_decide (length (verifiers completion) = 0))
        (lit "step " ++ quoted step_id ++ lit " must include at least one verifier");
  _ ← try_fold (fun (verifier_ids : gset str) verifier =>
        _ ← validate_verifier step_id verifier;
        _ ← invalid_if (bool_decide (verifier_id verifier ∈ verifier_ids))
              (lit "step " ++ quoted step_id ++ lit " verifier id " ++ quoted (verifier_id verifier) ++ lit " is duplicated");
        Ok ({[verifier_id verifier]} ∪ verifier_ids)) (verifiers completion) ∅;
  Ok tt.

(** [codex-rs/workflows/src/validation.rs:404-431 validate_steps] one step of the second loop. *)
Definition validate_step (agent_ids step_ids : gset str) (step : WorkflowStep) : WorkflowSpecResult unit :=
  _ ← validate_prompt_field (lit "step.title") (step_title step);
  _ ← invalid_if (negb (bool_decide (agent step ∈ agent_ids)))
        (lit "step " ++ quoted (step_id step) ++ lit " references unknown agent " ++ quoted (agent step));
  match step_model step with
  | None => Err (Invalid (lit "step " ++ quoted (step_id step) ++ lit " must include an exact model route"))
  | Some model =>
      _ ← validate_route (lit "steps." ++ step_id step ++ lit ".model") model;
      _ ← if_some (parallel_group step) (validate_identifier (lit "step.parallel_group"));
      _ ← validate_string_list (lit "step.outputs") (outputs step);
      _ ← validate_dependencies step step_ids;
      match completion step with
      | None => Err (Invalid (lit "step " ++ quoted (step_id step) ++ lit " must include verifier-gated completion"))
      | Some completion => validate_completion (step_id step) completion
      end
  end.

(** [codex-rs/workflows/src/validation.rs:387-434 validate_steps] *)
Definition validate_steps (spec : WorkflowSpec) : run WorkflowSpecError unit :=
  let agent_ids := list_to_set (map agent_id (agents spec)) in
  step_ids ← try_ (try_fold (fun step_ids step => distinct_id (lit "step") step_ids (step_id step) (lit "step.id")) (steps spec) ∅);
  _ ← try_ (try_fold (fun (_ : unit) step => validate_step agent_ids step_ids step) (steps spec) tt);
  validate_acyclic_dependencies (steps spec).

(** ** Loops and monitors *)

(** [codex-rs/workflows/src/validation.rs:33-33 MAX_WORKFLOW_LOOPS] *)
Definition MAX_WORKFLOW_LOOPS : nat := 32.
(** [codex-rs/workflows/src/validation.rs:34-34 MAX_WORKFLOW_LOOP_ITERATIONS] *)
Definition MAX_WORKFLOW_LOOP_ITERATIONS : N := 10000.
(** [codex-rs/workflows/src/validation.rs:35-35 MAX_WORKFLOW_MONITOR_LINKS] *)
Definition MAX_WORKFLOW_MONITOR_LINKS : nat := 32.
(** [codex-rs/workflows/src/validation.rs:36-36 MAX_WORKFLOW_MONITOR_EVENTS_PER_TICK] *)
Definition MAX_WORKFLOW_MONITOR_EVENTS_PER_TICK : N := 50.
(** [codex-rs/workflows/src/validation.rs:37-37 WORKFLOW_MONITOR_SOURCE_EXISTING_THREAD_MONITOR] *)
Definition WORKFLOW_MONITOR_SOURCE_EXISTING_THREAD_MONITOR : str := lit "existing_thread_monitor".

(** [codex-rs/workflows/src/validation.rs:555-570 validate_optional_step_ref] *)
Definition validate_optional_step_ref (path : str) (step_id : option str) (step_ids : gset str) : WorkflowSpecResult unit :=
  if_some step_id (fun step_id =>
    _ ← validate_identifier path step_id;
    invalid_if (negb (bool_decide (step_id ∈ step_ids))) (path ++ lit " references unknown step " ++ quoted step_id)).

(** [codex-rs/workflows/src/validation.rs:572-589 validate_stop_condition] *)
Definition validate_stop_condition (path : str) (stop_condition : WorkflowStopCondition) (step_ids : gset str)
    : WorkflowSpecResult unit :=
  match stop_condition with
  | WorkflowComplete => Ok tt
  | StepSucceeded step =>
      _ ← validate_identifier path step;
      invalid_if (negb (bool_decide (step ∈ step_ids))) (path ++ lit " references unknown step " ++ quoted step)
  end.

(** [codex-rs/workflows/src/validation.rs:485-503 validate_loop_schedule] *)
Definition validate_loop_schedule (loop_id : str) (schedule : WorkflowLoopSchedule) : WorkflowSpecResult unit :=
  match schedule with
  | Dynamic => Ok tt
  | Interval amount _ => invalid_if (amount =? 0)%N (lit "loop " ++ quoted loop_id ++ lit " interval amount must be positive")
  | Cron expression => validate_non_empty (lit "loop.schedule.expression") expression
  end.

(** [codex-rs/workflows/src/validation.rs:444-481 validate_loops] one loop. *)
Definition validate_loop (step_ids : gset str) (loop_ids : gset str) (workflow_loop : WorkflowLoop) : WorkflowSpecResult (gset str) :=
  let about what := lit "loop " ++ quoted (loop_id workflow_loop) ++ lit what in
  loop_ids ← distinct_id (lit "loop") loop_ids (loop_id workflow_loop) (lit "loop.id");
  _ ← validate_prompt_field (lit "loop.title") (loop_title workflow_loop);
  _ ← validate_non_empty (lit "loop.timezone") (timezone workflow_loop);
  _ ← validate_loop_schedule (loop_id workflow_loop) (schedule workflow_loop);
  _ ← invalid_if (max_iterations workflow_loop =? 0)%N (about " max_iterations must be positive");
  _ ← invalid_if (MAX_WORKFLOW_LOOP_ITERATIONS <? max_iterations workflow_loop)%N
        (about " max_iterations must be at most " ++ show_N MAX_WORKFLOW_LOOP_ITERATIONS);
  _ ← if_some (expires_after_seconds workflow_loop) (fun n => invalid_if (n =? 0)%N (about " expires_after_seconds must be positive"));
  _ ← validate_optional_step_ref (lit "loop.trigger_step") (loop_trigger_step workflow_loop) step_ids;
  _ ← validate_stop_condition (about " stop_condition") (loop_stop_condition workflow_loop) step_ids;
  Ok loop_ids.

(** [codex-rs/workflows/src/validation.rs:436-483 validate_loops] *)
Definition validate_loops (spec : WorkflowSpec) (step_ids : gset str) : WorkflowSpecResult unit :=
  _ ← invalid_if (MAX_WORKFLOW_LOOPS <? length (loops spec))
        (lit "workflow defines " ++ show_nat (length (loops spec)) ++ lit " loops but the maximum is " ++ show_nat MAX_WORKFLOW_LOOPS);
  _ ← try_fold (validate_loop step_ids) (loops spec) ∅;
  Ok tt.

(** [codex-rs/workflows/src/validation.rs:516-551 validate_monitor_links] one monitor. *)
Definition validate_monitor (step_ids : gset str) (monitor_ids : gset str) (monitor : WorkflowMonitorLink)
    : WorkflowSpecResult (gset str) :=
  let about what := lit "monitor " ++ quoted (monitor_id monitor) ++ lit what in
  monitor_ids ← distinct_id (lit "monitor") monitor_ids (monitor_id monitor) (lit "monitor.id");
  _ ← validate_prompt_field (lit "monitor.title") (monitor_title monitor);
  _ ← invalid_if (negb (bool_decide (source monitor = WORKFLOW_MONITOR_SOURCE_EXISTING_THREAD_MONITOR)))
        (about " source must be " ++ quoted WORKFLOW_MONITOR_SOURCE_EXISTING_THREAD_MONITOR);
  _ ← invalid_if (max_events_per_tick monitor =? 0)%N (about " max_events_per_tick must be positive");
  _ ← invalid_if (MAX_WORKFLOW_MONITOR_EVENTS_PER_TICK <? max_events_per_tick monitor)%N
        (about " max_events_per_tick must be at most " ++ show_N MAX_WORKFLOW_MONITOR_EVENTS_PER_TICK);
  _ ← validate_optional_step_ref (lit "monitor.trigger_step") (monitor_trigger_step monitor) step_ids;
  _ ← if_some (monitor_stop_condition monitor) (fun stop_condition =>
        validate_stop_condition (about " stop_condition") stop_condition step_ids);
  Ok monitor_ids.

(** [codex-rs/workflows/src/validation.rs:505-553 validate_monitor_links] *)
Definition validate_monitor_links (monitors : list WorkflowMonitorLink) (step_ids : gset str) : WorkflowSpecResult unit :=
  _ ← invalid_if (MAX_WORKFLOW_MONITOR_LINKS <? length monitors)
        (lit "workflow defines " ++ show_nat (length monitors) ++ lit " monitors but the maximum is " ++ show_nat MAX_WORKFLOW_MONITOR_LINKS);
  _ ← try_fold (validate_monitor step_ids) monitors ∅;
  Ok tt.

(** ** The whole document *)

(** [codex-rs/workflows/src/validation.rs:784-790 is_adversarial_text] *)
Definition is_adversarial_text (value : str) : bool :=
  let value := to_ascii_lowercase value in
  contains_sub (lit "adversary") value || contains_sub (lit "adversarial") value || contains_sub (lit "red team") value
  || contains_sub (lit "red_team") value.

(** [codex-rs/workflows/src/validation.rs:761-782 validate_adversarial_work] *)
Definition validate_adversarial_work (spec : WorkflowSpec) : WorkflowSpecResult unit :=
  let adversarial_agents := length (List.filter (fun agent =>
    is_adversarial_text (agent_id agent) || is_adversarial_text (agent_display_name agent) || is_adversarial_text (role agent))
    (agents spec)) in
  let adversarial_steps := length (List.filter (fun step =>
    is_adversarial_text (step_id step) || is_adversarial_text (step_title step)) (steps spec)) in
  invalid_if ((adversarial_agents =? 0) && (adversarial_steps =? 0))
    (lit "draft workflows must include adversarial work by at least one agent or one step").

(** [codex-rs/workflows/src/validation.rs:77-105 WorkflowSpec::validate] the end, by the status. *)
Definition validate_status (self : WorkflowSpec) : WorkflowSpecResult unit :=
  match status self with
  | Draft =>
      _ ← invalid_if (bool_decide (length (agents self) = 0)) (lit "draft workflows must define at least one agent");
      _ ← invalid_if (bool_decide (length (steps self) = 0)) (lit "draft workflows must define at least one step");
      validate_adversarial_work self
  | NeedsClarification =>
      invalid_if (bool_decide (questions self = []) && bool_decide (blocking_reasons self = []))
        (lit "needs_clarification workflows must include questions or blocking_reasons")
  | Blocked => invalid_if (bool_decide (blocking_reasons self = [])) (lit "blocked workflows must include blocking_reasons")
  end.

(** [codex-rs/workflows/src/validation.rs:49-108 WorkflowSpec::validate] *)
Definition validate (self : WorkflowSpec) : run WorkflowSpecError unit :=
  _ ← try_ (invalid_if (negb (bool_decide (schema_version self = SUPPORTED_SCHEMA_VERSION)))
              (lit "unsupported schema_version " ++ quoted (schema_version self) ++ lit "; expected " ++ quoted SUPPORTED_SCHEMA_VERSION));
  _ ← try_ (validate_identifier (lit "workflow_id") (workflow_id self));
  _ ← try_ (validate_prompt_field (lit "display_name") (display_name self));
  _ ← try_ (validate_non_empty (lit "source_prompt") (source_prompt self));
  _ ← try_ (validate_route (lit "execution_defaults") (execution_defaults self));
  _ ← try_ (validate_limits (limits self));
  _ ← try_ (validate_string_list (lit "approvals.required_before") (required_before self));
  _ ← try_ (validate_string_list (lit "artifacts.required") (required_artifacts self));
  _ ← try_ (validate_non_empty (lit "artifacts.retention") (retention self));
  _ ← try_ (validate_string_list (lit "cleanup.on_cancel") (on_cancel self));
  _ ← try_ (validate_string_list (lit "cleanup.on_complete") (on_complete self));
  _ ← try_ (validate_agents self);
  _ ← validate_steps self;
  let step_ids := list_to_set (map step_id (steps self)) in
  _ ← try_ (validate_loops self step_ids);
  _ ← try_ (validate_monitor_links (monitors self) step_ids);
  try_ (validate_status self).

(** ** Documents *)

(** The values of the YAML library. *)
Inductive Value :=
| Null
| Bool (b : bool)
| Number (n : str)
| String (s : str)
| Sequence (items : list Value)
| Mapping (entries : list (Value * Value))
| Tagged (tag : str) (value : Value).

(** [codex-rs/workflows/src/parse.rs:31-65 reject_unsupported_yaml_features] *)
Fixpoint reject_unsupported_yaml_features (value : Value) (path : str) : WorkflowSpecResult unit :=
  match value with
  | Tagged _ _ => Err (UnsupportedYamlFeature path (lit "custom YAML tags are not allowed"))
  | Mapping mapping =>
      (fix go mapping :=
         match mapping with
         | [] => Ok tt
         | (key, nested) :: mapping =>
             match key with
             | String key =>
                 if bool_decide (key = lit "<<") then Err (UnsupportedYamlFeature path (lit "YAML merge keys are not allowed"))
                 else _ ← reject_unsupported_yaml_features nested (path ++ lit "." ++ key); go mapping
             | _ => Err (UnsupportedYamlFeature path (lit "mapping keys must be strings"))
             end
         end) mapping
  | Sequence sequence =>
      (fix go index sequence :=
         match sequence with
         | [] => Ok tt
         | nested :: sequence =>
             _ ← reject_unsupported_yaml_features nested (at_index path index); go (S index) sequence
         end) 0 sequence
  | Null | Bool _ | Number _ | String _ => Ok tt
  end.

(** [codex-rs/workflows/src/lib.rs:51-51 MAX_WORKFLOW_YAML_BYTES] *)
Definition MAX_WORKFLOW_YAML_BYTES : N := 256 * 1024.

Definition fence : str := lit "```".

Section documents.
Context (from_str : str -> result str Value) (from_value : Value -> result str WorkflowSpec).

(** [codex-rs/workflows/src/parse.rs:8-29 parse_workflow_yaml] *)
Definition parse_workflow_yaml (raw : str) : run WorkflowSpecError WorkflowSpec :=
  if (MAX_WORKFLOW_YAML_BYTES <? str_len raw)%N then Fail (DocumentTooLarge (str_len raw) MAX_WORKFLOW_YAML_BYTES)
  else
    let trimmed := trim raw in
    if bool_decide (trimmed = []) then Fail EmptyDocument
    else if starts_with fence trimmed || contains_sub (NL :: fence) trimmed then Fail MarkdownFence
    else
      value ← try_ (map_err ParseYaml (from_str raw));
      _ ← try_ (reject_unsupported_yaml_features value (lit "$"));
      spec ← try_ (map_err ParseYaml (from_value value));
      _ ← validate spec;
      Done spec.

End documents.

(** ** The prompt of a branch *)

(** [codex-rs/workflows/src/branch_prompt.rs:3-10 WorkflowBranchPrompt] *)
Record WorkflowBranchPrompt := {
  run_id : str;
  prompt_step_id : str;
  prompt_title : str;
  prompt_agent_id : str;
  prompt_parallel_group : option str
}.

(** [codex-rs/workflows/src/branch_prompt.rs:27-38 truncate_prompt_field] *)
Definition truncate_prompt_field (value : str) : str :=
  let truncated := take MAX_WORKFLOW_PROMPT_FIELD_CHARS value in
  match drop MAX_WORKFLOW_PROMPT_FIELD_CHARS value with
  | [] => value
  | _ :: _ => truncated ++ lit "..."
  end.

(** [codex-rs/workflows/src/branch_prompt.rs:12-25 render_workflow_branch_prompt] *)
Definition render_workflow_branch_prompt (input : WorkflowBranchPrompt) : str :=
  let title := truncate_prompt_field (prompt_title input) in
  join [NL]
    ([lit "Workflow step " ++ quoted (prompt_step_id input) ++ lit ": " ++ title;
      lit "Workflow run: " ++ run_id input;
      lit "Agent: " ++ prompt_agent_id input;
      lit "Complete this workflow branch in its scoped session. Dependencies for this step are already satisfied.";
      lit "When finished, mark the branch work complete; deterministic workflow verifiers will decide final success."] ++
     match prompt_parallel_group input with Some group => [lit "Parallel group: " ++ group] | None => [] end).

(** ** What a valid document promises *)

(** An optional field is right if it is given; a required one must be given, too. *)
Definition given {A} (P : A -> Prop) (o : option A) : Prop := match o with Some a => P a | None => True end.
Definition required {A} (P : A -> Prop) (o : option A) : Prop := match o with Some a => P a | None => False end.

(** A text that is not blank. *)
Definition filled (s : str) : Prop := trim s <> [].

Definition identifier (s : str) : Prop := filled s /\ (str_len s <= 128)%N /\ Forall (fun c => identifier_byte c = true) s.

(** A text that is shown in a prompt. *)
Definition title_text (s : str) : Prop := filled s /\ length s <= 240.

(** A field of a model route that names something, instead of leaving the choice open. *)
Definition exact_field (s : str) : Prop := filled s /\ to_ascii_lowercase (trim s) ∉ PLACEHOLDER_ROUTE_VALUES.

(** An amount of money: a decimal number that is finite and above zero as an [f64]. *)
Definition positive_amount (s : str) : Prop := filled s /\ required (fun amount => finite_positive amount = true) (parse_f64 s).

(** *** Routes *)

Definition error_told (e : WorkflowModelRoutingError) : Prop := identifier (code e) /\ filled (error_message e).

Definition fallback_told (f : WorkflowModelRoutingFallback) : Prop :=
  (used f = true -> required filled (fallback_reason f)) /\ given filled (fallback_reason f).

(** A decision of a router: a route that was selected, perhaps as a fallback, is exact and explained; a failure has
    its errors. *)
Definition decision_told (d : WorkflowModelRoutingDecision) : Prop :=
  Forall filled (warnings d) /\ given fallback_told (fallback d) /\ Forall error_told (errors d) /\
  match decision_status d with
  | Selected | Fallback =>
      required exact_field (decision_model_gateway d) /\ required exact_field (decision_provider d) /\
      required exact_field (decision_model d) /\ required exact_field (decision_reasoning d) /\
      given exact_field (decision_service_tier d) /\ given filled (decision_auth_profile d) /\
      required filled (explanation d) /\
      (decision_status d = Fallback -> required (fun f => used f = true) (fallback d))
  | Error => given filled (explanation d) /\ errors d <> []
  end.

Definition constraints_exact (c : WorkflowModelRoutingConstraints) : Prop :=
  Forall (Forall exact_field)
    [allowed_model_gateways c; preferred_model_gateways c; allowed_providers c; preferred_providers c; allowed_models c;
     preferred_models c; allowed_reasoning c; preferred_reasoning c; allowed_service_tiers c; preferred_service_tiers c] /\
  Forall (Forall filled)
    [allowed_auth_profiles c; allowed_approval_policies c; allowed_permission_profiles c; allowed_worktree_modes c] /\
  given (fun n => (0 < n)%N) (max_context_tokens c) /\ given positive_amount (budget_usd c).

Definition context_exact (c : WorkflowModelRoutingContext) : Prop :=
  given identifier (task_id c) /\ given title_text (task_title c) /\
  Forall (given filled) [project_path c; context_auth_profile c; context_approval_policy c; context_permission_profile c; worktree_mode c] /\
  Forall filled (tags c).

Definition contract_exact (c : WorkflowModelRoutingContract) : Prop :=
  filled (contract_version c) /\ context_exact (context (request c)) /\ constraints_exact (constraints (request c)) /\
  given decision_told (decision c).

Definition exact_route (r : WorkflowModelRoute) : Prop :=
  exact_field (model_gateway r) /\ exact_field (provider r) /\ exact_field (model r) /\ exact_field (reasoning r) /\
  given exact_field (service_tier r) /\ given filled (approval_policy r) /\ given filled (permission_profile r) /\
  given contract_exact (routing r).

(** *** Agents, steps, loops and monitors *)

(** A role, a hyphen and an approved name. *)
Definition role_first (s : str) : Prop :=
  exists r name, s = r ++ 45%N :: name /\ 45%N ∉ name /\ filled r /\ filled name /\ to_ascii_lowercase (trim name) ∈ ANCIENT_NAMES.

Definition agent_ready (a : WorkflowAgent) : Prop :=
  identifier (agent_id a) /\ role_first (agent_display_name a) /\ filled (role a) /\ exact_route (agent_model a).

(** A verifier that can decide: it has something to look for or to run, within limits. *)
Definition decides (v : WorkflowVerifier) : Prop :=
  identifier (verifier_id v) /\
  (kind v = ARTIFACT_CONTAINS_VERIFIER /\ required filled (artifact v) /\ must_contain v <> [] /\ Forall filled (must_contain v) \/
   kind v = RUN_COMMANDS_VERIFIER /\ Forall (required filled) [cwd v; sandbox v; network v] /\
     required (fun n => (0 < n)%N) (timeout_seconds v) /\ required (fun n => (0 < n)%N) (output_limit_bytes v) /\
     commands v <> [] /\ Forall filled (commands v)) /\
  given (fun policy => (0 < max_attempts policy <= 5)%N) (retry_policy v).

(** The model may only say that a step seems to have succeeded; verifiers decide. *)
Definition completion_decided (c : WorkflowCompletion) : Prop :=
  model_marked_state c = lit "candidate_succeeded" /\ verifiers c <> [] /\ NoDup (map verifier_id (verifiers c)) /\
  Forall decides (verifiers c).

(** A reference to a step that exists. *)
Definition known_step (spec : WorkflowSpec) (id : str) : Prop := identifier id /\ id ∈ map step_id (steps spec).

(** A step that can be taken: its agent is there, its model is exact, and verifiers decide its success. *)
Definition step_ready (spec : WorkflowSpec) (step : WorkflowStep) : Prop :=
  title_text (step_title step) /\ agent step ∈ map agent_id (agents spec) /\ required exact_route (step_model step) /\
  given identifier (parallel_group step) /\ Forall filled (outputs step) /\
  (step_id step ∉ depends_on step /\ NoDup (depends_on step) /\ Forall (known_step spec) (depends_on step)) /\
  required completion_decided (completion step).

Definition condition_known (spec : WorkflowSpec) (c : WorkflowStopCondition) : Prop :=
  match c with WorkflowComplete => True | StepSucceeded id => known_step spec id end.

Definition loop_ready (spec : WorkflowSpec) (l : WorkflowLoop) : Prop :=
  identifier (loop_id l) /\ title_text (loop_title l) /\ filled (timezone l) /\
  match schedule l with Dynamic => True | Interval amount _ => (0 < amount)%N | Cron expression => filled expression end /\
  (0 < max_iterations l <= 10000)%N /\ given (fun n => (0 < n)%N) (expires_after_seconds l) /\
  given (known_step spec) (loop_trigger_step l) /\ condition_known spec (loop_stop_condition l).

Definition monitor_ready (spec : WorkflowSpec) (m : WorkflowMonitorLink) : Prop :=
  identifier (monitor_id m) /\ title_text (monitor_title m) /\ source m = lit "existing_thread_monitor" /\
  (0 < max_events_per_tick m <= 50)%N /\ given (known_step spec) (monitor_trigger_step m) /\
  given (condition_known spec) (monitor_stop_condition m).

(** *** The document *)

Definition positive_limits (l : WorkflowLimits) : Prop :=
  Forall (fun n => (0 < n)%N)
    [max_parallel_steps l; max_agents l; max_runtime_seconds l; max_step_runtime_seconds l; max_tokens l; max_tool_calls l].

(** Some agent or step whose names mention adversarial work. *)
Definition has_adversary (spec : WorkflowSpec) : Prop :=
  (exists a, a ∈ agents spec /\ (is_adversarial_text (agent_id a) = true \/ is_adversarial_text (agent_display_name a) = true \/
                                 is_adversarial_text (role a) = true)) \/
  (exists s, s ∈ steps spec /\ (is_adversarial_text (step_id s) = true \/ is_adversarial_text (step_title s) = true)).

Definition status_justified (spec : WorkflowSpec) : Prop :=
  match status spec with
  | Draft => agents spec <> [] /\ steps spec <> [] /\ has_adversary spec
  | NeedsClarification => questions spec <> [] \/ blocking_reasons spec <> []
  | Blocked => blocking_reasons spec <> []
  end.

Record well_formed (spec : WorkflowSpec) : Prop := {
  wf_version : schema_version spec = SUPPORTED_SCHEMA_VERSION;
  wf_head : identifier (workflow_id spec) /\ title_text (display_name spec) /\ filled (source_prompt spec);
  wf_defaults : exact_route (execution_defaults spec);
  wf_limits : positive_limits (limits spec);
  wf_lists : Forall (Forall filled) [required_before spec; required_artifacts spec; on_cancel spec; on_complete spec];
  wf_retention : filled (retention spec);
  wf_agents : (N.of_nat (length (agents spec)) <= max_agents (limits spec))%N /\ NoDup (map agent_id (agents spec)) /\
              Forall agent_ready (agents spec);
  wf_steps : NoDup (map step_id (steps spec)) /\ Forall (fun step => identifier (step_id step)) (steps spec) /\
             Forall (step_ready spec) (steps spec);
  wf_schedulable : schedulable (steps spec);
  wf_loops : length (loops spec) <= 32 /\ NoDup (map loop_id (loops spec)) /\ Forall (loop_ready spec) (loops spec);
  wf_monitors : length (monitors spec) <= 32 /\ NoDup (map monitor_id (monitors spec)) /\
                Forall (monitor_ready spec) (monitors spec);
  wf_status : status_justified spec
}.

(** *** Reading the checks *)

Lemma seq_ok {A} (r : WorkflowSpecResult A) (k : WorkflowSpecResult unit) :
  (r ≫= (fun _ => k)) = Ok tt <-> (exists a, r = Ok a) /\ k = Ok tt.
Proof. destruct r as [a|e]; cbn; [|naive_solver]. split; [intros H; by split; [exists a|]|tauto]. Qed.

Lemma seq_unit (r k : WorkflowSpecResult unit) : (r ≫= (fun _ => k)) = Ok tt <-> r = Ok tt /\ k = Ok tt.
Proof. rewrite seq_ok. split; [by intros [[[] ->] ->]|intros [-> ->]; split; [by exists tt|done]]. Qed.

Lemma invalid_if_ok b m : invalid_if b m = Ok tt <-> b = false.
Proof. destruct b; cbn; split; done. Qed.

Lemma zero_check n m : invalid_if (n =? 0)%N m = Ok tt <-> (0 < n)%N.
Proof. rewrite invalid_if_ok, N.eqb_neq. lia. Qed.

Lemma above_check a b m : invalid_if (a <? b)%N m = Ok tt <-> (b <= a)%N.
Proof. rewrite invalid_if_ok, N.ltb_ge. done. Qed.

Lemma empty_check {A} (l : list A) `{Decision (l = [])} m : invalid_if (bool_decide (l = [])) m = Ok tt <-> l <> [].
Proof. by rewrite invalid_if_ok, bool_decide_eq_false. Qed.

Lemma length_check {A} (l : list A) m : invalid_if (bool_decide (length l = 0)) m = Ok tt <-> l <> [].
Proof. rewrite invalid_if_ok, bool_decide_eq_false. by destruct l. Qed.

Lemma unless_check (P : Prop) `{Decision P} m : invalid_if (negb (bool_decide P)) m = Ok tt <-> P.
Proof. by rewrite invalid_if_ok, negb_false_iff, bool_decide_eq_true. Qed.

Lemma if_some_ok {A} (P : A -> Prop) (o : option A) check :
  (forall a, check a = Ok tt <-> P a) -> if_some o check = Ok tt <-> given P o.
Proof. intros H. destruct o; cbn; [apply H|done]. Qed.

Lemma each_ok {A} (P : A -> Prop) (check : nat -> A -> WorkflowSpecResult unit) values :
  (forall i v, check i v = Ok tt <-> P v) -> validate_each check values = Ok tt <-> Forall P values.
Proof.
  intros HP. unfold validate_each. generalize 0. induction values as [|v values IH]; intros index; cbn [validate_each_from].
  - split; [constructor|done].
  - by rewrite seq_unit, HP, IH, Forall_cons.
Qed.

Lemma fold_ok {A B} (P : B -> Prop) (get : A -> B) (check : A -> WorkflowSpecResult unit) l :
  (forall a, check a = Ok tt <-> P (get a)) -> try_fold (fun (_ : unit) a => check a) l tt = Ok tt <-> Forall P (map get l).
Proof. intros H. rewrite try_fold_unit, Forall_map. by apply Forall_iff. Qed.

Lemma non_empty_ok path v : validate_non_empty path v = Ok tt <-> filled v.
Proof. unfold validate_non_empty. apply empty_check. Qed.

Lemma identifier_ok path v : validate_identifier path v = Ok tt <-> identifier v.
Proof.
  unfold validate_identifier, identifier. rewrite !seq_unit, non_empty_ok, above_check, invalid_if_ok, negb_false_iff.
  rewrite forallb_forall, Forall_forall. by setoid_rewrite list_elem_of_In.
Qed.

Lemma title_ok path v : validate_prompt_field path v = Ok tt <-> title_text v.
Proof. unfold validate_prompt_field, title_text. rewrite seq_unit, non_empty_ok, invalid_if_ok, Nat.ltb_ge. done. Qed.

Lemma string_list_ok path values : validate_string_list path values = Ok tt <-> Forall filled values.
Proof. apply each_ok. intros i v. apply non_empty_ok. Qed.

Lemma route_field_ok path field v : validate_route_field path field v = Ok tt <-> exact_field v.
Proof. unfold validate_route_field. by rewrite seq_unit, non_empty_ok, invalid_if_ok, bool_decide_eq_false. Qed.

Lemma value_list_ok path field values : validate_route_value_list path field values = Ok tt <-> Forall exact_field values.
Proof. apply each_ok. intros i v. apply route_field_ok. Qed.

Lemma required_filled o : filled (default [] o) <-> required filled o.
Proof. destruct o; [done|]. cbn. split; [intros H; by apply H|done]. Qed.

Lemma required_route_ok path field o : validate_required_decision_route_field path field o = Ok tt <-> required exact_field o.
Proof.
  unfold validate_required_decision_route_field. rewrite route_field_ok. destruct o; [done|]. split; [intros [H _]; by apply H|done].
Qed.

Lemma positive_default (o : option N) m : invalid_if (default 0 o =? 0)%N m = Ok tt <-> required (fun n => (0 < n)%N) o.
Proof. rewrite zero_check. destruct o; cbn; [done|]. lia. Qed.

(** Optional fields. *)
Lemma opt_filled o path : if_some o (validate_non_empty path) = Ok tt <-> given filled o.
Proof. apply if_some_ok. intros. apply non_empty_ok. Qed.
Lemma opt_identifier o path : if_some o (validate_identifier path) = Ok tt <-> given identifier o.
Proof. apply if_some_ok. intros. apply identifier_ok. Qed.
Lemma opt_route_field o path field : if_some o (validate_route_field path field) = Ok tt <-> given exact_field o.
Proof. apply if_some_ok. intros. apply route_field_ok. Qed.
Lemma opt_positive (o : option N) m : if_some o (fun n => invalid_if (n =? 0)%N m) = Ok tt <-> given (fun n => (0 < n)%N) o.
Proof. apply if_some_ok. intros. apply zero_check. Qed.

#[local] Hint Rewrite seq_unit zero_check above_check @empty_check @length_check unless_check non_empty_ok identifier_ok title_ok
  string_list_ok route_field_ok value_list_ok required_filled required_route_ok positive_default opt_filled opt_identifier
  opt_route_field opt_positive : checks.

(** *** Routes *)

Lemma routing_error_ok path e : validate_routing_error path e = Ok tt <-> error_told e.
Proof. unfold validate_routing_error. by autorewrite with checks. Qed.

Lemma routing_errors_ok path es : validate_routing_errors path es = Ok tt <-> Forall error_told es.
Proof. apply each_ok. intros. apply routing_error_ok. Qed.

Lemma fallback_ok path f : validate_fallback path f = Ok tt <-> fallback_told f.
Proof.
  unfold validate_fallback, fallback_told. destruct (used f); autorewrite with checks.
  - destruct (fallback_reason f); cbn; tauto.
  - split; [|by intros [_ ?]]. intros H. by split.
Qed.

Lemma decision_ok path d : validate_decision path d = Ok tt <-> decision_told d.
Proof.
  unfold validate_decision, decision_told. rewrite !seq_unit, string_list_ok, (if_some_ok fallback_told _ _ (fallback_ok _)).
  destruct (decision_status d) eqn:Es; autorewrite with checks; rewrite routing_errors_ok.
  - split; intros H; decompose [and] H; split_and!; try done; discriminate.
  - assert (Hf : (match fallback d with
                  | None => Err (Invalid (dotted path "fallback must describe why fallback routing was used"))
                  | Some fallback => invalid_if (negb (used fallback)) (dotted path "fallback.used must be true for fallback decisions")
                  end) = Ok tt <-> required (fun f => used f = true) (fallback d)).
    { destruct (fallback d); cbn; [|done]. by rewrite invalid_if_ok, negb_false_iff. }
    rewrite Hf. split; intros H; decompose [and] H; split_and!; auto.
  - tauto.
Qed.

Lemma constraints_ok path c : validate_constraints path c = Ok tt <-> constraints_exact c.
Proof.
  unfold validate_constraints, constraints_exact. rewrite !seq_unit.
  rewrite (fold_ok (Forall exact_field) snd) by (intros [f vs]; apply value_list_ok).
  rewrite (fold_ok (Forall filled) snd) by (intros [f vs]; apply string_list_ok).
  rewrite opt_positive, (if_some_ok positive_amount); [done|]. intros b. rewrite seq_unit, non_empty_ok. unfold positive_amount.
  destruct (parse_f64 b); cbn; [|by split; intros [_ ?]]. by rewrite invalid_if_ok, negb_false_iff.
Qed.

Lemma context_ok path c : validate_context path c = Ok tt <-> context_exact c.
Proof.
  unfold validate_context, context_exact. autorewrite with checks.
  rewrite (fold_ok (given filled) snd) by (intros [f v]; apply opt_filled).
  rewrite (if_some_ok title_text) by (intros; apply title_ok). done.
Qed.

Lemma contract_ok path c : validate_contract path c = Ok tt <-> contract_exact c.
Proof.
  unfold validate_contract, validate_request, contract_exact. autorewrite with checks. rewrite context_ok, constraints_ok.
  rewrite (if_some_ok decision_told) by (intros; apply decision_ok). tauto.
Qed.

Lemma route_ok path r : validate_route path r = Ok tt <-> exact_route r.
Proof.
  unfold validate_route. autorewrite with checks. by rewrite (if_some_ok contract_exact) by (intros; apply contract_ok).
Qed.

Lemma limits_ok l : validate_limits l = Ok tt <-> positive_limits l.
Proof. unfold validate_limits, positive_limits. autorewrite with checks. rewrite !Forall_cons, Forall_nil. tauto. Qed.

(** *** Distinct identifiers *)

(** A loop that collects the identifiers it has seen. *)
Lemma distinct_fold {A} (f : gset str -> A -> WorkflowSpecResult (gset str)) (id : A -> str) (P : A -> Prop) l seen seen' :
  (forall seen a seen', f seen a = Ok seen' <-> (id a ∉ seen /\ P a) /\ seen' = {[id a]} ∪ seen) ->
  try_fold f l seen = Ok seen' <->
  (NoDup (map id l) /\ Forall P l /\ forall x, x ∈ map id l -> x ∉ seen) /\ seen' = list_to_set (map id l) ∪ seen.
Proof.
  intros Hf. revert seen. induction l as [|a l IH]; intros seen; cbn [try_fold map list_to_set].
  - rewrite (left_id_L ∅ (∪)). split; [intros [= <-]; split; [|done]; split_and!; [constructor..|by intros ? ?%elem_of_nil]|by intros [_ ->]].
  - rewrite NoDup_cons, Forall_cons. split.
    + intros H. bind_inv H. apply Hf in Ha as [[Hn Hp] ->]. apply IH in H as [(Hnd & HP & Hout) ->]. split; [|set_solver].
      split_and!; [intros Hx; apply (Hout _ Hx); set_solver|done..|].
      intros x [->|Hx]%elem_of_cons; [done|]. specialize (Hout x Hx). set_solver.
    + intros [((Hn & Hnd) & (Hp & HP) & Hout) ->]. rewrite (proj2 (Hf seen a ({[id a]} ∪ seen))); [|split; [|reflexivity]].
      * cbn [mbind result_bind]. apply IH. split; [|set_solver]. split_and!; [done..|]. intros x Hx.
        specialize (Hout x ltac:(by right)). intros [->%elem_of_singleton|Hs]%elem_of_union; done.
      * split; [|done]. apply Hout. by left.
Qed.

(** Such a loop from nothing. *)
Lemma distinct_ok {A} (f : gset str -> A -> WorkflowSpecResult (gset str)) (id : A -> str) (P : A -> Prop) l :
  (forall seen a seen', f seen a = Ok seen' <-> (id a ∉ seen /\ P a) /\ seen' = {[id a]} ∪ seen) ->
  (exists seen', try_fold f l ∅ = Ok seen') <-> NoDup (map id l) /\ Forall P l.
Proof.
  intros Hf. split.
  - intros [seen' H]. apply (distinct_fold _ id P _ _ _ Hf) in H. tauto.
  - intros [Hn HP]. eexists. apply (distinct_fold _ id P _ _ _ Hf). split; [|reflexivity]. split_and!; [done..|]. set_solver.
Qed.

Lemma distinct_id_ok what seen id path seen' :
  distinct_id what seen id path = Ok seen' <-> (id ∉ seen /\ identifier id) /\ seen' = {[id]} ∪ seen.
Proof.
  unfold distinct_id. rewrite <- (identifier_ok path). destruct (validate_identifier path id) as [[]|e]; cbn; [|naive_solver].
  case_bool_decide; naive_solver.
Qed.

Lemma seq_any {A} (r : WorkflowSpecResult unit) (k : WorkflowSpecResult A) a :
  (r ≫= (fun _ => k)) = Ok a <-> r = Ok tt /\ k = Ok a.
Proof. destruct r as [[]|e]; cbn; naive_solver. Qed.

Lemma ok_eq {A} (a b : A) : (Ok a : WorkflowSpecResult A) = Ok b <-> b = a.
Proof. naive_solver. Qed.

(** A distinct identifier and further checks of the element. *)
Lemma distinct_then (what id path : str) (seen : gset str) (seen' : gset str) (k : gset str -> WorkflowSpecResult (gset str)) (P : Prop) :
  (forall ids out, k ids = Ok out <-> P /\ out = ids) ->
  (distinct_id what seen id path ≫= k) = Ok seen' <-> (id ∉ seen /\ identifier id /\ P) /\ seen' = {[id]} ∪ seen.
Proof.
  intros HP. split.
  - intros H. bind_inv H. apply distinct_id_ok in Ha as [[? ?] ->]. by apply HP in H as [? ->].
  - intros [(Hn & Hi & Hc) ->]. rewrite (proj2 (distinct_id_ok what seen id path _) (conj (conj Hn Hi) eq_refl)). by apply HP.
Qed.

(** *** Agents and steps *)

Lemma binary_search_elem fuel l lo hi x : binary_search_from fuel l lo hi x = true -> x ∈ l.
Proof.
  revert lo hi. induction fuel as [|fuel IH]; intros lo hi; cbn [binary_search_from]; [done|].
  destruct (hi <=? lo); [done|]. destruct (l !! _) as [y|] eqn:Ey; [|done].
  case_bool_decide as Hy; [subst y; intros _; by eapply list_elem_of_lookup_2|]. destruct (str_leb y x); apply IH.
Qed.

Lemma ancient_name_known name : binary_search ANCIENT_NAMES name = true <-> name ∈ ANCIENT_NAMES.
Proof.
  split; [apply binary_search_elem|].
  assert (H : Forall (fun n => binary_search ANCIENT_NAMES n = true) ANCIENT_NAMES).
  { apply (bool_decide_unpack _). vm_compute. exact I. }
  intros Hin. by eapply Forall_forall in H.
Qed.

Lemma display_name_ok s : is_ancient_display_name s = true <-> role_first s.
Proof.
  unfold is_ancient_display_name, role_first. split.
  - destruct (rsplit_once 45 s) as [[r name]|] eqn:E; [|done]. intros H.
    destruct (_ || _) eqn:Eo; [done|]. apply orb_false_iff in Eo as [Hr Hn].
    apply bool_decide_eq_false in Hr, Hn. apply ancient_name_known in H.
    exists r, name. split; [by apply rsplit_once_eq|]. split; [by eapply rsplit_once_notin|done].
  - intros (r & name & -> & Hno & Hr & Hn & Hin). rewrite rsplit_once_free by done.
    rewrite !bool_decide_false by done. cbn. by apply ancient_name_known.
Qed.

Lemma agents_ok spec : validate_agents spec = Ok tt <->
  (N.of_nat (length (agents spec)) <= max_agents (limits spec))%N /\ NoDup (map agent_id (agents spec)) /\
  Forall agent_ready (agents spec).
Proof.
  unfold validate_agents. rewrite seq_unit, seq_ok, above_check.
  rewrite (distinct_ok _ agent_id agent_ready); [tauto|]. intros seen a seen'. unfold validate_agent.
  apply distinct_then. intros ids out. rewrite !seq_any, ok_eq, invalid_if_ok, negb_false_iff, display_name_ok, route_ok, non_empty_ok. tauto.
Qed.

Lemma dependencies_ok step ids : validate_dependencies step ids = Ok tt <->
  step_id step ∉ depends_on step /\ NoDup (depends_on step) /\ Forall (fun d => identifier d /\ d ∈ ids) (depends_on step).
Proof.
  unfold validate_dependencies. rewrite seq_ok.
  rewrite (distinct_ok _ (fun d : str => d) (fun d => d <> step_id step /\ identifier d /\ d ∈ ids)).
  - rewrite map_id, Forall_and, (Forall_forall (fun d => d <> step_id step)). split; [|naive_solver]. naive_solver.
  - intros seen d seen'. rewrite !seq_any, ok_eq, identifier_ok, unless_check, !invalid_if_ok, !bool_decide_eq_false. tauto.
Qed.

Lemma verifier_ok step_id v : validate_verifier step_id v = Ok tt <-> decides v.
Proof.
  unfold validate_verifier, decides. rewrite !seq_unit, identifier_ok.
  assert (Hretry : forall m m', (if_some (retry_policy v) (fun policy => invalid_if (max_attempts policy =? 0)%N m) = Ok tt /\
    if_some (retry_policy v) (fun policy => invalid_if (MAX_VERIFIER_RETRY_ATTEMPTS <? max_attempts policy)%N m') = Ok tt) <->
    given (fun policy => (0 < max_attempts policy <= 5)%N) (retry_policy v)).
  { intros m m'. destruct (retry_policy v); cbn [if_some given]; [|tauto]. rewrite zero_check, above_check. done. }
  rewrite Hretry. do 2 apply and_iff_compat_l || apply and_iff_compat_r.
  case_bool_decide as Hk; [|case_bool_decide as Hr]; autorewrite with checks.
  - rewrite Hk. split; [tauto|]. intros [H|[H _]]; [tauto|discriminate].
  - rewrite (fold_ok (required filled) snd) by (intros [f o]; rewrite non_empty_ok; apply required_filled). cbn [map snd].
    split; [tauto|]. intros [[H _]|H]; [congruence|tauto].
  - split; [discriminate|]. tauto.
Qed.

Lemma completion_ok step_id c : validate_completion step_id c = Ok tt <-> completion_decided c.
Proof.
  unfold validate_completion, completion_decided. rewrite !seq_unit, seq_ok, unless_check, length_check.
  rewrite (distinct_ok _ verifier_id decides); [tauto|]. intros seen v seen'. rewrite <- (verifier_ok step_id).
  destruct (validate_verifier step_id v) as [[]|e]; cbn; [|naive_solver]. case_bool_decide; naive_solver.
Qed.

Lemma known_ids (spec : WorkflowSpec) (ids : gset str) : (forall x, x ∈ ids <-> x ∈ map step_id (steps spec)) ->
  forall x, identifier x /\ x ∈ ids <-> known_step spec x.
Proof. intros H x. unfold known_step. by rewrite H. Qed.

Lemma step_ok spec agent_ids step_ids step :
  (forall x, x ∈ agent_ids <-> x ∈ map agent_id (agents spec)) -> (forall x, x ∈ step_ids <-> x ∈ map step_id (steps spec)) ->
  validate_step agent_ids step_ids step = Ok tt <-> step_ready spec step.
Proof.
  intros Hag Hst. unfold validate_step, step_ready. rewrite !seq_unit, title_ok, unless_check, Hag.
  destruct (step_model step) as [route|]; cbn [required]; [|naive_solver]. autorewrite with checks.
  rewrite route_ok, dependencies_ok. rewrite (Forall_iff _ _ (known_step spec) (known_ids spec step_ids Hst)).
  destruct (completion step) as [c|]; cbn [required]; [rewrite completion_ok; tauto|naive_solver].
Qed.

Lemma steps_ok spec : validate_steps spec = Done tt <->
  NoDup (map step_id (steps spec)) /\ Forall (fun step => identifier (step_id step)) (steps spec) /\
  Forall (step_ready spec) (steps spec) /\ schedulable (steps spec).
Proof.
  unfold validate_steps.
  assert (Hid : forall seen step seen', distinct_id (lit "step") seen (step_id step) (lit "step.id") = Ok seen' <->
    (step_id step ∉ seen /\ identifier (step_id step)) /\ seen' = {[step_id step]} ∪ seen) by (intros; apply distinct_id_ok).
  assert (Hstep : Forall (fun step => validate_step (list_to_set (map agent_id (agents spec))) (list_to_set (map step_id (steps spec)) ∪ ∅)
    step = Ok tt) (steps spec) <-> Forall (step_ready spec) (steps spec)).
  { apply Forall_iff. intros step. apply step_ok; set_solver. }
  assert (Hacyclic : validate_acyclic_dependencies (steps spec) = Done tt <-> schedulable (steps spec)).
  { destruct (acyclic_check_cases (steps spec)) as [[-> ?]|[-> ?]]; [done|]. split; [discriminate|done]. }
  rewrite <- Hacyclic, <- Hstep. split.
  - intros H. bind_inv H. apply try_done in Ha, Ha0. destruct a0. apply try_fold_unit in Ha0.
    apply (distinct_fold _ step_id (fun step => identifier (step_id step))) in Ha as [(Hnd & HP & _) ->]; [|done]. by split_and!.
  - intros (Hnd & HP & Hall & Ha). apply try_fold_unit in Hall.
    assert (Hout : forall x, x ∈ map step_id (steps spec) -> x ∉ (∅ : gset str)) by set_solver.
    rewrite (proj2 (distinct_fold _ step_id (fun step => identifier (step_id step)) (steps spec) ∅ _ Hid)
      (conj (conj Hnd (conj HP Hout)) eq_refl)).
    cbn [try_ mbind run_bind]. by rewrite Hall.
Qed.

(** *** Loops and monitors *)

Section references.
Context (spec : WorkflowSpec) (ids : gset str) (Hids : forall x, x ∈ ids <-> x ∈ map step_id (steps spec)).

Lemma step_ref_ok path o : validate_optional_step_ref path o ids = Ok tt <-> given (known_step spec) o.
Proof. apply if_some_ok. intros id. rewrite seq_unit, identifier_ok, unless_check. by apply known_ids. Qed.

Lemma stop_condition_ok path c : validate_stop_condition path c ids = Ok tt <-> condition_known spec c.
Proof. destruct c as [|id]; cbn; [done|]. rewrite seq_unit, identifier_ok, unless_check. by apply known_ids. Qed.

Lemma schedule_ok id s : validate_loop_schedule id s = Ok tt <->
  match s with Dynamic => True | Interval amount _ => (0 < amount)%N | Cron expression => filled expression end.
Proof. destruct s; cbn [validate_loop_schedule]; [done|apply zero_check|apply non_empty_ok]. Qed.

Lemma loops_ok : validate_loops spec ids = Ok tt <->
  length (loops spec) <= 32 /\ NoDup (map loop_id (loops spec)) /\ Forall (loop_ready spec) (loops spec).
Proof.
  unfold validate_loops. rewrite seq_unit, seq_ok, invalid_if_ok, Nat.ltb_ge.
  rewrite (distinct_ok _ loop_id (loop_ready spec)); [unfold MAX_WORKFLOW_LOOPS; tauto|]. intros seen l seen'. unfold validate_loop.
  apply distinct_then. intros out out'. rewrite !seq_any, ok_eq. autorewrite with checks. rewrite schedule_ok, step_ref_ok, stop_condition_ok.
  unfold MAX_WORKFLOW_LOOP_ITERATIONS. tauto.
Qed.

Lemma monitors_ok : validate_monitor_links (monitors spec) ids = Ok tt <->
  length (monitors spec) <= 32 /\ NoDup (map monitor_id (monitors spec)) /\ Forall (monitor_ready spec) (monitors spec).
Proof.
  unfold validate_monitor_links. rewrite seq_unit, seq_ok, invalid_if_ok, Nat.ltb_ge.
  rewrite (distinct_ok _ monitor_id (monitor_ready spec)); [unfold MAX_WORKFLOW_MONITOR_LINKS; tauto|]. intros seen m seen'.
  unfold validate_monitor. apply distinct_then. intros out out'. rewrite !seq_any, ok_eq. autorewrite with checks.
  rewrite step_ref_ok, (if_some_ok (condition_known spec)) by (intros; apply stop_condition_ok).
  unfold MAX_WORKFLOW_MONITOR_EVENTS_PER_TICK. tauto.
Qed.

End references.

(** *** The status *)

Lemma filter_none {A} (p : A -> bool) l : (length (List.filter p l) =? 0) = false <-> exists a, a ∈ l /\ p a = true.
Proof.
  rewrite Nat.eqb_neq. split.
  - intros H. destruct (List.filter p l) as [|a r] eqn:E; [done|]. exists a.
    rewrite list_elem_of_In, <- List.filter_In, E. by left.
  - intros (a & Ha). rewrite list_elem_of_In, <- List.filter_In in Ha. intros Hl. apply length_zero_iff_nil in Hl. by rewrite Hl in Ha.
Qed.

Lemma adversarial_ok spec : validate_adversarial_work spec = Ok tt <-> has_adversary spec.
Proof.
  unfold validate_adversarial_work, has_adversary. rewrite invalid_if_ok, andb_false_iff, !filter_none.
  split; (intros [(x & Hx & H)|(x & Hx & H)]; [left|right]; exists x; (split; [done|])); revert H; rewrite !orb_true_iff; tauto.
Qed.

Lemma status_ok spec : validate_status spec = Ok tt <-> status_justified spec.
Proof.
  unfold validate_status, status_justified. destruct (status spec); autorewrite with checks; rewrite ?adversarial_ok; try tauto.
  rewrite invalid_if_ok, andb_false_iff, !bool_decide_eq_false. done.
Qed.

(** Sequencing in a run. *)
Lemma run_seq (r : WorkflowSpecResult unit) (k : run WorkflowSpecError unit) :
  (try_ r ≫= (fun _ => k)) = Done tt <-> r = Ok tt /\ k = Done tt.
Proof. destruct r as [[]|e]; cbn; naive_solver. Qed.

Lemma validate_well_formed spec : validate spec = Done tt <-> well_formed spec.
Proof.
  unfold validate. rewrite !run_seq. cbv zeta.
  assert (Hsteps : forall k, (validate_steps spec ≫= (fun _ => k)) = Done tt <-> validate_steps spec = Done tt /\ k = Done tt).
  { intros k. destruct (validate_steps spec) as [[]| | |]; cbn; naive_solver. }
  rewrite Hsteps, !run_seq, try_done. autorewrite with checks.
  assert (Hids : forall x, x ∈ (list_to_set (map step_id (steps spec)) : gset str) <-> x ∈ map step_id (steps spec))
    by (intros x; apply elem_of_list_to_set).
  rewrite route_ok, limits_ok, agents_ok, steps_ok, (loops_ok _ _ Hids), (monitors_ok _ _ Hids), status_ok. split.
  - intros H. decompose [and] H. constructor; split_and?; try done. by repeat constructor.
  - intros [Hv (? & ? & ?) Hd Hl Hlists Hret (? & ? & ?) (? & ? & ?) Hs (? & ? & ?) (? & ? & ?) Hst].
    rewrite !Forall_cons in Hlists. destruct Hlists as (? & ? & ? & ? & _). by split_and!.
Qed.

Lemma steps_safe spec : safe (validate_steps spec).
Proof.
  unfold validate_steps. apply safe_bind; [apply safe_try|intros ids _]. apply safe_bind; [apply safe_try|intros _ _].
  by destruct (acyclic_check_cases (steps spec)) as [[-> _]|[-> _]].
Qed.

Lemma validate_safe spec : safe (validate spec).
Proof.
  unfold validate. repeat (apply safe_bind; [first [apply safe_try|apply steps_safe]|intros ? _]). apply safe_try.
Qed.

(** *** Documents *)

(** A value without tags, and with mappings whose keys are texts other than the merge key. *)
Fixpoint plain (v : Value) : Prop :=
  match v with
  | Tagged _ _ => False
  | Mapping mapping =>
      (fix go mapping := match mapping with
                         | [] => True
                         | (key, nested) :: mapping => (exists k, key = String k /\ k <> lit "<<") /\ plain nested /\ go mapping
                         end) mapping
  | Sequence sequence =>
      (fix go sequence := match sequence with [] => True | nested :: sequence => plain nested /\ go sequence end) sequence
  | _ => True
  end.

Fixpoint plain_exact (v : Value) : forall path, reject_unsupported_yaml_features v path = Ok tt <-> plain v.
Proof.
  destruct v as [| | | |items|entries|tag v]; intros path; [clear plain_exact; done..| | |clear plain_exact; done].
  - cbn [reject_unsupported_yaml_features plain]. generalize 0. induction items as [|v items IH]; intros n; [done|].
    rewrite result_bind_ok. setoid_rewrite IH. rewrite <- (plain_exact v (at_index path n)).
    split; [intros ([] & ? & ?); done|intros [? ?]; by exists tt].
  - cbn [reject_unsupported_yaml_features plain]. induction entries as [|[key v] entries IH]; [done|].
    destruct key as [| | |k| | |]; try (split; [done|intros ((? & ? & _) & _); done]).
    case_bool_decide as Hk; [split; [done|intros ((? & [= <-] & ?) & _); done]|].
    rewrite result_bind_ok. setoid_rewrite IH. rewrite <- (plain_exact v (path ++ lit "." ++ k)).
    split; [intros ([] & ? & ?); split; [by exists k|done]|intros (_ & ? & ?); by exists tt].
Qed.

Lemma contains_sub_spec needle s : contains_sub needle s = true <-> exists a b, s = a ++ needle ++ b.
Proof.
  unfold contains_sub. induction s as [|c s IH]; cbn [find_sub].
  - destruct (starts_with needle []) eqn:E; (split; [|try done]).
    + intros _. apply starts_with_spec in E as [r Hr]. by exists [], r.
    + done.
    + intros (a & b & Hab). symmetry in Hab. apply app_nil in Hab as [-> [-> ->]%app_nil]. done.
  - destruct (starts_with needle (c :: s)) eqn:E.
    { split; [|done]. intros _. apply starts_with_spec in E as [r Hr]. by exists [], r. }
    destruct (find_sub needle s) as [i|]; cbn [fmap option_fmap option_map].
    + split; [|done]. intros _. destruct (proj1 IH eq_refl) as (a & b & ->). by exists (c :: a), b.
    + split; [done|]. intros (a & b & Hab). destruct a as [|d a].
      * assert (Hs : starts_with needle (c :: s) = true) by (apply starts_with_spec; by exists b). congruence.
      * injection Hab as -> Hs. apply (proj2 IH). by exists a, b.
Qed.

(** A line of the document starts with a fence. *)
Definition fenced (raw : str) : Prop := exists a b, trim raw = a ++ fence ++ b /\ (a = [] \/ last a = Some NL).

Lemma fenced_spec raw : starts_with fence (trim raw) || contains_sub (NL :: fence) (trim raw) = true <-> fenced raw.
Proof.
  rewrite orb_true_iff, starts_with_spec, contains_sub_spec. unfold fenced. split.
  - intros [[r Hr]|(a & b & Hab)]; [by exists [], r; split; [|left]|]. exists (a ++ [NL]), b. rewrite last_snoc, <- app_assoc.
    split; [done|by right].
  - intros (a & b & Hab & [-> |Hl]); [left; by exists b|right]. apply last_Some in Hl as [a' ->]. rewrite <- app_assoc in Hab.
    by exists a', b.
Qed.

(** C36: Reading a workflow document never panics, and it returns a specification exactly when the document is at most
    256 KiB, not blank, has no line that starts with a code fence, is read as a value without tags, merge keys and
    keys that are not texts, and that value converts to this specification and is well formed. [well_formed] states
    every promise of validation: the supported version; identifiers, titles and texts that are filled and of bounded
    length; exact model routes whose routing contracts have positive token limits and budgets, exact values and
    explained decisions; positive limits; distinct agents within their number with approved names; distinct steps with
    a known agent, known dependencies without a cycle, and a completion that the model marks as [candidate_succeeded]
    and verifiers decide within limits; bounded loops and monitors that refer to known steps; and a status that is
    justified. *)
Theorem workflow_documents_sound from_str from_value raw :
  safe (parse_workflow_yaml from_str from_value raw) /\
  forall spec, parse_workflow_yaml from_str from_value raw = Done spec <->
    (str_len raw <= 262144)%N /\ filled raw /\ ~ fenced raw /\
    (exists value, from_str raw = Ok value /\ plain value /\ from_value value = Ok spec) /\ well_formed spec.
Proof.
  unfold parse_workflow_yaml. split.
  - destruct (_ <? _)%N; [done|]. case_bool_decide; [done|]. destruct (_ || _); [done|].
    apply safe_bind; [apply safe_try|intros value _]. apply safe_bind; [apply safe_try|intros _ _].
    apply safe_bind; [apply safe_try|intros spec _]. apply safe_bind; [apply validate_safe|done].
  - intros spec. destruct (N.ltb_spec MAX_WORKFLOW_YAML_BYTES (str_len raw)) as [Hlong|Hshort].
    { split; [done|]. intros [H _]. exfalso. unfold MAX_WORKFLOW_YAML_BYTES in Hlong. lia. }
    case_bool_decide as Hblank; [split; [done|]; by intros (_ & H & _)|].
    destruct (_ || _) eqn:Ef; [split; [done|]; intros (_ & _ & H & _); by apply fenced_spec in Ef|].
    rewrite <- not_true_iff_false, fenced_spec in Ef. rewrite <- validate_well_formed. split.
    + intros Hs. bind_inv Hs. injection Hs as ->. apply try_done in Ha, Ha0, Ha1. apply map_err_ok in Ha, Ha1. destruct a0, a2.
      apply plain_exact in Ha0. split_and!; [done..| |done]. by exists a.
    + intros (_ & _ & _ & (value & Hv & Hp%(plain_exact _ (lit "$")) & Hfrom) & Hvalid).
      rewrite Hv. cbn [map_err try_ mbind run_bind]. rewrite Hp. cbn [map_err try_ mbind run_bind]. rewrite Hfrom.
      cbn [map_err try_ mbind run_bind]. by rewrite Hvalid.
Qed.

(** A small draft with two steps, the second waiting for the first. *)
Definition demo_route : WorkflowModelRoute :=
  {| model_gateway := lit "direct"; provider := lit "openai"; model := lit "gpt-5"; reasoning := lit "high"; service_tier := None;
     approval_policy := None; permission_profile := None; routing := None |}.
Definition demo_verifier : WorkflowVerifier :=
  {| verifier_id := lit "tests"; kind := RUN_COMMANDS_VERIFIER; artifact := None; must_contain := []; cwd := Some (lit ".");
     sandbox := Some (lit "workspace"); network := Some (lit "none"); timeout_seconds := Some 60%N; output_limit_bytes := Some 1000%N;
     commands := [lit "just test"]; expected_stdout := None; expected_exit_code := None; retry_policy := None |}.
Definition demo_step (id : string) (deps : list str) : WorkflowStep :=
  {| step_id := lit id; step_title := lit "adversarial review"; agent := lit "a"; step_model := Some demo_route; workspace := None;
     parallel_group := None; depends_on := deps; approval_gate := None; outputs := [];
     completion := Some {| model_marked_state := CANDIDATE_SUCCEEDED; verifiers := [demo_verifier] |} |}.
Definition demo_spec (ss : list WorkflowStep) : WorkflowSpec :=
  {| schema_version := SUPPORTED_SCHEMA_VERSION; workflow_id := lit "w"; display_name := lit "W"; source_prompt := lit "p";
     status := Draft; questions := []; blocking_reasons := []; execution_defaults := demo_route;
     limits := {| max_parallel_steps := 1; max_agents := 1; max_worktrees := 0; max_runtime_seconds := 1;
                  max_step_runtime_seconds := 1; max_tokens := 1; max_tool_calls := 1 |};
     required_before := [];
     agents := [{| agent_id := lit "a"; agent_display_name := lit "reviewer-Hypatia"; role := lit "reviewer"; agent_model := demo_route |}];
     steps := ss; loops := []; monitors := []; retention := lit "forever"; required_artifacts := []; on_cancel := [];
     on_complete := [] |}.

Lemma workflow_documents_sound_witness :
  schedulable [demo_step "two" [lit "one"]; demo_step "one" []].
Proof.
  apply (wf_schedulable (demo_spec [demo_step "two" [lit "one"]; demo_step "one" []])).
  apply (workflow_documents_sound (fun _ => Ok Null) (fun _ => Ok (demo_spec [demo_step "two" [lit "one"]; demo_step "one" []])) (lit "x")).
  vm_compute. reflexivity.
Defined.

(** Two steps that wait for each other are refused. *)
Example cycle_refused :
  validate (demo_spec [demo_step "one" [lit "two"]; demo_step "two" [lit "one"]]) =
    Fail (Invalid (lit "workflow step dependencies contain a cycle")).
Proof. vm_compute. reflexivity. Qed.

(** The names of agents are in order, so that the search finds each of them. *)
Example ancient_names_found : forallb (binary_search ANCIENT_NAMES) ANCIENT_NAMES = true.
Proof. vm_compute. reflexivity. Qed.

Example budgets :
  (finite_positive <$> parse_f64 (lit "12.5e-3")) = Some true /\ (finite_positive <$> parse_f64 (lit "1e-400")) = Some false /\
  (finite_positive <$> parse_f64 (lit "1e309")) = Some false /\ (finite_positive <$> parse_f64 (lit "-inf")) = Some false /\
  parse_f64 (lit "1.e") = None /\ parse_f64 (lit ".") = None.
Proof. vm_compute. split_and!; reflexivity. Qed.

End WorkflowValidation.
